(* ===== verification/_CoqProject ===== *)
-Q . S2P
Prelude.v
CamTypes.v
CamCommon.v
CamContract.v
CamPreviewStopped.v
CamPreviewReady.v
CamPreviewing.v
CamPrepareSnapshot.v
CamPicTaking.v
CamRecording.v
CamVideoPicTaking.v
CamPreviewPicTaking.v
FifoSpec.v
CamQueue.v
CamMachine.v
CamHwi.v
CamApi.v
CamProps.v
Agps.v
LocHeap.v
LocTimer.v
TsReorder.v
UClampVoter.v
SessionTaskMap.v
BackgroundWorker.v
PowerSession.v
Doubles.v
SessionRecords.v
HintSession.v
HintProps.v
CStr.v
CameraParams.v
CamParamParse.v
QParamTables.v
QParams.v
QSetters.v
QParamKeeps.v
QParamProps.v
FrameParser.v
H264Bits.v
H264Parser.v
H264State.v
H264Props.v
H264Loops.v
NalFrames.v
VdecInput.v
VdecInputRules.v
VdecInputProps.v
VdecInputLoop.v
OrderedMap.v
LocAdapter.v
Geofence.v
GeofenceInv.v
GeofenceProps.v
GeofenceSafe.v
GeofenceFaults.v
Batching.v
BatchingProps.v
LocClients.v
LocApiClient.v
LocApiProps.v
Interaction.v
PowerChannels.v
PowerService.v
CropMapper.v
Lights.v
ThermalTables.v
Thermal.v
ThermalProps.v
