(* ===== verification/Prelude.v ===== *)
(** * Device sources of the Xiaomi Redmi 4 Prime (markw): verification library

    The repository holds the vendor parts of an Android device: the hardware
    abstraction layers (HALs) that system services load.  They are separate
    programs that share no state.  The library models the ones that keep
    state of their own and decide something:

    - the camera HAL1 ([camera/QCamera2/HAL]): the device operations called by
      the camera service, the state machine that serialises them with the
      events of the camera and JPEG back ends, the thread that runs it, and
      the parameters of the application;
    - the GNSS HAL ([gps]): the AGPS data-connection manager, the heap and the
      timers of its utilities, the geofence adapter, and the clients of the
      location API;
    - the power HAL ([power-libperfmgr/aidl]): power hint sessions with their
      PID control, threads, votes, timeouts and frame statistics, the boost of
      a touch, the message channels, and the service in front of them;
    - the lights HAL ([light]) and the thermal HAL ([thermal]);
    - of the camera HAL3, the crop region mapper;
    - the video decoder ([qcom-caf/media/mm-video-v4l2]): the reordering of
      timestamps, the splitting of a stream into units, the H.264 and HEVC
      parsers, and the way of the client's bytes into frames.

    ** Conventions

    A definition has the name of the function it translates; where two
    functions share a name the file or Module tells them apart.  Pure and
    sequential code is a function on an explicit state; code that calls out is
    a program of type [prog] of this file, a tree that branches on each answer
    of what it calls, so that a theorem on [wp] holds for every behaviour of
    the callee; [wp_run] turns it into the run against a concrete one, and
    [wlp] is the form for claims that a run does not end well.  Threads that
    interleave are steps.  [None] and [Ub] are undefined behaviour or an
    uncaught exception: a dangling, null or ill-typed pointer, an access out
    of range, a division by zero, a conversion out of range.  Logging and
    tracing are left out everywhere.  An integer is a [Z]; it is wrapped
    ([wrap_signed], [wrap_unsigned]) where the code converts or can reach the
    limit of its type, and the files say which quantities cannot.

    ** Camera HAL: the state machine

    [CamTypes] has the enumerations, the variables of [QCameraStateMachine]
    and the operations of [QCamera2HardwareInterface] that its handlers call,
    [hwi_call]; [CamCommon] what the handlers share.  [CamPreviewStopped],
    [CamPreviewReady], [CamPreviewing], [CamPrepareSnapshot], [CamPicTaking],
    [CamRecording], [CamVideoPicTaking] and [CamPreviewPicTaking] model one
    [procEvt..State] function each, one definition per group of cases
    ([on_take_picture] is [case QCAMERA_SM_EVT_TAKE_PICTURE]).  Each proves
    for its handler the contract of [CamContract]: which states may follow,
    which API calls and events are answered, how often and with which result
    type, and the invariant of the delayed message types.  [CamMachine] is
    the dispatcher, the two command queues with their semaphore, and one turn
    of the thread routine; it uses only the contract and the class [FifoQueue]
    of [FifoSpec].  [CamQueue] is [QCameraQueue.cpp] on linked nodes, proved to
    refine the list of its data, which discharges [FifoQueue].  [CamHwi] is
    the hand-over between the API threads and the machine (result list,
    synchronous events, back-end events); [CamApi] the [camera_device]
    operations, with the locking and posting protocol proved as an automaton
    over their calls.  [CamProps] has the theorems on the whole: every dispatch
    meets the contract, the thread refines running the commands one by one, an
    API call is answered, the recording state agrees with the hardware, and
    the cases in which the code leaves a caller without an answer or reports
    the wrong one.

    ** Camera HAL: the parameters

    [CStr]: the functions of libc on text that the parsers use.
    [CameraParams]: [CameraParameters.cpp], the map of texts over the class
    [KeyedVector] (libutils), its text form and the parsers of pairs and
    lists, with round trips of the text, of numbers and sizes.
    [CamParamParse]: the text helpers of [QCameraParameters.cpp] (lists of
    sizes, focus areas), round trips and the inputs on which they fail.
    [QParamTables] has the tables of names and values, [QParams] the
    parameters object with its batch of entries for the back end and the
    commit, [QSetters] some 150 setters.  [QParamKeeps] is the framework of
    the proofs about all setters: what each keeps.  [QParamProps]: after any
    sequence of updates and commits the map agrees with what the back end was
    told, a request that changes nothing sends nothing, and the cases in which
    the locks, the flash mode and the EXIF texts go wrong.

    ** GNSS HAL

    [Agps]: [AgpsManager] and its two [AgpsStateMachine]s; subscribers are
    objects at addresses, callbacks are outputs.  Theorems: the invariant of
    every sequence of modem requests and framework events, for whichever of the
    two machines exist, nobody is dropped without being told, data connections are requested and released as the
    state says, who is told of a grant, the bound of the APN, and three ways
    in which the code fails.  [LocHeap]: the rank heap, with its order and size
    invariant, sorting, and removal by address.  [LocTimer]: a container of
    timers as a step relation of clients, polling thread and message thread;
    no wake-up is lost, what an expiry pops, and two defects of removal; it
    uses the heap through the lemmas of [LocHeap].

    [OrderedMap]: maps that are iterated in the order of their keys, as
    [std::map] is; the channels of the power HAL use it too.
    [LocAdapter]: what the adapters share ([LocAdapterBase.cpp],
    [ContextBase.cpp]): callbacks, capabilities, session numbers.  [Geofence]:
    [GeofenceAdapter.cpp] with its two maps, the arrays of its commands as
    blocks of a heap, its message thread, and the response objects that the
    modem's API holds and answers in any order; [step] is one call from outside
    or one turn of the thread, undefined if memory is used after it was freed.
    [GeofenceInv] has the invariant, relative to what is still under way.
    [GeofenceProps]: the maps agree in all runs, and breaches are reported to
    the owners.  [GeofenceSafe]: the runs in which nothing is used after it was
    freed; [GeofenceFaults]: a run of an ordinary modem in which something is,
    and further defects.  [Batching]: [BatchingAdapter.cpp] in the same way:
    sessions of the engine, and trips, which share one batch of the engine;
    reads of elements that are not in a map give what a parameter says, or are
    undefined.  [BatchingProps]: who is registered for the event of a full
    batch, as an invariant of runs in which two answers do not come; the trips
    against an odometer, in the dialogue of the adapter with an engine that
    answers where it stands; where the next batch ends; sessions whose
    stop is refused, trips that are over, and calls that are not answered.
    [LocClients]: [LocationAPI.cpp], the clients, the
    adapter libraries, the deletion of a client once all adapters forgot it,
    and the clients that are never deleted.
    [LocApiClient]: [LocationAPIClientBase.cpp], the objects through which the
    framework's interfaces use that API, with their dictionaries of ids and
    queues of requests.  [LocApiProps]: the answers reach the callbacks of their
    calls in orderly runs, the fences behave as a table of the framework's ids,
    and the answers that are lost or mixed up, and the removal that removes
    nothing.

    ** Power HAL

    [UClampVoter]: [Votes], with the range they request independent of the
    iteration order.  [SessionTaskMap]: the two maps with their shared
    pointers; [replace] and the agreement of both directions.  [PowerSession]:
    [PowerSessionManager] as programs over the system calls and libraries it
    uses; after any operations the maps agree, no pointer dangles, clamps are
    in range, and, as long as no target duration is changed, each active vote
    has a timeout event in time.
    [BackgroundWorker]: the queue of timeouts, with the interleavings of its
    callers; a package is lost only if two calls of [schedule] overlap.
    [Doubles]: floating-point numbers on top of [SpecFloat], with bounds.
    [SessionRecords]: the ring of frames and the index queue, proved to answer
    as the list of the last frames does.  [HintSession]: [PowerHintSession],
    the calls of an application on its session, as programs over the
    operations of the manager of [PowerSession]; [HintProps]: the PID control
    against a reference, the requests of a session from its constructor to its
    destructor, and two ways in which a report fails.

    [Interaction]: the boost of a touch, callers and the thread interleaved; it
    is held exactly while the handler says so, and ends once nobody asks.
    [PowerChannels]: the channels of the sessions, their groups, and a turn of
    the thread of a group, which calls the operations of [HintSession]; the two
    maps, the counts and the slots agree, and what the dispatch loses.
    [PowerService]: the calls of the framework, on [Interaction] and
    [PowerChannels]; what is reported as supported, and a mode that is never
    left.

    ** Lights, thermal, crop regions

    [Lights]: colours, the devices as files, and the service; calls and the
    thread that blinks interleave at every write of a file.  In an orderly run
    the LED shows the light that was chosen last; a race leaves it lit.
    [ThermalTables]: the tables of the sensors of every chip, as data;
    [Thermal]: the choice of a table, the sensors with their thresholds, the
    severity, the trips given to the kernel, the map of sensors with the
    events of the kernel, and the clients.  [ThermalProps]: the severity
    against a reference for every sensor of the tables, each change told once,
    the clients that are called, and a percentage that never recovers.
    [CropMapper]: rectangles and points between the active array and the
    output of the sensor, and what a way there and back loses.

    ** Video decoder

    [TsReorder]: the tables of timestamps; their counts, the order in which
    timestamps come out, and an end of stream that stops them.
    [FrameParser]: [frameparser.cpp], byte for byte; in any run of a client
    that gives sources and takes destinations the parser finds the leftmost
    start codes, but for destinations that a run of zeros overflows; it
    converts the NAL units, and ends.
    [H264Bits] and [H264Parser]: [h264_stream_parser] and [panscan_handler] of
    [h264_utils.cpp], as functions on the state of the parser that are
    undefined where the code is.  [H264State]: whatever the stream holds, the
    state stays well formed, by a judgement [saves] that composes.
    [H264Props]: what is written as the standard says is read back, up to a
    whole sequence parameter set with its VUI, exactly when no 32-bit field
    begins at a word of the reader and no code is longer than 61 bits.  [H264Loops]: the loops on bits end.
    [NalFrames]: [RbspParser], [H264_Utils] and [HEVC_Utils]; the payload of a
    unit, where a frame begins, and the length at which a unit is rejected.
    [VdecInput]: [push_input_buffer] of [omx_vdec_v4l2.cpp] and its entries,
    which compose the frame parser, the parser of parameter sets and the
    search for frames: a monad over the state of the component that
    may fail, end undefined, and records the calls that leave it.
    [VdecInputRules] has the judgements for such programs, over any preorder
    [RunRel] of states and events, and what one call of a parser does to the
    buffers.  [VdecInputProps]: the frames hold the stream, the buffers are
    accounted for, and the last frame that is lost.  [VdecInputLoop]: the loop
    ends, except for a codec that it has no case for.

    ** Termination

    Loops over data are structural recursions.  Fuel is used in these places:
    the walks along the nodes of a queue in [CamQueue], one unit per node
    of the store (the refinement theorem shows that no walk runs out); the
    loop of [applyUclampLocked] in [PowerSession], one unit per thread of
    the session (out of fuel is [Ub], which the theorems exclude); the loop of
    an expiry in [LocTimer], one unit per timer and one more; [unflatten],
    [parseSizesList] and the areas, one unit per byte of the text and one more
    (each turn takes a byte); a call of the frame parser, four units per byte
    and five more (shown to be enough); the loops of the H.264 parser, one unit
    per bit left or per byte of a unit, and of [NalFrames], one unit per bit or
    byte and one more (shown to be enough); the loop of [push_input_buffer],
    for which [turns] is the bound (two units per byte and two per source); the
    loops that try to read a file three times, by their count [RETRY_CT]; the
    walk over the channels of a group, one unit per slot, and the dispatch of
    messages, one unit per message.  The
    thread of the camera machine runs
    for a given number of turns because it is meant not to end.

    ** Not modelled

    What the modelled parts call: the camera channels, streams and
    post-processing, the back end, HIDL and binder, libperfmgr, libfmq, the
    kernel, the property service.  Of the parameters: the setters that compute
    with floating point or fill structures of the back end, the default values,
    the stream formats.  Of the thermal HAL, the sockets from which its events
    come.  Of the batching adapter, the parsing of its configuration file.  Of
    the decoder's input: the MPEG-4 header parser, the demux
    descriptors, the rejection of streams by profile, and what the flush does
    to the component's message queue.  The other parts of the tree (HAL3 but
    for the crop mapper, the GNSS adapter, audio, display, the rest
    of the OMX components and others) and the Java applications.
    Operations that hold one lock throughout are atomic; so are taken the
    operations of the power session manager, the calls on a hint session and
    those of the thermal HAL.  Of the timers, the wake-locks and the start of
    the threads; of the sessions, dumps and printed statistics.

    ** Plan

    What would come next: the session tables of the GNSS adapter and the
    parsers of [SystemStatus.cpp]; the post-processing queues of the
    camera HAL1 on top of [CamQueue].

    This file: machine integers, lemmas on lists, and interaction programs. *)
From stdpp Require Export base list option numbers decidable gmap.

(** ** Machine integers

    A [w]-bit integer is a [Z]; the wrap-around of the C types is explicit. *)
Definition wrap_unsigned (w z : Z) : Z := z `mod` 2 ^ w.
Definition wrap_signed (w z : Z) : Z :=
  (z + 2 ^ (w - 1)) `mod` 2 ^ w - 2 ^ (w - 1).

Lemma wrap_unsigned_range w z : (0 < w → 0 ≤ wrap_unsigned w z < 2 ^ w)%Z.
Proof. intros Hw. apply Z.mod_pos_bound. apply Z.pow_pos_nonneg; lia. Qed.

Lemma wrap_unsigned_small w z : (0 ≤ z < 2 ^ w → wrap_unsigned w z = z)%Z.
Proof. apply Z.mod_small. Qed.

Lemma wrap_signed_range w z :
  (0 < w → - 2 ^ (w - 1) ≤ wrap_signed w z < 2 ^ (w - 1))%Z.
Proof.
  intros Hw. unfold wrap_signed.
  assert (2 ^ w = 2 * 2 ^ (w - 1))%Z as Hp.
  { rewrite <- Z.pow_succ_r by lia. f_equal. lia. }
  pose proof (Z.pow_pos_nonneg 2 (w - 1)).
  pose proof (Z.mod_pos_bound (z + 2 ^ (w - 1)) (2 ^ w)). lia.
Qed.

Lemma wrap_signed_small w z :
  (0 < w → - 2 ^ (w - 1) ≤ z < 2 ^ (w - 1) → wrap_signed w z = z)%Z.
Proof.
  intros Hw Hz. unfold wrap_signed.
  assert (2 ^ w = 2 * 2 ^ (w - 1))%Z as Hp.
  { rewrite <- Z.pow_succ_r by lia. f_equal. lia. }
  rewrite Z.mod_small; lia.
Qed.

(** ** Bytes and bits *)
Definition is_byte (b : Z) : Prop := (0 ≤ b < 256)%Z.

Lemma land_disjoint x b k : (0 ≤ k → 0 ≤ b < 2 ^ k → Z.land (x * 2 ^ k) b = 0)%Z.
Proof.
  intros Hk Hb. apply Z.bits_inj'. intros i Hi. rewrite Z.land_spec, Z.bits_0.
  destruct (decide (i < k)%Z).
  - by rewrite Z.mul_pow2_bits_low.
  - apply andb_false_iff. right. destruct (decide (b = 0)%Z) as [->|]; [apply Z.bits_0|].
    apply Z.bits_above_log2; [lia|]. apply Z.log2_lt_pow2; [lia|].
    apply Z.lt_le_trans with (2 ^ k)%Z; [lia|]. apply Z.pow_le_mono_r; lia.
Qed.

(** ** Lists *)
Lemma filter_all {A} (P : A → Prop) `{∀ x, Decision (P x)} (l : list A) :
  (∀ x, P x) → base.filter P l = l.
Proof.
  intros HP. induction l as [|x l IH]; [done|]. by rewrite filter_cons, decide_True, IH.
Qed.

Lemma filter_none {A} (P : A → Prop) `{∀ x, Decision (P x)} (l : list A) :
  (∀ x, ¬ P x) → base.filter P l = [].
Proof.
  intros HP. induction l as [|x l IH]; [done|]. by rewrite filter_cons, decide_False, IH.
Qed.

Lemma NoDup_fmap_filter {A B} (f : A → B) (P : A → Prop) `{∀ x, Decision (P x)} l :
  NoDup (f <$> l) → NoDup (f <$> base.filter P l).
Proof.
  induction l as [|x l IH]; intros Hnd; [done|]. rewrite filter_cons.
  apply NoDup_cons in Hnd as [Hx Hnd]. case_decide; [|auto].
  apply NoDup_cons. split; [|auto]. intros Hin. apply Hx.
  apply list_elem_of_fmap in Hin as (y & -> & Hy).
  apply list_elem_of_filter in Hy as [_ Hy]. by apply list_elem_of_fmap_2.
Qed.

(** ** Interaction programs

    A component that keeps a state [S] and talks to another component through
    calls [C] is a program of this type.  The callee is not fixed: a program
    is a tree that branches on what each call answers, so a statement about
    all its branches holds for every behaviour of the callee.  [Ub] is a read
    through a pointer that does not have the type the code casts it to. *)
Inductive prog (E : Type → Type) (S A : Type) : Type :=
  | Ret (a : A)
  | Ub
  | Get (k : S → prog E S A)
  | Put (s : S) (k : prog E S A)
  | Call {X : Type} (e : E X) (k : X → prog E S A).
Arguments Ret {_ _ _} _.
Arguments Ub {_ _ _}.
Arguments Get {_ _ _} _.
Arguments Put {_ _ _} _ _.
Arguments Call {_ _ _ _} _ _.

Fixpoint prog_bind {E S A B} (f : A → prog E S B) (p : prog E S A) : prog E S B :=
  match p with
  | Ret a => f a
  | Ub => Ub
  | Get k => Get (λ s, prog_bind f (k s))
  | Put s k => Put s (prog_bind f k)
  | Call e k => Call e (λ x, prog_bind f (k x))
  end.

#[export] Instance prog_mret E S : MRet (prog E S) := λ A, Ret.
#[export] Instance prog_mbind E S : MBind (prog E S) := λ A B, prog_bind.
#[export] Instance prog_fmap E S : FMap (prog E S) :=
  λ A B f, prog_bind (λ a, Ret (f a)).

Definition call {E S A} (e : E A) : prog E S A := Call e Ret.
Definition gets {E S A} (f : S → A) : prog E S A := Get (λ s, Ret (f s)).
Definition modify {E S} (f : S → S) : prog E S () :=
  Get (λ s, Put (f s) (Ret ())).
Definition when {E S} (b : bool) (p : prog E S ()) : prog E S () :=
  if b then p else Ret ().

(** What a program does is observed as the calls it made, each with the answer
    it got. *)
Inductive event (E : Type → Type) : Type :=
  | Ev (X : Type) (e : E X) (x : X).
Arguments Ev {_ _} _ _.

(** A concrete callee: a transition function over its own state [W]. *)
Record callee (E : Type → Type) (W : Type) := Callee {
  reply : ∀ X : Type, E X → W → X * W
}.
Arguments Callee {_ _} _.
Arguments reply {_ _} _ {_} _ _.

Fixpoint run {E S W A} (env : callee E W) (p : prog E S A)
    (s : S) (w : W) (tr : list (event E)) :
    option (A * S * W * list (event E)) :=
  match p with
  | Ret a => Some (a, s, w, tr)
  | Ub => None
  | Get k => run env (k s) s w tr
  | Put s' k => run env k s' w tr
  | Call e k =>
      let '(x, w') := reply env e w in run env (k x) s w' (tr ++ [Ev e x])
  end.

(** [wp p Q s tr]: from state [s], with the calls [tr] made so far, [p] never
    reads through an ill-typed pointer, and on every branch ends with a
    result, a state and a trace that satisfy [Q]. *)
Fixpoint wp {E S A} (p : prog E S A)
    (Q : A → S → list (event E) → Prop) (s : S) (tr : list (event E)) : Prop :=
  match p with
  | Ret a => Q a s tr
  | Ub => False
  | Get k => wp (k s) Q s tr
  | Put s' k => wp k Q s' tr
  | Call e k => ∀ x, wp (k x) Q s (tr ++ [Ev e x])
  end.

Section wp_lemmas.
Context {E : Type → Type} {S : Type}.

Lemma wp_bind {A B} (p : prog E S A) (f : A → prog E S B) Q s tr :
  wp (p ≫= f) Q s tr ↔ wp p (λ a s' tr', wp (f a) Q s' tr') s tr.
Proof.
  revert s tr. unfold mbind, prog_mbind.
  induction p as [a| |k IH|s' k IH|X e k IH]; intros s tr; simpl; auto.
  split; intros Hx x; apply IH, Hx.
Qed.

Lemma wp_mono {A} (p : prog E S A) (Q Q' : A → S → list (event E) → Prop) s tr :
  (∀ a s' tr', Q a s' tr' → Q' a s' tr') → wp p Q s tr → wp p Q' s tr.
Proof.
  intros HQ. revert s tr. induction p; intros s' tr; simpl; auto.
Qed.

Lemma wp_and {A} (p : prog E S A) Q Q' s tr :
  wp p Q s tr → wp p Q' s tr → wp p (λ a s' tr', Q a s' tr' ∧ Q' a s' tr') s tr.
Proof.
  revert s tr. induction p; intros s' tr; simpl; auto.
Qed.

(** Adequacy: what holds on every branch holds of the run against any
    concrete callee, and that run does produce a result. *)
Lemma wp_run {W A} (env : callee E W) (p : prog E S A) Q s w tr :
  wp p Q s tr →
  ∃ a s' w' tr', run env p s w tr = Some (a, s', w', tr') ∧ Q a s' tr'.
Proof.
  revert s w tr. induction p as [a| |k IH|s' k IH|X e k IH]; intros s w tr Hwp.
  - by exists a, s, w, tr.
  - done.
  - apply IH, Hwp.
  - apply IH, Hwp.
  - simpl. destruct (reply env e w) as [x w']. apply IH, Hwp.
Qed.

(** The liberal form: undefined behaviour satisfies it.  With [False] for [Q]
    it says that every branch ends in undefined behaviour. *)
Fixpoint wlp {A} (p : prog E S A) (Q : A → S → Prop) (s : S) : Prop :=
  match p with
  | Ret a => Q a s
  | Ub => True
  | Get k => wlp (k s) Q s
  | Put s' k => wlp k Q s'
  | Call e k => ∀ x, wlp (k x) Q s
  end.

Lemma wlp_bind {A B} (p : prog E S A) (f : A → prog E S B) Q s :
  wlp (p ≫= f) Q s ↔ wlp p (λ a s', wlp (f a) Q s') s.
Proof.
  revert s. unfold mbind, prog_mbind.
  induction p as [a| |k IH|s' k IH|X e k IH]; intros s; simpl; auto.
  split; intros Hx x; apply IH, Hx.
Qed.

Lemma wlp_mono {A} (p : prog E S A) (Q Q' : A → S → Prop) s :
  (∀ a s', Q a s' → Q' a s') → wlp p Q s → wlp p Q' s.
Proof. intros HQ. revert s. induction p; intros s'; simpl; auto. Qed.

Lemma wlp_run {W A} (env : callee E W) (p : prog E S A) Q s w tr a s' w' tr' :
  wlp p Q s → run env p s w tr = Some (a, s', w', tr') → Q a s'.
Proof.
  revert s w tr. induction p as [b| |k IH|t k IH|X e k IH]; intros s w tr Hwlp Hrun; simpl in *.
  - by simplify_eq.
  - done.
  - eapply IH, Hrun. apply Hwlp.
  - eapply IH, Hrun. apply Hwlp.
  - destruct (reply env e w) as [x v]. eapply IH, Hrun. apply Hwlp.
Qed.

Lemma wlp_undefined {W A} (env : callee E W) (p : prog E S A) s w tr :
  wlp p (λ _ _, False) s → run env p s w tr = None.
Proof.
  intros Hp. destruct (run env p s w tr) as [[[[a s'] w'] tr']|] eqn:E0; [|done].
  exfalso. exact (wlp_run env p _ s w tr a s' w' tr' Hp E0).
Qed.
End wp_lemmas.
