(* ===== verification/CamTypes.v ===== *)
(** * Camera HAL state machine: data, interface to the hardware object, monad

    Models the declarations of [camera/QCamera2/HAL/QCameraStateMachine.h] and
    the operations of [QCamera2HardwareInterface] that the handlers of
    [QCameraStateMachine.cpp] call.  The hardware object is the callee of the
    handlers: each call is a constructor of [hwi_call], and nothing is assumed
    about what it answers. *)
From stdpp Require Import strings.
From S2P Require Import Prelude.

(** ** Events, states and results *)
Inductive sm_evt :=
  | SET_PREVIEW_WINDOW | SET_CALLBACKS | ENABLE_MSG_TYPE | DISABLE_MSG_TYPE
  | MSG_TYPE_ENABLED | SET_PARAMS | SET_PARAMS_STOP | SET_PARAMS_COMMIT
  | SET_PARAMS_RESTART | GET_PARAMS | PUT_PARAMS | PREPARE_PREVIEW
  | START_PREVIEW | START_NODISPLAY_PREVIEW | STOP_PREVIEW | PREVIEW_ENABLED
  | STORE_METADATA_IN_BUFS | PRE_START_RECORDING | START_RECORDING
  | STOP_RECORDING | RECORDING_ENABLED | RELEASE_RECORIDNG_FRAME
  | PREPARE_SNAPSHOT | PRE_TAKE_PICTURE | TAKE_PICTURE | CANCEL_PICTURE
  | START_AUTO_FOCUS | STOP_AUTO_FOCUS | SEND_COMMAND | RELEASE | DUMP
  | REG_FACE_IMAGE
  | EVT_INTERNAL | EVT_NOTIFY | JPEG_EVT_NOTIFY | SNAPSHOT_DONE
  | THERMAL_NOTIFY | STOP_CAPTURE_CHANNEL | RESTART_PERVIEW | DELAYED_RESTART
  | SEND_COMMAND_RESTART | RESTART_START_PREVIEW | RESTART_STOP_PREVIEW.

#[export] Instance sm_evt_eq_dec : EqDecision sm_evt.
Proof. solve_decision. Defined.

(** The integer value of an event: the enumeration starts at 1. *)
Definition all_evts : list sm_evt :=
  [SET_PREVIEW_WINDOW; SET_CALLBACKS; ENABLE_MSG_TYPE; DISABLE_MSG_TYPE;
   MSG_TYPE_ENABLED; SET_PARAMS; SET_PARAMS_STOP; SET_PARAMS_COMMIT;
   SET_PARAMS_RESTART; GET_PARAMS; PUT_PARAMS; PREPARE_PREVIEW;
   START_PREVIEW; START_NODISPLAY_PREVIEW; STOP_PREVIEW; PREVIEW_ENABLED;
   STORE_METADATA_IN_BUFS; PRE_START_RECORDING; START_RECORDING;
   STOP_RECORDING; RECORDING_ENABLED; RELEASE_RECORIDNG_FRAME;
   PREPARE_SNAPSHOT; PRE_TAKE_PICTURE; TAKE_PICTURE; CANCEL_PICTURE;
   START_AUTO_FOCUS; STOP_AUTO_FOCUS; SEND_COMMAND; RELEASE; DUMP;
   REG_FACE_IMAGE;
   EVT_INTERNAL; EVT_NOTIFY; JPEG_EVT_NOTIFY; SNAPSHOT_DONE;
   THERMAL_NOTIFY; STOP_CAPTURE_CHANNEL; RESTART_PERVIEW; DELAYED_RESTART;
   SEND_COMMAND_RESTART; RESTART_START_PREVIEW; RESTART_STOP_PREVIEW].

Fixpoint index_of (e : sm_evt) (l : list sm_evt) : Z :=
  match l with
  | [] => 0
  | x :: l => if decide (x = e) then 0 else 1 + index_of e l
  end%Z.

Definition evt_code (e : sm_evt) : Z := (1 + index_of e all_evts)%Z.

Inductive sm_state :=
  | ST_PREVIEW_STOPPED | ST_PREVIEW_READY | ST_PREVIEWING | ST_PREPARE_SNAPSHOT
  | ST_PIC_TAKING | ST_RECORDING | ST_VIDEO_PIC_TAKING | ST_PREVIEW_PIC_TAKING.

#[export] Instance sm_state_eq_dec : EqDecision sm_state.
Proof. solve_decision. Defined.

Inductive result_type := RT_DEF | RT_ENABLE_FLAG | RT_PARAMS | RT_HANDLE.

#[export] Instance result_type_eq_dec : EqDecision result_type.
Proof. solve_decision. Defined.

(** [qcamera_api_result_t]; the union of [enabled], [params] and [handle] is
    one field, zero when the handler leaves it as [memset] made it. *)
Record api_result := ApiResult {
  status : Z;
  request_api : sm_evt;
  res_type : result_type;
  res_union : Z
}.

#[export] Instance api_result_eq_dec : EqDecision api_result.
Proof. solve_decision. Defined.

Inductive internal_evt :=
  | IE_FOCUS_UPDATE | IE_PREP_SNAPSHOT_DONE | IE_FACE_DETECT_RESULT
  | IE_HISTOGRAM_STATS | IE_CROP_INFO | IE_ASD_UPDATE
  | IE_READY_FOR_SNAPSHOT | IE_LED_MODE_OVERRIDE | IE_AWB_UPDATE
  | IE_AE_UPDATE | IE_FOCUS_POS_UPDATE | IE_HDR_UPDATE | IE_RETRO_AEC_UNLOCK
  | IE_ZSL_CAPTURE_DONE | IE_DUAL_CAM_UPDATE.

(** [cam_event_type_t] of [stack/common/cam_types.h]. *)
Definition CAM_EVENT_TYPE_DAEMON_DIED : Z := Z.shiftl 1 3.
Definition CAM_EVENT_TYPE_INT_TAKE_JPEG : Z := Z.shiftl 1 4.
Definition CAM_EVENT_TYPE_INT_TAKE_RAW : Z := Z.shiftl 1 5.
Definition CAM_EVENT_TYPE_CAC_DONE : Z := Z.shiftl 1 7.

(** [cam_manual_capture_type] starts at [CAM_MANUAL_CAPTURE_TYPE_OFF] = 0. *)
Definition CAM_MANUAL_CAPTURE_TYPE_3 : Z := 3.

Inductive channel_type := CH_TYPE_ZSL | CH_TYPE_PREVIEW.

(** ** Android's constants

    [utils/Errors.h] and [system/camera.h] are not part of the sources: their
    constants are parameters, with the few facts the code relies on. *)
Class Platform := {
  NO_ERROR : Z;
  UNKNOWN_ERROR : Z;
  INVALID_OPERATION : Z;
  BAD_VALUE : Z;
  NO_MEMORY : Z;
  DEAD_OBJECT : Z;
  CAMERA_MSG_ERROR : Z;
  CAMERA_MSG_PREVIEW_FRAME : Z;
  CAMERA_ERROR_SERVER_DIED : Z;
  CAMERA_CMD_LONGSHOT_ON : Z;
  CAMERA_CMD_LONGSHOT_OFF : Z;
  vanilla_hal : bool
}.

Class PlatformLaws `{Platform} := {
  no_error_zero : NO_ERROR = 0%Z;
  unknown_error_nz : UNKNOWN_ERROR ≠ 0%Z;
  invalid_operation_nz : INVALID_OPERATION ≠ 0%Z;
  bad_value_nz : BAD_VALUE ≠ 0%Z;
  no_memory_nz : NO_MEMORY ≠ 0%Z;
  dead_object_nz : DEAD_OBJECT ≠ 0%Z;
  preview_frame_nz : CAMERA_MSG_PREVIEW_FRAME ≠ 0%Z
}.

(** ** Event payloads

    A payload is a pointer and what the memory it points to holds. *)
Definition ptr := Z.
Definition blob := Z.

Inductive object :=
  | ONone
  | OInt (z : Z)
  | OSetCb (notify_cb data_cb data_cb_timestamp get_memory user : ptr)
  | OCommand (cmd arg1 arg2 : Z)
  | ORegFace (img_ptr config : ptr)
  | OCamEvent (server_event_type : Z)
  | OInternal (evt_type : internal_evt) (data : blob).

Record payload := Payload { p_addr : ptr; p_obj : object }.

(** ** Calls on the hardware object ([m_parent])

    The index of the type is what a call returns: a status or a pointer ([Z]),
    a flag, nothing, or a status with the value of a reference parameter.
    Reading or writing a member of the hardware object is a call as well. *)
Inductive hwi_call : Type → Type :=
  | setPreviewWindow (w : ptr) : hwi_call Z
  | setCallBacks (notify_cb data_cb data_cb_timestamp get_memory user : ptr) : hwi_call Z
  | waitDeferredWork_mParamInitJob : hwi_call Z
  | enableMsgType (m : Z) : hwi_call Z
  | disableMsgType (m : Z) : hwi_call Z
  | msgTypeEnabled (m : Z) : hwi_call Z
  | updateParameters (p : ptr) : hwi_call (Z * bool)
  | commitParameterChanges : hwi_call Z
  | setNeedRestart (b : bool) : hwi_call ()
  | memoryPool_clear : hwi_call ()
  | malloc (n : Z) : hwi_call Z
  | getParameters : hwi_call Z
  | putParameters (p : ptr) : hwi_call Z
  | get_mPreviewWindow : hwi_call Z
  | preparePreview : hwi_call Z
  | startPreview : hwi_call Z
  | unpreparePreview : hwi_call ()
  | stopPreview : hwi_call Z
  | release : hwi_call Z
  | storeMetaDataInBuffers (b : Z) : hwi_call Z
  | dump (fd : Z) : hwi_call Z
  | sendCommand (cmd arg1 arg2 : Z) : hwi_call Z
  | closeNativeHandle (p : ptr) : hwi_call ()
  | autoFocus : hwi_call Z
  | cancelAutoFocus : hwi_call Z
  | registerFaceImage (img config : ptr) : hwi_call (Z * Z)
  | updateThermalLevel (p : ptr) : hwi_call Z
  | sendEvtNotify (msg ext1 ext2 : Z) : hwi_call Z
  | signalAPIResult (r : api_result) : hwi_call ()
  | signalEvtResult (r : api_result) : hwi_call ()
  | updateFlashMode (d : blob) : hwi_call Z
  | preStartRecording : hwi_call Z
  | startRecording : hwi_call Z
  | stopRecording : hwi_call Z
  | releaseRecordingFrame (p : ptr) : hwi_call Z
  | prepareHardwareForSnapshot (afNeeded : bool) : hwi_call Z
  | preTakePicture : hwi_call Z
  | takePicture : hwi_call Z
  | takeLiveSnapshot : hwi_call Z
  | cancelPicture : hwi_call Z
  | cancelLiveSnapshot : hwi_call Z
  | longShot : hwi_call Z
  | getRecordingHintValue : hwi_call bool
  | updateRecordingHintValue (b : bool) : hwi_call Z
  | isZSLMode : hwi_call bool
  | isLongshotEnabled : hwi_call bool
  | isRetroPicture : hwi_call bool
  | isPreviewRestartEnabled : hwi_call bool
  | getManualCaptureMode : hwi_call Z
  | updateZSLModeValue (b : bool) : hwi_call Z
  | unconfigureAdvancedCapture : hwi_call Z
  | stopCaptureChannel (restart : bool) : hwi_call Z
  | set_m_bPreviewStarted (b : bool) : hwi_call ()
  | set_mCACDoneReceived (b : bool) : hwi_call ()
  | isCACEnabled : hwi_call bool
  | isOEMFeatEnabled : hwi_call bool
  | isCaptureShutterEnabled : hwi_call bool
  | playShutter : hwi_call ()
  | stopChannel (t : channel_type) : hwi_call Z
  | processJpegNotify (p : ptr) : hwi_call Z
  | processAutoFocusEvent (d : blob) : hwi_call Z
  | processPrepSnapshotDoneEvent (d : blob) : hwi_call Z
  | processFaceDetectionResult (d : blob) : hwi_call Z
  | processHistogramStats (d : blob) : hwi_call Z
  | processZoomEvent (d : blob) : hwi_call Z
  | processASDUpdate (d : blob) : hwi_call Z
  | transAwbMetaToParams (d : blob) : hwi_call Z
  | processAEInfo (d : blob) : hwi_call Z
  | processFocusPositionInfo (d : blob) : hwi_call Z
  | processHDRData (d : blob) : hwi_call Z
  | processRetroAECUnlock : hwi_call Z
  | processZSLCaptureDone : hwi_call Z.

(** ** The variables of the state machine *)
Record sm_vars := SmVars {
  m_state : sm_state;
  m_bDelayPreviewMsgs : bool;
  m_bPreviewNeedsRestart : bool;
  m_bPreviewDelayedRestart : bool;
  m_DelayedMsgs : Z;
  m_RestoreZSL : bool;
  m_bPreviewCallbackNeeded : bool;
  m_bPreviewRestartedInternal : bool
}.

Definition set_state (x : sm_state) (v : sm_vars) : sm_vars :=
  SmVars x (m_bDelayPreviewMsgs v) (m_bPreviewNeedsRestart v)
    (m_bPreviewDelayedRestart v) (m_DelayedMsgs v) (m_RestoreZSL v)
    (m_bPreviewCallbackNeeded v) (m_bPreviewRestartedInternal v).
Definition set_delay_msgs (b : bool) (v : sm_vars) : sm_vars :=
  SmVars (m_state v) b (m_bPreviewNeedsRestart v)
    (m_bPreviewDelayedRestart v) (m_DelayedMsgs v) (m_RestoreZSL v)
    (m_bPreviewCallbackNeeded v) (m_bPreviewRestartedInternal v).
Definition set_needs_restart (b : bool) (v : sm_vars) : sm_vars :=
  SmVars (m_state v) (m_bDelayPreviewMsgs v) b
    (m_bPreviewDelayedRestart v) (m_DelayedMsgs v) (m_RestoreZSL v)
    (m_bPreviewCallbackNeeded v) (m_bPreviewRestartedInternal v).
Definition set_delayed_restart (b : bool) (v : sm_vars) : sm_vars :=
  SmVars (m_state v) (m_bDelayPreviewMsgs v) (m_bPreviewNeedsRestart v)
    b (m_DelayedMsgs v) (m_RestoreZSL v)
    (m_bPreviewCallbackNeeded v) (m_bPreviewRestartedInternal v).
Definition set_delayed (m : Z) (v : sm_vars) : sm_vars :=
  SmVars (m_state v) (m_bDelayPreviewMsgs v) (m_bPreviewNeedsRestart v)
    (m_bPreviewDelayedRestart v) m (m_RestoreZSL v)
    (m_bPreviewCallbackNeeded v) (m_bPreviewRestartedInternal v).
Definition set_restore_zsl (b : bool) (v : sm_vars) : sm_vars :=
  SmVars (m_state v) (m_bDelayPreviewMsgs v) (m_bPreviewNeedsRestart v)
    (m_bPreviewDelayedRestart v) (m_DelayedMsgs v) b
    (m_bPreviewCallbackNeeded v) (m_bPreviewRestartedInternal v).
Definition set_preview_cb_needed (b : bool) (v : sm_vars) : sm_vars :=
  SmVars (m_state v) (m_bDelayPreviewMsgs v) (m_bPreviewNeedsRestart v)
    (m_bPreviewDelayedRestart v) (m_DelayedMsgs v) (m_RestoreZSL v)
    b (m_bPreviewRestartedInternal v).
Definition set_restarted_internal (b : bool) (v : sm_vars) : sm_vars :=
  SmVars (m_state v) (m_bDelayPreviewMsgs v) (m_bPreviewNeedsRestart v)
    (m_bPreviewDelayedRestart v) (m_DelayedMsgs v) (m_RestoreZSL v)
    (m_bPreviewCallbackNeeded v) b.

Abbreviation sm := (prog hwi_call sm_vars).

(** ** Reading a payload

    The casts of [payload] in the handlers: the pointer itself is always
    there, what it points to has to be of the type of the cast. *)
Definition as_int (pl : payload) : sm Z :=
  match p_obj pl with OInt z => mret z | _ => Ub end.
Definition as_setcb (pl : payload) : sm (ptr * ptr * ptr * ptr * ptr) :=
  match p_obj pl with OSetCb a b c d e => mret (a, b, c, d, e) | _ => Ub end.
Definition as_command (pl : payload) : sm (Z * Z * Z) :=
  match p_obj pl with OCommand c a b => mret (c, a, b) | _ => Ub end.
Definition as_regface (pl : payload) : sm (ptr * ptr) :=
  match p_obj pl with ORegFace a b => mret (a, b) | _ => Ub end.
Definition as_camevent (pl : payload) : sm Z :=
  match p_obj pl with OCamEvent z => mret z | _ => Ub end.
Definition as_internal (pl : payload) : sm (internal_evt * blob) :=
  match p_obj pl with OInternal t d => mret (t, d) | _ => Ub end.

(** The payload an event is posted with, by the callers in
    [QCamera2HWI.cpp] and [QCamera2HWICallbacks.cpp]. *)
Definition payload_ok (evt : sm_evt) (pl : payload) : Prop :=
  match evt with
  | ENABLE_MSG_TYPE | DISABLE_MSG_TYPE | MSG_TYPE_ENABLED
  | STORE_METADATA_IN_BUFS | DUMP => ∃ z, p_obj pl = OInt z
  | SET_CALLBACKS => ∃ a b c d e, p_obj pl = OSetCb a b c d e
  | SEND_COMMAND | SEND_COMMAND_RESTART => ∃ c a b, p_obj pl = OCommand c a b
  | REG_FACE_IMAGE => ∃ a b, p_obj pl = ORegFace a b
  | EVT_NOTIFY => ∃ z, p_obj pl = OCamEvent z
  | EVT_INTERNAL => ∃ t d, p_obj pl = OInternal t d
  | _ => True
  end.
