(* ===== verification/CamCommon.v ===== *)
(** * Camera HAL state machine: operations shared by the eight state handlers

    [applyDelayedMsgs] and the predicates on the state of
    [QCameraStateMachine.cpp], and the reply idioms of its handlers: filling a
    [qcamera_api_result_t] and handing it to [signalAPIResult] or
    [signalEvtResult], then returning [rc]. *)
From S2P Require Import Prelude CamTypes.

Section Common.
  Context `{Platform}.

Definition ok (rc : Z) : bool := Z.eqb rc NO_ERROR.

Definition reply_def (evt : sm_evt) (rc : Z) : sm Z :=
  call (signalAPIResult (ApiResult rc evt RT_DEF 0)) ;; mret rc.
Definition reply_flag (evt : sm_evt) (rc enabled : Z) : sm Z :=
  call (signalAPIResult (ApiResult rc evt RT_ENABLE_FLAG enabled)) ;; mret rc.
Definition reply_params (evt : sm_evt) (rc : Z) (params : ptr) : sm Z :=
  call (signalAPIResult (ApiResult rc evt RT_PARAMS params)) ;; mret rc.
Definition reply_handle (evt : sm_evt) (rc handle : Z) : sm Z :=
  call (signalAPIResult (ApiResult rc evt RT_HANDLE handle)) ;; mret rc.
Definition reply_evt (evt : sm_evt) (rc : Z) : sm Z :=
  call (signalEvtResult (ApiResult rc evt RT_DEF 0)) ;; mret rc.

(** [rc = m_parent->waitDeferredWork(m_parent->mParamInitJob);
    if (NO_ERROR != rc) LOGE(..); else rc = <k>]. *)
Definition after_param_init (k : sm Z) : sm Z :=
  rc ← call waitDeferredWork_mParamInitJob;
  if ok rc then k else mret rc.

Definition applyDelayedMsgs : sm Z :=
  v ← gets id;
  if m_bDelayPreviewMsgs v && negb (m_DelayedMsgs v =? 0)%Z then
    rc ← call (enableMsgType (m_DelayedMsgs v));
    modify (set_delay_msgs false) ;;
    modify (set_delayed 0) ;;
    mret rc
  else if m_bDelayPreviewMsgs v then
    modify (set_delay_msgs false) ;; mret NO_ERROR
  else mret NO_ERROR.

(** The short-circuit [p || q] of two queries. *)
Definition or_call (p q : sm bool) : sm bool :=
  b ← p;
  if (b : bool) then mret true else q.

(** [startPreview], undone by [unpreparePreview] when it fails. *)
Definition start_or_unprepare : sm Z :=
  rc ← call startPreview;
  when (negb (ok rc)) (call unpreparePreview) ;;
  mret rc.

Definition isRecording (v : sm_vars) : bool :=
  match m_state v with
  | ST_RECORDING | ST_VIDEO_PIC_TAKING => true
  | _ => false
  end.

Definition isPreviewRunning (v : sm_vars) : bool :=
  match m_state v with
  | ST_PREVIEWING | ST_RECORDING | ST_VIDEO_PIC_TAKING | ST_PREVIEW_PIC_TAKING
  | ST_PREPARE_SNAPSHOT | ST_PREVIEW_READY => true
  | _ => false
  end.

Definition isPreviewReady (v : sm_vars) : bool :=
  match m_state v with ST_PREVIEW_READY => true | _ => false end.

Definition isCaptureRunning (v : sm_vars) : bool :=
  match m_state v with
  | ST_PIC_TAKING | ST_VIDEO_PIC_TAKING | ST_PREVIEW_PIC_TAKING => true
  | _ => false
  end.

Definition isNonZSLCaptureRunning (v : sm_vars) : bool :=
  match m_state v with ST_PIC_TAKING => true | _ => false end.

End Common.
