(* ===== verification/CamContract.v ===== *)
(** * Camera HAL state machine: the contract of a state handler

    What every [procEvt..State] function promises to the rest of the HAL: the
    states it may leave the machine in, the API replies and the synchronous
    event replies it sends, and the invariant of the delayed message types.
    The eight state files prove it for their handler, for every answer of the
    hardware object; [CamMachine] uses the contract only. *)
From S2P Require Import Prelude CamTypes CamCommon.

(** ** Observing a trace *)
Definition api_reply_of (e : event hwi_call) : option api_result :=
  match e with Ev c _ =>
    match c with signalAPIResult r => Some r | _ => None end
  end.
Definition evt_reply_of (e : event hwi_call) : option api_result :=
  match e with Ev c _ =>
    match c with signalEvtResult r => Some r | _ => None end
  end.
Definition api_replies (tr : list (event hwi_call)) : list api_result :=
  omap api_reply_of tr.
Definition evt_replies (tr : list (event hwi_call)) : list api_result :=
  omap evt_reply_of tr.

(** ** The transition graph

    The states the machine may be in after an event.  An event that is not
    listed leaves the state as it is. *)
Definition next_states (st : sm_state) (evt : sm_evt) : list sm_state :=
  match st, evt with
  | ST_PREVIEW_STOPPED, PREPARE_PREVIEW => [ST_PREVIEW_STOPPED; ST_PREVIEW_READY]
  | ST_PREVIEW_STOPPED, START_PREVIEW =>
      [ST_PREVIEW_STOPPED; ST_PREVIEW_READY; ST_PREVIEWING]
  | ST_PREVIEW_STOPPED, START_NODISPLAY_PREVIEW =>
      [ST_PREVIEW_STOPPED; ST_PREVIEWING]
  | ST_PREVIEW_READY, (SET_PREVIEW_WINDOW | START_PREVIEW) =>
      [ST_PREVIEW_READY; ST_PREVIEWING; ST_PREVIEW_STOPPED]
  | ST_PREVIEW_READY, SET_PARAMS_RESTART => [ST_PREVIEW_READY; ST_PREVIEW_STOPPED]
  | ST_PREVIEW_READY, START_NODISPLAY_PREVIEW => [ST_PREVIEWING; ST_PREVIEW_STOPPED]
  | ST_PREVIEW_READY, STOP_PREVIEW => [ST_PREVIEW_STOPPED]
  | ST_PREVIEWING, SET_PARAMS_RESTART => [ST_PREVIEWING; ST_PREVIEW_STOPPED]
  | ST_PREVIEWING, STOP_PREVIEW => [ST_PREVIEW_STOPPED]
  | ST_PREVIEWING, START_RECORDING => [ST_PREVIEWING; ST_RECORDING]
  | ST_PREVIEWING, PREPARE_SNAPSHOT => [ST_PREVIEWING; ST_PREPARE_SNAPSHOT]
  | ST_PREVIEWING, TAKE_PICTURE =>
      [ST_PREVIEWING; ST_PREVIEW_PIC_TAKING; ST_PIC_TAKING; ST_PREVIEW_STOPPED]
  | ST_PREPARE_SNAPSHOT, EVT_INTERNAL => [ST_PREPARE_SNAPSHOT; ST_PREVIEWING]
  | ST_PIC_TAKING, (STOP_PREVIEW | CANCEL_PICTURE) => [ST_PREVIEW_STOPPED]
  | ST_PIC_TAKING, SEND_COMMAND => [ST_PIC_TAKING; ST_PREVIEWING]
  | ST_PIC_TAKING, SNAPSHOT_DONE => [ST_PREVIEWING; ST_PREVIEW_STOPPED]
  | ST_RECORDING, TAKE_PICTURE => [ST_RECORDING; ST_VIDEO_PIC_TAKING]
  | ST_RECORDING, STOP_RECORDING => [ST_PREVIEWING]
  | ST_RECORDING, STOP_PREVIEW => [ST_PREVIEW_STOPPED]
  | ST_VIDEO_PIC_TAKING, STOP_RECORDING => [ST_PREVIEWING]
  | ST_VIDEO_PIC_TAKING, (CANCEL_PICTURE | SNAPSHOT_DONE) => [ST_RECORDING]
  | ST_VIDEO_PIC_TAKING, STOP_PREVIEW => [ST_PREVIEW_STOPPED]
  | ST_PREVIEW_PIC_TAKING, SET_PARAMS_RESTART =>
      [ST_PREVIEW_PIC_TAKING; ST_PIC_TAKING]
  | ST_PREVIEW_PIC_TAKING, SEND_COMMAND => [ST_PREVIEW_PIC_TAKING; ST_PREVIEWING]
  | ST_PREVIEW_PIC_TAKING, (CANCEL_PICTURE | SNAPSHOT_DONE) => [ST_PREVIEWING]
  | ST_PREVIEW_PIC_TAKING, STOP_PREVIEW => [ST_PREVIEW_STOPPED]
  | ST_PREVIEW_PIC_TAKING, START_RECORDING =>
      [ST_PREVIEW_PIC_TAKING; ST_VIDEO_PIC_TAKING]
  | _, _ => [st]
  end.

(** ** Replies *)
Inductive reply_kind :=
  | Replies    (** exactly one API reply, for this event *)
  | Silent     (** no API reply *)
  | Deferrable (** one API reply for this event, or none when it succeeded *)
  | Completes. (** replies for a [PREPARE_SNAPSHOT] or [TAKE_PICTURE] that was
                   left without one *)

Definition reply_kind_of (st : sm_state) (evt : sm_evt) : reply_kind :=
  match evt with
  | JPEG_EVT_NOTIFY | THERMAL_NOTIFY | RESTART_PERVIEW | DELAYED_RESTART => Silent
  | EVT_INTERNAL | EVT_NOTIFY => Completes
  | SNAPSHOT_DONE =>
      match st with ST_PREVIEW_PIC_TAKING => Deferrable | _ => Silent end
  | STOP_CAPTURE_CHANNEL =>
      match st with ST_PIC_TAKING => Replies | _ => Silent end
  | SEND_COMMAND_RESTART =>
      match st with ST_PREVIEWING => Replies | _ => Silent end
  | RELEASE_RECORIDNG_FRAME =>
      match st with
      | ST_PREVIEW_STOPPED | ST_PREVIEW_READY | ST_PREVIEWING => Silent
      | _ => Replies
      end
  | REG_FACE_IMAGE =>
      match st with ST_PREPARE_SNAPSHOT => Silent | _ => Replies end
  | PREPARE_SNAPSHOT =>
      match st with ST_PREVIEWING | ST_PREVIEW_PIC_TAKING => Deferrable | _ => Replies end
  | TAKE_PICTURE => match st with ST_PREVIEWING => Deferrable | _ => Replies end
  | _ => Replies
  end.

Definition result_type_of (evt : sm_evt) : result_type :=
  match evt with
  | MSG_TYPE_ENABLED | PREVIEW_ENABLED | RECORDING_ENABLED => RT_ENABLE_FLAG
  | GET_PARAMS => RT_PARAMS
  | REG_FACE_IMAGE => RT_HANDLE
  | _ => RT_DEF
  end.

Section Contract.
  Context `{Platform}.

(** A reply carries the event it answers and the status the handler returns;
    its type is the one the waiting API reads, or it is the rejection. *)
Definition reply_for (evt : sm_evt) (rc : Z) (r : api_result) : Prop :=
  request_api r = evt ∧ status r = rc ∧
  (res_type r = result_type_of evt ∨ r = ApiResult INVALID_OPERATION evt RT_DEF 0).

Definition replies_ok (k : reply_kind) (evt : sm_evt) (rc : Z)
    (rs : list api_result) : Prop :=
  match k with
  | Replies => ∃ r, rs = [r] ∧ reply_for evt rc r
  | Silent => rs = []
  | Deferrable => (rs = [] ∧ (evt = SNAPSHOT_DONE ∨ rc = NO_ERROR)) ∨
                  (∃ r, rs = [r] ∧ reply_for evt rc r)
  | Completes => Forall (λ r, request_api r = PREPARE_SNAPSHOT ∨
                              request_api r = TAKE_PICTURE) rs
  end.

(** The message types held back are preview frames only, and only while the
    machine delays them. *)
Definition delayed_ok (v : sm_vars) : Prop :=
  (m_DelayedMsgs v = 0%Z ∨ m_bDelayPreviewMsgs v = true) ∧
  Z.land (m_DelayedMsgs v) (Z.lnot CAMERA_MSG_PREVIEW_FRAME) = 0%Z.

(** The hardware records after a [startRecording] that answered [NO_ERROR],
    until a [stopRecording]. *)
Definition rec_step (b : bool) (e : event hwi_call) : bool :=
  match e with Ev c x =>
    match c in hwi_call X return X → bool with
    | startRecording => λ rc, ok rc || b
    | stopRecording => λ _, false
    | _ => λ _, b
    end x
  end.
Definition rec_after (tr : list (event hwi_call)) (b : bool) : bool :=
  foldl rec_step b tr.

Record contract (evt : sm_evt) (v : sm_vars) (rc : Z) (v' : sm_vars)
    (tr : list (event hwi_call)) : Prop := {
  contract_state : m_state v' ∈ next_states (m_state v) evt;
  contract_replies :
    replies_ok (reply_kind_of (m_state v) evt) evt rc (api_replies tr);
  contract_evt :
    evt_replies tr =
      if decide (evt = SNAPSHOT_DONE) then [ApiResult rc SNAPSHOT_DONE RT_DEF 0] else [];
  contract_delayed : delayed_ok v → delayed_ok v';
  contract_recording : rec_after tr (isRecording v) = isRecording v'
}.

Lemma ok_true rc : ok rc = true → rc = NO_ERROR.
Proof. apply Z.eqb_eq. Qed.

Lemma delayed_land v d :
  delayed_ok v → Z.land (Z.land (m_DelayedMsgs v) d) (Z.lnot CAMERA_MSG_PREVIEW_FRAME) = 0%Z.
Proof.
  intros [_ Hd]. rewrite <- Z.land_assoc, (Z.land_comm d), Z.land_assoc, Hd.
  apply Z.land_0_l.
Qed.

Lemma delayed_clear v b : delayed_ok v → m_DelayedMsgs v = 0%Z ∨ b = true →
  (m_DelayedMsgs v = 0%Z ∨ b = true) ∧
  Z.land (m_DelayedMsgs v) (Z.lnot CAMERA_MSG_PREVIEW_FRAME) = 0%Z.
Proof. intros [_ Hd] Hb. auto. Qed.
End Contract.

Create HintDb sm.
#[export] Hint Resolve ok_true delayed_land : sm.

(** ** Symbolic execution of a handler *)
Ltac sm_unfold :=
  cbv [applyDelayedMsgs start_or_unprepare after_param_init or_call reply_def
       reply_flag reply_params reply_handle reply_evt as_int as_setcb as_command
       as_regface as_camevent as_internal when call gets modify
       mbind prog_mbind mret prog_mret fmap prog_fmap].

(** Case analysis on what the program tests next. *)
Ltac bool_case b :=
  lazymatch b with
  | negb ?c => bool_case c
  | andb ?c _ => bool_case c
  | orb ?c _ => bool_case c
  | _ =>
      match goal with
      | Hb : b = _ |- _ => rewrite Hb
      | _ => destruct b eqn:?
      end
  end.

Ltac head_of t := lazymatch t with ?f _ => head_of f | _ => t end.
Ltac unfold_prog :=
  lazymatch goal with |- wp ?p _ _ _ => let h := head_of p in unfold h end.

Ltac prog_case p :=
  lazymatch p with
  | prog_bind _ ?q => prog_case q
  | match ?b with _ => _ end => bool_case b
  | _ => let h := head_of p in unfold h; sm_unfold
  end.

Ltac sm_step :=
  lazymatch goal with
  | |- ∀ _, _ => intro
  | |- wp ?p _ _ _ => prog_case p
  end; cbn.

(** Run the program on symbolic answers: what is left is the postcondition at
    the end of every path. *)
Ltac known_bools :=
  repeat match goal with
  | Hb : @eq bool ?b _ |- context [?b] => rewrite Hb
  end.

Ltac sm_run := sm_unfold; cbn; repeat sm_step; known_bools.

(** The payload of an event, from [payload_ok]. *)
Ltac payload_cases :=
  repeat match goal with
  | Hpl : ∃ _, _ |- _ => destruct Hpl
  | Hpl : p_obj ?pl = _ |- _ =>
      is_var pl; destruct pl as [? ?]; simpl in Hpl; subst
  end.

Ltac vars_cases v Hst :=
  destruct v as [? ? ? ? ? ? ? ?]; simpl in Hst; subst.

(** A path's end satisfies the contract. *)
Ltac replies_tac :=
  unfold replies_ok, reply_for; cbn;
  first
    [ reflexivity
    | solve [eexists; split; [reflexivity |]; simpl; eauto]
    | solve [left; split; [reflexivity |]; eauto with sm]
    | solve [right; eexists; split; [reflexivity |]; simpl; eauto]
    | solve [repeat constructor; simpl; eauto] ].

Ltac state_tac := cbn; rewrite ?elem_of_cons; solve [eauto 10].

Ltac clean_eqb :=
  repeat match goal with
  | Hz : (_ =? _)%Z = true |- _ => apply Z.eqb_eq in Hz
  | Hz : (_ =? _)%Z = false |- _ => apply Z.eqb_neq in Hz
  end.

Ltac delayed_tac :=
  let Hd := fresh in
  intros Hd; first
    [ exact Hd
    | solve [split; cbn; auto using Z.land_lnot_diag]
    | solve [split; [|apply (delayed_land _ _ Hd)]; cbn; clean_eqb; auto]
    | destruct Hd as [[?|?] ?]; split; cbn in *; eauto using Z.land_0_l;
      clean_eqb; subst; rewrite ?Z.land_0_l; auto; congruence ].

Ltac contract_tac :=
  split;
    [ state_tac | replies_tac | reflexivity | cbn; delayed_tac
    | cbn; known_bools; reflexivity ].

(** The contract of one handler: one goal per event, one path at a time. *)
Ltac handler_contract v evt Hpl Hst :=
  vars_cases v Hst;
  destruct evt; simpl in Hpl; payload_cases;
  unfold_prog; unfold_prog; sm_run; contract_tac.
