(* ===== verification/CamPreviewStopped.v ===== *)
(** * Camera HAL state machine: state [QCAMERA_SM_STATE_PREVIEW_STOPPED]

    No preview is running.
    One definition per [case] of [QCameraStateMachine::procEvtPreviewStoppedState],
    and the switch itself. *)
From S2P Require Import Prelude CamTypes CamCommon CamContract.

Section Handlers.
  Context `{Platform}.

Definition on_set_preview_window (evt : sm_evt) (pl : payload) : sm Z :=
  rc ← call (setPreviewWindow (p_addr pl));
  reply_def evt rc.

Definition on_set_callbacks (evt : sm_evt) (pl : payload) : sm Z :=
  '(notify_cb, data_cb, data_cb_timestamp, get_memory, user) ← as_setcb pl;
  rc ← call (setCallBacks notify_cb data_cb data_cb_timestamp get_memory user);
  reply_def evt rc.

Definition on_enable_msg_type (evt : sm_evt) (pl : payload) : sm Z :=
  rc ← after_param_init (m ← as_int pl; call (enableMsgType m));
  reply_def evt rc.

Definition on_disable_msg_type (evt : sm_evt) (pl : payload) : sm Z :=
  rc ← after_param_init (m ← as_int pl; call (disableMsgType m));
  reply_def evt rc.

Definition on_msg_type_enabled (evt : sm_evt) (pl : payload) : sm Z :=
  m ← as_int pl;
  enabled ← call (msgTypeEnabled m);
  reply_flag evt NO_ERROR enabled.

Definition on_set_params (evt : sm_evt) (pl : payload) : sm Z :=
  rc ← after_param_init
         ('(rc, needRestart) ← call (updateParameters (p_addr pl)); mret rc);
  reply_def evt rc.

Definition on_set_params_stop (evt : sm_evt) (pl : payload) : sm Z :=
  call memoryPool_clear ;;
  reply_def evt NO_ERROR.

Definition on_set_params_commit (evt : sm_evt) (pl : payload) : sm Z :=
  rc ← call commitParameterChanges;
  reply_def evt rc.

Definition on_set_params_restart (evt : sm_evt) (pl : payload) : sm Z :=
  call (setNeedRestart false) ;;
  reply_def evt NO_ERROR.

Definition on_get_params (evt : sm_evt) (pl : payload) : sm Z :=
  rc ← call waitDeferredWork_mParamInitJob;
  params ← (if ok rc then call getParameters else call (malloc 1));
  reply_params evt (if (params =? 0)%Z then UNKNOWN_ERROR else NO_ERROR) params.

Definition on_put_params (evt : sm_evt) (pl : payload) : sm Z :=
  rc ← call (putParameters (p_addr pl));
  reply_def evt rc.

Definition on_prepare_preview (evt : sm_evt) (pl : payload) : sm Z :=
  rc ← after_param_init (call preparePreview);
  when (ok rc) (modify (set_state ST_PREVIEW_READY)) ;;
  reply_def evt rc.

Definition on_start_preview (evt : sm_evt) (pl : payload) : sm Z :=
  rc ← after_param_init
         (w ← call get_mPreviewWindow;
          if (w =? 0)%Z then
            rc ← call preparePreview;
            when (ok rc) (modify (set_state ST_PREVIEW_READY)) ;;
            mret rc
          else
            rc ← call preparePreview;
            if ok rc then
              applyDelayedMsgs ;;
              rc ← start_or_unprepare;
              when (ok rc) (modify (set_state ST_PREVIEWING)) ;;
              mret rc
            else mret rc);
  reply_def evt rc.

Definition on_start_nodisplay_preview (evt : sm_evt) (pl : payload) : sm Z :=
  rc ← after_param_init (call preparePreview);
  rc ← (if ok rc then
          applyDelayedMsgs ;;
          rc ← start_or_unprepare;
          when (ok rc) (modify (set_state ST_PREVIEWING)) ;;
          mret rc
        else mret rc);
  reply_def evt rc.

Definition on_stop_preview (evt : sm_evt) (pl : payload) : sm Z :=
  reply_def evt NO_ERROR.

Definition on_preview_enabled (evt : sm_evt) (pl : payload) : sm Z :=
  reply_flag evt NO_ERROR 0.

Definition on_release (evt : sm_evt) (pl : payload) : sm Z :=
  rc ← call release;
  reply_def evt rc.

Definition on_store_metadata_in_bufs (evt : sm_evt) (pl : payload) : sm Z :=
  b ← as_int pl;
  rc ← call (storeMetaDataInBuffers b);
  reply_def evt rc.

Definition on_dump (evt : sm_evt) (pl : payload) : sm Z :=
  rc ← after_param_init (fd ← as_int pl; call (dump fd));
  reply_def evt rc.

Definition on_send_command (evt : sm_evt) (pl : payload) : sm Z :=
  rc ← after_param_init
         ('(cmd, arg1, arg2) ← as_command pl; call (sendCommand cmd arg1 arg2));
  reply_def evt rc.

Definition on_release_recoridng_frame (evt : sm_evt) (pl : payload) : sm Z :=
  call (closeNativeHandle (p_addr pl)) ;;
  mret NO_ERROR.

Definition on_cannot_handle (evt : sm_evt) (pl : payload) : sm Z :=
  reply_def evt INVALID_OPERATION.

Definition on_start_auto_focus (evt : sm_evt) (pl : payload) : sm Z :=
  reply_def evt NO_ERROR.

Definition on_stop_auto_focus (evt : sm_evt) (pl : payload) : sm Z :=
  rc ← after_param_init (call cancelAutoFocus);
  reply_def evt rc.

Definition on_reg_face_image (evt : sm_evt) (pl : payload) : sm Z :=
  '(img_ptr, config) ← as_regface pl;
  '(rc, faceID) ← call (registerFaceImage img_ptr config);
  reply_handle evt rc faceID.

Definition on_thermal_notify (evt : sm_evt) (pl : payload) : sm Z :=
  after_param_init (call (updateThermalLevel (p_addr pl))).

Definition on_evt_notify (evt : sm_evt) (pl : payload) : sm Z :=
  server_event_type ← as_camevent pl;
  when (server_event_type =? CAM_EVENT_TYPE_DAEMON_DIED)%Z
    (call (sendEvtNotify CAMERA_MSG_ERROR CAMERA_ERROR_SERVER_DIED 0) ;; mret ()) ;;
  mret NO_ERROR.

Definition on_snapshot_done (evt : sm_evt) (pl : payload) : sm Z :=
  reply_evt evt NO_ERROR.

Definition on_evt_internal (evt : sm_evt) (pl : payload) : sm Z :=
  '(evt_type, data) ← as_internal pl;
  match evt_type with
  | IE_LED_MODE_OVERRIDE => after_param_init (call (updateFlashMode data))
  | _ => mret NO_ERROR
  end.

Definition on_default (evt : sm_evt) (pl : payload) : sm Z :=
  mret NO_ERROR.

Definition procEvtPreviewStoppedState (evt : sm_evt) (pl : payload) : sm Z :=
  match evt with
  | SET_PREVIEW_WINDOW => on_set_preview_window evt pl
  | SET_CALLBACKS => on_set_callbacks evt pl
  | ENABLE_MSG_TYPE => on_enable_msg_type evt pl
  | DISABLE_MSG_TYPE => on_disable_msg_type evt pl
  | MSG_TYPE_ENABLED => on_msg_type_enabled evt pl
  | SET_PARAMS => on_set_params evt pl
  | SET_PARAMS_STOP => on_set_params_stop evt pl
  | SET_PARAMS_COMMIT => on_set_params_commit evt pl
  | SET_PARAMS_RESTART => on_set_params_restart evt pl
  | GET_PARAMS => on_get_params evt pl
  | PUT_PARAMS => on_put_params evt pl
  | PREPARE_PREVIEW => on_prepare_preview evt pl
  | START_PREVIEW => on_start_preview evt pl
  | START_NODISPLAY_PREVIEW => on_start_nodisplay_preview evt pl
  | STOP_PREVIEW => on_stop_preview evt pl
  | PREVIEW_ENABLED | RECORDING_ENABLED => on_preview_enabled evt pl
  | RELEASE => on_release evt pl
  | STORE_METADATA_IN_BUFS => on_store_metadata_in_bufs evt pl
  | DUMP => on_dump evt pl
  | SEND_COMMAND => on_send_command evt pl
  | RELEASE_RECORIDNG_FRAME => on_release_recoridng_frame evt pl
  | PRE_START_RECORDING | RESTART_STOP_PREVIEW | RESTART_START_PREVIEW
  | START_RECORDING | STOP_RECORDING | PREPARE_SNAPSHOT | PRE_TAKE_PICTURE
  | TAKE_PICTURE => on_cannot_handle evt pl
  | START_AUTO_FOCUS | CANCEL_PICTURE => on_start_auto_focus evt pl
  | STOP_AUTO_FOCUS => on_stop_auto_focus evt pl
  | REG_FACE_IMAGE => on_reg_face_image evt pl
  | THERMAL_NOTIFY => on_thermal_notify evt pl
  | EVT_NOTIFY => on_evt_notify evt pl
  | SNAPSHOT_DONE => on_snapshot_done evt pl
  | EVT_INTERNAL => on_evt_internal evt pl
  | _ => on_default evt pl
  end.

End Handlers.

(** ** Contract *)
Lemma previewStopped_contract `{Platform} evt pl v :
  payload_ok evt pl → m_state v = ST_PREVIEW_STOPPED →
  wp (procEvtPreviewStoppedState evt pl) (contract evt v) v [].
Proof. intros Hpl Hst. handler_contract v evt Hpl Hst. Qed.
