(* ===== verification/CamPreviewing.v ===== *)
(** * Camera HAL state machine: state [QCAMERA_SM_STATE_PREVIEWING]

    The preview is running.
    One definition per [case] of [QCameraStateMachine::procEvtPreviewingState],
    and the switch itself. *)
From S2P Require Import Prelude CamTypes CamCommon CamContract.

Section Handlers.
  Context `{Platform}.

(** [TAKE_PICTURE]: a preview started with the recording hint is restarted
    without it first; what that restart returns is overwritten later. *)
Definition take_picture_recording_hint : sm () :=
  hint ← call getRecordingHintValue;
  when (hint : bool)
    (call stopPreview ;;
     call (updateRecordingHintValue false) ;;
     rc ← call preparePreview;
     when (ok rc) (start_or_unprepare ;; mret ())).

(** [TAKE_PICTURE] in ZSL or longshot mode. *)
Definition take_picture_zsl (evt : sm_evt) : sm Z :=
  restartPreview ← call isPreviewRestartEnabled;
  offline ← (if (restartPreview : bool) then
               mode ← call getManualCaptureMode;
               mret (CAM_MANUAL_CAPTURE_TYPE_3 <=? mode)%Z
             else mret false);
  (if (offline : bool) then
     call stopPreview ;;
     call (updateZSLModeValue false) ;;
     modify (set_restore_zsl true) ;;
     modify (set_delay_msgs true) ;;
     modify (set_state ST_PIC_TAKING)
   else
     modify (set_state ST_PREVIEW_PIC_TAKING) ;;
     modify (set_delay_msgs true)) ;;
  rc ← call takePicture;
  when (negb (ok rc))
    (call unconfigureAdvancedCapture ;; modify (set_state ST_PREVIEWING)) ;;
  retro ← call isRetroPicture;
  if negb retro || negb (ok rc) then reply_def evt rc else mret rc.

(** [TAKE_PICTURE] otherwise. *)
Definition take_picture_regular (evt : sm_evt) : sm Z :=
  modify (set_state ST_PIC_TAKING) ;;
  rc ← call takePicture;
  when (negb (ok rc))
    (call unconfigureAdvancedCapture ;;
     call stopPreview ;;
     temp_rc ← call preparePreview;
     if ok temp_rc then
       temp_rc ← start_or_unprepare;
       modify (set_state (if ok temp_rc then ST_PREVIEWING else ST_PREVIEW_STOPPED))
     else modify (set_state ST_PREVIEW_STOPPED)) ;;
  reply_def evt rc.

Definition on_set_preview_window (evt : sm_evt) (pl : payload) : sm Z :=
  reply_def evt INVALID_OPERATION.

Definition on_set_callbacks (evt : sm_evt) (pl : payload) : sm Z :=
  '(notify_cb, data_cb, data_cb_timestamp, get_memory, user) ← as_setcb pl;
  rc ← call (setCallBacks notify_cb data_cb data_cb_timestamp get_memory user);
  reply_def evt rc.

Definition on_enable_msg_type (evt : sm_evt) (pl : payload) : sm Z :=
  m ← as_int pl;
  v ← gets id;
  enable_msgs ←
    (if m_bDelayPreviewMsgs v && negb (Z.land m CAMERA_MSG_PREVIEW_FRAME =? 0)%Z then
       modify (set_delayed CAMERA_MSG_PREVIEW_FRAME) ;;
       mret (Z.land m (Z.lnot CAMERA_MSG_PREVIEW_FRAME))
     else mret m);
  rc ← call (enableMsgType enable_msgs);
  reply_def evt rc.

Definition on_disable_msg_type (evt : sm_evt) (pl : payload) : sm Z :=
  disable_msgs ← as_int pl;
  v ← gets id;
  when (m_bDelayPreviewMsgs v && negb (m_DelayedMsgs v =? 0)%Z)
    (let delayed := Z.land (m_DelayedMsgs v) (Z.lnot disable_msgs) in
     modify (set_delayed delayed) ;;
     when (delayed =? 0)%Z (modify (set_delay_msgs false))) ;;
  rc ← call (disableMsgType disable_msgs);
  reply_def evt rc.

Definition on_msg_type_enabled (evt : sm_evt) (pl : payload) : sm Z :=
  msgs ← as_int pl;
  enabled ← call (msgTypeEnabled msgs);
  v ← gets id;
  reply_flag evt NO_ERROR
    (if m_bDelayPreviewMsgs v && negb (m_DelayedMsgs v =? 0)%Z
     then Z.lor enabled (Z.land msgs (m_DelayedMsgs v)) else enabled).

Definition on_set_params (evt : sm_evt) (pl : payload) : sm Z :=
  '(rc, needRestart) ← call (updateParameters (p_addr pl));
  reply_def evt rc.

Definition on_set_params_stop (evt : sm_evt) (pl : payload) : sm Z :=
  rc ← call stopPreview;
  call memoryPool_clear ;;
  reply_def evt rc.

Definition on_set_params_commit (evt : sm_evt) (pl : payload) : sm Z :=
  rc ← call commitParameterChanges;
  reply_def evt rc.

Definition on_set_params_restart (evt : sm_evt) (pl : payload) : sm Z :=
  rc ← call preparePreview;
  rc ← (if ok rc then
          applyDelayedMsgs ;;
          rc ← start_or_unprepare;
          when (negb (ok rc)) (modify (set_state ST_PREVIEW_STOPPED)) ;;
          mret rc
        else mret rc);
  call (setNeedRestart false) ;;
  reply_def evt rc.

Definition on_get_params (evt : sm_evt) (pl : payload) : sm Z :=
  params ← call getParameters;
  reply_params evt (if (params =? 0)%Z then UNKNOWN_ERROR else NO_ERROR) params.

Definition on_put_params (evt : sm_evt) (pl : payload) : sm Z :=
  rc ← call (putParameters (p_addr pl));
  reply_def evt rc.

Definition on_prepare_preview (evt : sm_evt) (pl : payload) : sm Z :=
  reply_def evt NO_ERROR.

Definition on_start_preview (evt : sm_evt) (pl : payload) : sm Z :=
  applyDelayedMsgs ;;
  reply_def evt NO_ERROR.

Definition on_stop_preview (evt : sm_evt) (pl : payload) : sm Z :=
  modify (set_state ST_PREVIEW_STOPPED) ;;
  rc ← call stopPreview;
  applyDelayedMsgs ;;
  reply_def evt rc.

Definition on_preview_enabled (evt : sm_evt) (pl : payload) : sm Z :=
  applyDelayedMsgs ;;
  reply_flag evt NO_ERROR 1.

Definition on_recording_enabled (evt : sm_evt) (pl : payload) : sm Z :=
  reply_flag evt NO_ERROR 0.

Definition on_store_metadata_in_bufs (evt : sm_evt) (pl : payload) : sm Z :=
  b ← as_int pl;
  rc ← call (storeMetaDataInBuffers b);
  reply_def evt rc.

Definition on_dump (evt : sm_evt) (pl : payload) : sm Z :=
  fd ← as_int pl;
  rc ← call (dump fd);
  reply_def evt rc.

Definition on_start_auto_focus (evt : sm_evt) (pl : payload) : sm Z :=
  rc ← call autoFocus;
  reply_def evt rc.

Definition on_stop_auto_focus (evt : sm_evt) (pl : payload) : sm Z :=
  rc ← call cancelAutoFocus;
  reply_def evt rc.

Definition on_pre_start_recording (evt : sm_evt) (pl : payload) : sm Z :=
  rc ← call preStartRecording;
  reply_def evt rc.

Definition on_start_recording (evt : sm_evt) (pl : payload) : sm Z :=
  rc ← call startRecording;
  when (ok rc) (modify (set_state ST_RECORDING) ;; applyDelayedMsgs ;; mret ()) ;;
  reply_def evt rc.

Definition on_prepare_snapshot (evt : sm_evt) (pl : payload) : sm Z :=
  rc ← call (prepareHardwareForSnapshot false);
  if ok rc then
    modify (set_state ST_PREPARE_SNAPSHOT) ;;
    applyDelayedMsgs ;;
    mret rc
  else reply_def evt rc.

Definition on_pre_take_picture (evt : sm_evt) (pl : payload) : sm Z :=
  rc ← call preTakePicture;
  reply_def evt rc.

Definition on_take_picture (evt : sm_evt) (pl : payload) : sm Z :=
  take_picture_recording_hint ;;
  zsl ← or_call (call isZSLMode) (call isLongshotEnabled);
  if (zsl : bool) then take_picture_zsl evt else take_picture_regular evt.

Definition on_send_command (evt : sm_evt) (pl : payload) : sm Z :=
  '(cmd, arg1, arg2) ← as_command pl;
  rc ← call (sendCommand cmd arg1 arg2);
  let needsRestart := (evt_code RESTART_PERVIEW =? arg1)%Z in
  let delayedRestart := (evt_code DELAYED_RESTART =? arg2)%Z in
  modify (set_needs_restart needsRestart) ;;
  modify (set_delayed_restart delayedRestart) ;;
  rc ← (if negb vanilla_hal && ((CAMERA_CMD_LONGSHOT_ON =? cmd)%Z && needsRestart) then
          call stopPreview ;;
          call memoryPool_clear ;;
          if negb delayedRestart then
            rc ← call preparePreview;
            if ok rc then applyDelayedMsgs ;; start_or_unprepare else mret rc
          else mret rc
        else mret rc);
  reply_def evt rc.

Definition on_send_command_restart (evt : sm_evt) (pl : payload) : sm Z :=
  rc ← (if negb vanilla_hal then
          '(cmd, arg1, arg2) ← as_command pl;
          v ← gets id;
          if (CAMERA_CMD_LONGSHOT_ON =? cmd)%Z && m_bPreviewNeedsRestart v
             && m_bPreviewDelayedRestart v then
            rc ← call preparePreview;
            if ok rc then start_or_unprepare else mret rc
          else mret NO_ERROR
        else mret NO_ERROR);
  reply_def evt rc.

Definition on_reg_face_image (evt : sm_evt) (pl : payload) : sm Z :=
  '(img_ptr, config) ← as_regface pl;
  '(rc, faceID) ← call (registerFaceImage img_ptr config);
  reply_handle evt rc faceID.

Definition on_release_recoridng_frame (evt : sm_evt) (pl : payload) : sm Z :=
  call (closeNativeHandle (p_addr pl)) ;;
  mret NO_ERROR.

Definition on_release (evt : sm_evt) (pl : payload) : sm Z :=
  reply_def evt INVALID_OPERATION.

Definition on_cancel_picture (evt : sm_evt) (pl : payload) : sm Z :=
  reply_def evt NO_ERROR.

Definition on_evt_internal (evt : sm_evt) (pl : payload) : sm Z :=
  '(evt_type, data) ← as_internal pl;
  match evt_type with
  | IE_FOCUS_UPDATE => call (processAutoFocusEvent data)
  | IE_PREP_SNAPSHOT_DONE => mret NO_ERROR
  | IE_FACE_DETECT_RESULT => call (processFaceDetectionResult data)
  | IE_HISTOGRAM_STATS => call (processHistogramStats data)
  | IE_CROP_INFO => call (processZoomEvent data)
  | IE_ASD_UPDATE => call (processASDUpdate data)
  | IE_LED_MODE_OVERRIDE => call (updateFlashMode data)
  | IE_AWB_UPDATE => call (transAwbMetaToParams data)
  | IE_AE_UPDATE => call (processAEInfo data)
  | IE_FOCUS_POS_UPDATE => call (processFocusPositionInfo data)
  | IE_HDR_UPDATE => call (processHDRData data)
  | IE_RETRO_AEC_UNLOCK => call processRetroAECUnlock
  | IE_ZSL_CAPTURE_DONE => call processZSLCaptureDone
  | _ => mret NO_ERROR
  end.

Definition on_evt_notify (evt : sm_evt) (pl : payload) : sm Z :=
  server_event_type ← as_camevent pl;
  when (server_event_type =? CAM_EVENT_TYPE_DAEMON_DIED)%Z
    (call (sendEvtNotify CAMERA_MSG_ERROR CAMERA_ERROR_SERVER_DIED 0) ;; mret ()) ;;
  mret NO_ERROR.

Definition on_thermal_notify (evt : sm_evt) (pl : payload) : sm Z :=
  call (updateThermalLevel (p_addr pl)).

Definition on_snapshot_done (evt : sm_evt) (pl : payload) : sm Z :=
  reply_evt evt NO_ERROR.

Definition on_restart_stop_preview (evt : sm_evt) (pl : payload) : sm Z :=
  call stopPreview ;;
  reply_def evt NO_ERROR.

Definition on_restart_start_preview (evt : sm_evt) (pl : payload) : sm Z :=
  rc ← call preparePreview;
  rc ← (if ok rc then call startPreview else mret rc);
  reply_def evt rc.

Definition on_default (evt : sm_evt) (pl : payload) : sm Z :=
  mret NO_ERROR.

Definition procEvtPreviewingState (evt : sm_evt) (pl : payload) : sm Z :=
  match evt with
  | SET_PREVIEW_WINDOW => on_set_preview_window evt pl
  | SET_CALLBACKS => on_set_callbacks evt pl
  | ENABLE_MSG_TYPE => on_enable_msg_type evt pl
  | DISABLE_MSG_TYPE => on_disable_msg_type evt pl
  | MSG_TYPE_ENABLED => on_msg_type_enabled evt pl
  | SET_PARAMS => on_set_params evt pl
  | SET_PARAMS_STOP => on_set_params_stop evt pl
  | SET_PARAMS_COMMIT => on_set_params_commit evt pl
  | SET_PARAMS_RESTART => on_set_params_restart evt pl
  | GET_PARAMS => on_get_params evt pl
  | PUT_PARAMS => on_put_params evt pl
  | PREPARE_PREVIEW => on_prepare_preview evt pl
  | START_PREVIEW | START_NODISPLAY_PREVIEW => on_start_preview evt pl
  | STOP_PREVIEW => on_stop_preview evt pl
  | PREVIEW_ENABLED => on_preview_enabled evt pl
  | RECORDING_ENABLED => on_recording_enabled evt pl
  | STORE_METADATA_IN_BUFS => on_store_metadata_in_bufs evt pl
  | DUMP => on_dump evt pl
  | START_AUTO_FOCUS => on_start_auto_focus evt pl
  | STOP_AUTO_FOCUS => on_stop_auto_focus evt pl
  | PRE_START_RECORDING => on_pre_start_recording evt pl
  | START_RECORDING => on_start_recording evt pl
  | PREPARE_SNAPSHOT => on_prepare_snapshot evt pl
  | PRE_TAKE_PICTURE => on_pre_take_picture evt pl
  | TAKE_PICTURE => on_take_picture evt pl
  | SEND_COMMAND => on_send_command evt pl
  | SEND_COMMAND_RESTART => on_send_command_restart evt pl
  | REG_FACE_IMAGE => on_reg_face_image evt pl
  | RELEASE_RECORIDNG_FRAME => on_release_recoridng_frame evt pl
  | RELEASE => on_release evt pl
  | CANCEL_PICTURE | STOP_RECORDING => on_cancel_picture evt pl
  | EVT_INTERNAL => on_evt_internal evt pl
  | EVT_NOTIFY => on_evt_notify evt pl
  | THERMAL_NOTIFY => on_thermal_notify evt pl
  | SNAPSHOT_DONE => on_snapshot_done evt pl
  | RESTART_STOP_PREVIEW => on_restart_stop_preview evt pl
  | RESTART_START_PREVIEW => on_restart_start_preview evt pl
  | _ => on_default evt pl
  end.

End Handlers.

(** ** Contract *)
Lemma previewing_contract `{Platform} evt pl v :
  payload_ok evt pl → m_state v = ST_PREVIEWING →
  wp (procEvtPreviewingState evt pl) (contract evt v) v [].
Proof. intros Hpl Hst. handler_contract v evt Hpl Hst. Qed.
