(* ===== verification/CamPrepareSnapshot.v ===== *)
(** * Camera HAL state machine: state [QCAMERA_SM_STATE_PREPARE_SNAPSHOT]

    The hardware prepares a snapshot (flash exposure estimation).
    One definition per [case] of [QCameraStateMachine::procEvtPrepareSnapshotState],
    and the switch itself. *)
From S2P Require Import Prelude CamTypes CamCommon CamContract.

Section Handlers.
  Context `{Platform}.

Definition on_cannot_handle (evt : sm_evt) (pl : payload) : sm Z :=
  reply_def evt INVALID_OPERATION.

Definition on_evt_internal (evt : sm_evt) (pl : payload) : sm Z :=
  '(evt_type, data) ← as_internal pl;
  match evt_type with
  | IE_FOCUS_UPDATE => call (processAutoFocusEvent data)
  | IE_PREP_SNAPSHOT_DONE =>
      call (processPrepSnapshotDoneEvent data) ;;
      modify (set_state ST_PREVIEWING) ;;
      call (signalAPIResult (ApiResult NO_ERROR PREPARE_SNAPSHOT RT_DEF 0)) ;;
      mret NO_ERROR
  | IE_FACE_DETECT_RESULT => call (processFaceDetectionResult data)
  | IE_HISTOGRAM_STATS => call (processHistogramStats data)
  | IE_CROP_INFO => call (processZoomEvent data)
  | IE_ASD_UPDATE => call (processASDUpdate data)
  | IE_LED_MODE_OVERRIDE => mret NO_ERROR
  | IE_AWB_UPDATE => call (transAwbMetaToParams data)
  | IE_AE_UPDATE => call (processAEInfo data)
  | IE_FOCUS_POS_UPDATE => call (processFocusPositionInfo data)
  | IE_HDR_UPDATE => call (processHDRData data)
  | IE_RETRO_AEC_UNLOCK => call processRetroAECUnlock
  | IE_ZSL_CAPTURE_DONE => call processZSLCaptureDone
  | _ => mret NO_ERROR
  end.

Definition on_evt_notify (evt : sm_evt) (pl : payload) : sm Z :=
  server_event_type ← as_camevent pl;
  if (server_event_type =? CAM_EVENT_TYPE_DAEMON_DIED)%Z then
    call (signalAPIResult (ApiResult NO_ERROR PREPARE_SNAPSHOT RT_DEF 0)) ;;
    call (signalAPIResult (ApiResult NO_ERROR TAKE_PICTURE RT_DEF 0)) ;;
    call (sendEvtNotify CAMERA_MSG_ERROR CAMERA_ERROR_SERVER_DIED 0) ;;
    mret NO_ERROR
  else mret NO_ERROR.

Definition on_snapshot_done (evt : sm_evt) (pl : payload) : sm Z :=
  reply_evt evt NO_ERROR.

Definition on_thermal_notify (evt : sm_evt) (pl : payload) : sm Z :=
  call (updateThermalLevel (p_addr pl)).

Definition on_default (evt : sm_evt) (pl : payload) : sm Z :=
  mret NO_ERROR.

Definition procEvtPrepareSnapshotState (evt : sm_evt) (pl : payload) : sm Z :=
  match evt with
  | SET_PREVIEW_WINDOW | SET_CALLBACKS | ENABLE_MSG_TYPE | DISABLE_MSG_TYPE
  | MSG_TYPE_ENABLED | SET_PARAMS | SET_PARAMS_STOP | SET_PARAMS_COMMIT
  | SET_PARAMS_RESTART | GET_PARAMS | PUT_PARAMS | PREPARE_PREVIEW
  | START_PREVIEW | START_NODISPLAY_PREVIEW | STOP_PREVIEW | PREVIEW_ENABLED
  | RECORDING_ENABLED | STORE_METADATA_IN_BUFS | DUMP | START_AUTO_FOCUS
  | STOP_AUTO_FOCUS | PRE_START_RECORDING | RESTART_STOP_PREVIEW
  | RESTART_START_PREVIEW | START_RECORDING | PRE_TAKE_PICTURE | TAKE_PICTURE
  | PREPARE_SNAPSHOT | SEND_COMMAND | CANCEL_PICTURE | STOP_RECORDING
  | RELEASE_RECORIDNG_FRAME | RELEASE => on_cannot_handle evt pl
  | EVT_INTERNAL => on_evt_internal evt pl
  | EVT_NOTIFY => on_evt_notify evt pl
  | SNAPSHOT_DONE => on_snapshot_done evt pl
  | THERMAL_NOTIFY => on_thermal_notify evt pl
  | _ => on_default evt pl
  end.

End Handlers.

(** ** Contract *)
Lemma prepareSnapshot_contract `{Platform} evt pl v :
  payload_ok evt pl → m_state v = ST_PREPARE_SNAPSHOT →
  wp (procEvtPrepareSnapshotState evt pl) (contract evt v) v [].
Proof. intros Hpl Hst. handler_contract v evt Hpl Hst. Qed.
