(* ===== verification/CamRecording.v ===== *)
(** * Camera HAL state machine: state [QCAMERA_SM_STATE_RECORDING]

    Recording, with the preview running.
    One definition per [case] of [QCameraStateMachine::procEvtRecordingState],
    and the switch itself. *)
From S2P Require Import Prelude CamTypes CamCommon CamContract.

Section Handlers.
  Context `{Platform}.

Definition on_prepare_preview (evt : sm_evt) (pl : payload) : sm Z :=
  reply_def evt NO_ERROR.

Definition on_set_callbacks (evt : sm_evt) (pl : payload) : sm Z :=
  '(notify_cb, data_cb, data_cb_timestamp, get_memory, user) ← as_setcb pl;
  rc ← call (setCallBacks notify_cb data_cb data_cb_timestamp get_memory user);
  reply_def evt rc.

Definition on_enable_msg_type (evt : sm_evt) (pl : payload) : sm Z :=
  m ← as_int pl;
  rc ← call (enableMsgType m);
  reply_def evt rc.

Definition on_disable_msg_type (evt : sm_evt) (pl : payload) : sm Z :=
  m ← as_int pl;
  rc ← call (disableMsgType m);
  reply_def evt rc.

Definition on_msg_type_enabled (evt : sm_evt) (pl : payload) : sm Z :=
  m ← as_int pl;
  enabled ← call (msgTypeEnabled m);
  reply_flag evt NO_ERROR enabled.

Definition on_set_params (evt : sm_evt) (pl : payload) : sm Z :=
  '(rc, needRestart) ← call (updateParameters (p_addr pl));
  let rc := if ok rc && needRestart then BAD_VALUE else rc in
  when (negb (ok rc)) (call (setNeedRestart false)) ;;
  reply_def evt rc.

Definition on_set_params_commit (evt : sm_evt) (pl : payload) : sm Z :=
  rc ← call commitParameterChanges;
  reply_def evt rc.

Definition on_set_params_stop (evt : sm_evt) (pl : payload) : sm Z :=
  reply_def evt INVALID_OPERATION.

Definition on_get_params (evt : sm_evt) (pl : payload) : sm Z :=
  params ← call getParameters;
  reply_params evt (if (params =? 0)%Z then UNKNOWN_ERROR else NO_ERROR) params.

Definition on_put_params (evt : sm_evt) (pl : payload) : sm Z :=
  rc ← call (putParameters (p_addr pl));
  reply_def evt rc.

Definition on_preview_enabled (evt : sm_evt) (pl : payload) : sm Z :=
  reply_flag evt NO_ERROR 0.

Definition on_recording_enabled (evt : sm_evt) (pl : payload) : sm Z :=
  reply_flag evt NO_ERROR 1.

Definition on_store_metadata_in_bufs (evt : sm_evt) (pl : payload) : sm Z :=
  b ← as_int pl;
  rc ← call (storeMetaDataInBuffers b);
  reply_def evt rc.

Definition on_dump (evt : sm_evt) (pl : payload) : sm Z :=
  fd ← as_int pl;
  rc ← call (dump fd);
  reply_def evt rc.

Definition on_start_auto_focus (evt : sm_evt) (pl : payload) : sm Z :=
  rc ← call autoFocus;
  reply_def evt rc.

Definition on_stop_auto_focus (evt : sm_evt) (pl : payload) : sm Z :=
  rc ← call cancelAutoFocus;
  reply_def evt rc.

Definition on_send_command (evt : sm_evt) (pl : payload) : sm Z :=
  '(cmd, arg1, arg2) ← as_command pl;
  rc ← call (sendCommand cmd arg1 arg2);
  reply_def evt rc.

Definition on_pre_take_picture (evt : sm_evt) (pl : payload) : sm Z :=
  reply_def evt NO_ERROR.

Definition on_take_picture (evt : sm_evt) (pl : payload) : sm Z :=
  modify (set_state ST_VIDEO_PIC_TAKING) ;;
  rc ← call takeLiveSnapshot;
  when (negb (ok rc))
    (call unconfigureAdvancedCapture ;; modify (set_state ST_RECORDING)) ;;
  reply_def evt rc.

Definition on_pre_start_recording (evt : sm_evt) (pl : payload) : sm Z :=
  reply_def evt 0.

Definition on_stop_recording (evt : sm_evt) (pl : payload) : sm Z :=
  rc ← call stopRecording;
  modify (set_state ST_PREVIEWING) ;;
  reply_def evt rc.

Definition on_stop_preview (evt : sm_evt) (pl : payload) : sm Z :=
  call stopRecording ;;
  modify (set_state ST_PREVIEWING) ;;
  rc ← call stopPreview;
  modify (set_state ST_PREVIEW_STOPPED) ;;
  reply_def evt rc.

Definition on_release_recoridng_frame (evt : sm_evt) (pl : payload) : sm Z :=
  rc ← call (releaseRecordingFrame (p_addr pl));
  reply_def evt rc.

Definition on_reg_face_image (evt : sm_evt) (pl : payload) : sm Z :=
  '(img_ptr, config) ← as_regface pl;
  '(rc, faceID) ← call (registerFaceImage img_ptr config);
  reply_handle evt rc faceID.

Definition on_prepare_snapshot (evt : sm_evt) (pl : payload) : sm Z :=
  reply_def evt NO_ERROR.

Definition on_cannot_handle (evt : sm_evt) (pl : payload) : sm Z :=
  reply_def evt INVALID_OPERATION.

Definition on_evt_internal (evt : sm_evt) (pl : payload) : sm Z :=
  '(evt_type, data) ← as_internal pl;
  match evt_type with
  | IE_FOCUS_UPDATE => call (processAutoFocusEvent data)
  | IE_PREP_SNAPSHOT_DONE => mret NO_ERROR
  | IE_FACE_DETECT_RESULT => call (processFaceDetectionResult data)
  | IE_HISTOGRAM_STATS => call (processHistogramStats data)
  | IE_CROP_INFO => call (processZoomEvent data)
  | IE_ASD_UPDATE => call (processASDUpdate data)
  | IE_LED_MODE_OVERRIDE => mret NO_ERROR
  | IE_AWB_UPDATE => call (transAwbMetaToParams data)
  | IE_AE_UPDATE => call (processAEInfo data)
  | IE_FOCUS_POS_UPDATE => call (processFocusPositionInfo data)
  | IE_HDR_UPDATE => call (processHDRData data)
  | IE_RETRO_AEC_UNLOCK => call processRetroAECUnlock
  | IE_ZSL_CAPTURE_DONE => call processZSLCaptureDone
  | _ => mret NO_ERROR
  end.

Definition on_evt_notify (evt : sm_evt) (pl : payload) : sm Z :=
  server_event_type ← as_camevent pl;
  when (server_event_type =? CAM_EVENT_TYPE_DAEMON_DIED)%Z
    (call (sendEvtNotify CAMERA_MSG_ERROR CAMERA_ERROR_SERVER_DIED 0) ;; mret ()) ;;
  mret NO_ERROR.

Definition on_thermal_notify (evt : sm_evt) (pl : payload) : sm Z :=
  call (updateThermalLevel (p_addr pl)).

Definition on_snapshot_done (evt : sm_evt) (pl : payload) : sm Z :=
  reply_evt evt NO_ERROR.

Definition on_default (evt : sm_evt) (pl : payload) : sm Z :=
  mret NO_ERROR.

Definition procEvtRecordingState (evt : sm_evt) (pl : payload) : sm Z :=
  match evt with
  | PREPARE_PREVIEW | START_PREVIEW | SET_PREVIEW_WINDOW => on_prepare_preview evt pl
  | SET_CALLBACKS => on_set_callbacks evt pl
  | ENABLE_MSG_TYPE => on_enable_msg_type evt pl
  | DISABLE_MSG_TYPE => on_disable_msg_type evt pl
  | MSG_TYPE_ENABLED => on_msg_type_enabled evt pl
  | SET_PARAMS => on_set_params evt pl
  | SET_PARAMS_COMMIT => on_set_params_commit evt pl
  | SET_PARAMS_STOP | SET_PARAMS_RESTART => on_set_params_stop evt pl
  | GET_PARAMS => on_get_params evt pl
  | PUT_PARAMS => on_put_params evt pl
  | PREVIEW_ENABLED => on_preview_enabled evt pl
  | RECORDING_ENABLED => on_recording_enabled evt pl
  | STORE_METADATA_IN_BUFS => on_store_metadata_in_bufs evt pl
  | DUMP => on_dump evt pl
  | START_AUTO_FOCUS => on_start_auto_focus evt pl
  | STOP_AUTO_FOCUS => on_stop_auto_focus evt pl
  | SEND_COMMAND => on_send_command evt pl
  | PRE_TAKE_PICTURE => on_pre_take_picture evt pl
  | TAKE_PICTURE => on_take_picture evt pl
  | PRE_START_RECORDING | RESTART_STOP_PREVIEW | RESTART_START_PREVIEW
  | START_RECORDING => on_pre_start_recording evt pl
  | STOP_RECORDING => on_stop_recording evt pl
  | STOP_PREVIEW => on_stop_preview evt pl
  | RELEASE_RECORIDNG_FRAME => on_release_recoridng_frame evt pl
  | REG_FACE_IMAGE => on_reg_face_image evt pl
  | PREPARE_SNAPSHOT => on_prepare_snapshot evt pl
  | CANCEL_PICTURE | START_NODISPLAY_PREVIEW | RELEASE => on_cannot_handle evt pl
  | EVT_INTERNAL => on_evt_internal evt pl
  | EVT_NOTIFY => on_evt_notify evt pl
  | THERMAL_NOTIFY => on_thermal_notify evt pl
  | SNAPSHOT_DONE => on_snapshot_done evt pl
  | _ => on_default evt pl
  end.

End Handlers.

(** ** Contract *)
Lemma recording_contract `{Platform} evt pl v :
  payload_ok evt pl → m_state v = ST_RECORDING →
  wp (procEvtRecordingState evt pl) (contract evt v) v [].
Proof. intros Hpl Hst. handler_contract v evt Hpl Hst. Qed.
