(* ===== verification/FifoSpec.v ===== *)
(** * What a command queue promises to its clients

    The interface between [QCameraQueue] and the camera state machine: the
    operations the state machine uses and their laws, stated on the list of
    the queued data.  [CamQueue] discharges it for the linked nodes of
    [QCameraQueue.cpp]; [CamMachine] is proved against it. *)
From S2P Require Import Prelude.

(** [fq_fresh a q]: the allocator may return [a] while [q] is in use.  An
    operation returns [None] when it would follow a dangling pointer. *)
Class FifoQueue (Q D : Type) := {
  fq_ok : Q → Prop;
  fq_list : Q → list D;
  fq_active : Q → bool;
  fq_fresh : Z → Q → Prop;
  fq_enqueue : option Z → D → Q → option (bool * Q);
  fq_dequeue : Q → option (option D * Q)
}.

Class FifoLaws (Q D : Type) `{FifoQueue Q D} := {
  fq_enqueue_nomem q d : fq_enqueue None d q = Some (false, q);
  fq_enqueue_inactive q d a :
    fq_ok q → fq_active q = false → fq_fresh a q →
    fq_enqueue (Some a) d q = Some (false, q);
  fq_enqueue_active q d a :
    fq_ok q → fq_active q = true → fq_fresh a q →
    ∃ q', fq_enqueue (Some a) d q = Some (true, q') ∧
      fq_ok q' ∧ fq_active q' = true ∧ fq_list q' = fq_list q ++ [d];
  fq_dequeue_inactive q :
    fq_ok q → fq_active q = false → fq_dequeue q = Some (None, q);
  fq_dequeue_nil q :
    fq_ok q → fq_active q = true → fq_list q = [] → fq_dequeue q = Some (None, q);
  fq_dequeue_cons q d l :
    fq_ok q → fq_active q = true → fq_list q = d :: l →
    ∃ q', fq_dequeue q = Some (Some d, q') ∧
      fq_ok q' ∧ fq_active q' = true ∧ fq_list q' = l
}.
