(* ===== verification/CamQueue.v ===== *)
(** * [QCameraQueue]: the linked queue of the camera HAL

    Models [camera/QCamera2/util/QCameraQueue.cpp] and the list primitives of
    [stack/common/cam_list.h] it calls, on a store of nodes with [next] and
    [prev] pointers, and proves that every operation refines an operation on
    the list of the queued data.  A pointer that is not in the store is
    dangling: following it is undefined behaviour, [None] here. *)
From S2P Require Import Prelude FifoSpec.

(** ** Nodes and the store *)
Section Queue.
  Context {D : Type}.

(** [camera_q_node]; the dummy head carries no data. *)
Record node := Node { n_next : Z; n_prev : Z; n_data : option D }.

Abbreviation store := (gmap Z node).

Definition nxt (h : store) (p : Z) : option Z := n_next <$> h !! p.
Definition prv (h : store) (p : Z) : option Z := n_prev <$> h !! p.
Definition dat (h : store) (p : Z) : option (option D) := n_data <$> h !! p.

Definition wr_next (p v : Z) (h : store) : option store :=
  n ← h !! p; Some (<[p := Node v (n_prev n) (n_data n)]> h).
Definition wr_prev (p v : Z) (h : store) : option store :=
  n ← h !! p; Some (<[p := Node (n_next n) v (n_data n)]> h).

(** ** [cam_list.h] *)
Definition cam_list_init (p : Z) (h : store) : option store :=
  h ← wr_next p p h; wr_prev p p h.

Definition cam_list_add_tail_node (item head : Z) (h : store) : option store :=
  prev ← prv h head;
  h ← wr_prev head item h;
  h ← wr_next item head h;
  h ← wr_prev item prev h;
  wr_next prev item h.

Definition cam_list_del_node (p : Z) (h : store) : option store :=
  prev ← prv h p;
  next ← nxt h p;
  p_prev ← prv h p;
  h ← wr_prev next p_prev h;
  p_next ← nxt h p;
  h ← wr_next prev p_next h;
  h ← wr_next p p h;
  wr_prev p p h.

(** ** The queue object *)
Record queue := Queue {
  m_head : Z;
  m_store : store;
  m_size : Z;
  m_active : bool
}.

(** The constructors, for an object whose dummy head is at [head]. *)
Definition new_queue (head : Z) : queue :=
  Queue head {[ head := Node head head None ]} 0 true.

Definition init (q : queue) : queue := Queue (m_head q) (m_store q) (m_size q) true.

Definition isEmpty (q : queue) : bool := negb (0 <? m_size q)%Z.

(** [malloc] of a node gives [a], or nothing. *)
Definition enqueue (a : option Z) (d : D) (q : queue) : option (bool * queue) :=
  match a with
  | None => Some (false, q)
  | Some a =>
      let h := <[a := Node 0 0 (Some d)]> (m_store q) in
      if m_active q then
        h ← cam_list_add_tail_node a (m_head q) h;
        Some (true, Queue (m_head q) h (m_size q + 1) true)
      else Some (false, Queue (m_head q) (delete a h) (m_size q) false)
  end.

Definition enqueueWithPriority (a : option Z) (d : D) (q : queue) :
    option (bool * queue) :=
  match a with
  | None => Some (false, q)
  | Some a =>
      let h := <[a := Node 0 0 (Some d)]> (m_store q) in
      if m_active q then
        p_next ← nxt h (m_head q);
        h ← wr_next (m_head q) a h;
        h ← wr_prev p_next a h;
        h ← wr_next a p_next h;
        h ← wr_prev a (m_head q) h;
        Some (true, Queue (m_head q) h (m_size q + 1) true)
      else Some (false, Queue (m_head q) (delete a h) (m_size q) false)
  end.

Definition peek (q : queue) : option (option D) :=
  if m_active q then
    pos ← nxt (m_store q) (m_head q);
    if decide (pos = m_head q) then Some None else dat (m_store q) pos
  else Some None.

(** Unlinking a node, reading its data and freeing it. *)
Definition take_node (pos : Z) (q : queue) : option (option D * queue) :=
  h ← cam_list_del_node pos (m_store q);
  d ← dat h pos;
  Some (d, Queue (m_head q) (delete pos h) (m_size q - 1) (m_active q)).

Definition dequeue (bFromHead : bool) (q : queue) : option (option D * queue) :=
  if m_active q then
    pos ← (if bFromHead then nxt (m_store q) (m_head q)
           else prv (m_store q) (m_head q));
    if decide (pos = m_head q) then Some (None, q) else take_node pos q
  else Some (None, q).

(** The loop of [dequeue(match, match_data)]; [fuel] bounds its turns. *)
Fixpoint dequeue_match_loop (fuel : nat) (matches : D → bool) (pos : Z) (q : queue) :
    option (option D * queue) :=
  match fuel with
  | O => None
  | S fuel =>
      if decide (pos = m_head q) then Some (None, q)
      else
        next ← nxt (m_store q) pos;
        d ← dat (m_store q) pos;
        if (match d with Some d => matches d | None => false end)
        then take_node pos q
        else dequeue_match_loop fuel matches next q
  end.

Definition dequeue_match (matches : option (D → bool)) (q : queue) :
    option (option D * queue) :=
  match matches with
  | None => Some (None, q)
  | Some f =>
      if m_active q then
        pos ← nxt (m_store q) (m_head q);
        dequeue_match_loop (S (size (m_store q))) f pos q
      else Some (None, q)
  end.

(** The loop of [flush] and [flushNodes]: every node that matches is removed,
    and its data handed to the release function, in order. *)
Fixpoint flush_loop (fuel : nat) (matches : D → bool) (pos : Z) (q : queue)
    (released : list D) : option (list D * queue) :=
  match fuel with
  | O => None
  | S fuel =>
      if decide (pos = m_head q) then Some (released, q)
      else
        next ← nxt (m_store q) pos;
        d ← dat (m_store q) pos;
        match d with
        | Some d =>
            if matches d then
              '(_, q') ← take_node pos q;
              flush_loop fuel matches next q' (released ++ [d])
            else flush_loop fuel matches next q released
        | None => None
        end
  end.

Definition flushNodes (matches : option (D → bool)) (q : queue) :
    option (list D * queue) :=
  match matches with
  | None => Some ([], q)
  | Some f =>
      if m_active q then
        pos ← nxt (m_store q) (m_head q);
        flush_loop (S (size (m_store q))) f pos q []
      else Some ([], q)
  end.

Definition flush (q : queue) : option (list D * queue) :=
  if m_active q then
    pos ← nxt (m_store q) (m_head q);
    '(released, q') ← flush_loop (S (size (m_store q))) (λ _, true) pos q [];
    Some (released, Queue (m_head q') (m_store q') 0 false)
  else Some ([], q).

(** ** Segments of the ring *)

(** From [u], through the nodes of [l], to [v]: the pointers agree. *)
Fixpoint lseg (h : store) (u : Z) (l : list Z) (v : Z) : Prop :=
  match l with
  | [] => nxt h u = Some v ∧ prv h v = Some u
  | w :: l => nxt h u = Some w ∧ prv h w = Some u ∧ lseg h w l v
  end.

Definition hd_or (v : Z) (l : list Z) : Z := match l with [] => v | x :: _ => x end.
Definition last_or (u : Z) (l : list Z) : Z := default u (last l).

Lemma last_or_cons u w l : last_or u (w :: l) = last_or w l.
Proof. unfold last_or. rewrite last_cons. by destruct (last l). Qed.

Lemma last_or_snoc u l w : last_or u (l ++ [w]) = w.
Proof. unfold last_or. by rewrite last_snoc. Qed.

Lemma last_or_in u l : last_or u l ∈ u :: l.
Proof.
  unfold last_or. destruct (last l) eqn:El; simpl; [|set_solver].
  apply elem_of_cons; right. by apply last_Some_elem_of.
Qed.

Lemma hd_or_in v l : hd_or v l ∈ l ++ [v].
Proof. destruct l; set_solver. Qed.

Lemma lseg_frame h h' u l v :
  lseg h u l v →
  (∀ a, a ∈ u :: l → nxt h' a = nxt h a) →
  (∀ a, a ∈ l ++ [v] → prv h' a = prv h a) →
  lseg h' u l v.
Proof.
  revert u. induction l as [|w l IH]; intros u Hs Hn Hp; simpl in *.
  - rewrite Hn, Hp by set_solver. done.
  - destruct Hs as (? & ? & ?).
    rewrite Hn, Hp by set_solver. repeat split; auto.
    apply IH; [done| |]; intros a Ha; [apply Hn|apply Hp]; set_solver.
Qed.

Lemma lseg_at h u l1 p l2 v :
  lseg h u (l1 ++ p :: l2) v →
  prv h p = Some (last_or u l1) ∧ nxt h p = Some (hd_or v l2).
Proof.
  revert u. induction l1 as [|w l1 IH]; intros u; simpl.
  - intros (? & ? & Hs). split; [done|]. destruct l2; simpl in *; naive_solver.
  - intros (? & ? & Hs). rewrite last_or_cons. by apply IH.
Qed.

Lemma lseg_ends h u l v :
  lseg h u l v → nxt h u = Some (hd_or v l) ∧ prv h v = Some (last_or u l).
Proof.
  revert u. induction l as [|w l IH]; intros u; simpl; [done|].
  intros (? & ? & Hs). rewrite last_or_cons. split; [done|]. by apply IH.
Qed.

(** Inserting [item] between [x] and [y]. *)
Lemma lseg_insert h h' u l1 l2 v item :
  lseg h u (l1 ++ l2) v →
  NoDup (u :: l1 ++ l2) → NoDup ((l1 ++ l2) ++ [v]) →
  item ∉ u :: l1 ++ l2 → item ≠ v →
  let x := last_or u l1 in let y := hd_or v l2 in
  (∀ a, nxt h' a = if decide (a = x) then Some item
                   else if decide (a = item) then Some y else nxt h a) →
  (∀ a, prv h' a = if decide (a = y) then Some item
                   else if decide (a = item) then Some x else prv h a) →
  lseg h' u (l1 ++ item :: l2) v.
Proof.
  simpl. revert u. induction l1 as [|w l1 IH]; intros u Hs Hnd Hnd' Hi Hv Hn Hp.
  - unfold last_or in *; simpl in *.
    assert (hd_or v l2 ≠ item) by (pose proof (hd_or_in v l2); set_solver).
    assert (u ≠ item) by set_solver.
    rewrite (Hn u), (Hp item), !decide_True, decide_False by done.
    split; [done|]. rewrite decide_True by done. split; [done|].
    destruct l2 as [|y l2]; simpl in *.
    + rewrite Hn, Hp, decide_False, !decide_True by done. done.
    + destruct Hs as (? & ? & Hs).
      rewrite (Hn item), (Hp y), decide_False, !decide_True by done.
      repeat split. eapply lseg_frame; [exact Hs| |]; intros a Ha.
      * apply NoDup_cons in Hnd as [? ?]. rewrite Hn, !decide_False; set_solver.
      * apply NoDup_cons in Hnd' as [? ?]. rewrite Hp, !decide_False; set_solver.
  - simpl in *. destruct Hs as (? & ? & Hs).
    rewrite last_or_cons in *.
    pose proof (last_or_in w l1) as Hl. pose proof (hd_or_in v l2) as Hh.
    apply NoDup_cons in Hnd as [? ?]. apply NoDup_cons in Hnd' as [? ?].
    rewrite (Hn u), (Hp w), !decide_False by set_solver.
    repeat split; auto. apply IH; auto. set_solver.
Qed.

(** Removing [p] from between [x] and [y]; what becomes of [p] is free. *)
Lemma lseg_delete h h' u l1 p l2 v :
  lseg h u (l1 ++ p :: l2) v →
  NoDup (u :: l1 ++ p :: l2) → NoDup ((l1 ++ p :: l2) ++ [v]) →
  let x := last_or u l1 in let y := hd_or v l2 in
  (∀ a, a ≠ p → nxt h' a = if decide (a = x) then Some y else nxt h a) →
  (∀ a, a ≠ p → prv h' a = if decide (a = y) then Some x else prv h a) →
  lseg h' u (l1 ++ l2) v.
Proof.
  simpl. revert u. induction l1 as [|w l1 IH]; intros u Hs Hnd Hnd' Hn Hp.
  - unfold last_or in *; simpl in *. destruct Hs as (? & ? & Hs).
    apply NoDup_cons in Hnd as [Hu Hnd]. apply NoDup_cons in Hnd as [Hpl ?].
    apply NoDup_cons in Hnd' as [Hpl' Hnd'].
    destruct l2 as [|y l2]; simpl in *.
    + rewrite Hn, Hp, !decide_True by set_solver. done.
    + destruct Hs as (? & ? & Hs).
      rewrite Hn, (Hp y), !decide_True by set_solver. repeat split.
      apply NoDup_cons in Hnd' as [? ?].
      eapply lseg_frame; [exact Hs| |]; intros a Ha.
      * rewrite Hn, decide_False; set_solver.
      * rewrite Hp, decide_False; set_solver.
  - simpl in *. destruct Hs as (? & ? & Hs). rewrite last_or_cons in *.
    pose proof (last_or_in w l1) as Hl. pose proof (hd_or_in v l2) as Hh.
    apply NoDup_cons in Hnd as [? ?]. apply NoDup_cons in Hnd' as [? ?].
    rewrite (Hn u), (Hp w), !decide_False by set_solver.
    repeat split; auto.
Qed.

(** ** Field updates *)
Lemma wr_next_spec p v h :
  is_Some (h !! p) → ∃ h', wr_next p v h = Some h' ∧
    (∀ a, nxt h' a = if decide (a = p) then Some v else nxt h a) ∧
    (∀ a, prv h' a = prv h a) ∧ (∀ a, dat h' a = dat h a) ∧ dom h' = dom h.
Proof.
  intros [n Hn]. unfold wr_next. rewrite Hn. simpl.
  eexists; split; [reflexivity|]. unfold nxt, prv, dat.
  repeat split; [intros a..|rewrite dom_insert_lookup_L; [done|by eexists]];
    rewrite lookup_insert; repeat case_decide; simplify_eq; rewrite ?Hn; done.
Qed.

Lemma wr_prev_spec p v h :
  is_Some (h !! p) → ∃ h', wr_prev p v h = Some h' ∧
    (∀ a, prv h' a = if decide (a = p) then Some v else prv h a) ∧
    (∀ a, nxt h' a = nxt h a) ∧ (∀ a, dat h' a = dat h a) ∧ dom h' = dom h.
Proof.
  intros [n Hn]. unfold wr_prev. rewrite Hn. simpl.
  eexists; split; [reflexivity|]. unfold nxt, prv, dat.
  repeat split; [intros a..|rewrite dom_insert_lookup_L; [done|by eexists]];
    rewrite lookup_insert; repeat case_decide; simplify_eq; rewrite ?Hn; done.
Qed.

Lemma nxt_dom h p v : nxt h p = Some v → p ∈ dom h.
Proof. unfold nxt. rewrite fmap_Some. intros (? & ? & ?). by apply elem_of_dom. Qed.

Lemma prv_dom h p v : prv h p = Some v → p ∈ dom h.
Proof. unfold prv. rewrite fmap_Some. intros (? & ? & ?). by apply elem_of_dom. Qed.

(** ** The queue represents a list

    [ids] are the addresses of the nodes, in order. *)
Record rep (q : queue) (ids : list Z) (l : list D) : Prop := {
  rep_nodup : NoDup (m_head q :: ids);
  rep_ring : lseg (m_store q) (m_head q) ids (m_head q);
  rep_data : Forall2 (λ a d, dat (m_store q) a = Some (Some d)) ids l;
  rep_dom : dom (m_store q) = list_to_set (m_head q :: ids);
  rep_size : m_size q = Z.of_nat (length l)
}.

Lemma rep_nodup' q ids l : rep q ids l → NoDup (ids ++ [m_head q]).
Proof.
  intros Hr. pose proof (rep_nodup _ _ _ Hr) as Hnd.
  rewrite Permutation_app_comm. done.
Qed.

Lemma new_queue_rep head : rep (new_queue head) [] [].
Proof.
  split; simpl.
  - apply NoDup_singleton.
  - unfold nxt, prv. by rewrite lookup_singleton_eq.
  - constructor.
  - rewrite dom_singleton_L. set_solver.
  - done.
Qed.

Lemma rep_ids_dom q ids l a : rep q ids l → a ∉ dom (m_store q) → a ∉ m_head q :: ids.
Proof. intros Hr Ha Hin. apply Ha. rewrite (rep_dom _ _ _ Hr). by apply elem_of_list_to_set. Qed.

Lemma data_frame h h' ids l :
  Forall2 (λ a d, dat h a = Some (Some d)) ids l →
  (∀ a, a ∈ ids → dat h' a = dat h a) →
  Forall2 (λ a d, dat h' a = Some (Some d)) ids l.
Proof.
  induction 1; intros Hfr; constructor.
  - rewrite Hfr; [done|set_solver].
  - apply IHForall2. intros b ?. apply Hfr. set_solver.
Qed.

(** A node linked between two neighbours is an element put between theirs. *)
Lemma rep_insert q i1 i2 l1 l2 a d h' :
  rep q (i1 ++ i2) (l1 ++ l2) → length i1 = length l1 → a ∉ dom (m_store q) →
  (∀ x, nxt h' x = if decide (x = last_or (m_head q) i1) then Some a
                   else if decide (x = a) then Some (hd_or (m_head q) i2)
                   else nxt (m_store q) x) →
  (∀ x, prv h' x = if decide (x = hd_or (m_head q) i2) then Some a
                   else if decide (x = a) then Some (last_or (m_head q) i1)
                   else prv (m_store q) x) →
  (∀ x, dat h' x = if decide (x = a) then Some (Some d) else dat (m_store q) x) →
  dom h' = {[a]} ∪ dom (m_store q) →
  rep (Queue (m_head q) h' (m_size q + 1) true) (i1 ++ a :: i2) (l1 ++ d :: l2).
Proof.
  intros Hr Hlen Ha Hn Hp Hd Hdom.
  pose proof (rep_ids_dom _ _ _ _ Hr Ha) as Hfresh.
  pose proof (rep_nodup' _ _ _ Hr) as Hnd'. destruct Hr as [Hnd Hs Hdt Hdm Hsz].
  split; simpl.
  - rewrite <- Permutation_middle, Permutation_swap. by apply NoDup_cons.
  - eapply lseg_insert; eauto. set_solver.
  - apply Forall2_app_inv in Hdt as [Hdt1 Hdt2]; [|done].
    assert (∀ x, x ≠ a → dat h' x = dat (m_store q) x) as Hda.
    { intros x ?. by rewrite Hd, decide_False. }
    apply Forall2_app; [|constructor].
    + eapply data_frame; [done|]. intros x ?. apply Hda. set_solver.
    + by rewrite Hd, decide_True.
    + eapply data_frame; [done|]. intros x ?. apply Hda. set_solver.
  - rewrite Hdom, Hdm. set_solver.
  - rewrite Hsz, !length_app. simpl. lia.
Qed.

(** Addresses of the ring, and its neighbours. *)
Lemma rep_in_dom q ids l a : rep q ids l → a ∈ m_head q :: ids → is_Some (m_store q !! a).
Proof.
  intros Hr Ha. apply elem_of_dom. rewrite (rep_dom _ _ _ Hr).
  by apply elem_of_list_to_set.
Qed.

Lemma rep_neighbours q i1 p i2 l :
  rep q (i1 ++ p :: i2) l →
  prv (m_store q) p = Some (last_or (m_head q) i1) ∧
  nxt (m_store q) p = Some (hd_or (m_head q) i2) ∧
  is_Some (m_store q !! p) ∧
  is_Some (m_store q !! last_or (m_head q) i1) ∧
  is_Some (m_store q !! hd_or (m_head q) i2).
Proof.
  intros Hr. destruct (lseg_at _ _ _ _ _ _ (rep_ring _ _ _ Hr)) as [-> ->].
  pose proof (last_or_in (m_head q) i1). pose proof (hd_or_in (m_head q) i2).
  repeat split; eapply rep_in_dom; eauto; set_solver.
Qed.

(** Taking the node of an element out is deleting the element. *)
Lemma take_node_rep q i1 p i2 l1 d l2 :
  rep q (i1 ++ p :: i2) (l1 ++ d :: l2) → length i1 = length l1 →
  ∃ q', take_node p q = Some (Some d, q') ∧ rep q' (i1 ++ i2) (l1 ++ l2) ∧
    m_active q' = m_active q ∧ m_head q' = m_head q ∧
    (∀ a, a ≠ p → dat (m_store q') a = dat (m_store q) a).
Proof.
  intros Hr Hlen. pose proof (rep_nodup' _ _ _ Hr) as Hnd'.
  destruct (rep_neighbours _ _ _ _ _ Hr) as (Hp & Hn & Hsp & Hsx & Hsy).
  destruct Hr as [Hnd Hs Hdt Hdm Hsz].
  apply Forall2_app_inv in Hdt as [Hd1 Hd2]; [|done].
  apply Forall2_cons in Hd2 as [Hdp Hd2].
  unfold take_node, cam_list_del_node. rewrite Hp, Hn. simpl.
  set (x := last_or (m_head q) i1) in *. set (y := hd_or (m_head q) i2) in *.
  destruct (wr_prev_spec y x (m_store q)) as (h1 & -> & Hp1 & Hn1 & Ht1 & Hm1); [done|].
  simpl. rewrite Hn1, Hn. simpl.
  destruct (wr_next_spec x y h1) as (h2 & -> & Hn2 & Hp2 & Ht2 & Hm2).
  { apply elem_of_dom. rewrite Hm1. by apply elem_of_dom. }
  simpl. destruct (wr_next_spec p p h2) as (h3 & -> & Hn3 & Hp3 & Ht3 & Hm3).
  { apply elem_of_dom. rewrite Hm2, Hm1. by apply elem_of_dom. }
  simpl. destruct (wr_prev_spec p p h3) as (h4 & -> & Hp4 & Hn4 & Ht4 & Hm4).
  { apply elem_of_dom. rewrite Hm3, Hm2, Hm1. by apply elem_of_dom. }
  simpl. rewrite Ht4, Ht3, Ht2, Ht1, Hdp. simpl.
  eexists; split; [reflexivity|].
  assert (∀ a, a ≠ p → dat (delete p h4) a = dat (m_store q) a) as Hda.
  { intros a ?. rewrite <- Ht1, <- Ht2, <- Ht3, <- Ht4.
    unfold dat. by rewrite lookup_delete_ne. }
  split; [|by repeat split].
  split; simpl.
  - rewrite <- Permutation_middle, Permutation_swap in Hnd.
    by apply NoDup_cons in Hnd as [_ ?].
  - eapply lseg_delete; eauto.
    + intros a ?. unfold nxt. rewrite lookup_delete_ne by done.
      fold (nxt h4 a). rewrite Hn4, Hn3, decide_False, Hn2, Hn1; done.
    + intros a ?. unfold prv. rewrite lookup_delete_ne by done.
      fold (prv h4 a). rewrite Hp4, decide_False, Hp3, Hp2, Hp1; done.
  - rewrite <- Permutation_middle, Permutation_swap in Hnd.
    apply NoDup_cons in Hnd as [Hnp _].
    apply Forall2_app; (eapply data_frame; [eassumption|]);
      intros a ?; apply Hda; set_solver.
  - rewrite dom_delete_L, Hm4, Hm3, Hm2, Hm1, Hdm.
    rewrite <- Permutation_middle, Permutation_swap in Hnd.
    apply NoDup_cons in Hnd as [Hnp _]. set_solver.
  - rewrite Hsz, !length_app. simpl. lia.
Qed.

Lemma rep_length q ids l : rep q ids l → length ids = length l.
Proof. intros Hr. exact (Forall2_length _ _ _ (rep_data _ _ _ Hr)). Qed.

(** The list determines its split of the addresses. *)
Lemma rep_split q ids l1 l2 :
  rep q ids (l1 ++ l2) →
  ∃ i1 i2, ids = i1 ++ i2 ∧ length i1 = length l1 ∧ length i2 = length l2.
Proof.
  intros Hr. pose proof (rep_length _ _ _ Hr) as Hl. rewrite length_app in Hl.
  exists (take (length l1) ids), (drop (length l1) ids).
  rewrite take_drop, length_take, length_drop. split; [done|]. lia.
Qed.

(** ** The operations refine list operations *)
Lemma link_store q a (d : D) :
  a ∉ dom (m_store q) →
  let h := <[a := Node 0 0 (Some d)]> (m_store q) in
  (∀ x, x ≠ a → nxt h x = nxt (m_store q) x) ∧
  (∀ x, x ≠ a → prv h x = prv (m_store q) x) ∧
  (∀ x, dat h x = if decide (x = a) then Some (Some d) else dat (m_store q) x) ∧
  dom h = {[a]} ∪ dom (m_store q).
Proof.
  intros Ha h. unfold h, nxt, prv, dat.
  split_and!; [intros x ?; by rewrite lookup_insert_ne..| |by rewrite dom_insert_L].
  intros x. rewrite lookup_insert. repeat case_decide; simplify_eq; done.
Qed.

Lemma enqueue_rep q ids l a d :
  rep q ids l → m_active q = true → a ∉ dom (m_store q) →
  ∃ q', enqueue (Some a) d q = Some (true, q') ∧
    rep q' (ids ++ [a]) (l ++ [d]) ∧ m_active q' = true.
Proof.
  intros Hr Hact Ha. unfold enqueue. rewrite Hact.
  destruct (link_store q a d Ha) as (Hn0 & Hp0 & Ht0 & Hm0).
  set (h0 := <[a := _]> (m_store q)) in *. 
  pose proof (rep_ids_dom _ _ _ _ Hr Ha) as Hf.
  destruct (lseg_ends _ _ _ _ (rep_ring _ _ _ Hr)) as [_ Hlast].
  pose proof (last_or_in (m_head q) ids) as Hin.
  unfold cam_list_add_tail_node. rewrite Hp0, Hlast by set_solver. simpl.
  assert (∀ x, x ∈ a :: m_head q :: ids → x ∈ dom h0) as Hd.
  { intros x. rewrite Hm0, (rep_dom _ _ _ Hr). set_solver. }
  destruct (wr_prev_spec (m_head q) a h0) as (h1 & -> & Hp1 & Hn1 & Ht1 & Hm1).
  { apply elem_of_dom, Hd. set_solver. }
  simpl. destruct (wr_next_spec a (m_head q) h1) as (h2 & -> & Hn2 & Hp2 & Ht2 & Hm2).
  { apply elem_of_dom. rewrite Hm1. apply Hd. set_solver. }
  simpl. destruct (wr_prev_spec a (last_or (m_head q) ids) h2)
    as (h3 & -> & Hp3 & Hn3 & Ht3 & Hm3).
  { apply elem_of_dom. rewrite Hm2, Hm1. apply Hd. set_solver. }
  simpl. destruct (wr_next_spec (last_or (m_head q) ids) a h3)
    as (h4 & -> & Hn4 & Hp4 & Ht4 & Hm4).
  { apply elem_of_dom. rewrite Hm3, Hm2, Hm1. apply Hd. set_solver. }
  simpl. eexists; split; [reflexivity|]. split; [|done].
  apply (rep_insert q ids [] l [] a d).
  - by rewrite !app_nil_r.
  - by eapply rep_length.
  - done.
  - intros x. rewrite Hn4, Hn3, Hn2, Hn1. repeat case_decide; auto.
  - intros x. rewrite Hp4, Hp3, Hp2, Hp1. simpl. repeat case_decide; subst; auto.
    set_solver.
  - intros x. by rewrite Ht4, Ht3, Ht2, Ht1.
  - by rewrite Hm4, Hm3, Hm2, Hm1.
Qed.

Lemma enqueueWithPriority_rep q ids l a d :
  rep q ids l → m_active q = true → a ∉ dom (m_store q) →
  ∃ q', enqueueWithPriority (Some a) d q = Some (true, q') ∧
    rep q' (a :: ids) (d :: l) ∧ m_active q' = true.
Proof.
  intros Hr Hact Ha. unfold enqueueWithPriority. rewrite Hact.
  destruct (link_store q a d Ha) as (Hn0 & Hp0 & Ht0 & Hm0).
  set (h0 := <[a := _]> (m_store q)) in *.
  pose proof (rep_ids_dom _ _ _ _ Hr Ha) as Hf.
  destruct (lseg_ends _ _ _ _ (rep_ring _ _ _ Hr)) as [Hfirst _].
  pose proof (hd_or_in (m_head q) ids) as Hin.
  rewrite Hn0, Hfirst by set_solver. simpl.
  assert (∀ x, x ∈ a :: m_head q :: ids → x ∈ dom h0) as Hd.
  { intros x. rewrite Hm0, (rep_dom _ _ _ Hr). set_solver. }
  destruct (wr_next_spec (m_head q) a h0) as (h1 & -> & Hn1 & Hp1 & Ht1 & Hm1).
  { apply elem_of_dom, Hd. set_solver. }
  simpl. destruct (wr_prev_spec (hd_or (m_head q) ids) a h1)
    as (h2 & -> & Hp2 & Hn2 & Ht2 & Hm2).
  { apply elem_of_dom. rewrite Hm1. apply Hd. set_solver. }
  simpl. destruct (wr_next_spec a (hd_or (m_head q) ids) h2)
    as (h3 & -> & Hn3 & Hp3 & Ht3 & Hm3).
  { apply elem_of_dom. rewrite Hm2, Hm1. apply Hd. set_solver. }
  simpl. destruct (wr_prev_spec a (m_head q) h3) as (h4 & -> & Hp4 & Hn4 & Ht4 & Hm4).
  { apply elem_of_dom. rewrite Hm3, Hm2, Hm1. apply Hd. set_solver. }
  simpl. eexists; split; [reflexivity|]. split; [|done].
  apply (rep_insert q [] ids [] l a d); auto.
  - intros x. rewrite Hn4, Hn3, Hn2, Hn1. unfold last_or; simpl.
    repeat case_decide; subst; auto. set_solver.
  - intros x. rewrite Hp4, Hp3, Hp2, Hp1. unfold last_or; simpl.
    repeat case_decide; subst; auto. set_solver.
  - intros x. by rewrite Ht4, Ht3, Ht2, Ht1.
  - by rewrite Hm4, Hm3, Hm2, Hm1.
Qed.

Lemma rep_head q ids l :
  rep q ids l → nxt (m_store q) (m_head q) = Some (hd_or (m_head q) ids) ∧
  prv (m_store q) (m_head q) = Some (last_or (m_head q) ids).
Proof. intros Hr. exact (lseg_ends _ _ _ _ (rep_ring _ _ _ Hr)). Qed.

Lemma rep_ne_head q ids l a : rep q ids l → a ∈ ids → a ≠ m_head q.
Proof. intros Hr ? ->. pose proof (rep_nodup _ _ _ Hr) as Hnd. by inversion Hnd. Qed.

Lemma rep_nil q ids : rep q ids [] → ids = [].
Proof. intros Hr. apply rep_length in Hr. by destruct ids. Qed.

Lemma dequeue_empty q ids b : rep q ids [] → dequeue b q = Some (None, q).
Proof.
  intros Hr. assert (ids = []) as -> by by eapply rep_nil.
  destruct (rep_head _ _ _ Hr) as [Hn Hp]. unfold dequeue.
  destruct (m_active q); [|done].
  destruct b; rewrite ?Hn, ?Hp; simpl; by rewrite decide_True.
Qed.

Lemma dequeue_head_rep q ids d l :
  rep q ids (d :: l) → m_active q = true →
  ∃ q' ids', dequeue true q = Some (Some d, q') ∧ rep q' ids' l ∧ m_active q' = true.
Proof.
  intros Hr Hact. destruct (rep_split q ids [] (d :: l) Hr) as ([|] & [|p ids'] & -> & ? & ?);
    try done. simpl in *.
  destruct (take_node_rep q [] p ids' [] d l Hr) as (q' & Ht & Hr' & Ha & _); [done|].
  unfold dequeue. rewrite Hact. destruct (rep_head _ _ _ Hr) as [-> _]. simpl.
  rewrite decide_False by (eapply rep_ne_head; [done|set_solver]).
  exists q', ids'. by rewrite Ht, Ha.
Qed.

Lemma dequeue_tail_rep q ids l d :
  rep q ids (l ++ [d]) → m_active q = true →
  ∃ q' ids', dequeue false q = Some (Some d, q') ∧ rep q' ids' l ∧ m_active q' = true.
Proof.
  intros Hr Hact.
  destruct (rep_split q ids l [d] Hr) as (ids' & [|p [|]] & -> & ? & ?); try done.
  destruct (take_node_rep q ids' p [] l d [] Hr) as (q' & Ht & Hr' & Ha & _); [done|].
  unfold dequeue. rewrite Hact. destruct (rep_head _ _ _ Hr) as [_ ->]. simpl.
  rewrite last_or_snoc.
  rewrite decide_False by (eapply rep_ne_head; [done|set_solver]).
  exists q', ids'. rewrite !app_nil_r in Hr'. by rewrite Ht, Ha.
Qed.

Lemma rep_data_at q i1 p i2 l1 d l2 :
  rep q (i1 ++ p :: i2) (l1 ++ d :: l2) → length i1 = length l1 →
  dat (m_store q) p = Some (Some d).
Proof.
  intros Hr Hl. pose proof (rep_data _ _ _ Hr) as Hd.
  apply Forall2_app_inv in Hd as [_ Hd]; [|done]. by apply Forall2_cons in Hd as [? _].
Qed.

(** The store holds the ring and nothing else, so its size bounds the walk. *)
Lemma rep_store_size q ids l : rep q ids l → size (m_store q) = S (length ids).
Proof.
  intros Hr. rewrite <- size_dom, (rep_dom _ _ _ Hr).
  rewrite size_list_to_set by exact (rep_nodup _ _ _ Hr). done.
Qed.

(** The first element that matches is taken out; the others stay. *)
Fixpoint remove_first (f : D → bool) (l : list D) : option D * list D :=
  match l with
  | [] => (None, [])
  | d :: l => if f d then (Some d, l)
              else let '(r, l') := remove_first f l in (r, d :: l')
  end.

Lemma dequeue_match_loop_rep fuel f q i1 i2 l1 l2 :
  rep q (i1 ++ i2) (l1 ++ l2) → length i1 = length l1 → m_active q = true →
  (length i2 < fuel)%nat →
  ∃ q' ids', dequeue_match_loop fuel f (hd_or (m_head q) i2) q =
               Some (fst (remove_first f l2), q') ∧
    rep q' ids' (l1 ++ snd (remove_first f l2)) ∧ m_active q' = true.
Proof.
  revert i1 i2 l1 l2. induction fuel as [|fuel IH]; intros i1 i2 l1 l2 Hr Hl Ha Hf; [lia|].
  pose proof (rep_length _ _ _ Hr) as Hlen. rewrite !length_app in Hlen.
  destruct i2 as [|p i2], l2 as [|d l2]; simpl in *; try lia.
  - rewrite decide_True by done. eauto.
  - rewrite decide_False by (eapply rep_ne_head; [done|set_solver]).
    destruct (rep_neighbours _ _ _ _ _ Hr) as (_ & -> & _).
    rewrite (rep_data_at _ _ _ _ _ _ _ Hr Hl). simpl.
    destruct (f d) eqn:Hfd; simpl.
    + destruct (take_node_rep _ _ _ _ _ _ _ Hr Hl) as (q' & Ht & Hr' & Ha' & _).
      exists q', (i1 ++ i2). by rewrite Ht, Ha'.
    + destruct (IH (i1 ++ [p]) i2 (l1 ++ [d]) l2) as (q' & ids' & Hq & Hr' & Ha').
      * by rewrite <- !app_assoc.
      * rewrite !length_app. simpl. lia.
      * done.
      * lia.
      * exists q', ids'. rewrite Hq. destruct (remove_first f l2); simpl in *.
        rewrite <- app_assoc in Hr'. done.
Qed.

Lemma dequeue_match_rep f q ids l :
  rep q ids l → m_active q = true →
  ∃ q' ids', dequeue_match (Some f) q = Some (fst (remove_first f l), q') ∧
    rep q' ids' (snd (remove_first f l)) ∧ m_active q' = true.
Proof.
  intros Hr Ha. unfold dequeue_match. rewrite Ha.
  destruct (rep_head _ _ _ Hr) as [-> _]. rewrite (rep_store_size _ _ _ Hr).
  apply (dequeue_match_loop_rep _ f q [] ids [] l); auto; lia.
Qed.

Lemma flush_loop_rep fuel f q i1 i2 l1 l2 released :
  rep q (i1 ++ i2) (l1 ++ l2) → length i1 = length l1 → m_active q = true →
  (length i2 < fuel)%nat →
  ∃ q' ids', flush_loop fuel f (hd_or (m_head q) i2) q released =
               Some (released ++ base.filter f l2, q') ∧
    rep q' ids' (l1 ++ base.filter (λ d, ¬ f d) l2) ∧ m_active q' = true.
Proof.
  revert q i1 i2 l1 l2 released.
  induction fuel as [|fuel IH]; intros q i1 i2 l1 l2 rel Hr Hl Ha Hf; [lia|].
  pose proof (rep_length _ _ _ Hr) as Hlen. rewrite !length_app in Hlen.
  destruct i2 as [|p i2], l2 as [|d l2]; simpl in *; try lia.
  - rewrite decide_True by done. rewrite app_nil_r. eauto.
  - rewrite decide_False by (eapply rep_ne_head; [done|set_solver]).
    destruct (rep_neighbours _ _ _ _ _ Hr) as (_ & -> & _).
    rewrite (rep_data_at _ _ _ _ _ _ _ Hr Hl). simpl.
    rewrite !filter_cons. destruct (f d) eqn:Hfd; simpl.
    + destruct (take_node_rep _ _ _ _ _ _ _ Hr Hl) as (q' & -> & Hr' & Ha' & Hh' & _).
      simpl. rewrite <- Hh'.
      destruct (IH q' i1 i2 l1 l2 (rel ++ [d])) as (q'' & ids' & -> & ? & ?);
        [done|done|congruence|lia|].
      exists q'', ids'. by rewrite <- app_assoc.
    + destruct (IH q (i1 ++ [p]) i2 (l1 ++ [d]) l2 rel) as (q' & ids' & Hq & Hr' & Ha').
      * by rewrite <- !app_assoc.
      * rewrite !length_app. simpl. lia.
      * done.
      * lia.
      * exists q', ids'. rewrite Hq. rewrite <- app_assoc in Hr'. done.
Qed.

Lemma flushNodes_rep f q ids l :
  rep q ids l → m_active q = true →
  ∃ q' ids', flushNodes (Some f) q = Some (base.filter f l, q') ∧
    rep q' ids' (base.filter (λ d, ¬ f d) l) ∧ m_active q' = true.
Proof.
  intros Hr Ha. unfold flushNodes. rewrite Ha.
  destruct (rep_head _ _ _ Hr) as [-> _]. rewrite (rep_store_size _ _ _ Hr).
  apply (flush_loop_rep _ f q [] ids [] l []); auto; lia.
Qed.

Lemma flush_rep q ids l :
  rep q ids l → m_active q = true →
  ∃ q', flush q = Some (l, q') ∧ rep q' [] [] ∧ m_active q' = false.
Proof.
  intros Hr Ha. unfold flush. rewrite Ha.
  destruct (rep_head _ _ _ Hr) as [-> _]. rewrite (rep_store_size _ _ _ Hr). simpl.
  destruct (flush_loop_rep (S (S (length ids))) (λ _, true) q [] ids [] l [])
    as (q' & ids' & Hfl & Hr' & _); [done..|lia|].
  simpl in Hfl, Hr'. simpl. rewrite Hfl. simpl.
  rewrite filter_none in Hr' by (intros ? Hn; by apply Hn).
  assert (ids' = []) as -> by by eapply rep_nil. rewrite filter_all by done.
  eexists; split; [reflexivity|]. split; [|done].
  destruct Hr'. by split.
Qed.

Lemma peek_rep q ids l :
  rep q ids l → m_active q = true → peek q = Some (head l).
Proof.
  intros Hr Ha. unfold peek. rewrite Ha. destruct (rep_head _ _ _ Hr) as [-> _]. simpl.
  pose proof (rep_length _ _ _ Hr) as Hl.
  destruct ids as [|p ids], l as [|d l]; try done; simpl.
  - by rewrite decide_True.
  - rewrite decide_False by (eapply rep_ne_head; [done|set_solver]).
    by rewrite (rep_data_at q [] p ids [] d l Hr).
Qed.

Lemma isEmpty_rep q ids l : rep q ids l → isEmpty q = bool_decide (l = []).
Proof.
  intros Hr. unfold isEmpty. rewrite (rep_size _ _ _ Hr). by destruct l.
Qed.

(** ** The queued data *)
Fixpoint walk (fuel : nat) (h : store) (head pos : Z) : list D :=
  match fuel with
  | O => []
  | S fuel =>
      if decide (pos = head) then []
      else match h !! pos with
           | None => []
           | Some n => option_list (n_data n) ++ walk fuel h head (n_next n)
           end
  end.

Definition contents (q : queue) : list D :=
  match nxt (m_store q) (m_head q) with
  | Some pos => walk (S (size (m_store q))) (m_store q) (m_head q) pos
  | None => []
  end.

Lemma walk_rep fuel q i1 i2 l1 l2 :
  rep q (i1 ++ i2) (l1 ++ l2) → length i1 = length l1 → (length i2 < fuel)%nat →
  walk fuel (m_store q) (m_head q) (hd_or (m_head q) i2) = l2.
Proof.
  revert i1 i2 l1 l2. induction fuel as [|fuel IH]; intros i1 i2 l1 l2 Hr Hl Hf; [lia|].
  pose proof (rep_length _ _ _ Hr) as Hlen. rewrite !length_app in Hlen.
  destruct i2 as [|p i2], l2 as [|d l2]; simpl in *; try lia.
  - by rewrite decide_True.
  - rewrite decide_False by (eapply rep_ne_head; [done|set_solver]).
    destruct (rep_neighbours _ _ _ _ _ Hr) as (_ & Hn & _).
    pose proof (rep_data_at _ _ _ _ _ _ _ Hr Hl) as Hd.
    unfold nxt, dat in Hn, Hd. destruct (m_store q !! p) as [n|]; [|done].
    simpl in *. simplify_eq. rewrite Hd, Hn. simpl. f_equal.
    apply (IH (i1 ++ [p]) i2 (l1 ++ [d]) l2).
    + by rewrite <- !app_assoc.
    + rewrite !length_app. simpl. lia.
    + lia.
Qed.

Lemma contents_rep q ids l : rep q ids l → contents q = l.
Proof.
  intros Hr. unfold contents. destruct (rep_head _ _ _ Hr) as [-> _].
  rewrite (rep_store_size _ _ _ Hr). apply (walk_rep _ q [] ids [] l); auto; lia.
Qed.

(** ** The implementation of the interface *)
#[export] Instance queue_fifo : FifoQueue queue D := {
  fq_ok q := ∃ ids l, rep q ids l;
  fq_list := contents;
  fq_active := m_active;
  fq_fresh a q := a ∉ dom (m_store q);
  fq_enqueue := enqueue;
  fq_dequeue := dequeue true
}.

#[export] Instance queue_fifo_laws : FifoLaws queue D.
Proof.
  split; simpl.
  - done.
  - intros q d a _ Ha Hf. unfold enqueue. rewrite Ha. simpl.
    rewrite delete_insert_id by (by apply not_elem_of_dom). by destruct q; simplify_eq/=.
  - intros q d a (ids & l & Hr) Ha Hf.
    destruct (enqueue_rep _ _ _ _ d Hr Ha Hf) as (q' & Hq & Hr' & Ha').
    exists q'. simpl. rewrite (contents_rep _ _ _ Hr), (contents_rep _ _ _ Hr'). eauto 10.
  - intros q _ Ha. unfold dequeue. by rewrite Ha.
  - intros q (ids & l & Hr) Ha Hl. rewrite (contents_rep _ _ _ Hr) in Hl. subst.
    by eapply dequeue_empty.
  - intros q d l (ids & l' & Hr) Ha Hl. rewrite (contents_rep _ _ _ Hr) in Hl. subst.
    destruct (dequeue_head_rep _ _ _ _ Hr Ha) as (q' & ids' & Hq & Hr' & Ha').
    exists q'. simpl. rewrite (contents_rep _ _ _ Hr'). eauto 10.
Qed.

(** ** Any sequence of operations refines the list *)
Inductive q_op :=
  | OpEnqueue (a : option Z) (d : D)
  | OpEnqueueWithPriority (a : option Z) (d : D)
  | OpPeek
  | OpIsEmpty
  | OpDequeue (bFromHead : bool)
  | OpDequeueMatch (matches : option (D → bool))
  | OpFlushNodes (matches : option (D → bool))
  | OpFlush
  | OpInit.

Inductive q_out :=
  | OutBool (b : bool)
  | OutData (d : option D)
  | OutReleased (l : list D)
  | OutNone.

Definition q_step (o : q_op) (q : queue) : option (q_out * queue) :=
  match o with
  | OpEnqueue a d => '(b, q') ← enqueue a d q; Some (OutBool b, q')
  | OpEnqueueWithPriority a d => '(b, q') ← enqueueWithPriority a d q; Some (OutBool b, q')
  | OpPeek => d ← peek q; Some (OutData d, q)
  | OpIsEmpty => Some (OutBool (isEmpty q), q)
  | OpDequeue b => '(d, q') ← dequeue b q; Some (OutData d, q')
  | OpDequeueMatch f => '(d, q') ← dequeue_match f q; Some (OutData d, q')
  | OpFlushNodes f => '(l, q') ← flushNodes f q; Some (OutReleased l, q')
  | OpFlush => '(l, q') ← flush q; Some (OutReleased l, q')
  | OpInit => Some (OutNone, init q)
  end.

(** The specification: a list and the active flag. *)
Definition l_step (o : q_op) (s : list D * bool) : q_out * (list D * bool) :=
  let '(l, active) := s in
  match o with
  | OpEnqueue (Some _) d => if active then (OutBool true, (l ++ [d], true)) else (OutBool false, s)
  | OpEnqueueWithPriority (Some _) d =>
      if active then (OutBool true, (d :: l, true)) else (OutBool false, s)
  | OpEnqueue None _ | OpEnqueueWithPriority None _ => (OutBool false, s)
  | OpPeek => (OutData (if active then head l else None), s)
  | OpIsEmpty => (OutBool (bool_decide (l = [])), s)
  | OpDequeue b =>
      if active then
        if b then (OutData (head l), (tail l, true))
        else (OutData (last l), (take (length l - 1) l, true))
      else (OutData None, s)
  | OpDequeueMatch (Some f) =>
      if active then (OutData (fst (remove_first f l)), (snd (remove_first f l), true))
      else (OutData None, s)
  | OpDequeueMatch None => (OutData None, s)
  | OpFlushNodes (Some f) =>
      if active then (OutReleased (base.filter f l), (base.filter (λ d, ¬ f d) l, true))
      else (OutReleased [], s)
  | OpFlushNodes None => (OutReleased [], s)
  | OpFlush => if active then (OutReleased l, ([], false)) else (OutReleased [], s)
  | OpInit => (OutNone, (l, true))
  end.

(** The allocator returns an address that is not in use. *)
Definition op_fresh (o : q_op) (q : queue) : Prop :=
  match o with
  | OpEnqueue (Some a) _ | OpEnqueueWithPriority (Some a) _ => a ∉ dom (m_store q)
  | _ => True
  end.

(** The queue represents the state of the specification. *)
Definition refines (q : queue) (s : list D * bool) : Prop :=
  m_active q = snd s ∧ ∃ ids, rep q ids (fst s).

Lemma tail_cases (l : list D) :
  l = [] ∨ ∃ l' d, l = l' ++ [d] ∧ last l = Some d ∧ take (length l - 1) l = l'.
Proof.
  destruct l as [|d l' _] using rev_ind; [by left|]. right. exists l', d.
  rewrite last_snoc, length_app. simpl. split_and!; [done..|].
  replace (length l' + 1 - 1)%nat with (length l') by lia. by rewrite take_app_length.
Qed.

Lemma rep_inactive q ids l a d :
  rep q ids l → m_active q = false → a ∉ dom (m_store q) →
  Queue (m_head q) (delete a (<[a := Node 0 0 (Some d)]> (m_store q))) (m_size q) false = q.
Proof.
  intros _ Ha Hf. rewrite delete_insert_id by (by apply not_elem_of_dom).
  destruct q; simpl in *; by subst.
Qed.

#[local] Arguments enqueue : simpl never.
#[local] Arguments enqueueWithPriority : simpl never.
#[local] Arguments dequeue_match : simpl never.
#[local] Arguments flushNodes : simpl never.

Lemma q_step_refines o q s :
  refines q s → op_fresh o q →
  ∃ q', q_step o q = Some (fst (l_step o s), q') ∧ refines q' (snd (l_step o s)).
Proof.
  destruct s as [l active]. intros [Ha [ids Hr]] Hf. simpl in *. subst active.
  unfold refines. destruct (m_active q) eqn:Ha.
  - destruct o as [[a|] d|[a|] d| | |[]|[f|]|[f|]| |]; simpl in *.
    + destruct (enqueue_rep _ _ _ _ d Hr Ha Hf) as (q' & -> & ? & ?). simpl. eauto.
    + eauto.
    + destruct (enqueueWithPriority_rep _ _ _ _ d Hr Ha Hf) as (q' & -> & ? & ?). simpl. eauto.
    + eauto.
    + rewrite (peek_rep _ _ _ Hr Ha). simpl. eauto.
    + rewrite (isEmpty_rep _ _ _ Hr). eauto.
    + destruct l as [|d l].
      * rewrite (dequeue_empty _ _ _ Hr). simpl. eauto.
      * destruct (dequeue_head_rep _ _ _ _ Hr Ha) as (q' & ids' & -> & ? & ?). simpl. eauto.
    + destruct (tail_cases l) as [->|(l' & d & -> & -> & ->)].
      * rewrite (dequeue_empty _ _ _ Hr). simpl. eauto.
      * destruct (dequeue_tail_rep _ _ _ _ Hr Ha) as (q' & ids' & -> & ? & ?). simpl. eauto.
    + destruct (dequeue_match_rep f _ _ _ Hr Ha) as (q' & ids' & -> & ? & ?). simpl. eauto.
    + eauto.
    + destruct (flushNodes_rep f _ _ _ Hr Ha) as (q' & ids' & -> & ? & ?). simpl. eauto.
    + eauto.
    + destruct (flush_rep _ _ _ Hr Ha) as (q' & -> & ? & ?). simpl. eauto.
    + eexists; split; [done|]. split; [done|]. exists ids. by destruct Hr.
  - destruct o as [[a|] d|[a|] d| | |[]|[f|]|[f|]| |]; simpl in *;
      unfold enqueue, enqueueWithPriority, peek, dequeue, dequeue_match, flushNodes, flush;
      rewrite ?Ha; simpl; eauto.
    + rewrite (rep_inactive _ _ _ _ _ Hr) by done. eauto.
    + rewrite (rep_inactive _ _ _ _ _ Hr) by done. eauto.
    + rewrite (isEmpty_rep _ _ _ Hr). eauto.
    + eexists; split; [done|]. split; [done|]. exists ids. by destruct Hr.
Qed.

(** Running a sequence: the outputs, and where each allocation was fresh. *)
Fixpoint q_run (os : list q_op) (q : queue) : option (list q_out * queue) :=
  match os with
  | [] => Some ([], q)
  | o :: os =>
      '(x, q1) ← q_step o q; '(xs, q2) ← q_run os q1; Some (x :: xs, q2)
  end.

Fixpoint l_run (os : list q_op) (s : list D * bool) : list q_out * (list D * bool) :=
  match os with
  | [] => ([], s)
  | o :: os =>
      let '(x, s1) := l_step o s in let '(xs, s2) := l_run os s1 in (x :: xs, s2)
  end.

Fixpoint allocs_fresh (os : list q_op) (q : queue) : Prop :=
  match os with
  | [] => True
  | o :: os =>
      op_fresh o q ∧ match q_step o q with Some (_, q') => allocs_fresh os q' | None => True end
  end.

Lemma q_run_refines os q s :
  refines q s → allocs_fresh os q →
  ∃ q', q_run os q = Some (fst (l_run os s), q') ∧ refines q' (snd (l_run os s)).
Proof.
  revert q s. induction os as [|o os IH]; intros q s Hr Hf; simpl in *; [eauto|].
  destruct Hf as [Hf Hfs].
  destruct (q_step_refines o q s Hr Hf) as (q1 & Hq & Hr1). rewrite Hq in *. simpl.
  destruct (l_step o s) as [x s1]. simpl in *.
  destruct (IH q1 s1 Hr1 Hfs) as (q2 & -> & Hr2). simpl.
  destruct (l_run os s1). simpl in *. eauto.
Qed.

End Queue.

(** ** Theorems *)

(** C3: Any sequence of queue operations on a new QCameraQueue behaves as the
    same sequence on a list with an active flag: no operation follows a
    dangling pointer or loops, every result and every released datum is the
    one of the list, m_size is the length and no node is leaked, whatever
    fresh addresses malloc returns and whenever it fails. *)
Theorem queue_refines_list {D} (head : Z) (os : list (@q_op D)) :
  allocs_fresh os (new_queue head) →
  ∃ q' ids, q_run os (new_queue head) = Some (fst (l_run os ([], true)), q') ∧
    rep q' ids (fst (snd (l_run os ([], true)))) ∧
    m_active q' = snd (snd (l_run os ([], true))).
Proof.
  intros Hf. destruct (q_run_refines os (new_queue head) ([], true)) as (q' & Hq & Ha & ids & Hr).
  - split; [done|]. exists []. apply new_queue_rep.
  - done.
  - eauto.
Qed.

Definition demo_ops : list (@q_op Z) :=
  [OpEnqueue (Some 8%Z) 1%Z; OpEnqueue (Some 16%Z) 2%Z; OpEnqueueWithPriority (Some 24%Z) 3%Z;
   OpEnqueue None 9%Z; OpPeek; OpDequeueMatch (Some (λ d, d =? 1)%Z); OpDequeue false;
   OpEnqueue (Some 8%Z) 4%Z; OpFlush; OpDequeue true].

Lemma queue_refines_list_witness :
  ∃ q' ids, q_run demo_ops (new_queue 0) =
      Some ([OutBool true; OutBool true; OutBool true; OutBool false; OutData (Some 3%Z);
             OutData (Some 1%Z); OutData (Some 2%Z); OutBool true; OutReleased [3%Z; 4%Z];
             OutData None], q') ∧
    rep q' ids [] ∧ m_active q' = false.
Proof.
  apply (queue_refines_list 0 demo_ops). vm_compute.
  repeat split; intros Hx; inversion Hx.
Defined.
