(* ===== verification/CamMachine.v ===== *)
(** * Camera HAL state machine: dispatch, command queues and thread

    Models [stateMachine], [procAPI], [procEvt], [releaseThread], the
    constructor and the thread routine [smEvtProcRoutine] of
    [QCameraStateMachine.cpp].  The two command queues are used through
    [FifoQueue]. *)
From S2P Require Import Prelude FifoSpec CamTypes CamCommon CamContract.
From S2P Require Import CamPreviewStopped CamPreviewReady CamPreviewing CamPrepareSnapshot.
From S2P Require Import CamPicTaking CamRecording CamVideoPicTaking CamPreviewPicTaking.

(** ** Dispatch *)
Section Dispatch.
  Context `{Platform}.

Definition stateMachine (evt : sm_evt) (pl : payload) : sm Z :=
  st ← gets m_state;
  match st with
  | ST_PREVIEW_STOPPED => procEvtPreviewStoppedState evt pl
  | ST_PREVIEW_READY => procEvtPreviewReadyState evt pl
  | ST_PREVIEWING => procEvtPreviewingState evt pl
  | ST_PREPARE_SNAPSHOT => procEvtPrepareSnapshotState evt pl
  | ST_PIC_TAKING => procEvtPicTakingState evt pl
  | ST_RECORDING => procEvtRecordingState evt pl
  | ST_VIDEO_PIC_TAKING => procEvtVideoPicTakingState evt pl
  | ST_PREVIEW_PIC_TAKING => procEvtPreviewPicTakingState evt pl
  end.

(** The variables the constructor sets.  It leaves [m_bPreviewNeedsRestart]
    and [m_bPreviewDelayedRestart] as it finds them. *)
Definition initial_vars (needsRestart delayedRestart : bool) : sm_vars :=
  SmVars ST_PREVIEW_STOPPED false needsRestart delayedRestart 0 true true false.

Lemma stateMachine_wp evt pl v :
  payload_ok evt pl → wp (stateMachine evt pl) (contract evt v) v [].
Proof.
  intros Hpl. cbn. destruct (m_state v) eqn:Hst;
    eauto using previewStopped_contract, previewReady_contract,
      previewing_contract, prepareSnapshot_contract, picTaking_contract,
      recording_contract, videoPicTaking_contract, previewPicTaking_contract.
Qed.

(** The contract of a run against a concrete hardware object. *)
Lemma stateMachine_run {W} (env : callee hwi_call W) evt pl v w :
  payload_ok evt pl →
  ∃ rc v' w' tr, run env (stateMachine evt pl) v w [] = Some (rc, v', w', tr) ∧
    contract evt v rc v' tr.
Proof. intros Hpl. by apply wp_run, stateMachine_wp. Qed.

End Dispatch.

(** ** Commands, queues and the thread *)
Inductive cmd_type := CMD_API | CMD_EVT | CMD_EXIT.

Record sm_cmd := SmCmd { cmd : cmd_type; cmd_evt : sm_evt; cmd_payload : payload }.

(** The object: its variables, the two queues, the count of [cmd_sem], and
    whether the thread has a loop iteration to run. *)
Record machine (Q : Type) := Machine {
  vars : sm_vars;
  api_queue : Q;
  evt_queue : Q;
  cmd_sem : nat;
  running : bool
}.
Arguments Machine {_} _ _ _ _ _.
Arguments vars {_} _.
Arguments api_queue {_} _.
Arguments evt_queue {_} _.
Arguments cmd_sem {_} _.
Arguments running {_} _.

(** One iteration of the thread's loop. *)
Inductive iteration (Q W : Type) :=
  | Blocked                       (** waits on [cmd_sem] *)
  | Stopped                       (** the loop has ended *)
  | Wrong                         (** undefined behaviour *)
  | Step (c : option sm_cmd) (m : machine Q) (w : W) (tr : list (event hwi_call)).
Arguments Blocked {_ _}.
Arguments Stopped {_ _}.
Arguments Wrong {_ _}.
Arguments Step {_ _} _ _ _ _.

Section Thread.
  Context `{Platform} {Q : Type} `{FifoQueue Q sm_cmd}.

(** Posting a command: [node_ok] tells whether [malloc] found memory for the
    command, [a] what it returns for the queue node. *)
Definition post (node_ok : bool) (a : option Z) (c : sm_cmd) (m : machine Q) :
    option (Z * machine Q) :=
  if negb node_ok then Some (NO_MEMORY, m)
  else
    let q := match cmd c with CMD_EVT => evt_queue m | _ => api_queue m end in
    '(done, q') ← fq_enqueue a c q;
    let m' := match cmd c with
              | CMD_EVT => Machine (vars m) (api_queue m) q' (cmd_sem m) (running m)
              | _ => Machine (vars m) q' (evt_queue m) (cmd_sem m) (running m)
              end in
    if (done : bool) then
      Some (NO_ERROR, Machine (vars m') (api_queue m') (evt_queue m')
                        (S (cmd_sem m')) (running m'))
    else Some (UNKNOWN_ERROR, m').

Definition procAPI (node_ok : bool) (a : option Z) (evt : sm_evt) (pl : payload)
    (m : machine Q) : option (Z * machine Q) :=
  post node_ok a (SmCmd CMD_API evt pl) m.

Definition procEvt (node_ok : bool) (a : option Z) (evt : sm_evt) (pl : payload)
    (m : machine Q) : option (Z * machine Q) :=
  post node_ok a (SmCmd CMD_EVT evt pl) m.

(** [releaseThread], up to the [pthread_join] that waits for the loop: the
    command is zeroed memory but for its type. *)
Definition releaseThread (node_ok : bool) (a : option Z) (zero : sm_evt)
    (m : machine Q) : option (machine Q) :=
  if running m then
    snd <$> post node_ok a (SmCmd CMD_EXIT zero (Payload 0%Z ONone)) m
  else Some m.

(** [smEvtProcRoutine], one turn of its outer loop. *)
Definition smEvtProcRoutine {W} (env : callee hwi_call W) (m : machine Q) (w : W) :
    iteration Q W :=
  if negb (running m) then Stopped
  else match cmd_sem m with
  | O => Blocked
  | S n =>
      match fq_dequeue (api_queue m) with
      | None => Wrong
      | Some (api_node, qa) =>
          match (match api_node with
                 | Some c => Some (Some c, evt_queue m)
                 | None => fq_dequeue (evt_queue m)
                 end) with
          | None => Wrong
          | Some (node, qe) =>
              match node with
              | None => Step None (Machine (vars m) qa qe n true) w []
              | Some c =>
                  match cmd c with
                  | CMD_EXIT => Step node (Machine (vars m) qa qe n false) w []
                  | _ =>
                      match run env (stateMachine (cmd_evt c) (cmd_payload c))
                              (vars m) w [] with
                      | None => Wrong
                      | Some (_, v', w', tr) =>
                          Step node (Machine v' qa qe n true) w' tr
                      end
                  end
              end
          end
      end
  end.

End Thread.

(** ** What a sequence of commands may do

    The specification of the thread: the commands are handled one after the
    other, each as its contract says. *)
Section Runs.
  Context `{Platform}.

Inductive runs : list sm_cmd → sm_vars → sm_vars → list (event hwi_call) → Prop :=
  | runs_nil v : runs [] v v []
  | runs_cons c l v rc v1 v2 tr1 tr2 :
      contract (cmd_evt c) v rc v1 tr1 → runs l v1 v2 tr2 →
      runs (c :: l) v v2 (tr1 ++ tr2).

Lemma rec_after_app tr1 tr2 b : rec_after (tr1 ++ tr2) b = rec_after tr2 (rec_after tr1 b).
Proof. apply foldl_app. Qed.

Lemma api_replies_app tr1 tr2 : api_replies (tr1 ++ tr2) = api_replies tr1 ++ api_replies tr2.
Proof. apply omap_app. Qed.

Lemma runs_recording l v v' tr :
  runs l v v' tr → rec_after tr (isRecording v) = isRecording v'.
Proof.
  induction 1 as [|c l v rc v1 v2 tr1 tr2 Hc _ IH]; [done|].
  by rewrite rec_after_app, (contract_recording _ _ _ _ _ Hc).
Qed.

Lemma runs_delayed l v v' tr : runs l v v' tr → delayed_ok v → delayed_ok v'.
Proof.
  induction 1 as [|c l v rc v1 v2 tr1 tr2 Hc _ IH]; [done|].
  intros Hd. apply IH, (contract_delayed _ _ _ _ _ Hc), Hd.
Qed.

Lemma runs_app_inv l1 l2 v v' tr :
  runs (l1 ++ l2) v v' tr →
  ∃ v1 tr1 tr2, tr = tr1 ++ tr2 ∧ runs l1 v v1 tr1 ∧ runs l2 v1 v' tr2.
Proof.
  revert v tr. induction l1 as [|c l1 IH]; intros v tr Hr.
  - exists v, [], tr. auto using runs_nil.
  - inversion Hr as [|? ? ? ? ? ? ? ? Hc Hr']; subst.
    destruct (IH _ _ Hr') as (v2 & tr3 & tr4 & -> & ? & ?).
    exists v2, (tr1 ++ tr3), tr4. rewrite app_assoc. eauto using runs_cons.
Qed.

End Runs.

(** ** The queue discipline *)
#[local] Arguments run : simpl never.
Section Discipline.
  Context `{Platform} {Q : Type} `{FifoLaws Q sm_cmd}.

(** Commands are well typed, and the semaphore counts them. *)
Definition cmd_ok (c : sm_cmd) : Prop :=
  cmd c = CMD_EXIT ∨ payload_ok (cmd_evt c) (cmd_payload c).

Record machine_ok (m : machine Q) : Prop := {
  mo_api : fq_ok (api_queue m);
  mo_evt : fq_ok (evt_queue m);
  mo_api_active : fq_active (api_queue m) = true;
  mo_evt_active : fq_active (evt_queue m) = true;
  mo_api_cmds : Forall cmd_ok (fq_list (api_queue m));
  mo_evt_cmds : Forall cmd_ok (fq_list (evt_queue m));
  mo_sem : cmd_sem m = (length (fq_list (api_queue m)) + length (fq_list (evt_queue m)))%nat
}.

(** The commands in the order the thread takes them. *)
Definition pending (m : machine Q) : list sm_cmd :=
  fq_list (api_queue m) ++ fq_list (evt_queue m).

Lemma post_ok m c a :
  machine_ok m → cmd_ok c →
  fq_fresh a (match cmd c with CMD_EVT => evt_queue m | _ => api_queue m end) →
  ∃ m', post true (Some a) c m = Some (NO_ERROR, m') ∧ machine_ok m' ∧
    vars m' = vars m ∧ running m' = running m ∧
    fq_list (api_queue m') =
      fq_list (api_queue m) ++ (match cmd c with CMD_EVT => [] | _ => [c] end) ∧
    fq_list (evt_queue m') =
      fq_list (evt_queue m) ++ (match cmd c with CMD_EVT => [c] | _ => [] end).
Proof.
  intros [Ha He Haa Hea Hac Hec Hs] Hc Hf. unfold post; simpl.
  destruct (cmd c) eqn:Ec;
    (edestruct fq_enqueue_active as (q' & -> & Hq & Hqa & Hl);
       [| |exact Hf|]; [done..|]); simpl; eexists; (split; [reflexivity|]);
    rewrite ?app_nil_r; repeat split; simpl; auto;
    rewrite ?Hl, ?length_app, ?Forall_app; simpl; auto; lia.
Qed.

(** The thread takes the first pending command, API commands before events,
    and leaves the others in their order. *)
Lemma thread_step {W} (env : callee hwi_call W) m w c l :
  machine_ok m → running m = true → pending m = c :: l →
  ∃ m' w' tr, smEvtProcRoutine env m w = Step (Some c) m' w' tr ∧
    machine_ok m' ∧ pending m' = l ∧
    running m' = (match cmd c with CMD_EXIT => false | _ => true end) ∧
    match cmd c with
    | CMD_EXIT => vars m' = vars m ∧ w' = w ∧ tr = []
    | _ => ∃ rc, run env (stateMachine (cmd_evt c) (cmd_payload c)) (vars m) w [] =
                 Some (rc, vars m', w', tr) ∧
                 contract (cmd_evt c) (vars m) rc (vars m') tr
    end.
Proof.
  intros [Ha He Haa Hea Hac Hec Hs] Hr Hp. unfold smEvtProcRoutine, pending in *.
  rewrite Hr, Hs. simpl.
  assert (∃ qa qe, 
    (match fq_dequeue (api_queue m) with
     | Some (Some c', qa) => Some (Some c', qa, evt_queue m)
     | Some (None, qa) => '(n, qe) ← fq_dequeue (evt_queue m); Some (n, qa, qe)
     | None => None
     end) = Some (Some c, qa, qe) ∧ fq_ok qa ∧ fq_ok qe ∧ fq_active qa = true ∧
     fq_active qe = true ∧ fq_list qa ++ fq_list qe = l ∧ cmd_ok c ∧
     Forall cmd_ok (fq_list qa) ∧ Forall cmd_ok (fq_list qe))
    as (qa & qe & Hdq & Hqa & Hqe & Hqaa & Hqea & Hl & Hc & Hca & Hce).
  { destruct (fq_list (api_queue m)) as [|c' la] eqn:El; simpl in Hp.
    - rewrite (fq_dequeue_nil _ Ha Haa El).
      destruct (fq_dequeue_cons _ _ _ He Hea Hp) as (qe & -> & ? & ? & Hl').
      rewrite Hp in Hec. inversion Hec; subst.
      eexists _, _; split; [reflexivity|]. rewrite El. auto 10.
    - simplify_eq. destruct (fq_dequeue_cons _ _ _ Ha Haa El) as (qa & -> & ? & ? & Hl').
      inversion Hac; subst. eexists _, _; split; [reflexivity|]. auto 10. }
  assert (length (fq_list (api_queue m)) + length (fq_list (evt_queue m)) =
          S (length (fq_list qa) + length (fq_list qe)))%nat as Hn.
  { rewrite <- !length_app, Hp, Hl. done. }
  rewrite Hn. 
  destruct (fq_dequeue (api_queue m)) as [[[c'|] qa']|]; [| |done].
  2: destruct (fq_dequeue (evt_queue m)) as [[n qe']|]; [|done].
  all: simpl in Hdq; simplify_eq; destruct (cmd c) eqn:Ec.
  all: try (destruct (stateMachine_run env (cmd_evt c) (cmd_payload c) (vars m) w)
         as (rc & v' & w' & tr & -> & Hk); [destruct Hc; [congruence|done]|]).
  all: eexists _, _, _; split; [reflexivity|]; simpl; repeat split; eauto.
Qed.

(** [n] turns of the loop, with the calls they made. *)
Fixpoint thread_run {W} (n : nat) (env : callee hwi_call W) (m : machine Q) (w : W) :
    option (machine Q * W * list (event hwi_call)) :=
  match n with
  | O => Some (m, w, [])
  | S n =>
      match smEvtProcRoutine env m w with
      | Step _ m' w' tr =>
          '(m2, w2, tr2) ← thread_run n env m' w'; Some (m2, w2, tr ++ tr2)
      | _ => None
      end
  end.

(** The thread implements [runs]: as many turns as there are commands handle
    them in their order. *)
Lemma thread_run_runs {W} (env : callee hwi_call W) l1 l2 m w :
  machine_ok m → running m = true → pending m = l1 ++ l2 →
  Forall (λ c, cmd c ≠ CMD_EXIT) l1 →
  ∃ m' w' tr, thread_run (length l1) env m w = Some (m', w', tr) ∧
    machine_ok m' ∧ running m' = true ∧ pending m' = l2 ∧
    runs l1 (vars m) (vars m') tr.
Proof.
  revert m w. induction l1 as [|c l1 IH]; intros m w Hok Hr Hp Hx; simpl in *.
  { exists m, w, []. split_and!; auto using runs_nil. }
  apply Forall_cons in Hx as [Hc Hx].
  destruct (thread_step env m w c _ Hok Hr Hp)
    as (m1 & w1 & tr1 & -> & Hok1 & Hp1 & Hr1 & Hk).
  assert (running m1 = true) as Hr1' by (rewrite Hr1; by destruct (cmd c)).
  destruct (IH m1 w1 Hok1 Hr1' Hp1 Hx) as (m2 & w2 & tr2 & -> & ? & ? & ? & ?).
  exists m2, w2, (tr1 ++ tr2). simpl. split_and!; auto.
  destruct (cmd c); [..|done]; destruct Hk as (rc & _ & Hk); by econstructor.
Qed.

End Discipline.
