(* ===== verification/CamHwi.v ===== *)
(** * Camera HAL: results and events between the API threads and the state
    machine

    Models the part of [QCamera2HWI.cpp] that joins the threads: the list of
    API results ([signalAPIResult], [waitAPIResult]), the result of a
    synchronous event ([signalEvtResult], [processSyncEvt]), the entry of
    commands ([processAPI], [processEvt]) and of back-end events
    ([camEvtHandle]).  Every function holds its mutex for the whole of the
    body modelled here, so a call is one atomic step; the blocking waits are
    split at [pthread_cond_wait], one turn of the loop per wake-up. *)
From S2P Require Import Prelude FifoSpec CamTypes CamCommon CamContract CamMachine.

(** ** Results *)

(** [m_apiResultList] and [m_evtResult]; [None] is the zeroed structure, whose
    [request_api] is no event. *)
Record results := Results {
  m_apiResultList : list api_result;
  m_evtResult : option api_result
}.

(** [mem]: whether [malloc] finds memory for the list node. *)
Definition do_signalAPIResult (mem : bool) (r : api_result) (rs : results) : results :=
  if mem then Results (m_apiResultList rs ++ [r]) (m_evtResult rs) else rs.

Definition do_signalEvtResult (r : api_result) (rs : results) : results :=
  Results (m_apiResultList rs) (Some r).

(** The walk of [waitAPIResult] over the list: the first result for
    [api_evt] is unlinked. *)
Fixpoint scan (api_evt : sm_evt) (l : list api_result) :
    option (api_result * list api_result) :=
  match l with
  | [] => None
  | r :: l =>
      if decide (request_api r = api_evt) then Some (r, l)
      else '(r', l') ← scan api_evt l; Some (r', r :: l')
  end.

(** [waitAPIResult] after a wake-up: [None] when it goes on waiting. *)
Definition waitAPIResult_wake (api_evt : sm_evt) (rs : results) :
    option (api_result * results) :=
  '(r, l) ← scan api_evt (m_apiResultList rs);
  Some (r, Results l (m_evtResult rs)).

(** [processSyncEvt]: what it does before its wait, with the lock held, and
    after a wake-up. *)
Definition processSyncEvt_begin (rs : results) : results :=
  Results (m_apiResultList rs) None.

Definition processSyncEvt_wake (evt : sm_evt) (rs : results) : option Z :=
  match m_evtResult rs with
  | Some r => if decide (request_api r = evt) then Some (status r) else None
  | None => None
  end.

(** The hardware object as the state machine sees it: the results are here,
    every other call goes to [env].  [mem w]: the allocator has memory. *)
Definition with_results {W} (mem : W → bool) (env : callee hwi_call W) :
    callee hwi_call (W * results) :=
  Callee (λ X e,
    match e in hwi_call X return hwi_call X → W * results → X * (W * results) with
    | signalAPIResult r => λ _ '(w, rs), ((), (w, do_signalAPIResult (mem w) r rs))
    | signalEvtResult r => λ _ '(w, rs), ((), (w, do_signalEvtResult r rs))
    | _ => λ e' '(w, rs), let '(x, w') := reply env e' w in (x, (w', rs))
    end e).

(** ** Entry of commands *)
Section Entry.
  Context `{Platform} {Q : Type} `{FifoQueue Q sm_cmd}.

Definition processAPI (m_smThreadActive node_ok : bool) (a : option Z)
    (api : sm_evt) (pl : payload) (m : machine Q) : option (Z * machine Q) :=
  if m_smThreadActive then procAPI node_ok a api pl m else Some (DEAD_OBJECT, m).

Definition processEvt (node_ok : bool) (a : option Z) (evt : sm_evt) (pl : payload)
    (m : machine Q) : option (Z * machine Q) :=
  procEvt node_ok a evt pl m.

(** What [camEvtHandle] does besides posting: the pending flags of the
    internal captures and the calls it makes. *)
Inductive cam_action :=
  | TakePictureInternal
  | BroadcastDefCond
  | FreePayload.

Record int_flags := IntFlags {
  m_bIntJpegEvtPending : bool;
  m_bIntRawEvtPending : bool
}.

(** [obj] and [evt]: whether the two pointers are not null; [mem]: the address
    of the copy of the event, if there is memory for it. *)
Definition camEvtHandle (obj evt : bool) (mem : option ptr) (server_event_type : Z)
    (node_ok : bool) (a : option Z) (fl : int_flags) (m : machine Q) :
    option (list cam_action * int_flags * machine Q) :=
  if obj && evt then
    match mem with
    | None => Some ([], fl, m)
    | Some p =>
        if decide (server_event_type = CAM_EVENT_TYPE_INT_TAKE_JPEG) then
          if negb (m_bIntJpegEvtPending fl) then
            Some ([TakePictureInternal; FreePayload],
                  IntFlags true (m_bIntRawEvtPending fl), m)
          else Some ([FreePayload], fl, m)
        else if decide (server_event_type = CAM_EVENT_TYPE_INT_TAKE_RAW) then
          if negb (m_bIntRawEvtPending fl) then
            Some ([TakePictureInternal; FreePayload],
                  IntFlags (m_bIntJpegEvtPending fl) true, m)
          else Some ([FreePayload], fl, m)
        else if decide (server_event_type = CAM_EVENT_TYPE_DAEMON_DIED) then
          Some ([BroadcastDefCond], fl, m)
        else
          '(_, m') ← processEvt node_ok a EVT_NOTIFY
                       (Payload p (OCamEvent server_event_type)) m;
          Some ([], fl, m')
    end
  else Some ([], fl, m).

End Entry.

(** ** Lemmas on the results *)
Lemma scan_Some evt l r l' :
  scan evt l = Some (r, l') →
  ∃ l1 l2, l = l1 ++ r :: l2 ∧ l' = l1 ++ l2 ∧ request_api r = evt ∧
    Forall (λ x, request_api x ≠ evt) l1.
Proof.
  revert l'. induction l as [|x l IH]; intros l' Hs; simpl in Hs; [done|].
  case_decide; simplify_eq.
  - by exists [], l'.
  - destruct (scan evt l) as [[r0 l0]|]; simpl in Hs; [|done]. simplify_eq.
    destruct (IH l0) as (l1 & l2 & -> & -> & ? & ?); [done|].
    exists (x :: l1), l2. auto.
Qed.

Lemma scan_None evt l : scan evt l = None ↔ Forall (λ x, request_api x ≠ evt) l.
Proof.
  induction l as [|x l IH]; simpl; [by split|]. rewrite Forall_cons.
  case_decide; [naive_solver|].
  destruct (scan evt l) as [[r0 l0]|]; simpl; naive_solver.
Qed.

Lemma scan_app evt l1 l2 :
  Forall (λ x, request_api x ≠ evt) l1 →
  scan evt (l1 ++ l2) = '(r, l) ← scan evt l2; Some (r, l1 ++ l).
Proof.
  induction 1 as [|x l1 Hx _ IH]; simpl.
  - by destruct (scan evt l2) as [[??]|].
  - rewrite decide_False, IH by done. by destruct (scan evt l2) as [[??]|].
Qed.

(** ** A run and the results it leaves *)
Lemma evt_replies_app tr1 tr2 : evt_replies (tr1 ++ tr2) = evt_replies tr1 ++ evt_replies tr2.
Proof. apply omap_app. Qed.

Definition results_after (tr : list (event hwi_call)) (rs : results) : results :=
  Results (m_apiResultList rs ++ api_replies tr)
    (match last (evt_replies tr) with Some r => Some r | None => m_evtResult rs end).

Lemma results_after_app tr1 tr2 rs :
  results_after (tr1 ++ tr2) rs = results_after tr2 (results_after tr1 rs).
Proof.
  unfold results_after; simpl. rewrite api_replies_app, evt_replies_app, app_assoc.
  f_equal. rewrite last_app. by destruct (last (evt_replies tr2)).
Qed.

Lemma reply_with_results {W} mem (env : callee hwi_call W) X (e : hwi_call X) w rs :
  mem w = true →
  ∃ x w', reply (with_results mem env) e (w, rs) = (x, (w', results_after [Ev e x] rs)).
Proof.
  intros Hm. unfold results_after, api_replies, evt_replies.
  destruct e; simpl; rewrite ?Hm, ?app_nil_r; destruct rs as [l r'];
    try (unfold do_signalAPIResult, do_signalEvtResult; simpl; eauto; fail);
    match goal with |- context [reply env ?c w] => destruct (reply env c w) as [x w'] end;
    eauto.
Qed.

Lemma run_results {S W A} mem (env : callee hwi_call W) (p : prog hwi_call S A)
    s w rs tr a s' wrs tr' :
  (∀ w, mem w = true) →
  run (with_results mem env) p s (w, rs) tr = Some (a, s', wrs, tr') →
  ∃ w' tr1, tr' = tr ++ tr1 ∧ wrs = (w', results_after tr1 rs).
Proof.
  intros Hm. revert s w rs tr.
  induction p as [a0| |k IH|s0 k IH|X e k IH]; intros s w rs tr Hr; simpl in Hr; eauto.
  - simplify_eq. exists w, []. rewrite app_nil_r. split; [done|].
    unfold results_after; simpl. rewrite app_nil_r. by destruct rs.
  - done.
  - destruct (reply_with_results mem env X e w rs (Hm w)) as (x & w1 & Hx).
    unfold with_results in Hr, Hx. simpl in Hr, Hx. rewrite Hx in Hr.
    destruct (IH _ _ _ _ _ Hr) as (w' & tr1 & -> & ->).
    exists w', (Ev e x :: tr1). rewrite <- app_assoc. split; [done|].
    by rewrite <- results_after_app.
Qed.

(** ** The thread and the results it leaves *)
Section ThreadResults.
  Context `{Platform} {Q : Type} `{FifoLaws Q sm_cmd} {W : Type}.
  Context (mem : W → bool) (env : callee hwi_call W) (Hmem : ∀ w, mem w = true).

Lemma results_after_nil rs : results_after [] rs = rs.
Proof. unfold results_after; simpl. rewrite app_nil_r. by destruct rs. Qed.

Lemma turn_results (m m' : machine Q) w rs c wrs tr :
  smEvtProcRoutine (with_results mem env) m (w, rs) = Step c m' wrs tr →
  ∃ w', wrs = (w', results_after tr rs).
Proof.
  unfold smEvtProcRoutine. intros Hs.
  repeat (case_match; simplify_eq); rewrite ?results_after_nil; eauto.
  all: match goal with Hr : run _ _ _ _ _ = _ |- _ =>
         destruct (run_results _ _ _ _ _ _ _ _ _ _ _ Hmem Hr) as (w' & tr1 & -> & ->) end;
       eauto.
Qed.

Lemma thread_run_results n (m m' : machine Q) w rs wrs tr :
  thread_run n (with_results mem env) m (w, rs) = Some (m', wrs, tr) →
  ∃ w', wrs = (w', results_after tr rs).
Proof.
  revert m w rs wrs tr. induction n as [|n IH]; intros m w rs wrs tr Hr; simpl in Hr.
  - simplify_eq. rewrite results_after_nil. eauto.
  - destruct (smEvtProcRoutine _ m (w, rs)) as [| | |c m1 wrs1 tr1] eqn:Ht; try done.
    destruct (turn_results _ _ _ _ _ _ _ Ht) as (w1 & ->).
    destruct (thread_run n _ m1 _) as [[[m2 wrs2] tr2]|] eqn:Hn; [|done].
    simpl in Hr. simplify_eq. destruct (IH _ _ _ _ _ Hn) as (w2 & ->).
    rewrite results_after_app. eauto.
Qed.

(** A command posted on the API queue, in any state of the queues, is handled
    after the API commands before it. *)
Lemma procAPI_handled (m : machine Q) w rs a evt pl :
  machine_ok m → running m = true → payload_ok evt pl →
  Forall (λ c, cmd c ≠ CMD_EXIT) (fq_list (api_queue m)) →
  fq_fresh a (api_queue m) →
  ∃ m1, procAPI true (Some a) evt pl m = Some (NO_ERROR, m1) ∧
    ∃ m2 w2 tr v rc v2 tr1 tr2,
      thread_run (S (length (fq_list (api_queue m)))) (with_results mem env) m1 (w, rs) =
        Some (m2, (w2, results_after tr rs), tr) ∧
      machine_ok m2 ∧ running m2 = true ∧ pending m2 = fq_list (evt_queue m) ∧
      runs (fq_list (api_queue m)) (vars m) v tr1 ∧
      contract evt v rc v2 tr2 ∧ vars m2 = v2 ∧ tr = tr1 ++ tr2.
Proof.
  intros Hok Hr Hpl Hx Hf. set (c := SmCmd CMD_API evt pl).
  destruct (post_ok m c a Hok) as (m1 & Hp & Hok1 & Hv & Hr1 & Hqa & Hqe);
    [by right|done|]. simpl in *.
  exists m1. split; [done|].
  assert (pending m1 = (fq_list (api_queue m) ++ [c]) ++ fq_list (evt_queue m)) as Hpd.
  { unfold pending. rewrite Hqa, Hqe, app_nil_r. done. }
  destruct (thread_run_runs (with_results mem env) _ _ m1 (w, rs) Hok1
              (eq_trans Hr1 Hr) Hpd) as (m2 & wrs & tr & Ht & Hok2 & Hr2 & Hp2 & Hruns).
  { apply Forall_app. split; [done|]. by constructor. }
  rewrite length_app, Nat.add_comm in Ht. simpl in Ht.
  destruct (thread_run_results (S _) _ _ _ _ _ _ Ht) as (w2 & ->).
  rewrite Hv in Hruns. apply runs_app_inv in Hruns as (v & tr1 & tr2 & -> & Hrun1 & Hrun2).
  inversion Hrun2 as [|? ? ? rc v1 ? tr3 tr4 Hc Hnil]; subst.
  inversion Hnil; subst. rewrite app_nil_r in *. simpl in *.
  exists m2, w2, (tr1 ++ tr3), v, rc, (vars m2), tr1, tr3. split_and!; done.
Qed.

End ThreadResults.
