(* ===== verification/CamApi.v ===== *)
(** * Camera HAL: the device operations

    Models the [camera_device_ops] entry points of [QCamera2HWI.cpp]
    ([set_preview_window] to [prepare_snapshot]): each takes the API lock,
    posts events to the state machine, waits for their results and releases
    the lock.  They are programs over the calls of [dev_call]; theorems on all
    branches hold for every behaviour of the state machine and of the rest of
    the hardware object. *)
From S2P Require Import Prelude CamTypes CamCommon CamContract.

(** ** Calls of the entry points *)
Inductive perf_op := PERF_REL_TIMED | PERF_ACQ | PERF_HINT_OFF.
Inductive hw_member :=
  | m_bPreviewStarted | m_bRecordStarted | mPreviewRestartNeeded | m_bLedAfAecLock
  | mPrepSnapRun.

Inductive dev_call : Type → Type :=
  | lockAPI : dev_call ()
  | unlockAPI : dev_call ()
  | postAPI (evt : sm_evt) (pl : payload) : dev_call Z   (** [processAPI] *)
  | waitAPI (evt : sm_evt) : dev_call api_result         (** [waitAPIResult] *)
  | perf (o : perf_op) : dev_call ()
  | set_member (x : hw_member) (b : bool) : dev_call ()
  | get_mPrepSnapRun : dev_call bool
  | get_mLongshotEnabled : dev_call bool
  | get_mFlashNeeded : dev_call bool
  | isChromaFlashEnabled : dev_call bool
  | isNoDisplayMode : dev_call bool
  | sync_control_on : dev_call bool  (** [CAM_SYNC_RELATED_SENSORS_ON] *)
  | getNeedRestart : dev_call bool
  | getNumOfRetroSnapshots : dev_call Z
  | isLiveSnapshot : dev_call bool
  | dev_isZSLMode : dev_call bool
  | isHDRMode : dev_call bool
  | dev_isLongshotEnabled : dev_call bool
  | setRetroPicture (b : bool) : dev_call ()
  | setPreviewCallbackNeeded (b : bool) : dev_call ()
  | getLogLevel : dev_call ().

Abbreviation dev := (prog dev_call ()).

Section DeviceOps.
  Context `{Platform}.
  Context (sp : ptr). (** the address of the local payload of an operation *)

(** [ret = processAPI(evt, pl); if (ret == NO_ERROR) waitAPIResult(evt,
    &apiResult);]: the status of the first call, and [apiResult] if it was
    filled. *)
Definition request (evt : sm_evt) (pl : payload) : dev (Z * option api_result) :=
  ret ← call (postAPI evt pl);
  if ok ret then r ← call (waitAPI evt); mret (ret, Some r) else mret (ret, None).

Definition status_of (x : Z * option api_result) : Z :=
  match snd x with Some r => status r | None => fst x end.
Definition union_of (x : Z * option api_result) : Z :=
  match snd x with Some r => res_union r | None => fst x end.

Definition null : payload := Payload 0%Z ONone.
Definition at_ptr (p : ptr) : payload := Payload p ONone.

(** [lockAPI(); .. ; unlockAPI();] around one request. *)
Definition locked_request (evt : sm_evt) (pl : payload) : dev (Z * option api_result) :=
  call lockAPI ;; x ← request evt pl; call unlockAPI ;; mret x.

Definition set_preview_window (hw : bool) (window : ptr) : dev Z :=
  if negb hw then mret BAD_VALUE
  else x ← locked_request SET_PREVIEW_WINDOW (at_ptr window); mret (status_of x).

Definition set_CallBacks (hw : bool) (notify_cb data_cb data_cb_timestamp get_memory user : ptr)
    : dev () :=
  if negb hw then mret ()
  else locked_request SET_CALLBACKS
         (Payload sp (OSetCb notify_cb data_cb data_cb_timestamp get_memory user)) ;;
       mret ().

Definition enable_msg_type (hw : bool) (msg_type : Z) : dev () :=
  if negb hw then mret ()
  else locked_request ENABLE_MSG_TYPE (Payload sp (OInt msg_type)) ;; mret ().

Definition disable_msg_type (hw : bool) (msg_type : Z) : dev () :=
  if negb hw then mret ()
  else locked_request DISABLE_MSG_TYPE (Payload sp (OInt msg_type)) ;; mret ().

Definition msg_type_enabled (hw : bool) (msg_type : Z) : dev Z :=
  if negb hw then mret BAD_VALUE
  else x ← locked_request MSG_TYPE_ENABLED (Payload sp (OInt msg_type));
       mret (union_of x).

Definition prepare_preview (hw : bool) : dev Z :=
  if negb hw then mret BAD_VALUE
  else x ← locked_request PREPARE_PREVIEW null; mret (status_of x).

Definition start_preview (hw : bool) : dev Z :=
  if negb hw then mret BAD_VALUE
  else
    call (perf PERF_REL_TIMED) ;;
    call (perf PERF_ACQ) ;;
    call lockAPI ;;
    nodisplay ← call isNoDisplayMode;
    let evt := if (nodisplay : bool) then START_NODISPLAY_PREVIEW else START_PREVIEW in
    x ← request evt null;
    call unlockAPI ;;
    call (set_member m_bPreviewStarted true) ;;
    mret (status_of x).

Definition stop_preview (hw : bool) : dev () :=
  if negb hw then mret ()
  else
    call (perf PERF_HINT_OFF) ;;
    call (perf PERF_ACQ) ;;
    locked_request STOP_PREVIEW null ;;
    mret ().

(** [apiResult] is read after a failed [processAPI] as well. *)
Definition preview_enabled (hw : bool) : dev Z :=
  if negb hw then mret BAD_VALUE
  else
    call lockAPI ;;
    x ← request PREVIEW_ENABLED null;
    match snd x with
    | None => Ub
    | Some r =>
        when (negb (res_union r =? 0)%Z) (call (setPreviewCallbackNeeded true)) ;;
        call unlockAPI ;;
        mret (union_of x)
    end.

Definition store_meta_data_in_buffers (hw : bool) (enable : Z) : dev Z :=
  if negb hw then mret BAD_VALUE
  else x ← locked_request STORE_METADATA_IN_BUFS (Payload sp (OInt enable));
       mret (status_of x).

(** A request of the dual-camera muxer: refused when the sensors are not
    synchronised. *)
Definition muxer_request (evt : sm_evt) : dev Z :=
  sync ← call sync_control_on;
  if (sync : bool) then x ← request evt null; mret (status_of x)
  else mret INVALID_OPERATION.

Definition restart_start_preview (hw : bool) : dev Z :=
  if negb hw then mret BAD_VALUE
  else
    call lockAPI ;;
    ret ← muxer_request RESTART_START_PREVIEW;
    call (set_member mPreviewRestartNeeded false) ;;
    call unlockAPI ;;
    mret ret.

Definition restart_stop_preview (hw : bool) : dev Z :=
  if negb hw then mret BAD_VALUE
  else
    call lockAPI ;;
    ret ← muxer_request RESTART_STOP_PREVIEW;
    call unlockAPI ;;
    mret ret.

Definition pre_start_recording (hw : bool) : dev Z :=
  if negb hw then mret BAD_VALUE
  else x ← locked_request PRE_START_RECORDING null; mret (status_of x).

Definition start_recording (hw : bool) : dev Z :=
  if negb hw then mret BAD_VALUE
  else
    sync ← call sync_control_on;
    ret ← (if negb sync then pre_start_recording hw else mret NO_ERROR);
    if negb sync && negb (ok ret) then mret ret
    else
      x ← locked_request START_RECORDING null;
      call (set_member m_bRecordStarted true) ;;
      mret (status_of x).

Definition stop_recording (hw : bool) : dev () :=
  if negb hw then mret () else locked_request STOP_RECORDING null ;; mret ().

Definition recording_enabled (hw : bool) : dev Z :=
  if negb hw then mret BAD_VALUE
  else x ← locked_request RECORDING_ENABLED null; mret (union_of x).

Definition release_recording_frame (hw : bool) (opaque : ptr) : dev () :=
  if negb hw then mret ()
  else if (opaque =? 0)%Z then mret ()
  else locked_request RELEASE_RECORIDNG_FRAME (at_ptr opaque) ;; mret ().

Definition auto_focus (hw : bool) : dev Z :=
  if negb hw then mret BAD_VALUE
  else x ← locked_request START_AUTO_FOCUS null; mret (status_of x).

Definition cancel_auto_focus (hw : bool) : dev Z :=
  if negb hw then mret BAD_VALUE
  else x ← locked_request STOP_AUTO_FOCUS null; mret (status_of x).

Definition pre_take_picture (hw : bool) : dev Z :=
  if negb hw then mret BAD_VALUE
  else x ← locked_request PRE_TAKE_PICTURE null; mret (status_of x).

Definition prepare_snapshot (hw : bool) : dev Z :=
  if negb hw then mret BAD_VALUE
  else
    longshot ← call dev_isLongshotEnabled;
    prepared ← (if (longshot : bool) then call get_mPrepSnapRun else mret false);
    if (prepared : bool) then mret NO_ERROR
    else
      call lockAPI ;;
      flash ← call get_mFlashNeeded;
      needed ← (if (flash : bool) then mret true else call isChromaFlashEnabled);
      ret ← (if (needed : bool) then
               x ← request PREPARE_SNAPSHOT null;
               call (set_member mPrepSnapRun true) ;;
               mret (status_of x)
             else mret NO_ERROR);
      call unlockAPI ;;
      mret ret.

(** The condition of the retro-active capture, short-circuited. *)
Definition retro_capture : dev bool :=
  n ← call getNumOfRetroSnapshots;
  if negb (0 <? n)%Z then mret false
  else live ← call isLiveSnapshot;
  if (live : bool) then mret false
  else zsl ← call dev_isZSLMode;
  if negb zsl then mret false
  else hdr ← call isHDRMode;
  if (hdr : bool) then mret false
  else longshot ← call dev_isLongshotEnabled;
  mret (negb longshot).

(** [pre_take_picture] unless the muxer does it; [NO_ERROR] to go on. *)
Definition pre_take_picture_single (hw : bool) : dev Z :=
  sync ← call sync_control_on;
  if (sync : bool) then mret NO_ERROR else pre_take_picture hw.

Definition take_picture (hw : bool) : dev Z :=
  if negb hw then mret BAD_VALUE
  else
    longshot ← call get_mLongshotEnabled;
    when (negb longshot) (call (perf PERF_ACQ)) ;;
    retro ← retro_capture;
    if (retro : bool) then
      call (setRetroPicture true) ;;
      call (set_member m_bLedAfAecLock false) ;;
      ret ← pre_take_picture_single hw;
      if negb (ok ret) then mret ret
      else
        locked_request TAKE_PICTURE null ;;
        prepare_snapshot hw
    else
      call (setRetroPicture false) ;;
      prepared ← call get_mPrepSnapRun;
      when (negb prepared) (prepare_snapshot hw ;; mret ()) ;;
      ret ← pre_take_picture_single hw;
      if negb (ok ret) then mret ret
      else
        x ← locked_request TAKE_PICTURE null;
        longshot ← call dev_isLongshotEnabled;
        when (negb longshot) (call (set_member mPrepSnapRun false)) ;;
        mret (status_of x).

Definition cancel_picture (hw : bool) : dev Z :=
  if negb hw then mret BAD_VALUE
  else x ← locked_request CANCEL_PICTURE null; mret (status_of x).

(** One further step of [set_parameters]: only after success. *)
Definition next_step (ret : Z) (guard : dev bool) (evt : sm_evt) : dev Z :=
  if ok ret then
    g ← guard;
    if (g : bool) then x ← request evt null; mret (status_of x) else mret ret
  else mret ret.

Definition set_parameters (hw : bool) (parms : ptr) : dev Z :=
  if negb hw then mret BAD_VALUE
  else
    call lockAPI ;;
    x ← request SET_PARAMS (at_ptr parms);
    let ret := status_of x in
    sync ← call sync_control_on;
    ret ← (if negb sync then
             ret ← next_step ret (call getNeedRestart) SET_PARAMS_STOP;
             ret ← next_step ret (mret true) SET_PARAMS_COMMIT;
             next_step ret (call getNeedRestart) SET_PARAMS_RESTART
           else mret ret);
    call unlockAPI ;;
    mret ret.

Definition stop_after_set_params (hw : bool) : dev Z :=
  if negb hw then mret BAD_VALUE
  else call lockAPI ;; ret ← muxer_request SET_PARAMS_STOP; call unlockAPI ;; mret ret.

Definition commit_params (hw : bool) : dev Z :=
  if negb hw then mret BAD_VALUE
  else call lockAPI ;; ret ← muxer_request SET_PARAMS_COMMIT; call unlockAPI ;; mret ret.

Definition restart_after_set_params (hw : bool) : dev Z :=
  if negb hw then mret BAD_VALUE
  else call lockAPI ;; ret ← muxer_request SET_PARAMS_RESTART; call unlockAPI ;; mret ret.

Definition get_parameters (hw : bool) : dev ptr :=
  if negb hw then mret 0%Z
  else x ← locked_request GET_PARAMS null;
       mret (match snd x with Some r => res_union r | None => 0%Z end).

Definition put_parameters (hw : bool) (parm : ptr) : dev () :=
  if negb hw then mret () else locked_request PUT_PARAMS (at_ptr parm) ;; mret ().

Definition send_command (hw : bool) (cmd arg1 arg2 : Z) : dev Z :=
  if negb hw then mret BAD_VALUE
  else x ← locked_request SEND_COMMAND (Payload sp (OCommand cmd arg1 arg2));
       mret (status_of x).

Definition send_command_restart (hw : bool) (cmd arg1 arg2 : Z) : dev Z :=
  if negb hw then mret BAD_VALUE
  else x ← locked_request SEND_COMMAND_RESTART (Payload sp (OCommand cmd arg1 arg2));
       mret (status_of x).

Definition release_device (hw : bool) : dev () :=
  if negb hw then mret () else locked_request RELEASE null ;; mret ().

Definition dump_device (hw : bool) (fd : Z) : dev Z :=
  call getLogLevel ;;
  if negb hw then mret BAD_VALUE
  else x ← locked_request DUMP (Payload sp (OInt fd)); mret (status_of x).

Definition register_face_image (hw : bool) (img_ptr config : ptr) : dev Z :=
  if negb hw then mret BAD_VALUE
  else x ← locked_request REG_FACE_IMAGE (Payload sp (ORegFace img_ptr config));
       mret (union_of x).

(** ** All of them *)
Inductive dev_op :=
  | D_set_preview_window (window : ptr)
  | D_set_CallBacks (notify_cb data_cb data_cb_timestamp get_memory user : ptr)
  | D_enable_msg_type (m : Z) | D_disable_msg_type (m : Z) | D_msg_type_enabled (m : Z)
  | D_prepare_preview | D_start_preview | D_stop_preview | D_preview_enabled
  | D_store_meta_data_in_buffers (enable : Z)
  | D_restart_start_preview | D_restart_stop_preview
  | D_pre_start_recording | D_start_recording | D_stop_recording | D_recording_enabled
  | D_release_recording_frame (opaque : ptr)
  | D_auto_focus | D_cancel_auto_focus
  | D_pre_take_picture | D_prepare_snapshot | D_take_picture | D_cancel_picture
  | D_set_parameters (parms : ptr)
  | D_stop_after_set_params | D_commit_params | D_restart_after_set_params
  | D_get_parameters | D_put_parameters (parm : ptr)
  | D_send_command (cmd arg1 arg2 : Z) | D_send_command_restart (cmd arg1 arg2 : Z)
  | D_release | D_dump (fd : Z) | D_register_face_image (img_ptr config : ptr).

(** The [camera_device_ops] table; an operation without a result answers 0. *)
Definition device_op (hw : bool) (o : dev_op) : dev Z :=
  match o with
  | D_set_preview_window w => set_preview_window hw w
  | D_set_CallBacks a b c d e => set_CallBacks hw a b c d e ;; mret 0%Z
  | D_enable_msg_type m => enable_msg_type hw m ;; mret 0%Z
  | D_disable_msg_type m => disable_msg_type hw m ;; mret 0%Z
  | D_msg_type_enabled m => msg_type_enabled hw m
  | D_prepare_preview => prepare_preview hw
  | D_start_preview => start_preview hw
  | D_stop_preview => stop_preview hw ;; mret 0%Z
  | D_preview_enabled => preview_enabled hw
  | D_store_meta_data_in_buffers e => store_meta_data_in_buffers hw e
  | D_restart_start_preview => restart_start_preview hw
  | D_restart_stop_preview => restart_stop_preview hw
  | D_pre_start_recording => pre_start_recording hw
  | D_start_recording => start_recording hw
  | D_stop_recording => stop_recording hw ;; mret 0%Z
  | D_recording_enabled => recording_enabled hw
  | D_release_recording_frame p => release_recording_frame hw p ;; mret 0%Z
  | D_auto_focus => auto_focus hw
  | D_cancel_auto_focus => cancel_auto_focus hw
  | D_pre_take_picture => pre_take_picture hw
  | D_prepare_snapshot => prepare_snapshot hw
  | D_take_picture => take_picture hw
  | D_cancel_picture => cancel_picture hw
  | D_set_parameters p => set_parameters hw p
  | D_stop_after_set_params => stop_after_set_params hw
  | D_commit_params => commit_params hw
  | D_restart_after_set_params => restart_after_set_params hw
  | D_get_parameters => get_parameters hw
  | D_put_parameters p => put_parameters hw p ;; mret 0%Z
  | D_send_command c a b => send_command hw c a b
  | D_send_command_restart c a b => send_command_restart hw c a b
  | D_release => release_device hw ;; mret 0%Z
  | D_dump fd => dump_device hw fd
  | D_register_face_image i c => register_face_image hw i c
  end.

End DeviceOps.

(** ** The protocol of an entry point

    [m_lock] is a plain mutex: it is free at the start and at the end, and not
    taken twice.  Events are posted and waited for under the lock, an event
    with its payload type, and every accepted event is waited for, once,
    before anything else is posted or the lock is released. *)
Inductive proto := Free | Held | Waiting (evt : sm_evt).

Section Protocol.
  Context `{Platform}.

(** [payload_ok], as a test. *)
Definition payload_okb (evt : sm_evt) (pl : payload) : bool :=
  match evt, p_obj pl with
  | (ENABLE_MSG_TYPE | DISABLE_MSG_TYPE | MSG_TYPE_ENABLED
     | STORE_METADATA_IN_BUFS | DUMP), o => match o with OInt _ => true | _ => false end
  | SET_CALLBACKS, o => match o with OSetCb _ _ _ _ _ => true | _ => false end
  | (SEND_COMMAND | SEND_COMMAND_RESTART), o =>
      match o with OCommand _ _ _ => true | _ => false end
  | REG_FACE_IMAGE, o => match o with ORegFace _ _ => true | _ => false end
  | EVT_NOTIFY, o => match o with OCamEvent _ => true | _ => false end
  | EVT_INTERNAL, o => match o with OInternal _ _ => true | _ => false end
  | _, _ => true
  end.

Lemma payload_okb_ok evt pl : payload_okb evt pl = true ↔ payload_ok evt pl.
Proof.
  destruct pl as [a o]. unfold payload_ok. simpl.
  destruct evt, o; simpl; (split; [intros; try discriminate; eauto 8|]);
    intros; try reflexivity;
    repeat match goal with Hx : ∃ _, _ |- _ => destruct Hx end; discriminate.
Qed.

(** One call; [None] when it breaks the protocol. *)
Definition proto_step (s : option proto) (e : event dev_call) : option proto :=
  match e with Ev c x =>
    match c in dev_call X return X → option proto with
    | lockAPI => λ _, match s with Some Free => Some Held | _ => None end
    | unlockAPI => λ _, match s with Some Held => Some Free | _ => None end
    | postAPI evt pl => λ rc,
        match s with
        | Some Held =>
            if payload_okb evt pl then
              if ok rc then Some (Waiting evt) else Some Held
            else None
        | _ => None
        end
    | waitAPI evt => λ _,
        match s with
        | Some (Waiting evt') => if decide (evt = evt') then Some Held else None
        | _ => None
        end
    | _ => λ _, s
    end x
  end.

Definition proto_after (tr : list (event dev_call)) : option proto :=
  foldl proto_step (Some Free) tr.

End Protocol.

(** Follows a program call by call. *)
Ltac dev_unfold :=
  cbv [locked_request request muxer_request next_step retro_capture
       pre_take_picture_single status_of union_of null at_ptr when call
       mbind prog_mbind mret prog_mret fmap prog_fmap].

Ltac dev_step :=
  lazymatch goal with
  | |- ∀ _, _ => intro
  | |- wp ?p _ _ _ => prog_case p; dev_unfold
  end; cbn.

Ltac dev_run := dev_unfold; cbn; repeat dev_step.

(** ** Posted events and the answers to the queries *)
Definition posts (tr : list (event dev_call)) : list sm_evt :=
  omap (λ e, match e with Ev c _ =>
    match c with postAPI evt _ => Some evt | _ => None end end) tr.

Definition bool_answers (tr : list (event dev_call)) : list bool :=
  omap (λ e, match e with Ev c x =>
    match c in dev_call X return X → option bool with
    | sync_control_on => Some
    | getNeedRestart => Some
    | _ => λ _, None
    end x end) tr.

(** The events of a [set_parameters] that succeeds. *)
Definition param_script (sync need_stop need_restart : bool) : list sm_evt :=
  SET_PARAMS ::
    if sync then []
    else (if need_stop then [SET_PARAMS_STOP] else []) ++ [SET_PARAMS_COMMIT] ++
         (if need_restart then [SET_PARAMS_RESTART] else []).

Ltac ok_cases :=
  unfold ok in *; clean_eqb.

Ltac script_tac sync stop restart :=
  solve [exists sync, stop, restart; split;
    [by eexists | intros ?; first [by split | congruence]]].

Section DeviceTheorems.
  Context `{Platform} (sp : ptr).

(** C32: Every camera_device operation but preview_enabled takes the API lock
    when it is free and not twice, posts events with their payload type and
    only under the lock, waits exactly once for every accepted event before
    posting another or unlocking, and ends with the lock free, whatever the
    state machine and the hardware answer. *)
Theorem device_op_protocol hw o :
  o ≠ D_preview_enabled →
  wp (device_op sp hw o) (λ _ _ tr, proto_after tr = Some Free) () [].
Proof.
  intros Ho. unfold device_op. destruct o; try done;
    unfold_prog; dev_run; known_bools;
    first [reflexivity | match goal with b : bool |- _ => by destruct b end].
Qed.

(** set_parameters posts SET_PARAMS, and only in single-camera mode and
    only while everything before succeeded SET_PARAMS_STOP (if a restart is
    needed), SET_PARAMS_COMMIT and SET_PARAMS_RESTART (if a restart is
    needed): the posted events are a prefix of that script and all of it on
    success. *)
Theorem set_parameters_sequence parms :
  wp (set_parameters true parms) (λ ret _ tr, ∃ sync need_stop need_restart,
    posts tr `prefix_of` param_script sync need_stop need_restart ∧
    (ret = NO_ERROR →
       posts tr = param_script sync need_stop need_restart ∧
       bool_answers tr = if sync then [true] else [false; need_stop; need_restart])) () [].
Proof.
  unfold set_parameters. dev_run; ok_cases.
  all: first [ script_tac true false false | script_tac false true true
             | script_tac false true false | script_tac false false true
             | script_tac false false false ].
Qed.
End DeviceTheorems.
