(* ===== verification/CamProps.v ===== *)
(** * Camera HAL: theorems on the state machine, its thread and its clients

    The properties of the whole: the contract of a dispatch, the invariants of
    every sequence of commands, what an API caller gets, and where the code
    leaves a caller without an answer. *)
From S2P Require Import Prelude FifoSpec CamQueue CamTypes CamCommon CamContract CamMachine CamHwi CamApi.
From S2P Require Import CamPreviewReady CamPrepareSnapshot CamPreviewing.

#[local] Arguments run : simpl never.

(** ** A concrete platform, hardware object and machine *)
Definition android : Platform := {|
  NO_ERROR := 0; UNKNOWN_ERROR := -2147483648; INVALID_OPERATION := -38;
  BAD_VALUE := -22; NO_MEMORY := -12; DEAD_OBJECT := -32;
  CAMERA_MSG_ERROR := 1; CAMERA_MSG_PREVIEW_FRAME := 16;
  CAMERA_ERROR_SERVER_DIED := 100; CAMERA_CMD_LONGSHOT_ON := 1001;
  CAMERA_CMD_LONGSHOT_OFF := 1002; vanilla_hal := false
|}%Z.

(** Every call answers [z], [false] or nothing. *)
Definition constant_reply (z : Z) (X : Type) (e : hwi_call X) : X.
Proof. destruct e; first [exact z | exact false | exact () | exact (z, false) | exact (z, z)]. Defined.

Definition constant_hwi (z : Z) : callee hwi_call () :=
  Callee (λ X e w, (constant_reply z X e, w)).

(** The same in ZSL mode. *)
Definition zsl_hwi (z : Z) : callee hwi_call () :=
  Callee (λ X e w,
    (match e in hwi_call X return X → X with isZSLMode => λ _, true | _ => λ x, x end
       (constant_reply z X e), w)).

Abbreviation cmd_queue := (@CamQueue.queue sm_cmd).

Definition idle_machine (v : sm_vars) : machine cmd_queue :=
  Machine v (new_queue 0) (new_queue 0) 0 true.

Lemma new_queue_ok head : fq_ok (new_queue (D:=sm_cmd) head).
Proof. exists [], []. apply new_queue_rep. Qed.

Lemma idle_machine_ok v : machine_ok (idle_machine v).
Proof. split; first [apply new_queue_ok | reflexivity | constructor]. Qed.

Definition all_states : list sm_state :=
  [ST_PREVIEW_STOPPED; ST_PREVIEW_READY; ST_PREVIEWING; ST_PREPARE_SNAPSHOT;
   ST_PIC_TAKING; ST_RECORDING; ST_VIDEO_PIC_TAKING; ST_PREVIEW_PIC_TAKING].

(** The events every state answers, with exactly one reply. *)
Definition always_replies (evt : sm_evt) : bool :=
  forallb (λ st, match reply_kind_of st evt with Replies => true | _ => false end)
    all_states.

Lemma always_replies_spec evt st : always_replies evt = true → reply_kind_of st evt = Replies.
Proof. destruct evt; try done; by destruct st. Qed.

(** ** Dispatch *)

(** C1: Every event with its payload type, dispatched in every state of the
    camera state machine against any behaviour of the hardware object, is
    handled to its end without an ill-typed payload read, and the handler
    keeps its contract: the next state is one the transition table allows, the
    API replies are exactly those of the reply table (event, status and result
    type), a SNAPSHOT_DONE is answered once, the delayed messages stay within
    the preview-frame bit, and the machine is in a recording state exactly
    when the hardware records. *)
Theorem stateMachine_meets_contract `{Platform} {W} (env : callee hwi_call W) evt pl v w :
  payload_ok evt pl →
  ∃ rc v' w' tr, run env (stateMachine evt pl) v w [] = Some (rc, v', w', tr) ∧
    contract evt v rc v' tr.
Proof. apply stateMachine_run. Qed.

Lemma stateMachine_meets_contract_witness :
  ∃ rc v' w' tr,
    run (constant_hwi 0) (@stateMachine android SET_PARAMS (Payload 64%Z ONone))
      (initial_vars false false) () [] = Some (rc, v', w', tr) ∧
    @contract android SET_PARAMS (initial_vars false false) rc v' tr.
Proof. by apply (@stateMachine_meets_contract android). Defined.

(** C2: The state machine thread, run for as many turns as there are leading
    commands, handles them one after the other in order, API commands before
    events, each according to the contract, never blocks on its semaphore
    while a command is pending, and leaves the other commands and a consistent
    semaphore count. *)
Theorem thread_refines_runs `{Platform} {Q} `{FifoLaws Q sm_cmd} {W}
    (env : callee hwi_call W) l1 l2 (m : machine Q) w :
  machine_ok m → running m = true → pending m = l1 ++ l2 →
  Forall (λ c, cmd c ≠ CMD_EXIT) l1 →
  ∃ m' w' tr, thread_run (length l1) env m w = Some (m', w', tr) ∧
    machine_ok m' ∧ running m' = true ∧ pending m' = l2 ∧
    runs l1 (vars m) (vars m') tr.
Proof. apply thread_run_runs. Qed.

Definition api (evt : sm_evt) : sm_cmd := SmCmd CMD_API evt (Payload 0%Z ONone).

(** A machine with one API command and one event waiting, the event posted
    first. *)
Definition demo_machine : machine cmd_queue :=
  match @procEvt android _ _ true (Some 8%Z) SNAPSHOT_DONE (Payload 0%Z ONone)
          (idle_machine (initial_vars false false)) with
  | Some (_, m) =>
      match @procAPI android _ _ true (Some 8%Z) START_PREVIEW (Payload 0%Z ONone) m with
      | Some (_, m) => m
      | None => idle_machine (initial_vars false false)
      end
  | None => idle_machine (initial_vars false false)
  end.

Lemma demo_machine_ok : machine_ok demo_machine.
Proof.
  set (c1 := SmCmd CMD_EVT SNAPSHOT_DONE (Payload 0%Z ONone)).
  destruct (@post_ok android _ _ _ (idle_machine (initial_vars false false)) c1 8%Z)
    as (m1 & H1 & Hok1 & _); [apply idle_machine_ok|by right| |].
  { intros Hx. vm_compute in Hx. inversion Hx. }
  destruct (@post_ok android _ _ _ m1 (api START_PREVIEW) 8%Z)
    as (m2 & H2 & Hok2 & _); [done|by right| |].
  { vm_compute in H1. simplify_eq. intros Hx. vm_compute in Hx. inversion Hx. }
  replace demo_machine with m2; [done|].
  unfold demo_machine, procEvt, procAPI. fold c1. rewrite H1.
  change (SmCmd CMD_API START_PREVIEW _) with (api START_PREVIEW). by rewrite H2.
Qed.

Lemma thread_refines_runs_witness :
  ∃ m' w' tr,
    @thread_run android _ _ _ 2 (constant_hwi 0) demo_machine () = Some (m', w', tr) ∧
    machine_ok m' ∧ running m' = true ∧ pending m' = [] ∧
    @runs android [api START_PREVIEW; SmCmd CMD_EVT SNAPSHOT_DONE (Payload 0%Z ONone)]
      (initial_vars false false) (vars m') tr.
Proof.
  apply (@thread_refines_runs android _ _ _ _ (constant_hwi 0)
           [api START_PREVIEW; SmCmd CMD_EVT SNAPSHOT_DONE (Payload 0%Z ONone)] []).
  - apply demo_machine_ok.
  - reflexivity.
  - vm_compute. reflexivity.
  - repeat constructor; discriminate.
Defined.

(** ** Invariants of every run *)

(** The dispatch of a list of commands against a hardware object. *)
Fixpoint dispatch_all `{Platform} {W} (env : callee hwi_call W) (l : list sm_cmd)
    (v : sm_vars) (w : W) : option (sm_vars * list (event hwi_call)) :=
  match l with
  | [] => Some (v, [])
  | c :: l =>
      '(_, v1, w1, tr1) ← run env (stateMachine (cmd_evt c) (cmd_payload c)) v w [];
      '(v2, tr2) ← dispatch_all env l v1 w1;
      Some (v2, tr1 ++ tr2)
  end.

Lemma dispatch_all_runs `{Platform} {W} (env : callee hwi_call W) l v w v' tr :
  Forall (λ c, payload_ok (cmd_evt c) (cmd_payload c)) l →
  dispatch_all env l v w = Some (v', tr) → runs l v v' tr.
Proof.
  intros Hl. revert v w tr. induction Hl as [|c l Hc _ IH]; intros v w tr Hd; simpl in Hd.
  - simplify_eq. constructor.
  - destruct (stateMachine_run env _ _ v w Hc) as (rc & v1 & w1 & tr1 & Hr & Hk).
    rewrite Hr in Hd. simpl in Hd.
    destruct (dispatch_all env l v1 w1) as [[v2 tr2]|] eqn:Hd2; [|done].
    simpl in Hd. simplify_eq. econstructor; eauto.
Qed.

(** After any sequence of commands from the initial state, isRecording
    holds exactly when the last successful startRecording of the hardware was
    not followed by a stopRecording. *)
Theorem recording_state_is_hardware_state `{Platform} l b1 b2 v' tr :
  runs l (initial_vars b1 b2) v' tr → isRecording v' = rec_after tr false.
Proof. intros Hr. by rewrite <- (runs_recording _ _ _ _ Hr). Qed.

Lemma recording_state_is_hardware_state_witness :
  ∃ v' tr,
    @runs android [api START_NODISPLAY_PREVIEW; api START_RECORDING]
      (initial_vars false false) v' tr ∧
    isRecording v' = true ∧ isRecording v' = @rec_after android tr false.
Proof.
  pose (x := @dispatch_all android _ (constant_hwi 0)
               [api START_NODISPLAY_PREVIEW; api START_RECORDING] (initial_vars false false) ()).
  assert (∃ v' tr, x = Some (v', tr) ∧ isRecording v' = true) as (v' & tr & Hx & Hv).
  { eexists _, _. vm_compute. split; reflexivity. }
  exists v', tr.
  assert (@runs android [api START_NODISPLAY_PREVIEW; api START_RECORDING]
            (initial_vars false false) v' tr) as Hr.
  { eapply (@dispatch_all_runs android); [|exact Hx]. by repeat constructor. }
  split; [exact Hr|split; [exact Hv|]].
  exact (@recording_state_is_hardware_state android _ _ _ _ _ Hr).
Defined.

(** After any sequence of commands from the initial state, m_DelayedMsgs
    holds nothing but the preview-frame bit, and is zero unless the machine is
    delaying preview messages. *)
Theorem delayed_messages_bounded `{Platform} l b1 b2 v' tr :
  runs l (initial_vars b1 b2) v' tr →
  (m_DelayedMsgs v' = 0%Z ∨ m_bDelayPreviewMsgs v' = true) ∧
  Z.land (m_DelayedMsgs v') (Z.lnot CAMERA_MSG_PREVIEW_FRAME) = 0%Z.
Proof. intros Hr. apply (runs_delayed _ _ _ _ Hr). split; [by left|apply Z.land_0_l]. Qed.

Definition delaying_cmds : list sm_cmd :=
  [api START_NODISPLAY_PREVIEW; api TAKE_PICTURE; api CANCEL_PICTURE;
   SmCmd CMD_API ENABLE_MSG_TYPE (Payload 64%Z (OInt 17%Z))].

Lemma delayed_messages_bounded_witness :
  ∃ v' tr, @runs android delaying_cmds (initial_vars false false) v' tr ∧
    m_DelayedMsgs v' = 16%Z ∧
    (m_DelayedMsgs v' = 0%Z ∨ m_bDelayPreviewMsgs v' = true) ∧
    Z.land (m_DelayedMsgs v') (Z.lnot 16) = 0%Z.
Proof.
  assert (∃ v' tr, @dispatch_all android _ (zsl_hwi 0) delaying_cmds
                     (initial_vars false false) () = Some (v', tr) ∧
                   m_DelayedMsgs v' = 16%Z) as (v' & tr & Hx & Hv).
  { eexists _, _. vm_compute. split; reflexivity. }
  exists v', tr.
  assert (@runs android delaying_cmds (initial_vars false false) v' tr) as Hr.
  { eapply (@dispatch_all_runs android); [|exact Hx]. repeat constructor. by eexists. }
  split; [exact Hr|split; [exact Hv|]].
  exact (@delayed_messages_bounded android _ _ _ _ _ Hr).
Defined.

(** ** What an API caller gets *)

(** C31: An API event that every state answers, posted while other commands
    are queued, none of which ends the thread: if there is memory for the
    command and its node in the queue it is accepted, and after one thread
    turn per queued API command and one more, the wait of the caller finds a
    result for that event, provided the thread had memory for the results; if
    no older result for it was in the list, the result is one that this run of
    the thread sent. Without that memory the call returns an error at once and
    the thread has nothing to do. *)
Theorem api_call_answered `{Platform} {Q} `{FifoLaws Q sm_cmd} {W}
    mem (env : callee hwi_call W) (m : machine Q) w rs node_ok mem_node evt pl :
  machine_ok m → running m = true → payload_ok evt pl →
  Forall (λ c, cmd c ≠ CMD_EXIT) (fq_list (api_queue m)) →
  (∀ a, mem_node = Some a → fq_fresh a (api_queue m)) →
  always_replies evt = true → (∀ w, mem w = true) →
  match node_ok, mem_node with
  | true, Some a =>
      ∃ m1, procAPI true (Some a) evt pl m = Some (NO_ERROR, m1) ∧
        ∃ m2 w2 rs2 tr r rs3,
          thread_run (S (length (fq_list (api_queue m))))
            (with_results mem env) m1 (w, rs) = Some (m2, (w2, rs2), tr) ∧
          waitAPIResult_wake evt rs2 = Some (r, rs3) ∧ request_api r = evt ∧
          (Forall (λ x, request_api x ≠ evt) (m_apiResultList rs) → r ∈ api_replies tr)
  | _, _ => procAPI node_ok mem_node evt pl m = Some (if node_ok then UNKNOWN_ERROR else NO_MEMORY, m)
  end.
Proof.
  intros Hok Hr Hpl Hx Hf Ha Hmem.
  destruct node_ok; [|done].
  destruct mem_node as [a|]; [specialize (Hf a eq_refl)|unfold procAPI, post; simpl; rewrite fq_enqueue_nomem; by destruct m].
  destruct (procAPI_handled mem env Hmem m w rs a evt pl Hok Hr Hpl Hx Hf)
    as (m1 & Hp & m2 & w2 & tr & v & rc & v2 & tr1 & tr2 & Ht & _ & _ & _ & _ & Hc & _ & ->).
  exists m1. split; [done|].
  pose proof (contract_replies _ _ _ _ _ Hc) as Hrep.
  rewrite always_replies_spec in Hrep by done. destruct Hrep as (r0 & Hr0 & Hr0e & _).
  destruct (scan evt (m_apiResultList (results_after (tr1 ++ tr2) rs))) as [[r l]|] eqn:Hs.
  - destruct (scan_Some _ _ _ _ Hs) as (l1 & l2 & Hl & -> & Hre & Hl1).
    eexists m2, w2, _, (tr1 ++ tr2), r, _. split; [exact Ht|].
    unfold waitAPIResult_wake. rewrite Hs. simpl. split_and!; [done|done|].
    intros Hrs. simpl in Hl.
    assert (r ∈ m_apiResultList rs ++ api_replies (tr1 ++ tr2)) as Hin
      by (rewrite Hl; set_solver).
    apply elem_of_app in Hin as [Hin|Hin]; [|done].
    rewrite Forall_forall in Hrs. by destruct (Hrs r Hin).
  - apply scan_None in Hs. simpl in Hs. rewrite api_replies_app, Hr0 in Hs.
    apply Forall_app in Hs as [_ Hs]. apply Forall_app in Hs as [_ Hs].
    apply Forall_cons in Hs as [Hs _]. done.
Qed.

Lemma api_call_answered_witness :
  ∃ m1, @procAPI android _ _ true (Some 16%Z) STOP_PREVIEW (Payload 0%Z ONone) demo_machine =
          Some (0%Z, m1) ∧
    ∃ m2 w2 rs2 tr r rs3,
      @thread_run android _ _ _ (S (length (fq_list (api_queue demo_machine)))) (with_results (λ _, true) (constant_hwi 0)) m1
        ((), Results [] None) = Some (m2, (w2, rs2), tr) ∧
      waitAPIResult_wake STOP_PREVIEW rs2 = Some (r, rs3) ∧ request_api r = STOP_PREVIEW ∧
      (Forall (λ x, request_api x ≠ STOP_PREVIEW) (m_apiResultList (Results [] None)) →
         r ∈ api_replies tr).
Proof.
  apply (@api_call_answered android _ _ _ _ (λ _, true) (constant_hwi 0) demo_machine () (Results [] None)
           true (Some 16%Z) STOP_PREVIEW (Payload 0%Z ONone)).
  - apply demo_machine_ok.
  - reflexivity.
  - exact I.
  - vm_compute. repeat constructor. discriminate.
  - intros a [= <-] Hx. vm_compute in Hx. inversion Hx.
  - reflexivity.
  - reflexivity.
Defined.

(** waitAPIResult takes the oldest result of the awaited event out of the
    list and leaves the other results in their order. *)
Theorem waitAPIResult_takes_oldest evt rs r rs' :
  waitAPIResult_wake evt rs = Some (r, rs') →
  ∃ l1 l2, m_apiResultList rs = l1 ++ r :: l2 ∧ request_api r = evt ∧
    Forall (λ x, request_api x ≠ evt) l1 ∧
    rs' = Results (l1 ++ l2) (m_evtResult rs).
Proof.
  unfold waitAPIResult_wake. destruct (scan _ _) as [[r0 l0]|] eqn:Hs; [|done].
  simpl. intros Hx. simplify_eq.
  destruct (scan_Some _ _ _ _ Hs) as (l1 & l2 & -> & -> & ? & ?). eauto 10.
Qed.

Definition demo_results : results :=
  Results [ApiResult 0 STOP_PREVIEW RT_DEF 0; ApiResult 1 DUMP RT_DEF 0;
           ApiResult 2 DUMP RT_DEF 0]%Z None.

Lemma waitAPIResult_takes_oldest_witness :
  ∃ l1 l2, m_apiResultList demo_results = l1 ++ ApiResult 1 DUMP RT_DEF 0 :: l2 ∧
    request_api (ApiResult 1 DUMP RT_DEF 0) = DUMP ∧
    Forall (λ x, request_api x ≠ DUMP) l1 ∧
    Results [ApiResult 0 STOP_PREVIEW RT_DEF 0; ApiResult 2 DUMP RT_DEF 0]%Z None =
      Results (l1 ++ l2) None.
Proof. apply (waitAPIResult_takes_oldest DUMP demo_results). reflexivity. Defined.

(** ** Answers that are missing or wrong *)
Lemma scan_unanswered evt rs tr :
  Forall (λ x, request_api x ≠ evt) (m_apiResultList rs) → api_replies tr = [] →
  waitAPIResult_wake evt (results_after tr rs) = None.
Proof.
  intros Hrs Htr. unfold waitAPIResult_wake. simpl. rewrite Htr, app_nil_r.
  by apply scan_None in Hrs as ->.
Qed.

(** A RELEASE_RECORIDNG_FRAME posted in the STOPPED, READY or PREVIEWING
    state is never answered: once it is handled the thread blocks on its empty
    queues and the caller, release_recording_frame, has no result to wake up
    for. *)
Theorem release_recording_frame_unanswered `{Platform} {Q} `{FifoLaws Q sm_cmd} {W}
    (env : callee hwi_call W) (m : machine Q) w rs a frame :
  machine_ok m → running m = true → pending m = [] → fq_fresh a (api_queue m) →
  m_state (vars m) ∈ [ST_PREVIEW_STOPPED; ST_PREVIEW_READY; ST_PREVIEWING] →
  Forall (λ x, request_api x ≠ RELEASE_RECORIDNG_FRAME) (m_apiResultList rs) →
  ∃ m1 m2 w2 rs2 tr,
    procAPI true (Some a) RELEASE_RECORIDNG_FRAME (Payload frame ONone) m =
      Some (NO_ERROR, m1) ∧
    thread_run 1 (with_results (λ _, true) env) m1 (w, rs) = Some (m2, (w2, rs2), tr) ∧
    smEvtProcRoutine (with_results (λ _, true) env) m2 (w2, rs2) = Blocked ∧
    waitAPIResult_wake RELEASE_RECORIDNG_FRAME rs2 = None.
Proof.
  intros Hok Hr Hp Hf Hst Hrs.
  apply app_eq_nil in Hp as [Hpa Hpe].
  destruct (procAPI_handled (λ _, true) env (λ _, eq_refl) m w rs a
              RELEASE_RECORIDNG_FRAME (Payload frame ONone) Hok Hr)
    as (m1 & Hp & m2 & w2 & tr & v & rc & v2 & tr1 & tr2 & Ht & Hok2 & Hr2 & Hp2 & Hruns & Hc & _ & ->);
    [done|by rewrite Hpa|done|].
  rewrite Hpa in Ht, Hruns. inversion Hruns; subst. simpl app in *.
  exists m1, m2, w2, (results_after tr2 rs), tr2.
  split; [done|]. split; [exact Ht|]. split.
  - unfold smEvtProcRoutine. rewrite Hr2, (mo_sem _ Hok2), <- length_app.
    fold (pending m2). by rewrite Hp2, Hpe.
  - apply scan_unanswered; [done|].
    pose proof (contract_replies _ _ _ _ _ Hc) as Hk.
    rewrite !elem_of_cons, elem_of_nil in Hst.
    destruct Hst as [Hst|[Hst|[Hst|[]]]]; by rewrite Hst in Hk.
Qed.

Lemma release_recording_frame_unanswered_witness :
  ∃ m1 m2 w2 rs2 tr,
    @procAPI android _ _ true (Some 8%Z) RELEASE_RECORIDNG_FRAME (Payload 64%Z ONone)
      (idle_machine (initial_vars false false)) = Some (0%Z, m1) ∧
    @thread_run android _ _ _ 1 (with_results (λ _, true) (constant_hwi 0)) m1
      ((), Results [] None) = Some (m2, (w2, rs2), tr) ∧
    @smEvtProcRoutine android _ _ _ (with_results (λ _, true) (constant_hwi 0)) m2 (w2, rs2) =
      Blocked ∧
    waitAPIResult_wake RELEASE_RECORIDNG_FRAME rs2 = None.
Proof.
  apply (@release_recording_frame_unanswered android _ _ _ _ (constant_hwi 0)
           (idle_machine (initial_vars false false)) () (Results [] None) 8%Z 64%Z).
  - apply idle_machine_ok.
  - reflexivity.
  - reflexivity.
  - intros Hx. vm_compute in Hx. inversion Hx.
  - simpl. set_solver.
  - constructor.
Defined.

(** In the PREPARE_SNAPSHOT state no event other than an internal one
    changes any variable of the machine, and every API call, STOP_PREVIEW and
    RELEASE included, is answered with INVALID_OPERATION: only
    IE_PREP_SNAPSHOT_DONE leads out. *)
Theorem prepare_snapshot_locks_out `{Platform} evt pl v :
  payload_ok evt pl → m_state v = ST_PREPARE_SNAPSHOT → evt ≠ EVT_INTERNAL →
  wp (stateMachine evt pl)
     (λ rc v' tr, v' = v ∧
        Forall (λ r, request_api r = evt → status r = INVALID_OPERATION) (api_replies tr)) v [].
Proof.
  intros Hpl Hst He. cbn. rewrite Hst. vars_cases v Hst.
  destruct evt; simpl in Hpl; payload_cases; try done;
    unfold_prog; unfold_prog; sm_run; (split; [reflexivity|]); cbn;
    repeat constructor; simpl; congruence.
Qed.

Lemma prepare_snapshot_locks_out_witness :
  @wp _ _ _ (@stateMachine android STOP_PREVIEW (Payload 0%Z ONone))
    (λ rc v' tr, v' = set_state ST_PREPARE_SNAPSHOT (initial_vars false false) ∧
       Forall (λ r, request_api r = STOP_PREVIEW → status r = (-38)%Z) (api_replies tr))
    (set_state ST_PREPARE_SNAPSHOT (initial_vars false false)) [].
Proof. by apply (@prepare_snapshot_locks_out android). Defined.


(** What [startPreview] answered. *)
Definition start_answers (tr : list (event hwi_call)) : list Z :=
  omap (λ e, match e with Ev c x =>
    match c in hwi_call X return X → option Z with
    | startPreview => Some | _ => λ _, None end x end) tr.

(** Whether the preview streams run after the calls of a trace. *)
Definition preview_step `{Platform} (b : bool) (e : event hwi_call) : bool :=
  match e with Ev c x =>
    match c in hwi_call X return X → bool with
    | startPreview => λ rc, ok rc || b
    | stopPreview => λ _, false
    | _ => λ _, b
    end x
  end.

(** START_PREVIEW in the PREVIEW_READY state replies NO_ERROR on every
    path, also when startPreview failed and the machine went to
    PREVIEW_STOPPED. *)
Theorem ready_start_preview_hides_failure `{Platform} pl v :
  m_state v = ST_PREVIEW_READY →
  wp (stateMachine START_PREVIEW pl)
     (λ rc v' tr,
        rc = NO_ERROR ∧ api_replies tr = [ApiResult NO_ERROR START_PREVIEW RT_DEF 0] ∧
        m_state v' = match start_answers tr with
                     | [] => ST_PREVIEW_READY
                     | rc0 :: _ => if ok rc0 then ST_PREVIEWING else ST_PREVIEW_STOPPED
                     end) v [].
Proof.
  intros Hst. cbn. rewrite Hst. vars_cases v Hst.
  sm_run; split_and!; cbn; known_bools; reflexivity.
Qed.

Lemma ready_start_preview_hides_failure_witness :
  wp (@stateMachine android START_PREVIEW (Payload 0%Z ONone))
     (λ rc v' tr,
        rc = 0%Z ∧ api_replies tr = [ApiResult 0 START_PREVIEW RT_DEF 0] ∧
        m_state v' = match start_answers tr with
                     | [] => ST_PREVIEW_READY
                     | rc0 :: _ => if @ok android rc0 then ST_PREVIEWING else ST_PREVIEW_STOPPED
                     end) (set_state ST_PREVIEW_READY (initial_vars false false)) [].
Proof. by apply (@ready_start_preview_hides_failure android). Defined.

(** Whether the capture took the branch that stops the preview and leaves ZSL
    mode. *)
Definition left_zsl (tr : list (event hwi_call)) : bool :=
  existsb (λ e, match e with Ev c _ =>
    match c with updateZSLModeValue false => true | _ => false end end) tr.

(** When a ZSL capture that stops the preview and leaves ZSL mode fails,
    the machine goes back to PREVIEWING although the preview streams are
    stopped, with m_RestoreZSL and the delaying of preview messages still set.
    *)
Theorem failed_capture_leaves_preview_off `{Platform} pl v :
  m_state v = ST_PREVIEWING →
  wp (stateMachine TAKE_PICTURE pl)
     (λ rc v' tr, rc ≠ NO_ERROR → left_zsl tr = true →
        m_state v' = ST_PREVIEWING ∧ foldl preview_step true tr = false ∧
        m_RestoreZSL v' = true ∧ m_bDelayPreviewMsgs v' = true) v [].
Proof.
  intros Hst. cbn. rewrite Hst. vars_cases v Hst.
  sm_run; first [done | match goal with
    Hn : ?x ≠ NO_ERROR, Ho : ok ?x = true |- _ => destruct (Hn (ok_true _ Ho)) end].
Qed.

Lemma failed_capture_leaves_preview_off_witness :
  wp (@stateMachine android TAKE_PICTURE (Payload 0%Z ONone))
     (λ rc v' tr, rc ≠ 0%Z → left_zsl tr = true →
        m_state v' = ST_PREVIEWING ∧ foldl (@preview_step android) true tr = false ∧
        m_RestoreZSL v' = true ∧ m_bDelayPreviewMsgs v' = true)
     (set_state ST_PREVIEWING (initial_vars false false)) [].
Proof. by apply (@failed_capture_leaves_preview_off android). Defined.

(** ** Events *)
Lemma runs_evt_replies `{Platform} l v v' tr :
  runs l v v' tr →
  Forall (λ r, request_api r = SNAPSHOT_DONE) (evt_replies tr) ∧
  (∃ c, c ∈ l ∧ cmd_evt c = SNAPSHOT_DONE) → ∃ r, last (evt_replies tr) = Some r ∧
    request_api r = SNAPSHOT_DONE.
Proof.
  intros Hr [Hall (c & Hc & He)].
  assert (evt_replies tr ≠ []) as Hne.
  { clear Hall. induction Hr as [|c' l v rc v1 v2 tr1 tr2 Hk _ IH]; [set_solver|].
    rewrite evt_replies_app, (contract_evt _ _ _ _ _ Hk).
    apply elem_of_cons in Hc as [->|Hc].
    - by rewrite decide_True.
    - specialize (IH Hc). by destruct (decide _), (evt_replies tr2). }
  destruct (last (evt_replies tr)) as [r|] eqn:Hl.
  - exists r. split; [done|]. rewrite Forall_forall in Hall.
    by apply Hall, last_Some_elem_of.
  - by apply last_None in Hl.
Qed.

Lemma runs_evt_snapshot `{Platform} l v v' tr :
  runs l v v' tr → Forall (λ r, request_api r = SNAPSHOT_DONE) (evt_replies tr).
Proof.
  induction 1 as [|c l v rc v1 v2 tr1 tr2 Hk _ IH]; [constructor|].
  rewrite evt_replies_app, (contract_evt _ _ _ _ _ Hk). apply Forall_app. split; [|done].
  destruct (decide _); by repeat constructor.
Qed.

(** A SNAPSHOT_DONE sent through processSyncEvt is answered: once the
    thread has handled the commands that were pending and this event, the wait
    of processSyncEvt finds its result, in every state of the machine. *)
Theorem processSyncEvt_returns `{Platform} {Q} `{FifoLaws Q sm_cmd} {W}
    (env : callee hwi_call W) (m : machine Q) w rs a pl :
  machine_ok m → running m = true →
  Forall (λ c, cmd c ≠ CMD_EXIT) (pending m) → fq_fresh a (evt_queue m) →
  ∃ m1, processEvt true (Some a) SNAPSHOT_DONE pl m = Some (NO_ERROR, m1) ∧
    ∃ m2 w2 rs2 tr rc,
      thread_run (S (length (pending m))) (with_results (λ _, true) env) m1
        (w, processSyncEvt_begin rs) = Some (m2, (w2, rs2), tr) ∧
      processSyncEvt_wake SNAPSHOT_DONE rs2 = Some rc.
Proof.
  intros Hok Hr Hx Hf. set (c := SmCmd CMD_EVT SNAPSHOT_DONE pl).
  destruct (post_ok m c a Hok) as (m1 & Hp & Hok1 & Hv & Hr1 & Hqa & Hqe);
    [by right|done|]. simpl in *.
  exists m1. split; [done|].
  assert (pending m1 = (pending m ++ [c]) ++ []) as Hpd.
  { unfold pending. by rewrite Hqa, Hqe, !app_nil_r, app_assoc. }
  destruct (thread_run_runs (with_results (λ _, true) env) _ _ m1
              (w, processSyncEvt_begin rs) Hok1 (eq_trans Hr1 Hr) Hpd)
    as (m2 & wrs & tr & Ht & _ & _ & _ & Hruns).
  { apply Forall_app. split; [done|]. by constructor. }
  rewrite length_app, Nat.add_comm in Ht. simpl in Ht.
  destruct (thread_run_results (λ _, true) env (λ _, eq_refl) (S _) _ _ _ _ _ _ Ht)
    as (w2 & ->).
  destruct (runs_evt_replies _ _ _ _ Hruns) as (r & Hl & Hre).
  { split; [by eapply runs_evt_snapshot|]. exists c. set_solver. }
  eexists m2, w2, _, tr, (status r). split; [exact Ht|].
  unfold processSyncEvt_wake. simpl. by rewrite Hl, decide_True.
Qed.

Lemma processSyncEvt_returns_witness :
  ∃ m1, @processEvt android _ _ true (Some 16%Z) SNAPSHOT_DONE (Payload 0%Z ONone)
          demo_machine = Some (0%Z, m1) ∧
    ∃ m2 w2 rs2 tr rc,
      @thread_run android _ _ _ (S (length (pending demo_machine)))
        (with_results (λ _, true) (constant_hwi 0)) m1
        ((), processSyncEvt_begin (Results [] None)) = Some (m2, (w2, rs2), tr) ∧
      processSyncEvt_wake SNAPSHOT_DONE rs2 = Some rc.
Proof.
  apply (@processSyncEvt_returns android _ _ _ _ (constant_hwi 0)).
  - apply demo_machine_ok.
  - reflexivity.
  - vm_compute. repeat constructor; discriminate.
  - intros Hx. vm_compute in Hx. inversion Hx as [Hy]; inversion Hy.
Defined.

(** camEvtHandle drops CAM_EVENT_TYPE_DAEMON_DIED: it only wakes the
    deferred-work waiters, posts nothing and does not free its copy of the
    event, although every state would report the death of the server to the
    application on that event. *)
Theorem camEvtHandle_drops_daemon_died `{Platform} {Q} `{FifoQueue Q sm_cmd}
    p node_ok a fl (m : machine Q) :
  camEvtHandle true true (Some p) CAM_EVENT_TYPE_DAEMON_DIED node_ok a fl m =
    Some ([BroadcastDefCond], fl, m) ∧
  (∀ v, wp (stateMachine EVT_NOTIFY (Payload p (OCamEvent CAM_EVENT_TYPE_DAEMON_DIED)))
     (λ rc v' tr, ∃ x, In (Ev (sendEvtNotify CAMERA_MSG_ERROR CAMERA_ERROR_SERVER_DIED 0) x) tr)
     v []).
Proof.
  split; [reflexivity|]. intros v. cbn.
  destruct v as [[] ? ? ? ? ? ? ?]; cbn; sm_run; cbn;
    first [solve [eauto 10] | match goal with
      Hx : (?z =? ?z)%Z = false |- _ => by rewrite Z.eqb_refl in Hx end].
Qed.

(** ** [preview_enabled] *)

(** preview_enabled reads apiResult although it was never set when
    processAPI refuses the event. *)
Theorem preview_enabled_reads_unset_result `{Platform} {W} (env : callee dev_call W) w :
  (∀ w, ok (fst (reply env (postAPI PREVIEW_ENABLED null) w)) = false) →
  run env (preview_enabled true) () w [] = None.
Proof.
  intros Hrej. unfold preview_enabled. dev_unfold.
  cbn [negb prog_bind]. unfold run. destruct (reply env lockAPI w) as [u w1].
  cbn [prog_bind]. specialize (Hrej w1). unfold null in Hrej.
  destruct (reply env (postAPI _ _) w1) as [rc w2]. simpl in Hrej. by rewrite Hrej.
Qed.

Definition dead_state_machine : callee dev_call () :=
  Callee (λ X e w, (match e in dev_call X return X with
    | lockAPI => () | unlockAPI => () | postAPI _ _ => (-32)%Z
    | waitAPI evt => ApiResult 0 evt RT_DEF 0 | perf _ => () | set_member _ _ => ()
    | get_mPrepSnapRun => false | get_mLongshotEnabled => false
    | get_mFlashNeeded => false | isChromaFlashEnabled => false
    | isNoDisplayMode => false | sync_control_on => false | getNeedRestart => false
    | getNumOfRetroSnapshots => 0%Z | isLiveSnapshot => false | dev_isZSLMode => false
    | isHDRMode => false | dev_isLongshotEnabled => false | setRetroPicture _ => ()
    | setPreviewCallbackNeeded _ => () | getLogLevel => ()
    end, w)).

Lemma preview_enabled_reads_unset_result_witness :
  run dead_state_machine (@preview_enabled android true) () () [] = None.
Proof. by apply (@preview_enabled_reads_unset_result android). Defined.

Lemma device_op_protocol_witness :
  wp (@device_op android 64%Z true D_take_picture)
     (λ _ _ tr, @proto_after android tr = Some Free) () [].
Proof. by apply (@device_op_protocol android). Defined.
