(* ===== verification/Agps.v ===== *)
(** * AGPS: data-connection state machines of the GNSS HAL

    Models [gps/gnss/Agps.cpp] and the classes of [gps/gnss/Agps.h]: a state
    machine per network interface, its list of subscribers, and the manager
    that routes the ATL requests of the modem and the data-call events of the
    framework.  Subscribers are objects at addresses: the list holds pointers,
    [mCurrentSubscriber] is a pointer that may alias a list element or the
    local variable of [requestATL], and reading through a pointer whose object
    is gone is undefined behaviour ([None]).  The callbacks into the adapter
    and the framework are recorded as outputs. *)
From stdpp Require Import strings.
From S2P Require Import Prelude.

(** ** Data

    The [.._INVALID] members of the enumerations are left out: nothing in the
    code assigns them or passes them. *)
Inductive agps_state :=
  | AGPS_STATE_RELEASED | AGPS_STATE_PENDING | AGPS_STATE_ACQUIRED
  | AGPS_STATE_RELEASING.

Inductive agps_event :=
  | AGPS_EVENT_SUBSCRIBE | AGPS_EVENT_UNSUBSCRIBE | AGPS_EVENT_GRANTED
  | AGPS_EVENT_RELEASED | AGPS_EVENT_DENIED.

Inductive notification_type := FOR_ALL | FOR_INACTIVE | FOR_ACTIVE.

#[export] Instance agps_state_eq_dec : EqDecision agps_state.
Proof. solve_decision. Defined.

Record subscriber := Subscriber {
  mConnHandle : Z;
  mWaitForCloseComplete : bool;
  mIsInactive : bool;
  sub_mApnTypeMask : Z
}.

Definition equals (s t : subscriber) : bool := bool_decide (mConnHandle s = mConnHandle t).
Definition clone (s : subscriber) : subscriber := s.

Definition LOC_AGPS_TYPE_INVALID : Z := -1.
Definition LOC_AGPS_TYPE_SUPL : Z := 1.
Definition LOC_AGPS_TYPE_WWAN_ANY : Z := 3.
Definition LOC_AGPS_TYPE_SUPL_ES : Z := 5.
Definition AGPS_APN_BEARER_INVALID : Z := 0.
Definition LOC_APN_TYPE_MASK_SUPL : Z := 16.
Definition LOC_APN_TYPE_MASK_EMERGENCY : Z := 512.
Definition MAX_APN_LEN : Z := 100.

(** What the adapter and the framework see. *)
Inductive output :=
  | AtlOpenStatus (handle : Z) (isSuccess : bool) (apn : option string) (apnLen bearer type mask : Z)
  | AtlCloseStatus (handle : Z) (isSuccess : bool)
  | DataConn (request : bool) (type mask : Z).

(** A state machine; the objects of the list are owned by it, [local] is the
    local variable of the running [requestATL]. *)
Record agps_sm := AgpsSm {
  mSubscriberList : list (Z * subscriber);
  mCurrentSubscriber : Z;
  mState : agps_state;
  mAgpsType : Z;
  mApnTypeMask : Z;
  mAPN : option string;
  mAPNLen : Z;
  mBearer : Z;
  local : option (Z * subscriber)
}.

(** The constructor; [mApnTypeMask] is left as it is found. *)
Definition new_sm (agpsType garbage : Z) : agps_sm :=
  AgpsSm [] 0 AGPS_STATE_RELEASED agpsType garbage None 0 AGPS_APN_BEARER_INVALID None.

Definition set_list (l : list (Z * subscriber)) (m : agps_sm) : agps_sm :=
  AgpsSm l (mCurrentSubscriber m) (mState m) (mAgpsType m) (mApnTypeMask m)
    (mAPN m) (mAPNLen m) (mBearer m) (local m).
Definition set_current (p : Z) (m : agps_sm) : agps_sm :=
  AgpsSm (mSubscriberList m) p (mState m) (mAgpsType m) (mApnTypeMask m)
    (mAPN m) (mAPNLen m) (mBearer m) (local m).
Definition set_agps_state (s : agps_state) (m : agps_sm) : agps_sm :=
  AgpsSm (mSubscriberList m) (mCurrentSubscriber m) s (mAgpsType m) (mApnTypeMask m)
    (mAPN m) (mAPNLen m) (mBearer m) (local m).
Definition setType (t : Z) (m : agps_sm) : agps_sm :=
  AgpsSm (mSubscriberList m) (mCurrentSubscriber m) (mState m) t (mApnTypeMask m)
    (mAPN m) (mAPNLen m) (mBearer m) (local m).
Definition setApnTypeMask (k : Z) (m : agps_sm) : agps_sm :=
  AgpsSm (mSubscriberList m) (mCurrentSubscriber m) (mState m) (mAgpsType m) k
    (mAPN m) (mAPNLen m) (mBearer m) (local m).
Definition set_apn (a : option string) (n : Z) (m : agps_sm) : agps_sm :=
  AgpsSm (mSubscriberList m) (mCurrentSubscriber m) (mState m) (mAgpsType m)
    (mApnTypeMask m) a n (mBearer m) (local m).
Definition setBearer (b : Z) (m : agps_sm) : agps_sm :=
  AgpsSm (mSubscriberList m) (mCurrentSubscriber m) (mState m) (mAgpsType m)
    (mApnTypeMask m) (mAPN m) (mAPNLen m) b (local m).
Definition set_local (x : option (Z * subscriber)) (m : agps_sm) : agps_sm :=
  AgpsSm (mSubscriberList m) (mCurrentSubscriber m) (mState m) (mAgpsType m)
    (mApnTypeMask m) (mAPN m) (mAPNLen m) (mBearer m) x.

(** ** A monad of state and outputs, with undefined behaviour *)
Definition agps (A : Type) : Type := agps_sm → option (A * agps_sm * list output).

#[export] Instance agps_ret : MRet agps := λ A a m, Some (a, m, []).
#[export] Instance agps_bind : MBind agps := λ A B f p m,
  match p m with
  | None => None
  | Some (a, m1, o1) =>
      match f a m1 with
      | None => None
      | Some (b, m2, o2) => Some (b, m2, o1 ++ o2)
      end
  end.

Definition ub {A} : agps A := λ _, None.
Definition read {A} (f : agps_sm → A) : agps A := λ m, Some (f m, m, []).
Definition update (f : agps_sm → agps_sm) : agps () := λ m, Some ((), f m, []).
Definition emit (o : output) : agps () := λ m, Some ((), m, [o]).

(** The object at an address. *)
Fixpoint at_addr (p : Z) (l : list (Z * subscriber)) : option subscriber :=
  match l with
  | [] => None
  | (a, s) :: l => if decide (a = p) then Some s else at_addr p l
  end.

Definition deref (p : Z) : agps subscriber :=
  λ m, match at_addr p (option_list (local m) ++ mSubscriberList m) with
       | Some s => Some (s, m, [])
       | None => None
       end.

(** [p->mIsInactive = true]. *)
Definition set_inactive (p : Z) : agps () :=
  λ m, match at_addr p (option_list (local m) ++ mSubscriberList m) with
       | None => None
       | Some _ =>
           let mark := λ x : Z * subscriber,
             if decide (fst x = p) then
               (fst x, Subscriber (mConnHandle (snd x)) (mWaitForCloseComplete (snd x))
                         true (sub_mApnTypeMask (snd x)))
             else x in
           Some ((), set_local (mark <$> local m) (set_list (mark <$> mSubscriberList m) m), [])
       end.

(** ** State machine *)
Definition transitionState (newState : agps_state) : agps () := update (set_agps_state newState).

Definition requestOrReleaseDataConn (request : bool) : agps () :=
  ty ← read mAgpsType;
  mask ← read mApnTypeMask;
  emit (DataConn request ty mask).

(** The loop of [deleteSubscriber]: [done] is the list before the iterator.
    The pointer is read again for every element, after deletions too. *)
Fixpoint delete_loop (p : Z) (done rest : list (Z * subscriber)) : agps () :=
  match rest with
  | [] => mret ()
  | x :: rest' =>
      t ← deref p;
      if equals (snd x) t then
        update (set_list (done ++ rest')) ;; delete_loop p done rest'
      else delete_loop p (done ++ [x]) rest'
  end.

Definition deleteSubscriber (p : Z) : agps () :=
  l ← read mSubscriberList; delete_loop p [] l.

Definition notifyEventToSubscriber (event : agps_event) (p : Z)
    (deleteSubscriberPostNotify : bool) : agps () :=
  s ← deref p;
  apn ← read mAPN; apnLen ← read mAPNLen; bearer ← read mBearer;
  ty ← read mAgpsType; mask ← read mApnTypeMask;
  match event with
  | AGPS_EVENT_GRANTED => emit (AtlOpenStatus (mConnHandle s) true apn apnLen bearer ty mask)
  | AGPS_EVENT_DENIED => emit (AtlOpenStatus (mConnHandle s) false apn apnLen bearer ty mask)
  | AGPS_EVENT_UNSUBSCRIBE | AGPS_EVENT_RELEASED => emit (AtlCloseStatus (mConnHandle s) true)
  | AGPS_EVENT_SUBSCRIBE => mret ()
  end ;;
  if deleteSubscriberPostNotify then deleteSubscriber p else mret ().

Definition selected (ty : notification_type) (s : subscriber) : bool :=
  match ty with
  | FOR_ALL => true
  | FOR_INACTIVE => mIsInactive s
  | FOR_ACTIVE => negb (mIsInactive s)
  end.

Fixpoint notify_loop (event : agps_event) (del : bool) (ty : notification_type)
    (done rest : list (Z * subscriber)) : agps () :=
  match rest with
  | [] => mret ()
  | x :: rest' =>
      if selected ty (snd x) then
        notifyEventToSubscriber event (fst x) false ;;
        if del then
          update (set_list (done ++ rest')) ;; notify_loop event del ty done rest'
        else notify_loop event del ty (done ++ [x]) rest'
      else notify_loop event del ty (done ++ [x]) rest'
  end.

Definition notifyAllSubscribers (event : agps_event) (del : bool)
    (ty : notification_type) : agps () :=
  l ← read mSubscriberList; notify_loop event del ty [] l.

(** [a]: the address of the clone. *)
Definition addSubscriber (a p : Z) : agps () :=
  l ← read mSubscriberList;
  t ← deref p;
  if existsb (λ x, equals (snd x) t) l then mret ()
  else update (set_list (l ++ [(a, clone t)])).

Definition anyActiveSubscribers (m : agps_sm) : bool :=
  existsb (λ x, negb (mIsInactive (snd x))) (mSubscriberList m).

Definition processAgpsEventSubscribe (a : Z) : agps () :=
  st ← read mState;
  p ← read mCurrentSubscriber;
  match st with
  | AGPS_STATE_RELEASED =>
      addSubscriber a p ;; requestOrReleaseDataConn true ;; transitionState AGPS_STATE_PENDING
  | AGPS_STATE_PENDING => addSubscriber a p
  | AGPS_STATE_ACQUIRED =>
      notifyEventToSubscriber AGPS_EVENT_GRANTED p false ;; addSubscriber a p
  | AGPS_STATE_RELEASING => addSubscriber a p
  end.

(** The subscriber becomes inactive, or is notified and deleted. *)
Definition drop_current (p : Z) : agps () :=
  s ← deref p;
  if mWaitForCloseComplete s then set_inactive p
  else notifyEventToSubscriber AGPS_EVENT_UNSUBSCRIBE p true.

Definition list_empty (m : agps_sm) : bool :=
  match mSubscriberList m with [] => true | _ => false end.

Definition processAgpsEventUnsubscribe : agps () :=
  st ← read mState;
  p ← read mCurrentSubscriber;
  match st with
  | AGPS_STATE_RELEASED => notifyEventToSubscriber AGPS_EVENT_UNSUBSCRIBE p false
  | AGPS_STATE_PENDING | AGPS_STATE_ACQUIRED =>
      drop_current p ;;
      empty ← read list_empty;
      active ← read anyActiveSubscribers;
      if (empty : bool) then
        transitionState AGPS_STATE_RELEASED ;; requestOrReleaseDataConn false
      else if negb active then
        transitionState AGPS_STATE_RELEASING ;; requestOrReleaseDataConn false
      else mret ()
  | AGPS_STATE_RELEASING =>
      drop_current p ;;
      empty ← read list_empty;
      if (empty : bool) then transitionState AGPS_STATE_RELEASED else mret ()
  end.

Definition processAgpsEventGranted : agps () :=
  st ← read mState;
  match st with
  | AGPS_STATE_PENDING =>
      transitionState AGPS_STATE_ACQUIRED ;;
      notifyAllSubscribers AGPS_EVENT_GRANTED false FOR_ACTIVE
  | _ => mret ()
  end.

(** The end of a release: the inactive subscribers are told, and the active
    ones need a new connection. *)
Definition finish_release : agps () :=
  notifyAllSubscribers AGPS_EVENT_RELEASED true FOR_INACTIVE ;;
  active ← read anyActiveSubscribers;
  if (active : bool) then
    transitionState AGPS_STATE_PENDING ;; requestOrReleaseDataConn true
  else transitionState AGPS_STATE_RELEASED.

Definition processAgpsEventReleased : agps () :=
  st ← read mState;
  match st with
  | AGPS_STATE_RELEASED | AGPS_STATE_PENDING => mret ()
  | AGPS_STATE_ACQUIRED =>
      transitionState AGPS_STATE_RELEASED ;;
      notifyAllSubscribers AGPS_EVENT_RELEASED true FOR_ALL
  | AGPS_STATE_RELEASING => finish_release
  end.

Definition processAgpsEventDenied : agps () :=
  st ← read mState;
  match st with
  | AGPS_STATE_RELEASED | AGPS_STATE_ACQUIRED => mret ()
  | AGPS_STATE_RELEASING => finish_release
  | AGPS_STATE_PENDING =>
      transitionState AGPS_STATE_RELEASED ;;
      notifyAllSubscribers AGPS_EVENT_DENIED true FOR_ALL
  end.

Definition processAgpsEvent (a : Z) (event : agps_event) : agps () :=
  match event with
  | AGPS_EVENT_SUBSCRIBE => processAgpsEventSubscribe a
  | AGPS_EVENT_UNSUBSCRIBE => processAgpsEventUnsubscribe
  | AGPS_EVENT_GRANTED => processAgpsEventGranted
  | AGPS_EVENT_RELEASED => processAgpsEventReleased
  | AGPS_EVENT_DENIED => processAgpsEventDenied
  end.

(** [len] is an [unsigned int]. *)
Definition setAPN (apn : option string) (len : Z) : agps () :=
  match apn with
  | Some s =>
      if (MAX_APN_LEN <? len)%Z || negb (Z.of_nat (String.length s) =? len)%Z
      then update (set_apn None 0)
      else update (set_apn (Some s) len)
  | None => update (set_apn None 0)
  end.

Definition getSubscriber (connHandle : Z) (m : agps_sm) : option Z :=
  fst <$> find (λ x, bool_decide (mConnHandle (snd x) = connHandle)) (mSubscriberList m).

Definition getFirstSubscriber (isInactive : bool) (m : agps_sm) : option Z :=
  fst <$> find (λ x, eqb (mIsInactive (snd x)) isInactive) (mSubscriberList m).

Definition dropAllSubscribers (m : agps_sm) : agps_sm := set_list [] m.

(** ** The manager *)
Record manager := Manager {
  mAgnssNif : option agps_sm;
  mInternetNif : option agps_sm
}.

Definition new_manager : manager := Manager None None.

Inductive nif := AGNSS | INTERNET.

Definition get_nif (n : nif) (M : manager) : option agps_sm :=
  match n with AGNSS => mAgnssNif M | INTERNET => mInternetNif M end.
Definition set_nif (n : nif) (m : agps_sm) (M : manager) : manager :=
  match n with
  | AGNSS => Manager (Some m) (mInternetNif M)
  | INTERNET => Manager (mAgnssNif M) (Some m)
  end.

(** Runs an operation of one state machine. *)
Definition on_nif (n : nif) (p : agps ()) (M : manager) : option (manager * list output) :=
  m ← get_nif n M;
  '(_, m', o) ← p m;
  Some (set_nif n m' M, o).

(** Capabilities and ATL types of the client: [msa_or_msb] is the test on
    [CAPABILITIES], [wwan], [supl], [supl_es] the bits of [atlType]. *)
Definition createAgpsStateMachines (msa_or_msb wwan supl supl_es : bool) (garbage : Z)
    (M : manager) : manager :=
  let M := match mInternetNif M with
           | None => if wwan then Manager (mAgnssNif M) (Some (new_sm LOC_AGPS_TYPE_WWAN_ANY garbage))
                     else M
           | Some _ => M
           end in
  if msa_or_msb then
    match mAgnssNif M with
    | None => if supl && supl_es
              then Manager (Some (new_sm LOC_AGPS_TYPE_SUPL garbage)) (mInternetNif M) else M
    | Some _ => M
    end
  else M.

Definition getAgpsStateMachine (agpsType : Z) : nif :=
  if bool_decide (agpsType = LOC_AGPS_TYPE_INVALID) ||
     bool_decide (agpsType = LOC_AGPS_TYPE_SUPL) ||
     bool_decide (agpsType = LOC_AGPS_TYPE_SUPL_ES) then AGNSS
  else INTERNET.

(** [sp], [a]: the addresses of the local subscriber and of its clone;
    [use_emergency_pdn]: [USE_EMERGENCY_PDN_FOR_EMERGENCY_SUPL] is not 0. *)
Definition requestATL (use_emergency_pdn : bool) (sp a connHandle agpsType apnTypeMask : Z)
    (M : manager) : option (manager * list output) :=
  let '(agpsType, apnTypeMask) :=
    if negb use_emergency_pdn && bool_decide (agpsType = LOC_AGPS_TYPE_SUPL_ES) then
      (LOC_AGPS_TYPE_SUPL,
       Z.lor (Z.land apnTypeMask (Z.lnot LOC_APN_TYPE_MASK_EMERGENCY)) LOC_APN_TYPE_MASK_SUPL)
    else (agpsType, apnTypeMask) in
  let n := getAgpsStateMachine agpsType in
  match get_nif n M with
  | None =>
      Some (M, [AtlOpenStatus connHandle false None 0 AGPS_APN_BEARER_INVALID agpsType apnTypeMask])
  | Some _ =>
      on_nif n
        (update (setType agpsType) ;;
         update (setApnTypeMask apnTypeMask) ;;
         update (set_local (Some (sp, Subscriber connHandle true false apnTypeMask))) ;;
         update (set_current sp) ;;
         processAgpsEvent a AGPS_EVENT_SUBSCRIBE ;;
         update (set_local None)) M
  end.

Definition releaseATL (connHandle : Z) (M : manager) : option (manager * list output) :=
  let find_in n := match get_nif n M with
                   | Some m => getSubscriber connHandle m
                   | None => None
                   end in
  let send n p := on_nif n (update (set_current p) ;; processAgpsEvent 0 AGPS_EVENT_UNSUBSCRIBE) M in
  match find_in AGNSS with
  | Some p => send AGNSS p
  | None =>
      match find_in INTERNET with
      | Some p => send INTERNET p
      | None => Some (M, [])
      end
  end.

(** [apnLen] is an [int] that [setAPN] takes as an [unsigned int]. *)
Definition reportAtlOpenSuccess (agpsType : Z) (apnName : option string) (apnLen bearerType : Z)
    (M : manager) : option (manager * list output) :=
  on_nif (getAgpsStateMachine agpsType)
    (update (setBearer bearerType) ;;
     setAPN apnName (wrap_unsigned 32 apnLen) ;;
     processAgpsEvent 0 AGPS_EVENT_GRANTED) M.

Definition reportAtlOpenFailed (agpsType : Z) (M : manager) : option (manager * list output) :=
  on_nif (getAgpsStateMachine agpsType) (processAgpsEvent 0 AGPS_EVENT_DENIED) M.

Definition reportAtlClosed (agpsType : Z) (M : manager) : option (manager * list output) :=
  on_nif (getAgpsStateMachine agpsType) (processAgpsEvent 0 AGPS_EVENT_RELEASED) M.

Definition handleModemSSR (M : manager) : manager :=
  Manager (dropAllSubscribers <$> mAgnssNif M) (dropAllSubscribers <$> mInternetNif M).

(** ** Well-formed state machines *)
Definition addrs (m : agps_sm) : list Z := fst <$> mSubscriberList m.
Definition handles (m : agps_sm) : list Z := (λ x, mConnHandle (snd x)) <$> mSubscriberList m.

(** The objects are distinct, and every subscriber was made by [requestATL]. *)
Record heap_ok (m : agps_sm) : Prop := {
  ho_addrs : NoDup (addrs m);
  ho_handles : NoDup (handles m);
  ho_wait : Forall (λ x, mWaitForCloseComplete (snd x) = true) (mSubscriberList m);
  ho_local : local m = None
}.

(** The state and the list agree: nobody is left behind in [RELEASED], a
    connection is only asked for or held for an active subscriber, and only
    released while someone waits for it. *)
Definition state_ok (m : agps_sm) : Prop :=
  match mState m with
  | AGPS_STATE_RELEASED => mSubscriberList m = []
  | AGPS_STATE_PENDING | AGPS_STATE_ACQUIRED => anyActiveSubscribers m = true
  | AGPS_STATE_RELEASING => mSubscriberList m ≠ []
  end.

(** What a subscriber is told of an event. *)
Definition notification (event : agps_event) (m : agps_sm) (h : Z) : list output :=
  match event with
  | AGPS_EVENT_GRANTED =>
      [AtlOpenStatus h true (mAPN m) (mAPNLen m) (mBearer m) (mAgpsType m) (mApnTypeMask m)]
  | AGPS_EVENT_DENIED =>
      [AtlOpenStatus h false (mAPN m) (mAPNLen m) (mBearer m) (mAgpsType m) (mApnTypeMask m)]
  | AGPS_EVENT_UNSUBSCRIBE | AGPS_EVENT_RELEASED => [AtlCloseStatus h true]
  | AGPS_EVENT_SUBSCRIBE => []
  end.

Definition notifications (event : agps_event) (m : agps_sm) (l : list (Z * subscriber)) :
    list output :=
  l ≫= λ x, notification event m (mConnHandle (snd x)).

Lemma at_addr_elem p s l : NoDup (fst <$> l) → (p, s) ∈ l → at_addr p l = Some s.
Proof.
  induction l as [|[a t] l IH]; intros Hnd Hin; [by apply elem_of_nil in Hin|].
  simpl. apply NoDup_cons in Hnd as [Ha Hnd].
  apply elem_of_cons in Hin as [Heq|Hin].
  - simplify_eq. by rewrite decide_True.
  - rewrite decide_False; [auto|]. intros ->. apply Ha.
    apply (list_elem_of_fmap_2 fst) in Hin. done.
Qed.

Lemma deref_listed m p s :
  local m = None → NoDup (addrs m) → (p, s) ∈ mSubscriberList m →
  deref p m = Some (s, m, []).
Proof. intros Hl Hnd Hin. unfold deref. rewrite Hl. simpl. by rewrite (at_addr_elem p s). Qed.

Lemma notify_listed event m p s :
  local m = None → NoDup (addrs m) → (p, s) ∈ mSubscriberList m →
  notifyEventToSubscriber event p false m =
    Some ((), m, notification event m (mConnHandle s)).
Proof.
  intros Hl Hnd Hin. unfold notifyEventToSubscriber, mbind, agps_bind.
  rewrite (deref_listed m p s) by done. simpl. by destruct event.
Qed.

Lemma set_list_id l m : mSubscriberList m = l → set_list l m = m.
Proof. destruct m; simpl. by intros ->. Qed.

(** One pass over the list: who is selected is told, in order, and removed when
    [del]. *)
Lemma notify_loop_spec event del ty rest done m :
  local m = None → NoDup (addrs m) → mSubscriberList m = done ++ rest →
  notify_loop event del ty done rest m =
    Some ((), set_list (done ++ if del then base.filter (λ x, ¬ selected ty (snd x)) rest else rest) m,
          notifications event m (base.filter (λ x, selected ty (snd x)) rest)).
Proof.
  revert done m. induction rest as [|[p s] rest IH]; intros done m Hl Hnd Hm.
  { rewrite set_list_id; [done|]. by destruct del. }
  simpl. rewrite !filter_cons. simpl. destruct (selected ty s) eqn:Hsel; simpl.
  - unfold mbind at 1, agps_bind at 1. rewrite (notify_listed event m p s); [|done..|].
    2: { rewrite Hm. set_solver. }
    assert (∀ q, (del = true ∧ q = done ++ rest ∨ del = false ∧ q = done ++ (p, s) :: rest) →
      NoDup (addrs (set_list q m))) as Hq.
    { intros q Hq. unfold addrs in *. rewrite Hm in Hnd. simpl.
      destruct Hq as [[_ ->]|[_ ->]]; [|done].
      rewrite !fmap_app, fmap_cons in *. apply NoDup_app in Hnd as (? & Hd & Hnd).
      apply NoDup_cons in Hnd as [? ?]. apply NoDup_app. set_solver. }
    destruct del.
    + unfold mbind, agps_bind. simpl.
      rewrite (IH done (set_list (done ++ rest) m)); [|done|auto|done]. done.
    + rewrite (IH (done ++ [(p, s)]) m); [|done..|by rewrite <- app_assoc].
      rewrite <- app_assoc. done.
  - rewrite (IH (done ++ [(p, s)]) m); [|done..|by rewrite <- app_assoc].
    rewrite <- app_assoc. by destruct del.
Qed.

(** ** What each operation does *)
Definition active_subs (m : agps_sm) := base.filter (λ x, ¬ mIsInactive (snd x)) (mSubscriberList m).
Definition inactive_subs (m : agps_sm) :=
  base.filter (λ x : Z * subscriber, mIsInactive (snd x)) (mSubscriberList m).

Lemma notifyAll_spec event del ty m :
  heap_ok m →
  notifyAllSubscribers event del ty m =
    Some ((), set_list (if del then base.filter (λ x, ¬ selected ty (snd x)) (mSubscriberList m)
                        else mSubscriberList m) m,
          notifications event m (base.filter (λ x, selected ty (snd x)) (mSubscriberList m))).
Proof.
  intros Hh. unfold notifyAllSubscribers, mbind, agps_bind. simpl.
  by rewrite notify_loop_spec by (first [apply Hh | done]).
Qed.

Lemma heap_ok_filter m m' (P : Z * subscriber → Prop) `{∀ x, Decision (P x)} :
  heap_ok m → mSubscriberList m' = base.filter P (mSubscriberList m) → local m' = local m →
  heap_ok m'.
Proof.
  intros [Ha Hh Hw Hl] El El'. split; unfold addrs, handles in *; rewrite ?El, ?El';
    auto using NoDup_fmap_filter.
  rewrite Forall_forall in *. intros x Hx. apply list_elem_of_filter in Hx as [_ Hx]. auto.
Qed.

Lemma heap_ok_same m m' :
  heap_ok m → mSubscriberList m' = mSubscriberList m → local m' = local m → heap_ok m'.
Proof. intros [Ha Hh Hw Hl] El El'. split; unfold addrs, handles in *; by rewrite ?El, ?El'. Qed.

Lemma anyActive_spec m : anyActiveSubscribers m = bool_decide (active_subs m ≠ []).
Proof.
  unfold anyActiveSubscribers, active_subs. induction (mSubscriberList m) as [|x l IH]; [done|].
  simpl. rewrite filter_cons. destruct (mIsInactive (snd x)); simpl; [exact IH|done].
Qed.

Lemma selected_active (l : list (Z * subscriber)) :
  base.filter (λ x : Z * subscriber, selected FOR_ACTIVE (snd x)) l =
  base.filter (λ x, ¬ mIsInactive (snd x)) l.
Proof. apply list_filter_iff. intros x. simpl. destruct (mIsInactive (snd x)); simpl; tauto. Qed.

(** [GRANTED]: the active subscribers of a pending request are told. *)
Lemma granted_spec m :
  heap_ok m → state_ok m →
  ∃ m', processAgpsEventGranted m =
      Some ((), m', match mState m with
                    | AGPS_STATE_PENDING => notifications AGPS_EVENT_GRANTED m (active_subs m)
                    | _ => [] end) ∧
    mSubscriberList m' = mSubscriberList m ∧
    mState m' = (match mState m with
                 | AGPS_STATE_PENDING => AGPS_STATE_ACQUIRED | st => st end) ∧
    heap_ok m' ∧ state_ok m'.
Proof.
  intros Hh Hs. unfold processAgpsEventGranted, mbind, agps_bind. simpl.
  destruct (mState m) eqn:Hst; try (exists m; simpl; rewrite ?Hst; done).
  simpl. assert (heap_ok (set_agps_state AGPS_STATE_ACQUIRED m)) as Hh'
    by (by apply (heap_ok_same m)).
  rewrite (notifyAll_spec _ _ _ _ Hh'). simpl.
  exists (set_agps_state AGPS_STATE_ACQUIRED m). rewrite selected_active, set_list_id by done.
  split_and!; try done. unfold state_ok in *. by rewrite Hst in Hs.
Qed.

(** The end of a release. *)
Lemma finish_release_spec m :
  heap_ok m →
  ∃ m', finish_release m =
      Some ((), m', notifications AGPS_EVENT_RELEASED m (inactive_subs m) ++
        if bool_decide (active_subs m = []) then []
        else [DataConn true (mAgpsType m) (mApnTypeMask m)]) ∧
    mSubscriberList m' = active_subs m ∧
    mState m' = (if bool_decide (active_subs m = []) then AGPS_STATE_RELEASED
                 else AGPS_STATE_PENDING) ∧
    heap_ok m' ∧ state_ok m'.
Proof.
  intros Hh. unfold finish_release, mbind, agps_bind.
  rewrite (notifyAll_spec _ _ _ _ Hh). simpl. rewrite anyActive_spec.
  set (m1 := set_list _ m).
  assert (mSubscriberList m1 = active_subs m) as E1 by done.
  assert (active_subs m1 = active_subs m) as E2 by (unfold active_subs; rewrite E1; apply list_filter_filter_l; done).
  assert (heap_ok m1) as H1 by (by eapply (heap_ok_filter m)).
  rewrite E2. unfold inactive_subs.
  destruct (decide (active_subs m = [])) as [E|E].
  - rewrite !(bool_decide_eq_true_2 (active_subs m = [])) by done.
    rewrite bool_decide_eq_false_2 by (intros Hn; by apply Hn). simpl.
    exists (set_agps_state AGPS_STATE_RELEASED m1). rewrite app_nil_r. split_and!; try done.
    all: first [by apply (heap_ok_same m1) | unfold state_ok; simpl; by rewrite E1].
  - rewrite !(bool_decide_eq_false_2 (active_subs m = [])) by done.
    rewrite bool_decide_eq_true_2 by done. simpl.
    exists (set_agps_state AGPS_STATE_PENDING m1). split_and!; try done.
    1: by apply (heap_ok_same m1).
    unfold state_ok. simpl. change (anyActiveSubscribers m1 = true).
    rewrite anyActive_spec, E2. by apply bool_decide_eq_true_2.
Qed.

(** A list where everybody is told and removed. *)
Lemma tell_all_spec event m st :
  heap_ok m →
  ∃ m', (transitionState st ;; notifyAllSubscribers event true FOR_ALL) m =
      Some ((), m', notifications event m (mSubscriberList m)) ∧
    mSubscriberList m' = [] ∧ mState m' = st ∧ heap_ok m'.
Proof.
  intros Hh. unfold mbind, agps_bind. simpl.
  assert (heap_ok (set_agps_state st m)) as Hh' by (by apply (heap_ok_same m)).
  rewrite (notifyAll_spec _ _ _ _ Hh'). simpl.
  rewrite filter_none, filter_all by (intros ?; simpl; tauto).
  eexists. split; [reflexivity|]. split_and!; [done..|].
  split; [constructor..|apply Hh].
Qed.

(** [RELEASED]: the framework closed the data call. *)
Lemma released_spec m :
  heap_ok m → state_ok m →
  ∃ m' o, processAgpsEventReleased m = Some ((), m', o) ∧ heap_ok m' ∧ state_ok m' ∧
    mSubscriberList m' =
      (match mState m with
       | AGPS_STATE_ACQUIRED => [] | AGPS_STATE_RELEASING => active_subs m
       | _ => mSubscriberList m end) ∧
    o = match mState m with
        | AGPS_STATE_ACQUIRED => notifications AGPS_EVENT_RELEASED m (mSubscriberList m)
        | AGPS_STATE_RELEASING =>
            notifications AGPS_EVENT_RELEASED m (inactive_subs m) ++
            (if bool_decide (active_subs m = []) then []
             else [DataConn true (mAgpsType m) (mApnTypeMask m)])
        | _ => []
        end ∧
    mState m' =
      match mState m with
      | AGPS_STATE_ACQUIRED => AGPS_STATE_RELEASED
      | AGPS_STATE_RELEASING =>
          if bool_decide (active_subs m = []) then AGPS_STATE_RELEASED else AGPS_STATE_PENDING
      | st => st
      end.
Proof.
  intros Hh Hs. unfold processAgpsEventReleased, mbind at 1, agps_bind at 1. simpl.
  destruct (mState m) eqn:Hst.
  - exists m, []. by rewrite Hst.
  - exists m, []. by rewrite Hst.
  - destruct (tell_all_spec AGPS_EVENT_RELEASED m AGPS_STATE_RELEASED Hh)
      as (m' & -> & Hl & Hst' & Hh'). exists m'. eexists. split; [reflexivity|].
    split_and!; try done. unfold state_ok. by rewrite Hst'.
  - destruct (finish_release_spec m Hh) as (m' & -> & Hl & Hst' & Hh' & Hs').
    exists m'. eexists. split; [reflexivity|]. split_and!; done.
Qed.

(** [DENIED]: the framework refused the data call. *)
Lemma denied_spec m :
  heap_ok m → state_ok m →
  ∃ m' o, processAgpsEventDenied m = Some ((), m', o) ∧ heap_ok m' ∧ state_ok m' ∧
    mSubscriberList m' =
      (match mState m with
       | AGPS_STATE_PENDING => [] | AGPS_STATE_RELEASING => active_subs m
       | _ => mSubscriberList m end) ∧
    o = match mState m with
        | AGPS_STATE_PENDING => notifications AGPS_EVENT_DENIED m (mSubscriberList m)
        | AGPS_STATE_RELEASING =>
            notifications AGPS_EVENT_RELEASED m (inactive_subs m) ++
            (if bool_decide (active_subs m = []) then []
             else [DataConn true (mAgpsType m) (mApnTypeMask m)])
        | _ => []
        end ∧
    mState m' =
      match mState m with
      | AGPS_STATE_PENDING => AGPS_STATE_RELEASED
      | AGPS_STATE_RELEASING =>
          if bool_decide (active_subs m = []) then AGPS_STATE_RELEASED else AGPS_STATE_PENDING
      | st => st
      end.
Proof.
  intros Hh Hs. unfold processAgpsEventDenied, mbind at 1, agps_bind at 1. simpl.
  destruct (mState m) eqn:Hst.
  - exists m, []. by rewrite Hst.
  - destruct (tell_all_spec AGPS_EVENT_DENIED m AGPS_STATE_RELEASED Hh)
      as (m' & -> & Hl & Hst' & Hh'). exists m'. eexists. split; [reflexivity|].
    split_and!; try done. unfold state_ok. by rewrite Hst'.
  - exists m, []. by rewrite Hst.
  - destruct (finish_release_spec m Hh) as (m' & -> & Hl & Hst' & Hh' & Hs').
    exists m'. eexists. split; [reflexivity|]. split_and!; done.
Qed.

(** The operation of [requestATL] on its state machine. *)
Definition subscribe (sp a connHandle agpsType apnTypeMask : Z) : agps () :=
  update (setType agpsType) ;;
  update (setApnTypeMask apnTypeMask) ;;
  update (set_local (Some (sp, Subscriber connHandle true false apnTypeMask))) ;;
  update (set_current sp) ;;
  processAgpsEvent a AGPS_EVENT_SUBSCRIBE ;;
  update (set_local None).

Definition with_request (ty mask : Z) (m : agps_sm) : agps_sm := setApnTypeMask mask (setType ty m).

Definition add_sub (a h mask : Z) (l : list (Z * subscriber)) : list (Z * subscriber) :=
  if decide (h ∈ (λ x, mConnHandle (snd x)) <$> l) then l
  else l ++ [(a, Subscriber h true false mask)].

Lemma existsb_equals h mask (l : list (Z * subscriber)) :
  existsb (λ x, equals (snd x) (Subscriber h true false mask)) l =
  bool_decide (h ∈ (λ x, mConnHandle (snd x)) <$> l).
Proof.
  induction l as [|x l IH]; [done|]. simpl. rewrite IH. unfold equals. simpl.
  apply eq_true_iff_eq. rewrite orb_true_iff, !bool_decide_eq_true, elem_of_cons.
  naive_solver.
Qed.

Lemma addSubscriber_local a sp h mask m :
  local m = Some (sp, Subscriber h true false mask) →
  addSubscriber a sp m = Some ((), set_list (add_sub a h mask (mSubscriberList m)) m, []).
Proof.
  intros Hl. unfold addSubscriber, mbind, agps_bind, deref, add_sub. simpl. rewrite Hl. simpl.
  rewrite decide_True by done. rewrite existsb_equals.
  case_decide as Hd; [rewrite bool_decide_eq_true_2 by done|rewrite bool_decide_eq_false_2 by done].
  - by rewrite set_list_id.
  - done.
Qed.

Lemma add_sub_ok a h mask m :
  heap_ok m → a ∉ addrs m → heap_ok (set_list (add_sub a h mask (mSubscriberList m)) m).
Proof.
  intros [Ha Hh Hw Hl] Hf. unfold add_sub. case_decide as Hd.
  - split; done.
  - split; unfold addrs, handles in *; simpl; rewrite ?fmap_app.
    + apply NoDup_app. split_and!; [done|set_solver|apply NoDup_singleton].
    + apply NoDup_app. split_and!; [done|set_solver|apply NoDup_singleton].
    + apply Forall_app. split; [done|by constructor].
    + done.
Qed.

Lemma add_sub_active a h mask l :
  existsb (λ x : Z * subscriber, negb (mIsInactive (snd x))) l = true →
  existsb (λ x : Z * subscriber, negb (mIsInactive (snd x))) (add_sub a h mask l) = true.
Proof. intros Hl. unfold add_sub. case_decide; [done|]. by rewrite existsb_app, Hl. Qed.

Lemma subscribe_spec sp a h ty mask m :
  heap_ok m → state_ok m → a ∉ addrs m →
  ∃ m', subscribe sp a h ty mask m =
      Some ((), m', match mState m with
                    | AGPS_STATE_RELEASED => [DataConn true ty mask]
                    | AGPS_STATE_ACQUIRED =>
                        notification AGPS_EVENT_GRANTED (with_request ty mask m) h
                    | _ => [] end) ∧
    mSubscriberList m' = add_sub a h mask (mSubscriberList m) ∧
    mState m' = (match mState m with
                 | AGPS_STATE_RELEASED => AGPS_STATE_PENDING | st => st end) ∧
    heap_ok m' ∧ state_ok m'.
Proof.
  intros Hh Hs Hf. unfold subscribe, mbind, agps_bind. simpl.
  set (sub := Subscriber h true false mask).
  set (m1 := set_current sp (set_local (Some (sp, sub)) (setApnTypeMask mask (setType ty m)))).
  assert (local m1 = Some (sp, sub)) as Hl1 by done.
  unfold processAgpsEventSubscribe, mbind, agps_bind. simpl.
  pose proof (add_sub_ok a h mask m Hh Hf) as Hok.
  destruct (mState m) eqn:Hst; simpl;
    try (unfold notifyEventToSubscriber, mbind, agps_bind, deref; simpl;
         rewrite decide_True by done; simpl);
    rewrite (addSubscriber_local a sp h mask m1 Hl1); simpl;
    (eexists; split; [reflexivity|]); simpl; split_and!; try done;
    try (by eapply heap_ok_same; [exact Hok|done|simpl; symmetry; apply Hh]);
    unfold state_ok in *; rewrite Hst in Hs; unfold anyActiveSubscribers in *; simpl.
  - rewrite Hs. done.
  - rewrite Hst. by apply add_sub_active.
  - rewrite Hst. by apply add_sub_active.
  - rewrite Hst. unfold add_sub. case_decide; [done|]. by destruct (mSubscriberList m).
Qed.

(** The operation of [releaseATL] on the state machine of the subscriber. *)
Definition unsubscribe (p : Z) : agps () :=
  update (set_current p) ;; processAgpsEvent 0 AGPS_EVENT_UNSUBSCRIBE.

Definition mark (p : Z) (x : Z * subscriber) : Z * subscriber :=
  if decide (fst x = p) then
    (fst x, Subscriber (mConnHandle (snd x)) (mWaitForCloseComplete (snd x)) true
              (sub_mApnTypeMask (snd x)))
  else x.

Lemma mark_proj {A} (f : Z * subscriber → A) p (l : list (Z * subscriber)) :
  (∀ x, f (mark p x) = f x) → f <$> (mark p <$> l) = f <$> l.
Proof. intros Hf. rewrite <- list_fmap_compose. apply list_fmap_ext. intros i x _. apply Hf. Qed.

Lemma mark_ok p m m' :
  heap_ok m → mSubscriberList m' = mark p <$> mSubscriberList m → local m' = None → heap_ok m'.
Proof.
  intros [Ha Hh Hw Hl] El El'. split; unfold addrs, handles in *; rewrite ?El; try done.
  - rewrite mark_proj; [done|]. intros x. unfold mark. by case_decide.
  - rewrite mark_proj; [done|]. intros x. unfold mark. by case_decide.
  - apply Forall_fmap. eapply Forall_impl; [exact Hw|]. intros x Hx. unfold mark; simpl.
    by case_decide.
Qed.

Lemma unsubscribe_spec p s m :
  heap_ok m → state_ok m → (p, s) ∈ mSubscriberList m →
  ∃ m', unsubscribe p m =
      Some ((), m', if bool_decide (mState m' = mState m) then []
                    else [DataConn false (mAgpsType m) (mApnTypeMask m)]) ∧
    mSubscriberList m' = mark p <$> mSubscriberList m ∧
    mState m' = (match mState m with
                 | AGPS_STATE_PENDING | AGPS_STATE_ACQUIRED =>
                     if anyActiveSubscribers (set_list (mark p <$> mSubscriberList m) m)
                     then mState m else AGPS_STATE_RELEASING
                 | st => st end) ∧
    heap_ok m' ∧ state_ok m'.
Proof.
  intros Hh Hs Hin. unfold unsubscribe, mbind, agps_bind. simpl.
  unfold processAgpsEventUnsubscribe, mbind, agps_bind. simpl.
  set (m1 := set_current p m).
  assert (set_inactive p m1 = Some ((), set_list (mark p <$> mSubscriberList m) m1, [])) as Hset.
  { unfold set_inactive. simpl. rewrite (ho_local _ Hh). simpl.
    rewrite (at_addr_elem p s) by (first [apply Hh|done]).
    f_equal. f_equal. f_equal. unfold m1, set_local, set_list. simpl.
    by rewrite (ho_local _ Hh). }
  assert (drop_current p m1 = Some ((), set_list (mark p <$> mSubscriberList m) m1, [])) as Hdrop.
  { unfold drop_current, mbind, agps_bind.
    rewrite (deref_listed m1 p s) by (first [apply Hh|done]).
    pose proof (ho_wait _ Hh) as Hw. rewrite Forall_forall in Hw.
    specialize (Hw _ Hin). simpl in Hw. rewrite Hw, Hset. done. }
  set (m2 := set_list (mark p <$> mSubscriberList m) m1) in *.
  assert (heap_ok m2) as Hh2 by (eapply (mark_ok p m); [done|done|apply Hh]).
  assert (mSubscriberList m ≠ []) as Hne by (intros E; rewrite E in Hin; by apply elem_of_nil in Hin).
  assert (list_empty m2 = false) as Hne2.
  { unfold list_empty, m2. simpl. by destruct (mSubscriberList m). }
  assert (mSubscriberList m2 ≠ []) as Hne3.
  { intros E. unfold list_empty in Hne2. by rewrite E in Hne2. }
  assert (anyActiveSubscribers (set_list (mark p <$> mSubscriberList m) m) =
          anyActiveSubscribers m2) as Hact by done.
  rewrite Hact. unfold state_ok in Hs.
  destruct (mState m) eqn:Hst; try done.
  all: rewrite Hdrop; simpl; rewrite Hne2; try (destruct (anyActiveSubscribers m2) eqn:Ha2; simpl).
  all: first
    [ exists m2; simpl; rewrite ?Hst; split_and!; try done; unfold state_ok; simpl;
      rewrite ?Hst; done
    | exists (set_agps_state AGPS_STATE_RELEASING m2); split_and!; try done;
      by apply (heap_ok_same m2) ].
Qed.

(** ** The operations of one state machine, together *)
Inductive sm_op :=
  | SmSubscribe (sp a h ty mask : Z)
  | SmUnsubscribe (p : Z)
  | SmGranted (apn : option string) (apnLen bearer : Z)
  | SmDenied
  | SmReleased.

Definition exec (op : sm_op) : agps () :=
  match op with
  | SmSubscribe sp a h ty mask => subscribe sp a h ty mask
  | SmUnsubscribe p => unsubscribe p
  | SmGranted apn apnLen bearer =>
      update (setBearer bearer) ;;
      setAPN apn (wrap_unsigned 32 apnLen) ;;
      processAgpsEvent 0 AGPS_EVENT_GRANTED
  | SmDenied => processAgpsEvent 0 AGPS_EVENT_DENIED
  | SmReleased => processAgpsEvent 0 AGPS_EVENT_RELEASED
  end.

(** The new object is at a free address, the released one is in the list. *)
Definition op_ok (op : sm_op) (m : agps_sm) : Prop :=
  match op with
  | SmSubscribe _ a _ _ _ => a ∉ addrs m
  | SmUnsubscribe p => p ∈ addrs m
  | _ => True
  end.

(** A handle is told that its connection is not (or no longer) there. *)
Definition told_gone (h : Z) (o : list output) : Prop :=
  AtlCloseStatus h true ∈ o ∨
  ∃ apn n b ty mask, AtlOpenStatus h false apn n b ty mask ∈ o.

Definition asks (request : bool) (o : list output) : Prop :=
  ∃ ty mask, DataConn request ty mask ∈ o.

(** The APN is what [setAPN] lets in. *)
Definition apn_ok (m : agps_sm) : Prop :=
  match mAPN m with
  | None => mAPNLen m = 0%Z
  | Some s => mAPNLen m = Z.of_nat (String.length s) ∧ (mAPNLen m ≤ MAX_APN_LEN)%Z
  end.

Record step_ok (m : agps_sm) (m' : agps_sm) (o : list output) : Prop := {
  so_heap : heap_ok m';
  so_state : state_ok m';
  so_told : ∀ h, h ∈ handles m → h ∉ handles m' → told_gone h o;
  so_request : asks true o ↔
    mState m' = AGPS_STATE_PENDING ∧ mState m ≠ AGPS_STATE_PENDING;
  so_release : asks false o ↔
    mState m' = AGPS_STATE_RELEASING ∧ mState m ≠ AGPS_STATE_RELEASING
}.

Lemma asks_notifications b event m l : ¬ asks b (notifications event m l).
Proof.
  intros (ty & mask & Hin). unfold notifications in Hin.
  apply list_elem_of_bind in Hin as (x & Hin & _).
  destruct event; simpl in Hin; set_solver.
Qed.

Lemma asks_app b o1 o2 : asks b (o1 ++ o2) ↔ asks b o1 ∨ asks b o2.
Proof. unfold asks. setoid_rewrite elem_of_app. naive_solver. Qed.

Lemma asks_one b b' ty mask : asks b [DataConn b' ty mask] ↔ b = b'.
Proof.
  unfold asks. split.
  - intros (ty' & mask' & Hin). apply list_elem_of_singleton in Hin. by simplify_eq.
  - intros ->. exists ty, mask. set_solver.
Qed.

Lemma asks_nil b : ¬ asks b [].
Proof. intros (? & ? & Hin). by apply elem_of_nil in Hin. Qed.

Lemma asks_notification b event m h : ¬ asks b (notification event m h).
Proof. intros (ty & mask & Hin). destruct event; simpl in Hin; set_solver. Qed.

(** Everybody of a list is told. *)
Lemma told_notifications event m l h :
  event = AGPS_EVENT_RELEASED ∨ event = AGPS_EVENT_DENIED →
  h ∈ (λ x, mConnHandle (snd x)) <$> l → told_gone h (notifications event m l).
Proof.
  intros He Hin. apply list_elem_of_fmap in Hin as (x & -> & Hx). unfold notifications.
  destruct He as [-> | ->]; [left|right; do 5 eexists];
    (apply list_elem_of_bind; exists x; split; [|done]; simpl; apply list_elem_of_singleton; reflexivity).
Qed.

Lemma told_app_l h o1 o2 : told_gone h o1 → told_gone h (o1 ++ o2).
Proof. unfold told_gone. setoid_rewrite elem_of_app. naive_solver. Qed.

Lemma handles_split m h :
  h ∈ handles m → h ∉ (λ x, mConnHandle (snd x)) <$> active_subs m →
  h ∈ (λ x, mConnHandle (snd x)) <$> inactive_subs m.
Proof.
  unfold handles, active_subs, inactive_subs. rewrite !list_elem_of_fmap.
  intros (x & -> & Hx) Hn. exists x. split; [done|]. apply list_elem_of_filter. split; [|done].
  destruct (mIsInactive (snd x)) eqn:Hi; [done|]. exfalso. apply Hn.
  exists x. split; [done|]. apply list_elem_of_filter.
  split; [rewrite Hi; simpl; tauto|done].
Qed.

Ltac asks_tac :=
  rewrite ?asks_app, ?asks_one; split;
  [ intros Ha; repeat destruct Ha as [Ha|Ha];
    first [by destruct (asks_nil _ Ha) | by destruct (asks_notification _ _ _ _ Ha)
          | by destruct (asks_notifications _ _ _ _ Ha) | discriminate | done | by split ]
  | intros [? ?]; first [congruence | by right | by left | done] ].

Lemma subscribe_ok sp a h ty mask m :
  heap_ok m → state_ok m → a ∉ addrs m →
  ∃ m' o, subscribe sp a h ty mask m = Some ((), m', o) ∧ step_ok m m' o.
Proof.
  intros Hh Hs Hop.
  destruct (subscribe_spec sp a h ty mask m Hh Hs Hop) as (m' & -> & Hl & Hst & Hh' & Hs').
  eexists _, _. split; [reflexivity|]. split; try done.
  - intros h' Hin Hn. exfalso. apply Hn. unfold handles in *. rewrite Hl. unfold add_sub.
    case_decide; [done|]. rewrite fmap_app. set_solver.
  - rewrite Hst. destruct (mState m); asks_tac.
  - rewrite Hst. destruct (mState m); asks_tac.
Qed.

Lemma unsubscribe_ok p m :
  heap_ok m → state_ok m → p ∈ addrs m →
  ∃ m' o, unsubscribe p m = Some ((), m', o) ∧ step_ok m m' o.
Proof.
  intros Hh Hs Hop. apply list_elem_of_fmap in Hop as ([p' s] & -> & Hin). simpl.
  destruct (unsubscribe_spec p' s m Hh Hs Hin) as (m' & -> & Hl & Hst & Hh' & Hs').
  eexists _, _. split; [reflexivity|]. split; try done.
  - intros h' Hin' Hn. exfalso. apply Hn. unfold handles in *. rewrite Hl, mark_proj; [done|].
    intros x. unfold mark. by case_decide.
  - rewrite Hst. destruct (mState m); repeat case_match; simpl; asks_tac.
  - rewrite Hst. destruct (mState m); repeat case_match; simpl; asks_tac.
Qed.

(** What [setBearer] and [setAPN] change. *)
Definition with_apn (apn : option string) (len bearer : Z) (m : agps_sm) : agps_sm :=
  match apn with
  | Some s =>
      if (MAX_APN_LEN <? len)%Z || negb (Z.of_nat (String.length s) =? len)%Z
      then set_apn None 0 (setBearer bearer m) else set_apn (Some s) len (setBearer bearer m)
  | None => set_apn None 0 (setBearer bearer m)
  end.

Lemma with_apn_same apn len bearer m :
  mSubscriberList (with_apn apn len bearer m) = mSubscriberList m ∧
  mState (with_apn apn len bearer m) = mState m ∧
  local (with_apn apn len bearer m) = local m.
Proof. unfold with_apn. by repeat case_match. Qed.

Lemma granted_exec apn len bearer m :
  exec (SmGranted apn len bearer) m =
  processAgpsEventGranted (with_apn apn (wrap_unsigned 32 len) bearer m).
Proof.
  unfold exec, setAPN, with_apn, mbind, agps_bind. cbn [update processAgpsEvent].
  destruct apn as [s|]; [destruct (_ || _)|]; cbn [update];
    by destruct (processAgpsEventGranted _) as [[[[] ?] ?]|].
Qed.

Lemma granted_ok apn len bearer m :
  heap_ok m → state_ok m →
  ∃ m' o, exec (SmGranted apn len bearer) m = Some ((), m', o) ∧ step_ok m m' o.
Proof.
  intros Hh Hs. rewrite granted_exec.
  destruct (with_apn_same apn (wrap_unsigned 32 len) bearer m) as (El & Est & Elc).
  set (m1 := with_apn apn (wrap_unsigned 32 len) bearer m) in *.
  destruct (granted_spec m1) as (m' & -> & Hl & Hst & Hh' & Hs').
  { by apply (heap_ok_same m). }
  { unfold state_ok, anyActiveSubscribers. by rewrite Est, El. }
  eexists _, _. split; [reflexivity|]. split; try done.
  - intros h Hin Hn. exfalso. apply Hn. unfold handles in *. by rewrite Hl, El.
  - rewrite Hst, Est. destruct (mState m); asks_tac.
  - rewrite Hst, Est. destruct (mState m); asks_tac.
Qed.

(** After a release is finished, only the active subscribers are left. *)
Lemma finish_told m m' h :
  mSubscriberList m' = active_subs m → h ∈ handles m → h ∉ handles m' →
  told_gone h (notifications AGPS_EVENT_RELEASED m (inactive_subs m)).
Proof.
  intros Hl Hin Hn. apply told_notifications; [by left|].
  apply handles_split; [done|]. unfold handles in Hn. by rewrite Hl in Hn.
Qed.

Lemma denied_ok m :
  heap_ok m → state_ok m →
  ∃ m' o, exec SmDenied m = Some ((), m', o) ∧ step_ok m m' o.
Proof.
  intros Hh Hs. change (exec SmDenied m) with (processAgpsEventDenied m).
  destruct (denied_spec m Hh Hs) as (m' & o & -> & Hh' & Hs' & Hl & -> & Hst).
  eexists _, _. split; [reflexivity|]. split; try done; rewrite ?Hst.
  - intros h Hin Hn. destruct (mState m) eqn:E.
    all: try (exfalso; apply Hn; unfold handles in *; by rewrite Hl).
    + apply told_notifications; [by right|done].
    + by eapply told_app_l, finish_told.
  - destruct (mState m); repeat case_match; simpl; asks_tac.
  - destruct (mState m); repeat case_match; simpl; asks_tac.
Qed.

Lemma released_ok m :
  heap_ok m → state_ok m →
  ∃ m' o, exec SmReleased m = Some ((), m', o) ∧ step_ok m m' o.
Proof.
  intros Hh Hs. change (exec SmReleased m) with (processAgpsEventReleased m).
  destruct (released_spec m Hh Hs) as (m' & o & -> & Hh' & Hs' & Hl & -> & Hst).
  eexists _, _. split; [reflexivity|]. split; try done; rewrite ?Hst.
  - intros h Hin Hn. destruct (mState m) eqn:E.
    all: try (exfalso; apply Hn; unfold handles in *; by rewrite Hl).
    + apply told_notifications; [by left|done].
    + by eapply told_app_l, finish_told.
  - destruct (mState m); repeat case_match; simpl; asks_tac.
  - destruct (mState m); repeat case_match; simpl; asks_tac.
Qed.

Lemma exec_ok op m :
  heap_ok m → state_ok m → op_ok op m →
  ∃ m' o, exec op m = Some ((), m', o) ∧ step_ok m m' o.
Proof.
  intros Hh Hs Hop. destruct op; simpl in Hop;
    eauto using subscribe_ok, unsubscribe_ok, granted_ok, denied_ok, released_ok.
Qed.

(** ** The manager *)
Inductive atl_op :=
  | RequestATL (sp a connHandle agpsType apnTypeMask : Z)
  | ReleaseATL (connHandle : Z)
  | AtlOpenSuccess (agpsType : Z) (apnName : option string) (apnLen bearerType : Z)
  | AtlOpenFailed (agpsType : Z)
  | AtlClosed (agpsType : Z).

Definition atl_step (use_emergency_pdn : bool) (op : atl_op) (M : manager) :
    option (manager * list output) :=
  match op with
  | RequestATL sp a h ty mask => requestATL use_emergency_pdn sp a h ty mask M
  | ReleaseATL h => releaseATL h M
  | AtlOpenSuccess ty apn len b => reportAtlOpenSuccess ty apn len b M
  | AtlOpenFailed ty => reportAtlOpenFailed ty M
  | AtlClosed ty => reportAtlClosed ty M
  end.

Fixpoint atl_run (pdn : bool) (ops : list atl_op) (M : manager) :
    option (manager * list output) :=
  match ops with
  | [] => Some (M, [])
  | op :: ops =>
      '(M1, o1) ← atl_step pdn op M; '(M2, o2) ← atl_run pdn ops M1; Some (M2, o1 ++ o2)
  end.

Definition manager_ok (M : manager) : Prop :=
  ∀ n m, get_nif n M = Some m → heap_ok m ∧ state_ok m.

(** Both state machines exist. *)
Definition complete (M : manager) : Prop := ∀ n, is_Some (get_nif n M).

(** [new] returns an address that no subscriber has. *)
Definition atl_fresh (op : atl_op) (M : manager) : Prop :=
  match op with
  | RequestATL _ a _ _ _ => ∀ n m, get_nif n M = Some m → a ∉ addrs m
  | _ => True
  end.

Lemma get_set_nif n n' m M :
  get_nif n' (set_nif n m M) = match n, n' with
                               | AGNSS, AGNSS | INTERNET, INTERNET => Some m
                               | _, _ => get_nif n' M end.
Proof. by destruct n, n'. Qed.

(** The state machine that an event of the framework is sent to. *)
Definition sent_to (op : atl_op) : option nif :=
  match op with
  | AtlOpenSuccess ty _ _ _ | AtlOpenFailed ty | AtlClosed ty => Some (getAgpsStateMachine ty)
  | _ => None
  end.
Definition served (op : atl_op) (M : manager) : Prop :=
  ∀ n, sent_to op = Some n → is_Some (get_nif n M).

Lemma complete_served op M : complete M → served op M.
Proof. intros Hc n _. apply Hc. Qed.

Lemma served_or op M : served op M ∨ ∃ n, sent_to op = Some n ∧ get_nif n M = None.
Proof.
  unfold served. destruct (sent_to op) as [n|]; [|by left].
  destruct (get_nif n M) eqn:E; [left; intros ? [= <-]; rewrite E; by eexists|right; by exists n].
Qed.

Lemma unserved op n pdn M : sent_to op = Some n → get_nif n M = None → atl_step pdn op M = None.
Proof.
  destruct op; intros [= <-] Hn; simpl; unfold reportAtlOpenSuccess, reportAtlOpenFailed, reportAtlClosed, on_nif;
    by rewrite Hn.
Qed.

(** No state machine comes or goes. *)
Definition same_machines (M M' : manager) : Prop := ∀ n, is_Some (get_nif n M') ↔ is_Some (get_nif n M).

(** What a step of the manager does to each of its state machines. *)
Definition manager_step_ok (M M' : manager) (o : list output) : Prop :=
  same_machines M M' ∧ manager_ok M' ∧
  ∀ n m m', get_nif n M = Some m → get_nif n M' = Some m' → m' = m ∨ step_ok m m' o.

Lemma manager_step_refl M o : manager_ok M → manager_step_ok M M o.
Proof. intros Hok. split_and!; [done..|]. intros n m m' H1 H2. left. congruence. Qed.

Lemma on_nif_exec n op M m :
  manager_ok M → get_nif n M = Some m → op_ok op m →
  ∃ M' o, on_nif n (exec op) M = Some (M', o) ∧ manager_step_ok M M' o.
Proof.
  intros Hok Hn Hop. destruct (Hok n m Hn) as [Hh Hs].
  destruct (exec_ok op m Hh Hs Hop) as (m' & o & Hx & Hst).
  exists (set_nif n m' M), o. unfold on_nif. rewrite Hn. simpl. rewrite Hx. split; [done|].
  split_and!.
  - intros n'. rewrite get_set_nif. destruct n, n'; try done; rewrite Hn; split; by eexists.
  - intros n' m1. rewrite get_set_nif. destruct Hst.
    destruct n, n'; intros; simplify_eq; eauto.
  - intros n' m1 m2 H1. rewrite get_set_nif. destruct n, n'; intros; simplify_eq; eauto;
      left; congruence.
Qed.

Lemma getSubscriber_addr h m p : getSubscriber h m = Some p → p ∈ addrs m.
Proof.
  unfold getSubscriber. intros Hf. apply fmap_Some in Hf as ([a s] & Hf & ->).
  apply find_some in Hf as [Hin _]. apply list_elem_of_fmap. exists (a, s).
  split; [done|]. by apply list_elem_of_In.
Qed.

Lemma atl_step_ok pdn op M :
  served op M → manager_ok M → atl_fresh op M →
  ∃ M' o, atl_step pdn op M = Some (M', o) ∧ manager_step_ok M M' o.
Proof.
  intros Hc Hok Hf. destruct op as [sp a h ty mask|h|ty apn len b|ty|ty]; simpl in *.
  - unfold requestATL. destruct (if negb pdn && _ then _ else _) as [ty' mask'].
    set (n := getAgpsStateMachine ty'). destruct (get_nif n M) as [m|] eqn:Hm.
    + apply (on_nif_exec n (SmSubscribe sp a h ty' mask') M m); eauto. by apply (Hf n).
    + eauto using manager_step_refl.
  - unfold releaseATL.
    destruct (get_nif AGNSS M ≫= getSubscriber h) as [p|] eqn:G1;
      [|destruct (get_nif INTERNET M ≫= getSubscriber h) as [p|] eqn:G2].
    + destruct (get_nif AGNSS M) as [m1|] eqn:H1; [|done]. simpl in G1. rewrite G1.
      apply (on_nif_exec AGNSS (SmUnsubscribe p) M m1); auto. by eapply getSubscriber_addr.
    + destruct (get_nif INTERNET M) as [m2|] eqn:H2; [|done]. simpl in G2.
      replace (match get_nif AGNSS M with Some m => getSubscriber h m | None => None end)
        with (@None Z) by (by destruct (get_nif AGNSS M)). rewrite G2.
      apply (on_nif_exec INTERNET (SmUnsubscribe p) M m2); auto. by eapply getSubscriber_addr.
    + replace (match get_nif AGNSS M with Some m => getSubscriber h m | None => None end)
        with (@None Z) by (by destruct (get_nif AGNSS M)).
      replace (match get_nif INTERNET M with Some m => getSubscriber h m | None => None end)
        with (@None Z) by (by destruct (get_nif INTERNET M)).
      eauto using manager_step_refl.
  - destruct (Hc _ eq_refl) as [m Hm]. by apply (on_nif_exec _ (SmGranted apn len b) M m).
  - destruct (Hc _ eq_refl) as [m Hm]. by apply (on_nif_exec _ SmDenied M m).
  - destruct (Hc _ eq_refl) as [m Hm]. by apply (on_nif_exec _ SmReleased M m).
Qed.

(** Fresh addresses along a run. *)
Fixpoint atl_fresh_run (pdn : bool) (ops : list atl_op) (M : manager) : Prop :=
  match ops with
  | [] => True
  | op :: ops =>
      atl_fresh op M ∧
      match atl_step pdn op M with Some (M1, _) => atl_fresh_run pdn ops M1 | None => True end
  end.

(** The same, as a test. *)
Definition atl_freshb (op : atl_op) (M : manager) : bool :=
  match op with
  | RequestATL _ a _ _ _ =>
      forallb (λ n, match get_nif n M with
                    | Some m => bool_decide (a ∉ addrs m) | None => true end) [AGNSS; INTERNET]
  | _ => true
  end.

Fixpoint atl_fresh_runb (pdn : bool) (ops : list atl_op) (M : manager) : bool :=
  match ops with
  | [] => true
  | op :: ops =>
      atl_freshb op M &&
      match atl_step pdn op M with Some (M1, _) => atl_fresh_runb pdn ops M1 | None => true end
  end.

Lemma atl_freshb_ok op M : atl_freshb op M = true → atl_fresh op M.
Proof.
  destruct op; try done. cbn. rewrite !andb_true_iff. intros (H1 & H2 & _) n m Hm.
  destruct n; cbn in Hm; [rewrite Hm in H1|rewrite Hm in H2];
    [by apply bool_decide_eq_true in H1|by apply bool_decide_eq_true in H2].
Qed.

Lemma atl_fresh_runb_ok pdn ops M : atl_fresh_runb pdn ops M = true → atl_fresh_run pdn ops M.
Proof.
  revert M. induction ops as [|op ops IH]; intros M Hf; [done|]. cbn in *.
  apply andb_true_iff in Hf as [Hf Hfs]. split; [by apply atl_freshb_ok|].
  destruct (atl_step pdn op M) as [[M1 o]|]; auto.
Qed.

Definition booted (garbage : Z) : manager :=
  createAgpsStateMachines true true true true garbage new_manager.

Lemma booted_ok garbage : complete (booted garbage) ∧ manager_ok (booted garbage).
Proof.
  split; intros n.
  - destruct n; simpl; eauto.
  - intros m Hm. assert (∃ ty, m = new_sm ty garbage) as [ty ->].
    { destruct n; simpl in Hm; simplify_eq; eauto. }
    split; [|done]. split; constructor.
Qed.

Lemma atl_run_ok pdn ops M :
  manager_ok M → atl_fresh_run pdn ops M →
  match atl_run pdn ops M with
  | Some (M', o) => Forall (λ op, served op M) ops ∧ same_machines M M' ∧ manager_ok M'
  | None => Exists (λ op, ∃ n, sent_to op = Some n ∧ get_nif n M = None) ops
  end.
Proof.
  revert M. induction ops as [|op ops IH]; intros M Hok Hf; simpl in *; [by split_and!|].
  destruct Hf as [Hf Hfs]. destruct (served_or op M) as [Hs|(n & Hn & Hm)].
  - destruct (atl_step_ok pdn op M Hs Hok Hf) as (M1 & o1 & E & Hsame & Hok1 & _).
    rewrite E in *. simpl. specialize (IH M1 Hok1 Hfs).
    destruct (atl_run pdn ops M1) as [[M2 o2]|]; simpl.
    + destruct IH as (Hall & Hsame2 & ?). split_and!; [|intros n; by rewrite (Hsame2 n)|done].
      constructor; [done|]. eapply Forall_impl; [exact Hall|]. intros op' Hop n Hn. by apply Hsame, Hop.
    + apply Exists_cons_tl. eapply Exists_impl; [exact IH|]. intros op' (n & ? & Hn). exists n. split; [done|].
      specialize (Hsame n). destruct (get_nif n M); [|done]. rewrite Hn in Hsame.
      by destruct (proj2 Hsame (mk_is_Some _ _ eq_refl)).
  - rewrite (unserved op n pdn M Hn Hm). simpl. apply Exists_cons_hd. by exists n.
Qed.

Lemma created_ok msa wwan supl supl_es garbage :
  manager_ok (createAgpsStateMachines msa wwan supl supl_es garbage new_manager).
Proof.
  intros n m Hm. assert (∃ ty, m = new_sm ty garbage) as [ty ->].
  { unfold createAgpsStateMachines in Hm. destruct msa, wwan, supl, supl_es, n; simpl in Hm; simplify_eq; eauto. }
  split; [|done]. split; constructor.
Qed.

(** ** Theorems *)

(** C33: Any sequence of ATL requests and releases of the modem and data-call
    events of the framework, whichever of the two state machines the
    configuration created: a null state machine is used, which crashes,
    exactly if a data-call event is for a type whose state machine was not
    created; otherwise the sequence is handled without reading through a
    dangling subscriber pointer, and afterwards in each state machine the
    handles are distinct, RELEASED has no subscriber, PENDING and ACQUIRED
    have an active one and RELEASING has one. *)
Theorem agps_run_invariant pdn msa wwan supl supl_es garbage ops :
  let M := createAgpsStateMachines msa wwan supl supl_es garbage new_manager in
  let created n := match n with AGNSS => msa && supl && supl_es | INTERNET => wwan end in
  atl_fresh_run pdn ops M →
  match atl_run pdn ops M with
  | Some (M', o) =>
      (∀ op n, op ∈ ops → sent_to op = Some n → created n = true) ∧
      ∀ n m, get_nif n M' = Some m →
        NoDup (handles m) ∧
        match mState m with
        | AGPS_STATE_RELEASED => mSubscriberList m = []
        | AGPS_STATE_PENDING | AGPS_STATE_ACQUIRED => anyActiveSubscribers m = true
        | AGPS_STATE_RELEASING => mSubscriberList m ≠ []
        end
  | None => ∃ op n, op ∈ ops ∧ sent_to op = Some n ∧ created n = false
  end.
Proof.
  intros M created Hf. pose proof (atl_run_ok pdn ops M (created_ok _ _ _ _ _) Hf) as H.
  assert (∀ n, is_Some (get_nif n M) ↔ created n = true) as Hcr.
  { intros n. unfold M, created, createAgpsStateMachines.
    destruct n, msa, wwan, supl, supl_es; simpl; split; try done; by intros []. }
  destruct (atl_run pdn ops M) as [[M' o]|].
  - destruct H as (Hall & _ & Hok'). split.
    { intros op n Hin Hn. apply Hcr. rewrite Forall_forall in Hall. by apply (Hall op Hin). }
    intros n m Hm. destruct (Hok' n m Hm) as [Hh Hs].
    split; [apply Hh|exact Hs].
  - apply Exists_exists in H as (op & Hin & n & Hn & Hm). exists op, n. split_and!; [done..|].
    apply not_true_iff_false. rewrite <- Hcr, Hm. by intros [].
Qed.

Definition demo_atl : list atl_op :=
  [RequestATL 1 8 7 LOC_AGPS_TYPE_SUPL 16; RequestATL 1 16 9 LOC_AGPS_TYPE_SUPL 16;
   AtlOpenSuccess LOC_AGPS_TYPE_SUPL (Some "internet"%string) 8 1; ReleaseATL 7; ReleaseATL 9;
   RequestATL 1 24 11 LOC_AGPS_TYPE_SUPL 16; AtlClosed LOC_AGPS_TYPE_SUPL].

Lemma demo_atl_fresh : atl_fresh_run true demo_atl (booted 0).
Proof. apply atl_fresh_runb_ok. vm_compute. reflexivity. Qed.

Lemma agps_run_invariant_witness :
  ∃ M' o, atl_run true demo_atl (booted 0) = Some (M', o) ∧
    ∀ n m, get_nif n M' = Some m →
      NoDup (handles m) ∧
      match mState m with
      | AGPS_STATE_RELEASED => mSubscriberList m = []
      | AGPS_STATE_PENDING | AGPS_STATE_ACQUIRED => anyActiveSubscribers m = true
      | AGPS_STATE_RELEASING => mSubscriberList m ≠ []
      end.
Proof.
  pose proof (agps_run_invariant true true true true true 0 demo_atl demo_atl_fresh) as H.
  change (createAgpsStateMachines true true true true 0 new_manager) with (booted 0) in H.
  destruct (atl_run true demo_atl (booted 0)) as [[M' o]|]; [exists M', o; split; [done|apply H]|].
  destruct H as (op & [] & _ & _ & E); discriminate E.
Defined.

(** Handles 7 and 9 were granted a connection and have released it; the
    framework has not closed the data call yet. *)
Definition demo_releasing : manager :=
  match atl_run true (take 5 demo_atl) (booted 0) with Some (M, _) => M | None => booted 0 end.

Definition demo_closed : manager * list output :=
  match atl_step true (AtlClosed LOC_AGPS_TYPE_SUPL) demo_releasing with
  | Some x => x
  | None => (demo_releasing, [])
  end.

Definition nif_or_new (n : nif) (M : manager) : agps_sm :=
  match get_nif n M with Some m => m | None => new_sm 0 0 end.

Lemma demo_releasing_ok : complete demo_releasing ∧ manager_ok demo_releasing.
Proof.
  destruct (booted_ok 0) as [Hc Hok].
  pose proof (atl_run_ok true (take 5 demo_atl) (booted 0) Hok) as H. unfold demo_releasing.
  destruct (atl_run true (take 5 demo_atl) (booted 0)) as [[M' o]|]; [|done].
  destruct H as (_ & Hsame & ?); [apply atl_fresh_runb_ok; vm_compute; reflexivity|].
  split; [|done]. intros n. by apply Hsame, Hc.
Qed.

(** A subscriber that a step of the AGPS manager takes out of a list is
    told in the same step that its connection was closed or not opened. *)
Theorem agps_nobody_dropped_silently pdn op M M' o n m m' h :
  complete M → manager_ok M → atl_fresh op M →
  atl_step pdn op M = Some (M', o) →
  get_nif n M = Some m → get_nif n M' = Some m' →
  h ∈ handles m → h ∉ handles m' → told_gone h o.
Proof.
  intros Hc Hok Hf Hs Hm Hm' Hin Hn.
  destruct (atl_step_ok pdn op M (complete_served op M Hc) Hok Hf) as (M1 & o1 & Hs1 & _ & _ & Hstep).
  rewrite Hs in Hs1. simplify_eq.
  destruct (Hstep n m m' Hm Hm') as [->|Hk]; [done|]. by apply (so_told _ _ _ Hk).
Qed.

Lemma agps_nobody_dropped_silently_witness : told_gone 7 (snd demo_closed).
Proof.
  apply (agps_nobody_dropped_silently true (AtlClosed LOC_AGPS_TYPE_SUPL) demo_releasing
    (fst demo_closed) (snd demo_closed) AGNSS (nif_or_new AGNSS demo_releasing)
    (nif_or_new AGNSS (fst demo_closed)) 7).
  - apply demo_releasing_ok.
  - apply demo_releasing_ok.
  - exact I.
  - vm_compute. reflexivity.
  - vm_compute. reflexivity.
  - vm_compute. reflexivity.
  - vm_compute. apply elem_of_cons. by left.
  - vm_compute. intros Hx. inversion Hx.
Defined.

(** A step of the AGPS manager asks the framework for a data connection
    exactly when its state machine enters PENDING, and asks to release it
    exactly when it enters RELEASING. *)
Theorem agps_data_connection_follows_state pdn op M M' o n m m' :
  complete M → manager_ok M → atl_fresh op M →
  atl_step pdn op M = Some (M', o) →
  get_nif n M = Some m → get_nif n M' = Some m' → m' ≠ m →
  (asks true o ↔ mState m' = AGPS_STATE_PENDING ∧ mState m ≠ AGPS_STATE_PENDING) ∧
  (asks false o ↔ mState m' = AGPS_STATE_RELEASING ∧ mState m ≠ AGPS_STATE_RELEASING).
Proof.
  intros Hc Hok Hf Hs Hm Hm' Hne.
  destruct (atl_step_ok pdn op M (complete_served op M Hc) Hok Hf) as (M1 & o1 & Hs1 & _ & _ & Hstep).
  rewrite Hs in Hs1. simplify_eq.
  destruct (Hstep n m m' Hm Hm') as [->|Hk]; [done|]. split; apply Hk.
Qed.

Lemma agps_data_connection_follows_state_witness :
  (asks true (snd demo_closed) ↔
     mState (nif_or_new AGNSS (fst demo_closed)) = AGPS_STATE_PENDING ∧
     mState (nif_or_new AGNSS demo_releasing) ≠ AGPS_STATE_PENDING) ∧
  (asks false (snd demo_closed) ↔
     mState (nif_or_new AGNSS (fst demo_closed)) = AGPS_STATE_RELEASING ∧
     mState (nif_or_new AGNSS demo_releasing) ≠ AGPS_STATE_RELEASING).
Proof.
  apply (agps_data_connection_follows_state true (AtlClosed LOC_AGPS_TYPE_SUPL) demo_releasing
    (fst demo_closed) (snd demo_closed) AGNSS).
  - apply demo_releasing_ok.
  - apply demo_releasing_ok.
  - exact I.
  - vm_compute. reflexivity.
  - vm_compute. reflexivity.
  - vm_compute. reflexivity.
  - vm_compute. discriminate.
Defined.

(** A grant in the PENDING state tells every active subscriber, once and
    in the order of the requests, that the connection is open, with the APN,
    its length and the bearer just reported, tells nobody else, and moves to
    ACQUIRED with the list unchanged. *)
Theorem agps_grant_reaches_active_subscribers ty apn bearer M m s :
  manager_ok M → get_nif (getAgpsStateMachine ty) M = Some m →
  mState m = AGPS_STATE_PENDING →
  apn = Some s → (Z.of_nat (String.length s) ≤ MAX_APN_LEN)%Z →
  ∃ M' m',
    reportAtlOpenSuccess ty apn (Z.of_nat (String.length s)) bearer M =
      Some (M', (λ x, AtlOpenStatus (mConnHandle (snd x)) true (Some s)
                        (Z.of_nat (String.length s)) bearer (mAgpsType m) (mApnTypeMask m))
                  <$> active_subs m) ∧
    get_nif (getAgpsStateMachine ty) M' = Some m' ∧
    mState m' = AGPS_STATE_ACQUIRED ∧ mSubscriberList m' = mSubscriberList m.
Proof.
  intros Hok Hm Hst -> Hlen. destruct (Hok _ _ Hm) as [Hh Hs].
  set (len := Z.of_nat (String.length s)) in *.
  change (reportAtlOpenSuccess ty (Some s) len bearer M)
    with (on_nif (getAgpsStateMachine ty) (exec (SmGranted (Some s) len bearer)) M).
  unfold on_nif. rewrite Hm. cbn [mbind option_bind]. rewrite granted_exec.
  assert (wrap_unsigned 32 len = len) as ->.
  { apply wrap_unsigned_small. unfold MAX_APN_LEN in Hlen. lia. }
  set (m1 := with_apn (Some s) len bearer m).
  assert (m1 = set_apn (Some s) len (setBearer bearer m)) as Em1.
  { unfold m1, with_apn. fold len. rewrite Z.eqb_refl.
    destruct (Z.ltb_spec MAX_APN_LEN len); [lia|done]. }
  destruct (granted_spec m1) as (m' & -> & Hl & Hst' & _ & _).
  { rewrite Em1. by apply (heap_ok_same m). }
  { rewrite Em1. exact Hs. }
  rewrite Em1 in *. simpl in *. rewrite Hst in *. simpl.
  exists (set_nif (getAgpsStateMachine ty) m' M), m'.
  split; [|by rewrite get_set_nif; destruct (getAgpsStateMachine ty)].
  reflexivity.
Qed.

Lemma agps_grant_reaches_active_subscribers_witness :
  let M := match atl_run true (take 2 demo_atl) (booted 0) with
           | Some (M, _) => M | None => booted 0 end in
  ∃ M' m',
    reportAtlOpenSuccess LOC_AGPS_TYPE_SUPL (Some "internet"%string)
      (Z.of_nat (String.length "internet")) 1 M =
      Some (M', (λ x, AtlOpenStatus (mConnHandle (snd x)) true (Some "internet"%string)
                        (Z.of_nat (String.length "internet")) 1
                        (mAgpsType (nif_or_new AGNSS M)) (mApnTypeMask (nif_or_new AGNSS M)))
                  <$> active_subs (nif_or_new AGNSS M)) ∧
    get_nif (getAgpsStateMachine LOC_AGPS_TYPE_SUPL) M' = Some m' ∧
    mState m' = AGPS_STATE_ACQUIRED ∧
    mSubscriberList m' = mSubscriberList (nif_or_new AGNSS M).
Proof.
  intros M. apply (agps_grant_reaches_active_subscribers LOC_AGPS_TYPE_SUPL (Some "internet"%string)
    1 M (nif_or_new AGNSS M) "internet").
  - destruct (booted_ok 0) as [Hc Hok].
    pose proof (atl_run_ok true (take 2 demo_atl) (booted 0) Hok) as Hr. unfold M.
    destruct (atl_run true (take 2 demo_atl) (booted 0)) as [[M' o]|]; [|done].
    apply Hr, atl_fresh_runb_ok. vm_compute. reflexivity.
  - vm_compute. reflexivity.
  - vm_compute. reflexivity.
  - reflexivity.
  - vm_compute. discriminate.
Defined.

(** The framework events are sent to a null state machine when none was
    created for their type, while requestATL answers such a request with a
    failure. *)
Theorem agps_missing_machine_crashes ty M :
  get_nif (getAgpsStateMachine ty) M = None →
  (∀ apn len b, reportAtlOpenSuccess ty apn len b M = None) ∧
  reportAtlOpenFailed ty M = None ∧ reportAtlClosed ty M = None ∧
  (∀ sp a h mask, requestATL true sp a h ty mask M =
     Some (M, [AtlOpenStatus h false None 0 AGPS_APN_BEARER_INVALID ty mask])).
Proof.
  intros Hn.
  unfold reportAtlOpenSuccess, reportAtlOpenFailed, reportAtlClosed, requestATL, on_nif.
  rewrite Hn. split_and!; try done. intros sp a h mask. simpl. by rewrite Hn.
Qed.

Lemma agps_missing_machine_crashes_witness :
  (∀ apn len b, reportAtlOpenSuccess LOC_AGPS_TYPE_SUPL apn len b new_manager = None) ∧
  reportAtlOpenFailed LOC_AGPS_TYPE_SUPL new_manager = None ∧
  reportAtlClosed LOC_AGPS_TYPE_SUPL new_manager = None ∧
  (∀ sp a h mask, requestATL true sp a h LOC_AGPS_TYPE_SUPL mask new_manager =
     Some (new_manager,
       [AtlOpenStatus h false None 0 AGPS_APN_BEARER_INVALID LOC_AGPS_TYPE_SUPL mask])).
Proof. apply agps_missing_machine_crashes. reflexivity. Defined.

(** A handle that has released its connection and requests one again
    while the release is under way is not added again: when the data call is
    closed it is told so and dropped, and no new connection is opened for it.
    *)
Theorem agps_rerequest_while_releasing_lost sp a h ty mask m s :
  heap_ok m → state_ok m → a ∉ addrs m → mState m = AGPS_STATE_RELEASING →
  (∃ p, (p, s) ∈ mSubscriberList m) → mConnHandle s = h → mIsInactive s = true →
  ∃ m1 m2 o, subscribe sp a h ty mask m = Some ((), m1, []) ∧
    processAgpsEvent 0 AGPS_EVENT_RELEASED m1 = Some ((), m2, o) ∧
    AtlCloseStatus h true ∈ o ∧ (h ∉ handles m2) ∧
    Forall (λ x, match x with AtlOpenStatus h' _ _ _ _ _ _ => h' ≠ h | _ => True end) o.
Proof.
  intros Hh Hs Hf Hst [p Hp] Hhs Hi.
  destruct (subscribe_spec sp a h ty mask m Hh Hs Hf) as (m1 & Hsub & Hl & Hst1 & Hh1 & Hs1).
  rewrite Hst in Hsub, Hst1.
  assert (h ∈ handles m) as Hin.
  { apply list_elem_of_fmap. exists (p, s). by rewrite <- Hhs. }
  unfold add_sub in Hl. rewrite decide_True in Hl by done.
  destruct (released_spec m1 Hh1 Hs1) as (m2 & o & Hrel & Hh2 & Hs2 & Hl2 & Ho & Hst2).
  rewrite Hst1 in *.
  assert (h ∈ (λ x, mConnHandle (snd x)) <$> inactive_subs m1) as Hin1.
  { apply list_elem_of_fmap. exists (p, s). split; [done|].
    apply list_elem_of_filter. rewrite Hl. simpl. by rewrite Hi. }
  assert (h ∉ handles m2) as Hout.
  { unfold handles. rewrite Hl2. intros Hx. apply list_elem_of_fmap in Hx as (y & Hy & Hx).
    apply list_elem_of_filter in Hx as [Hact Hx]. apply list_elem_of_fmap in Hin1 as (z & Hz & Hx').
    apply list_elem_of_filter in Hx' as [Hina Hx'].
    assert (y = z) as ->; [|done].
    apply list_elem_of_lookup in Hx as [i Hx]. apply list_elem_of_lookup in Hx' as [j Hx'].
    assert (i = j) as ->; [|congruence].
    eapply (NoDup_lookup (handles m1)); [apply Hh1|..].
    - unfold handles. rewrite list_lookup_fmap, Hx. simpl. reflexivity.
    - unfold handles. rewrite list_lookup_fmap, Hx'. simpl. congruence. }
  exists m1, m2, o. split_and!; [done|done| |done|]; subst o.
  - apply elem_of_app. left. apply list_elem_of_fmap in Hin1 as (z & -> & Hx).
    apply list_elem_of_bind. exists z. split; [simpl; set_solver|done].
  - apply Forall_forall. intros x Hx. apply elem_of_app in Hx as [Hx|Hx].
    + apply list_elem_of_bind in Hx as (y & Hx & _). simpl in Hx. set_solver.
    + case_bool_decide; [by apply elem_of_nil in Hx|].
      apply list_elem_of_singleton in Hx. by subst.
Qed.

Lemma agps_rerequest_while_releasing_lost_witness :
  let m := nif_or_new AGNSS demo_releasing in
  ∃ m1 m2 o, subscribe 1 32 7 LOC_AGPS_TYPE_SUPL 16 m = Some ((), m1, []) ∧
    processAgpsEvent 0 AGPS_EVENT_RELEASED m1 = Some ((), m2, o) ∧
    AtlCloseStatus 7 true ∈ o ∧ (7%Z ∉ handles m2) ∧
    Forall (λ x, match x with AtlOpenStatus h' _ _ _ _ _ _ => h' ≠ 7%Z | _ => True end) o.
Proof.
  intros m.
  assert (heap_ok m ∧ state_ok m) as [Hh Hs].
  { apply (proj2 demo_releasing_ok AGNSS). vm_compute. reflexivity. }
  apply (agps_rerequest_while_releasing_lost 1 32 7 LOC_AGPS_TYPE_SUPL 16 m
           (Subscriber 7 true true 16)).
  - exact Hh.
  - exact Hs.
  - apply (bool_decide_eq_true_1 _). vm_compute. reflexivity.
  - vm_compute. reflexivity.
  - exists 8%Z. vm_compute. apply elem_of_cons. by left.
  - reflexivity.
  - reflexivity.
Defined.

(** deleteSubscriber of an element of the list that is not the last one
    reads the subscriber again after deleting it; unsubscribing a subscriber
    that does not wait for the close is undefined behaviour. *)
Theorem agps_delete_reads_freed_object p s x l m :
  local m = None → mSubscriberList m = (p, s) :: x :: l →
  NoDup (addrs m) → mWaitForCloseComplete s = false →
  mState m ≠ AGPS_STATE_RELEASED →
  unsubscribe p m = None.
Proof.
  intros Hl Hm Hnd Hw Hst. unfold unsubscribe, mbind, agps_bind. simpl.
  unfold processAgpsEventUnsubscribe, mbind, agps_bind. simpl.
  assert (at_addr p (x :: l) = None) as Hna.
  { unfold addrs in Hnd. rewrite Hm in Hnd. simpl in Hnd. apply NoDup_cons in Hnd as [Hp _].
    clear -Hp. change (p ∉ fst <$> x :: l) in Hp.
    induction (x :: l) as [|[a t] k IH]; [done|]. simpl in *.
    rewrite decide_False by set_solver. apply IH. set_solver. }
  assert (deref p (set_current p m) = Some (s, set_current p m, [])) as Hdr.
  { apply deref_listed; [done|done|]. simpl. rewrite Hm. set_solver. }
  assert (drop_current p (set_current p m) = None) as Hd.
  { unfold drop_current, notifyEventToSubscriber, deleteSubscriber, mbind, agps_bind.
    rewrite Hdr, Hw, Hdr. simpl. rewrite Hm. simpl.
    unfold mbind, agps_bind. rewrite Hdr. unfold equals. rewrite bool_decide_eq_true_2 by done.
    simpl. unfold mbind, agps_bind, deref. simpl. rewrite Hl. simpl.
    simpl in Hna. by rewrite Hna. }
  destruct (mState m); try done; by rewrite Hd.
Qed.

Lemma agps_delete_reads_freed_object_witness :
  unsubscribe 8 (AgpsSm [(8, Subscriber 7 false false 16); (16, Subscriber 9 true false 16)]%Z
    0 AGPS_STATE_ACQUIRED 1 16 None 0 0 None) = None.
Proof.
  eapply (agps_delete_reads_freed_object 8 (Subscriber 7 false false 16)
            (16%Z, Subscriber 9 true false 16) []).
  - reflexivity.
  - reflexivity.
  - apply (bool_decide_eq_true_1 _). vm_compute. reflexivity.
  - reflexivity.
  - discriminate.
Defined.

Lemma granted_apn m m' o :
  heap_ok m → processAgpsEventGranted m = Some ((), m', o) →
  mAPN m' = mAPN m ∧ mAPNLen m' = mAPNLen m ∧ mBearer m' = mBearer m.
Proof.
  intros Hh. unfold processAgpsEventGranted, mbind, agps_bind. simpl.
  destruct (mState m); simpl; try (intros ?; by simplify_eq).
  assert (heap_ok (set_agps_state AGPS_STATE_ACQUIRED m)) as Hh' by (by apply (heap_ok_same m)).
  rewrite (notifyAll_spec _ _ _ _ Hh'). intros ?. by simplify_eq.
Qed.

(** After reportAtlOpenSuccess the stored APN is the reported one with
    its length, at most MAX_APN_LEN, or none with length 0, and none only if
    there was no APN, its length (as an unsigned int, so also a negative one)
    was over the limit, or it was not the string's length. *)
Theorem agps_apn_bounded ty apn apnLen bearer M m :
  manager_ok M → get_nif (getAgpsStateMachine ty) M = Some m →
  ∃ M' o m', reportAtlOpenSuccess ty apn apnLen bearer M = Some (M', o) ∧
    get_nif (getAgpsStateMachine ty) M' = Some m' ∧ mBearer m' = bearer ∧
    match mAPN m' with
    | None => mAPNLen m' = 0%Z ∧
        ∀ s, apn = Some s →
          (MAX_APN_LEN < wrap_unsigned 32 apnLen)%Z ∨
          Z.of_nat (String.length s) ≠ wrap_unsigned 32 apnLen
    | Some s => apn = Some s ∧ mAPNLen m' = Z.of_nat (String.length s) ∧
        (mAPNLen m' ≤ MAX_APN_LEN)%Z
    end.
Proof.
  intros Hok Hm. destruct (Hok _ _ Hm) as [Hh Hs].
  change (reportAtlOpenSuccess ty apn apnLen bearer M)
    with (on_nif (getAgpsStateMachine ty) (exec (SmGranted apn apnLen bearer)) M).
  unfold on_nif. rewrite Hm. cbn [mbind option_bind]. rewrite granted_exec.
  set (len := wrap_unsigned 32 apnLen). set (m1 := with_apn apn len bearer m).
  destruct (with_apn_same apn len bearer m) as (El & Est & Elc). fold m1 in El, Est, Elc.
  assert (heap_ok m1) as Hh1 by (by apply (heap_ok_same m)).
  destruct (granted_spec m1 Hh1) as (m' & Hg & _).
  { unfold state_ok, anyActiveSubscribers. by rewrite Est, El. }
  destruct (granted_apn _ _ _ Hh1 Hg) as (Ea & En & Eb). rewrite Hg.
  eexists _, _, m'. split; [reflexivity|]. rewrite get_set_nif, Ea, En, Eb.
  split; [by destruct (getAgpsStateMachine ty)|]. unfold m1, with_apn.
  destruct apn as [s|]; [|done].
  destruct (Z.ltb_spec MAX_APN_LEN len); simpl; [naive_solver|].
  destruct (Z.eqb_spec (Z.of_nat (String.length s)) len); simpl; [by subst|].
  naive_solver.
Qed.

Lemma agps_apn_bounded_witness :
  ∃ M' o m', reportAtlOpenSuccess LOC_AGPS_TYPE_SUPL (Some "abc"%string) (-1) 1 (booted 0) =
      Some (M', o) ∧
    get_nif (getAgpsStateMachine LOC_AGPS_TYPE_SUPL) M' = Some m' ∧ mBearer m' = 1%Z ∧
    match mAPN m' with
    | None => mAPNLen m' = 0%Z ∧
        ∀ s, Some "abc"%string = Some s →
          (MAX_APN_LEN < wrap_unsigned 32 (-1))%Z ∨
          Z.of_nat (String.length s) ≠ wrap_unsigned 32 (-1)
    | Some s => Some "abc"%string = Some s ∧ mAPNLen m' = Z.of_nat (String.length s) ∧
        (mAPNLen m' ≤ MAX_APN_LEN)%Z
    end.
Proof.
  apply (agps_apn_bounded LOC_AGPS_TYPE_SUPL (Some "abc"%string) (-1) 1 (booted 0)
           (new_sm LOC_AGPS_TYPE_SUPL 0)); [apply booted_ok|reflexivity].
Defined.
