(* ===== verification/LocHeap.v ===== *)
(** * [LocHeap]: the rank heap of the GNSS utilities

    Models [gps/utils/LocHeap.cpp] and [LocHeap.h]: a binary tree of container
    nodes that is ordered vertically by rank.  The nodes never move: [push] and
    [pop] exchange the data pointers of the nodes.  An object is identified by
    its address, [A]; what [LocRankable::ranks] answers is a parameter of the
    heap, with the laws of a strict weak order where a theorem needs them. *)
From Stdlib Require Sorted.
From S2P Require Import Prelude.

Class Rankable (A : Type) := { ranks : A → A → Z }.

Definition outRanks {A} `{Rankable A} (a b : A) : bool := (0 <? ranks a b)%Z.

(** [outRanks] is a strict weak order. *)
Class RankLaws (A : Type) `{Rankable A} := {
  outRanks_asym a b : outRanks a b = true → outRanks b a = false;
  outRanks_neg a b c : outRanks a b = false → outRanks b c = false → outRanks a c = false
}.

(** ** The tree *)

(** A container node: [mSize], [mLeft], [mRight] and [mData]; [Null] is the
    null pointer. *)
Inductive tree (A : Type) :=
  | Null
  | HNode (mSize : Z) (mLeft mRight : tree A) (mData : A).
Arguments Null {_}.
Arguments HNode {_} _ _ _ _.

Section Heap.
  Context {A : Type} `{EqDecision A} `{Rankable A}.

Definition is_null (t : tree A) : bool := match t with Null => true | _ => false end.
Definition tsize (t : tree A) : Z := match t with Null => 0 | HNode n _ _ _ => n end.
Definition data_of (t : tree A) : option A :=
  match t with Null => None | HNode _ _ _ x => Some x end.

(** [LocHeapNode(data)]. *)
Definition new_node (d : A) : tree A := HNode 1 Null Null d.

(** [LocHeapNode::push] of a new node with data [d]; the null tree is where
    [LocHeap::push] and the first two branches hang the node. *)
Fixpoint node_push (t : tree A) (d : A) : tree A :=
  match t with
  | Null => new_node d
  | HNode n l r x =>
      let '(x, d) := if outRanks d x then (d, x) else (x, d) in
      if is_null l then HNode (n + 1) (node_push l d) r x
      else if is_null r then HNode (n + 1) l (node_push r d) x
      else if (tsize l <=? tsize r)%Z then HNode (n + 1) (node_push l d) r x
      else HNode (n + 1) l (node_push r d) x
  end.

(** Which child replaces the top: [true] for the left one. *)
Definition take_left (l r : tree A) : bool :=
  match l, r with
  | Null, _ => false
  | _, Null => true
  | HNode _ _ _ a, HNode _ _ _ b => outRanks a b
  end.

(** [LocHeapNode::pop] of a tree whose top holds [d] by now: the data that
    leaves, at the leaf, and the tree. *)
Fixpoint pop_down (d : A) (t : tree A) : A * tree A :=
  match t with
  | Null => (d, Null)
  | HNode n l r _ =>
      if is_null l && is_null r then (d, Null)
      else if take_left l r then
        match l with
        | Null => (d, t)
        | HNode _ _ _ a =>
            let '(p, l') := pop_down d l in (p, HNode (n - 1) l' r a)
        end
      else
        match r with
        | Null => (d, t)
        | HNode _ _ _ b =>
            let '(p, r') := pop_down d r in (p, HNode (n - 1) l r' b)
        end
  end.

Definition node_pop (t : tree A) : option (A * tree A) :=
  match t with Null => None | HNode _ _ _ x => Some (pop_down x t) end.

(** [LocHeapNode::remove], by address. *)
Fixpoint node_remove (t : tree A) (d : A) : option (A * tree A) :=
  match t with
  | Null => None
  | HNode n l r x =>
      if decide (d = x) then node_pop t
      else if negb (outRanks d x) then
        match node_remove l d with
        | Some (p, l') => Some (p, HNode (n - 1) l' r x)
        | None =>
            match node_remove r d with
            | Some (p, r') => Some (p, HNode (n - 1) l r' x)
            | None => None
            end
        end
      else None
  end.

(** A child that outranks its parent. *)
Definition child_outranks (c : tree A) (x : A) : bool :=
  match data_of c with Some y => outRanks y x | None => false end.

Fixpoint checkNodes (t : tree A) : bool :=
  match t with
  | Null => true
  | HNode n l r x =>
      negb (child_outranks l x) && checkNodes l &&
      (negb (child_outranks r x) && checkNodes r) &&
      (n - tsize l - tsize r =? 1)%Z
  end.

(** ** [LocHeap] *)
Definition push (t : tree A) (d : A) : tree A := node_push t d.
Definition peek (t : tree A) : option A := data_of t.
Definition pop (t : tree A) : option A * tree A :=
  match node_pop t with Some (d, t') => (Some d, t') | None => (None, Null) end.
Definition remove (t : tree A) (d : A) : option A * tree A :=
  match node_remove t d with Some (p, t') => (Some p, t') | None => (None, t) end.
Definition checkTree (t : tree A) : bool := checkNodes t.
Definition getTreeSize (t : tree A) : Z := tsize t.

Fixpoint elems (t : tree A) : list A :=
  match t with Null => [] | HNode _ l r x => x :: elems l ++ elems r end.

(** ** Contents *)
Lemma node_push_elems t d : elems (node_push t d) ≡ₚ d :: elems t.
Proof.
  revert d. induction t as [|n l IHl r IHr x]; intros d; [done|]. simpl.
  destruct (outRanks d x); destruct (is_null l); [|destruct (is_null r);
    [|destruct (tsize l <=? tsize r)%Z]| |destruct (is_null r);
    [|destruct (tsize l <=? tsize r)%Z]]; simpl; rewrite ?IHl, ?IHr; simpl; solve_Permutation.
Qed.

(** The data that leaves is the one that was at the top. *)
Lemma pop_down_elems t d :
  fst (pop_down d t) = d ∧ elems (snd (pop_down d t)) ≡ₚ tail (elems t).
Proof.
  induction t as [|n l IHl r IHr x]; [done|]. cbn [pop_down elems tail].
  destruct l as [|nl ll lr a], r as [|nr rl rr b]; cbn [is_null andb]; try done.
  - cbn [take_left]. destruct (pop_down d (HNode nr rl rr b)) as [p t'].
    destruct IHr as [Hp Ht]. simpl in *. by rewrite Ht.
  - cbn [take_left]. destruct (pop_down d (HNode nl ll lr a)) as [p t'].
    destruct IHl as [Hp Ht]. simpl in *. by rewrite Ht.
  - cbn [take_left]. destruct (outRanks a b).
    + destruct (pop_down d (HNode nl ll lr a)) as [p t'].
      destruct IHl as [Hp Ht]. simpl in *. by rewrite Ht.
    + destruct (pop_down d (HNode nr rl rr b)) as [p t'].
      destruct IHr as [Hp Ht]. simpl in *. rewrite Ht. split; [done|]. solve_Permutation.
Qed.

Lemma node_pop_elems t d t' :
  node_pop t = Some (d, t') → data_of t = Some d ∧ elems t ≡ₚ d :: elems t'.
Proof.
  destruct t as [|n l r x]; [done|]. unfold node_pop.
  pose proof (pop_down_elems (HNode n l r x) x) as [H1 H2].
  destruct (pop_down x (HNode n l r x)) as [p q]. intros Hp. injection Hp as -> ->.
  cbn [fst snd elems tail] in *. subst d. by rewrite H2.
Qed.

Lemma node_remove_elems t d p t' :
  node_remove t d = Some (p, t') → p = d ∧ elems t ≡ₚ d :: elems t'.
Proof.
  revert p t'. induction t as [|n l IHl r IHr x]; intros p t'; [done|].
  cbn [node_remove]. case_decide as Hd.
  - intros Hp. destruct (node_pop_elems _ _ _ Hp) as [Hx Hp']. simpl in Hx. by simplify_eq.
  - destruct (outRanks d x); [done|]. simpl.
    destruct (node_remove l d) as [[pl l']|] eqn:Hl; [|destruct (node_remove r d) as [[pr r']|] eqn:Hr].
    + intros ?; simplify_eq. destruct (IHl _ _ eq_refl) as [-> Hp]. split; [done|].
      simpl. rewrite Hp. solve_Permutation.
    + intros ?; simplify_eq. destruct (IHr _ _ eq_refl) as [-> Hp]. split; [done|].
      simpl. rewrite Hp. solve_Permutation.
    + done.
Qed.

(** ** Order and sizes *)
Context `{!RankLaws A}.

Lemma outRanks_irrefl a : outRanks a a = false.
Proof. destruct (outRanks a a) eqn:E; [|done]. by rewrite <- E, (outRanks_asym a a E). Qed.

(** The root after a [push]. *)
Lemma node_push_root t d x :
  data_of t = Some x → data_of (node_push t d) = Some (if outRanks d x then d else x).
Proof.
  destruct t as [|n l r y]; [done|]. simpl. intros ?; simplify_eq.
  by destruct (outRanks d x); repeat case_match.
Qed.

Lemma node_push_size t d : tsize (node_push t d) = (tsize t + 1)%Z.
Proof.
  destruct t as [|n l r y]; [done|]. simpl. by destruct (outRanks d y); repeat case_match.
Qed.

(** A pushed subtree stays below a datum that both its root and the new datum
    stay below. *)
Lemma child_push t d x :
  child_outranks t x = false → outRanks d x = false → child_outranks (node_push t d) x = false.
Proof.
  destruct t as [|n l r y]; [done|]. unfold child_outranks at 2.
  rewrite (node_push_root _ _ y) by done. simpl. intros. by destruct (outRanks d y).
Qed.

(** Replacing the parent by one that outranks it. *)
Lemma child_raise t x d :
  child_outranks t x = false → outRanks d x = true → child_outranks t d = false.
Proof.
  destruct t as [|n l r y]; [done|]. unfold child_outranks. simpl. intros Hy Hd.
  eapply outRanks_neg; [exact Hy|]. by apply outRanks_asym.
Qed.

Lemma checkNodes_inv n l r x :
  checkNodes (HNode n l r x) = true ↔
  child_outranks l x = false ∧ checkNodes l = true ∧
  child_outranks r x = false ∧ checkNodes r = true ∧ n = (tsize l + tsize r + 1)%Z.
Proof.
  cbn [checkNodes]. rewrite !andb_true_iff, !negb_true_iff, Z.eqb_eq. intuition lia.
Qed.

Lemma node_push_check t d : checkNodes t = true → checkNodes (node_push t d) = true.
Proof.
  revert d. induction t as [|n l IHl r IHr x]; intros d; [done|].
  rewrite checkNodes_inv. intros (Hl & Cl & Hr & Cr & Hn). cbn [node_push].
  set (x' := if outRanks d x then d else x). set (d' := if outRanks d x then x else d).
  replace (if outRanks d x then (d, x) else (x, d)) with (x', d')
    by (unfold x', d'; by destruct (outRanks d x)).
  assert (child_outranks l x' = false ∧ child_outranks r x' = false ∧ outRanks d' x' = false)
    as (Hl' & Hr' & Hd').
  { unfold x', d'. destruct (outRanks d x) eqn:E.
    - split_and!; eauto using child_raise, outRanks_asym.
    - done. }
  destruct (is_null l); [|destruct (is_null r); [|destruct (tsize l <=? tsize r)%Z]];
    rewrite checkNodes_inv, node_push_size; split_and!; auto using child_push; lia.
Qed.

Lemma checkNodes_leaf n x : checkNodes (HNode n Null Null x) = true → n = 1%Z.
Proof. rewrite checkNodes_inv. simpl. lia. Qed.

Lemma pop_down_check t d :
  checkNodes t = true →
  checkNodes (snd (pop_down d t)) = true ∧
  (t ≠ Null → tsize (snd (pop_down d t)) = (tsize t - 1)%Z) ∧
  (∀ x, data_of t = Some x → child_outranks (snd (pop_down d t)) x = false).
Proof.
  induction t as [|n l IHl r IHr x]; intros C; [done|].
  pose proof C as C'. rewrite checkNodes_inv in C'. destruct C' as (Hl & Cl & Hr & Cr & Hn).
  specialize (IHl Cl). specialize (IHr Cr). cbn [pop_down].
  destruct l as [|nl ll lr a], r as [|nr rl rr b]; cbn [is_null andb take_left].
  - simpl. apply checkNodes_leaf in C. split_and!; [done|lia|done].
  - destruct (pop_down d (HNode nr rl rr b)) as [p t']. simpl in IHr.
    destruct IHr as (Ct & St & Rt). specialize (St ltac:(done)). specialize (Rt b eq_refl).
    cbn [snd]. rewrite checkNodes_inv. simpl in *. split_and!; try done; try lia.
    intros y ?; by simplify_eq.
  - destruct (pop_down d (HNode nl ll lr a)) as [p t']. simpl in IHl.
    destruct IHl as (Ct & St & Rt). specialize (St ltac:(done)). specialize (Rt a eq_refl).
    cbn [snd]. rewrite checkNodes_inv. simpl in *. split_and!; try done; try lia.
    intros y ?; by simplify_eq.
  - destruct (outRanks a b) eqn:Eab.
    + destruct (pop_down d (HNode nl ll lr a)) as [p t']. simpl in IHl.
      destruct IHl as (Ct & St & Rt). specialize (St ltac:(done)). specialize (Rt a eq_refl).
      cbn [snd]. rewrite checkNodes_inv. simpl in *. split_and!; try done; try lia.
      * unfold child_outranks. simpl. by apply outRanks_asym.
      * intros y ?; by simplify_eq.
    + destruct (pop_down d (HNode nr rl rr b)) as [p t']. simpl in IHr.
      destruct IHr as (Ct & St & Rt). specialize (St ltac:(done)). specialize (Rt b eq_refl).
      cbn [snd]. rewrite checkNodes_inv. simpl in *. split_and!; try done; try lia.
      intros y ?; by simplify_eq.
Qed.

Lemma node_pop_check t d t' :
  checkNodes t = true → node_pop t = Some (d, t') →
  checkNodes t' = true ∧ tsize t' = (tsize t - 1)%Z ∧
  (∀ x, data_of t = Some x → child_outranks t' x = false).
Proof.
  destruct t as [|n l r x]; [done|]. unfold node_pop. intros C Hp.
  pose proof (pop_down_check _ x C) as (C' & S' & R').
  destruct (pop_down x (HNode n l r x)) as [p q]. injection Hp as -> ->.
  split_and!; auto.
Qed.

(** Below a tree whose root does not outrank [x], nothing does. *)
Lemma child_trans (t : tree A) y x :
  child_outranks t y = false → outRanks y x = false → child_outranks t x = false.
Proof.
  destruct t as [|n l r z]; [done|]. unfold child_outranks. simpl.
  intros. by eapply outRanks_neg.
Qed.

Lemma node_remove_check t d p t' :
  checkNodes t = true → node_remove t d = Some (p, t') →
  checkNodes t' = true ∧ tsize t' = (tsize t - 1)%Z ∧
  (∀ x, data_of t = Some x → child_outranks t' x = false).
Proof.
  revert p t'. induction t as [|n l IHl r IHr x]; intros p t' C; [done|].
  cbn [node_remove]. case_decide; [by apply node_pop_check|].
  destruct (outRanks d x); [done|]. simpl.
  rewrite checkNodes_inv in C. destruct C as (Hl & Cl & Hr & Cr & Hn).
  assert (outRanks x x = false) as Hxx by apply outRanks_irrefl.
  assert (∀ c c' : tree A, child_outranks c x = false →
            (∀ y, data_of c = Some y → child_outranks c' y = false) → c ≠ Null →
            child_outranks c' x = false) as Hlow.
  { intros [|m cl cr y] c' Hc Hy Hne; [done|]. eapply child_trans; [by apply Hy|exact Hc]. }
  destruct (node_remove l d) as [[pl l']|] eqn:El; [|destruct (node_remove r d) as [[pr r']|] eqn:Er].
  - intros ?; simplify_eq. destruct (IHl _ _ Cl eq_refl) as (C' & S' & R').
    rewrite checkNodes_inv. simpl. split_and!; auto; try lia.
    + apply (Hlow l); auto. by destruct l.
    + intros y ?; by simplify_eq.
  - intros ?; simplify_eq. destruct (IHr _ _ Cr eq_refl) as (C' & S' & R').
    rewrite checkNodes_inv. simpl. split_and!; auto; try lia.
    + apply (Hlow r); auto. by destruct r.
    + intros y ?; by simplify_eq.
  - done.
Qed.

(** The top is not outranked by anything in the heap. *)
Lemma root_max t x y :
  checkNodes t = true → data_of t = Some x → y ∈ elems t → outRanks y x = false.
Proof.
  revert x. induction t as [|n l IHl r IHr z]; intros x C Hx Hy; [done|].
  simpl in Hx. simplify_eq. rewrite checkNodes_inv in C. destruct C as (Hl & Cl & Hr & Cr & _).
  simpl in Hy. rewrite elem_of_cons, elem_of_app in Hy.
  destruct Hy as [->|[Hy|Hy]]; [apply outRanks_irrefl|..].
  - destruct l as [|nl ll lr a]; [by apply elem_of_nil in Hy|].
    eapply outRanks_neg; [by apply (IHl a)|exact Hl].
  - destruct r as [|nr rl rr b]; [by apply elem_of_nil in Hy|].
    eapply outRanks_neg; [by apply (IHr b)|exact Hr].
Qed.

(** The pruned search misses nothing. *)
Lemma node_remove_complete t d :
  checkNodes t = true → d ∈ elems t → is_Some (node_remove t d).
Proof.
  induction t as [|n l IHl r IHr x]; intros C Hd; [by apply elem_of_nil in Hd|].
  assert (outRanks d x = false) as Hdx by (by eapply root_max).
  rewrite checkNodes_inv in C. destruct C as (_ & Cl & _ & Cr & _).
  cbn [node_remove]. case_decide; [simpl; eauto|]. rewrite Hdx. simpl.
  simpl in Hd. rewrite elem_of_cons, elem_of_app in Hd.
  destruct (node_remove l d) as [[pl l']|] eqn:El; [eauto|].
  destruct Hd as [?|[Hd|Hd]]; [done|..].
  - destruct (IHl Cl Hd) as [? ?]. done.
  - destruct (IHr Cr Hd) as [[pr r'] ->]. eauto.
Qed.

Lemma tsize_length t : checkNodes t = true → tsize t = Z.of_nat (length (elems t)).
Proof.
  induction t as [|n l IHl r IHr x]; intros C; [done|].
  rewrite checkNodes_inv in C. destruct C as (_ & Cl & _ & Cr & ->).
  simpl. rewrite length_app, IHl, IHr by done. lia.
Qed.

(** ** Draining *)
Fixpoint push_all (l : list A) (t : tree A) : tree A :=
  match l with [] => t | d :: l => push_all l (push t d) end.

Fixpoint drain (fuel : nat) (t : tree A) : list A :=
  match fuel with
  | O => []
  | S fuel => match pop t with
              | (Some d, t') => d :: drain fuel t'
              | (None, _) => []
              end
  end.

Lemma push_all_ok l t :
  checkNodes t = true →
  checkNodes (push_all l t) = true ∧ elems (push_all l t) ≡ₚ l ++ elems t.
Proof.
  revert t. induction l as [|d l IH]; intros t C; [done|]. simpl.
  destruct (IH (push t d)) as [C' P']; [by apply node_push_check|].
  split; [done|]. rewrite P'. unfold push. rewrite node_push_elems. solve_Permutation.
Qed.

(** Nothing later in the list outranks anything earlier. *)
Definition by_rank : list A → Prop := Sorted.StronglySorted (λ a b, outRanks b a = false).

Lemma drain_ok fuel t :
  checkNodes t = true → (length (elems t) ≤ fuel)%nat →
  drain fuel t ≡ₚ elems t ∧ by_rank (drain fuel t).
Proof.
  revert t. induction fuel as [|fuel IH]; intros t C Hf; simpl.
  { destruct t; [split; [done|constructor]|simpl in Hf; lia]. }
  unfold pop. destruct (node_pop t) as [[d t']|] eqn:Ep.
  - destruct (node_pop_elems _ _ _ Ep) as [Hd Hp].
    destruct (node_pop_check _ _ _ C Ep) as (C' & _).
    rewrite Hp in Hf. simpl in Hf. destruct (IH t' C') as [Hp' Hs']; [lia|].
    split; [by rewrite Hp, Hp'|]. constructor; [done|].
    apply Forall_forall. intros y Hy. eapply root_max; [exact C|exact Hd|].
    rewrite Hp. apply elem_of_cons. right. by rewrite <- Hp'.
  - destruct t; [split; [done|constructor]|done].
Qed.
End Heap.

(** ** Theorems *)
Section HeapTheorems.
  Context {A : Type} `{EqDecision A} `{RankLaws A}.

(** push, pop and remove keep the invariant that checkTree tests,
    vertical rank order and subtree sizes, and getTreeSize is the number of
    elements. *)
Theorem heap_operations_keep_checkTree (t : tree A) (d : A) :
  checkTree t = true →
  checkTree (push t d) = true ∧ getTreeSize (push t d) = (getTreeSize t + 1)%Z ∧
  checkTree (snd (pop t)) = true ∧ checkTree (snd (remove t d)) = true ∧
  getTreeSize t = Z.of_nat (length (elems t)).
Proof.
  unfold checkTree, getTreeSize, push, pop, remove. intros C.
  split_and!.
  - by apply node_push_check.
  - apply node_push_size.
  - destruct (node_pop t) as [[p t']|] eqn:E; [|done]. by eapply node_pop_check.
  - destruct (node_remove t d) as [[p t']|] eqn:E; [|done]. by eapply node_remove_check.
  - by apply tsize_length.
Qed.

(** C34: Pushing objects on an empty LocHeap and popping them all gives the
    same objects ordered by rank, and peek is the first of them. *)
Theorem heap_sorts_by_rank (l : list A) :
  let t := push_all l Null in
  drain (length l) t ≡ₚ l ∧ by_rank (drain (length l) t) ∧
  peek t = head (drain (length l) t).
Proof.
  intros t. destruct (push_all_ok l Null) as [C P]; [done|]. rewrite app_nil_r in P.
  destruct (drain_ok (length l) t C) as [Hp Hs]; [unfold t; by rewrite P|].
  split_and!; [by rewrite Hp|done|].
  destruct l as [|d l]; [done|].
  assert (is_Some (node_pop t)) as [[x t'] E].
  { destruct t eqn:Et; [|simpl; eauto]. unfold t in Et. rewrite Et in P. simpl in P.
    by apply Permutation_nil_cons in P. }
  destruct (node_pop_elems _ _ _ E) as [Hx _]. simpl. unfold pop. rewrite E. done.
Qed.

(** remove takes exactly the given object out of the heap whenever it is
    in it, although the search skips subtrees by rank, and changes nothing
    otherwise. *)
Theorem heap_remove_by_address (t : tree A) (d : A) :
  checkTree t = true →
  (d ∈ elems t → ∃ t', remove t d = (Some d, t') ∧ elems t ≡ₚ d :: elems t') ∧
  (d ∉ elems t → remove t d = (None, t)).
Proof.
  intros C. unfold remove. split.
  - intros Hd. destruct (node_remove_complete t d C Hd) as [[p t'] E]. rewrite E.
    destruct (node_remove_elems _ _ _ _ E) as [-> Hp]. eauto.
  - intros Hd. destruct (node_remove t d) as [[p t']|] eqn:E; [|done].
    destruct (node_remove_elems _ _ _ _ E) as [-> Hp]. exfalso. apply Hd. rewrite Hp. set_solver.
Qed.
End HeapTheorems.

(** ** Witnesses: integers ranked by size *)
Definition z_rank : Rankable Z := {| ranks a b := (a - b)%Z |}.

Lemma z_rank_laws : @RankLaws Z z_rank.
Proof.
  split; unfold outRanks; simpl; intros *; rewrite ?Z.ltb_lt, ?Z.ltb_ge; lia.
Qed.

Definition demo_heap : tree Z := @push_all Z z_rank [3; 9; 4; 1; 9]%Z Null.

Lemma heap_operations_keep_checkTree_witness :
  @checkTree Z z_rank (@push Z z_rank demo_heap 7%Z) = true ∧
  getTreeSize (@push Z z_rank demo_heap 7%Z) = (getTreeSize demo_heap + 1)%Z ∧
  @checkTree Z z_rank (snd (@pop Z z_rank demo_heap)) = true ∧
  @checkTree Z z_rank (snd (@remove Z _ z_rank demo_heap 7%Z)) = true ∧
  getTreeSize demo_heap = Z.of_nat (length (elems demo_heap)).
Proof. apply (@heap_operations_keep_checkTree Z _ z_rank z_rank_laws). reflexivity. Defined.

Lemma heap_sorts_by_rank_witness :
  let t := demo_heap in
  @drain Z z_rank 5 t ≡ₚ [3; 9; 4; 1; 9]%Z ∧ @by_rank Z z_rank (@drain Z z_rank 5 t) ∧
  peek t = head (@drain Z z_rank 5 t).
Proof. apply (@heap_sorts_by_rank Z z_rank z_rank_laws [3; 9; 4; 1; 9]%Z). Defined.

Lemma heap_remove_by_address_witness :
  (4%Z ∈ elems demo_heap →
     ∃ t', @remove Z _ z_rank demo_heap 4%Z = (Some 4%Z, t') ∧ elems demo_heap ≡ₚ 4%Z :: elems t') ∧
  (4%Z ∉ elems demo_heap → @remove Z _ z_rank demo_heap 4%Z = (None, demo_heap)).
Proof. apply (@heap_remove_by_address Z _ z_rank z_rank_laws). reflexivity. Defined.
