(* ===== verification/LocTimer.v ===== *)
(** * [LocTimer]: timers of the GNSS utilities

    Models the container of [gps/utils/LocTimer.cpp]: the heap of pending
    timers, the kernel timer that is armed with the soonest of them, and the
    messages that the clients and the polling thread send to the thread that
    owns the heap.  A step is a message handled to its end, or an action of a
    client or of the polling thread. *)
From S2P Require Import Prelude LocHeap.

(** ** Timers *)

(** The times the clock gives: seconds of an [int], nanoseconds of a second. *)
Definition time_ok (sec nsec : Z) : Prop := (0 ≤ sec < 2 ^ 31 ∧ 0 ≤ nsec < 10 ^ 9)%Z.

#[export] Instance time_ok_dec sec nsec : Decision (time_ok sec nsec).
Proof. unfold time_ok. apply _. Defined.

(** [LocTimerDelegate]: its address and [mFutureTime]. *)
Record timer := Timer {
  t_addr : Z;
  tv_sec : Z;
  tv_nsec : Z;
  t_ok : Is_true (bool_decide (time_ok tv_sec tv_nsec))
}.

#[export] Instance timer_eq_dec : EqDecision timer.
Proof.
  intros [a s n Hn] [a' s' n' Hn'].
  destruct (decide (a = a')) as [->|]; [|right; congruence].
  destruct (decide (s = s')) as [->|]; [|right; congruence].
  destruct (decide (n = n')) as [->|]; [|right; congruence].
  left. f_equal. apply proof_irrel.
Defined.

(** [LocTimerDelegate::ranks]: the differences are stored in an [int]. *)
Definition timer_ranks (this rankable : timer) : Z :=
  let rank := wrap_signed 32 (tv_sec rankable - tv_sec this) in
  if (rank =? 0)%Z then wrap_signed 32 (tv_nsec rankable - tv_nsec this) else rank.

#[export] Instance timer_rankable : Rankable timer := {| ranks := timer_ranks |}.

Definition time_lt (a b : timer) : Prop :=
  (tv_sec a < tv_sec b ∨ tv_sec a = tv_sec b ∧ tv_nsec a < tv_nsec b)%Z.

Lemma timer_outRanks a b : outRanks a b = true ↔ time_lt a b.
Proof.
  destruct a as [aa sa na Ha], b as [ab sb nb Hb]. unfold outRanks, time_lt. simpl.
  pose proof (bool_decide_unpack _ Ha) as Va. pose proof (bool_decide_unpack _ Hb) as Vb.
  unfold time_ok in Va, Vb. unfold timer_ranks. simpl.
  assert (2 ^ 31 = 2147483648)%Z as E31 by done. assert (10 ^ 9 = 1000000000)%Z as E9 by done.
  rewrite !wrap_signed_small by (change (32 - 1)%Z with 31%Z; lia).
  rewrite Z.ltb_lt. destruct (Z.eqb_spec (sb - sa) 0); lia.
Qed.

#[export] Instance timer_rank_laws : RankLaws timer.
Proof.
  assert (∀ a b : timer, outRanks a b = false ↔ ¬ time_lt a b) as Hf.
  { intros a b. rewrite <- timer_outRanks. by destruct (outRanks a b). }
  split; intros *; rewrite ?timer_outRanks, ?Hf; unfold time_lt; lia.
Qed.

(** ** The container *)
Inductive msg := MsgTimerPush (t : timer) | MsgTimerRemove (t : timer) | MsgTimerExpire.

(** [stopped]: the timers whose [mClient] is null; [armed]: the time of the
    kernel timer; [polled]: whether it is in the poll set; [fired]: the
    callbacks made. *)
Record container := Container {
  mTree : tree timer;
  armed : option timer;
  polled : bool;
  msgs : list msg;
  stopped : list timer;
  fired : list timer
}.

Definition init_container : container := Container Null None false [] [] [].

Definition set_tree (t : tree timer) (c : container) : container :=
  Container t (armed c) (polled c) (msgs c) (stopped c) (fired c).
Definition arm (a : option timer) (p : bool) (c : container) : container :=
  Container (mTree c) a p (msgs c) (stopped c) (fired c).
Definition send (m : msg) (c : container) : container :=
  Container (mTree c) (armed c) (polled c) (msgs c ++ [m]) (stopped c) (fired c).

Definition getSoonestTimer (c : container) : option timer := peek (mTree c).

Definition updateSoonestTime (priorTop : option timer) (c : container) : container :=
  let curTop := getSoonestTimer c in
  if decide (curTop = priorTop) then c
  else match curTop with
       | None => arm None false c
       | Some cur =>
           if (match priorTop with None => true | Some prior => outRanks cur prior end)
           then arm (Some cur) true c
           else c
       end.

(** [MsgTimerPush::proc] and [MsgTimerRemove::proc]. *)
Definition proc_push (t : timer) (c : container) : container :=
  let priorTop := getSoonestTimer c in
  updateSoonestTime priorTop (set_tree (push (mTree c) t) c).

Definition proc_remove (t : timer) (c : container) : container :=
  let priorTop := getSoonestTimer c in
  let '(removed, tree') := remove (mTree c) t in
  let c := set_tree tree' c in
  if decide (priorTop = removed) then updateSoonestTime None c else c.

(** [LocTimer::stop]: once per timer. *)
Definition stop (t : timer) (c : container) : bool * container :=
  if decide (t ∈ stopped c) then (false, c)
  else (true, send (MsgTimerRemove t)
                (Container (mTree c) (armed c) (polled c) (msgs c) (t :: stopped c) (fired c))).

(** [LocTimerDelegate::expire]. *)
Definition expire_timer (t : timer) (c : container) : container :=
  let '(success, c) := stop t c in
  if (success : bool) then
    Container (mTree c) (armed c) (polled c) (msgs c) (stopped c) (fired c ++ [t])
  else c.

Definition popIfOutRanks (now : timer) (c : container) : option timer * container :=
  match peek (mTree c) with
  | None => (None, c)
  | Some top =>
      if negb (outRanks now top) then
        let '(d, tree') := pop (mTree c) in (d, set_tree tree' c)
      else (None, c)
  end.

(** The loop of [MsgTimerExpire::proc], from a popped timer on; the timers
    popped are returned. *)
Fixpoint expire_loop (fuel : nat) (now : timer) (t : option timer) (c : container) :
    list timer * container :=
  match fuel, t with
  | S fuel, Some t =>
      let c := expire_timer t c in
      let '(next, c) := popIfOutRanks now c in
      let '(l, c) := expire_loop fuel now next c in (t :: l, c)
  | _, _ => ([], c)
  end.

Definition proc_expire (now : timer) (c : container) : list timer * container :=
  let fuel := S (length (elems (mTree c))) in
  let '(t, tree') := pop (mTree c) in
  let '(l, c) := expire_loop fuel now t (set_tree tree' c) in
  (l, updateSoonestTime None c).

(** ** Steps *)
Inductive tm_step : container → container → Prop :=
  | step_start t c : tm_step c (send (MsgTimerPush t) c)
  | step_stop t c : tm_step c (snd (stop t c))
  (** [TimerRunnable::run] and [LocTimerContainer::expire]: the kernel timer
      has run out, the time is [now]. *)
  | step_kernel now c a : armed c = Some a → polled c = true → outRanks now a = false →
      tm_step c (send MsgTimerExpire (arm None false c))
  | step_push t l c : msgs c = MsgTimerPush t :: l →
      tm_step c (proc_push t (Container (mTree c) (armed c) (polled c) l (stopped c) (fired c)))
  | step_remove t l c : msgs c = MsgTimerRemove t :: l →
      tm_step c (proc_remove t (Container (mTree c) (armed c) (polled c) l (stopped c) (fired c)))
  | step_expire now l c : msgs c = MsgTimerExpire :: l →
      tm_step c
        (snd (proc_expire now (Container (mTree c) (armed c) (polled c) l (stopped c) (fired c)))).

(** ** No wake-up is lost *)

(** The kernel timer is armed with the soonest timer, or the message that will
    look at the heap is on its way. *)
Definition wakeup_ok (c : container) : Prop :=
  match getSoonestTimer c with
  | None => True
  | Some top => armed c = Some top ∧ polled c = true ∨ MsgTimerExpire ∈ msgs c
  end.

Definition container_ok (c : container) : Prop := checkTree (mTree c) = true ∧ wakeup_ok c.

Lemma updateSoonestTime_same p c :
  mTree (updateSoonestTime p c) = mTree c ∧ msgs (updateSoonestTime p c) = msgs c ∧
  stopped (updateSoonestTime p c) = stopped c ∧ fired (updateSoonestTime p c) = fired c.
Proof. unfold updateSoonestTime. by repeat case_match. Qed.

Lemma updateSoonestTime_None c : wakeup_ok (updateSoonestTime None c).
Proof.
  unfold wakeup_ok, getSoonestTimer.
  destruct (updateSoonestTime_same None c) as (-> & -> & _).
  unfold updateSoonestTime, getSoonestTimer.
  destruct (peek (mTree c)) as [top|]; [|done]. rewrite decide_False by done. by left.
Qed.

Lemma proc_push_ok t c : container_ok c → container_ok (proc_push t c).
Proof.
  intros [C Hw]. unfold container_ok, proc_push.
  destruct (updateSoonestTime_same (getSoonestTimer c) (set_tree (push (mTree c) t) c))
    as (-> & _).
  split; [by apply node_push_check|].
  unfold wakeup_ok, getSoonestTimer in *.
  destruct (updateSoonestTime_same (peek (mTree c)) (set_tree (push (mTree c) t) c))
    as (-> & -> & _). simpl.
  unfold updateSoonestTime, getSoonestTimer. simpl.
  destruct (mTree c) as [|n l r x] eqn:Et; simpl in Hw.
  - simpl. by left.
  - assert (peek (push (HNode n l r x) t) = Some (if outRanks t x then t else x)) as ->
      by (by apply node_push_root).
    simpl. destruct (outRanks t x) eqn:E.
    + rewrite decide_False by (intros ?; simplify_eq; by rewrite outRanks_irrefl in E).
      rewrite E. by left.
    + rewrite decide_True by done. done.
Qed.

Lemma node_remove_root (t : tree timer) d p t' x :
  node_remove t d = Some (p, t') → data_of t = Some x → d ≠ x → data_of t' = Some x.
Proof.
  destruct t as [|n l r y]; [done|]. simpl. intros Hr ? Hne. simplify_eq.
  rewrite decide_False in Hr by done. destruct (negb _); [|done].
  destruct (node_remove l d) as [[]|]; [by simplify_eq|].
  destruct (node_remove r d) as [[]|]; by simplify_eq.
Qed.

Lemma proc_remove_ok t c : container_ok c → container_ok (proc_remove t c).
Proof.
  intros [C Hw]. unfold proc_remove, remove, getSoonestTimer.
  destruct (node_remove (mTree c) t) as [[p t']|] eqn:Er.
  - destruct (node_remove_elems _ _ _ _ Er) as [-> _].
    destruct (node_remove_check _ _ _ _ C Er) as (C' & _).
    case_decide as Hp.
    + split; [|apply updateSoonestTime_None].
      by destruct (updateSoonestTime_same None (set_tree t' c)) as (-> & _).
    + split; [done|]. unfold wakeup_ok, getSoonestTimer in *. simpl.
      unfold peek in *. destruct (data_of (mTree c)) as [x|] eqn:Ex.
      * rewrite (node_remove_root _ _ _ _ _ Er Ex) by congruence. done.
      * destruct (mTree c); done.
  - case_decide as Hp.
    + split; [|apply updateSoonestTime_None].
      by destruct (updateSoonestTime_same None (set_tree (mTree c) c)) as (-> & _).
    + done.
Qed.

Lemma expire_timer_tree t c : mTree (expire_timer t c) = mTree c.
Proof. unfold expire_timer, stop. by repeat case_decide. Qed.

Lemma pop_check (t : tree timer) : checkTree t = true → checkTree (snd (pop t)) = true.
Proof.
  unfold pop, checkTree. intros C. destruct (node_pop t) as [[d t']|] eqn:E; [|done].
  by eapply node_pop_check.
Qed.

Lemma expire_loop_check fuel now t c :
  checkTree (mTree c) = true → checkTree (mTree (snd (expire_loop fuel now t c))) = true.
Proof.
  revert t c. induction fuel as [|fuel IH]; intros [t|] c C; simpl; try done.
  unfold popIfOutRanks. rewrite expire_timer_tree.
  destruct (peek (mTree c)) as [top|]; [destruct (negb _)|].
  - pose proof (pop_check _ C) as C'. destruct (pop (mTree c)) as [d t'].
    specialize (IH d (set_tree t' (expire_timer t c)) C'). by destruct (expire_loop _ _ _ _).
  - specialize (IH None (expire_timer t c)). rewrite expire_timer_tree in IH.
    specialize (IH C). by destruct (expire_loop _ _ _ _).
  - specialize (IH None (expire_timer t c)). rewrite expire_timer_tree in IH.
    specialize (IH C). by destruct (expire_loop _ _ _ _).
Qed.

Lemma proc_expire_ok now c : checkTree (mTree c) = true → container_ok (snd (proc_expire now c)).
Proof.
  intros C. unfold proc_expire. pose proof (pop_check _ C) as C'.
  destruct (pop (mTree c)) as [t t'].
  pose proof (expire_loop_check (S (length (elems (mTree c)))) now t (set_tree t' c) C') as C2.
  destruct (expire_loop _ _ _ _) as [l c2]. simpl in *.
  split; [|apply updateSoonestTime_None].
  by destruct (updateSoonestTime_same None c2) as (-> & _).
Qed.

(** A message other than [MsgTimerExpire] leaves the queue. *)
Lemma drop_head m l c :
  m ≠ MsgTimerExpire → container_ok c → msgs c = m :: l →
  container_ok (Container (mTree c) (armed c) (polled c) l (stopped c) (fired c)).
Proof.
  intros Hm [C Hw] Hl. split; [done|]. unfold wakeup_ok, getSoonestTimer in *. simpl.
  destruct (peek (mTree c)); [|done]. destruct Hw as [Hw|Hw]; [by left|right].
  rewrite Hl in Hw. set_solver.
Qed.

Lemma send_ok m c : container_ok c → container_ok (send m c).
Proof.
  intros [C Hw]. split; [done|]. unfold wakeup_ok, getSoonestTimer in *. simpl.
  destruct (peek (mTree c)); [|done]. set_solver.
Qed.

Lemma tm_step_ok c c' : tm_step c c' → container_ok c → container_ok c'.
Proof.
  intros Hs Hok. destruct Hs as [t c|t c|now c a Ha Hp Hn|t l c Hm|t l c Hm|now l c Hm].
  - by apply send_ok.
  - unfold stop. case_decide; [done|]. by apply send_ok.
  - destruct Hok as [C _]. split; [done|]. unfold wakeup_ok, getSoonestTimer. simpl.
    destruct (peek (mTree c)); [|done]. set_solver.
  - apply proc_push_ok. by apply (drop_head (MsgTimerPush t)).
  - apply proc_remove_ok. by apply (drop_head (MsgTimerRemove t)).
  - apply proc_expire_ok. apply Hok.
Qed.

(** ** What an expiry pops *)
Lemma pop_cases (t : tree timer) :
  match peek t with
  | None => pop t = (None, Null)
  | Some d => ∃ t', pop t = (Some d, t') ∧ elems t ≡ₚ d :: elems t'
  end.
Proof.
  unfold pop, peek. destruct (node_pop t) as [[d t']|] eqn:E.
  - destruct (node_pop_elems _ _ _ E) as [-> Hp]. eauto.
  - by destruct t.
Qed.

(** From a popped timer on: the rest of what is due leaves, in rank order. *)
Lemma expire_loop_spec fuel now t c :
  checkTree (mTree c) = true → (length (elems (mTree c)) < fuel)%nat →
  (∀ y, y ∈ elems (mTree c) → outRanks y t = false) →
  ∃ due c', expire_loop fuel now (Some t) c = (t :: due, c') ∧
    due ++ elems (mTree c') ≡ₚ elems (mTree c) ∧
    by_rank (t :: due) ∧
    Forall (λ x, outRanks now x = false) due ∧
    Forall (λ x, outRanks now x = true) (elems (mTree c')).
Proof.
  revert t c. induction fuel as [|fuel IH]; intros t c C Hf Ht; [lia|].
  cbn [expire_loop]. unfold popIfOutRanks. rewrite expire_timer_tree.
  pose proof (pop_cases (mTree c)) as Hpop.
  destruct (peek (mTree c)) as [top|] eqn:Etop.
  - destruct Hpop as (t' & Hpop & Hp). destruct (outRanks now top) eqn:Edue; cbn [negb].
    + exists [], (expire_timer t c). rewrite expire_timer_tree.
      assert (expire_loop fuel now None (expire_timer t c) = ([], expire_timer t c)) as ->
        by (by destruct fuel).
      split_and!; [done|done| | |].
      * repeat constructor.
      * constructor.
      * apply Forall_forall. intros y Hy.
        destruct (outRanks now y) eqn:Ey; [done|].
        rewrite <- Edue. symmetry. eapply outRanks_neg; [exact Ey|]. by eapply root_max.
    + rewrite Hpop. pose proof (pop_check _ C) as C'. rewrite Hpop in C'. simpl in C'.
      rewrite Hp in Hf. simpl in Hf.
      destruct (IH top (set_tree t' (expire_timer t c)) C') as (due & c' & Hl & Hp' & Hs & Hd & Hr).
      { simpl. lia. }
      { simpl. intros y Hy. eapply root_max; [exact C|done|]. rewrite Hp. set_solver. }
      rewrite Hl. exists (top :: due), c'. simpl in Hp'. split_and!; [done| | | |done].
      * simpl. by rewrite Hp', Hp.
      * constructor; [done|]. apply Forall_forall. intros y Hy. apply Ht. rewrite Hp.
        apply elem_of_cons in Hy as [->|Hy]; [set_solver|].
        apply elem_of_cons. right. rewrite <- Hp'. set_solver.
      * by constructor.
  - exists [], (expire_timer t c). rewrite expire_timer_tree.
    assert (expire_loop fuel now None (expire_timer t c) = ([], expire_timer t c)) as ->
      by (by destruct fuel).
    destruct (mTree c); [|done]. split_and!; try done; repeat constructor.
Qed.

(** ** Theorems *)

(** C35: In every reachable state of a timer container with pending timers,
    the kernel timer is armed with the soonest of them and polled, or the
    message that handles an expiry is queued. *)
Theorem timer_no_lost_wakeup c :
  rtc tm_step init_container c →
  checkTree (mTree c) = true ∧
  match getSoonestTimer c with
  | None => True
  | Some top => armed c = Some top ∧ polled c = true ∨ MsgTimerExpire ∈ msgs c
  end.
Proof.
  intros Hr. assert (container_ok init_container) as Hok by done.
  change (container_ok c). revert Hok. induction Hr as [|c1 c2 c3 Hs _ IH]; [done|].
  intros Hok. apply IH. by eapply tm_step_ok.
Qed.

(** An expiry takes the soonest timer and then every timer whose time has
    come out of the heap, in the order of their times, and leaves exactly
    those that are later than now. *)
Theorem timer_expire_pops_what_is_due now c t :
  checkTree (mTree c) = true → getSoonestTimer c = Some t →
  ∃ due c', proc_expire now c = (t :: due, c') ∧
    t :: due ++ elems (mTree c') ≡ₚ elems (mTree c) ∧ by_rank (t :: due) ∧
    Forall (λ x, ¬ time_lt now x) due ∧ Forall (time_lt now) (elems (mTree c')).
Proof.
  intros C Ht. unfold proc_expire. pose proof (pop_cases (mTree c)) as Hpop.
  unfold getSoonestTimer in Ht. rewrite Ht in Hpop. destruct Hpop as (t' & Hpop & Hp).
  rewrite Hpop. pose proof (pop_check _ C) as C'. rewrite Hpop in C'. simpl in C'.
  destruct (expire_loop_spec (S (length (elems (mTree c)))) now t (set_tree t' c) C')
    as (due & c' & Hl & Hp' & Hs & Hd & Hr).
  { simpl. rewrite Hp. simpl. lia. }
  { simpl. intros y Hy. eapply root_max; [exact C|done|]. rewrite Hp. set_solver. }
  rewrite Hl. exists due, (updateSoonestTime None c').
  destruct (updateSoonestTime_same None c') as (-> & _). simpl in Hp'.
  split_and!; [done| |done| |].
  - by rewrite Hp', Hp.
  - eapply Forall_impl; [exact Hd|]. intros x Hx. simpl in Hx. rewrite <- timer_outRanks.
    by rewrite Hx.
  - eapply Forall_impl; [exact Hr|]. intros x Hx. by apply timer_outRanks.
Qed.

(** Removing the last timer leaves the kernel timer armed and polled: the
    branch of updateSoonestTime that disarms it is not taken. *)
Theorem timer_removal_of_last_leaves_kernel_timer_armed t c :
  elems (mTree c) = [t] →
  mTree (proc_remove t c) = Null ∧ armed (proc_remove t c) = armed c ∧
  polled (proc_remove t c) = polled c.
Proof.
  destruct c as [[|n l r x] a p ms st fi]; [done|]. simpl. intros Hx.
  injection Hx as -> Hlr. apply app_eq_nil in Hlr as [Hl Hr].
  destruct l; [|done]. destruct r; [|done].
  unfold proc_remove, remove. simpl. rewrite decide_True by done. simpl.
  unfold getSoonestTimer. simpl. by rewrite decide_True.
Qed.

(** ** Examples *)
Definition t10 : timer := Timer 1 10 0 I.
Definition t1000 : timer := Timer 2 1000 0 I.

(** Both timers start, the first one is stopped when the kernel timer has just
    run out: its removal is handled before the expiry. *)
Definition with_msgs (l : list msg) (c : container) : container :=
  Container (mTree c) (armed c) (polled c) l (stopped c) (fired c).
Definition raced1 : container := send (MsgTimerPush t10) init_container.
Definition raced2 : container := proc_push t10 (with_msgs [] raced1).
Definition raced3 : container := send (MsgTimerPush t1000) raced2.
Definition raced4 : container := proc_push t1000 (with_msgs [] raced3).
Definition raced5 : container := snd (stop t10 raced4).
Definition raced6 : container := send MsgTimerExpire (arm None false raced5).
Definition raced : container := proc_remove t10 (with_msgs [MsgTimerExpire] raced6).

Lemma raced_reachable : rtc tm_step init_container raced.
Proof.
  apply (rtc_l _ _ raced1); [apply (step_start t10)|].
  apply (rtc_l _ _ raced2); [by apply (step_push t10 [] raced1)|].
  apply (rtc_l _ _ raced3); [apply (step_start t1000)|].
  apply (rtc_l _ _ raced4).
  { apply (step_push t1000 [] raced3). vm_compute. reflexivity. }
  apply (rtc_l _ _ raced5); [apply (step_stop t10 raced4)|].
  apply (rtc_l _ _ raced6).
  { apply (step_kernel t10 raced5 t10); vm_compute; reflexivity. }
  apply (rtc_l _ _ raced); [|apply rtc_refl].
  apply (step_remove t10 [MsgTimerExpire] raced6). vm_compute. reflexivity.
Qed.

(** A timer can fire before its time: if the soonest timer is stopped
    while the expiry of the kernel timer is queued, the handling of that
    expiry pops and fires the next timer without looking at its time. *)
Theorem timer_stale_expiry_fires_early :
  ∃ c c' now t, rtc tm_step init_container c ∧ tm_step c c' ∧
    c' = snd (proc_expire now (Container (mTree c) (armed c) (polled c) [] (stopped c) (fired c))) ∧
    fired c = [] ∧ fired c' = [t] ∧ time_lt now t.
Proof.
  exists raced, (snd (proc_expire t10 (with_msgs [] raced))), t10, t1000.
  split; [apply raced_reachable|].
  split; [apply (step_expire t10 [] raced); vm_compute; reflexivity|].
  split; [reflexivity|]. vm_compute. split_and!; [done|done|by left].
Qed.

Lemma timer_no_lost_wakeup_witness :
  checkTree (mTree raced) = true ∧
  match getSoonestTimer raced with
  | None => True
  | Some top => armed raced = Some top ∧ polled raced = true ∨ MsgTimerExpire ∈ msgs raced
  end.
Proof. apply (timer_no_lost_wakeup raced). apply raced_reachable. Defined.

Lemma timer_expire_pops_what_is_due_witness :
  let c := set_tree (push (push Null t1000) t10) init_container in
  ∃ due c', proc_expire t1000 c = (t10 :: due, c') ∧
    t10 :: due ++ elems (mTree c') ≡ₚ elems (mTree c) ∧ by_rank (t10 :: due) ∧
    Forall (λ x, ¬ time_lt t1000 x) due ∧ Forall (time_lt t1000) (elems (mTree c')).
Proof. apply timer_expire_pops_what_is_due; reflexivity. Defined.

Lemma timer_removal_of_last_leaves_kernel_timer_armed_witness :
  let c := proc_push t10 init_container in
  mTree (proc_remove t10 c) = Null ∧ armed (proc_remove t10 c) = armed c ∧
  polled (proc_remove t10 c) = polled c.
Proof. apply timer_removal_of_last_leaves_kernel_timer_armed. reflexivity. Defined.
