(* ===== verification/TsReorder.v ===== *)
(** * Timestamp reordering of the video decoder

    Models [omx_time_stamp_reorder] of
    [mm-video-v4l2/vidc/vdec/src/ts_parser.cpp] and [inc/ts_parser.h]: tables of
    64 timestamps in a ring, filled at the tail and emptied at the head.  The
    ring is the list of its tables from [phead] on, so that [phead->prev] is
    the last of them; [new] does not return null. *)
From S2P Require Import Prelude.

Definition TIME_SZ : nat := 64.
Definition OMX_BUFFERFLAG_EOS : Z := 1.
Definition OMX_BUFFERFLAG_CODECCONFIG : Z := 128.

(** ** Data *)
Record timestamp := Timestamp { timestamps : Z; in_use : bool }.
Record time_stamp_list := TimeStampList {
  input_timestamps : list timestamp;
  entries_filled : Z
}.

Record reorder := Reorder {
  reorder_ts : bool;
  error : bool;
  ring : list time_stamp_list
}.

(** The fields of [OMX_BUFFERHEADERTYPE] that are used. *)
Record header := Header { nFlags : Z; nFilledLen : Z; nTimeStamp : Z }.

Definition new_reorder : reorder := Reorder false false [].

Definition set_timestamp_reorder_mode (mode : bool) (r : reorder) : reorder :=
  Reorder mode (error r) (ring r).

Definition delete_list (r : reorder) : reorder := Reorder (reorder_ts r) (error r) [].

Definition handle_error (r : reorder) : reorder :=
  if error r then r else delete_list (Reorder (reorder_ts r) true (ring r)).

Definition empty_table : time_stamp_list :=
  TimeStampList (repeat (Timestamp (-1) false) TIME_SZ) 0.

Definition add_new_list (r : reorder) : reorder :=
  Reorder (reorder_ts r) (error r) (ring r ++ [empty_table]).

(** [get_current_list]: afterwards the current table is the last one. *)
Definition get_current_list (r : reorder) : reorder :=
  match ring r with [] => add_new_list r | _ => r end.

(** [update_head] with a head: the head goes unless it is the only table. *)
Definition update_head (r : reorder) : reorder :=
  match ring r with
  | _ :: (_ :: _) as l => Reorder (reorder_ts r) (error r) l
  | _ => r
  end.

Definition has_flag (h : header) (f : Z) : bool := negb (Z.land (nFlags h) f =? 0)%Z.

(** The first free slot takes the timestamp. *)
Fixpoint fill_slot (ts : Z) (l : list timestamp) : option (list timestamp) :=
  match l with
  | [] => None
  | x :: l =>
      if in_use x then (x ::.) <$> fill_slot ts l else Some (Timestamp ts true :: l)
  end.

Definition set_last (t : time_stamp_list) (r : reorder) : reorder :=
  Reorder (reorder_ts r) (error r) (removelast (ring r) ++ [t]).

Definition insert_timestamp (h : option header) (r : reorder) : bool * reorder :=
  match h with
  | None => (false, r)
  | Some h =>
      if negb (reorder_ts r) || error r then (false, r)
      else
        let r := get_current_list r in
        let cur := default empty_table (last (ring r)) in
        if (Z.of_nat TIME_SZ - 1 <? entries_filled cur)%Z then (false, handle_error r)
        else if has_flag h OMX_BUFFERFLAG_CODECCONFIG then (true, r)
        else if has_flag h OMX_BUFFERFLAG_EOS && (nFilledLen h =? 0)%Z then (true, add_new_list r)
        else
          match fill_slot (nTimeStamp h) (input_timestamps cur) with
          | None => (false, handle_error r)
          | Some l =>
              let r := set_last (TimeStampList l (entries_filled cur + 1)) r in
              if has_flag h OMX_BUFFERFLAG_EOS then (true, add_new_list r) else (true, r)
          end
  end.

(** The loop of [remove_time_stamp]: at most [n] slots that hold [ts] are
    freed; how many were is returned. *)
Fixpoint free_slots (n : nat) (ts : Z) (l : list timestamp) : list timestamp * Z :=
  match l with
  | [] => ([], 0%Z)
  | x :: l =>
      match n with
      | O => (x :: l, 0%Z)
      | S n' =>
          if in_use x && (timestamps x =? ts)%Z then
            let '(l', k) := free_slots n' ts l in (Timestamp (timestamps x) false :: l', (k + 1)%Z)
          else let '(l', k) := free_slots n ts l in (x :: l', k)
      end
  end.

Definition set_head (t : time_stamp_list) (r : reorder) : reorder :=
  Reorder (reorder_ts r) (error r) (t :: tail (ring r)).

Definition finish_head (r : reorder) : reorder :=
  match ring r with
  | t :: _ => if (entries_filled t =? 0)%Z then update_head r else r
  | [] => r
  end.

Definition remove_time_stamp (ts : Z) (is_interlaced : bool) (r : reorder) : bool * reorder :=
  if negb (reorder_ts r) || error r then (false, r)
  else match ring r with
       | [] => (false, r)
       | t :: _ =>
           if (entries_filled t =? 0)%Z then (false, r)
           else
             let '(l, k) := free_slots (if is_interlaced then 2 else 1) ts (input_timestamps t) in
             (true, finish_head (set_head (TimeStampList l (entries_filled t - k)) r))
       end.

Definition flush_timestamp (r : reorder) : reorder := delete_list r.

(** The first loop of [get_next_timestamp]: the slots of [element] and
    [duplicate], over the slots from index [i] on. *)
Fixpoint scan_min (i : nat) (l : list timestamp) (element duplicate : option (nat * Z)) :
    option (nat * Z) * option (nat * Z) :=
  match l with
  | [] => (element, duplicate)
  | x :: l =>
      if in_use x then
        match element with
        | None => scan_min (S i) l (Some (i, timestamps x)) duplicate
        | Some (_, m) =>
            if (timestamps x <? m)%Z then scan_min (S i) l (Some (i, timestamps x)) None
            else if (m =? timestamps x)%Z then scan_min (S i) l element (Some (i, timestamps x))
            else scan_min (S i) l element duplicate
        end
      else scan_min (S i) l element duplicate
  end.

Definition release_slot (i : nat) (l : list timestamp) : list timestamp :=
  alter (λ x, Timestamp (timestamps x) false) i l.

(** The timestamp written to the header, the table and the status. *)
Definition take_next (is_interlaced : bool) (t : time_stamp_list) :
    option Z * time_stamp_list :=
  let '(element, duplicate) := scan_min 0 (input_timestamps t) None None in
  match element with
  | None => (None, t)
  | Some (i, ts) =>
      let t := TimeStampList (release_slot i (input_timestamps t)) (entries_filled t - 1) in
      if is_interlaced then
        match duplicate with
        | Some (j, _) =>
            (Some ts, TimeStampList (release_slot j (input_timestamps t)) (entries_filled t - 1))
        | None =>
            match fst (scan_min 0 (input_timestamps t) None None) with
            | Some (j, ts2) =>
                (Some ts2, TimeStampList (release_slot j (input_timestamps t)) (entries_filled t - 1))
            | None => (Some ts, t)
            end
        end
      else (Some ts, t)
  end.

Definition get_next_timestamp (h : option header) (is_interlaced : bool) (r : reorder) :
    option Z * bool * reorder :=
  match h with
  | None => (None, false, r)
  | Some _ =>
      if negb (reorder_ts r) || error r then (None, false, r)
      else match ring r with
           | [] => (None, false, r)
           | t :: _ =>
               if (entries_filled t =? 0)%Z then (None, false, r)
               else
                 let '(ts, t') := take_next is_interlaced t in
                 (ts, match ts with Some _ => true | None => false end,
                  finish_head (set_head t' r))
           end
  end.

(** ** Consistent tables *)

(** The timestamps in use, in slot order. *)
Definition used (l : list timestamp) : list Z :=
  omap (λ x, if in_use x then Some (timestamps x) else None) l.

Record table_ok (t : time_stamp_list) : Prop := {
  tk_length : length (input_timestamps t) = TIME_SZ;
  tk_filled : entries_filled t = Z.of_nat (length (used (input_timestamps t)))
}.

Definition ring_ok (r : reorder) : Prop := Forall table_ok (ring r).

#[local] Arguments used : simpl never.

Lemma used_cons x l :
  used (x :: l) = if in_use x then timestamps x :: used l else used l.
Proof. unfold used. simpl. by destruct (in_use x). Qed.

Lemma used_length l : (length (used l) ≤ length l)%nat.
Proof. induction l as [|x l IH]; [done|]. rewrite used_cons. destruct (in_use x); simpl; lia. Qed.

Lemma used_release i l m :
  l !! i = Some (Timestamp m true) →
  used l ≡ₚ m :: used (release_slot i l).
Proof.
  revert i. induction l as [|x l IH]; intros [|i] Hi; simpl in Hi; try done.
  - by simplify_eq.
  - change (release_slot (S i) (x :: l)) with (x :: release_slot i l).
    rewrite !used_cons. destruct (in_use x); rewrite (IH i Hi); [solve_Permutation|done].
Qed.

Lemma release_length i l : length (release_slot i l) = length l.
Proof. apply length_alter. Qed.

Lemma fill_slot_spec ts l :
  match fill_slot ts l with
  | None => length (used l) = length l
  | Some l' => used l' ≡ₚ ts :: used l ∧ length l' = length l
  end.
Proof.
  induction l as [|x l IH]; [done|]. simpl. rewrite used_cons. destruct (in_use x) eqn:Hx.
  - destruct (fill_slot ts l) as [l'|]; simpl.
    + destruct IH as [IH1 IH2]. rewrite used_cons, Hx, IH1. split; [solve_Permutation|lia].
    + lia.
  - simpl. by rewrite used_cons.
Qed.

Lemma free_slots_spec n ts l :
  let '(l', k) := free_slots n ts l in
  length l' = length l ∧ (0 ≤ k)%Z ∧
  Z.of_nat (length (used l)) = (Z.of_nat (length (used l')) + k)%Z.
Proof.
  revert n. induction l as [|x l IH]; intros n; [done|]. simpl. destruct n as [|n].
  { simpl. lia. }
  destruct (in_use x && (timestamps x =? ts)%Z) eqn:Hm.
  - apply andb_true_iff in Hm as [Hu _]. specialize (IH n).
    destruct (free_slots n ts l) as [l' k]. rewrite !used_cons, Hu. simpl. lia.
  - specialize (IH (S n)). destruct (free_slots (S n) ts l) as [l' k].
    rewrite !used_cons. destruct (in_use x); simpl; lia.
Qed.

Lemma used_app l1 l2 : used (l1 ++ l2) = used l1 ++ used l2.
Proof. apply omap_app. Qed.

(** What the scan knows after the slots [pre]. *)
Record scan_inv (pre : list timestamp) (e d : option (nat * Z)) : Prop := {
  si_best : match e with
            | None => used pre = []
            | Some (j, m) => pre !! j = Some (Timestamp m true) ∧ Forall (Z.le m) (used pre)
            end;
  si_dup : ∀ k y, d = Some (k, y) →
    pre !! k = Some (Timestamp y true) ∧ ∃ j, e = Some (j, y) ∧ (j < k)%nat
}.

Lemma scan_inv_unused pre x e d :
  in_use x = false → scan_inv pre e d → scan_inv (pre ++ [x]) e d.
Proof.
  intros Hx [Hb Hd]. split.
  - rewrite used_app, used_cons, Hx, app_nil_r. destruct e as [[j m]|]; [|done].
    destruct Hb as [Hj Hf]. split; [by apply lookup_app_l_Some|done].
  - intros k y E. destruct (Hd k y E) as [Hk He]. split; [by apply lookup_app_l_Some|done].
Qed.

(** A new smallest timestamp: no duplicate of it is known. *)
Lemma scan_inv_new pre x e d :
  in_use x = true → scan_inv pre e d →
  (∀ j m, e = Some (j, m) → (timestamps x < m)%Z) →
  scan_inv (pre ++ [x]) (Some (length pre, timestamps x)) None.
Proof.
  intros Hx [Hb _] Hlt. split; [|done]. rewrite used_app, used_cons, Hx.
  split; [rewrite lookup_app_r, Nat.sub_diag by lia; destruct x; simpl in *; by subst|].
  apply Forall_app. split; [|by repeat constructor].
  destruct e as [[j m]|]; [|rewrite Hb; constructor].
  destruct Hb as [_ Hf]. specialize (Hlt _ _ eq_refl).
  eapply Forall_impl; [exact Hf|]. simpl. lia.
Qed.

(** A timestamp that is not smaller: the duplicate is this one or as before. *)
Lemma scan_inv_old pre x j m d d' :
  in_use x = true → scan_inv pre (Some (j, m)) d → (m ≤ timestamps x)%Z →
  (d' = d ∨ d' = Some (length pre, timestamps x) ∧ m = timestamps x) →
  scan_inv (pre ++ [x]) (Some (j, m)) d'.
Proof.
  intros Hx [[Hj Hf] Hd] Hle Hd'. split.
  - rewrite used_app, used_cons, Hx. split; [by apply lookup_app_l_Some|].
    apply Forall_app. split; [done|by repeat constructor].
  - intros k y E. destruct Hd' as [->|[-> ->]].
    + destruct (Hd k y E) as [Hk He]. split; [by apply lookup_app_l_Some|done].
    + simplify_eq. split.
      * rewrite lookup_app_r, Nat.sub_diag by lia. destruct x; simpl in *; by subst.
      * exists j. split; [done|]. by apply lookup_lt_Some in Hj.
Qed.

Lemma scan_min_inv l pre e d e' d' :
  scan_inv pre e d → scan_min (length pre) l e d = (e', d') → scan_inv (pre ++ l) e' d'.
Proof.
  revert pre e d. induction l as [|x l IH]; intros pre e d Hi Hs; simpl in Hs.
  { simplify_eq. by rewrite app_nil_r. }
  assert (∀ e d, scan_inv (pre ++ [x]) e d → scan_min (S (length pre)) l e d = (e', d') →
            scan_inv (pre ++ x :: l) e' d') as Hgo.
  { intros e1 d1 H1 H2. change (x :: l) with ([x] ++ l).
    rewrite (app_assoc pre [x] l). eapply IH; [exact H1|].
    rewrite length_app, Nat.add_comm. exact H2. }
  destruct (in_use x) eqn:Hx; [|eapply Hgo; [by apply scan_inv_unused|done]].
  destruct e as [[j m]|].
  - destruct (Z.ltb_spec (timestamps x) m).
    + eapply Hgo; [|exact Hs]. eapply scan_inv_new; [done|exact Hi|]. intros ? ? ?. by simplify_eq.
    + destruct (Z.eqb_spec m (timestamps x));
        (eapply Hgo; [|exact Hs]); eapply scan_inv_old; eauto; lia.
  - eapply Hgo; [|exact Hs].
    destruct d as [[k y]|]; [by destruct (si_dup _ _ _ Hi k y eq_refl) as (_ & ? & ? & _)|].
    eapply scan_inv_new; [done|exact Hi|done].
Qed.

Lemma scan_min_spec l e d : scan_min 0 l None None = (e, d) → scan_inv l e d.
Proof. intros Hs. by apply (scan_min_inv l [] None None). Qed.

(** ** The operations keep the tables consistent *)
Lemma empty_table_ok : table_ok empty_table.
Proof. split; reflexivity. Qed.

Lemma take_next_ok b t ts t' :
  table_ok t → take_next b t = (ts, t') → table_ok t'.
Proof.
  intros [Hl Hf]. unfold take_next.
  destruct (scan_min 0 (input_timestamps t) None None) as [e d] eqn:Es.
  destruct (scan_min_spec _ _ _ Es) as [Hb Hd].
  destruct e as [[i m]|]; [|intros ?; simplify_eq; by split].
  destruct Hb as [Hi Hmin]. pose proof (used_release _ _ _ Hi) as Hu.
  set (l1 := release_slot i (input_timestamps t)) in *.
  assert (table_ok (TimeStampList l1 (entries_filled t - 1))) as Hok1.
  { split; simpl; [by unfold l1; rewrite release_length|].
    rewrite Hf, Hu. simpl. lia. }
  assert (∀ j y, l1 !! j = Some (Timestamp y true) →
            table_ok (TimeStampList (release_slot j l1) (entries_filled t - 1 - 1))) as Hok2.
  { intros j y Hj. pose proof (used_release _ _ _ Hj) as Hu2. destruct Hok1 as [H1 H2].
    simpl in *. split; simpl; [by rewrite release_length|]. rewrite H2, Hu2. simpl. lia. }
  destruct b; [|intros ?; by simplify_eq].
  destruct d as [[k y]|].
  - intros ?; simplify_eq. destruct (Hd k y eq_refl) as (Hk & j & E & Hjk). simplify_eq.
    apply (Hok2 k y). unfold l1, release_slot. rewrite list_lookup_alter_ne by lia. done.
  - cbn [input_timestamps]. destruct (scan_min 0 l1 None None) as [e2 d2] eqn:Es2.
    destruct (scan_min_spec _ _ _ Es2) as [Hb2 _]. cbn [fst].
    destruct e2 as [[j ts2]|]; intros ?; simplify_eq; [|done].
    apply (Hok2 j ts2). apply Hb2.
Qed.

Lemma ring_ok_tail r : ring_ok r → Forall table_ok (tail (ring r)).
Proof. unfold ring_ok. destruct (ring r); [done|]. by inversion 1. Qed.

Lemma finish_head_ok r : ring_ok r → ring_ok (finish_head r).
Proof.
  unfold finish_head, update_head, ring_ok. intros Hr.
  destruct (ring r) as [|t [|t2 l]] eqn:E; [by rewrite E|..];
    destruct (entries_filled t =? 0)%Z; simpl; rewrite ?E; try done. by inversion Hr.
Qed.

Lemma set_head_ok t r : table_ok t → ring_ok r → ring_ok (set_head t r).
Proof. intros Ht Hr. constructor; [done|]. by apply ring_ok_tail. Qed.

Lemma handle_error_ok r : ring_ok r → ring_ok (handle_error r).
Proof. unfold handle_error. destruct (error r); [done|]. constructor. Qed.

Lemma add_new_list_ok r : ring_ok r → ring_ok (add_new_list r).
Proof. intros Hr. apply Forall_app. split; [done|]. by repeat constructor. Qed.

Lemma get_current_list_ok r : ring_ok r → ring_ok (get_current_list r).
Proof. unfold get_current_list. destruct (ring r); [apply add_new_list_ok|done]. Qed.

Lemma removelast_ok l : Forall table_ok l → Forall table_ok (removelast l).
Proof.
  induction 1 as [|t l Ht Hl IH]; [constructor|]. destruct l; [constructor|].
  simpl. by constructor.
Qed.

Lemma last_table_ok r : ring_ok r → table_ok (default empty_table (last (ring r))).
Proof.
  intros Hr. destruct (last (ring r)) as [t|] eqn:E; [|apply empty_table_ok].
  unfold ring_ok in Hr. rewrite Forall_forall in Hr. by apply Hr, last_Some_elem_of.
Qed.

Lemma insert_ok h r : ring_ok r → ring_ok (snd (insert_timestamp h r)).
Proof.
  intros Hr. unfold insert_timestamp. destruct h as [h|]; [|done].
  destruct (negb (reorder_ts r) || error r); [done|].
  pose proof (get_current_list_ok r Hr) as Hg. set (r1 := get_current_list r) in *.
  pose proof (last_table_ok r1 Hg) as [Hl Hf].
  set (cur := default empty_table (last (ring r1))) in *.
  destruct (_ <? _)%Z; [by apply handle_error_ok|].
  destruct (has_flag h OMX_BUFFERFLAG_CODECCONFIG); [done|].
  destruct (_ && _); [by apply add_new_list_ok|].
  pose proof (fill_slot_spec (nTimeStamp h) (input_timestamps cur)) as Hs.
  destruct (fill_slot _ _) as [l|]; [|by apply handle_error_ok].
  destruct Hs as [Hu Hlen].
  assert (ring_ok (set_last (TimeStampList l (entries_filled cur + 1)) r1)) as H2.
  { apply Forall_app. split; [by apply removelast_ok|]. constructor; [|constructor].
    split; simpl; [by rewrite Hlen|]. rewrite Hf, Hu. simpl. lia. }
  destruct (has_flag h OMX_BUFFERFLAG_EOS); [by apply add_new_list_ok|done].
Qed.

Lemma remove_time_stamp_ok ts b r : ring_ok r → ring_ok (snd (remove_time_stamp ts b r)).
Proof.
  intros Hr. unfold remove_time_stamp. destruct (negb (reorder_ts r) || error r); [done|].
  destruct (ring r) as [|t l] eqn:E; [done|].
  assert (table_ok t) as [Hl Hf] by (unfold ring_ok in Hr; rewrite E in Hr; by inversion Hr).
  destruct (entries_filled t =? 0)%Z; [done|].
  pose proof (free_slots_spec (if b then 2 else 1) ts (input_timestamps t)) as Hs.
  destruct (free_slots _ _ _) as [l' k]. destruct Hs as (Hlen & Hk & Hu).
  apply finish_head_ok, set_head_ok; [|done]. split; simpl; [by rewrite Hlen|lia].
Qed.

Lemma get_next_ok h b r : ring_ok r → ring_ok (snd (get_next_timestamp h b r)).
Proof.
  intros Hr. unfold get_next_timestamp. destruct h as [h|]; [|done].
  destruct (negb (reorder_ts r) || error r); [done|].
  destruct (ring r) as [|t l] eqn:E; [done|].
  assert (table_ok t) as Ht by (unfold ring_ok in Hr; rewrite E in Hr; by inversion Hr).
  destruct (entries_filled t =? 0)%Z; [done|].
  destruct (take_next b t) as [ts t'] eqn:En.
  apply finish_head_ok, set_head_ok; [by eapply take_next_ok|done].
Qed.

(** ** Theorems *)
Inductive ts_op :=
  | SetMode (mode : bool)
  | Insert (h : option header)
  | GetNext (h : option header) (is_interlaced : bool)
  | Remove (ts : Z) (is_interlaced : bool)
  | Flush.

Definition ts_exec (r : reorder) (o : ts_op) : reorder :=
  match o with
  | SetMode b => set_timestamp_reorder_mode b r
  | Insert h => snd (insert_timestamp h r)
  | GetNext h b => snd (get_next_timestamp h b r)
  | Remove ts b => snd (remove_time_stamp ts b r)
  | Flush => flush_timestamp r
  end.

Lemma ts_exec_ok r o : ring_ok r → ring_ok (ts_exec r o).
Proof.
  intros Hr. destruct o; simpl; auto using insert_ok, get_next_ok, remove_time_stamp_ok. constructor.
Qed.

(** After any sequence of operations every table has 64 slots and
    entries_filled is the number of its slots in use, so it never wraps below
    zero or exceeds 64. *)
Theorem ts_tables_consistent ops :
  Forall (λ t, length (input_timestamps t) = TIME_SZ ∧
               entries_filled t = Z.of_nat (length (used (input_timestamps t))) ∧
               (0 ≤ entries_filled t ≤ 64)%Z)
    (ring (foldl ts_exec new_reorder ops)).
Proof.
  assert (∀ r, ring_ok r → ring_ok (foldl ts_exec r ops)) as Hok.
  { induction ops as [|o ops IH]; intros r Hr; [done|]. simpl. by apply IH, ts_exec_ok. }
  eapply Forall_impl; [apply Hok; constructor|]. intros t [Hl Hf].
  pose proof (used_length (input_timestamps t)) as Hu. rewrite Hl in Hu.
  unfold TIME_SZ in *. split_and!; [done|done|lia|lia].
Qed.

(** get_next_timestamp of a non-interlaced stream writes the smallest
    timestamp in use of the head table to the header and takes exactly that
    one out of the table. *)
Theorem ts_get_next_returns_smallest h r t l :
  reorder_ts r = true → error r = false → ring r = t :: l → table_ok t →
  entries_filled t ≠ 0%Z →
  ∃ ts t', get_next_timestamp (Some h) false r =
      (Some ts, true, finish_head (set_head t' r)) ∧
    Forall (λ y, ts ≤ y)%Z (used (input_timestamps t)) ∧
    used (input_timestamps t) ≡ₚ ts :: used (input_timestamps t').
Proof.
  intros Hm He Hr [Hl Hf] Hne. unfold get_next_timestamp. rewrite Hm, He, Hr. simpl.
  apply Z.eqb_neq in Hne. rewrite Hne. unfold take_next.
  destruct (scan_min 0 (input_timestamps t) None None) as [e d] eqn:Es.
  destruct (scan_min_spec _ _ _ Es) as [Hb _].
  destruct e as [[i m]|].
  - destruct Hb as [Hi Hmin]. eexists _, _. split; [reflexivity|]. split; [done|].
    by apply used_release.
  - rewrite Hf, Hb in Hne. done.
Qed.

Definition demo_reorder : reorder :=
  foldl ts_exec new_reorder
    [SetMode true; Insert (Some (Header 0 10 30)); Insert (Some (Header 0 10 10));
     Insert (Some (Header 0 10 20))].

Lemma ts_get_next_returns_smallest_witness :
  ∃ ts t', get_next_timestamp (Some (Header 0 0 0)) false demo_reorder =
      (Some ts, true, finish_head (set_head t' demo_reorder)) ∧
    Forall (λ y, ts ≤ y)%Z (used (input_timestamps (hd empty_table (ring demo_reorder)))) ∧
    used (input_timestamps (hd empty_table (ring demo_reorder))) ≡ₚ
      ts :: used (input_timestamps t').
Proof.
  apply (ts_get_next_returns_smallest (Header 0 0 0) demo_reorder
           (hd empty_table (ring demo_reorder)) []).
  - reflexivity.
  - reflexivity.
  - reflexivity.
  - split; reflexivity.
  - discriminate.
Defined.

(** The head table is empty and is not the current one. *)
Definition head_stuck (r : reorder) : Prop :=
  ∃ t t2 l, ring r = t :: t2 :: l ∧ entries_filled t = 0%Z.

Lemma insert_keeps_stuck h r :
  head_stuck r ∨ error r = true →
  head_stuck (snd (insert_timestamp h r)) ∨ error (snd (insert_timestamp h r)) = true.
Proof.
  intros Hs. unfold insert_timestamp. destruct h as [h|]; [|done].
  destruct (error r) eqn:He; [rewrite orb_true_r; by right|].
  destruct (negb (reorder_ts r)); simpl; [by left; destruct Hs|].
  destruct Hs as [(t & t2 & l & Hr & Ht)|]; [|done].
  assert (get_current_list r = r) as -> by (unfold get_current_list; by rewrite Hr).
  assert (error (handle_error r) = true) as Herr by (unfold handle_error; by rewrite He).
  assert (∀ x, head_stuck (set_last x r)) as Hset.
  { intros x. unfold head_stuck, set_last. rewrite Hr.
    change (removelast (t :: t2 :: l)) with (t :: removelast (t2 :: l)).
    destruct (removelast (t2 :: l)) as [|y k]; [exists t, x, []|exists t, y, (k ++ [x])]; done. }
  assert (∀ r', head_stuck r' → head_stuck (add_new_list r')) as Hadd.
  { intros r' (u & u2 & k & Hr' & Hu). unfold head_stuck. simpl. rewrite Hr'. simpl. eauto 10. }
  assert (head_stuck r) as Hst by (unfold head_stuck; eauto 10).
  repeat case_match; simpl; auto.
Qed.

Lemma stuck_stays_silent hs r header is_interlaced :
  head_stuck r ∨ error r = true →
  fst (get_next_timestamp header is_interlaced (foldl ts_exec r (Insert <$> hs))) = (None, false).
Proof.
  revert r. induction hs as [|h hs IH]; intros r Hs; [|by apply IH, insert_keeps_stuck].
  change (foldl ts_exec r (Insert <$> [])) with r. unfold get_next_timestamp.
  destruct header; [|done]. destruct (negb (reorder_ts r) || error r) eqn:Hg; [done|].
  apply orb_false_iff in Hg as [_ Hg].
  destruct Hs as [(t & t2 & l & Hr & Ht)|He]; [by rewrite Hr, Ht|congruence].
Qed.

(** An end-of-stream buffer without data that finds the table empty adds
    a second table, and the empty head is never left: whatever is inserted
    afterwards, get_next_timestamp fails until a flush. *)
Theorem ts_empty_eos_blocks_output h hs is_interlaced header :
  has_flag h OMX_BUFFERFLAG_EOS = true → nFilledLen h = 0%Z →
  has_flag h OMX_BUFFERFLAG_CODECCONFIG = false →
  let r := foldl ts_exec new_reorder (SetMode true :: Insert (Some h) :: (Insert <$> hs)) in
  fst (get_next_timestamp header is_interlaced r) = (None, false).
Proof.
  intros Heos Hlen Hcc. cbv zeta. cbn [foldl].
  apply stuck_stays_silent. left. simpl. rewrite Hcc, Heos, Hlen. simpl.
  exists empty_table, empty_table, []. done.
Qed.

Lemma ts_empty_eos_blocks_output_witness :
  let r := foldl ts_exec new_reorder
             (SetMode true :: Insert (Some (Header 1 0 5)) ::
              (Insert <$> [Some (Header 0 10 30); Some (Header 0 10 10)])) in
  fst (get_next_timestamp (Some (Header 0 0 0)) false r) = (None, false).
Proof. apply ts_empty_eos_blocks_output; reflexivity. Defined.
