(* ===== verification/UClampVoter.v ===== *)
(** * Votes of a power hint session

    Models [power-libperfmgr/aidl/UClampVoter.h] and [UClampVoter.cpp]: the
    timed CPU and GPU votes of one session and the clamp range they request.
    Time points and durations are nanosecond counts in [Z].  An
    [unordered_map] is a [gmap]; where its iteration order could be seen, the
    order is an argument. *)
From S2P Require Import Prelude.

(** ** Data *)
Definition kUclampMin : Z := 0.
Definition kUclampMax : Z := 1024.

Inductive AdpfVoteType :=
  | CPU_VOTE_DEFAULT | CPU_LOAD_UP | CPU_LOAD_RESET | CPU_LOAD_RESUME
  | VOTE_POWER_EFFICIENCY | GPU_LOAD_UP | GPU_LOAD_DOWN | GPU_LOAD_RESET
  | GPU_CAPACITY | VOTE_TYPE_SIZE.

Definition vote_id (v : AdpfVoteType) : Z :=
  match v with
  | CPU_VOTE_DEFAULT => 0 | CPU_LOAD_UP => 1 | CPU_LOAD_RESET => 2
  | CPU_LOAD_RESUME => 3 | VOTE_POWER_EFFICIENCY => 4 | GPU_LOAD_UP => 5
  | GPU_LOAD_DOWN => 6 | GPU_LOAD_RESET => 7 | GPU_CAPACITY => 8
  | VOTE_TYPE_SIZE => 9
  end.

Record UclampRange := Range { uclampMin : Z; uclampMax : Z }.
Definition default_range : UclampRange := Range kUclampMin kUclampMax.

Record VoteRange := VR { mActive : bool; mStartTime : Z; mDurationNs : Z }.
Record CpuVote := Cpu { cpu_vote : VoteRange; mUclampRange : UclampRange }.
Record GpuVote := Gpu { gpu_vote : VoteRange; mCapacity : Z }.
Record Votes := MkVotes { mCpuVotes : gmap Z CpuVote; mGpuVotes : gmap Z GpuVote }.

(** ** [VoteRange] *)
Definition setActive (a : bool) (v : VoteRange) : VoteRange :=
  VR a (mStartTime v) (mDurationNs v).
Definition updateDuration_range (d : Z) (v : VoteRange) : VoteRange :=
  VR (mActive v) (mStartTime v) d.
Definition isTimeInRange (v : VoteRange) (t : Z) : bool :=
  mActive v && ((mStartTime v <=? t)%Z && (t <=? mStartTime v + mDurationNs v)%Z).

Definition on_cpu (f : VoteRange → VoteRange) (v : CpuVote) : CpuVote :=
  Cpu (f (cpu_vote v)) (mUclampRange v).
Definition on_gpu (f : VoteRange → VoteRange) (v : GpuVote) : GpuVote :=
  Gpu (f (gpu_vote v)) (mCapacity v).

(** ** [Votes] *)
Definition new_votes : Votes := MkVotes ∅ ∅.

Definition isGpuVote (id : Z) : bool :=
  (id =? vote_id GPU_CAPACITY)%Z || (id =? vote_id GPU_LOAD_UP)%Z ||
  (id =? vote_id GPU_LOAD_DOWN)%Z || (id =? vote_id GPU_LOAD_RESET)%Z.

Definition add_cpu (id : Z) (v : CpuVote) (vs : Votes) : Votes :=
  if negb (isGpuVote id) then MkVotes (<[id := v]> (mCpuVotes vs)) (mGpuVotes vs) else vs.

Definition add_gpu (id : Z) (v : GpuVote) (vs : Votes) : Votes :=
  if isGpuVote id then MkVotes (mCpuVotes vs) (<[id := v]> (mGpuVotes vs)) else vs.

Definition updateDuration (id d : Z) (vs : Votes) : Votes :=
  if isGpuVote id then
    MkVotes (mCpuVotes vs) (alter (on_gpu (updateDuration_range d)) id (mGpuVotes vs))
  else MkVotes (alter (on_cpu (updateDuration_range d)) id (mCpuVotes vs)) (mGpuVotes vs).

(** [confine]: the votes that are in force narrow the range. *)
Definition confine (t : Z) (r : UclampRange) (v : CpuVote) : UclampRange :=
  if isTimeInRange (cpu_vote v) t then
    Range (Z.max (uclampMin r) (uclampMin (mUclampRange v)))
          (Z.min (uclampMax r) (uclampMax (mUclampRange v)))
  else r.

(** The loop over the votes in the order [l] of the container. *)
Definition confine_all (l : list CpuVote) (r : UclampRange) (t : Z) : UclampRange :=
  foldl (confine t) r l.
Definition getUclampRange (vs : Votes) (r : UclampRange) (t : Z) : UclampRange :=
  confine_all (snd <$> map_to_list (mCpuVotes vs)) r t.

Definition getGpuCapacityRequest (vs : Votes) (t : Z) : option Z :=
  foldl (λ res hint,
    match mGpuVotes vs !! vote_id hint with
    | Some v => if isTimeInRange (gpu_vote v) t then Some (default 0 res + mCapacity v)%Z else res
    | None => res
    end) None [GPU_CAPACITY; GPU_LOAD_UP].

Definition ranges (vs : Votes) : list VoteRange :=
  (gpu_vote ∘ snd <$> map_to_list (mGpuVotes vs)) ++
  (cpu_vote ∘ snd <$> map_to_list (mCpuVotes vs)).
Definition anyTimedOut (vs : Votes) (t : Z) : bool :=
  existsb (λ v, negb (isTimeInRange v t)) (ranges vs).
Definition allTimedOut (vs : Votes) (t : Z) : bool :=
  negb (existsb (λ v, isTimeInRange v t) (ranges vs)).

Definition remove_vote (id : Z) (vs : Votes) : bool * Votes :=
  if isGpuVote id then
    match mGpuVotes vs !! id with
    | Some _ => (true, MkVotes (mCpuVotes vs) (delete id (mGpuVotes vs)))
    | None => (false, vs)
    end
  else match mCpuVotes vs !! id with
       | Some _ => (true, MkVotes (delete id (mCpuVotes vs)) (mGpuVotes vs))
       | None => (false, vs)
       end.

Definition setUseVote (id : Z) (active : bool) (vs : Votes) : bool * Votes :=
  if isGpuVote id then
    match mGpuVotes vs !! id with
    | None => (false, vs)
    | Some v => (true, MkVotes (mCpuVotes vs) (<[id := on_gpu (setActive active) v]> (mGpuVotes vs)))
    end
  else match mCpuVotes vs !! id with
       | None => (false, vs)
       | Some v =>
           (true, MkVotes (<[id := on_cpu (setActive active) v]> (mCpuVotes vs)) (mGpuVotes vs))
       end.

Definition size_votes (vs : Votes) : nat := size (mCpuVotes vs) + size (mGpuVotes vs).

(** The timing of the vote with an id, in the table its id selects. *)
Definition timing (vs : Votes) (id : Z) : option VoteRange :=
  if isGpuVote id then gpu_vote <$> mGpuVotes vs !! id else cpu_vote <$> mCpuVotes vs !! id.
Definition voteIsActive (vs : Votes) (id : Z) : bool :=
  match timing vs id with Some v => mActive v | None => false end.
Definition voteTimeout (vs : Votes) (id : Z) : Z :=
  match timing vs id with Some v => mStartTime v + mDurationNs v | None => 0 end.

(** ** The range of a set of votes *)
Lemma confine_all_min l r t x :
  (uclampMin (confine_all l r t) ≤ x)%Z ↔
  (uclampMin r ≤ x)%Z ∧
  Forall (λ v, isTimeInRange (cpu_vote v) t = true → (uclampMin (mUclampRange v) ≤ x)%Z) l.
Proof.
  unfold confine_all. revert r. induction l as [|v l IH]; intros r; simpl.
  - naive_solver.
  - rewrite IH, Forall_cons. unfold confine. destruct (isTimeInRange (cpu_vote v) t); simpl.
    + rewrite Z.max_lub_iff. naive_solver.
    + naive_solver.
Qed.

Lemma confine_all_max l r t x :
  (x ≤ uclampMax (confine_all l r t))%Z ↔
  (x ≤ uclampMax r)%Z ∧
  Forall (λ v, isTimeInRange (cpu_vote v) t = true → (x ≤ uclampMax (mUclampRange v))%Z) l.
Proof.
  unfold confine_all. revert r. induction l as [|v l IH]; intros r; simpl.
  - naive_solver.
  - rewrite IH, Forall_cons. unfold confine. destruct (isTimeInRange (cpu_vote v) t); simpl.
    + rewrite Z.min_glb_iff. naive_solver.
    + naive_solver.
Qed.

Lemma range_eq r1 r2 :
  (∀ x, uclampMin r1 ≤ x ↔ uclampMin r2 ≤ x)%Z →
  (∀ x, x ≤ uclampMax r1 ↔ x ≤ uclampMax r2)%Z → r1 = r2.
Proof.
  destruct r1 as [a b], r2 as [c d]. simpl. intros H1 H2. f_equal.
  - pose proof (H1 a). pose proof (H1 c). lia.
  - pose proof (H2 b). pose proof (H2 d). lia.
Qed.

#[export] Instance confine_all_proper :
  Proper ((≡ₚ) ==> (=) ==> (=) ==> (=)) confine_all.
Proof.
  intros l1 l2 Hl r ? <- t ? <-. apply range_eq; intros x.
  - by rewrite !confine_all_min, Hl.
  - by rewrite !confine_all_max, Hl.
Qed.

Lemma Forall_votes (P : CpuVote → Prop) (m : gmap Z CpuVote) :
  Forall P (snd <$> map_to_list m) ↔ ∀ id v, m !! id = Some v → P v.
Proof.
  rewrite Forall_fmap, Forall_forall. split.
  - intros H id v Hv. by apply (H (id, v)), elem_of_map_to_list.
  - intros H [id v] Hv. apply elem_of_map_to_list in Hv. by eapply H.
Qed.

(** getUclampRange gives the same range in whatever order the container
    is iterated: the largest minimum and the smallest maximum of the given
    range and of the CPU votes that are active and in time. *)
Theorem uclamp_range_is_tightest vs r t order :
  order ≡ₚ snd <$> map_to_list (mCpuVotes vs) →
  let r' := confine_all order r t in
  r' = getUclampRange vs r t ∧
  (∀ x, uclampMin r' ≤ x ↔ uclampMin r ≤ x ∧
     ∀ id v, mCpuVotes vs !! id = Some v → isTimeInRange (cpu_vote v) t = true →
       uclampMin (mUclampRange v) ≤ x)%Z ∧
  (∀ x, x ≤ uclampMax r' ↔ x ≤ uclampMax r ∧
     ∀ id v, mCpuVotes vs !! id = Some v → isTimeInRange (cpu_vote v) t = true →
       x ≤ uclampMax (mUclampRange v))%Z.
Proof.
  intros Ho r'. split_and!.
  - unfold r', getUclampRange. by rewrite Ho.
  - intros x. unfold r'. by rewrite confine_all_min, Ho, Forall_votes.
  - intros x. unfold r'. by rewrite confine_all_max, Ho, Forall_votes.
Qed.

(** ** Timing of a vote after an update *)
Lemma timing_add_cpu id v vs id' :
  timing (add_cpu id v vs) id' =
  if isGpuVote id then timing vs id' else if decide (id' = id) then Some (cpu_vote v) else timing vs id'.
Proof.
  unfold timing, add_cpu. destruct (isGpuVote id) eqn:E; simpl; [done|].
  case_decide as Hd; [subst; by rewrite E, lookup_insert_eq|].
  destruct (isGpuVote id'); [done|]. by rewrite lookup_insert_ne.
Qed.

Lemma timing_add_gpu id v vs id' :
  timing (add_gpu id v vs) id' =
  if isGpuVote id then if decide (id' = id) then Some (gpu_vote v) else timing vs id' else timing vs id'.
Proof.
  unfold timing, add_gpu. destruct (isGpuVote id) eqn:E; simpl; [|done].
  case_decide as Hd; [subst; by rewrite E, lookup_insert_eq|].
  destruct (isGpuVote id'); [|done]. by rewrite lookup_insert_ne.
Qed.

Lemma timing_setUseVote id b vs id' :
  timing (snd (setUseVote id b vs)) id' =
  if decide (id' = id) then setActive b <$> timing vs id' else timing vs id'.
Proof.
  unfold timing, setUseVote. case_decide as Hd.
  - subst. destruct (isGpuVote id) eqn:E;
      [destruct (mGpuVotes vs !! id) eqn:El|destruct (mCpuVotes vs !! id) eqn:El]; simpl;
      rewrite ?lookup_insert_eq, ?El; done.
  - destruct (isGpuVote id) eqn:E;
      [destruct (mGpuVotes vs !! id) eqn:El|destruct (mCpuVotes vs !! id) eqn:El]; simpl;
      rewrite ?lookup_insert_ne by done; done.
Qed.

Definition demo_votes : Votes :=
  add_cpu 1 (Cpu (VR true 5 10) (Range 300 900)) (add_cpu 0 (Cpu (VR true 0 10) (Range 200 800)) new_votes).

Lemma uclamp_range_is_tightest_witness :
  let order := [Cpu (VR true 0 10) (Range 200 800); Cpu (VR true 5 10) (Range 300 900)] in
  let r' := confine_all order default_range 7 in
  r' = Range 300 800 ∧
  r' = getUclampRange demo_votes default_range 7.
Proof.
  split; [reflexivity|].
  apply (uclamp_range_is_tightest demo_votes default_range 7
           [Cpu (VR true 0 10) (Range 200 800); Cpu (VR true 5 10) (Range 300 900)]).
  change (snd <$> map_to_list (mCpuVotes demo_votes)) with
    [Cpu (VR true 5 10) (Range 300 900); Cpu (VR true 0 10) (Range 200 800)].
  apply perm_swap.
Defined.
