(* ===== verification/SessionTaskMap.v ===== *)
(** * The map between power hint sessions and threads

    Models [power-libperfmgr/aidl/SessionTaskMap.h] and [SessionTaskMap.cpp].
    The [shared_ptr]s of the code are locations in two stores, one for the
    session values and one for the votes they point to, so that the copy of a
    session value made by [replace] shares its votes with the original.  What
    no pointer reaches any more stays in the store and is never read. *)
From S2P Require Import Prelude UClampVoter.

(** ** Data *)
Abbreviation loc := nat (only parsing).

(** The fields of [SessionValueEntry] that the map and the manager read; the
    frame statistics and the trace descriptor are only logged. *)
Record SessionValueEntry := Entry {
  sessionId : Z;
  tgid : Z;
  uid : Z;
  isActive : bool;
  isAppSession : bool;
  lastUpdatedTime : Z;
  votes : loc;
  isPowerEfficient : bool
}.

Record ValEntry := VE { val : loc; linkedTasks : list Z }.

Record session_task_map := STM {
  mSessions : gmap Z ValEntry;
  mTasks : gmap Z (list loc);
  entries : gmap loc SessionValueEntry;
  vote_store : gmap loc Votes;
  next_loc : loc
}.

Definition new_map : session_task_map := STM ∅ ∅ ∅ ∅ 0.

(** [std::make_shared] *)
Definition alloc_votes (vs : Votes) (m : session_task_map) : loc * session_task_map :=
  (next_loc m, STM (mSessions m) (mTasks m) (entries m)
                 (<[next_loc m := vs]> (vote_store m)) (S (next_loc m))).

Definition with_id (sid : Z) (e : SessionValueEntry) : SessionValueEntry :=
  Entry sid (tgid e) (uid e) (isActive e) (isAppSession e) (lastUpdatedTime e) (votes e)
    (isPowerEfficient e).
Definition with_active (b : bool) (e : SessionValueEntry) : SessionValueEntry :=
  Entry (sessionId e) (tgid e) (uid e) b (isAppSession e) (lastUpdatedTime e) (votes e)
    (isPowerEfficient e).
Definition with_updated (t : Z) (e : SessionValueEntry) : SessionValueEntry :=
  Entry (sessionId e) (tgid e) (uid e) (isActive e) (isAppSession e) t (votes e)
    (isPowerEfficient e).
Definition with_efficient (b : bool) (e : SessionValueEntry) : SessionValueEntry :=
  Entry (sessionId e) (tgid e) (uid e) (isActive e) (isAppSession e) (lastUpdatedTime e) (votes e) b.

(** Writes through a pointer to a session value or to votes. *)
Definition write_entry (p : loc) (f : SessionValueEntry → SessionValueEntry)
    (m : session_task_map) : session_task_map :=
  STM (mSessions m) (mTasks m) (alter f p (entries m)) (vote_store m) (next_loc m).
Definition write_votes (p : loc) (f : Votes → Votes) (m : session_task_map) : session_task_map :=
  STM (mSessions m) (mTasks m) (entries m) (alter f p (vote_store m)) (next_loc m).

(** ** Operations *)

(** [mTasks[taskId].push_back(p)] *)
Definition push_task (p : loc) (tasks : gmap Z (list loc)) (t : Z) : gmap Z (list loc) :=
  <[t := default [] (tasks !! t) ++ [p]]> tasks.

Definition add (sid : Z) (sv : SessionValueEntry) (taskIds : list Z) (m : session_task_map) :
    bool * session_task_map :=
  match mSessions m !! sid with
  | Some _ => (false, m)
  | None =>
      let p := next_loc m in
      (true, STM (<[sid := VE p taskIds]> (mSessions m))
               (foldl (push_task p) (mTasks m) taskIds)
               (<[p := with_id sid sv]> (entries m)) (vote_store m) (S p))
  end.

(** [std::find] and [erase]: the list without the first [p]. *)
Fixpoint erase_first (p : loc) (l : list loc) : option (list loc) :=
  match l with
  | [] => None
  | q :: l => if decide (q = p) then Some l else (q ::.) <$> erase_first p l
  end.

(** One task of [remove]: [None] where the code goes on without a change. *)
Definition unlink (p : loc) (tasks : gmap Z (list loc)) (t : Z) : option (gmap Z (list loc)) :=
  ps ← tasks !! t;
  ps' ← erase_first p ps;
  Some (match ps' with [] => delete t tasks | _ => <[t := ps']> tasks end).

Definition unlink_task (p : loc) (tasks : gmap Z (list loc)) (t : Z) : gmap Z (list loc) :=
  default tasks (unlink p tasks t).

Definition remove (sid : Z) (m : session_task_map) : bool * session_task_map :=
  match mSessions m !! sid with
  | None => (false, m)
  | Some v =>
      (true, STM (delete sid (mSessions m)) (foldl (unlink_task (val v)) (mTasks m) (linkedTasks v))
               (entries m) (vote_store m) (next_loc m))
  end.

Definition removeDeadTaskSessionMap (sid t : Z) (m : session_task_map) : bool * session_task_map :=
  match mSessions m !! sid with
  | None => (false, m)
  | Some v =>
      match unlink (val v) (mTasks m) t with
      | None => (false, m)
      | Some tasks => (true, STM (mSessions m) tasks (entries m) (vote_store m) (next_loc m))
      end
  end.

(** The tasks of [l] that the map does not know, appended to an out vector
    when there is one. *)
Definition push_unknown (m : session_task_map) (l : list Z) (out : option (list Z)) :
    option (list Z) :=
  (λ o, o ++ base.filter (λ t, mTasks m !! t = None) l) <$> out.

(** [replace]: the result, the two out vectors and the map.  [None] is a read
    through a dangling pointer. *)
Definition replace (sid : Z) (taskIds : list Z) (added removed : option (list Z))
    (m : session_task_map) :
    option (bool * option (list Z) * option (list Z) * session_task_map) :=
  match mSessions m !! sid with
  | None => Some (false, added, removed, m)
  | Some v =>
      let added := push_unknown m taskIds added in
      let m1 := snd (remove sid m) in
      sv ← entries m1 !! val v;
      let m2 := snd (add sid sv taskIds m1) in
      Some (true, added, push_unknown m2 (linkedTasks v) removed, m2)
  end.

Definition findSession (sid : Z) (m : session_task_map) : option loc := val <$> mSessions m !! sid.

Definition getTaskIds (sid : Z) (m : session_task_map) : list Z :=
  default [] (linkedTasks <$> mSessions m !! sid).

(** The caller of [getTaskIds] holds a reference: [threadList.erase(it)]. *)
Definition erase_task_at (sid : Z) (i : nat) (m : session_task_map) : session_task_map :=
  STM (alter (λ v, VE (val v) (delete i (linkedTasks v))) sid (mSessions m))
    (mTasks m) (entries m) (vote_store m) (next_loc m).

Definition getSessionIds (t : Z) (m : session_task_map) : option (list Z) :=
  match mTasks m !! t with
  | None => Some []
  | Some ps => mapM (λ p, sessionId <$> entries m !! p) ps
  end.

Definition votes_of (m : session_task_map) (p : loc) : option (SessionValueEntry * Votes) :=
  e ← entries m !! p; vs ← vote_store m !! votes e; Some (e, vs).

Definition addVote (sid id lo hi startTime durationNs : Z) (m : session_task_map) :
    option session_task_map :=
  match mSessions m !! sid with
  | None => Some m
  | Some v =>
      '(e, _) ← votes_of m (val v);
      Some (write_votes (votes e) (add_cpu id (Cpu (VR true startTime durationNs) (Range lo hi))) m)
  end.

Definition addGpuVote (sid id capacity startTime durationNs : Z) (m : session_task_map) :
    option session_task_map :=
  match mSessions m !! sid with
  | None => Some m
  | Some v =>
      '(e, _) ← votes_of m (val v);
      Some (write_votes (votes e) (add_gpu id (Gpu (VR true startTime durationNs) capacity)) m)
  end.

(** One session of [getTaskVoteRange]; [None] also where the offset is read
    without a value. *)
Definition vote_range_step (m : session_task_map) (now : Z) (base offset : option Z)
    (r : UclampRange) (p : loc) : option UclampRange :=
  '(e, vs) ← votes_of m p;
  if isActive e then
    let r := getUclampRange vs r now in
    match base with
    | Some b =>
        if isPowerEfficient e then
          limit ← (if allTimedOut vs now then Some b
                   else (λ o, uclampMin r + o)%Z <$> offset);
          Some (Range (uclampMin r) (Z.min (uclampMax r) limit))
        else Some r
    | None => Some r
    end
  else Some r.

Definition getTaskVoteRange (t now : Z) (r : UclampRange) (base offset : option Z)
    (m : session_task_map) : option UclampRange :=
  match mTasks m !! t with
  | None => Some default_range
  | Some ps => foldl (λ r p, r ≫= λ r, vote_range_step m now base offset r p) (Some r) ps
  end.

Definition session_votes (m : session_task_map) : list (option (SessionValueEntry * Votes)) :=
  (λ x : Z * ValEntry, votes_of m (val (snd x))) <$> map_to_list (mSessions m).

Definition getSessionsGpuCapacity (now : Z) (m : session_task_map) : option Z :=
  l ← mapM id (session_votes m);
  Some (foldl (λ mx (x : SessionValueEntry * Votes),
          Z.max mx (default 0%Z (getGpuCapacityRequest (snd x) now))) 0%Z l).

Definition isAnyAppSessionActive (now : Z) (m : session_task_map) : option bool :=
  l ← mapM id (session_votes m);
  Some (existsb (λ x : SessionValueEntry * Votes,
          isAppSession (fst x) && isActive (fst x) && negb (allTimedOut (snd x) now)) l).

Definition isAppSession_of (sid : Z) (m : session_task_map) : option bool :=
  match mSessions m !! sid with
  | None => Some false
  | Some v => isAppSession <$> entries m !! val v
  end.
Definition sizeSessions (m : session_task_map) : nat := size (mSessions m).
Definition sizeTasks (m : session_task_map) : nat := size (mTasks m).

(** ** How often a task lists a session *)
Definition occ {A} `{EqDecision A} (x : A) (l : list A) : nat :=
  length (base.filter (x =.) l).

Lemma occ_cons {A} `{EqDecision A} (x y : A) l :
  occ x (y :: l) = ((if decide (x = y) then 1 else 0) + occ x l)%nat.
Proof. unfold occ. rewrite filter_cons. by case_decide. Qed.

Lemma occ_app {A} `{EqDecision A} (x : A) l1 l2 : occ x (l1 ++ l2) = (occ x l1 + occ x l2)%nat.
Proof. unfold occ. by rewrite filter_app, length_app. Qed.

Lemma occ_pos {A} `{EqDecision A} (x : A) l : (0 < occ x l)%nat ↔ x ∈ l.
Proof.
  induction l as [|y l IH]; [split; [unfold occ; simpl; lia|intros H; inversion H]|].
  rewrite occ_cons, elem_of_cons, <- IH. case_decide; naive_solver lia.
Qed.

#[export] Instance occ_proper {A} `{EqDecision A} (x : A) : Proper ((≡ₚ) ==> (=)) (occ x).
Proof. intros l1 l2 Hl. unfold occ. by rewrite Hl. Qed.

Lemma occ_delete {A} `{EqDecision A} (x y : A) l i :
  l !! i = Some y → occ x l = ((if decide (x = y) then 1 else 0) + occ x (delete i l))%nat.
Proof.
  intros Hi. rewrite (delete_Permutation l i y Hi) at 1. by rewrite occ_cons.
Qed.

Definition links (tasks : gmap Z (list loc)) (p : loc) (t : Z) : nat :=
  occ p (default [] (tasks !! t)).
Definition no_empty (tasks : gmap Z (list loc)) : Prop := ∀ t, tasks !! t ≠ Some [].

Lemma erase_first_occ p l q :
  occ q (default l (erase_first p l)) = (occ q l - if decide (q = p) then 1 else 0)%nat.
Proof.
  induction l as [|y l IH]; simpl; [unfold occ; simpl; lia|].
  destruct (decide (y = p)) as [Hy|Hy]; simpl.
  - subst. rewrite occ_cons. repeat case_decide; try lia; congruence.
  - rewrite occ_cons. destruct (erase_first p l) as [l'|]; simpl in *; rewrite occ_cons, IH;
      repeat case_decide; subst; try lia; congruence.
Qed.

Lemma links_unlink p tasks t q u :
  links (unlink_task p tasks t) q u =
  (links tasks q u - if decide (q = p ∧ u = t) then 1 else 0)%nat.
Proof.
  unfold links, unlink_task, unlink. destruct (tasks !! t) as [ps|] eqn:Ht; simpl.
  - pose proof (erase_first_occ p ps q) as He.
    destruct (erase_first p ps) as [ps'|]; simpl in *.
    + destruct (decide (u = t)) as [->|Hu].
      * rewrite Ht. simpl. transitivity (occ q ps'); [by destruct ps'; simpl;
          rewrite ?lookup_delete_eq, ?lookup_insert_eq|].
        rewrite He. repeat case_decide; naive_solver lia.
      * rewrite decide_False by naive_solver. rewrite Nat.sub_0_r.
        destruct ps'; by rewrite ?lookup_delete_ne, ?lookup_insert_ne.
    + destruct (decide (q = p ∧ u = t)) as [Hd|Hd]; [|by rewrite Nat.sub_0_r]. destruct Hd as [-> ->]. rewrite Ht. simpl.
      rewrite decide_True in He by done. lia.
  - destruct (decide (q = p ∧ u = t)) as [Hd|Hd]; [|by rewrite Nat.sub_0_r]. destruct Hd as [-> ->]. by rewrite Ht.
Qed.

Lemma links_push p tasks t q u :
  links (push_task p tasks t) q u =
  (links tasks q u + if decide (q = p ∧ u = t) then 1 else 0)%nat.
Proof.
  unfold links, push_task. destruct (decide (u = t)) as [->|Hu].
  - rewrite lookup_insert_eq. simpl. rewrite occ_app, occ_cons. unfold occ at 3. simpl.
    repeat case_decide; naive_solver lia.
  - rewrite lookup_insert_ne by done. rewrite decide_False by naive_solver. lia.
Qed.

Lemma links_unlink_all p ts tasks q u :
  links (foldl (unlink_task p) tasks ts) q u =
  (links tasks q u - if decide (q = p) then occ u ts else 0)%nat.
Proof.
  revert tasks. induction ts as [|t ts IH]; intros tasks; simpl.
  - case_decide; unfold occ; simpl; lia.
  - rewrite IH, links_unlink, occ_cons. repeat case_decide; naive_solver lia.
Qed.

Lemma links_push_all p ts tasks q u :
  links (foldl (push_task p) tasks ts) q u =
  (links tasks q u + if decide (q = p) then occ u ts else 0)%nat.
Proof.
  revert tasks. induction ts as [|t ts IH]; intros tasks; simpl.
  - case_decide; unfold occ; simpl; lia.
  - rewrite IH, links_push, occ_cons. repeat case_decide; naive_solver lia.
Qed.

Lemma no_empty_unlink p tasks t : no_empty tasks → no_empty (unlink_task p tasks t).
Proof.
  intros Hn u. unfold unlink_task, unlink. destruct (tasks !! t) as [ps|]; simpl; [|apply Hn].
  destruct (erase_first p ps) as [[|q ps']|]; simpl; [..|apply Hn].
  - rewrite lookup_delete_Some. intros [_ H]. by apply (Hn u).
  - rewrite lookup_insert_Some. intros [[_ H]|[_ H]]; [done|by apply (Hn u)].
Qed.

Lemma no_empty_push p tasks t : no_empty tasks → no_empty (push_task p tasks t).
Proof.
  intros Hn u. unfold push_task. rewrite lookup_insert_Some. intros [[_ H]|[_ H]].
  - by apply app_nil in H as [_ H].
  - by apply (Hn u).
Qed.

Lemma no_empty_foldl (f : gmap Z (list loc) → Z → gmap Z (list loc)) (ts : list Z) tasks :
  (∀ tasks t, no_empty tasks → no_empty (f tasks t)) → no_empty tasks → no_empty (foldl f tasks ts).
Proof. intros Hf. revert tasks. induction ts; simpl; auto. Qed.

(** A task is unknown to a map without empty lists when nothing lists it. *)
Lemma unknown_links tasks t : no_empty tasks → tasks !! t = None ↔ ∀ p, links tasks p t = 0%nat.
Proof.
  intros Hn. unfold links. destruct (tasks !! t) as [[|q ps]|] eqn:E; simpl.
  - by destruct (Hn t).
  - split; [done|]. intros H. specialize (H q). rewrite occ_cons in H. by rewrite decide_True in H.
  - done.
Qed.

(** ** Consistency of the two maps

    A session links a task exactly as often as the task lists the session's
    value, and a task lists nothing else. *)
Record stm_ok (m : session_task_map) : Prop := {
  ok_entry : ∀ sid v, mSessions m !! sid = Some v →
    ∃ e vs, entries m !! val v = Some e ∧ sessionId e = sid ∧ vote_store m !! votes e = Some vs;
  ok_links : ∀ sid v t, mSessions m !! sid = Some v →
    links (mTasks m) (val v) t = occ t (linkedTasks v);
  ok_owner : ∀ p t, (0 < links (mTasks m) p t)%nat →
    ∃ sid v, mSessions m !! sid = Some v ∧ val v = p;
  ok_nonempty : no_empty (mTasks m);
  ok_fresh : ∀ p, is_Some (entries m !! p) → (p < next_loc m)%nat;
  ok_votes_fresh : ∀ p, is_Some (vote_store m !! p) → (p < next_loc m)%nat
}.

Lemma new_map_ok : stm_ok new_map.
Proof.
  split; simpl; intros *; rewrite ?lookup_empty; try done; try by intros [? ?].
  unfold links. simpl. rewrite lookup_empty. unfold occ. simpl. lia.
Qed.

(** Distinct sessions have distinct values. *)
Lemma ok_val_inj m sid1 sid2 v1 v2 :
  stm_ok m → mSessions m !! sid1 = Some v1 → mSessions m !! sid2 = Some v2 →
  val v1 = val v2 → sid1 = sid2.
Proof.
  intros Hm H1 H2 Hv. destruct (ok_entry m Hm _ _ H1) as (e1 & ? & He1 & <- & _).
  destruct (ok_entry m Hm _ _ H2) as (e2 & ? & He2 & <- & _). congruence.
Qed.

Lemma ok_val_fresh m sid v :
  stm_ok m → mSessions m !! sid = Some v → (val v < next_loc m)%nat.
Proof.
  intros Hm Hv. destruct (ok_entry m Hm _ _ Hv) as (e & _ & He & _). apply (ok_fresh m Hm). eauto.
Qed.

(** The location the next value gets is listed nowhere. *)
Lemma ok_links_fresh m t : stm_ok m → links (mTasks m) (next_loc m) t = 0%nat.
Proof.
  intros Hm. destruct (links (mTasks m) (next_loc m) t) eqn:E; [done|].
  destruct (ok_owner m Hm (next_loc m) t) as (sid & v & Hv & Hp); [lia|].
  pose proof (ok_val_fresh m sid v Hm Hv). lia.
Qed.

Lemma alloc_votes_ok vs m : stm_ok m → stm_ok (snd (alloc_votes vs m)).
Proof.
  intros Hm. split; simpl; try apply Hm.
  - intros sid v Hv. destruct (ok_entry m Hm _ _ Hv) as (e & vs' & He & Hs & Hvs).
    exists e, vs'. split_and!; [done..|]. rewrite lookup_insert_ne; [done|].
    pose proof (ok_votes_fresh m Hm (votes e) (ex_intro _ _ Hvs)). lia.
  - intros p Hp. pose proof (ok_fresh m Hm p Hp). lia.
  - intros p [x Hx]. apply lookup_insert_Some in Hx as [[<- _]|[_ Hx]]; [lia|].
    pose proof (ok_votes_fresh m Hm p (ex_intro _ _ Hx)). lia.
Qed.

Lemma add_ok sid sv ts m vs :
  stm_ok m → vote_store m !! votes sv = Some vs → stm_ok (snd (add sid sv ts m)).
Proof.
  intros Hm Hvs. unfold add. destruct (mSessions m !! sid) eqn:Hs; [done|]. simpl.
  split; simpl.
  - intros sid' v. rewrite lookup_insert_Some. intros [[<- <-]|[Hne Hv]]; simpl.
    + exists (with_id sid sv), vs. by rewrite lookup_insert_eq.
    + destruct (ok_entry m Hm _ _ Hv) as (e & vs' & He & Hi & Hvs').
      exists e, vs'. rewrite lookup_insert_ne; [done|].
      pose proof (ok_val_fresh m _ _ Hm Hv). lia.
  - intros sid' v t. rewrite lookup_insert_Some, links_push_all. intros [[<- <-]|[Hne Hv]]; simpl.
    + by rewrite decide_True, ok_links_fresh.
    + rewrite decide_False, Nat.add_0_r by (pose proof (ok_val_fresh m _ _ Hm Hv); lia).
      by apply (ok_links m Hm sid').
  - intros p t. rewrite links_push_all. case_decide as Hp.
    + intros _. exists sid, (VE p ts). subst. by rewrite lookup_insert_eq.
    + intros Hl. destruct (ok_owner m Hm p t) as (sid' & v & Hv & Hp'); [lia|].
      exists sid', v. rewrite lookup_insert_ne; [done|]. by intros ->; rewrite Hs in Hv.
  - apply no_empty_foldl; [intros; by apply no_empty_push|apply Hm].
  - intros p [x Hx]. apply lookup_insert_Some in Hx as [[<- _]|[_ Hx]]; [lia|].
    pose proof (ok_fresh m Hm p (ex_intro _ _ Hx)). lia.
  - intros p Hp. pose proof (ok_votes_fresh m Hm p Hp). lia.
Qed.

Lemma remove_ok sid m : stm_ok m → stm_ok (snd (remove sid m)).
Proof.
  intros Hm. unfold remove. destruct (mSessions m !! sid) as [v|] eqn:Hs; [|done]. simpl.
  split; simpl; try apply Hm.
  - intros sid' v'. rewrite lookup_delete_Some. intros [_ Hv]. by apply (ok_entry m Hm).
  - intros sid' v' t. rewrite lookup_delete_Some, links_unlink_all. intros [Hne Hv].
    rewrite decide_False, Nat.sub_0_r; [by apply (ok_links m Hm sid')|].
    intros E. apply Hne. symmetry. by eapply ok_val_inj.
  - intros p t. rewrite links_unlink_all. case_decide as Hp.
    + subst. rewrite (ok_links m Hm sid) by done. lia.
    + rewrite Nat.sub_0_r. intros Hl. destruct (ok_owner m Hm p t Hl) as (sid' & v' & Hv' & Hp').
      exists sid', v'. rewrite lookup_delete_ne; [done|]. intros ->. naive_solver.
  - apply no_empty_foldl; [intros; by apply no_empty_unlink|apply Hm].
Qed.

Lemma replace_run sid ts a r m v :
  stm_ok m → mSessions m !! sid = Some v →
  ∃ e, entries m !! val v = Some e ∧
    let m' := snd (add sid e ts (snd (remove sid m))) in
    replace sid ts a r m = Some (true, push_unknown m ts a, push_unknown m' (linkedTasks v) r, m').
Proof.
  intros Hm Hs. destruct (ok_entry m Hm _ _ Hs) as (e & vs & He & _ & Hvs).
  exists e. split; [done|]. unfold replace. rewrite Hs.
  replace (entries (snd (remove sid m))) with (entries m) by (unfold remove; by rewrite Hs).
  by rewrite He.
Qed.

(** [replace] never reads through a dangling pointer. *)
Lemma replace_ok sid ts a r m :
  stm_ok m → ∃ b a' r' m', replace sid ts a r m = Some (b, a', r', m') ∧ stm_ok m'.
Proof.
  intros Hm. destruct (mSessions m !! sid) as [v|] eqn:Hs.
  - destruct (replace_run sid ts a r m v Hm Hs) as (e & He & ->).
    do 4 eexists. split; [reflexivity|].
    destruct (ok_entry m Hm _ _ Hs) as (e' & vs & He' & _ & Hvs). simplify_eq.
    eapply add_ok; [by apply remove_ok|]. unfold remove. rewrite Hs. exact Hvs.
  - unfold replace. rewrite Hs. by do 4 eexists.
Qed.

(** The step of the manager when a thread of a session is gone. *)
Definition drop_dead (sid t : Z) (i : nat) (m : session_task_map) : session_task_map :=
  erase_task_at sid i (snd (removeDeadTaskSessionMap sid t m)).

Lemma removeDead_tasks sid t m v :
  mSessions m !! sid = Some v →
  snd (removeDeadTaskSessionMap sid t m) =
  STM (mSessions m) (unlink_task (val v) (mTasks m) t) (entries m) (vote_store m) (next_loc m).
Proof.
  intros Hs. unfold removeDeadTaskSessionMap, unlink_task. rewrite Hs.
  destruct (unlink _ _ _); simpl; [done|]. by destruct m.
Qed.

Lemma drop_dead_ok sid t i m v :
  stm_ok m → mSessions m !! sid = Some v → linkedTasks v !! i = Some t →
  stm_ok (drop_dead sid t i m).
Proof.
  intros Hm Hs Hi. unfold drop_dead. rewrite (removeDead_tasks _ _ _ _ Hs).
  split; simpl; try apply Hm.
  - intros sid' v'. rewrite lookup_alter_Some. intros [(<- & v0 & Hv0 & ->)|[_ Hv]]; simpl;
      by eapply (ok_entry m Hm).
  - intros sid' v' u. rewrite lookup_alter_Some, links_unlink.
    intros [(<- & v0 & Hv0 & ->)|[Hne Hv]]; simpl.
    + simplify_eq. rewrite (ok_links m Hm sid) by done. rewrite (occ_delete u t _ i Hi).
      repeat case_decide; naive_solver lia.
    + rewrite decide_False, Nat.sub_0_r; [by apply (ok_links m Hm sid')|].
      intros [E _]. apply Hne. symmetry. by eapply ok_val_inj.
  - intros p u. rewrite links_unlink. intros Hl.
    destruct (ok_owner m Hm p u) as (sid' & v' & Hv' & Hp'); [lia|].
    destruct (decide (sid = sid')) as [<-|Hne].
    + eexists sid, _. rewrite lookup_alter_eq, Hv'. done.
    + exists sid', v'. by rewrite lookup_alter_ne.
  - by apply no_empty_unlink, Hm.
Qed.

Lemma write_entry_ok p f m :
  (∀ e, sessionId (f e) = sessionId e ∧ votes (f e) = votes e) →
  stm_ok m → stm_ok (write_entry p f m).
Proof.
  intros Hf Hm. split; simpl; try apply Hm.
  - intros sid v Hv. destruct (ok_entry m Hm _ _ Hv) as (e & vs & He & Hi & Hvs).
    destruct (decide (p = val v)) as [->|Hne].
    + exists (f e), vs. destruct (Hf e) as [H1 H2]. rewrite lookup_alter_eq, He, H1, H2. done.
    + exists e, vs. by rewrite lookup_alter_ne.
  - intros q Hq. apply (ok_fresh m Hm). by rewrite lookup_alter_is_Some in Hq.
Qed.

Lemma write_votes_ok p f m : stm_ok m → stm_ok (write_votes p f m).
Proof.
  intros Hm. split; simpl; try apply Hm.
  - intros sid v Hv. destruct (ok_entry m Hm _ _ Hv) as (e & vs & He & Hi & Hvs).
    destruct (decide (p = votes e)) as [->|Hne].
    + exists e, (f vs). by rewrite lookup_alter_eq, Hvs.
    + exists e, vs. by rewrite lookup_alter_ne.
  - intros q Hq. apply (ok_votes_fresh m Hm). by rewrite lookup_alter_is_Some in Hq.
Qed.

(** ** What a client of the map sees: the tasks of each session *)
Definition linked (m : session_task_map) : gmap Z (list Z) := linkedTasks <$> mSessions m.
Definition linked_anywhere (l : gmap Z (list Z)) (t : Z) : Prop :=
  map_Exists (λ _ ts, t ∈ ts) l.
#[export] Instance linked_anywhere_dec l t : Decision (linked_anywhere l t).
Proof. unfold linked_anywhere. apply _. Defined.

Lemma unknown_iff m t : stm_ok m → mTasks m !! t = None ↔ ¬ linked_anywhere (linked m) t.
Proof.
  intros Hm. rewrite unknown_links by apply Hm. split.
  - intros Hl (sid & ts & Hs & Ht). apply lookup_fmap_Some in Hs as (v & <- & Hv).
    apply occ_pos in Ht. rewrite <- (ok_links m Hm sid v t Hv), Hl in Ht. lia.
  - intros Hn p. destruct (links (mTasks m) p t) eqn:E; [done|]. destruct Hn.
    destruct (ok_owner m Hm p t) as (sid & v & Hv & <-); [lia|].
    exists sid, (linkedTasks v). split; [unfold linked; by rewrite lookup_fmap, Hv|].
    apply occ_pos. rewrite <- (ok_links m Hm sid v t Hv). lia.
Qed.

Lemma push_unknown_spec m l out :
  stm_ok m →
  push_unknown m l (Some out) = Some (out ++ base.filter (λ t, ¬ linked_anywhere (linked m) t) l).
Proof.
  intros Hm. unfold push_unknown. simpl. do 2 f_equal. apply list_filter_iff.
  intros t. by apply unknown_iff.
Qed.

(** The ids read through the values that a list of tasks holds. *)
Lemma session_ids_of m ps :
  stm_ok m → (∀ p, p ∈ ps → ∃ sid v, mSessions m !! sid = Some v ∧ val v = p) →
  ∃ l, mapM (λ p, sessionId <$> entries m !! p) ps = Some l ∧
    ∀ sid, occ sid l = match mSessions m !! sid with Some v => occ (val v) ps | None => 0%nat end.
Proof.
  intros Hm. induction ps as [|p ps IH]; intros Hps.
  { exists []. split; [done|]. intros sid. by destruct (mSessions m !! sid). }
  destruct IH as (l & Hl & Hocc); [intros q Hq; apply Hps; set_solver|].
  destruct (Hps p) as (sid0 & v0 & Hv0 & Hp); [set_solver|].
  destruct (ok_entry m Hm _ _ Hv0) as (e & _ & He & Hi & _).
  exists (sid0 :: l). split; [simpl; rewrite <- Hp, He; simpl; by rewrite Hl, Hi|].
  intros sid. rewrite occ_cons, Hocc. destruct (mSessions m !! sid) as [v|] eqn:Hv.
  - rewrite occ_cons. f_equal. destruct (decide (sid = sid0)) as [->|Hne].
    + simplify_eq. by rewrite decide_True.
    + rewrite decide_False; [done|]. intros E. apply Hne. subst p. by eapply ok_val_inj.
  - rewrite decide_False; [done|]. by intros ->; rewrite Hv0 in Hv.
Qed.

(** The two directions of the map agree: a task names a session as often as
    the session links the task. *)
Definition two_way (m : session_task_map) : Prop :=
  ∀ t, ∃ l, getSessionIds t m = Some l ∧ ∀ sid, occ sid l = occ t (getTaskIds sid m).

Lemma stm_ok_two_way m : stm_ok m → two_way m.
Proof.
  intros Hm t. unfold getSessionIds, getTaskIds.
  assert (∀ sid v, mSessions m !! sid = Some v →
            occ t (linkedTasks v) = occ (val v) (default [] (mTasks m !! t))) as Hl
    by (intros sid v Hv; symmetry; by apply (ok_links m Hm sid)).
  destruct (mTasks m !! t) as [ps|] eqn:Ht.
  - destruct (session_ids_of m ps Hm) as (l & El & Hocc).
    { intros p Hp. apply (ok_owner m Hm p t). unfold links. rewrite Ht. by apply occ_pos. }
    exists l. split; [done|]. intros sid. rewrite Hocc.
    destruct (mSessions m !! sid) as [v|] eqn:Hv; [|done]. simpl. by rewrite (Hl sid v Hv).
  - exists []. split; [done|]. intros sid.
    destruct (mSessions m !! sid) as [v|] eqn:Hv; [|done]. simpl. by rewrite (Hl sid v Hv).
Qed.

(** replace on a consistent map gives the session exactly the new
    threads, keeps its value and votes and every other session, keeps the two
    directions of the map in agreement, and reports as added the new threads
    that no session had linked and as removed the old ones that no session
    links afterwards. *)
Theorem replace_moves_threads sid ts a r m v :
  stm_ok m → mSessions m !! sid = Some v →
  ∃ m' v', replace sid ts (Some a) (Some r) m =
      Some (true, Some (a ++ base.filter (λ t, ¬ linked_anywhere (linked m) t) ts),
            Some (r ++ base.filter (λ t, ¬ linked_anywhere (linked m') t) (linkedTasks v)), m') ∧
    linked m' = <[sid := ts]> (linked m) ∧ two_way m' ∧
    mSessions m' !! sid = Some v' ∧ votes_of m' (val v') = votes_of m (val v) ∧
    ∀ sid' u, sid' ≠ sid → mSessions m !! sid' = Some u →
      mSessions m' !! sid' = Some u ∧ votes_of m' (val u) = votes_of m (val u).
Proof.
  intros Hm Hs. destruct (ok_entry m Hm _ _ Hs) as (e & vs & He & Hid & Hvs).
  destruct (replace_run sid ts (Some a) (Some r) m v Hm Hs) as (e' & He' & Hr). simplify_eq.
  set (m' := snd (add (sessionId e) e ts (snd (remove (sessionId e) m)))) in *.
  assert (stm_ok m') as Hm'.
  { eapply add_ok; [by apply remove_ok|]. unfold remove. rewrite Hs. exact Hvs. }
  exists m', (VE (next_loc m) ts). rewrite Hr, !push_unknown_spec by done.
  split; [done|]. pose proof (stm_ok_two_way m' Hm') as Htw.
  assert (m' = STM (<[sessionId e := VE (next_loc m) ts]> (delete (sessionId e) (mSessions m)))
                 (mTasks m') (<[next_loc m := with_id (sessionId e) e]> (entries m))
                 (vote_store m) (S (next_loc m))) as Em.
  { unfold m', add, remove. rewrite Hs. simpl. by rewrite lookup_delete_eq. }
  clearbody m'. split; [|split; [done|]]; rewrite Em; simpl.
  - unfold linked. simpl. rewrite fmap_insert, fmap_delete. apply insert_delete_eq.
  - split; [apply lookup_insert_eq|]. split.
    + unfold votes_of. simpl. rewrite lookup_insert_eq, He. simpl. by destruct e.
    + intros sid' u Hne Hu. rewrite lookup_insert_ne, lookup_delete_ne by done.
      split; [done|]. unfold votes_of. simpl. rewrite lookup_insert_ne; [done|].
      pose proof (ok_val_fresh m sid' u Hm Hu). lia.
Qed.

(** Two sessions that share a thread. *)
Definition demo_entry (q : loc) : SessionValueEntry := Entry 0 100 10001 true true 0 q false.
Definition demo_map : session_task_map :=
  let m := snd (alloc_votes new_votes new_map) in
  snd (add 2 (demo_entry 0) [8; 9]%Z (snd (add 1 (demo_entry 0) [7; 8]%Z m))).

Lemma demo_map_ok : stm_ok demo_map.
Proof.
  eapply add_ok; [eapply add_ok; [apply alloc_votes_ok, new_map_ok|]|]; vm_compute; reflexivity.
Qed.

Lemma replace_moves_threads_witness :
  ∃ m' v', replace 1 [6; 9]%Z (Some []) (Some []) demo_map =
      Some (true, Some ([] ++ base.filter (λ t, ¬ linked_anywhere (linked demo_map) t) [6; 9]%Z),
            Some ([] ++ base.filter (λ t, ¬ linked_anywhere (linked m') t) [7; 8]%Z), m') ∧
    linked m' = <[1%Z := [6; 9]%Z]> (linked demo_map) ∧ two_way m' ∧
    mSessions m' !! 1%Z = Some v' ∧ votes_of m' (val v') = votes_of demo_map 1 ∧
    ∀ sid' u, sid' ≠ 1%Z → mSessions demo_map !! sid' = Some u →
      mSessions m' !! sid' = Some u ∧ votes_of m' (val u) = votes_of demo_map (val u).
Proof.
  apply (replace_moves_threads 1 [6; 9]%Z [] [] demo_map (VE 1 [7; 8]%Z)).
  - apply demo_map_ok.
  - vm_compute. reflexivity.
Defined.
