(* ===== verification/BackgroundWorker.v ===== *)
(** * The worker that runs timeouts at their deadline

    Models [power-libperfmgr/aidl/BackgroundWorker.h] and
    [BackgroundWorker.cpp]: a [TemplatePriorityQueueWorker] that keeps work
    packages by id, and the [PriorityQueueWorkerPool] whose threads take the
    packages out of a queue, earliest deadline first.  The model has one
    template worker in the pool.

    A step is a critical section, or the read of the id counter that
    [schedule] makes between its two critical sections without a lock, so that
    the calls of several threads interleave as they do in the code (a pool
    thread's pop and callback are one step).  Locks are
    held for a whole step and are not part of the state. *)
From S2P Require Import Prelude.

Section Worker.
Context {P : Type}.

(** ** Data *)

(** Where a call of [schedule] stands: the package is stored; the counter is
    read, and the pool is to be called with that id. *)
Inductive schedule_pc :=
  | Stored (t : Z)
  | IdRead (id t : Z).

Record worker := Worker {
  mPackageIdCounter : Z;
  mPackages : gmap Z P;
  mPackageQueue : list (Z * Z);
  registered : bool;
  calls : gmap nat schedule_pc;
  processed : list P
}.

Definition new_worker : worker := Worker 0 ∅ [] true ∅ [].

(** ** Steps *)

(** The first block of [TemplatePriorityQueueWorker::schedule]. *)
Definition schedule_store (tid : nat) (package : P) (t : Z) (w : worker) : worker :=
  let id := (mPackageIdCounter w + 1)%Z in
  Worker id
    (match mPackages w !! id with Some _ => mPackages w | None => <[id := package]> (mPackages w) end)
    (mPackageQueue w) (registered w) (<[tid := Stored t]> (calls w)) (processed w).

(** The argument of the call of the pool. *)
Definition schedule_read (tid : nat) (t : Z) (w : worker) : worker :=
  Worker (mPackageIdCounter w) (mPackages w) (mPackageQueue w) (registered w)
    (<[tid := IdRead (mPackageIdCounter w) t]> (calls w)) (processed w).

(** [PriorityQueueWorkerPool::schedule] *)
Definition pool_schedule (tid : nat) (id t : Z) (w : worker) : worker :=
  Worker (mPackageIdCounter w) (mPackages w) (mPackageQueue w ++ [(t, id)]) (registered w)
    (delete tid (calls w)) (processed w).

(** [process]: a package whose id is unknown is dropped. *)
Definition process (id : Z) (w : worker) : worker :=
  match mPackages w !! id with
  | None => w
  | Some package =>
      Worker (mPackageIdCounter w) (delete id (mPackages w)) (mPackageQueue w) (registered w)
        (calls w) (processed w ++ [package])
  end.

(** One turn of [PriorityQueueWorkerPool::loop] with the [i]-th package: the
    pop and the callback, which the thread makes one after the other, are one
    step. *)
Definition work (i : nat) (id : Z) (w : worker) : worker :=
  let w := Worker (mPackageIdCounter w) (mPackages w) (delete i (mPackageQueue w)) (registered w)
             (calls w) (processed w) in
  if registered w then process id w else w.

Definition removeCallback (w : worker) : worker :=
  Worker (mPackageIdCounter w) (mPackages w) (mPackageQueue w) false (calls w) (processed w).

(** [top] of the queue: no package is due earlier. *)
Definition is_top (l : list (Z * Z)) (t : Z) : Prop := Forall (λ x : Z * Z, (t ≤ fst x)%Z) l.

(** A step, with the package that a call of [schedule] is given in it. *)
Inductive worker_step : list P → worker → worker → Prop :=
  | step_store tid package t w : calls w !! tid = None →
      worker_step [package] w (schedule_store tid package t w)
  | step_read tid t w : calls w !! tid = Some (Stored t) →
      worker_step [] w (schedule_read tid t w)
  | step_post tid id t w : calls w !! tid = Some (IdRead id t) →
      worker_step [] w (pool_schedule tid id t w)
  | step_work i id t now w : mPackageQueue w !! i = Some (t, id) → is_top (mPackageQueue w) t →
      (t ≤ now)%Z → worker_step [] w (work i id w)
  | step_remove w : worker_step [] w (removeCallback w).

(** A run from the constructor, with the packages it was given.  Unless calls
    may overlap, one begins only when none is under way. *)
Inductive run (overlap : bool) : list P → worker → Prop :=
  | run_new : run overlap [] new_worker
  | run_step given l w w' :
      run overlap given w → worker_step l w w' → (overlap = false → l ≠ [] → calls w = ∅) →
      run overlap (given ++ l) w'.

(** The ids in the queue. *)
Definition queued (l : list (Z * Z)) : list Z := snd <$> l.

(** The packages that are stored. *)
Definition kept (w : worker) : list P := snd <$> map_to_list (mPackages w).

(** ** Without overlap no package is lost *)

(** The id a call will hand to the pool, when no other call begins. *)
Definition pc_id (w : worker) (pc : schedule_pc) : Z :=
  match pc with Stored _ => mPackageIdCounter w | IdRead id _ => id end.

Record serial_ok (w : worker) : Prop := {
  so_owned : registered w = true → ∀ id, is_Some (mPackages w !! id) →
    id ∈ queued (mPackageQueue w) ∨ ∃ tid pc, calls w !! tid = Some pc ∧ pc_id w pc = id;
  so_counter : ∀ id, is_Some (mPackages w !! id) → (id ≤ mPackageIdCounter w)%Z;
  so_pc : ∀ tid pc, calls w !! tid = Some pc → pc_id w pc = mPackageIdCounter w
}.

Lemma new_worker_ok : serial_ok new_worker.
Proof.
  split; simpl; [intros _ id [x Hx]|intros id [x Hx]|intros tid pc Hx];
    by rewrite lookup_empty in Hx.
Qed.

(** The call under way is the one that stores, if there is one. *)
Lemma store_ok tid package t w :
  serial_ok w → calls w = ∅ → serial_ok (schedule_store tid package t w).
Proof.
  intros Hw Hc. unfold schedule_store.
  assert (mPackages w !! (mPackageIdCounter w + 1)%Z = None) as Hnew.
  { destruct (mPackages w !! _) as [x|] eqn:E; [|done].
    pose proof (so_counter w Hw _ (mk_is_Some _ _ E)). lia. }
  rewrite Hnew. split; simpl.
  - intros Hr id [x Hx]. apply lookup_insert_Some in Hx as [[<- _]|[Hne Hx]].
    + right. exists tid, (Stored t). by rewrite lookup_insert_eq.
    + destruct (so_owned w Hw Hr id (mk_is_Some _ _ Hx)) as [Hq|(tid' & pc & Hpc & _)]; [by left|].
      by rewrite Hc, lookup_empty in Hpc.
  - intros id [x Hx]. apply lookup_insert_Some in Hx as [[<- _]|[Hne Hx]]; [lia|].
    pose proof (so_counter w Hw id (mk_is_Some _ _ Hx)). lia.
  - intros tid' pc. rewrite Hc. rewrite lookup_insert_Some, lookup_empty.
    by intros [[_ <-]|[_ ?]].
Qed.

Lemma read_ok tid t w :
  serial_ok w → calls w !! tid = Some (Stored t) → serial_ok (schedule_read tid t w).
Proof.
  intros Hw Hc. split; simpl.
  - intros Hr id Hid. destruct (so_owned w Hw Hr id Hid) as [Hq|(tid' & pc & Hpc & Hi)]; [by left|].
    right. rewrite (so_pc w Hw _ _ Hpc) in Hi. exists tid, (IdRead (mPackageIdCounter w) t).
    by rewrite lookup_insert_eq.
  - apply Hw.
  - intros tid' pc. rewrite lookup_insert_Some. intros [[_ <-]|[_ Hpc]]; [done|].
    exact (so_pc w Hw _ _ Hpc).
Qed.

Lemma post_call_ok tid id t w :
  serial_ok w → calls w !! tid = Some (IdRead id t) → serial_ok (pool_schedule tid id t w).
Proof.
  intros Hw Hc. pose proof (so_pc w Hw _ _ Hc) as Hi. simpl in Hi. split; simpl.
  - intros Hr id' Hid. left. unfold queued. rewrite fmap_app, elem_of_app.
    destruct (so_owned w Hw Hr id' Hid) as [Hq|(tid' & pc & Hpc & Hi')]; [by left|].
    right. rewrite (so_pc w Hw _ _ Hpc) in Hi'. subst. apply list_elem_of_singleton. done.
  - apply Hw.
  - intros tid' pc. rewrite lookup_delete_Some. intros [_ Hpc]. exact (so_pc w Hw _ _ Hpc).
Qed.

Lemma work_ok i id t w :
  serial_ok w → mPackageQueue w !! i = Some (t, id) → serial_ok (work i id w).
Proof.
  intros Hw Hi. unfold work. destruct (registered w) eqn:Hr; simpl.
  2:{ split; simpl; [congruence|apply Hw|intros tid pc Hpc; exact (so_pc w Hw _ _ Hpc)]. }
  assert (∀ id', id' ≠ id → id' ∈ queued (mPackageQueue w) →
            id' ∈ queued (delete i (mPackageQueue w))) as Hrest.
  { intros id' Hne. unfold queued. rewrite (delete_Permutation _ _ _ Hi) at 1. simpl. set_solver. }
  unfold process. simpl. destruct (mPackages w !! id) as [x|] eqn:Hx; split; simpl.
  - intros _ id' [y Hy]. apply lookup_delete_Some in Hy as [Hne Hy].
    destruct (so_owned w Hw Hr id' (mk_is_Some _ _ Hy)) as [Hq|]; [left; by apply Hrest|by right].
  - intros id' [y Hy]. apply lookup_delete_Some in Hy as [_ Hy]. eapply so_counter; eauto.
  - intros tid pc Hpc. exact (so_pc w Hw _ _ Hpc).
  - intros _ id' [y Hy].
    destruct (so_owned w Hw Hr id' (mk_is_Some _ _ Hy)) as [Hq|]; [|by right].
    left. apply Hrest; [|done]. intros ->. congruence.
  - apply Hw.
  - intros tid pc Hpc. exact (so_pc w Hw _ _ Hpc).
Qed.

Lemma serial_step_ok l w w' :
  worker_step l w w' → (l ≠ [] → calls w = ∅) → serial_ok w → serial_ok w'.
Proof.
  intros Hs Hb Hw. inversion Hs; subst.
  - apply store_ok; [done|]. by apply Hb.
  - by apply read_ok.
  - by apply post_call_ok.
  - by eapply work_ok.
  - split; simpl; [done|apply Hw|intros tid pc Hpc; exact (so_pc w Hw _ _ Hpc)].
Qed.

Lemma process_packages id w :
  processed (process id w) ++ kept (process id w) ≡ₚ processed w ++ kept w.
Proof.
  unfold process, kept. destruct (mPackages w !! id) as [x|] eqn:E; simpl; [|done].
  rewrite <- (map_to_list_delete (mPackages w) id x E). simpl. by rewrite <- app_assoc.
Qed.

Lemma step_packages l w w' : worker_step l w w' → serial_ok w →
  processed w' ++ kept w' ≡ₚ (processed w ++ kept w) ++ l.
Proof.
  intros Hs Hw. inversion Hs; subst; rewrite ?app_nil_r; try done.
  - unfold schedule_store. assert (mPackages w !! (mPackageIdCounter w + 1)%Z = None) as Hnew.
    { destruct (mPackages w !! _) as [x|] eqn:E; [|done].
      pose proof (so_counter w Hw _ (mk_is_Some _ _ E)). lia. }
    rewrite Hnew. unfold kept. simpl. rewrite map_to_list_insert by done. simpl.
    rewrite <- app_assoc. apply Permutation_app_head, Permutation_cons_append.
  - unfold work. simpl. by destruct (registered w); [rewrite process_packages|].
Qed.

Lemma run_packages given w : run false given w → serial_ok w ∧ processed w ++ kept w ≡ₚ given.
Proof.
  induction 1 as [|given l w w' _ [Hw IH] Hs Hb].
  - split; [apply new_worker_ok|done].
  - split; [eapply serial_step_ok; eauto|]. by rewrite (step_packages l w w' Hs Hw), IH.
Qed.

Lemma kept_none w : (∀ id, ¬ is_Some (mPackages w !! id)) → kept w = [].
Proof.
  intros H. unfold kept. replace (mPackages w) with (∅ : gmap Z P); [done|].
  symmetry. apply map_eq. intros id. rewrite lookup_empty. apply eq_None_not_Some, H.
Qed.
End Worker.
Arguments worker : clear implicits.

(** C17: If no call of schedule begins while another is under way, what the
    callback was handed and what is stored are together the packages that
    schedule was given, each as often as it was given, whatever the pool
    threads do and also after the callback was removed. While it is
    registered, each stored package has its id in the queue, or the call that
    stored it is still under way and will put it there; so when no call is
    under way and the queue is empty, the callback was handed every package
    once. If two calls overlap, the id counter, which is read outside of the
    lock, can make both hand over the second id: when all is done the first
    package is still stored and was never handed to the callback. *)
Theorem worker_loses_packages_only_by_overlap :
  (∀ (P : Type) (given : list P) (w : worker P), run false given w →
     processed w ++ (map_to_list (mPackages w)).*2 ≡ₚ given ∧
     (registered w = true →
        (∀ id, is_Some (mPackages w !! id) →
           (∃ t, (t, id) ∈ mPackageQueue w) ∨
           ∃ tid t, calls w !! tid = Some (IdRead id t) ∨
             (calls w !! tid = Some (Stored t) ∧ mPackageIdCounter w = id)) ∧
        (calls w = ∅ → mPackageQueue w = [] → processed w ≡ₚ given))) ∧
  (∃ w : worker nat, run true [7; 8]%nat w ∧ registered w = true ∧ calls w = ∅ ∧
     mPackageQueue w = [] ∧ processed w = [8]%nat ∧ mPackages w !! 1%Z = Some 7%nat).
Proof.
  split.
  - intros P given w [Hw Hp]%run_packages. split; [exact Hp|]. intros Hreg.
    assert (∀ id, is_Some (mPackages w !! id) →
           (∃ t, (t, id) ∈ mPackageQueue w) ∨
           ∃ tid t, calls w !! tid = Some (IdRead id t) ∨
             (calls w !! tid = Some (Stored t) ∧ mPackageIdCounter w = id)) as Hall.
    { intros id Hid. destruct (so_owned w Hw Hreg id Hid) as [Hq|(tid & pc & Hpc & Hi)].
      - left. unfold queued in Hq. apply list_elem_of_fmap in Hq as [[t id'] [-> Hq]]. by exists t.
      - right. exists tid. destruct pc as [t|id' t]; exists t; simpl in Hi; [by right|left; congruence]. }
    split; [exact Hall|]. intros Hc Hq. rewrite <- Hp.
    fold (kept w). rewrite (kept_none w), app_nil_r; [done|].
    intros id Hid. destruct (Hall id Hid) as [[t Ht]|(tid & t & [Ht|[Ht _]])].
    + rewrite Hq in Ht. by apply not_elem_of_nil in Ht.
    + by rewrite Hc, lookup_empty in Ht.
    + by rewrite Hc, lookup_empty in Ht.
  - (* both calls store their package before either reads the counter *)
    set (w2 := schedule_store 1 8%nat 20 (schedule_store 0 7%nat 10 new_worker)).
    set (w4 := pool_schedule 0 2 10 (schedule_read 0 10 w2)).
    set (w6 := pool_schedule 1 2 20 (schedule_read 1 20 w4)).
    exists (work 0 2 (work 0 2 w6)). split; [|split; [done|split; [done|split; [done|split; [done|]]]]].
    + pose proof (run_new (P := nat) true) as H.
      eapply run_step in H; [|apply (step_store 0 7%nat 10 new_worker); vm_compute; reflexivity|done].
      eapply run_step in H; [|apply (step_store 1 8%nat 20); vm_compute; reflexivity|done]. fold w2 in H.
      eapply run_step in H; [|apply (step_read 0 10); vm_compute; reflexivity|done].
      eapply run_step in H; [|apply (step_post 0 2 10); vm_compute; reflexivity|done]. fold w4 in H.
      eapply run_step in H; [|apply (step_read 1 20); vm_compute; reflexivity|done].
      eapply run_step in H; [|apply (step_post 1 2 20); vm_compute; reflexivity|done]. fold w6 in H.
      eapply run_step in H; [|apply (step_work 0 2 10 20); [vm_compute; reflexivity|apply (bool_decide_unpack _); vm_compute; exact I|lia]|done].
      eapply run_step in H; [|apply (step_work 0 2 20 20); [vm_compute; reflexivity|apply (bool_decide_unpack _); vm_compute; exact I|lia]|done].
      exact H.
    + done.
Qed.

(** A package is stored, queued and handed to the callback. *)
Lemma worker_loses_packages_only_by_overlap_witness :
  ∃ w : worker nat, run false [7]%nat w ∧ processed w = [7]%nat ∧ processed w ≡ₚ [7]%nat.
Proof.
  pose proof (run_new (P := nat) false) as H.
  eapply run_step in H; [|apply (step_store 0 7%nat 10 new_worker); vm_compute; reflexivity|intros _ _; reflexivity].
  eapply run_step in H; [|apply (step_read 0 10); vm_compute; reflexivity|intros _ E; destruct E; reflexivity].
  eapply run_step in H; [|apply (step_post 0 1 10); vm_compute; reflexivity|intros _ E; destruct E; reflexivity].
  eapply run_step in H; [|apply (step_work 0 1 10 20); [vm_compute; reflexivity|apply (bool_decide_unpack _); vm_compute; exact I|lia]|intros _ E; destruct E; reflexivity].
  eexists. split; [exact H|]. split; [reflexivity|].
  apply (proj1 worker_loses_packages_only_by_overlap _ _ _ H); reflexivity.
Defined.
