(* ===== verification/PowerSession.v ===== *)
(** * The manager of power hint sessions

    Models [PowerSessionManager] of [power-libperfmgr/aidl]: sessions come and
    go, change threads, are paused and resumed, and vote; every change applies
    the clamp of each thread concerned with a system call, and a vote that is
    set schedules an event that ends it.

    What the manager calls is not fixed: the clock, the scheduler's system
    call, the task profiles of Android, the hint manager of libperfmgr and the
    GPU capacity node answer as they like.  Each public operation runs to its
    end before the next one; tracing is left out. *)
From S2P Require Import Prelude UClampVoter SessionTaskMap.

(** ** Data *)
Inductive ProcessTag := DEFAULT | SYSTEM_UI.
Inductive TaskProfile :=
  | SCHED_QOS_SENSITIVE_EXTREME_SET | SCHED_QOS_SENSITIVE_STANDARD_SET
  | SCHED_QOS_SENSITIVE_EXTREME_CLEAR | SCHED_QOS_SENSITIVE_STANDARD_CLEAR.

(** The fields of the profile of libperfmgr that are used.  The code reads the
    offset when only the base is known to be there. *)
Record AdpfProfile := Profile {
  mUclampMinOn : bool;
  mGpuBoostOn : bool;
  mUclampMaxEfficientBase : option Z;
  mUclampMaxEfficientOffset : option Z;
  efficient_both : is_Some mUclampMaxEfficientBase → is_Some mUclampMaxEfficientOffset
}.

Inductive psm_call : Type → Type :=
  | Now : psm_call Z
  | Sched_setattr (tid lo hi : Z) : psm_call Z
  | SetTaskProfiles (tid : Z) (p : TaskProfile) : psm_call bool
  | GetAdpfProfile : psm_call AdpfProfile
  | IsHintSupported : psm_call bool
  | DoHint : psm_call ()
  | EndHint : psm_call ()
  | Set_gpu_capacity (capacity : Z) : psm_call ()
  | Weak_lock (session : Z) : psm_call bool.

Record EventSessionTimeout := Timeout { timeStamp : Z; evSessionId : Z; evVoteId : Z }.

(** The manager, with the packages its worker holds and their deadlines.  The
    weak pointers of [mSessionMap] are names of session objects. *)
Record psm := PSM {
  mSessionTaskMap : session_task_map;
  mGpuCapacityNode : bool;
  mSessionMap : gmap Z Z;
  pending : list (Z * EventSessionTimeout)
}.

Definition new_manager (node : bool) : psm := PSM new_map node ∅ [].

Definition with_map (m : session_task_map) (s : psm) : psm :=
  PSM m (mGpuCapacityNode s) (mSessionMap s) (pending s).
Definition with_sessions (f : gmap Z Z → gmap Z Z) (s : psm) : psm :=
  PSM (mSessionTaskMap s) (mGpuCapacityNode s) (f (mSessionMap s)) (pending s).
Definition with_pending (l : list (Z * EventSessionTimeout)) (s : psm) : psm :=
  PSM (mSessionTaskMap s) (mGpuCapacityNode s) (mSessionMap s) l.

Abbreviation op A := (prog psm_call psm A).

Definition map_of : op session_task_map := gets mSessionTaskMap.
Definition update_map (f : session_task_map → session_task_map) : op () :=
  modify (λ s, with_map (f (mSessionTaskMap s)) s).
(** A value the map computes by reading through its pointers. *)
Definition read {A} (f : session_task_map → option A) : op A :=
  Get (λ s, match f (mSessionTaskMap s) with Some a => Ret a | None => Ub end).
Definition schedule (deadline : Z) (e : EventSessionTimeout) : op () :=
  modify (λ s, with_pending (pending s ++ [(deadline, e)]) s).

Definition ESRCH : Z := 3.
Definition AID_APP_START : Z := 10000.

(** ** Applying votes *)
Definition set_uclamp (tid : Z) (r : UclampRange) : op Z :=
  let lo := Z.min (Z.max kUclampMin (uclampMin r)) kUclampMax in
  let hi := Z.min (Z.max (uclampMax r) lo) kUclampMax in
  call (Sched_setattr tid lo hi).

(** The loop of [applyUclampLocked]; [i] is the position of [tidIter].  Out of
    fuel is [Ub], so that a proof that it does not occur is a proof that the
    loop ends. *)
Fixpoint apply_threads (fuel : nat) (sid timePoint : Z) (config : AdpfProfile) (i : nat) : op () :=
  m ← map_of;
  match getTaskIds sid m !! i with
  | None => mret ()
  | Some tid =>
      match fuel with
      | O => Ub
      | S fuel =>
          r ← read (getTaskVoteRange tid timePoint default_range
                      (mUclampMaxEfficientBase config) (mUclampMaxEfficientOffset config));
          stat ← set_uclamp tid r;
          if (stat =? ESRCH)%Z then
            update_map (drop_dead sid tid i);;
            apply_threads fuel sid timePoint config i
          else apply_threads fuel sid timePoint config (S i)
      end
  end.

Definition applyUclampLocked (sid timePoint : Z) : op () :=
  config ← call GetAdpfProfile;
  m ← map_of;
  match findSession sid m with
  | None => mret ()
  | Some p =>
      when (mUclampMinOn config)
        (apply_threads (length (getTaskIds sid m)) sid timePoint config 0);;
      update_map (write_entry p (with_updated timePoint))
  end.

Definition applyGpuVotesLocked (sid timePoint : Z) : op () :=
  m ← map_of;
  match findSession sid m with
  | None => mret ()
  | Some p =>
      config ← call GetAdpfProfile;
      node ← gets mGpuCapacityNode;
      when (node && mGpuBoostOn config)
        (c ← read (getSessionsGpuCapacity timePoint); call (Set_gpu_capacity c));;
      update_map (write_entry p (with_updated timePoint))
  end.

Definition applyCpuAndGpuVotes (sid timePoint : Z) : op () :=
  applyUclampLocked sid timePoint;; applyGpuVotesLocked sid timePoint.

Definition disableSystemTopAppBoost : op () :=
  b ← call IsHintSupported; when b (call DoHint).
Definition enableSystemTopAppBoost : op () :=
  b ← call IsHintSupported; when b (call EndHint).

Definition updateUniversalBoostMode : op () :=
  now ← call Now;
  active ← read (isAnyAppSessionActive now);
  if (active : bool) then disableSystemTopAppBoost else enableSystemTopAppBoost.

Definition forceSessionActive (sid : Z) (active : bool) : op () :=
  m ← map_of;
  match findSession sid m with
  | None => mret ()
  | Some p =>
      update_map (write_entry p (with_active active));;
      now ← call Now;
      applyCpuAndGpuVotes sid now;;
      updateUniversalBoostMode
  end.

(** ** Sessions and their threads *)
Fixpoint set_profiles (p : TaskProfile) (tids : list Z) : op () :=
  match tids with
  | [] => mret ()
  | tid :: tids => _ ← call (SetTaskProfiles tid p); set_profiles p tids
  end.

Definition clear_profile (t : ProcessTag) : TaskProfile :=
  match t with
  | SYSTEM_UI => SCHED_QOS_SENSITIVE_EXTREME_CLEAR
  | DEFAULT => SCHED_QOS_SENSITIVE_STANDARD_CLEAR
  end.
Definition set_profile (t : ProcessTag) : TaskProfile :=
  match t with
  | SYSTEM_UI => SCHED_QOS_SENSITIVE_EXTREME_SET
  | DEFAULT => SCHED_QOS_SENSITIVE_STANDARD_SET
  end.

(** [mSessionTaskMap.replace] with both out vectors, empty before the call. *)
Definition replace_threads (sid : Z) (tids : list Z) : op (list Z * list Z) :=
  '(_, added, removed, m) ← read (replace sid tids (Some []) (Some []));
  update_map (λ _, m);;
  mret (default [] added, default [] removed).

Definition setThreadsFromPowerSession (sid : Z) (tids : list Z) (tag : ProcessTag) : op () :=
  forceSessionActive sid false;;
  '(added, removed) ← replace_threads sid tids;
  set_profiles (set_profile tag) added;;
  set_profiles (clear_profile tag) removed;;
  forceSessionActive sid true.

(** The fields of the session descriptor that are used; [None] is a null
    descriptor. *)
Record AppHintDesc := Desc {
  desc_sessionId : Z; desc_tgid : Z; desc_uid : Z; desc_active : bool; targetNs : Z
}.

Definition addPowerSession (d : option AppHintDesc) (tids : list Z) (tag : ProcessTag) : op () :=
  match d with
  | None => mret ()
  | Some d =>
      timeNow ← call Now;
      p ← gets (λ s, fst (alloc_votes new_votes (mSessionTaskMap s)));
      update_map (λ m, snd (alloc_votes new_votes m));;
      let sve := Entry 0 (desc_tgid d) (desc_uid d) (desc_active d)
                   (AID_APP_START <=? desc_uid d)%Z timeNow p false in
      update_map (write_votes p (add_cpu (vote_id CPU_VOTE_DEFAULT)
        (Cpu (VR false timeNow (targetNs d)) (Range kUclampMin kUclampMax))));;
      update_map (λ m, snd (add (desc_sessionId d) sve [] m));;
      setThreadsFromPowerSession (desc_sessionId d) tids tag
  end.

(** The session objects, by session id converted to the [int] of the key. *)
Definition session_key (sid : Z) : Z := wrap_signed 32 sid.
Definition registerSession (session sid : Z) : op () :=
  modify (with_sessions <[session_key sid := session]>).
Definition unregisterSession (sid : Z) : op () :=
  modify (with_sessions (delete (session_key sid))).
Definition getSession (sid : Z) : op (option Z) :=
  l ← gets mSessionMap;
  match l !! session_key sid with
  | None => mret None
  | Some session =>
      alive ← call (Weak_lock session);
      if (alive : bool) then mret (Some session)
      else modify (with_sessions (delete (session_key sid)));; mret None
  end.
Definition clear : op () := modify (with_sessions (λ _, ∅)).

Definition removePowerSession (sid : Z) (tag : ProcessTag) : op () :=
  forceSessionActive sid false;;
  '(_, removed) ← replace_threads sid [];
  update_map (λ m, snd (remove sid m));;
  set_profiles (clear_profile tag) removed;;
  unregisterSession sid.

(** [pause] and [resume]: nothing happens unless the flag changes. *)
Definition switch_active (sid : Z) (active : bool) : op () :=
  m ← map_of;
  match findSession sid m with
  | None => mret ()
  | Some p =>
      e ← read (λ m, entries m !! p);
      if Bool.eqb (isActive e) active then mret ()
      else
        update_map (write_entry p (with_active active));;
        now ← call Now;
        applyCpuAndGpuVotes sid now;;
        updateUniversalBoostMode
  end.
Definition pause (sid : Z) : op () := switch_active sid false.
Definition resume (sid : Z) : op () := switch_active sid true.

Definition setPreferPowerEfficiency (sid : Z) (enabled : bool) : op () :=
  m ← map_of;
  match findSession sid m with
  | None => mret ()
  | Some p =>
      e ← read (λ m, entries m !! p);
      if Bool.eqb enabled (isPowerEfficient e) then mret ()
      else
        update_map (write_entry p (with_efficient enabled));;
        now ← call Now;
        applyUclampLocked sid now
  end.

(** ** Votes *)
Definition updateTargetWorkDuration (sid : Z) (v : AdpfVoteType) (durationNs : Z) : op () :=
  m ← map_of;
  match findSession sid m with
  | None => mret ()
  | Some p =>
      '(e, _) ← read (λ m, votes_of m p);
      update_map (write_votes (votes e) (updateDuration (vote_id v) durationNs))
  end.

Definition shouldScheduleTimeout (vs : Votes) (id deadline : Z) : bool :=
  negb (voteIsActive vs id) || (deadline <? voteTimeout vs id)%Z.

(** The two overloads of [voteSet] differ in the vote they add and in how
    they apply it. *)
Definition voteSet_with (sid id startTime durationNs : Z)
    (add_vote : session_task_map → option session_task_map) (apply : op ()) : op () :=
  m ← map_of;
  match findSession sid m with
  | None => mret ()
  | Some p =>
      '(_, vs) ← read (λ m, votes_of m p);
      let scheduleTimeout := shouldScheduleTimeout vs id (startTime + durationNs) in
      m' ← read add_vote;
      update_map (λ _, m');;
      update_map (write_entry p (with_updated startTime));;
      apply;;
      when scheduleTimeout (schedule (startTime + durationNs) (Timeout startTime sid id))
  end.
Definition voteSet (sid : Z) (v : AdpfVoteType) (lo hi startTime durationNs : Z) : op () :=
  voteSet_with sid (vote_id v) startTime durationNs
    (addVote sid (vote_id v) lo hi startTime durationNs) (applyUclampLocked sid startTime).
Definition voteSet_gpu (sid : Z) (v : AdpfVoteType) (capacity startTime durationNs : Z) : op () :=
  voteSet_with sid (vote_id v) startTime durationNs
    (addGpuVote sid (vote_id v) capacity startTime durationNs) (applyGpuVotesLocked sid startTime).

Definition boosts : list AdpfVoteType :=
  [CPU_LOAD_UP; CPU_LOAD_RESET; CPU_LOAD_RESUME; VOTE_POWER_EFFICIENCY; GPU_LOAD_UP; GPU_LOAD_RESET].

Definition use_vote (p : loc) (id : Z) (active : bool) : op () :=
  '(e, _) ← read (λ m, votes_of m p);
  update_map (write_votes (votes e) (λ vs, snd (setUseVote id active vs))).

Fixpoint disable_votes (p : loc) (l : list AdpfVoteType) : op () :=
  match l with
  | [] => mret ()
  | v :: l => use_vote p (vote_id v) false;; disable_votes p l
  end.

Definition disableBoosts (sid : Z) : op () :=
  m ← map_of;
  match findSession sid m with None => mret () | Some p => disable_votes p boosts end.

Definition handleEvent (ev : EventSessionTimeout) : op () :=
  tNow ← call Now;
  m ← map_of;
  match findSession (evSessionId ev) m with
  | None => mret ()
  | Some p =>
      '(_, vs) ← read (λ m, votes_of m p);
      if voteIsActive vs (evVoteId ev) then
        if (voteTimeout vs (evVoteId ev) <=? tNow)%Z then
          use_vote p (evVoteId ev) false;;
          applyCpuAndGpuVotes (evSessionId ev) tNow;;
          updateUniversalBoostMode
        else schedule (voteTimeout vs (evVoteId ev)) ev
      else mret ()
  end.

(** The worker hands its [i]-th package to the manager. *)
Definition fire (i : nat) : op () :=
  l ← gets pending;
  match l !! i with
  | None => mret ()
  | Some (_, ev) =>
      modify (λ s, with_pending (delete i (pending s)) s);;
      handleEvent ev
  end.

(** ** What the map operations do to the votes of a session *)
Definition view (m : session_task_map) (sid : Z) : option Votes :=
  v ← mSessions m !! sid; snd <$> votes_of m (val v).

(** No two sessions share their votes. *)
Definition private_votes (m : session_task_map) : Prop :=
  ∀ sid1 sid2 v1 v2 e1 e2,
    mSessions m !! sid1 = Some v1 → mSessions m !! sid2 = Some v2 →
    entries m !! val v1 = Some e1 → entries m !! val v2 = Some e2 →
    votes e1 = votes e2 → sid1 = sid2.

Record map_ok (m : session_task_map) : Prop := {
  mo_ok : stm_ok m;
  mo_private : private_votes m
}.

(** A change of the map that keeps it consistent and no session's votes. *)
Definition same_view (m m' : session_task_map) : Prop := ∀ sid, view m' sid = view m sid.

Lemma map_ok_votes m sid p :
  map_ok m → findSession sid m = Some p →
  ∃ e vs, votes_of m p = Some (e, vs) ∧ entries m !! p = Some e ∧
    vote_store m !! votes e = Some vs ∧ view m sid = Some vs.
Proof.
  intros [Hm _] Hf. unfold findSession in Hf. apply fmap_Some in Hf as (v & Hv & ->).
  destruct (ok_entry m Hm _ _ Hv) as (e & vs & He & _ & Hvs). exists e, vs.
  unfold view, votes_of. rewrite Hv. simpl. rewrite He. simpl. by rewrite Hvs.
Qed.

Lemma view_dom m sid : map_ok m → view m sid = None ↔ mSessions m !! sid = None.
Proof.
  intros Hm. destruct (mSessions m !! sid) as [v|] eqn:Hv.
  - destruct (map_ok_votes m sid (val v) Hm) as (e & vs & _ & _ & _ & ->); [|naive_solver].
    unfold findSession. by rewrite Hv.
  - unfold view. by rewrite Hv.
Qed.

Lemma write_entry_map_ok p f m :
  (∀ e, sessionId (f e) = sessionId e ∧ votes (f e) = votes e) →
  map_ok m → map_ok (write_entry p f m) ∧ same_view m (write_entry p f m).
Proof.
  intros Hf [Hm Hp]. split; [split; [by apply write_entry_ok|]|].
  - intros sid1 sid2 v1 v2 e1 e2 H1 H2. simpl in *. rewrite !lookup_alter_Some.
    intros He1 He2 Hv.
    assert (∀ q e, (p = q ∧ (∃ x, entries m !! q = Some x ∧ e = f x) ∨ p ≠ q ∧ entries m !! q = Some e) →
              ∃ x, entries m !! q = Some x ∧ votes x = votes e) as Hx.
    { intros q e [(-> & x & Hx & ->)|[_ He]]; [|by exists e].
      exists x. split; [done|]. by destruct (Hf x). }
    destruct (Hx _ _ He1) as (x1 & Hx1 & E1), (Hx _ _ He2) as (x2 & Hx2 & E2).
    eapply (Hp sid1 sid2); eauto. congruence.
  - intros sid. unfold view. simpl. destruct (mSessions m !! sid) as [v|]; [|done]. simpl.
    unfold votes_of. simpl. destruct (decide (p = val v)) as [->|Hne].
    + rewrite lookup_alter_eq. destruct (entries m !! val v) as [e|]; [|done]. simpl.
      destruct (Hf e) as [_ ->]. by destruct (vote_store m !! votes e).
    + by rewrite lookup_alter_ne.
Qed.

Lemma write_votes_map_ok sid p e f m :
  map_ok m → findSession sid m = Some p → entries m !! p = Some e →
  map_ok (write_votes (votes e) f m) ∧
  ∀ sid', view (write_votes (votes e) f m) sid' =
    if decide (sid' = sid) then f <$> view m sid' else view m sid'.
Proof.
  intros [Hm Hp] Hf He. split; [split; [by apply write_votes_ok|exact Hp]|].
  unfold findSession in Hf. apply fmap_Some in Hf as (v & Hv & ->).
  intros sid'. unfold view. simpl.
  destruct (mSessions m !! sid') as [v'|] eqn:Hv'; [|by destruct (decide (sid' = sid))].
  simpl. unfold votes_of. simpl. destruct (ok_entry m Hm _ _ Hv') as (e' & vs & He' & _ & Hvs).
  rewrite He'. simpl. destruct (decide (sid' = sid)) as [->|Hne].
  - simplify_eq. by rewrite lookup_alter_eq, Hvs.
  - rewrite lookup_alter_ne; [done|]. intros E. apply Hne. symmetry. by eapply (Hp sid sid').
Qed.

Lemma drop_dead_map_ok sid t i m :
  map_ok m → getTaskIds sid m !! i = Some t →
  map_ok (drop_dead sid t i m) ∧ same_view m (drop_dead sid t i m) ∧
  getTaskIds sid (drop_dead sid t i m) = delete i (getTaskIds sid m).
Proof.
  intros [Hm Hp] Hi. unfold getTaskIds in *.
  destruct (mSessions m !! sid) as [v|] eqn:Hs; [|done]. simpl in Hi.
  pose proof (drop_dead_ok sid t i m v Hm Hs Hi) as Hok.
  unfold drop_dead in *. rewrite (removeDead_tasks _ _ _ _ Hs) in *. simpl in *.
  split; [split; [done|]|split].
  - intros sid1 sid2 v1 v2 e1 e2. simpl. rewrite !lookup_alter_Some.
    intros [(<- & u1 & H1 & ->)|[_ H1]] [(<- & u2 & H2 & ->)|[_ H2]]; simpl; eauto using Hp.
  - intros sid'. unfold view. simpl. destruct (decide (sid = sid')) as [<-|Hne].
    + by rewrite lookup_alter_eq, Hs.
    + by rewrite lookup_alter_ne.
  - by rewrite lookup_alter_eq, Hs.
Qed.

(** The votes of a new session: no other session has them. *)
Definition unused_votes (m : session_task_map) (q : loc) : Prop :=
  ∀ sid v e, mSessions m !! sid = Some v → entries m !! val v = Some e → votes e ≠ q.

Lemma add_map_ok sid sv ts m vs :
  map_ok m → vote_store m !! votes sv = Some vs → unused_votes m (votes sv) →
  map_ok (snd (add sid sv ts m)) ∧
  ∀ sid', view (snd (add sid sv ts m)) sid' =
    if decide (sid' = sid ∧ mSessions m !! sid = None) then Some vs else view m sid'.
Proof.
  intros [Hm Hp] Hvs Hun. pose proof (add_ok sid sv ts m vs Hm Hvs) as Hok.
  unfold add in *. destruct (mSessions m !! sid) eqn:Hs; simpl in *.
  { split; [done|]. intros sid'. by rewrite decide_False by naive_solver. }
  assert (∀ sid' v, mSessions m !! sid' = Some v →
            <[next_loc m := with_id sid sv]> (entries m) !! val v = entries m !! val v) as Hold.
  { intros sid' v Hv. rewrite lookup_insert_ne; [done|].
    pose proof (ok_val_fresh m sid' v Hm Hv). lia. }
  split; [split; [done|]|].
  - intros sid1 sid2 v1 v2 e1 e2 Hv1 Hv2 He1 He2 Hv. simpl in *.
    apply lookup_insert_Some in Hv1 as [[<- <-]|[_ Hv1]], Hv2 as [[<- <-]|[_ Hv2]]; simpl in *;
      rewrite ?lookup_insert_eq in *;
      try rewrite (Hold _ _ Hv1) in He1; try rewrite (Hold _ _ Hv2) in He2; simplify_eq.
    + done.
    + symmetry in Hv. by destruct (Hun _ _ _ Hv2 He2).
    + by destruct (Hun _ _ _ Hv1 He1).
    + by eapply Hp.
  - intros sid'. unfold view. simpl. destruct (decide (sid' = sid)) as [->|Hne].
    + rewrite lookup_insert_eq, decide_True by done. simpl. unfold votes_of. simpl.
      rewrite lookup_insert_eq. simpl. by rewrite Hvs.
    + rewrite lookup_insert_ne, decide_False by naive_solver.
      destruct (mSessions m !! sid') as [v|] eqn:Hv; [|done]. simpl. unfold votes_of. simpl.
      by rewrite (Hold sid' v Hv).
Qed.

Lemma new_votes_map_ok vs m :
  map_ok m →
  let p := next_loc m in
  let m' := snd (alloc_votes vs m) in
  map_ok m' ∧ same_view m m' ∧ unused_votes m' p ∧ vote_store m' !! p = Some vs.
Proof.
  intros [Hm Hp] p m'.
  assert (∀ sid v e, mSessions m !! sid = Some v → entries m !! val v = Some e →
            votes e ≠ next_loc m) as Hne.
  { intros sid v e Hv He. destruct (ok_entry m Hm _ _ Hv) as (e' & vs' & He' & _ & Hvs').
    simplify_eq. pose proof (ok_votes_fresh m Hm (votes e) (ex_intro _ _ Hvs')). lia. }
  split; [split; [by apply alloc_votes_ok|exact Hp]|]. split_and!.
  - intros sid. unfold view. simpl. destruct (mSessions m !! sid) as [v|] eqn:Hv; [|done].
    simpl. unfold votes_of. simpl. destruct (entries m !! val v) as [e|] eqn:He; [|done].
    simpl. rewrite lookup_insert_ne; [done|]. symmetry. by eapply Hne.
  - exact Hne.
  - apply lookup_insert_eq.
Qed.

Lemma write_unused_map_ok q f m :
  map_ok m → unused_votes m q →
  map_ok (write_votes q f m) ∧ same_view m (write_votes q f m).
Proof.
  intros [Hm Hp] Hun. split; [split; [by apply write_votes_ok|exact Hp]|].
  intros sid. unfold view. simpl. destruct (mSessions m !! sid) as [v|] eqn:Hv; [|done].
  simpl. unfold votes_of. simpl. destruct (entries m !! val v) as [e|] eqn:He; [|done].
  simpl. rewrite lookup_alter_ne; [done|]. symmetry. by eapply Hun.
Qed.

Lemma remove_map_ok sid m :
  map_ok m → map_ok (snd (remove sid m)) ∧
  ∀ sid', view (snd (remove sid m)) sid' = if decide (sid' = sid) then None else view m sid'.
Proof.
  intros [Hm Hp]. pose proof (remove_ok sid m Hm) as Hok. unfold remove in *.
  destruct (mSessions m !! sid) as [v|] eqn:Hs; simpl in *.
  - split; [split; [done|]|].
    + intros sid1 sid2 v1 v2 e1 e2. simpl. rewrite !lookup_delete_Some.
      intros [_ H1] [_ H2]. by eapply Hp.
    + intros sid'. unfold view. simpl. case_decide; [subst; by rewrite lookup_delete_eq|].
      by rewrite lookup_delete_ne.
  - split; [done|]. intros sid'. case_decide; [|done]. subst. unfold view. by rewrite Hs.
Qed.

Lemma replace_map_ok sid ts a r m :
  map_ok m → ∃ b a' r' m', replace sid ts a r m = Some (b, a', r', m') ∧
    map_ok m' ∧ same_view m m'.
Proof.
  intros Hm. destruct (mSessions m !! sid) as [v|] eqn:Hs.
  2:{ unfold replace. rewrite Hs. by do 4 eexists. }
  destruct (replace_run sid ts a r m v (mo_ok m Hm) Hs) as (e & He & ->).
  do 4 eexists. split; [reflexivity|].
  destruct (ok_entry m (mo_ok m Hm) _ _ Hs) as (e' & vs & He' & Hid & Hvs). simplify_eq.
  destruct (remove_map_ok (sessionId e) m Hm) as [Hm1 Hview1].
  destruct (add_map_ok (sessionId e) e ts (snd (remove (sessionId e) m)) vs) as [Hm2 Hview2].
  - done.
  - unfold remove. rewrite Hs. exact Hvs.
  - intros sid' v' x. unfold remove. rewrite Hs. simpl. rewrite lookup_delete_Some.
    intros [Hne Hv'] Hx E. apply Hne. symmetry. by eapply (mo_private m Hm sid' (sessionId e)).
  - split; [done|]. intros sid'. rewrite Hview2, Hview1.
    destruct (decide (sid' = sessionId e)) as [->|Hne]; [|by rewrite decide_False by naive_solver].
    rewrite decide_True; [|split; [done|]; unfold remove; rewrite Hs; apply lookup_delete_eq].
    unfold view, votes_of. rewrite Hs. simpl. rewrite He. simpl. by rewrite Hvs.
Qed.

(** ** Reads through the map succeed *)
Lemma owned_votes m sid v :
  map_ok m → mSessions m !! sid = Some v → is_Some (votes_of m (val v)).
Proof.
  intros Hm Hv. destruct (map_ok_votes m sid (val v) Hm) as (e & vs & -> & _); [|done].
  unfold findSession. by rewrite Hv.
Qed.

Lemma vote_range_defined m t now r base offset :
  map_ok m → (is_Some base → is_Some offset) →
  is_Some (getTaskVoteRange t now r base offset m).
Proof.
  intros Hm Hb. unfold getTaskVoteRange. destruct (mTasks m !! t) as [ps|] eqn:Ht; [|done].
  assert (∀ p, p ∈ ps → is_Some (votes_of m p)) as Hps.
  { intros p Hp. destruct (ok_owner m (mo_ok m Hm) p t) as (sid & v & Hv & <-).
    - unfold links. rewrite Ht. by apply occ_pos.
    - by eapply owned_votes. }
  clear Ht. revert r. induction ps as [|p ps IH]; intros r; simpl; [done|].
  assert (is_Some (vote_range_step m now base offset r p)) as [r' ->].
  { unfold vote_range_step. destruct (Hps p) as [[e vs] ->]; [set_solver|]. simpl.
    destruct (isActive e), base as [b|], (isPowerEfficient e); try done.
    destruct (Hb (mk_is_Some _ _ eq_refl)) as [o ->]. by destruct (allTimedOut vs now). }
  apply IH. intros q Hq. apply Hps. set_solver.
Qed.

Lemma session_votes_defined m : map_ok m → is_Some (mapM id (session_votes m)).
Proof.
  intros Hm. apply mapM_is_Some. unfold session_votes. rewrite Forall_fmap, Forall_forall.
  intros [sid v] Hv. apply elem_of_map_to_list in Hv. simpl. by eapply owned_votes.
Qed.

Lemma gpu_capacity_defined now m : map_ok m → is_Some (getSessionsGpuCapacity now m).
Proof.
  intros Hm. unfold getSessionsGpuCapacity. by destruct (session_votes_defined m Hm) as [l ->].
Qed.

Lemma any_active_defined now m : map_ok m → is_Some (isAnyAppSessionActive now m).
Proof.
  intros Hm. unfold isAnyAppSessionActive. by destruct (session_votes_defined m Hm) as [l ->].
Qed.

(** ** The invariant

    [inv b owed s]: the map is consistent, and, with [b], each active vote of
    a session has an event in [pending] or in [owed] that comes no later than
    the vote ends.  [owed] is what an operation still has to schedule. *)
Definition has_timeout (l : list (Z * EventSessionTimeout)) (sid id deadline : Z) : Prop :=
  ∃ d ev, (d, ev) ∈ l ∧ evSessionId ev = sid ∧ evVoteId ev = id ∧ (d ≤ deadline)%Z.

Definition timeouts_ok (m : session_task_map) (l : list (Z * EventSessionTimeout)) : Prop :=
  ∀ sid vs id, view m sid = Some vs → voteIsActive vs id = true →
    has_timeout l sid id (voteTimeout vs id).

Record inv (b : bool) (owed : list (Z * EventSessionTimeout)) (s : psm) : Prop := {
  inv_map : map_ok (mSessionTaskMap s);
  inv_timeouts : b = true → timeouts_ok (mSessionTaskMap s) (pending s ++ owed)
}.

(** What the system call may be given. *)
Definition clamp_ok (e : event psm_call) : Prop :=
  match e with
  | Ev c _ =>
      match c with
      | Sched_setattr _ lo hi => (kUclampMin ≤ lo ∧ lo ≤ hi ∧ hi ≤ kUclampMax)%Z
      | _ => True
      end
  end.

Definition good (b : bool) (owed : list (Z * EventSessionTimeout)) (s : psm)
    (tr : list (event psm_call)) : Prop := inv b owed s ∧ Forall clamp_ok tr.

Definition keeps {A} (b : bool) (owed : list (Z * EventSessionTimeout)) (p : op A) : Prop :=
  ∀ s tr, good b owed s tr → wp p (λ _ s' tr', good b owed s' tr') s tr.

Section keeps.
Context (b : bool) (owed : list (Z * EventSessionTimeout)).

Lemma keeps_ret {A} (a : A) : keeps b owed (mret a).
Proof. by intros s tr Hg. Qed.

Lemma keeps_bind {A B} (p : op A) (f : A → op B) :
  keeps b owed p → (∀ a, keeps b owed (f a)) → keeps b owed (p ≫= f).
Proof.
  intros Hp Hf s tr Hg. apply wp_bind. eapply wp_mono; [|by apply Hp].
  intros a s' tr' Hg'. by apply Hf.
Qed.

Lemma good_call {A} (e : psm_call A) (x : A) s tr :
  clamp_ok (Ev e x) → good b owed s tr → good b owed s (tr ++ [Ev e x]).
Proof. intros He [Hi Ht]. split; [done|]. apply Forall_app. by repeat constructor. Qed.

Lemma keeps_call {A} (e : psm_call A) : (∀ x, clamp_ok (Ev e x)) → keeps b owed (call e).
Proof. intros He s tr Hg x. by apply good_call. Qed.

Lemma keeps_when (c : bool) (p : op ()) : keeps b owed p → keeps b owed (when c p).
Proof. destruct c; [done|]. intros _. apply keeps_ret. Qed.

Lemma keeps_read {A} (f : session_task_map → option A) :
  (∀ m, map_ok m → is_Some (f m)) → keeps b owed (read f).
Proof.
  intros Hf s tr Hg. simpl. destruct (Hf (mSessionTaskMap s)) as [a ->]; [apply Hg|done].
Qed.

Lemma good_update m' s tr :
  good b owed s tr → map_ok m' → same_view (mSessionTaskMap s) m' →
  good b owed (with_map m' s) tr.
Proof.
  intros [[Hm Ht] Htr] Hm' Hv. split; [|done]. split; [done|]. simpl.
  intros Hb sid vs id Hvs. rewrite Hv in Hvs. by apply Ht.
Qed.

Lemma keeps_update f :
  (∀ m, map_ok m → map_ok (f m) ∧ same_view m (f m)) → keeps b owed (update_map f).
Proof.
  intros Hf s tr Hg. destruct (Hf (mSessionTaskMap s)) as [Hm Hv]; [apply Hg|].
  by apply good_update.
Qed.

Lemma keeps_sessions f : keeps b owed (modify (with_sessions f)).
Proof. by intros s tr [[Hm Ht] Htr]. Qed.

Lemma keeps_write_entry p f :
  (∀ e, sessionId (f e) = sessionId e ∧ votes (f e) = votes e) →
  keeps b owed (update_map (write_entry p f)).
Proof. intros Hf. apply keeps_update. intros m Hm. by apply write_entry_map_ok. Qed.

(** The map read at the start of an operation is the one of its state. *)
Lemma keeps_map_of {A} (k : session_task_map → op A) :
  (∀ s tr, good b owed s tr →
     wp (k (mSessionTaskMap s)) (λ _ s' tr', good b owed s' tr') s tr) →
  keeps b owed (m ← map_of; k m).
Proof. intros Hk s tr Hg. apply wp_bind. simpl. by apply Hk. Qed.
End keeps.

Create HintDb keeps.
#[export] Hint Resolve keeps_ret keeps_when keeps_write_entry : keeps.

(** Splits an operation into its steps and discharges the ones that cannot
    break the invariant. *)
Ltac keep :=
  repeat match goal with
    | |- keeps _ _ (mbind _ (map_of)) => apply keeps_map_of; intros ? ? ?
    | |- keeps _ _ (mbind _ _) => apply keeps_bind; [|intros ?]
    | |- keeps _ _ (when _ _) => apply keeps_when
    | |- keeps _ _ (call _) => by apply keeps_call
    | |- keeps _ _ (update_map (write_entry _ _)) => by apply keeps_write_entry
    | |- keeps _ _ (mret _) => apply keeps_ret
    | |- keeps _ _ (modify (with_sessions _)) => apply keeps_sessions
    | |- keeps _ _ (if ?c then _ else _) => destruct c
    end; eauto with keeps.

#[local] Arguments getTaskVoteRange : simpl never.
#[local] Arguments getTaskIds : simpl never.
#[local] Arguments drop_dead : simpl never.
#[local] Arguments replace : simpl never.
#[local] Arguments votes_of : simpl never.
#[local] Arguments findSession : simpl never.

(** ** Every operation keeps the invariant *)
Section operations.
Context (b : bool) (owed : list (Z * EventSessionTimeout)).

Lemma set_uclamp_range r :
  let lo := Z.min (Z.max kUclampMin (uclampMin r)) kUclampMax in
  let hi := Z.min (Z.max (uclampMax r) lo) kUclampMax in
  (kUclampMin ≤ lo ∧ lo ≤ hi ∧ hi ≤ kUclampMax)%Z.
Proof. unfold kUclampMin, kUclampMax. lia. Qed.

(** The loop over the threads ends within its fuel. *)
Lemma apply_threads_good fuel sid t config i s tr :
  good b owed s tr → (length (getTaskIds sid (mSessionTaskMap s)) ≤ fuel + i)%nat →
  wp (apply_threads fuel sid t config i) (λ _ s' tr', good b owed s' tr') s tr.
Proof.
  revert i s tr. induction fuel as [|fuel IH]; intros i s tr Hg Hlen; simpl;
    destruct (getTaskIds sid (mSessionTaskMap s) !! i) as [tid|] eqn:Hi; try done.
  { apply lookup_lt_Some in Hi. lia. }
  pose proof (lookup_lt_Some _ _ _ Hi) as Hlt. simpl.
  destruct (vote_range_defined (mSessionTaskMap s) tid t default_range
    (mUclampMaxEfficientBase config) (mUclampMaxEfficientOffset config)) as [r ->];
    [apply Hg|apply efficient_both|].
  simpl. intros stat.
  assert (good b owed s (tr ++ [Ev (Sched_setattr tid _ _) stat])) as Hg'
    by (apply good_call; [apply (set_uclamp_range r)|exact Hg]).
  destruct (stat =? ESRCH)%Z; simpl.
  - destruct (drop_dead_map_ok sid tid i (mSessionTaskMap s)) as (Hm & Hv & Hl);
      [apply Hg|done|].
    apply IH; [by apply good_update|]. simpl. rewrite Hl, length_delete by eauto. lia.
  - apply IH; [done|]. lia.
Qed.

Lemma applyUclampLocked_keeps sid t : keeps b owed (applyUclampLocked sid t).
Proof.
  unfold applyUclampLocked. apply keeps_bind; [by apply keeps_call|]. intros config. keep.
  destruct (findSession sid _); [|done]. apply wp_bind.
  apply (wp_mono _ (λ _ s' tr', good b owed s' tr')).
  - intros ? s' tr' Hg. by apply keeps_write_entry.
  - destruct (mUclampMinOn config); [apply apply_threads_good; [done|lia]|done].
Qed.

Lemma applyGpuVotesLocked_keeps sid t : keeps b owed (applyGpuVotesLocked sid t).
Proof.
  unfold applyGpuVotesLocked. keep. destruct (findSession sid _) as [p|]; [|done].
  eapply (keeps_bind b owed); [by apply keeps_call| |done]. intros config. keep.
  - by intros ? ? ?.
  - apply keeps_read. intros m Hm. by apply gpu_capacity_defined.
Qed.
#[local] Hint Resolve applyUclampLocked_keeps applyGpuVotesLocked_keeps : keeps.

Lemma apply_votes_keeps sid t : keeps b owed (applyCpuAndGpuVotes sid t).
Proof. unfold applyCpuAndGpuVotes. keep. Qed.
#[local] Hint Resolve apply_votes_keeps : keeps.

Lemma updateUniversalBoostMode_keeps : keeps b owed updateUniversalBoostMode.
Proof.
  unfold updateUniversalBoostMode, disableSystemTopAppBoost, enableSystemTopAppBoost. keep.
  apply keeps_read. intros m Hm. by apply any_active_defined.
Qed.
#[local] Hint Resolve updateUniversalBoostMode_keeps : keeps.

(** What follows a change of a session's activity. *)
Lemma set_active_keeps sid p a :
  keeps b owed (update_map (write_entry p (with_active a));;
                now ← call Now; applyCpuAndGpuVotes sid now;; updateUniversalBoostMode).
Proof. keep. Qed.

Lemma forceSessionActive_keeps sid a : keeps b owed (forceSessionActive sid a).
Proof.
  unfold forceSessionActive. keep. destruct (findSession sid _) as [p|]; [|done].
  by apply set_active_keeps.
Qed.

Lemma switch_active_keeps sid a : keeps b owed (switch_active sid a).
Proof.
  unfold switch_active. apply keeps_map_of. intros s tr Hg.
  destruct (findSession sid _) as [p|] eqn:Hf; [|done].
  destruct (map_ok_votes _ _ _ (inv_map _ _ _ (proj1 Hg)) Hf) as (e & vs & _ & He & _).
  apply wp_bind. simpl. rewrite He. simpl. destruct (Bool.eqb _ _); [done|].
  by apply set_active_keeps.
Qed.

Lemma setPreferPowerEfficiency_keeps sid a : keeps b owed (setPreferPowerEfficiency sid a).
Proof.
  unfold setPreferPowerEfficiency. apply keeps_map_of. intros s tr Hg.
  destruct (findSession sid _) as [p|] eqn:Hf; [|done].
  destruct (map_ok_votes _ _ _ (inv_map _ _ _ (proj1 Hg)) Hf) as (e & vs & _ & He & _).
  apply wp_bind. simpl. rewrite He. simpl. destruct (Bool.eqb _ _); [done|].
  revert Hg. generalize s, tr. change (keeps b owed
    (update_map (write_entry p (with_efficient a));;
     now ← call Now; applyUclampLocked sid now)). keep.
Qed.

Lemma set_profiles_keeps p tids : keeps b owed (set_profiles p tids).
Proof. induction tids; cbn [set_profiles]; keep. Qed.

Lemma replace_threads_keeps sid tids : keeps b owed (replace_threads sid tids).
Proof.
  intros s tr Hg. unfold replace_threads. apply wp_bind. simpl.
  destruct (replace_map_ok sid tids (Some []) (Some []) (mSessionTaskMap s))
    as (r & a' & r' & m' & -> & Hm & Hv); [apply Hg|]. simpl. by apply good_update.
Qed.
#[local] Hint Resolve forceSessionActive_keeps set_profiles_keeps replace_threads_keeps : keeps.

Lemma setThreads_keeps sid tids tag : keeps b owed (setThreadsFromPowerSession sid tids tag).
Proof. unfold setThreadsFromPowerSession. keep. destruct a0. keep. Qed.

(** *** Sessions come and go *)
Lemma good_map m' s tr :
  good b owed s tr → map_ok m' →
  (b = true → timeouts_ok (mSessionTaskMap s) (pending s ++ owed) →
   timeouts_ok m' (pending s ++ owed)) →
  good b owed (with_map m' s) tr.
Proof. intros [[Hm Ht] Htr] Hm' Hv. split; [|done]. split; [done|]. simpl. auto. Qed.

Lemma default_vote_inactive now d id :
  voteIsActive (add_cpu (vote_id CPU_VOTE_DEFAULT)
    (Cpu (VR false now d) (Range kUclampMin kUclampMax)) new_votes) id = false.
Proof.
  unfold voteIsActive. rewrite timing_add_cpu. simpl. case_decide; [done|].
  unfold timing. by destruct (isGpuVote id).
Qed.

Lemma addPowerSession_keeps d tids tag : keeps b owed (addPowerSession d tids tag).
Proof.
  destruct d as [d|]; [|apply keeps_ret]. unfold addPowerSession.
  apply keeps_bind; [by apply keeps_call|]. intros now s tr Hg.
  set (m := mSessionTaskMap s). set (p := next_loc m).
  destruct (new_votes_map_ok new_votes m) as (Hm1 & Hv1 & Hun1 & Hs1); [apply Hg|].
  set (f := add_cpu (vote_id CPU_VOTE_DEFAULT)
    (Cpu (VR false now (targetNs d)) (Range kUclampMin kUclampMax))).
  destruct (write_unused_map_ok p f _ Hm1 Hun1) as [Hm2 Hv2].
  set (m2 := write_votes p f (snd (alloc_votes new_votes m))) in *.
  set (sve := Entry 0 (desc_tgid d) (desc_uid d) (desc_active d)
                (AID_APP_START <=? desc_uid d)%Z now p false).
  destruct (add_map_ok (desc_sessionId d) sve [] m2 (f new_votes)) as [Hm3 Hv3].
  - done.
  - simpl. by rewrite lookup_alter_eq, lookup_insert_eq.
  - exact Hun1.
  - change (wp (setThreadsFromPowerSession (desc_sessionId d) tids tag)
      (λ _ s' tr', good b owed s' tr')
      (with_map (snd (add (desc_sessionId d) sve [] m2)) s) tr).
    apply setThreads_keeps, good_map; [done..|]. intros Hb Ht sid vs id. rewrite Hv3.
    case_decide; [|rewrite Hv2, Hv1; apply Ht]. intros [= <-].
    intros Ha. pose proof (default_vote_inactive now (targetNs d) id) as Hd.
    fold f in Hd. congruence.
Qed.

Lemma removePowerSession_keeps sid tag : keeps b owed (removePowerSession sid tag).
Proof.
  unfold removePowerSession. keep.
  destruct a0 as [_ removed]. unfold unregisterSession. keep.
  intros s tr Hg. destruct (remove_map_ok sid (mSessionTaskMap s)) as [Hm Hv]; [apply Hg|].
  apply good_map; [done..|]. intros Hb Ht sid' vs id. rewrite Hv. case_decide; [done|]. apply Ht.
Qed.

Lemma getSession_keeps sid : keeps b owed (getSession sid).
Proof.
  intros s tr Hg. unfold getSession. apply wp_bind. simpl.
  destruct (mSessionMap s !! session_key sid) as [x|]; [|done]. intros alive.
  assert (good b owed s (tr ++ [Ev (Weak_lock x) alive])) as Hg' by by apply good_call.
  destruct alive; [done|]. by apply (keeps_sessions b owed (delete (session_key sid))).
Qed.

(** *** Votes *)
(** A change of a session's votes that activates none and shortens none. *)
Definition calmer (vs vs' : Votes) : Prop :=
  ∀ id, voteIsActive vs' id = true →
    voteIsActive vs id = true ∧ (voteTimeout vs id ≤ voteTimeout vs' id)%Z.

Lemma has_timeout_mono l sid id d d' :
  (d ≤ d')%Z → has_timeout l sid id d → has_timeout l sid id d'.
Proof. intros Hd (x & ev & H1 & H2 & H3 & H4). exists x, ev. split_and!; [done..|lia]. Qed.

Lemma setUseVote_false_timing id vs id' :
  voteIsActive (snd (setUseVote id false vs)) id' =
    (if decide (id' = id) then false else voteIsActive vs id') ∧
  voteTimeout (snd (setUseVote id false vs)) id' = voteTimeout vs id'.
Proof.
  unfold voteIsActive, voteTimeout. rewrite timing_setUseVote.
  case_decide; [|done]. by destruct (timing vs id').
Qed.

Lemma disable_calmer id vs : calmer vs (snd (setUseVote id false vs)).
Proof.
  intros id'. destruct (setUseVote_false_timing id vs id') as [-> ->].
  case_decide; [done|]. intros ->. split; [done|lia].
Qed.

Lemma good_votes sid p e f s tr :
  good b owed s tr → findSession sid (mSessionTaskMap s) = Some p →
  entries (mSessionTaskMap s) !! p = Some e →
  (b = true → ∀ vs, view (mSessionTaskMap s) sid = Some vs → calmer vs (f vs)) →
  good b owed (with_map (write_votes (votes e) f (mSessionTaskMap s)) s) tr.
Proof.
  intros Hg Hf He Hc.
  destruct (write_votes_map_ok sid p e f (mSessionTaskMap s)) as [Hm Hv]; [apply Hg|done..|].
  apply good_map; [done..|]. intros Hb Ht sid' vs id. rewrite Hv.
  case_decide as Es; [rewrite Es|apply Ht]. intros Hvs Ha.
  apply fmap_Some in Hvs as (vs0 & Hvs0 & ->).
  destruct (Hc Hb vs0 Hvs0 id Ha) as [Ha0 Hle]. eapply has_timeout_mono; [exact Hle|].
  by apply Ht.
Qed.

Lemma disable_votes_good sid p l s tr :
  good b owed s tr → findSession sid (mSessionTaskMap s) = Some p →
  wp (disable_votes p l) (λ _ s' tr', good b owed s' tr') s tr.
Proof.
  revert s. induction l as [|v l IH]; intros s Hg Hf; [done|].
  destruct (map_ok_votes _ _ _ (inv_map _ _ _ (proj1 Hg)) Hf) as (e & vs & Hvo & He & _).
  cbn [disable_votes]. apply wp_bind. unfold use_vote. apply wp_bind. simpl. rewrite Hvo.
  simpl. apply IH; [|done]. eapply good_votes; [done..|]. intros _ vs' _. apply disable_calmer.
Qed.

Lemma disableBoosts_keeps sid : keeps b owed (disableBoosts sid).
Proof.
  unfold disableBoosts. apply keeps_map_of. intros s tr Hg.
  destruct (findSession sid _) as [p|] eqn:Hf; [|done]. by eapply disable_votes_good.
Qed.
End operations.

Lemma updateTarget_keeps sid v d : keeps false [] (updateTargetWorkDuration sid v d).
Proof.
  unfold updateTargetWorkDuration. apply keeps_map_of. intros s tr Hg.
  destruct (findSession sid _) as [p|] eqn:Hf; [|done].
  destruct (map_ok_votes _ _ _ (inv_map _ _ _ (proj1 Hg)) Hf) as (e & vs & Hvo & He & _).
  apply wp_bind. simpl. rewrite Hvo. simpl. by eapply good_votes.
Qed.

(** ** Setting a vote schedules its end *)

(** Only the vote [id] may have changed, to one that runs from [start]. *)
Definition vote_added (id start d : Z) (vs vs' : Votes) : Prop :=
  ∀ id', timing vs' id' = timing vs id' ∨ (id' = id ∧ timing vs' id' = Some (VR true start d)).

Definition owed_for (vs : Votes) (sid id start d : Z) : list (Z * EventSessionTimeout) :=
  if shouldScheduleTimeout vs id (start + d) then [(start + d, Timeout start sid id)%Z] else [].

Lemma vote_added_good b sid id start d p e f vs s tr :
  good b [] s tr → findSession sid (mSessionTaskMap s) = Some p →
  entries (mSessionTaskMap s) !! p = Some e → view (mSessionTaskMap s) sid = Some vs →
  vote_added id start d vs (f vs) →
  good b (owed_for vs sid id start d)
    (with_map (write_votes (votes e) f (mSessionTaskMap s)) s) tr.
Proof.
  intros [[Hm Ht] Htr] Hf He Hvs Hadd.
  destruct (write_votes_map_ok sid p e f (mSessionTaskMap s)) as [Hm' Hv]; [done..|].
  split; [|done]. split; [done|]. simpl. intros Hb sid' vs' id' Hvs' Ha.
  specialize (Ht Hb). rewrite app_nil_r in Ht. rewrite Hv in Hvs'.
  assert (∀ sd i dl, has_timeout (pending s) sd i dl →
            has_timeout (pending s ++ owed_for vs sid id start d) sd i dl) as Hmono.
  { intros sd i dl (x & ev & Hin & Hrest). exists x, ev. split; [set_solver|done]. }
  destruct (decide (sid' = sid)) as [->|Hne]; [|by apply Hmono, Ht].
  rewrite Hvs in Hvs'. simplify_eq/=. unfold voteIsActive, voteTimeout in Ha |- *.
  destruct (Hadd id') as [Et|[-> Et]]; rewrite Et in Ha |- *.
  { apply Hmono. by apply (Ht sid vs id'). }
  simpl. unfold owed_for, shouldScheduleTimeout in *.
  destruct (voteIsActive vs id) eqn:Hact; simpl in *.
  - destruct (Z.ltb_spec (start + d) (voteTimeout vs id)).
    + exists (start + d)%Z, (Timeout start sid id). split; [set_solver|]. split_and!; done || lia.
    + rewrite app_nil_r. eapply has_timeout_mono; [|by apply (Ht sid vs id)]. lia.
  - exists (start + d)%Z, (Timeout start sid id). split; [set_solver|]. split_and!; done || lia.
Qed.

Lemma voteSet_with_keeps b sid id start d f apply :
  (∀ vs, vote_added id start d vs (f vs)) →
  (∀ owed, keeps b owed apply) →
  keeps b [] (voteSet_with sid id start d
    (λ m, match mSessions m !! sid with
          | None => Some m
          | Some v => '(e, _) ← votes_of m (val v); Some (write_votes (votes e) f m)
          end) apply).
Proof.
  intros Hf Happ. unfold voteSet_with. apply keeps_map_of. intros s tr Hg.
  destruct (findSession sid _) as [p|] eqn:Hs; [|done].
  destruct (map_ok_votes _ _ _ (inv_map _ _ _ (proj1 Hg)) Hs) as (e & vs & Hvo & He & _ & Hv).
  pose proof Hs as Hs'. unfold findSession in Hs'. apply fmap_Some in Hs' as (v & Hsv & Hp).
  pose proof (vote_added_good b sid id start d p e f vs s tr Hg Hs He Hv (Hf vs)) as Hg2.
  apply wp_bind. simpl. rewrite Hvo. simpl. rewrite Hsv, <- Hp, Hvo. simpl.
  apply wp_bind. eapply wp_mono; cycle 1.
  { apply (Happ (owed_for vs sid id start d)).
    refine (keeps_write_entry _ _ p (with_updated start) _ _ tr Hg2). done. }
  intros ? s' tr' Hg'. unfold owed_for in Hg'.
  destruct (shouldScheduleTimeout vs id (start + d)); [|exact Hg'].
  destruct Hg' as [[Hm' Ht'] Htr']. split; [|done]. split; [done|]. simpl. by rewrite app_nil_r.
Qed.

Lemma voteSet_keeps b sid v lo hi start d : keeps b [] (voteSet sid v lo hi start d).
Proof.
  apply (voteSet_with_keeps b sid (vote_id v) start d); [|intros; apply applyUclampLocked_keeps].
  intros vs id'. rewrite timing_add_cpu. destruct (isGpuVote (vote_id v)); [by left|].
  case_decide; [by right|by left].
Qed.

Lemma voteSet_gpu_keeps b sid v c start d : keeps b [] (voteSet_gpu sid v c start d).
Proof.
  apply (voteSet_with_keeps b sid (vote_id v) start d); [|intros; apply applyGpuVotesLocked_keeps].
  intros vs id'. rewrite timing_add_gpu. destruct (isGpuVote (vote_id v)); [|by left].
  case_decide; [by right|by left].
Qed.

(** ** An event ends its vote or is scheduled again *)

(** The event was taken from the worker; nothing else needs it. *)
Lemma timeouts_drop m l d ev l' :
  timeouts_ok m (l ++ [(d, ev)]) →
  (∀ vs, view m (evSessionId ev) = Some vs → voteIsActive vs (evVoteId ev) = true →
     has_timeout (l ++ l') (evSessionId ev) (evVoteId ev) (voteTimeout vs (evVoteId ev))) →
  timeouts_ok m (l ++ l').
Proof.
  intros Ht Hev sid vs id Hvs Ha. destruct (Ht sid vs id Hvs Ha) as (x & e & Hin & H1 & H2 & H3).
  apply elem_of_app in Hin as [Hin|Hin].
  - exists x, e. split; [set_solver|done].
  - apply list_elem_of_singleton in Hin. simplify_eq. by apply Hev.
Qed.

Lemma good_drop b d ev s tr l' :
  good b [(d, ev)] s tr →
  (∀ vs, view (mSessionTaskMap s) (evSessionId ev) = Some vs →
     voteIsActive vs (evVoteId ev) = true →
     has_timeout (pending s ++ l') (evSessionId ev) (evVoteId ev) (voteTimeout vs (evVoteId ev))) →
  good b l' s tr.
Proof.
  intros [[Hm Ht] Htr] Hev. split; [|done]. split; [done|]. intros Hb.
  by eapply timeouts_drop; [apply Ht|].
Qed.

Lemma handleEvent_good b d ev s tr :
  good b [(d, ev)] s tr → wp (handleEvent ev) (λ _ s' tr', good b [] s' tr') s tr.
Proof.
  intros Hg0. unfold handleEvent. apply wp_bind. intros tNow. simpl.
  assert (good b [(d, ev)] s (tr ++ [Ev Now tNow])) as Hg by by apply good_call.
  destruct (findSession (evSessionId ev) (mSessionTaskMap s)) as [p|] eqn:Hf; simpl.
  2:{ eapply good_drop; [exact Hg|]. intros vs Hvs. unfold view, findSession in *.
      by destruct (mSessions (mSessionTaskMap s) !! evSessionId ev). }
  destruct (map_ok_votes _ _ _ (inv_map _ _ _ (proj1 Hg)) Hf) as (e & vs & Hvo & He & _ & Hv).
  rewrite Hvo. simpl. destruct (voteIsActive vs (evVoteId ev)) eqn:Ha.
  2:{ eapply good_drop; [exact Hg|]. intros vs' Hvs'. naive_solver congruence. }
  destruct (voteTimeout vs (evVoteId ev) <=? tNow)%Z.
  - unfold use_vote. simpl. rewrite Hvo. simpl.
    set (f := λ vs, snd (setUseVote (evVoteId ev) false vs)).
    set (m' := write_votes (votes e) f (mSessionTaskMap s)).
    assert (good b [] (with_map m' s) (tr ++ [Ev Now tNow])) as Hg'.
    { eapply good_drop.
      - eapply good_votes; [exact Hg|exact Hf|done|]. intros _ vs' _. apply disable_calmer.
      - destruct (write_votes_map_ok (evSessionId ev) p e f (mSessionTaskMap s)) as [_ Hv'];
          [apply Hg|done..|].
        intros vs'. simpl. rewrite Hv', decide_True, Hv by done. intros [= <-].
        unfold f. destruct (setUseVote_false_timing (evVoteId ev) vs (evVoteId ev)) as [-> _].
        by rewrite decide_True. }
    assert (keeps b [] (applyCpuAndGpuVotes (evSessionId ev) tNow;; updateUniversalBoostMode))
      as Hrest by (keep; [apply apply_votes_keeps|apply updateUniversalBoostMode_keeps]).
    exact (Hrest _ _ Hg').
  - apply (good_drop b d ev _ _ [(voteTimeout vs (evVoteId ev), ev)]) in Hg as [[Hm Ht] Htr].
    + split; [|done]. split; [done|]. simpl. by rewrite app_nil_r.
    + intros vs' Hvs' _. rewrite Hv in Hvs'. simplify_eq.
      exists (voteTimeout vs' (evVoteId ev)), ev. split; [set_solver|]. by split_and!.
Qed.

Lemma fire_keeps b i : keeps b [] (fire i).
Proof.
  intros s tr Hg. unfold fire. apply wp_bind. simpl.
  destruct (pending s !! i) as [[d ev]|] eqn:Hi; [|done].
  refine (handleEvent_good b d ev (with_pending (delete i (pending s)) s) tr _). destruct Hg as [[Hm Ht] Htr]. split; [|done]. split; [done|].
  simpl. intros Hb sid vs id Hvs Ha. destruct (Ht Hb sid vs id Hvs Ha) as (x & e & Hin & Hrest).
  rewrite app_nil_r, (delete_Permutation _ _ _ Hi) in Hin. exists x, e. split; [set_solver|done].
Qed.

(** ** Runs of the manager *)
Inductive psm_op :=
  | AddPowerSession (d : option AppHintDesc) (tids : list Z) (tag : ProcessTag)
  | RemovePowerSession (sid : Z) (tag : ProcessTag)
  | SetThreads (sid : Z) (tids : list Z) (tag : ProcessTag)
  | Pause (sid : Z)
  | Resume (sid : Z)
  | SetPreferPowerEfficiency (sid : Z) (enabled : bool)
  | UpdateTargetWorkDuration (sid : Z) (v : AdpfVoteType) (durationNs : Z)
  | VoteSet (sid : Z) (v : AdpfVoteType) (lo hi startTime durationNs : Z)
  | VoteSetGpu (sid : Z) (v : AdpfVoteType) (capacity startTime durationNs : Z)
  | DisableBoosts (sid : Z)
  | RegisterSession (session sid : Z)
  | UnregisterSession (sid : Z)
  | GetSession (sid : Z)
  | Clear
  | Fire (i : nat).

Definition psm_exec (o : psm_op) : op () :=
  match o with
  | AddPowerSession d tids tag => addPowerSession d tids tag
  | RemovePowerSession sid tag => removePowerSession sid tag
  | SetThreads sid tids tag => setThreadsFromPowerSession sid tids tag
  | Pause sid => pause sid
  | Resume sid => resume sid
  | SetPreferPowerEfficiency sid enabled => setPreferPowerEfficiency sid enabled
  | UpdateTargetWorkDuration sid v d => updateTargetWorkDuration sid v d
  | VoteSet sid v lo hi t d => voteSet sid v lo hi t d
  | VoteSetGpu sid v c t d => voteSet_gpu sid v c t d
  | DisableBoosts sid => disableBoosts sid
  | RegisterSession x sid => registerSession x sid
  | UnregisterSession sid => unregisterSession sid
  | GetSession sid => _ ← getSession sid; mret ()
  | Clear => clear
  | Fire i => fire i
  end.

Fixpoint psm_run (ops : list psm_op) : op () :=
  match ops with
  | [] => mret ()
  | o :: ops => psm_exec o;; psm_run ops
  end.

Definition changes_duration (o : psm_op) : bool :=
  match o with UpdateTargetWorkDuration _ _ _ => true | _ => false end.

Lemma psm_exec_keeps b o : (b = true → changes_duration o = false) → keeps b [] (psm_exec o).
Proof.
  intros Hb. destruct o; cbn [psm_exec].
  - apply addPowerSession_keeps.
  - apply removePowerSession_keeps.
  - apply setThreads_keeps.
  - apply switch_active_keeps.
  - apply switch_active_keeps.
  - apply setPreferPowerEfficiency_keeps.
  - destruct b; [by specialize (Hb eq_refl)|apply updateTarget_keeps].
  - apply voteSet_keeps.
  - apply voteSet_gpu_keeps.
  - apply disableBoosts_keeps.
  - apply keeps_sessions.
  - apply keeps_sessions.
  - apply keeps_bind; [apply getSession_keeps|intros; apply keeps_ret].
  - apply keeps_sessions.
  - apply fire_keeps.
Qed.

Lemma psm_run_keeps b ops :
  (b = true → Forall (λ o, changes_duration o = false) ops) → keeps b [] (psm_run ops).
Proof.
  induction ops as [|o ops IH]; intros Hb; cbn [psm_run]; [apply keeps_ret|].
  apply keeps_bind; [apply psm_exec_keeps|intros; apply IH];
    intros Hb'; specialize (Hb Hb'); by inversion Hb.
Qed.

Lemma new_manager_good b node : good b [] (new_manager node) [].
Proof.
  split; [|constructor]. split; [split; [apply new_map_ok|]|].
  - intros sid1 sid2 v1 v2 e1 e2 H1. simpl in H1. by rewrite lookup_empty in H1.
  - intros _ sid vs id Hv. unfold view in Hv. simpl in Hv. by rewrite lookup_empty in Hv.
Qed.

(** C10: Any sequence of operations of the power session manager, with any
    answers of the clock, the scheduler, the hint manager and the weak
    pointers, runs to its end (the loop over a session's threads included)
    without a read through a dangling pointer, and afterwards a thread lists a
    session exactly as often as the session links the thread; every clamp
    given to the scheduler satisfies 0 <= min <= max <= 1024. *)
Theorem psm_map_consistent {W} (env : callee psm_call W) w node ops :
  ∃ s w' tr, run env (psm_run ops) (new_manager node) w [] = Some ((), s, w', tr) ∧
    two_way (mSessionTaskMap s) ∧
    ∀ tid lo hi stat, Ev (Sched_setattr tid lo hi) stat ∈ tr →
      (kUclampMin ≤ lo ∧ lo ≤ hi ∧ hi ≤ kUclampMax)%Z.
Proof.
  destruct (wp_run env (psm_run ops) _ _ w _
    (psm_run_keeps false ops ltac:(done) _ _ (new_manager_good false node)))
    as ([] & s & w' & tr & Hrun & [[Hm _] Htr]).
  exists s, w', tr. split_and!; [done|apply stm_ok_two_way, Hm|].
  intros tid lo hi stat Hin. rewrite Forall_forall in Htr. exact (Htr _ Hin).
Qed.

(** C13: After any sequence of operations of the power session manager that
    does not change a target duration, every active vote of a session has a
    timeout event in the queue of the worker that is due no later than the
    vote ends, although voteSet schedules one only if the vote was inactive or
    ends earlier than before. *)
Theorem psm_active_votes_end {W} (env : callee psm_call W) w node ops :
  Forall (λ o, changes_duration o = false) ops →
  ∃ s w' tr, run env (psm_run ops) (new_manager node) w [] = Some ((), s, w', tr) ∧
    ∀ sid vs id, view (mSessionTaskMap s) sid = Some vs → voteIsActive vs id = true →
      ∃ d ev, (d, ev) ∈ pending s ∧ evSessionId ev = sid ∧ evVoteId ev = id ∧
        (d ≤ voteTimeout vs id)%Z.
Proof.
  intros Hops. destruct (wp_run env (psm_run ops) _ _ w _
    (psm_run_keeps true ops ltac:(done) _ _ (new_manager_good true node)))
    as ([] & s & w' & tr & Hrun & [[_ Ht] _]).
  exists s, w', tr. split; [done|]. intros sid vs id Hvs Ha.
  rewrite <- (app_nil_r (pending s)). by apply (Ht eq_refl).
Qed.

(** A device on which every call succeeds and whose clock ticks once per
    read. *)
Definition demo_profile : AdpfProfile := Profile true true None None (λ H, H).
Definition demo_env : callee psm_call Z :=
  Callee (λ X (e : psm_call X) (w : Z),
    match e in psm_call X return X * Z with
    | Now => (w, w + 1)%Z
    | Sched_setattr _ _ _ => (0%Z, w)
    | SetTaskProfiles _ _ => (true, w)
    | GetAdpfProfile => (demo_profile, w)
    | IsHintSupported => (true, w)
    | DoHint => ((), w)
    | EndHint => ((), w)
    | Set_gpu_capacity _ => ((), w)
    | Weak_lock _ => (true, w)
    end).

Definition demo_ops : list psm_op :=
  [AddPowerSession (Some (Desc 1 100 10001 true 16)) [7; 8]%Z DEFAULT;
   VoteSet 1 CPU_LOAD_UP 200 1024 0 50; Pause 1].

Lemma psm_active_votes_end_witness :
  ∃ s w' tr, run demo_env (psm_run demo_ops) (new_manager true) 0%Z [] = Some ((), s, w', tr) ∧
    ∀ sid vs id, view (mSessionTaskMap s) sid = Some vs → voteIsActive vs id = true →
      ∃ d ev, (d, ev) ∈ pending s ∧ evSessionId ev = sid ∧ evVoteId ev = id ∧
        (d ≤ voteTimeout vs id)%Z.
Proof. apply psm_active_votes_end. repeat constructor. Defined.

(** Whether a session is active after a run of the demo device. *)
Definition active_after (ops : list psm_op) (sid : Z) : option bool :=
  '(_, s, _, _) ← run demo_env (psm_run ops) (new_manager true) 0%Z [];
  p ← findSession sid (mSessionTaskMap s);
  isActive <$> entries (mSessionTaskMap s) !! p.

(** A paused session whose threads are set is active again. *)
Example set_threads_resumes_paused :
  active_after demo_ops 1 = Some false ∧
  active_after (demo_ops ++ [SetThreads 1 [7]%Z DEFAULT]) 1 = Some true.
Proof. split; vm_compute; reflexivity. Qed.
