(* ===== verification/Doubles.v ===== *)
(** * Floating-point numbers

    [float] and [double] of the sources are the IEEE 754 numbers of
    [SpecFloat], which computes them with integers.  The lemmas bound the
    results of operations by integers: an operation whose exact result lies
    between [-N] and [N] gives a number between them ([within]), so that a
    conversion to an integer type is defined ([to_int]). *)
From Stdlib Require Export SpecFloat.
From S2P Require Import Prelude.
Local Open Scope Z_scope.

Definition double (z : Z) : spec_float := binary_normalize 53 1024 z 0 false.
Definition dadd : spec_float → spec_float → spec_float := SFadd 53 1024.
Definition dsub : spec_float → spec_float → spec_float := SFsub 53 1024.
Definition dmul : spec_float → spec_float → spec_float := SFmul 53 1024.
Definition ddiv : spec_float → spec_float → spec_float := SFdiv 53 1024.

(** A conversion to an integer drops the fraction; a number without an
    integer part is [None]. *)
Definition to_int (x : spec_float) : option Z :=
  match x with
  | S754_zero _ => Some 0
  | S754_finite s m e =>
      let t := if 0 <=? e then Zpos m * 2 ^ e else Zpos m / 2 ^ (- e) in
      Some (if s then - t else t)
  | _ => None
  end.

(** The conversion to a type is undefined behaviour out of its range. *)
Definition cast_signed (w : Z) (x : spec_float) : option Z :=
  t ← to_int x; if (- 2 ^ (w - 1) <=? t) && (t <? 2 ^ (w - 1)) then Some t else None.
Definition cast_unsigned (w : Z) (x : spec_float) : option Z :=
  t ← to_int x; if (0 <=? t) && (t <? 2 ^ w) then Some t else None.

(** ** Scaled integers

    [scaled_le m e N]: [m * 2^e <= N]. *)
Definition scaled_le (m e N : Z) : Prop := m * 2 ^ Z.max 0 e ≤ N * 2 ^ Z.max 0 (- e).

Lemma pow2_pos k : 0 < 2 ^ Z.max 0 k.
Proof. apply Z.pow_pos_nonneg; lia. Qed.

Lemma scaled_at m e N k : 0 ≤ k → 0 ≤ e + k → scaled_le m e N ↔ m * 2 ^ (e + k) ≤ N * 2 ^ k.
Proof.
  intros Hk He. unfold scaled_le.
  assert (0 ≤ k - Z.max 0 (- e)) as Hd by lia.
  replace (e + k) with (Z.max 0 e + (k - Z.max 0 (- e))) by lia.
  replace k with (Z.max 0 (- e) + (k - Z.max 0 (- e))) at 2 by lia.
  rewrite !Z.pow_add_r, !Z.mul_assoc by lia. apply Z.mul_le_mono_pos_r, Z.pow_pos_nonneg; lia.
Qed.

Lemma scaled_shift m e N k : 0 ≤ k → scaled_le (m * 2 ^ k) (e - k) N ↔ scaled_le m e N.
Proof.
  intros Hk. rewrite (scaled_at _ (e - k) _ (Z.max 0 (- e) + k)), (scaled_at m e _ (Z.max 0 (- e) + k)) by lia.
  rewrite <- Z.mul_assoc, <- Z.pow_add_r by lia.
  by replace (k + (e - k + (Z.max 0 (- e) + k))) with (e + (Z.max 0 (- e) + k)) by lia.
Qed.

Lemma scaled_neg m e N : e ≤ 0 → scaled_le m e N ↔ m ≤ N * 2 ^ (- e).
Proof.
  intros He. rewrite (scaled_at m e N (- e)) by lia. rewrite Z.add_opp_diag_r, Z.pow_0_r. lia.
Qed.

Lemma scaled_pos m e N : 0 ≤ e → scaled_le m e N ↔ m * 2 ^ e ≤ N.
Proof. intros He. rewrite (scaled_at m e N 0) by lia. rewrite Z.add_0_r, Z.pow_0_r. lia. Qed.

Lemma scaled_mono m m' e N N' : m' ≤ m → N ≤ N' → scaled_le m e N → scaled_le m' e N'.
Proof.
  unfold scaled_le. pose proof (pow2_pos e). pose proof (pow2_pos (- e)). nia.
Qed.

Lemma scaled_mul m1 e1 A m2 e2 B : 0 ≤ m1 → 0 ≤ m2 →
  scaled_le m1 e1 A → scaled_le m2 e2 B → scaled_le (m1 * m2) (e1 + e2) (A * B).
Proof.
  intros H1 H2. set (k1 := Z.max 0 (- e1)). set (k2 := Z.max 0 (- e2)).
  rewrite (scaled_at m1 e1 A k1), (scaled_at m2 e2 B k2), (scaled_at (m1 * m2) (e1 + e2) _ (k1 + k2)) by lia.
  intros Ha Hb.
  replace (m1 * m2 * 2 ^ (e1 + e2 + (k1 + k2))) with ((m1 * 2 ^ (e1 + k1)) * (m2 * 2 ^ (e2 + k2)));
    [replace (A * B * 2 ^ (k1 + k2)) with ((A * 2 ^ k1) * (B * 2 ^ k2))|].
  - apply Z.mul_le_mono_nonneg; try done; apply Z.mul_nonneg_nonneg; try done; apply Z.pow_nonneg; lia.
  - rewrite (Z.pow_add_r 2 k1 k2) by lia. lia.
  - replace (e1 + e2 + (k1 + k2)) with ((e1 + k1) + (e2 + k2)) by lia.
    rewrite (Z.pow_add_r 2 (e1 + k1) (e2 + k2)) by lia. lia.
Qed.

Lemma scaled_add m1 m2 e A B : scaled_le m1 e A → scaled_le m2 e B → scaled_le (m1 + m2) e (A + B).
Proof. unfold scaled_le. lia. Qed.

(** A positive number that is less than [2^p] and has [d] digits. *)
Lemma digits_bounds m : 2 ^ (Zpos (digits2_pos m) - 1) ≤ Zpos m < 2 ^ Zpos (digits2_pos m).
Proof.
  induction m as [m IH|m IH|]; cbn [digits2_pos]; [| |simpl; lia];
    rewrite Pos2Z.inj_succ; (replace (Z.succ (Zpos (digits2_pos m)) - 1) with (Zpos (digits2_pos m) - 1 + 1) by lia);
    rewrite Z.pow_succ_r, Z.pow_add_r by lia; simpl (2 ^ 1); lia.
Qed.

(** ** Rounding *)
Section rounding.
Context (prec emax : Z) (Hprec : 1 < prec) (Hemax : 2 * prec ≤ emax).

Definition within (x : spec_float) (N : Z) : Prop :=
  match x with
  | S754_zero _ => 0 ≤ N
  | S754_finite _ m e => scaled_le (Zpos m) e N
  | _ => False
  end.

Lemma shr_1_spec mrs : 0 ≤ shr_m mrs →
  shr_m (shr_1 mrs) = shr_m mrs / 2 ∧
  (loc_of_shr_record (shr_1 mrs) = loc_Exact ↔
     loc_of_shr_record mrs = loc_Exact ∧ shr_m mrs mod 2 = 0).
Proof.
  destruct mrs as [m r s]. intros Hm. simpl in Hm. destruct m as [|p|p]; [| |lia].
  - split; [done|]. destruct r, s; split; intros; naive_solver.
  - destruct p as [p|p|]; cbn [shr_1 shr_m].
    + assert (Zpos p~1 = 1 + Zpos p * 2) as -> by lia.
      rewrite Z.div_add, Z.mod_add by lia. split; [done|]. destruct r, s; split; intros; naive_solver.
    + assert (Zpos p~0 = Zpos p * 2) as -> by lia.
      rewrite Z.div_mul, Z.mod_mul by lia. split; [done|]. destruct r, s; naive_solver.
    + split; [done|]. destruct r, s; split; intros; naive_solver.
Qed.

Lemma iter_pos_nat {A} (f : A → A) n x : SpecFloat.iter_pos f n x = Nat.iter (Pos.to_nat n) f x.
Proof.
  revert x. induction n as [n IH|n IH|]; intros x; cbn [SpecFloat.iter_pos]; [| |done]; rewrite !IH.
  - replace (Pos.to_nat n~1) with (Pos.to_nat n + Pos.to_nat n + 1)%nat by lia.
    by rewrite !Nat.iter_add.
  - replace (Pos.to_nat n~0) with (Pos.to_nat n + Pos.to_nat n)%nat by lia. by rewrite Nat.iter_add.
Qed.

Lemma shr_iter n mrs : 0 ≤ shr_m mrs →
  shr_m (Nat.iter n shr_1 mrs) = shr_m mrs / 2 ^ Z.of_nat n ∧
  (loc_of_shr_record (Nat.iter n shr_1 mrs) = loc_Exact ↔
     loc_of_shr_record mrs = loc_Exact ∧ shr_m mrs mod 2 ^ Z.of_nat n = 0).
Proof.
  intros Hm. induction n as [|n [IH1 IH2]]; cbn [Nat.iter nat_rect].
  - rewrite Z.pow_0_r, Z.div_1_r, Z.mod_1_r. naive_solver.
  - assert (0 ≤ shr_m (Nat.iter n shr_1 mrs)) as H0.
    { rewrite IH1. apply Z.div_pos; [done|]. apply Z.pow_pos_nonneg; lia. }
    destruct (shr_1_spec _ H0) as [H1 H2]. change (nat_rect _ mrs (λ _, shr_1) n) with (Nat.iter n shr_1 mrs).
    assert (0 < 2 ^ Z.of_nat n) by (apply Z.pow_pos_nonneg; lia).
    rewrite H1, IH1, Nat2Z.inj_succ, Z.pow_succ_r by lia.
    split; [by rewrite Z.div_div, Z.mul_comm by lia|].
    rewrite H2, IH2, IH1, (Z.mul_comm 2), Z.rem_mul_r by lia.
    pose proof (Z.mod_pos_bound (shr_m mrs) (2 ^ Z.of_nat n) ltac:(lia)).
    pose proof (Z.mod_pos_bound (shr_m mrs / 2 ^ Z.of_nat n) 2 ltac:(lia)).
    split; [intros [[? ?] ?]; split; [done|nia]|intros [? ?]; repeat split; [done|nia|nia]].
Qed.

Lemma loc_record m l : loc_of_shr_record (shr_record_of_loc m l) = l ∧ shr_m (shr_record_of_loc m l) = m.
Proof. destruct l as [|[| |]]; done. Qed.

(** What a number that is cut at [e] with remainder [l] may be. *)
Definition cut_le (m e : Z) (l : location) (N : Z) : Prop :=
  match l with
  | loc_Exact => scaled_le m e N
  | _ => e ≤ 0 ∧ m + 1 ≤ N * 2 ^ (- e)
  end.

Lemma cut_weaken m e l N : cut_le m e l N → scaled_le m e N.
Proof. destruct l; simpl; [done|]. intros [He Hm]. apply scaled_neg; lia. Qed.

(** A number below [2^prec] is not cut above its unit. *)
Lemma fexp_nonpos m e N : 0 ≤ m → N < 2 ^ prec → scaled_le m e N →
  0 < fexp prec emax (Zdigits2 m + e) - e → fexp prec emax (Zdigits2 m + e) ≤ 0.
Proof.
  intros Hm HN Hs Hn. unfold fexp, emin in *. destruct m as [|m|m]; [simpl in *; lia| |lia].
  cbn [Zdigits2] in *. set (d := Zpos (digits2_pos m)) in *. pose proof (digits_bounds m) as [Hd _].
  fold d in Hd. destruct (Z.le_gt_cases (d + e - prec) 0) as [|Hp]; [lia|]. exfalso.
  assert (scaled_le (2 ^ (d - 1)) e N) as Hs' by (eapply scaled_mono; [exact Hd|reflexivity|exact Hs]).
  apply (scaled_at _ _ _ (Z.max 0 (- e))) in Hs'; [|lia..].
  rewrite <- Z.pow_add_r in Hs' by lia.
  assert (2 ^ (prec + Z.max 0 (- e)) ≤ 2 ^ (d - 1 + (e + Z.max 0 (- e)))) by (apply Z.pow_le_mono_r; lia).
  rewrite Z.pow_add_r in H by lia. pose proof (pow2_pos (- e)). nia.
Qed.

(** One cut and the rounding of its remainder. *)
Lemma shr_fexp_le m e l N : 0 ≤ m → 0 ≤ N < 2 ^ prec → cut_le m e l N →
  let '(r, e') := shr_fexp prec emax m e l in
  0 ≤ shr_m r ∧ cut_le (shr_m r) e' (loc_of_shr_record r) N.
Proof.
  intros Hm HN Hc. unfold shr_fexp, shr. destruct (loc_record m l) as [Hl1 Hl2].
  destruct (fexp prec emax (Zdigits2 m + e) - e) as [|p|p] eqn:Hn; [by rewrite Hl1, Hl2| |by rewrite Hl1, Hl2].
  assert (e + Zpos p ≤ 0) as He.
  { replace (e + Zpos p) with (fexp prec emax (Zdigits2 m + e)) by lia.
    eapply fexp_nonpos; [done|apply HN|by eapply cut_weaken|lia]. }
  rewrite iter_pos_nat. destruct (shr_iter (Pos.to_nat p) (shr_record_of_loc m l)) as [H1 H2]; [by rewrite Hl2|].
  rewrite positive_nat_Z in H1, H2. rewrite Hl2 in H1, H2. rewrite Hl1 in H2.
  set (r := Nat.iter _ _ _) in *. rewrite H1.
  set (P := 2 ^ Zpos p) in *. assert (0 < P) by (apply Z.pow_pos_nonneg; lia).
  set (M := N * 2 ^ (- (e + Zpos p))).
  assert (N * 2 ^ (- e) = M * P) as HM.
  { unfold M, P. rewrite <- Z.mul_assoc, <- Z.pow_add_r by lia. f_equal. f_equal. lia. }
  pose proof (Z.div_mod m P ltac:(lia)) as Hdm. pose proof (Z.mod_pos_bound m P ltac:(lia)).
  assert (m ≤ M * P) as HmM.
  { apply cut_weaken in Hc. apply scaled_neg in Hc; lia. }
  split; [apply Z.div_pos; lia|].
  assert (m < M * P → m / P + 1 ≤ M) as Hlt by (intros Hlt; nia).
  destruct (loc_of_shr_record r) eqn:Hr; cbn [cut_le].
  - destruct (proj1 H2 eq_refl) as [-> Hz]. apply scaled_neg; [done|]. fold M. nia.
  - split; [done|]. fold M. apply Hlt. destruct l; cbn [cut_le] in Hc; [|lia].
    destruct (Z.eq_dec m (M * P)) as [E|]; [|lia]. exfalso.
    assert (Inexact := proj2 H2 (conj eq_refl (eq_trans (f_equal (λ x, x mod P) E) (Z_mod_mult M P)))).
    congruence.
Qed.

Lemma round_even_le m l : m ≤ round_nearest_even m l ≤ m + (match l with loc_Exact => 0 | _ => 1 end).
Proof. destruct l as [|[| |]]; simpl; [lia|destruct (Z.even m); lia|lia|lia]. Qed.

Lemma round_within s m e l N : 0 ≤ m → 0 ≤ N < 2 ^ prec → cut_le m e l N →
  within (binary_round_aux prec emax s m e l) N.
Proof.
  intros Hm HN Hc. unfold binary_round_aux.
  pose proof (shr_fexp_le m e l N Hm HN Hc) as H1. destruct (shr_fexp prec emax m e l) as [r1 e1].
  destruct H1 as [Hr1 Hc1].
  pose proof (round_even_le (shr_m r1) (loc_of_shr_record r1)) as Hr.
  set (m1 := round_nearest_even _ _) in *.
  assert (scaled_le m1 e1 N) as Hs.
  { destruct (loc_of_shr_record r1); cbn [cut_le] in Hc1.
    - by replace m1 with (shr_m r1) by lia.
    - apply scaled_neg; [apply Hc1|]. lia. }
  pose proof (shr_fexp_le m1 e1 loc_Exact N ltac:(lia) HN Hs) as H2.
  destruct (shr_fexp prec emax m1 e1 loc_Exact) as [r2 e2]. destruct H2 as [Hr2 Hc2].
  apply cut_weaken in Hc2. destruct (shr_m r2) as [|p|p]; [simpl; lia| |lia].
  destruct (Z.leb_spec e2 (emax - prec)) as [|Hlt]; [done|]. exfalso.
  rewrite scaled_pos in Hc2 by lia.
  assert (2 ^ prec ≤ 2 ^ e2) by (apply Z.pow_le_mono_r; lia).
  assert (1 * 2 ^ e2 ≤ Zpos p * 2 ^ e2) by (apply Z.mul_le_mono_nonneg_r; [apply Z.pow_nonneg|]; lia). lia.
Qed.

Lemma iter_xO n m : Zpos (Nat.iter n xO m) = Zpos m * 2 ^ Z.of_nat n.
Proof.
  induction n as [|n IH]; [simpl; lia|]. rewrite Nat2Z.inj_succ, Z.pow_succ_r by lia.
  change (Zpos (Nat.iter (S n) xO m)) with (2 * Zpos (Nat.iter n xO m)). rewrite IH. lia.
Qed.

Lemma shl_align_spec m e e' : let '(mz, ez) := shl_align m e e' in
  ez ≤ e ∧ Zpos mz = Zpos m * 2 ^ (e - ez).
Proof.
  unfold shl_align. destruct (e' - e) as [|d|d] eqn:E.
  1-2: by rewrite Z.sub_diag, Z.pow_0_r, Z.mul_1_r.
  split; [lia|]. replace (e - e') with (Zpos d) by lia. clear E.
  rewrite Pos2Nat.inj_iter. etransitivity; [apply (iter_xO (Pos.to_nat d) m)|by rewrite positive_nat_Z].
Qed.

Lemma shl_align_scaled m e e' N : scaled_le (Zpos m) e N →
  let '(mz, ez) := shl_align m e e' in scaled_le (Zpos mz) ez N.
Proof.
  intros Hs. pose proof (shl_align_spec m e e') as H. destruct (shl_align m e e') as [mz ez].
  destruct H as [He ->]. replace ez with (e - (e - ez)) at 2 by lia. apply scaled_shift; [lia|done].
Qed.

Lemma align_min m e e' N : scaled_le (Zpos m) e N →
  scaled_le (Zpos (fst (shl_align m e (Z.min e e')))) (Z.min e e') N.
Proof.
  intros Hs. pose proof (shl_align_scaled m e (Z.min e e') N Hs) as H.
  unfold shl_align in *. destruct (Z.min e e' - e) as [|d|d] eqn:E; [|lia|done].
  by replace (Z.min e e') with e by lia.
Qed.

Lemma normalize_within m e N s : 0 ≤ N < 2 ^ prec → scaled_le (Z.abs m) e N →
  within (binary_normalize prec emax m e s) N.
Proof.
  intros HN Hs. unfold binary_normalize, binary_round. destruct m as [|m|m]; [simpl; lia|..];
    pose proof (shl_align_scaled m e (fexp prec emax (Zpos (digits2_pos m) + e)) N Hs);
    destruct (shl_align m e _); by apply round_within.
Qed.

Lemma within_mono x A B : A ≤ B → within x A → within x B.
Proof. destruct x; simpl; try done; [lia|]. intros H. by apply scaled_mono. Qed.

Lemma within_nonneg x N : within x N → 0 ≤ N.
Proof.
  destruct x; simpl; try done. unfold scaled_le. intros H.
  pose proof (pow2_pos e). pose proof (pow2_pos (- e)). nia.
Qed.

Lemma mul_within x y A B : A * B < 2 ^ prec → within x A → within y B →
  within (SFmul prec emax x y) (A * B).
Proof.
  intros HAB Hx Hy. pose proof (within_nonneg _ _ Hx). pose proof (within_nonneg _ _ Hy).
  destruct x as [| | |s1 m1 e1], y as [| | |s2 m2 e2]; try done; try (simpl; nia).
  apply round_within; [lia|nia|]. cbn [cut_le]. rewrite Pos2Z.inj_mul. by apply scaled_mul.
Qed.

Lemma sum_within s1 m1 e1 s2 m2 e2 A B (f : Z → Z → Z) :
  (∀ a b, Z.abs (f a b) ≤ Z.abs a + Z.abs b) → A + B < 2 ^ prec → 0 ≤ A → 0 ≤ B →
  scaled_le (Zpos m1) e1 A → scaled_le (Zpos m2) e2 B →
  within (binary_normalize prec emax
    (f (cond_Zopp s1 (Zpos (fst (shl_align m1 e1 (Z.min e1 e2)))))
       (cond_Zopp s2 (Zpos (fst (shl_align m2 e2 (Z.min e1 e2)))))) (Z.min e1 e2) false) (A + B).
Proof.
  intros Hf HAB HA HB H1%(align_min _ _ e2) H2%(align_min _ _ e1). rewrite (Z.min_comm e2) in H2.
  apply normalize_within; [lia|].
  set (a := fst (shl_align m1 e1 _)) in *. set (b := fst (shl_align m2 e2 _)) in *.
  eapply scaled_mono; [|reflexivity|exact (scaled_add _ _ _ _ _ H1 H2)].
  etransitivity; [apply Hf|]. destruct s1, s2; cbn [cond_Zopp]; lia.
Qed.

Lemma add_within x y A B : A + B < 2 ^ prec → within x A → within y B →
  within (SFadd prec emax x y) (A + B).
Proof.
  intros HAB Hx Hy. pose proof (within_nonneg _ _ Hx) as HA. pose proof (within_nonneg _ _ Hy) as HB.
  destruct x as [s1| | |s1 m1 e1], y as [s2| | |s2 m2 e2]; try done.
  - destruct s1, s2; simpl; lia.
  - apply (within_mono (S754_finite s2 m2 e2) B); [lia|done].
  - apply (within_mono (S754_finite s1 m1 e1) A); [lia|done].
  - apply (sum_within s1 m1 e1 s2 m2 e2 A B Z.add); [lia|done..].
Qed.

Lemma sub_within x y A B : A + B < 2 ^ prec → within x A → within y B →
  within (SFsub prec emax x y) (A + B).
Proof.
  intros HAB Hx Hy. pose proof (within_nonneg _ _ Hx) as HA. pose proof (within_nonneg _ _ Hy) as HB.
  destruct x as [s1| | |s1 m1 e1], y as [s2| | |s2 m2 e2]; try done.
  - destruct s1, s2; simpl; lia.
  - apply (within_mono (S754_finite (negb s2) m2 e2) B); [lia|done].
  - apply (within_mono (S754_finite s1 m1 e1) A); [lia|done].
  - apply (sum_within s1 m1 e1 s2 m2 e2 A B Z.sub); [lia|done..].
Qed.

(** The exponent at which a quotient of at most [N] is cut. *)
Lemma quotient_exponent m1 e m2 N : 0 < m1 → N < 2 ^ prec → scaled_le m1 e (N * Zpos m2) →
  Z.min (fexp prec emax (Zdigits2 m1 + e - Zdigits2 (Zpos m2))) e ≤ 0.
Proof.
  intros Hm HN Hs. destruct m1 as [|m1|]; [lia| |lia]. unfold fexp, emin. cbn [Zdigits2].
  pose proof (digits_bounds m1) as [H1 _]. pose proof (digits_bounds m2) as [_ H2].
  set (d1 := Zpos (digits2_pos m1)) in *. set (d2 := Zpos (digits2_pos m2)) in *.
  destruct (Z.le_gt_cases (d1 + e - d2 - prec) 0) as [|Hp]; [lia|]. exfalso.
  assert (0 < 2 ^ prec) by (apply Z.pow_pos_nonneg; lia).
  assert (0 < 2 ^ d2) by (apply Z.pow_pos_nonneg; lia).
  assert (scaled_le (2 ^ (d1 - 1)) e (2 ^ prec * 2 ^ d2 - 1)) as Hs'.
  { eapply scaled_mono; [exact H1| |exact Hs]. nia. }
  apply (scaled_at _ _ _ (Z.max 0 (- e))) in Hs'; [|lia..].
  rewrite <- !Z.pow_add_r in Hs' by lia. pose proof (pow2_pos (- e)).
  assert (2 ^ (prec + d2 + Z.max 0 (- e)) ≤ 2 ^ (d1 - 1 + (e + Z.max 0 (- e))))
    by (apply Z.pow_le_mono_r; lia).
  rewrite (Z.pow_add_r 2 (prec + d2)) in * by lia. nia.
Qed.

Lemma digits_unique m d : 2 ^ (d - 1) ≤ Zpos m < 2 ^ d → Zpos (digits2_pos m) = d.
Proof.
  intros [H1 H2]. pose proof (digits_bounds m) as [H3 H4]. set (k := Zpos (digits2_pos m)) in *.
  assert (2 ^ (d - 1) < 2 ^ k) as Ha%Z.pow_lt_mono_r_iff by lia; [|lia..].
  assert (2 ^ (k - 1) < 2 ^ d) as Hb by lia. destruct (Z.lt_ge_cases d 0) as [Hd|Hd].
  - rewrite (Z.pow_neg_r 2 d) in Hb by done. pose proof (Z.pow_nonneg 2 (k - 1)). lia.
  - apply Z.pow_lt_mono_r_iff in Hb; lia.
Qed.

(** An integer of at most [prec] bits is represented. *)
Lemma normalize_exact z : 0 < z < 2 ^ prec →
  ∃ m e, binary_normalize prec emax z 0 false = S754_finite false m e ∧ e ≤ 0 ∧ Zpos m = z * 2 ^ (- e).
Proof.
  intros Hz. destruct z as [|z|]; [lia| |lia]. cbn [binary_normalize]. unfold binary_round.
  pose proof (digits_bounds z) as [Hd1 Hd2]. rewrite Z.add_0_r.
  set (d := Zpos (digits2_pos z)) in *.
  assert (d ≤ prec) as Hd.
  { assert (2 ^ (d - 1) < 2 ^ prec) as Hlt by lia. apply Z.pow_lt_mono_r_iff in Hlt; lia. }
  assert (fexp prec emax d = d - prec) as Hf by (unfold fexp, emin; lia). rewrite Hf.
  pose proof (shl_align_spec z 0 (d - prec)) as Ha.
  assert (snd (shl_align z 0 (d - prec)) = d - prec) as Hsnd.
  { unfold shl_align. destruct (d - prec - 0) eqn:E; simpl; lia. }
  destruct (shl_align z 0 (d - prec)) as [mz ez]. simpl in Hsnd. subst ez. destruct Ha as [_ Hmz].
  exists mz, (d - prec). split; [|split; [lia|by rewrite Hmz, Z.sub_0_l]].
  assert (Zpos (digits2_pos mz) = prec) as Hdz.
  { apply digits_unique. rewrite Hmz.
    set (P := 2 ^ (0 - (d - prec))). assert (0 < P) by (apply Z.pow_pos_nonneg; lia).
    assert (2 ^ (prec - 1) = 2 ^ (d - 1) * P) as -> by (unfold P; rewrite <- Z.pow_add_r by lia; f_equal; lia).
    assert (2 ^ prec = 2 ^ d * P) as -> by (unfold P; rewrite <- Z.pow_add_r by lia; f_equal; lia).
    nia. }
  unfold binary_round_aux, shr_fexp. cbn [Zdigits2]. rewrite Hdz.
  replace (prec + (d - prec)) with d by lia. rewrite Hf, Z.sub_diag. cbn.
  rewrite Hdz. replace (prec + (d - prec)) with d by lia. rewrite Hf, Z.sub_diag. cbn.
  by rewrite (proj2 (Z.leb_le _ _)) by lia.
Qed.

Lemma div_within x n N : 0 ≤ N < 2 ^ prec → 0 < n < 2 ^ prec → within x (N * n) →
  within (SFdiv prec emax x (binary_normalize prec emax n 0 false)) N.
Proof.
  intros HN Hn Hx. destruct (normalize_exact n Hn) as (m2 & e2 & -> & He2 & Hm2).
  destruct x as [s1| | |s1 m1 e1]; try done; [simpl; lia|]. cbn [within] in Hx.
  cbn [SFdiv]. unfold SFdiv_core_binary.
  replace (Zdigits2 (Zpos m1) + e1 - (Zdigits2 (Zpos m2) + e2))
    with (Zdigits2 (Zpos m1) + (e1 - e2) - Zdigits2 (Zpos m2)) by lia.
  set (e' := Z.min _ (e1 - e2)).
  assert (scaled_le (Zpos m1) (e1 - e2) (N * Zpos m2)) as Hq.
  { apply (scaled_at _ _ _ (Z.max 0 (- e1) + Z.max 0 (e2 - e1))); [lia..|].
    apply (scaled_at _ _ _ (Z.max 0 (- e1) + Z.max 0 (e2 - e1) - e2)) in Hx; [|lia..].
    replace (e1 + (Z.max 0 (- e1) + Z.max 0 (e2 - e1) - e2))
      with (e1 - e2 + (Z.max 0 (- e1) + Z.max 0 (e2 - e1))) in Hx by lia.
    etransitivity; [exact Hx|]. unfold Z.sub at 1. rewrite Z.pow_add_r by lia. rewrite Hm2. lia. }
  assert (e' ≤ 0) as He' by (apply (quotient_exponent (Zpos m1) (e1 - e2) m2 N); [lia|apply HN|done]).
  set (M := N * 2 ^ (- e')).
  assert (match e1 - e2 - e' with Zpos _ => Z.shiftl (Zpos m1) (e1 - e2 - e') | Z0 => Zpos m1 | Zneg _ => 0 end
          = Zpos m1 * 2 ^ (e1 - e2 - e')) as Hm'.
  { destruct (e1 - e2 - e') as [|p|p] eqn:E; [simpl; lia|by rewrite Z.shiftl_mul_pow2|lia]. }
  rewrite Hm'.
  assert (Zpos m1 * 2 ^ (e1 - e2 - e') ≤ M * Zpos m2) as Hle.
  { apply (scaled_at _ _ _ (- e')) in Hq; [|lia..].
    replace (e1 - e2 + - e') with (e1 - e2 - e') in Hq by lia. unfold M. lia. }
  set (m' := Zpos m1 * 2 ^ (e1 - e2 - e')) in *.
  assert (0 ≤ m') by (apply Z.mul_nonneg_nonneg; [lia|apply Z.pow_nonneg; lia]).
  pose proof (Z_div_mod_full m' (Zpos m2) ltac:(lia)) as Hd.
  destruct (Z.div_eucl m' (Zpos m2)) as [q r]. destruct Hd as [Hd [Hr|Hr]]; [|lia].
  apply round_within; [nia|done|].
  unfold new_location, new_location_even, new_location_odd.
  assert (r = 0 ∧ scaled_le q e' N ∨ r ≠ 0 ∧ q + 1 ≤ M) as [[-> Hs]|[Hr0 Hs]].
  { destruct (Z.eq_dec r 0) as [->|]; [left; split; [done|apply scaled_neg; [done|]; fold M; nia]|right; split; [done|nia]]. }
  - by destruct (IntDef.Z.even _).
  - destruct (IntDef.Z.even _); cbn beta; (destruct (Z.eqb_spec r 0); [lia|]); by split.
Qed.
End rounding.

(** ** Signs *)
Definition nonneg (x : spec_float) : Prop :=
  match x with S754_zero _ | S754_finite false _ _ => True | _ => False end.

Lemma round_nonneg p q m e l N : within (binary_round_aux p q false m e l) N →
  nonneg (binary_round_aux p q false m e l).
Proof.
  unfold binary_round_aux. destruct (shr_fexp p q m e l) as [r1 e1].
  destruct (shr_fexp p q _ e1 _) as [r2 e2]. destruct (shr_m r2); try done.
  by destruct (_ <=? _).
Qed.

(** ** Doubles *)
Definition withinb (x : spec_float) (N : Z) : bool :=
  match x with
  | S754_zero _ => 0 <=? N
  | S754_finite _ m e => Zpos m * 2 ^ Z.max 0 e <=? N * 2 ^ Z.max 0 (- e)
  | _ => false
  end.

Lemma withinb_within x N : withinb x N = true → within x N.
Proof. destruct x; simpl; try done; apply Z.leb_le. Qed.

Lemma double_within z N : Z.abs z ≤ N < 2 ^ 53 → within (double z) N.
Proof. intros Hz. apply normalize_within; [lia..|]. apply scaled_pos; lia. Qed.

Lemma dmul_within x y A B : A * B < 2 ^ 53 → within x A → within y B → within (dmul x y) (A * B).
Proof. apply mul_within; lia. Qed.

Lemma dadd_within x y A B : A + B < 2 ^ 53 → within x A → within y B → within (dadd x y) (A + B).
Proof. apply add_within; lia. Qed.

Lemma dsub_within x y A B : A + B < 2 ^ 53 → within x A → within y B → within (dsub x y) (A + B).
Proof. apply sub_within; lia. Qed.

Lemma ddiv_within x n N : 0 ≤ N < 2 ^ 53 → 0 < n < 2 ^ 53 → within x (N * n) →
  within (ddiv x (double n)) N.
Proof. apply div_within; lia. Qed.

Lemma to_int_within x N : within x N → ∃ t, to_int x = Some t ∧ Z.abs t ≤ N.
Proof.
  destruct x as [s| | |s m e]; simpl; intros Hs; try done; [by exists 0|].
  eexists. split; [reflexivity|].
  assert (0 ≤ (if 0 <=? e then Zpos m * 2 ^ e else Zpos m / 2 ^ (- e)) ≤ N) as H; [|destruct s; lia].
  destruct (Z.leb_spec 0 e) as [He|He].
  - rewrite scaled_pos in Hs by done. pose proof (Z.pow_nonneg 2 e). lia.
  - rewrite scaled_neg in Hs by lia. assert (0 < 2 ^ (- e)) by (apply Z.pow_pos_nonneg; lia).
    split; [apply Z.div_pos; lia|]. apply Z.div_le_upper_bound; lia.
Qed.

Lemma cast_signed_within w x N : within x N → N < 2 ^ (w - 1) →
  ∃ t, cast_signed w x = Some t ∧ Z.abs t ≤ N.
Proof.
  intros Hx HN. destruct (to_int_within x N Hx) as (t & Ht & Hb). exists t. split; [|done].
  unfold cast_signed. rewrite Ht. simpl.
  by rewrite (proj2 (Z.leb_le _ _)), (proj2 (Z.ltb_lt _ _)) by lia.
Qed.

Lemma cast_unsigned_within w x N : nonneg x → within x N → N < 2 ^ w →
  ∃ t, cast_unsigned w x = Some t ∧ 0 ≤ t ≤ N.
Proof.
  intros Hp Hx HN. destruct (to_int_within x N Hx) as (t & Ht & Hb). exists t.
  assert (0 ≤ t) as H0.
  { destruct x as [s| | |[] m e]; simpl in *; try done; simplify_eq; [done|].
    destruct (Z.leb_spec 0 e); [pose proof (Z.pow_nonneg 2 e); lia|apply Z.div_pos; [lia|]].
    apply Z.pow_pos_nonneg; lia. }
  split; [|lia]. unfold cast_unsigned. rewrite Ht. simpl.
  by rewrite (proj2 (Z.leb_le _ _)), (proj2 (Z.ltb_lt _ _)) by lia.
Qed.

(** The quotient of anything by zero has no integer part. *)
Lemma ddiv_zero_undefined x k w : cast_signed w (ddiv (ddiv x (double 0)) k) = None.
Proof. by destruct x, k. Qed.
