(* ===== verification/SessionRecords.v ===== *)
(** * Frame statistics of a power hint session

    Models [power-libperfmgr/aidl/SessionRecords.h] and [SessionRecords.cpp]:
    the last [kMaxNumOfRecords] reported frames in a ring, with their sum, the
    number of missed cycles, and a queue of record indexes for their maximum.

    [int32_t] values that come from a conversion are wrapped; the counters and
    the 64-bit sum cannot leave their type, since at most [2^31] records of
    [int32_t] durations count.  A [double] is an IEEE 754 number of the
    Standard Library's [SpecFloat] with 53 bits of precision.  [None] is an
    access outside of a vector or an integer division by zero. *)
From stdpp Require Import sorting.
From S2P Require Import Prelude Doubles.

(** ** Data *)
Record CycleRecord := Cycle {
  startIntervalUs : Z;
  totalDurationUs : Z;
  isMissedCycle : bool;
  isFPSJitter : bool
}.
Definition empty_cycle : CycleRecord := Cycle 0 0 false false.

Record WorkDuration := Work { timeStampNanos : Z; durationNanos : Z }.

Record FrameBuckets := Buckets {
  totalNumOfFrames : Z;
  numOfFrames17to25ms : Z;
  numOfFrames25to34ms : Z;
  numOfFrames34to67ms : Z;
  numOfFrames67to100ms : Z;
  numOfFramesOver100ms : Z
}.

Record session_records := Records {
  kMaxNumOfRecords : Z;
  kJankCheckTimeFactor : spec_float;
  mRecords : list CycleRecord;
  mRecordsIndQueue : list Z;
  mAvgDurationUs : Z;
  mLastStartTimeNs : Z;
  mLatestRecordIndex : Z;
  mNumOfMissedCycles : Z;
  mNumOfFrames : Z;
  mSumOfDurationsUs : Z;
  mLatestStartIntervalSumUs : Z;
  mNumOfFrameFPSJitters : Z;
  mAddedFramesForFPSCheck : Z
}.

Definition new_records (maxNumOfRecords : Z) (jankCheckTimeFactor : spec_float) : session_records :=
  Records maxNumOfRecords jankCheckTimeFactor (repeat empty_cycle (Z.to_nat maxNumOfRecords))
    [] 0 0 (-1) 0 0 0 0 0 0.

(** ** Doubles *)
(** The double nearest to 1.4. *)
Definition d1_4 : spec_float := S754_finite false 6305039478318694 (-52).

(** ** Operations *)
Definition kTotalFramesForFPSCheck : Z := 3.

(** [mRecords[i]] *)
Definition record_at (l : list CycleRecord) (i : Z) : option CycleRecord :=
  if (0 <=? i)%Z then l !! Z.to_nat i else None.

Definition updateFrameBuckets (us : Z) (jank : bool) (b : FrameBuckets) : FrameBuckets :=
  let '(Buckets t b17 b25 b34 b67 b100) := b in
  let t := (t + 1)%Z in
  if negb jank || (us <? 17000)%Z then Buckets t b17 b25 b34 b67 b100
  else if (us <? 25000)%Z then Buckets t (b17 + 1) b25 b34 b67 b100
  else if (us <? 34000)%Z then Buckets t b17 (b25 + 1) b34 b67 b100
  else if (us <? 67000)%Z then Buckets t b17 b25 (b34 + 1) b67 b100
  else if (us <? 100000)%Z then Buckets t b17 b25 b34 (b67 + 1) b100
  else Buckets t b17 b25 b34 b67 (b100 + 1).

(** The oldest record goes when the ring is full. *)
Definition drop_oldest (r : session_records) : option session_records :=
  if (mNumOfFrames r <? kMaxNumOfRecords r)%Z then Some r
  else
    if (kMaxNumOfRecords r =? 0)%Z then None
    else
      let i := Z.rem (mLatestRecordIndex r + 1) (kMaxNumOfRecords r) in
      c ← record_at (mRecords r) i;
      front ← head (mRecordsIndQueue r);
      Some (Records (kMaxNumOfRecords r) (kJankCheckTimeFactor r) (mRecords r)
        (if (front =? i)%Z then tail (mRecordsIndQueue r) else mRecordsIndQueue r)
        (mAvgDurationUs r) (mLastStartTimeNs r) (mLatestRecordIndex r)
        (if isMissedCycle c then mNumOfMissedCycles r - 1 else mNumOfMissedCycles r)
        (mNumOfFrames r - 1) (mSumOfDurationsUs r - totalDurationUs c)
        (mLatestStartIntervalSumUs r)
        (if isFPSJitter c then mNumOfFrameFPSJitters r - 1 else mNumOfFrameFPSJitters r)
        (mAddedFramesForFPSCheck r)).

(** The FPS bookkeeping: the jitter flag of the frame, the interval sum, the
    jitter count and the frames added, with the new record at [latest]. *)
Definition check_fps (compute : bool) (r : session_records) (latest interval : Z) :
    option (bool * Z * Z * Z) :=
  if compute then
    if (mAddedFramesForFPSCheck r <? kTotalFramesForFPSCheck)%Z then
      Some (if (0 <? interval)%Z
            then (false, wrap_signed 32 (mLatestStartIntervalSumUs r + interval),
                  mNumOfFrameFPSJitters r, (mAddedFramesForFPSCheck r + 1)%Z)
            else (false, mLatestStartIntervalSumUs r, mNumOfFrameFPSJitters r,
                  mAddedFramesForFPSCheck r))
    else
      let jitter := SFltb (ddiv (dmul d1_4 (double (mLatestStartIntervalSumUs r)))
                             (double kTotalFramesForFPSCheck)) (double interval) in
      let old := (latest - kTotalFramesForFPSCheck)%Z in
      let old := if (old <? 0)%Z then (old + kMaxNumOfRecords r)%Z else old in
      c ← record_at (mRecords r) old;
      Some (jitter, wrap_signed 32 (mLatestStartIntervalSumUs r + (interval - startIntervalUs c)),
            (if jitter then mNumOfFrameFPSJitters r + 1 else mNumOfFrameFPSJitters r)%Z,
            mAddedFramesForFPSCheck r)
  else Some (false, 0%Z, mNumOfFrameFPSJitters r, 0%Z).

Definition total_us (d : WorkDuration) : Z := wrap_signed 32 (durationNanos d ÷ 1000).
Definition cycle_missed (factor : spec_float) (targetDurationNs us : Z) : bool :=
  SFltb (dmul (double (targetDurationNs ÷ 1000)) factor) (double us).

(** [pop_back] while the record at the back is not longer: the queue is
    scanned from its front, and what follows the last longer record goes. *)
Fixpoint pop_back_while (l : list CycleRecord) (us : Z) (q : list Z) : option (list Z) :=
  match q with
  | [] => Some []
  | i :: q =>
      q' ← pop_back_while l us q;
      match q' with
      | [] => c ← record_at l i; Some (if (totalDurationUs c <=? us)%Z then [] else [i])
      | _ => Some (i :: q')
      end
  end.

(** One frame of [addReportedDurations]. *)
Definition addReportedDuration (targetDurationNs : Z) (compute : bool)
    (s : session_records * FrameBuckets) (d : WorkDuration) :
    option (session_records * FrameBuckets) :=
  let '(r, buckets) := s in
  let us := total_us d in
  r ← drop_oldest r;
  if (kMaxNumOfRecords r =? 0)%Z then None
  else
    let latest := Z.rem (mLatestRecordIndex r + 1) (kMaxNumOfRecords r) in
    let startTimeNs := (timeStampNanos d - durationNanos d)%Z in
    let interval :=
      if (0 <? mNumOfFrames r)%Z
      then wrap_signed 32 ((startTimeNs - mLastStartTimeNs r) ÷ 1000) else 0%Z in
    '(jitter, intervalSum, jitters, added) ← check_fps compute r latest interval;
    let missed := cycle_missed (kJankCheckTimeFactor r) targetDurationNs us in
    if (0 <=? latest)%Z && (latest <? Z.of_nat (length (mRecords r)))%Z then
      let records := <[Z.to_nat latest := Cycle interval us missed jitter]> (mRecords r) in
      let n := (mNumOfFrames r + 1)%Z in
      q ← pop_back_while records us (mRecordsIndQueue r);
      let sum := (mSumOfDurationsUs r + us)%Z in
      Some (Records (kMaxNumOfRecords r) (kJankCheckTimeFactor r) records (q ++ [latest])
              (wrap_signed 32 (sum ÷ n)) startTimeNs latest
              (if missed then mNumOfMissedCycles r + 1 else mNumOfMissedCycles r) n sum
              intervalSum jitters added,
            updateFrameBuckets us missed buckets)
    else None.

Fixpoint addReportedDurations (ds : list WorkDuration) (targetDurationNs : Z) (compute : bool)
    (s : session_records * FrameBuckets) : option (session_records * FrameBuckets) :=
  match ds with
  | [] => Some s
  | d :: ds =>
      s' ← addReportedDuration targetDurationNs compute s d;
      addReportedDurations ds targetDurationNs compute s'
  end.

Definition getMaxDuration (r : session_records) : option (option Z) :=
  match mRecordsIndQueue r with
  | [] => Some None
  | i :: _ => c ← record_at (mRecords r) i; Some (Some (totalDurationUs c))
  end.
Definition getAvgDuration (r : session_records) : option Z :=
  if (mNumOfFrames r <=? 0)%Z then None else Some (mAvgDurationUs r).
Definition getNumOfRecords (r : session_records) : Z := mNumOfFrames r.
Definition getNumOfMissedCycles (r : session_records) : Z := mNumOfMissedCycles r.
Definition getNumOfFPSJitters (r : session_records) : Z := mNumOfFrameFPSJitters r.
Definition getLatestFPS (r : session_records) : option Z :=
  if (mLatestStartIntervalSumUs r =? 0)%Z then None
  else Some (1000000 * kTotalFramesForFPSCheck ÷ mLatestStartIntervalSumUs r)%Z.

Definition isLowFrameRate (threshold : Z) (r : session_records) : option bool :=
  let limit := ddiv (double 1000000) (double threshold) in
  if (3 <=? mNumOfFrames r)%Z then
    let before i := if (i =? 0)%Z then (kMaxNumOfRecords r - 1)%Z else (i - 1)%Z in
    let i1 := mLatestRecordIndex r in
    let i2 := before i1 in
    let i3 := before i2 in
    c1 ← record_at (mRecords r) i1;
    c2 ← record_at (mRecords r) i2;
    c3 ← record_at (mRecords r) i3;
    Some (SFleb limit (double (startIntervalUs c1)) && SFleb limit (double (startIntervalUs c2)) &&
          SFleb limit (double (startIntervalUs c3)))
  else Some false.

Definition resetRecords (r : session_records) : session_records :=
  Records (kMaxNumOfRecords r) (kJankCheckTimeFactor r) (mRecords r) [] 0 0 (-1) 0 0 0
    (mLatestStartIntervalSumUs r) (mNumOfFrameFPSJitters r) (mAddedFramesForFPSCheck r).

(** ** The abstract statistics: the last frames reported

    A frame is its duration and whether it missed its cycle. *)
Abbreviation frame := (Z * bool)%type (only parsing).

Definition sum_of (w : list frame) : Z := foldr (λ x a, fst x + a)%Z 0%Z w.
Definition missed_of (w : list frame) : Z := foldr (λ x a, if snd x : bool then a + 1 else a)%Z 0%Z w.
Definition max_of (w : list frame) : option Z :=
  match w with
  | [] => None
  | x :: w => Some (foldr (λ y m, Z.max (fst y) m) (fst x) w)
  end.

Lemma sum_of_app w1 w2 : sum_of (w1 ++ w2) = (sum_of w1 + sum_of w2)%Z.
Proof. induction w1 as [|x w1 IH]; simpl; [done|]. rewrite IH. lia. Qed.

Lemma missed_of_app w1 w2 : missed_of (w1 ++ w2) = (missed_of w1 + missed_of w2)%Z.
Proof. induction w1 as [|x w1 IH]; simpl; [done|]. rewrite IH. destruct (snd x); lia. Qed.

Lemma sum_of_bounds w lo hi :
  Forall (λ x : frame, lo ≤ fst x ≤ hi)%Z w →
  (Z.of_nat (length w) * lo ≤ sum_of w ≤ Z.of_nat (length w) * hi)%Z.
Proof. induction 1; simpl; lia. Qed.

Lemma max_of_is w x :
  x ∈ w → Forall (λ y : frame, fst y ≤ fst x)%Z w → max_of w = Some (fst x).
Proof.
  assert (∀ l m, Forall (λ y : frame, fst y ≤ fst x)%Z l → (m ≤ fst x)%Z →
            (foldr (λ y m, Z.max (fst y) m) m l ≤ fst x)%Z) as Hle.
  { induction 1; simpl; intros; [done|]. apply Z.max_lub; auto. }
  assert (∀ (l : list frame) m, (m ≤ foldr (λ y m, Z.max (fst y) m) m l)%Z ∧
            ∀ y, y ∈ l → (fst y ≤ foldr (λ y m, Z.max (fst y) m) m l)%Z) as Hge.
  { induction l as [|z l IH]; intros m; simpl; [split; [lia|set_solver]|].
    destruct (IH m) as [H1 H2]. split; [lia|]. intros y Hy.
    apply elem_of_cons in Hy as [->|Hy]; [lia|]. specialize (H2 y Hy). lia. }
  destruct w as [|z w]; [set_solver|]. intros Hx [Hz Hw]%Forall_cons. simpl. f_equal.
  specialize (Hle w (fst z) Hw Hz). destruct (Hge w (fst z)) as [H1 H2].
  apply elem_of_cons in Hx as [->|Hx]; [lia|]. specialize (H2 x Hx). lia.
Qed.

(** ** The ring and the queue represent the last frames

    Frame [s] of the history [h] since the last reset is in slot
    [s mod K] of the ring; the frames from [lo] on count. *)
Section representation.
Context (K : nat) (factor : spec_float) (HK : (3 ≤ K)%nat).

Definition dur (h : list frame) (s : nat) : Z := from_option fst 0%Z (h !! s).
Definition slot (s : nat) : Z := Z.of_nat (s `mod` K).

(** [Q]: ever shorter frames, one at or after each frame that counts that is
    not shorter than it. *)
Record qinv (lo : nat) (h : list frame) (Q : list nat) : Prop := {
  q_range : Forall (λ s, lo ≤ s < length h)%nat Q;
  q_sorted : StronglySorted (λ a b, (a < b)%nat ∧ (dur h b < dur h a)%Z) Q;
  q_cover : ∀ s, (lo ≤ s < length h)%nat → ∃ q, q ∈ Q ∧ (s ≤ q)%nat ∧ (dur h s ≤ dur h q)%Z
}.

Record repr (lo : nat) (h : list frame) (r : session_records) : Prop := {
  rp_max : kMaxNumOfRecords r = Z.of_nat K;
  rp_factor : kJankCheckTimeFactor r = factor;
  rp_len : length (mRecords r) = K;
  rp_lo : (lo ≤ length h ≤ lo + K)%nat;
  rp_n : mNumOfFrames r = Z.of_nat (length h - lo);
  rp_range : (-1 ≤ mLatestRecordIndex r < Z.of_nat K)%Z;
  rp_next : Z.rem (mLatestRecordIndex r + 1) (Z.of_nat K) = slot (length h);
  rp_rec : ∀ s us ms, h !! s = Some (us, ms) → (lo ≤ s)%nat →
    ∃ c, record_at (mRecords r) (slot s) = Some c ∧ totalDurationUs c = us ∧ isMissedCycle c = ms;
  rp_sum : mSumOfDurationsUs r = sum_of (drop lo h);
  rp_missed : mNumOfMissedCycles r = missed_of (drop lo h);
  rp_queue : ∃ Q, mRecordsIndQueue r = slot <$> Q ∧ qinv lo h Q
}.

Lemma slot_inj lo a b :
  (lo ≤ a < lo + K)%nat → (lo ≤ b < lo + K)%nat → slot a = slot b → a = b.
Proof.
  intros Ha Hb Hs. unfold slot in Hs.
  pose proof (Nat.div_mod_eq a K). pose proof (Nat.div_mod_eq b K).
  destruct (Nat.lt_trichotomy (a / K) (b / K)) as [|[|]]; nia.
Qed.

Lemma slot_shift a : slot (a + K) = slot a.
Proof. unfold slot. f_equal. rewrite <- (Nat.mul_1_l K) at 1. apply Nat.Div0.mod_add. Qed.

Lemma slot_range a : (0 ≤ slot a < Z.of_nat K)%Z.
Proof. unfold slot. pose proof (Nat.mod_upper_bound a K). lia. Qed.

Lemma record_at_slot l a : record_at l (slot a) = l !! (a `mod` K).
Proof.
  unfold record_at. pose proof (slot_range a).
  destruct (Z.leb_spec 0 (slot a)); [|lia]. unfold slot. by rewrite Nat2Z.id.
Qed.

Lemma dur_lookup h s : (s < length h)%nat → ∃ ms, h !! s = Some (dur h s, ms).
Proof.
  intros Hs. apply lookup_lt_is_Some in Hs as [[us ms] E]. exists ms.
  unfold dur. by rewrite E.
Qed.

Lemma dur_app h x s : (s < length h)%nat → dur (h ++ [x]) s = dur h s.
Proof. intros Hs. unfold dur. by rewrite lookup_app_l. Qed.

Lemma new_repr : repr 0 [] (new_records (Z.of_nat K) factor).
Proof.
  split; simpl; try done; try lia.
  - by rewrite Nat2Z.id, repeat_length.
  - unfold slot. rewrite Nat.Div0.mod_0_l. by rewrite Z.rem_0_l by lia.
  - exists []. split; [done|]. split; [constructor|constructor|simpl; lia].
Qed.

Lemma reset_repr lo h r : repr lo h r → repr 0 [] (resetRecords r).
Proof.
  intros Hr. split; simpl; try apply Hr; try done; try lia.
  - unfold slot. rewrite Nat.Div0.mod_0_l. by rewrite Z.rem_0_l by lia.
  - exists []. split; [done|]. split; [constructor|constructor|simpl; lia].
Qed.

(** The queue without the frame that leaves the window. *)
Lemma qinv_drop lo h Q :
  (lo < length h ≤ lo + K)%nat → qinv lo h Q →
  ∃ q0 Q0, Q = q0 :: Q0 ∧
    qinv (S lo) h (if decide (slot q0 = slot lo) then Q0 else Q).
Proof.
  intros Hlo [Hr Hs Hc]. destruct (Hc lo) as (q & Hq & _); [lia|].
  destruct Q as [|q0 Q0]; [set_solver|]. exists q0, Q0. split; [done|].
  apply Forall_cons in Hr as [Hr0 Hr]. apply StronglySorted_inv in Hs as [Hs Hs0].
  rewrite Forall_forall in Hs0, Hr. case_decide as Hd.
  - assert (q0 = lo) as -> by (eapply (slot_inj lo); [lia|lia|done]).
    split; [|done|].
    + apply Forall_forall. intros s Hs'. specialize (Hr s Hs'). specialize (Hs0 s Hs'). lia.
    + intros s Hs'. destruct (Hc s) as (p & Hp & Hle & Hd'); [lia|].
      exists p. split; [|done]. apply elem_of_cons in Hp as [->|Hp]; [lia|done].
  - assert (lo ≠ q0) by (by intros ->). split.
    + apply Forall_cons. split; [lia|]. apply Forall_forall. intros s Hs'.
      specialize (Hr s Hs'). specialize (Hs0 s Hs'). lia.
    + constructor; [done|]. by apply Forall_forall.
    + intros s Hs'. apply Hc. lia.
Qed.

Lemma drop_oldest_repr lo h r :
  repr lo h r →
  ∃ r' lo', drop_oldest r = Some r' ∧ repr lo' h r' ∧ (length h < lo' + K)%nat ∧
    lo' = (if decide (length h = (lo + K)%nat) then S lo else lo) ∧
    mRecords r' = mRecords r.
Proof.
  intros Hr. pose proof (rp_lo _ _ _ Hr) as Hlo. unfold drop_oldest.
  rewrite (rp_n _ _ _ Hr), (rp_max _ _ _ Hr). case_decide as Hfull.
  2:{ destruct (Z.ltb_spec (Z.of_nat (length h - lo)) (Z.of_nat K)); [|lia].
      exists r, lo. split_and!; done || lia. }
  destruct (Z.ltb_spec (Z.of_nat (length h - lo)) (Z.of_nat K)); [lia|].
  destruct (Z.eqb_spec (Z.of_nat K) 0); [lia|].
  rewrite (rp_next _ _ _ Hr). replace (slot (length h)) with (slot lo)
    by (rewrite Hfull; symmetry; apply slot_shift).
  destruct (dur_lookup h lo) as [ms Hms]; [lia|].
  destruct (rp_rec _ _ _ Hr lo _ ms Hms) as (c & Hc & Hus & Hmc); [lia|].
  destruct (rp_queue _ _ _ Hr) as (Q & HQ & Hq).
  destruct (qinv_drop lo h Q) as (q0 & Q0 & -> & Hq'); [lia|done|].
  rewrite Hc, HQ. simpl. eexists _, (S lo). split; [reflexivity|]. split_and!; [|lia|done..].
  assert (drop lo h = (dur h lo, ms) :: drop (S lo) h) as Hdrop
    by (by apply drop_S).
  split; simpl; try apply Hr; try done; try lia.
  - intros s us ms' Hs Hle. apply (rp_rec _ _ _ Hr s); [done|lia].
  - rewrite (rp_sum _ _ _ Hr), Hdrop, Hus. simpl. lia.
  - rewrite (rp_missed _ _ _ Hr), Hdrop, Hmc. simpl. destruct ms; lia.
  - exists (if decide (slot q0 = slot lo) then Q0 else q0 :: Q0). split; [|done].
    destruct (Z.eqb_spec (slot q0) (slot lo)); case_decide; done.
Qed.

(** The frames that the new one hides leave the queue. *)
Lemma pop_back_while_spec l us h Q :
  (∀ s, s ∈ Q → ∃ c, record_at l (slot s) = Some c ∧ totalDurationUs c = dur h s) →
  StronglySorted (λ a b, (a < b)%nat ∧ (dur h b < dur h a)%Z) Q →
  ∃ Q1 Q2, Q = Q1 ++ Q2 ∧ pop_back_while l us (slot <$> Q) = Some (slot <$> Q1) ∧
    Forall (λ s, us < dur h s)%Z Q1 ∧ Forall (λ s, dur h s ≤ us)%Z Q2.
Proof.
  induction Q as [|s Q IH]; intros Hc Hs; [by exists [], []|].
  apply StronglySorted_inv in Hs as [Hs Hs0].
  destruct IH as (Q1 & Q2 & -> & Hpop & H1 & H2); [intros; apply Hc; set_solver|done|].
  destruct (Hc s) as (c & Hcs & Hus); [set_solver|].
  rewrite fmap_cons. cbn [pop_back_while]. rewrite Hpop. simpl.
  destruct Q1 as [|s1 Q1]; simpl.
  - rewrite Hcs. simpl. rewrite Hus. destruct (Z.leb_spec (dur h s) us).
    + exists [], (s :: Q2). split_and!; [done..|]. by constructor.
    + exists [s], Q2. split_and!; [done..| |done]. by repeat constructor.
  - exists (s :: s1 :: Q1), Q2. split_and!; [done..| |done]. constructor; [|done].
    inversion H1; inversion Hs0; subst. lia.
Qed.

(** The queue with the new frame at its back. *)
Lemma qinv_push lo h us ms Q1 Q2 :
  (lo ≤ length h)%nat → qinv lo h (Q1 ++ Q2) →
  Forall (λ s, us < dur h s)%Z Q1 → Forall (λ s, dur h s ≤ us)%Z Q2 →
  qinv lo (h ++ [(us, ms)]) (Q1 ++ [length h]).
Proof.
  intros Hlo [Hr Hs Hc] H1 H2. rewrite Forall_app in Hr. destruct Hr as [Hr1 Hr2].
  assert (dur (h ++ [(us, ms)]) (length h) = us) as Hnew
    by (unfold dur; by rewrite lookup_app_r, Nat.sub_diag).
  rewrite !Forall_forall in *. split.
  - apply Forall_app. rewrite length_app. simpl. split.
    + apply Forall_forall. intros s Hin. specialize (Hr1 s Hin). lia.
    + repeat constructor; lia.
  - apply StronglySorted_app in Hs as (_ & Hs1 & _).
    apply StronglySorted_app. split_and!; [|clear Hc; induction Hs1 as [|s Q Hss IH Hf]; constructor|by repeat constructor].
    + intros a b Ha Hb. apply list_elem_of_singleton in Hb as ->. specialize (Hr1 a Ha).
      rewrite Hnew, dur_app by lia. split; [lia|by apply H1].
    + apply IH; set_solver.
    + rewrite Forall_forall in Hf |- *. intros b Hb. destruct (Hf b Hb).
      rewrite !dur_app; [done| |]; apply Hr1; set_solver.
  - intros s. rewrite length_app. simpl. intros Hs'.
    destruct (decide (s = length h)) as [->|Hne].
    { exists (length h). split_and!; [set_solver|lia|lia]. }
    destruct (Hc s) as (q & Hq & Hle & Hd); [lia|].
    apply elem_of_app in Hq as [Hq|Hq].
    + exists q. specialize (Hr1 q Hq). rewrite !dur_app by lia. split; [set_solver|done].
    + exists (length h). rewrite Hnew, dur_app by lia. specialize (H2 q Hq).
      split_and!; [set_solver|lia|lia].
Qed.

Lemma check_fps_defined compute lo h r latest interval :
  repr lo h r → (0 ≤ latest < Z.of_nat K)%Z → is_Some (check_fps compute r latest interval).
Proof.
  intros Hr Hl. unfold check_fps. destruct compute; [|done].
  destruct (_ <? _)%Z; [done|]. rewrite (rp_max _ _ _ Hr). unfold kTotalFramesForFPSCheck.
  set (old := if (latest - 3 <? 0)%Z then _ else _).
  assert (0 ≤ old < Z.of_nat K)%Z as Ho
    by (unfold old; destruct (Z.ltb_spec (latest - 3) 0); lia).
  unfold record_at. destruct (Z.leb_spec 0 old); [|lia].
  destruct (mRecords r !! Z.to_nat old) as [c|] eqn:E; [done|].
  apply lookup_ge_None in E. rewrite (rp_len _ _ _ Hr) in E. lia.
Qed.

(** The record of the new frame, written to the slot after the latest. *)
Lemma rec_push lo h us ms l c s us' ms' :
  length l = K → (length h < lo + K)%nat → (lo ≤ length h)%nat →
  totalDurationUs c = us → isMissedCycle c = ms →
  (∀ s us ms, h !! s = Some (us, ms) → (lo ≤ s)%nat →
     ∃ c, record_at l (slot s) = Some c ∧ totalDurationUs c = us ∧ isMissedCycle c = ms) →
  (h ++ [(us, ms)]) !! s = Some (us', ms') → (lo ≤ s)%nat →
  ∃ c', record_at (<[Z.to_nat (slot (length h)) := c]> l) (slot s) = Some c' ∧
    totalDurationUs c' = us' ∧ isMissedCycle c' = ms'.
Proof.
  intros Hl Hn Hlo Hc1 Hc2 Hold Hs Hle. rewrite record_at_slot.
  assert (Z.to_nat (slot (length h)) = length h `mod` K)%nat as -> by (unfold slot; lia).
  destruct (decide (s = length h)) as [->|Hne].
  - exists c. rewrite lookup_app_r, Nat.sub_diag in Hs by lia. simplify_eq/=.
    split; [|done]. apply list_lookup_insert_eq. pose proof (Nat.mod_upper_bound (length h) K). lia.
  - pose proof (lookup_lt_Some _ _ _ Hs) as Hlt. rewrite length_app in Hlt. simpl in Hlt.
    rewrite list_lookup_insert_ne.
    + rewrite lookup_app_l in Hs by lia. rewrite <- record_at_slot. by apply Hold.
    + intros E. apply Hne. symmetry. apply (slot_inj lo); [lia|lia|]. unfold slot. by rewrite E.
Qed.

Lemma add_frame lo h r b d target compute :
  repr lo h r →
  let x := (total_us d, cycle_missed factor target (total_us d)) in
  let lo' := if decide (length h = (lo + K)%nat) then S lo else lo in
  ∃ r' b', addReportedDuration target compute (r, b) d = Some (r', b') ∧
    repr lo' (h ++ [x]) r' ∧
    mAvgDurationUs r' =
      wrap_signed 32 (sum_of (drop lo' (h ++ [x])) ÷ Z.of_nat (length (h ++ [x]) - lo')).
Proof.
  intros Hr x lo'. destruct (drop_oldest_repr lo h r Hr) as (r1 & lo1 & Hd & Hr1 & Hn & E & _).
  assert (lo1 = lo') as -> by done. clear E Hr.
  pose proof (rp_lo _ _ _ Hr1) as Hlo. pose proof (slot_range (length h)) as Hsr.
  unfold addReportedDuration. rewrite Hd. simpl.
  rewrite (rp_max _ _ _ Hr1), (rp_next _ _ _ Hr1), (rp_factor _ _ _ Hr1), (rp_len _ _ _ Hr1).
  destruct (Z.eqb_spec (Z.of_nat K) 0); [lia|].
  set (iv := if (0 <? mNumOfFrames r1)%Z then _ else _).
  destruct (check_fps_defined compute lo' h r1 (slot (length h)) iv Hr1 Hsr)
    as [[[[jit isum] jits] added] ->]. simpl.
  destruct (Z.leb_spec 0 (slot (length h))); [|lia].
  destruct (Z.ltb_spec (slot (length h)) (Z.of_nat K)); [|lia]. simpl.
  set (l := <[Z.to_nat (slot (length h)) := _]> (mRecords r1)).
  destruct (rp_queue _ _ _ Hr1) as (Q & HQ & Hq).
  assert (∀ s us ms, (h ++ [x]) !! s = Some (us, ms) → (lo' ≤ s)%nat →
    ∃ c, record_at l (slot s) = Some c ∧ totalDurationUs c = us ∧ isMissedCycle c = ms) as Hrec.
  { intros s us ms. eapply rec_push; [apply Hr1|lia|lia|done|done|apply Hr1]. }
  destruct (pop_back_while_spec l (total_us d) h Q) as (Q1 & Q2 & -> & Hpop & H1 & H2);
    [|apply Hq|].
  { intros s Hs. pose proof (q_range _ _ _ Hq) as Hrg. rewrite Forall_forall in Hrg.
    specialize (Hrg s Hs). destruct (dur_lookup h s) as [ms Hms]; [lia|].
    destruct (Hrec s (dur h s) ms) as (c & Hc & Hu & _); [by apply lookup_app_l_Some|lia|].
    by exists c. }
  rewrite HQ, Hpop. simpl.
  assert (drop lo' (h ++ [x]) = drop lo' h ++ [x]) as Hdrop by (apply drop_app_le; lia).
  assert (length (h ++ [x]) - lo' = S (length h - lo'))%nat as Hlen
    by (rewrite length_app; simpl; lia).
  do 2 eexists. split; [reflexivity|]. split.
  - split; simpl; try done; try lia.
    + unfold l. rewrite length_insert. apply Hr1.
    + rewrite (rp_n _ _ _ Hr1). lia.
    + rewrite Z.rem_mod_nonneg by lia. rewrite length_app. simpl. unfold slot.
      rewrite !Nat2Z.inj_mod, Nat2Z.inj_add.
      by rewrite Z.add_mod_idemp_l by lia.
    + rewrite Hdrop, sum_of_app, (rp_sum _ _ _ Hr1). simpl. lia.
    + rewrite Hdrop, missed_of_app, (rp_missed _ _ _ Hr1). simpl.
      destruct (cycle_missed _ _ _); lia.
    + exists (Q1 ++ [length h]). split; [by rewrite fmap_app|]. apply (qinv_push lo' h _ _ Q1 Q2); [lia|done..].
  - simpl. rewrite Hdrop, sum_of_app, (rp_sum _ _ _ Hr1), (rp_n _ _ _ Hr1), Hlen. simpl.
    do 2 f_equal; lia.
Qed.

(** *** What the queries answer *)
Lemma repr_max lo h r : repr lo h r → getMaxDuration r = Some (max_of (drop lo h)).
Proof.
  intros Hr. destruct (rp_queue _ _ _ Hr) as (Q & HQ & [Hrg Hs Hc]).
  unfold getMaxDuration. rewrite HQ. destruct Q as [|q Q]; simpl.
  - destruct (drop lo h) as [|x w] eqn:E; [done|].
    assert (lo < length h)%nat as Hlt
      by (apply (f_equal length) in E; rewrite length_drop in E; simpl in E; lia).
    destruct (Hc lo) as (q & Hq & _); [lia|]. set_solver.
  - apply Forall_cons in Hrg as [Hq Hrg]. apply StronglySorted_inv in Hs as [_ Hs0].
    destruct (dur_lookup h q) as [ms Hms]; [lia|].
    destruct (rp_rec _ _ _ Hr q _ ms Hms) as (c & -> & Hu & _); [lia|]. simpl. rewrite Hu.
    symmetry. f_equal. apply (max_of_is _ (dur h q, ms)).
    + apply list_elem_of_lookup. exists (q - lo)%nat. rewrite lookup_drop.
      by replace (lo + (q - lo))%nat with q by lia.
    + apply Forall_forall. intros y Hy. apply list_elem_of_lookup in Hy as [i Hi].
      rewrite lookup_drop in Hi. pose proof (lookup_lt_Some _ _ _ Hi) as Hlt.
      destruct (Hc (lo + i)%nat) as (p & Hp & _ & Hd); [lia|].
      unfold dur in Hd at 1. rewrite Hi in Hd. simpl in *.
      rewrite Forall_forall in Hs0. apply elem_of_cons in Hp as [->|Hp]; [done|].
      destruct (Hs0 p Hp). lia.
Qed.

(** *** Runs *)
Inductive records_op :=
  | Report (ds : list WorkDuration) (targetDurationNs : Z) (compute : bool)
  | ResetRecords.

Definition records_exec (s : session_records * FrameBuckets) (o : records_op) :
    option (session_records * FrameBuckets) :=
  match o with
  | Report ds target compute => addReportedDurations ds target compute s
  | ResetRecords => Some (resetRecords (fst s), snd s)
  end.

Fixpoint records_run (ops : list records_op) (s : session_records * FrameBuckets) :
    option (session_records * FrameBuckets) :=
  match ops with [] => Some s | o :: ops => s' ← records_exec s o; records_run ops s' end.

(** The frames since the last reset. *)
Definition history_step (h : list frame) (o : records_op) : list frame :=
  match o with
  | Report ds target _ =>
      h ++ ((λ d, (total_us d, cycle_missed factor target (total_us d))) <$> ds)
  | ResetRecords => []
  end.
Definition history (ops : list records_op) : list frame := foldl history_step [] ops.
Definition window (h : list frame) : list frame := drop (length h - K) h.

Record stats (h : list frame) (r : session_records) : Prop := {
  st_repr : repr (length h - K) h r;
  st_int32 : Forall (λ x : frame, -2147483648 ≤ fst x ≤ 2147483647)%Z h;
  st_avg : h ≠ [] →
    mAvgDurationUs r = wrap_signed 32 (sum_of (window h) ÷ Z.of_nat (length (window h)))
}.

Lemma report_stats ds target compute h s :
  stats h (fst s) →
  ∃ s', addReportedDurations ds target compute s = Some s' ∧
    stats (history_step h (Report ds target compute)) (fst s').
Proof.
  revert h s. induction ds as [|d ds IH]; intros h [r b] Hst;
    cbn [addReportedDurations history_step].
  { exists (r, b). by rewrite app_nil_r. }
  destruct (add_frame _ h r b d target compute (st_repr _ _ Hst)) as (r' & b' & -> & Hr' & Ha).
  set (x := (total_us d, cycle_missed factor target (total_us d))) in *.
  set (lo' := if decide _ then _ else _) in *. simpl.
  assert (lo' = length (h ++ [x]) - K)%nat as E.
  { pose proof (rp_lo _ _ _ (st_repr _ _ Hst)). unfold lo'. rewrite length_app. simpl.
    case_decide; lia. }
  destruct (IH (h ++ [x]) (r', b')) as (s' & Hs' & Hst').
  - rewrite E in Hr', Ha. split; [done| |].
    + apply Forall_app. split; [apply Hst|]. repeat constructor;
        pose proof (wrap_signed_range 32 (durationNanos d ÷ 1000)); simpl in *; unfold total_us; lia.
    + intros _. simpl. rewrite Ha. unfold window. by rewrite length_drop.
  - exists s'. split; [done|]. cbn [history_step] in Hst'. by rewrite <- app_assoc in Hst'.
Qed.

Lemma run_stats ops h s :
  stats h (fst s) → ∃ s', records_run ops s = Some s' ∧ stats (foldl history_step h ops) (fst s').
Proof.
  revert h s. induction ops as [|o ops IH]; intros h s Hst; cbn [records_run]; [by exists s|].
  destruct o as [ds target compute|].
  - destruct (report_stats ds target compute h s Hst) as (s' & Hs' & Hst'). simpl.
    rewrite Hs'. by apply IH.
  - apply (IH [] (resetRecords (fst s), snd s)). split; [|constructor|done].
    eapply reset_repr, st_repr, Hst.
Qed.
End representation.

(** C16: After any sequence of reports and resets, with room for at least
    three records, the number of records, the missed cycles, the average and
    the maximum (read from the front of the index queue) are those of the last
    kMaxNumOfRecords frames since the last reset, and no vector is accessed
    out of its range. *)
Theorem records_report_last_frames K factor ops b :
  (3 ≤ K)%nat →
  ∃ r b', records_run ops (new_records (Z.of_nat K) factor, b) = Some (r, b') ∧
    let w := window K (history factor ops) in
    getNumOfRecords r = Z.of_nat (length w) ∧
    getNumOfMissedCycles r = missed_of w ∧
    getMaxDuration r = Some (max_of w) ∧
    getAvgDuration r = if decide (w = []) then None else Some (sum_of w ÷ Z.of_nat (length w))%Z.
Proof.
  intros HK. destruct (run_stats K factor HK ops [] (new_records (Z.of_nat K) factor, b))
    as ([r b'] & Hrun & [Hr Hi Ha]).
  { split; [by apply new_repr|constructor|done]. }
  exists r, b'. split; [done|]. intros w. simpl in *. fold (history factor ops) in *.
  set (h := history factor ops) in *.
  assert (length w = length h - (length h - K))%nat as Hlen by apply length_drop.
  unfold getNumOfRecords, getNumOfMissedCycles, getAvgDuration.
  rewrite (rp_n _ _ _ _ _ Hr), (rp_missed _ _ _ _ _ Hr), (repr_max _ _ HK _ _ _ Hr).
  split_and!; [lia|done|done|]. case_decide as Hw.
  - rewrite Hw in Hlen. simpl in Hlen. by rewrite (proj2 (Z.leb_le _ _)) by lia.
  - assert (0 < length w)%nat as Hpos by (destruct w; [done|simpl; lia]).
    destruct (Z.leb_spec (Z.of_nat (length h - (length h - K))) 0); [lia|].
    rewrite Ha by (intros E; apply Hw; unfold w, window; by rewrite E). f_equal.
    destruct (sum_of_bounds w (-2147483648) 2147483647) as [H1 H2].
    { apply Forall_drop, Hi. }
    assert (-2147483648 ≤ sum_of w ÷ Z.of_nat (length w))%Z by (apply Z.quot_le_lower_bound; lia).
    assert (sum_of w ÷ Z.of_nat (length w) ≤ 2147483647)%Z by (apply Z.quot_le_upper_bound; lia).
    apply wrap_signed_small; lia.
Qed.

(** Three frames of 5, 9 and 4 ms with a target of 6 ms, then one of 3 ms and
    one of 2 ms, in a ring of three. *)
Definition demo_ms (t ms : Z) : WorkDuration := Work (t * 1000000) (ms * 1000000).
Definition demo_reports : list records_op :=
  [Report [demo_ms 5 5; demo_ms 20 9; demo_ms 30 4] 6000000 true; Report [demo_ms 40 3] 6000000 true;
   Report [demo_ms 50 2] 6000000 true].
Definition no_frames : FrameBuckets := Buckets 0 0 0 0 0 0.

Lemma records_report_last_frames_witness :
  window 3 (history (double 1) demo_reports) = [(4000, false); (3000, false); (2000, false)]%Z ∧
  ∃ r b', records_run demo_reports (new_records (Z.of_nat 3) (double 1), no_frames) = Some (r, b') ∧
    let w := window 3 (history (double 1) demo_reports) in
    getNumOfRecords r = Z.of_nat (length w) ∧
    getNumOfMissedCycles r = missed_of w ∧
    getMaxDuration r = Some (max_of w) ∧
    getAvgDuration r = if decide (w = []) then None else Some (sum_of w ÷ Z.of_nat (length w))%Z.
Proof.
  split; [vm_compute; reflexivity|].
  apply (records_report_last_frames 3 (double 1) demo_reports no_frames). apply le_n.
Defined.

(** The jitter count survives a reset while the frames it counted are gone:
    after a reset and no frame it is still 1. *)
Example reset_keeps_jitters :
  (λ s, (getNumOfRecords (fst s), getNumOfFPSJitters (fst s))) <$>
    records_run [Report [demo_ms 5 5; demo_ms 15 5; demo_ms 25 5; demo_ms 35 5; demo_ms 85 5] 6000000 true;
                 ResetRecords] (new_records 5 (double 1), no_frames) = Some (0, 1)%Z.
Proof. vm_compute. reflexivity. Qed.

(** Without the FPS bookkeeping [getLatestFPS] divides by zero. *)
Example latest_fps_divides_by_zero :
  (λ s, getLatestFPS (fst s)) <$>
    records_run [Report [demo_ms 5 5; demo_ms 15 5] 6000000 false]
      (new_records 5 (double 1), no_frames) = Some None.
Proof. vm_compute. reflexivity. Qed.
