(* ===== verification/HintSession.v ===== *)
(** * Power hint sessions

    Models [PowerHintSession] of [power-libperfmgr/aidl/PowerHintSession.cpp]
    and the helpers of [GpuCalculationHelpers.cpp]: the calls an application
    makes on its session, the PID control that turns the reported durations
    into a clamp, and the janky levels.  The session calls the manager with
    the operations of [PowerSession], [CManager]; its answers, the clock, the
    hint manager and the profiles are not fixed.  [AdpfConfig] belongs to
    libperfmgr; its fields have the types of its header.  [Ub] is undefined
    behaviour: a signed overflow, a conversion of a [double] out of the range
    of its type, a null pointer, the value of an empty [optional] (which
    throws).  Sums of times and counters stay far below 64 bits and are not
    checked; tracing is left out, except where its argument divides. *)
From S2P Require Import Prelude Doubles UClampVoter SessionTaskMap PowerSession SessionRecords.
Local Open Scope Z_scope.

(** ** Data *)
Inductive SessionTag := OTHER | SURFACEFLINGER | HWUI | GAME.
Inductive SessionJankyLevel := LIGHT | MODERATE | SEVERE.
Inductive SessionHint :=
  | H_CPU_LOAD_UP | H_CPU_LOAD_DOWN | H_CPU_LOAD_RESET | H_CPU_LOAD_RESUME | H_POWER_EFFICIENCY
  | H_GPU_LOAD_UP | H_GPU_LOAD_DOWN | H_GPU_LOAD_RESET | H_CPU_LOAD_SPIKE | H_GPU_LOAD_SPIKE
  | H_INVALID.
Inductive SessionMode := POWER_EFFICIENCY | MODE_INVALID.
Inductive status := EX_NONE | EX_ILLEGAL_STATE | EX_ILLEGAL_ARGUMENT.

#[export] Instance SessionHint_eq_dec : EqDecision SessionHint.
Proof. solve_decision. Defined.
#[export] Instance SessionTag_eq_dec : EqDecision SessionTag.
Proof. solve_decision. Defined.
#[export] Instance SessionJankyLevel_eq_dec : EqDecision SessionJankyLevel.
Proof. solve_decision. Defined.

Record adpf_config := AdpfConfig {
  mPidOn : bool;
  mPidPo : spec_float;
  mPidPu : spec_float;
  mPidI : spec_float;
  mPidDo : spec_float;
  mPidDu : spec_float;
  getPidIHighDivI : Z;
  getPidILowDivI : Z;
  mSamplingWindowP : Z;
  mSamplingWindowI : Z;
  mSamplingWindowD : Z;
  mUclampMinHigh : Z;
  mUclampMinLow : Z;
  mUclampMinInit : Z;
  mUclampMinLoadUp : Z;
  mUclampMinLoadReset : Z;
  mReportingRateLimitNs : Z;
  mTargetTimeFactor : spec_float;
  mStaleTimeFactor : spec_float;
  mHeuristicBoostOn : option bool;
  mHBoostModerateJankThreshold : option Z;
  mHBoostSevereJankThreshold : option Z;
  mHBoostOffMaxAvgDurRatio : option spec_float;
  mHBoostSevereJankPidPu : option spec_float;
  mHBoostUclampMinFloorRange : option (Z * Z);
  mHBoostUclampMinCeilingRange : option (Z * Z);
  mLowFrameRateThreshold : option Z;
  mMaxRecordsNum : option Z;
  mJankCheckTimeFactor : option spec_float;
  mGpuBoostOn : option bool;
  mGpuBoostCapacityMax : option Z;
  mGpuCapacityLoadUpHeadroom : Z
}.

(** The fields of [WorkDuration] that [SessionRecords] does not read. *)
Record reported := Reported {
  work_of :> WorkDuration;
  cpuDurationNanos : Z;
  gpuDurationNanos : Z
}.

(** The descriptor that the session shares with the manager. *)
Record descriptor := Descriptor {
  d_targetNs : Z;
  thread_ids : list Z;
  pidControlVariable : Z;
  is_active : bool;
  integral_error : Z;
  previous_error : Z
}.

Record hint_session := HintSession {
  mSessionId : Z;
  mSessTag : SessionTag;
  mProcTag : ProcessTag;
  mDescriptor : descriptor;
  mLastUpdatedTime : Z;
  mSessionClosed : bool;
  mPowerEfficiencyMode : bool;
  mAdpfProfile : option adpf_config;
  mSessionRecords : option session_records;
  mJankyLevel : SessionJankyLevel;
  mJankyFrameNum : Z;
  mSupportedHints : SessionHint → option bool
}.

Inductive hint_call : Type → Type :=
  | CNow : hint_call Z
  | CProfile : hint_call adpf_config
  | CManager (o : psm_op) : hint_call ()
  | CUniversalBoost : hint_call ()
  | CHboostStatistics (l : SessionJankyLevel) (numOfFrames : Z) : hint_call ()
  | CFrameBuckets (b : FrameBuckets) : hint_call ()
  | CGameMode : hint_call bool
  | CGpuFrequency : hint_call (option Z)
  | CIsHintSupported (h : SessionHint) : hint_call bool
  | CDoHint (h : SessionHint) : hint_call ()
  | CRegisterAdpfUpdateEvent : hint_call ()
  | CUnregisterAdpfUpdateEvent : hint_call ().

Abbreviation hs A := (prog hint_call hint_session A).

(** ** Steps *)
Definition defined {A} (o : option A) : hs A := match o with Some a => Ret a | None => Ub end.
Definition to_manager (o : psm_op) : hs () := call (CManager o).

Definition on_desc (f : descriptor → descriptor) (s : hint_session) : hint_session :=
  HintSession (mSessionId s) (mSessTag s) (mProcTag s) (f (mDescriptor s)) (mLastUpdatedTime s)
    (mSessionClosed s) (mPowerEfficiencyMode s) (mAdpfProfile s) (mSessionRecords s) (mJankyLevel s)
    (mJankyFrameNum s) (mSupportedHints s).
Definition with_target (t : Z) (d : descriptor) : descriptor :=
  Descriptor t (thread_ids d) (pidControlVariable d) (is_active d) (integral_error d) (previous_error d).
Definition with_threads (l : list Z) (d : descriptor) : descriptor :=
  Descriptor (d_targetNs d) l (pidControlVariable d) (is_active d) (integral_error d) (previous_error d).
Definition with_pid (v : Z) (d : descriptor) : descriptor :=
  Descriptor (d_targetNs d) (thread_ids d) v (is_active d) (integral_error d) (previous_error d).
Definition with_is_active (b : bool) (d : descriptor) : descriptor :=
  Descriptor (d_targetNs d) (thread_ids d) (pidControlVariable d) b (integral_error d) (previous_error d).
Definition with_errors (i p : Z) (d : descriptor) : descriptor :=
  Descriptor (d_targetNs d) (thread_ids d) (pidControlVariable d) (is_active d) i p.
Definition with_time (t : Z) (s : hint_session) : hint_session :=
  HintSession (mSessionId s) (mSessTag s) (mProcTag s) (mDescriptor s) t
    (mSessionClosed s) (mPowerEfficiencyMode s) (mAdpfProfile s) (mSessionRecords s) (mJankyLevel s)
    (mJankyFrameNum s) (mSupportedHints s).
Definition with_closed (s : hint_session) : hint_session :=
  HintSession (mSessionId s) (mSessTag s) (mProcTag s) (mDescriptor s) (mLastUpdatedTime s)
    true (mPowerEfficiencyMode s) (mAdpfProfile s) (mSessionRecords s) (mJankyLevel s)
    (mJankyFrameNum s) (mSupportedHints s).
Definition with_mode (b : bool) (s : hint_session) : hint_session :=
  HintSession (mSessionId s) (mSessTag s) (mProcTag s) (mDescriptor s) (mLastUpdatedTime s)
    (mSessionClosed s) b (mAdpfProfile s) (mSessionRecords s) (mJankyLevel s)
    (mJankyFrameNum s) (mSupportedHints s).
Definition with_profile (c : option adpf_config) (s : hint_session) : hint_session :=
  HintSession (mSessionId s) (mSessTag s) (mProcTag s) (mDescriptor s) (mLastUpdatedTime s)
    (mSessionClosed s) (mPowerEfficiencyMode s) c (mSessionRecords s) (mJankyLevel s)
    (mJankyFrameNum s) (mSupportedHints s).
Definition with_records (r : session_records) (s : hint_session) : hint_session :=
  HintSession (mSessionId s) (mSessTag s) (mProcTag s) (mDescriptor s) (mLastUpdatedTime s)
    (mSessionClosed s) (mPowerEfficiencyMode s) (mAdpfProfile s) (Some r) (mJankyLevel s)
    (mJankyFrameNum s) (mSupportedHints s).
Definition with_janky (l : SessionJankyLevel) (n : Z) (s : hint_session) : hint_session :=
  HintSession (mSessionId s) (mSessTag s) (mProcTag s) (mDescriptor s) (mLastUpdatedTime s)
    (mSessionClosed s) (mPowerEfficiencyMode s) (mAdpfProfile s) (mSessionRecords s) l n (mSupportedHints s).
Definition with_hint (h : SessionHint) (b : bool) (s : hint_session) : hint_session :=
  HintSession (mSessionId s) (mSessTag s) (mProcTag s) (mDescriptor s) (mLastUpdatedTime s)
    (mSessionClosed s) (mPowerEfficiencyMode s) (mAdpfProfile s) (mSessionRecords s) (mJankyLevel s)
    (mJankyFrameNum s) (λ h', if decide (h' = h) then Some b else mSupportedHints s h').

Definition get_desc {A} (f : descriptor → A) : hs A := gets (λ s, f (mDescriptor s)).
Definition set_desc (f : descriptor → descriptor) : hs () := modify (on_desc f).

(** A signed 64-bit or 32-bit result. *)
Definition int64 (z : Z) : option Z := if (- 2 ^ 63 <=? z) && (z <? 2 ^ 63) then Some z else None.
Definition int32 (z : Z) : option Z := if (- 2 ^ 31 <=? z) && (z <? 2 ^ 31) then Some z else None.

Definition heuristics_on (c : adpf_config) : bool := default false (mHeuristicBoostOn c).

Definition getAdpfProfile : hs adpf_config :=
  p ← gets mAdpfProfile;
  match p with Some c => mret c | None => call CProfile end.

(** [duration_cast<nanoseconds>(targetNs * mStaleTimeFactor)]. *)
Definition stale_ns (c : adpf_config) (target : Z) : option Z :=
  cast_signed 64 (dmul (double target) (mStaleTimeFactor c)).
Definition half_stale_ns (c : adpf_config) (target : Z) : option Z :=
  cast_signed 64 (ddiv (dmul (double target) (mStaleTimeFactor c)) (double 2)).

(** ** PID control *)
Definition ns_to_100us (ns : Z) : Z := ns ÷ 100000.

(** [p_start], [i_start] and [d_start]; a window is an unsigned number. *)
Definition window_start (window length : Z) : Z :=
  if (window =? 0) || (length <? window) then 0 else length - window.

Record pid_sums := PidSums {
  err_sum : Z; derivative_sum : Z; integral_sum : Z; last_error : Z
}.

(** One turn of the loop, on the duration of index [i]. *)
Definition pid_step (c : adpf_config) (target dt p_start i_start d_start i duration : Z)
    (a : pid_sums) : option pid_sums :=
  _ ← int64 (Z.abs duration);
  _ ← int64 (target * 20);
  diff ← int64 (duration - target);
  let error := ns_to_100us diff in
  derivative ← (if d_start <=? i then
                  e ← int64 (error - last_error a); int64 (derivative_sum a + e)
                else Some (derivative_sum a));
  err ← (if p_start <=? i then int64 (err_sum a + error) else Some (err_sum a));
  integral ← (if i_start <=? i then
                e ← int64 (error * dt); x ← int64 (integral_sum a + e);
                Some (Z.max (getPidILowDivI c) (Z.min (getPidIHighDivI c) x))
              else Some (integral_sum a));
  Some (PidSums err derivative integral error).

Fixpoint pid_loop (c : adpf_config) (target dt p_start i_start d_start i : Z) (durations : list Z)
    (a : pid_sums) : option pid_sums :=
  match durations with
  | [] => Some a
  | d :: durations =>
      a ← pid_step c target dt p_start i_start d_start i d a;
      pid_loop c target dt p_start i_start d_start (i + 1) durations a
  end.

(** [JankyFactor]; the frame numbers are unsigned. *)
Definition janky_factor (c : adpf_config) (frames : Z) : option spec_float :=
  moderate ← mHBoostModerateJankThreshold c;
  if frames <? moderate then Some (double 0)
  else
    severe ← mHBoostSevereJankThreshold c;
    Some (ddiv (dmul (double (wrap_unsigned 32 (frames - moderate))) (double 1))
            (double (wrap_unsigned 32 (severe - moderate)))).

Definition dmin (x y : spec_float) : spec_float := if SFltb y x then y else x.

Definition pid_pu_active (c : adpf_config) (level : SessionJankyLevel) (frames : Z) : option spec_float :=
  if heuristics_on c then
    pu ← mHBoostSevereJankPidPu c;
    let hboostPidPu := dmin pu (mPidPu c) in
    match level with
    | MODERATE =>
        factor ← janky_factor c frames;
        Some (dadd (mPidPu c) (dmul factor (dsub hboostPidPu (mPidPu c))))
    | SEVERE => Some hboostPidPu
    | LIGHT => Some (mPidPu c)
    end
  else Some (mPidPu c).

Definition pid_p (c : adpf_config) (pu : spec_float) (err n : Z) : option Z :=
  cast_signed 64 (ddiv (dmul (if 0 <? err then mPidPo c else pu) (double err)) (double n)).
Definition pid_i (c : adpf_config) (integral : Z) : option Z :=
  cast_signed 64 (dmul (mPidI c) (double integral)).
Definition pid_d (c : adpf_config) (derivative dt n : Z) : option Z :=
  cast_signed 64 (ddiv (ddiv (dmul (if 0 <? derivative then mPidDo c else mPidDu c) (double derivative))
                          (double dt)) (double n)).

(** The output, and the errors the descriptor keeps. *)
Definition pid_output (c : adpf_config) (level : SessionJankyLevel) (frames target : Z)
    (durations : list Z) (integral previous : Z) : option (Z * Z * Z) :=
  let n := Z.of_nat (length durations) in
  let p_start := window_start (mSamplingWindowP c) n in
  let i_start := window_start (mSamplingWindowI c) n in
  let d_start := window_start (mSamplingWindowD c) n in
  let dt := ns_to_100us target in
  let start := Z.min p_start (Z.min i_start d_start) in
  a ← pid_loop c target dt p_start i_start d_start start (drop (Z.to_nat start) durations)
        (PidSums 0 0 integral previous);
  pu ← pid_pu_active c level frames;
  pOut ← pid_p c pu (err_sum a) (n - p_start);
  iOut ← pid_i c (integral_sum a);
  dOut ← pid_d c (derivative_sum a) dt (n - d_start);
  sum ← int64 (pOut + iOut);
  output ← int64 (sum + dOut);
  Some (output, integral_sum a, last_error a).

Definition convertWorkDurationToBoostByPid (ds : list reported) : hs Z :=
  c ← getAdpfProfile;
  s ← gets id;
  let d := mDescriptor s in
  '(output, integral, previous) ← defined (pid_output c (mJankyLevel s) (mJankyFrameNum s)
    (d_targetNs d) (durationNanos ∘ work_of <$> ds) (integral_error d) (previous_error d));
  set_desc (with_errors integral previous);;
  mret output.

Definition updatePidControlVariable (v : Z) (updateVote : bool) : hs () :=
  set_desc (with_pid v);;
  when updateVote (
    c ← getAdpfProfile;
    s ← gets id;
    now ← call CNow;
    stale ← defined (stale_ns c (d_targetNs (mDescriptor s)));
    limit ← defined (int64 (mReportingRateLimitNs c * 2));
    to_manager (VoteSet (mSessionId s) CPU_VOTE_DEFAULT v kUclampMax now (Z.max stale limit))).

(** ** Janky levels *)
Definition updateSessionJankState (c : adpf_config) (oldState : SessionJankyLevel)
    (numOfJankFrames : Z) (durationVariance : spec_float) (isLowFPS : bool) :
    option SessionJankyLevel :=
  if isLowFPS then Some LIGHT
  else
    let n := wrap_unsigned 32 numOfJankFrames in
    moderate ← mHBoostModerateJankThreshold c;
    if n <? moderate then
      if bool_decide (oldState = LIGHT) then Some LIGHT
      else
        ratio ← mHBoostOffMaxAvgDurRatio c;
        Some (if SFltb durationVariance ratio then LIGHT else MODERATE)
    else
      severe ← mHBoostSevereJankThreshold c;
      Some (if n <? severe then MODERATE else SEVERE).

Definition updateHeuristicBoost : hs () :=
  s ← gets id;
  r ← defined (mSessionRecords s);
  maxDurationUs ← defined (getMaxDuration r);
  let numOfJankFrames := getNumOfMissedCycles r in
  match maxDurationUs, getAvgDuration r with
  | Some mx, Some avg =>
      if avg <=? 0 then mret ()
      else
        let maxToAvgRatio := ddiv (dmul (double mx) (double 1)) (double avg) in
        c ← getAdpfProfile;
        threshold ← defined (mLowFrameRateThreshold c);
        isLowFPS ← defined (isLowFrameRate threshold r);
        c ← getAdpfProfile;
        level ← defined (updateSessionJankState c (mJankyLevel s) numOfJankFrames maxToAvgRatio isLowFPS);
        modify (with_janky level (wrap_unsigned 32 numOfJankFrames));;
        (* the traced rate divides *)
        when (bool_decide (mSessTag s = SURFACEFLINGER)) (_ ← defined (getLatestFPS r); mret ())
  | _, _ => mret ()
  end.

Definition resetSessionHeuristicStates : hs () :=
  r ← gets mSessionRecords;
  r ← defined r;
  modify (with_records (resetRecords r));;
  modify (with_janky LIGHT 0).

(** ** The capacity of the GPU *)
Definition single (z : Z) : spec_float := binary_normalize 24 128 z 0 false.
Definition to_precision (prec emax : Z) (x : spec_float) : spec_float :=
  match x with S754_finite s m e => binary_round prec emax s m e | _ => x end.
Definition to_single : spec_float → spec_float := to_precision 24 128.
Definition to_double : spec_float → spec_float := to_precision 53 1024.

Definition lerp (a b : Z) (t : spec_float) : option Z :=
  let fa := single a in
  let fb := single b in
  cast_signed 64 (SFadd 24 128 fa (SFmul 24 128 (SFsub 24 128 fb fa) t)).

Definition sanitize_timings (total cpu gpu : Z) : option Z :=
  accounted ← int64 (cpu + gpu);
  unaccounted ← int64 (total - accounted);
  if 0 <? unaccounted then
    let cpu_portion := SFdiv 24 128 (single cpu) (single accounted) in
    b ← int64 (gpu + unaccounted);
    lerp gpu b (to_single (dsub (double 1) (to_double cpu_portion)))
  else Some gpu.

Definition subtotal_timings_invalid (d : reported) : bool :=
  (durationNanos d <? gpuDurationNanos d) || (durationNanos d <? cpuDurationNanos d).

Definition gpu_time_attribution (total gpu : Z) : spec_float :=
  if total =? 0 then double 0 else ddiv (double gpu) (double total).

Definition calculate_capacity (d : reported) (target gpu_frequency : Z) : option Z :=
  let total := durationNanos d in
  diff ← int64 (total - target);
  let overrun := single diff in
  if SFltb overrun (single 0) || subtotal_timings_invalid d then Some 0
  else
    gpu ← sanitize_timings total (cpuDurationNanos d) (gpuDurationNanos d);
    let gpu_delta := dmul (to_double overrun) (gpu_time_attribution total gpu) in
    let seconds := to_single (ddiv gpu_delta (double 1000000000)) in
    cast_signed 32 (SFmul 24 128 (single gpu_frequency) seconds).

Definition clamp (v lo hi : Z) : Z := if v <? lo then lo else if hi <? v then hi else v.

(** ** The calls of an application *)
Definition alive (k : hs status) : hs status :=
  closed ← gets mSessionClosed;
  if (closed : bool) then mret EX_ILLEGAL_STATE else k.

Definition pause : hs status := alive (
  s ← gets id;
  if negb (is_active (mDescriptor s)) then mret EX_ILLEGAL_STATE
  else
    to_manager (SetThreads (mSessionId s) [] (mProcTag s));;
    set_desc (with_is_active false);;
    to_manager (Pause (mSessionId s));;
    mret EX_NONE).

Definition resume : hs status := alive (
  s ← gets id;
  if is_active (mDescriptor s) then mret EX_ILLEGAL_STATE
  else
    to_manager (SetThreads (mSessionId s) (thread_ids (mDescriptor s)) (mProcTag s));;
    set_desc (with_is_active true);;
    to_manager (Resume (mSessionId s));;
    mret EX_NONE).

Definition close : hs status := alive (
  s ← gets id;
  modify with_closed;;
  to_manager (RemovePowerSession (mSessionId s) (mProcTag s));;
  set_desc (with_is_active false);;
  call CUnregisterAdpfUpdateEvent;;
  mret EX_NONE).

Definition kTargetDurationChangeThreshold : Z := 30.

Definition updateTargetWorkDuration (targetDurationNanos : Z) : hs status := alive (
  if targetDurationNanos <=? 0 then mret EX_ILLEGAL_ARGUMENT
  else
    c ← getAdpfProfile;
    target ← defined (cast_signed 64 (dmul (double targetDurationNanos) (mTargetTimeFactor c)));
    s ← gets id;
    let lastTargetNs := d_targetNs (mDescriptor s) in
    c ← getAdpfProfile;
    when (negb (target =? lastTargetNs) && heuristics_on c) (
      diff ← defined (int64 (target - lastTargetNs));
      when (lastTargetNs ÷ 100 * kTargetDurationChangeThreshold <? Z.abs diff)
        resetSessionHeuristicStates);;
    set_desc (with_target target);;
    to_manager (UpdateTargetWorkDuration (mSessionId s) CPU_VOTE_DEFAULT target);;
    mret EX_NONE).

Definition isTimeout : hs bool :=
  now ← call CNow;
  s ← gets id;
  c ← getAdpfProfile;
  stale ← defined (stale_ns c (d_targetNs (mDescriptor s)));
  mret (mLastUpdatedTime s + stale <=? now).

(** ** Reports *)
(** [min + (max - min) * JankyFactor], converted to [uint32_t]. *)
Definition interpolate (lo hi : Z) (factor : spec_float) : option Z :=
  cast_unsigned 32 (dadd (double lo) (dmul (double (wrap_unsigned 32 (hi - lo))) factor)).

(** [uclampMinFloor] and [uclampMinCeiling]. *)
Definition uclamp_bounds (c : adpf_config) (level : SessionJankyLevel) (frames : Z) : option (Z * Z) :=
  if heuristics_on c then
    floors ← mHBoostUclampMinFloorRange c;
    ceilings ← mHBoostUclampMinCeilingRange c;
    let minFloor := Z.max (mUclampMinLow c) floors.1 in
    let maxFloor := Z.max (mUclampMinLow c) floors.2 in
    let minCeiling := Z.max (mUclampMinHigh c) ceilings.1 in
    let maxCeiling := Z.max (mUclampMinHigh c) ceilings.2 in
    match level with
    | MODERATE =>
        factor ← janky_factor c frames;
        lo ← interpolate minFloor maxFloor factor;
        hi ← interpolate minCeiling maxCeiling factor;
        Some (lo, hi)
    | SEVERE => Some (maxFloor, maxCeiling)
    | LIGHT => Some (mUclampMinLow c, mUclampMinHigh c)
    end
  else Some (mUclampMinLow c, mUclampMinHigh c).

Definition next_min (bounds : Z * Z) (pid output : Z) : option Z :=
  x ← int32 (pid + wrap_signed 32 output);
  Some (Z.max (wrap_signed 32 bounds.1) (Z.min (wrap_signed 32 bounds.2) x)).

Definition no_buckets : FrameBuckets := Buckets 0 0 0 0 0 0.

Definition record_frames (ds : list reported) : hs () :=
  s ← gets id;
  game ← (if bool_decide (mSessTag s = SURFACEFLINGER) then call CGameMode else mret false);
  r ← defined (mSessionRecords s);
  '(r, buckets) ← defined (addReportedDurations (work_of <$> ds) (d_targetNs (mDescriptor s)) game
                             (r, no_buckets));
  modify (with_records r);;
  call (CHboostStatistics (mJankyLevel s) (Z.of_nat (length ds)));;
  call (CFrameBuckets buckets);;
  updateHeuristicBoost.

Definition boost_gpu (c : adpf_config) (last : reported) : hs () :=
  match mGpuBoostCapacityMax c with
  | Some capacityMax =>
      if negb (default false (mGpuBoostOn c)) || (gpuDurationNanos last =? 0) then mret ()
      else
        freq ← call CGpuFrequency;
        match freq with
        | None => mret ()
        | Some gpu_freq =>
            s ← gets id;
            let target := d_targetNs (mDescriptor s) in
            capacity ← defined (calculate_capacity last target gpu_freq);
            now ← call CNow;
            stale ← defined (stale_ns c target);
            to_manager (VoteSetGpu (mSessionId s) GPU_CAPACITY (clamp capacity 0 capacityMax) now stale)
        end
  | None => mret ()
  end.

Definition reportActualWorkDuration (actualDurations : list reported) : hs status := alive (
  s ← gets id;
  if d_targetNs (mDescriptor s) =? 0 then mret EX_ILLEGAL_STATE
  else match last actualDurations with
  | None => mret EX_ILLEGAL_ARGUMENT
  | Some last =>
      if negb (is_active (mDescriptor s)) then mret EX_ILLEGAL_STATE
      else
        c ← getAdpfProfile;
        isFirstFrame ← isTimeout;
        now ← call CNow;
        modify (with_time now);;
        when isFirstFrame (call CUniversalBoost);;
        to_manager (DisableBoosts (mSessionId s));;
        if negb (mPidOn c) then
          updatePidControlVariable (wrap_signed 32 (mUclampMinHigh c)) true;; mret EX_NONE
        else
          when (heuristics_on c) (record_frames actualDurations);;
          output ← convertWorkDurationToBoostByPid actualDurations;
          s ← gets id;
          bounds ← defined (uclamp_bounds c (mJankyLevel s) (mJankyFrameNum s));
          next ← defined (next_min bounds (pidControlVariable (mDescriptor s)) output);
          updatePidControlVariable next true;;
          boost_gpu c last;;
          mret EX_NONE
  end).

(** ** Hints, modes, threads *)
Definition setModeLocked (mode : SessionMode) (enabled : bool) : hs status := alive (
  match mode with
  | POWER_EFFICIENCY =>
      sid ← gets mSessionId;
      to_manager (SetPreferPowerEfficiency sid enabled);;
      modify (with_mode enabled);;
      now ← call CNow;
      modify (with_time now);;
      mret EX_NONE
  | MODE_INVALID => mret EX_ILLEGAL_ARGUMENT
  end).
Definition setMode (mode : SessionMode) (enabled : bool) : hs status := setModeLocked mode enabled.

Definition tryToSendPowerHint (h : SessionHint) : hs () :=
  s ← gets id;
  supported ← match mSupportedHints s h with
              | Some b => mret b
              | None => b ← call (CIsHintSupported h); modify (with_hint h b);; mret b
              end;
  when supported (call (CDoHint h)).

(** A vote of the clamp of the session with a maximum of [kUclampMax]. *)
Definition vote (v : AdpfVoteType) (lo durationNs : Z) : hs () :=
  sid ← gets mSessionId;
  now ← call CNow;
  to_manager (VoteSet sid v lo kUclampMax now durationNs).

(** The switch of [sendHint]; the answer is whether the hint is known. *)
Definition hint_vote (h : SessionHint) (c : adpf_config) : hs bool :=
  d ← get_desc id;
  match h with
  | H_CPU_LOAD_UP =>
      updatePidControlVariable (pidControlVariable d) true;;
      duration ← defined (int64 (d_targetNs d * 2));
      vote CPU_LOAD_UP (wrap_signed 32 (mUclampMinLoadUp c)) duration;; mret true
  | H_CPU_LOAD_DOWN =>
      updatePidControlVariable (wrap_signed 32 (mUclampMinLow c)) true;; mret true
  | H_CPU_LOAD_RESET =>
      updatePidControlVariable
        (wrap_signed 32 (Z.max (mUclampMinInit c) (wrap_unsigned 32 (pidControlVariable d)))) false;;
      duration ← defined (half_stale_ns c (d_targetNs d));
      vote CPU_LOAD_RESET (wrap_signed 32 (mUclampMinLoadReset c)) duration;; mret true
  | H_CPU_LOAD_RESUME =>
      duration ← defined (half_stale_ns c (d_targetNs d));
      vote CPU_LOAD_RESUME (pidControlVariable d) duration;; mret true
  | H_POWER_EFFICIENCY => _ ← setModeLocked POWER_EFFICIENCY true; mret true
  | H_GPU_LOAD_UP =>
      sid ← gets mSessionId;
      now ← call CNow;
      to_manager (VoteSetGpu sid GPU_LOAD_UP (mGpuCapacityLoadUpHeadroom c) now (d_targetNs d));; mret true
  | H_GPU_LOAD_DOWN | H_GPU_LOAD_RESET | H_CPU_LOAD_SPIKE | H_GPU_LOAD_SPIKE => mret true
  | H_INVALID => mret false
  end.

Definition sendHint (h : SessionHint) : hs status := alive (
  target ← get_desc d_targetNs;
  if target =? 0 then mret EX_ILLEGAL_STATE
  else
    c ← getAdpfProfile;
    known ← hint_vote h c;
    if negb known then mret EX_ILLEGAL_ARGUMENT
    else
      now ← call CNow;
      modify (with_time now);;
      tryToSendPowerHint h;;
      mret EX_NONE).

Definition setThreads (threadIds : list Z) : hs status := alive (
  if bool_decide (threadIds = []) then mret EX_ILLEGAL_ARGUMENT
  else
    s ← gets id;
    set_desc (with_threads threadIds);;
    to_manager (SetThreads (mSessionId s) threadIds (mProcTag s));;
    c ← getAdpfProfile;
    updatePidControlVariable (wrap_signed 32 (mUclampMinInit c)) true;;
    mret EX_NONE).

Definition setAdpfProfile (profile : option adpf_config) : hs () := modify (with_profile profile).

(** ** Creation *)
Definition getProcessTag (node_exists opened stat : bool) : ProcessTag :=
  if node_exists && opened && stat then SYSTEM_UI else DEFAULT.

(** The members that the constructor initialises; [profile] is what the hint
    manager answers for the tags. *)
Definition new_session (sid : Z) (tids : list Z) (durationNs : Z) (tag : SessionTag)
    (proc : ProcessTag) (profile : adpf_config) : option hint_session :=
  records ← (if heuristics_on profile then
               n ← mMaxRecordsNum profile; f ← mJankCheckTimeFactor profile;
               Some (Some (new_records n f))
             else Some None);
  Some (HintSession sid tag proc (Descriptor durationNs tids 0 true 0 0) 0 false false (Some profile)
          records LIGHT 0 (λ _, None)).

(** The body of the constructor. *)
Definition create (tgid uid : Z) (tids : list Z) : hs () :=
  call CRegisterAdpfUpdateEvent;;
  now ← call CNow;
  modify (with_time now);;
  s ← gets id;
  let target := d_targetNs (mDescriptor s) in
  to_manager (AddPowerSession (Some (Desc (mSessionId s) tgid uid (is_active (mDescriptor s)) target))
             tids (mProcTag s));;
  c ← getAdpfProfile;
  duration ← defined (half_stale_ns c target);
  vote CPU_LOAD_RESET (wrap_signed 32 (mUclampMinLoadReset c)) duration;;
  vote CPU_VOTE_DEFAULT (wrap_signed 32 (mUclampMinInit c)) target.

Inductive session_op :=
  | SPause | SResume | SClose
  | STarget (targetDurationNanos : Z)
  | SReport (actualDurations : list reported)
  | SHint (h : SessionHint)
  | SMode (mode : SessionMode) (enabled : bool)
  | SThreads (threadIds : list Z).

Definition session_exec (o : session_op) : hs status :=
  match o with
  | SPause => pause
  | SResume => resume
  | SClose => close
  | STarget t => updateTargetWorkDuration t
  | SReport ds => reportActualWorkDuration ds
  | SHint h => sendHint h
  | SMode m b => setMode m b
  | SThreads l => setThreads l
  end.

Fixpoint session_run (ops : list session_op) : hs () :=
  match ops with [] => mret () | o :: ops => _ ← session_exec o; session_run ops end.

(** A session from its constructor to its destructor, which closes it. *)
Definition lifetime (tgid uid : Z) (tids : list Z) (ops : list session_op) : hs () :=
  create tgid uid tids;; session_run ops;; _ ← close; mret ().

(** The operations of the manager in a trace, in order. *)
Definition manager_op (e : event hint_call) : option psm_op :=
  match e with
  | Ev c _ => match c with CManager o => Some o | _ => None end
  end.
Definition manager_ops (tr : list (event hint_call)) : list psm_op := omap manager_op tr.
