(* ===== verification/HintProps.v ===== *)
(** * Power hint sessions: theorems

    The PID loop agrees with a reference in terms of windows of errors
    ([pid_output_reference]) while durations and targets are within 17 s and a
    report has at most 2^20 of them; a session keeps [session_inv] and asks the
    manager only for what [on_session] allows.  The bounds are those within
    which no 64-bit sum and no conversion of a [double] overflows. *)
From S2P Require Import Prelude Doubles UClampVoter SessionTaskMap PowerSession SessionRecords HintSession.
Local Open Scope Z_scope.

(** ** The reference of the PID control *)
Definition errors_of (target : Z) (ds : list Z) : list Z := (λ d, ns_to_100us (d - target)) <$> ds.

Definition sum_list_Z (l : list Z) : Z := foldr Z.add 0 l.

(** The integral, limited at each frame. *)
Definition integrate (c : adpf_config) (dt : Z) (es : list Z) (integral : Z) : Z :=
  foldl (λ x e, Z.max (getPidILowDivI c) (Z.min (getPidIHighDivI c) (x + e * dt))) integral es.

(** The last element of a list, or what came before it. *)
Definition last_or (x : Z) (l : list Z) : Z := default x (last l).

Lemma last_or_next x y l : last_or x (y :: l) = last_or y l.
Proof. unfold last_or. rewrite last_cons. by destruct (last l). Qed.

(** What a run of the loop adds to its sums, when the windows begin [np], [ni]
    and [nd] frames further; the derivatives telescope. *)
Definition loop_sums (c : adpf_config) (dt : Z) (np ni nd : nat) (es : list Z) (a : pid_sums) : pid_sums :=
  PidSums (err_sum a + sum_list_Z (drop np es))
    (derivative_sum a + (last_or (last_error a) es - last_or (last_error a) (take nd es)))
    (integrate c dt (drop ni es) (integral_sum a)) (last_or (last_error a) es).

(** The range of durations and targets for which nothing overflows. *)
Definition max_ns : Z := 2 ^ 34.
Definition max_error : Z := 2 ^ 19.
Definition max_integral : Z := 2 ^ 20.
Definition max_batch : Z := 2 ^ 20.

Lemma int64_small z : - 2 ^ 63 ≤ z < 2 ^ 63 → int64 z = Some z.
Proof. intros [H1 H2]. unfold int64. by rewrite (proj2 (Z.leb_le _ _) H1), (proj2 (Z.ltb_lt _ _) H2). Qed.

Lemma int32_small z : - 2 ^ 31 ≤ z < 2 ^ 31 → int32 z = Some z.
Proof. intros [H1 H2]. unfold int32. by rewrite (proj2 (Z.leb_le _ _) H1), (proj2 (Z.ltb_lt _ _) H2). Qed.

Lemma error_small target d : 0 ≤ target ≤ max_ns → Z.abs d ≤ max_ns →
  Z.abs (ns_to_100us (d - target)) ≤ max_error.
Proof.
  unfold max_ns, max_error, ns_to_100us. intros Ht Hd.
  assert (- 343598 ≤ (d - target) ÷ 100000) by (apply Z.quot_le_lower_bound; lia).
  assert ((d - target) ÷ 100000 ≤ 343598) by (apply Z.quot_le_upper_bound; lia). lia.
Qed.

(** The values that the loop can reach after [i] frames. *)
Record sums_ok (i : Z) (a : pid_sums) : Prop := {
  so_err : Z.abs (err_sum a) ≤ max_error * i;
  so_derivative : Z.abs (derivative_sum a) ≤ 2 * max_error * i;
  so_integral : Z.abs (integral_sum a) ≤ max_integral;
  so_last : Z.abs (last_error a) ≤ max_error
}.

Definition limits_ok (c : adpf_config) : Prop :=
  - max_integral ≤ getPidILowDivI c ≤ getPidIHighDivI c ∧ getPidIHighDivI c ≤ max_integral.

Lemma pid_step_run c target dt p i0 dst i d a :
  limits_ok c → 0 ≤ target ≤ max_ns → 0 ≤ dt ≤ max_ns → Z.abs d ≤ max_ns → 0 ≤ i < max_batch → sums_ok i a →
  let e := ns_to_100us (d - target) in
  let a' := PidSums (if p <=? i then err_sum a + e else err_sum a)
                    (if dst <=? i then derivative_sum a + (e - last_error a) else derivative_sum a)
                    (if i0 <=? i then Z.max (getPidILowDivI c)
                                        (Z.min (getPidIHighDivI c) (integral_sum a + e * dt))
                     else integral_sum a) e in
  pid_step c target dt p i0 dst i d a = Some a' ∧ sums_ok (i + 1) a'.
Proof.
  intros [Hl1 Hl2] Ht Hdt Hd Hi [He Hder Hin Hla] e a'.
  pose proof (error_small target d Ht Hd) as Hsm. fold e in Hsm.
  unfold max_error, max_integral, max_ns, max_batch in *.
  assert (Z.abs (e * dt) ≤ 2 ^ 19 * 2 ^ 34) as Hedt by (rewrite Z.abs_mul; nia).
  split.
  - unfold pid_step. fold e.
    destruct (dst <=? i), (p <=? i), (i0 <=? i); cbn [mbind option_bind];
      repeat (rewrite int64_small by lia; cbn [mbind option_bind]; fold e); reflexivity.
  - split; unfold a'; cbn [err_sum derivative_sum integral_sum last_error]; clearbody e; clear a'; unfold max_error, max_integral.
    + destruct (p <=? i); lia.
    + destruct (dst <=? i); lia.
    + destruct (i0 <=? i); lia.
    + lia.
Qed.

Lemma drop_take_next {A} (k i : Z) (x : A) (l : list A) :
  drop (Z.to_nat (k - i)) (x :: l) =
    (if k <=? i then [x] else []) ++ drop (Z.to_nat (k - (i + 1))) l ∧
  take (Z.to_nat (k - i)) (x :: l) =
    (if k <=? i then [] else x :: take (Z.to_nat (k - (i + 1))) l).
Proof.
  destruct (Z.leb_spec k i).
  - replace (Z.to_nat (k - i)) with 0%nat by lia. by replace (Z.to_nat (k - (i + 1))) with 0%nat by lia.
  - by replace (Z.to_nat (k - i)) with (S (Z.to_nat (k - (i + 1)))) by lia.
Qed.

Section pid.
Context (c : adpf_config) (target : Z) (Hlimits : limits_ok c) (Htarget : 0 ≤ target ≤ max_ns).
Abbreviation dt := (ns_to_100us target).

Lemma dt_range : 0 ≤ dt ≤ max_ns.
Proof.
  unfold ns_to_100us, max_ns in *. split; [apply Z.quot_pos; lia|].
  apply Z.quot_le_upper_bound; lia.
Qed.

Lemma pid_loop_sums p i0 dst ds : ∀ i a,
  Forall (λ d, Z.abs d ≤ max_ns) ds → 0 ≤ i → i + Z.of_nat (length ds) ≤ max_batch → sums_ok i a →
  let a' := loop_sums c dt (Z.to_nat (p - i)) (Z.to_nat (i0 - i)) (Z.to_nat (dst - i)) (errors_of target ds) a in
  pid_loop c target dt p i0 dst i ds a = Some a' ∧ sums_ok (i + Z.of_nat (length ds)) a'.
Proof.
  induction ds as [|d ds IH]; intros i a Hds Hi Hb Ha; cbn zeta.
  { change (errors_of target []) with (@nil Z). unfold loop_sums, last_or. rewrite !drop_nil, take_nil. simpl.
    rewrite Z.sub_diag, !Z.add_0_r. destruct a. by split. }
  apply Forall_cons in Hds as [Hd Hds]. cbn [length] in Hb |- *.
  destruct (pid_step_run c target dt p i0 dst i d a) as [Hs Ha']; [done..|apply dt_range|done|lia|done|].
  cbn [pid_loop]. rewrite Hs. cbn [mbind option_bind].
  destruct (IH (i + 1) _ Hds ltac:(lia) ltac:(lia) Ha') as [Hl Hok]. rewrite Hl.
  set (e := ns_to_100us (d - target)) in *.
  assert (errors_of target (d :: ds) = e :: errors_of target ds) as -> by done.
  set (es := errors_of target ds) in *. clearbody e es.
  match goal with |- Some ?x = Some ?y ∧ _ => assert (x = y) as E end.
  { unfold loop_sums. cbn [err_sum derivative_sum integral_sum last_error].
    rewrite !last_or_next, (proj1 (drop_take_next p i _ _)), (proj1 (drop_take_next i0 i _ _)),
      (proj2 (drop_take_next dst i _ _)).
    f_equal.
    - destruct (p <=? i); simpl; lia.
    - destruct (Z.leb_spec dst i); [replace (Z.to_nat (dst - (i + 1))) with 0%nat by lia|];
        rewrite ?last_or_next; unfold last_or; simpl; lia.
    - destruct (i0 <=? i); done. }
  rewrite E in Hok |- *. split; [done|]. by replace (i + Z.of_nat (S (length ds))) with (i + 1 + Z.of_nat (length ds)) by lia.
Qed.
End pid.

Lemma last_or_drop x n (l : list Z) : (n < length l)%nat → last_or x (drop n l) = last_or x l.
Proof.
  intros Hn. unfold last_or. rewrite <- (take_drop n l) at 2. rewrite last_app.
  destruct (last (drop n l)) eqn:E; [done|]. apply last_None in E.
  apply (f_equal length) in E. rewrite length_drop in E. simpl in E. lia.
Qed.

Lemma sum_list_bound (l : list Z) b : Forall (λ x, Z.abs x ≤ b) l → Z.abs (sum_list_Z l) ≤ b * Z.of_nat (length l).
Proof. induction 1 as [|x l Hx Hl IH]; cbn [sum_list_Z foldr length]; [lia|]. fold (sum_list_Z l). nia. Qed.

Lemma last_or_bound x l b : Z.abs x ≤ b → Forall (λ x, Z.abs x ≤ b) l → Z.abs (last_or x l) ≤ b.
Proof.
  intros Hx Hl. unfold last_or. destruct (last l) as [y|] eqn:E; [|done]. simpl.
  apply last_Some in E as [l' ->]. apply Forall_app in Hl as [_ Hl]. by inversion Hl.
Qed.

Lemma integrate_bound c dt es x : limits_ok c → Z.abs x ≤ max_integral →
  Z.abs (integrate c dt es x) ≤ max_integral.
Proof.
  intros [Hl1 Hl2]. unfold integrate. revert x. induction es as [|e es IH]; intros x Hx; [done|].
  cbn [foldl]. apply IH. lia.
Qed.

Lemma window_start_range w n : 0 ≤ w → 0 < n → 0 ≤ window_start w n < n.
Proof.
  intros Hw Hn. unfold window_start. destruct (Z.eqb_spec w 0); simpl; [lia|].
  destruct (Z.ltb_spec n w); lia.
Qed.

(** The frames of a window, and the reference of the control: the gain times
    the mean error of the first window, the limited integral over the second,
    and the slope of the error over the third, which begins with the error
    before the window when another window reaches further back. *)
Definition recent (w : Z) (n : Z) (es : list Z) : list Z := drop (Z.to_nat (window_start w n)) es.

Definition widest (c : adpf_config) (n : Z) : Z :=
  Z.min (window_start (mSamplingWindowP c) n)
    (Z.min (window_start (mSamplingWindowI c) n) (window_start (mSamplingWindowD c) n)).

Definition error_before (c : adpf_config) (n : Z) (es : list Z) (previous : Z) : Z :=
  last_or previous (take (Z.to_nat (window_start (mSamplingWindowD c) n - widest c n))
                      (drop (Z.to_nat (widest c n)) es)).

Definition pid_reference (c : adpf_config) (pu : spec_float) (dt : Z) (es : list Z)
    (integral previous : Z) : option (Z * Z * Z) :=
  let n := Z.of_nat (length es) in
  let errors := recent (mSamplingWindowP c) n es in
  let slopes := recent (mSamplingWindowD c) n es in
  let integral' := integrate c dt (recent (mSamplingWindowI c) n es) integral in
  pOut ← pid_p c pu (sum_list_Z errors) (Z.of_nat (length errors));
  iOut ← pid_i c integral';
  dOut ← pid_d c (last_or previous es - error_before c n es previous) dt (Z.of_nat (length slopes));
  Some (pOut + iOut + dOut, integral', last_or previous es).

Record gains_ok (c : adpf_config) : Prop := {
  go_po : within (mPidPo c) 512;
  go_pu : within (mPidPu c) 512;
  go_i : within (mPidI c) 256;
  go_do : within (mPidDo c) 512;
  go_du : within (mPidDu c) 512;
  go_limits : limits_ok c;
  go_windows : 0 ≤ mSamplingWindowP c ∧ 0 ≤ mSamplingWindowI c ∧ 0 ≤ mSamplingWindowD c
}.

(** Each part of the output is defined. *)
Section outputs.
Context (c : adpf_config) (pu : spec_float) (Hc : gains_ok c) (Hpu : within pu 1536).

Lemma pid_p_defined err n : 0 < n ≤ max_batch → Z.abs err ≤ max_error * n →
  ∃ p, pid_p c pu err n = Some p ∧ Z.abs p ≤ 1536 * max_error.
Proof.
  unfold max_batch, max_error. intros Hn He. unfold pid_p. apply cast_signed_within; [|lia].
  apply ddiv_within; [lia..|]. apply (within_mono _ (1536 * (2 ^ 19 * n))); [lia|].
  apply dmul_within; [lia| |apply double_within; lia].
  destruct (0 <? err); [|done]. eapply within_mono; [|apply go_po, Hc]. lia.
Qed.

Lemma pid_i_defined integral : Z.abs integral ≤ max_integral →
  ∃ i, pid_i c integral = Some i ∧ Z.abs i ≤ 256 * max_integral.
Proof.
  unfold max_integral. intros Hi. unfold pid_i. apply cast_signed_within; [|lia].
  apply dmul_within; [lia|apply go_i, Hc|apply double_within; lia].
Qed.

Lemma pid_d_defined derivative dt n : 0 < n ≤ max_batch → 0 < dt ≤ max_ns →
  Z.abs derivative ≤ 2 * max_error →
  ∃ d, pid_d c derivative dt n = Some d ∧ Z.abs d ≤ 512 * (2 * max_error).
Proof.
  unfold max_batch, max_error, max_ns. intros Hn Hdt He. unfold pid_d.
  apply cast_signed_within; [|lia]. apply ddiv_within; [lia..|].
  apply (within_mono _ (512 * (2 * 2 ^ 19))); [lia|]. apply ddiv_within; [lia..|].
  apply (within_mono _ (512 * (2 * 2 ^ 19))); [lia|].
  apply dmul_within; [lia| |apply double_within; lia].
  destruct (0 <? derivative); [apply go_do, Hc|apply go_du, Hc].
Qed.
End outputs.

Lemma length_recent w n (es : list Z) : 0 ≤ w → n = Z.of_nat (length es) → 0 < n →
  Z.of_nat (length (recent w n es)) = n - window_start w n.
Proof. intros Hw -> Hn. unfold recent. rewrite length_drop. pose proof (window_start_range w _ Hw Hn). lia. Qed.

Lemma dt_positive target : 100000 ≤ target ≤ max_ns → 0 < ns_to_100us target ≤ max_ns.
Proof.
  intros Ht. split; [|apply dt_range; lia]. unfold ns_to_100us.
  assert (1 ≤ target ÷ 100000); [apply Z.quot_le_lower_bound; lia|lia].
Qed.

Lemma errors_bound target ds : 0 ≤ target ≤ max_ns → Forall (λ d, Z.abs d ≤ max_ns) ds →
  Forall (λ x, Z.abs x ≤ max_error) (errors_of target ds).
Proof. intros Ht Hd. apply Forall_fmap. eapply Forall_impl; [exact Hd|]. intros d. by apply error_small. Qed.

(** The control against its reference, and the bound of its output. *)
Lemma pid_output_reference c level frames target ds integral previous pu :
  gains_ok c → pid_pu_active c level frames = Some pu → within pu 1536 →
  100000 ≤ target ≤ max_ns → 0 < Z.of_nat (length ds) ≤ max_batch →
  Forall (λ d, Z.abs d ≤ max_ns) ds → Z.abs integral ≤ max_integral → Z.abs previous ≤ max_error →
  ∃ output integral' previous',
    pid_reference c pu (ns_to_100us target) (errors_of target ds) integral previous =
      Some (output, integral', previous') ∧
    pid_output c level frames target ds integral previous = Some (output, integral', previous') ∧
    Z.abs output ≤ 2 ^ 31 - 2 ^ 20 ∧ Z.abs integral' ≤ max_integral ∧ Z.abs previous' ≤ max_error.
Proof.
  intros Hc Hpu Hw Ht Hn Hds Hi Hp. pose proof (go_windows _ Hc) as (HP & HI & HD).
  pose proof (errors_bound target ds ltac:(lia) Hds) as Hes.
  assert (length (errors_of target ds) = length ds) as Hlen by apply length_fmap.
  unfold pid_reference, pid_output, error_before. rewrite Hlen.
  set (n := Z.of_nat (length ds)) in *.
  pose proof (window_start_range _ n HP ltac:(lia)) as RP.
  pose proof (window_start_range _ n HI ltac:(lia)) as RI.
  pose proof (window_start_range _ n HD ltac:(lia)) as RD.
  fold (widest c n). assert (0 ≤ widest c n ∧ widest c n ≤ window_start (mSamplingWindowP c) n ∧
    widest c n ≤ window_start (mSamplingWindowI c) n ∧ widest c n ≤ window_start (mSamplingWindowD c) n ∧
    widest c n < n) as (W0 & WP & WI & WD & Wn) by (unfold widest; lia).
  set (es := errors_of target ds) in *. set (start := widest c n) in *.
  destruct (pid_loop_sums c target (go_limits _ Hc) ltac:(lia) (window_start (mSamplingWindowP c) n)
    (window_start (mSamplingWindowI c) n) (window_start (mSamplingWindowD c) n)
    (drop (Z.to_nat start) ds) start (PidSums 0 0 integral previous)) as [Hloop _].
  { by apply Forall_drop. } { done. } { rewrite length_drop. lia. }
  { split; cbn [err_sum derivative_sum integral_sum last_error]; unfold max_error in *; lia. }
  rewrite Hloop. cbn [mbind option_bind]. rewrite Hpu. cbn [mbind option_bind].
  assert (errors_of target (drop (Z.to_nat start) ds) = drop (Z.to_nat start) es) as Hdrop
    by (unfold es, errors_of; apply fmap_drop).
  unfold loop_sums. cbn [err_sum derivative_sum integral_sum last_error]. rewrite Hdrop, !drop_drop.
  assert (∀ k, start ≤ k → (Z.to_nat start + Z.to_nat (k - start))%nat = Z.to_nat k) as Hk by lia.
  rewrite !Hk by done. rewrite !Z.add_0_l.
  rewrite last_or_drop by lia.
  fold (recent (mSamplingWindowP c) n es). fold (recent (mSamplingWindowI c) n es).
  rewrite <- (length_recent (mSamplingWindowP c) n es), <- (length_recent (mSamplingWindowD c) n es)
    by (done || lia).
  set (errors := recent (mSamplingWindowP c) n es). set (slopes := recent (mSamplingWindowD c) n es).
  assert (0 < Z.of_nat (length errors) ≤ max_batch) as Le by (unfold errors; rewrite length_recent; lia).
  assert (0 < Z.of_nat (length slopes) ≤ max_batch) as Ls by (unfold slopes; rewrite length_recent; lia).
  set (integral' := integrate c _ _ integral). set (before := last_or previous (take _ _)).
  assert (Z.abs integral' ≤ max_integral) as Hi' by (apply integrate_bound; [apply Hc|done]).
  assert (Z.abs before ≤ max_error) as Hb by (apply last_or_bound; [done|]; apply Forall_take, Forall_drop, Hes).
  assert (Z.abs (last_or previous es) ≤ max_error) as Hl by (by apply last_or_bound).
  destruct (pid_p_defined c pu Hc Hw (sum_list_Z errors) _ Le) as (p & -> & Bp).
  { apply sum_list_bound. by apply Forall_drop. }
  destruct (pid_i_defined c Hc integral' Hi') as (i & -> & Bi).
  destruct (pid_d_defined c Hc (last_or previous es - before) (ns_to_100us target) _ Ls) as (d & -> & Bd);
    [by apply dt_positive|lia|].
  unfold max_error, max_integral in *. cbn [mbind option_bind].
  rewrite !int64_small by lia. cbn [mbind option_bind]. rewrite int64_small by lia.
  eexists _, _, _. split; [reflexivity|]. split; [reflexivity|]. split_and!; lia.
Qed.

(** *** The control, without the functions of the session

    The errors of the frames in units of 100 us, against the target; the last
    [w] of them, or all if there are fewer or [w] is 0; and the error before
    those of the third window, which is that of the report before if no other
    window reaches further back. *)
Definition frame_errors (target : Z) (durations : list Z) : list Z :=
  (λ d, (d - target) ÷ 100000) <$> durations.

Definition last_frames (w : Z) (es : list Z) : list Z :=
  if decide (0 < w ≤ Z.of_nat (length es)) then drop (length es - Z.to_nat w) es else es.

Definition before_slopes (c : adpf_config) (es : list Z) (previous : Z) : Z :=
  let frames w := length (last_frames w es) in
  let d := frames (mSamplingWindowD c) in
  if decide (frames (mSamplingWindowP c) ≤ d ∧ frames (mSamplingWindowI c) ≤ d)%nat then previous
  else default previous (es !! (length es - d - 1)%nat).

(** The gain for frames that are too long ([mPidPo], [mPidDo]) or not times the
    mean error of the first window; the gain times the integral over the second
    window, which is limited at each frame; the gain times the slope of the
    error over the third; with the arithmetic of [double], each cut to an
    integer.  The integral and the last error are kept. *)
Definition pid_spec (c : adpf_config) (target : Z) (durations : list Z) (integral previous : Z) :
    option (Z * Z * Z) :=
  let es := frame_errors target durations in
  let latest := default previous (last es) in
  let errors := last_frames (mSamplingWindowP c) es in
  let err := foldr Z.add 0 errors in
  let integral := foldl (λ x e,
      Z.max (getPidILowDivI c) (Z.min (getPidIHighDivI c) (x + e * (target ÷ 100000))))
    integral (last_frames (mSamplingWindowI c) es) in
  let slopes := last_frames (mSamplingWindowD c) es in
  let slope := latest - before_slopes c es previous in
  p ← cast_signed 64 (ddiv (dmul (if decide (0 < err) then mPidPo c else mPidPu c) (double err))
        (double (Z.of_nat (length errors))));
  i ← cast_signed 64 (dmul (mPidI c) (double integral));
  d ← cast_signed 64 (ddiv (ddiv (dmul (if decide (0 < slope) then mPidDo c else mPidDu c) (double slope))
        (double (target ÷ 100000))) (double (Z.of_nat (length slopes))));
  Some (p + i + d, integral, latest).

Lemma last_frames_recent w (es : list Z) : 0 ≤ w → last_frames w es = recent w (Z.of_nat (length es)) es.
Proof.
  intros Hw. unfold last_frames, recent, window_start.
  destruct (Z.eqb_spec w 0) as [->|]; cbn [orb]; [by rewrite decide_False by lia|].
  destruct (Z.ltb_spec (Z.of_nat (length es)) w); [by rewrite decide_False by lia|].
  rewrite decide_True by lia. f_equal. lia.
Qed.

Lemma length_last_frames w (es : list Z) : 0 ≤ w → 0 < Z.of_nat (length es) →
  Z.of_nat (length (last_frames w es)) = Z.of_nat (length es) - window_start w (Z.of_nat (length es)).
Proof. intros Hw Hn. rewrite last_frames_recent by done. by apply length_recent. Qed.

Lemma before_slopes_error c es previous : gains_ok c → es ≠ [] →
  before_slopes c es previous = error_before c (Z.of_nat (length es)) es previous.
Proof.
  intros Hc Hes. pose proof (go_windows _ Hc) as (HP & HI & HD).
  assert (0 < Z.of_nat (length es)) as Hn by (destruct es; simpl; [done|lia]).
  unfold before_slopes, error_before, widest.
  pose proof (length_last_frames _ es HP Hn) as LP. pose proof (length_last_frames _ es HI Hn) as LI.
  pose proof (length_last_frames _ es HD Hn) as LD.
  pose proof (window_start_range _ _ HP Hn) as RP. pose proof (window_start_range _ _ HI Hn) as RI.
  pose proof (window_start_range _ _ HD Hn) as RD.
  revert LP LI LD RP RI RD. generalize (window_start (mSamplingWindowP c) (Z.of_nat (length es))) as p.
  generalize (window_start (mSamplingWindowI c) (Z.of_nat (length es))) as i.
  generalize (window_start (mSamplingWindowD c) (Z.of_nat (length es))) as d. intros d i p LP LI LD RP RI RD.
  destruct (decide _) as [Hd|Hd].
  - replace (Z.to_nat (d - Z.min p (Z.min i d))) with 0%nat by lia. done.
  - replace (length es - length (last_frames (mSamplingWindowD c) es) - 1)%nat
      with (Z.to_nat d - 1)%nat by lia.
    destruct (lookup_lt_is_Some_2 es (Z.to_nat d - 1)) as [x Hx]; [lia|]. rewrite Hx.
    rewrite take_drop_commute, last_or_drop by (rewrite length_take; lia).
    replace (Z.to_nat (Z.min p (Z.min i d)) + Z.to_nat (d - Z.min p (Z.min i d)))%nat with (S (Z.to_nat d - 1)) by lia.
    unfold last_or. rewrite (take_S_r _ _ _ Hx). by rewrite last_snoc.
Qed.

Lemma pid_spec_reference c target ds integral previous : gains_ok c → ds ≠ [] →
  pid_spec c target ds integral previous =
    pid_reference c (mPidPu c) (ns_to_100us target) (errors_of target ds) integral previous.
Proof.
  intros Hc Hds. pose proof (go_windows _ Hc) as (HP & HI & HD). unfold pid_spec, pid_reference.
  change (frame_errors target ds) with (errors_of target ds).
  assert (errors_of target ds ≠ []) as Hes by by destruct ds.
  rewrite before_slopes_error by done. rewrite !last_frames_recent by done.
  unfold pid_p, pid_i, pid_d, integrate, sum_list_Z, ns_to_100us, last_or.
  by repeat match goal with |- context [decide (0 < ?x)] =>
    destruct (decide (0 < x)); [rewrite (proj2 (Z.ltb_lt 0 x)) by done|rewrite (proj2 (Z.ltb_ge 0 x)) by lia] end.
Qed.

(** ** The clamp of a report *)
Lemma nonneg_double z : 0 ≤ z < 2 ^ 53 → nonneg (double z).
Proof.
  intros Hz. destruct (Z.eq_dec z 0) as [->|]; [done|].
  destruct (normalize_exact 53 1024 ltac:(lia) ltac:(lia) z) as (m & e & E & _); [lia|].
  unfold double. by rewrite E.
Qed.

Lemma nonneg_dmul x y A B : A * B < 2 ^ 53 → nonneg x → nonneg y → within x A → within y B → nonneg (dmul x y).
Proof.
  intros HAB Hx Hy Wx Wy. pose proof (dmul_within x y A B HAB Wx Wy) as W.
  destruct x as [| | |[] m1 e1], y as [| | |[] m2 e2]; try done. by eapply round_nonneg.
Qed.

Lemma nonneg_dadd x y A B : A + B < 2 ^ 53 → nonneg x → nonneg y → within x A → within y B → nonneg (dadd x y).
Proof.
  intros HAB Hx Hy Wx Wy. pose proof (dadd_within x y A B HAB Wx Wy) as W.
  destruct x as [[]| | |[] m1 e1], y as [[]| | |[] m2 e2]; try done.
  unfold dadd in W |- *. cbn [SFadd cond_Zopp] in W |- *.
  unfold binary_normalize, binary_round in W |- *.
  destruct (Zpos _ + Zpos _) as [|p|p] eqn:E; [lia| |lia].
  destruct (shl_align p _ _) as [mz ez]. by eapply round_nonneg.
Qed.

Lemma nonneg_ddiv x n N : 0 ≤ N < 2 ^ 53 → 0 < n < 2 ^ 53 → nonneg x → within x (N * n) →
  nonneg (ddiv x (double n)).
Proof.
  intros HN Hn Hx Wx. pose proof (ddiv_within x n N HN Hn Wx) as W.
  destruct (normalize_exact 53 1024 ltac:(lia) ltac:(lia) n Hn) as (m & e & E & _).
  unfold double in W |- *. rewrite E in W |- *.
  destruct x as [[]| | |[] m1 e1]; try done. unfold ddiv in W |- *. cbn [SFdiv xorb] in W |- *.
  destruct (SFdiv_core_binary _ _ _ _ _ _) as [[m' e'] l]. by eapply round_nonneg.
Qed.

(** The heuristic boost of a profile, when it is on. *)
Record heuristics_ok (c : adpf_config) (K : nat) (factor : spec_float) (moderate severe : Z) : Prop := {
  ho_records : mMaxRecordsNum c = Some (Z.of_nat K);
  ho_factor : mJankCheckTimeFactor c = Some factor;
  ho_three : (3 ≤ K)%nat;
  ho_moderate : mHBoostModerateJankThreshold c = Some moderate;
  ho_severe : mHBoostSevereJankThreshold c = Some severe;
  ho_order : 0 ≤ moderate < severe ∧ severe < 2 ^ 32;
  ho_pu : ∃ pu, mHBoostSevereJankPidPu c = Some pu ∧ within pu 512;
  ho_floor : ∃ lo hi, mHBoostUclampMinFloorRange c = Some (lo, hi) ∧ 0 ≤ lo ≤ hi ∧ hi ≤ kUclampMax;
  ho_ceiling : ∃ lo hi, mHBoostUclampMinCeilingRange c = Some (lo, hi) ∧ 0 ≤ lo ≤ hi ∧ hi ≤ kUclampMax;
  ho_ratio : is_Some (mHBoostOffMaxAvgDurRatio c);
  ho_low : is_Some (mLowFrameRateThreshold c)
}.

Section janky.
Context (c : adpf_config) (K : nat) (factor : spec_float) (moderate severe : Z)
  (Hc : heuristics_ok c K factor moderate severe).

Lemma janky_factor_ok frames : 0 ≤ frames < severe →
  ∃ f, janky_factor c frames = Some f ∧ nonneg f ∧ within f 1.
Proof.
  intros Hf. pose proof (ho_order _ _ _ _ _ Hc) as Ho.
  unfold janky_factor. rewrite (ho_moderate _ _ _ _ _ Hc). cbn [mbind option_bind].
  destruct (Z.ltb_spec frames moderate); [exists (double 0); split; [done|split; [done|by apply double_within]]|].
  rewrite (ho_severe _ _ _ _ _ Hc). cbn [mbind option_bind]. rewrite !wrap_unsigned_small by lia.
  assert (within (dmul (double (frames - moderate)) (double 1)) (1 * (severe - moderate))) as W.
  { eapply within_mono; [|apply (dmul_within _ _ (frames - moderate) 1); [lia|apply double_within; lia..]]. lia. }
  assert (nonneg (dmul (double (frames - moderate)) (double 1))) as P.
  { apply (nonneg_dmul _ _ (frames - moderate) 1); [lia|apply nonneg_double; lia..|apply double_within; lia|].
    by apply double_within. }
  eexists. split; [done|]. split; [|apply ddiv_within; [lia|lia|done]].
  apply (nonneg_ddiv _ _ 1); [lia|lia|done..].
Qed.

Lemma interpolate_ok lo hi f : 0 ≤ lo ≤ hi → hi ≤ kUclampMax → nonneg f → within f 1 →
  ∃ v, interpolate lo hi f = Some v ∧ 0 ≤ v ≤ kUclampMax.
Proof.
  unfold kUclampMax. intros Hlo Hhi Pf Wf. unfold interpolate. rewrite wrap_unsigned_small by lia.
  assert (within (double lo) lo) as W1 by (apply double_within; lia).
  assert (within (double (hi - lo)) (hi - lo)) as W2 by (apply double_within; lia).
  pose proof (dmul_within _ _ (hi - lo) 1 ltac:(lia) W2 Wf) as W3.
  assert (nonneg (dmul (double (hi - lo)) f)) as P3
    by (apply (nonneg_dmul _ _ (hi - lo) 1); [lia|apply nonneg_double; lia|done..]).
  destruct (cast_unsigned_within 32 (dadd (double lo) (dmul (double (hi - lo)) f)) 1024)
    as (v & -> & Hv); [| |lia|by exists v].
  - apply (nonneg_dadd _ _ lo ((hi - lo) * 1)); [lia|apply nonneg_double; lia|done..].
  - eapply within_mono; [|apply (dadd_within _ _ lo ((hi - lo) * 1)); [lia|done..]]. lia.
Qed.

Lemma uclamp_bounds_boosted level frames :
  0 ≤ mUclampMinLow c ≤ kUclampMax → 0 ≤ mUclampMinHigh c ≤ kUclampMax →
  (level = MODERATE → 0 ≤ frames < severe) →
  ∃ lo hi, uclamp_bounds c level frames = Some (lo, hi) ∧ 0 ≤ lo ≤ kUclampMax ∧ 0 ≤ hi ≤ kUclampMax.
Proof.
  intros Hl Hh Hf. unfold uclamp_bounds.
  destruct (heuristics_on c); [|by eexists _, _].
  destruct (ho_floor _ _ _ _ _ Hc) as (fl & fh & -> & Hf1 & Hf2).
  destruct (ho_ceiling _ _ _ _ _ Hc) as (cl & ch & -> & Hc1 & Hc2). cbn [mbind option_bind fst snd].
  destruct level; [by eexists _, _| |eexists _, _; split; [done|lia]].
  destruct (janky_factor_ok frames) as (f & -> & Pf & Wf); [auto|]. cbn [mbind option_bind].
  destruct (interpolate_ok (Z.max (mUclampMinLow c) fl) (Z.max (mUclampMinLow c) fh) f) as (lo & -> & Rlo);
    [lia|lia|done..|]. cbn [mbind option_bind].
  destruct (interpolate_ok (Z.max (mUclampMinHigh c) cl) (Z.max (mUclampMinHigh c) ch) f) as (hi & -> & Rhi);
    [lia|lia|done..|]. by eexists _, _.
Qed.

Lemma dmin_within x y N : within x N → within y N → within (dmin x y) N.
Proof. unfold dmin. by destruct (SFltb y x). Qed.

Lemma pid_pu_boosted level frames : within (mPidPu c) 512 → (level = MODERATE → 0 ≤ frames < severe) →
  ∃ pu, pid_pu_active c level frames = Some pu ∧ within pu 1536.
Proof.
  intros Hp Hf. unfold pid_pu_active.
  assert (within (mPidPu c) 1536) as Hp' by (eapply within_mono; [|exact Hp]; lia).
  destruct (heuristics_on c); [|by eexists].
  destruct (ho_pu _ _ _ _ _ Hc) as (pu & -> & Hpu). cbn [mbind option_bind].
  pose proof (dmin_within _ _ _ Hpu Hp) as Hm.
  destruct level; [by eexists| |eexists; split; [done|eapply within_mono; [|exact Hm]; lia]].
  destruct (janky_factor_ok frames) as (f & -> & _ & Wf); [auto|]. eexists. split; [done|].
  apply (dadd_within _ _ 512 (1 * (512 + 512))); [lia|done|]. apply dmul_within; [lia|done|].
  by apply dsub_within.
Qed.
End janky.

Lemma no_gpu_boost c d : default false (mGpuBoostOn c) = false → boost_gpu c d = mret ().
Proof. unfold boost_gpu. intros ->. by destruct (mGpuBoostCapacityMax c). Qed.

(** ** The invariant of a session

    [latest_ok]: once there are frames, the index of the latest is that of a
    record. *)
Definition latest_ok (r : session_records) : Prop := 0 < mNumOfFrames r → 0 ≤ mLatestRecordIndex r.

Lemma add_latest_ok target compute s d s' :
  addReportedDuration target compute s d = Some s' → latest_ok (fst s').
Proof.
  destruct s as [r b]. unfold addReportedDuration. intros H. apply bind_Some in H as (r1 & _ & H).
  destruct (kMaxNumOfRecords r1 =? 0); [done|].
  apply bind_Some in H as ([[[j i] n] a] & _ & H). destruct (0 <=? Z.rem _ _) eqn:E; [|done].
  destruct (_ <? Z.of_nat _); [|done]. simpl in H. apply bind_Some in H as (q & _ & H).
  injection H as <-. intros _. apply Z.leb_le, E.
Qed.

Lemma reports_latest_ok target compute ds : ∀ s s', latest_ok (fst s) →
  addReportedDurations ds target compute s = Some s' → latest_ok (fst s').
Proof.
  induction ds as [|d ds IH]; intros s s' Hl H; [by injection H as <-|].
  apply bind_Some in H as (s1 & H1 & H). apply (IH s1); [by eapply add_latest_ok|done].
Qed.

Lemma record_at_defined (l : list CycleRecord) i : 0 ≤ i < Z.of_nat (length l) → is_Some (record_at l i).
Proof. intros Hi. unfold record_at. destruct (Z.leb_spec 0 i); [|lia]. apply lookup_lt_is_Some. lia. Qed.

Lemma low_rate_defined K factor h r threshold : (3 ≤ K)%nat → stats K factor h r → latest_ok r →
  is_Some (isLowFrameRate threshold r).
Proof.
  intros HK Hst Hl. pose proof (st_repr _ _ _ _ Hst) as Hr. unfold isLowFrameRate.
  destruct (Z.leb_spec 3 (mNumOfFrames r)) as [H3|]; [|done].
  assert (0 ≤ mLatestRecordIndex r) as H0 by (apply Hl; lia).
  pose proof (rp_range _ _ _ _ _ Hr) as Hg. pose proof (rp_len _ _ _ _ _ Hr) as Hlen.
  rewrite (rp_max _ _ _ _ _ Hr). set (before := λ i : Z, if i =? 0 then Z.of_nat K - 1 else i - 1).
  assert (∀ i, 0 ≤ i < Z.of_nat K → 0 ≤ before i < Z.of_nat K) as Hb
    by (intros i Hi; unfold before; destruct (Z.eqb_spec i 0); lia).
  cbv zeta. fold (before (mLatestRecordIndex r)). fold (before (before (mLatestRecordIndex r))).
  set (i2 := before (mLatestRecordIndex r)). pose proof (Hb _ (conj H0 (proj2 Hg))) as H2. fold i2 in H2.
  pose proof (Hb i2 H2) as H3'.
  destruct (record_at_defined (mRecords r) (mLatestRecordIndex r)) as [c1 ->]; [lia|].
  destruct (record_at_defined (mRecords r) i2) as [c2 ->]; [lia|].
  destruct (record_at_defined (mRecords r) (before i2)) as [c3 ->]; [lia|]. done.
Qed.

(** What a profile must say. *)
Record profile_ok (c : adpf_config) : Prop := {
  po_gains : gains_ok c;
  po_low : 0 ≤ mUclampMinLow c ≤ kUclampMax;
  po_high : 0 ≤ mUclampMinHigh c ≤ kUclampMax;
  po_init : 0 ≤ mUclampMinInit c ≤ kUclampMax;
  po_up : 0 ≤ mUclampMinLoadUp c ≤ kUclampMax;
  po_reset : 0 ≤ mUclampMinLoadReset c ≤ kUclampMax;
  po_rate : 0 ≤ mReportingRateLimitNs c ≤ max_ns;
  po_stale : within (mStaleTimeFactor c) 256;
  po_gpu : default false (mGpuBoostOn c) = false;
  po_boost : heuristics_on c = true → ∃ K factor moderate severe, heuristics_ok c K factor moderate severe
}.

(** What an application may ask: a target is refused or comes out of the
    conversion between 0.1 ms and 17 s, durations are within 17 s. *)
Definition target_ok (t : Z) : Prop := 100000 ≤ t ≤ max_ns.
Definition report_ok (ds : list reported) : Prop :=
  Z.of_nat (length ds) ≤ max_batch ∧ Forall (λ d : reported, Z.abs (durationNanos d) ≤ max_ns) ds.
Definition op_ok (c : adpf_config) (o : session_op) : Prop :=
  match o with
  | STarget t => t ≤ 0 ∨ ∃ v, cast_signed 64 (dmul (double t) (mTargetTimeFactor c)) = Some v ∧ target_ok v
  | SReport ds => report_ok ds
  | _ => True
  end.

(** What the manager may be asked for the session. *)
Definition on_session (sid : Z) (o : psm_op) : Prop :=
  match o with
  | SetThreads i _ _ | Pause i | Resume i | SetPreferPowerEfficiency i _ | DisableBoosts i => i = sid
  | UpdateTargetWorkDuration i v d => i = sid ∧ v = CPU_VOTE_DEFAULT ∧ target_ok d
  | VoteSet i v lo hi _ _ => i = sid ∧ isGpuVote (vote_id v) = false ∧ 0 ≤ lo ≤ kUclampMax ∧ hi = kUclampMax
  | VoteSetGpu i v _ _ _ => i = sid ∧ isGpuVote (vote_id v) = true
  | _ => False
  end.

Section invariant.
Context (c : adpf_config) (Hc : profile_ok c) (sid : Z) (proc : ProcessTag) (added : psm_op)
  (K : nat) (factor : spec_float) (moderate severe : Z)
  (Hboost : heuristics_on c = true → heuristics_ok c K factor moderate severe).

Definition janky_ok (s : hint_session) : Prop :=
  mSessTag s ≠ SURFACEFLINGER ∧
  (∃ r h, mSessionRecords s = Some r ∧ stats K factor h r ∧ latest_ok r) ∧
  (mJankyLevel s = MODERATE → 0 ≤ mJankyFrameNum s < severe).

Record session_inv (s : hint_session) : Prop := {
  si_profile : mAdpfProfile s = Some c;
  si_id : mSessionId s = sid;
  si_proc : mProcTag s = proc;
  si_target : target_ok (d_targetNs (mDescriptor s));
  si_integral : Z.abs (integral_error (mDescriptor s)) ≤ max_integral;
  si_previous : Z.abs (previous_error (mDescriptor s)) ≤ max_error;
  si_pid : 0 ≤ pidControlVariable (mDescriptor s) ≤ kUclampMax;
  si_janky : heuristics_on c = true → janky_ok s
}.

Definition asked (b : bool) (tr : list (event hint_call)) : Prop :=
  ∃ mid, manager_ops tr = added :: mid ++ (if b then [RemovePowerSession sid proc] else []) ∧
    Forall (on_session sid) mid.

Record good (b : bool) (s : hint_session) (tr : list (event hint_call)) : Prop := {
  gd_inv : session_inv s;
  gd_closed : mSessionClosed s = b;
  gd_asked : asked b tr
}.

(** [p] keeps an open session good, and its answer satisfies [Q]. *)
Definition stays {A} (p : hs A) (Q : A → Prop) : Prop :=
  ∀ s tr, good false s tr → wp p (λ a s' tr', good false s' tr' ∧ Q a) s tr.

Lemma stays_ret {A} (a : A) (Q : A → Prop) : Q a → stays (mret a) Q.
Proof. by intros Ha s tr Hs. Qed.

Lemma stays_bind {A B} (p : hs A) (f : A → hs B) Q R :
  stays p Q → (∀ a, Q a → stays (f a) R) → stays (p ≫= f) R.
Proof.
  intros Hp Hf s tr Hs. apply wp_bind. eapply wp_mono; [|apply Hp, Hs].
  intros a s' tr' [Hs' Ha]. by apply (Hf a Ha).
Qed.

Lemma stays_seq {B} (p : hs ()) (k : hs B) R : stays p (λ _, True) → stays k R → stays (p;; k) R.
Proof. intros Hp Hk. by eapply stays_bind. Qed.

Lemma stays_weaken {A} (p : hs A) (Q Q' : A → Prop) : (∀ a, Q a → Q' a) → stays p Q → stays p Q'.
Proof.
  intros HQ Hp s tr Hs. eapply wp_mono; [|apply Hp, Hs]. intros a s' tr' [Hg Ha]. auto.
Qed.

Lemma stays_when (b : bool) (p : hs ()) : (b = true → stays p (λ _, True)) → stays (when b p) (λ _, True).
Proof. intros Hp. destruct b; [by apply Hp|by apply stays_ret]. Qed.

Lemma stays_gets {A} (f : hint_session → A) (Q : A → Prop) :
  (∀ s, session_inv s → mSessionClosed s = false → Q (f s)) → stays (gets f) Q.
Proof. intros HQ s tr Hs. split; [done|]. apply HQ; [apply Hs|apply Hs]. Qed.

Lemma stays_modify f :
  (∀ s, session_inv s → session_inv (f s) ∧ mSessionClosed (f s) = mSessionClosed s) →
  stays (modify f) (λ _, True).
Proof.
  intros Hf s tr [Hi Hb Ha]. destruct (Hf s Hi) as [Hi' Hb']. split; [|done].
  split; [done|by rewrite Hb'|done].
Qed.

Lemma manager_ops_snoc {X} tr (e : hint_call X) (x : X) :
  manager_ops (tr ++ [Ev e x]) = manager_ops tr ++ option_list (manager_op (Ev e x)).
Proof. unfold manager_ops. rewrite omap_app. simpl. by destruct e. Qed.

Lemma stays_call {X} (e : hint_call X) : (∀ x, manager_op (Ev e x) = None) → stays (call e) (λ _, True).
Proof.
  intros He s tr [Hi Hb Ha] x. split; [|done]. split; [done|done|].
  unfold asked. by rewrite manager_ops_snoc, He, app_nil_r.
Qed.

Lemma stays_manager o : on_session sid o → stays (to_manager o) (λ _, True).
Proof.
  intros Ho s tr [Hi Hb (mid & Ha & Hm)] x. split; [|done]. split; [done|done|].
  exists (mid ++ [o]). rewrite manager_ops_snoc, Ha. simpl. rewrite !app_nil_r. split; [done|].
  apply Forall_app. by repeat constructor.
Qed.

Lemma stays_state {A} (f : hint_session → hs A) Q :
  (∀ s, session_inv s → mSessionClosed s = false → stays (f s) Q) → stays (s ← gets id; f s) Q.
Proof.
  intros Hf. eapply stays_bind; [apply (stays_gets id (λ s, session_inv s ∧ mSessionClosed s = false)); by intros|].
  intros s [Hi Hb]. by apply Hf.
Qed.

Lemma stays_profile {A} (f : adpf_config → hs A) Q : stays (f c) Q → stays (p ← getAdpfProfile; f p) Q.
Proof.
  intros Hf s tr Hs. unfold getAdpfProfile. simpl. rewrite (si_profile _ (gd_inv _ _ _ Hs)). by apply Hf.
Qed.

Lemma stays_known {A B} (o : option A) a (f : A → hs B) Q : o = Some a → stays (f a) Q → stays (x ← defined o; f x) Q.
Proof. by intros ->. Qed.

Lemma stays_some {A B} (o : option A) (f : A → hs B) Q :
  is_Some o → (∀ a, o = Some a → stays (f a) Q) → stays (x ← defined o; f x) Q.
Proof. intros [a Ha] Hf. eapply stays_known; [done|by apply Hf]. Qed.

Lemma stays_ask {X B} (e : hint_call X) (f : X → hs B) Q :
  (∀ x, manager_op (Ev e x) = None) → (∀ x, stays (f x) Q) → stays (x ← call e; f x) Q.
Proof. intros He Hf. eapply stays_bind; [by apply stays_call|by intros x _]. Qed.

Lemma stays_true {A} (p : hs A) Q : stays p Q → stays p (λ _, True).
Proof. by apply stays_weaken. Qed.

(** ** The parts of the operations *)
Lemma stale_within t : target_ok t → within (dmul (double t) (mStaleTimeFactor c)) (max_ns * 256).
Proof.
  unfold target_ok, max_ns. intros Ht.
  apply dmul_within; [lia|apply double_within; lia|apply Hc].
Qed.

Lemma stale_defined t : target_ok t → is_Some (stale_ns c t).
Proof.
  intros Ht. destruct (cast_signed_within 64 _ _ (stale_within t Ht)) as (d & Hd & _);
    [unfold max_ns; lia|by exists d].
Qed.

Lemma half_stale_defined t : target_ok t → is_Some (half_stale_ns c t).
Proof.
  intros Ht. destruct (cast_signed_within 64 (ddiv (dmul (double t) (mStaleTimeFactor c)) (double 2)) (max_ns * 128))
    as (d & Hd & _); [|unfold max_ns; lia|by exists d].
  apply ddiv_within; [unfold max_ns; lia|lia|]. eapply within_mono; [|by apply stale_within]. unfold max_ns. lia.
Qed.

Lemma updatePid_stays v b : 0 ≤ v ≤ kUclampMax → stays (updatePidControlVariable v b) (λ _, True).
Proof.
  intros Hv. apply stays_seq.
  { apply stays_modify. intros s Hi. split; [|done]. by split; try apply Hi. }
  apply stays_when. intros _. apply stays_profile, stays_state. intros s Hi _.
  apply stays_ask; [done|]. intros now. apply stays_some; [apply stale_defined, Hi|]. intros stale _.
  pose proof (po_rate _ Hc) as Hr. unfold max_ns in Hr.
  eapply stays_known; [apply int64_small; lia|]. apply stays_manager. split_and!; [apply Hi|done|apply Hv..|done].
Qed.

Lemma jank_state_ok old n ratio low : heuristics_ok c K factor moderate severe →
  ∃ level, updateSessionJankState c old n ratio low = Some level ∧
    (level = MODERATE → 0 ≤ wrap_unsigned 32 n < severe).
Proof.
  intros Hh. pose proof (wrap_unsigned_range 32 n ltac:(lia)) as Hn. pose proof (ho_order _ _ _ _ _ Hh) as Ho.
  unfold updateSessionJankState. rewrite (ho_moderate _ _ _ _ _ Hh), (ho_severe _ _ _ _ _ Hh).
  destruct (ho_ratio _ _ _ _ _ Hh) as [q ->]. destruct low; [by exists LIGHT|].
  cbn [mbind option_bind]. destruct (Z.ltb_spec (wrap_unsigned 32 n) moderate).
  - destruct (bool_decide _); eexists; (split; [done|]); intros; [done|lia].
  - eexists. split; [done|]. destruct (Z.ltb_spec (wrap_unsigned 32 n) severe); [lia|done].
Qed.

Lemma janky_stays level n : (level = MODERATE → 0 ≤ n < severe) →
  stays (modify (with_janky level n)) (λ _, True).
Proof.
  intros Hl. apply stays_modify. intros s Hi. split; [|done]. split; try apply Hi.
  intros Hh. destruct (si_janky _ Hi Hh) as (Ht & Hr & _). by split_and!.
Qed.

Lemma updateHeuristicBoost_stays : heuristics_on c = true → stays updateHeuristicBoost (λ _, True).
Proof.
  intros Hh. pose proof (Hboost Hh) as Hk. apply stays_state. intros s Hi _.
  destruct (si_janky _ Hi Hh) as (Ht & (r & h & Hr & Hst & Hl) & _).
  eapply stays_known; [done|]. eapply stays_known; [eapply repr_max, st_repr, Hst; apply Hk|].
  destruct (max_of _) as [mx|]; [|by apply stays_ret]. destruct (getAvgDuration r) as [avg|]; [|by apply stays_ret].
  destruct (avg <=? 0); [by apply stays_ret|]. apply stays_profile.
  destruct (ho_low _ _ _ _ _ Hk) as [threshold Hlow]. eapply stays_known; [done|].
  apply stays_some; [eapply low_rate_defined; [apply Hk|done..]|]. intros low _. apply stays_profile.
  destruct (jank_state_ok (mJankyLevel s) (getNumOfMissedCycles r) (ddiv (dmul (double mx) (double 1)) (double avg)) low Hk)
    as (level & Hlevel & Hl'). eapply stays_known; [done|].
  apply stays_seq; [by apply janky_stays|]. rewrite bool_decide_eq_false_2 by done. by apply stays_ret.
Qed.

Lemma records_stays r h : stats K factor h r → latest_ok r → stays (modify (with_records r)) (λ _, True).
Proof.
  intros Hst Hl. apply stays_modify. intros s Hi. split; [|done]. split; try apply Hi.
  intros Hh. destruct (si_janky _ Hi Hh) as (Ht & _ & Hj). split_and!; [done|by exists r, h|done].
Qed.

Lemma record_frames_stays ds : heuristics_on c = true → stays (record_frames ds) (λ _, True).
Proof.
  intros Hh. pose proof (Hboost Hh) as Hk. apply stays_state. intros s Hi _.
  destruct (si_janky _ Hi Hh) as (Ht & (r & h & Hr & Hst & Hl) & _).
  rewrite bool_decide_eq_false_2 by done. eapply (stays_bind _ _ (λ _, True)); [by apply stays_ret|]. intros game _.
  eapply stays_known; [done|].
  destruct (report_stats K factor (ho_three _ _ _ _ _ Hk) (work_of <$> ds) (d_targetNs (mDescriptor s)) game h
    (r, no_buckets) Hst) as ([r' b] & Hrep & Hst').
  eapply stays_known; [done|]. cbn beta iota.
  apply stays_seq; [eapply records_stays; [exact Hst'|]|].
  { exact (reports_latest_ok _ _ _ (r, no_buckets) _ Hl Hrep). }
  apply stays_ask; [done|]. intros _. apply stays_ask; [done|]. intros _. by apply updateHeuristicBoost_stays.
Qed.

Lemma boost_gpu_stays d : stays (boost_gpu c d) (λ _, True).
Proof. rewrite no_gpu_boost by apply Hc. by apply stays_ret. Qed.

Lemma pu_ok level frames : (heuristics_on c = true → level = MODERATE → 0 ≤ frames < severe) →
  ∃ pu, pid_pu_active c level frames = Some pu ∧ within pu 1536.
Proof.
  intros Hf. destruct (heuristics_on c) eqn:Hh.
  - eapply pid_pu_boosted; [by apply Hboost|apply Hc|auto].
  - exists (mPidPu c). unfold pid_pu_active. rewrite Hh. split; [done|].
    eapply within_mono; [|apply (go_pu _ (po_gains _ Hc))]. lia.
Qed.

Lemma bounds_ok level frames : (heuristics_on c = true → level = MODERATE → 0 ≤ frames < severe) →
  ∃ lo hi, uclamp_bounds c level frames = Some (lo, hi) ∧ 0 ≤ lo ≤ kUclampMax ∧ 0 ≤ hi ≤ kUclampMax.
Proof.
  intros Hf. destruct (heuristics_on c) eqn:Hh.
  - eapply uclamp_bounds_boosted; [by apply Hboost|apply Hc|apply Hc|auto].
  - exists (mUclampMinLow c), (mUclampMinHigh c). unfold uclamp_bounds. rewrite Hh.
    split_and!; [done|apply Hc..].
Qed.

Lemma moderate_frames s : session_inv s →
  heuristics_on c = true → mJankyLevel s = MODERATE → 0 ≤ mJankyFrameNum s < severe.
Proof. intros Hi Hh. apply (si_janky _ Hi Hh). Qed.

Lemma errors_stay i p : Z.abs i ≤ max_integral → Z.abs p ≤ max_error →
  stays (set_desc (with_errors i p)) (λ _, True).
Proof. intros Hi' Hp'. apply stays_modify. intros s Hi. split; [|done]. by split; try apply Hi. Qed.

Lemma convert_stays ds : ds ≠ [] → report_ok ds →
  stays (convertWorkDurationToBoostByPid ds) (λ o, Z.abs o ≤ 2 ^ 31 - 2 ^ 20).
Proof.
  intros Hne [Hlen Hds]. apply stays_profile, stays_state. intros s Hi _. cbv zeta.
  destruct (pu_ok (mJankyLevel s) (mJankyFrameNum s)) as (pu & Hpu & Wpu); [by apply moderate_frames|].
  destruct (pid_output_reference c (mJankyLevel s) (mJankyFrameNum s) (d_targetNs (mDescriptor s))
    (durationNanos ∘ work_of <$> ds) (integral_error (mDescriptor s)) (previous_error (mDescriptor s)) pu)
    as (o & i & p & _ & Ho & Bo & Bi & Bp); [apply Hc|done|done|apply Hi| | |apply Hi|apply Hi|].
  { rewrite length_fmap. destruct ds; [done|]. simpl in *. lia. }
  { by apply Forall_fmap. }
  eapply stays_known; [done|]. cbn beta iota. apply stays_seq; [by apply errors_stay|by apply stays_ret].
Qed.

Lemma next_min_ok lo hi pid output :
  0 ≤ lo ≤ kUclampMax → 0 ≤ hi ≤ kUclampMax → 0 ≤ pid ≤ kUclampMax → Z.abs output ≤ 2 ^ 31 - 2 ^ 20 →
  next_min (lo, hi) pid output = Some (Z.max lo (Z.min hi (pid + output))).
Proof.
  unfold kUclampMax, next_min. intros Hl Hh Hp Ho. cbn [fst snd].
  rewrite (wrap_signed_small 32 output), (wrap_signed_small 32 lo), (wrap_signed_small 32 hi) by lia.
  by rewrite int32_small by lia.
Qed.

Lemma isTimeout_stays : stays isTimeout (λ _, True).
Proof.
  apply stays_ask; [done|]. intros now. apply stays_state. intros s Hi _. apply stays_profile.
  apply stays_some; [apply stale_defined, Hi|]. intros d _. by apply stays_ret.
Qed.

Lemma time_stays t : stays (modify (with_time t)) (λ _, True).
Proof. apply stays_modify. intros s Hi. split; [|done]. by split; try apply Hi. Qed.

(** An operation leaves a session good, open or closed. *)
Definition safe {A} (p : hs A) : Prop :=
  ∀ b s tr, good b s tr → wp p (λ _ s' tr', ∃ b', good b' s' tr') s tr.

Lemma alive_safe p Q : stays p Q → safe (alive p).
Proof.
  intros Hp b s tr Hs. unfold alive. simpl. rewrite (gd_closed _ _ _ Hs).
  destruct b; [by exists true|]. eapply wp_mono; [|apply Hp, Hs]. intros a s' tr' [? _]. by exists false.
Qed.

Lemma desc_stays f :
  (∀ d, d_targetNs (f d) = d_targetNs d ∧ integral_error (f d) = integral_error d ∧
        previous_error (f d) = previous_error d ∧ pidControlVariable (f d) = pidControlVariable d) →
  stays (set_desc f) (λ _, True).
Proof.
  intros Hf. apply stays_modify. intros s Hi. destruct (Hf (mDescriptor s)) as (E1 & E2 & E3 & E4).
  split; [|done]. split; try apply Hi; simpl; rewrite ?E1, ?E2, ?E3, ?E4; apply Hi.
Qed.

Lemma done_stays (a : status) : stays (mret a) (λ _, True).
Proof. by apply stays_ret. Qed.

Lemma report_safe ds : report_ok ds → safe (reportActualWorkDuration ds).
Proof.
  intros Hds. eapply alive_safe, stays_state. intros s Hi _.
  destruct (d_targetNs (mDescriptor s) =? 0); [apply done_stays|].
  destruct (last ds) as [d|] eqn:Hlast; [|apply done_stays].
  destruct (negb _); [apply done_stays|]. apply stays_profile.
  eapply stays_bind; [apply isTimeout_stays|]. intros first _. apply stays_ask; [done|]. intros now.
  apply stays_seq; [apply time_stays|]. apply stays_seq; [by apply stays_when; intros _; apply stays_call|].
  apply stays_seq; [apply stays_manager, Hi|]. pose proof (po_high _ Hc) as Hhigh. unfold kUclampMax in Hhigh.
  destruct (negb (mPidOn c)).
  { rewrite wrap_signed_small by lia. apply stays_seq; [by apply updatePid_stays|apply done_stays]. }
  apply stays_seq; [by apply stays_when; intros Hh; apply record_frames_stays|].
  eapply stays_bind; [apply convert_stays; [by intros ->|done]|]. intros o Ho.
  apply stays_state. intros s' Hi' _.
  destruct (bounds_ok (mJankyLevel s') (mJankyFrameNum s')) as (lo & hi & Hb & Hlo & Hhi); [by apply moderate_frames|].
  eapply stays_known; [done|]. eapply stays_known; [by apply next_min_ok; [..|apply Hi'|]|].
  unfold kUclampMax in *. apply stays_seq; [apply updatePid_stays; unfold kUclampMax; lia|].
  apply stays_seq; [apply boost_gpu_stays|apply done_stays].
Qed.

Lemma reset_stays : heuristics_on c = true → stays resetSessionHeuristicStates (λ _, True).
Proof.
  intros Hh. pose proof (Hboost Hh) as Hk.
  eapply stays_bind; [apply (stays_gets mSessionRecords (λ o, ∃ r h, o = Some r ∧ stats K factor h r))|].
  { intros s Hi _. destruct (si_janky _ Hi Hh) as (_ & (r & h & ? & ? & _) & _). by exists r, h. }
  intros o (r & h & -> & Hst). eapply stays_known; [done|].
  apply stays_seq; [|by apply janky_stays]. apply (records_stays _ []); [|done].
  split; [|constructor|done]. eapply reset_repr; [apply Hk|]. eapply st_repr, Hst.
Qed.

Lemma target_stays t : target_ok t → stays (set_desc (with_target t)) (λ _, True).
Proof. intros Ht. apply stays_modify. intros s Hi. split; [|done]. by split; try apply Hi. Qed.

Lemma target_safe t : op_ok c (STarget t) → safe (updateTargetWorkDuration t).
Proof.
  intros Ht. eapply alive_safe. destruct (Z.leb_spec t 0); [apply done_stays|].
  destruct Ht as [|(v & Hv & Ht)]; [lia|]. apply stays_profile. eapply stays_known; [done|].
  apply stays_state. intros s Hi _. apply stays_profile. apply stays_seq.
  { apply stays_when. intros [_ Hh]%andb_true_iff. pose proof (si_target _ Hi) as Hl. unfold target_ok, max_ns in *.
    eapply stays_known; [apply int64_small; lia|]. apply stays_when. intros _. by apply reset_stays. }
  apply stays_seq; [by apply target_stays|]. apply stays_seq; [by apply stays_manager; split_and!; [apply Hi|..]|].
  apply done_stays.
Qed.

Lemma vote_stays v lo d : isGpuVote (vote_id v) = false → 0 ≤ lo ≤ kUclampMax → stays (vote v lo d) (λ _, True).
Proof.
  intros Hv Hlo. eapply stays_bind; [apply (stays_gets mSessionId (λ i, i = sid)); intros s Hi _; apply Hi|].
  intros i ->. apply stays_ask; [done|]. intros now. by apply stays_manager.
Qed.

Lemma alive_stays p Q : stays p Q → stays (alive p) (λ _, True).
Proof.
  intros Hp s tr Hs. unfold alive. simpl. rewrite (gd_closed _ _ _ Hs). by apply (stays_true p Q).
Qed.

Lemma id_stays {A} (f : Z → hs A) Q : stays (f sid) Q → stays (i ← gets mSessionId; f i) Q.
Proof.
  intros Hf. eapply stays_bind; [apply (stays_gets mSessionId (λ i, i = sid)); intros s Hi _; apply Hi|].
  by intros i ->.
Qed.

Lemma mode_stays_open m b : stays (setModeLocked m b) (λ _, True).
Proof.
  eapply alive_stays. destruct m; [|apply done_stays]. apply id_stays.
  apply stays_seq; [by apply stays_manager|]. apply stays_seq.
  { apply stays_modify. intros s Hi. split; [|done]. by split; try apply Hi. }
  apply stays_ask; [done|]. intros now. apply stays_seq; [apply time_stays|apply done_stays].
Qed.

Lemma send_stays h : stays (tryToSendPowerHint h) (λ _, True).
Proof.
  apply stays_state. intros s Hi _. eapply (stays_bind _ _ (λ _, True)).
  { destruct (mSupportedHints s h) as [b|]; [by apply stays_ret|]. apply stays_ask; [done|]. intros b.
    apply stays_seq; [|by apply stays_ret].
    apply stays_modify. intros s' Hi'. split; [|done]. by split; try apply Hi'. }
  intros b _. apply stays_when. intros _. by apply stays_call.
Qed.

(** The numbers of the profile are in the range of [int]. *)
Lemma clamp_small v : 0 ≤ v ≤ kUclampMax → wrap_signed 32 v = v.
Proof. unfold kUclampMax. intros Hv. apply wrap_signed_small; lia. Qed.

Lemma hint_vote_stays h : stays (hint_vote h c) (λ _, True).
Proof.
  pose proof (po_low _ Hc) as Rl. pose proof (po_init _ Hc) as Ri.
  pose proof (po_up _ Hc) as Ru. pose proof (po_reset _ Hc) as Rr.
  eapply stays_bind.
  { apply (stays_gets _ (λ d, target_ok (d_targetNs d) ∧ 0 ≤ pidControlVariable d ≤ kUclampMax)).
    intros s Hi _. split; apply Hi. }
  intros d [Ht Hp]. assert (stays (mret true) (λ _ : bool, True)) as Hret by by apply stays_ret.
  destruct h; [..|by apply stays_ret]; try exact Hret.
  - apply stays_seq; [by apply updatePid_stays|]. unfold target_ok, max_ns in Ht.
    eapply stays_known; [apply int64_small; lia|]. rewrite clamp_small by done.
    apply stays_seq; [by apply vote_stays|done].
  - rewrite clamp_small by done. apply stays_seq; [by apply updatePid_stays|done].
  - assert (wrap_unsigned 32 (pidControlVariable d) = pidControlVariable d) as ->
      by (unfold kUclampMax in Hp; apply wrap_unsigned_small; lia).
    rewrite !clamp_small by lia.
    apply stays_seq; [apply updatePid_stays; lia|]. apply stays_some; [by apply half_stale_defined|].
    intros x _. apply stays_seq; [by apply vote_stays|done].
  - apply stays_some; [by apply half_stale_defined|]. intros x _. apply stays_seq; [by apply vote_stays|done].
  - eapply stays_bind; [apply mode_stays_open|]. by intros _ _.
  - apply id_stays. apply stays_ask; [done|]. intros now. apply stays_seq; [by apply stays_manager|done].
Qed.

Lemma hint_safe h : safe (sendHint h).
Proof.
  eapply alive_safe, (stays_bind _ _ (λ _, True)); [by apply stays_gets|]. intros t _.
  destruct (t =? 0); [apply done_stays|]. apply stays_profile. eapply stays_bind; [apply hint_vote_stays|].
  intros known _. destruct (negb known); [apply done_stays|]. apply stays_ask; [done|]. intros now.
  apply stays_seq; [apply time_stays|]. apply stays_seq; [apply send_stays|apply done_stays].
Qed.

Lemma threads_safe l : safe (setThreads l).
Proof.
  eapply alive_safe. case_bool_decide; [apply done_stays|]. apply stays_state. intros s Hi _.
  apply stays_seq; [by apply desc_stays|]. apply stays_seq; [apply stays_manager, Hi|]. apply stays_profile.
  rewrite clamp_small by apply Hc. apply stays_seq; [apply updatePid_stays, Hc|apply done_stays].
Qed.

Lemma pause_safe : safe pause.
Proof.
  eapply alive_safe, stays_state. intros s Hi _. destruct (negb _); [apply done_stays|].
  apply stays_seq; [apply stays_manager, Hi|]. apply stays_seq; [by apply desc_stays|].
  apply stays_seq; [apply stays_manager, Hi|apply done_stays].
Qed.

Lemma resume_safe : safe resume.
Proof.
  eapply alive_safe, stays_state. intros s Hi _. destruct (is_active _); [apply done_stays|].
  apply stays_seq; [apply stays_manager, Hi|]. apply stays_seq; [by apply desc_stays|].
  apply stays_seq; [apply stays_manager, Hi|apply done_stays].
Qed.

Lemma asked_close {X} tr (e : hint_call X) (x : X) :
  asked false tr → manager_op (Ev e x) = Some (RemovePowerSession sid proc) → asked true (tr ++ [Ev e x]).
Proof.
  intros (mid & Ha & Hm) He. exists mid. split; [|done]. rewrite manager_ops_snoc, Ha, He. simpl.
  by rewrite app_nil_r.
Qed.

Lemma close_good b s tr : good b s tr → wp close (λ _, good true) s tr.
Proof.
  intros Hs. unfold close, alive. simpl. rewrite (gd_closed _ _ _ Hs). destruct b; [done|].
  simpl. intros x u. destruct Hs as [Hi Hb Ha]. split; [|done|].
  - by split; try apply Hi.
  - unfold asked. rewrite manager_ops_snoc. simpl. rewrite app_nil_r. eapply asked_close; [done|].
    simpl. by rewrite (si_id _ Hi), (si_proc _ Hi).
Qed.

Lemma exec_safe o : op_ok c o → safe (session_exec o).
Proof.
  intros Ho. destruct o; simpl.
  - apply pause_safe.
  - apply resume_safe.
  - intros b s tr Hs. eapply wp_mono; [|by eapply close_good]. intros a s' tr' Hg. by exists true.
  - by apply target_safe.
  - by apply report_safe.
  - apply hint_safe.
  - intros b s tr Hs. unfold setMode. destruct b.
    + unfold setModeLocked, alive. simpl. rewrite (gd_closed _ _ _ Hs). by exists true.
    + eapply wp_mono; [|by apply mode_stays_open]. intros a s' tr' [Hg _]. by exists false.
  - apply threads_safe.
Qed.

Lemma session_run_safe ops : Forall (op_ok c) ops → safe (session_run ops).
Proof.
  induction 1 as [|o ops Ho Hops IH]; intros b s tr Hs; [by exists b|].
  cbn [session_run]. apply wp_bind. eapply wp_mono; [|by apply (exec_safe o Ho b)].
  intros a s' tr' (b' & Hg). by apply (IH b').
Qed.
End invariant.

(** ** A session from its constructor to its destructor *)
Lemma new_session_defined c sid tids target tag proc : profile_ok c →
  ∃ records, new_session sid tids target tag proc c =
    Some (HintSession sid tag proc (Descriptor target tids 0 true 0 0) 0 false false (Some c)
            records LIGHT 0 (λ _, None)) ∧
    records = if heuristics_on c then
                n ← mMaxRecordsNum c; f ← mJankCheckTimeFactor c; Some (new_records n f)
              else None.
Proof.
  intros Hc. unfold new_session. destruct (heuristics_on c) eqn:Hh; [|by eexists].
  destruct (po_boost _ Hc Hh) as (K & f & m & v & Hk).
  rewrite (ho_records _ _ _ _ _ Hk), (ho_factor _ _ _ _ _ Hk). by eexists.
Qed.

Lemma create_good c sid proc K factor moderate severe tgid uid tids target tag records :
  profile_ok c → (heuristics_on c = true → heuristics_ok c K factor moderate severe) →
  (heuristics_on c = true → tag ≠ SURFACEFLINGER) → target_ok target →
  (heuristics_on c = true → records = Some (new_records (Z.of_nat K) factor)) →
  wp (create tgid uid tids)
    (λ _, good c sid proc (AddPowerSession (Some (Desc sid tgid uid true target)) tids proc) K factor severe false)
    (HintSession sid tag proc (Descriptor target tids 0 true 0 0) 0 false false (Some c) records LIGHT 0 (λ _, None)) [].
Proof.
  intros Hc Hk Htag Ht Hr. unfold create. apply wp_bind. intros x. apply wp_bind. intros now.
  apply wp_bind. change (wp (Ret ()) ?Q ?s ?tr) with (Q () s tr). cbn beta.
  apply wp_bind. change (wp (gets id) ?Q ?s ?tr) with (Q s s tr). cbn beta zeta. apply wp_bind. intros u. cbn [wp].
  match goal with |- wp ?p _ ?s ?tr => assert (good c sid proc (AddPowerSession (Some (Desc sid tgid uid true target)) tids proc) K factor severe false s tr) as Hg;
    [|assert (stays c sid proc (AddPowerSession (Some (Desc sid tgid uid true target)) tids proc) K factor severe p (λ _, True)) as Hp] end.
  - split; [|done|by exists []]. split; simpl; try done.
    intros Hh. split; [by apply Htag|]. split; [|done].
    exists (new_records (Z.of_nat K) factor), []. split; [by apply Hr|]. split; [|done].
    split; [|constructor|done]. apply new_repr, (ho_three _ _ _ _ _ (Hk Hh)).
  - apply stays_profile, stays_some; [by apply half_stale_defined|]. intros d _.
    rewrite !clamp_small by apply Hc. apply stays_seq; (apply vote_stays; [done|apply Hc]).
  - eapply wp_mono; [|apply Hp, Hg]. by intros a s' tr' [? _].
Qed.

(** C14: For every profile whose gains, limits and clamps are within the
    bounds of [profile_ok] and whose GPU boost is off, every tag (but
    SURFACEFLINGER with the heuristic boost), and every sequence of calls with
    durations up to 17 s and targets from 0.1 ms to 17 s, the session runs
    from its constructor to its destructor without an overflow, an undefined
    conversion, a null pointer or an access out of range, whatever the clock
    and the hint manager answer; the manager gets one addPowerSession first,
    one removePowerSession last, and in between only requests for this session
    whose clamps are between 0 and kUclampMax. *)
Theorem session_asks_in_range c sid proc tag tgid uid tids target ops :
  profile_ok c → (heuristics_on c = true → tag ≠ SURFACEFLINGER) → target_ok target → Forall (op_ok c) ops →
  ∃ s0, new_session sid tids target tag proc c = Some s0 ∧
    ∀ W (env : callee hint_call W) w, ∃ s w' tr mid,
      run env (lifetime tgid uid tids ops) s0 w [] = Some ((), s, w', tr) ∧
      manager_ops tr = AddPowerSession (Some (Desc sid tgid uid true target)) tids proc ::
                         mid ++ [RemovePowerSession sid proc] ∧
      Forall (on_session sid) mid.
Proof.
  intros Hc Htag Ht Hops. destruct (new_session_defined c sid tids target tag proc Hc) as (records & Hs & Hr).
  eexists. split; [exact Hs|]. intros W env w.
  assert (∃ K f m v, (heuristics_on c = true → heuristics_ok c K f m v) ∧
    (heuristics_on c = true → records = Some (new_records (Z.of_nat K) f))) as (K & f & m & v & Hk & Hrec).
  { destruct (heuristics_on c) eqn:Hh; [|by exists 0%nat, (double 0), 0, 0].
    destruct (po_boost _ Hc Hh) as (K & f & m & v & Hk). exists K, f, m, v. split; [done|]. intros _.
    by rewrite Hr, (ho_records _ _ _ _ _ Hk), (ho_factor _ _ _ _ _ Hk). }
  set (added := AddPowerSession (Some (Desc sid tgid uid true target)) tids proc).
  destruct (wp_run env (lifetime tgid uid tids ops) (λ _, good c sid proc added K f v true)
    (HintSession sid tag proc (Descriptor target tids 0 true 0 0) 0 false false (Some c) records LIGHT 0 (λ _, None)) w [])
    as (u & s & w' & tr & Hrun & Hg).
  - unfold lifetime. apply wp_bind.
    pose proof (create_good c sid proc K f m v tgid uid tids target tag records Hc Hk Htag Ht Hrec) as Hcr.
    eapply wp_mono; [|exact Hcr].
    intros u1 s1 tr1 H1. apply wp_bind. pose proof (session_run_safe c Hc sid proc added K f m v Hk ops Hops false s1 tr1 H1) as Hrs.
    eapply wp_mono; [|exact Hrs].
    intros u2 s2 tr2 (b & H2). apply wp_bind. eapply wp_mono; [|by eapply close_good]. by intros a s3 tr3 H3.
  - destruct u, (gd_asked _ _ _ _ _ _ _ _ _ _ Hg) as (mid & Ha & Hm). by exists s, w', tr, mid.
Qed.

(** A profile with the heuristic boost, an environment in which the clock
    advances by 20 ms, and a session that is late, paused, resumed and closed
    in the middle. *)
Definition demo_config : adpf_config :=
  AdpfConfig true (double 2) (double 3) (double 0) (double 1) (double 1) 5000 (-5000) 0 0 0
    400 50 200 300 250 100000000 (double 1) (double 10) (Some true) (Some 2) (Some 4) (Some (double 2))
    (Some (double 1)) (Some (100, 200)) (Some (500, 600)) (Some 25) (Some 5) (Some (double 1)) (Some false) None 100.

Definition demo_hints : callee hint_call Z :=
  Callee (λ X (e : hint_call X), match e in hint_call X return Z → X * Z with
    | CNow => λ w, (w, w + 20000000)
    | CProfile => λ w, (demo_config, w)
    | CGameMode => λ w, (false, w)
    | CGpuFrequency => λ w, (Some 850000, w)
    | CIsHintSupported _ => λ w, (true, w)
    | _ => λ w, (tt, w)
    end).

Definition demo_report (t ms : Z) : reported := Reported (demo_ms t ms) 0 0.
Definition demo_session_ops : list session_op :=
  [SReport [demo_report 20 12; demo_report 40 30; demo_report 60 25]; SHint H_CPU_LOAD_UP; SPause; SResume;
   STarget 16000000; SReport [demo_report 80 40; demo_report 110 31]; SThreads [7; 8]; SHint H_CPU_LOAD_RESET;
   SMode POWER_EFFICIENCY true; SReport [demo_report 140 2]; SClose; SReport [demo_report 160 2]].

Ltac by_evaluation := (vm_compute; intuition congruence).

Lemma demo_config_ok : profile_ok demo_config.
Proof.
  split; try by_evaluation.
  - split; by_evaluation.
  - intros _. exists 5%nat, (double 1), 2, 4. split; try done; try lia; try by_evaluation.
    + exists (double 1). by_evaluation.
    + exists 100, 200. by_evaluation.
    + exists 500, 600. by_evaluation.
Qed.

Lemma session_asks_in_range_witness :
  (∃ s0, new_session 3 [5; 6] 16666666 GAME DEFAULT demo_config = Some s0 ∧
    (λ r, (omap (λ o, match o with VoteSet _ CPU_VOTE_DEFAULT lo _ _ _ => Some lo | _ => None end)
             (manager_ops (snd r)))) <$> run demo_hints (lifetime 100 10001 [5; 6] demo_session_ops) s0 0 [] =
      Some [200; 113; 113; 503; 200; 200]) ∧
  ∃ s0, new_session 3 [5; 6] 16666666 GAME DEFAULT demo_config = Some s0 ∧
    ∀ W (env : callee hint_call W) w, ∃ s w' tr mid,
      run env (lifetime 100 10001 [5; 6] demo_session_ops) s0 w [] = Some ((), s, w', tr) ∧
      manager_ops tr = AddPowerSession (Some (Desc 3 100 10001 true 16666666)) [5; 6] DEFAULT ::
                         mid ++ [RemovePowerSession 3 DEFAULT] ∧
      Forall (on_session 3) mid.
Proof.
  split; [eexists; split; [reflexivity|vm_compute; reflexivity]|].
  apply (session_asks_in_range demo_config 3 DEFAULT GAME 100 10001 [5; 6] 16666666 demo_session_ops).
  - exact demo_config_ok.
  - done.
  - by_evaluation.
  - assert (∀ ds, Z.of_nat (length ds) < 4 → Forall (λ d : reported, Z.abs (durationNanos d) ≤ max_ns) ds →
      op_ok demo_config (SReport ds)) as Hr by (intros ds Hl Hd; split; [unfold max_batch; lia|done]).
    repeat (apply Forall_cons; split); try exact I; try (apply Hr; [done|repeat constructor; by_evaluation]); [|done].
    right. eexists. split; [vm_compute; reflexivity|by_evaluation].
Defined.

(** ** A report *)
(** The state in which a report is heard, without the heuristic boost. *)
Record reports_heard (c : adpf_config) (s : hint_session) : Prop := {
  rh_profile : mAdpfProfile s = Some c;
  rh_open : mSessionClosed s = false;
  rh_active : is_active (mDescriptor s) = true;
  rh_target : target_ok (d_targetNs (mDescriptor s));
  rh_integral : Z.abs (integral_error (mDescriptor s)) ≤ max_integral;
  rh_previous : Z.abs (previous_error (mDescriptor s)) ≤ max_error;
  rh_pid : 0 ≤ pidControlVariable (mDescriptor s) ≤ kUclampMax
}.

Lemma wp_profile {A} c (f : adpf_config → hs A) Q s tr :
  mAdpfProfile s = Some c → wp (f c) Q s tr → wp (p ← getAdpfProfile; f p) Q s tr.
Proof. intros Hs Hf. unfold getAdpfProfile. simpl. by rewrite Hs. Qed.

Lemma wp_known {A B} (o : option A) a (f : A → hs B) Q s tr :
  o = Some a → wp (f a) Q s tr → wp (x ← defined o; f x) Q s tr.
Proof. by intros ->. Qed.

Lemma wp_isTimeout c stale s tr Q :
  mAdpfProfile s = Some c → stale_ns c (d_targetNs (mDescriptor s)) = Some stale →
  (∀ b tr', manager_ops tr' = manager_ops tr → Q b s tr') → wp isTimeout Q s tr.
Proof.
  intros Hs Hd HQ now. apply (wp_profile c); [done|]. eapply wp_known; [exact Hd|].
  apply HQ. by rewrite manager_ops_snoc, app_nil_r.
Qed.

Lemma wp_vote c stale limit v s tr Q :
  mAdpfProfile s = Some c → stale_ns c (d_targetNs (mDescriptor s)) = Some stale →
  int64 (mReportingRateLimitNs c * 2) = Some limit →
  (∀ now tr', manager_ops tr' = manager_ops tr ++ [VoteSet (mSessionId s) CPU_VOTE_DEFAULT v kUclampMax now (Z.max stale limit)] →
     Q () (on_desc (with_pid v) s) tr') →
  wp (updatePidControlVariable v true) Q s tr.
Proof.
  intros Hs Hd Hl HQ. unfold updatePidControlVariable, when. apply wp_bind. cbn [wp set_desc modify].
  apply (wp_profile c); [done|]. intros now. eapply wp_known; [exact Hd|]. eapply wp_known; [exact Hl|].
  intros u. destruct u. apply (HQ now). by rewrite !manager_ops_snoc, app_nil_r.
Qed.

Lemma wp_universal b s tr (Q : () → hint_session → list (event hint_call) → Prop) :
  (∀ tr', manager_ops tr' = manager_ops tr → Q () s tr') → wp (when b (call CUniversalBoost)) Q s tr.
Proof.
  intros HQ. destruct b; [|by apply HQ]. intros []. apply HQ. by rewrite manager_ops_snoc, app_nil_r.
Qed.

Lemma wp_convert c ds o i p s tr Q :
  mAdpfProfile s = Some c →
  pid_output c (mJankyLevel s) (mJankyFrameNum s) (d_targetNs (mDescriptor s))
    ((λ d : reported, durationNanos d) <$> ds) (integral_error (mDescriptor s)) (previous_error (mDescriptor s)) =
    Some (o, i, p) →
  Q o (on_desc (with_errors i p) s) tr → wp (convertWorkDurationToBoostByPid ds) Q s tr.
Proof. intros Hs Ho HQ. apply (wp_profile c); [done|]. by apply (wp_known _ (o, i, p)). Qed.


(** The same profile without the heuristic boost, with windows of two frames;
    three frames of 20 ms, 25 ms and 12 ms against a target of 16.6 ms. *)
Definition calm_config : adpf_config :=
  AdpfConfig true (double 2) (double 3) (double 0) (double 1) (double 1) 5000 (-5000) 2 0 1
    400 50 200 300 250 100000000 (double 1) (double 10) None None None None None None None None None None None None 100.

Definition calm_session : hint_session :=
  HintSession 3 GAME DEFAULT (Descriptor 16600000 [5; 6] 200 true 0 0) 0 false false (Some calm_config) None LIGHT 0
    (λ _, None).
Definition calm_report : list reported := [demo_report 20 20; demo_report 45 25; demo_report 57 12].


(** ** Two ways in which a report fails *)
Lemma pid_output_short c level frames target ds i p :
  0 ≤ target < 100000 → pid_output c level frames target ds i p = None.
Proof.
  intros Ht. unfold pid_output. assert (ns_to_100us target = 0) as -> by (apply Z.quot_small; lia).
  destruct (pid_loop _ _ _ _ _ _ _ _ _) as [a|]; [|done]. cbn [mbind option_bind].
  destruct (pid_pu_active c level frames) as [pu|]; [|done]. cbn [mbind option_bind].
  destruct (pid_p _ _ _ _); [|done]. cbn [mbind option_bind]. destruct (pid_i _ _); [|done].
  cbn [mbind option_bind]. unfold pid_d. by rewrite ddiv_zero_undefined.
Qed.

(** What the bookkeeping of the frames leaves alone. *)
Definition same_control (c : adpf_config) (t : Z) (s : hint_session) : Prop :=
  mAdpfProfile s = Some c ∧ d_targetNs (mDescriptor s) = t.

Lemma wlp_defined {A B} (o : option A) (f : A → hs B) Q s :
  (∀ a, o = Some a → wlp (f a) Q s) → wlp (x ← defined o; f x) Q s.
Proof. intros Hf. destruct o as [a|]; [by apply Hf|done]. Qed.

Lemma wlp_profile {A} c (f : adpf_config → hs A) Q s :
  mAdpfProfile s = Some c → wlp (f c) Q s → wlp (p ← getAdpfProfile; f p) Q s.
Proof. intros Hs Hf. unfold getAdpfProfile. simpl. by rewrite Hs. Qed.

Lemma wlp_boost c t s : same_control c t s → wlp updateHeuristicBoost (λ _, same_control c t) s.
Proof.
  intros [Hs Ht]. unfold updateHeuristicBoost. cbn [mbind prog_mbind prog_bind gets wlp id].
  apply wlp_defined. intros r _. apply wlp_defined. intros mx _. destruct mx as [mx|]; [|done].
  destruct (getAvgDuration r) as [avg|]; [|done]. destruct (avg <=? 0); [done|].
  apply (wlp_profile c); [done|]. apply wlp_defined. intros th _. apply wlp_defined. intros low _.
  apply (wlp_profile c); [done|]. apply wlp_defined. intros level _. apply wlp_bind. cbn [wlp modify].
  destruct (bool_decide _); [|done]. cbn [when]. by apply wlp_defined.
Qed.

Lemma wlp_frames c t ds s : same_control c t s → wlp (record_frames ds) (λ _, same_control c t) s.
Proof.
  intros Hs. unfold record_frames. cbn [mbind prog_mbind prog_bind gets wlp id]. apply wlp_bind.
  assert (∀ game : bool, wlp (r ← defined (mSessionRecords s);
    '(r, buckets) ← defined (addReportedDurations (work_of <$> ds) (d_targetNs (mDescriptor s)) game (r, no_buckets));
    modify (with_records r);;
    call (CHboostStatistics (mJankyLevel s) (Z.of_nat (length ds)));;
    call (CFrameBuckets buckets);; updateHeuristicBoost) (λ _, same_control c t) s) as H.
  { intros game. apply wlp_defined. intros r _. apply wlp_defined. intros [r' b] _.
    apply wlp_bind. cbn [wlp modify]. intros u1 u2. by apply wlp_boost. }
  destruct (bool_decide _); [intros game|]; apply H.
Qed.

(** A target below 0.1 ms becomes zero in the unit of the PID loop, which
    divides by it: while such a target is set, every report on an active
    session with the PID control on ends in undefined behaviour (the
    conversion of an infinity or a NaN to an integer, and the division of the
    traced derivative). *)
Theorem short_target_report_undefined {W} (env : callee hint_call W) c ds s w tr :
  mAdpfProfile s = Some c → mPidOn c = true → mSessionClosed s = false → is_active (mDescriptor s) = true →
  0 < d_targetNs (mDescriptor s) < 100000 → ds ≠ [] →
  run env (reportActualWorkDuration ds) s w tr = None.
Proof.
  intros Hs Hp Ho Ha Ht Hne. apply wlp_undefined.
  destruct (last ds) as [d|] eqn:Hlast; [|by apply last_None in Hlast].
  unfold reportActualWorkDuration, alive. cbn [mbind prog_mbind prog_bind gets wlp id].
  rewrite Ho. cbn [mbind prog_mbind prog_bind gets wlp id].
  rewrite (proj2 (Z.eqb_neq _ 0)), Hlast, Ha by lia. cbn [negb]. apply (wlp_profile c); [done|].
  apply wlp_bind. intros now. apply (wlp_profile c); [done|]. apply wlp_defined. intros stale _.
  intros now'. apply wlp_bind. cbn [wlp modify]. apply wlp_bind.
  assert (wlp (when (mLastUpdatedTime s + stale <=? now) (call CUniversalBoost))
    (λ _, same_control c (d_targetNs (mDescriptor s))) (with_time now' s)) as Hfirst
    by (destruct (_ <=? now); [by intros u|done]).
  eapply wlp_mono; [|exact Hfirst]. intros u1 s1 Hs1. cbn [wlp to_manager call]. intros u2. rewrite Hp. cbn [negb].
  apply wlp_bind. assert (wlp (when (heuristics_on c) (record_frames ds))
    (λ _, same_control c (d_targetNs (mDescriptor s))) s1) as Hframes
    by (destruct (heuristics_on c); [by apply wlp_frames|done]).
  eapply wlp_mono; [|exact Hframes]. intros u3 s2 [Hs2 Ht2]. apply wlp_bind. apply (wlp_profile c); [done|].
  cbn [mbind prog_mbind prog_bind gets wlp id]. rewrite Ht2, pid_output_short by lia. done.
Qed.

Definition short_session : hint_session := on_desc (with_target 99999) calm_session.

Lemma short_target_report_undefined_witness :
  run demo_hints (reportActualWorkDuration calm_report) calm_session 0 [] ≠ None ∧
  run demo_hints (reportActualWorkDuration calm_report) short_session 0 [] = None.
Proof.
  split; [vm_compute; congruence|].
  by apply (short_target_report_undefined demo_hints calm_config calm_report short_session 0 []).
Defined.

(** The session, created with one profile, whose profile is replaced. *)
Definition profile_replaced (tgid uid : Z) (tids : list Z) (profile : adpf_config) (ds : list reported) : hs status :=
  create tgid uid tids;; setAdpfProfile (Some profile);; reportActualWorkDuration ds.

(** A session that was created under a profile without the heuristic
    boost has no frame records; when the profile is then replaced by one with
    the heuristic boost, the next report reads through the null record
    pointer. *)
Theorem late_heuristics_null_records {W} (env : callee hint_call W)
    c0 c sid tids target tag proc tgid uid ds s0 w :
  heuristics_on c0 = false → new_session sid tids target tag proc c0 = Some s0 →
  heuristics_on c = true → mPidOn c = true → target ≠ 0 → ds ≠ [] →
  run env (profile_replaced tgid uid tids c ds) s0 w [] = None.
Proof.
  intros Hh0 Hs Hh Hp Ht Hne. apply wlp_undefined.
  destruct (last ds) as [d|] eqn:Hlast; [|by apply last_None in Hlast].
  unfold new_session in Hs. rewrite Hh0 in Hs. injection Hs as <-.
  unfold profile_replaced. apply wlp_bind. unfold create.
  cbn [mbind prog_mbind prog_bind gets call modify to_manager wlp id]. intros u now u1.
  apply (wlp_profile c0); [done|]. apply wlp_defined. intros duration _. unfold vote.
  cbn [mbind prog_mbind prog_bind gets call modify to_manager wlp id]. intros t1 u2 t2 u3.
  unfold setAdpfProfile, reportActualWorkDuration, alive.
  cbn [mbind prog_mbind prog_bind gets call modify to_manager wlp id with_profile with_time mSessionClosed mDescriptor d_targetNs
         is_active negb].
  rewrite (proj2 (Z.eqb_neq target 0)), Hlast by done. apply (wlp_profile c); [done|].
  apply wlp_bind. unfold isTimeout. intros now'. cbn [mbind prog_mbind prog_bind gets call wlp id with_profile mDescriptor].
  apply (wlp_profile c); [done|]. apply wlp_defined. intros stale _.
  intros now''. apply wlp_bind. rewrite Hp.
  match goal with |- wlp (when ?b _) _ ?s => assert (wlp (when b (call CUniversalBoost))
    (λ _ s', mSessionRecords s' = None) s) as Hfirst by (destruct b; [by intros u4|done]) end.
  eapply wlp_mono; [|exact Hfirst]. intros u4 s1 Hs1. cbn [wlp to_manager call negb]. intros u5. rewrite Hh.
  apply wlp_bind. unfold record_frames, when. cbn [mbind prog_mbind prog_bind gets wlp id]. apply wlp_bind.
  destruct (bool_decide _); [intros game|]; by rewrite Hs1.
Qed.

Lemma late_heuristics_null_records_witness :
  run demo_hints (create 100 10001 [5; 6];; reportActualWorkDuration calm_report) calm_session 0 [] ≠ None ∧
  run demo_hints (profile_replaced 100 10001 [5; 6] demo_config calm_report)
    (HintSession 3 GAME DEFAULT (Descriptor 16666666 [5; 6] 0 true 0 0) 0 false false (Some calm_config) None LIGHT 0
       (λ _, None)) 0 [] = None.
Proof.
  split; [vm_compute; congruence|].
  by apply (late_heuristics_null_records demo_hints calm_config demo_config 3 [5; 6] 16666666 GAME DEFAULT).
Defined.
