(* ===== verification/CStr.v ===== *)
(** * C strings

    What the sources use of the C library on strings: [strchr], [strtol],
    the ["%d"] conversion of [sprintf] and [strtok_r].  A string is the bytes
    before the terminating NUL; none of them is NUL.  Results that are pointers
    into the argument are the rest of the string from there. *)
From S2P Require Import Prelude.
From Stdlib Require Export String Ascii.
From stdpp Require Export strings.
Open Scope string_scope.
#[global] Arguments String.append !_ _ /.

(** Whether [strchr(s, c)] is not null, for [c] other than NUL. *)
Fixpoint has_char (c : ascii) (s : string) : bool :=
  match s with
  | EmptyString => false
  | String x s => if (x =? c)%char then true else has_char c s
  end.

(** [strchr(s, c)] as what precedes the first [c] and what follows it. *)
Fixpoint strchr (c : ascii) (s : string) : option (string * string) :=
  match s with
  | EmptyString => None
  | String x s =>
      if (x =? c)%char then Some ("", s)
      else '(a, b) ← strchr c s; Some (String x a, b)
  end.

Lemma strchr_app c a b : has_char c a = false → strchr c (a ++ String c b) = Some (a, b).
Proof.
  induction a as [|x a IH]; simpl; intros H; [by rewrite Ascii.eqb_refl|].
  destruct (x =? c)%char; [done|]. by rewrite IH.
Qed.

Lemma strchr_None c s : strchr c s = None ↔ has_char c s = false.
Proof.
  induction s as [|x s IH]; simpl; [done|]. destruct (x =? c)%char; [done|].
  destruct (strchr c s) as [[a b]|]; simpl; naive_solver.
Qed.

Lemma strchr_Some c s a b :
  strchr c s = Some (a, b) → s = a ++ String c b ∧ has_char c a = false.
Proof.
  revert a. induction s as [|x s IH]; simpl; intros a H; [done|].
  destruct (x =? c)%char eqn:E.
  - apply Ascii.eqb_eq in E. by simplify_eq.
  - destruct (strchr c s) as [[a' b']|]; simplify_eq/=.
    destruct (IH a') as [-> Ha]; [done|]. by rewrite E.
Qed.

Lemma has_char_app c a b : has_char c (a ++ b) = has_char c a || has_char c b.
Proof. induction a as [|x a IH]; simpl; [done|]. by destruct (x =? c)%char. Qed.

Lemma has_char_cons c x s : has_char c (String x s) = (x =? c)%char || has_char c s.
Proof. simpl. by destruct (x =? c)%char. Qed.

Lemma str_length_app a b : String.length (a ++ b) = (String.length a + String.length b)%nat.
Proof. induction a; simpl; auto. Qed.

Lemma str_app_assoc a b c : (a ++ b) ++ c = a ++ (b ++ c).
Proof. induction a; simpl; congruence. Qed.

Lemma str_app_nil_r a : a ++ "" = a.
Proof. induction a; simpl; congruence. Qed.

(** ** Numbers *)
Definition isspace (c : ascii) : bool :=
  let n := Z.of_nat (nat_of_ascii c) in ((n =? 32) || (9 <=? n) && (n <=? 13))%Z.

Definition digit_value (c : ascii) : option Z :=
  let n := Z.of_nat (nat_of_ascii c) in
  if ((48 <=? n) && (n <=? 57))%Z then Some (n - 48)%Z
  else if ((97 <=? n) && (n <=? 122))%Z then Some (n - 87)%Z
  else if ((65 <=? n) && (n <=? 90))%Z then Some (n - 55)%Z
  else None.

Definition is_digit (base : Z) (s : string) : bool :=
  match s with
  | String c _ => match digit_value c with Some d => (d <? base)%Z | None => false end
  | EmptyString => false
  end.

Fixpoint take_digits (base acc : Z) (s : string) : Z * string :=
  match s with
  | EmptyString => (acc, s)
  | String c s' =>
      match digit_value c with
      | Some d => if (d <? base)%Z then take_digits base (acc * base + d) s' else (acc, s)
      | None => (acc, s)
      end
  end.

Fixpoint skip_spaces (s : string) : string :=
  match s with
  | String c s' => if isspace c then skip_spaces s' else s
  | EmptyString => s
  end.

(** Base 0 is decided by the prefix: [0x] and a hexadecimal digit, [0], or none. *)
Definition strtol_base (base : Z) (s : string) : Z * string :=
  if (base =? 0)%Z then
    match s with
    | String "0" (String "x" r) | String "0" (String "X" r) =>
        if is_digit 16 r then (16%Z, r) else (8%Z, s)
    | String "0" _ => (8%Z, s)
    | _ => (10%Z, s)
    end
  else (base, s).

Definition strtol_sign (s : string) : bool * string :=
  match s with
  | String "-" r => (true, r)
  | String "+" r => (false, r)
  | _ => (false, s)
  end.

Definition clamp_long (lb z : Z) : Z := Z.max (- 2 ^ (lb - 1)) (Z.min z (2 ^ (lb - 1) - 1)).

(** [strtol] for the bases 0 and 10; [lb] is the width of [long].  Without a
    digit the value is 0 and the end is the start of the argument. *)
Definition strtol (lb base : Z) (s : string) : Z * string :=
  let t := skip_spaces s in
  let '(neg, t) := strtol_sign t in
  let '(base, t) := strtol_base base t in
  if is_digit base t then
    let '(v, e) := take_digits base 0 t in
    (clamp_long lb (if neg then - v else v), e)%Z
  else (0%Z, s).

Definition digit_char (d : Z) : ascii := ascii_of_nat (Z.to_nat (48 + d)).

Fixpoint dec_go (fuel : nat) (n : Z) (acc : string) : string :=
  let acc := String (digit_char (n `mod` 10)) acc in
  match fuel with
  | O => acc
  | S fuel => if (n / 10 =? 0)%Z then acc else dec_go fuel (n / 10) acc
  end.

(** The decimal digits of a number that is not negative. *)
Definition dec (n : Z) : string := dec_go (Z.to_nat (Z.log2 n)) n "".

(** The conversion ["%d"]. *)
Definition fmt_d (z : Z) : string := if (z <? 0)%Z then "-" ++ dec (- z) else dec z.

Lemma digit_value_char d : (0 ≤ d < 10)%Z → digit_value (digit_char d) = Some d.
Proof.
  intros Hd. assert (∃ k, (k < 10)%nat ∧ d = Z.of_nat k) as (k & Hk & ->).
  { exists (Z.to_nat d). lia. }
  do 10 (destruct k as [|k]; [done|]). lia.
Qed.

Lemma take_digits_step d acc r : (0 ≤ d < 10)%Z →
  take_digits 10 acc (String (digit_char d) r) = take_digits 10 (acc * 10 + d) r.
Proof.
  intros Hd. simpl. rewrite (digit_value_char d Hd). by rewrite (proj2 (Z.ltb_lt d 10)) by lia.
Qed.

Lemma take_dec_go fuel n r : (0 ≤ n < 2 * 2 ^ Z.of_nat fuel)%Z →
  take_digits 10 0 (dec_go fuel n r) = take_digits 10 n r.
Proof.
  revert n r. induction fuel as [|fuel IH]; intros n r Hn.
  - replace (2 * 2 ^ Z.of_nat 0)%Z with 2%Z in Hn by done. cbn [dec_go].
    rewrite take_digits_step by (apply Z.mod_pos_bound; lia).
    by rewrite Z.mod_small by lia.
  - cbn [dec_go]. pose proof (Z.mod_pos_bound n 10). pose proof (Z.div_mod n 10).
    destruct (Z.eqb_spec (n / 10) 0) as [E|E].
    + rewrite take_digits_step by lia. f_equal. lia.
    + rewrite IH.
      * rewrite take_digits_step by lia. f_equal. lia.
      * rewrite Nat2Z.inj_succ, Z.pow_succ_r in Hn by lia. split; [apply Z.div_pos; lia|].
        apply Z.div_lt_upper_bound; lia.
Qed.

Lemma dec_app n r : (0 ≤ n)%Z → dec n ++ r = dec_go (Z.to_nat (Z.log2 n)) n r.
Proof.
  intros Hn. unfold dec. generalize (Z.to_nat (Z.log2 n)) as f. intros f.
  assert (∀ acc, dec_go f n acc ++ r = dec_go f n (acc ++ r)) as H; [|apply H].
  revert n Hn. induction f as [|f IH]; intros n Hn acc; simpl; [done|].
  destruct (n / 10 =? 0)%Z; [done|]. apply IH. apply Z.div_pos; lia.
Qed.

(** The digits that [dec] asks for are enough. *)
Lemma dec_fuel n : (0 ≤ n)%Z → (n < 2 * 2 ^ Z.of_nat (Z.to_nat (Z.log2 n)))%Z.
Proof.
  intros Hn. destruct (decide (n = 0)%Z) as [->|Hz]; [done|].
  rewrite Z2Nat.id by apply Z.log2_nonneg.
  pose proof (Z.log2_spec n). rewrite Z.pow_succ_r in * by apply Z.log2_nonneg. lia.
Qed.

Lemma take_dec n r : (0 ≤ n)%Z → take_digits 10 0 (dec n ++ r) = take_digits 10 n r.
Proof.
  intros Hn. rewrite dec_app by done. apply take_dec_go. split; [done|]. by apply dec_fuel.
Qed.

(** The digits are digits: none of them is another character. *)
Lemma dec_go_chars fuel n r c : digit_value c = None → (0 ≤ n)%Z →
  has_char c (dec_go fuel n r) = has_char c r.
Proof.
  intros Hc. revert n r. induction fuel as [|fuel IH]; intros n r Hn; simpl.
  all: pose proof (Z.mod_pos_bound n 10).
  all: assert (digit_char (n `mod` 10) ≠ c)
    by (intros Heq; apply (f_equal digit_value) in Heq; rewrite digit_value_char in Heq by lia;
        congruence).
  - by rewrite (proj2 (Ascii.eqb_neq _ _)).
  - destruct (n / 10 =? 0)%Z; simpl; [by rewrite (proj2 (Ascii.eqb_neq _ _))|].
    rewrite IH by (apply Z.div_pos; lia). simpl. by rewrite (proj2 (Ascii.eqb_neq _ _)).
Qed.

Lemma fmt_d_chars z c : digit_value c = None → c ≠ "-"%char → has_char c (fmt_d z) = false.
Proof.
  intros Hc Hm. unfold fmt_d. destruct (Z.ltb_spec z 0); [|by apply dec_go_chars].
  rewrite has_char_app, has_char_cons. unfold dec.
  rewrite dec_go_chars by (done || lia). by rewrite (proj2 (Ascii.eqb_neq _ _)) by congruence.
Qed.

(** How long a printed number is. *)
Lemma length_dec_go fuel n r k : (0 ≤ n < 10 ^ Z.of_nat (S k))%Z →
  (String.length (dec_go fuel n r) ≤ S k + String.length r)%nat.
Proof.
  revert n r k. induction fuel as [|fuel IH]; intros n r k Hn; simpl; [lia|].
  destruct (Z.eqb_spec (n / 10) 0) as [E|E]; simpl; [lia|].
  assert (10 ≤ n)%Z. { apply Z.nlt_ge. intros ?. apply E, Z.div_small. lia. }
  destruct k as [|k]; [simpl in Hn; lia|].
  rewrite (IH _ _ k); [simpl; lia|]. rewrite Nat2Z.inj_succ, Z.pow_succ_r in Hn by lia.
  split; [apply Z.div_pos; lia|]. apply Z.div_lt_upper_bound; lia.
Qed.

Lemma length_fmt_d z : (- 2 ^ 31 ≤ z < 2 ^ 31)%Z → (String.length (fmt_d z) ≤ 11)%nat.
Proof.
  intros Hz. unfold fmt_d, dec. destruct (z <? 0)%Z eqn:E; [apply Z.ltb_lt in E|apply Z.ltb_ge in E].
  - simpl. apply le_n_S. etrans; [apply (length_dec_go _ _ _ 9); lia|done].
  - etrans; [apply (length_dec_go _ _ _ 9); lia|simpl; lia].
Qed.

(** The first character of a printed number: 0 only if the number is. *)
Lemma dec_go_head fuel n r : (0 ≤ n < 2 * 2 ^ Z.of_nat fuel)%Z →
  ∃ d r', (0 ≤ d < 10)%Z ∧ dec_go fuel n r = String (digit_char d) r' ∧ (d = 0 → n = 0)%Z.
Proof.
  revert n r. induction fuel as [|fuel IH]; intros n r Hn; cbn [dec_go];
    pose proof (Z.mod_pos_bound n 10); pose proof (Z.div_mod n 10).
  - replace (2 * 2 ^ Z.of_nat 0)%Z with 2%Z in Hn by done.
    exists (n `mod` 10)%Z, r. rewrite Z.mod_small by lia. split_and!; [lia..|done|done].
  - rewrite Nat2Z.inj_succ, Z.pow_succ_r in Hn by lia.
    destruct (Z.eqb_spec (n / 10) 0) as [E|E].
    + exists (n `mod` 10)%Z, r. split_and!; [lia..|done|lia].
    + destruct (IH (n / 10)%Z (String (digit_char (n `mod` 10)) r)) as (d & r' & ? & -> & H').
      { split; [apply Z.div_pos; lia|]. apply Z.div_lt_upper_bound; lia. }
      exists d, r'. split_and!; [lia..|done|lia].
Qed.

Lemma take_digits_stop n r : is_digit 10 r = false → take_digits 10 n r = (n, r).
Proof.
  intros Hr. destruct r as [|c r]; [done|]. simpl in *.
  destruct (digit_value c) as [d|]; [|done]. by rewrite Hr.
Qed.

(** What a digit other than 0 at the front rules out. *)
Lemma digit_char_front d r : (0 < d < 10)%Z → strtol_base 0 (String (digit_char d) r) =
  (10%Z, String (digit_char d) r).
Proof.
  intros Hd. assert (∃ k, (k < 10)%nat ∧ d = Z.of_nat k) as (k & Hk & ->).
  { exists (Z.to_nat d). lia. }
  destruct k as [|k]; [lia|]. do 9 (destruct k as [|k]; [done|]). lia.
Qed.

Lemma digit_char_no_sign d r : (0 ≤ d < 10)%Z →
  skip_spaces (String (digit_char d) r) = String (digit_char d) r ∧
  strtol_sign (String (digit_char d) r) = (false, String (digit_char d) r).
Proof.
  intros Hd. assert (∃ k, (k < 10)%nat ∧ d = Z.of_nat k) as (k & Hk & ->).
  { exists (Z.to_nat d). lia. }
  do 10 (destruct k as [|k]; [done|]). lia.
Qed.

Lemma strtol_digits base n r : (base = 10 ∨ base = 0 ∧ r = "")%Z → (0 ≤ n)%Z →
  is_digit 10 r = false →
  let '(b, t) := strtol_base base (dec n ++ r) in is_digit b t = true ∧ take_digits b 0 t = (n, r).
Proof.
  intros Hb Hn Hr. pose proof (take_dec n r Hn) as Ht.
  rewrite (take_digits_stop n r) in Ht by done. rewrite dec_app in Ht |- * by done.
  destruct (dec_go_head (Z.to_nat (Z.log2 n)) n r) as (d & r' & Hd & E & H0).
  { split; [done|]. by apply dec_fuel. }
  rewrite E in Ht |- *.
  assert (is_digit 10 (String (digit_char d) r') = true) as Hdig.
  { simpl. rewrite digit_value_char by done. apply Z.ltb_lt. lia. }
  destruct Hb as [->|[-> ->]]; [done|].
  destruct (decide (d = 0)%Z) as [->|Hnz]; [|by rewrite digit_char_front by lia].
  rewrite H0 in * by done. by simplify_eq/=.
Qed.

(** Parsing what was printed gives it back, in base 10 and in base 0. *)
Lemma strtol_fmt_d lb base z r : (base = 10 ∨ base = 0 ∧ r = "")%Z →
  (- 2 ^ (lb - 1) ≤ z < 2 ^ (lb - 1))%Z → is_digit 10 r = false →
  strtol lb base (fmt_d z ++ r) = (z, r).
Proof.
  intros Hb Hz Hr. unfold strtol, fmt_d. destruct (Z.ltb_spec z 0).
  - pose proof (strtol_digits base (- z) r Hb) as Hd. simpl.
    destruct (strtol_base base (dec (- z) ++ r)) as [b t]. destruct Hd as [-> ->]; [lia|done|].
    f_equal. unfold clamp_long. lia.
  - pose proof (strtol_digits base z r Hb) as Hd.
    rewrite dec_app in Hd |- * by done.
    destruct (dec_go_head (Z.to_nat (Z.log2 z)) z r) as (d & r' & Hdr & E & _).
    { split; [done|]. by apply dec_fuel. }
    rewrite E in Hd |- *. destruct (digit_char_no_sign d r' Hdr) as [-> ->].
    destruct (strtol_base base (String (digit_char d) r')) as [b t].
    destruct Hd as [-> ->]; [lia|done|]. f_equal. unfold clamp_long. lia.
Qed.
