(* ===== verification/CameraParams.v ===== *)
(** * Camera parameters

    Models [CameraParameters] of [camera/QCamera2/HAL/CameraParameters.cpp]:
    the map from keys to values that the camera service and the HAL exchange as
    text.  The map is a [DefaultKeyedVector<String8,String8>] of libutils, which
    is not part of the sources: it is the class [KeyedVector], with the laws its
    documentation states, and an instance that is a sorted list.  A null
    [char *] is [None]; [setFloat] and [getFloat] are left out. *)
From S2P Require Import Prelude CStr.
From stdpp Require Import sorting.
From Stdlib Require OrdersEx.
Local Open Scope string_scope.

(** ** The keyed vector *)
Definition key_lt : relation string := OrdersEx.String_as_OT.lt.

Class KeyedVector (V : Type) := {
  kv_empty : V;
  kv_items : V → list (string * string);
  kv_add : string → string → V → V;
  kv_remove : string → V → V
}.

Definition kv_map {V} `{KeyedVector V} (m : V) : gmap string string :=
  list_to_map (kv_items m).

(** [keyAt] goes through the keys in ascending order; [add] and
    [replaceValueFor] put or replace; [removeItem] removes. *)
Class KeyedVectorLaws (V : Type) `{KeyedVector V} := {
  kv_items_empty : kv_items kv_empty = [];
  kv_sorted (m : V) : StronglySorted key_lt (kv_items m).*1;
  kv_map_add (m : V) k v : kv_map (kv_add k v m) = <[k := v]> (kv_map m);
  kv_map_remove (m : V) k : kv_map (kv_remove k m) = delete k (kv_map m)
}.

#[export] Instance key_lt_strict : StrictOrder key_lt.
Proof. apply OrdersEx.String_as_OT.lt_strorder. Qed.

(** The instance: a list of pairs in ascending order of the keys. *)
Fixpoint sl_add (k v : string) (l : list (string * string)) : list (string * string) :=
  match l with
  | [] => [(k, v)]
  | (k', v') :: l' =>
      match String.compare k k' with
      | Lt => (k, v) :: l
      | Eq => (k, v) :: l'
      | Gt => (k', v') :: sl_add k v l'
      end
  end.

Definition sl_remove (k : string) (l : list (string * string)) : list (string * string) :=
  base.filter (λ p, p.1 ≠ k) l.

Record sorted_list := SortedList {
  sl_items : list (string * string);
  sl_sorted : StronglySorted key_lt sl_items.*1
}.

Lemma sl_add_keys k v l : Forall (λ k', k' = k ∨ k' ∈ l.*1) (sl_add k v l).*1.
Proof.
  induction l as [|[k' v'] l IH]; simpl; [by constructor; [left|]|].
  destruct (String.compare k k'); simpl.
  - constructor; [by left|]. apply Forall_forall. intros x Hx. right. by right.
  - constructor; [by left|]. apply Forall_forall. intros x Hx. by right.
  - constructor; [right; left|]. eapply Forall_impl; [exact IH|]. intros x [?|?]; [by left|].
    right. by right.
Qed.

Lemma sl_add_sorted k v l : StronglySorted key_lt l.*1 → StronglySorted key_lt (sl_add k v l).*1.
Proof.
  induction l as [|[k' v'] l IH]; simpl; intros Hs; [repeat constructor|].
  apply StronglySorted_inv in Hs as [Hs Hf].
  destruct (String.compare k k') eqn:E; simpl.
  - apply String.compare_eq_iff in E as ->. by constructor.
  - constructor; [by constructor|]. constructor; [done|].
    eapply Forall_impl; [exact Hf|]. intros x ?. by etrans.
  - constructor; [by apply IH|]. eapply Forall_impl; [apply sl_add_keys|].
    rewrite Forall_forall in Hf. intros x [->|?]; [|by apply Hf].
    unfold key_lt, OrdersEx.String_as_OT.lt, OrdersEx.String_as_OT.compare.
    by rewrite String.compare_antisym, E.
Qed.

Lemma sl_remove_sorted k l :
  StronglySorted key_lt l.*1 → StronglySorted key_lt (sl_remove k l).*1.
Proof.
  unfold sl_remove. induction l as [|[k' v'] l IH]; intros Hs; [done|]. simpl in Hs.
  apply StronglySorted_inv in Hs as [Hs Hf]. rewrite filter_cons. case_decide; simpl; [|auto].
  constructor; [auto|]. apply Forall_forall. intros x Hx. rewrite Forall_forall in Hf.
  apply Hf. apply list_elem_of_fmap in Hx as (p & -> & Hp).
  apply list_elem_of_filter in Hp as [_ Hp]. by apply list_elem_of_fmap_2.
Qed.

#[export] Instance sorted_list_kv : KeyedVector sorted_list := {
  kv_empty := SortedList [] (SSorted_nil _);
  kv_items := sl_items;
  kv_add k v m := SortedList (sl_add k v (sl_items m)) (sl_add_sorted k v _ (sl_sorted m));
  kv_remove k m := SortedList (sl_remove k (sl_items m)) (sl_remove_sorted k _ (sl_sorted m))
}.

Lemma sl_add_map k v l :
  list_to_map (sl_add k v l) = <[k := v]> (list_to_map l : gmap string string).
Proof.
  induction l as [|[k' v'] l IH]; simpl; [done|].
  destruct (String.compare k k') eqn:E; simpl; [|done|].
  - apply String.compare_eq_iff in E as ->. by rewrite insert_insert_eq.
  - rewrite IH. apply insert_insert_ne. intros ->.
    assert (key_lt k k) as Hlt; [|by destruct (irreflexivity key_lt k)].
    unfold key_lt, OrdersEx.String_as_OT.lt, OrdersEx.String_as_OT.compare.
    by rewrite String.compare_antisym, E.
Qed.

Lemma sl_remove_map k l :
  list_to_map (sl_remove k l) = delete k (list_to_map l : gmap string string).
Proof.
  unfold sl_remove. induction l as [|[k' v'] l IH]; simpl; [by rewrite delete_empty|].
  rewrite filter_cons. case_decide as Hk; simpl in *.
  - by rewrite IH, delete_insert_ne.
  - subst k. by rewrite IH, delete_insert_eq.
Qed.

#[export] Instance sorted_list_laws : KeyedVectorLaws sorted_list.
Proof.
  split.
  - done.
  - apply sl_sorted.
  - intros m k v. apply sl_add_map.
  - intros m k. apply sl_remove_map.
Qed.

Lemma sorted_nodup l : StronglySorted key_lt l → NoDup l.
Proof.
  induction 1 as [|x l Hs IH Hf]; [constructor|]. constructor; [|done]. intros Hx.
  rewrite Forall_forall in Hf. by apply (irreflexivity key_lt x), Hf.
Qed.

Lemma sorted_pairs (l : list (string * string)) :
  StronglySorted key_lt l.*1 → StronglySorted (λ p q, key_lt p.1 q.1) l.
Proof.
  induction l as [|p l IH]; simpl; intros Hs; [constructor|].
  apply StronglySorted_inv in Hs as [Hs Hf]. constructor; [by apply IH|].
  by apply (Forall_fmap fst (key_lt p.1)) in Hf.
Qed.

(** Two sorted lists with the same map are the same. *)
Lemma sorted_items_eq (l l' : list (string * string)) :
  StronglySorted key_lt l.*1 → StronglySorted key_lt l'.*1 →
  list_to_map l = (list_to_map l' : gmap string string) → l = l'.
Proof.
  intros Hs Hs' Heq. apply (StronglySorted_unique_strong (λ p q, key_lt p.1 q.1)).
  - intros p q _ _ Hpq Hqp. exfalso. apply (irreflexivity key_lt p.1). by etrans.
  - by apply sorted_pairs.
  - by apply sorted_pairs.
  - apply (list_to_map_inj l l'); [by apply sorted_nodup..|done].
Qed.

(** ** Operations *)
Section params.
Context {V : Type} `{KeyedVector V}.

Definition KEY_PREVIEW_SIZE : string := "preview-size".
Definition KEY_SUPPORTED_PREVIEW_SIZES : string := "preview-size-values".
Definition KEY_PREVIEW_FORMAT : string := "preview-format".
Definition KEY_SUPPORTED_PREVIEW_FORMATS : string := "preview-format-values".
Definition KEY_PREVIEW_FRAME_RATE : string := "preview-frame-rate".
Definition KEY_PREVIEW_FPS_RANGE : string := "preview-fps-range".
Definition KEY_PICTURE_SIZE : string := "picture-size".
Definition KEY_SUPPORTED_PICTURE_SIZES : string := "picture-size-values".
Definition KEY_PICTURE_FORMAT : string := "picture-format".
Definition KEY_VIDEO_SIZE : string := "video-size".
Definition KEY_SUPPORTED_VIDEO_SIZES : string := "video-size-values".
Definition KEY_PREFERRED_PREVIEW_SIZE_FOR_VIDEO : string := "preferred-preview-size-for-video".

Fixpoint flatten_items (l : list (string * string)) : string :=
  match l with
  | [] => ""
  | [(k, v)] => k ++ "=" ++ v
  | (k, v) :: l => k ++ "=" ++ v ++ ";" ++ flatten_items l
  end.

Definition flatten (m : V) : string := flatten_items (kv_items m).

Fixpoint unflatten_go (fuel : nat) (a : string) (m : V) : option V :=
  match fuel with
  | O => None
  | S fuel =>
      match strchr "=" a with
      | None => Some m
      | Some (k, a) =>
          match strchr ";" a with
          | None => Some (kv_add k a m)
          | Some (v, a) => unflatten_go fuel a (kv_add k v m)
          end
      end
  end.

(** The map is cleared first; a byte of the text per turn is enough. *)
Definition unflatten (text : string) : option V :=
  unflatten_go (S (String.length text)) text kv_empty.

Definition set (key value : string) (m : V) : V :=
  if has_char "=" key || has_char ";" key then m
  else if has_char "=" value || has_char ";" value then m
  else kv_add key value m.

Definition set_int (key : string) (value : Z) (m : V) : V := set key (fmt_d value) m.

(** [valueFor] of a missing key is the default value, the empty string. *)
Definition get (key : string) (m : V) : option string :=
  let v := default "" (kv_map m !! key) in
  if String.eqb v "" then None else Some v.

Definition remove (key : string) (m : V) : V := kv_remove key m.

Definition isEmpty (m : V) : bool := match kv_items m with [] => true | _ => false end.

(** [lb]: the width of [long]; the result of [strtol] becomes an [int]. *)
Definition getInt (lb : Z) (key : string) (m : V) : Z :=
  match get key m with
  | None => -1
  | Some v => wrap_signed 32 (strtol lb 0 v).1
  end.

(** [None] is the result -1, which leaves the numbers as they were. *)
Definition parse_pair (lb : Z) (str : string) (delim : ascii) : option (Z * Z * string) :=
  let '(w, e) := strtol lb 10 str in
  match e with
  | String c e =>
      if (c =? delim)%char then
        let '(h, e) := strtol lb 10 e in Some (wrap_signed 32 w, wrap_signed 32 h, e)
      else None
  | EmptyString => None
  end.

Fixpoint parseSizesList_go (lb : Z) (fuel : nat) (str : string) (sizes : list (Z * Z)) :
    option (list (Z * Z)) :=
  match fuel with
  | O => None
  | S fuel =>
      match parse_pair lb str "x" with
      | None => Some sizes
      | Some (w, h, String c e) =>
          if (c =? ",")%char then parseSizesList_go lb fuel e (sizes ++ [(w, h)])%list else Some sizes
      | Some (w, h, EmptyString) => Some (sizes ++ [(w, h)])%list
      end
  end.

Definition parseSizesList (lb : Z) (sizesStr : option string) (sizes : list (Z * Z)) :
    option (list (Z * Z)) :=
  match sizesStr with
  | None => Some sizes
  | Some str => parseSizesList_go lb (S (String.length str)) str sizes
  end.

Definition fmt_pair (delim : ascii) (w h : Z) : string := fmt_d w ++ String delim (fmt_d h).

(** The getters of pairs: -1 and -1 unless there is a text that parses. *)
Definition get_pair (lb : Z) (key : string) (delim : ascii) (m : V) : Z * Z :=
  match get key m with
  | None => (-1, -1)%Z
  | Some p =>
      match parse_pair lb p delim with Some (w, h, _) => (w, h) | None => (-1, -1)%Z end
  end.

Definition setPreviewSize (width height : Z) : V → V :=
  set KEY_PREVIEW_SIZE (fmt_pair "x" width height).
Definition getPreviewSize (lb : Z) : V → Z * Z := get_pair lb KEY_PREVIEW_SIZE "x".
Definition getPreferredPreviewSizeForVideo (lb : Z) : V → Z * Z :=
  get_pair lb KEY_PREFERRED_PREVIEW_SIZE_FOR_VIDEO "x".
Definition getSupportedPreviewSizes (lb : Z) (m : V) : list (Z * Z) → option (list (Z * Z)) :=
  parseSizesList lb (get KEY_SUPPORTED_PREVIEW_SIZES m).
Definition setVideoSize (width height : Z) : V → V :=
  set KEY_VIDEO_SIZE (fmt_pair "x" width height).
Definition getVideoSize (lb : Z) : V → Z * Z := get_pair lb KEY_VIDEO_SIZE "x".
Definition getSupportedVideoSizes (lb : Z) (m : V) : list (Z * Z) → option (list (Z * Z)) :=
  parseSizesList lb (get KEY_SUPPORTED_VIDEO_SIZES m).
Definition setPreviewFrameRate (fps : Z) : V → V := set_int KEY_PREVIEW_FRAME_RATE fps.
Definition getPreviewFrameRate (lb : Z) : V → Z := getInt lb KEY_PREVIEW_FRAME_RATE.
Definition getPreviewFpsRange (lb : Z) : V → Z * Z := get_pair lb KEY_PREVIEW_FPS_RANGE ",".
Definition setPreviewFormat (format : string) : V → V := set KEY_PREVIEW_FORMAT format.
Definition getPreviewFormat : V → option string := get KEY_PREVIEW_FORMAT.
Definition setPictureSize (width height : Z) : V → V :=
  set KEY_PICTURE_SIZE (fmt_pair "x" width height).
Definition getPictureSize (lb : Z) : V → Z * Z := get_pair lb KEY_PICTURE_SIZE "x".
Definition getSupportedPictureSizes (lb : Z) (m : V) : list (Z * Z) → option (list (Z * Z)) :=
  parseSizesList lb (get KEY_SUPPORTED_PICTURE_SIZES m).
Definition setPictureFormat (format : string) : V → V := set KEY_PICTURE_FORMAT format.
Definition getPictureFormat : V → option string := get KEY_PICTURE_FORMAT.

(** What callers do to a parameter object. *)
Inductive param_op : Type :=
  | OpUnflatten (text : string)
  | OpSet (key value : string)
  | OpSetInt (key : string) (value : Z)
  | OpRemove (key : string).

Definition do_op (o : param_op) (m : V) : option V :=
  match o with
  | OpUnflatten text => unflatten text
  | OpSet k v => Some (set k v m)
  | OpSetInt k z => Some (set_int k z m)
  | OpRemove k => Some (remove k m)
  end.

Fixpoint do_ops (os : list param_op) (m : V) : option V :=
  match os with
  | [] => Some m
  | o :: os => do_op o m ≫= do_ops os
  end.
End params.

(** ** The text *)
Section text.
Context {V : Type} `{KeyedVectorLaws V}.

(** What the text can hold: no [=] in a key, no [;] in a value. *)
Definition pair_ok (p : string * string) : Prop :=
  has_char "=" p.1 = false ∧ has_char ";" p.2 = false.
Definition params_ok (m : V) : Prop := map_Forall (λ k v, pair_ok (k, v)) (kv_map m).

Lemma items_nodup (m : V) : NoDup (kv_items m).*1.
Proof. apply sorted_nodup, kv_sorted. Qed.

Lemma params_ok_items (m : V) : params_ok m → Forall pair_ok (kv_items m).
Proof.
  intros Hok. apply Forall_forall. intros [k v] Hin. apply Hok.
  apply elem_of_list_to_map; [apply items_nodup|done].
Qed.

Lemma kv_map_empty : kv_map (kv_empty : V) = ∅.
Proof. unfold kv_map. by rewrite kv_items_empty. Qed.

Lemma params_ok_empty : params_ok kv_empty.
Proof. unfold params_ok. rewrite kv_map_empty. apply map_Forall_empty. Qed.

Lemma params_ok_add k v (m : V) : pair_ok (k, v) → params_ok m → params_ok (kv_add k v m).
Proof. unfold params_ok. rewrite kv_map_add. intros ??. by apply map_Forall_insert_2. Qed.

(** A turn consumes at least the [=], so that the bytes bound the turns. *)
Lemma unflatten_go_total fuel a (m : V) :
  (String.length a < fuel)%nat → params_ok m →
  ∃ m', unflatten_go fuel a m = Some m' ∧ params_ok m'.
Proof.
  revert a m. induction fuel as [|fuel IH]; intros a m Hf Hok; [lia|]. simpl.
  destruct (strchr "=" a) as [[k r]|] eqn:Ek; [|eauto].
  apply strchr_Some in Ek as [-> Hk]. rewrite str_length_app in Hf. simpl in Hf.
  destruct (strchr ";" r) as [[v r']|] eqn:Ev.
  - apply strchr_Some in Ev as [-> Hv]. rewrite str_length_app in Hf. simpl in Hf.
    apply IH; [lia|]. by apply params_ok_add.
  - eexists. split; [done|]. apply params_ok_add; [|done]. split; [done|]. by apply strchr_None.
Qed.

Lemma unflatten_total text :
  ∃ m : V, unflatten text = Some m ∧ params_ok m.
Proof. apply unflatten_go_total; [lia|apply params_ok_empty]. Qed.

Lemma set_ok key value (m : V) : params_ok m → params_ok (set key value m).
Proof.
  intros Hok. unfold set. destruct (has_char "=" key || has_char ";" key) eqn:Ek; [done|].
  destruct (has_char "=" value || has_char ";" value) eqn:Ev; [done|].
  apply orb_false_iff in Ek as [? ?], Ev as [? ?]. by apply params_ok_add.
Qed.

Lemma params_ok_remove key (m : V) : params_ok m → params_ok (remove key m).
Proof. unfold params_ok, remove. rewrite kv_map_remove. intros ?. by apply map_Forall_delete. Qed.

Lemma do_ops_total os (m : V) : params_ok m → ∃ m', do_ops os m = Some m' ∧ params_ok m'.
Proof.
  revert m. induction os as [|o os IH]; intros m Hok; [eauto|]. simpl.
  assert (∃ m1, do_op o m = Some m1 ∧ params_ok m1) as (m1 & -> & ?); [|by apply IH].
  destruct o; simpl; unfold set_int; eauto using unflatten_total, set_ok, params_ok_remove.
Qed.

Lemma unflatten_flatten_items l (m : V) fuel :
  Forall pair_ok l → (String.length (flatten_items l) < fuel)%nat →
  unflatten_go fuel (flatten_items l) m = Some (foldl (λ m p, kv_add p.1 p.2 m) m l).
Proof.
  intros Hok. revert m fuel. induction Hok as [|[k v] l [Hk Hv] Hok IH]; intros m fuel Hf.
  { by destruct fuel; [simpl in Hf; lia|]. }
  destruct fuel as [|fuel]; [lia|]. simpl in Hk, Hv.
  destruct l as [|p l].
  - cbn -[strchr]. rewrite strchr_app by done. by rewrite (proj2 (strchr_None _ _)).
  - change (flatten_items ((k, v) :: p :: l))
      with (k ++ String "=" (v ++ String ";" (flatten_items (p :: l)))) in *.
    cbn [unflatten_go]. rewrite !strchr_app by done. rewrite IH; [done|].
    repeat (rewrite str_length_app in Hf; cbn [String.length] in Hf). lia.
Qed.

Lemma foldl_add_map l (m : V) :
  NoDup l.*1 →
  kv_map (foldl (λ m p, kv_add p.1 p.2 m) m l) = list_to_map l ∪ kv_map m.
Proof.
  revert m. induction l as [|[k v] l IH]; intros m Hnd; simpl in *; [by rewrite map_empty_union|].
  apply NoDup_cons in Hnd as [Hk Hnd]. rewrite IH, kv_map_add by done.
  rewrite <- insert_union_r by (by apply not_elem_of_list_to_map_1). by rewrite insert_union_l.
Qed.

Lemma unflatten_flatten (m : V) : params_ok m →
  ∃ m', unflatten (flatten m) = Some m' ∧ kv_items m' = kv_items m.
Proof.
  intros Hok. eexists. unfold unflatten, flatten. rewrite unflatten_flatten_items;
    [|by apply params_ok_items|lia].
  split; [done|]. apply sorted_items_eq; [apply kv_sorted..|].
  change (kv_map (foldl (λ m p, kv_add p.1 p.2 m) (kv_empty : V) (kv_items m)) = kv_map m).
  rewrite foldl_add_map by apply items_nodup. by rewrite kv_map_empty, map_union_empty.
Qed.
End text.

Section roundtrip.
Context {V : Type} `{KeyedVectorLaws V}.

(** The answers of [get] after [set]. *)
Lemma get_set key value key' (m : V) :
  get key' (set key value m) =
  if has_char "=" key || has_char ";" key || (has_char "=" value || has_char ";" value)
  then get key' m
  else if String.eqb key' key then (if String.eqb value "" then None else Some value)
       else get key' m.
Proof.
  unfold set. destruct (has_char "=" key || has_char ";" key); [done|]. cbn [orb].
  destruct (has_char "=" value || has_char ";" value); [done|]. unfold get.
  rewrite kv_map_add. destruct (String.eqb_spec key' key) as [->|Hne].
  - by rewrite lookup_insert_eq.
  - by rewrite lookup_insert_ne.
Qed.
End roundtrip.

(** ** Numbers in the text *)
Definition is_int32 (z : Z) : Prop := (- 2 ^ 31 ≤ z < 2 ^ 31)%Z.

Lemma strtol_int32 lb base z r : (32 ≤ lb)%Z → (base = 10 ∨ base = 0 ∧ r = "")%Z →
  is_int32 z → is_digit 10 r = false →
  strtol lb base (fmt_d z ++ r) = (z, r) ∧ wrap_signed 32 z = z.
Proof.
  intros Hlb Hb Hz Hr. unfold is_int32 in Hz. split; [|by apply wrap_signed_small].
  apply strtol_fmt_d; [done| |done].
  pose proof (Z.pow_le_mono_r 2 31 (lb - 1)). lia.
Qed.

Lemma parse_fmt_pair lb w h delim r : (32 ≤ lb)%Z → is_int32 w → is_int32 h →
  is_digit 10 (String delim "") = false → is_digit 10 r = false →
  parse_pair lb (fmt_pair delim w h ++ r) delim = Some (w, h, r).
Proof.
  intros Hlb Hw Hh Hd Hr. unfold parse_pair, fmt_pair. rewrite str_app_assoc.
  change (String delim (fmt_d h) ++ r) with (String delim (fmt_d h ++ r)).
  assert (is_digit 10 (String delim (fmt_d h ++ r)) = false) as Hs by exact Hd.
  destruct (strtol_int32 lb 10 w _ Hlb (or_introl eq_refl) Hw Hs) as [-> ->].
  rewrite Ascii.eqb_refl.
  by destruct (strtol_int32 lb 10 h _ Hlb (or_introl eq_refl) Hh Hr) as [-> ->].
Qed.

Lemma fmt_pair_chars delim w h c : digit_value c = None → c ≠ "-"%char → delim ≠ c →
  has_char c (fmt_pair delim w h) = false.
Proof.
  intros Hc Hm Hd. unfold fmt_pair. rewrite has_char_app, has_char_cons, !fmt_d_chars by done.
  by rewrite (proj2 (Ascii.eqb_neq _ _)).
Qed.

(** With the NUL the text of a pair fits the buffers of 32 bytes. *)
Lemma fmt_pair_fits delim w h : is_int32 w → is_int32 h →
  (String.length (fmt_pair delim w h) < 32)%nat.
Proof.
  intros Hw Hh. unfold fmt_pair. rewrite str_length_app. cbn [String.length].
  pose proof (length_fmt_d w Hw). pose proof (length_fmt_d h Hh). lia.
Qed.

Lemma fmt_d_nonempty z : fmt_d z ≠ "".
Proof.
  unfold fmt_d. destruct (Z.ltb_spec z 0); [done|]. unfold dec.
  by destruct (dec_go_head (Z.to_nat (Z.log2 z)) z "" ) as (d & r & _ & -> & _);
    [split; [|apply dec_fuel]|].
Qed.

Section pairs.
Context {V : Type} `{KeyedVectorLaws V}.

Lemma get_set_text key value (m : V) :
  has_char "=" key = false → has_char ";" key = false →
  has_char "=" value = false → has_char ";" value = false → value ≠ "" →
  get key (set key value m) = Some value.
Proof.
  intros H1 H2 H3 H4 Hv. rewrite get_set, H1, H2, H3, H4, String.eqb_refl. simpl.
  by apply String.eqb_neq in Hv as ->.
Qed.

Lemma get_pair_set lb key delim w h (m : V) :
  has_char "=" key = false → has_char ";" key = false →
  (32 ≤ lb)%Z → is_int32 w → is_int32 h → is_digit 10 (String delim "") = false →
  delim ≠ "="%char → delim ≠ ";"%char →
  get_pair lb key delim (set key (fmt_pair delim w h) m) = (w, h).
Proof.
  intros Hk Hk' Hlb Hw Hh Hd He Hs. unfold get_pair. rewrite get_set_text.
  - rewrite <- (str_app_nil_r (fmt_pair delim w h)), parse_fmt_pair by done. done.
  - done.
  - done.
  - by apply fmt_pair_chars.
  - by apply fmt_pair_chars.
  - unfold fmt_pair. by destruct (fmt_d w).
Qed.

Lemma getInt_set_int lb key z (m : V) :
  has_char "=" key = false → has_char ";" key = false → (32 ≤ lb)%Z → is_int32 z →
  getInt lb key (set_int key z m) = z.
Proof.
  intros Hk Hk' Hlb Hz. unfold getInt, set_int. rewrite get_set_text.
  - destruct (strtol_int32 lb 0 z "" Hlb) as [E Hw]; [by right|done..|].
    rewrite str_app_nil_r in E. by rewrite E.
  - done.
  - done.
  - by apply fmt_d_chars.
  - by apply fmt_d_chars.
  - apply fmt_d_nonempty.
Qed.

(** A preview, video or picture size of any two ints and a frame rate of
    any int are read back as they were set, and the texts fit the 32 and 16
    byte buffers they are printed to. *)
Theorem params_numbers_roundtrip lb w h (m : V) :
  (32 ≤ lb)%Z → is_int32 w → is_int32 h →
  getPreviewSize lb (setPreviewSize w h m) = (w, h) ∧
  getVideoSize lb (setVideoSize w h m) = (w, h) ∧
  getPictureSize lb (setPictureSize w h m) = (w, h) ∧
  getPreviewFrameRate lb (setPreviewFrameRate w m) = w ∧
  (String.length (fmt_pair "x" w h) < 32)%nat ∧ (String.length (fmt_d w) < 16)%nat.
Proof.
  intros Hlb Hw Hh.
  split_and!; [by apply get_pair_set..|by apply getInt_set_int|by apply fmt_pair_fits|].
  pose proof (length_fmt_d w Hw). lia.
Qed.

(** C8: Whatever sequence of set, remove and unflatten calls a parameter
    object has gone through, parsing its flattened text terminates and gives
    an object with the same entries in the same order: no value that can be
    stored breaks the text. *)
Theorem params_text_roundtrip (os : list param_op) :
  ∃ m : V, do_ops os kv_empty = Some m ∧
       ∃ m' : V, unflatten (flatten m) = Some m' ∧ kv_items m' = kv_items m.
Proof.
  destruct (do_ops_total os kv_empty params_ok_empty) as (m & Hm & Hok).
  exists m. split; [done|]. by apply unflatten_flatten.
Qed.
End pairs.

Lemma params_numbers_roundtrip_witness :
  (32 ≤ 64)%Z ∧ is_int32 4160 ∧ is_int32 (-3120) ∧
  getPictureSize 64 (setPictureSize 4160 (-3120) (kv_empty : sorted_list)) = (4160, -3120)%Z.
Proof.
  split; [lia|]. split; [split; lia|]. split; [split; lia|].
  apply (params_numbers_roundtrip 64 4160 (-3120) (kv_empty : sorted_list)); [lia|split; lia..].
Defined.

Lemma params_text_roundtrip_witness :
  ∃ m : sorted_list,
    do_ops [OpSet "b" "1"; OpSet "a" "x=y"; OpUnflatten "z=;a=2;a=3"; OpSetInt "c" (-7)] kv_empty
      = Some m ∧ flatten m = "a=3;c=-7;z=" ∧
    ∃ m' : sorted_list, unflatten (flatten m) = Some m' ∧ kv_items m' = kv_items m.
Proof.
  destruct (params_text_roundtrip (V := sorted_list)
    [OpSet "b" "1"; OpSet "a" "x=y"; OpUnflatten "z=;a=2;a=3"; OpSetInt "c" (-7)])
    as (m & Hm & Hr).
  exists m. split; [exact Hm|]. split; [|exact Hr].
  injection Hm as <-. reflexivity.
Defined.
