(* ===== verification/CamParamParse.v ===== *)
(** * The texts of the camera parameters

    Models the functions of [camera/QCamera2/HAL/QCameraParameters.cpp] that
    build and parse the texts in a [CameraParameters] map: lists of sizes,
    values and ratios, pairs, vectors and focus or metering areas.  [lb] is
    the width of [long].  A [QCameraMap] is the list of its entries. *)
From S2P Require Import Prelude CStr CameraParams.
Local Open Scope string_scope.

(** ** Building *)
Definition createSizesString (sizes : list (Z * Z)) : string :=
  match sizes with
  | [] => ""
  | (w, h) :: l =>
      foldl (λ str s, str ++ "," ++ fmt_pair "x" s.1 s.2) (fmt_pair "x" w h) l
  end.

Definition createZoomRatioValuesString (zoomRatios : list Z) : string :=
  match zoomRatios with
  | [] => ""
  | z :: l => foldl (λ str z, str ++ "," ++ fmt_d (wrap_signed 32 z)) (fmt_d (wrap_signed 32 z)) l
  end.

(** The entries whose value matches: only the first one, its name may be null. *)
Fixpoint find_desc (map : list (option string * Z)) (v : Z) : option string :=
  match map with
  | [] => None
  | (desc, val) :: map =>
      if (val =? v)%Z then match desc with Some d => Some d | None => find_desc map v end
      else find_desc map v
  end.

Definition append_value (str : string) (count : nat) (desc : string) : string :=
  (if (0 <? count)%nat then str ++ "," else str) ++ desc.

Definition values_step (map : list (option string * Z)) (a : string * nat) (v : Z) : string * nat :=
  match find_desc map v with
  | Some d => (append_value a.1 a.2 d, S a.2)
  | None => a
  end.

Definition createValuesString (values : list Z) (map : list (option string * Z)) : string :=
  (foldl (values_step map) ("", O) values).1.

(** The separator depends on the index, not on what was appended before. *)
Fixpoint values_from_map (i : nat) (map : list (option string * Z)) (str : string) : string :=
  match map with
  | [] => str
  | (desc, _) :: map =>
      values_from_map (S i) map
        match desc with Some d => append_value str i d | None => str end
  end.

Definition createValuesStringFromMap (map : list (option string * Z)) : string :=
  values_from_map 0 map "".

Definition VIDEO_HFR_OFF : string := "off".

Definition createHfrValuesString (modes : list Z) (map : list (option string * Z)) : string :=
  let '(str, count) := foldl (values_step map) ("", O) modes in
  append_value str count VIDEO_HFR_OFF.

(** [None] is [NAME_NOT_FOUND]; a null entry name is read by [strcmp]. *)
Fixpoint lookupAttr (arr : list (string * Z)) (name : option string) : option Z :=
  match name, arr with
  | Some n, (desc, val) :: arr => if String.eqb desc n then Some val else lookupAttr arr name
  | _, _ => None
  end.

Fixpoint lookupNameByValue (arr : list (string * Z)) (value : Z) : option string :=
  match arr with
  | [] => None
  | (desc, val) :: arr => if (val =? value)%Z then Some desc else lookupNameByValue arr value
  end.

(** ** Parsing pairs and sizes *)

(** [BAD_VALUE] of libutils. *)
Definition PARSE_BAD_VALUE : Z := -22.

(** The result code with the numbers and the end, which are written on success. *)
Definition qparse_pair (lb : Z) (str : string) (delim : ascii) : Z * option (Z * Z * string) :=
  match parse_pair lb str delim with
  | Some r => (0%Z, Some r)
  | None => (PARSE_BAD_VALUE, None)
  end.

(** What the loop on a list of sizes can end in: the sizes, or the use of
    [width] and [height] while they are not initialised. *)
Inductive sizes_result : Type :=
  | Sizes (l : list (Z * Z))
  | SizesUninit (l : list (Z * Z)).

Fixpoint qparseSizesList_go (lb : Z) (fuel : nat) (str : string) (sizes : list (Z * Z)) :
    option sizes_result :=
  match fuel with
  | O => None
  | S fuel =>
      let '(success, r) := qparse_pair lb str "x" in
      let str := match r with Some (_, _, e) => e | None => str end in
      let stop := match str with
                  | String c _ => negb (c =? ",")%char
                  | EmptyString => false
                  end in
      if (success =? -1)%Z || stop then Some (Sizes sizes)
      else match r with
           | None => Some (SizesUninit sizes)
           | Some (w, h, _) =>
               match str with
               | EmptyString => Some (Sizes (sizes ++ [(w, h)])%list)
               | String _ str => qparseSizesList_go lb fuel str (sizes ++ [(w, h)])%list
               end
           end
  end.

Definition qparseSizesList (lb : Z) (sizesStr : option string) (sizes : list (Z * Z)) :
    option sizes_result :=
  match sizesStr with
  | None => Some (Sizes sizes)
  | Some str => qparseSizesList_go lb (S (String.length str)) str sizes
  end.

(** ** Areas *)
Fixpoint ndim_loop (lb : Z) (delim : ascii) (n : nat) (start : string) : option (list Z) :=
  match n with
  | O => Some []
  | S n =>
      let '(v, e) := strtol lb 10 start in
      let v := wrap_signed 32 v in
      match e with
      | String c e =>
          if negb (c =? delim)%char && (0 <? n)%nat then None else (v ::.) <$> ndim_loop lb delim n e
      | EmptyString => if (0 <? n)%nat then None else Some [v]
      end
  end.

Fixpoint last_char (s : string) : option ascii :=
  match s with
  | EmptyString => None
  | String c EmptyString => Some c
  | String _ s => last_char s
  end.

(** [None] is a result code below zero.  The text is not empty. *)
Definition parseNDimVector (lb : Z) (str : string) (N : nat) (delim : ascii) : option (list Z) :=
  match str with
  | String "(" start =>
      if bool_decide (last_char str = Some ")"%char) then ndim_loop lb delim N start else None
  | _ => None
  end.

Record cam_area_t := CamArea { left : Z; top : Z; width : Z; height : Z; weight : Z }.

(** The end of a parse: areas, [BAD_VALUE], or undefined behaviour: a store
    past the end of [area_str], or an overflow of [int]. *)
Inductive area_result : Type :=
  | Areas (l : list cam_area_t)
  | AreasBad
  | AreasUb.

Definition AREA_STR_SIZE : nat := 32.

Definition int_sub (a b : Z) : option Z :=
  if bool_decide (- 2 ^ 31 ≤ a - b < 2 ^ 31)%Z then Some (a - b)%Z else None.

Definition area_of (values : list Z) : option cam_area_t :=
  match values with
  | [l; t; r; b; w] => wd ← int_sub r l; ht ← int_sub b t; Some (CamArea l t wd ht w)
  | _ => None
  end.

Fixpoint area_loop (lb : Z) (max_num_areas : nat) (fuel : nat) (start : string)
    (pAreas : list cam_area_t) : option area_result :=
  match fuel with
  | O => None
  | S fuel =>
      match start with
      | String "(" _ =>
          match strchr ")" start with
          | None => Some AreasBad
          | Some (s, r) =>
              let area_str := s ++ ")" in
              if (AREA_STR_SIZE <=? String.length area_str)%nat then Some AreasUb
              else match parseNDimVector lb area_str 5 "," with
                   | None => Some AreasBad
                   | Some values =>
                       if (max_num_areas <=? length pAreas)%nat then Some AreasBad
                       else match area_of values with
                            | None => Some AreasUb
                            | Some a =>
                                match strchr "(" r with
                                | None => Some (Areas (pAreas ++ [a])%list)
                                | Some (_, r) =>
                                    area_loop lb max_num_areas fuel (String "(" r) (pAreas ++ [a])%list
                                end
                            end
                   end
          end
      | _ => Some AreasBad
      end
  end.

Definition parseCameraAreaString (lb : Z) (str : string) (max_num_areas : nat) :
    option area_result :=
  area_loop lb max_num_areas (S (String.length str)) str [].

Definition area_is_default (a : cam_area_t) : bool :=
  ((left a =? 0) && (top a =? 0) && (width a =? 0) && (height a =? 0) && (weight a =? 0))%Z.

Definition area_valid (a : cam_area_t) : bool :=
  if (left a <? -1000)%Z then false
  else if (top a <? -1000)%Z then false
  else if ((width a <=? 0) || (height a <=? 0))%Z then false
  else if (1000 <? left a + width a)%Z then false
  else if (1000 <? top a + height a)%Z then false
  else if ((weight a <? 1) || (1000 <? weight a))%Z then false
  else true.

Definition validateCameraAreas (areas : list cam_area_t) : bool :=
  match areas with
  | [a] => if area_is_default a then true else area_valid a
  | _ => forallb area_valid areas
  end.

(** ** Lists of sizes *)
Definition sizes_tail (l : list (Z * Z)) : string :=
  foldr (λ s r, "," ++ fmt_pair "x" s.1 s.2 ++ r) "" l.

Lemma createSizesString_cons s l :
  createSizesString (s :: l) = fmt_pair "x" s.1 s.2 ++ sizes_tail l.
Proof.
  destruct s as [w h]. simpl. generalize (fmt_pair "x" w h) as a.
  induction l as [|s l IH]; intros a; simpl; [by rewrite str_app_nil_r|].
  rewrite IH, !str_app_assoc. done.
Qed.

Definition int32_pair (s : Z * Z) : Prop := is_int32 s.1 ∧ is_int32 s.2.

Lemma sizes_tail_nodigit l : is_digit 10 (sizes_tail l) = false.
Proof. by destruct l. Qed.

(** The sizes of a printed list are read one after another; [e] is what
    follows the list. *)
Lemma parseSizesList_go_fmt lb l s e acc fuel : (32 ≤ lb)%Z → Forall int32_pair (s :: l) →
  (length l < fuel)%nat → (e = "" ∨ ∃ e', e = "," ++ e') →
  parseSizesList_go lb fuel (fmt_pair "x" s.1 s.2 ++ sizes_tail l ++ e) acc =
  match e with
  | EmptyString => Some (acc ++ s :: l)%list
  | String _ e => parseSizesList_go lb (fuel - S (length l)) e (acc ++ s :: l)%list
  end.
Proof.
  intros Hlb. revert s acc fuel. induction l as [|s' l IH]; intros [w h] acc fuel Hok Hf He;
    apply Forall_cons in Hok as [[Hw Hh] Hok]; destruct fuel as [|fuel]; try (simpl in Hf; lia);
    cbn [parseSizesList_go fst snd] in *.
  - rewrite parse_fmt_pair by (done || by destruct He as [->|[e' ->]]).
    destruct He as [->|[e' ->]]; [done|]. simpl. by rewrite Nat.sub_0_r.
  - rewrite parse_fmt_pair by done. cbn [sizes_tail foldr]. simpl. fold (sizes_tail l).
    rewrite str_app_assoc, IH by (done || simpl in Hf; lia).
    rewrite <- app_assoc. done.
Qed.

Lemma qparseSizesList_go_fmt lb l s e acc fuel : (32 ≤ lb)%Z → Forall int32_pair (s :: l) →
  (length l < fuel)%nat → (e = "" ∨ ∃ e', e = "," ++ e') →
  qparseSizesList_go lb fuel (fmt_pair "x" s.1 s.2 ++ sizes_tail l ++ e) acc =
  match e with
  | EmptyString => Some (Sizes (acc ++ s :: l)%list)
  | String _ e => qparseSizesList_go lb (fuel - S (length l)) e (acc ++ s :: l)%list
  end.
Proof.
  intros Hlb. revert s acc fuel. induction l as [|s' l IH]; intros [w h] acc fuel Hok Hf He;
    apply Forall_cons in Hok as [[Hw Hh] Hok]; destruct fuel as [|fuel]; try (simpl in Hf; lia);
    cbn [qparseSizesList_go fst snd] in *; unfold qparse_pair.
  - rewrite parse_fmt_pair by (done || by destruct He as [->|[e' ->]]).
    destruct He as [->|[e' ->]]; [done|]. simpl. by rewrite Nat.sub_0_r.
  - rewrite parse_fmt_pair by done. cbn [sizes_tail foldr]. simpl. fold (sizes_tail l).
    rewrite str_app_assoc, IH by (done || simpl in Hf; lia).
    rewrite <- app_assoc. done.
Qed.

Lemma sizes_tail_length l : (length l ≤ String.length (sizes_tail l))%nat.
Proof. induction l as [|s l IH]; simpl; [lia|]. rewrite str_length_app. lia. Qed.

Lemma createSizesString_chars l c : digit_value c = None → c ≠ "-"%char → c ≠ ","%char →
  has_char c (createSizesString l) = false.
Proof.
  intros Hc Hm Hk. destruct l as [|s l]; [done|]. rewrite createSizesString_cons, has_char_app.
  assert (c ≠ "x"%char) as Hx by (by intros ->).
  rewrite fmt_pair_chars by done. cbn [orb]. induction l as [|s' l IH]; [done|].
  change (sizes_tail (s' :: l)) with (String "," (fmt_pair "x" s'.1 s'.2 ++ sizes_tail l)).
  rewrite has_char_cons, has_char_app, fmt_pair_chars, IH by done.
  by rewrite (proj2 (Ascii.eqb_neq _ _)).
Qed.

Lemma createSizesString_nonempty s l : createSizesString (s :: l) ≠ "".
Proof.
  rewrite createSizesString_cons. unfold fmt_pair. pose proof (fmt_d_nonempty s.1).
  by destruct (fmt_d s.1).
Qed.

(** The list of sizes that QCameraParameters prints into the map is read
    back as the same list by both parsers, the one of the base class and the
    one of QCameraParameters. *)
Theorem sizes_list_roundtrip {V} `{KeyedVectorLaws V} lb sizes (m : V) :
  (32 ≤ lb)%Z → Forall int32_pair sizes →
  let m := set KEY_SUPPORTED_PREVIEW_SIZES (createSizesString sizes) m in
  getSupportedPreviewSizes lb m [] = Some sizes ∧
  qparseSizesList lb (get KEY_SUPPORTED_PREVIEW_SIZES m) [] = Some (Sizes sizes).
Proof.
  intros Hlb Hok m'. unfold getSupportedPreviewSizes, m'. destruct sizes as [|s l].
  - unfold set. simpl. unfold get. rewrite kv_map_add, lookup_insert_eq. done.
  - rewrite get_set_text by (done || apply createSizesString_nonempty ||
      by apply createSizesString_chars).
    cbn [parseSizesList qparseSizesList]. rewrite createSizesString_cons.
    rewrite <- (str_app_nil_r (sizes_tail l)), <- str_app_assoc, str_app_nil_r.
    assert (length l < S (String.length (fmt_pair "x" s.1 s.2 ++ sizes_tail l)))%nat as Hf.
    { rewrite str_length_app. pose proof (sizes_tail_length l). lia. }
    rewrite <- (str_app_nil_r (sizes_tail l)) at 2 4.
    rewrite parseSizesList_go_fmt, qparseSizesList_go_fmt by (done || by left). done.
Qed.

(** A list that ends in a comma: the parser of the base class stops, the one of
    [QCameraParameters] tests for another code than the one [parse_pair]
    returns and pushes a size that was never written. *)
Theorem sizes_trailing_comma lb sizes :
  (32 ≤ lb)%Z → Forall int32_pair sizes → sizes ≠ [] →
  parseSizesList lb (Some (createSizesString sizes ++ ",")) [] = Some sizes ∧
  qparseSizesList lb (Some (createSizesString sizes ++ ",")) [] = Some (SizesUninit sizes).
Proof.
  intros Hlb Hok Hne. destruct sizes as [|s l]; [done|].
  rewrite createSizesString_cons, str_app_assoc. cbn [parseSizesList qparseSizesList].
  assert (S (length l) < S (String.length (fmt_pair "x" s.1 s.2 ++ sizes_tail l ++ ",")))%nat as Hf.
  { rewrite !str_length_app. pose proof (sizes_tail_length l). simpl. lia. }
  rewrite parseSizesList_go_fmt, qparseSizesList_go_fmt by (done || lia || by right; exists "").
  rewrite app_nil_l. destruct (_ - _)%nat eqn:E; [lia|]. done.
Qed.

Lemma sizes_list_roundtrip_witness :
  (32 ≤ 32)%Z ∧ Forall int32_pair [(1920, 1080); (640, 480)]%Z ∧
  createSizesString [(1920, 1080); (640, 480)]%Z = "1920x1080,640x480" ∧
  qparseSizesList 32 (get KEY_SUPPORTED_PREVIEW_SIZES
    (set KEY_SUPPORTED_PREVIEW_SIZES (createSizesString [(1920, 1080); (640, 480)]%Z)
      (kv_empty : sorted_list))) [] = Some (Sizes [(1920, 1080); (640, 480)]%Z).
Proof.
  assert (Forall int32_pair [(1920, 1080); (640, 480)]%Z) as Hok
    by (repeat constructor; simpl; lia).
  split; [lia|]. split; [exact Hok|]. split; [reflexivity|].
  apply (sizes_list_roundtrip 32 _ (kv_empty : sorted_list)); [lia|exact Hok].
Defined.

Lemma sizes_trailing_comma_witness :
  qparseSizesList 64 (Some "640x480,") [] = Some (SizesUninit [(640, 480)]%Z).
Proof.
  apply (sizes_trailing_comma 64 [(640, 480)]%Z); [lia|repeat constructor; simpl; lia|done].
Defined.

(** ** Areas *)

(** The text of an area, as applications write it. *)
Definition fmt_area (a : cam_area_t) : string :=
  "(" ++ fmt_d (left a) ++ "," ++ fmt_d (top a) ++ "," ++ fmt_d (left a + width a) ++ "," ++
  fmt_d (top a + height a) ++ "," ++ fmt_d (weight a) ++ ")".

Fixpoint fmt_areas (l : list cam_area_t) : string :=
  match l with
  | [] => ""
  | [a] => fmt_area a
  | a :: l => fmt_area a ++ "," ++ fmt_areas l
  end.

Lemma area_valid_range a : area_valid a = true →
  (-1000 ≤ left a ∧ -1000 ≤ top a ∧ 0 < width a ∧ 0 < height a ∧
   left a + width a ≤ 1000 ∧ top a + height a ≤ 1000 ∧ 1 ≤ weight a ≤ 1000)%Z.
Proof.
  unfold area_valid. intros H.
  repeat match type of H with (if ?b then _ else _) = _ => destruct b eqn:?; [done|] end.
  repeat match goal with
         | E : _ || _ = false |- _ => apply orb_false_iff in E as [? ?]
         | E : (_ <? _)%Z = false |- _ => apply Z.ltb_ge in E
         | E : (_ <=? _)%Z = false |- _ => apply Z.leb_gt in E
         end. lia.
Qed.

Lemma length_fmt_small z : (-1000 ≤ z ≤ 1000)%Z → (String.length (fmt_d z) ≤ 5)%nat.
Proof.
  intros Hz. unfold fmt_d, dec. destruct (Z.ltb_spec z 0).
  - simpl. apply le_n_S. etrans; [apply (length_dec_go _ _ _ 3); lia|done].
  - etrans; [apply (length_dec_go _ _ _ 3); lia|simpl; lia].
Qed.

Lemma last_char_app s c : last_char (s ++ String c "") = Some c.
Proof. induction s as [|x s IH]; [done|]. simpl. rewrite IH. by destruct s. Qed.

Lemma ndim_step lb n z r : (32 ≤ lb)%Z → is_int32 z →
  ndim_loop lb "," (S n) (fmt_d z ++ String "," r) = (z ::.) <$> ndim_loop lb "," n r.
Proof.
  intros Hlb Hz. cbn [ndim_loop].
  destruct (strtol_int32 lb 10 z (String "," r) Hlb (or_introl eq_refl) Hz eq_refl) as [-> Hw].
  cbn match beta. by rewrite Hw.
Qed.

(** The text of an area between its parentheses. *)
Definition area_body (a : cam_area_t) : string :=
  fmt_d (left a) ++ "," ++ fmt_d (top a) ++ "," ++ fmt_d (left a + width a) ++ "," ++
  fmt_d (top a + height a) ++ "," ++ fmt_d (weight a).

Lemma fmt_area_body a r : fmt_area a ++ r = String "(" (area_body a) ++ String ")" r.
Proof. unfold fmt_area, area_body. simpl. repeat (rewrite str_app_assoc; simpl). done. Qed.

Lemma area_body_chars a : has_char ")" (String "(" (area_body a)) = false.
Proof.
  unfold area_body. rewrite has_char_cons.
  repeat (rewrite has_char_app, fmt_d_chars by done; simpl). by apply fmt_d_chars.
Qed.

Lemma length_area_body a : area_valid a = true → (String.length (area_body a) ≤ 29)%nat.
Proof.
  intros Ha%area_valid_range. unfold area_body.
  repeat (rewrite str_length_app; cbn [String.length]).
  pose proof (length_fmt_small (left a)). pose proof (length_fmt_small (top a)).
  pose proof (length_fmt_small (left a + width a)). pose proof (length_fmt_small (top a + height a)).
  pose proof (length_fmt_small (weight a)). lia.
Qed.

Lemma parseNDimVector_area lb a : (32 ≤ lb)%Z → area_valid a = true →
  parseNDimVector lb (String "(" (area_body a) ++ ")") 5 "," =
  Some [left a; top a; left a + width a; top a + height a; weight a]%Z.
Proof.
  intros Hlb Ha%area_valid_range. unfold parseNDimVector.
  change (String "(" (area_body a) ++ ")") with (String "(" (area_body a ++ ")")).
  cbn match. rewrite bool_decide_true
    by (change (String "(" (area_body a ++ ")")) with (String "(" (area_body a) ++ ")");
        apply last_char_app).
  unfold area_body. repeat (rewrite str_app_assoc; simpl String.append).
  rewrite !ndim_step by (done || unfold is_int32; lia). cbn [ndim_loop].
  destruct (strtol_int32 lb 10 (weight a) ")") as [-> Hw];
    [done|by left|unfold is_int32; lia|done|]. simpl. by rewrite Hw.
Qed.

Lemma area_of_fmt a : area_valid a = true →
  area_of [left a; top a; left a + width a; top a + height a; weight a]%Z = Some a.
Proof.
  intros Ha%area_valid_range. unfold area_of, int_sub. rewrite !bool_decide_true by lia.
  destruct a; simpl. f_equal. f_equal; lia.
Qed.

Lemma area_loop_fmt lb max l a fuel acc : (32 ≤ lb)%Z → Forall (λ a, area_valid a = true) (a :: l) →
  (length l < fuel)%nat → (length acc + S (length l) ≤ max)%nat →
  area_loop lb max fuel (fmt_areas (a :: l)) acc = Some (Areas (acc ++ a :: l)%list).
Proof.
  intros Hlb. revert a acc fuel. induction l as [|a' l IH]; intros a acc fuel Hok Hf Hm;
    apply Forall_cons in Hok as [Ha Hok]; destruct fuel as [|fuel]; try (simpl in Hf, Hm; lia).
  - change (fmt_areas [a]) with (fmt_area a). rewrite <- (str_app_nil_r (fmt_area a)).
    rewrite fmt_area_body. cbn [area_loop String.append].
    change (String "(" (area_body a ++ ")")) with (String "(" (area_body a) ++ String ")" "").
    rewrite strchr_app by apply area_body_chars.
    pose proof (length_area_body a Ha). rewrite (proj2 (Nat.leb_gt _ _))
      by (rewrite str_length_app; simpl; unfold AREA_STR_SIZE; lia).
    rewrite parseNDimVector_area, (proj2 (Nat.leb_gt _ _)), area_of_fmt by (done || simpl in Hm; lia).
    done.
  - change (fmt_areas (a :: a' :: l)) with (fmt_area a ++ "," ++ fmt_areas (a' :: l)).
    rewrite fmt_area_body. cbn [area_loop String.append].
    change (String "(" (area_body a ++ String ")" (String "," (fmt_areas (a' :: l)))))
      with (String "(" (area_body a) ++ String ")" (String "," (fmt_areas (a' :: l)))).
    rewrite strchr_app by apply area_body_chars.
    pose proof (length_area_body a Ha). rewrite (proj2 (Nat.leb_gt _ _))
      by (rewrite str_length_app; simpl; unfold AREA_STR_SIZE; lia).
    rewrite parseNDimVector_area, (proj2 (Nat.leb_gt _ _)), area_of_fmt by (done || simpl in Hm; lia).
    assert (∃ t, fmt_areas (a' :: l) = String "(" t) as [t Ht].
    { destruct l as [|a'' l]; [by eexists|].
      change (fmt_areas (a' :: a'' :: l)) with (fmt_area a' ++ "," ++ fmt_areas (a'' :: l)).
      by eexists. }
    rewrite Ht. simpl. rewrite <- Ht, IH by (done || rewrite ?length_app; simpl in *; lia).
    by rewrite <- app_assoc.
Qed.

Lemma fmt_areas_length l : (length l ≤ String.length (fmt_areas l))%nat.
Proof.
  induction l as [|a l IH]; [done|]. destruct l as [|a' l].
  - simpl. lia.
  - change (fmt_areas (a :: a' :: l)) with (fmt_area a ++ "," ++ fmt_areas (a' :: l)).
    rewrite str_length_app. simpl in *. lia.
Qed.

(** Focus or metering areas that validateCameraAreas accepts, printed in
    the form of the API, are parsed back to the same areas and their texts fit
    the 32 byte buffer. *)
Theorem areas_roundtrip lb max areas :
  (32 ≤ lb)%Z → areas ≠ [] → (length areas ≤ max)%nat →
  Forall (λ a, area_valid a = true) areas →
  parseCameraAreaString lb (fmt_areas areas) max = Some (Areas areas) ∧
  validateCameraAreas areas = true.
Proof.
  intros Hlb Hne Hmax Hok. destruct areas as [|a l]; [done|]. split.
  - unfold parseCameraAreaString. rewrite area_loop_fmt; [done|done|done| |simpl in *; lia].
    pose proof (fmt_areas_length (a :: l)). simpl in *. lia.
  - assert (forallb area_valid (a :: l) = true) as Hall.
    { apply forallb_forall. rewrite Forall_forall in Hok. intros x Hx. apply Hok.
      by apply list_elem_of_In. }
    destruct l; [|done]. simpl in *. rewrite andb_true_r in Hall. rewrite Hall.
    by destruct (area_is_default a).
Qed.

(** A turn of the loop leaves a shorter text, so the bytes bound the turns. *)
Lemma area_loop_total lb max fuel start acc :
  (String.length start < fuel)%nat → (length acc ≤ max)%nat →
  ∃ r, area_loop lb max fuel start acc = Some r ∧
       match r with Areas l => (length l ≤ max)%nat | _ => True end.
Proof.
  revert start acc. induction fuel as [|fuel IH]; intros start acc Hf Hm; [lia|].
  cbn [area_loop]. destruct start as [|c0 t]; [by eexists|].
  destruct (strchr ")" (String c0 t)) as [[s r]|] eqn:E.
  2: { repeat case_match; by eexists. }
  apply strchr_Some in E as [E _]. rewrite E, str_length_app in Hf. simpl in Hf.
  repeat case_match; try by eexists.
  - match goal with H : strchr "(" r = Some _ |- _ => apply strchr_Some in H as [-> _] end.
    rewrite str_length_app in Hf. simpl in Hf. apply IH; [simpl; lia|].
    rewrite length_app. simpl.
    match goal with H : (_ <=? _)%nat = false |- _ => apply Nat.leb_gt in H; lia end.
  - eexists. split; [done|]. simpl. rewrite length_app. simpl.
    match goal with H : (max <=? _)%nat = false |- _ => apply Nat.leb_gt in H; lia end.
Qed.

(** parseCameraAreaString ends on every text with an error, undefined
    behaviour or at most max_num_areas areas: each turn of its loop goes past
    a closing parenthesis. *)
Theorem area_parse_terminates lb max str :
  ∃ r, parseCameraAreaString lb str max = Some r ∧
       match r with Areas l => (length l ≤ max)%nat | _ => True end.
Proof. apply area_loop_total; [lia|simpl; lia]. Qed.

(** An area text longer than the array it is copied to is written past its end. *)
Theorem area_str_overflow lb max s rest :
  has_char ")" s = false → (30 ≤ String.length s)%nat →
  parseCameraAreaString lb ("(" ++ s ++ ")" ++ rest) max = Some AreasUb.
Proof.
  intros Hs Hl. unfold parseCameraAreaString. cbn [area_loop String.append].
  change (String "(" (s ++ String ")" rest)) with (String "(" s ++ String ")" rest).
  rewrite strchr_app by (by rewrite has_char_cons).
  rewrite (proj2 (Nat.leb_le _ _)); [done|].
  rewrite str_length_app. unfold AREA_STR_SIZE. simpl. lia.
Qed.

Lemma areas_roundtrip_witness :
  Forall (λ a, area_valid a = true)
    [CamArea (-1000) (-1000) 2000 2000 1000; CamArea 0 0 100 50 1] ∧
  fmt_areas [CamArea (-1000) (-1000) 2000 2000 1000; CamArea 0 0 100 50 1] =
    "(-1000,-1000,1000,1000,1000),(0,0,100,50,1)" ∧
  parseCameraAreaString 32 (fmt_areas
    [CamArea (-1000) (-1000) 2000 2000 1000; CamArea 0 0 100 50 1]) 2 =
    Some (Areas [CamArea (-1000) (-1000) 2000 2000 1000; CamArea 0 0 100 50 1]).
Proof.
  split; [by repeat constructor|]. split; [reflexivity|].
  apply areas_roundtrip; [lia|done|simpl; lia|by repeat constructor].
Defined.

Lemma area_str_overflow_witness :
  parseCameraAreaString 32 "(0,0,0,0,                     0)" 4 = Some AreasUb.
Proof. apply (area_str_overflow 32 4 "0,0,0,0,                     0" ""); [done|simpl; lia]. Defined.
