(* ===== verification/QParamTables.v ===== *)
(** * Keys, values and tables of the camera parameters

    The texts and tables of [camera/QCamera2/HAL/QCameraParameters.cpp] and
    [CameraParameters.cpp] and the numbers of [stack/common/cam_types.h] that
    the modelled setters use.  A table is a list of names with their numbers. *)
From S2P Require Import Prelude CStr CameraParams CamParamParse.
Local Open Scope string_scope.

(** ** Keys and values *)
Definition AE_BRACKET_OFF : string := "Off".
Definition CDS_MODE_OFF : string := "off".
Definition HDR_MODE_SENSOR : string := "hdr-mode-sensor".
Definition ISO_MANUAL : string := "manual".
Definition KEY_ANTIBANDING : string := "antibanding".
Definition KEY_AUTO_EXPOSURE_LOCK : string := "auto-exposure-lock".
Definition KEY_AUTO_WHITEBALANCE_LOCK : string := "auto-whitebalance-lock".
Definition KEY_EFFECT : string := "effect".
Definition KEY_EXPOSURE_COMPENSATION : string := "exposure-compensation".
Definition KEY_FLASH_MODE : string := "flash-mode".
Definition KEY_FOCUS_DISTANCES : string := "focus-distances".
Definition KEY_FOCUS_MODE : string := "focus-mode".
Definition KEY_GPS_ALTITUDE : string := "gps-altitude".
Definition KEY_GPS_LATITUDE : string := "gps-latitude".
Definition KEY_GPS_LONGITUDE : string := "gps-longitude".
Definition KEY_GPS_PROCESSING_METHOD : string := "gps-processing-method".
Definition KEY_GPS_TIMESTAMP : string := "gps-timestamp".
Definition KEY_JPEG_QUALITY : string := "jpeg-quality".
Definition KEY_JPEG_THUMBNAIL_HEIGHT : string := "jpeg-thumbnail-height".
Definition KEY_JPEG_THUMBNAIL_QUALITY : string := "jpeg-thumbnail-quality".
Definition KEY_JPEG_THUMBNAIL_WIDTH : string := "jpeg-thumbnail-width".
Definition KEY_QC_AE_BRACKET_HDR : string := "ae-bracket-hdr".
Definition KEY_QC_AF_BRACKET : string := "af-bracket".
Definition KEY_QC_AUTO_EXPOSURE : string := "auto-exposure".
Definition KEY_QC_AUTO_HDR_ENABLE : string := "auto-hdr-enable".
Definition KEY_QC_BRIGHTNESS : string := "luma-adaptation".
Definition KEY_QC_CACHE_VIDEO_BUFFERS : string := "cache-video-buffers".
Definition KEY_QC_CAMERA_MODE : string := "camera-mode".
Definition KEY_QC_CAPTURE_BURST_EXPOSURE : string := "capture-burst-exposures".
Definition KEY_QC_CDS_MODE : string := "cds-mode".
Definition KEY_QC_CHROMA_FLASH : string := "chroma-flash".
Definition KEY_QC_CONTINUOUS_ISO : string := "continuous-iso".
Definition KEY_QC_CONTRAST : string := "contrast".
Definition KEY_QC_DENOISE : string := "denoise".
Definition KEY_QC_DIS : string := "dis".
Definition KEY_QC_FACE_RECOGNITION : string := "face-recognition".
Definition KEY_QC_GPS_ALTITUDE_REF : string := "gps-altitude-ref".
Definition KEY_QC_GPS_LATITUDE_REF : string := "gps-latitude-ref".
Definition KEY_QC_GPS_LONGITUDE_REF : string := "gps-longitude-ref".
Definition KEY_QC_GPS_STATUS : string := "gps-status".
Definition KEY_QC_HDR_MODE : string := "hdr-mode".
Definition KEY_QC_HDR_NEED_1X : string := "hdr-need-1x".
Definition KEY_QC_INITIAL_EXPOSURE_INDEX : string := "initial-exp-index".
Definition KEY_QC_INSTANT_AEC : string := "instant-aec".
Definition KEY_QC_INSTANT_AEC_DISABLE : string := "0".
Definition KEY_QC_INSTANT_CAPTURE : string := "instant-capture".
Definition KEY_QC_INSTANT_CAPTURE_DISABLE : string := "0".
Definition KEY_QC_ISO_MODE : string := "iso".
Definition KEY_QC_LED_CALIBRATION_MODES : string := "led-calibration-mode".
Definition KEY_QC_LENSSHADE : string := "lensshade".
Definition KEY_QC_LONG_SHOT : string := "long-shot".
Definition KEY_QC_MAX_NUM_REQUESTED_FACES : string := "qc-max-num-requested-faces".
Definition KEY_QC_MEMORY_COLOR_ENHANCEMENT : string := "mce".
Definition KEY_QC_NOISE_REDUCTION_MODE : string := "noise-reduction-mode".
Definition KEY_QC_NO_DISPLAY_MODE : string := "no-display-mode".
Definition KEY_QC_NUM_RETRO_BURST_PER_SHUTTER : string := "num-retro-burst-per-shutter".
Definition KEY_QC_NUM_SNAPSHOT_PER_SHUTTER : string := "num-snaps-per-shutter".
Definition KEY_QC_OIS : string := "ois".
Definition KEY_QC_OPTI_ZOOM : string := "opti-zoom".
Definition KEY_QC_ORIENTATION : string := "orientation".
Definition KEY_QC_PREVIEW_FLIP : string := "preview-flip".
Definition KEY_QC_RDI_MODE : string := "rdi-mode".
Definition KEY_QC_REDEYE_REDUCTION : string := "redeye-reduction".
Definition KEY_QC_RE_FOCUS : string := "re-focus".
Definition KEY_QC_SATURATION : string := "saturation".
Definition KEY_QC_SCENE_DETECT : string := "scene-detect".
Definition KEY_QC_SCENE_SELECTION : string := "scene-selection".
Definition KEY_QC_SCE_FACTOR : string := "skinToneEnhancement".
Definition KEY_QC_SECURE_MODE : string := "secure-mode".
Definition KEY_QC_SEE_MORE : string := "see-more".
Definition KEY_QC_SELECTABLE_ZONE_AF : string := "selectable-zone-af".
Definition KEY_QC_SENSOR_HDR : string := "sensor-hdr".
Definition KEY_QC_SHARPNESS : string := "sharpness".
Definition KEY_QC_SNAPSHOT_BURST_LED_ON_PERIOD : string := "zsl-burst-led-on-period".
Definition KEY_QC_SNAPSHOT_FD_DATA : string := "snapshot-fd-data-enable".
Definition KEY_QC_SNAPSHOT_PICTURE_FLIP : string := "snapshot-picture-flip".
Definition KEY_QC_STILL_MORE : string := "still-more".
Definition KEY_QC_TINTLESS_ENABLE : string := "tintless".
Definition KEY_QC_TNR_MODE : string := "tnr-mode".
Definition KEY_QC_TRUE_PORTRAIT : string := "true-portrait".
Definition KEY_QC_VIDEO_BATCH_SIZE : string := "video-batch-size".
Definition KEY_QC_VIDEO_CDS_MODE : string := "video-cds-mode".
Definition KEY_QC_VIDEO_FLIP : string := "video-flip".
Definition KEY_QC_VIDEO_HDR : string := "video-hdr".
Definition KEY_QC_VIDEO_ROTATION : string := "video-rotation".
Definition KEY_QC_VIDEO_TNR_MODE : string := "video-tnr-mode".
Definition KEY_QC_VT_ENABLE : string := "avtimer".
Definition KEY_QC_ZSL : string := "zsl".
Definition KEY_QC_ZSL_BURST_INTERVAL : string := "capture-burst-interval".
Definition KEY_QC_ZSL_BURST_LOOKBACK : string := "capture-burst-retroactive".
Definition KEY_QC_ZSL_QUEUE_DEPTH : string := "capture-burst-queue-depth".
Definition KEY_RECORDING_HINT : string := "recording-hint".
Definition KEY_ROTATION : string := "rotation".
Definition KEY_SCENE_MODE : string := "scene-mode".
Definition KEY_WHITE_BALANCE : string := "whitebalance".
Definition KEY_ZOOM : string := "zoom".
Definition SCENE_MODE_AUTO : string := "auto".
Definition SCENE_MODE_HDR : string := "hdr".
Definition VALUE_DISABLE : string := "disable".
Definition VALUE_ENABLE : string := "enable".
Definition VALUE_HIGH_QUALITY : string := "high-quality".
Definition VALUE_OFF : string := "off".
Definition VALUE_ON : string := "on".
Definition VALUE_TRUE : string := "true".
Definition AF_BRACKET_OFF : string := "af-bracket-off".
Definition AF_BRACKET_ON : string := "af-bracket-on".
Definition ANTIBANDING_OFF : string := "off".
Definition ANTIBANDING_50HZ : string := "50hz".
Definition ANTIBANDING_60HZ : string := "60hz".
Definition ANTIBANDING_AUTO : string := "auto".
Definition AUTO_EXPOSURE_FRAME_AVG : string := "frame-average".
Definition AUTO_EXPOSURE_CENTER_WEIGHTED : string := "center-weighted".
Definition AUTO_EXPOSURE_SPOT_METERING : string := "spot-metering".
Definition AUTO_EXPOSURE_SMART_METERING : string := "smart-metering".
Definition AUTO_EXPOSURE_USER_METERING : string := "user-metering".
Definition AUTO_EXPOSURE_SPOT_METERING_ADV : string := "spot-metering-adv".
Definition AUTO_EXPOSURE_CENTER_WEIGHTED_ADV : string := "center-weighted-adv".
Definition AE_BRACKET : string := "AE-Bracket".
Definition CDS_MODE_ON : string := "on".
Definition CDS_MODE_AUTO : string := "auto".
Definition CHROMA_FLASH_OFF : string := "chroma-flash-off".
Definition CHROMA_FLASH_ON : string := "chroma-flash-on".
Definition DENOISE_OFF : string := "denoise-off".
Definition DENOISE_ON : string := "denoise-on".
Definition EFFECT_NONE : string := "none".
Definition EFFECT_MONO : string := "mono".
Definition EFFECT_NEGATIVE : string := "negative".
Definition EFFECT_SOLARIZE : string := "solarize".
Definition EFFECT_SEPIA : string := "sepia".
Definition EFFECT_POSTERIZE : string := "posterize".
Definition EFFECT_WHITEBOARD : string := "whiteboard".
Definition EFFECT_BLACKBOARD : string := "blackboard".
Definition EFFECT_AQUA : string := "aqua".
Definition EFFECT_EMBOSS : string := "emboss".
Definition EFFECT_SKETCH : string := "sketch".
Definition EFFECT_NEON : string := "neon".
Definition EFFECT_BEAUTY : string := "beauty".
Definition FLASH_MODE_OFF : string := "off".
Definition FLASH_MODE_AUTO : string := "auto".
Definition FLASH_MODE_ON : string := "on".
Definition FLASH_MODE_TORCH : string := "torch".
Definition FLIP_MODE_OFF : string := "off".
Definition FLIP_MODE_V : string := "flip-v".
Definition FLIP_MODE_H : string := "flip-h".
Definition FLIP_MODE_VH : string := "flip-vh".
Definition FOCUS_ALGO_AUTO : string := "auto".
Definition FOCUS_ALGO_SPOT_METERING : string := "spot-metering".
Definition FOCUS_ALGO_CENTER_WEIGHTED : string := "center-weighted".
Definition FOCUS_ALGO_FRAME_AVERAGE : string := "frame-average".
Definition FOCUS_MODE_AUTO : string := "auto".
Definition FOCUS_MODE_INFINITY : string := "infinity".
Definition FOCUS_MODE_MACRO : string := "macro".
Definition FOCUS_MODE_FIXED : string := "fixed".
Definition FOCUS_MODE_EDOF : string := "edof".
Definition FOCUS_MODE_CONTINUOUS_PICTURE : string := "continuous-picture".
Definition FOCUS_MODE_CONTINUOUS_VIDEO : string := "continuous-video".
Definition FOCUS_MODE_MANUAL_POSITION : string := "manual".
Definition HDR_MODE_MULTI_FRAME : string := "hdr-mode-multiframe".
Definition KEY_QC_INSTANT_AEC_AGGRESSIVE_AEC : string := "1".
Definition KEY_QC_INSTANT_AEC_FAST_AEC : string := "2".
Definition KEY_QC_INSTANT_CAPTURE_AGGRESSIVE_AEC : string := "1".
Definition KEY_QC_INSTANT_CAPTURE_FAST_AEC : string := "2".
Definition ISO_AUTO : string := "auto".
Definition ISO_HJR : string := "ISO_HJR".
Definition ISO_100 : string := "ISO100".
Definition ISO_200 : string := "ISO200".
Definition ISO_400 : string := "ISO400".
Definition ISO_800 : string := "ISO800".
Definition ISO_1600 : string := "ISO1600".
Definition ISO_3200 : string := "ISO3200".
Definition KEY_QC_LED_CALIBRATION_OFF : string := "0".
Definition KEY_QC_LED_CALIBRATION_DUAL : string := "1".
Definition KEY_QC_LED_CALIBRATION_SINGLE : string := "2".
Definition VALUE_FAST : string := "fast".
Definition OPTI_ZOOM_OFF : string := "opti-zoom-off".
Definition OPTI_ZOOM_ON : string := "opti-zoom-on".
Definition PIXEL_FORMAT_JPEG : string := "jpeg".
Definition PIXEL_FORMAT_YUV420SP : string := "yuv420sp".
Definition PIXEL_FORMAT_YUV422SP : string := "yuv422sp".
Definition QC_PIXEL_FORMAT_YUV_RAW_8BIT_YUYV : string := "yuv-raw8-yuyv".
Definition QC_PIXEL_FORMAT_YUV_RAW_8BIT_YVYU : string := "yuv-raw8-yvyu".
Definition QC_PIXEL_FORMAT_YUV_RAW_8BIT_UYVY : string := "yuv-raw8-uyvy".
Definition QC_PIXEL_FORMAT_YUV_RAW_8BIT_VYUY : string := "yuv-raw8-vyuy".
Definition QC_PIXEL_FORMAT_BAYER_QCOM_RAW_8GBRG : string := "bayer-qcom-8gbrg".
Definition QC_PIXEL_FORMAT_BAYER_QCOM_RAW_8GRBG : string := "bayer-qcom-8grbg".
Definition QC_PIXEL_FORMAT_BAYER_QCOM_RAW_8RGGB : string := "bayer-qcom-8rggb".
Definition QC_PIXEL_FORMAT_BAYER_QCOM_RAW_8BGGR : string := "bayer-qcom-8bggr".
Definition QC_PIXEL_FORMAT_BAYER_QCOM_RAW_10GBRG : string := "bayer-qcom-10gbrg".
Definition QC_PIXEL_FORMAT_BAYER_QCOM_RAW_10GRBG : string := "bayer-qcom-10grbg".
Definition QC_PIXEL_FORMAT_BAYER_QCOM_RAW_10RGGB : string := "bayer-qcom-10rggb".
Definition QC_PIXEL_FORMAT_BAYER_QCOM_RAW_10BGGR : string := "bayer-qcom-10bggr".
Definition QC_PIXEL_FORMAT_BAYER_QCOM_RAW_12GBRG : string := "bayer-qcom-12gbrg".
Definition QC_PIXEL_FORMAT_BAYER_QCOM_RAW_12GRBG : string := "bayer-qcom-12grbg".
Definition QC_PIXEL_FORMAT_BAYER_QCOM_RAW_12RGGB : string := "bayer-qcom-12rggb".
Definition QC_PIXEL_FORMAT_BAYER_QCOM_RAW_12BGGR : string := "bayer-qcom-12bggr".
Definition QC_PIXEL_FORMAT_BAYER_QCOM_RAW_14GBRG : string := "bayer-qcom-14gbrg".
Definition QC_PIXEL_FORMAT_BAYER_QCOM_RAW_14GRBG : string := "bayer-qcom-14grbg".
Definition QC_PIXEL_FORMAT_BAYER_QCOM_RAW_14RGGB : string := "bayer-qcom-14rggb".
Definition QC_PIXEL_FORMAT_BAYER_QCOM_RAW_14BGGR : string := "bayer-qcom-14bggr".
Definition QC_PIXEL_FORMAT_BAYER_MIPI_RAW_8GBRG : string := "bayer-mipi-8gbrg".
Definition QC_PIXEL_FORMAT_BAYER_MIPI_RAW_8GRBG : string := "bayer-mipi-8grbg".
Definition QC_PIXEL_FORMAT_BAYER_MIPI_RAW_8RGGB : string := "bayer-mipi-8rggb".
Definition QC_PIXEL_FORMAT_BAYER_MIPI_RAW_8BGGR : string := "bayer-mipi-8bggr".
Definition QC_PIXEL_FORMAT_BAYER_MIPI_RAW_10GBRG : string := "bayer-mipi-10gbrg".
Definition QC_PIXEL_FORMAT_BAYER_MIPI_RAW_10GRBG : string := "bayer-mipi-10grbg".
Definition QC_PIXEL_FORMAT_BAYER_MIPI_RAW_10RGGB : string := "bayer-mipi-10rggb".
Definition QC_PIXEL_FORMAT_BAYER_MIPI_RAW_10BGGR : string := "bayer-mipi-10bggr".
Definition QC_PIXEL_FORMAT_BAYER_MIPI_RAW_12GBRG : string := "bayer-mipi-12gbrg".
Definition QC_PIXEL_FORMAT_BAYER_MIPI_RAW_12GRBG : string := "bayer-mipi-12grbg".
Definition QC_PIXEL_FORMAT_BAYER_MIPI_RAW_12RGGB : string := "bayer-mipi-12rggb".
Definition QC_PIXEL_FORMAT_BAYER_MIPI_RAW_12BGGR : string := "bayer-mipi-12bggr".
Definition QC_PIXEL_FORMAT_BAYER_MIPI_RAW_14GBRG : string := "bayer-mipi-14gbrg".
Definition QC_PIXEL_FORMAT_BAYER_MIPI_RAW_14GRBG : string := "bayer-mipi-14grbg".
Definition QC_PIXEL_FORMAT_BAYER_MIPI_RAW_14RGGB : string := "bayer-mipi-14rggb".
Definition QC_PIXEL_FORMAT_BAYER_MIPI_RAW_14BGGR : string := "bayer-mipi-14bggr".
Definition QC_PIXEL_FORMAT_BAYER_IDEAL_QCOM_8GBRG : string := "bayer-ideal-qcom-8gbrg".
Definition QC_PIXEL_FORMAT_BAYER_IDEAL_QCOM_8GRBG : string := "bayer-ideal-qcom-8grbg".
Definition QC_PIXEL_FORMAT_BAYER_IDEAL_QCOM_8RGGB : string := "bayer-ideal-qcom-8rggb".
Definition QC_PIXEL_FORMAT_BAYER_IDEAL_QCOM_8BGGR : string := "bayer-ideal-qcom-8bggr".
Definition QC_PIXEL_FORMAT_BAYER_IDEAL_QCOM_10GBRG : string := "bayer-ideal-qcom-10gbrg".
Definition QC_PIXEL_FORMAT_BAYER_IDEAL_QCOM_10GRBG : string := "bayer-ideal-qcom-10grbg".
Definition QC_PIXEL_FORMAT_BAYER_IDEAL_QCOM_10RGGB : string := "bayer-ideal-qcom-10rggb".
Definition QC_PIXEL_FORMAT_BAYER_IDEAL_QCOM_10BGGR : string := "bayer-ideal-qcom-10bggr".
Definition QC_PIXEL_FORMAT_BAYER_IDEAL_QCOM_12GBRG : string := "bayer-ideal-qcom-12gbrg".
Definition QC_PIXEL_FORMAT_BAYER_IDEAL_QCOM_12GRBG : string := "bayer-ideal-qcom-12grbg".
Definition QC_PIXEL_FORMAT_BAYER_IDEAL_QCOM_12RGGB : string := "bayer-ideal-qcom-12rggb".
Definition QC_PIXEL_FORMAT_BAYER_IDEAL_QCOM_12BGGR : string := "bayer-ideal-qcom-12bggr".
Definition QC_PIXEL_FORMAT_BAYER_IDEAL_QCOM_14GBRG : string := "bayer-ideal-qcom-14gbrg".
Definition QC_PIXEL_FORMAT_BAYER_IDEAL_QCOM_14GRBG : string := "bayer-ideal-qcom-14grbg".
Definition QC_PIXEL_FORMAT_BAYER_IDEAL_QCOM_14RGGB : string := "bayer-ideal-qcom-14rggb".
Definition QC_PIXEL_FORMAT_BAYER_IDEAL_QCOM_14BGGR : string := "bayer-ideal-qcom-14bggr".
Definition QC_PIXEL_FORMAT_BAYER_IDEAL_MIPI_8GBRG : string := "bayer-ideal-mipi-8gbrg".
Definition QC_PIXEL_FORMAT_BAYER_IDEAL_MIPI_8GRBG : string := "bayer-ideal-mipi-8grbg".
Definition QC_PIXEL_FORMAT_BAYER_IDEAL_MIPI_8RGGB : string := "bayer-ideal-mipi-8rggb".
Definition QC_PIXEL_FORMAT_BAYER_IDEAL_MIPI_8BGGR : string := "bayer-ideal-mipi-8bggr".
Definition QC_PIXEL_FORMAT_BAYER_IDEAL_MIPI_10GBRG : string := "bayer-ideal-mipi-10gbrg".
Definition QC_PIXEL_FORMAT_BAYER_IDEAL_MIPI_10GRBG : string := "bayer-ideal-mipi-10grbg".
Definition QC_PIXEL_FORMAT_BAYER_IDEAL_MIPI_10RGGB : string := "bayer-ideal-mipi-10rggb".
Definition QC_PIXEL_FORMAT_BAYER_IDEAL_MIPI_10BGGR : string := "bayer-ideal-mipi-10bggr".
Definition QC_PIXEL_FORMAT_BAYER_IDEAL_MIPI_12GBRG : string := "bayer-ideal-mipi-12gbrg".
Definition QC_PIXEL_FORMAT_BAYER_IDEAL_MIPI_12GRBG : string := "bayer-ideal-mipi-12grbg".
Definition QC_PIXEL_FORMAT_BAYER_IDEAL_MIPI_12RGGB : string := "bayer-ideal-mipi-12rggb".
Definition QC_PIXEL_FORMAT_BAYER_IDEAL_MIPI_12BGGR : string := "bayer-ideal-mipi-12bggr".
Definition QC_PIXEL_FORMAT_BAYER_IDEAL_MIPI_14GBRG : string := "bayer-ideal-mipi-14gbrg".
Definition QC_PIXEL_FORMAT_BAYER_IDEAL_MIPI_14GRBG : string := "bayer-ideal-mipi-14grbg".
Definition QC_PIXEL_FORMAT_BAYER_IDEAL_MIPI_14RGGB : string := "bayer-ideal-mipi-14rggb".
Definition QC_PIXEL_FORMAT_BAYER_IDEAL_MIPI_14BGGR : string := "bayer-ideal-mipi-14bggr".
Definition QC_PIXEL_FORMAT_BAYER_IDEAL_PLAIN8_8GBRG : string := "bayer-ideal-plain8-8gbrg".
Definition QC_PIXEL_FORMAT_BAYER_IDEAL_PLAIN8_8GRBG : string := "bayer-ideal-plain8-8grbg".
Definition QC_PIXEL_FORMAT_BAYER_IDEAL_PLAIN8_8RGGB : string := "bayer-ideal-plain8-8rggb".
Definition QC_PIXEL_FORMAT_BAYER_IDEAL_PLAIN8_8BGGR : string := "bayer-ideal-plain8-8bggr".
Definition QC_PIXEL_FORMAT_BAYER_IDEAL_PLAIN16_8GBRG : string := "bayer-ideal-plain16-8gbrg".
Definition QC_PIXEL_FORMAT_BAYER_IDEAL_PLAIN16_8GRBG : string := "bayer-ideal-plain16-8grbg".
Definition QC_PIXEL_FORMAT_BAYER_IDEAL_PLAIN16_8RGGB : string := "bayer-ideal-plain16-8rggb".
Definition QC_PIXEL_FORMAT_BAYER_IDEAL_PLAIN16_8BGGR : string := "bayer-ideal-plain16-8bggr".
Definition QC_PIXEL_FORMAT_BAYER_IDEAL_PLAIN16_10GBRG : string := "bayer-ideal-plain16-10gbrg".
Definition QC_PIXEL_FORMAT_BAYER_IDEAL_PLAIN16_10GRBG : string := "bayer-ideal-plain16-10grbg".
Definition QC_PIXEL_FORMAT_BAYER_IDEAL_PLAIN16_10RGGB : string := "bayer-ideal-plain16-10rggb".
Definition QC_PIXEL_FORMAT_BAYER_IDEAL_PLAIN16_10BGGR : string := "bayer-ideal-plain16-10bggr".
Definition QC_PIXEL_FORMAT_BAYER_IDEAL_PLAIN16_12GBRG : string := "bayer-ideal-plain16-12gbrg".
Definition QC_PIXEL_FORMAT_BAYER_IDEAL_PLAIN16_12GRBG : string := "bayer-ideal-plain16-12grbg".
Definition QC_PIXEL_FORMAT_BAYER_IDEAL_PLAIN16_12RGGB : string := "bayer-ideal-plain16-12rggb".
Definition QC_PIXEL_FORMAT_BAYER_IDEAL_PLAIN16_12BGGR : string := "bayer-ideal-plain16-12bggr".
Definition QC_PIXEL_FORMAT_BAYER_IDEAL_PLAIN16_14GBRG : string := "bayer-ideal-plain16-14gbrg".
Definition QC_PIXEL_FORMAT_BAYER_IDEAL_PLAIN16_14GRBG : string := "bayer-ideal-plain16-14grbg".
Definition QC_PIXEL_FORMAT_BAYER_IDEAL_PLAIN16_14RGGB : string := "bayer-ideal-plain16-14rggb".
Definition QC_PIXEL_FORMAT_BAYER_IDEAL_PLAIN16_14BGGR : string := "bayer-ideal-plain16-14bggr".
Definition RE_FOCUS_OFF : string := "re-focus-off".
Definition RE_FOCUS_ON : string := "re-focus-on".
Definition SCENE_MODE_ACTION : string := "action".
Definition SCENE_MODE_PORTRAIT : string := "portrait".
Definition SCENE_MODE_LANDSCAPE : string := "landscape".
Definition SCENE_MODE_NIGHT : string := "night".
Definition SCENE_MODE_NIGHT_PORTRAIT : string := "night-portrait".
Definition SCENE_MODE_THEATRE : string := "theatre".
Definition SCENE_MODE_BEACH : string := "beach".
Definition SCENE_MODE_SNOW : string := "snow".
Definition SCENE_MODE_SUNSET : string := "sunset".
Definition SCENE_MODE_STEADYPHOTO : string := "steadyphoto".
Definition SCENE_MODE_FIREWORKS : string := "fireworks".
Definition SCENE_MODE_SPORTS : string := "sports".
Definition SCENE_MODE_PARTY : string := "party".
Definition SCENE_MODE_CANDLELIGHT : string := "candlelight".
Definition SCENE_MODE_ASD : string := "asd".
Definition SCENE_MODE_BACKLIGHT : string := "backlight".
Definition SCENE_MODE_FLOWERS : string := "flowers".
Definition SCENE_MODE_AR : string := "AR".
Definition STILL_MORE_OFF : string := "still-more-off".
Definition STILL_MORE_ON : string := "still-more-on".
Definition VALUE_FALSE : string := "false".
Definition TRUE_PORTRAIT_OFF : string := "true-portrait-off".
Definition TRUE_PORTRAIT_ON : string := "true-portrait-on".
Definition VIDEO_ROTATION_0 : string := "0".
Definition VIDEO_ROTATION_90 : string := "90".
Definition VIDEO_ROTATION_180 : string := "180".
Definition VIDEO_ROTATION_270 : string := "270".
Definition WHITE_BALANCE_AUTO : string := "auto".
Definition WHITE_BALANCE_INCANDESCENT : string := "incandescent".
Definition WHITE_BALANCE_FLUORESCENT : string := "fluorescent".
Definition WHITE_BALANCE_WARM_FLUORESCENT : string := "warm-fluorescent".
Definition WHITE_BALANCE_DAYLIGHT : string := "daylight".
Definition WHITE_BALANCE_CLOUDY_DAYLIGHT : string := "cloudy-daylight".
Definition WHITE_BALANCE_TWILIGHT : string := "twilight".
Definition WHITE_BALANCE_SHADE : string := "shade".
Definition WHITE_BALANCE_MANUAL : string := "manual".

(** ** Numbers *)
Definition CAM_ANTIBANDING_MODE_AUTO : Z := 3.
Definition CAM_EXP_BRACKETING_OFF : Z := 0.
Definition CAM_EXP_BRACKETING_ON : Z := 1.
Definition CAM_FACE_PROCESS_MASK_DETECTION : Z := 1.
Definition CAM_FACE_PROCESS_MASK_FOCUS : Z := 4.
Definition CAM_FACE_PROCESS_MASK_GAZE : Z := 32.
Definition CAM_FACE_PROCESS_MASK_RECOGNITION : Z := 2.
Definition CAM_FLASH_MODE_MAX : Z := 5.
Definition CAM_FLASH_MODE_OFF : Z := 0.
Definition CAM_FLASH_MODE_ON : Z := 2.
Definition CAM_FOCUS_MODE_AUTO : Z := 1.
Definition CAM_FOCUS_MODE_FIXED : Z := 4.
Definition CAM_FOCUS_MODE_INFINITY : Z := 2.
Definition CAM_INTF_META_JPEG_ORIENTATION : Z := 168.
Definition CAM_INTF_META_LENS_OPT_STAB_MODE : Z := 18.
Definition CAM_INTF_PARM_ADV_CAPTURE_MODE : Z := 95.
Definition CAM_INTF_PARM_AEC_ALGO_TYPE : Z := 30.
Definition CAM_INTF_PARM_AEC_LOCK : Z := 9.
Definition CAM_INTF_PARM_ANTIBANDING : Z := 6.
Definition CAM_INTF_PARM_ASD_ENABLE : Z := 42.
Definition CAM_INTF_PARM_AWB_LOCK : Z := 11.
Definition CAM_INTF_PARM_BESTSHOT_MODE : Z := 13.
Definition CAM_INTF_PARM_BRIGHTNESS : Z := 25.
Definition CAM_INTF_PARM_BURST_LED_ON_PERIOD : Z := 51.
Definition CAM_INTF_PARM_CDS_MODE : Z := 91.
Definition CAM_INTF_PARM_CONTRAST : Z := 23.
Definition CAM_INTF_PARM_DIS_ENABLE : Z := 14.
Definition CAM_INTF_PARM_EFFECT : Z := 12.
Definition CAM_INTF_PARM_EXPOSURE_COMPENSATION : Z := 7.
Definition CAM_INTF_PARM_FD : Z := 35.
Definition CAM_INTF_PARM_FOCUS_ALGO_TYPE : Z := 31.
Definition CAM_INTF_PARM_FOCUS_MODE : Z := 5.
Definition CAM_INTF_PARM_HDR_NEED_1X : Z := 52.
Definition CAM_INTF_PARM_HISTOGRAM : Z := 41.
Definition CAM_INTF_PARM_INITIAL_EXPOSURE_INDEX : Z := 219.
Definition CAM_INTF_PARM_INSTANT_AEC : Z := 221.
Definition CAM_INTF_PARM_ISO : Z := 26.
Definition CAM_INTF_PARM_LED_CALIBRATION : Z := 94.
Definition CAM_INTF_PARM_LED_MODE : Z := 15.
Definition CAM_INTF_PARM_LONGSHOT_ENABLE : Z := 89.
Definition CAM_INTF_PARM_MCE : Z := 36.
Definition CAM_INTF_PARM_RDI_MODE : Z := 90.
Definition CAM_INTF_PARM_RECORDING_HINT : Z := 43.
Definition CAM_INTF_PARM_REDEYE_REDUCTION : Z := 38.
Definition CAM_INTF_PARM_ROLLOFF : Z := 28.
Definition CAM_INTF_PARM_SATURATION : Z := 24.
Definition CAM_INTF_PARM_SCE_FACTOR : Z := 34.
Definition CAM_INTF_PARM_SENSOR_HDR : Z := 55.
Definition CAM_INTF_PARM_SET_PP_COMMAND : Z := 87.
Definition CAM_INTF_PARM_SET_VFE_COMMAND : Z := 86.
Definition CAM_INTF_PARM_SHARPNESS : Z := 22.
Definition CAM_INTF_PARM_STATS_AF_PAAF : Z := 160.
Definition CAM_INTF_PARM_STATS_DEBUG_MASK : Z := 159.
Definition CAM_INTF_PARM_TEMPORAL_DENOISE : Z := 40.
Definition CAM_INTF_PARM_TINTLESS : Z := 88.
Definition CAM_INTF_PARM_TONE_MAP_MODE : Z := 92.
Definition CAM_INTF_PARM_VIDEO_HDR : Z := 54.
Definition CAM_INTF_PARM_VT : Z := 58.
Definition CAM_INTF_PARM_WAVELET_DENOISE : Z := 39.
Definition CAM_INTF_PARM_WHITE_BALANCE : Z := 4.
Definition CAM_INTF_PARM_ZOOM : Z := 27.
Definition CAM_INTF_PARM_ZSL_MODE : Z := 48.
Definition CAM_QCOM_FEATURE_CHROMA_FLASH : Z := 8192.
Definition CAM_QCOM_FEATURE_CPP_TNR : Z := 131072.
Definition CAM_QCOM_FEATURE_DENOISE2D : Z := 2.
Definition CAM_QCOM_FEATURE_FLIP : Z := 16.
Definition CAM_QCOM_FEATURE_HDR : Z := 32.
Definition CAM_QCOM_FEATURE_LLVD : Z := 1048576.
Definition CAM_QCOM_FEATURE_OPTIZOOM : Z := 16384.
Definition CAM_QCOM_FEATURE_REFOCUS : Z := 65536.
Definition CAM_QCOM_FEATURE_SENSOR_HDR : Z := 32768.
Definition CAM_QCOM_FEATURE_STILLMORE : Z := 4194304.
Definition CAM_QCOM_FEATURE_TRUEPORTRAIT : Z := 524288.
Definition CAM_QCOM_FEATURE_UBIFOCUS : Z := 4096.
Definition CAM_QTI_FEATURE_SW_TNR : Z := 1073741824.
Definition CAM_SENSOR_HDR_OFF : Z := 0.
Definition CAM_SENSOR_HDR_ZIGZAG : Z := 2.
Definition CAM_WAVELET_DENOISE_CBCR_ONLY : Z := 1.
Definition CAM_WAVELET_DENOISE_STREAMLINED_CBCR : Z := 3.
Definition CAM_WAVELET_DENOISE_STREAMLINE_YCBCR : Z := 2.
Definition CAM_WAVELET_DENOISE_YCBCR_PLANE : Z := 0.
Definition EXTRA_FRAME_SYNC_BUFFERS : Z := 4.
Definition MAX_EXP_BRACKETING_LENGTH : Z := 32.
Definition CAMERA_MAX_CONSUMER_BATCH_BUFFER_SIZE : Z := 16.

(** ** Tables *)
Definition AF_BRACKETING_MODES_MAP : list (string * Z) :=
  [(AF_BRACKET_OFF, 0%Z); (AF_BRACKET_ON, 1%Z)].
Definition ANTIBANDING_MODES_MAP : list (string * Z) :=
  [(ANTIBANDING_OFF, 0%Z); (ANTIBANDING_50HZ, 2%Z); (ANTIBANDING_60HZ, 1%Z);
   (ANTIBANDING_AUTO, 3%Z)].
Definition AUTO_EXPOSURE_MAP : list (string * Z) :=
  [(AUTO_EXPOSURE_FRAME_AVG, 0%Z); (AUTO_EXPOSURE_CENTER_WEIGHTED, 1%Z);
   (AUTO_EXPOSURE_SPOT_METERING, 2%Z); (AUTO_EXPOSURE_SMART_METERING, 3%Z);
   (AUTO_EXPOSURE_USER_METERING, 4%Z); (AUTO_EXPOSURE_SPOT_METERING_ADV, 5%Z);
   (AUTO_EXPOSURE_CENTER_WEIGHTED_ADV, 6%Z)].
Definition BRACKETING_MODES_MAP : list (string * Z) :=
  [(AE_BRACKET_OFF, 0%Z); (AE_BRACKET, 1%Z)].
Definition CDS_MODES_MAP : list (string * Z) :=
  [(CDS_MODE_OFF, 0%Z); (CDS_MODE_ON, 1%Z); (CDS_MODE_AUTO, 2%Z)].
Definition CHROMA_FLASH_MODES_MAP : list (string * Z) :=
  [(CHROMA_FLASH_OFF, 0%Z); (CHROMA_FLASH_ON, 1%Z)].
Definition DENOISE_ON_OFF_MODES_MAP : list (string * Z) :=
  [(DENOISE_OFF, 0%Z); (DENOISE_ON, 1%Z)].
Definition EFFECT_MODES_MAP : list (string * Z) :=
  [(EFFECT_NONE, 0%Z); (EFFECT_MONO, 1%Z); (EFFECT_NEGATIVE, 2%Z);
   (EFFECT_SOLARIZE, 3%Z); (EFFECT_SEPIA, 4%Z); (EFFECT_POSTERIZE, 5%Z);
   (EFFECT_WHITEBOARD, 6%Z); (EFFECT_BLACKBOARD, 7%Z); (EFFECT_AQUA, 8%Z);
   (EFFECT_EMBOSS, 9%Z); (EFFECT_SKETCH, 10%Z); (EFFECT_NEON, 11%Z);
   (EFFECT_BEAUTY, 12%Z)].
Definition ENABLE_DISABLE_MODES_MAP : list (string * Z) :=
  [(VALUE_ENABLE, 1%Z); (VALUE_DISABLE, 0%Z)].
Definition FLASH_MODES_MAP : list (string * Z) :=
  [(FLASH_MODE_OFF, 0%Z); (FLASH_MODE_AUTO, 1%Z); (FLASH_MODE_ON, 2%Z);
   (FLASH_MODE_TORCH, 3%Z)].
Definition FLIP_MODES_MAP : list (string * Z) :=
  [(FLIP_MODE_OFF, 0%Z); (FLIP_MODE_V, 2%Z); (FLIP_MODE_H, 1%Z); (FLIP_MODE_VH, 3%Z)].
Definition FOCUS_ALGO_MAP : list (string * Z) :=
  [(FOCUS_ALGO_AUTO, 0%Z); (FOCUS_ALGO_SPOT_METERING, 1%Z);
   (FOCUS_ALGO_CENTER_WEIGHTED, 2%Z); (FOCUS_ALGO_FRAME_AVERAGE, 3%Z)].
Definition FOCUS_MODES_MAP : list (string * Z) :=
  [(FOCUS_MODE_AUTO, 1%Z); (FOCUS_MODE_INFINITY, 2%Z); (FOCUS_MODE_MACRO, 3%Z);
   (FOCUS_MODE_FIXED, 4%Z); (FOCUS_MODE_EDOF, 5%Z);
   (FOCUS_MODE_CONTINUOUS_PICTURE, 7%Z); (FOCUS_MODE_CONTINUOUS_VIDEO, 6%Z);
   (FOCUS_MODE_MANUAL_POSITION, 8%Z)].
Definition HDR_MODES_MAP : list (string * Z) :=
  [(HDR_MODE_SENSOR, 0%Z); (HDR_MODE_MULTI_FRAME, 1%Z)].
Definition INSTANT_AEC_MODES_MAP : list (string * Z) :=
  [(KEY_QC_INSTANT_AEC_DISABLE, 0%Z); (KEY_QC_INSTANT_AEC_AGGRESSIVE_AEC, 1%Z);
   (KEY_QC_INSTANT_AEC_FAST_AEC, 2%Z)].
Definition INSTANT_CAPTURE_MODES_MAP : list (string * Z) :=
  [(KEY_QC_INSTANT_CAPTURE_DISABLE, 0%Z); (KEY_QC_INSTANT_CAPTURE_AGGRESSIVE_AEC, 1%Z);
   (KEY_QC_INSTANT_CAPTURE_FAST_AEC, 2%Z)].
Definition ISO_MODES_MAP : list (string * Z) :=
  [(ISO_AUTO, 0%Z); (ISO_HJR, 1%Z); (ISO_100, 2%Z); (ISO_200, 3%Z); (ISO_400, 4%Z);
   (ISO_800, 5%Z); (ISO_1600, 6%Z); (ISO_3200, 7%Z)].
Definition LED_CALIBRATION_MODE_MAP : list (string * Z) :=
  [(KEY_QC_LED_CALIBRATION_OFF, 0%Z); (KEY_QC_LED_CALIBRATION_DUAL, 1%Z);
   (KEY_QC_LED_CALIBRATION_SINGLE, 2%Z)].
Definition NOISE_REDUCTION_MODES_MAP : list (string * Z) :=
  [(VALUE_OFF, 0%Z); (VALUE_FAST, 1%Z); (VALUE_HIGH_QUALITY, 2%Z)].
Definition ON_OFF_MODES_MAP : list (string * Z) :=
  [(VALUE_OFF, 0%Z); (VALUE_ON, 1%Z)].
Definition OPTI_ZOOM_MODES_MAP : list (string * Z) :=
  [(OPTI_ZOOM_OFF, 0%Z); (OPTI_ZOOM_ON, 1%Z)].
Definition PICTURE_TYPES_MAP : list (string * Z) :=
  [(PIXEL_FORMAT_JPEG, 0%Z); (PIXEL_FORMAT_YUV420SP, 2%Z); (PIXEL_FORMAT_YUV422SP, 5%Z);
   (QC_PIXEL_FORMAT_YUV_RAW_8BIT_YUYV, 8%Z); (QC_PIXEL_FORMAT_YUV_RAW_8BIT_YVYU, 9%Z);
   (QC_PIXEL_FORMAT_YUV_RAW_8BIT_UYVY, 10%Z); (QC_PIXEL_FORMAT_YUV_RAW_8BIT_VYUY, 11%Z);
   (QC_PIXEL_FORMAT_BAYER_QCOM_RAW_8GBRG, 12%Z);
   (QC_PIXEL_FORMAT_BAYER_QCOM_RAW_8GRBG, 13%Z);
   (QC_PIXEL_FORMAT_BAYER_QCOM_RAW_8RGGB, 14%Z);
   (QC_PIXEL_FORMAT_BAYER_QCOM_RAW_8BGGR, 15%Z);
   (QC_PIXEL_FORMAT_BAYER_QCOM_RAW_10GBRG, 16%Z);
   (QC_PIXEL_FORMAT_BAYER_QCOM_RAW_10GRBG, 17%Z);
   (QC_PIXEL_FORMAT_BAYER_QCOM_RAW_10RGGB, 18%Z);
   (QC_PIXEL_FORMAT_BAYER_QCOM_RAW_10BGGR, 19%Z);
   (QC_PIXEL_FORMAT_BAYER_QCOM_RAW_12GBRG, 20%Z);
   (QC_PIXEL_FORMAT_BAYER_QCOM_RAW_12GRBG, 21%Z);
   (QC_PIXEL_FORMAT_BAYER_QCOM_RAW_12RGGB, 22%Z);
   (QC_PIXEL_FORMAT_BAYER_QCOM_RAW_12BGGR, 23%Z);
   (QC_PIXEL_FORMAT_BAYER_QCOM_RAW_14GBRG, 79%Z);
   (QC_PIXEL_FORMAT_BAYER_QCOM_RAW_14GRBG, 80%Z);
   (QC_PIXEL_FORMAT_BAYER_QCOM_RAW_14RGGB, 81%Z);
   (QC_PIXEL_FORMAT_BAYER_QCOM_RAW_14BGGR, 82%Z);
   (QC_PIXEL_FORMAT_BAYER_MIPI_RAW_8GBRG, 24%Z);
   (QC_PIXEL_FORMAT_BAYER_MIPI_RAW_8GRBG, 25%Z);
   (QC_PIXEL_FORMAT_BAYER_MIPI_RAW_8RGGB, 26%Z);
   (QC_PIXEL_FORMAT_BAYER_MIPI_RAW_8BGGR, 27%Z);
   (QC_PIXEL_FORMAT_BAYER_MIPI_RAW_10GBRG, 28%Z);
   (QC_PIXEL_FORMAT_BAYER_MIPI_RAW_10GRBG, 29%Z);
   (QC_PIXEL_FORMAT_BAYER_MIPI_RAW_10RGGB, 30%Z);
   (QC_PIXEL_FORMAT_BAYER_MIPI_RAW_10BGGR, 31%Z);
   (QC_PIXEL_FORMAT_BAYER_MIPI_RAW_12GBRG, 32%Z);
   (QC_PIXEL_FORMAT_BAYER_MIPI_RAW_12GRBG, 33%Z);
   (QC_PIXEL_FORMAT_BAYER_MIPI_RAW_12RGGB, 34%Z);
   (QC_PIXEL_FORMAT_BAYER_MIPI_RAW_12BGGR, 35%Z);
   (QC_PIXEL_FORMAT_BAYER_MIPI_RAW_14GBRG, 83%Z);
   (QC_PIXEL_FORMAT_BAYER_MIPI_RAW_14GRBG, 84%Z);
   (QC_PIXEL_FORMAT_BAYER_MIPI_RAW_14RGGB, 85%Z);
   (QC_PIXEL_FORMAT_BAYER_MIPI_RAW_14BGGR, 86%Z);
   (QC_PIXEL_FORMAT_BAYER_IDEAL_QCOM_8GBRG, 36%Z);
   (QC_PIXEL_FORMAT_BAYER_IDEAL_QCOM_8GRBG, 37%Z);
   (QC_PIXEL_FORMAT_BAYER_IDEAL_QCOM_8RGGB, 38%Z);
   (QC_PIXEL_FORMAT_BAYER_IDEAL_QCOM_8BGGR, 39%Z);
   (QC_PIXEL_FORMAT_BAYER_IDEAL_QCOM_10GBRG, 40%Z);
   (QC_PIXEL_FORMAT_BAYER_IDEAL_QCOM_10GRBG, 41%Z);
   (QC_PIXEL_FORMAT_BAYER_IDEAL_QCOM_10RGGB, 42%Z);
   (QC_PIXEL_FORMAT_BAYER_IDEAL_QCOM_10BGGR, 43%Z);
   (QC_PIXEL_FORMAT_BAYER_IDEAL_QCOM_12GBRG, 44%Z);
   (QC_PIXEL_FORMAT_BAYER_IDEAL_QCOM_12GRBG, 45%Z);
   (QC_PIXEL_FORMAT_BAYER_IDEAL_QCOM_12RGGB, 46%Z);
   (QC_PIXEL_FORMAT_BAYER_IDEAL_QCOM_12BGGR, 47%Z);
   (QC_PIXEL_FORMAT_BAYER_IDEAL_QCOM_14GBRG, 87%Z);
   (QC_PIXEL_FORMAT_BAYER_IDEAL_QCOM_14GRBG, 88%Z);
   (QC_PIXEL_FORMAT_BAYER_IDEAL_QCOM_14RGGB, 89%Z);
   (QC_PIXEL_FORMAT_BAYER_IDEAL_QCOM_14BGGR, 90%Z);
   (QC_PIXEL_FORMAT_BAYER_IDEAL_MIPI_8GBRG, 48%Z);
   (QC_PIXEL_FORMAT_BAYER_IDEAL_MIPI_8GRBG, 49%Z);
   (QC_PIXEL_FORMAT_BAYER_IDEAL_MIPI_8RGGB, 50%Z);
   (QC_PIXEL_FORMAT_BAYER_IDEAL_MIPI_8BGGR, 51%Z);
   (QC_PIXEL_FORMAT_BAYER_IDEAL_MIPI_10GBRG, 52%Z);
   (QC_PIXEL_FORMAT_BAYER_IDEAL_MIPI_10GRBG, 53%Z);
   (QC_PIXEL_FORMAT_BAYER_IDEAL_MIPI_10RGGB, 54%Z);
   (QC_PIXEL_FORMAT_BAYER_IDEAL_MIPI_10BGGR, 55%Z);
   (QC_PIXEL_FORMAT_BAYER_IDEAL_MIPI_12GBRG, 56%Z);
   (QC_PIXEL_FORMAT_BAYER_IDEAL_MIPI_12GRBG, 57%Z);
   (QC_PIXEL_FORMAT_BAYER_IDEAL_MIPI_12RGGB, 58%Z);
   (QC_PIXEL_FORMAT_BAYER_IDEAL_MIPI_12BGGR, 59%Z);
   (QC_PIXEL_FORMAT_BAYER_IDEAL_MIPI_14GBRG, 91%Z);
   (QC_PIXEL_FORMAT_BAYER_IDEAL_MIPI_14GRBG, 92%Z);
   (QC_PIXEL_FORMAT_BAYER_IDEAL_MIPI_14RGGB, 93%Z);
   (QC_PIXEL_FORMAT_BAYER_IDEAL_MIPI_14BGGR, 94%Z);
   (QC_PIXEL_FORMAT_BAYER_IDEAL_PLAIN8_8GBRG, 60%Z);
   (QC_PIXEL_FORMAT_BAYER_IDEAL_PLAIN8_8GRBG, 61%Z);
   (QC_PIXEL_FORMAT_BAYER_IDEAL_PLAIN8_8RGGB, 62%Z);
   (QC_PIXEL_FORMAT_BAYER_IDEAL_PLAIN8_8BGGR, 63%Z);
   (QC_PIXEL_FORMAT_BAYER_IDEAL_PLAIN16_8GBRG, 64%Z);
   (QC_PIXEL_FORMAT_BAYER_IDEAL_PLAIN16_8GRBG, 65%Z);
   (QC_PIXEL_FORMAT_BAYER_IDEAL_PLAIN16_8RGGB, 66%Z);
   (QC_PIXEL_FORMAT_BAYER_IDEAL_PLAIN16_8BGGR, 67%Z);
   (QC_PIXEL_FORMAT_BAYER_IDEAL_PLAIN16_10GBRG, 68%Z);
   (QC_PIXEL_FORMAT_BAYER_IDEAL_PLAIN16_10GRBG, 69%Z);
   (QC_PIXEL_FORMAT_BAYER_IDEAL_PLAIN16_10RGGB, 70%Z);
   (QC_PIXEL_FORMAT_BAYER_IDEAL_PLAIN16_10BGGR, 71%Z);
   (QC_PIXEL_FORMAT_BAYER_IDEAL_PLAIN16_12GBRG, 72%Z);
   (QC_PIXEL_FORMAT_BAYER_IDEAL_PLAIN16_12GRBG, 73%Z);
   (QC_PIXEL_FORMAT_BAYER_IDEAL_PLAIN16_12RGGB, 74%Z);
   (QC_PIXEL_FORMAT_BAYER_IDEAL_PLAIN16_12BGGR, 75%Z);
   (QC_PIXEL_FORMAT_BAYER_IDEAL_PLAIN16_14GBRG, 95%Z);
   (QC_PIXEL_FORMAT_BAYER_IDEAL_PLAIN16_14GRBG, 96%Z);
   (QC_PIXEL_FORMAT_BAYER_IDEAL_PLAIN16_14RGGB, 97%Z);
   (QC_PIXEL_FORMAT_BAYER_IDEAL_PLAIN16_14BGGR, 98%Z)].
Definition RE_FOCUS_MODES_MAP : list (string * Z) :=
  [(RE_FOCUS_OFF, 0%Z); (RE_FOCUS_ON, 1%Z)].
Definition SCENE_MODES_MAP : list (string * Z) :=
  [(SCENE_MODE_AUTO, 0%Z); (SCENE_MODE_ACTION, 17%Z); (SCENE_MODE_PORTRAIT, 7%Z);
   (SCENE_MODE_LANDSCAPE, 2%Z); (SCENE_MODE_NIGHT, 6%Z);
   (SCENE_MODE_NIGHT_PORTRAIT, 15%Z); (SCENE_MODE_THEATRE, 16%Z);
   (SCENE_MODE_BEACH, 4%Z); (SCENE_MODE_SNOW, 3%Z); (SCENE_MODE_SUNSET, 5%Z);
   (SCENE_MODE_STEADYPHOTO, 10%Z); (SCENE_MODE_FIREWORKS, 13%Z);
   (SCENE_MODE_SPORTS, 9%Z); (SCENE_MODE_PARTY, 14%Z); (SCENE_MODE_CANDLELIGHT, 12%Z);
   (SCENE_MODE_ASD, 1%Z); (SCENE_MODE_BACKLIGHT, 8%Z); (SCENE_MODE_FLOWERS, 11%Z);
   (SCENE_MODE_AR, 18%Z); (SCENE_MODE_HDR, 21%Z)].
Definition STILL_MORE_MODES_MAP : list (string * Z) :=
  [(STILL_MORE_OFF, 0%Z); (STILL_MORE_ON, 1%Z)].
Definition TRUE_FALSE_MODES_MAP : list (string * Z) :=
  [(VALUE_FALSE, 0%Z); (VALUE_TRUE, 1%Z)].
Definition TRUE_PORTRAIT_MODES_MAP : list (string * Z) :=
  [(TRUE_PORTRAIT_OFF, 0%Z); (TRUE_PORTRAIT_ON, 1%Z)].
Definition VIDEO_ROTATION_MODES_MAP : list (string * Z) :=
  [(VIDEO_ROTATION_0, 0%Z); (VIDEO_ROTATION_90, 90%Z); (VIDEO_ROTATION_180, 180%Z);
   (VIDEO_ROTATION_270, 270%Z)].
Definition WHITE_BALANCE_MODES_MAP : list (string * Z) :=
  [(WHITE_BALANCE_AUTO, 0%Z); (WHITE_BALANCE_INCANDESCENT, 2%Z);
   (WHITE_BALANCE_FLUORESCENT, 3%Z); (WHITE_BALANCE_WARM_FLUORESCENT, 4%Z);
   (WHITE_BALANCE_DAYLIGHT, 5%Z); (WHITE_BALANCE_CLOUDY_DAYLIGHT, 6%Z);
   (WHITE_BALANCE_TWILIGHT, 7%Z); (WHITE_BALANCE_SHADE, 8%Z); (WHITE_BALANCE_MANUAL, 9%Z)].
Definition THUMBNAIL_SIZES_MAP : list (Z * Z) :=
  [(256, 154); (240, 160); (320, 320); (320, 240); (256, 144); (240, 144); (176, 144); (240, 320); (144, 176); (0, 0)]%Z.
