(* ===== verification/QParams.v ===== *)
(** * The state of [QCameraParameters]

    [camera/QCamera2/HAL/QCameraParameters.cpp]: the parameter map that the
    application sees, the entries that wait in [m_tempMap] until the back end
    has accepted the batch, the batch itself ([m_pParamBuf]) and the variables
    the setters keep.  A setter is a function from the state to its result code
    and the new state ([qm]).  The back end is not part of the sources:
    [set_parms] is its answer, and [q_backend] remembers what it was last given
    in a batch that it accepted. *)
From stdpp Require Import functions.
From S2P Require Import Prelude CStr CameraParams CamParamParse QParamTables.
Local Open Scope string_scope.

Definition NO_ERROR : Z := 0.
Definition BAD_VALUE : Z := -22.
Definition NO_INIT : Z := -19.
Definition BAD_TYPE : Z := -2147483647.
Definition FAILED_TRANSACTION : Z := -2147483646.
Definition NAME_NOT_FOUND : Z := -2.
Definition CAM_MODE_SECONDARY : Z := 1.

(** The variables that are [bool]. *)
Inductive flag : Type :=
  | m_bRecordingHint | m_bRecordingHint_new | m_bZslMode | m_bZslMode_new | m_bForceZslMode
  | m_bSceneTransitionAuto | m_bUpdateEffects | m_bNeedRestart | m_bAVTimerEnabled
  | m_bHDREnabled | m_HDRSceneEnabled | m_bLocalHDREnabled | m_bHDRModeSensor
  | m_bSensorHDREnabled | m_bHDR1xFrameEnabled | m_bSceneSelection | m_bAeBracketingEnabled
  | m_bAFBracketingOn | m_bReFocusOn | m_bChromaFlashOn | m_bOptiZoomOn | m_bTruePortraitOn
  | m_bSeeMoreOn | m_bStillMoreOn | m_bLtmForSeeMoreEnabled | m_bHighQualityNoiseReductionMode
  | m_bFaceDetectionOn | m_bDISEnabled | m_bOISEnabled | m_bNoDisplayMode | m_bFrameSyncEnabled
  | m_bPreviewFlipChanged | m_bVideoFlipChanged | m_bSnapshotFlipChanged | m_bTNRVideoOn
  | m_bTNRPreviewOn | m_bTNRSnapshotOn | m_bWNROn | m_bRdiMode | m_bSecureMode
  | m_bInstantCapture | m_bInstantAEC | m_bFixedFrameRateSet | m_bLongshotEnabled
  | m_bHistogramEnabled | m_LLCaptureEnabled.
#[export] Instance flag_eq_dec : EqDecision flag.
Proof. solve_decision. Defined.

(** The variables that are integers. *)
Inductive field : Type :=
  | mParmEffect | mFocusMode | m_nSharpness | m_nFaceProcMask | mZoomLevel | mParmZoomLevel
  | m_isoValue | mFlashValue | mFlashDaemonValue | mRotation | m_nBurstLEDOnPeriod
  | m_nRetroBurstNum | mCds_mode | m_SelectedScene | m_MobiMask | mAecFrameBound
  | mAecSkipDisplayFrameBound | mPreviewFormat | mAppPreviewFormat | mPictureFormat
  | m_ManualCaptureMode | m_LowLightLevel | m_ledCalibrationMode | mVideoBatchSize
  | mBufBatchCnt | m_relCamMode.
#[export] Instance field_eq_dec : EqDecision field.
Proof. solve_decision. Defined.

(** The part of [cam_capability_t] that the setters read. *)
Record capability := Capability {
  brightness_ctrl : Z * Z;
  sharpness_ctrl : Z * Z;
  sce_ctrl : Z * Z;
  saturation_ctrl : Z * Z;
  contrast_ctrl : Z * Z;
  exposure_compensation : Z * Z;
  zoom_supported : bool;
  zoom_ratio_tbl_cnt : Z;
  feature_mask : Z;
  max_num_roi : Z;
  preview_sizes_tbl : nat → Z * Z;
  preview_sizes_tbl_cnt : nat;
  video_sizes_tbl : nat → Z * Z;
  video_sizes_tbl_cnt : nat;
  zzhdr_sizes_tbl : nat → Z * Z;
  zzhdr_sizes_tbl_cnt : nat;
  refocus_output_count : Z;
  opti_zoom_threshold : Z;
  max_sensitivity : Z
}.

Section state.
Context {V : Type} `{KeyedVector V}.

(** A structure in the batch is the list of the fields the code sets. *)
Record qparams := QP {
  q_map : V;
  m_tempMap : V;
  m_pParamBuf : option (gmap Z (list Z));
  m_pCamOpsTbl : bool;
  q_flag : flag → bool;
  q_field : field → Z;
  m_AEBracketingClient : Z * string;
  q_backend : gmap Z (list Z)
}.

Definition qm (A : Type) : Type := qparams → A * qparams.
#[export] Instance qm_ret : MRet qm := λ A a s, (a, s).
#[export] Instance qm_bind : MBind qm := λ A B f m s, let '(a, s) := m s in f a s.

Definition with_map (f : V → V) (s : qparams) : qparams :=
  QP (f (q_map s)) (m_tempMap s) (m_pParamBuf s) (m_pCamOpsTbl s) (q_flag s) (q_field s)
    (m_AEBracketingClient s) (q_backend s).
Definition with_temp (f : V → V) (s : qparams) : qparams :=
  QP (q_map s) (f (m_tempMap s)) (m_pParamBuf s) (m_pCamOpsTbl s) (q_flag s) (q_field s)
    (m_AEBracketingClient s) (q_backend s).
Definition with_batch (f : gmap Z (list Z) → gmap Z (list Z)) (s : qparams) : qparams :=
  QP (q_map s) (m_tempMap s) (f <$> m_pParamBuf s) (m_pCamOpsTbl s) (q_flag s) (q_field s)
    (m_AEBracketingClient s) (q_backend s).
Definition with_flag (f : flag) (b : bool) (s : qparams) : qparams :=
  QP (q_map s) (m_tempMap s) (m_pParamBuf s) (m_pCamOpsTbl s) (<[f := b]> (q_flag s)) (q_field s)
    (m_AEBracketingClient s) (q_backend s).
Definition with_field (i : field) (z : Z) (s : qparams) : qparams :=
  QP (q_map s) (m_tempMap s) (m_pParamBuf s) (m_pCamOpsTbl s) (q_flag s) (<[i := z]> (q_field s))
    (m_AEBracketingClient s) (q_backend s).
Definition with_bracket (c : Z * string) (s : qparams) : qparams :=
  QP (q_map s) (m_tempMap s) (m_pParamBuf s) (m_pCamOpsTbl s) (q_flag s) (q_field s) c (q_backend s).
Definition with_backend (m : gmap Z (list Z)) (s : qparams) : qparams :=
  QP (q_map s) (m_tempMap s) (m_pParamBuf s) (m_pCamOpsTbl s) (q_flag s) (q_field s)
    (m_AEBracketingClient s) m.

Definition modify_q (f : qparams → qparams) : qm () := λ s, ((), f s).
Definition reads {A} (f : qparams → A) : qm A := λ s, (f s, s).
Definition flag_of (f : flag) : qm bool := reads (λ s, q_flag s f).
Definition assign (f : flag) (b : bool) : qm () := modify_q (with_flag f b).
Definition field_of (i : field) : qm Z := reads (λ s, q_field s i).
Definition assign_int (i : field) (z : Z) : qm () := modify_q (with_field i z).

(** The inherited operations on the map. *)
Definition qget (key : string) : qm (option string) := reads (λ s, get key (q_map s)).
Definition qgetInt (lb : Z) (key : string) : qm Z := reads (λ s, getInt lb key (q_map s)).
Definition qset (key value : string) : qm () := modify_q (with_map (set key value)).
Definition qset_int (key : string) (z : Z) : qm () := modify_q (with_map (set_int key z)).
Definition qremove (key : string) : qm () := modify_q (with_map (remove key)).

(** [replaceValueFor] puts the entry or replaces it. *)
Definition updateParamEntry (key value : string) : qm Z :=
  modify_q (with_temp (kv_add key value));; mret NO_ERROR.

(** Zero, or -1 if there is no parameter buffer. *)
Definition ADD_SET_PARAM_ENTRY_TO_BATCH (parm : Z) (value : list Z) : qm Z := λ s,
  match m_pParamBuf s with
  | Some _ => (0%Z, with_batch <[parm := value]> s)
  | None => ((-1)%Z, s)
  end.

Definition initBatchUpdate : qm Z :=
  modify_q (with_temp (λ _, kv_empty));; modify_q (with_batch (λ _, ∅));; mret NO_ERROR.

Definition commit_flags : qm () :=
  b ← flag_of m_bRecordingHint_new; assign m_bRecordingHint b;;
  b ← flag_of m_bZslMode_new; assign m_bZslMode b;;
  b ← flag_of m_bSceneTransitionAuto;
  if (b : bool) then assign m_bUpdateEffects true;; assign m_bSceneTransitionAuto false
  else mret ().

Definition commitParamChanges : qm Z :=
  modify_q (λ s, with_map (λ m, foldl (λ m p, set p.1 p.2 m) m (kv_items (m_tempMap s))) s);;
  modify_q (with_temp (λ _, kv_empty));;
  commit_flags;; mret NO_ERROR.

(** [set_parms]: what the back end answers.  It is called when an entry of the
    batch is valid. *)
Definition call_set_parms (set_parms : Z) : qm Z := λ s,
  match m_pParamBuf s with
  | Some b => (set_parms, if (set_parms =? NO_ERROR)%Z then with_backend (b ∪ q_backend s) s else s)
  | None => (NO_INIT, s)
  end.

Definition commitSetBatch (set_parms : Z) : qm Z :=
  b ← reads m_pParamBuf; ops ← reads m_pCamOpsTbl;
  match b with
  | None => mret NO_INIT
  | Some b =>
      if negb ops then mret NO_INIT
      else
        rc ← (if bool_decide (b = ∅) then mret NO_ERROR else call_set_parms set_parms);
        if (rc =? NO_ERROR)%Z then commitParamChanges else mret rc
  end.

Definition commitParameters (set_parms : Z) : qm Z := commitSetBatch set_parms.
End state.
Arguments qparams : clear implicits.
