(* ===== verification/QSetters.v ===== *)
(** * The setters of [QCameraParameters]

    One definition for each setter of [QCameraParameters.cpp] on a value, and
    one, with the suffix [_params], for the overload that compares a new
    parameter object with the current map and calls the former.  [None] is a
    null string.  [property_get] is the property service of the system, [lb]
    the width of [long].  The setters that compute with floating-point numbers
    are left out. *)
From S2P Require Import Prelude CStr CameraParams CamParamParse QParamTables QParams.
Local Open Scope string_scope.

Section setters.
Context {V : Type} `{KeyedVector V}.
Context (property_get : string → string → string) (lb : Z) (cap : capability).
Implicit Type params : V.

(** ** Shapes that many setters share *)
Definition atoi (s : string) : Z := wrap_signed 32 (strtol lb 10 s).1.

(** [prev_str == NULL || strcmp(str, prev_str) != 0] *)
Definition changed (str : string) (prev_str : option string) : bool :=
  match prev_str with None => true | Some p => negb (String.eqb str p) end.

(** [if (ADD_SET_PARAM_ENTRY_TO_BATCH(..)) return BAD_VALUE;] *)
Definition add_entry (parm : Z) (v : list Z) (k : qm (V := V) Z) : qm (V := V) Z :=
  rc ← ADD_SET_PARAM_ENTRY_TO_BATCH parm v;
  if (rc =? 0)%Z then k else mret BAD_VALUE.

(** Look the value up, store its text, add it to the batch. *)
Definition set_enum (key : string) (map : list (string * Z)) (parm : Z) (str : option string) : qm (V := V) Z :=
  match str, lookupAttr map str with
  | Some s, Some value => updateParamEntry key s;; add_entry parm [value] (mret NO_ERROR)
  | _, _ => mret BAD_VALUE
  end.

(** Look the value up and go on with it. *)
Definition with_attr (map : list (string * Z)) (str : option string) (k : string → Z → qm (V := V) Z) : qm (V := V) Z :=
  match str, lookupAttr map str with
  | Some s, Some value => k s value
  | _, _ => mret BAD_VALUE
  end.

Definition if_changed (key : string) params (k : string → qm (V := V) Z) : qm (V := V) Z :=
  prev_str ← qget key;
  match get key params with
  | Some str => if changed str prev_str then k str else mret NO_ERROR
  | None => mret NO_ERROR
  end.

Definition set_num (key : string) (parm : Z) (z : Z) : qm (V := V) Z :=
  updateParamEntry key (fmt_d z);; add_entry parm [z] (mret NO_ERROR).

(** A number within the limits of the capability, if it differs from the current one. *)
Definition set_in_range (key : string) (ctrl : Z * Z) (setter : Z → qm (V := V) Z) params : qm (V := V) Z :=
  let v := getInt lb key params in
  cur ← qgetInt lb key;
  match get key params with
  | None => mret NO_ERROR
  | Some _ =>
      if (cur =? v)%Z then mret NO_ERROR
      else if ((ctrl.1 <=? v) && (v <=? ctrl.2))%Z then setter v
      else mret BAD_VALUE
  end.

Definition feature (bit : Z) : bool := negb (Z.land (feature_mask cap) bit =? 0)%Z.

Definition strncmp_eq (s prefix : string) : bool := String.prefix prefix s.

(** ** Predicates *)
Definition isHDREnabled : qm (V := V) bool :=
  a ← flag_of m_bHDREnabled; b ← flag_of m_HDRSceneEnabled; mret (a || b).
Definition isUbiFocusEnabled : qm (V := V) bool :=
  a ← flag_of m_bAFBracketingOn; b ← flag_of m_bReFocusOn; mret (a && negb b).
Definition isUbiRefocus : qm (V := V) bool :=
  a ← flag_of m_bReFocusOn; mret (a && (1 <? refocus_output_count cap)%Z).
Definition isAEBracketEnabled : qm (V := V) bool :=
  str ← qget KEY_QC_AE_BRACKET_HDR;
  mret match str with Some s => negb (String.eqb s AE_BRACKET_OFF) | None => false end.
Definition isOptiZoomEnabled : qm (V := V) bool :=
  on ← flag_of m_bOptiZoomOn; z ← field_of mParmZoomLevel;
  mret (on && (0 <=? z)%Z && (wrap_unsigned 32 (opti_zoom_threshold cap) <=? z)%Z).
Definition isAdvCamFeaturesEnabled : qm (V := V) bool :=
  ubi ← isUbiFocusEnabled; chroma ← flag_of m_bChromaFlashOn; opti ← flag_of m_bOptiZoomOn;
  hdr ← isHDREnabled; aeb ← isAEBracketEnabled; still ← flag_of m_bStillMoreOn; re ← isUbiRefocus;
  mret (ubi || chroma || opti || hdr || aeb || still || re).
Definition isAutoHDREnabled : qm (V := V) bool :=
  str ← qget KEY_QC_AUTO_HDR_ENABLE;
  mret match str with
       | Some _ => match lookupAttr ENABLE_DISABLE_MODES_MAP str with
                   | Some v => negb (v =? 0)%Z
                   | None => false
                   end
       | None => false
       end.
Definition is4k2kVideoResolution : qm (V := V) bool :=
  size ← reads (λ s, getVideoSize lb (q_map s));
  mret (negb ((size.1 <? 3840) && (size.2 <? 2160))%Z).
Definition isVideoBuffersCached : qm (V := V) bool :=
  str ← qget KEY_QC_CACHE_VIDEO_BUFFERS;
  mret match str with Some s => negb (String.eqb s VALUE_DISABLE) | None => false end.
Definition fdModeInVideo : Z :=
  let v := atoi (property_get "persist.vendor.camera.fdvideo" "0") in
  if (0 <? v)%Z then wrap_unsigned 8 v else 0%Z.
Definition getAutoFlickerMode : Z := atoi (property_get "persist.vendor.camera.set.afd" "3").

(** ** Sizes and formats *)
Fixpoint size_in_table (tbl : nat → Z * Z) (cnt : nat) (size : Z * Z) : bool :=
  match cnt with
  | O => false
  | S n => bool_decide (tbl n = size) || size_in_table tbl n size
  end.

Definition size_changed (a b : Z * Z) : bool := negb (bool_decide (a = b)).

Definition setPreviewSize_params params : qm (V := V) Z :=
  let size := getPreviewSize lb params in
  old ← reads (λ s, getPreviewSize lb (q_map s));
  mode ← field_of m_relCamMode;
  let store size :=
    (if size_changed size old then assign m_bNeedRestart true else mret ());;
    modify_q (with_map (CameraParams.setPreviewSize size.1 size.2));; mret NO_ERROR in
  if size_in_table (preview_sizes_tbl cap) (preview_sizes_tbl_cnt cap) size then store size
  else if (mode =? CAM_MODE_SECONDARY)%Z then
    let prop := property_get "persist.vendor.camera.aux.preview.size" "0" in
    let size := match parse_pair lb prop "x" with Some (w, h, _) => (w, h) | None => size end in
    let size :=
      if size_in_table (preview_sizes_tbl cap) (preview_sizes_tbl_cnt cap) size then size
      else preview_sizes_tbl cap 0%nat in
    store size
  else mret BAD_VALUE.

Definition setVideoSize_params params : qm (V := V) Z :=
  let size := match get KEY_VIDEO_SIZE params with
              | None => getPreviewSize lb params
              | Some _ => getVideoSize lb params
              end in
  old ← reads (λ s, getVideoSize lb (q_map s));
  mode ← field_of m_relCamMode; hint ← flag_of m_bRecordingHint;
  if size_in_table (video_sizes_tbl cap) (video_sizes_tbl_cnt cap) size then
    (if hint && size_changed size old then assign m_bNeedRestart true else mret ());;
    modify_q (with_map (CameraParams.setVideoSize size.1 size.2));; mret NO_ERROR
  else if (mode =? CAM_MODE_SECONDARY)%Z then
    let size := video_sizes_tbl cap 0%nat in
    (if size_changed size old then assign m_bNeedRestart true else mret ());;
    modify_q (with_map (CameraParams.setVideoSize size.1 size.2));; mret NO_ERROR
  else mret BAD_VALUE.

Definition setPictureFormat_params params : qm (V := V) Z :=
  with_attr PICTURE_TYPES_MAP (getPictureFormat params) (λ str f,
    assign_int mPictureFormat f;;
    modify_q (with_map (CameraParams.setPictureFormat str));; mret NO_ERROR).

Definition setJpegThumbnailSize_params params : qm (V := V) Z :=
  let size := (getInt lb KEY_JPEG_THUMBNAIL_WIDTH params,
               getInt lb KEY_JPEG_THUMBNAIL_HEIGHT params) in
  if bool_decide (size ∈ THUMBNAIL_SIZES_MAP) then
    qset_int KEY_JPEG_THUMBNAIL_WIDTH size.1;;
    qset_int KEY_JPEG_THUMBNAIL_HEIGHT size.2;; mret NO_ERROR
  else mret BAD_VALUE.

Definition setBurstLEDOnPeriod_params params : qm (V := V) Z :=
  let n := getInt lb KEY_QC_SNAPSHOT_BURST_LED_ON_PERIOD params in
  let n := if ((n <=? 0) || (800 <? n))%Z then
             let n := atoi (property_get "persist.vendor.camera.led.on.period" "0") in
             if (n <=? 0)%Z then 300%Z else n
           else n in
  qset_int KEY_QC_SNAPSHOT_BURST_LED_ON_PERIOD n;;
  assign_int m_nBurstLEDOnPeriod n;;
  add_entry CAM_INTF_PARM_BURST_LED_ON_PERIOD [n] (mret NO_ERROR).

Definition setRetroActiveBurstNum_params params : qm (V := V) Z :=
  let n := getInt lb KEY_QC_NUM_RETRO_BURST_PER_SHUTTER params in
  let n := if (n <=? 0)%Z then
             let n := atoi (property_get "persist.vendor.camera.retro.number" "0") in
             if (n <? 0)%Z then 0%Z else n
           else n in
  qset_int KEY_QC_NUM_RETRO_BURST_PER_SHUTTER n;;
  assign_int m_nRetroBurstNum n;; mret NO_ERROR.

Definition setJpegQuality_params params : qm (V := V) Z :=
  let ok q := ((0 <=? q) && (q <=? 100))%Z in
  let quality := getInt lb KEY_JPEG_QUALITY params in
  rc ← (if ok quality then qset_int KEY_JPEG_QUALITY quality;; mret NO_ERROR else mret BAD_VALUE);
  let quality := getInt lb KEY_JPEG_THUMBNAIL_QUALITY params in
  if ok quality then qset_int KEY_JPEG_THUMBNAIL_QUALITY quality;; mret rc else mret BAD_VALUE.

Definition setOrientation_params params : qm (V := V) Z :=
  match get KEY_QC_ORIENTATION params with
  | Some str =>
      if String.eqb str "portrait" || String.eqb str "landscape" then
        qset KEY_QC_ORIENTATION str;; mret NO_ERROR
      else mret BAD_VALUE
  | None => mret NO_ERROR
  end.

Definition setPreviewFrameRate_params params : qm (V := V) Z :=
  prev_str ← qget KEY_PREVIEW_FRAME_RATE;
  match get KEY_PREVIEW_FRAME_RATE params, prev_str with
  | Some str, Some prev =>
      if String.eqb str prev then mret NO_ERROR
      else updateParamEntry KEY_PREVIEW_FRAME_RATE str;;
           assign m_bFixedFrameRateSet true;; mret NO_ERROR
  | _, _ => mret NO_ERROR
  end.

(** ** Image settings *)
Definition setAutoExposure (str : option string) : qm (V := V) Z :=
  set_enum KEY_QC_AUTO_EXPOSURE AUTO_EXPOSURE_MAP CAM_INTF_PARM_AEC_ALGO_TYPE str.
Definition setAutoExposure_params params : qm (V := V) Z :=
  if_changed KEY_QC_AUTO_EXPOSURE params (λ str, setAutoExposure (Some str)).

Definition setEffect (str : option string) : qm (V := V) Z :=
  with_attr EFFECT_MODES_MAP str (λ effect value,
    updateParamEntry KEY_EFFECT effect;;
    let prmEffect := wrap_unsigned 8 value in
    assign_int mParmEffect prmEffect;;
    add_entry CAM_INTF_PARM_EFFECT [prmEffect] (mret NO_ERROR)).
Definition setEffect_params params : qm (V := V) Z :=
  prev_str ← qget KEY_EFFECT; update ← flag_of m_bUpdateEffects;
  let prop := property_get "persist.vendor.camera.effect" "none" in
  if negb (String.eqb prop "none") then
    if changed prop prev_str || update then
      assign m_bUpdateEffects false;; setEffect (Some prop)
    else mret NO_ERROR
  else match get KEY_EFFECT params with
       | Some str =>
           if changed str prev_str || update then
             assign m_bUpdateEffects false;; setEffect (Some str)
           else mret NO_ERROR
       | None => mret NO_ERROR
       end.

Definition setBrightness (brightness : Z) : qm (V := V) Z :=
  set_num KEY_QC_BRIGHTNESS CAM_INTF_PARM_BRIGHTNESS brightness.
Definition setBrightness_params : V → qm (V := V) Z :=
  set_in_range KEY_QC_BRIGHTNESS (brightness_ctrl cap) setBrightness.

Definition setSharpness (sharpness : Z) : qm (V := V) Z :=
  updateParamEntry KEY_QC_SHARPNESS (fmt_d sharpness);;
  assign_int m_nSharpness sharpness;;
  add_entry CAM_INTF_PARM_SHARPNESS [sharpness] (mret NO_ERROR).
Definition setSharpness_params : V → qm (V := V) Z :=
  set_in_range KEY_QC_SHARPNESS (sharpness_ctrl cap) setSharpness.

Definition setSkinToneEnhancement (sceFactor : Z) : qm (V := V) Z :=
  set_num KEY_QC_SCE_FACTOR CAM_INTF_PARM_SCE_FACTOR sceFactor.
Definition setSkinToneEnhancement_params : V → qm (V := V) Z :=
  set_in_range KEY_QC_SCE_FACTOR (sce_ctrl cap) setSkinToneEnhancement.

Definition setSaturation (saturation : Z) : qm (V := V) Z :=
  set_num KEY_QC_SATURATION CAM_INTF_PARM_SATURATION saturation.
Definition setSaturation_params : V → qm (V := V) Z :=
  set_in_range KEY_QC_SATURATION (saturation_ctrl cap) setSaturation.

Definition setContrast (contrast : Z) : qm (V := V) Z :=
  set_num KEY_QC_CONTRAST CAM_INTF_PARM_CONTRAST contrast.
Definition setContrast_params : V → qm (V := V) Z :=
  set_in_range KEY_QC_CONTRAST (contrast_ctrl cap) setContrast.

Definition setExposureCompensation (expComp : Z) : qm (V := V) Z :=
  set_num KEY_EXPOSURE_COMPENSATION CAM_INTF_PARM_EXPOSURE_COMPENSATION expComp.
Definition setExposureCompensation_params : V → qm (V := V) Z :=
  set_in_range KEY_EXPOSURE_COMPENSATION (exposure_compensation cap) setExposureCompensation.

Definition setWhiteBalance (str : option string) : qm (V := V) Z :=
  set_enum KEY_WHITE_BALANCE WHITE_BALANCE_MODES_MAP CAM_INTF_PARM_WHITE_BALANCE str.
Definition setWhiteBalance_params params : qm (V := V) Z :=
  if_changed KEY_WHITE_BALANCE params (λ str, setWhiteBalance (Some str)).

Definition setAntibanding (str : option string) : qm (V := V) Z :=
  with_attr ANTIBANDING_MODES_MAP str (λ s value,
    updateParamEntry KEY_ANTIBANDING s;;
    let value := if (value =? CAM_ANTIBANDING_MODE_AUTO)%Z then getAutoFlickerMode else value in
    add_entry CAM_INTF_PARM_ANTIBANDING [wrap_unsigned 32 value] (mret NO_ERROR)).
Definition setAntibanding_params params : qm (V := V) Z :=
  if_changed KEY_ANTIBANDING params (λ str, setAntibanding (Some str)).

Definition setStatsDebugMask : qm (V := V) Z :=
  let mask := wrap_unsigned 32 (atoi (property_get "persist.vendor.camera.stats.debug.mask" "0")) in
  add_entry CAM_INTF_PARM_STATS_DEBUG_MASK [mask] (mret NO_ERROR).

Definition setPAAF : qm (V := V) Z :=
  let paaf := wrap_unsigned 32 (atoi (property_get "persist.vendor.camera.stats.af.paaf" "1")) in
  add_entry CAM_INTF_PARM_STATS_AF_PAAF [paaf] (mret NO_ERROR).

Definition setSceneDetect (str : option string) : qm (V := V) Z :=
  set_enum KEY_QC_SCENE_DETECT ON_OFF_MODES_MAP CAM_INTF_PARM_ASD_ENABLE str.
Definition setSceneDetect_params params : qm (V := V) Z :=
  if_changed KEY_QC_SCENE_DETECT params (λ str, setSceneDetect (Some str)).

(** [(uint8_t)atoi(prop)] as a condition. *)
Definition uint8_property (key : string) : bool :=
  negb (wrap_unsigned 8 (atoi (property_get key "0")) =? 0)%Z.

Definition setSensorSnapshotHDR (str : option string) : qm (V := V) Z :=
  with_attr ON_OFF_MODES_MAP str (λ s value,
    updateParamEntry KEY_QC_SENSOR_HDR s;;
    let value := if uint8_property "persist.vendor.camera.zzhdr.enable" && negb (value =? CAM_SENSOR_HDR_OFF)%Z
                 then CAM_SENSOR_HDR_ZIGZAG else value in
    add_entry CAM_INTF_PARM_SENSOR_HDR [value] (mret NO_ERROR)).

Definition setVideoHDR (str : option string) : qm (V := V) Z :=
  with_attr ON_OFF_MODES_MAP str (λ s value,
    if uint8_property "persist.vendor.camera.zzhdr.video" then
      let value := if (value =? 0)%Z then CAM_SENSOR_HDR_OFF else CAM_SENSOR_HDR_ZIGZAG in
      add_entry CAM_INTF_PARM_SENSOR_HDR [value] (updateParamEntry KEY_QC_VIDEO_HDR s;; mret NO_ERROR)
    else
      updateParamEntry KEY_QC_VIDEO_HDR s;;
      add_entry CAM_INTF_PARM_VIDEO_HDR [value] (mret NO_ERROR)).
Definition setVideoHDR_params params : qm (V := V) Z :=
  if_changed KEY_QC_VIDEO_HDR params (λ str, setVideoHDR (Some str)).

Definition setVtEnable (str : option string) : qm (V := V) Z :=
  match str, lookupAttr ENABLE_DISABLE_MODES_MAP str with
  | Some s, Some value =>
      assign m_bAVTimerEnabled true;;
      updateParamEntry KEY_QC_VT_ENABLE s;;
      add_entry CAM_INTF_PARM_VT [value] (mret NO_ERROR)
  | _, _ => assign m_bAVTimerEnabled false;; mret BAD_VALUE
  end.
Definition setVtEnable_params params : qm (V := V) Z :=
  if_changed KEY_QC_VT_ENABLE params (λ str, setVtEnable (Some str)).

(** ** Faces *)
Definition setFaceRecognition (str : option string) (maxFaces : Z) : qm (V := V) Z :=
  with_attr ON_OFF_MODES_MAP str (λ s value,
    updateParamEntry KEY_QC_FACE_RECOGNITION s;;
    mask ← field_of m_nFaceProcMask;
    let faceProcMask := if (0 <? value)%Z then Z.lor mask CAM_FACE_PROCESS_MASK_RECOGNITION
                        else Z.ldiff mask CAM_FACE_PROCESS_MASK_RECOGNITION in
    if (mask =? faceProcMask)%Z then mret NO_ERROR
    else assign_int m_nFaceProcMask faceProcMask;;
         add_entry CAM_INTF_PARM_FD [faceProcMask; maxFaces] (mret NO_ERROR)).
Definition setFaceRecognition_params params : qm (V := V) Z :=
  if_changed KEY_QC_FACE_RECOGNITION params (λ str,
    setFaceRecognition (Some str)
      (wrap_unsigned 32 (getInt lb KEY_QC_MAX_NUM_REQUESTED_FACES params))).

(** The mask of an enabled detection; [None] if no face can be detected. *)
Definition face_mask (enabled recording portrait : bool) (mask : Z) : option Z :=
  if enabled then
    if (max_num_roi cap =? 0)%Z then None
    else
      let mask :=
        if recording then
          Z.lor CAM_FACE_PROCESS_MASK_FOCUS
            (if (fdModeInVideo =? CAM_FACE_PROCESS_MASK_DETECTION)%Z
             then CAM_FACE_PROCESS_MASK_DETECTION else 0)
        else Z.lor mask (Z.lor CAM_FACE_PROCESS_MASK_FOCUS CAM_FACE_PROCESS_MASK_DETECTION) in
      Some (if portrait then Z.lor mask CAM_FACE_PROCESS_MASK_GAZE
            else Z.ldiff mask CAM_FACE_PROCESS_MASK_GAZE)
  else Some (Z.ldiff mask (Z.lor CAM_FACE_PROCESS_MASK_DETECTION
               (Z.lor CAM_FACE_PROCESS_MASK_FOCUS CAM_FACE_PROCESS_MASK_GAZE))).

(** [initCommit] with the answer of the back end, or without a commit. *)
Definition setFaceDetection (enabled : bool) (initCommit : option Z) : qm (V := V) Z :=
  mask ← field_of m_nFaceProcMask; recording ← flag_of m_bRecordingHint; portrait ← flag_of m_bTruePortraitOn;
  match face_mask enabled recording portrait mask with
  | None => mret BAD_VALUE
  | Some faceProcMask =>
      if (mask =? faceProcMask)%Z then mret NO_ERROR
      else
        assign_int m_nFaceProcMask faceProcMask;;
        faces ← qgetInt lb KEY_QC_MAX_NUM_REQUESTED_FACES;
        rc ← match initCommit with Some _ => initBatchUpdate | None => mret NO_ERROR end;
        add_entry CAM_INTF_PARM_FD [faceProcMask; wrap_unsigned 32 faces]
          match initCommit with Some answer => commitSetBatch answer | None => mret NO_ERROR end
  end.

(** ** Zoom, sensitivity, rotation *)
Definition setZoom (zoom_level : Z) : qm (V := V) Z :=
  updateParamEntry KEY_ZOOM (fmt_d zoom_level);;
  assign_int mZoomLevel zoom_level;;
  add_entry CAM_INTF_PARM_ZOOM [zoom_level] (mret NO_ERROR).
Definition setZoom_params params : qm (V := V) Z :=
  if negb (zoom_supported cap) || (zoom_ratio_tbl_cnt cap =? 0)%Z then mret NO_ERROR
  else
    let zoomLevel := getInt lb KEY_ZOOM params in
    assign_int mParmZoomLevel zoomLevel;;
    if ((zoomLevel <? 0) || (zoom_ratio_tbl_cnt cap <=? zoomLevel))%Z then mret BAD_VALUE
    else prev ← qgetInt lb KEY_ZOOM;
         if (prev =? zoomLevel)%Z then mret NO_ERROR else setZoom zoomLevel.

Definition setISOValue (str : option string) : qm (V := V) Z :=
  match str with
  | None => mret BAD_VALUE
  | Some s =>
      if String.eqb s ISO_MANUAL then updateParamEntry KEY_QC_ISO_MODE s
      else with_attr ISO_MODES_MAP str (λ s value,
        updateParamEntry KEY_QC_ISO_MODE s;;
        mode ← field_of m_ManualCaptureMode;
        add_entry CAM_INTF_PARM_ISO [if (mode =? 0)%Z then 0%Z else 1%Z; value]
          (assign_int m_isoValue value;; mret NO_ERROR))
  end.
Definition setISOValue_params params : qm (V := V) Z :=
  prev_str ← qget KEY_QC_ISO_MODE; mode ← field_of m_ManualCaptureMode;
  if negb (mode =? 0)%Z then
    let iso_val := property_get "persist.vendor.camera.iso" "" in
    if negb (String.eqb iso_val "") && changed iso_val prev_str then setISOValue (Some iso_val)
    else mret NO_ERROR
  else match get KEY_QC_ISO_MODE params with
       | Some str => if changed str prev_str then setISOValue (Some str) else mret NO_ERROR
       | None => mret NO_ERROR
       end.

Definition setContinuousISO (isoValue : string) : qm (V := V) Z :=
  let iso := property_get "persist.vendor.camera.continuous.iso" "" in
  let continous_iso := if String.eqb iso "" then atoi isoValue else atoi iso in
  if ((0 <=? continous_iso) && (continous_iso <=? max_sensitivity cap))%Z then
    updateParamEntry KEY_QC_CONTINUOUS_ISO isoValue;;
    add_entry CAM_INTF_PARM_ISO [0%Z; continous_iso] (mret NO_ERROR)
  else mret BAD_VALUE.
Definition setContinuousISO_params params : qm (V := V) Z :=
  match get KEY_QC_ISO_MODE params with
  | Some iso =>
      if String.eqb iso ISO_MANUAL then if_changed KEY_QC_CONTINUOUS_ISO params setContinuousISO
      else mret NO_ERROR
  | None => if_changed KEY_QC_CONTINUOUS_ISO params setContinuousISO
  end.

Definition setVideoRotation_params params : qm (V := V) Z :=
  match get KEY_QC_VIDEO_ROTATION params with
  | None => mret NO_ERROR
  | str => with_attr VIDEO_ROTATION_MODES_MAP str (λ s _, updateParamEntry KEY_QC_VIDEO_ROTATION s)
  end.

Definition setRotation_params params : qm (V := V) Z :=
  let rotation := getInt lb KEY_ROTATION params in
  if (rotation =? -1)%Z then mret NO_ERROR
  else if bool_decide (rotation ∈ [0; 90; 180; 270]%Z) then
    qset_int KEY_ROTATION rotation;;
    _ ← ADD_SET_PARAM_ENTRY_TO_BATCH CAM_INTF_META_JPEG_ORIENTATION [rotation];
    assign_int mRotation rotation;; mret NO_ERROR
  else mret BAD_VALUE.

(** ** Flash, locks, switches *)
Definition setFlash (str : option string) : qm (V := V) Z :=
  with_attr FLASH_MODES_MAP str (λ s value,
    updateParamEntry KEY_FLASH_MODE s;; assign_int mFlashValue value;; mret NO_ERROR).
Definition setFlash_params params : qm (V := V) Z :=
  if_changed KEY_FLASH_MODE params (λ str, setFlash (Some str)).

Definition setAecLock (str : option string) : qm (V := V) Z :=
  set_enum KEY_AUTO_EXPOSURE_LOCK TRUE_FALSE_MODES_MAP CAM_INTF_PARM_AEC_LOCK str.
Definition setAecLock_params params : qm (V := V) Z :=
  if_changed KEY_AUTO_EXPOSURE_LOCK params (λ str, setAecLock (Some str)).

Definition setAwbLock (str : option string) : qm (V := V) Z :=
  set_enum KEY_AUTO_WHITEBALANCE_LOCK TRUE_FALSE_MODES_MAP CAM_INTF_PARM_AWB_LOCK str.
Definition setAwbLock_params params : qm (V := V) Z :=
  if_changed KEY_AUTO_WHITEBALANCE_LOCK params (λ str, setAwbLock (Some str)).

Definition setAutoHDR_params params : qm (V := V) Z :=
  prev_str ← qget KEY_QC_AUTO_HDR_ENABLE;
  let prop := property_get "persist.vendor.camera.auto.hdr.enable" VALUE_DISABLE in
  let str := default prop (get KEY_QC_AUTO_HDR_ENABLE params) in
  if changed str prev_str then updateParamEntry KEY_QC_AUTO_HDR_ENABLE str else mret NO_ERROR.

Definition setMCEValue (str : option string) : qm (V := V) Z :=
  set_enum KEY_QC_MEMORY_COLOR_ENHANCEMENT ENABLE_DISABLE_MODES_MAP CAM_INTF_PARM_MCE str.
Definition setMCEValue_params params : qm (V := V) Z :=
  if_changed KEY_QC_MEMORY_COLOR_ENHANCEMENT params (λ str, setMCEValue (Some str)).

Definition setDISValue (str : option string) : qm (V := V) Z :=
  match str, lookupAttr ENABLE_DISABLE_MODES_MAP str with
  | Some s, Some value =>
      assign m_bNeedRestart true;;
      updateParamEntry KEY_QC_DIS s;;
      assign m_bDISEnabled (String.eqb s "enable");;
      add_entry CAM_INTF_PARM_DIS_ENABLE [value] (mret NO_ERROR)
  | _, _ => assign m_bDISEnabled false;; mret BAD_VALUE
  end.
Definition setDISValue_params params : qm (V := V) Z :=
  if_changed KEY_QC_DIS params (λ str, setDISValue (Some str)).

Definition setLensShadeValue (str : option string) : qm (V := V) Z :=
  set_enum KEY_QC_LENSSHADE ENABLE_DISABLE_MODES_MAP CAM_INTF_PARM_ROLLOFF str.
Definition setLensShadeValue_params params : qm (V := V) Z :=
  if_changed KEY_QC_LENSSHADE params (λ str, setLensShadeValue (Some str)).

Definition setFocusMode (str : option string) : qm (V := V) Z :=
  with_attr FOCUS_MODES_MAP str (λ s value,
    assign_int mFocusMode value;;
    updateParamEntry KEY_FOCUS_MODE s;;
    rc ← add_entry CAM_INTF_PARM_FOCUS_MODE [wrap_unsigned 8 value] (mret NO_ERROR);
    (if String.eqb s "infinity" then qset KEY_FOCUS_DISTANCES "Infinity,Infinity,Infinity" else mret ());;
    mret rc).
Definition setFocusMode_params params : qm (V := V) Z :=
  if_changed KEY_FOCUS_MODE params (λ str, setFocusMode (Some str)).

Definition setSelectableZoneAf (str : option string) : qm (V := V) Z :=
  set_enum KEY_QC_SELECTABLE_ZONE_AF FOCUS_ALGO_MAP CAM_INTF_PARM_FOCUS_ALGO_TYPE str.
Definition setSelectableZoneAf_params params : qm (V := V) Z :=
  if_changed KEY_QC_SELECTABLE_ZONE_AF params (λ str, setSelectableZoneAf (Some str)).

Definition setRedeyeReduction (str : option string) : qm (V := V) Z :=
  set_enum KEY_QC_REDEYE_REDUCTION ENABLE_DISABLE_MODES_MAP CAM_INTF_PARM_REDEYE_REDUCTION str.
Definition setRedeyeReduction_params params : qm (V := V) Z :=
  if_changed KEY_QC_REDEYE_REDUCTION params (λ str, setRedeyeReduction (Some str)).

Definition setTintlessValue (str : option string) : qm (V := V) Z :=
  set_enum KEY_QC_TINTLESS_ENABLE ENABLE_DISABLE_MODES_MAP CAM_INTF_PARM_TINTLESS str.
Definition setTintlessValue_params params : qm (V := V) Z :=
  prev_str ← qget KEY_QC_TINTLESS_ENABLE;
  let prop := property_get "persist.vendor.camera.tintless" VALUE_ENABLE in
  match get KEY_QC_TINTLESS_ENABLE params with
  | Some str => if changed str prev_str then setTintlessValue (Some str) else mret NO_ERROR
  | None => (if changed prop prev_str then setTintlessValue (Some prop) else mret NO_ERROR);;
            mret NO_ERROR
  end.
Definition setTintless (enable : bool) : qm (V := V) () :=
  setTintlessValue (Some (if enable then VALUE_ENABLE else VALUE_DISABLE));; mret ().

(** ** Scenes, bracketing and the advanced captures *)
Definition isSupportedSensorHdrSize params : bool :=
  if uint8_property "persist.vendor.camera.zzhdr.enable" then
    size_in_table (zzhdr_sizes_tbl cap) (zzhdr_sizes_tbl_cnt cap) (getPictureSize lb params)
  else true.

Definition setSceneMode (str : option string) : qm (V := V) Z :=
  with_attr SCENE_MODES_MAP str (λ s value,
    updateParamEntry KEY_SCENE_MODE s;;
    sensor ← flag_of m_bSensorHDREnabled; selection ← flag_of m_bSceneSelection;
    if (sensor : bool) then mret NO_ERROR
    else
      (if (selection : bool) then assign_int m_SelectedScene value else mret ());;
      add_entry CAM_INTF_PARM_BESTSHOT_MODE [wrap_unsigned 32 value] (mret NO_ERROR)).

(** The scene that is asked for, after the switch of a recording with HDR. *)
Definition requested_scene params : qm (V := V) (option string) :=
  recording ← flag_of m_bRecordingHint_new; hdr ← flag_of m_bHDREnabled; local ← flag_of m_bLocalHDREnabled;
  if recording && hdr then assign m_bLocalHDREnabled true;; mret (Some SCENE_MODE_AUTO)
  else if negb recording && local then assign m_bLocalHDREnabled false;; mret (Some SCENE_MODE_HDR)
  else mret (get KEY_SCENE_MODE params).

Definition scene_hdr (str : string) params : qm (V := V) () :=
  sensor_mode ← flag_of m_bHDRModeSensor; sensor ← flag_of m_bSensorHDREnabled;
  if String.eqb str SCENE_MODE_HDR then
    if sensor_mode && isSupportedSensorHdrSize params then
      assign m_bSensorHDREnabled true;; assign m_bHDREnabled false
    else assign m_bHDREnabled true
  else
    assign m_bHDREnabled false;;
    if (sensor : bool) then
      assign m_bSensorHDREnabled false;;
      assign m_bNeedRestart true;;
      setSensorSnapshotHDR (Some "off");; mret ()
    else mret ().

Definition setSceneMode_params params : qm (V := V) Z :=
  prev_str ← qget KEY_SCENE_MODE;
  str ← requested_scene params;
  match str with
  | None => mret NO_ERROR
  | Some str =>
      if changed str prev_str then
        (if String.eqb str SCENE_MODE_AUTO then assign m_bSceneTransitionAuto true else mret ());;
        scene_hdr str params;;
        sensor ← flag_of m_bSensorHDREnabled; hdr ← flag_of m_bHDREnabled;
        (if (sensor : bool) then setSensorSnapshotHDR (Some "on");; assign m_bNeedRestart true
         else if hdr || bool_decide (prev_str = Some SCENE_MODE_HDR) then assign m_bNeedRestart true
         else mret ());;
        setSceneMode (Some str)
      else mret NO_ERROR
  end.

(** [strlcpy] into an array of [size] bytes. *)
Definition strlcpy (size : nat) (s : string) : string := String.substring 0 (size - 1) s.

Definition setAEBracket (str : option string) : qm (V := V) Z :=
  match str with
  | None => mret NO_ERROR
  | Some aecBracketStr =>
      exposures ← qget KEY_QC_CAPTURE_BURST_EXPOSURE;
      let '(enabled, client) :=
        match lookupAttr BRACKETING_MODES_MAP str, exposures with
        | Some 1%Z, Some values => (true, (CAM_EXP_BRACKETING_ON, strlcpy (Z.to_nat MAX_EXP_BRACKETING_LENGTH) values))
        | _, _ => (false, (CAM_EXP_BRACKETING_OFF, ""))
        end in
      assign m_bAeBracketingEnabled enabled;;
      modify_q (with_bracket client);;
      updateParamEntry KEY_QC_AE_BRACKET_HDR aecBracketStr;; mret NO_ERROR
  end.
Definition setAEBracket_params params : qm (V := V) Z :=
  hdr ← isHDREnabled;
  if (hdr : bool) then setAEBracket (Some AE_BRACKET_OFF)
  else
    match get KEY_QC_CAPTURE_BURST_EXPOSURE params with
    | Some expStr => qset KEY_QC_CAPTURE_BURST_EXPOSURE expStr
    | None =>
        let prop := property_get "persist.vendor.capture.burst.exposures" "" in
        if String.eqb prop "" then qremove KEY_QC_CAPTURE_BURST_EXPOSURE
        else qset KEY_QC_CAPTURE_BURST_EXPOSURE prop
    end;;
    if_changed KEY_QC_AE_BRACKET_HDR params (λ str, setAEBracket (Some str)).

(** Remember that the mode is on and store its text. *)
Definition set_switch (key : string) (map : list (string * Z)) (f : flag) (str : option string) : qm (V := V) Z :=
  with_attr map str (λ s value,
    assign f (negb (value =? 0)%Z);; updateParamEntry key s;; mret NO_ERROR).

(** Only with a feature of the back end, and with a restart. *)
Definition restart_if_changed (bits : Z) (key : string) params (k : string → qm (V := V) Z) : qm (V := V) Z :=
  if negb (feature bits) then mret NO_ERROR
  else if_changed key params (λ str, assign m_bNeedRestart true;; k str).

Definition setAFBracket (str : option string) : qm (V := V) Z :=
  set_switch KEY_QC_AF_BRACKET AF_BRACKETING_MODES_MAP m_bAFBracketingOn str.
Definition setAFBracket_params params : qm (V := V) Z :=
  restart_if_changed (Z.lor CAM_QCOM_FEATURE_REFOCUS CAM_QCOM_FEATURE_UBIFOCUS)
    KEY_QC_AF_BRACKET params (λ str, setAFBracket (Some str)).

(** Unlike the other switches this one does not report an unknown value. *)
Definition setReFocus (str : option string) : qm (V := V) Z :=
  match str, lookupAttr RE_FOCUS_MODES_MAP str with
  | Some s, Some value =>
      assign m_bReFocusOn (negb (value =? 0)%Z);; updateParamEntry KEY_QC_RE_FOCUS s;; mret NO_ERROR
  | _, _ => mret NO_ERROR
  end.
Definition setReFocus_params params : qm (V := V) Z :=
  restart_if_changed (Z.lor CAM_QCOM_FEATURE_REFOCUS CAM_QCOM_FEATURE_UBIFOCUS)
    KEY_QC_RE_FOCUS params (λ str, setReFocus (Some str)).

Definition setChromaFlash (str : option string) : qm (V := V) Z :=
  set_switch KEY_QC_CHROMA_FLASH CHROMA_FLASH_MODES_MAP m_bChromaFlashOn str.
Definition setChromaFlash_params params : qm (V := V) Z :=
  restart_if_changed CAM_QCOM_FEATURE_CHROMA_FLASH
    KEY_QC_CHROMA_FLASH params (λ str, setChromaFlash (Some str)).

Definition setOptiZoom (str : option string) : qm (V := V) Z :=
  set_switch KEY_QC_OPTI_ZOOM OPTI_ZOOM_MODES_MAP m_bOptiZoomOn str.
Definition setOptiZoom_params params : qm (V := V) Z :=
  restart_if_changed CAM_QCOM_FEATURE_OPTIZOOM
    KEY_QC_OPTI_ZOOM params (λ str, setOptiZoom (Some str)).

Definition setTruePortrait (str : option string) : qm (V := V) Z :=
  with_attr TRUE_PORTRAIT_MODES_MAP str (λ s value,
    assign m_bTruePortraitOn (negb (value =? 0)%Z);;
    updateParamEntry KEY_QC_TRUE_PORTRAIT s;;
    on ← flag_of m_bFaceDetectionOn;
    setFaceDetection on None;; mret NO_ERROR).
Definition setTruePortrait_params params : qm (V := V) Z :=
  if negb (feature CAM_QCOM_FEATURE_TRUEPORTRAIT) then mret NO_ERROR
  else if_changed KEY_QC_TRUE_PORTRAIT params (λ str, setTruePortrait (Some str)).

Definition setHDRMode (str : option string) : qm (V := V) Z :=
  with_attr HDR_MODES_MAP str (λ s _,
    scene ← qget KEY_SCENE_MODE;
    assign m_bHDRModeSensor (strncmp_eq s HDR_MODE_SENSOR);;
    updateParamEntry KEY_QC_HDR_MODE s;;
    (if match scene with Some m => strncmp_eq m SCENE_MODE_HDR | None => false end then
       updateParamEntry KEY_SCENE_MODE SCENE_MODE_AUTO;; assign m_bNeedRestart true
     else mret ());;
    mret NO_ERROR).

(** The third argument of [strncmp] is the length of [HDR_MODE_MULTI_FRAME],
    but both tests compare with [HDR_MODE_SENSOR]. *)
Definition setHDRMode_params params : qm (V := V) Z :=
  let modes := Z.land (feature_mask cap) (Z.lor CAM_QCOM_FEATURE_SENSOR_HDR CAM_QCOM_FEATURE_HDR) in
  match get KEY_QC_HDR_MODE params with
  | None => mret NO_ERROR
  | Some str =>
      if (modes =? CAM_QCOM_FEATURE_SENSOR_HDR)%Z && negb (strncmp_eq str HDR_MODE_SENSOR) then mret NO_ERROR
      else if (modes =? CAM_QCOM_FEATURE_HDR)%Z && negb (String.eqb str HDR_MODE_SENSOR) then mret NO_ERROR
      else if (modes =? 0)%Z then mret NO_ERROR
      else if_changed KEY_QC_HDR_MODE params (λ str, setHDRMode (Some str))
  end.

Definition setHDRNeed1x (str : option string) : qm (V := V) Z :=
  with_attr TRUE_FALSE_MODES_MAP str (λ s _,
    updateParamEntry KEY_QC_HDR_NEED_1X s;;
    let b := strncmp_eq s VALUE_TRUE in
    assign m_bHDR1xFrameEnabled b;;
    assign m_bNeedRestart true;;
    add_entry CAM_INTF_PARM_HDR_NEED_1X [Z.b2z b] (mret NO_ERROR)).
Definition setHDRNeed1x_params params : qm (V := V) Z :=
  sensor ← flag_of m_bHDRModeSensor;
  if (sensor : bool) then mret NO_ERROR
  else if_changed KEY_QC_HDR_NEED_1X params (λ str, setHDRNeed1x (Some str)).

Definition setToneMapMode (enable : bool) (initCommit : option Z) : qm (V := V) Z :=
  match initCommit with Some _ => initBatchUpdate | None => mret NO_ERROR end;;
  add_entry CAM_INTF_PARM_TONE_MAP_MODE [Z.b2z enable]
    match initCommit with Some answer => commitSetBatch answer | None => mret NO_ERROR end.

Definition setSeeMore (str : option string) : qm (V := V) Z :=
  with_attr ON_OFF_MODES_MAP str (λ s value,
    let on := negb (value =? 0)%Z in
    assign m_bSeeMoreOn on;;
    assign m_bStillMoreOn on;;
    ltm ← flag_of m_bLtmForSeeMoreEnabled;
    (if (ltm : bool) then mret NO_ERROR else setToneMapMode (negb on) None);;
    updateParamEntry KEY_QC_SEE_MORE s;; mret NO_ERROR).
Definition setSeeMore_params params : qm (V := V) Z :=
  restart_if_changed CAM_QCOM_FEATURE_LLVD KEY_QC_SEE_MORE params (λ str, setSeeMore (Some str)).

Definition setNoiseReductionMode (str : option string) : qm (V := V) Z :=
  with_attr NOISE_REDUCTION_MODES_MAP str (λ s _,
    assign m_bHighQualityNoiseReductionMode (strncmp_eq s VALUE_HIGH_QUALITY);;
    updateParamEntry KEY_QC_NOISE_REDUCTION_MODE s;; mret NO_ERROR).
Definition setNoiseReductionMode_params params : qm (V := V) Z :=
  restart_if_changed CAM_QTI_FEATURE_SW_TNR
    KEY_QC_NOISE_REDUCTION_MODE params (λ str, setNoiseReductionMode (Some str)).

Definition setStillMore (str : option string) : qm (V := V) Z :=
  set_switch KEY_QC_STILL_MORE STILL_MORE_MODES_MAP m_bStillMoreOn str.
Definition setStillMore_params params : qm (V := V) Z :=
  restart_if_changed CAM_QCOM_FEATURE_STILLMORE
    KEY_QC_STILL_MORE params (λ str, setStillMore (Some str)).

(** ** Values that are copied to the map *)
Definition copy_or_remove params (key : string) : qm (V := V) () :=
  match get key params with Some v => qset key v | None => qremove key end.

Definition setGpsLocation_params params : qm (V := V) Z :=
  copy_or_remove params KEY_GPS_PROCESSING_METHOD;;
  copy_or_remove params KEY_GPS_LATITUDE;;
  copy_or_remove params KEY_QC_GPS_LATITUDE_REF;;
  copy_or_remove params KEY_GPS_LONGITUDE;;
  copy_or_remove params KEY_QC_GPS_LONGITUDE_REF;;
  copy_or_remove params KEY_QC_GPS_ALTITUDE_REF;;
  copy_or_remove params KEY_GPS_ALTITUDE;;
  copy_or_remove params KEY_QC_GPS_STATUS;;
  copy_or_remove params KEY_GPS_TIMESTAMP;; mret NO_ERROR.

Definition setCameraMode_params params : qm (V := V) Z :=
  copy_or_remove params KEY_QC_CAMERA_MODE;; mret NO_ERROR.

Definition setSnapshotFDReq_params params : qm (V := V) Z :=
  qset KEY_QC_SNAPSHOT_FD_DATA
    (default (property_get "persist.vendor.camera.snapshot.fd" "0")
       (get KEY_QC_SNAPSHOT_FD_DATA params));; mret NO_ERROR.

Definition extra_frames (sync : bool) (n : Z) : Z :=
  if sync then wrap_unsigned 32 (n + EXTRA_FRAME_SYNC_BUFFERS) else n.

Definition setZslAttributes_params params : qm (V := V) Z :=
  sync ← flag_of m_bFrameSyncEnabled;
  qset KEY_QC_ZSL_BURST_INTERVAL
    (default (property_get "persist.vendor.camera.zsl.interval" "1")
       (get KEY_QC_ZSL_BURST_INTERVAL params));;
  match get KEY_QC_ZSL_BURST_LOOKBACK params with
  | Some str => qset KEY_QC_ZSL_BURST_LOOKBACK str
  | None =>
      let n := wrap_unsigned 32 (atoi (property_get "persist.vendor.camera.zsl.backlookcnt" "2")) in
      qset_int KEY_QC_ZSL_BURST_LOOKBACK (wrap_signed 32 (extra_frames sync n))
  end;;
  match get KEY_QC_ZSL_QUEUE_DEPTH params with
  | Some str => qset KEY_QC_ZSL_QUEUE_DEPTH str
  | None =>
      let n := wrap_unsigned 32 (atoi (property_get "persist.vendor.camera.zsl.queuedepth" "2")) in
      qset_int KEY_QC_ZSL_QUEUE_DEPTH (wrap_signed 32 (extra_frames sync n))
  end;;
  mret NO_ERROR.

Definition set_flip (key : string) (f : flag) params : qm (V := V) () :=
  prev_val ← qget key;
  match get key params with
  | Some str =>
      if changed str prev_val then
        match lookupAttr FLIP_MODES_MAP (Some str) with
        | Some _ => qset key str;; assign f true
        | None => mret ()
        end
      else mret ()
  | None => mret ()
  end.

Definition setFlip_params params : qm (V := V) Z :=
  if negb (feature CAM_QCOM_FEATURE_FLIP) then mret NO_ERROR
  else
    set_flip KEY_QC_PREVIEW_FLIP m_bPreviewFlipChanged params;;
    set_flip KEY_QC_VIDEO_FLIP m_bVideoFlipChanged params;;
    set_flip KEY_QC_SNAPSHOT_PICTURE_FLIP m_bSnapshotFlipChanged params;; mret NO_ERROR.

Definition setLongshotParam_params params : qm (V := V) Z :=
  prev_str ← qget KEY_QC_LONG_SHOT;
  match get KEY_QC_LONG_SHOT params with
  | Some str =>
      if changed str prev_str then
        qset KEY_QC_LONG_SHOT str;;
        (if String.eqb str "off" && bool_decide (prev_str = Some "on")
         then assign m_bNeedRestart true else mret ());; mret NO_ERROR
      else mret NO_ERROR
  | None => mret NO_ERROR
  end.

Definition setNoDisplayMode_params params : qm (V := V) Z :=
  prev_str ← qget KEY_QC_NO_DISPLAY_MODE;
  mode ← field_of m_relCamMode; no_display ← flag_of m_bNoDisplayMode;
  if (mode =? CAM_MODE_SECONDARY)%Z then
    (if negb no_display then
       qset_int KEY_QC_NO_DISPLAY_MODE 1;;
       assign m_bNoDisplayMode true;; assign m_bNeedRestart true
     else mret ());; mret NO_ERROR
  else
    match get KEY_QC_NO_DISPLAY_MODE params with
    | Some str_val =>
        if changed str_val prev_str then
          assign m_bNoDisplayMode (negb (atoi str_val =? 0)%Z);;
          qset KEY_QC_NO_DISPLAY_MODE str_val;; assign m_bNeedRestart true
        else mret ()
    | None =>
        assign m_bNoDisplayMode
          (negb (atoi (property_get "persist.vendor.camera.no-display" "0") =? 0)%Z)
    end;; mret NO_ERROR.

(** ** ZSL and the recording hint *)
Definition setZslMode (value : bool) : qm (V := V) Z :=
  force ← flag_of m_bForceZslMode; zsl ← flag_of m_bZslMode;
  if (force : bool) then
    if (zsl : bool) then mret NO_ERROR
    else
      qset KEY_QC_ZSL VALUE_ON;;
      assign m_bZslMode_new true;; assign m_bZslMode true;; assign m_bNeedRestart true;;
      add_entry CAM_INTF_PARM_ZSL_MODE [1%Z] (mret NO_ERROR)
  else
    assign m_bZslMode_new value;;
    add_entry CAM_INTF_PARM_ZSL_MODE [Z.b2z value] (mret NO_ERROR).
Definition setZslMode_params params : qm (V := V) Z :=
  prev_val ← qget KEY_QC_ZSL; force ← flag_of m_bForceZslMode; zsl ← flag_of m_bZslMode;
  if (force : bool) then
    (if (zsl : bool) then mret () else qset KEY_QC_ZSL VALUE_ON;; setZslMode true;; mret ());;
    mret NO_ERROR
  else match get KEY_QC_ZSL params with
       | Some str_val =>
           if changed str_val prev_val then
             match lookupAttr ON_OFF_MODES_MAP (Some str_val) with
             | Some value =>
                 qset KEY_QC_ZSL str_val;;
                 rc ← setZslMode (negb (value =? 0)%Z);
                 assign m_bNeedRestart true;; mret rc
             | None => mret BAD_VALUE
             end
           else mret NO_ERROR
       | None => mret NO_ERROR
       end.

Definition updateZSLModeValue (value : bool) (answer : Z) : qm (V := V) Z :=
  initBatchUpdate;;
  rc ← setZslMode value;
  if (rc =? NO_ERROR)%Z then commitSetBatch answer else mret rc.

Definition setRecordingHintValue (value : Z) : qm (V := V) Z :=
  let newValue := (0 <? value)%Z in
  hint ← flag_of m_bRecordingHint;
  (if negb (Bool.eqb hint newValue) then
     assign m_bNeedRestart true;; assign m_bRecordingHint_new newValue
   else assign m_bRecordingHint_new hint);;
  add_entry CAM_INTF_PARM_RECORDING_HINT [value] (mret NO_ERROR).

Definition setRecordingHint_params params : qm (V := V) Z :=
  if_changed KEY_RECORDING_HINT params (λ str,
    with_attr TRUE_FALSE_MODES_MAP (Some str) (λ s value,
      updateParamEntry KEY_RECORDING_HINT s;;
      setRecordingHintValue value;;
      fd ← flag_of m_bFaceDetectionOn;
      (if (fd : bool) then
         (if (fdModeInVideo =? 0)%Z then setFaceDetection (negb (0 <? value)%Z) None
          else setFaceDetection true None);; mret ()
       else mret ());;
      dis ← flag_of m_bDISEnabled;
      (if (dis : bool) then setDISValue (Some VALUE_ENABLE);; mret () else mret ());;
      mret NO_ERROR)).

Definition updateRecordingHintValue (value answer : Z) : qm (V := V) Z :=
  initBatchUpdate;;
  rc ← setRecordingHintValue value;
  if negb (rc =? NO_ERROR)%Z then mret rc
  else
    dis ← flag_of m_bDISEnabled;
    (if dis && (value =? 1)%Z then setDISValue (Some VALUE_ENABLE);; mret () else mret ());;
    commitSetBatch answer.

Definition setSceneSelectionMode_params params : qm (V := V) Z :=
  zsl ← flag_of m_bZslMode_new;
  if_changed KEY_QC_SCENE_SELECTION params (λ str,
    with_attr ENABLE_DISABLE_MODES_MAP (Some str) (λ s value,
      let on := negb (value =? 0)%Z in
      if on && negb zsl then mret BAD_VALUE
      else
        updateParamEntry KEY_QC_SCENE_SELECTION s;;
        assign m_bNeedRestart true;; assign m_bSceneSelection on;; mret NO_ERROR)).

Definition setRdiMode (str : option string) : qm (V := V) Z :=
  with_attr ENABLE_DISABLE_MODES_MAP str (λ s value,
    updateParamEntry KEY_QC_RDI_MODE s;;
    assign m_bRdiMode (negb (value =? 0)%Z);;
    add_entry CAM_INTF_PARM_RDI_MODE [value] (mret NO_ERROR)).

(** The new text if it differs from the current one, else the property if that does. *)
Definition param_or_property (key prop : string) params (k : string → qm (V := V) Z) : qm (V := V) Z :=
  prev_str ← qget key;
  (match get key params with
   | Some str => if changed str prev_str then k str
                 else if changed prop prev_str then k prop else mret NO_ERROR
   | None => if changed prop prev_str then k prop else mret NO_ERROR
   end);; mret NO_ERROR.

Definition setRdiMode_params params : qm (V := V) Z :=
  param_or_property KEY_QC_RDI_MODE
    (property_get "persist.vendor.camera.rdi.mode" VALUE_DISABLE) params (λ s, setRdiMode (Some s)).

Definition setSecureMode (str : option string) : qm (V := V) Z :=
  with_attr ENABLE_DISABLE_MODES_MAP str (λ s value,
    updateParamEntry KEY_QC_SECURE_MODE s;;
    assign m_bSecureMode (negb (value =? 0)%Z);; mret NO_ERROR).
Definition setSecureMode_params params : qm (V := V) Z :=
  param_or_property KEY_QC_SECURE_MODE
    (property_get "persist.vendor.camera.secure.mode" VALUE_DISABLE) params (λ s, setSecureMode (Some s)).

(** ** Noise reduction *)
Definition process_plate (prop : string) : Z :=
  if String.eqb prop "" then CAM_WAVELET_DENOISE_CBCR_ONLY
  else match atoi prop with
       | 0%Z => CAM_WAVELET_DENOISE_YCBCR_PLANE
       | 1%Z => CAM_WAVELET_DENOISE_CBCR_ONLY
       | 2%Z => CAM_WAVELET_DENOISE_STREAMLINE_YCBCR
       | 3%Z => CAM_WAVELET_DENOISE_STREAMLINED_CBCR
       | _ => CAM_WAVELET_DENOISE_CBCR_ONLY
       end.
Definition getDenoiseProcessPlate (type : Z) : Z :=
  process_plate
    (if (type =? CAM_INTF_PARM_WAVELET_DENOISE)%Z then property_get "persist.vendor.denoise.process.plates" ""
     else if (type =? CAM_INTF_PARM_TEMPORAL_DENOISE)%Z then property_get "persist.vendor.tnr.process.plates" ""
     else "").

Definition setWaveletDenoise (str : option string) : qm (V := V) Z :=
  if negb (feature CAM_QCOM_FEATURE_DENOISE2D) then mret NO_ERROR
  else with_attr DENOISE_ON_OFF_MODES_MAP str (λ s value,
    updateParamEntry KEY_QC_DENOISE s;;
    let on := negb (value =? 0)%Z in
    assign m_bWNROn on;;
    add_entry CAM_INTF_PARM_WAVELET_DENOISE
      [wrap_unsigned 8 value; if on then getDenoiseProcessPlate CAM_INTF_PARM_WAVELET_DENOISE else 0%Z]
      (mret NO_ERROR)).
Definition setWaveletDenoise_params params : qm (V := V) Z :=
  if_changed KEY_QC_DENOISE params (λ str, setWaveletDenoise (Some str)).

Definition tnr_property (key : string) : string := property_get key VALUE_OFF.

(** What is asked for; the result is whether to go on. *)
Definition tnr_request params : qm (V := V) bool :=
  recording ← flag_of m_bRecordingHint_new;
  prev_str ← qget KEY_QC_TNR_MODE; video_prev_str ← qget KEY_QC_VIDEO_TNR_MODE;
  if (recording : bool) then
    match get KEY_QC_VIDEO_TNR_MODE params with
    | Some video_str =>
        if changed video_str video_prev_str then
          let on := String.eqb video_str VALUE_ON in
          assign m_bTNRVideoOn on;; assign m_bTNRPreviewOn on;;
          updateParamEntry KEY_QC_VIDEO_TNR_MODE video_str;; mret true
        else mret false
    | None => mret true
    end
  else
    match get KEY_QC_TNR_MODE params with
    | Some str =>
        if changed str prev_str then
          assign m_bTNRPreviewOn (String.eqb str VALUE_ON);;
          updateParamEntry KEY_QC_TNR_MODE str;; mret true
        else mret false
    | None => mret true
    end.

(** The properties decide where the application did not say [on]. *)
Definition tnr_properties params : qm (V := V) () :=
  recording ← flag_of m_bRecordingHint_new;
  let preview :=
    let v := tnr_property "persist.vendor.camera.tnr.preview" in
    assign m_bTNRPreviewOn (String.eqb v VALUE_ON);; updateParamEntry KEY_QC_TNR_MODE v;; mret () in
  (if (recording : bool) then
     if bool_decide (get KEY_QC_VIDEO_TNR_MODE params = Some VALUE_ON) then mret ()
     else
       let v := tnr_property "persist.vendor.camera.tnr.video" in
       assign m_bTNRVideoOn (String.eqb v VALUE_ON);; updateParamEntry KEY_QC_VIDEO_TNR_MODE v;; preview
   else if bool_decide (get KEY_QC_TNR_MODE params = Some VALUE_ON) then mret ()
        else preview);;
  assign m_bTNRSnapshotOn (String.eqb (tnr_property "persist.vendor.camera.tnr.snapshot") VALUE_ON).

Definition setTemporalDenoise_params params : qm (V := V) Z :=
  if negb (feature CAM_QCOM_FEATURE_CPP_TNR) then mret NO_ERROR
  else
    prev_video ← flag_of m_bTNRVideoOn; prev_preview ← flag_of m_bTNRPreviewOn; prev_snap ← flag_of m_bTNRSnapshotOn;
    let tnr_cds := uint8_property "persist.vendor.camera.tnr_cds" in
    go ← tnr_request params;
    if negb go then mret NO_ERROR
    else
      tnr_properties params;;
      video ← flag_of m_bTNRVideoOn; preview ← flag_of m_bTNRPreviewOn; snap ← flag_of m_bTNRSnapshotOn;
      let on := video || preview || snap in
      let send_tnr :=
        if negb (Bool.eqb video prev_video) || negb (Bool.eqb preview prev_preview)
           || negb (Bool.eqb prev_snap snap) then
          add_entry CAM_INTF_PARM_TEMPORAL_DENOISE
            (if on then [1%Z; getDenoiseProcessPlate CAM_INTF_PARM_TEMPORAL_DENOISE] else [0%Z; 0%Z])
            (mret NO_ERROR)
        else mret NO_ERROR in
      if on && negb tnr_cds then
        match lookupAttr CDS_MODES_MAP (Some CDS_MODE_OFF) with
        | Some cds_mode =>
            updateParamEntry KEY_QC_VIDEO_CDS_MODE CDS_MODE_OFF;;
            (if (preview : bool) then updateParamEntry KEY_QC_CDS_MODE CDS_MODE_OFF;; mret () else mret ());;
            add_entry CAM_INTF_PARM_CDS_MODE [cds_mode]
              (assign_int mCds_mode cds_mode;; send_tnr)
        | None => send_tnr
        end
      else send_tnr.

Definition set_cds (key text : string) (restart : bool) : qm (V := V) Z :=
  with_attr CDS_MODES_MAP (Some text) (λ s cds_mode,
    updateParamEntry key s;;
    add_entry CAM_INTF_PARM_CDS_MODE [cds_mode]
      (assign_int mCds_mode cds_mode;;
       (if restart then assign m_bNeedRestart true else mret ());; mret NO_ERROR)).

Definition setCDSMode_params params : qm (V := V) Z :=
  recording ← flag_of m_bRecordingHint_new;
  let '(key, prop) := if (recording : bool) then (KEY_QC_VIDEO_CDS_MODE, "persist.vendor.camera.video.CDS")
                      else (KEY_QC_CDS_MODE, "persist.vendor.camera.CDS") in
  match get key params with
  | Some _ => if_changed key params (λ str, set_cds key str true)
  | None => set_cds key (property_get prop CDS_MODE_OFF) false
  end.

Definition setMobicat_params (_ : V) : qm (V := V) Z :=
  let enableMobi := wrap_unsigned 8 (atoi (property_get "persist.vendor.camera.mobicat" "0")) in
  if (enableMobi =? 0)%Z then assign_int m_MobiMask enableMobi;; mret NO_ERROR
  else
    add_entry CAM_INTF_PARM_SET_VFE_COMMAND [2; 0; 1]%Z
      (rc ← add_entry CAM_INTF_PARM_SET_PP_COMMAND [2; 0; 1]%Z (mret NO_ERROR);
       assign_int m_MobiMask enableMobi;; mret rc).

Definition setInitialExposureIndex_params params : qm (V := V) Z :=
  prev_str ← qget KEY_QC_INITIAL_EXPOSURE_INDEX;
  let prop := property_get "persist.vendor.camera.initial.exp.val" "" in
  let str := match get KEY_QC_INITIAL_EXPOSURE_INDEX params with
             | Some str => Some str
             | None => if String.eqb prop "" then None else Some prop
             end in
  match str with
  | Some s =>
      if changed s prev_str && (0 <=? atoi s)%Z then
        updateParamEntry KEY_QC_INITIAL_EXPOSURE_INDEX s;;
        add_entry CAM_INTF_PARM_INITIAL_EXPOSURE_INDEX [atoi s] (mret NO_ERROR)
      else mret NO_ERROR
  | None => mret NO_ERROR
  end.

Definition setInstantAEC (value : Z) (initCommit : option Z) : qm (V := V) Z :=
  match initCommit with Some _ => initBatchUpdate | None => mret NO_ERROR end;;
  add_entry CAM_INTF_PARM_INSTANT_AEC [value]
    (rc ← match initCommit with Some answer => commitSetBatch answer | None => mret NO_ERROR end;
     if negb (rc =? NO_ERROR)%Z then mret rc
     else assign m_bInstantAEC (negb (value =? 0)%Z);; mret rc).

(** The value to send, if there is a new one; the error if it is unknown. *)
Definition instant_value (key prop : string) (map : list (string * Z)) params :
    qm (V := V) (option (option Z)) :=
  prev_str ← qget key;
  let str := default prop (get key params) in
  if changed str prev_str then
    match lookupAttr map (Some str) with
    | Some value => updateParamEntry key str;; mret (Some (Some value))
    | None => mret None
    end
  else mret (Some None).

(** A number of frames from a property. *)
Definition frame_bound (f : field) (key : string) : qm (V := V) Z :=
  let n := atoi (property_get key "7") in
  if (0 <=? n)%Z then assign_int f (wrap_unsigned 8 n);; mret NO_ERROR else mret BAD_VALUE.

Definition setInstantCapture_params params : qm (V := V) Z :=
  v ← instant_value KEY_QC_INSTANT_CAPTURE
        (property_get "persist.vendor.camera.instant.capture" KEY_QC_INSTANT_CAPTURE_DISABLE)
        INSTANT_CAPTURE_MODES_MAP params;
  match v with
  | None => mret BAD_VALUE
  | Some v =>
      match v with
      | Some value =>
          assign m_bInstantCapture (0 <? value)%Z;;
          setInstantAEC (wrap_unsigned 8 value) None;; mret ()
      | None => mret ()
      end;;
      on ← flag_of m_bInstantCapture;
      if (on : bool) then frame_bound mAecFrameBound "persist.vendor.camera.ae.capture.bound"
      else mret NO_ERROR
  end.

Definition setInstantAEC_params params : qm (V := V) Z :=
  capture ← flag_of m_bInstantCapture;
  v ← (if (capture : bool) then mret (Some None)
       else instant_value KEY_QC_INSTANT_AEC
              (property_get "persist.vendor.camera.instant.aec" KEY_QC_INSTANT_AEC_DISABLE)
              INSTANT_AEC_MODES_MAP params);
  match v with
  | None => mret BAD_VALUE
  | Some v =>
      match v with
      | Some value => setInstantAEC (wrap_unsigned 8 value) None;; mret ()
      | None => mret ()
      end;;
      on ← flag_of m_bInstantAEC;
      if (on : bool) then
        frame_bound mAecSkipDisplayFrameBound "persist.vendor.camera.ae.instant.bound"
      else mret NO_ERROR
  end.

(** The value is an [int8_t], also when it comes from the property. *)
Definition setCacheVideoBuffers (str : option string) : qm (V := V) Z :=
  match str with
  | None => mret BAD_VALUE
  | Some s =>
      let v := default NAME_NOT_FOUND (lookupAttr ENABLE_DISABLE_MODES_MAP str) in
      let prop := property_get "persist.vendor.camera.mem.usecache" "" in
      let v := if String.eqb prop "" then v else wrap_signed 8 (atoi prop) in
      if (v =? NAME_NOT_FOUND)%Z then mret BAD_VALUE
      else updateParamEntry KEY_QC_CACHE_VIDEO_BUFFERS (if String.eqb prop "" then s else prop)
  end.
Definition setCacheVideoBuffers_params params : qm (V := V) Z :=
  if_changed KEY_QC_CACHE_VIDEO_BUFFERS params (λ str, setCacheVideoBuffers (Some str)).

Definition setLedCalibration (str : option string) : qm (V := V) Z :=
  with_attr LED_CALIBRATION_MODE_MAP str (λ s value,
    assign_int m_ledCalibrationMode value;;
    updateParamEntry KEY_QC_LED_CALIBRATION_MODES s;;
    add_entry CAM_INTF_PARM_LED_CALIBRATION [value] (mret NO_ERROR)).
Definition setLedCalibration_params params : qm (V := V) Z :=
  prev_str ← qget KEY_QC_LED_CALIBRATION_MODES;
  let prop := property_get "persist.vendor.camera.led_calib_mode" "0" in
  match get KEY_QC_LED_CALIBRATION_MODES params with
  | Some str => if changed str prev_str then setLedCalibration (Some str) else mret NO_ERROR
  | None => if negb (String.eqb prop "") && changed prop prev_str then setLedCalibration (Some prop)
            else mret NO_ERROR
  end.

(** ** Settings that follow from others *)
Definition setVideoBatchSize : qm (V := V) () :=
  batch ← field_of mBufBatchCnt; size ← reads (λ s, getVideoSize lb (q_map s));
  assign_int mVideoBatchSize 0%Z;;
  if negb (batch =? 0)%Z || (1920 <? size.1)%Z || (1080 <? size.2)%Z then mret ()
  else
    let n := wrap_signed 8 (atoi (property_get "persist.vendor.camera.video.batchsize" "0")) in
    let n := if (CAMERA_MAX_CONSUMER_BATCH_BUFFER_SIZE <? n)%Z then CAMERA_MAX_CONSUMER_BATCH_BUFFER_SIZE
             else if (n <=? 2)%Z then 0%Z else n in
    assign_int mVideoBatchSize n;; qset_int KEY_QC_VIDEO_BATCH_SIZE n.

Definition setLowLightCapture : qm (V := V) () :=
  let on := (0 <? atoi (property_get "persist.vendor.camera.llc" "0"))%Z in
  assign m_LLCaptureEnabled on;;
  if on then mret () else assign_int m_LowLightLevel 0%Z.

Definition setAdvancedCaptureMode : qm (V := V) Z :=
  value ← isAdvCamFeaturesEnabled;
  add_entry CAM_INTF_PARM_ADV_CAPTURE_MODE [Z.b2z value] (mret NO_ERROR).

Definition flash_value : qm (V := V) Z :=
  hdr ← isHDREnabled; aeb ← flag_of m_bAeBracketingEnabled; af ← flag_of m_bAFBracketingOn;
  opti ← flag_of m_bOptiZoomOn; re ← flag_of m_bReFocusOn; still ← flag_of m_bStillMoreOn; see ← flag_of m_bSeeMoreOn;
  chroma ← flag_of m_bChromaFlashOn; flash ← field_of mFlashValue;
  mret (if hdr || aeb || af || opti || re || (still && negb see) then CAM_FLASH_MODE_OFF
        else if (chroma : bool) then CAM_FLASH_MODE_ON else flash).

Definition updateFlash (commitSettings : option Z) : qm (V := V) Z :=
  match commitSettings with Some _ => initBatchUpdate | None => mret NO_ERROR end;;
  value ← flash_value; daemon ← field_of mFlashDaemonValue;
  let commit := match commitSettings with Some answer => commitSetBatch answer | None => mret NO_ERROR end in
  if (value =? daemon)%Z then commit
  else add_entry CAM_INTF_PARM_LED_MODE [value] (assign_int mFlashDaemonValue value;; commit).

Definition setHDRSceneEnable (bflag : bool) (answer : Z) : qm (V := V) () :=
  old ← flag_of m_HDRSceneEnabled;
  assign m_HDRSceneEnabled bflag;;
  if Bool.eqb old bflag then mret () else updateFlash (Some answer);; mret ().

(** ** Operations that commit by themselves *)
Definition set3ALock (lock3A : bool) (answer : Z) : qm (V := V) Z :=
  initBatchUpdate;;
  ubi ← isUbiFocusEnabled; re ← isUbiRefocus; opti ← isOptiZoomEnabled; still ← flag_of m_bStillMoreOn;
  focus ← qget KEY_FOCUS_MODE;
  let focus_mode :=
    if lock3A then
      if ubi || re then CAM_FOCUS_MODE_INFINITY
      else if opti || still then CAM_FOCUS_MODE_FIXED else CAM_FOCUS_MODE_AUTO
    else default CAM_FOCUS_MODE_AUTO (lookupAttr FOCUS_MODES_MAP focus) in
  add_entry CAM_INTF_PARM_AWB_LOCK [Z.b2z lock3A]
    (add_entry CAM_INTF_PARM_AEC_LOCK [Z.b2z lock3A]
       (add_entry CAM_INTF_PARM_FOCUS_MODE [focus_mode] (commitSetBatch answer))).

Definition setAndCommitZoom (zoom_level answer : Z) : qm (V := V) Z :=
  initBatchUpdate;;
  add_entry CAM_INTF_PARM_ZOOM [zoom_level]
    (rc ← commitSetBatch answer; assign_int mZoomLevel zoom_level;; mret rc).

(** The flag changes only if the back end accepts it. *)
Definition commit_switch (parm : Z) (f : flag) (enable : bool) (answer : Z) : qm (V := V) Z :=
  initBatchUpdate;;
  add_entry parm [Z.b2z enable]
    (rc ← commitSetBatch answer;
     if negb (rc =? NO_ERROR)%Z then mret rc else assign f enable;; mret rc).
Definition setLongshotEnable : bool → Z → qm (V := V) Z :=
  commit_switch CAM_INTF_PARM_LONGSHOT_ENABLE m_bLongshotEnabled.
Definition setHistogram (enabled : bool) (answer : Z) : qm (V := V) Z :=
  on ← flag_of m_bHistogramEnabled;
  if Bool.eqb on enabled then mret NO_ERROR
  else commit_switch CAM_INTF_PARM_HISTOGRAM m_bHistogramEnabled enabled answer.

Definition updateFlashMode (flash_mode answer : Z) : qm (V := V) Z :=
  if (CAM_FLASH_MODE_MAX <=? flash_mode)%Z then mret BAD_VALUE
  else
    initBatchUpdate;;
    rc ← setFlash (lookupNameByValue FLASH_MODES_MAP flash_mode);
    if negb (rc =? NO_ERROR)%Z then mret rc
    else flash ← field_of mFlashValue;
         add_entry CAM_INTF_PARM_LED_MODE [flash] (commitSetBatch answer).

(** The entry is made before [initBatchUpdate], which clears it. *)
Definition updateOisValue (oisValue : bool) (answer : Z) : qm (V := V) Z :=
  recording ← flag_of m_bRecordingHint; is4k ← is4k2kVideoResolution;
  let disable := uint8_property "persist.vendor.camera.ois.disable" in
  let enable := (negb recording || is4k && recording) && negb (disable || negb oisValue) in
  assign m_bOISEnabled enable;;
  updateParamEntry KEY_QC_OIS (if enable then VALUE_ENABLE else VALUE_DISABLE);;
  initBatchUpdate;;
  add_entry CAM_INTF_META_LENS_OPT_STAB_MODE [Z.b2z enable] (commitSetBatch answer).

Definition setCDSMode (cds_mode : Z) (initCommit : option Z) : qm (V := V) Z :=
  match initCommit with Some _ => initBatchUpdate | None => mret NO_ERROR end;;
  add_entry CAM_INTF_PARM_CDS_MODE [cds_mode]
    match initCommit with Some answer => commitSetBatch answer | None => mret NO_ERROR end.

Definition setFaceDetectionOption (enabled : bool) : qm (V := V) Z :=
  assign m_bFaceDetectionOn enabled;; mret NO_ERROR.

(** ** Numbers that are read back *)
Fixpoint count_tokens (delim : ascii) (inside : bool) (s : string) : nat :=
  match s with
  | EmptyString => O
  | String c s =>
      if (c =? delim)%char then count_tokens delim false s
      else ((if inside then 0 else 1) + count_tokens delim true s)%nat
  end.

Definition PROPERTY_VALUE_MAX : nat := 92.

Definition getNumOfExtraHDROutBufsIfNeeded : qm (V := V) Z :=
  hdr ← isHDREnabled; one ← flag_of m_bHDR1xFrameEnabled; mret (Z.b2z (hdr && one)).

Definition setNumOfSnapshot : qm (V := V) Z :=
  bracket_str ← qget KEY_QC_AE_BRACKET_HDR;
  exposures ← qget KEY_QC_CAPTURE_BURST_EXPOSURE;
  extra ← getNumOfExtraHDROutBufsIfNeeded;
  ubi ← isUbiRefocus;
  let nExpnum :=
    match bracket_str with
    | None => 0%Z
    | Some _ =>
        match lookupAttr BRACKETING_MODES_MAP bracket_str with
        | Some 1%Z =>
            let n := match exposures with
                     | Some s => Z.of_nat (count_tokens "," false (strlcpy PROPERTY_VALUE_MAX s))
                     | None => 0%Z
                     end in
            if (n =? 0)%Z then 1%Z else n
        | _ => (1 + extra)%Z
        end
    end in
  let nBurstNum := if (ubi : bool) then (refocus_output_count cap + 1)%Z else 1%Z in
  qset_int KEY_QC_NUM_SNAPSHOT_PER_SHUTTER (wrap_signed 32 (nBurstNum * nExpnum));; mret NO_ERROR.

Definition getNumOfSnapshots : qm (V := V) Z :=
  v ← qgetInt lb KEY_QC_NUM_SNAPSHOT_PER_SHUTTER;
  mret (if (0 <? v)%Z then wrap_unsigned 8 v else 1%Z).

(** [updateParameters]: the setters in order, then the code of the last one that failed. *)
Fixpoint run_setters (setters : list (V → qm (V := V) Z)) params (final_rc : Z) : qm (V := V) Z :=
  match setters with
  | [] => mret final_rc
  | f :: setters =>
      rc ← f params;
      run_setters setters params (if (rc =? 0)%Z then final_rc else rc)
  end.

(** The setters it runs, without those that compute with floating-point numbers. *)
Definition request_setters : list (V → qm (V := V) Z) :=
  [setPreviewSize_params; setVideoSize_params; setPictureFormat_params; setJpegQuality_params;
   setOrientation_params; setRotation_params; setVideoRotation_params; setNoDisplayMode_params;
   setZslMode_params; setZslAttributes_params; setCameraMode_params; setSceneSelectionMode_params;
   setRecordingHint_params; setRdiMode_params; setSecureMode_params; setPreviewFrameRate_params;
   setAutoExposure_params; setEffect_params; setBrightness_params; setZoom_params;
   setSharpness_params; setSaturation_params; setContrast_params; setFocusMode_params;
   setISOValue_params; setContinuousISO_params; setSkinToneEnhancement_params; setFlash_params;
   setAecLock_params; setAwbLock_params; setLensShadeValue_params; setMCEValue_params;
   setDISValue_params; setAntibanding_params; setExposureCompensation_params;
   setWhiteBalance_params; setHDRMode_params; setHDRNeed1x_params; setSceneMode_params;
   setSelectableZoneAf_params; setRedeyeReduction_params; setAEBracket_params; setAutoHDR_params;
   setGpsLocation_params; setWaveletDenoise_params; setFaceRecognition_params; setFlip_params;
   setVideoHDR_params; setVtEnable_params; setAFBracket_params; setReFocus_params;
   setChromaFlash_params; setTruePortrait_params; setOptiZoom_params; setBurstLEDOnPeriod_params;
   setRetroActiveBurstNum_params; setSnapshotFDReq_params; setTintlessValue_params;
   setCDSMode_params; setTemporalDenoise_params; setCacheVideoBuffers_params;
   setInitialExposureIndex_params; setInstantCapture_params; setInstantAEC_params;
   setJpegThumbnailSize_params; (λ _, setStatsDebugMask); (λ _, setPAAF); setMobicat_params;
   setSeeMore_params; setStillMore_params; setNoiseReductionMode_params; setLongshotParam_params;
   setLedCalibration_params; (λ _, setVideoBatchSize;; mret NO_ERROR);
   (λ _, setLowLightCapture;; mret NO_ERROR); (λ _, updateFlash None);
   (λ _, setAdvancedCaptureMode)].

Definition updateParameters (setters : list (V → qm (V := V) Z)) params : qm (V := V) (Z * bool) :=
  assign m_bNeedRestart false;;
  initBatchUpdate;;
  rc ← run_setters setters params NO_ERROR;
  needRestart ← flag_of m_bNeedRestart; mret (rc, needRestart).

(** ** The EXIF text of the processing method

    A buffer is the list of its bytes; [None] is a write behind its end. *)
Definition EXIF_ASCII_PREFIX_SIZE : nat := 8.
Definition GPS_PROCESSING_METHOD_SIZE : nat := 33.
Definition ExifAsciiPrefix : list Z := [65; 83; 67; 73; 73; 0; 0; 0]%Z.

Definition bytes_of (s : string) : list Z :=
  (λ c, Z.of_nat (nat_of_ascii c)) <$> list_ascii_of_string s.

Definition write_at (i : nat) (bs buf : list Z) : option (list Z) :=
  if decide (i + length bs ≤ length buf)%nat
  then Some (take i buf ++ bs ++ drop (i + length bs) buf)%list else None.

(** The result code, the buffer and [count]. *)
Definition getExifGpsProcessingMethod (buf : list Z) (s : qparams V) : option (Z * list Z * Z) :=
  match get KEY_GPS_PROCESSING_METHOD (q_map s) with
  | None => Some (BAD_VALUE, buf, 0%Z)
  | Some str =>
      buf ← write_at 0 ExifAsciiPrefix buf;
      buf ← write_at EXIF_ASCII_PREFIX_SIZE
              (bytes_of (strlcpy GPS_PROCESSING_METHOD_SIZE str) ++ [0%Z]) buf;
      let count := (EXIF_ASCII_PREFIX_SIZE + String.length str)%nat in
      buf ← write_at count [0%Z] buf;
      Some (NO_ERROR, buf, Z.of_nat (S count))
  end.
End setters.
