(* ===== verification/QParamKeeps.v ===== *)
(** * Programs that keep the map and the back end in agreement

    The settings of the parameter map that stand for one value of the back end
    ([settings]), the agreement of the map, the waiting entries, the batch and
    the back end ([agree]), and that every modelled setter and operation keeps
    it ([keeps]), by rules on the structure of a program. *)
From stdpp Require Import functions.
From S2P Require Import Prelude CStr CameraParams CamParamParse QParamTables QParams QSetters.
Local Open Scope string_scope.

(** ** The settings

    A setting has a key in the map, a parameter of the back end, and the value
    that a text stands for. *)
Record setting := Setting {
  s_key : string;
  s_parm : Z;
  s_means : string → option Z
}.

Definition enum (key : string) (table : list (string * Z)) (parm : Z) : setting :=
  Setting key parm (λ v, lookupAttr table (Some v)).

(** The decimal text of an [int]. *)
Definition number_text (lb : Z) (v : string) : option Z :=
  let z := wrap_signed 32 (strtol lb 0 v).1 in
  if String.eqb v (fmt_d z) then Some z else None.

Definition number (lb : Z) (key : string) (parm : Z) : setting := Setting key parm (number_text lb).

Definition enum_settings : list (string * list (string * Z) * Z) :=
  [(KEY_QC_AUTO_EXPOSURE, AUTO_EXPOSURE_MAP, CAM_INTF_PARM_AEC_ALGO_TYPE);
   (KEY_EFFECT, EFFECT_MODES_MAP, CAM_INTF_PARM_EFFECT);
   (KEY_WHITE_BALANCE, WHITE_BALANCE_MODES_MAP, CAM_INTF_PARM_WHITE_BALANCE);
   (KEY_QC_SCENE_DETECT, ON_OFF_MODES_MAP, CAM_INTF_PARM_ASD_ENABLE);
   (KEY_QC_VT_ENABLE, ENABLE_DISABLE_MODES_MAP, CAM_INTF_PARM_VT);
   (KEY_QC_MEMORY_COLOR_ENHANCEMENT, ENABLE_DISABLE_MODES_MAP, CAM_INTF_PARM_MCE);
   (KEY_QC_DIS, ENABLE_DISABLE_MODES_MAP, CAM_INTF_PARM_DIS_ENABLE);
   (KEY_QC_LENSSHADE, ENABLE_DISABLE_MODES_MAP, CAM_INTF_PARM_ROLLOFF);
   (KEY_QC_SELECTABLE_ZONE_AF, FOCUS_ALGO_MAP, CAM_INTF_PARM_FOCUS_ALGO_TYPE);
   (KEY_QC_REDEYE_REDUCTION, ENABLE_DISABLE_MODES_MAP, CAM_INTF_PARM_REDEYE_REDUCTION);
   (KEY_QC_TINTLESS_ENABLE, ENABLE_DISABLE_MODES_MAP, CAM_INTF_PARM_TINTLESS);
   (KEY_QC_RDI_MODE, ENABLE_DISABLE_MODES_MAP, CAM_INTF_PARM_RDI_MODE);
   (KEY_QC_HDR_NEED_1X, TRUE_FALSE_MODES_MAP, CAM_INTF_PARM_HDR_NEED_1X);
   (KEY_QC_LED_CALIBRATION_MODES, LED_CALIBRATION_MODE_MAP, CAM_INTF_PARM_LED_CALIBRATION)].

Definition number_settings : list (string * Z) :=
  [(KEY_QC_BRIGHTNESS, CAM_INTF_PARM_BRIGHTNESS);
   (KEY_QC_SHARPNESS, CAM_INTF_PARM_SHARPNESS);
   (KEY_QC_SCE_FACTOR, CAM_INTF_PARM_SCE_FACTOR);
   (KEY_QC_SATURATION, CAM_INTF_PARM_SATURATION);
   (KEY_QC_CONTRAST, CAM_INTF_PARM_CONTRAST);
   (KEY_EXPOSURE_COMPENSATION, CAM_INTF_PARM_EXPOSURE_COMPENSATION)].

Definition settings (lb : Z) : list setting :=
  ((λ '(k, t, p), enum k t p) <$> enum_settings) ++ ((λ '(k, p), number lb k p) <$> number_settings).

Definition setting_keys : list string := enum_settings.*1.*1 ++ number_settings.*1.
Definition setting_parms : list Z := enum_settings.*2 ++ number_settings.*2.

Definition key_free (k : string) : bool := bool_decide (k ∉ setting_keys).
Definition parm_free (p : Z) : bool := bool_decide (p ∉ setting_parms).

Lemma keys_of_settings lb : s_key <$> settings lb = setting_keys.
Proof. done. Qed.

Lemma parms_of_settings lb : s_parm <$> settings lb = setting_parms.
Proof. done. Qed.

Lemma setting_keys_nodup : NoDup setting_keys.
Proof. apply (bool_decide_unpack _). vm_compute. exact I. Qed.

Lemma setting_parms_nodup : NoDup setting_parms.
Proof. apply (bool_decide_unpack _). vm_compute. exact I. Qed.

Lemma key_free_ne lb k st : key_free k = true → st ∈ settings lb → s_key st ≠ k.
Proof.
  intros Hk Hin <-. apply bool_decide_eq_true in Hk. apply Hk.
  rewrite <- (keys_of_settings lb). by apply list_elem_of_fmap_2.
Qed.

Lemma parm_free_ne lb p st : parm_free p = true → st ∈ settings lb → s_parm st ≠ p.
Proof.
  intros Hk Hin <-. apply bool_decide_eq_true in Hk. apply Hk.
  rewrite <- (parms_of_settings lb). by apply list_elem_of_fmap_2.
Qed.

Lemma fmap_inj_nodup {A B} (f : A → B) (l : list A) x y :
  NoDup (f <$> l) → x ∈ l → y ∈ l → f x = f y → x = y.
Proof.
  induction l as [|a l IH]; intros Hnd Hx Hy Hf; [by apply not_elem_of_nil in Hx|].
  apply NoDup_cons in Hnd as [Ha Hnd].
  apply elem_of_cons in Hx as [->|Hx]; apply elem_of_cons in Hy as [->|Hy]; [done| | |auto].
  - destruct Ha. rewrite Hf. by apply list_elem_of_fmap_2.
  - destruct Ha. rewrite <- Hf. by apply list_elem_of_fmap_2.
Qed.

Lemma setting_key_inj lb x y : x ∈ settings lb → y ∈ settings lb → s_key x = s_key y → x = y.
Proof. apply fmap_inj_nodup. apply setting_keys_nodup. Qed.

Lemma setting_parm_inj lb x y : x ∈ settings lb → y ∈ settings lb → s_parm x = s_parm y → x = y.
Proof. apply fmap_inj_nodup. apply setting_parms_nodup. Qed.

(** ** The texts of the settings are taken by [set] *)
Definition plain (s : string) : bool := negb (has_char "=" s || has_char ";" s).

Lemma lookupAttr_in table v z : lookupAttr table (Some v) = Some z → v ∈ table.*1.
Proof.
  induction table as [|[d w] table IH]; [done|]. simpl.
  destruct (String.eqb_spec d v) as [->|]; [left|]. right. auto.
Qed.

Lemma means_plain lb st v z : st ∈ settings lb → s_means st v = Some z → plain v = true.
Proof.
  intros Hin. unfold settings in Hin. apply elem_of_app in Hin as [Hin|Hin];
    apply list_elem_of_fmap in Hin as (x & -> & Hx).
  - destruct x as [[k t] p]. simpl. intros Hv%lookupAttr_in.
    assert (forallb (λ x : string * list (string * Z) * Z, forallb plain x.1.2.*1) enum_settings = true)
      as Hall by (vm_compute; reflexivity).
    rewrite forallb_forall in Hall. apply list_elem_of_In in Hx. apply Hall in Hx. simpl in Hx.
    rewrite forallb_forall in Hx. apply Hx. by apply list_elem_of_In.
  - destruct x as [k p]. simpl. unfold number_text.
    destruct (String.eqb_spec v (fmt_d (wrap_signed 32 (strtol lb 0 v).1))) as [E|]; [|done].
    intros _. unfold plain. rewrite E, !fmt_d_chars by done. done.
Qed.

Lemma key_plain lb st : st ∈ settings lb → plain (s_key st) = true.
Proof.
  intros Hin. assert (forallb plain setting_keys = true) as Hall by (vm_compute; reflexivity).
  rewrite forallb_forall in Hall. apply Hall, list_elem_of_In.
  rewrite <- (keys_of_settings lb). by apply list_elem_of_fmap_2.
Qed.

Lemma number_text_fmt lb z : (32 ≤ lb)%Z → (- 2 ^ 31 ≤ z < 2 ^ 31)%Z →
  number_text lb (fmt_d z) = Some z.
Proof.
  intros Hlb Hz. unfold number_text.
  assert ((strtol lb 0 (fmt_d z)).1 = z) as ->.
  { assert (2 ^ 31 ≤ 2 ^ (lb - 1))%Z by (apply Z.pow_le_mono_r; lia).
    rewrite <- (str_app_nil_r (fmt_d z)). rewrite strtol_fmt_d by (auto; lia). done. }
  rewrite wrap_signed_small by lia.
  by rewrite String.eqb_refl.
Qed.

Ltac head_of t := lazymatch t with ?f _ => head_of f | ?f => f end.

(** ** The agreement *)
Section agree.
Context {V : Type} `{KeyedVectorLaws V}.
Context (lb : Z).

(** What the agreement is about. *)
Definition core (s : qparams V) : gmap string string * gmap string string *
    option (gmap Z (list Z)) * gmap Z (list Z) :=
  (kv_map (q_map s), kv_map (m_tempMap s), m_pParamBuf s, q_backend s).

(** A text of the map stands for the value the back end has; a text that waits
    stands for the value in the batch; another value in the batch has been accepted. *)
Definition setting_ok (st : setting) (s : qparams V) : Prop :=
  (∀ v, kv_map (q_map s) !! s_key st = Some v →
     ∃ z, s_means st v = Some z ∧ q_backend s !! s_parm st = Some [z]) ∧
  (∀ b, m_pParamBuf s = Some b →
     (∀ v, kv_map (m_tempMap s) !! s_key st = Some v →
        ∃ z, s_means st v = Some z ∧ b !! s_parm st = Some [z]) ∧
     (∀ x, b !! s_parm st = Some x →
        kv_map (m_tempMap s) !! s_key st ≠ None ∨ q_backend s !! s_parm st = Some x)).

Definition agree (s : qparams V) : Prop := ∀ st, st ∈ settings lb → setting_ok st s.

Definition keeps {A} (m : qm (V := V) A) : Prop := ∀ s, agree s → agree (m s).2.

(** A setting is being written: its text waits already, its value does not. *)
Definition pending {A} (st : setting) (v : string) (m : qm (V := V) A) : Prop :=
  ∀ s s0, agree s0 → core s = core (with_temp (kv_add (s_key st) v) s0) → agree (m s).2.

Lemma agree_core s s' : core s = core s' → agree s → agree s'.
Proof.
  unfold core. intros Hc Hs st Hst. injection Hc as Hm Ht Hb Hp. specialize (Hs st Hst).
  unfold setting_ok in *. by rewrite <- Hm, <- Ht, <- Hb, <- Hp.
Qed.

Lemma keeps_mret {A} (a : A) : keeps (mret a).
Proof. by intros s Hs. Qed.

Lemma keeps_mbind {A B} (m : qm A) (f : A → qm B) :
  keeps m → (∀ a, keeps (f a)) → keeps (m ≫= f).
Proof.
  intros Hm Hf s Hs. unfold mbind, qm_bind. specialize (Hm s Hs).
  destruct (m s) as [a s']. by apply Hf.
Qed.

Definition neutral {A} (m : qm (V := V) A) : Prop := ∀ s, core (m s).2 = core s.

Lemma neutral_bind {A B} (m : qm A) (f : A → qm B) :
  neutral m → (∀ a, neutral (f a)) → neutral (m ≫= f).
Proof.
  intros Hm Hf s. unfold mbind, qm_bind. specialize (Hm s). destruct (m s) as [a s'].
  rewrite Hf. exact Hm.
Qed.

Lemma neutral_keeps {A} (m : qm A) : neutral m → keeps m.
Proof. intros Hm s Hs. apply (agree_core s); [by rewrite Hm|done]. Qed.

Lemma neutral_ret {A} (a : A) : neutral (mret a).
Proof. done. Qed.
Lemma neutral_reads {A} (f : qparams V → A) : neutral (reads f).
Proof. done. Qed.
Lemma neutral_assign f b : neutral (assign f b).
Proof. done. Qed.
Lemma neutral_assign_int i z : neutral (assign_int i z).
Proof. done. Qed.
Lemma neutral_bracket c : neutral (modify_q (with_bracket c)).
Proof. done. Qed.

(** *** The map *)
Lemma set_other k k' v (m : V) : k ≠ k' → kv_map (set k v m) !! k' = kv_map m !! k'.
Proof.
  intros Hne. unfold set. repeat (destruct (_ || _); [done|]).
  rewrite kv_map_add. by apply lookup_insert_ne.
Qed.

Lemma keeps_set k v : key_free k = true → keeps (modify_q (with_map (set k v))).
Proof.
  intros Hk s Hs st Hst. destruct (Hs st Hst) as [Ha Hb]. split; [|exact Hb].
  simpl. rewrite set_other by (by apply not_eq_sym, (key_free_ne lb)). exact Ha.
Qed.

Lemma keeps_remove k : key_free k = true → keeps (qremove k).
Proof.
  intros Hk s Hs st Hst. destruct (Hs st Hst) as [Ha Hb]. split; [|exact Hb].
  simpl. unfold remove. rewrite kv_map_remove, lookup_delete_ne; [exact Ha|].
  by apply not_eq_sym, (key_free_ne lb).
Qed.

Lemma keeps_entry k v : key_free k = true → keeps (updateParamEntry k v).
Proof.
  intros Hk s Hs st Hst. destruct (Hs st Hst) as [Ha Hb]. split; [exact Ha|].
  simpl. rewrite kv_map_add, lookup_insert_ne; [exact Hb|].
  by apply not_eq_sym, (key_free_ne lb).
Qed.

(** *** The batch *)
Lemma agree_batch p v s : parm_free p = true → agree s → agree (with_batch <[p := v]> s).
Proof.
  intros Hp Hs st Hst. destruct (Hs st Hst) as [Ha Hb]. split; [exact Ha|].
  simpl. intros b Hbuf. apply fmap_Some in Hbuf as (b' & Hb' & ->).
  rewrite lookup_insert_ne by (by apply not_eq_sym, (parm_free_ne lb)). by apply Hb.
Qed.

Lemma keeps_ADD p v : parm_free p = true → keeps (ADD_SET_PARAM_ENTRY_TO_BATCH p v).
Proof.
  intros Hp s Hs. unfold ADD_SET_PARAM_ENTRY_TO_BATCH.
  destruct (m_pParamBuf s); [by apply agree_batch|done].
Qed.

Lemma keeps_add_entry p v k : parm_free p = true → keeps k → keeps (add_entry p v k).
Proof.
  intros Hp Hk. apply keeps_mbind; [by apply keeps_ADD|]. intros rc.
  destruct (rc =? 0)%Z; [done|apply keeps_mret].
Qed.

Lemma keeps_init : keeps initBatchUpdate.
Proof.
  intros s Hs st Hst. destruct (Hs st Hst) as [Ha _]. split; [exact Ha|].
  simpl. intros b Hb. apply fmap_Some in Hb as (b' & _ & ->).
  rewrite kv_map_empty, !lookup_empty. by split.
Qed.

(** *** Writing a setting *)
Lemma pending_neutral {A B} st v (m : qm A) (f : A → qm B) :
  neutral m → (∀ a, pending st v (f a)) → pending st v (m ≫= f).
Proof.
  intros Hm Hf s s0 Hs0 Hc. unfold mbind, qm_bind. specialize (Hm s).
  destruct (m s) as [a s']. apply (Hf a s' s0 Hs0). by rewrite <- Hc.
Qed.

Lemma agree_pair st v z s0 : st ∈ settings lb → s_means st v = Some z → agree s0 →
  agree (with_batch <[s_parm st := [z]]> (with_temp (kv_add (s_key st) v) s0)).
Proof.
  intros Hst Hz Hs0 st' Hst'. destruct (Hs0 st' Hst') as [Ha Hb]. split; [exact Ha|].
  simpl. intros b Hbuf. apply fmap_Some in Hbuf as (b' & Hb' & ->). rewrite kv_map_add.
  destruct (decide (s_key st' = s_key st)) as [He|Hne].
  - apply (setting_key_inj lb) in He as ->; [|done..]. rewrite !lookup_insert_eq.
    split; [intros ? [= <-]; by exists z|]. by left.
  - rewrite !lookup_insert_ne; [by apply Hb| |done].
    intros E. destruct Hne. by rewrite (setting_parm_inj lb st st').
Qed.

Lemma agree_no_buffer s s0 : agree s0 → m_pParamBuf s = None →
  kv_map (q_map s) = kv_map (q_map s0) → q_backend s = q_backend s0 → agree s.
Proof.
  intros Hs0 Hn Hm Hb st Hst. destruct (Hs0 st Hst) as [Ha _]. unfold setting_ok.
  rewrite Hm, Hb, Hn. by split.
Qed.

Lemma pending_add st v z : st ∈ settings lb → s_means st v = Some z →
  pending st v (add_entry (s_parm st) [z] (mret NO_ERROR)).
Proof.
  intros Hst Hz s s0 Hs0 Hc. unfold core in Hc. injection Hc as Hm Ht Hb Hp.
  unfold add_entry, ADD_SET_PARAM_ENTRY_TO_BATCH, mbind, qm_bind.
  destruct (m_pParamBuf s) as [b|] eqn:E; simpl.
  - apply (agree_core (with_batch <[s_parm st := [z]]> (with_temp (kv_add (s_key st) v) s0)));
      [|by apply agree_pair].
    unfold core. simpl. by rewrite E, Hm, Ht, <- Hb, Hp.
  - by apply (agree_no_buffer _ s0).
Qed.

Lemma keeps_pending {A} st v (m : qm A) : pending st v m → keeps (updateParamEntry (s_key st) v;; m).
Proof. intros Hm s Hs. by apply (Hm _ s). Qed.

Lemma keeps_set_num key parm z : (32 ≤ lb)%Z → (- 2 ^ 31 ≤ z < 2 ^ 31)%Z →
  number lb key parm ∈ settings lb → keeps (set_num key parm z).
Proof.
  intros Hlb Hz Hin. apply (keeps_pending (number lb key parm)), (pending_add (number lb key parm)); [done|].
  by apply number_text_fmt.
Qed.

Lemma keeps_set_enum key table parm str :
  enum key table parm ∈ settings lb → keeps (set_enum key table parm str).
Proof.
  intros Hin. unfold set_enum. destruct str as [v|]; [|apply keeps_mret].
  destruct (lookupAttr table (Some v)) as [z|] eqn:E; [|apply keeps_mret].
  by apply (keeps_pending (enum key table parm)), (pending_add (enum key table parm)).
Qed.

(** *** Committing *)
Lemma set_plain k v (m : V) : plain k = true → plain v = true → kv_map (set k v m) = <[k := v]> (kv_map m).
Proof.
  unfold plain, set. intros Hk%negb_true_iff Hv%negb_true_iff. rewrite Hk, Hv. apply kv_map_add.
Qed.

Lemma commit_map_other l k (m : V) : k ∉ l.*1 →
  kv_map (foldl (λ m p, set p.1 p.2 m) m l) !! k = kv_map m !! k.
Proof.
  revert m. induction l as [|[k' v'] l IH]; intros m Hk; [done|]. simpl in *.
  rewrite not_elem_of_cons in Hk. rewrite IH by tauto. apply set_other. naive_solver.
Qed.

Lemma commit_map_waiting l k v (m : V) : NoDup l.*1 → (k, v) ∈ l → plain k = true → plain v = true →
  kv_map (foldl (λ m p, set p.1 p.2 m) m l) !! k = Some v.
Proof.
  revert m. induction l as [|[k' v'] l IH]; intros m Hnd Hin Hk Hv; [by apply not_elem_of_nil in Hin|].
  simpl in *. apply NoDup_cons in Hnd as [Hk' Hnd].
  apply elem_of_cons in Hin as [[= <- <-]|Hin]; [|by apply IH].
  rewrite commit_map_other by done. rewrite set_plain by done. by rewrite lookup_insert_eq.
Qed.

Lemma waiting_in (m : V) k v : kv_map m !! k = Some v → (k, v) ∈ kv_items m.
Proof. apply elem_of_list_to_map_2. Qed.

Lemma not_waiting (m : V) k : kv_map m !! k = None → k ∉ (kv_items m).*1.
Proof. apply not_elem_of_list_to_map. Qed.

Lemma agree_committed s b : agree s → m_pParamBuf s = Some b →
  agree (with_temp (λ _, kv_empty)
           (with_map (λ m, foldl (λ m p, set p.1 p.2 m) m (kv_items (m_tempMap s)))
              (with_backend (b ∪ q_backend s) s))).
Proof.
  intros Hs Hb st Hst. destruct (Hs st Hst) as [Ha Hw]. destruct (Hw b Hb) as [Hw1 Hw2].
  split; simpl.
  - intros v Hv. destruct (kv_map (m_tempMap s) !! s_key st) as [w|] eqn:Ew.
    + destruct (Hw1 w eq_refl) as (z & Hz & Hbz). exists z.
      rewrite (commit_map_waiting _ _ w) in Hv;
        [|apply items_nodup|by apply waiting_in|by apply (key_plain lb)|by eapply (means_plain lb)].
      injection Hv as <-. split; [done|]. by apply lookup_union_Some_l.
    + rewrite commit_map_other in Hv by (by apply not_waiting).
      destruct (Ha v Hv) as (z & Hz & Hbz). exists z. split; [done|].
      destruct (b !! s_parm st) as [x|] eqn:Ex; [|by rewrite lookup_union_r].
      destruct (Hw2 x eq_refl) as [?|Hx]; [done|]. rewrite Hx in Hbz. simplify_eq.
      by apply lookup_union_Some_l.
  - intros b' Hb'. rewrite kv_map_empty, lookup_empty. split; [done|]. simplify_eq.
    intros x Hx. right. by apply lookup_union_Some_l.
Qed.

Lemma neutral_commit_flags : neutral commit_flags.
Proof.
  unfold commit_flags. repeat (apply neutral_bind; [done|intros ?]). by case_match.
Qed.

Lemma commitParamChanges_spec s :
  agree (with_temp (λ _, kv_empty)
           (with_map (λ m, foldl (λ m p, set p.1 p.2 m) m (kv_items (m_tempMap s))) s)) →
  agree (commitParamChanges s).2.
Proof.
  intros Hs. unfold commitParamChanges, mbind, qm_bind. simpl.
  match goal with |- context [commit_flags ?t] => pose proof (neutral_commit_flags t) as Hn end.
  destruct (commit_flags _) as [u t]. simpl in *. eapply agree_core; [|exact Hs]. by rewrite Hn.
Qed.

Lemma keeps_commit answer : keeps (commitSetBatch answer).
Proof.
  intros s Hs. unfold commitSetBatch, mbind, qm_bind. simpl.
  destruct (m_pParamBuf s) as [b|] eqn:Eb; [|done].
  destruct (m_pCamOpsTbl s); [|done]. simpl. case_bool_decide as Hb.
  - simpl. apply commitParamChanges_spec. pose proof (agree_committed s b Hs Eb) as Hc.
    eapply agree_core; [|exact Hc]. unfold core. simpl. by rewrite Hb, map_empty_union.
  - unfold call_set_parms. rewrite Eb. destruct (answer =? NO_ERROR)%Z eqn:Ea; simpl; [|done].
    apply commitParamChanges_spec. by apply (agree_committed s b).
Qed.

Lemma keeps_with_attr map str k : (∀ s z, lookupAttr map (Some s) = Some z → keeps (k s z)) →
  keeps (with_attr map str k).
Proof.
  intros Hk. unfold with_attr. destruct str as [s|]; [|apply keeps_mret].
  destruct (lookupAttr map (Some s)) eqn:E; [by apply Hk|apply keeps_mret].
Qed.

Lemma keeps_if_changed key params k : (∀ str, keeps (k str)) → keeps (if_changed key params k).
Proof.
  intros Hk. apply keeps_mbind; [apply neutral_keeps, neutral_reads|]. intros prev.
  destruct (get key params) as [str|]; [|apply keeps_mret].
  destruct (changed str prev); [apply Hk|apply keeps_mret].
Qed.

Lemma keeps_set_enum_free key table parm str :
  key_free key = true → parm_free parm = true → keeps (set_enum key table parm str).
Proof.
  intros Hk Hp. unfold set_enum. destruct str as [v|]; [|apply keeps_mret].
  destruct (lookupAttr table (Some v)); [|apply keeps_mret].
  apply keeps_mbind; [by apply keeps_entry|intros ?]. apply keeps_add_entry; [done|apply keeps_mret].
Qed.

(** *** Automation *)
Lemma enum_in k t p : (k, t, p) ∈ enum_settings → enum k t p ∈ settings lb.
Proof. intros Hin. apply elem_of_app. left. by apply (list_elem_of_fmap_2 (λ '(k, t, p), enum k t p) _ (k, t, p)). Qed.

Lemma number_in k p : (k, p) ∈ number_settings → number lb k p ∈ settings lb.
Proof. intros Hin. apply elem_of_app. right. by apply (list_elem_of_fmap_2 (λ '(k, p), number lb k p) _ (k, p)). Qed.

Ltac in_settings :=
  first [apply enum_in; unfold enum_settings | apply number_in; unfold number_settings];
  repeat (first [apply list_elem_of_here | apply list_elem_of_further]).

Ltac neutral_tac :=
  repeat first
    [ apply neutral_ret | apply neutral_reads | apply neutral_assign | apply neutral_assign_int
    | apply neutral_bracket | apply neutral_bind; [|intros ?] | case_match ].

Create HintDb keeps discriminated.
#[local] Hint Constants Opaque : keeps.

(** One step on the structure of a program; a setter is unfolded. *)
Ltac keeps_step :=
  lazymatch goal with
  | |- ∀ _, _ => intros ?
  | |- keeps (mret _) => apply keeps_mret
  | |- keeps (mbind _ _) => apply keeps_mbind; [|intros ?]
  | |- keeps initBatchUpdate => apply keeps_init
  | |- keeps (commitSetBatch _) => apply keeps_commit
  | |- keeps (modify_q (with_map _)) => apply keeps_set; reflexivity
  | |- keeps (qset _ _) => apply keeps_set; reflexivity
  | |- keeps (qset_int _ _) => apply keeps_set; reflexivity
  | |- keeps (qremove _) => apply keeps_remove; reflexivity
  | |- keeps (updateParamEntry _ _) => apply keeps_entry; reflexivity
  | |- keeps (ADD_SET_PARAM_ENTRY_TO_BATCH _ _) => apply keeps_ADD; reflexivity
  | |- keeps (add_entry _ _ _) => apply keeps_add_entry; [reflexivity|]
  | |- keeps (set_enum _ _ _ _) =>
      first [apply keeps_set_enum_free; reflexivity | apply keeps_set_enum; in_settings]
  | |- keeps (with_attr _ _ _) => apply keeps_with_attr; intros ? ? ?
  | |- keeps (if_changed _ _ _) => apply keeps_if_changed; intros ?
  | |- keeps (reads _) => apply neutral_keeps, neutral_reads
  | |- keeps (flag_of _) => apply neutral_keeps, neutral_reads
  | |- keeps (field_of _) => apply neutral_keeps, neutral_reads
  | |- keeps (qget _) => apply neutral_keeps, neutral_reads
  | |- keeps (qgetInt _ _) => apply neutral_keeps, neutral_reads
  | |- keeps (assign _ _) => apply neutral_keeps, neutral_assign
  | |- keeps (assign_int _ _) => apply neutral_keeps, neutral_assign_int
  | |- keeps (modify_q (with_bracket _)) => apply neutral_keeps, neutral_bracket
  | |- keeps match _ with _ => _ end => case_match
  | |- keeps ?m =>
      first [ solve [eauto 2 with keeps nocore]
            | match goal with Hk : ∀ _, keeps _ |- _ => apply Hk end
            | let h := head_of m in progress (unfold h; cbv beta zeta) ]
  end.
Ltac keeps_tac := repeat keeps_step.

Context (property_get : string → string → string) (cap : capability).
Context (Hlb : (32 ≤ lb)%Z).

(** *** The setters of the settings *)
Ltac waiting st := apply (keeps_pending st);
  repeat (apply pending_neutral; [solve [neutral_tac]|intros ?]);
  apply (pending_add st); [in_settings|done].

Lemma effect_byte s z : lookupAttr EFFECT_MODES_MAP (Some s) = Some z → wrap_unsigned 8 z = z.
Proof.
  intros Hz. assert (Forall (λ p, wrap_unsigned 8 p.2 = p.2) EFFECT_MODES_MAP) as Hall.
  { repeat constructor. }
  revert Hz Hall. generalize EFFECT_MODES_MAP. intros l.
  induction l as [|[d w] l IH]; [done|]. simpl. intros Hz Hall. inversion Hall; subst.
  destruct (String.eqb d s); [by simplify_eq|auto].
Qed.

Lemma keeps_setEffect str : keeps (setEffect str).
Proof.
  apply keeps_with_attr. intros s z Hz. rewrite (effect_byte s z Hz).
  waiting (enum KEY_EFFECT EFFECT_MODES_MAP CAM_INTF_PARM_EFFECT).
Qed.

Lemma keeps_setVtEnable str : keeps (setVtEnable str).
Proof.
  unfold setVtEnable. destruct str as [s|]; [|keeps_tac].
  destruct (lookupAttr ENABLE_DISABLE_MODES_MAP (Some s)) as [z|] eqn:Hz; [|keeps_tac].
  apply keeps_mbind; [apply neutral_keeps, neutral_assign|intros ?].
  waiting (enum KEY_QC_VT_ENABLE ENABLE_DISABLE_MODES_MAP CAM_INTF_PARM_VT).
Qed.

Lemma keeps_setDISValue str : keeps (setDISValue str).
Proof.
  unfold setDISValue. destruct str as [s|]; [|keeps_tac].
  destruct (lookupAttr ENABLE_DISABLE_MODES_MAP (Some s)) as [z|] eqn:Hz; [|keeps_tac].
  apply keeps_mbind; [apply neutral_keeps, neutral_assign|intros ?].
  waiting (enum KEY_QC_DIS ENABLE_DISABLE_MODES_MAP CAM_INTF_PARM_DIS_ENABLE).
Qed.

Lemma keeps_setRdiMode str : keeps (setRdiMode str).
Proof.
  apply keeps_with_attr. intros s z Hz.
  waiting (enum KEY_QC_RDI_MODE ENABLE_DISABLE_MODES_MAP CAM_INTF_PARM_RDI_MODE).
Qed.

Lemma keeps_setLedCalibration str : keeps (setLedCalibration str).
Proof.
  apply keeps_with_attr. intros s z Hz.
  apply keeps_mbind; [apply neutral_keeps, neutral_assign_int|intros ?].
  waiting (enum KEY_QC_LED_CALIBRATION_MODES LED_CALIBRATION_MODE_MAP CAM_INTF_PARM_LED_CALIBRATION).
Qed.

(** The two names of the table are told apart by their prefix. *)
Lemma true_value s z : lookupAttr TRUE_FALSE_MODES_MAP (Some s) = Some z →
  Z.b2z (strncmp_eq s VALUE_TRUE) = z.
Proof.
  unfold TRUE_FALSE_MODES_MAP, lookupAttr.
  destruct (String.eqb_spec VALUE_FALSE s) as [<-|]; [by intros [= <-]|].
  destruct (String.eqb_spec VALUE_TRUE s) as [<-|]; [by intros [= <-]|done].
Qed.

Lemma keeps_setHDRNeed1x str : keeps (setHDRNeed1x str).
Proof.
  apply keeps_with_attr. intros s z Hz. cbv zeta. rewrite (true_value s z Hz).
  waiting (enum KEY_QC_HDR_NEED_1X TRUE_FALSE_MODES_MAP CAM_INTF_PARM_HDR_NEED_1X).
Qed.

Lemma keeps_in_range key ctrl setter params :
  (∀ z, (- 2 ^ 31 ≤ z < 2 ^ 31)%Z → keeps (setter z)) → keeps (set_in_range lb key ctrl setter params).
Proof.
  intros Hk. unfold set_in_range. keeps_tac. apply Hk. unfold getInt.
  destruct (get key params); [apply (wrap_signed_range 32)|]; lia.
Qed.

Lemma keeps_setSharpness z : (- 2 ^ 31 ≤ z < 2 ^ 31)%Z → keeps (setSharpness z).
Proof.
  intros Hz. apply (keeps_pending (number lb KEY_QC_SHARPNESS CAM_INTF_PARM_SHARPNESS)).
  apply pending_neutral; [apply neutral_assign_int|intros ?].
  apply (pending_add (number lb KEY_QC_SHARPNESS CAM_INTF_PARM_SHARPNESS)); [in_settings|].
  by apply number_text_fmt.
Qed.

#[local] Hint Resolve keeps_setEffect keeps_setVtEnable keeps_setDISValue keeps_setRdiMode
  keeps_setLedCalibration keeps_setHDRNeed1x : keeps.

Lemma keeps_number_param key parm ctrl setter params : (key, parm) ∈ number_settings →
  (∀ z, setter z = set_num key parm z) → keeps (set_in_range lb key ctrl setter params).
Proof.
  intros Hin Hset. apply keeps_in_range. intros z Hz. rewrite Hset.
  apply keeps_set_num; [done..|]. by apply number_in.
Qed.

Lemma keeps_setSharpness_params params : keeps (setSharpness_params lb cap params).
Proof. apply keeps_in_range, keeps_setSharpness. Qed.

Lemma keeps_setCDSMode_params params : keeps (setCDSMode_params property_get params).
Proof.
  unfold setCDSMode_params. apply keeps_mbind; [apply neutral_keeps, neutral_reads|intros b].
  destruct b; keeps_tac.
Qed.

(** A number of [number_settings], at its place in the list. *)
Ltac number_param :=
  lazymatch goal with
  | |- keeps ?m => let h := head_of m in unfold h
  end;
  eapply keeps_number_param; [unfold number_settings|intros z; reflexivity];
  repeat (first [apply list_elem_of_here | apply list_elem_of_further]).

#[local] Hint Resolve keeps_setSharpness_params keeps_setCDSMode_params : keeps.

Lemma keeps_setters : Forall (λ f, ∀ params, keeps (f params)) (request_setters property_get lb cap).
Proof.
  unfold request_setters.
  repeat (apply Forall_cons_2;
    [intros params;
     first [lazymatch goal with |- keeps (_ lb cap params) => solve [number_param] end
           | solve [keeps_tac]]|]).
  apply Forall_nil_2.
Qed.

(** *** The operations that commit by themselves *)
Lemma keeps_set3ALock b a : keeps (set3ALock cap b a).
Proof. keeps_tac. Qed.
Lemma keeps_setAndCommitZoom z a : keeps (setAndCommitZoom z a).
Proof. keeps_tac. Qed.
Lemma keeps_updateZSLModeValue b a : keeps (updateZSLModeValue b a).
Proof. keeps_tac. Qed.
Lemma keeps_updateRecordingHintValue z a : keeps (updateRecordingHintValue z a).
Proof. keeps_tac. Qed.
Lemma keeps_setLongshotEnable b a : keeps (setLongshotEnable b a).
Proof. keeps_tac. Qed.
Lemma keeps_setHistogram b a : keeps (setHistogram b a).
Proof. keeps_tac. Qed.
Lemma keeps_updateFlashMode z a : keeps (updateFlashMode z a).
Proof. keeps_tac. Qed.
Lemma keeps_updateOisValue b a : keeps (updateOisValue property_get lb b a).
Proof. keeps_tac. Qed.
Lemma keeps_updateFlash ic : keeps (updateFlash ic).
Proof. keeps_tac. Qed.
Lemma keeps_setHDRSceneEnable b a : keeps (setHDRSceneEnable b a).
Proof. keeps_tac. Qed.
Lemma keeps_setFaceDetection b ic : keeps (setFaceDetection property_get lb cap b ic).
Proof. keeps_tac. Qed.
Lemma keeps_setToneMapMode b ic : keeps (setToneMapMode b ic).
Proof. keeps_tac. Qed.
Lemma keeps_setCDSMode z ic : keeps (setCDSMode z ic).
Proof. keeps_tac. Qed.
Lemma keeps_setInstantAEC z ic : keeps (setInstantAEC z ic).
Proof. keeps_tac. Qed.
Lemma keeps_setTintless b : keeps (setTintless b).
Proof. keeps_tac. Qed.
Lemma keeps_setNumOfSnapshot : keeps (setNumOfSnapshot cap).
Proof. keeps_tac. Qed.

End agree.
