(* ===== verification/QParamProps.v ===== *)
(** * What the setters of [QCameraParameters] keep and lose

    The map that the application sees and the values that the back end was
    given agree for the settings of [QParamKeeps], whatever is asked, whatever
    the properties say and whatever the back end answers ([settings_agree]).  A
    request that changes nothing sends nothing.  The file also has the ways in
    which the locks, the flash and the text of a location get lost. *)
From stdpp Require Import functions.
From S2P Require Import Prelude CStr CameraParams CamParamParse QParamTables QParams QSetters QParamKeeps.
Local Open Scope string_scope.

(** ** Runs

    An update runs any of the setters, in any order, given by their positions
    in [request_setters]; the other operations commit by themselves. *)
Inductive q_op (V : Type) : Type :=
  | OpUpdate (which : list nat) (params : V)
  | OpCommit (answer : Z)
  | Op3ALock (lock3A : bool) (answer : Z)
  | OpCommitZoom (zoom_level answer : Z)
  | OpZslMode (value : bool) (answer : Z)
  | OpRecordingHint (value answer : Z)
  | OpLongshot (enable : bool) (answer : Z)
  | OpHistogram (enabled : bool) (answer : Z)
  | OpFlashMode (flash_mode answer : Z)
  | OpOis (oisValue : bool) (answer : Z)
  | OpFlash (answer : Z)
  | OpHDRScene (bflag : bool) (answer : Z)
  | OpFaceDetection (enabled : bool) (initCommit : option Z)
  | OpToneMap (enable : bool) (initCommit : option Z)
  | OpCds (cds_mode : Z) (initCommit : option Z)
  | OpInstantAec (value : Z) (initCommit : option Z)
  | OpTintless (enable : bool)
  | OpNumOfSnapshot.
Arguments OpUpdate {V}.
Arguments OpCommit {V}.
Arguments Op3ALock {V}.
Arguments OpCommitZoom {V}.
Arguments OpZslMode {V}.
Arguments OpRecordingHint {V}.
Arguments OpLongshot {V}.
Arguments OpHistogram {V}.
Arguments OpFlashMode {V}.
Arguments OpOis {V}.
Arguments OpFlash {V}.
Arguments OpHDRScene {V}.
Arguments OpFaceDetection {V}.
Arguments OpToneMap {V}.
Arguments OpCds {V}.
Arguments OpInstantAec {V}.
Arguments OpTintless {V}.
Arguments OpNumOfSnapshot {V}.

Section runs.
Context {V : Type} `{KeyedVectorLaws V}.
Context (lb : Z) (cap : capability).

Definition chosen (property_get : string → string → string) (which : list nat) : list (V → qm (V := V) Z) :=
  omap (λ i, request_setters property_get lb cap !! i) which.

(** The properties can differ from one operation to the next. *)
Definition do_q_op (property_get : string → string → string) (o : q_op V) : qm (V := V) () :=
  match o with
  | OpUpdate which params => updateParameters (chosen property_get which) params;; mret ()
  | OpCommit a => commitParameters a;; mret ()
  | Op3ALock b a => set3ALock cap b a;; mret ()
  | OpCommitZoom z a => setAndCommitZoom z a;; mret ()
  | OpZslMode b a => updateZSLModeValue b a;; mret ()
  | OpRecordingHint z a => updateRecordingHintValue z a;; mret ()
  | OpLongshot b a => setLongshotEnable b a;; mret ()
  | OpHistogram b a => setHistogram b a;; mret ()
  | OpFlashMode z a => updateFlashMode z a;; mret ()
  | OpOis b a => updateOisValue property_get lb b a;; mret ()
  | OpFlash a => updateFlash (Some a);; mret ()
  | OpHDRScene b a => setHDRSceneEnable b a
  | OpFaceDetection b a => setFaceDetection property_get lb cap b a;; mret ()
  | OpToneMap b a => setToneMapMode b a;; mret ()
  | OpCds z a => setCDSMode z a;; mret ()
  | OpInstantAec z a => setInstantAEC z a;; mret ()
  | OpTintless b => setTintless b
  | OpNumOfSnapshot => setNumOfSnapshot cap;; mret ()
  end.

Fixpoint run_ops (os : list ((string → string → string) * q_op V)) (s : qparams V) : qparams V :=
  match os with
  | [] => s
  | (pg, o) :: os => run_ops os (do_q_op pg o s).2
  end.

Lemma keeps_run_setters fs params rc : Forall (λ f, ∀ params, keeps lb (f params)) fs →
  keeps lb (run_setters fs params rc).
Proof.
  intros Hfs. revert rc. induction Hfs as [|f fs Hf _ IH]; intros rc; [apply keeps_mret|].
  simpl. apply keeps_mbind; [apply Hf|auto].
Qed.

Lemma chosen_setters pg which : (32 ≤ lb)%Z → Forall (λ f, ∀ params, keeps lb (f params)) (chosen pg which).
Proof.
  intros Hlb. unfold chosen. induction which as [|i which IH]; [constructor|]. simpl.
  destruct (request_setters pg lb cap !! i) as [f|] eqn:E; simpl; [|done].
  constructor; [|done]. pose proof (keeps_setters lb pg cap Hlb) as Hall.
  rewrite Forall_lookup in Hall. by apply (Hall i).
Qed.

Lemma keeps_update_parameters pg which params : (32 ≤ lb)%Z →
  keeps lb (updateParameters (chosen pg which) params).
Proof.
  intros Hlb. apply keeps_mbind; [apply neutral_keeps, neutral_assign|intros ?].
  apply keeps_mbind; [apply keeps_init|intros ?].
  apply keeps_mbind; [by apply keeps_run_setters, chosen_setters|intros rc].
  apply neutral_keeps. apply neutral_bind; [apply neutral_reads|intros ?; apply neutral_ret].
Qed.

Lemma keeps_do_q_op pg o : (32 ≤ lb)%Z → keeps lb (do_q_op pg o).
Proof.
  intros Hlb.
  assert (∀ A (m : qm A), keeps lb m → keeps lb (m;; mret ())) as Hm.
  { intros A m Hk. apply keeps_mbind; [done|intros ?; apply keeps_mret]. }
  destruct o; simpl.
  - by apply Hm, keeps_update_parameters.
  - apply Hm, keeps_commit.
  - apply Hm, keeps_set3ALock.
  - apply Hm, keeps_setAndCommitZoom.
  - apply Hm, keeps_updateZSLModeValue.
  - apply Hm, keeps_updateRecordingHintValue.
  - apply Hm, keeps_setLongshotEnable.
  - apply Hm, keeps_setHistogram.
  - apply Hm, keeps_updateFlashMode.
  - apply Hm, keeps_updateOisValue.
  - apply Hm, keeps_updateFlash.
  - apply keeps_setHDRSceneEnable.
  - apply Hm, keeps_setFaceDetection.
  - apply Hm, keeps_setToneMapMode.
  - apply Hm, keeps_setCDSMode.
  - apply Hm, keeps_setInstantAEC.
  - apply keeps_setTintless.
  - apply Hm, keeps_setNumOfSnapshot.
Qed.

Lemma agree_run os s : (32 ≤ lb)%Z → agree lb s → agree lb (run_ops os s).
Proof.
  intros Hlb. revert s. induction os as [|[pg o] os IH]; intros s Hs; [done|].
  apply IH. by apply keeps_do_q_op.
Qed.

(** No entry in the maps, nothing sent; the variables can have any values. *)
Definition fresh (s : qparams V) : Prop :=
  q_map s = kv_empty ∧ m_tempMap s = kv_empty ∧ q_backend s = ∅ ∧
  (∀ b, m_pParamBuf s = Some b → b = ∅).

(** C5: After any sequence of updates (any of the modelled setters in any
    order), commits and single-parameter operations from an object with
    nothing set, with any answers of the back end and the property service, a
    value that the map shows for one of the settings is the value the back end
    was last given for it in a batch that it accepted. *)
Theorem settings_agree os s st v : (32 ≤ lb)%Z → fresh s → st ∈ settings lb →
  get (s_key st) (q_map (run_ops os s)) = Some v →
  ∃ z, s_means st v = Some z ∧ q_backend (run_ops os s) !! s_parm st = Some [z].
Proof.
  intros Hlb (Hm & Ht & Hb & Hbuf) Hst Hv.
  assert (agree lb (run_ops os s)) as Hag.
  { apply agree_run; [done|]. intros st' Hst'. unfold setting_ok. rewrite Hm, Ht, kv_map_empty.
    split; [by intros ? ?|]. intros b ->%Hbuf. by split. }
  destruct (Hag st Hst) as [Ha _]. apply Ha.
  unfold get in Hv. destruct (kv_map _ !! s_key st) as [w|]; simpl in Hv; [|done].
  by destruct (w =? ""); simplify_eq.
Qed.

(** ** A request that changes nothing *)
Definition quiet_setters (pg : string → string → string) : list (V → qm (V := V) Z) :=
  [setPreviewFrameRate_params; setRecordingHint_params pg lb cap; setSceneSelectionMode_params;
   setAutoExposure_params; setBrightness_params lb cap; setSharpness_params lb cap;
   setSaturation_params lb cap; setContrast_params lb cap; setSkinToneEnhancement_params lb cap;
   setFocusMode_params; setFlash_params; setAecLock_params; setAwbLock_params;
   setLensShadeValue_params; setMCEValue_params; setDISValue_params; setAntibanding_params pg lb;
   setExposureCompensation_params lb cap; setWhiteBalance_params; setHDRMode_params cap;
   setHDRNeed1x_params; setSelectableZoneAf_params; setRedeyeReduction_params;
   setWaveletDenoise_params pg lb cap; setFaceRecognition_params lb; setFlip_params cap;
   setVideoHDR_params pg lb; setVtEnable_params; setAFBracket_params cap; setReFocus_params cap;
   setChromaFlash_params cap; setTruePortrait_params pg lb cap; setOptiZoom_params cap;
   setCacheVideoBuffers_params pg lb; setSeeMore_params cap; setStillMore_params cap;
   setNoiseReductionMode_params cap; setLongshotParam_params].

Definition same_text (params : V) (s : qparams V) : Prop := ∀ k, get k params = get k (q_map s).

Definition quiet (params : V) (f : V → qm (V := V) Z) : Prop :=
  ∀ s, same_text params s → f params s = (NO_ERROR, s).

Lemma changed_same str : changed str (Some str) = false.
Proof. simpl. by rewrite String.eqb_refl. Qed.

Lemma quiet_if_changed key params k : quiet params (λ params, if_changed key params k).
Proof.
  intros s Hs. unfold if_changed, mbind, qm_bind, qget, reads. rewrite Hs.
  destruct (get key (q_map s)) as [str|]; [|done]. by rewrite changed_same.
Qed.

Lemma quiet_restart bits key params k : quiet params (λ params, restart_if_changed cap bits key params k).
Proof.
  intros s Hs. unfold restart_if_changed. destruct (negb (feature cap bits)); [done|].
  by apply (quiet_if_changed key params).
Qed.

Lemma getInt_same key params s : same_text params s → getInt lb key params = getInt lb key (q_map s).
Proof. intros Hs. unfold getInt. by rewrite Hs. Qed.

Lemma quiet_in_range key ctrl setter params : quiet params (set_in_range lb key ctrl setter).
Proof.
  intros s Hs. unfold set_in_range, mbind, qm_bind, qgetInt, reads.
  rewrite (getInt_same key params s Hs), Z.eqb_refl. by destruct (get key params).
Qed.

Lemma quiet_hdr_mode params : quiet params (setHDRMode_params cap).
Proof.
  intros s Hs. unfold setHDRMode_params. destruct (get KEY_QC_HDR_MODE params); [|done].
  repeat (case_match; [done|]). by apply (quiet_if_changed KEY_QC_HDR_MODE params).
Qed.

Lemma quiet_hdr_need_1x params : quiet params setHDRNeed1x_params.
Proof.
  intros s Hs. unfold setHDRNeed1x_params. unfold mbind at 1, qm_bind at 1. simpl.
  destruct (q_flag s m_bHDRModeSensor); [done|]. by apply (quiet_if_changed KEY_QC_HDR_NEED_1X params).
Qed.

Lemma quiet_true_portrait pg params : quiet params (setTruePortrait_params pg lb cap).
Proof.
  intros s Hs. unfold setTruePortrait_params.
  destruct (negb (feature cap CAM_QCOM_FEATURE_TRUEPORTRAIT)); [done|].
  by apply (quiet_if_changed KEY_QC_TRUE_PORTRAIT params).
Qed.

Lemma quiet_scene_selection params : quiet params setSceneSelectionMode_params.
Proof.
  intros s Hs. unfold setSceneSelectionMode_params. unfold mbind at 1, qm_bind at 1. simpl.
  by apply (quiet_if_changed KEY_QC_SCENE_SELECTION params).
Qed.

Lemma quiet_frame_rate params : quiet params setPreviewFrameRate_params.
Proof.
  intros s Hs. unfold setPreviewFrameRate_params, mbind, qm_bind, qget, reads. rewrite Hs.
  destruct (get KEY_PREVIEW_FRAME_RATE (q_map s)); [|done]. by rewrite String.eqb_refl.
Qed.

Lemma quiet_longshot params : quiet params setLongshotParam_params.
Proof.
  intros s Hs. unfold setLongshotParam_params, mbind, qm_bind, qget, reads. rewrite Hs.
  destruct (get KEY_QC_LONG_SHOT (q_map s)); [|done]. by rewrite changed_same.
Qed.

Lemma set_flip_same key f params s : same_text params s → set_flip key f params s = ((), s).
Proof.
  intros Hs. unfold set_flip, mbind, qm_bind, qget, reads. rewrite Hs.
  destruct (get key (q_map s)); [|done]. by rewrite changed_same.
Qed.

Lemma quiet_flip params : quiet params (setFlip_params cap).
Proof.
  intros s Hs. unfold setFlip_params. destruct (negb (feature cap CAM_QCOM_FEATURE_FLIP)); [done|].
  unfold mbind, qm_bind. by rewrite !set_flip_same.
Qed.

Lemma quiet_all pg params : Forall (quiet params) (quiet_setters pg).
Proof.
  unfold quiet_setters.
  repeat (apply Forall_cons_2;
    [first [apply quiet_hdr_mode | apply quiet_hdr_need_1x | apply quiet_true_portrait
           | apply quiet_scene_selection | apply quiet_frame_rate | apply quiet_longshot
           | apply quiet_flip
           | lazymatch goal with |- quiet _ ?f => let h := head_of f in unfold h end;
             first [apply quiet_if_changed | apply quiet_restart | apply quiet_in_range]]|]).
  apply Forall_nil_2.
Qed.

Lemma run_quiet fs params s rc : Forall (quiet params) fs → same_text params s →
  run_setters fs params rc s = (rc, s).
Proof.
  intros Hfs Hs. induction Hfs as [|f fs Hf _ IH]; [done|].
  simpl. unfold mbind, qm_bind. by rewrite (Hf s Hs).
Qed.

Lemma commit_empty s : m_tempMap s = kv_empty →
  ∃ s', commitParamChanges s = (NO_ERROR, s') ∧ q_backend s' = q_backend s ∧
        q_map s' = q_map s ∧ m_pParamBuf s' = m_pParamBuf s.
Proof.
  intros Ht. unfold commitParamChanges, commit_flags, mbind, qm_bind. simpl.
  rewrite Ht, kv_items_empty. simpl.
  match goal with |- context [if ?b then _ else _] => destruct b end;
    simpl; eexists; split_and!; reflexivity.
Qed.

Lemma commit_nothing s a : m_pParamBuf s = Some ∅ → m_pCamOpsTbl s = true → m_tempMap s = kv_empty →
  ∃ s', commitSetBatch a s = (NO_ERROR, s') ∧ q_backend s' = q_backend s ∧
        q_map s' = q_map s ∧ m_pParamBuf s' = Some ∅.
Proof.
  intros Hb Ho Ht. unfold commitSetBatch, mbind, qm_bind, reads. rewrite Hb, Ho.
  destruct (commit_empty s Ht) as (s' & Hc & Hp & Hm & Hb'). exists s'.
  rewrite bool_decide_true by done. rewrite Hb', Hb. split_and!; [exact Hc|done..].
Qed.

(** A request whose texts are those of the map, given to any choice of
    the setters that compare with the map, and then committed, succeeds, needs
    no restart, sends nothing to the back end and changes no entry. *)
Theorem unchanged_request_sends_nothing pg fs params answer s :
  fs ⊆ quiet_setters pg → same_text params s → m_pParamBuf s ≠ None → m_pCamOpsTbl s = true →
  let '(rc, restart, s1) := (λ r, (r.1.1, r.1.2, r.2)) (updateParameters fs params s) in
  let '(rc', s2) := commitParameters answer s1 in
  rc = NO_ERROR ∧ restart = false ∧ rc' = NO_ERROR ∧
  q_backend s2 = q_backend s ∧ q_map s2 = q_map s ∧ m_pParamBuf s2 = Some ∅.
Proof.
  intros Hfs Hs Hbuf Hops.
  assert (Forall (quiet params) fs) as Hq.
  { apply Forall_forall. intros f Hf. pose proof (quiet_all pg params) as Hall.
    rewrite Forall_forall in Hall. apply Hall, Hfs, Hf. }
  unfold updateParameters, mbind, qm_bind. simpl. rewrite run_quiet by done. simpl.
  set (s1 := with_batch _ _). assert (m_pParamBuf s1 = Some ∅) as Hb1.
  { subst s1. simpl. by destruct (m_pParamBuf s). }
  destruct (commit_nothing s1 answer Hb1) as (s2 & Hc & Hb & Hm & Hbuf'); [done..|].
  unfold commitParameters. rewrite Hc. by split_and!.
Qed.

(** ** What gets lost *)

(** [commitSetBatch] when the back end accepts a batch that is not empty. *)
Lemma commit_accepted s b : m_pParamBuf s = Some b → b ≠ ∅ → m_pCamOpsTbl s = true →
  m_tempMap s = kv_empty →
  ∃ s', commitSetBatch NO_ERROR s = (NO_ERROR, s') ∧ q_backend s' = b ∪ q_backend s ∧
        q_map s' = q_map s.
Proof.
  intros Hb Hne Ho Ht. unfold commitSetBatch, mbind, qm_bind. simpl. rewrite Hb, Ho. simpl.
  rewrite bool_decide_false by done. unfold call_set_parms. rewrite Hb. simpl.
  destruct (commit_empty (with_backend (b ∪ q_backend s) s)) as (s' & -> & Hp & Hm & _); [done|].
  by exists s'.
Qed.

Lemma commit_rejected s answer : answer ≠ NO_ERROR → m_pParamBuf s ≠ None → m_pParamBuf s ≠ Some ∅ →
  m_pCamOpsTbl s = true → commitSetBatch answer s = (answer, s).
Proof.
  intros Ha Hn He Ho. unfold commitSetBatch, mbind, qm_bind. simpl.
  destruct (m_pParamBuf s) as [b|] eqn:Eb; [|done]. rewrite Ho. simpl.
  rewrite bool_decide_false by congruence. unfold call_set_parms. rewrite Eb.
  apply Z.eqb_neq in Ha. by rewrite Ha.
Qed.

(** Releasing the 3A lock of a capture unlocks the exposure in the back
    end while the map still shows the lock of the application, and the setter,
    which compares with the map, does not send it again. *)
Theorem unlock_overrides_application s params :
  m_pParamBuf s ≠ None → m_pCamOpsTbl s = true →
  get KEY_AUTO_EXPOSURE_LOCK (q_map s) = Some VALUE_TRUE →
  get KEY_AUTO_EXPOSURE_LOCK params = Some VALUE_TRUE →
  let '(rc, s') := set3ALock cap false NO_ERROR s in
  rc = NO_ERROR ∧ get KEY_AUTO_EXPOSURE_LOCK (q_map s') = Some VALUE_TRUE ∧
  q_backend s' !! CAM_INTF_PARM_AEC_LOCK = Some [0%Z] ∧
  setAecLock_params params s' = (NO_ERROR, s').
Proof.
  intros Hn Ho Hm Hp. destruct (m_pParamBuf s) as [b|] eqn:Eb; [|done].
  set (focus := default CAM_FOCUS_MODE_AUTO (lookupAttr FOCUS_MODES_MAP (get KEY_FOCUS_MODE (q_map s)))).
  set (batch := <[CAM_INTF_PARM_FOCUS_MODE:=[focus]]> (<[CAM_INTF_PARM_AEC_LOCK:=[0%Z]]>
    (<[CAM_INTF_PARM_AWB_LOCK:=[0%Z]]> (∅ : gmap Z (list Z))))).
  set (s1 := QP (q_map s) kv_empty (Some batch) (m_pCamOpsTbl s) (q_flag s) (q_field s)
    (m_AEBracketingClient s) (q_backend s)).
  assert (set3ALock cap false NO_ERROR s = commitSetBatch NO_ERROR s1) as ->.
  { subst s1 batch focus. destruct s. simpl in Eb. subst. reflexivity. }
  destruct (commit_accepted s1 batch) as (s' & -> & Hb & Hs'); [done|apply insert_non_empty|done..|].
  change (q_map s1) with (q_map s) in Hs'. split_and!; [done|by rewrite Hs'| |].
  - rewrite Hb. apply lookup_union_Some_l. unfold batch. rewrite lookup_insert_ne by done.
    apply lookup_insert_eq.
  - unfold setAecLock_params, if_changed, mbind, qm_bind, qget, reads. by rewrite Hs', Hp, Hm.
Qed.

Lemma flash_value_pure (s : qparams V) : flash_value s = ((flash_value s).1, s).
Proof. done. Qed.

Lemma flash_value_eq (s s' : qparams V) : q_flag s' = q_flag s → q_field s' mFlashValue = q_field s mFlashValue →
  (flash_value s').1 = (flash_value s).1.
Proof. 
  intros Hf Hv. unfold flash_value, isHDREnabled, flag_of, field_of, reads, mbind, qm_bind. simpl.
  by rewrite !Hf, Hv.
Qed.

(** Up to the commit. *)
Lemma updateFlash_spec (s : qparams V) b answer : m_pParamBuf s = Some b →
  updateFlash (Some answer) s =
    (if ((flash_value s).1 =? q_field s mFlashDaemonValue)%Z
     then commitSetBatch answer (with_batch (λ _, ∅) (with_temp (λ _, kv_empty) s))
     else commitSetBatch answer (with_field mFlashDaemonValue (flash_value s).1
            (with_batch <[CAM_INTF_PARM_LED_MODE := [(flash_value s).1]]>
               (with_batch (λ _, ∅) (with_temp (λ _, kv_empty) s))))).
Proof.
  intros Hb. unfold updateFlash. unfold mbind at 1, qm_bind at 1.
  change (initBatchUpdate s) with (NO_ERROR, with_batch (λ _, ∅) (with_temp (λ _, kv_empty) s)).
  cbv iota beta. set (s0 := with_batch _ _). unfold mbind at 1, qm_bind at 1.
  rewrite (flash_value_pure s0). rewrite (flash_value_eq s s0) by done.
  unfold mbind at 1, qm_bind at 1. unfold field_of, reads. change (q_field s0) with (q_field s).
  destruct (_ =? _)%Z; [done|]. unfold add_entry, mbind, qm_bind, ADD_SET_PARAM_ENTRY_TO_BATCH.
  assert (m_pParamBuf s0 = Some ∅) as -> by (subst s0; simpl; by rewrite Hb). done.
Qed.

(** The flash mode is taken as sent before the back end has accepted it: after a
    rejected batch the same mode is not sent again. *)
Theorem rejected_flash_is_not_retried (s : qparams V) answer :
  m_pParamBuf s ≠ None → m_pCamOpsTbl s = true → answer ≠ NO_ERROR →
  (flash_value s).1 ≠ q_field s mFlashDaemonValue →
  let '(rc, s1) := updateFlash (Some answer) s in
  let '(rc', s2) := updateFlash (Some NO_ERROR) s1 in
  rc = answer ∧ rc' = NO_ERROR ∧ (flash_value s1).1 = (flash_value s).1 ∧
  q_backend s2 = q_backend s.
Proof.
  intros Hn Ho Ha Hv. destruct (m_pParamBuf s) as [b|] eqn:Eb; [|done].
  rewrite (updateFlash_spec s b) by done. apply Z.eqb_neq in Hv. rewrite Hv.
  set (v := (flash_value s).1) in *. set (s1 := with_field _ _ _).
  assert (m_pParamBuf s1 = Some {[CAM_INTF_PARM_LED_MODE := [v]]}) as Hb1.
  { subst s1. simpl. rewrite Eb. simpl. by rewrite insert_empty. }
  rewrite commit_rejected; [|done|by rewrite Hb1|by rewrite Hb1|done].
  assert ((flash_value s1).1 = v) as Hv1 by (by apply flash_value_eq).
  rewrite (updateFlash_spec s1 _ _ Hb1), Hv1.
  assert (q_field s1 mFlashDaemonValue = v) as -> by (apply fn_lookup_insert).
  rewrite Z.eqb_refl.
  destruct (commit_nothing (with_batch (λ _, ∅) (with_temp (λ _, kv_empty) s1)) NO_ERROR)
    as (s2 & -> & Hb & _); [by simpl; rewrite Eb|done..|]. by split_and!.
Qed.

Lemma commit_keeps_map (s : qparams V) a : m_tempMap s = kv_empty →
  q_map (commitSetBatch a s).2 = q_map s.
Proof.
  intros Ht. unfold commitSetBatch, mbind, qm_bind, reads.
  destruct (m_pParamBuf s) as [b|] eqn:Eb; [|done]. destruct (m_pCamOpsTbl s); [|done].
  case_bool_decide.
  - destruct (commit_empty s Ht) as (s' & Hc & _ & Hm & _). by transitivity (q_map (commitParamChanges s).2); [|rewrite Hc].
  - unfold call_set_parms, negb. rewrite Eb. destruct (a =? NO_ERROR)%Z; [|done].
    destruct (commit_empty (with_backend (b ∪ q_backend s) s) Ht) as (s' & -> & _ & Hm & _). done.
Qed.

(** The entry of [updateOisValue] is cleared before the commit. *)
Lemma ois_setting_is_not_stored pg b a (s : qparams V) :
  q_map (updateOisValue pg lb b a s).2 = q_map s.
Proof.
  assert (∃ v s1, updateOisValue pg lb b a s = add_entry CAM_INTF_META_LENS_OPT_STAB_MODE [v] (commitSetBatch a) s1
    ∧ m_tempMap s1 = kv_empty ∧ q_map s1 = q_map s) as (v & s1 & -> & Ht & Hm).
  { set (size := getVideoSize lb (q_map s)).
    set (enable := (negb (q_flag s m_bRecordingHint)
      || negb ((size.1 <? 3840)%Z && (size.2 <? 2160)%Z) && q_flag s m_bRecordingHint)
      && negb (uint8_property pg lb "persist.vendor.camera.ois.disable" || negb b)).
    exists (Z.b2z enable), (with_batch (λ _, ∅) (with_temp (λ _, kv_empty)
      (with_temp (kv_add KEY_QC_OIS (if enable then VALUE_ENABLE else VALUE_DISABLE))
         (with_flag m_bOISEnabled enable s)))). split; [reflexivity|done]. }
  rewrite <- Hm. unfold add_entry, ADD_SET_PARAM_ENTRY_TO_BATCH, mbind, qm_bind.
  destruct (m_pParamBuf s1); [|done].
  by apply (commit_keeps_map (with_batch <[CAM_INTF_META_LENS_OPT_STAB_MODE := [v]]> s1)).
Qed.

(** ** The EXIF text *)
Lemma length_bytes_of s : length (bytes_of s) = String.length s.
Proof. unfold bytes_of. rewrite length_fmap. induction s; simpl; auto. Qed.

Lemma substring_fits n s : (String.length s ≤ n)%nat → String.substring 0 n s = s.
Proof.
  revert n. induction s as [|c s IH]; intros [|n] Hn; simpl in *; [done..|lia|].
  by rewrite IH by lia.
Qed.

Lemma substring_length n s : (n ≤ String.length s)%nat → String.length (String.substring 0 n s) = n.
Proof.
  revert n. induction s as [|c s IH]; intros [|n] Hn; simpl in *; [done|lia|done|].
  by rewrite IH by lia.
Qed.

Lemma write_at_fits i bs buf : (i + length bs ≤ length buf)%nat →
  write_at i bs buf = Some (take i buf ++ bs ++ drop (i + length bs) buf)%list.
Proof. intros Hi. unfold write_at. by rewrite decide_True. Qed.

Lemma write_at_length i bs buf buf' : write_at i bs buf = Some buf' → length buf' = length buf.
Proof.
  unfold write_at. case_decide; [|done]. intros [= <-].
  rewrite !length_app, length_take, length_drop. lia.
Qed.

(** The EXIF processing method of a text shorter than its field is the
    prefix, the text and a zero byte, with their count; a longer text makes
    getExifGpsProcessingMethod write behind the end of the buffer of its
    caller. *)
Theorem exif_method_overflow (s : qparams V) str buf :
  length buf = (EXIF_ASCII_PREFIX_SIZE + GPS_PROCESSING_METHOD_SIZE)%nat →
  get KEY_GPS_PROCESSING_METHOD (q_map s) = Some str →
  if decide (String.length str < GPS_PROCESSING_METHOD_SIZE)%nat then
    ∃ rest, getExifGpsProcessingMethod buf s =
      Some (NO_ERROR, ExifAsciiPrefix ++ bytes_of str ++ 0%Z :: rest,
            Z.of_nat (EXIF_ASCII_PREFIX_SIZE + String.length str + 1))%list
  else getExifGpsProcessingMethod buf s = None.
Proof.
  intros Hbuf Hstr. unfold getExifGpsProcessingMethod, EXIF_ASCII_PREFIX_SIZE, GPS_PROCESSING_METHOD_SIZE in *.
  rewrite Hstr, write_at_fits by (simpl; lia). cbn [mbind option_bind].
  set (buf1 := (take 0 buf ++ _)%list).
  assert (length buf1 = 41%nat) as Hl1.
  { subst buf1. rewrite !length_app, length_take, length_drop. simpl. lia. }
  assert (take 8 buf1 = ExifAsciiPrefix) as Ht1 by done. clearbody buf1.
  assert (∀ t, (length (bytes_of t) ≤ 32)%nat →
    write_at 8 (bytes_of t ++ [0%Z]) buf1 =
      Some (ExifAsciiPrefix ++ bytes_of t ++ 0%Z :: drop (9 + length (bytes_of t)) buf1)%list) as Hw.
  { intros t Ht. rewrite write_at_fits; rewrite length_app; cbn [length]; [|lia].
    rewrite Ht1, <- app_assoc.
    by replace (8 + (length (bytes_of t) + 1))%nat with (9 + length (bytes_of t))%nat by lia. }
  case_decide as Hlen.
  - unfold strlcpy. rewrite substring_fits by lia.
    rewrite Hw by (rewrite length_bytes_of; lia). cbn [mbind option_bind].
    set (rest := drop _ buf1).
    assert (length (ExifAsciiPrefix ++ bytes_of str) = 8 + String.length str)%nat as Hl.
    { rewrite length_app, length_bytes_of. done. }
    rewrite app_assoc, write_at_fits.
    2: { rewrite length_app, Hl. subst rest. cbn [length].
         rewrite length_drop, length_bytes_of. lia. }
    cbn [mbind option_bind]. exists rest. rewrite take_app_length' by done.
    rewrite drop_app, Hl, drop_ge by (rewrite Hl; cbn [length]; lia). cbn [length app].
    replace (8 + String.length str + 1 - (8 + String.length str))%nat with 1%nat by lia.
    cbn [drop]. rewrite <- app_assoc. do 2 f_equal. lia.
  - unfold strlcpy. rewrite Hw by (rewrite length_bytes_of, substring_length; lia).
    cbn [mbind option_bind]. unfold write_at at 1. rewrite decide_False; [done|].
    rewrite !length_app. cbn [length].
    rewrite length_drop, length_bytes_of, substring_length by lia. cbn [length ExifAsciiPrefix]. lia.
Qed.
End runs.

(** ** Witnesses *)
Definition defaults (key d : string) : string := d.

Definition a_cap : capability :=
  Capability (0, 6)%Z (0, 36)%Z (-100, 100)%Z (0, 10)%Z (0, 10)%Z (-12, 12)%Z true 10 0 5
    (λ _, (1920, 1080)%Z) 1 (λ _, (1920, 1080)%Z) 1 (λ _, (0, 0)%Z) 0 1 0 1600.

Definition start_state : qparams sorted_list :=
  QP kv_empty kv_empty (Some ∅) true (λ _, false) (λ _, 0%Z) (0%Z, "") ∅.

Definition texts (l : list (string * string)) : sorted_list :=
  foldl (λ m p, set p.1 p.2 m) kv_empty l.

(** Accepted, then a request that is rejected, then another that is accepted in part. *)
Definition a_run : list ((string → string → string) * q_op sorted_list) :=
  [(defaults, OpUpdate (seq 0 80) (texts [("effect", "sepia"); ("luma-adaptation", "3")]));
   (defaults, OpCommit 0);
   (defaults, OpUpdate (seq 0 80) (texts [("effect", "mono"); ("luma-adaptation", "4")]));
   (defaults, OpCommit (-1));
   (defaults, Op3ALock true 0);
   (defaults, OpUpdate [16; 17; 18]%nat (texts [("effect", "nonsense"); ("luma-adaptation", "5")]));
   (defaults, OpCommit 0)].

Lemma settings_agree_witness :
  fresh start_state ∧ get KEY_EFFECT (q_map (run_ops 64 a_cap a_run start_state)) = Some "sepia" ∧
  get KEY_QC_BRIGHTNESS (q_map (run_ops 64 a_cap a_run start_state)) = Some "5" ∧
  q_backend (run_ops 64 a_cap a_run start_state) !! CAM_INTF_PARM_EFFECT = Some [4%Z].
Proof.
  split; [by split_and!; [..|intros b [= <-]]|].
  split; [vm_compute; reflexivity|]. split; [vm_compute; reflexivity|].
  destruct (settings_agree 64 a_cap a_run start_state
    (enum KEY_EFFECT EFFECT_MODES_MAP CAM_INTF_PARM_EFFECT) "sepia") as (z & Hz & Hb).
  - lia.
  - by split_and!; [..|intros b [= <-]].
  - right. left.
  - vm_compute. reflexivity.
  - vm_compute in Hz. injection Hz as <-. exact Hb.
Defined.

Definition a_request : sorted_list := texts [("effect", "sepia"); ("dis", "enable"); ("contrast", "7")].
Definition same_state : qparams sorted_list :=
  QP a_request kv_empty (Some ∅) true (λ _, false) (λ _, 0%Z) (0%Z, "") ∅.

Lemma unchanged_request_sends_nothing_witness :
  (updateParameters [setDISValue_params; setContrast_params 64 a_cap] a_request same_state).1
    = (NO_ERROR, false) ∧
  (commitParameters (-5) (updateParameters [setDISValue_params; setContrast_params 64 a_cap]
    a_request same_state).2).1 = NO_ERROR.
Proof.
  pose proof (unchanged_request_sends_nothing 64 a_cap defaults
    [setDISValue_params; setContrast_params 64 a_cap] a_request (-5) same_state) as Hq.
  assert ([setDISValue_params; setContrast_params 64 a_cap] ⊆ quiet_setters (V := sorted_list) 64 a_cap defaults) as Hin.
  { intros f Hf. repeat (apply elem_of_cons in Hf as [->|Hf]; [|try by apply not_elem_of_nil in Hf]).
    - do 15 apply list_elem_of_further. apply list_elem_of_here.
    - do 7 apply list_elem_of_further. apply list_elem_of_here. }
  specialize (Hq Hin (λ k, eq_refl) ltac:(done) eq_refl).
  destruct (updateParameters _ _ _) as [[rc restart] s1]. simpl in Hq.
  destruct (commitParameters (-5) s1) as [rc' s2] eqn:E.
  destruct Hq as (-> & -> & -> & _). split; [done|]. simpl. by rewrite E.
Defined.

Definition locked : qparams sorted_list :=
  QP (texts [("auto-exposure-lock", "true")]) kv_empty (Some ∅) true (λ _, false) (λ _, 0%Z) (0%Z, "")
    {[CAM_INTF_PARM_AEC_LOCK := [1%Z]]}.

Lemma unlock_overrides_application_witness :
  get KEY_AUTO_EXPOSURE_LOCK (q_map locked) = Some VALUE_TRUE ∧
  q_backend (set3ALock a_cap false NO_ERROR locked).2 !! CAM_INTF_PARM_AEC_LOCK = Some [0%Z].
Proof.
  split; [reflexivity|].
  pose proof (unlock_overrides_application a_cap locked (q_map locked) ltac:(done) eq_refl
    eq_refl eq_refl) as Hl.
  destruct (set3ALock a_cap false NO_ERROR locked) as [rc s']. simpl. apply Hl.
Defined.

Definition flash_on : qparams sorted_list :=
  QP kv_empty kv_empty (Some ∅) true (λ _, false) (<[mFlashValue := 2%Z]> (λ _, 0%Z)) (0%Z, "") ∅.

Lemma rejected_flash_is_not_retried_witness :
  (flash_value flash_on).1 = 2%Z ∧
  q_backend (updateFlash (Some NO_ERROR) (updateFlash (Some (-1)%Z) flash_on).2).2 = ∅.
Proof.
  split; [reflexivity|].
  pose proof (rejected_flash_is_not_retried flash_on (-1) ltac:(done) eq_refl ltac:(done) ltac:(done)) as Hf.
  destruct (updateFlash (Some (-1)%Z) flash_on) as [rc s1]. simpl.
  destruct (updateFlash (Some NO_ERROR) s1) as [rc' s2]. by destruct Hf as (_ & _ & _ & Hf).
Defined.

Lemma exif_method_overflow_witness :
  getExifGpsProcessingMethod (replicate 41 0%Z)
    (QP (texts [("gps-processing-method", "0123456789012345678901234567890123456789")]) kv_empty None true
       (λ _, false) (λ _, 0%Z) (0%Z, "") ∅) = None.
Proof.
  apply (exif_method_overflow _ "0123456789012345678901234567890123456789" (replicate 41 0%Z));
    reflexivity.
Defined.

(** Disabling the timer of a video call enables it. *)
Example vt_disable_enables_timer :
  let '(rc, s) := setVtEnable (Some VALUE_DISABLE) start_state in
  rc = NO_ERROR ∧ q_flag s m_bAVTimerEnabled = true.
Proof. by vm_compute. Qed.

(** A phone that has only multi-frame HDR ignores the name of that mode. *)
Example hdr_mode_ignored :
  let cap := Capability (0, 0)%Z (0, 0)%Z (0, 0)%Z (0, 0)%Z (0, 0)%Z (0, 0)%Z false 0 CAM_QCOM_FEATURE_HDR 0
    (λ _, (0, 0)%Z) 0 (λ _, (0, 0)%Z) 0 (λ _, (0, 0)%Z) 0 0 0 0 in
  setHDRMode_params cap (texts [("hdr-mode", HDR_MODE_MULTI_FRAME)]) start_state = (NO_ERROR, start_state).
Proof. reflexivity. Qed.
