(* ===== verification/FrameParser.v ===== *)
(** * Frame parser of the video decoder

    Models [frame_parse] of [mm-video-v4l2/vidc/vdec/src/frameparser.cpp] and
    [inc/frameparser.h]: the search for start codes in a stream that arrives in
    buffers, and the conversion of NAL units with a length in front.  A source
    buffer is its [nFilledLen] bytes from [nOffset] on; a destination buffer is
    the bytes filled so far, with its size.  [Undefined] is undefined behaviour:
    bytes are copied past the end of the destination, or the start code is read
    while it is null (VP8, or [init_start_codes] failed); [NoFuel] is a loop
    that did not end within its fuel, which does not happen. *)
From S2P Require Import Prelude.
Local Open Scope Z_scope.

(** ** Outcomes *)
Inductive outcome (A : Type) : Type :=
  | Done (a : A)
  | Undefined
  | NoFuel.
Arguments Done {_} _.
Arguments Undefined {_}.
Arguments NoFuel {_}.

#[export] Instance outcome_ret : MRet outcome := λ A, Done.
#[export] Instance outcome_bind : MBind outcome := λ A B f o,
  match o with Done a => f a | Undefined => Undefined | NoFuel => NoFuel end.

(** ** Data *)
Inductive state_start_code_parse : Set := A0 | A1 | A2 | A3 | A4 | A5.
Inductive state_nal_parse : Set := NAL_LENGTH_ACC | NAL_PARSING.

(** The start codes that [start_code] can point to. *)
Inductive start_code : Set := SC_MPEG4 | SC_H263 | SC_H264 | SC_VC1_AP | SC_MPEG2.

#[export] Instance state_start_code_parse_eq : EqDecision state_start_code_parse.
Proof. solve_decision. Defined.
#[export] Instance state_nal_parse_eq : EqDecision state_nal_parse.
Proof. solve_decision. Defined.

Definition start_bytes (c : start_code) : list Z :=
  match c with
  | SC_H264 => [0; 0; 0; 1]
  | SC_MPEG4 => [0; 0; 1; 0xB6]
  | SC_H263 => [0; 0; 0x80; 0]
  | SC_VC1_AP => [0; 0; 1; 0x0C]
  | SC_MPEG2 => [0; 0; 1; 0]
  end.

Definition mask_bytes (c : start_code) : list Z :=
  match c with
  | SC_H264 | SC_MPEG4 | SC_MPEG2 => [0xFF; 0xFF; 0xFF; 0xFF]
  | SC_H263 => [0xFF; 0xFF; 0xFC; 0]
  | SC_VC1_AP => [0xFF; 0xFF; 0xFF; 0xFC]
  end.

Definition sc_byte (c : start_code) (i : nat) : Z := nth i (start_bytes c) 0.
Definition byte_match (c : start_code) (i : nat) (b : Z) : bool :=
  Z.land b (nth i (mask_bytes c) 0) =? sc_byte c i.

Record frame_parse := FrameParse {
  parse_state : state_start_code_parse;
  code : option start_code;
  last_byte_h263 : Z;
  last_byte : Z;
  header_found : bool;
  skip_frame_boundary : bool;
  state_nal : state_nal_parse;
  nal_length : Z;
  accum_length : Z;
  bytes_tobeparsed : Z
}.

Definition new_frame_parse : frame_parse :=
  FrameParse A0 None 0 0 false false NAL_LENGTH_ACC 0 0 0.

Definition set_parse_state (q : state_start_code_parse) (p : frame_parse) : frame_parse :=
  FrameParse q (code p) (last_byte_h263 p) (last_byte p) (header_found p) (skip_frame_boundary p)
    (state_nal p) (nal_length p) (accum_length p) (bytes_tobeparsed p).
Definition set_code (c : start_code) (p : frame_parse) : frame_parse :=
  FrameParse (parse_state p) (Some c) (last_byte_h263 p) (last_byte p) (header_found p)
    (skip_frame_boundary p) (state_nal p) (nal_length p) (accum_length p) (bytes_tobeparsed p).
Definition set_last_byte_h263 (b : Z) (p : frame_parse) : frame_parse :=
  FrameParse (parse_state p) (code p) b (last_byte p) (header_found p) (skip_frame_boundary p)
    (state_nal p) (nal_length p) (accum_length p) (bytes_tobeparsed p).
Definition set_last_byte (b : Z) (p : frame_parse) : frame_parse :=
  FrameParse (parse_state p) (code p) (last_byte_h263 p) b (header_found p) (skip_frame_boundary p)
    (state_nal p) (nal_length p) (accum_length p) (bytes_tobeparsed p).
Definition set_header_found (h : bool) (p : frame_parse) : frame_parse :=
  FrameParse (parse_state p) (code p) (last_byte_h263 p) (last_byte p) h (skip_frame_boundary p)
    (state_nal p) (nal_length p) (accum_length p) (bytes_tobeparsed p).
Definition set_skip (s : bool) (p : frame_parse) : frame_parse :=
  FrameParse (parse_state p) (code p) (last_byte_h263 p) (last_byte p) (header_found p) s
    (state_nal p) (nal_length p) (accum_length p) (bytes_tobeparsed p).
Definition set_nal (s : state_nal_parse) (len acc todo : Z) (p : frame_parse) : frame_parse :=
  FrameParse (parse_state p) (code p) (last_byte_h263 p) (last_byte p) (header_found p)
    (skip_frame_boundary p) s len acc todo.

(** The fields of [OMX_BUFFERHEADERTYPE] that are used, for the two roles. *)
Record source_hdr := SourceHdr {
  s_bytes : list Z; s_nOffset : Z; s_nFlags : Z; s_nTimeStamp : Z
}.
Record dest_hdr := DestHdr {
  d_bytes : list Z; d_nOffset : Z; d_nAllocLen : Z; d_nFlags : Z; d_nTimeStamp : Z
}.

Definition OMX_BUFFERFLAG_EOS : Z := 1.
Definition is_eos (s : source_hdr) : bool := negb (Z.land (s_nFlags s) OMX_BUFFERFLAG_EOS =? 0).

Definition dest_len (d : dest_hdr) : Z :=
  wrap_unsigned 32 (d_nAllocLen d - (Z.of_nat (length (d_bytes d)) + d_nOffset d)).
Definition add_bytes (l : list Z) (d : dest_hdr) : dest_hdr :=
  DestHdr (d_bytes d ++ l) (d_nOffset d) (d_nAllocLen d) (d_nFlags d) (d_nTimeStamp d).

(** [memcpy] to the end of what is filled, with [nFilledLen] updated. *)
Definition put_bytes (l : list Z) (d : dest_hdr) : outcome dest_hdr :=
  if Z.of_nat (length (d_bytes d ++ l)) + d_nOffset d <=? d_nAllocLen d then Done (add_bytes l d)
  else Undefined.
Definition put_info (s : source_hdr) (d : dest_hdr) : dest_hdr :=
  DestHdr (d_bytes d) (d_nOffset d) (d_nAllocLen d) (s_nFlags s) (s_nTimeStamp s).
Definition skip_source (n : nat) (s : source_hdr) : source_hdr :=
  SourceHdr (drop n (s_bytes s)) (s_nOffset s + Z.of_nat n) (s_nFlags s) (s_nTimeStamp s).

(** ** Start codes *)
Definition CODEC_TYPE_MPEG4 : Z := 0.
Definition CODEC_TYPE_H263 : Z := 1.
Definition CODEC_TYPE_H264 : Z := 2.
Definition CODEC_TYPE_VC1 : Z := 3.
Definition CODEC_TYPE_MPEG2 : Z := 4.
Definition CODEC_TYPE_VP8 : Z := 5.
Definition CODEC_TYPE_HEVC : Z := 6.
Definition CODEC_TYPE_MAX : Z := 7.

(** With [_MSM8974_] defined. *)
Definition init_start_codes (codec_type_parse : Z) (p : frame_parse) : Z * frame_parse :=
  if (CODEC_TYPE_MAX <? codec_type_parse) || negb (bool_decide (parse_state p = A0)) then (-1, p)
  else if codec_type_parse =? CODEC_TYPE_MPEG4 then (1, set_code SC_MPEG4 p)
  else if codec_type_parse =? CODEC_TYPE_H263 then (1, set_code SC_H263 p)
  else if (codec_type_parse =? CODEC_TYPE_H264) || (codec_type_parse =? CODEC_TYPE_HEVC) then
    (1, set_code SC_H264 p)
  else if codec_type_parse =? CODEC_TYPE_VC1 then (1, set_code SC_VC1_AP p)
  else if codec_type_parse =? CODEC_TYPE_MPEG2 then (1, set_code SC_MPEG2 p)
  else if codec_type_parse =? CODEC_TYPE_VP8 then (1, p)
  else (-1, p).

Definition flush (p : frame_parse) : frame_parse :=
  FrameParse A0 (code p) (last_byte_h263 p) (last_byte p) false false
    NAL_LENGTH_ACC (nal_length p) 0 0.

(** A visual object sequence or a sequence header also ends a frame. *)
Definition header_byte (c : start_code) (b : Z) : bool :=
  match c with
  | SC_MPEG4 => Z.land b 0xF0 =? 0x20
  | SC_MPEG2 => b =? 0xB3
  | _ => false
  end.

(** The result tells whether the byte was consumed; then the state is [A4]. *)
Definition parse_additional_start_code (c : start_code) (b : Z) (p : frame_parse) :
    frame_parse * bool :=
  if header_byte c b then
    if header_found p then (set_parse_state A4 (set_last_byte b p), true)
    else (set_header_found true p, false)
  else (p, false).

Definition has_headers (c : start_code) : bool :=
  match c with SC_MPEG4 | SC_MPEG2 => true | _ => false end.

(** [*partialframe], given the value it has before. *)
Definition check_skip_frame_boundary (c : start_code) (partial : Z) (p : frame_parse) :
    Z * frame_parse :=
  if has_headers c then ((if skip_frame_boundary p then 1 else 0), set_skip false p)
  else (partial, p).

Definition update_skip_frame (c : start_code) (p : frame_parse) : frame_parse :=
  if header_byte c (last_byte p) then set_skip true p else p.

(** One turn of the entry or the parsing state machine on the byte [b]: the
    parser, whether the byte is consumed, and how many bytes of the start code
    turn out to be data (the entry machine copies them). *)
Definition sc_transition (c : start_code) (b : Z) (p : frame_parse) : frame_parse * bool * nat :=
  match parse_state p with
  | A0 => if byte_match c 0 b then (set_parse_state A1 p, true, 0%nat) else (p, true, 0%nat)
  | A1 =>
      if byte_match c 1 b then (set_parse_state A2 p, true, 0%nat)
      else (set_parse_state A0 p, false, 1%nat)
  | A2 =>
      let no_match := if sc_byte c 1 =? sc_byte c 0 then (set_parse_state A1 p, false, 1%nat)
                      else (set_parse_state A0 p, false, 2%nat) in
      match c with
      | SC_H263 =>
          if byte_match c 2 b then (set_parse_state A5 (set_last_byte_h263 b p), true, 0%nat)
          else no_match
      | SC_H264 =>
          if byte_match c 3 b then (set_parse_state A5 p, true, 0%nat)
          else if byte_match c 2 b then (set_parse_state A3 p, true, 0%nat) else no_match
      | _ => if byte_match c 2 b then (set_parse_state A3 p, true, 0%nat) else no_match
      end
  | A3 =>
      let '(p, consumed) := parse_additional_start_code c b p in
      if consumed : bool then (p, true, 0%nat)
      else if byte_match c 3 b then (set_parse_state A4 (set_last_byte b p), true, 0%nat)
      else if (sc_byte c 1 =? sc_byte c 0) && (sc_byte c 2 =? sc_byte c 1) then
        (set_parse_state A2 p, false, 1%nat)
      else if sc_byte c 2 =? sc_byte c 0 then (set_parse_state A1 p, false, 2%nat)
      else (set_parse_state A0 p, false, 3%nat)
  | A4 | A5 => (p, false, 0%nat)
  end.

(** The previous call ended in front of a start code: it opens this frame. *)
Definition opening_of (c : start_code) (p : frame_parse) : list Z :=
  match c with
  | SC_H263 => [0; 0; last_byte_h263 p]
  | SC_H264 => start_bytes c
  | _ => take 3 (start_bytes c) ++ [last_byte p]
  end.

Definition start_new_frame (c : start_code) (s : source_hdr) (d : dest_hdr) (p : frame_parse) :
    outcome (dest_hdr * frame_parse) :=
  d ← put_bytes (opening_of c p) (put_info s d);
  let p := match c with SC_H263 | SC_H264 => p | _ => update_skip_frame c p end in
  mret (d, set_parse_state A0 p).

Definition found (q : state_start_code_parse) : bool :=
  match q with A4 | A5 => true | _ => false end.

Fixpoint entry_loop (c : start_code) (fuel : nat) (s : source_hdr) (d : dest_hdr) (p : frame_parse) :
    outcome (source_hdr * dest_hdr * frame_parse) :=
  match fuel with
  | O => NoFuel
  | S fuel =>
      match s_bytes s with
      | b :: _ =>
          if bool_decide (parse_state p = A0) || found (parse_state p) || (dest_len d =? 0)
          then mret (s, d, p)
          else
            let '(p, consumed, n) := sc_transition c b p in
            d ← put_bytes (take n (start_bytes c)) d;
            entry_loop c fuel (if consumed : bool then skip_source 1 s else s) d p
      | [] => mret (s, d, p)
      end
  end.

Fixpoint parsing_loop (c : start_code) (fuel : nat) (psource : list Z) (parsed_length temp_len : nat)
    (p : frame_parse) : outcome (nat * frame_parse) :=
  match fuel with
  | O => NoFuel
  | S fuel =>
      if (temp_len <=? parsed_length)%nat then mret (parsed_length, p)
      else
        match psource !! parsed_length with
        | None => Undefined
        | Some b =>
            let '(p, consumed, _) := sc_transition c b p in
            let parsed_length := if consumed : bool then S parsed_length else parsed_length in
            if found (parse_state p) then mret (parsed_length, p)
            else parsing_loop c fuel psource parsed_length temp_len p
        end
  end.

(** Four turns for each byte are enough: see [parse_call_ends]. *)
Definition loop_fuel (n : nat) : nat := S (4 * n + 4).

Definition bytes_to_skip (s : source_hdr) (q : state_start_code_parse) : nat :=
  match q with
  | A5 => 3
  | A4 => 4
  | A3 => if is_eos s then 0 else 3
  | A2 => if is_eos s then 0 else 2
  | A1 => if is_eos s then 0 else 1
  | A0 => 0
  end.

(** The result: the code, [*partialframe] if it is written, and the objects. *)
Record parse_result := ParseResult {
  rc : Z; partialframe : option Z; r_source : source_hdr; r_dest : dest_hdr; r_parser : frame_parse
}.

Definition parsing_machine (c : start_code) (s : source_hdr) (d : dest_hdr) (p : frame_parse) :
    outcome parse_result :=
  let temp_len := Z.to_nat (Z.min (Z.of_nat (length (s_bytes s))) (dest_len d)) in
  if (temp_len =? 0)%nat then mret (ParseResult 1 (Some 1) s d p)
  else
    '(parsed_length, p) ← parsing_loop c (loop_fuel temp_len) (s_bytes s) 0 temp_len p;
    let n := bytes_to_skip s (parse_state p) in
    let '(partial, p) := if found (parse_state p) then check_skip_frame_boundary c 0 p else (1, p) in
    if (length (s_bytes s) <? parsed_length)%nat then mret (ParseResult (-1) (Some partial) s d p)
    else
      d ← (if (n <? parsed_length)%nat then put_bytes (take (parsed_length - n) (s_bytes s)) d
           else mret d);
      mret (ParseResult 1 (Some partial) (skip_source parsed_length s) d p).

Definition parse_with (c : start_code) (s : source_hdr) (d : dest_hdr) (p : frame_parse) :
    outcome parse_result :=
  '(d, p) ← (if found (parse_state p) then start_new_frame c s d p else mret (d, p));
  '(s, d, p) ← entry_loop c (loop_fuel (length (s_bytes s))) s d p;
  if found (parse_state p) then
    let '(partial, p) := check_skip_frame_boundary c 0 p in
    mret (ParseResult 1 (Some partial) s d p)
  else parsing_machine c s d p.

Definition parse_sc_frame (s : source_hdr) (d : dest_hdr) (p : frame_parse) : outcome parse_result :=
  let need := match code p with Some SC_H263 => 3 | _ => 4 end in
  if (dest_len d <? need) || bool_decide (s_bytes s = []) then
    if bool_decide (s_bytes s = []) && is_eos s then mret (ParseResult 1 (Some 0) s d p)
    else mret (ParseResult (-1) None s d p)
  else match code p with None => Undefined | Some c => parse_with c s d p end.

(** ** NAL units with a length *)
Definition init_nal_length (nal_len : Z) (p : frame_parse) : Z * frame_parse :=
  if (nal_len =? 0) || (4 <? nal_len) || negb (bool_decide (state_nal p = NAL_LENGTH_ACC))
  then (-1, p)
  else (1, set_nal (state_nal p) nal_len (accum_length p) (bytes_tobeparsed p) p).

(** The bytes of the length, most significant first; [n] bytes may be read. *)
Fixpoint length_loop (n : nat) (s : source_hdr) (d : dest_hdr) (p : frame_parse) :
    outcome (source_hdr * dest_hdr * frame_parse) :=
  match n, s_bytes s with
  | S n, b :: _ =>
      let todo := Z.lor (bytes_tobeparsed p)
                    (wrap_unsigned 32 (Z.shiftl b (Z.shiftl (nal_length p - accum_length p - 1) 3))) in
      let acc := accum_length p + 1 in
      let s := skip_source 1 s in
      if acc =? nal_length p then
        d ← put_bytes (start_bytes SC_H264) d;
        mret (s, d, set_nal NAL_PARSING (nal_length p) 0 todo p)
      else length_loop n s d (set_nal NAL_LENGTH_ACC (nal_length p) acc todo p)
  | _, _ => mret (s, d, p)
  end.

Definition copy_nal (s : source_hdr) (d : dest_hdr) (p : frame_parse) : outcome parse_result :=
  let temp_len := Z.min (Z.of_nat (length (s_bytes s))) (dest_len d) in
  let d := put_info s d in
  '(s, d, p) ←
    (if bool_decide (state_nal p = NAL_PARSING) && (0 <? temp_len) then
       let n := if temp_len <? bytes_tobeparsed p then temp_len else bytes_tobeparsed p in
       d ← put_bytes (take (Z.to_nat n) (s_bytes s)) d;
       mret (skip_source (Z.to_nat n) s, d,
             set_nal NAL_PARSING (nal_length p) (accum_length p) (bytes_tobeparsed p - n) p)
     else mret (s, d, p));
  if (bytes_tobeparsed p =? 0) && bool_decide (state_nal p = NAL_PARSING) then
    mret (ParseResult 1 (Some 0) s d (set_nal NAL_LENGTH_ACC (nal_length p) (accum_length p) 0 p))
  else mret (ParseResult 1 (Some 1) s d p).

Definition parse_h264_nallength (s : source_hdr) (d : dest_hdr) (p : frame_parse) :
    outcome parse_result :=
  if (dest_len d <? 4) || (nal_length p =? 0) then mret (ParseResult (-1) None s d p)
  else if bool_decide (s_bytes s = []) then
    if is_eos s then mret (ParseResult 1 (Some 0) s d p) else mret (ParseResult (-1) None s d p)
  else
    let temp_len := Z.min (Z.of_nat (length (s_bytes s))) (dest_len d) in
    '(s, d, p) ← match state_nal p with
                 | NAL_LENGTH_ACC => length_loop (Z.to_nat temp_len) s d p
                 | NAL_PARSING => mret (s, d, p)
                 end;
    copy_nal s d p.

(** ** The stream without buffers

    The reference definition: the leftmost start code of a byte sequence.  A
    code is given with the number of bytes it takes and with the bytes that
    open the next frame. *)
Definition code_at (c : start_code) (hdr : bool) (l : list Z) : option (nat * list Z) :=
  match l with
  | x :: l => if negb (x =? 0) then None else
      match l with
      | y :: l => if negb (y =? 0) then None else
          match c, l with
          | SC_H263, z :: _ => if Z.land z 0xFC =? 0x80 then Some (3%nat, [0; 0; z]) else None
          | SC_H264, z :: l =>
              if z =? 1 then Some (3%nat, [0; 0; 0; 1])
              else if negb (z =? 0) then None
              else match l with
                   | w :: _ => if w =? 1 then Some (4%nat, [0; 0; 0; 1]) else None
                   | [] => None
                   end
          | _, z :: l => if negb (z =? 1) then None else
              match l with
              | w :: _ =>
                  if match c with
                     | SC_VC1_AP => Z.land w 0xFC =? 0x0C
                     | SC_MPEG4 => (w =? 0xB6) || hdr && header_byte c w
                     | _ => (w =? 0) || hdr && header_byte c w
                     end
                  then Some (4%nat, [0; 0; 1; w]) else None
              | [] => None
              end
          | _, [] => None
          end
      | [] => None
      end
  | [] => None
  end.

(** All of [l] may be the beginning of a start code. *)
Definition code_prefix (c : start_code) (l : list Z) : bool :=
  match l with
  | [] => true
  | x :: l => (x =? 0) &&
      match l with
      | [] => true
      | y :: l => (y =? 0) &&
          match l with
          | [] => true
          | z :: l =>
              match c with SC_H263 => false | SC_H264 => z =? 0 | _ => z =? 1 end &&
              match l with [] => true | _ => false end
          end
      end
  end.

(** The first header does not end a frame. *)
Definition header_at (c : start_code) (l : list Z) : bool :=
  match l with
  | x :: l => (x =? 0) && match l with
      | y :: l => (y =? 0) && match l with
          | z :: l => (z =? 1) && match l with b :: _ => header_byte c b | [] => false end
          | [] => false
          end
      | [] => false
      end
  | [] => false
  end.

(** The end of a search: no code, with the bytes that may begin one; or a code,
    with its opening bytes and what follows it. *)
Inductive scan_end : Type :=
  | ScanRest (rest : list Z)
  | ScanCode (opening rest : list Z).

Fixpoint ref_scan (c : start_code) (hdr : bool) (l : list Z) : list Z * bool * scan_end :=
  match code_at c hdr l with
  | Some (n, opening) => ([], hdr, ScanCode opening (drop n l))
  | None =>
      if code_prefix c l then ([], hdr, ScanRest l)
      else match l with
           | [] => ([], hdr, ScanRest [])
           | b :: l' =>
               let '(out, h, e) := ref_scan c (hdr || header_at c l) l' in (b :: out, h, e)
           end
  end.

(** *** The transitions search for the leftmost code *)
(** The bytes of a start code that a state has seen. *)
Definition pending (c : start_code) (q : state_start_code_parse) : list Z :=
  match q with
  | A1 => take 1 (start_bytes c)
  | A2 => take 2 (start_bytes c)
  | A3 => take 3 (start_bytes c)
  | _ => []
  end.

Definition state_index (q : state_start_code_parse) : nat :=
  match q with A0 => 0 | A1 => 1 | A2 => 2 | A3 | A5 => 3 | A4 => 4 end.

(** The states that the search for a code can be in. *)
Definition valid_state (c : start_code) (q : state_start_code_parse) : bool :=
  match c, q with
  | SC_H263, (A3 | A4) => false
  | SC_H264, _ => true
  | SC_H263, A5 => true
  | _, A5 => false
  | _, _ => true
  end.

Definition code_length (q : state_start_code_parse) : nat := match q with A5 => 3 | _ => 4 end.

Definition prepend (out : list Z) (r : list Z * bool * scan_end) : list Z * bool * scan_end :=
  (out ++ r.1.1, r.1.2, r.2).

Lemma prepend_app o o' r : prepend o (prepend o' r) = prepend (o ++ o') r.
Proof. unfold prepend. simpl. by rewrite app_assoc. Qed.

Lemma prepend_nil r : prepend [] r = r.
Proof. by destruct r as [[? ?] ?]. Qed.

Lemma ref_scan_unfold c hdr b l :
  ref_scan c hdr (b :: l) =
  match code_at c hdr (b :: l) with
  | Some (n, opening) => ([], hdr, ScanCode opening (drop n (b :: l)))
  | None => if code_prefix c (b :: l) then ([], hdr, ScanRest (b :: l))
            else prepend [b] (ref_scan c (hdr || header_at c (b :: l)) l)
  end.
Proof.
  cbn [ref_scan]. destruct (code_at c hdr (b :: l)) as [[n o]|]; [done|].
  destruct (code_prefix c (b :: l)); [done|].
  by destruct (ref_scan c _ l) as [[? ?] ?].
Qed.

Lemma land_255 b : is_byte b → Z.land b 255 = b.
Proof.
  intros Hb. unfold is_byte in Hb. change 255 with (Z.ones 8). rewrite Z.land_ones by lia. apply Z.mod_small. lia.
Qed.

(** The parser fields that the search leaves alone. *)
Definition same_rest (p p' : frame_parse) : Prop :=
  code p' = code p ∧ skip_frame_boundary p' = skip_frame_boundary p ∧ state_nal p' = state_nal p ∧
  nal_length p' = nal_length p ∧ accum_length p' = accum_length p ∧
  bytes_tobeparsed p' = bytes_tobeparsed p.

#[local] Arguments ref_scan : simpl never.

(** A case of the comparisons of a byte, and the search on what is known. *)
Ltac scan_case :=
  match goal with
  | |- context [if ?e =? ?k then _ else _] =>
      let E := fresh "E" in
      destruct (e =? k) eqn:E; [first [apply Z.eqb_eq in E; is_var e; subst e | idtac]|]
  | |- context [if header_byte ?c ?b then _ else _] => destruct (header_byte c b) eqn:?
  | |- context [if ?h then _ else _] => is_var h; destruct h
  end.
Ltac scan_eval :=
  repeat (rewrite ref_scan_unfold; cbn -[header_byte ref_scan Z.land];
          repeat match goal with
                 | H : ?a = false |- context [?a] => rewrite H
                 | H : ?a = true |- context [?a] => rewrite H
                 end; rewrite ?andb_false_r; cbn -[header_byte ref_scan Z.land]).
Ltac scan_refl :=
  scan_eval; rewrite ?orb_false_r, ?orb_true_r, ?prepend_app, ?prepend_nil; reflexivity.

Lemma same_rest_trans p q r : same_rest p q → same_rest q r → same_rest p r.
Proof. unfold same_rest. intuition congruence. Qed.

Lemma header_at_other c l : has_headers c = false → header_at c l = false.
Proof.
  intros Hc. assert (∀ b, header_byte c b = false) as Hb by (by destruct c).
  destruct l as [|x [|y [|z [|b l]]]]; simpl; rewrite ?Hb, ?andb_false_r; done.
Qed.

Lemma transition_scan c b p : is_byte b → valid_state c (parse_state p) = true →
  found (parse_state p) = false →
  let '(p', consumed, n) := sc_transition c b p in
  valid_state c (parse_state p') = true ∧ same_rest p p' ∧
  (if consumed then state_index (parse_state p') ≤ S (state_index (parse_state p))
   else state_index (parse_state p') < state_index (parse_state p))%nat ∧
  if found (parse_state p') then
    consumed = true ∧ n = 0%nat ∧ S (length (pending c (parse_state p))) = code_length (parse_state p') ∧
    ∀ x, ref_scan c (header_found p) (pending c (parse_state p) ++ b :: x) =
         ([], header_found p', ScanCode (opening_of c p') x)
  else ∃ out,
    out ++ pending c (parse_state p') ++ (if consumed then [] else [b]) = pending c (parse_state p) ++ [b] ∧
    (parse_state p ≠ A0 → out = take n (start_bytes c)) ∧
    ∀ x, ref_scan c (header_found p) (pending c (parse_state p) ++ b :: x) =
         prepend out (ref_scan c (header_found p')
           (pending c (parse_state p') ++ (if consumed then x else b :: x))).
Proof.
  intros Hb Hv Hf. pose proof (land_255 b Hb) as H255.
  destruct p as [q cd lh lb hdr sk sn nl al tb]. simpl in Hv, Hf.
  destruct c, q; try discriminate; clear Hv Hf;
    unfold sc_transition, parse_additional_start_code, byte_match, sc_byte; cbn -[header_byte Z.land];
    rewrite ?H255.
  all: repeat scan_case; try discriminate; cbn -[header_byte ref_scan]; (split; [done|]; split; [done|]; split; [lia|]).
  all: try (split; [done|]; split; [done|]; split; [done|]; intros x; by scan_refl).
  all: try (by exists []; split; [done|]; split; [done|]; intros x; rewrite prepend_nil).
  all: try (exists [b]; split; [done|]; split; [done|]; intros x; by scan_refl).
  all: first [exists [0]; split; [done|] | exists [0; 0]; split; [done|]
             | exists [0; 0; 1]; split; [done|]]; split; [done|].
  all: try (by intros x; scan_refl).
  intros x. rewrite ref_scan_unfold. cbn -[ref_scan header_at Z.land]. rewrite E.
  by rewrite header_at_other, orb_false_r.
Qed.

(** *** The two loops *)
Lemma parsing_loop_scan c fuel src k temp p :
  Forall is_byte src → (k ≤ temp ≤ length src)%nat → valid_state c (parse_state p) = true →
  found (parse_state p) = false → (4 * (temp - k) + state_index (parse_state p) < fuel)%nat →
  ∃ k' p', parsing_loop c fuel src k temp p = Done (k', p') ∧ (k ≤ k' ≤ temp)%nat ∧
    valid_state c (parse_state p') = true ∧ same_rest p p' ∧
    if found (parse_state p') then
      ∃ out cd, pending c (parse_state p) ++ take (k' - k) (drop k src) = out ++ cd ∧
        length cd = code_length (parse_state p') ∧
        ∀ x, ref_scan c (header_found p) (pending c (parse_state p) ++ drop k src ++ x) =
             (out, header_found p', ScanCode (opening_of c p') (drop k' src ++ x))
    else k' = temp ∧
      ∃ out, pending c (parse_state p) ++ take (temp - k) (drop k src) =
             out ++ pending c (parse_state p') ∧
        ∀ x, ref_scan c (header_found p) (pending c (parse_state p) ++ drop k src ++ x) =
             prepend out (ref_scan c (header_found p') (pending c (parse_state p') ++ drop temp src ++ x)).
Proof.
  intros Hby. revert k p. induction fuel as [|fuel IH]; intros k p Hk Hv Hf Hfuel; [lia|].
  cbn [parsing_loop]. destruct (Nat.leb_spec temp k) as [Hle|Hlt].
  { assert (k = temp) as -> by lia. exists temp, p. rewrite Hf.
    split_and!; [done|lia|lia|done|done|done|].
    exists []. rewrite Nat.sub_diag, app_nil_r. split; [done|]. intros x. by rewrite prepend_nil. }
  destruct (lookup_lt_is_Some_2 src k) as [b Hb]; [lia|]. rewrite Hb.
  assert (is_byte b) as Hbb by (by eapply Forall_lookup_1).
  pose proof (transition_scan c b p Hbb Hv Hf) as Ht.
  destruct (sc_transition c b p) as [[p1 consumed] n]. destruct Ht as (Hv1 & Hs1 & Hi & Ht).
  pose proof (drop_S src b k Hb) as Hd.
  destruct (found (parse_state p1)) eqn:Hf1.
  { destruct Ht as (-> & -> & Hlen & Ht). exists (S k), p1. rewrite Hf1.
    split_and!; [done|lia|lia|done|done|].
    exists [], (pending c (parse_state p) ++ [b]). rewrite Nat.sub_succ_l, Nat.sub_diag, Hd by lia.
    split_and!; [done|rewrite length_app; simpl; lia|]. intros x. apply Ht. }
  destruct Ht as (out1 & Hc1 & _ & Ht).
  destruct (IH (if consumed then S k else k) p1) as (k' & p' & -> & Hk' & Hv' & Hs' & Hr);
    [destruct consumed; lia|done|done|destruct consumed; lia|].
  exists k', p'. split_and!; [done|destruct consumed; lia|lia|done|by eapply same_rest_trans|].
  assert (∀ j, ((if consumed then S k else k) ≤ j)%nat →
    pending c (parse_state p) ++ take (j - k) (drop k src) =
    out1 ++ pending c (parse_state p1) ++
      take (j - if consumed then S k else k) (drop (if consumed then S k else k) src)) as Hcat.
  { intros j Hj. destruct consumed.
    - rewrite Hd. replace (j - k)%nat with (S (j - S k)) by lia. simpl.
      rewrite cons_middle, app_assoc, <- Hc1. by rewrite app_nil_r, <- !app_assoc.
    - rewrite app_assoc in Hc1. apply app_inj_tail in Hc1 as [<- _]. by rewrite <- app_assoc. }
  assert (∀ x, (if consumed then drop (S k) src ++ x else b :: drop (S k) src ++ x) =
    drop (if consumed then S k else k) src ++ x) as Hrest.
  { intros x. by destruct consumed; [|rewrite Hd]. }
  destruct (found (parse_state p')).
  - destruct Hr as (out2 & cd & Hc2 & Hlen & Hx). exists (out1 ++ out2), cd.
    rewrite Hcat, Hc2, <- app_assoc by (destruct consumed; lia). split_and!; [done|done|].
    intros x. rewrite Hd. cbn [app]. rewrite Ht, Hrest, Hx. done.
  - destruct Hr as (-> & out2 & Hc2 & Hx). split; [done|]. exists (out1 ++ out2).
    rewrite Hcat, Hc2, <- app_assoc by (destruct consumed; lia). split; [done|].
    intros x. rewrite Hd. cbn [app]. by rewrite Ht, Hrest, Hx, prepend_app.
Qed.

(** A destination whose filled part lies within the buffer. *)
Definition dest_wf (d : dest_hdr) : Prop :=
  0 ≤ d_nOffset d ∧ Z.of_nat (length (d_bytes d)) + d_nOffset d ≤ d_nAllocLen d < 2 ^ 32.

Lemma dest_len_wf d : dest_wf d →
  dest_len d = d_nAllocLen d - (Z.of_nat (length (d_bytes d)) + d_nOffset d) ∧ 0 ≤ dest_len d.
Proof.
  intros [Ho Hw]. unfold dest_len. rewrite wrap_unsigned_small; lia.
Qed.

Lemma put_bytes_Done l d : dest_wf d → Z.of_nat (length l) ≤ dest_len d →
  put_bytes l d = Done (add_bytes l d) ∧ dest_wf (add_bytes l d) ∧
  dest_len (add_bytes l d) = dest_len d - Z.of_nat (length l).
Proof.
  intros Hw Hl. destruct (dest_len_wf d Hw) as [Hd _]. rewrite Hd in Hl.
  assert (dest_wf (add_bytes l d)) as Hw'.
  { unfold dest_wf, add_bytes in *. simpl. rewrite length_app. lia. }
  destruct (dest_len_wf _ Hw') as [Hd' _]. unfold put_bytes. split_and!; [|done|].
  - destruct (Z.leb_spec (Z.of_nat (length (d_bytes d ++ l)) + d_nOffset d) (d_nAllocLen d)); [done|].
    rewrite length_app in *. lia.
  - rewrite Hd', Hd. simpl. rewrite length_app. lia.
Qed.

Lemma put_bytes_inv l d : dest_wf d →
  put_bytes l d = Undefined ∨ put_bytes l d = Done (add_bytes l d) ∧ dest_wf (add_bytes l d).
Proof.
  intros [Ho Hw]. unfold put_bytes.
  destruct (Z.leb_spec (Z.of_nat (length (d_bytes d ++ l)) + d_nOffset d) (d_nAllocLen d)); [|by left].
  right. split; [done|]. unfold dest_wf, add_bytes. simpl. lia.
Qed.

Lemma add_bytes_nil d : add_bytes [] d = d.
Proof. destruct d. unfold add_bytes. simpl. by rewrite app_nil_r. Qed.

Lemma add_bytes_app l l' d : add_bytes l' (add_bytes l d) = add_bytes (l ++ l') d.
Proof. unfold add_bytes. simpl. by rewrite app_assoc. Qed.

Lemma skip_source_0 s : skip_source 0 s = s.
Proof. destruct s. unfold skip_source. simpl. f_equal. lia. Qed.

Lemma skip_source_add j k s : skip_source k (skip_source j s) = skip_source (j + k) s.
Proof. unfold skip_source. simpl. f_equal; [apply drop_drop|lia]. Qed.

(** The codes with one byte of pending data per turn of the entry machine. *)
Definition one_by_one (c : start_code) : bool :=
  match c with SC_H264 | SC_H263 => true | _ => false end.

Lemma transition_writes c b p p' consumed n :
  sc_transition c b p = (p', consumed, n) →
  valid_state c (parse_state p) = true → one_by_one c = true →
  (length (take n (start_bytes c)) ≤ 1)%nat.
Proof.
  unfold sc_transition, parse_additional_start_code. intros H Hv Ho.
  destruct c, (parse_state p); try discriminate; simpl in H; repeat case_match; simplify_eq; simpl; lia.
Qed.

(** What the entry machine, or a whole call, makes of its buffers: it consumed
    [k] bytes and wrote [out], as the search for the leftmost code does. *)
Definition scanned (c : start_code) (s s' : source_hdr) (d d' : dest_hdr) (p p' : frame_parse) : Prop :=
  ∃ k out, s' = skip_source k s ∧ d' = add_bytes out d ∧ (k ≤ length (s_bytes s))%nat ∧
    dest_wf d' ∧ valid_state c (parse_state p') = true ∧ same_rest p p' ∧
    (∃ cd, pending c (parse_state p) ++ take k (s_bytes s) = out ++ cd ∧
       if found (parse_state p') then length cd = code_length (parse_state p')
       else cd = pending c (parse_state p')) ∧
    if found (parse_state p') then
      ∀ x, ref_scan c (header_found p) (pending c (parse_state p) ++ s_bytes s ++ x) =
           (out, header_found p', ScanCode (opening_of c p') (s_bytes s' ++ x))
    else
      ∀ x, ref_scan c (header_found p) (pending c (parse_state p) ++ s_bytes s ++ x) =
           prepend out (ref_scan c (header_found p') (pending c (parse_state p') ++ s_bytes s' ++ x)).

Lemma scanned_refl c s d p : dest_wf d → valid_state c (parse_state p) = true →
  found (parse_state p) = false → scanned c s s d d p p.
Proof.
  intros Hw Hv Hf. exists 0%nat, []. rewrite skip_source_0, add_bytes_nil, Hf.
  split_and!; [done..|lia|done|done|done| |].
  - eexists. split; [by rewrite take_0, app_nil_r|done].
  - intros x. by rewrite prepend_nil.
Qed.

Lemma scanned_trans c s1 s2 s3 d1 d2 d3 p1 p2 p3 :
  scanned c s1 s2 d1 d2 p1 p2 → found (parse_state p2) = false →
  scanned c s2 s3 d2 d3 p2 p3 → scanned c s1 s3 d1 d3 p1 p3.
Proof.
  intros (k & out & -> & -> & Hk & Hw & Hv & Hs & (cd & Hcd & Hcd1) & Hr) Hf
    (k' & out' & -> & -> & Hk' & Hw' & Hv' & Hs' & (cd' & Hcd' & Hcd2) & Hr').
  rewrite Hf in Hr, Hcd1. subst cd. exists (k + k')%nat, (out ++ out').
  rewrite skip_source_add, add_bytes_app in *.
  split_and!; [done..| |done|done|by eapply same_rest_trans| |].
  - simpl in Hk'. rewrite length_drop in Hk'. lia.
  - exists cd'. split; [|done]. rewrite <- app_assoc, <- Hcd'. simpl.
    rewrite app_assoc, <- Hcd, <- app_assoc. by rewrite take_take_drop.
  - destruct (found (parse_state p3)); intros x; rewrite Hr, Hr'; [done|]. by rewrite prepend_app.
Qed.

Lemma scanned_step c b l s d p p' consumed n :
  s_bytes s = b :: l → is_byte b → valid_state c (parse_state p) = true →
  found (parse_state p) = false → parse_state p ≠ A0 →
  sc_transition c b p = (p', consumed, n) → dest_wf (add_bytes (take n (start_bytes c)) d) →
  scanned c s (if consumed : bool then skip_source 1 s else s)
    d (add_bytes (take n (start_bytes c)) d) p p'.
Proof.
  intros Hl Hb Hv Hf Hq Ht Hw. pose proof (transition_scan c b p Hb Hv Hf) as H. rewrite Ht in H.
  destruct H as (Hv' & Hs & _ & H). exists (if consumed then 1 else 0)%nat, (take n (start_bytes c)).
  split_and!; [|done| |done|done|done| |].
  - destruct consumed; [done|by rewrite skip_source_0].
  - rewrite Hl. destruct consumed; simpl; lia.
  - rewrite Hl. destruct (found (parse_state p')).
    + destruct H as (-> & -> & Hlen & _). eexists. split; [done|]. rewrite length_app. simpl. lia.
    + destruct H as (out & Hc & Ho & _). rewrite <- Ho by done. eexists. split; [|done].
      destruct consumed; simpl.
      * by rewrite take_0, <- Hc, app_nil_r.
      * rewrite (app_assoc out) in Hc. apply app_inj_tail in Hc as [<- _]. by rewrite app_nil_r.
  - rewrite Hl. destruct (found (parse_state p')).
    + destruct H as (-> & -> & _ & H). intros x. simpl. rewrite Hl. apply H.
    + destruct H as (out & _ & Ho & H). rewrite <- Ho by done. intros x. simpl. rewrite H.
      destruct consumed; simpl; by rewrite Hl.
Qed.

(** What is written comes from the bytes seen. *)
Lemma transition_pays c b p p' consumed n : is_byte b → valid_state c (parse_state p) = true →
  found (parse_state p) = false → parse_state p ≠ A0 → sc_transition c b p = (p', consumed, n) →
  (length (take n (start_bytes c)) +
     (if found (parse_state p') then 0 else length (pending c (parse_state p'))) +
     (if consumed then 0 else 1) ≤ length (pending c (parse_state p)) + 1)%nat.
Proof.
  intros Hb Hv Hf Hq Ht. pose proof (transition_scan c b p Hb Hv Hf) as H. rewrite Ht in H.
  destruct H as (_ & _ & _ & H). destruct (found (parse_state p')).
  - destruct H as (-> & -> & _). simpl. lia.
  - destruct H as (out & Hc & Ho & _). rewrite <- Ho by done.
    apply (f_equal length) in Hc. rewrite !length_app in Hc. destruct consumed; simpl in Hc |- *; lia.
Qed.

Lemma entry_loop_scan c fuel s d p :
  Forall is_byte (s_bytes s) → valid_state c (parse_state p) = true →
  found (parse_state p) = false → dest_wf d →
  (4 * length (s_bytes s) + state_index (parse_state p) < fuel)%nat →
  entry_loop c fuel s d p = Undefined ∧ one_by_one c = false ∧
    dest_len d < Z.of_nat (length (pending c (parse_state p)) + length (s_bytes s)) ∨
  ∃ s' d' p', entry_loop c fuel s d p = Done (s', d', p') ∧ scanned c s s' d d' p p' ∧
    if found (parse_state p') then (length (s_bytes s') < length (s_bytes s))%nat
    else parse_state p' = A0 ∨ s_bytes s' = [] ∨ dest_len d' = 0.
Proof.
  revert s d p. induction fuel as [|fuel IH]; intros s d p Hby Hv Hf Hw Hfuel; [lia|].
  cbn [entry_loop]. destruct (s_bytes s) as [|b l] eqn:Hl.
  { right. exists s, d, p. rewrite Hf. split_and!; [done|by apply scanned_refl|by right; left]. }
  destruct (bool_decide (parse_state p = A0) || found (parse_state p) || (dest_len d =? 0)) eqn:Hstop.
  { right. exists s, d, p. rewrite Hf. split_and!; [done|by apply scanned_refl|].
    rewrite Hf, orb_false_r in Hstop. apply orb_true_iff in Hstop as [H|H].
    - left. by apply bool_decide_eq_true in H.
    - right; right. by apply Z.eqb_eq in H. }
  rewrite Hf, orb_false_r in Hstop. apply orb_false_iff in Hstop as [Hq Hroom].
  apply bool_decide_eq_false in Hq. apply Z.eqb_neq in Hroom.
  apply Forall_cons in Hby as [Hb Hby].
  pose proof (transition_scan c b p Hb Hv Hf) as Hts.
  destruct (sc_transition c b p) as [[p1 consumed] n] eqn:Ht. destruct Hts as (Hv1 & _ & Hi & Hts).
  pose proof (transition_pays c b p _ _ _ Hb Hv Hf Hq Ht) as Hpay.
  pose proof (dest_len_wf d Hw) as [_ Hd0].
  assert (Z.of_nat (length (take n (start_bytes c))) ≤ dest_len d ∨
    Z.of_nat (length (take n (start_bytes c))) > dest_len d) as [Hroom1|Hroom1] by lia.
  2: { left. split.
    - destruct (put_bytes_inv (take n (start_bytes c)) d Hw) as [->|[_ Hw1]]; [done|].
      destruct (dest_len_wf d Hw) as [Hd _]. destruct Hw1 as [_ Hw1]. simpl in Hw1.
      rewrite length_app in Hw1. lia.
    - pose proof (transition_writes c b p _ _ _ Ht Hv). destruct (one_by_one c); [lia|].
      split; [done|]. simpl. lia. }
  destruct (put_bytes_Done (take n (start_bytes c)) d Hw Hroom1) as (Hp & Hw1 & Hl1).
  rewrite Hp. cbn [mbind outcome_bind].
  pose proof (scanned_step c b l s d p p1 consumed n Hl Hb Hv Hf Hq Ht Hw1) as Hsc.
  destruct (found (parse_state p1)) eqn:Hf1.
  { destruct Hts as (-> & _ & _). right.
    exists (skip_source 1 s), (add_bytes (take n (start_bytes c)) d), p1.
    destruct fuel; [simpl in Hfuel; lia|]. cbn [entry_loop]. rewrite Hf1, orb_true_r. simpl.
    split_and!; [by destruct (drop 1 (s_bytes s))|done|]. rewrite Hl. simpl. rewrite drop_0. lia. }
  destruct (IH (if consumed then skip_source 1 s else s) (add_bytes (take n (start_bytes c)) d) p1)
    as [(Hu & Ho & Hlt)|(s' & d' & p' & -> & Hsc' & Hend)].
  - destruct consumed; simpl; rewrite Hl; [done|by constructor].
  - done.
  - done.
  - done.
  - destruct consumed; simpl; rewrite Hl; simpl in *; rewrite ?drop_0; lia.
  - left. split_and!; [done|done|]. destruct consumed; simpl in *; rewrite ?Hl in Hlt; simpl in *; rewrite ?drop_0 in Hlt; lia.
  - right. exists s', d', p'. split_and!; [done|by eapply scanned_trans|].
    destruct (found (parse_state p')); [|done].
    destruct consumed; simpl in Hend; rewrite Hl in Hend; simpl in *;
      rewrite ?drop_0 in Hend; lia.
Qed.

(** *** A call *)

(** The state in which a call goes through its source: if the last one ended at
    a code, its bytes open the frame. *)
Definition opened (c : start_code) (s : source_hdr) (d : dest_hdr) (p : frame_parse) :
    dest_hdr * frame_parse :=
  if found (parse_state p) then
    (add_bytes (opening_of c p) (put_info s d),
     set_parse_state A0 (match c with SC_H263 | SC_H264 => p | _ => update_skip_frame c p end))
  else (d, p).

(** How a call ends: a boundary is a frame boundary unless it follows a header. *)
Definition closed (c : start_code) (p : frame_parse) : Z * frame_parse :=
  if found (parse_state p) then check_skip_frame_boundary c 0 p else (1, p).

Definition need (c : start_code) : Z := match c with SC_H263 => 3 | _ => 4 end.

Lemma parsing_machine_scan c s d p :
  Forall is_byte (s_bytes s) → is_eos s = false → dest_wf d →
  parse_state p = A0 ∨ s_bytes s = [] ∨ dest_len d = 0 →
  valid_state c (parse_state p) = true → found (parse_state p) = false →
  ∃ s' d' p', parsing_machine c s d p =
      Done (ParseResult 1 (Some (closed c p').1) s' d' (closed c p').2) ∧
    scanned c s s' d d' p p' ∧
    (s_bytes s' = [] ∨ dest_len d = 0 ∨ (length (s_bytes s') < length (s_bytes s))%nat).
Proof.
  intros Hby He Hw Hst Hv Hf. unfold parsing_machine.
  destruct (dest_len_wf d Hw) as [_ Hd0].
  destruct (Nat.eqb_spec (Z.to_nat (Z.min (Z.of_nat (length (s_bytes s))) (dest_len d))) 0) as [Hz|Hz].
  { exists s, d, p. unfold closed. rewrite Hf. split_and!; [done|by apply scanned_refl|].
    destruct (s_bytes s); [by left|right; left]. simpl in Hz. lia. }
  destruct Hst as [Hq|[Hl|Hl]]; [|rewrite Hl in Hz; simpl in Hz; lia|lia].
  set (temp := Z.to_nat (Z.min (Z.of_nat (length (s_bytes s))) (dest_len d))) in *.
  destruct (parsing_loop_scan c (loop_fuel temp) (s_bytes s) 0 temp p)
    as (k & p' & -> & Hk & Hv' & Hs' & Hr); [done|lia|done|done|rewrite Hq; unfold loop_fuel; simpl; lia|].
  cbn [mbind outcome_bind].
  rewrite Hq in Hr. cbn [pending app] in Hr. rewrite drop_0 in Hr.
  assert (∃ out cd, take k (s_bytes s) = out ++ cd ∧
    length cd = bytes_to_skip s (parse_state p') ∧ (0 < k)%nat ∧
    (if found (parse_state p') then length cd = code_length (parse_state p')
     else cd = pending c (parse_state p')) ∧
    if found (parse_state p') then
      ∀ x, ref_scan c (header_found p) (s_bytes s ++ x) =
           (out, header_found p', ScanCode (opening_of c p') (drop k (s_bytes s) ++ x))
    else ∀ x, ref_scan c (header_found p) (s_bytes s ++ x) =
           prepend out (ref_scan c (header_found p') (pending c (parse_state p') ++ drop k (s_bytes s) ++ x)))
    as (out & cd & Hcat & Hcd & Hpos & Hcd' & Hscan).
  { destruct (found (parse_state p')) eqn:Hf'.
    - destruct Hr as (out & cd & Hcat & Hlen & Hx). rewrite Nat.sub_0_r in Hcat. exists out, cd.
      split_and!; [done|by rewrite Hlen; destruct (parse_state p')| |done|done].
      apply (f_equal length) in Hcat. rewrite length_take, length_app, Hlen in Hcat.
      destruct k; [simpl in Hcat; by destruct (parse_state p'); simpl in Hcat; lia|lia].
    - destruct Hr as (-> & out & Hcat & Hx). rewrite Nat.sub_0_r in Hcat.
      exists out, (pending c (parse_state p')). split_and!; [done| |lia|done|done].
      unfold bytes_to_skip. rewrite He. by destruct c, (parse_state p'). }
  assert (scanned c s (skip_source k s) d (add_bytes out d) p p' ∧
    (if (bytes_to_skip s (parse_state p') <? k)%nat
     then put_bytes (take (k - bytes_to_skip s (parse_state p')) (s_bytes s)) d else mret d) =
    Done (add_bytes out d)) as [Hsc Hput].
  { assert (out = take (k - length cd) (s_bytes s) ∧ k = length out + length cd)%nat as [Hout Hk'].
    { apply (f_equal length) in Hcat as Hlen. rewrite length_take, length_app in Hlen.
      split; [|lia].
      assert (take (length out) (take k (s_bytes s)) = out) as Ho by (by rewrite Hcat, take_app_length).
      rewrite take_take in Ho. rewrite <- Ho at 1. f_equal. lia. }
    rewrite Hcd in Hout, Hk'.
    assert (Z.of_nat (length out) ≤ dest_len d) as Hroom by lia.
    destruct (put_bytes_Done out d Hw Hroom) as (Hp & Hw' & _). split.
    - exists k, out. rewrite Hq. split_and!; [done|done|lia|done|done|done| |].
      + by exists cd.
      + by destruct (found (parse_state p')).
    - destruct (Nat.ltb_spec (bytes_to_skip s (parse_state p')) k); [by rewrite <- Hout|].
      destruct out; [by rewrite add_bytes_nil|simpl in Hk'; lia]. }
  exists (skip_source k s), (add_bytes out d), p'. split_and!; [|done|].
  - unfold closed. destruct (if found (parse_state p') then _ else _) as [partial p''] eqn:Hc.
    rewrite (proj2 (Nat.ltb_ge _ _)) by lia. rewrite Hput. done.
  - right; right. simpl. rewrite length_drop. lia.
Qed.

Lemma dest_len_add l d : dest_wf d → dest_wf (add_bytes l d) →
  dest_len (add_bytes l d) = dest_len d - Z.of_nat (length l).
Proof.
  intros Hw Hw'. destruct (dest_len_wf _ Hw) as [-> _]. destruct (dest_len_wf _ Hw') as [-> _].
  simpl. rewrite length_app. lia.
Qed.

Lemma length_opening c p : (Z.of_nat (length (opening_of c p)) ≤ need c).
Proof. destruct c; simpl; lia. Qed.

Lemma opened_ok c s d p : dest_wf d → need c ≤ dest_len d → valid_state c (parse_state p) = true →
  code p = Some c →
  (if found (parse_state p) then start_new_frame c s d p else mret (d, p)) = Done (opened c s d p) ∧
  let '(d0, p0) := opened c s d p in
  dest_wf d0 ∧ dest_len d - 4 ≤ dest_len d0 ∧ valid_state c (parse_state p0) = true ∧
  found (parse_state p0) = false ∧ code p0 = Some c ∧
  (parse_state p0 = A0 ∨ dest_len d ≤ dest_len d0).
Proof.
  intros Hw Hn Hv Hc. unfold opened, start_new_frame. destruct (found (parse_state p)) eqn:Hf.
  2: { split_and!; [done|done|lia|done|done|done|right; lia]. }
  assert (dest_wf (put_info s d) ∧ dest_len (put_info s d) = dest_len d) as [Hw0 Hl0] by done.
  pose proof (length_opening c p) as Hlo.
  destruct (put_bytes_Done (opening_of c p) (put_info s d) Hw0) as (-> & Hw1 & Hl1); [lia|].
  assert (need c ≤ 4) by (by destruct c). unfold update_skip_frame.
  split_and!; [by destruct c|done|lia|by destruct c|done|by destruct c; simpl; try case_match|by left].
Qed.

Lemma parse_sc_frame_scan c s d p :
  code p = Some c → Forall is_byte (s_bytes s) → s_bytes s ≠ [] → is_eos s = false → dest_wf d →
  need c ≤ dest_len d → valid_state c (parse_state p) = true →
  parse_sc_frame s d p = Undefined ∧ one_by_one c = false ∧
    dest_len d < 4 + Z.of_nat (length (s_bytes s)) ∨
  ∃ s' d' p', parse_sc_frame s d p =
      Done (ParseResult 1 (Some (closed c p').1) s' d' (closed c p').2) ∧
    scanned c s s' (opened c s d p).1 d' (opened c s d p).2 p' ∧
    (8 ≤ dest_len d → (length (s_bytes s') < length (s_bytes s))%nat).
Proof.
  intros Hc Hby Hne He Hw Hn Hv. unfold parse_sc_frame, parse_with. rewrite Hc.
  replace (match c with SC_H263 => 3 | _ => 4 end) with (need c) by done.
  rewrite (bool_decide_false (s_bytes s = [])), (proj2 (Z.ltb_ge _ _)) by done. cbn [orb].
  destruct (opened_ok c s d p Hw Hn Hv Hc) as [-> Ho]. cbn [mbind outcome_bind].
  destruct (opened c s d p) as [d0 p0]. destruct Ho as (Hw0 & Hroom & Hv0 & Hf0 & Hc0 & Hst0).
  destruct (entry_loop_scan c (loop_fuel (length (s_bytes s))) s d0 p0)
    as [(-> & Ho & Hlt)|(s1 & d1 & p1 & -> & Hsc & Hend)];
    [done|done|done|done|unfold loop_fuel; destruct (parse_state p0); simpl; lia| |].
  { left. split_and!; [done|done|].
    assert (length (pending c (parse_state p0)) ≤ 3)%nat by (destruct c, (parse_state p0); simpl; lia).
    destruct Hst0 as [Hq0|?]; [rewrite Hq0 in Hlt; simpl in Hlt; lia|lia]. }
  right. cbn [mbind outcome_bind]. destruct (found (parse_state p1)) eqn:Hf1.
  - exists s1, d1, p1. unfold closed. rewrite Hf1.
    destruct (check_skip_frame_boundary c 0 p1) as [partial p2]. done.
  - pose proof Hsc as (k & out & -> & -> & Hk & Hw1 & Hv1 & _ & (cd & Hcd & Hcd1) & _).
    destruct (parsing_machine_scan c (skip_source k s) (add_bytes out d0) p1)
      as (s2 & d2 & p2 & -> & Hsc2 & Hprog); [by apply Forall_drop|done|done|done|done|done|].
    exists s2, d2, p2. split_and!; [done|by eapply scanned_trans|]. intros Hd8.
    rewrite Hf1 in Hcd1. simpl in Hprog |- *. rewrite length_drop in Hprog.
    assert (0 < length (s_bytes s))%nat by (by destruct (s_bytes s); [|simpl; lia]).
    destruct Hprog as [->|[Hz|?]]; [simpl; lia| |lia].
    assert (k ≠ 0%nat) as Hk0; [|].
    + intros ->. rewrite dest_len_add in Hz by done. rewrite take_0, app_nil_r in Hcd.
      apply (f_equal length) in Hcd. rewrite length_app in Hcd.
      destruct Hst0 as [Hq0|?].
      * rewrite Hq0 in Hcd. simpl in Hcd. lia.
      * assert (length (pending c (parse_state p0)) ≤ 3)%nat
          by (destruct c, (parse_state p0); simpl; lia). lia.
    + pose proof Hsc2 as (k2 & out2 & -> & _). simpl. rewrite !length_drop. lia.
Qed.

(** *** The stream *)
Inductive stream_event : Type :=
  | Data (b : Z)
  | FrameEnd.

(** The reference for a whole stream: the bytes in front of each code, the end
    of the frame unless the code that opened the last part is a header, and the
    bytes that open the next part. *)
Fixpoint ref_events (fuel : nat) (c : start_code) (hdr skip : bool) (l : list Z) : list stream_event :=
  let '(out, hdr, e) := ref_scan c hdr l in
  map Data out ++
  match e with
  | ScanRest _ => []
  | ScanCode opening rest =>
      (if has_headers c && skip then [] else [FrameEnd]) ++ map Data opening ++
      match fuel with
      | O => []
      | S fuel =>
          ref_events fuel c hdr
            (if has_headers c then header_byte c (List.last opening 0) else skip) rest
      end
  end.

(** What a client sees of a call. *)
Definition call_events (out : list Z) (partial : option Z) : list stream_event :=
  map Data out ++ if bool_decide (partial = Some 0) then [FrameEnd] else [].

(** A client: it gives the source another buffer, of any length, or calls with
    a destination.  A call on an empty source returns -1 and changes nothing. *)
Inductive client_op : Type :=
  | Give (s : source_hdr)
  | Take (d : dest_hdr).

Definition give (s0 s : source_hdr) : source_hdr :=
  SourceHdr (s_bytes s0 ++ s_bytes s) (s_nOffset s) (s_nFlags s) (s_nTimeStamp s).
Definition no_source : source_hdr := SourceHdr [] 0 0 0.

Fixpoint run (ops : list client_op) (p : frame_parse) (s : source_hdr) :
    outcome (list stream_event * frame_parse * source_hdr) :=
  match ops with
  | [] => mret ([], p, s)
  | Give s1 :: ops => run ops p (give s s1)
  | Take d :: ops =>
      r ← parse_sc_frame s d p;
      '(E, p', s') ← run ops (r_parser r) (r_source r);
      mret (call_events (drop (length (d_bytes d)) (d_bytes (r_dest r))) (partialframe r) ++ E, p', s')
  end.

(** The bytes that were given. *)
Definition stream (ops : list client_op) : list Z :=
  concat (map (λ o, match o with Give s => s_bytes s | Take _ => [] end) ops).

(** Sources are bytes without the flag for the end of the stream, destinations
    have room for a start code. *)
Definition op_ok (c : start_code) (o : client_op) : Prop :=
  match o with
  | Give s => Forall is_byte (s_bytes s) ∧ is_eos s = false
  | Take d => dest_wf d ∧ need c ≤ dest_len d
  end.

Lemma ref_scan_shorter c hdr l out h opening rest :
  ref_scan c hdr l = (out, h, ScanCode opening rest) → (length rest < length l)%nat.
Proof.
  revert hdr out. induction l as [|b l IH]; intros hdr out H; [done|].
  rewrite ref_scan_unfold in H. destruct (code_at c hdr (b :: l)) as [[n o]|] eqn:E.
  - simplify_eq. rewrite length_drop. assert (0 < n)%nat; [|simpl; lia].
    clear -E. unfold code_at in E. repeat case_match; simplify_eq; lia.
  - destruct (code_prefix c (b :: l)); [done|].
    destruct (ref_scan c (hdr || header_at c (b :: l)) l) as [[out' h'] e'] eqn:E'.
    unfold prepend in H. simplify_eq/=. apply IH in E'. lia.
Qed.

Definition events (c : start_code) (hdr skip : bool) (l : list Z) : list stream_event :=
  ref_events (length l) c hdr skip l.

(** The bytes of the stream bound the frames in it. *)
Lemma ref_events_fuel fuel c hdr skip l : (length l ≤ fuel)%nat →
  ref_events fuel c hdr skip l = events c hdr skip l.
Proof.
  unfold events. remember (length l) as n eqn:Hn. revert fuel hdr skip l Hn.
  induction n as [n IH] using lt_wf_ind. intros fuel hdr skip l -> Hf.
  destruct fuel as [|fuel], (length l) as [|m] eqn:Hl; try lia; try done;
    cbn [ref_events]; destruct (ref_scan c hdr l) as [[out h] [rest|opening rest]] eqn:E; try done;
    apply ref_scan_shorter in E; rewrite Hl in E; [lia|].
  do 3 f_equal. rewrite (IH (length rest) ltac:(lia) fuel), (IH (length rest) ltac:(lia) m) by lia.
  done.
Qed.

Lemma events_unfold c hdr skip l :
  events c hdr skip l =
  let '(out, h, e) := ref_scan c hdr l in
  map Data out ++
  match e with
  | ScanRest _ => []
  | ScanCode opening rest =>
      (if has_headers c && skip then [] else [FrameEnd]) ++ map Data opening ++
      events c h (if has_headers c then header_byte c (List.last opening 0) else skip) rest
  end.
Proof.
  unfold events at 1. destruct (length l) as [|n] eqn:Hl; cbn [ref_events];
    destruct (ref_scan c hdr l) as [[out h] [rest|opening rest]] eqn:E; try done;
    apply ref_scan_shorter in E; rewrite Hl in E; [lia|].
  rewrite ref_events_fuel by lia. done.
Qed.

(** What is still to come out of a configuration. *)
Definition cfg_events (c : start_code) (p : frame_parse) (l : list Z) : list stream_event :=
  if found (parse_state p) then
    map Data (opening_of c p) ++
    events c (header_found p) (has_headers c && header_byte c (last_byte p) || skip_frame_boundary p) l
  else events c (header_found p) (skip_frame_boundary p) (pending c (parse_state p) ++ l).

Lemma opened_events c s d p l :
  cfg_events c p l =
  map Data (drop (length (d_bytes d)) (d_bytes (opened c s d p).1)) ++ cfg_events c (opened c s d p).2 l.
Proof.
  unfold opened, cfg_events at 1. destruct (found (parse_state p)) eqn:Hf; simpl.
  - rewrite drop_app_length. f_equal. unfold cfg_events. simpl. unfold update_skip_frame.
    destruct c; simpl; try done; by case_match.
  - rewrite drop_all. simpl. unfold cfg_events. by rewrite Hf.
Qed.

Lemma scanned_events c s s' d d' p p' x :
  scanned c s s' d d' p p' → found (parse_state p) = false →
  ∃ out, d_bytes d' = d_bytes d ++ out ∧
    cfg_events c p (s_bytes s ++ x) =
    call_events out (Some (closed c p').1) ++ cfg_events c (closed c p').2 (s_bytes s' ++ x).
Proof.
  intros (k & out & -> & -> & _ & _ & Hv & (_ & Hsk & _) & _ & Hx) Hf. exists out. split; [done|].
  unfold cfg_events at 1. rewrite Hf. unfold closed, call_events.
  destruct (found (parse_state p')) eqn:Hf'.
  - rewrite events_unfold, Hx, <- app_assoc. f_equal.
    unfold check_skip_frame_boundary. rewrite <- Hsk.
    assert (has_headers c = true → List.last (opening_of c p') 0 = last_byte p') as Hlast by (by destruct c).
    destruct (has_headers c) eqn:Hh; simpl.
    + rewrite Hlast by done. unfold cfg_events. simpl. rewrite Hf', Hh.
      assert (opening_of c (set_skip false p') = opening_of c p') as -> by (by destruct c).
      rewrite orb_false_r. by destruct (skip_frame_boundary p').
    + unfold cfg_events. rewrite Hf', Hh. done.
  - simpl. rewrite app_nil_r. unfold cfg_events. rewrite Hf'.
    rewrite events_unfold, Hx, <- Hsk, (events_unfold _ _ _ (_ ++ _)).
    destruct (ref_scan c (header_found p') _) as [[o h] e]. simpl. by rewrite map_app, <- app_assoc.
Qed.

Lemma closed_state c p :
  parse_state (closed c p).2 = parse_state p ∧ code (closed c p).2 = code p.
Proof. unfold closed, check_skip_frame_boundary. by repeat case_match. Qed.

(** A call emits what the search finds in the bytes it consumes. *)
Lemma call_scan c s d p D :
  code p = Some c → Forall is_byte (s_bytes s) → is_eos s = false → dest_wf d →
  need c ≤ dest_len d → valid_state c (parse_state p) = true →
  parse_sc_frame s d p = Undefined ∧ one_by_one c = false ∧
    dest_len d < 4 + Z.of_nat (length (s_bytes s)) ∨
  ∃ r k, parse_sc_frame s d p = Done r ∧ r_source r = skip_source k s ∧
    code (r_parser r) = Some c ∧ valid_state c (parse_state (r_parser r)) = true ∧
    cfg_events c p (s_bytes s ++ D) =
      call_events (drop (length (d_bytes d)) (d_bytes (r_dest r))) (partialframe r) ++
      cfg_events c (r_parser r) (s_bytes (r_source r) ++ D) ∧
    (8 ≤ dest_len d → (length (s_bytes (r_source r)) ≤ length (s_bytes s) - 1)%nat).
Proof.
  intros Hc Hby He Hw Hn Hv. destruct (decide (s_bytes s = [])) as [Hne|Hne].
  { right. exists (ParseResult (-1) None s d p), 0%nat. unfold parse_sc_frame. rewrite Hne, He. simpl.
    rewrite Hne, drop_all, skip_source_0. split_and!; [by rewrite orb_true_r|done..|simpl; lia]. }
  destruct (parse_sc_frame_scan c s d p Hc Hby Hne He Hw Hn Hv)
    as [?|(s' & d' & p' & -> & Hsc & Hprog)]; [by left|right].
  pose proof Hsc as (k & out & -> & -> & _ & _ & Hv' & _).
  eexists _, k. split; [done|]. split; [done|]. destruct (closed_state c p') as [Hst Hcode]. simpl.
  pose proof (opened_ok c s d p Hw Hn Hv Hc) as [_ Ho]. rewrite (opened_events c s d p).
  assert (∃ e, d_bytes (opened c s d p).1 = d_bytes d ++ e) as [e Hopen].
  { unfold opened. destruct (found (parse_state p)); [by eexists|exists []; by rewrite app_nil_r]. }
  destruct (opened c s d p) as [d0 p0]. destruct Ho as (_ & _ & _ & Hf0 & Hc0 & _). simpl in *.
  destruct (scanned_events c _ _ d0 _ p0 p' D Hsc Hf0) as (out' & Hd' & ->). simpl in *.
  apply app_inv_head in Hd' as <-. rewrite Hopen, <- (app_assoc (d_bytes d)), !drop_app_length.
  destruct Hsc as (? & ? & _ & _ & _ & _ & _ & [Hcd _] & _).
  split_and!; [congruence|by rewrite Hst| |intros H8; specialize (Hprog H8); lia].
  unfold call_events. by rewrite map_app, <- !app_assoc.
Qed.

(** A whole run of the client. *)
Lemma run_scan c ops p s :
  Forall (op_ok c) ops → code p = Some c → valid_state c (parse_state p) = true →
  Forall is_byte (s_bytes s) → is_eos s = false →
  match run ops p s with
  | Done (E, p', s') =>
      cfg_events c p (s_bytes s ++ stream ops) = E ++ cfg_events c p' (s_bytes s') ∧
      code p' = Some c ∧ valid_state c (parse_state p') = true ∧ Forall is_byte (s_bytes s') ∧
      is_eos s' = false ∧ (length (s_bytes s') ≤ length (s_bytes s ++ stream ops))%nat
  | Undefined => one_by_one c = false ∧ ∃ d, Take d ∈ ops ∧
      dest_len d < 4 + Z.of_nat (length (s_bytes s ++ stream ops))
  | NoFuel => False
  end.
Proof.
  intros Hops. revert p s. induction Hops as [|[s1|d] ops Ho Hops IH]; intros p s Hc Hv Hby He; simpl.
  - by rewrite app_nil_r.
  - destruct Ho as [Hby1 He1]. specialize (IH p (give s s1) Hc Hv). simpl in IH.
    rewrite <- app_assoc in IH.
    specialize (IH ltac:(by apply Forall_app) He1).
    destruct (run ops p (give s s1)) as [[[E p'] s']| |]; [done| |done].
    destruct IH as (? & d & ? & ?). split; [done|]. exists d. split; [by right|done].
  - destruct Ho as [Hw Hn]. change (stream (Take d :: ops)) with (stream ops).
    destruct (call_scan c s d p (stream ops) Hc Hby He Hw Hn Hv)
      as [(-> & Hob & Hlt)|(r & k & -> & Hsrc & Hc' & Hv' & Hev & _)]; cbn [mbind outcome_bind].
    { split; [done|]. exists d. split; [by left|]. rewrite length_app. lia. }
    specialize (IH (r_parser r) (r_source r) Hc' Hv'). rewrite Hsrc in IH, Hev |- *. simpl in IH, Hev.
    specialize (IH ltac:(by apply Forall_drop) He).
    destruct (run ops (r_parser r) (skip_source k s)) as [[[E p'] s']| |]; [|clear Hev|done].
    + destruct IH as (IH & ? & ? & ? & ? & Hlen). split_and!; [by rewrite Hev, IH, app_assoc|done..|].
      rewrite length_app, length_drop in Hlen. rewrite length_app. lia.
    + destruct IH as (? & d1 & ? & Hlt). split; [done|]. exists d1. split; [by right|].
      rewrite length_app, length_drop in Hlt. rewrite length_app. lia.
Qed.

(** With eight bytes of room each call consumes. *)
Lemma takes_empty c ds p s E p' s' :
  Forall (λ d, dest_wf d ∧ 8 ≤ dest_len d) ds → code p = Some c → valid_state c (parse_state p) = true →
  Forall is_byte (s_bytes s) → is_eos s = false → (length (s_bytes s) ≤ length ds)%nat →
  run (map Take ds) p s = Done (E, p', s') → s_bytes s' = [].
Proof.
  intros Hds. revert p s E. induction Hds as [|d ds [Hw Hr] Hds IH]; intros p s E Hc Hv Hby He Hlen; simpl.
  - intros [= _ _ <-]. apply nil_length_inv. simpl in Hlen. lia.
  - assert (need c ≤ dest_len d) as Hn by (destruct c; simpl; lia).
    destruct (call_scan c s d p [] Hc Hby He Hw Hn Hv)
      as [(-> & _)|(r & k & -> & Hsrc & Hc' & Hv' & _ & Hk)]; cbn [mbind outcome_bind]; [done|].
    specialize (Hk Hr). rewrite Hsrc in Hk |- *.
    destruct (run _ _ _) as [[[E1 p1] s1]| |] eqn:Hrun; [|done..]. intros [= _ <- <-].
    apply (IH (r_parser r) (skip_source k s) E1); [done..|by apply Forall_drop|done|simpl in *; lia|done].
Qed.

Lemma run_app ops ops' p s :
  run (ops ++ ops') p s =
  '(E, p1, s1) ← run ops p s; '(E', p', s') ← run ops' p1 s1; mret (E ++ E', p', s').
Proof.
  revert p s. induction ops as [|[s1|d] ops IH]; intros p s; simpl.
  - by destruct (run ops' p s) as [[[? ?] ?]| |].
  - apply IH.
  - destruct (parse_sc_frame s d p) as [r| |]; [|reflexivity..]. cbn [mbind outcome_bind]. rewrite IH.
    destruct (run ops _ _) as [[[E p1] s1]| |]; [|reflexivity..]. cbn [mbind outcome_bind mret outcome_ret].
    destruct (run ops' _ _) as [[[E' p'] s']| |]; [|reflexivity..]. cbn [mbind outcome_bind mret outcome_ret].
    by rewrite app_assoc.
Qed.

Lemma cfg_events_end c p : valid_state c (parse_state p) = true →
  cfg_events c p [] = if found (parse_state p) then map Data (opening_of c p) else [].
Proof.
  intros Hv. unfold cfg_events. destruct (found (parse_state p)) eqn:Hf.
  - by rewrite events_unfold, app_nil_r.
  - rewrite app_nil_r, events_unfold.
    assert (ref_scan c (header_found p) (pending c (parse_state p)) =
      ([], header_found p, ScanRest (pending c (parse_state p)))) as ->; [|done].
    by destruct c, (parse_state p).
Qed.


(** Both state machines of parse_sc_frame end: a call with room for a
    start code returns 1, keeps the destination within its bounds, and with
    eight bytes of room consumes a byte of the source; for the codes whose
    bytes differ it may instead overrun the destination. *)
Theorem parse_call_ends c s d p :
  code p = Some c → Forall is_byte (s_bytes s) → s_bytes s ≠ [] → is_eos s = false → dest_wf d →
  need c ≤ dest_len d → valid_state c (parse_state p) = true →
  parse_sc_frame s d p = Undefined ∧ one_by_one c = false ∨
  ∃ r, parse_sc_frame s d p = Done r ∧ rc r = 1 ∧ dest_wf (r_dest r) ∧
    (∃ k, r_source r = skip_source k s) ∧
    (8 ≤ dest_len d → (length (s_bytes (r_source r)) < length (s_bytes s))%nat).
Proof.
  intros Hc Hby Hne He Hw Hn Hv.
  destruct (parse_sc_frame_scan c s d p Hc Hby Hne He Hw Hn Hv)
    as [[? [? _]]|(s' & d' & p' & -> & (k & out & -> & -> & _ & Hw' & _) & Hp)]; [by left|right].
  eexists. split_and!; [done|done|done|by exists k|done].
Qed.

(** *** Overflow of the destination *)
Lemma zeros_transitions c p : one_by_one c = false →
  (parse_state p = A2 → sc_transition c 0 p = (set_parse_state A1 p, false, 1%nat) ∧
     sc_transition c 1 p = (set_parse_state A3 p, true, 0%nat)) ∧
  (parse_state p = A1 → sc_transition c 0 p = (set_parse_state A2 p, true, 0%nat)) ∧
  (parse_state p = A3 → sc_transition c 5 p = (set_parse_state A0 p, false, 3%nat)).
Proof.
  intros Hc. unfold sc_transition.
  split_and!; intros ->; destruct c; try done; split; reflexivity.
Qed.

(** One turn of the entry machine that does not end it. *)
Lemma entry_loop_turn c fuel b l s d p :
  s_bytes s = b :: l → parse_state p ≠ A0 → found (parse_state p) = false → dest_len d ≠ 0 →
  entry_loop c (S fuel) s d p =
  let '(p, consumed, n) := sc_transition c b p in
  d ← put_bytes (take n (start_bytes c)) d;
  entry_loop c fuel (if consumed : bool then skip_source 1 s else s) d p.
Proof.
  intros Hl Hq Hf Hd. cbn [entry_loop]. rewrite Hl, Hf, orb_false_r.
  rewrite bool_decide_false by done. by rewrite (proj2 (Z.eqb_neq _ _)).
Qed.

Lemma zeros_fill c n s d p rest fuel :
  one_by_one c = false → parse_state p = A2 → dest_wf d → dest_len d = Z.of_nat (S n) →
  s_bytes s = repeat 0 n ++ 1 :: 5 :: rest → (2 * n + 2 < fuel)%nat →
  entry_loop c fuel s d p = Undefined.
Proof.
  intros Ho. revert s d p fuel.
  induction n as [|n IH]; intros s d p fuel Hq Hw Hl Hs Hf;
    destruct fuel as [|[|fuel]]; try lia; simpl in Hs;
    destruct (zeros_transitions c p Ho) as (Ht2 & _ & _); destruct (Ht2 Hq) as [Ht20 Ht21];
    rewrite (entry_loop_turn _ _ _ _ _ _ _ Hs) by (rewrite ?Hq; done || lia).
  - rewrite Ht21. destruct (put_bytes_Done [] d Hw) as [Hp _]; [simpl; lia|].
    change (take 0 (start_bytes c)) with (@nil Z). rewrite Hp, add_bytes_nil. cbn [mbind outcome_bind].
    assert (s_bytes (skip_source 1 s) = 5 :: rest) as Hs1 by (simpl; by rewrite Hs).
    rewrite (entry_loop_turn _ _ _ _ _ _ _ Hs1) by (done || lia).
    destruct (zeros_transitions c (set_parse_state A3 p) Ho) as (_ & _ & Ht3). rewrite Ht3 by done.
    destruct (dest_len_wf d Hw) as [Hd _]. unfold put_bytes at 1. rewrite length_app.
    destruct (Z.leb_spec (Z.of_nat (length (d_bytes d) + length (take 3 (start_bytes c))) + d_nOffset d)
      (d_nAllocLen d)); [|done].
    assert (length (take 3 (start_bytes c)) = 3%nat) by (by destruct c). lia.
  - rewrite Ht20.
    assert (take 1 (start_bytes c) = [0]) as Ht1 by (by destruct c). rewrite Ht1.
    destruct (put_bytes_Done [0] d Hw) as (-> & Hw1 & Hl1); [simpl; lia|]. cbn [mbind outcome_bind].
    rewrite (entry_loop_turn _ _ _ _ _ _ _ Hs) by (simpl in *; done || lia).
    destruct (zeros_transitions c (set_parse_state A1 p) Ho) as (_ & Ht & _). rewrite Ht by done.
    destruct (put_bytes_Done [] (add_bytes [0] d) Hw1) as [Hp _]; [simpl in *; lia|].
    change (take 0 (start_bytes c)) with (@nil Z). rewrite Hp, add_bytes_nil. cbn [mbind outcome_bind].
    apply IH; [done|done|simpl in *; lia|simpl; by rewrite Hs|lia].
Qed.

(** For MPEG-4, VC-1 and MPEG-2 a run of zeros that fills the
    destination, begun after two bytes of a start code in the buffer before,
    makes the entry state machine copy three bytes where one is left. *)
Theorem zero_run_overflows_destination c d p n rest s :
  one_by_one c = false → code p = Some c → parse_state p = A2 → dest_wf d →
  dest_len d = Z.of_nat (S n) → (3 ≤ n)%nat → s_bytes s = repeat 0 n ++ 1 :: 5 :: rest →
  parse_sc_frame s d p = Undefined.
Proof.
  intros Ho Hc Hq Hw Hl Hn Hs. unfold parse_sc_frame, parse_with. rewrite Hc.
  assert (match c with SC_H263 => 3 | _ => 4 end ≤ dest_len d) by (destruct c; lia).
  assert (s_bytes s ≠ []) by (rewrite Hs; by destruct n).
  rewrite (bool_decide_false (s_bytes s = [])), (proj2 (Z.ltb_ge _ _)) by done. cbn [orb].
  rewrite Hq. cbn [found mbind outcome_bind mret outcome_ret].
  rewrite (zeros_fill c n s d p rest); [done|done|done|done|done|done|].
  unfold loop_fuel. rewrite Hs, length_app, repeat_length. simpl. lia.
Qed.

(** ** The stream of NAL units *)

(** The value of a length, most significant byte first. *)
Definition be_value (l : list Z) : Z := foldl (λ v b, v * 256 + b) 0 l.

(** The reference: a start code and the payload for each unit. *)
Fixpoint ref_nal (fuel : nat) (n : nat) (l : list Z) : list stream_event :=
  match fuel with
  | O => []
  | S fuel =>
      if (length l <? n)%nat then []
      else
        let k := be_value (take n l) in
        let l := drop n l in
        map Data (start_bytes SC_H264) ++
        if Z.of_nat (length l) <? k then map Data l
        else map Data (take (Z.to_nat k) l) ++ [FrameEnd] ++ ref_nal fuel n (drop (Z.to_nat k) l)
  end.

Definition nal_events (n : nat) (l : list Z) : list stream_event := ref_nal (S (length l)) n l.

(** A client of [parse_h264_nallength]. *)
Inductive nal_feeds : frame_parse * list Z → list Z → list stream_event →
    frame_parse * list Z → Prop :=
  | nal_feeds_stop cfg : nal_feeds cfg [] [] cfg
  | nal_feeds_data p src data D E cfg :
      Forall is_byte data → nal_feeds (p, src ++ data) D E cfg → nal_feeds (p, src) (data ++ D) E cfg
  | nal_feeds_call p s d r out D E cfg :
      s_bytes s ≠ [] → dest_wf d → 4 ≤ dest_len d →
      parse_h264_nallength s d p = Done r → d_bytes (r_dest r) = d_bytes d ++ out →
      nal_feeds (r_parser r, s_bytes (r_source r)) D E cfg →
      nal_feeds (p, s_bytes s) D (call_events out (partialframe r) ++ E) cfg.

Lemma ref_nal_fuel n fuel l : (0 < n)%nat → (length l < fuel)%nat →
  ref_nal fuel n l = nal_events n l.
Proof.
  intros Hn. unfold nal_events. revert l.
  assert (∀ m fuel fuel' l, length l ≤ m → m < fuel → m < fuel' →
    ref_nal fuel n l = ref_nal fuel' n l)%nat as H; [|intros l Hl; apply (H (length l)); lia].
  induction m as [m IH] using lt_wf_ind. intros f f' l Hl Hf Hf'.
  destruct f as [|f], f' as [|f']; try lia. cbn [ref_nal].
  destruct (Nat.ltb_spec (length l) n); [done|]. f_equal.
  destruct (Z.of_nat (length (drop n l)) <? be_value (take n l)); [done|]. do 2 f_equal.
  apply (IH (m - 1)%nat); rewrite ?length_drop; lia.
Qed.

Lemma nal_events_unfold n l : (0 < n)%nat →
  nal_events n l =
  if (length l <? n)%nat then []
  else
    let k := be_value (take n l) in
    let l := drop n l in
    map Data (start_bytes SC_H264) ++
    if Z.of_nat (length l) <? k then map Data l
    else map Data (take (Z.to_nat k) l) ++ [FrameEnd] ++ nal_events n (drop (Z.to_nat k) l).
Proof.
  intros Hn. unfold nal_events at 1. cbn [ref_nal].
  destruct (Nat.ltb_spec (length l) n); [done|]. cbv zeta.
  rewrite ref_nal_fuel; [done|done|]. rewrite !length_drop. lia.
Qed.

(** One more byte of a length. *)
Lemma lor_byte v b k : 0 ≤ k → is_byte b →
  Z.lor (v * 256 ^ (k + 1)) (b * 256 ^ k) = (v * 256 + b) * 256 ^ k.
Proof.
  intros Hk Hb. unfold is_byte in Hb.
  assert (256 ^ k = 2 ^ (8 * k)) as Hp by (rewrite Z.pow_mul_r by lia; done).
  rewrite Z.pow_add_r, Z.pow_1_r by lia.
  assert (Z.lor (v * 256) b = v * 256 + b) as Hor.
  { change 256 with (2 ^ 8). rewrite <- Z.lxor_lor by (apply land_disjoint; lia).
    symmetry. apply Z.add_nocarry_lxor. apply land_disjoint; lia. }
  replace (v * (256 ^ k * 256)) with ((v * 256) * 256 ^ k) by ring.
  rewrite Hp, <- !Z.shiftl_mul_pow2, <- Z.shiftl_lor by lia. by rewrite Hor.
Qed.

(** The parser has read the bytes [bs] of the next length. *)
Definition nal_acc (n : nat) (bs : list Z) (p : frame_parse) : Prop :=
  state_nal p = NAL_LENGTH_ACC ∧ nal_length p = Z.of_nat n ∧ (length bs < n)%nat ∧
  Forall is_byte bs ∧ accum_length p = Z.of_nat (length bs) ∧
  bytes_tobeparsed p = be_value bs * 256 ^ Z.of_nat (n - length bs).

Lemma be_value_app l b : be_value (l ++ [b]) = be_value l * 256 + b.
Proof. unfold be_value. by rewrite foldl_app. Qed.

(** One byte of a length, read into the accumulator. *)
Lemma nal_acc_byte n bs b p : nal_acc n bs p → (n ≤ 4)%nat → is_byte b →
  Z.lor (bytes_tobeparsed p)
    (wrap_unsigned 32 (Z.shiftl b (Z.shiftl (nal_length p - accum_length p - 1) 3))) =
  be_value (bs ++ [b]) * 256 ^ Z.of_nat (n - length (bs ++ [b])).
Proof.
  intros (_ & -> & Hl & _ & -> & ->) Hn Hb. rewrite length_app. simpl.
  replace (n - length bs)%nat with (S (n - (length bs + 1))) by lia.
  set (k := (n - (length bs + 1))%nat).
  replace (Z.of_nat n - Z.of_nat (length bs) - 1) with (Z.of_nat k) by lia.
  rewrite (Z.shiftl_mul_pow2 (Z.of_nat k)), (Z.shiftl_mul_pow2 b) by lia.
  change (2 ^ 3) with 8. rewrite (Z.mul_comm (Z.of_nat k)), Z.pow_mul_r by lia. change (2 ^ 8) with 256.
  rewrite wrap_unsigned_small.
  - rewrite Nat2Z.inj_succ, <- Z.add_1_r, lor_byte, be_value_app by (done || lia). done.
  - unfold is_byte in Hb. assert (k ≤ 3)%nat by (unfold k; lia).
    assert (256 ^ Z.of_nat k ≤ 256 ^ 3) by (apply Z.pow_le_mono_r; lia).
    assert (0 < 256 ^ Z.of_nat k) by (apply Z.pow_pos_nonneg; lia). change (2 ^ 32) with (256 * 256 ^ 3).
    nia.
Qed.

Lemma length_loop_read n bs m s d p :
  nal_acc n bs p → (n ≤ 4)%nat → Forall is_byte (s_bytes s) → dest_wf d → 4 ≤ dest_len d →
  (Nat.min (length (s_bytes s)) (n - length bs) ≤ m)%nat →
  (length (s_bytes s) < n - length bs)%nat ∧
    (∃ p', length_loop m s d p = Done (skip_source (length (s_bytes s)) s, d, p') ∧
           nal_acc n (bs ++ s_bytes s) p') ∨
  (n - length bs ≤ length (s_bytes s))%nat ∧
    length_loop m s d p =
      Done (skip_source (n - length bs) s, add_bytes (start_bytes SC_H264) d,
            set_nal NAL_PARSING (Z.of_nat n) 0 (be_value (bs ++ take (n - length bs) (s_bytes s))) p).
Proof.
  intros Ha Hn Hby Hw Hd. revert bs s p Ha Hby.
  induction m as [|m IH]; intros bs s p Ha Hby Hm; pose proof Ha as (Hst & Hnl & Hl & Hbs & Hal & Htb).
  { destruct (s_bytes s) as [|b l] eqn:Hs; [|cbn [length] in Hm; lia]. left. split; [simpl; lia|].
    exists p. simpl. by rewrite skip_source_0, app_nil_r. }
  cbn [length_loop]. destruct (s_bytes s) as [|b l] eqn:Hs.
  { left. split; [simpl; lia|]. exists p. simpl. by rewrite skip_source_0, app_nil_r. }
  apply Forall_cons in Hby as [Hb Hby].
  rewrite (nal_acc_byte n bs b p Ha Hn Hb). rewrite Hnl, Hal.
  destruct (Z.eqb_spec (Z.of_nat (length bs) + 1) (Z.of_nat n)) as [He|He].
  - right. split; [simpl; lia|].
    destruct (put_bytes_Done (start_bytes SC_H264) d Hw) as [-> _]; [simpl; lia|].
    rewrite length_app. simpl. replace (n - length bs)%nat with 1%nat by lia.
    replace (n - (length bs + 1))%nat with 0%nat by lia. simpl. by rewrite Z.mul_1_r.
  - destruct (IH (bs ++ [b]) (skip_source 1 s)
      (set_nal NAL_LENGTH_ACC (Z.of_nat n) (Z.of_nat (length bs) + 1)
        (be_value (bs ++ [b]) * 256 ^ Z.of_nat (n - length (bs ++ [b]))) p))
      as [[Hlt (p' & -> & Ha')]|[Hge ->]].
    + unfold nal_acc. rewrite length_app. simpl.
      split_and!; [done|done|lia|by apply Forall_app; auto|lia|done].
    + simpl. rewrite Hs. simpl. by rewrite drop_0.
    + simpl. rewrite Hs, length_app. cbn [length drop] in *. rewrite drop_0. lia.
    + left. assert (s_bytes (skip_source 1 s) = l) as Hl1 by (simpl; by rewrite Hs).
      rewrite Hl1, length_app in *. cbn [length] in *. split; [lia|].
      exists p'. rewrite skip_source_add, <- app_assoc in *. done.
    + right. assert (s_bytes (skip_source 1 s) = l) as Hl1 by (simpl; by rewrite Hs).
      rewrite Hl1, length_app in *. cbn [length] in *. split; [lia|].
      rewrite skip_source_add. replace (n - length bs)%nat with (1 + (n - (length bs + 1)))%nat by lia.
      rewrite <- app_assoc. done.
Qed.

(** What is still to come out of a configuration of the NAL parser. *)
Definition nal_state (n : nat) (p : frame_parse) (l : list Z) (E : list stream_event) : Prop :=
  nal_length p = Z.of_nat n ∧
  match state_nal p with
  | NAL_LENGTH_ACC => ∃ bs, nal_acc n bs p ∧ E = nal_events n (bs ++ l)
  | NAL_PARSING =>
      accum_length p = 0 ∧ 0 ≤ bytes_tobeparsed p ∧
      E = if Z.of_nat (length l) <? bytes_tobeparsed p then map Data l
          else map Data (take (Z.to_nat (bytes_tobeparsed p)) l) ++ [FrameEnd] ++
               nal_events n (drop (Z.to_nat (bytes_tobeparsed p)) l)
  end.

Lemma be_value_nonneg l : Forall is_byte l → 0 ≤ be_value l.
Proof.
  induction l as [|b l IH] using rev_ind; intros Hl; [done|].
  apply Forall_app in Hl as [Hl Hb]. apply Forall_cons in Hb as [Hb _]. unfold is_byte in Hb.
  rewrite be_value_app. specialize (IH Hl). lia.
Qed.

Lemma copy_nal_scan n s d p x E :
  (0 < n)%nat → dest_wf d → nal_state n p (s_bytes s ++ x) E →
  (state_nal p = NAL_LENGTH_ACC → s_bytes s = []) →
  ∃ k out r E', copy_nal s d p = Done r ∧ rc r = 1 ∧ r_source r = skip_source k s ∧
    d_bytes (r_dest r) = d_bytes d ++ out ∧ dest_wf (r_dest r) ∧
    E = call_events out (partialframe r) ++ E' ∧
    nal_state n (r_parser r) (drop k (s_bytes s) ++ x) E' ∧
    (state_nal (r_parser r) = NAL_PARSING → 0 < bytes_tobeparsed (r_parser r)).
Proof.
  intros Hn Hw [Hnl Hst] Hacc. unfold copy_nal. destruct (dest_len_wf d Hw) as [_ Hd0].
  destruct (state_nal p) eqn:Hq.
  { exists 0%nat, []. rewrite (bool_decide_false (NAL_LENGTH_ACC = NAL_PARSING)) by done.
    cbn [andb mbind outcome_bind mret outcome_ret]. rewrite bool_decide_false, andb_false_r by congruence.
    eexists _, E. split_and!; [done|done|by rewrite skip_source_0|by rewrite app_nil_r|done|done| |].
    2: { simpl. congruence. }
    rewrite (Hacc eq_refl) in *. split; [done|]. simpl. by rewrite Hq. }
  destruct Hst as (Hal & Hk & ->). clear Hacc.
  set (t := Z.min (Z.of_nat (length (s_bytes s))) (dest_len d)).
  rewrite (bool_decide_true (NAL_PARSING = NAL_PARSING)) by done. cbn [andb].
  set (m := if 0 <? t then (if t <? bytes_tobeparsed p then t else bytes_tobeparsed p) else 0).
  assert (0 ≤ m ≤ t ∧ m ≤ bytes_tobeparsed p ∧ (m < bytes_tobeparsed p → m = t)) as (Hm & Hmk & Hmt).
  { unfold m. destruct (Z.ltb_spec 0 t); [destruct (Z.ltb_spec t (bytes_tobeparsed p)); lia|]. lia. }
  assert (Z.of_nat (length (take (Z.to_nat m) (s_bytes s))) = m) as Hlen
    by (rewrite length_take; lia).
  destruct (put_bytes_Done (take (Z.to_nat m) (s_bytes s)) (put_info s d))
    as (Hp & Hw' & _); [done|change (dest_len (put_info s d)) with (dest_len d); lia|].
  replace (if 0 <? t then _ else _) with
    (mret (skip_source (Z.to_nat m) s, add_bytes (take (Z.to_nat m) (s_bytes s)) (put_info s d),
           set_nal NAL_PARSING (nal_length p) (accum_length p) (bytes_tobeparsed p - m) p) : outcome _).
  2: { unfold m in *. destruct (0 <? t); [by rewrite Hp|]. simpl.
       rewrite skip_source_0, add_bytes_nil, Z.sub_0_r. destruct p; simpl in *. by subst. }
  cbn [mbind outcome_bind mret outcome_ret]. change (state_nal (set_nal _ _ _ _ _)) with NAL_PARSING.
  change (bytes_tobeparsed (set_nal NAL_PARSING (nal_length p) (accum_length p)
    (bytes_tobeparsed p - m) p)) with (bytes_tobeparsed p - m).
  rewrite (bool_decide_true (NAL_PARSING = NAL_PARSING)), andb_true_r by done.
  exists (Z.to_nat m), (take (Z.to_nat m) (s_bytes s)).
  set (rest := s_bytes s) in *.
  destruct (Z.eqb_spec (bytes_tobeparsed p - m) 0) as [Hz|Hz]; eexists _, _.
  - split_and!; [done|done|done|done|done| | |done].
    + assert (Z.to_nat (bytes_tobeparsed p) = Z.to_nat m) as Hkm by lia.
      rewrite (proj2 (Z.ltb_ge _ _)) by (rewrite length_app; lia).
      rewrite Hkm, take_app_le, drop_app_le by lia. unfold call_events. simpl.
      rewrite <- app_assoc. reflexivity.
    + split; [done|]. exists []. split; [|done]. unfold nal_acc. simpl. rewrite Hnl. split_and!; try done; lia.
  - split_and!; [done|done|done|done|done| |by split; [done|]; simpl; split_and!; [done|lia|]
                 |intros _; simpl; lia].
    unfold call_events. simpl. rewrite app_nil_r.
    set (y := drop (Z.to_nat m) rest ++ x).
    assert (rest ++ x = take (Z.to_nat m) rest ++ y) as -> by (unfold y; by rewrite app_assoc, take_drop).
    set (z := take (Z.to_nat m) rest) in *. rewrite length_app, Nat2Z.inj_add, Hlen.
    destruct (Z.ltb_spec (m + Z.of_nat (length y)) (bytes_tobeparsed p)),
      (Z.ltb_spec (Z.of_nat (length y)) (bytes_tobeparsed p - m)); try lia.
    + by rewrite map_app.
    + rewrite take_app_ge, drop_app_ge by lia.
      replace (Z.to_nat (bytes_tobeparsed p) - length z)%nat with (Z.to_nat (bytes_tobeparsed p - m)) by lia.
      by rewrite map_app, <- app_assoc.
Qed.

Lemma parse_nal_scan n s d p x E :
  (0 < n ≤ 4)%nat → Forall is_byte (s_bytes s) → s_bytes s ≠ [] → dest_wf d → 4 ≤ dest_len d →
  nal_state n p (s_bytes s ++ x) E →
  ∃ k out r E', parse_h264_nallength s d p = Done r ∧ rc r = 1 ∧ r_source r = skip_source k s ∧
    d_bytes (r_dest r) = d_bytes d ++ out ∧ dest_wf (r_dest r) ∧
    E = call_events out (partialframe r) ++ E' ∧
    nal_state n (r_parser r) (drop k (s_bytes s) ++ x) E' ∧
    (state_nal (r_parser r) = NAL_PARSING → 0 < bytes_tobeparsed (r_parser r)).
Proof.
  intros Hn Hby Hne Hw Hd Hst. pose proof Hst as [Hnl Hst']. unfold parse_h264_nallength.
  rewrite (proj2 (Z.ltb_ge _ _)), (proj2 (Z.eqb_neq _ _)), bool_decide_false by (done || lia).
  cbn [orb]. destruct (state_nal p) eqn:Hq.
  2: { apply copy_nal_scan; [lia|done|done|congruence]. }
  destruct Hst' as (bs & Ha & ->).
  destruct (length_loop_read n bs (Z.to_nat (Z.min (Z.of_nat (length (s_bytes s))) (dest_len d))) s d p Ha)
    as [[Hlt (p' & -> & Ha')]|[Hge ->]]; [lia|done|done|done|lia| |]; cbn [mbind outcome_bind].
  - destruct (copy_nal_scan n (skip_source (length (s_bytes s)) s) d p' x
      (nal_events n (bs ++ s_bytes s ++ x))) as (k & out & r & E' & ? & ? & Hsrc & ? & ? & ? & Hst2 & ?).
    + lia.
    + done.
    + split; [apply Ha'|]. destruct Ha' as (Hq' & Ha'). rewrite Hq'. exists (bs ++ s_bytes s).
      split; [done|]. simpl. by rewrite drop_all, <- app_assoc.
    + intros _. simpl. by rewrite drop_all.
    + exists (length (s_bytes s) + k)%nat, out, r, E'. rewrite Hsrc, skip_source_add.
      simpl in Hst2. rewrite drop_drop in Hst2. done.
  - set (p1 := set_nal NAL_PARSING _ _ _ _).
    destruct (put_bytes_Done (start_bytes SC_H264) d Hw) as (_ & Hw1 & _); [simpl; lia|].
    set (tl := (n - length bs)%nat) in *. set (len := bs ++ take tl (s_bytes s)) in *.
    assert (length len = n) as Hlen.
    { unfold len. rewrite length_app, length_take. destruct Ha as (_ & _ & ? & _). lia. }
    assert (bs ++ s_bytes s ++ x = len ++ drop tl (s_bytes s) ++ x) as Hsplit.
    { unfold len. by rewrite <- app_assoc, (app_assoc (take _ _)), take_drop. }
    assert (0 ≤ be_value len) as Hpos.
    { apply be_value_nonneg. apply Forall_app. split; [apply Ha|by apply Forall_take]. }
    destruct (copy_nal_scan n (skip_source tl s) (add_bytes (start_bytes SC_H264) d) p1 x
      (if Z.of_nat (length (drop tl (s_bytes s) ++ x)) <? be_value len
       then map Data (drop tl (s_bytes s) ++ x)
       else map Data (take (Z.to_nat (be_value len)) (drop tl (s_bytes s) ++ x)) ++ [FrameEnd] ++
            nal_events n (drop (Z.to_nat (be_value len)) (drop tl (s_bytes s) ++ x))))
      as (k & out & r & E' & ? & ? & Hsrc & Hout & ? & Hev & Hst2 & ?).
    + lia.
    + done.
    + split; [done|]. by split_and!.
    + done.
    + exists (tl + k)%nat, (start_bytes SC_H264 ++ out), r, E'. simpl in Hst2, Hout.
      rewrite drop_drop in Hst2. split_and!; [done|done|by rewrite Hsrc, skip_source_add| |done| |done|done].
      * rewrite Hout. by rewrite <- app_assoc.
      * rewrite Hsplit, nal_events_unfold by lia.
        rewrite (proj2 (Nat.ltb_ge _ _)) by (rewrite length_app; lia). cbv zeta.
        rewrite take_app_length', drop_app_length' by done. rewrite Hev.
        unfold call_events. rewrite map_app, <- !app_assoc. done.
Qed.
Lemma nal_feeds_events n cfg D E cfg' :
  (0 < n ≤ 4)%nat → nal_feeds cfg D E cfg' → Forall is_byte cfg.2 →
  (state_nal cfg.1 = NAL_PARSING → 0 < bytes_tobeparsed cfg.1) → ∀ F,
  nal_state n cfg.1 (cfg.2 ++ D) F →
  ∃ F', F = E ++ F' ∧ nal_state n cfg'.1 cfg'.2 F' ∧
        (state_nal cfg'.1 = NAL_PARSING → 0 < bytes_tobeparsed cfg'.1).
Proof.
  intros Hn. induction 1 as [cfg|p src data D E cfg Hd _ IH|p s d r out D E cfg Hne Hw Hr4 Hr Hout _ IH];
    simpl in *; intros Hby Hpos F HF.
  - exists F. rewrite app_nil_r in HF. done.
  - rewrite app_assoc in HF. apply IH; [by apply Forall_app|done|done].
  - destruct (parse_nal_scan n s d p D F Hn Hby Hne Hw Hr4 HF)
      as (k & out' & r' & E' & Hr' & _ & Hsrc & Hout' & _ & -> & HE' & Hpos').
    rewrite Hr in Hr'. injection Hr' as <-. rewrite Hout in Hout'. apply app_inv_head in Hout' as <-.
    destruct (IH ltac:(rewrite Hsrc; by apply Forall_drop) Hpos' E') as (F' & -> & ?);
      [by rewrite Hsrc|]. exists F'. by rewrite app_assoc.
Qed.

Fixpoint be_bytes (n : nat) (v : Z) : list Z :=
  match n with O => [] | S n => be_bytes n (v / 256) ++ [v `mod` 256] end.

Lemma length_be_bytes n v : length (be_bytes n v) = n.
Proof. revert v. induction n as [|n IH]; intros v; simpl; [done|]. rewrite length_app, IH. simpl. lia. Qed.

Lemma be_value_bytes n v : 0 ≤ v < 256 ^ Z.of_nat n → be_value (be_bytes n v) = v.
Proof.
  revert v. induction n as [|n IH]; intros v Hv; cbn [be_bytes].
  - change (256 ^ Z.of_nat 0) with 1 in Hv. change (be_value []) with 0. lia.
  - rewrite Nat2Z.inj_succ, Z.pow_succ_r in Hv by lia. rewrite be_value_app, IH.
    + pose proof (Z.div_mod v 256). lia.
    + split; [apply Z.div_pos; lia|]. apply Z.div_lt_upper_bound; lia.
Qed.

(** A unit with its length in front, and what the decoder is to get for it. *)
Definition encode_unit (n : nat) (u : list Z) : list Z := be_bytes n (Z.of_nat (length u)) ++ u.
Definition unit_events (u : list Z) : list stream_event :=
  map Data (start_bytes SC_H264 ++ u) ++ [FrameEnd].

Lemma nal_events_units n units :
  (0 < n)%nat → Forall (λ u, Z.of_nat (length u) < 256 ^ Z.of_nat n) units →
  nal_events n (concat (encode_unit n <$> units)) = concat (unit_events <$> units).
Proof.
  intros Hn. induction 1 as [|u units Hu _ IH].
  { rewrite nal_events_unfold by done. by destruct n; [lia|]. }
  change (concat (unit_events <$> u :: units)) with (unit_events u ++ concat (unit_events <$> units)).
  change (concat (encode_unit n <$> u :: units)) with (encode_unit n u ++ concat (encode_unit n <$> units)).
  set (rest := concat (encode_unit n <$> units)) in *.
  rewrite nal_events_unfold by done. cbv zeta.
  set (hd := be_bytes n (Z.of_nat (length u))).
  assert (n = length hd) as Hhd by (unfold hd; by rewrite length_be_bytes).
  assert (encode_unit n u ++ rest = hd ++ (u ++ rest)) as -> by (unfold encode_unit; by rewrite app_assoc).
  rewrite (proj2 (Nat.ltb_ge _ _)) by (rewrite length_app; lia).
  rewrite (take_app_length' hd), (drop_app_length' hd) by done. unfold hd. clear Hhd hd.
  rewrite be_value_bytes by lia. rewrite Nat2Z.id.
  rewrite (proj2 (Z.ltb_ge _ _)) by (rewrite length_app; lia).
  rewrite take_app_length, drop_app_length, IH. unfold unit_events at 2.
  by rewrite map_app, <- !app_assoc.
Qed.

(** However a stream of NAL units with length fields of one to four bytes
    is cut into buffers and whatever the destinations hold,
    parse_h264_nallength reports each unit with a start code in front of it
    and a frame boundary behind it. *)
Theorem nal_units_converted n p units E p' :
  (0 < n ≤ 4)%nat → state_nal p = NAL_LENGTH_ACC → nal_length p = Z.of_nat n →
  accum_length p = 0 → bytes_tobeparsed p = 0 →
  Forall (λ u, Z.of_nat (length u) < 256 ^ Z.of_nat n) units →
  nal_feeds (p, []) (concat (encode_unit n <$> units)) E (p', []) →
  E = concat (unit_events <$> units).
Proof.
  intros Hn Hq Hnl Hal Htb Hu Hf.
  destruct (nal_feeds_events n _ _ _ _ Hn Hf) with (F := concat (unit_events <$> units))
    as (F' & Heq & [_ HF] & Hpos); simpl in *.
  - done.
  - congruence.
  - split; [done|]. rewrite Hq. exists []. rewrite <- nal_events_units with (n := n) by (done || lia).
    unfold nal_acc. simpl. split_and!; (done || lia).
  - rewrite Heq. assert (F' = []) as ->; [|by rewrite app_nil_r].
    destruct (state_nal p').
    + destruct HF as (bs & (_ & _ & Hl & _) & ->). rewrite app_nil_r, nal_events_unfold by lia.
      by rewrite (proj2 (Nat.ltb_lt _ _)).
    + destruct HF as (_ & _ & ->). by rewrite (proj2 (Z.ltb_lt _ _)) by auto.
Qed.

(** ** Witnesses *)
Definition mk_source (l : list Z) : source_hdr := SourceHdr l 0 0 0.
Definition empty_dest (n : Z) : dest_hdr := DestHdr [] 0 n 0 0.
Definition fresh (c : start_code) : frame_parse := set_code c new_frame_parse.

Lemma zero_run_overflows_destination_witness :
  init_start_codes CODEC_TYPE_MPEG4 new_frame_parse = (1, fresh SC_MPEG4) ∧
  ∃ r, parse_sc_frame (mk_source [0; 0]) (empty_dest 8) (fresh SC_MPEG4) = Done r ∧
       parse_sc_frame (mk_source [0; 0; 0; 0; 0; 0; 0; 1; 5; 7]) (empty_dest 8) (r_parser r) = Undefined.
Proof.
  split; [reflexivity|]. eexists. split; [reflexivity|].
  apply (zero_run_overflows_destination SC_MPEG4 _ _ 7 [7]);
    [reflexivity|reflexivity|reflexivity|split; simpl; lia|reflexivity|lia|reflexivity].
Defined.

Lemma parse_call_ends_witness :
  ∃ r, parse_sc_frame (mk_source [9; 0; 0; 0; 1; 5]) (empty_dest 64) (fresh SC_H264) = Done r ∧
       d_bytes (r_dest r) = [9] ∧ s_bytes (r_source r) = [5].
Proof.
  destruct (parse_call_ends SC_H264 (mk_source [9; 0; 0; 0; 1; 5]) (empty_dest 64) (fresh SC_H264))
    as [[_ Hf]|(r & Hr & _)];
    [reflexivity|repeat constructor; simpl; lia|done|reflexivity|split; simpl; lia|done|reflexivity
    |discriminate Hf|].
  exists r. split; [exact Hr|]. injection Hr as <-. split; reflexivity.
Defined.

(** A start code that is cut, behind a byte: two buffers, four calls. *)
Definition cut_code : list client_op :=
  [Give (mk_source [9; 0]); Take (empty_dest 16); Give (mk_source [0; 0; 1; 5; 0])].


Definition nal2 : frame_parse := (init_nal_length 2 new_frame_parse).2.
Definition nal_state_of (s : state_nal_parse) (acc todo : Z) : frame_parse := set_nal s 2 acc todo nal2.

Lemma nal_feeds_example : nal_feeds (nal2, []) (concat (encode_unit 2 <$> [[7; 8]; []]))
  [Data 0; Data 0; Data 0; Data 1; Data 7; Data 8; FrameEnd; Data 0; Data 0; Data 0; Data 1; FrameEnd]
  (nal_state_of NAL_LENGTH_ACC 0 0, []).
Proof.
  change [Data 0; Data 0; Data 0; Data 1; Data 7; Data 8; FrameEnd;
          Data 0; Data 0; Data 0; Data 1; FrameEnd]
    with (call_events [0; 0; 0; 1; 7] (Some 1) ++ call_events [8] (Some 0) ++
          call_events [0; 0; 0; 1] (Some 0) ++ []).
  apply (nal_feeds_data _ [] [0; 2; 7] [8; 0; 0]); [repeat constructor; simpl; lia|].
  apply (nal_feeds_call _ (mk_source [0; 2; 7]) (empty_dest 16)
    (ParseResult 1 (Some 1) (SourceHdr [] 3 0 0) (DestHdr [0; 0; 0; 1; 7] 0 16 0 0)
       (nal_state_of NAL_PARSING 0 1)) [0; 0; 0; 1; 7]);
    [done|split; simpl; lia|done|vm_compute; reflexivity|reflexivity|].
  apply (nal_feeds_data _ [] [8; 0; 0] []); [repeat constructor; simpl; lia|].
  apply (nal_feeds_call _ (mk_source [8; 0; 0]) (empty_dest 16)
    (ParseResult 1 (Some 0) (SourceHdr [0; 0] 1 0 0) (DestHdr [8] 0 16 0 0)
       (nal_state_of NAL_LENGTH_ACC 0 0)) [8]);
    [done|split; simpl; lia|done|vm_compute; reflexivity|reflexivity|].
  apply (nal_feeds_call _ (mk_source [0; 0]) (empty_dest 16)
    (ParseResult 1 (Some 0) (SourceHdr [] 2 0 0) (DestHdr [0; 0; 0; 1] 0 16 0 0)
       (nal_state_of NAL_LENGTH_ACC 0 0)) [0; 0; 0; 1]);
    [done|split; simpl; lia|done|vm_compute; reflexivity|reflexivity|].
  apply nal_feeds_stop.
Qed.

Lemma nal_units_converted_witness :
  concat (unit_events <$> [[7; 8]; []]) =
  [Data 0; Data 0; Data 0; Data 1; Data 7; Data 8; FrameEnd; Data 0; Data 0; Data 0; Data 1; FrameEnd].
Proof.
  symmetry.
  apply (nal_units_converted 2 nal2 [[7; 8]; []] _ (nal_state_of NAL_LENGTH_ACC 0 0));
    [lia|reflexivity|reflexivity|reflexivity|reflexivity|repeat constructor; simpl; lia|exact nal_feeds_example].
Defined.
