(* ===== verification/H264Bits.v ===== *)
(** * H.264 bit streams

    Models the bit reader of [h264_stream_parser] in
    [vidc/vdec/src/h264_utils.cpp]: [read_word], [extract_bits], [more_bits],
    [uev], [sev] and [iv], on unsigned numbers of 32 bits.  A shift by the
    width of the type is undefined behaviour ([None]); it happens when 32 bits
    are read while none is buffered, and when bits are read behind the end.
    The theorems relate the reader to the list of the bits of the stream
    without its emulation prevention bytes, and its Exp-Golomb codes to their
    encoders. *)
From S2P Require Import Prelude.
Local Open Scope Z_scope.

(** ** Steps that may be undefined *)
Definition parse (S A : Type) : Type := S → option (A * S).
#[export] Instance parse_ret S : MRet (parse S) := λ A a s, Some (a, s).
#[export] Instance parse_bind S : MBind (parse S) := λ A B f p s, '(a, s') ← p s; f a s'.

Definition undefined {S A} : parse S A := λ _, None.
Definition get_state {S A} (f : S → A) : parse S A := λ s, Some (f s, s).
Definition put_state {S} (f : S → S) : parse S () := λ s, Some ((), f s).
Definition check {S A} (o : option A) : parse S A := λ s, a ← o; Some (a, s).
Definition unless_zero {S} (z : Z) (p : parse S ()) : parse S () := if z =? 0 then mret () else p.

(** ** The reader *)
Record bit_reader := Reader {
  curr_32_bit : Z;
  bits_read : Z;
  zero_cntr : Z;
  emulation_code_skip_cntr : Z;
  emulation_sc_enabled : bool;
  bitstream : list Z
}.

Definition bitstream_bytes (r : bit_reader) : Z := Z.of_nat (length (bitstream r)).

Definition shl32 (x n : Z) : option Z :=
  if (0 <=? n) && (n <? 32) then Some (wrap_unsigned 32 (Z.shiftl x n)) else None.
Definition shr32 (x n : Z) : option Z :=
  if (0 <=? n) && (n <? 32) then Some (Z.shiftr x n) else None.

Definition EMULATION_PREVENTION_THREE_BYTE : Z := 3.

Fixpoint read_bytes (en : bool) (l : list Z) (curr bits zeros skips : Z) : bit_reader :=
  match l with
  | [] => Reader curr bits zeros skips en []
  | b :: l' =>
      if bits <? 32 then
        let zeros' := if b =? 0 then zeros + 1 else 0 in
        if (b =? EMULATION_PREVENTION_THREE_BYTE) && (2 <=? zeros) && en
        then read_bytes en l' curr bits zeros' (skips + 1)
        else read_bytes en l' (Z.lor (wrap_unsigned 32 (Z.shiftl curr 8)) b) (bits + 8) zeros' skips
      else Reader curr bits zeros skips en l
  end.

Definition with_word (curr bits : Z) (r : bit_reader) : bit_reader :=
  Reader curr bits (zero_cntr r) (emulation_code_skip_cntr r) (emulation_sc_enabled r) (bitstream r).

Definition read_word (r : bit_reader) : option bit_reader :=
  let r := read_bytes (emulation_sc_enabled r) (bitstream r) 0 0 (zero_cntr r) (emulation_code_skip_cntr r) in
  curr ← shl32 (curr_32_bit r) (32 - bits_read r);
  Some (with_word curr (bits_read r) r).

(** The end of [extract_bits]: [n] bits leave the word. *)
Definition take_bits (value n : Z) (r : bit_reader) : option (Z * bit_reader) :=
  curr ← shl32 (curr_32_bit r) n;
  Some (value, with_word curr (bits_read r - n) r).

Definition extract_bits (n : Z) : parse bit_reader Z := λ r,
  if 32 <? n then Some (0, r)
  else
    value ← shr32 (curr_32_bit r) (32 - n);
    if bits_read r <? n then
      let n := n - bits_read r in
      r ← read_word r;
      more ← shr32 (curr_32_bit r) (32 - n);
      let value := Z.lor value more in
      if bits_read r <? n then
        value ← shr32 value (n - bits_read r);
        take_bits value (bits_read r) r
      else take_bits value n r
    else take_bits value n r.

Definition more_bits (r : bit_reader) : bool := (0 <? bitstream_bytes r) || (0 <? bits_read r).

(** The bits that may be left; one turn of the loop of [uev] takes one. *)
Definition bits_left (r : bit_reader) : nat := Z.to_nat (bits_read r) + 8 * length (bitstream r).

Fixpoint count_zeros (fuel : nat) (n : Z) : parse bit_reader Z := λ r,
  match fuel with
  | O => None
  | S fuel =>
      '(b, r) ← extract_bits 1 r;
      if (b =? 0) && more_bits r then count_zeros fuel (n + 1) r else Some (n, r)
  end.

(** [(1 << n) - 1] on [int]. *)
Definition ones (n : Z) : option Z := if n <? 31 then Some (2 ^ n - 1) else None.

Definition uev : parse bit_reader Z := λ r,
  '(lead_zero_bits, r) ← count_zeros (S (bits_left r)) 0 r;
  if lead_zero_bits =? 0 then Some (0, r)
  else
    high ← ones lead_zero_bits;
    '(low, r) ← extract_bits lead_zero_bits r;
    Some (wrap_unsigned 32 (high + low), r).

Definition sev : parse bit_reader Z := λ r,
  '(code_num, r) ← uev r;
  let ret := wrap_signed 32 (Z.shiftr (wrap_unsigned 32 (code_num + 1)) 1) in
  Some (if Z.odd code_num then ret else - ret, r).

Definition iv (n_bits : Z) : parse bit_reader Z := λ r,
  '(code_num, r) ← extract_bits n_bits r;
  sign ← shl32 1 (n_bits - 1);
  top ← shr32 code_num (n_bits - 1);
  let masked := Z.land code_num (wrap_unsigned 32 (Z.lnot sign)) in
  let negated := wrap_unsigned 32 (wrap_unsigned 32 (Z.lnot masked) + 1) in
  Some (wrap_signed 32 (if top =? 0 then code_num else wrap_unsigned 32 (wrap_unsigned 32 (-1) * negated)), r).

Definition new_reader (en : bool) (data : list Z) : bit_reader := Reader 0 0 0 0 en data.

(** ** Bits and bytes *)
Definition value_of (bs : list bool) : Z := foldl (λ v (b : bool), 2 * v + (if b then 1 else 0)) 0 bs.

(** The [w] low bits of a number, the highest first. *)
Fixpoint bits_of (w : nat) (v : Z) : list bool :=
  match w with O => [] | S w => Z.testbit v (Z.of_nat w) :: bits_of w v end.

Definition bits_of_bytes (l : list Z) : list bool := mjoin (bits_of 8 <$> l).

(** The stream without its emulation prevention bytes. *)
Fixpoint unescape (en : bool) (zeros : Z) (l : list Z) : list Z :=
  match l with
  | [] => []
  | b :: l =>
      let zeros' := if b =? 0 then zeros + 1 else 0 in
      if (b =? EMULATION_PREVENTION_THREE_BYTE) && (2 <=? zeros) && en
      then unescape en zeros' l else b :: unescape en zeros' l
  end.

(** What an encoder inserts: 3 before a byte of at most 3 that follows two zeros. *)
Fixpoint escape (zeros : Z) (l : list Z) : list Z :=
  match l with
  | [] => []
  | b :: l =>
      let zeros' := if b =? 0 then zeros + 1 else 0 in
      if (2 <=? zeros) && (b <=? 3)
      then EMULATION_PREVENTION_THREE_BYTE :: b :: escape (if b =? 0 then 1 else 0) l
      else b :: escape zeros' l
  end.

Definition ue_bits (v : Z) : list bool :=
  let k := Z.to_nat (Z.log2 (v + 1)) in repeat false k ++ bits_of (S k) (v + 1).
Definition se_bits (v : Z) : list bool := ue_bits (if 0 <? v then 2 * v - 1 else - 2 * v).

(** ** Lemmas *)
Lemma value_of_go bs v : foldl (λ v (b : bool), 2 * v + (if b then 1 else 0)) v bs = v * 2 ^ Z.of_nat (length bs) + value_of bs.
Proof.
  unfold value_of. revert v. induction bs as [|b bs IH]; intros v; [simpl; lia|].
  cbn [foldl length]. rewrite IH, (IH (2 * 0 + _)), Nat2Z.inj_succ, Z.pow_succ_r by lia. lia.
Qed.

Lemma value_of_app a b : value_of (a ++ b) = value_of a * 2 ^ Z.of_nat (length b) + value_of b.
Proof. unfold value_of at 1. rewrite foldl_app. apply value_of_go. Qed.

Lemma value_of_bound bs : 0 ≤ value_of bs < 2 ^ Z.of_nat (length bs).
Proof.
  induction bs as [|b bs IH] using rev_ind; [done|].
  rewrite value_of_app, length_app, Nat2Z.inj_add, Z.pow_add_r by lia. destruct b; cbn; lia.
Qed.

Lemma length_bits_of w v : length (bits_of w v) = w.
Proof. induction w; simpl; [done|]. by f_equal. Qed.

Lemma value_bits_of w v : value_of (bits_of w v) = v mod 2 ^ Z.of_nat w.
Proof.
  induction w as [|w IH]; [by rewrite Z.mod_1_r|].
  cbn [bits_of]. change (?b :: ?l) with ([b] ++ l). rewrite value_of_app, IH, length_bits_of.
  rewrite Nat2Z.inj_succ, Z.pow_succ_r, (Z.mul_comm 2) by lia.
  rewrite Z.rem_mul_r by (try apply Z.pow_nonzero; lia).
  rewrite <- Z.shiftr_div_pow2 by lia. 
  assert (value_of [Z.testbit v (Z.of_nat w)] = (Z.shiftr v (Z.of_nat w)) mod 2) as ->; [|lia].
  rewrite <- Z.bit0_mod, Z.shiftr_spec, Z.add_0_l by lia. by destruct (Z.testbit v (Z.of_nat w)).
Qed.

Lemma value_bits_small w v : 0 ≤ v < 2 ^ Z.of_nat w → value_of (bits_of w v) = v.
Proof. intros Hv. rewrite value_bits_of. by apply Z.mod_small. Qed.

Lemma lor_disjoint x b k : 0 ≤ k → 0 ≤ b < 2 ^ k → Z.lor (x * 2 ^ k) b = x * 2 ^ k + b.
Proof.
  intros Hk Hb. rewrite <- Z.lxor_lor by (by apply land_disjoint).
  symmetry. apply Z.add_nocarry_lxor. by apply land_disjoint.
Qed.

Lemma unescape_escape zeros l : 0 ≤ zeros → Forall is_byte l → unescape true zeros (escape zeros l) = l.
Proof.
  revert zeros. induction l as [|b l IH]; intros zeros Hz Hl; [done|].
  apply Forall_cons in Hl as [Hb Hl]. cbn [escape].
  destruct (Z.leb_spec 2 zeros); cbn [andb]; [destruct (Z.leb_spec b 3)|].
  - cbn [unescape]. rewrite (proj2 (Z.leb_le 2 zeros)) by done. change (3 =? 3) with true. cbn [andb Z.eqb EMULATION_PREVENTION_THREE_BYTE].
    rewrite (proj2 (Z.leb_gt 2 0)), andb_false_r by lia. cbn [andb]. rewrite IH; [done|destruct (b =? 0); lia|done].
  - cbn [unescape]. unfold EMULATION_PREVENTION_THREE_BYTE. rewrite (proj2 (Z.eqb_neq b 3)) by lia. cbn [andb]. rewrite IH; [done| |done].
    destruct (b =? 0); lia.
  - cbn [unescape]. rewrite (proj2 (Z.leb_gt 2 zeros)) by done. rewrite andb_false_r. cbn [andb].
    rewrite IH; [done| |done]. destruct (b =? 0); lia.
Qed.

(** ** The reader holds the bits of the stream

    [w]: the bits in the word; [total]: the length of the whole stream, of
    which a word is 32 bits but for the last. *)
Record holds (total : Z) (r : bit_reader) (bs : list bool) : Prop := {
  hd_word : ∃ w, bits_read r = Z.of_nat (length w) ∧
    curr_32_bit r = value_of w * 2 ^ (32 - Z.of_nat (length w)) ∧
    bs = w ++ bits_of_bytes (unescape (emulation_sc_enabled r) (zero_cntr r) (bitstream r)) ∧
    (w = bs ∨ (total - Z.of_nat (length bs) + Z.of_nat (length w)) mod 32 = 0);
  hd_small : bits_read r < 32;
  hd_bytes : Forall is_byte (bitstream r)
}.

Lemma new_reader_holds en data : Forall is_byte data →
  let bs := bits_of_bytes (unescape en 0 data) in holds (Z.of_nat (length bs)) (new_reader en data) bs.
Proof.
  intros Hd bs. split; [|done|done]. exists []. split_and!; [done..|]. right.
  cbn [length]. by rewrite Z.sub_diag, Z.add_0_l.
Qed.

Lemma shl32_some x n : 0 ≤ n < 32 → shl32 x n = Some (wrap_unsigned 32 (Z.shiftl x n)).
Proof. intros Hn. unfold shl32. by rewrite (proj2 (Z.leb_le _ _)), (proj2 (Z.ltb_lt _ _)) by lia. Qed.

Lemma shr32_some x n : 0 ≤ n < 32 → shr32 x n = Some (Z.shiftr x n).
Proof. intros Hn. unfold shr32. by rewrite (proj2 (Z.leb_le _ _)), (proj2 (Z.ltb_lt _ _)) by lia. Qed.

(** The high bits of a word, and what a shift leaves. *)
Lemma word_high a b k : Z.of_nat (length a + length b) ≤ k →
  Z.shiftr (value_of (a ++ b) * 2 ^ (k - Z.of_nat (length (a ++ b)))) (k - Z.of_nat (length a)) = value_of a.
Proof.
  intros Hk. rewrite Z.shiftr_div_pow2, value_of_app, length_app by lia.
  replace (k - Z.of_nat (length a)) with (Z.of_nat (length b) + (k - Z.of_nat (length a + length b))) by lia.
  rewrite Z.pow_add_r by lia. rewrite Z.mul_comm, (Z.mul_comm (2 ^ Z.of_nat (length b))), Z.div_mul_cancel_l
    by (apply Z.pow_nonzero; lia).
  rewrite Z.div_add_l by (apply Z.pow_nonzero; lia). rewrite Z.div_small by apply value_of_bound. lia.
Qed.

Lemma word_rest a b : Z.of_nat (length a + length b) ≤ 32 →
  wrap_unsigned 32 (Z.shiftl (value_of (a ++ b) * 2 ^ (32 - Z.of_nat (length (a ++ b)))) (Z.of_nat (length a))) =
    value_of b * 2 ^ (32 - Z.of_nat (length b)).
Proof.
  intros Hk. rewrite Z.shiftl_mul_pow2, value_of_app, length_app by lia. unfold wrap_unsigned.
  rewrite <- Z.mul_assoc, <- Z.pow_add_r by lia.
  replace (32 - Z.of_nat (length a + length b) + Z.of_nat (length a)) with (32 - Z.of_nat (length b)) by lia.
  rewrite Z.mul_add_distr_r, <- Z.mul_assoc, <- Z.pow_add_r by lia.
  replace (Z.of_nat (length b) + (32 - Z.of_nat (length b))) with 32 by lia.
  rewrite Z.add_comm, Z.mod_add by lia. apply Z.mod_small.
  pose proof (value_of_bound b) as Hb. assert (0 < 2 ^ (32 - Z.of_nat (length b))) by (apply Z.pow_pos_nonneg; lia).
  split; [nia|]. apply Z.lt_le_trans with (2 ^ Z.of_nat (length b) * 2 ^ (32 - Z.of_nat (length b))); [nia|].
  rewrite <- Z.pow_add_r by lia. apply Z.pow_le_mono_r; lia.
Qed.

Lemma bits_of_bytes_cons b l : bits_of_bytes (b :: l) = bits_of 8 b ++ bits_of_bytes l.
Proof. done. Qed.

(** What [read_bytes] has collected: the bits [w], and the rest of the stream. *)
Lemma read_bytes_spec en l : ∀ w zeros skips,
  (length w ≤ 32)%nat → (length w mod 8 = 0)%nat → Forall is_byte l →
  let r := read_bytes en l (value_of w) (Z.of_nat (length w)) zeros skips in
  ∃ w', w ++ bits_of_bytes (unescape en zeros l) =
      w' ++ bits_of_bytes (unescape (emulation_sc_enabled r) (zero_cntr r) (bitstream r)) ∧
    curr_32_bit r = value_of w' ∧ bits_read r = Z.of_nat (length w') ∧ (length w' ≤ 32)%nat ∧
    (length w' = 32%nat ∨ bitstream r = []) ∧ Forall is_byte (bitstream r) ∧ emulation_sc_enabled r = en.
Proof.
  induction l as [|b l IH]; intros w zeros skips Hw Hm Hl; cbn zeta.
  { exists w. split_and!; try done. by right. }
  apply Forall_cons in Hl as [Hb Hl]. cbn [read_bytes unescape].
  destruct (Z.ltb_spec (Z.of_nat (length w)) 32) as [Hlt|].
  2:{ exists w. cbn. split_and!; try done; [left; lia|by constructor]. }
  destruct ((b =? EMULATION_PREVENTION_THREE_BYTE) && (2 <=? zeros) && en).
  { by apply IH. }
  assert (length (w ++ bits_of 8 b) = (length w + 8)%nat) as Hlen by (by rewrite length_app, length_bits_of).
  assert (Z.lor (wrap_unsigned 32 (Z.shiftl (value_of w) 8)) b = value_of (w ++ bits_of 8 b)) as ->.
  { rewrite value_of_app, value_bits_small, length_bits_of by (unfold is_byte in Hb; simpl; lia).
    assert (length w + 8 ≤ 32)%nat as H8.
    { apply Nat.Div0.mod_divides in Hm as [k Hk]. lia. }
    rewrite wrap_unsigned_small; [rewrite Z.shiftl_mul_pow2 by lia; by apply lor_disjoint|].
    rewrite Z.shiftl_mul_pow2 by lia. pose proof (value_of_bound w) as Hv.
    assert (2 ^ Z.of_nat (length w) ≤ 2 ^ 24) by (apply Z.pow_le_mono_r; lia). lia. }
  replace (Z.of_nat (length w) + 8) with (Z.of_nat (length (w ++ bits_of 8 b))) by lia.
  destruct (IH (w ++ bits_of 8 b) (if b =? 0 then zeros + 1 else 0) skips) as (w' & E & Hrest).
  - apply Nat.Div0.mod_divides in Hm as [k Hk]. lia.
  - rewrite Hlen. rewrite <- (Nat.mul_1_l 8) at 1. rewrite Nat.Div0.mod_add. done.
  - done.
  - exists w'. split; [|done]. rewrite <- E, bits_of_bytes_cons. by rewrite app_assoc.
Qed.

Lemma take_bits_word v a b r :
  bits_read r = Z.of_nat (length (a ++ b)) → (length (a ++ b) ≤ 32)%nat → (length a < 32)%nat →
  curr_32_bit r = value_of (a ++ b) * 2 ^ (32 - Z.of_nat (length (a ++ b))) →
  take_bits v (Z.of_nat (length a)) r =
    Some (v, with_word (value_of b * 2 ^ (32 - Z.of_nat (length b))) (Z.of_nat (length b)) r).
Proof.
  intros Hb Hl Ha Hc. unfold take_bits. rewrite shl32_some by lia. cbn [mbind option_bind].
  rewrite Hc, word_rest, Hb by (rewrite length_app in Hl; lia). do 3 f_equal. rewrite length_app. lia.
Qed.

(** [n] bits of the stream, unless 32 are asked for at a word boundary. *)
Lemma extract_bits_spec total r a rest n :
  holds total r (a ++ rest) → Z.of_nat (length a) = n → 1 ≤ n ≤ 32 →
  (n = 32 → (total - Z.of_nat (length (a ++ rest))) mod 32 ≠ 0) →
  ∃ r', extract_bits n r = Some (value_of a, r') ∧ holds total r' rest.
Proof.
  intros [(w & Hbr & Hcur & Hbs & Hpos) Hsmall Hbytes] Hn Hrange Hal.
  unfold extract_bits. rewrite (proj2 (Z.ltb_ge 32 n)), shr32_some by lia. cbn [mbind option_bind].
  destruct (Z.ltb_spec (bits_read r) n) as [Hlt|Hge].
  - (* the word is used up *)
    assert (∃ a', a = w ++ a' ∧ (0 < length a')%nat) as (a' & -> & Ha').
    { exists (drop (length w) a). rewrite length_drop. split; [|lia].
      assert (take (length w) (a ++ rest) = w) as Ht by (rewrite Hbs; apply take_app_length).
      rewrite take_app_le in Ht by lia. by rewrite <- Ht at 1; rewrite take_drop. }
    rewrite <- app_assoc in Hbs. apply app_inv_head in Hbs. rewrite length_app in Hn.
    destruct Hpos as [Hpos|Hpos].
    { exfalso. apply (f_equal length) in Hpos. rewrite !length_app in Hpos. lia. }
    set (n' := n - bits_read r). assert (n' = Z.of_nat (length a')) as En by lia.
    assert (n' < 32) as Hn'.
    { destruct (Z.eq_dec n 32) as [->|]; [|lia]. destruct (Z.eq_dec (bits_read r) 0) as [E0|]; [|lia].
      exfalso. apply Hal; [done|]. rewrite Hbr in E0. assert (length w = 0%nat) as Hw by lia.
      rewrite Hw, Z.add_0_r in Hpos. done. }
    destruct (read_bytes_spec (emulation_sc_enabled r) (bitstream r) [] (zero_cntr r) (emulation_code_skip_cntr r))
      as (w2 & E2 & Hc2 & Hb2 & Hl2 & Hend & Hby2 & Hen2); [simpl; lia|done|done|].
    change (value_of []) with 0 in *. change (Z.of_nat (length [])) with 0 in *. rewrite app_nil_l in E2.
    unfold read_word. set (r2 := read_bytes _ _ _ _ _ _) in *.
    assert (∃ b, w2 = a' ++ b) as (b & ->).
    { rewrite E2 in Hbs. destruct Hend as [Hfull|Hnil].
      - exists (drop (length a') w2). assert (take (length a') (a' ++ rest) = a') as Ht by apply take_app_length.
        rewrite Hbs, take_app_le in Ht by lia. by rewrite <- Ht at 1; rewrite take_drop.
      - rewrite Hnil in Hbs. cbn in Hbs. rewrite app_nil_r in Hbs. by exists rest. }
    rewrite length_app in Hl2. rewrite Hb2, shl32_some by (rewrite length_app; lia). cbn [mbind option_bind].
    assert (wrap_unsigned 32 (Z.shiftl (curr_32_bit r2) (32 - Z.of_nat (length (a' ++ b)))) =
      value_of (a' ++ b) * 2 ^ (32 - Z.of_nat (length (a' ++ b)))) as Hcurr.
    { rewrite Hc2. pose proof (word_rest [] (a' ++ b)) as Hwr. cbn [app length] in Hwr.
      rewrite Z.shiftl_mul_pow2 by (rewrite length_app; lia). apply wrap_unsigned_small.
      pose proof (value_of_bound (a' ++ b)) as Hv. rewrite length_app in *.
      assert (0 < 2 ^ (32 - Z.of_nat (length a' + length b))) by (apply Z.pow_pos_nonneg; lia).
      split; [nia|]. apply Z.lt_le_trans with (2 ^ Z.of_nat (length a' + length b) * 2 ^ (32 - Z.of_nat (length a' + length b))); [nia|].
      rewrite <- Z.pow_add_r by lia. apply Z.pow_le_mono_r; lia. }
    rewrite Hcurr. cbn [curr_32_bit bits_read with_word]. rewrite shr32_some by lia. cbn [mbind option_bind].
    rewrite (proj2 (Z.ltb_ge _ _)) by (rewrite length_app; lia).
    rewrite En. rewrite word_high by lia.
    rewrite (take_bits_word _ a' b) by (cbn [bits_read with_word curr_32_bit]; rewrite ?length_app; try lia; done).
    eexists. split.
    + f_equal. f_equal. rewrite value_of_app.
      rewrite Hcur. rewrite Z.shiftr_div_pow2 by lia.
      replace (32 - Z.of_nat (length w)) with (Z.of_nat (length a') + (32 - n)) by lia.
      rewrite Z.pow_add_r, Z.mul_assoc, Z.div_mul by (try apply Z.pow_nonzero; lia).
      apply lor_disjoint; [lia|apply value_of_bound].
    + rewrite E2, <- app_assoc in Hbs. apply app_inv_head in Hbs. split; cbn; [|lia|done].
      exists b. split_and!; [done|done|done|].
      rewrite !length_app in Hpos. rewrite length_app in Hend.
      destruct Hend as [Hfull|Hnil]; [right|left; rewrite Hbs, Hnil; cbn; by rewrite app_nil_r].
      replace (total - Z.of_nat (length rest) + Z.of_nat (length b))
        with ((total - Z.of_nat (length w + length a' + length rest) + Z.of_nat (length w)) + 1 * 32) by lia.
      rewrite Z.mod_add by done. done.
  - (* the word has enough *)
    assert (∃ b, w = a ++ b) as (b & ->).
    { exists (drop (length a) w). assert (take (length a) (a ++ rest) = a) as Ht by apply take_app_length.
      rewrite Hbs, take_app_le in Ht by lia. by rewrite <- Ht at 1; rewrite take_drop. }
    rewrite <- app_assoc in Hbs. apply app_inv_head in Hbs. rewrite length_app in Hbr.
    rewrite <- Hn, Hcur, word_high by lia.
    rewrite (take_bits_word _ a b) by (first [exact Hcur|rewrite ?length_app; lia]).
    eexists. split; [done|]. split; cbn; [|lia|done].
    exists b. split_and!; [done|done|done|]. rewrite !length_app in Hpos.
    destruct Hpos as [Hpos|Hpos]; [left|right].
    + by apply app_inv_head in Hpos.
    + rewrite <- Hpos. f_equal. lia.
Qed.

Lemma extract_some total r a rest n : (* common form *)
  holds total r (a ++ rest) → Z.of_nat (length a) = n → 1 ≤ n < 32 →
  ∃ r', extract_bits n r = Some (value_of a, r') ∧ holds total r' rest.
Proof. intros Hh Hn Hr. apply extract_bits_spec; [done|done|lia|lia]. Qed.

(** ** The end of the stream *)
Lemma length_bits_of_bytes l : length (bits_of_bytes l) = (8 * length l)%nat.
Proof. induction l as [|b l IH]; [done|]. rewrite bits_of_bytes_cons, length_app, IH, length_bits_of. simpl. lia. Qed.

Lemma length_unescape en z l : (length (unescape en z l) ≤ length l)%nat.
Proof.
  revert z. induction l as [|b l IH]; intros z; [done|]. cbn [unescape length].
  destruct (_ && _ && _); cbn [length]; [specialize (IH (if b =? 0 then z + 1 else 0)); lia|].
  specialize (IH (if b =? 0 then z + 1 else 0)). lia.
Qed.

Lemma holds_left total r bs : holds total r bs → (length bs ≤ bits_left r)%nat.
Proof.
  intros [(w & Hb & _ & -> & _) _ _]. unfold bits_left. rewrite length_app, length_bits_of_bytes, Hb.
  pose proof (length_unescape (emulation_sc_enabled r) (zero_cntr r) (bitstream r)). lia.
Qed.

Lemma holds_more total r b bs : holds total r (b :: bs) → more_bits r = true.
Proof.
  intros [(w & Hb & _ & E & _) _ _]. unfold more_bits, bitstream_bytes. destruct (bitstream r) eqn:Es; [|done].
  simpl in E. rewrite app_nil_r in E. subst w. rewrite Hb. simpl. done.
Qed.

(** Reading behind the end shifts by the width of the word. *)
Lemma extract_bits_behind r n : bitstream r = [] → bits_read r < n → 1 ≤ n ≤ 32 → extract_bits n r = None.
Proof.
  intros Hs Hb Hn. unfold extract_bits. rewrite (proj2 (Z.ltb_ge 32 n)), shr32_some by lia. cbn [mbind option_bind].
  rewrite (proj2 (Z.ltb_lt _ _)) by done. unfold read_word. rewrite Hs. done.
Qed.

(** 32 bits at a word boundary are read, and then shifted out by 32. *)
Lemma extract_32_aligned total r bs : holds total r bs → bits_read r = 0 → (32 ≤ length bs)%nat →
  extract_bits 32 r = None.
Proof.
  intros [(w & Hw & _ & -> & _) _ Hby] Hb Hlen. assert (w = []) as -> by (apply nil_length_inv; lia).
  unfold extract_bits. change (32 <? 32) with false. rewrite shr32_some, Hb by lia. cbn [mbind option_bind].
  change (0 <? 32) with true. cbn iota. unfold read_word.
  destruct (read_bytes_spec (emulation_sc_enabled r) (bitstream r) [] (zero_cntr r) (emulation_code_skip_cntr r))
    as (w2 & E2 & Hc2 & Hb2 & Hl2 & Hend & _); [simpl; lia|done|done|].
  change (value_of []) with 0 in *. change (Z.of_nat (length [])) with 0 in *. rewrite app_nil_l in E2, Hlen.
  set (r2 := read_bytes _ _ _ _ _ _) in *. assert (length w2 = 32%nat) as H32.
  { destruct Hend as [|Hnil]; [done|]. rewrite E2, Hnil in Hlen. simpl in Hlen. rewrite app_nil_r in Hlen. lia. }
  rewrite Hb2, H32, shl32_some by lia. cbn [mbind option_bind]. rewrite shr32_some by lia. done.
Qed.

(** ** Exp-Golomb codes *)
Lemma count_zeros_spec total k rest : ∀ fuel n r,
  holds total r (repeat false k ++ true :: rest) → (k < fuel)%nat →
  ∃ r', count_zeros fuel n r = Some (n + Z.of_nat k, r') ∧ holds total r' rest.
Proof.
  induction k as [|k IH]; intros fuel n r Hh Hf; (destruct fuel as [|fuel]; [lia|]); cbn [count_zeros].
  - destruct (extract_some total r [true] rest 1 Hh) as (r' & -> & Hh'); [done|lia|].
    exists r'. cbn [mbind option_bind value_of foldl]. by rewrite Z.add_0_r.
  - destruct (extract_some total r [false] (repeat false k ++ true :: rest) 1 Hh) as (r' & -> & Hh'); [done|lia|].
    change (value_of [false]) with 0. cbn [mbind option_bind Z.eqb].
    assert (more_bits r' = true) as -> by (destruct k; simpl in Hh'; by eapply holds_more). cbn [andb].
    destruct (IH fuel (n + 1) r' Hh' ltac:(lia)) as (r'' & -> & Hh''). exists r''. split; [|done].
    f_equal. f_equal. lia.
Qed.

Lemma uev_spec total r k low rest : (k ≤ 30)%nat → length low = k →
  holds total r (repeat false k ++ true :: low ++ rest) →
  ∃ r', uev r = Some (2 ^ Z.of_nat k - 1 + value_of low, r') ∧ holds total r' rest.
Proof.
  intros Hk Hl Hh. unfold uev. pose proof (holds_left _ _ _ Hh) as Hleft.
  rewrite length_app, repeat_length in Hleft.
  destruct (count_zeros_spec total k (low ++ rest) (S (bits_left r)) 0 r Hh) as (r' & -> & Hh'); [lia|].
  cbn [mbind option_bind]. rewrite Z.add_0_l. destruct (Z.eqb_spec (Z.of_nat k) 0) as [E|E].
  - assert (k = 0%nat) as -> by lia. apply nil_length_inv in Hl. subst low. by exists r'.
  - unfold ones. rewrite (proj2 (Z.ltb_lt _ _)) by lia. cbn [mbind option_bind].
    destruct (extract_some total r' low rest (Z.of_nat k) Hh') as (r'' & -> & Hh''); [by rewrite Hl|lia|].
    cbn [mbind option_bind]. exists r''. split; [|done]. f_equal. f_equal.
    pose proof (value_of_bound low) as Hv. rewrite Hl in Hv.
    assert (2 ^ Z.of_nat k ≤ 2 ^ 30) by (apply Z.pow_le_mono_r; lia). apply wrap_unsigned_small. lia.
Qed.

Lemma ue_bits_shape v : 0 ≤ v < 2 ^ 31 - 1 →
  ∃ k low, ue_bits v = repeat false k ++ true :: low ∧ length low = k ∧ (k ≤ 30)%nat ∧
    v = 2 ^ Z.of_nat k - 1 + value_of low.
Proof.
  intros Hv. set (k := Z.to_nat (Z.log2 (v + 1))). pose proof (Z.log2_spec (v + 1) ltac:(lia)) as [H1 H2].
  pose proof (Z.log2_nonneg (v + 1)). assert (Z.of_nat k = Z.log2 (v + 1)) as Ek by lia.
  rewrite <- Ek in *. rewrite Z.pow_succ_r in H2 by lia.
  exists k, (bits_of k (v + 1)). unfold ue_bits. fold k. cbn [bits_of].
  assert (Z.testbit (v + 1) (Z.of_nat k) = true) as ->.
  { rewrite Ek. apply Z.bit_log2. lia. }
  split_and!; [done|apply length_bits_of| |].
  - assert (Z.log2 (v + 1) < 31) by (apply Z.log2_lt_pow2; lia). lia.
  - rewrite value_bits_of. replace (v + 1) with ((v + 1 - 2 ^ Z.of_nat k) + 1 * 2 ^ Z.of_nat k) at 1 by lia.
    rewrite Z.mod_add by (apply Z.pow_nonzero; lia). rewrite Z.mod_small; lia.
Qed.

Lemma uev_code total r v rest : 0 ≤ v < 2 ^ 31 - 1 → holds total r (ue_bits v ++ rest) →
  ∃ r', uev r = Some (v, r') ∧ holds total r' rest.
Proof.
  intros Hv Hh. destruct (ue_bits_shape v Hv) as (k & low & E & Hl & Hk & Ev).
  rewrite E, <- app_assoc in Hh. cbn [app] in Hh. rewrite Ev. by eapply uev_spec.
Qed.

Lemma sev_code total r v rest : - 2 ^ 30 < v < 2 ^ 30 → holds total r (se_bits v ++ rest) →
  ∃ r', sev r = Some (v, r') ∧ holds total r' rest.
Proof.
  intros Hv Hh. unfold se_bits in Hh. unfold sev.
  destruct (uev_code total r (if 0 <? v then 2 * v - 1 else - 2 * v) rest) as (r' & -> & Hh').
  { destruct (Z.ltb_spec 0 v); lia. } { done. }
  exists r'. split; [|done]. cbn [mbind option_bind]. f_equal. f_equal. destruct (Z.ltb_spec 0 v).
  - replace (2 * v - 1 + 1) with (2 * v) by lia. rewrite wrap_unsigned_small, Z.shiftr_div_pow2 by lia.
    rewrite Z.mul_comm, Z.div_mul by lia. rewrite wrap_signed_small by lia.
    by rewrite Z.odd_sub, Z.odd_mul, andb_false_r.
  - rewrite wrap_unsigned_small, Z.shiftr_div_pow2 by lia.
    replace (-2 * v + 1) with (1 + (- v) * 2) by lia. rewrite Z.div_add by lia. change (1 / 2 ^ 1) with 0.
    rewrite wrap_signed_small by lia. rewrite Z.odd_mul. cbn. lia.
Qed.

(** Too many leading zeros shift 1 out of [int]. *)
Lemma uev_overflow total r k rest : (31 ≤ k)%nat → holds total r (repeat false k ++ true :: rest) → uev r = None.
Proof.
  intros Hk Hh. unfold uev. pose proof (holds_left _ _ _ Hh) as Hleft. rewrite length_app, repeat_length in Hleft.
  destruct (count_zeros_spec total k rest (S (bits_left r)) 0 r Hh) as (r' & -> & _); [lia|].
  cbn [mbind option_bind]. rewrite (proj2 (Z.eqb_neq _ _)) by lia.
  unfold ones. by rewrite (proj2 (Z.ltb_ge _ _)) by lia.
Qed.

Lemma ue_bits_long v : 2 ^ 31 - 1 ≤ v → ∃ k low, (31 ≤ k)%nat ∧ ue_bits v = repeat false k ++ true :: low.
Proof.
  intros Hv. exists (Z.to_nat (Z.log2 (v + 1))), (bits_of (Z.to_nat (Z.log2 (v + 1))) (v + 1)). split.
  - assert (31 ≤ Z.log2 (v + 1)) by (apply Z.log2_le_pow2; lia). lia.
  - unfold ue_bits. cbn [bits_of]. rewrite Z2Nat.id by apply Z.log2_nonneg. by rewrite Z.bit_log2 by lia.
Qed.

Lemma uev_long total r v rest : 2 ^ 31 - 1 ≤ v → holds total r (ue_bits v ++ rest) → uev r = None.
Proof.
  intros Hv. destruct (ue_bits_long v Hv) as (k & low & Hk & ->). rewrite <- app_assoc. cbn [app].
  by apply uev_overflow.
Qed.

(** ** Every read takes a bit *)
Lemma read_bytes_left en l : ∀ curr bits zeros skips, 0 ≤ bits →
  let r := read_bytes en l curr bits zeros skips in
  0 ≤ bits_read r ∧ bits_read r + 8 * Z.of_nat (length (bitstream r)) ≤ bits + 8 * Z.of_nat (length l).
Proof.
  induction l as [|b l IH]; intros curr bits zeros skips Hb; cbn [read_bytes]; [cbn; lia|].
  destruct (bits <? 32); [|cbn; lia]. cbn [length].
  destruct (_ && _ && _).
  - specialize (IH curr bits (if b =? 0 then zeros + 1 else 0) (skips + 1) Hb). cbv zeta in *. lia.
  - specialize (IH (Z.lor (wrap_unsigned 32 (Z.shiftl curr 8)) b) (bits + 8) (if b =? 0 then zeros + 1 else 0) skips
      ltac:(lia)). cbv zeta in *. lia.
Qed.

Lemma take_bits_some v n r x : take_bits v n r = Some x →
  x.1 = v ∧ bits_read x.2 = bits_read r - n ∧ bitstream x.2 = bitstream r.
Proof. unfold take_bits. intros H. apply bind_Some in H as (c & _ & H). by injection H as <-. Qed.

Lemma read_word_left r r' : read_word r = Some r' →
  0 < bits_read r' ∧ bits_read r' + 8 * Z.of_nat (length (bitstream r')) ≤ 8 * Z.of_nat (length (bitstream r)).
Proof.
  unfold read_word. pose proof (read_bytes_left (emulation_sc_enabled r) (bitstream r) 0 0 (zero_cntr r)
    (emulation_code_skip_cntr r) ltac:(lia)) as H. cbv zeta in H. set (r2 := read_bytes _ _ _ _ _ _) in *.
  intros E. apply bind_Some in E as (c & Hc & E). injection E as <-. cbn. split; [|lia].
  unfold shl32 in Hc. destruct (Z.leb_spec 0 (32 - bits_read r2)), (Z.ltb_spec (32 - bits_read r2) 32); try done. lia.
Qed.

Lemma extract_bits_left n r v r' : extract_bits n r = Some (v, r') → 0 ≤ bits_read r → 1 ≤ n ≤ 32 →
  0 ≤ bits_read r' ∧ (bits_left r' < bits_left r)%nat.
Proof.
  intros E Hb Hn. unfold extract_bits in E. rewrite (proj2 (Z.ltb_ge 32 n)) in E by lia.
  apply bind_Some in E as (v1 & _ & E). unfold bits_left. destruct (Z.ltb_spec (bits_read r) n) as [Hlt|Hge].
  - apply bind_Some in E as (r2 & Hr2 & E). apply read_word_left in Hr2 as [Hp Hl].
    apply bind_Some in E as (m & _ & E). destruct (Z.ltb_spec (bits_read r2) (n - bits_read r)).
    + apply bind_Some in E as (v2 & _ & E). apply take_bits_some in E as (_ & E1 & E2). cbn [fst snd] in *.
      rewrite E1, E2. lia.
    + apply take_bits_some in E as (_ & E1 & E2). cbn [fst snd] in *. rewrite E1, E2. lia.
  - apply take_bits_some in E as (_ & E1 & E2). cbn [fst snd] in *. rewrite E1, E2. lia.
Qed.

Lemma count_zeros_fuel m : ∀ fuel n r, 0 ≤ bits_read r → (bits_left r < fuel)%nat →
  count_zeros (fuel + m) n r = count_zeros fuel n r.
Proof.
  induction fuel as [|fuel IH]; intros n r Hb Hf; [lia|]. cbn [Nat.add count_zeros].
  destruct (extract_bits 1 r) as [[b r']|] eqn:E; [|done]. cbn [mbind option_bind].
  apply extract_bits_left in E as [Hb' Hl]; [|done|lia].
  destruct (_ && _); [|done]. apply IH; [done|lia].
Qed.

Lemma escape_bytes z l : Forall is_byte l → Forall is_byte (escape z l).
Proof.
  revert z. induction l as [|b l IH]; intros z Hl; [done|]. apply Forall_cons in Hl as [Hb Hl]. cbn [escape].
  destruct (_ && _); [constructor; [by unfold is_byte|]|]; (constructor; [done|]); by apply IH.
Qed.
