(* ===== verification/H264Parser.v ===== *)
(** * H.264 parameter sets and SEI messages

    Models [h264_stream_parser] and [panscan_handler] of
    [vidc/vdec/src/h264_utils.cpp] on top of the bit reader of [H264Bits]:
    the sequence parameter set with its VUI, the SEI messages for buffering
    period, picture timing, pan-scan rectangles and frame packing, and the
    time stamps computed from them.  The members that only the dumps read are
    left out.  The nodes of the pan-scan lists are the lists from head to
    tail; the pointer that [get_free] returns is that to the last node in use.
    [PANSCAN_HDLR] is defined in the header. *)
From S2P Require Import Prelude Doubles H264Bits.
Local Open Scope Z_scope.

Definition MAX_CPB_COUNT : Z := 32.
Definition NO_PAN_SCAN_BIT : Z := 256.
Definition MAX_PAN_SCAN_RECT : Z := 3.
Definition LLONG_MAX : Z := 2 ^ 63 - 1.
Definition VALID_TS (ts : Z) : bool := ts <? LLONG_MAX.

Definition NALU_TYPE_UNSPECIFIED : Z := 0.
Definition NALU_TYPE_SEI : Z := 6.
Definition NALU_TYPE_SPS : Z := 7.
Definition NALU_TYPE_VUI : Z := 14.

(** ** Data *)
Record h264_hrd_param := Hrd {
  cpb_cnt : Z;
  bit_rate_scale : Z;
  cpb_size_scale : Z;
  bit_rate_value : list Z;
  cpb_size_value : list Z;
  cbr_flag : list Z;
  initial_cpb_removal_delay_length : Z;
  cpb_removal_delay_length : Z;
  dpb_output_delay_length : Z;
  time_offset_length : Z
}.

Record h264_aspect_ratio_info := Aspect {
  aspect_ratio_idc : Z;
  aspect_ratio_x : Z;
  aspect_ratio_y : Z
}.

Record h264_vui_param := Vui {
  aspect_ratio_info_present_flag : Z;
  aspect_ratio_info : h264_aspect_ratio_info;
  timing_info_present_flag : Z;
  num_units_in_tick : Z;
  time_scale : Z;
  fixed_frame_rate_flag : Z;
  nal_hrd_parameters_present_flag : Z;
  nal_hrd_parameters : h264_hrd_param;
  vcl_hrd_parameters_present_flag : Z;
  vcl_hrd_parameters : h264_hrd_param;
  low_delay_hrd_flag : Z;
  pic_struct_present_flag : Z;
  fixed_fps_prev_ts : Z
}.

Record h264_sei_pic_timing := PicTiming {
  cpb_removal_delay : Z;
  dpb_output_delay : Z;
  pic_struct : Z;
  num_clock_ts : Z;
  clock_ts_flag : Z;
  nuit_field_based_flag : Z;
  n_frames : Z;
  seconds_value : Z;
  minutes_value : Z;
  hours_value : Z;
  time_offset : Z;
  timing_is_valid : bool
}.

Record h264_sei_buf_period := BufPeriod {
  initial_cpb_removal_delay : list Z;
  initial_cpb_removal_delay_offset : list Z;
  au_cntr : Z;
  reference_ts : Z;
  period_is_valid : bool
}.

Record h264_pan_scan := PanScan {
  rect_id : Z;
  rect_cancel_flag : Z;
  rect_cnt : Z;
  rect_left_offset : list Z;
  rect_right_offset : list Z;
  rect_top_offset : list Z;
  rect_bottom_offset : list Z;
  rect_repetition_period : Z
}.

Record PANSCAN_NODE := PanNode {
  pan_scan_param : h264_pan_scan;
  start_ts : Z;
  end_ts : Z;
  pan_active : bool
}.

Record panscan_handler := PanHandler {
  panscan_used : list PANSCAN_NODE;
  panscan_free : list PANSCAN_NODE
}.

Record frame_pack := FramePack {
  fp_id : Z;
  cancel_flag : Z;
  fp_type : Z;
  quincunx_sampling_flag : Z;
  content_interpretation_type : Z;
  spatial_flipping_flag : Z;
  frame0_flipped_flag : Z;
  field_views_flag : Z;
  current_frame_is_frame0_flag : Z;
  frame0_self_contained_flag : Z;
  frame1_self_contained_flag : Z;
  frame0_grid_position_x : Z;
  frame0_grid_position_y : Z;
  frame1_grid_position_x : Z;
  frame1_grid_position_y : Z;
  reserved_byte : Z;
  repetition_period : Z;
  extension_flag : Z
}.

Record h264_stream_parser := Parser {
  reader : bit_reader;
  profile : Z;
  vui_param : h264_vui_param;
  sei_buf_period : h264_sei_buf_period;
  sei_pic_timing : h264_sei_pic_timing;
  panscan_hdl : option panscan_handler;
  frame_packing_arrangement : frame_pack;
  mbaff_flag : Z
}.

Abbreviation hp A := (parse h264_stream_parser A).

Definition set_reader (r : bit_reader) (s : h264_stream_parser) : h264_stream_parser :=
  Parser r (profile s) (vui_param s) (sei_buf_period s) (sei_pic_timing s) (panscan_hdl s)
    (frame_packing_arrangement s) (mbaff_flag s).
Definition set_profile (v : Z) (s : h264_stream_parser) : h264_stream_parser :=
  Parser (reader s) v (vui_param s) (sei_buf_period s) (sei_pic_timing s) (panscan_hdl s)
    (frame_packing_arrangement s) (mbaff_flag s).
Definition set_vui (v : h264_vui_param) (s : h264_stream_parser) : h264_stream_parser :=
  Parser (reader s) (profile s) v (sei_buf_period s) (sei_pic_timing s) (panscan_hdl s)
    (frame_packing_arrangement s) (mbaff_flag s).
Definition set_buf_period (v : h264_sei_buf_period) (s : h264_stream_parser) : h264_stream_parser :=
  Parser (reader s) (profile s) (vui_param s) v (sei_pic_timing s) (panscan_hdl s)
    (frame_packing_arrangement s) (mbaff_flag s).
Definition set_pic_timing (v : h264_sei_pic_timing) (s : h264_stream_parser) : h264_stream_parser :=
  Parser (reader s) (profile s) (vui_param s) (sei_buf_period s) v (panscan_hdl s)
    (frame_packing_arrangement s) (mbaff_flag s).
Definition set_panscan (v : option panscan_handler) (s : h264_stream_parser) : h264_stream_parser :=
  Parser (reader s) (profile s) (vui_param s) (sei_buf_period s) (sei_pic_timing s) v
    (frame_packing_arrangement s) (mbaff_flag s).
Definition set_frame_pack (v : frame_pack) (s : h264_stream_parser) : h264_stream_parser :=
  Parser (reader s) (profile s) (vui_param s) (sei_buf_period s) (sei_pic_timing s) (panscan_hdl s)
    v (mbaff_flag s).
Definition set_mbaff (v : Z) (s : h264_stream_parser) : h264_stream_parser :=
  Parser (reader s) (profile s) (vui_param s) (sei_buf_period s) (sei_pic_timing s) (panscan_hdl s)
    (frame_packing_arrangement s) v.

(** ** Initial values: memory that is set to zero *)
Definition zeros (n : Z) : list Z := repeat 0 (Z.to_nat n).
Definition no_hrd : h264_hrd_param :=
  Hrd 0 0 0 (zeros MAX_CPB_COUNT) (zeros MAX_CPB_COUNT) (zeros MAX_CPB_COUNT) 0 0 0 0.
Definition no_vui : h264_vui_param :=
  Vui 0 (Aspect 0 0 0) 0 0 0 0 0 no_hrd 0 no_hrd 0 0 LLONG_MAX.
Definition no_timing : h264_sei_pic_timing := PicTiming 0 0 0 0 0 0 0 0 0 0 0 false.
Definition no_period : h264_sei_buf_period := BufPeriod (zeros MAX_CPB_COUNT) (zeros MAX_CPB_COUNT) 0 0 false.
Definition no_frame_pack : frame_pack := FramePack 0 1 0 0 0 0 0 0 0 0 0 0 0 0 0 0 0 0.

(** [reset], which leaves the profile and the pan-scan data. *)
Definition reset (s : h264_stream_parser) : h264_stream_parser :=
  Parser (Reader 0 0 0 0 true []) (profile s) no_vui no_period no_timing (panscan_hdl s) no_frame_pack 0.

(** ** Bits of the parser *)
Definition on_reader {A} (p : parse bit_reader A) : hp A := λ s,
  '(a, r) ← p (reader s); Some (a, set_reader r s).
Definition bits (n : Z) : hp Z := on_reader (extract_bits n).
Definition ue : hp Z := on_reader uev.
Definition se : hp Z := on_reader sev.
Definition more : hp bool := get_state (λ s, more_bits (reader s)).

Definition init_bitstream (data : list Z) : hp () :=
  put_state (λ s, set_reader (new_reader (emulation_sc_enabled (reader s)) data) s).

Definition if_flag {A} (v : Z) (p q : hp A) : hp A := if v =? 0 then q else p.
Definition skip_if (v : Z) (p : hp ()) : hp () := if_flag v p (mret ()).

(** [bits_of_parser s] may be left; a loop that takes bits ends before. *)
Definition parser_left : hp nat := get_state (λ s, bits_left (reader s)).

Definition uev_plus_1 : hp Z := v ← ue; mret (wrap_unsigned 32 (v + 1)).

(** [a[i] = v] *)
Definition set_at (l : list Z) (i v : Z) : hp (list Z) :=
  if (0 <=? i) && (i <? Z.of_nat (length l)) then mret (<[Z.to_nat i := v]> l) else undefined.

(** ** The video usability information *)
Definition aspect_table : list (Z * Z) :=
  [(0, 0); (1, 1); (12, 11); (10, 11); (16, 11); (40, 33); (24, 11); (20, 11); (32, 11); (80, 33); (18, 11);
   (15, 11); (64, 33); (160, 99); (4, 3); (3, 2); (2, 1)].

Definition aspect_ratio_info_body : hp h264_aspect_ratio_info :=
  idc ← bits 8;
  if idc =? 255 then
    x ← bits 16;
    y ← bits 16;
    mret (Aspect idc x y)
  else
    let '(x, y) := default (0, 0) (aspect_table !! Z.to_nat idc) in
    mret (Aspect idc x y).

Fixpoint hrd_values (n : nat) (idx : Z) (h : h264_hrd_param) : hp h264_hrd_param :=
  match n with
  | O => mret h
  | S n =>
      m ← more;
      if negb m then mret h
      else
        rate ← uev_plus_1;
        rates ← set_at (bit_rate_value h) idx rate;
        size ← uev_plus_1;
        sizes ← set_at (cpb_size_value h) idx size;
        cbr ← bits 1;
        cbrs ← set_at (cbr_flag h) idx cbr;
        hrd_values n (idx + 1)
          (Hrd (cpb_cnt h) (bit_rate_scale h) (cpb_size_scale h) rates sizes cbrs
             (initial_cpb_removal_delay_length h) (cpb_removal_delay_length h) (dpb_output_delay_length h)
             (time_offset_length h))
  end.

Definition hrd_parameters (h : h264_hrd_param) : hp h264_hrd_param :=
  cnt ← uev_plus_1;
  rate_scale ← bits 4;
  size_scale ← bits 4;
  let h := Hrd cnt rate_scale size_scale (bit_rate_value h) (cpb_size_value h) (cbr_flag h)
             (initial_cpb_removal_delay_length h) (cpb_removal_delay_length h) (dpb_output_delay_length h)
             (time_offset_length h) in
  if MAX_CPB_COUNT <? cnt then mret h
  else
    h ← hrd_values (Z.to_nat cnt) 0 h;
    initial ← bits 5;
    removal ← bits 5;
    output ← bits 5;
    offset ← bits 5;
    mret (Hrd cnt rate_scale size_scale (bit_rate_value h) (cpb_size_value h) (cbr_flag h)
            (initial + 1) (removal + 1) (output + 1) offset).

(** [while (!extract_bits(1) && more_bits());] *)
Fixpoint discard_zeros (fuel : nat) : hp () :=
  match fuel with
  | O => undefined
  | S fuel =>
      b ← bits 1;
      m ← more;
      if (b =? 0) && (m : bool) then discard_zeros fuel else mret ()
  end.

Definition video_signal_type : hp () :=
  _ ← bits 3;
  _ ← bits 1;
  colour ← bits 1;
  skip_if colour (_ ← bits 8; _ ← bits 8; _ ← bits 8; mret ()).

Definition bitstream_restriction : hp () :=
  _ ← bits 1;
  _ ← ue; _ ← ue; _ ← ue; _ ← ue; _ ← ue; _ ← ue;
  mret ().

(** The flag, and the values of the timing information or the old ones. *)
Definition timing_info (v : h264_vui_param) : hp (Z * Z * Z * Z) :=
  present ← bits 1;
  if_flag present (
    units ← bits 32;
    scale ← bits 32;
    fixed ← bits 1;
    mret (present, units, scale, fixed))
  (mret (present, num_units_in_tick v, time_scale v, fixed_frame_rate_flag v)).

Definition hrd_info (old : h264_hrd_param) : hp (Z * h264_hrd_param) :=
  present ← bits 1;
  h ← if_flag present (hrd_parameters old) (mret old);
  mret (present, h).

Definition vui_body (v : h264_vui_param) : hp h264_vui_param :=
  aspect_present ← bits 1;
  aspect ← if_flag aspect_present aspect_ratio_info_body (mret (aspect_ratio_info v));
  overscan ← bits 1;
  skip_if overscan (_ ← bits 1; mret ());;
  signal ← bits 1;
  skip_if signal video_signal_type;;
  chroma ← bits 1;
  skip_if chroma (_ ← ue; _ ← ue; mret ());;
  '(timing, units, scale, fixed) ← timing_info v;
  '(nal_present, nal) ← hrd_info (nal_hrd_parameters v);
  '(vcl_present, vcl) ← hrd_info (vcl_hrd_parameters v);
  low_delay ← (if (nal_present =? 0) && (vcl_present =? 0) then mret (low_delay_hrd_flag v) else bits 1);
  pic_struct_present ← bits 1;
  restriction ← bits 1;
  skip_if restriction bitstream_restriction;;
  mret (Vui aspect_present aspect timing units scale fixed nal_present nal vcl_present vcl low_delay
          pic_struct_present (fixed_fps_prev_ts v)).

Definition parse_vui (vui_in_extradata : bool) : hp () :=
  n ← parser_left;
  (if vui_in_extradata then discard_zeros (S n) else mret ());;
  m ← more;
  if negb m then mret ()
  else
    v ← get_state vui_param;
    v ← vui_body v;
    put_state (set_vui v).

(** ** The sequence parameter set *)
Fixpoint scaling_list (size : nat) (last_scale next_scale : Z) : hp () :=
  match size with
  | O => mret ()
  | S size =>
      next_scale ← (if next_scale =? 0 then mret next_scale
                    else delta_scale ← se; mret (Z.rem (last_scale + delta_scale + 256) 256));
      scaling_list size (if next_scale =? 0 then last_scale else next_scale) next_scale
  end.

Fixpoint scaling_matrix (n : nat) (i : Z) : hp () :=
  match n with
  | O => mret ()
  | S n =>
      m ← more;
      if negb m then mret ()
      else
        present ← bits 1;
        skip_if present (scaling_list (if i <? 6 then 16%nat else 64%nat) 8 8);;
        scaling_matrix n (i + 1)
  end.

(** [n] signed codes; one more than there are bits is out of the stream. *)
Fixpoint skip_sev (fuel : nat) (n : Z) : hp () :=
  if n <=? 0 then mret ()
  else match fuel with
       | O => undefined
       | S fuel => _ ← se; skip_sev fuel (n - 1)
       end.

Definition high_profiles : list Z := [100; 110; 122; 244; 44; 83; 86; 118].

Definition high_profile_fields : hp () :=
  chroma ← ue;
  (if chroma =? 3 then _ ← bits 1; mret () else mret ());;
  _ ← ue;
  _ ← ue;
  _ ← bits 1;
  matrix ← bits 1;
  skip_if matrix (scaling_matrix 12 0).

Definition order_count_fields : hp () :=
  kind ← ue;
  if kind =? 0 then _ ← ue; mret ()
  else if kind =? 1 then
    _ ← bits 1;
    _ ← se;
    _ ← se;
    value ← ue;
    n ← parser_left;
    skip_sev (S n) value
  else mret ().

Definition parse_sps : hp () :=
  value ← bits 8;
  put_state (set_profile value);;
  _ ← bits 8;
  _ ← bits 8;
  _ ← ue;
  (if bool_decide (value ∈ high_profiles) then high_profile_fields else mret ());;
  _ ← ue;
  order_count_fields;;
  _ ← ue;
  _ ← bits 1;
  _ ← ue;
  _ ← ue;
  frame_mbs_only ← bits 1;
  (if frame_mbs_only =? 0 then m ← bits 1; put_state (set_mbaff m) else mret ());;
  _ ← bits 1;
  cropping ← bits 1;
  skip_if cropping (_ ← ue; _ ← ue; _ ← ue; _ ← ue; mret ());;
  vui ← bits 1;
  skip_if vui (parse_vui false).

(** ** Pan-scan rectangles *)
Definition no_pan_scan (p : h264_pan_scan) : h264_pan_scan :=
  PanScan NO_PAN_SCAN_BIT (rect_cancel_flag p) (rect_cnt p) (rect_left_offset p) (rect_right_offset p)
    (rect_top_offset p) (rect_bottom_offset p) (rect_repetition_period p).

Fixpoint remove_last {A} (l : list A) : option (A * list A) :=
  match l with
  | [] => None
  | x :: l => match remove_last l with None => Some (x, []) | Some (y, l) => Some (y, x :: l) end
  end.

(** The node is the last in use; the answer is whether there was one. *)
Definition get_free (h : panscan_handler) : bool * panscan_handler :=
  let taken :=
    match remove_last (panscan_used h) with
    | Some (n, used) =>
        if VALID_TS (start_ts n) then
          match panscan_free h with [] => None | f :: free => Some (f, panscan_used h, free) end
        else Some (n, used, panscan_free h)
    | None => match panscan_free h with [] => None | f :: free => Some (f, panscan_used h, free) end
    end in
  match taken with
  | Some (n, used, free) =>
      (true, PanHandler (used ++ [PanNode (no_pan_scan (pan_scan_param n)) LLONG_MAX LLONG_MAX false]) free)
  | None => (false, h)
  end.

(** The search for the data of a frame; a frame that comes before an active
    node moves its start. *)
Fixpoint find_populated (frame_ts : Z) (used free : list PANSCAN_NODE) :
    bool * list PANSCAN_NODE * list PANSCAN_NODE :=
  match used with
  | [] => (false, [], free)
  | n :: used' =>
      if VALID_TS (start_ts n) then
        let start := if pan_active n && (frame_ts <? start_ts n) then frame_ts else start_ts n in
        if start <=? frame_ts then
          if frame_ts <? end_ts n
          then (true, PanNode (pan_scan_param n) start (end_ts n) true :: used', free)
          else find_populated frame_ts used' (free ++ [PanNode (pan_scan_param n) start (end_ts n) (pan_active n)])
        else (false, PanNode (pan_scan_param n) start (end_ts n) (pan_active n) :: used', free)
      else (true, PanNode (pan_scan_param n) (start_ts n) (end_ts n) true :: used', free)
  end.

Definition with_period (v : Z) (p : h264_pan_scan) : h264_pan_scan :=
  PanScan (rect_id p) (rect_cancel_flag p) (rect_cnt p) (rect_left_offset p) (rect_right_offset p)
    (rect_top_offset p) (rect_bottom_offset p) v.

Definition get_populated (frame_ts : Z) (h : panscan_handler) : option h264_pan_scan * panscan_handler :=
  let '(found, used, free) := find_populated frame_ts (panscan_used h) (panscan_free h) in
  match found, used with
  | true, n :: used' =>
      let p := pan_scan_param n in
      if rect_repetition_period p =? 0 then (Some p, PanHandler used' (free ++ [n]))
      else if 1 <? rect_repetition_period p then
        let p := with_period (rect_repetition_period p - 2) p in
        (Some p, PanHandler (PanNode p (start_ts n) (end_ts n) (pan_active n) :: used') free)
      else (Some p, PanHandler used free)
  | _, _ => (None, PanHandler used free)
  end.

Definition update_last (frame_ts : Z) (h : panscan_handler) : panscan_handler :=
  match remove_last (panscan_used h) with
  | Some (n, before) =>
      if VALID_TS (start_ts n) then h
      else
        let n := PanNode (pan_scan_param n) frame_ts (end_ts n) (pan_active n) in
        let before :=
          match remove_last before with
          | Some (p, others) =>
              let p :=
                if frame_ts <? end_ts p then PanNode (pan_scan_param p) (start_ts p) frame_ts (pan_active p)
                else if negb (VALID_TS frame_ts)
                then PanNode (with_period 0 (pan_scan_param p)) (start_ts p) (end_ts p) (pan_active p)
                else p in
              others ++ [p]
          | None => before
          end in
        PanHandler (before ++ [n]) (panscan_free h)
  | None => h
  end.

(** A call on the handler; its pointer is null when its memory was not
    allocated. *)
Definition on_panscan {A} (f : panscan_handler → A * panscan_handler) : hp A := λ s,
  match panscan_hdl s with
  | Some h => let '(a, h) := f h in Some (a, set_panscan (Some h) s)
  | None => None
  end.

(** A write through the pointer of [get_free]. *)
Definition write_last (f : h264_pan_scan → h264_pan_scan) (h : panscan_handler) : () * panscan_handler :=
  match remove_last (panscan_used h) with
  | Some (n, before) =>
      ((), PanHandler (before ++ [PanNode (f (pan_scan_param n)) (start_ts n) (end_ts n) (pan_active n)]) (panscan_free h))
  | None => ((), h)
  end.
Definition write_pan (f : h264_pan_scan → h264_pan_scan) : hp () := on_panscan (write_last f).

Definition set_rect_id (v : Z) (p : h264_pan_scan) : h264_pan_scan :=
  PanScan v (rect_cancel_flag p) (rect_cnt p) (rect_left_offset p) (rect_right_offset p)
    (rect_top_offset p) (rect_bottom_offset p) (rect_repetition_period p).
Definition set_cancel (v : Z) (p : h264_pan_scan) : h264_pan_scan :=
  PanScan (rect_id p) v (rect_cnt p) (rect_left_offset p) (rect_right_offset p)
    (rect_top_offset p) (rect_bottom_offset p) (rect_repetition_period p).
Definition set_cnt (v : Z) (p : h264_pan_scan) : h264_pan_scan :=
  PanScan (rect_id p) (rect_cancel_flag p) v (rect_left_offset p) (rect_right_offset p)
    (rect_top_offset p) (rect_bottom_offset p) (rect_repetition_period p).
(** The four offsets of rectangle [i]. *)
Definition set_rect (i : nat) (l r t b : Z) (p : h264_pan_scan) : h264_pan_scan :=
  PanScan (rect_id p) (rect_cancel_flag p) (rect_cnt p) (<[i := l]> (rect_left_offset p))
    (<[i := r]> (rect_right_offset p)) (<[i := t]> (rect_top_offset p)) (<[i := b]> (rect_bottom_offset p))
    (rect_repetition_period p).

(** [i] stays below [MAX_PAN_SCAN_RECT]. *)
Fixpoint pan_rects (n i : nat) : hp () :=
  match n with
  | O => mret ()
  | S n =>
      l ← se; r ← se; t ← se; b ← se;
      write_pan (set_rect i l r t b);;
      pan_rects n (S i)
  end.

Definition sei_pan_scan : hp () :=
  found ← on_panscan get_free;
  if negb (found : bool) then mret ()
  else
    id ← ue;
    write_pan (set_rect_id id);;
    if 255 <? id then write_pan (set_rect_id NO_PAN_SCAN_BIT)
    else
      cancel ← bits 1;
      write_pan (set_cancel cancel);;
      if_flag cancel (write_pan (set_rect_id NO_PAN_SCAN_BIT)) (
        cnt ← uev_plus_1;
        write_pan (set_cnt cnt);;
        if MAX_PAN_SCAN_RECT <? cnt then write_pan (set_rect_id NO_PAN_SCAN_BIT)
        else
          pan_rects (Z.to_nat cnt) 0;;
          period ← ue;
          write_pan (with_period (if 1 <? period then wrap_unsigned 32 (period * 2) else period))).

(** ** The other SEI messages *)
(** The delays of one HRD, into the same arrays. *)
Fixpoint period_delays (n : nat) (idx len : Z) (b : h264_sei_buf_period) : hp h264_sei_buf_period :=
  match n with
  | O => mret b
  | S n =>
      d ← bits len;
      ds ← set_at (initial_cpb_removal_delay b) idx d;
      o ← bits len;
      os ← set_at (initial_cpb_removal_delay_offset b) idx o;
      period_delays n (idx + 1) len (BufPeriod ds os (au_cntr b) (reference_ts b) true)
  end.

(** [None]: the number of delays is not valid, and the message is left. *)
Definition period_hrd (present : Z) (h : h264_hrd_param) (b : h264_sei_buf_period) :
    hp (option h264_sei_buf_period) :=
  if_flag present (
    if MAX_CPB_COUNT <? cpb_cnt h then mret None
    else
      b ← period_delays (Z.to_nat (cpb_cnt h)) 0 (initial_cpb_removal_delay_length h) b;
      put_state (set_buf_period b);;
      mret (Some b))
  (mret (Some b)).

Definition sei_buffering_period : hp () :=
  value ← ue;
  if 31 <? value then mret ()
  else
    b ← get_state sei_buf_period;
    v ← get_state vui_param;
    let b := BufPeriod (initial_cpb_removal_delay b) (initial_cpb_removal_delay_offset b) (au_cntr b)
               (reference_ts b) false in
    put_state (set_buf_period b);;
    o ← period_hrd (nal_hrd_parameters_present_flag v) (nal_hrd_parameters v) b;
    match o with
    | None => mret ()
    | Some b =>
        o ← period_hrd (vcl_hrd_parameters_present_flag v) (vcl_hrd_parameters v) b;
        match o with
        | None => mret ()
        | Some b =>
            put_state (set_buf_period (BufPeriod (initial_cpb_removal_delay b) (initial_cpb_removal_delay_offset b)
                                         0 (reference_ts b) (period_is_valid b)))
        end
    end.

(** Seconds, minutes and hours. *)
Definition clock_fields (full : Z) : hp (Z * Z * Z) :=
  if_flag full (s ← bits 6; m ← bits 6; h ← bits 5; mret (s, m, h)) (
    seconds ← bits 1;
    if_flag seconds (
      s ← bits 6;
      minutes ← bits 1;
      if_flag minutes (
        m ← bits 6;
        hours ← bits 1;
        if_flag hours (h ← bits 5; mret (s, m, h)) (mret (s, m, 0)))
      (mret (s, 0, 0)))
    (mret (0, 0, 0))).

(** The clock timestamps; the last one stays. *)
Fixpoint clock_timestamps (n : nat) (time_offset_len : Z) (t : h264_sei_pic_timing) : hp h264_sei_pic_timing :=
  match n with
  | O => mret t
  | S n =>
      m ← more;
      if negb m then mret t
      else
        flag ← bits 1;
        t ← if_flag flag (
              _ ← bits 2;
              nuit ← bits 1;
              _ ← bits 5;
              full ← bits 1;
              _ ← bits 1;
              _ ← bits 1;
              frames ← bits 8;
              '(s, m, h) ← clock_fields full;
              offset ← (if 0 <? time_offset_len then on_reader (iv time_offset_len) else mret 0);
              mret (PicTiming (cpb_removal_delay t) (dpb_output_delay t) (pic_struct t) (num_clock_ts t) flag nuit
                      frames s m h offset (timing_is_valid t)))
            (mret (PicTiming (cpb_removal_delay t) (dpb_output_delay t) (pic_struct t) (num_clock_ts t) flag
                     (nuit_field_based_flag t) (n_frames t) (seconds_value t) (minutes_value t) (hours_value t)
                     (time_offset t) (timing_is_valid t)));
        clock_timestamps n time_offset_len t
  end.

(** How many timestamps a picture structure has. *)
Definition clock_count (pic_struct : Z) : nat :=
  match pic_struct with
  | 0 | 1 | 2 => 1%nat
  | 3 | 4 | 7 => 2%nat
  | 5 | 6 | 8 => 3%nat
  | _ => 0%nat
  end.

Definition sei_picture_timing : hp () :=
  v ← get_state vui_param;
  let '(cpb_removal_len, dpb_output_len, time_offset_len) :=
    if negb (nal_hrd_parameters_present_flag v =? 0) then
      let h := nal_hrd_parameters v in (cpb_removal_delay_length h, dpb_output_delay_length h, time_offset_length h)
    else if negb (vcl_hrd_parameters_present_flag v =? 0) then
      let h := vcl_hrd_parameters v in (cpb_removal_delay_length h, dpb_output_delay_length h, time_offset_length h)
    else (24, 24, 0) in
  removal ← bits cpb_removal_len;
  output ← bits dpb_output_len;
  t ← get_state sei_pic_timing;
  let t := PicTiming removal output (pic_struct t) (num_clock_ts t) (clock_ts_flag t) (nuit_field_based_flag t)
             (n_frames t) (seconds_value t) (minutes_value t) (hours_value t) (time_offset t) true in
  t ← if_flag (pic_struct_present_flag v) (
        kind ← bits 4;
        let n := clock_count kind in
        clock_timestamps n time_offset_len
          (PicTiming (cpb_removal_delay t) (dpb_output_delay t) kind (Z.of_nat n) (clock_ts_flag t)
             (nuit_field_based_flag t) (n_frames t) (seconds_value t) (minutes_value t) (hours_value t)
             (time_offset t) true))
      (mret t);
  put_state (set_pic_timing t).

Definition parse_frame_pack : hp () :=
  f ← get_state frame_packing_arrangement;
  id ← ue;
  cancel ← bits 1;
  f ← (if cancel =? 0 then
         kind ← bits 7;
         quincunx ← bits 1;
         content ← bits 6;
         flipping ← bits 1;
         flipped0 ← bits 1;
         field_views ← bits 1;
         current0 ← bits 1;
         self0 ← bits 1;
         self1 ← bits 1;
         '(x0, y0, x1, y1) ←
           (if (quincunx =? 0) && negb (kind =? 5)
            then x0 ← bits 4; y0 ← bits 4; x1 ← bits 4; y1 ← bits 4; mret (x0, y0, x1, y1)
            else mret (frame0_grid_position_x f, frame0_grid_position_y f, frame1_grid_position_x f,
                       frame1_grid_position_y f));
         reserved ← bits 8;
         period ← ue;
         mret (FramePack id cancel kind quincunx content flipping flipped0 field_views current0 self0 self1
                 x0 y0 x1 y1 reserved period (extension_flag f))
       else
         mret (FramePack id cancel (fp_type f) (quincunx_sampling_flag f) (content_interpretation_type f)
                 (spatial_flipping_flag f) (frame0_flipped_flag f) (field_views_flag f)
                 (current_frame_is_frame0_flag f) (frame0_self_contained_flag f) (frame1_self_contained_flag f)
                 (frame0_grid_position_x f) (frame0_grid_position_y f) (frame1_grid_position_x f)
                 (frame1_grid_position_y f) (reserved_byte f) (repetition_period f) (extension_flag f)));
  extension ← bits 1;
  put_state (set_frame_pack
    (FramePack (fp_id f) (cancel_flag f) (fp_type f) (quincunx_sampling_flag f) (content_interpretation_type f)
       (spatial_flipping_flag f) (frame0_flipped_flag f) (field_views_flag f) (current_frame_is_frame0_flag f)
       (frame0_self_contained_flag f) (frame1_self_contained_flag f) (frame0_grid_position_x f)
       (frame0_grid_position_y f) (frame1_grid_position_x f) (frame1_grid_position_y f) (reserved_byte f)
       (repetition_period f) extension)).

(** The type or the size of a message, and the bytes it took: bytes of 255 go
    on. *)
Fixpoint sei_number (fuel : nat) (sum taken : Z) : hp (Z * Z) :=
  match fuel with
  | O => undefined
  | S fuel =>
      value ← bits 8;
      let sum := wrap_unsigned 32 (sum + value) in
      if value =? 255 then sei_number fuel sum (taken + 1) else mret (sum, taken + 1)
  end.

Definition BUFFERING_PERIOD : Z := 0.
Definition PIC_TIMING : Z := 1.
Definition PAN_SCAN_RECT : Z := 2.
Definition SEI_PAYLOAD_FRAME_PACKING_ARRANGEMENT : Z := 45.

Definition sei_payload (payload_type payload_size : Z) : hp () :=
  if payload_size =? 0 then mret ()
  else if payload_type =? BUFFERING_PERIOD then sei_buffering_period
  else if payload_type =? PIC_TIMING then sei_picture_timing
  else if payload_type =? PAN_SCAN_RECT then sei_pan_scan
  else if payload_type =? SEI_PAYLOAD_FRAME_PACKING_ARRANGEMENT then parse_frame_pack
  else mret ().

(** The messages of [unit]; each takes two bytes or more. *)
Fixpoint sei_messages (fuel : nat) (unit : list Z) (processed_bytes : Z) : hp () :=
  m ← more;
  if (processed_bytes + 2 <? Z.of_nat (length unit)) && (m : bool) then
    match fuel with
    | O => undefined
    | S fuel =>
        init_bitstream (drop (Z.to_nat processed_bytes) unit);;
        n ← parser_left;
        '(payload_type, t1) ← sei_number (S n) 0 0;
        n ← parser_left;
        '(payload_size, t2) ← sei_number (S n) 0 0;
        sei_payload payload_type payload_size;;
        skips ← get_state (λ s, emulation_code_skip_cntr (reader s));
        sei_messages fuel unit (wrap_unsigned 32 (processed_bytes + t1 + t2 + payload_size + skips))
    end
  else mret ().

Definition parse_sei : hp () :=
  unit ← get_state (λ s, bitstream (reader s));
  sei_messages (length unit) unit 0.

(** ** A NAL unit *)
Fixpoint find_start_code (fuel : nat) (value consumed : Z) : hp (Z * Z) :=
  match fuel with
  | O => undefined
  | S fuel =>
      m ← more;
      if negb (value =? 1) && (m : bool) then
        b ← bits 8;
        find_start_code fuel (Z.lor (wrap_unsigned 32 (Z.shiftl value 8)) b) (consumed + 1)
      else mret (value, consumed)
  end.

(** The type and the bytes consumed. *)
Definition get_nal_unit_type : hp (Z * Z) :=
  value ← bits 24;
  n ← parser_left;
  '(value, consumed) ← find_start_code (S n) value 3;
  if negb (value =? 1) then mret (NALU_TYPE_UNSPECIFIED, consumed)
  else
    _ ← bits 1;
    _ ← bits 2;
    kind ← bits 5;
    mret (kind, consumed + 1).

Definition set_emulation (en : bool) (s : h264_stream_parser) : h264_stream_parser :=
  let r := reader s in
  set_reader (Reader (curr_32_bit r) (bits_read r) (zero_cntr r) (emulation_code_skip_cntr r) en (bitstream r)) s.

Definition parse_nal (data : list Z) (nal_type : Z) (enable_emu_sc : bool) : hp () :=
  if bool_decide (data = []) then mret ()
  else
    init_bitstream data;;
    put_state (set_emulation enable_emu_sc);;
    '(nal_unit_type, cons_bytes) ←
      (if nal_type =? NALU_TYPE_VUI then mret (NALU_TYPE_UNSPECIFIED, 0) else get_nal_unit_type);
    if negb (nal_type =? NALU_TYPE_VUI) && negb (nal_type =? nal_unit_type) && negb (nal_type =? NALU_TYPE_UNSPECIFIED)
    then mret ()
    else if nal_type =? NALU_TYPE_SPS then
      m ← more;
      (if m : bool then parse_sps else mret ());;
      _ ← on_panscan get_free;
      mret ()
    else if nal_type =? NALU_TYPE_SEI then
      init_bitstream (drop (Z.to_nat cons_bytes) data);;
      parse_sei
    else if nal_type =? NALU_TYPE_VUI then parse_vui true
    else mret ().

(** ** Timestamps *)
Definition d1e6 : spec_float := double 1000000.

Definition calculate_buf_period_ts (timestamp : Z) : hp Z :=
  b ← get_state sei_buf_period;
  t ← get_state sei_pic_timing;
  v ← get_state vui_param;
  '(clock_ts, reference) ←
    (if au_cntr b =? 0 then mret (timestamp, timestamp)
     else if timing_is_valid t && VALID_TS (reference_ts b) then
       ts ← check (cast_signed 64 (dadd (double (reference_ts b))
              (ddiv (dmul (dmul (double (cpb_removal_delay t)) d1e6) (double (num_units_in_tick v)))
                 (double (time_scale v)))));
       mret (ts, reference_ts b)
     else mret (timestamp, reference_ts b));
  put_state (set_buf_period (BufPeriod (initial_cpb_removal_delay b) (initial_cpb_removal_delay_offset b)
                               (wrap_unsigned 32 (au_cntr b + 1)) reference (period_is_valid b)));;
  mret clock_ts.

Definition with_prev_ts (ts : Z) (v : h264_vui_param) : h264_vui_param :=
  Vui (aspect_ratio_info_present_flag v) (aspect_ratio_info v) (timing_info_present_flag v) (num_units_in_tick v)
    (time_scale v) (fixed_frame_rate_flag v) (nal_hrd_parameters_present_flag v) (nal_hrd_parameters v)
    (vcl_hrd_parameters_present_flag v) (vcl_hrd_parameters v) (low_delay_hrd_flag v) (pic_struct_present_flag v) ts.

Definition calculate_fixed_fps_ts (timestamp DeltaTfiDivisor : Z) : hp Z :=
  v ← get_state vui_param;
  ts ← (if VALID_TS timestamp then mret timestamp
        else if VALID_TS (fixed_fps_prev_ts v) then
          check (cast_signed 64 (dadd (double (fixed_fps_prev_ts v))
            (ddiv (dmul (dmul (double DeltaTfiDivisor) d1e6) (double (num_units_in_tick v))) (double (time_scale v)))))
        else mret (fixed_fps_prev_ts v));
  put_state (set_vui (with_prev_ts ts v));;
  mret ts.

Definition delta_tfi_divisor (pic_struct : Z) : Z :=
  match pic_struct with
  | 1 | 2 => 1
  | 0 | 3 | 4 => 2
  | 5 | 6 => 3
  | 7 => 4
  | 8 => 6
  | _ => 2
  end.

Definition clock_timestamp (v : h264_vui_param) (t : h264_sei_pic_timing) : option Z :=
  let seconds := wrap_unsigned 32 (wrap_unsigned 32 (wrap_unsigned 32 (wrap_unsigned 32 (hours_value t * 60) +
                   minutes_value t) * 60) + seconds_value t) in
  let ticks := wrap_unsigned 32 (wrap_unsigned 32 (n_frames t *
                 wrap_unsigned 32 (num_units_in_tick v * wrap_unsigned 32 (1 + nuit_field_based_flag t))) +
                 wrap_unsigned 32 (time_offset t)) in
  cast_signed 64 (dadd (dmul (double seconds) d1e6) (ddiv (dmul (double ticks) d1e6) (double (time_scale v)))).

Definition process_ts_with_sei_vui (timestamp : Z) : hp Z :=
  v ← get_state vui_param;
  t ← get_state sei_pic_timing;
  b ← get_state sei_buf_period;
  let pic := negb (pic_struct_present_flag v =? 0) in
  let fixed := negb (fixed_frame_rate_flag v =? 0) in
  clock_ts ←
    (if timing_info_present_flag v =? 0 then mret timestamp
     else if pic && negb (clock_ts_flag t =? 0) then check (clock_timestamp v t)
     else if fixed then
       calculate_fixed_fps_ts timestamp (if pic then delta_tfi_divisor (pic_struct t) else 2)
     else if period_is_valid b then calculate_buf_period_ts timestamp
     else mret timestamp);
  t ← get_state sei_pic_timing;
  put_state (set_pic_timing (PicTiming (cpb_removal_delay t) (dpb_output_delay t) (pic_struct t) (num_clock_ts t)
    (clock_ts_flag t) (nuit_field_based_flag t) (n_frames t) (seconds_value t) (minutes_value t) (hours_value t)
    (time_offset t) false));;
  mret clock_ts.

(** ** What the component reads *)
Definition is_mbaff (s : h264_stream_parser) : bool := negb (mbaff_flag s =? 0).
Definition get_profile (s : h264_stream_parser) : Z := profile s.
Definition get_frame_pack_data (s : h264_stream_parser) : frame_pack := frame_packing_arrangement s.

(** [*frame_rate], which stays when there is no tick. *)
Definition get_frame_rate (s : h264_stream_parser) (frame_rate : Z) : option Z :=
  let v := vui_param s in
  if num_units_in_tick v =? 0 then Some frame_rate
  else
    let d := wrap_unsigned 32 (2 * num_units_in_tick v) in
    if d =? 0 then None else Some (time_scale v ÷ d).

Definition fill_aspect_ratio_info (s : h264_stream_parser) (dest : option (Z * Z)) : option (Z * Z) :=
  match dest with
  | Some _ =>
      if aspect_ratio_info_present_flag (vui_param s) =? 0 then dest
      else let a := aspect_ratio_info (vui_param s) in Some (aspect_ratio_x a, aspect_ratio_y a)
  | None => None
  end.

Definition update_panscan_data (timestamp : Z) : hp () := on_panscan (λ h, ((), update_last timestamp h)).

(** The windows written, with the destination's [numWindows]; a window past
    the four of the destination is out of its range. *)
Record pan_window := Window { win_x : Z; win_y : Z; win_dx : Z; win_dy : Z }.

Definition window_at (p : h264_pan_scan) (i : nat) : option pan_window :=
  l ← rect_left_offset p !! i;
  t ← rect_top_offset p !! i;
  r ← rect_right_offset p !! i;
  b ← rect_bottom_offset p !! i;
  Some (Window l t r b).

(** [rect_repetition_period = 0] through the pointer of [get_populated]; a node
    that was freed, or has no repetition left, has 0 already, and any other is
    the first in use. *)
Definition clear_first (h : panscan_handler) : () * panscan_handler :=
  match panscan_used h with
  | n :: used =>
      ((), PanHandler (PanNode (with_period 0 (pan_scan_param n)) (start_ts n) (end_ts n) (pan_active n) :: used)
             (panscan_free h))
  | [] => ((), h)
  end.

Definition fill_pan_scan_data (timestamp : Z) : hp (option (list pan_window)) :=
  o ← on_panscan (get_populated timestamp);
  match o with
  | None => mret None
  | Some p =>
      if negb (Z.land (rect_id p) NO_PAN_SCAN_BIT =? 0) then skip_if (rect_repetition_period p) (on_panscan clear_first);; mret None
      else
        ws ← check (mapM (window_at p) (seq 0 (Z.to_nat (rect_cnt p))));
        mret (Some ws)
  end.
