(* ===== verification/H264State.v ===== *)
(** * H.264 parsers: the state between the calls

    The state of [h264_stream_parser] is well formed: its arrays have their
    sizes, the pan-scan nodes are all in one of the two lists, only the node
    that was taken last may have no start, and a node with rectangles has three
    at most.  [reset] and every entry keep that, for any data; so the copies of
    the rectangles stay inside the arrays. *)
From S2P Require Import Prelude Doubles H264Bits H264Parser.
Local Open Scope Z_scope.

(** ** The invariant *)
Definition arrays_ok (h : h264_hrd_param) : Prop :=
  length (bit_rate_value h) = 32%nat ∧ length (cpb_size_value h) = 32%nat ∧ length (cbr_flag h) = 32%nat.

Definition vui_arrays (v : h264_vui_param) : Prop :=
  arrays_ok (nal_hrd_parameters v) ∧ arrays_ok (vcl_hrd_parameters v).

Definition period_arrays (b : h264_sei_buf_period) : Prop :=
  length (initial_cpb_removal_delay b) = 32%nat ∧ length (initial_cpb_removal_delay_offset b) = 32%nat.

Definition rect_arrays (p : h264_pan_scan) : Prop :=
  length (rect_left_offset p) = 3%nat ∧ length (rect_right_offset p) = 3%nat ∧
  length (rect_top_offset p) = 3%nat ∧ length (rect_bottom_offset p) = 3%nat.

Definition rect_shown (p : h264_pan_scan) : Prop := Z.land (rect_id p) NO_PAN_SCAN_BIT = 0 → 0 ≤ rect_cnt p ≤ 3.

Definition timed (n : PANSCAN_NODE) : Prop := VALID_TS (start_ts n) = true.

(** Every node but the last: timed, and shown as it should be. *)
Definition node_done (n : PANSCAN_NODE) : Prop := timed n ∧ rect_shown (pan_scan_param n).

Record pan_shape (total : nat) (h : panscan_handler) : Prop := {
  ps_total : (length (panscan_used h) + length (panscan_free h))%nat = total;
  ps_arrays : Forall (λ n, rect_arrays (pan_scan_param n)) (panscan_used h ++ panscan_free h);
  ps_done : ∀ before n, panscan_used h = before ++ [n] → Forall node_done before
}.

(** Between the calls the last node is shown as it should be, too. *)
Definition pan_ok (total : nat) (h : panscan_handler) : Prop :=
  pan_shape total h ∧ Forall (λ n, rect_shown (pan_scan_param n)) (panscan_used h).

(** [R]: what is known of the reader, [P]: of the pan-scan lists. *)
Record parser_shape (R : bit_reader → Prop) (P : panscan_handler → Prop) (s : h264_stream_parser) : Prop := {
  pp_reader : R (reader s);
  pp_vui : vui_arrays (vui_param s);
  pp_period : period_arrays (sei_buf_period s);
  pp_pan : ∀ h, panscan_hdl s = Some h → P h
}.
Definition parser_ok (total : nat) : h264_stream_parser → Prop := parser_shape (λ _, True) (pan_ok total).

(** ** Programs that keep an invariant *)
Definition saves {A} (I J : h264_stream_parser → Prop) (p : hp A) (Q : A → Prop) : Prop :=
  ∀ s a s', p s = Some (a, s') → I s → J s' ∧ Q a.

Lemma saves_ret {A} I (a : A) (Q : A → Prop) : Q a → saves I I (mret a) Q.
Proof. intros Ha s x s' E HI. injection E as <- <-. done. Qed.

Lemma saves_bind {A B} I J K (p : hp A) (k : A → hp B) Q R :
  saves I J p Q → (∀ a, Q a → saves J K (k a) R) → saves I K (p ≫= k) R.
Proof.
  intros Hp Hk s b s' E HI. apply bind_Some in E as ([a s1] & E1 & E2).
  destruct (Hp s a s1 E1 HI) as [HJ Ha]. exact (Hk a Ha s1 b s' E2 HJ).
Qed.

Lemma saves_weaken {A} I J (p : hp A) (Q R : A → Prop) : (∀ a, Q a → R a) → saves I J p Q → saves I J p R.
Proof. intros HQ Hp s a s' E HI. destruct (Hp s a s' E HI). auto. Qed.

Lemma saves_undefined {A} I J (Q : A → Prop) : saves I J undefined Q.
Proof. intros s a s' E. discriminate E. Qed.

Lemma saves_get {A} I (f : h264_stream_parser → A) (Q : A → Prop) : (∀ s, I s → Q (f s)) → saves I I (get_state f) Q.
Proof. intros Hf s a s' E HI. injection E as <- <-. auto. Qed.

Lemma saves_put I J (f : h264_stream_parser → h264_stream_parser) : (∀ s, I s → J (f s)) → saves I J (put_state f) (λ _, True).
Proof. intros Hf s a s' E HI. unfold put_state in E. simplify_eq. split; [by apply Hf|done]. Qed.

Lemma saves_check {A} I (o : option A) (Q : A → Prop) : (∀ a, o = Some a → Q a) → saves I I (check o) Q.
Proof. intros Ho s a s' E HI. apply bind_Some in E as (x & E & [= <- <-]). auto. Qed.

Lemma saves_if_flag {A} I J v (p q : hp A) Q : saves I J p Q → saves I J q Q → saves I J (if_flag v p q) Q.
Proof. unfold if_flag. by destruct (v =? 0). Qed.

Lemma saves_skip_if I v (p : hp ()) : saves I I p (λ _, True) → saves I I (skip_if v p) (λ _, True).
Proof. intros Hp. apply saves_if_flag; [done|]. by apply saves_ret. Qed.

(** Reading bits changes the reader alone, and it is [extract_bits] that does. *)
Definition reader_kept (R : bit_reader → Prop) : Prop := ∀ n r v r', extract_bits n r = Some (v, r') → R r → R r'.

Lemma saves_on_reader {A} R P (p : parse bit_reader A) : (∀ r a r', p r = Some (a, r') → R r → R r') →
  saves (parser_shape R P) (parser_shape R P) (on_reader p) (λ _, True).
Proof.
  intros Hp s a s' E [H0 H1 H2 H3]. apply bind_Some in E as ([x r] & E1 & E). simplify_eq. split; [|done].
  split; [by eapply Hp|done..].
Qed.

Lemma count_zeros_kept R : reader_kept R → ∀ fuel n r v r', count_zeros fuel n r = Some (v, r') → R r → R r'.
Proof.
  intros HR. induction fuel as [|fuel IH]; intros n r v r' E Hr; [done|]. cbn [count_zeros] in E.
  apply bind_Some in E as ([b r1] & E1 & E). pose proof (HR _ _ _ _ E1 Hr) as Hr1.
  destruct (_ && _); [by eapply IH|]. by injection E as _ <-.
Qed.

Lemma uev_kept R : reader_kept R → ∀ r v r', uev r = Some (v, r') → R r → R r'.
Proof.
  intros HR r v r' E Hr. apply bind_Some in E as ([z r1] & E1 & E). pose proof (count_zeros_kept R HR _ _ _ _ _ E1 Hr) as Hr1.
  destruct (z =? 0); [by injection E as _ <-|]. apply bind_Some in E as (h & _ & E).
  apply bind_Some in E as ([l r2] & E2 & E). pose proof (HR _ _ _ _ E2 Hr1). by injection E as _ <-.
Qed.

Section Reads.
Context (R : bit_reader → Prop) (P : panscan_handler → Prop) (HR : reader_kept R).

Lemma bits_saves n : saves (parser_shape R P) (parser_shape R P) (bits n) (λ _, True).
Proof. apply saves_on_reader. intros r a r'. apply HR. Qed.

Lemma ue_saves : saves (parser_shape R P) (parser_shape R P) ue (λ _, True).
Proof. apply saves_on_reader. by apply uev_kept. Qed.

Lemma se_saves : saves (parser_shape R P) (parser_shape R P) se (λ _, True).
Proof.
  apply saves_on_reader. intros r a r' E Hr. apply bind_Some in E as ([c r1] & E1 & E).
  pose proof (uev_kept R HR _ _ _ E1 Hr). by injection E as _ <-.
Qed.

Lemma iv_saves n : saves (parser_shape R P) (parser_shape R P) (on_reader (iv n)) (λ _, True).
Proof.
  apply saves_on_reader. intros r a r' E Hr. apply bind_Some in E as ([c r1] & E1 & E).
  pose proof (HR _ _ _ _ E1 Hr). apply bind_Some in E as (? & _ & E). apply bind_Some in E as (? & _ & E). by injection E as _ <-.
Qed.
End Reads.

(** One step of a program; the answers that nothing is known of need no name. *)
Ltac saves_step :=
  lazymatch goal with
  | |- saves _ _ (mbind _ (on_reader (iv _))) _ => eapply saves_bind; [by apply iv_saves|intros ? _]
  | |- saves _ _ (mbind _ (bits _)) _ => eapply saves_bind; [by apply bits_saves|intros ? _]
  | |- saves _ _ (mbind _ ue) _ => eapply saves_bind; [by apply ue_saves|intros ? _]
  | |- saves _ _ (mbind _ se) _ => eapply saves_bind; [by apply se_saves|intros ? _]
  | |- saves _ _ (mbind _ more) _ => eapply saves_bind; [apply (saves_get _ _ (λ _, True)); done|intros ? _]
  | |- saves _ _ (mbind _ parser_left) _ => eapply saves_bind; [apply (saves_get _ _ (λ _, True)); done|intros ? _]
  | |- saves _ _ (mbind _ (mret _)) _ => eapply (saves_bind _ _ _ _ _ (λ _, True)); [by apply saves_ret|intros ? _]
  | |- saves _ _ (mbind _ (skip_if _ _)) _ => eapply saves_bind; [apply saves_skip_if|intros ? _]
  | |- saves _ _ (if_flag _ _ _) _ => apply saves_if_flag
  | |- saves _ _ (skip_if _ _) _ => apply saves_skip_if
  | |- saves _ _ (mret _) _ => apply saves_ret; try done
  | |- saves _ _ undefined _ => apply saves_undefined
  | |- saves _ _ (on_reader (iv _)) _ => by apply iv_saves
  | |- saves _ _ (bits _) _ => by apply bits_saves
  | |- saves _ _ ue _ => by apply ue_saves
  | |- saves _ _ se _ => by apply se_saves
  | |- saves _ _ (if ?b then _ else _) _ => destruct b
  end.
Ltac saves_steps := repeat saves_step.

(** ** The parameter sets *)
Section Parsers.
Context (R : bit_reader → Prop) (P : panscan_handler → Prop) (HR : reader_kept R).
Local Abbreviation ok := (parser_shape R P).

Lemma uev_plus_1_saves : saves ok ok uev_plus_1 (λ _, True).
Proof. unfold uev_plus_1. by saves_steps. Qed.

Lemma set_at_saves l i v : saves ok ok (set_at l i v) (λ l', length l' = length l).
Proof. unfold set_at. saves_steps. by rewrite length_insert. Qed.

Lemma hrd_values_saves n : ∀ i h, arrays_ok h → saves ok ok (hrd_values n i h) arrays_ok.
Proof.
  induction n as [|n IH]; intros i h (A1 & A2 & A3); cbn [hrd_values]; saves_steps.
  do 2 (eapply saves_bind; [apply uev_plus_1_saves|intros ? _]; eapply saves_bind; [apply set_at_saves|intros ? ?]).
  saves_step. eapply saves_bind; [apply set_at_saves|intros ? ?]. apply IH. unfold arrays_ok. cbn. split_and!; congruence.
Qed.

Lemma hrd_parameters_saves h : arrays_ok h → saves ok ok (hrd_parameters h) arrays_ok.
Proof.
  intros Hh. unfold hrd_parameters. eapply saves_bind; [apply uev_plus_1_saves|intros ? _].
  do 2 saves_step. cbv zeta. saves_step; [by saves_step|].
  eapply saves_bind; [by apply hrd_values_saves|intros ? ?]. saves_steps.
Qed.

Lemma hrd_info_saves h : arrays_ok h → saves ok ok (hrd_info h) (λ x, arrays_ok x.2).
Proof.
  intros Hh. unfold hrd_info. saves_step. apply (saves_bind _ ok _ _ _ arrays_ok); [|intros ? ?; by saves_steps].
  apply saves_if_flag; [by apply hrd_parameters_saves|by apply saves_ret].
Qed.

Lemma vui_body_saves v : vui_arrays v → saves ok ok (vui_body v) vui_arrays.
Proof.
  intros [Hn Hv]. unfold vui_body, aspect_ratio_info_body, timing_info, video_signal_type, bitstream_restriction.
  saves_step. apply (saves_bind _ ok _ _ _ (λ _, True)).
  { saves_steps; destruct (default _ _); by saves_steps. }
  intros ? _. do 6 (first [saves_step; [by saves_steps|]|saves_step]).
  apply (saves_bind _ ok _ _ _ (λ _, True)); [by saves_steps|]. intros [[[timing units] scale] fixed] _.
  eapply saves_bind; [by apply hrd_info_saves|]. intros [np nal] Hnal. 
  eapply saves_bind; [by apply hrd_info_saves|]. intros [vp vcl] Hvcl.
  apply (saves_bind _ ok _ _ _ (λ _, True)); [by saves_steps|]. intros ? _.
  do 2 saves_step. saves_step; [by saves_steps|]. by saves_steps.
Qed.

Lemma discard_zeros_saves n : saves ok ok (discard_zeros n) (λ _, True).
Proof. induction n as [|n IH]; cbn [discard_zeros]; saves_steps; done. Qed.

Lemma parse_vui_saves b : saves ok ok (parse_vui b) (λ _, True).
Proof.
  unfold parse_vui. saves_step. apply (saves_bind _ ok _ _ _ (λ _, True)).
  { destruct b; [apply discard_zeros_saves|by saves_steps]. }
  intros ? _. saves_step. saves_step; [by saves_steps|].
  apply (saves_bind _ ok _ _ _ vui_arrays); [apply saves_get; by intros s [H0 H1 H2 H3]|intros v Hv].
  eapply saves_bind; [by apply vui_body_saves|]. intros v' Hv'. apply saves_put. by intros s [H0 H1 H2 H3].
Qed.

Lemma scaling_list_saves n : ∀ l k, saves ok ok (scaling_list n l k) (λ _, True).
Proof.
  induction n as [|n IH]; intros l k; cbn [scaling_list]; saves_steps.
  apply (saves_bind _ ok _ _ _ (λ _, True)); [by saves_steps|]. intros ? _. apply IH.
Qed.

Lemma scaling_matrix_saves n : ∀ i, saves ok ok (scaling_matrix n i) (λ _, True).
Proof.
  induction n as [|n IH]; intros i; cbn [scaling_matrix]; saves_steps; try apply scaling_list_saves; apply IH.
Qed.

Lemma skip_sev_saves n : ∀ k, saves ok ok (skip_sev n k) (λ _, True).
Proof. induction n as [|n IH]; intros k; cbn [skip_sev]; saves_steps; apply IH. Qed.

Lemma parse_sps_saves : saves ok ok parse_sps (λ _, True).
Proof.
  unfold parse_sps, high_profile_fields, order_count_fields. saves_step.
  apply (saves_bind _ ok _ _ _ (λ _, True)); [apply saves_put; by intros s [H0 H1 H2 H3]|intros ? _]. do 3 saves_step.
  apply (saves_bind _ ok _ _ _ (λ _, True)).
  { saves_steps. apply (saves_bind _ ok _ _ _ (λ _, True)); [by saves_steps|]. intros ? _.
    saves_steps. apply scaling_matrix_saves. }
  intros ? _. saves_step. apply (saves_bind _ ok _ _ _ (λ _, True)).
  { saves_steps. apply skip_sev_saves. }
  intros ? _. do 5 saves_step. apply (saves_bind _ ok _ _ _ (λ _, True)).
  { saves_steps. apply saves_put. by intros s [H0 H1 H2 H3]. }
  intros ? _. do 2 saves_step. saves_step; [by saves_steps|]. saves_steps. apply parse_vui_saves.
Qed.

Lemma period_delays_saves n : ∀ i len b, period_arrays b → saves ok ok (period_delays n i len b) period_arrays.
Proof.
  induction n as [|n IH]; intros i len b [A1 A2]; cbn [period_delays]; saves_steps.
  eapply saves_bind; [apply set_at_saves|intros ? ?]. saves_step.
  eapply saves_bind; [apply set_at_saves|intros ? ?]. apply IH. split; cbn; congruence.
Qed.

Lemma put_period_saves b : period_arrays b → saves ok ok (put_state (set_buf_period b)) (λ _, True).
Proof. intros Hb. apply saves_put. by intros s [H0 H1 H2 H3]. Qed.

Lemma period_hrd_saves v h b : period_arrays b →
  saves ok ok (period_hrd v h b) (λ o, ∀ b', o = Some b' → period_arrays b').
Proof.
  intros Hb. unfold period_hrd. saves_steps; [|by intros ? [= <-]].
  eapply saves_bind; [by apply period_delays_saves|]. intros b' Hb'.
  eapply saves_bind; [by apply put_period_saves|intros ? _]. apply saves_ret. by intros ? [= <-].
Qed.

Lemma sei_buffering_period_saves : saves ok ok sei_buffering_period (λ _, True).
Proof.
  unfold sei_buffering_period. saves_steps.
  apply (saves_bind _ ok _ _ _ period_arrays); [apply saves_get; by intros s [H0 H1 H2 H3]|]. intros b [A1 A2].
  apply (saves_bind _ ok _ _ _ (λ _, True)); [by apply saves_get|intros v _].
  eapply saves_bind; [by apply put_period_saves|intros ? _].
  eapply saves_bind; [by apply period_hrd_saves|]. intros [b1|] H1; [|by saves_steps].
  eapply saves_bind; [apply period_hrd_saves; by apply H1|]. intros [b2|] H2; [|by saves_steps].
  destruct (H2 b2 eq_refl). by apply put_period_saves.
Qed.

Lemma clock_timestamps_saves n : ∀ len t, saves ok ok (clock_timestamps n len t) (λ _, True).
Proof.
  induction n as [|n IH]; intros len t; cbn [clock_timestamps]; unfold clock_fields; saves_steps.
  apply (saves_bind _ ok _ _ _ (λ _, True)); [|intros ? _; apply IH]. saves_steps.
  apply (saves_bind _ ok _ _ _ (λ _, True)); [by saves_steps|]. intros [[s m] h] _.
  apply (saves_bind _ ok _ _ _ (λ _, True)); [by saves_steps|]. intros ? _. by saves_steps.
Qed.

Lemma sei_picture_timing_saves : saves ok ok sei_picture_timing (λ _, True).
Proof.
  unfold sei_picture_timing. apply (saves_bind _ ok _ _ _ (λ _, True)); [by apply saves_get|intros v _].
  destruct (if negb _ then _ else _) as [[rl dl] tl]. do 2 saves_step.
  apply (saves_bind _ ok _ _ _ (λ _, True)); [by apply saves_get|intros t _]. cbv zeta.
  apply (saves_bind _ ok _ _ _ (λ _, True)); [saves_steps; apply clock_timestamps_saves|]. intros t' _.
  apply saves_put. by intros s [H0 H1 H2 H3].
Qed.

Lemma parse_frame_pack_saves : saves ok ok parse_frame_pack (λ _, True).
Proof.
  unfold parse_frame_pack. apply (saves_bind _ ok _ _ _ (λ _, True)); [by apply saves_get|intros f _].
  do 2 saves_step. apply (saves_bind _ ok _ _ _ (λ _, True)).
  { saves_steps. apply (saves_bind _ ok _ _ _ (λ _, True)); [by saves_steps|].
    intros [[[x0 y0] x1] y1] _. by saves_steps. }
  intros f' _. saves_step. apply saves_put. by intros s [H0 H1 H2 H3].
Qed.

Lemma sei_number_saves n : ∀ x t, saves ok ok (sei_number n x t) (λ _, True).
Proof. induction n as [|n IH]; intros x t; cbn [sei_number]; saves_steps; apply IH. Qed.

Lemma init_bitstream_saves d R' : (∀ en, R' (new_reader en d)) →
  saves ok (parser_shape R' P) (init_bitstream d) (λ _, True).
Proof. intros Hd. apply saves_put. intros s [H0 H1 H2 H3]. split; [apply Hd|done..]. Qed.

Lemma find_start_code_saves n : ∀ v c, saves ok ok (find_start_code n v c) (λ _, True).
Proof. induction n as [|n IH]; intros v c; cbn [find_start_code]; saves_steps; apply IH. Qed.

Lemma get_nal_unit_type_saves : saves ok ok get_nal_unit_type (λ _, True).
Proof.
  unfold get_nal_unit_type. do 2 saves_step. eapply saves_bind; [apply find_start_code_saves|].
  intros [v c] _. by saves_steps.
Qed.
End Parsers.

(** ** The pan-scan lists *)
Lemma remove_last_snoc {A} (l : list A) x : remove_last (l ++ [x]) = Some (x, l).
Proof. induction l as [|y l IH]; [done|]. cbn [app remove_last]. by rewrite IH. Qed.

Lemma remove_last_some {A} (l l' : list A) x : remove_last l = Some (x, l') → l = l' ++ [x].
Proof.
  destruct l as [|y l _] using rev_ind; [done|]. rewrite remove_last_snoc. by intros [= -> ->].
Qed.

Lemma remove_last_none {A} (l : list A) : remove_last l = None → l = [].
Proof. destruct l as [|y l _] using rev_ind; [done|]. by rewrite remove_last_snoc. Qed.

Definition done_but_last (l : list PANSCAN_NODE) : Prop := ∀ before n, l = before ++ [n] → Forall node_done before.

Lemma done_nil : done_but_last [].
Proof. intros [|? ?] n E; discriminate E. Qed.

Lemma done_snoc l n : done_but_last (l ++ [n]) ↔ Forall node_done l.
Proof.
  split; [intros H; by eapply H|]. intros H before m E. by apply app_inj_tail in E as [<- _].
Qed.

Lemma done_cons n l : done_but_last (n :: l) ↔ (l ≠ [] → node_done n) ∧ done_but_last l.
Proof.
  destruct l as [|x l _] using rev_ind.
  - split; [intros _; by split; [|apply done_nil]|]. intros _. by apply (done_snoc [] n).
  - change (n :: l ++ [x]) with ((n :: l) ++ [x]). rewrite !done_snoc, Forall_cons.
    split; intros [H1 H2]; split; try done. apply H1. by destruct l.
Qed.

Lemma pan_ok_intro total used free :
  (length used + length free)%nat = total → Forall (λ n, rect_arrays (pan_scan_param n)) (used ++ free) →
  done_but_last used → Forall (λ n, rect_shown (pan_scan_param n)) used → pan_ok total (PanHandler used free).
Proof. by repeat split. Qed.

Lemma not_shown p : rect_shown (no_pan_scan p).
Proof. done. Qed.

Lemma get_free_ok total h : pan_ok total h → pan_ok total (get_free h).2.
Proof.
  destruct h as [used free]. intros [[Ht Ha Hd] Hs]. cbn [panscan_used panscan_free] in *.
  assert (∀ n, rect_arrays (pan_scan_param n) → rect_arrays (no_pan_scan (pan_scan_param n))) as Hno by done.
  rewrite Forall_app in Ha. destruct Ha as [Hu Hf].
  assert (∀ f free', free = f :: free' → Forall node_done used →
    pan_ok total (PanHandler (used ++ [PanNode (no_pan_scan (pan_scan_param f)) LLONG_MAX LLONG_MAX false]) free')) as Htake.
  { intros f free' -> Hdone. apply Forall_cons in Hf as [Hf1 Hf2]. apply pan_ok_intro.
    - rewrite length_app. cbn in *. lia.
    - rewrite !Forall_app, Forall_singleton. split_and!; [done| |done]. by apply Hno.
    - by apply done_snoc.
    - apply Forall_app. by rewrite Forall_singleton. }
  unfold get_free. cbn [panscan_used panscan_free].
  destruct (remove_last used) as [[n before]|] eqn:E.
  - apply remove_last_some in E as ->. apply Forall_app in Hs as [Hs1 Hs2]. apply Forall_app in Hu as [Hu1 Hu2].
    rewrite Forall_singleton in Hs2, Hu2. pose proof (Hd before n eq_refl) as Hb.
    destruct (VALID_TS (start_ts n)) eqn:Ev.
    + destruct free as [|f free']; cbn [snd].
      * by apply pan_ok_intro; rewrite ?Forall_app, ?Forall_singleton.
      * apply (Htake f free'); [done|]. apply Forall_app. rewrite Forall_singleton. by split; [|split].
    + cbn [snd]. apply pan_ok_intro.
      * rewrite length_app in *. cbn in *. lia.
      * rewrite !Forall_app, Forall_singleton. split_and!; [done| |done]. by apply Hno.
      * by apply done_snoc.
      * apply Forall_app. by rewrite Forall_singleton.
  - apply remove_last_none in E as ->. destruct free as [|f free']; cbn [snd].
    + apply pan_ok_intro; [done..|apply done_nil|done].
    + apply (Htake f free'); [done|]. done.
Qed.

(** A write to the last node; [S]: what is known of its data after it. *)
Definition last_is (S : h264_pan_scan → Prop) (h : panscan_handler) : Prop :=
  ∀ before n, panscan_used h = before ++ [n] → S (pan_scan_param n).

Lemma write_last_shape total f (R S : h264_pan_scan → Prop) h :
  (∀ p, rect_arrays p → rect_arrays (f p)) → (∀ p, R p → S (f p)) → pan_shape total h → last_is R h →
  pan_shape total (write_last f h).2 ∧ last_is S (write_last f h).2.
Proof.
  intros Hf HS [Ht Ha Hd] HR. destruct h as [used free]. unfold write_last, last_is in *. cbn [panscan_used panscan_free] in *.
  destruct (remove_last used) as [[n before]|] eqn:E; cbn [snd].
  - apply remove_last_some in E as ->. rewrite !Forall_app, Forall_singleton in Ha. destruct Ha as [[Ha1 Ha2] Ha3].
    split; [split|]; cbn [panscan_used panscan_free].
    + rewrite length_app in *. done.
    + rewrite !Forall_app, Forall_singleton. split_and!; [done| |done]. by apply Hf.
    + intros b m Eb. apply app_inj_tail in Eb as [<- _]. by eapply Hd.
    + intros b m Eb. apply app_inj_tail in Eb as [_ <-]. apply HS. by eapply HR.
  - apply remove_last_none in E as ->. split; [by split|]. intros [|? ?] m Em; discriminate Em.
Qed.

Lemma last_shown total h : pan_shape total h → last_is rect_shown h → pan_ok total h.
Proof.
  intros Hh Hl. split; [done|]. destruct h as [used free]. destruct Hh as [_ _ Hd]. unfold last_is in Hl. cbn in *.
  destruct used as [|n before _] using rev_ind; [done|]. apply Forall_app. rewrite Forall_singleton.
  split; [|by eapply Hl]. apply Forall_impl with node_done; [by eapply Hd|]. by intros m [_ Hm].
Qed.

Lemma pan_ok_last total h : pan_ok total h → pan_shape total h ∧ last_is rect_shown h.
Proof.
  intros [Hh Hs]. split; [done|]. intros before n E. rewrite E in Hs. apply Forall_app in Hs as [_ Hs].
  by rewrite Forall_singleton in Hs.
Qed.

(** The search. *)
Lemma find_populated_ok ts used : ∀ free,
  Forall (λ n, rect_arrays (pan_scan_param n)) (used ++ free) → done_but_last used →
  Forall (λ n, rect_shown (pan_scan_param n)) used →
  let '(_, used', free') := find_populated ts used free in
  pan_ok (length used + length free) (PanHandler used' free').
Proof.
  induction used as [|n used IH]; intros free Ha Hd Hs; cbn [find_populated].
  { by apply pan_ok_intro. }
  cbn [app] in Ha. apply Forall_cons in Ha as [Hn Ha], Hs as [Hns Hs]. apply done_cons in Hd as [Hnd Hd].
  assert (∀ start e act, (timed n → (start <? LLONG_MAX) = true) →
    pan_ok (length (n :: used) + length free) (PanHandler (PanNode (pan_scan_param n) start e act :: used) free)) as Hkeep.
  { intros start e act Hst. apply pan_ok_intro; [done|by apply Forall_cons| |by apply Forall_cons].
    apply done_cons. split; [|done]. intros Hne. destruct (Hnd Hne) as [Hv Hsh]. split; [|done]. by apply Hst. }
  destruct (VALID_TS (start_ts n)) eqn:Ev.
  2:{ apply Hkeep. unfold timed. by rewrite Ev. }
  set (start := if _ && _ then _ else _).
  assert ((start <? LLONG_MAX) = true) as Hst.
  { unfold VALID_TS in Ev. subst start. destruct (pan_active n); cbn [andb]; [|done].
    destruct (Z.ltb_spec ts (start_ts n)); [|done]. apply Z.ltb_lt in Ev. apply Z.ltb_lt. lia. }
  destruct (start <=? ts); [|by apply Hkeep]. destruct (ts <? end_ts n); [by apply Hkeep|].
  specialize (IH (free ++ [PanNode (pan_scan_param n) start (end_ts n) (pan_active n)])).
  destruct (find_populated ts used _) as [[b used'] free']. 
  replace (length (n :: used) + length free)%nat with
    (length used + length (free ++ [PanNode (pan_scan_param n) start (end_ts n) (pan_active n)]))%nat
    by (rewrite length_app; cbn; lia).
  apply IH; [|done|done]. rewrite app_assoc, Forall_app, Forall_singleton. done.
Qed.

Lemma get_populated_ok total ts h : pan_ok total h →
  pan_ok total (get_populated ts h).2 ∧ ∀ p, (get_populated ts h).1 = Some p → rect_arrays p ∧ rect_shown p.
Proof.
  destruct h as [used free]. intros [[Ht Ha Hd] Hs]. cbn [panscan_used panscan_free] in *. unfold get_populated.
  pose proof (find_populated_ok ts used free Ha Hd Hs) as Hf. cbn [panscan_used panscan_free].
  destruct (find_populated ts used free) as [[b used'] free']. rewrite Ht in Hf.
  destruct b; [|by split]. destruct used' as [|n used']; [by split|].
  destruct Hf as [[Ht' Ha' Hd'] Hs']. cbn [panscan_used panscan_free app] in *.
  apply Forall_cons in Ha' as [Hn Ha'], Hs' as [Hns Hs']. apply done_cons in Hd' as [Hnd Hd'].
  apply Forall_app in Ha' as [Ha1 Ha2].
  destruct (_ =? 0); [|destruct (1 <? _)]; cbn [fst snd]; (split; [|intros p [= <-]; done]); apply pan_ok_intro;
    cbn [length app] in *; rewrite ?length_app, ?Forall_cons, ?Forall_app, ?Forall_singleton; cbn [length]; try done; try lia.
  - apply done_cons. by split.
  - apply done_cons. by split.
Qed.

Lemma update_last_ok total ts h : pan_ok total h → pan_ok total (update_last ts h).
Proof.
  destruct h as [used free]. intros [[Ht Ha Hd] Hs]. cbn [panscan_used panscan_free] in *. unfold update_last.
  cbn [panscan_used panscan_free]. destruct (remove_last used) as [[n before]|] eqn:E; [|by split].
  destruct (VALID_TS (start_ts n)); [by split|]. apply remove_last_some in E as ->.
  specialize (Hd before n eq_refl). rewrite !Forall_app, Forall_singleton in *. destruct Ha as [[Ha1 Ha2] Ha3], Hs as [Hs1 Hs2].
  destruct (remove_last before) as [[p others]|] eqn:E2.
  - apply remove_last_some in E2 as ->. rewrite !Forall_app, !Forall_singleton in *.
    destruct Hd as [Hd1 Hd2], Ha1 as [Ha11 Ha12], Hs1 as [Hs11 Hs12].
    set (p' := if ts <? end_ts p then _ else _).
    assert (rect_arrays (pan_scan_param p') ∧ rect_shown (pan_scan_param p') ∧ node_done p') as (P1 & P2 & P3).
    { subst p'. destruct (ts <? end_ts p); [done|]. by destruct (VALID_TS ts). }
    apply pan_ok_intro; rewrite ?length_app in *; cbn [length] in *; [lia| | |]; rewrite ?done_snoc, ?Forall_app, ?Forall_singleton; done.
  - apply remove_last_none in E2 as ->. apply pan_ok_intro; cbn in *; [done|by apply Forall_cons|by apply (done_snoc [])|by apply Forall_singleton].
Qed.

Lemma clear_first_ok total h : pan_ok total h → pan_ok total (clear_first h).2.
Proof.
  destruct h as [used free]. intros [[Ht Ha Hd] Hs]. unfold clear_first. cbn [panscan_used panscan_free] in *.
  destruct used as [|n used]; [by split|]. cbn [snd]. cbn [app] in Ha.
  apply Forall_cons in Ha as [Hn Ha], Hs as [Hns Hs]. apply done_cons in Hd as [Hnd Hd].
  apply pan_ok_intro; [done|by apply Forall_cons|by apply done_cons|by apply Forall_cons].
Qed.

(** ** The entries *)
Lemma saves_panscan {A} R0 (P R : panscan_handler → Prop) (f : panscan_handler → A * panscan_handler) (Q : A → Prop) :
  (∀ h, P h → R (f h).2 ∧ Q (f h).1) → saves (parser_shape R0 P) (parser_shape R0 R) (on_panscan f) Q.
Proof.
  intros Hf s a s' E [H0 H1 H2 H3]. unfold on_panscan in E. destruct (panscan_hdl s) as [h|] eqn:Eh; [|done].
  specialize (Hf h (H3 h eq_refl)). destruct (f h) as [x h']. simplify_eq. destruct Hf as [HR HQ].
  split; [|done]. split; [done..|]. by intros h0 [= <-].
Qed.

Section Entries.
Context (R : bit_reader → Prop) (total : nat) (HR : reader_kept R).
Local Abbreviation ok := (parser_shape R (pan_ok total)).
Local Abbreviation open S := (parser_shape R (λ h, pan_shape total h ∧ last_is S h)).

Lemma write_pan_saves f (S0 S : h264_pan_scan → Prop) : (∀ p, rect_arrays p → rect_arrays (f p)) →
  (∀ p, S0 p → S (f p)) → saves (open S0) (open S) (write_pan f) (λ _, True).
Proof. intros Hf HS. apply saves_panscan. intros h [Hh Hl]. split; [|done]. by eapply write_last_shape. Qed.

(** Whatever the data is, it is shown as it should be after this write. *)
Lemma write_end_saves f : (∀ p, rect_arrays p → rect_arrays (f p)) → (∀ p, rect_shown (f p)) →
  saves (open (λ _, True)) ok (write_pan f) (λ _, True).
Proof.
  intros Hf HS. apply saves_panscan. intros h [Hh Hl]. split; [|done].
  destruct (write_last_shape total f (λ _, True) rect_shown h Hf ltac:(by intros) Hh Hl). by apply last_shown.
Qed.

Lemma write_keeps_saves f : (∀ p, rect_arrays p → rect_arrays (f p)) → (∀ p, rect_shown p → rect_shown (f p)) →
  saves ok ok (write_pan f) (λ _, True).
Proof.
  intros Hf HS. apply saves_panscan. intros h [Hh Hl]%pan_ok_last. split; [|done].
  destruct (write_last_shape total f rect_shown rect_shown h Hf HS Hh Hl). by apply last_shown.
Qed.

Lemma write_any_saves f : (∀ p, rect_arrays p → rect_arrays (f p)) →
  saves (open (λ _, True)) (open (λ _, True)) (write_pan f) (λ _, True).
Proof. intros Hf. by apply write_pan_saves. Qed.

Lemma set_rect_arrays i l r t b p : rect_arrays p → rect_arrays (set_rect i l r t b p).
Proof. unfold rect_arrays. cbn. by rewrite !length_insert. Qed.

Lemma pan_rects_saves n : ∀ i, saves ok ok (pan_rects n i) (λ _, True).
Proof.
  induction n as [|n IH]; intros i; cbn [pan_rects]; saves_steps.
  eapply saves_bind; [apply write_keeps_saves; [apply set_rect_arrays|done]|]. intros ? _. apply IH.
Qed.

Lemma hide_saves : saves (open (λ _, True)) ok (write_pan (set_rect_id NO_PAN_SCAN_BIT)) (λ _, True).
Proof. by apply write_end_saves. Qed.

Lemma open_of_ok A (p : hp A) Q : saves (open (λ _, True)) ok p Q → saves ok ok p Q.
Proof.
  intros Hp s a s' E [H0 H1 H2 H3]. apply (Hp s a s' E). split; [done..|].
  intros h Hh. destruct (pan_ok_last _ _ (H3 h Hh)). by split.
Qed.

Lemma sei_pan_scan_saves : saves ok ok sei_pan_scan (λ _, True).
Proof.
  unfold sei_pan_scan. eapply saves_bind.
  { apply (saves_panscan _ _ (pan_ok total) _ (λ _, True)). intros h Hh. split; [by apply get_free_ok|done]. }
  intros found _. saves_step; [by saves_steps|]. apply open_of_ok. saves_step.
  eapply saves_bind; [by apply write_any_saves|intros ? _]. saves_step; [apply hide_saves|]. saves_step.
  eapply saves_bind; [by apply write_any_saves|intros ? _]. saves_step; [apply hide_saves|].
  eapply (saves_bind _ _ _ _ _ (λ c, 0 ≤ c)).
  { unfold uev_plus_1. saves_step. apply saves_ret. by apply wrap_unsigned_range. }
  intros c Hc. eapply (saves_bind _ (if MAX_PAN_SCAN_RECT <? c then open (λ _, True) else ok)).
  { destruct (Z.ltb_spec MAX_PAN_SCAN_RECT c); [by apply write_any_saves|].
    apply write_end_saves; [done|]. intros p _. cbn. unfold MAX_PAN_SCAN_RECT in *. lia. }
  intros ? _. destruct (MAX_PAN_SCAN_RECT <? c); [apply hide_saves|].
  eapply saves_bind; [apply pan_rects_saves|intros ? _]. saves_step. by apply write_keeps_saves.
Qed.

Lemma sei_payload_saves k n : saves ok ok (sei_payload k n) (λ _, True).
Proof.
  unfold sei_payload. saves_steps; eauto using sei_buffering_period_saves, sei_picture_timing_saves, sei_pan_scan_saves,
    parse_frame_pack_saves.
Qed.

Lemma sei_messages_saves n unit : (∀ en k, R (new_reader en (drop k unit))) →
  ∀ processed, saves ok ok (sei_messages n unit processed) (λ _, True).
Proof.
  intros Hu. induction n as [|n IH]; intros processed; cbn [sei_messages]; saves_steps.
  eapply saves_bind; [apply (init_bitstream_saves R _ _ R); intros en; apply Hu|intros ? _]. saves_step.
  eapply saves_bind; [by apply sei_number_saves|intros [k t1] _]. saves_step.
  eapply saves_bind; [by apply sei_number_saves|intros [m t2] _].
  eapply saves_bind; [apply sei_payload_saves|intros ? _].
  apply (saves_bind _ ok _ _ _ (λ _, True)); [by apply saves_get|intros ? _]. apply IH.
Qed.

Lemma process_ts_saves ts : saves ok ok (process_ts_with_sei_vui ts) (λ _, True).
Proof.
  unfold process_ts_with_sei_vui. apply (saves_bind _ ok _ _ _ vui_arrays); [apply saves_get; by intros s [H0 H1 H2 H3]|intros v Hv].
  apply (saves_bind _ ok _ _ _ (λ _, True)); [by apply saves_get|intros t _].
  apply (saves_bind _ ok _ _ _ period_arrays); [apply saves_get; by intros s [H0 H1 H2 H3]|intros b Hb].
  cbv zeta. apply (saves_bind _ ok _ _ _ (λ _, True)).
  { saves_step; [by saves_steps|]. saves_step; [by apply saves_check|]. saves_step.
    - unfold calculate_fixed_fps_ts. apply (saves_bind _ ok _ _ _ vui_arrays); [apply saves_get; by intros s [H0 H1 H2 H3]|intros v' Hv'].
      apply (saves_bind _ ok _ _ _ (λ _, True)); [saves_steps; by apply saves_check|intros ts' _].
      apply (saves_bind _ ok _ _ _ (λ _, True)); [apply saves_put; by intros s [H0 H1 H2 H3]|intros ? _]. by saves_steps.
    - saves_step; [|by saves_steps]. unfold calculate_buf_period_ts.
      apply (saves_bind _ ok _ _ _ period_arrays); [apply saves_get; by intros s [H0 H1 H2 H3]|intros b' [A1 A2]].
      apply (saves_bind _ ok _ _ _ (λ _, True)); [by apply saves_get|intros t' _].
      apply (saves_bind _ ok _ _ _ (λ _, True)); [by apply saves_get|intros v' _].
      apply (saves_bind _ ok _ _ _ (λ _, True)).
      { saves_steps. apply (saves_bind _ ok _ _ _ (λ _, True)); [by apply saves_check|intros ? _]. by saves_steps. }
      intros [c r] _. eapply saves_bind; [by apply put_period_saves|intros ? _]. by saves_steps. }
  intros c _. apply (saves_bind _ ok _ _ _ (λ _, True)); [by apply saves_get|intros ? _].
  apply (saves_bind _ ok _ _ _ (λ _, True)); [apply saves_put; by intros s [H0 H1 H2 H3]|intros ? _]. by saves_steps.
Qed.

Lemma fill_pan_scan_saves ts : saves ok ok (fill_pan_scan_data ts) (λ _, True).
Proof.
  unfold fill_pan_scan_data. eapply saves_bind.
  { apply (saves_panscan _ _ (pan_ok total) _ (λ _, True)). intros h Hh. split; [by apply get_populated_ok|done]. }
  intros [p|] _; [|by saves_steps]. saves_step.
  - saves_step; [|by saves_steps].
    apply (saves_panscan _ _ (pan_ok total) _ (λ _, True)). intros h Hh. split; [by apply clear_first_ok|done].
  - apply (saves_bind _ ok _ _ _ (λ _, True)); [by apply saves_check|intros ? _]. by saves_steps.
Qed.

Lemma update_panscan_saves ts : saves ok ok (update_panscan_data ts) (λ _, True).
Proof. apply saves_panscan. intros h Hh. split; [by apply update_last_ok|done]. Qed.
End Entries.

Lemma parse_nal_saves total data kind en : saves (parser_ok total) (parser_ok total) (parse_nal data kind en) (λ _, True).
Proof.
  pose (R := λ _ : bit_reader, True). assert (HR : reader_kept R) by done. change (parser_ok total) with (parser_shape R (pan_ok total)).
  unfold parse_nal. saves_step; [by saves_steps|].
  eapply saves_bind; [by apply (init_bitstream_saves R _ _ R)|intros ? _].
  apply (saves_bind _ (parser_shape R (pan_ok total)) _ _ _ (λ _, True)); [apply saves_put; by intros s [H0 H1 H2 H3]|intros ? _].
  apply (saves_bind _ (parser_shape R (pan_ok total)) _ _ _ (λ _, True)).
  { destruct (kind =? NALU_TYPE_VUI); [by saves_steps|by apply get_nal_unit_type_saves]. }
  intros [k c] _. saves_step; [by saves_steps|]. saves_step.
  { saves_step. apply (saves_bind _ (parser_shape R (pan_ok total)) _ _ _ (λ _, True)).
    { saves_steps. by apply parse_sps_saves. }
    intros ? _. eapply saves_bind; [|intros ? _; by saves_steps].
    apply (saves_panscan _ _ (pan_ok total) _ (λ _, True)). intros h Hh. split; [by apply get_free_ok|done]. }
  saves_step.
  { eapply saves_bind; [by apply (init_bitstream_saves R _ _ R)|intros ? _].
    apply (saves_bind _ (parser_shape R (pan_ok total)) _ _ _ (λ _, True)); [by apply saves_get|intros ? _].
    by apply sei_messages_saves. }
  saves_steps. by apply parse_vui_saves.
Qed.

(** ** Properties *)
(** The calls of the component. *)
Inductive entry :=
  | Reset
  | ParseNal (data : list Z) (nal_type : Z) (enable_emu_sc : bool)
  | ProcessTs (timestamp : Z)
  | UpdatePanscan (timestamp : Z)
  | FillPanScan (timestamp : Z).

Definition run_entry (e : entry) (s : h264_stream_parser) : option h264_stream_parser :=
  match e with
  | Reset => Some (reset s)
  | ParseNal data nal_type en => snd <$> parse_nal data nal_type en s
  | ProcessTs ts => snd <$> process_ts_with_sei_vui ts s
  | UpdatePanscan ts => snd <$> update_panscan_data ts s
  | FillPanScan ts => snd <$> fill_pan_scan_data ts s
  end.

Fixpoint run_entries (es : list entry) (s : h264_stream_parser) : option h264_stream_parser :=
  match es with [] => Some s | e :: es => s ← run_entry e s; run_entries es s end.

Lemma saves_run {A} I (p : hp A) s s' : saves I I p (λ _, True) → snd <$> p s = Some s' → I s → I s'.
Proof. intros Hp E HI. apply fmap_Some in E as ([a s1] & E & ->). by destruct (Hp s a s1 E HI). Qed.

Lemma run_entry_ok total e s s' : run_entry e s = Some s' → parser_ok total s → parser_ok total s'.
Proof.
  destruct e; cbn [run_entry].
  - intros [= <-] [H1 H2 H3]. done.
  - apply saves_run, parse_nal_saves.
  - apply saves_run, process_ts_saves.
  - apply saves_run, update_panscan_saves.
  - apply saves_run, fill_pan_scan_saves.
Qed.

Lemma run_entries_ok total es : ∀ s s', parser_ok total s → run_entries es s = Some s' → parser_ok total s'.
Proof.
  induction es as [|e es IH]; intros s s' Hs E; cbn [run_entries] in E; [by injection E as <-|].
  apply bind_Some in E as (s1 & E1 & E). eapply IH; [|done]. by eapply run_entry_ok.
Qed.

(** C30: The state of the H.264 parser stays well formed under every sequence
    of calls that has no undefined behaviour: the arrays of the HRD and of the
    buffering period keep 32 entries and those of the rectangles 3, no pan-
    scan node is lost, every node that was followed by another has a start,
    and one that is not marked as empty has at most 3 rectangles. *)
Theorem parser_state_typed total es s s' :
  parser_ok total s → run_entries es s = Some s' → parser_ok total s'.
Proof.
  apply run_entries_ok.
Qed.

Lemma window_some p i : rect_arrays p → (i < 3)%nat → is_Some (window_at p i).
Proof.
  intros (H1 & H2 & H3 & H4) Hi. unfold window_at.
  destruct (lookup_lt_is_Some_2 (rect_left_offset p) i) as (l & ->); [lia|].
  destruct (lookup_lt_is_Some_2 (rect_top_offset p) i) as (t & ->); [lia|].
  destruct (lookup_lt_is_Some_2 (rect_right_offset p) i) as (r & ->); [lia|].
  destruct (lookup_lt_is_Some_2 (rect_bottom_offset p) i) as (b & ->); [lia|]. by eexists.
Qed.

(** After any calls, filling in the pan-scan data reads the rectangles
    inside their arrays and writes at most 3 windows, of the 4 there are. *)
Theorem fill_pan_scan_in_range total es s s' ts :
  parser_ok total s → run_entries es s = Some s' → is_Some (panscan_hdl s') →
  ∃ o s'', fill_pan_scan_data ts s' = Some (o, s'') ∧ ∀ ws, o = Some ws → (length ws ≤ 3)%nat.
Proof.
  intros Hs Hrun [h Hh]. pose proof (run_entries_ok total es s s' Hs Hrun) as [_ _ _ Hpan].
  destruct (get_populated_ok total ts h (Hpan h Hh)) as [_ Hp].
  unfold fill_pan_scan_data, mbind, parse_bind, on_panscan. rewrite Hh.
  destruct (get_populated ts h) as [[p|] h'] eqn:E; cbn [option_bind fst snd] in *.
  2:{ do 2 eexists. split; [reflexivity|done]. }
  destruct (Hp p eq_refl) as [Harr Hshown]. cbn [mbind option_bind]. destruct (Z.land (rect_id p) NO_PAN_SCAN_BIT =? 0) eqn:El; cbn [negb].
  2:{ unfold skip_if, if_flag. destruct (rect_repetition_period p =? 0); cbn [mbind option_bind mret parse_ret]; [do 2 eexists; split; [reflexivity|done]|].
      cbn [panscan_hdl set_panscan]. destruct (clear_first h') as [x h2]. do 2 eexists. split; [reflexivity|done]. }
  apply Z.eqb_eq in El. specialize (Hshown El).
  assert (is_Some (mapM (window_at p) (seq 0 (Z.to_nat (rect_cnt p))))) as [ws Ews].
  { apply mapM_is_Some, Forall_forall. intros i Hi%elem_of_seq. apply window_some; [done|lia]. }
  unfold check, mbind. rewrite Ews. cbn. do 2 eexists. split; [done|]. intros ws' [= <-].
  apply length_mapM in Ews. rewrite length_seq in Ews. lia.
Qed.

(** Two rectangles, of which the first is for all pictures until the next. *)
Definition pan_unit : list Z := [0; 0; 1; 6; 2; 3; 33; 127; 168; 128].
Definition blank_node : PANSCAN_NODE := PanNode (PanScan 7 0 99 (zeros 3) (zeros 3) (zeros 3) (zeros 3) 0) 0 0 false.
Definition start_parser : h264_stream_parser :=
  reset (Parser (Reader 0 0 0 0 true []) 0 no_vui no_period no_timing (Some (PanHandler [] [blank_node; blank_node]))
    no_frame_pack 0).
Definition pan_entries : list entry :=
  [ParseNal pan_unit NALU_TYPE_SEI true; UpdatePanscan 100; ParseNal pan_unit NALU_TYPE_SEI true; FillPanScan 120;
   UpdatePanscan 200].

Lemma start_parser_ok : parser_ok 2 start_parser.
Proof.
  split; [done..|]. intros h [= <-]. apply pan_ok_intro; [done| |apply done_nil|done].
  repeat (apply Forall_cons; split); done.
Qed.

Lemma parser_state_typed_witness :
  ∃ s, run_entries pan_entries start_parser = Some s ∧ parser_ok 2 s ∧
    (λ h, (start_ts <$> panscan_used h, length (panscan_free h))) <$> panscan_hdl s = Some ([100; 200], 0%nat).
Proof.
  destruct (run_entries pan_entries start_parser) as [s|] eqn:E; [|vm_compute in E; discriminate E].
  exists s. split; [done|]. split; [exact (parser_state_typed 2 pan_entries start_parser s start_parser_ok E)|].
  vm_compute in E. injection E as <-. vm_compute. reflexivity.
Defined.

Lemma fill_pan_scan_in_range_witness :
  ∃ s, run_entries pan_entries start_parser = Some s ∧
    ∃ o s', fill_pan_scan_data 150 s = Some (o, s') ∧ (∀ ws, o = Some ws → (length ws ≤ 3)%nat) ∧ length <$> o = Some 2%nat.
Proof.
  destruct (run_entries pan_entries start_parser) as [s|] eqn:E; [|vm_compute in E; discriminate E].
  exists s. split; [done|].
  destruct (fill_pan_scan_in_range 2 pan_entries start_parser s 150 start_parser_ok E) as (o & s' & E2 & H).
  { vm_compute in E. injection E as <-. vm_compute. eauto. }
  exists o, s'. split; [done|]. split; [done|].
  vm_compute in E. injection E as <-. vm_compute in E2. injection E2 as <- _. reflexivity.
Defined.
