(* ===== verification/H264Props.v ===== *)
(** * H.264 parsers: theorems

    What a writer of the syntax puts into a NAL unit is what the parser of
    [H264Parser] reads from it.  A piece of syntax is a list of tokens, each
    with its bits; the token of a 32-bit number must not begin at a word of
    the reader, and a code must not have more than 30 leading zeros
    ([placed]). *)
From S2P Require Import Prelude Doubles H264Bits H264Parser H264State.
Local Open Scope Z_scope.

(** ** Sequences of syntax elements *)
Inductive element :=
  | U (n v : Z)
  | UE (v : Z)
  | SE (v : Z).

Definition element_ok (e : element) : Prop :=
  match e with
  | U n v => 1 ≤ n < 32 ∧ 0 ≤ v < 2 ^ n
  | UE v => 0 ≤ v < 2 ^ 31 - 1
  | SE v => - 2 ^ 30 < v < 2 ^ 30
  end.

Definition element_bits (e : element) : list bool :=
  match e with U n v => bits_of (Z.to_nat n) v | UE v => ue_bits v | SE v => se_bits v end.
Definition element_value (e : element) : Z := match e with U _ v | UE v | SE v => v end.

Definition read_element (e : element) : parse bit_reader Z :=
  match e with U n _ => extract_bits n | UE _ => uev | SE _ => sev end.

Fixpoint read_elements (es : list element) : parse bit_reader (list Z) :=
  match es with
  | [] => mret []
  | e :: es => v ← read_element e; vs ← read_elements es; mret (v :: vs)
  end.

Lemma read_element_holds total e rest r : element_ok e → holds total r (element_bits e ++ rest) →
  ∃ r', read_element e r = Some (element_value e, r') ∧ holds total r' rest.
Proof.
  destruct e as [n v|v|v]; intros He Hh; [|by eapply uev_code|by eapply sev_code].
  destruct He as [Hn Hv]. destruct (extract_some total r (bits_of (Z.to_nat n) v) rest n Hh) as (r' & E & Hh').
  { rewrite length_bits_of. lia. } { done. }
  exists r'. rewrite value_bits_small in E; [done|]. by rewrite Z2Nat.id by lia.
Qed.

Lemma read_elements_holds total es : ∀ rest r, Forall element_ok es →
  holds total r (mjoin (element_bits <$> es) ++ rest) →
  ∃ r', read_elements es r = Some (element_value <$> es, r') ∧ holds total r' rest.
Proof.
  induction es as [|e es IH]; intros rest r Hes Hh; [by exists r|].
  apply Forall_cons in Hes as [He Hes]. rewrite fmap_cons in Hh. cbn [mjoin list_join] in Hh.
  rewrite <- app_assoc in Hh. destruct (read_element_holds _ _ _ _ He Hh) as (r1 & E1 & H1).
  destruct (IH rest r1 Hes H1) as (r2 & E2 & H2). exists r2. split; [|done].
  cbn [read_elements]. unfold mbind, parse_bind. rewrite E1. cbn. by rewrite E2.
Qed.

(** Fixed-width numbers of 1 to 31 bits and unsigned and signed
    Exp-Golomb codes, written one after the other, filled up to bytes and
    escaped with emulation prevention bytes, are read back as the same
    numbers, wherever the words of the reader begin. *)
Theorem elements_roundtrip es payload padding :
  Forall element_ok es → Forall is_byte payload →
  bits_of_bytes payload = mjoin (element_bits <$> es) ++ padding →
  fst <$> read_elements es (new_reader true (escape 0 payload)) = Some (element_value <$> es).
Proof.
  intros Hes Hp Hb. assert (Forall is_byte (escape 0 payload)) as He by (by apply escape_bytes).
  pose proof (new_reader_holds true _ He) as Hh. cbv zeta in Hh. rewrite unescape_escape, Hb in Hh by done.
  destruct (read_elements_holds _ es padding _ Hes Hh) as (r & -> & _). done.
Qed.

(** Bits to bytes, for the examples. *)
Fixpoint to_bytes (fuel : nat) (bs : list bool) : list Z :=
  match fuel, bs with
  | S fuel, _ :: _ => value_of (take 8 (bs ++ repeat false 7)) :: to_bytes fuel (drop 8 bs)
  | _, _ => []
  end.

Definition demo_elements : list element := [U 24 0; UE 0; SE (-5); UE 1000000; U 9 300; SE 77; U 31 3].
Definition demo_bits : list bool := mjoin (element_bits <$> demo_elements).
Definition demo_payload : list Z := to_bytes 100 demo_bits.

Lemma elements_roundtrip_witness :
  (length (escape 0 demo_payload) > length demo_payload)%nat ∧
  fst <$> read_elements demo_elements (new_reader true (escape 0 demo_payload)) =
    Some [0; 0; -5; 1000000; 300; 77; 3].
Proof.
  split; [vm_compute; lia|].
  apply (elements_roundtrip demo_elements demo_payload (drop (length demo_bits) (bits_of_bytes demo_payload))).
  - repeat (apply Forall_cons; split); try done; simpl; lia.
  - repeat (apply Forall_cons; split); done.
  - vm_compute. reflexivity.
Defined.

(** Clearing a bit that is set. *)
Lemma clear_bit x k : 0 ≤ k → 0 ≤ x < 2 ^ k → 2 ^ k + x < 2 ^ 32 →
  Z.land (2 ^ k + x) (wrap_unsigned 32 (Z.lnot (2 ^ k))) = x.
Proof.
  intros Hk Hx Hb. unfold wrap_unsigned. rewrite <- Z.land_ones by lia.
  rewrite Z.land_assoc, (Z.land_comm (Z.land _ _)), Z.land_assoc, (Z.land_comm (Z.ones 32)), Z.land_ones by lia.
  rewrite Z.mod_small by (pose proof (Z.pow_pos_nonneg 2 k); lia). rewrite <- Z.ldiff_land.
  pose proof (lor_disjoint 1 x k Hk Hx) as Hor. rewrite Z.mul_1_l in Hor. rewrite <- Hor.
  pose proof (land_disjoint 1 x k Hk Hx) as Hd. rewrite Z.mul_1_l in Hd.
  apply Z.bits_inj'. intros i Hi. apply (f_equal (λ z, Z.testbit z i)) in Hd.
  rewrite Z.land_spec, Z.bits_0 in Hd. rewrite Z.ldiff_spec, Z.lor_spec.
  destruct (Z.testbit (2 ^ k) i), (Z.testbit x i); done.
Qed.

(** [iv] is meant to read a number in two's complement; for a negative
    number it returns what is left without the sign bit, so that no time
    offset is ever negative. *)
Theorem iv_drops_sign total r n v rest :
  2 ≤ n ≤ 31 → - 2 ^ (n - 1) ≤ v < 0 → holds total r (bits_of (Z.to_nat n) (v mod 2 ^ n) ++ rest) →
  fst <$> iv n r = Some (v + 2 ^ (n - 1)).
Proof.
  intros Hn Hv Hh. unfold iv.
  destruct (extract_some total r _ rest n Hh) as (r' & -> & _); [rewrite length_bits_of; lia|lia|].
  assert (2 ^ n = 2 * 2 ^ (n - 1)) as Hp by (rewrite <- Z.pow_succ_r by lia; f_equal; lia).
  assert (v mod 2 ^ n = v + 2 ^ n) as Hm.
  { rewrite <- (Z.mod_small (v + 2 ^ n) (2 ^ n)) by lia. replace (v + 2 ^ n) with (v + 1 * 2 ^ n) by lia.
    by rewrite Z.mod_add by lia. }
  rewrite value_bits_small by (rewrite Z2Nat.id by lia; apply Z.mod_pos_bound; lia). rewrite Hm.
  cbn [mbind option_bind]. rewrite shl32_some, shr32_some by lia. cbn [mbind option_bind fst fmap option_fmap option_map].
  set (h := 2 ^ (n - 1)) in *. set (x := v + h). replace (v + 2 ^ n) with (h + x) by lia.
  assert (0 < h ≤ 2 ^ 30) as Hh'.
  { split; [apply Z.pow_pos_nonneg; lia|apply Z.pow_le_mono_r; lia]. }
  assert (Z.shiftr (h + x) (n - 1) = 1) as ->.
  { rewrite Z.shiftr_div_pow2 by lia. fold h. rewrite <- (Z.mul_1_l h) at 1. rewrite Z.div_add_l by lia.
    rewrite Z.div_small; lia. }
  change (1 =? 0) with false. cbn iota.
  assert (wrap_unsigned 32 (Z.shiftl 1 (n - 1)) = h) as ->.
  { rewrite Z.shiftl_mul_pow2, Z.mul_1_l by lia. apply wrap_unsigned_small. fold h. lia. }
  assert (Z.land (h + x) (wrap_unsigned 32 (Z.lnot h)) = x) as ->.
  { apply (clear_bit x (n - 1)); fold h; lia. }
  assert (wrap_unsigned 32 (wrap_unsigned 32 (Z.lnot x) + 1) = (- x) mod 2 ^ 32) as ->.
  { unfold wrap_unsigned. rewrite Z.add_mod_idemp_l by lia. f_equal. unfold Z.lnot. lia. }
  f_equal. unfold wrap_unsigned. rewrite <- Z.mul_mod by lia. replace (-1 * - x) with x by lia.
  rewrite Z.mod_small by lia. apply wrap_signed_small; lia.
Qed.

(** ** The syntax of a sequence parameter set *)
Record token := Tok { wide : bool; long : bool; tok_bits : list bool }.
Definition flat (ts : list token) : list bool := mjoin (tok_bits <$> ts).

(** The tokens of 32 bits do not begin at a multiple of 32 bits, and no code is
    too long; the first token begins at [c]. *)
Fixpoint placed (c : Z) (ts : list token) : bool :=
  match ts with
  | [] => true
  | t :: ts => negb (long t) && (negb (wide t) || negb (c mod 32 =? 0)) && placed (c + Z.of_nat (length (tok_bits t))) ts
  end.

Definition u (n v : Z) : list token := [Tok (n =? 32) false (bits_of (Z.to_nat n) v)].

(** An unsigned code of 2^31 - 1 or more has 31 leading zeros or more, and so
    has a signed one of 2^30 or more in either direction. *)
Definition uec (v : Z) : list token := [Tok false (2 ^ 31 - 1 <=? v) (ue_bits v)].
Definition sec (v : Z) : list token := [Tok false (2 ^ 30 <=? Z.abs v) (se_bits v)].
Definition opt {A} (o : option A) (f : A → list token) : list token :=
  match o with Some a => u 1 1 ++ f a | None => u 1 0 end.

Definition fits (n v : Z) : Prop := 0 ≤ v < 2 ^ n.
Definition code (v : Z) : Prop := 0 ≤ v.

Record hrd_syntax := HrdSyntax {
  hs_scales : Z * Z;
  hs_values : list (Z * Z * Z);
  hs_lengths : Z * Z * Z * Z
}.

Record vui_syntax := VuiSyntax {
  vs_aspect : option (Z * option (Z * Z));
  vs_overscan : option Z;
  vs_signal : option (Z * Z * option (Z * Z * Z));
  vs_chroma : option (Z * Z);
  vs_timing : option (Z * Z * Z);
  vs_nal : option hrd_syntax;
  vs_vcl : option hrd_syntax;
  vs_low_delay : Z;
  vs_pic_struct : Z;
  vs_restriction : option (Z * list Z)
}.

(** The three types of the picture order count, of which the last has no
    fields. *)
Inductive order_syntax :=
  | OrderLsb (log2_max_lsb_minus4 : Z)
  | OrderCycle (delta_always_zero offset_non_ref offset_top_bottom : Z) (offsets : list Z)
  | OrderOutput (type : Z).

(** A parameter set without scaling matrices. *)
Record sps_syntax := SpsSyntax {
  ss_profile : Z;
  ss_constraints : Z;
  ss_level : Z;
  ss_id : Z;
  ss_high : Z * Z * Z * Z * Z;
  ss_frame_num : Z;
  ss_order : order_syntax;
  ss_refs : Z;
  ss_gaps : Z;
  ss_size : Z * Z;
  ss_mbaff : option Z;
  ss_direct : Z;
  ss_crop : option (Z * Z * Z * Z);
  ss_vui : option vui_syntax
}.

Definition hrd_tokens (h : hrd_syntax) : list token :=
  let '(rate, size) := hs_scales h in
  let '(a, b, c, d) := hs_lengths h in
  uec (Z.of_nat (length (hs_values h)) - 1) ++ u 4 rate ++ u 4 size ++
  mjoin ((λ v : Z * Z * Z, uec (v.1.1 - 1) ++ uec (v.1.2 - 1) ++ u 1 v.2) <$> hs_values h) ++
  u 5 (a - 1) ++ u 5 (b - 1) ++ u 5 (c - 1) ++ u 5 d.

Definition aspect_tokens (a : Z * option (Z * Z)) : list token :=
  u 8 a.1 ++ match a.2 with Some (x, y) => u 16 x ++ u 16 y | None => [] end.

Definition signal_tokens (a : Z * Z * option (Z * Z * Z)) : list token :=
  u 3 a.1.1 ++ u 1 a.1.2 ++ opt a.2 (λ c, u 8 c.1.1 ++ u 8 c.1.2 ++ u 8 c.2).

Definition vui_tokens (v : vui_syntax) : list token :=
  opt (vs_aspect v) aspect_tokens ++
  opt (vs_overscan v) (u 1) ++
  opt (vs_signal v) signal_tokens ++
  opt (vs_chroma v) (λ c, uec c.1 ++ uec c.2) ++
  opt (vs_timing v) (λ t, u 32 t.1.1 ++ u 32 t.1.2 ++ u 1 t.2) ++
  opt (vs_nal v) hrd_tokens ++
  opt (vs_vcl v) hrd_tokens ++
  match vs_nal v, vs_vcl v with None, None => [] | _, _ => u 1 (vs_low_delay v) end ++
  u 1 (vs_pic_struct v) ++
  opt (vs_restriction v) (λ r, u 1 r.1 ++ mjoin (uec <$> r.2)).

Definition is_high (s : sps_syntax) : bool := bool_decide (ss_profile s ∈ high_profiles).

Definition high_tokens (s : sps_syntax) : list token :=
  let '(chroma, plane, luma, depth, bypass) := ss_high s in
  if is_high s
  then uec chroma ++ (if chroma =? 3 then u 1 plane else []) ++ uec luma ++ uec depth ++ u 1 bypass ++ u 1 0
  else [].

Definition order_tokens (o : order_syntax) : list token :=
  match o with
  | OrderLsb lsb => uec 0 ++ uec lsb
  | OrderCycle always a b cycle =>
      uec 1 ++ u 1 always ++ sec a ++ sec b ++ uec (Z.of_nat (length cycle)) ++ mjoin (sec <$> cycle)
  | OrderOutput type => uec type
  end.

Definition sps_tokens (s : sps_syntax) : list token :=
  u 8 (ss_profile s) ++ u 8 (ss_constraints s) ++ u 8 (ss_level s) ++ uec (ss_id s) ++ high_tokens s ++
  uec (ss_frame_num s) ++ order_tokens (ss_order s) ++ uec (ss_refs s) ++ u 1 (ss_gaps s) ++
  uec (ss_size s).1 ++ uec (ss_size s).2 ++
  match ss_mbaff s with Some m => u 1 0 ++ u 1 m | None => u 1 1 end ++ u 1 (ss_direct s) ++
  opt (ss_crop s) (λ c, uec c.1.1.1 ++ uec c.1.1.2 ++ uec c.1.2 ++ uec c.2) ++
  opt (ss_vui s) vui_tokens.

(** The ranges of the fields. *)
Definition hrd_ok (h : hrd_syntax) : Prop :=
  (1 ≤ length (hs_values h) ≤ 32)%nat ∧ fits 4 (hs_scales h).1 ∧ fits 4 (hs_scales h).2 ∧
  Forall (λ v : Z * Z * Z, code (v.1.1 - 1) ∧ code (v.1.2 - 1) ∧ fits 1 v.2) (hs_values h) ∧
  let '(a, b, c, d) := hs_lengths h in fits 5 (a - 1) ∧ fits 5 (b - 1) ∧ fits 5 (c - 1) ∧ fits 5 d.

Definition on_opt {A} (P : A → Prop) (o : option A) : Prop := match o with Some a => P a | None => True end.

Definition vui_ok (v : vui_syntax) : Prop :=
  on_opt (λ a : Z * option (Z * Z), fits 8 a.1 ∧
    match a.2 with Some (x, y) => a.1 = 255 ∧ fits 16 x ∧ fits 16 y | None => a.1 ≠ 255 end) (vs_aspect v) ∧
  on_opt (fits 1) (vs_overscan v) ∧
  on_opt (λ a : Z * Z * option (Z * Z * Z), fits 3 a.1.1 ∧ fits 1 a.1.2 ∧
    on_opt (λ c : Z * Z * Z, fits 8 c.1.1 ∧ fits 8 c.1.2 ∧ fits 8 c.2) a.2) (vs_signal v) ∧
  on_opt (λ c : Z * Z, code c.1 ∧ code c.2) (vs_chroma v) ∧
  on_opt (λ t : Z * Z * Z, fits 32 t.1.1 ∧ fits 32 t.1.2 ∧ fits 1 t.2) (vs_timing v) ∧
  on_opt hrd_ok (vs_nal v) ∧ on_opt hrd_ok (vs_vcl v) ∧ fits 1 (vs_low_delay v) ∧ fits 1 (vs_pic_struct v) ∧
  on_opt (λ r : Z * list Z, fits 1 r.1 ∧ length r.2 = 6%nat ∧ Forall code r.2) (vs_restriction v).

Definition order_ok (o : order_syntax) : Prop :=
  match o with OrderLsb lsb => code lsb | OrderCycle always _ _ _ => fits 1 always | OrderOutput type => 2 ≤ type end.

Definition sps_ok (s : sps_syntax) : Prop :=
  fits 8 (ss_profile s) ∧ fits 8 (ss_constraints s) ∧ fits 8 (ss_level s) ∧ code (ss_id s) ∧
  (let '(chroma, plane, luma, depth, bypass) := ss_high s in
     code chroma ∧ fits 1 plane ∧ code luma ∧ code depth ∧ fits 1 bypass) ∧
  code (ss_frame_num s) ∧
  order_ok (ss_order s) ∧
  code (ss_refs s) ∧ fits 1 (ss_gaps s) ∧ code (ss_size s).1 ∧ code (ss_size s).2 ∧ on_opt (fits 1) (ss_mbaff s) ∧
  fits 1 (ss_direct s) ∧
  on_opt (λ c : Z * Z * Z * Z, code c.1.1.1 ∧ code c.1.1.2 ∧ code c.1.2 ∧ code c.2) (ss_crop s) ∧
  on_opt vui_ok (ss_vui s).

(** What the parser keeps of it. *)
Definition put_values (f : Z * Z * Z → Z) (vs : list (Z * Z * Z)) (old : list Z) : list Z :=
  (f <$> vs) ++ drop (length vs) old.

Definition hrd_value (h : hrd_syntax) (old : h264_hrd_param) : h264_hrd_param :=
  let '(rate, size) := hs_scales h in
  let '(a, b, c, d) := hs_lengths h in
  Hrd (Z.of_nat (length (hs_values h))) rate size
    (put_values (λ v, v.1.1) (hs_values h) (bit_rate_value old))
    (put_values (λ v, v.1.2) (hs_values h) (cpb_size_value old))
    (put_values (λ v, v.2) (hs_values h) (cbr_flag old)) a b c d.

Definition aspect_value (a : Z * option (Z * Z)) : h264_aspect_ratio_info :=
  let '(x, y) := match a.2 with Some p => p | None => default (0, 0) (aspect_table !! Z.to_nat a.1) end in
  Aspect a.1 x y.

Definition flag {A} (o : option A) : Z := match o with Some _ => 1 | None => 0 end.

Definition vui_value (v : vui_syntax) (old : h264_vui_param) : h264_vui_param :=
  let '(units, scale, fixed) :=
    default (num_units_in_tick old, time_scale old, fixed_frame_rate_flag old) (vs_timing v) in
  Vui (flag (vs_aspect v)) (from_option aspect_value (aspect_ratio_info old) (vs_aspect v))
    (flag (vs_timing v)) units scale fixed
    (flag (vs_nal v)) (from_option (λ h, hrd_value h (nal_hrd_parameters old)) (nal_hrd_parameters old) (vs_nal v))
    (flag (vs_vcl v)) (from_option (λ h, hrd_value h (vcl_hrd_parameters old)) (vcl_hrd_parameters old) (vs_vcl v))
    match vs_nal v, vs_vcl v with None, None => low_delay_hrd_flag old | _, _ => vs_low_delay v end
    (vs_pic_struct v) (fixed_fps_prev_ts old).

Definition sps_effect (s : sps_syntax) (p : h264_stream_parser) : h264_stream_parser :=
  let p := set_profile (ss_profile s) p in
  let p := from_option (λ m, set_mbaff m p) p (ss_mbaff s) in
  from_option (λ v, set_vui (vui_value v (vui_param p)) p) p (ss_vui s).

(** ** Reading tokens *)
Lemma flat_app a b : flat (a ++ b) = flat a ++ flat b.
Proof. unfold flat. by rewrite fmap_app, join_app. Qed.

Lemma placed_app c a b : placed c (a ++ b) = placed c a && placed (c + Z.of_nat (length (flat a))) b.
Proof.
  revert c. induction a as [|t a IH]; intros c; cbn [placed app]; [by rewrite Z.add_0_r|].
  rewrite IH, andb_assoc. f_equal. f_equal. change (flat (t :: a)) with (tok_bits t ++ flat a).
  rewrite length_app. lia.
Qed.

(** From [s], [p] reads the tokens, whatever comes behind them, with the answer
    [a] and then in state [s'], if they are placed well, and is undefined if
    they are not; the readers of the states do not count. *)
Definition outcome {A} (total : Z) (c : Z) (ts : list token) (rest : list bool)
    (x : option (A * h264_stream_parser)) (a : A) (s' : h264_stream_parser) : Prop :=
  if placed c ts then ∃ r', x = Some (a, set_reader r' s') ∧ holds total r' rest else x = None.

Definition reads {A} (s : h264_stream_parser) (p : hp A) (ts : list token) (a : A) (s' : h264_stream_parser) : Prop :=
  ∀ total r rest, holds total r (flat ts ++ rest) →
    outcome total (total - Z.of_nat (length (flat ts ++ rest))) ts rest (p (set_reader r s)) a s'.

Lemma reads_ret {A} s (a : A) : reads s (mret a) [] a s.
Proof. intros total r rest Hh. by exists r. Qed.

Lemma reads_bind {A B} s1 s2 s3 (p : hp A) (k : A → hp B) t1 t2 a b :
  reads s1 p t1 a s2 → reads s2 (k a) t2 b s3 → reads s1 (p ≫= k) (t1 ++ t2) b s3.
Proof.
  intros Hp Hk total r rest Hh. rewrite flat_app, <- app_assoc in *.
  specialize (Hp total r (flat t2 ++ rest) Hh). unfold outcome in *. rewrite placed_app.
  unfold mbind, parse_bind. destruct (placed _ t1); cbn [andb]; [|by rewrite Hp].
  destruct Hp as (r1 & -> & H1). cbn [option_bind]. specialize (Hk total r1 rest H1).
  replace (total - _ + _) with (total - Z.of_nat (length (flat t2 ++ rest))) by (rewrite !length_app; lia).
  exact Hk.
Qed.

(** The same where the answer of the first part is not used, or has no tokens. *)
Lemma reads_last {A B} s1 s2 (p : hp A) (k : A → hp B) ts a b s3 :
  reads s1 p ts a s2 → reads s2 (k a) [] b s3 → reads s1 (p ≫= k) ts b s3.
Proof. intros Hp Hk. rewrite <- (app_nil_r ts). by eapply reads_bind. Qed.

Lemma reads_pure {A B} s1 s2 s3 (p : hp A) (k : A → hp B) ts a b :
  reads s1 p [] a s2 → reads s2 (k a) ts b s3 → reads s1 (p ≫= k) ts b s3.
Proof. intros Hp Hk. exact (reads_bind _ _ _ _ _ [] ts _ _ Hp Hk). Qed.

Lemma reads_put {B} s (f : h264_stream_parser → h264_stream_parser) (k : () → hp B) ts b s' :
  (∀ r, f (set_reader r s) = set_reader r (f s)) → reads (f s) (k ()) ts b s' →
  reads s (u ← put_state f; k u) ts b s'.
Proof.
  intros Hf Hk total r rest Hh. specialize (Hk total r rest Hh). unfold mbind, parse_bind, put_state. cbn. by rewrite Hf.
Qed.

Lemma reads_put_end s (f : h264_stream_parser → h264_stream_parser) :
  (∀ r, f (set_reader r s) = set_reader r (f s)) → reads s (put_state f) [] () (f s).
Proof. intros Hf total r rest Hh. exists r. unfold put_state. by rewrite Hf. Qed.

Lemma reads_left {B} s (k : nat → hp B) ts b s' :
  (∀ n, reads s (k n) ts b s') → reads s (n ← parser_left; k n) ts b s'.
Proof. intros Hk total r rest Hh. exact (Hk (bits_left r) total r rest Hh). Qed.

Lemma reads_get {A B} s (g : h264_stream_parser → A) (k : A → hp B) ts b s' :
  (∀ r, g (set_reader r s) = g s) → reads s (k (g s)) ts b s' → reads s (x ← get_state g; k x) ts b s'.
Proof.
  intros Hg Hk total r rest Hh. specialize (Hk total r rest Hh). unfold mbind, parse_bind, get_state. cbn. by rewrite Hg.
Qed.

Lemma reads_more {B} s (k : bool → hp B) ts b s' : flat ts ≠ [] →
  reads s (k true) ts b s' → reads s (m ← more; k m) ts b s'.
Proof.
  intros Hne Hk total r rest Hh. specialize (Hk total r rest Hh). unfold mbind, parse_bind, more, get_state.
  cbn [reader set_reader option_bind]. destruct (flat ts) as [|x l] eqn:E; [done|].
  by rewrite (holds_more total r x (l ++ rest)).
Qed.

Lemma reads_any_more {B} s (k : bool → hp B) ts b s' :
  (∀ m, reads s (k m) ts b s') → reads s (m ← more; k m) ts b s'.
Proof. intros Hk total r rest Hh. exact (Hk (more_bits r) total r rest Hh). Qed.

Lemma reads_on_reader {A} s (p : parse bit_reader A) ts a :
  (∀ total r rest, holds total r (flat ts ++ rest) →
     if placed (total - Z.of_nat (length (flat ts ++ rest))) ts
     then ∃ r', p r = Some (a, r') ∧ holds total r' rest else p r = None) →
  reads s (on_reader p) ts a s.
Proof.
  intros Hp total r rest Hh. specialize (Hp total r rest Hh). unfold outcome, on_reader. cbn [reader set_reader].
  destruct (placed _ ts); [|by rewrite Hp]. destruct Hp as (r' & -> & H'). by exists r'.
Qed.

(** At a multiple of 32 bits the word of the reader is empty. *)
Lemma holds_aligned total r bs : holds total r bs → (0 < length bs)%nat →
  (total - Z.of_nat (length bs)) mod 32 = 0 → (32 ≤ length bs)%nat → bits_read r = 0.
Proof.
  intros [(w & Hb & _ & _ & Hor) Hs _] Hne Hm H32. destruct Hor as [->|Hw]; [lia|].
  rewrite Z.add_mod, Hm, Z.add_0_l, Z.mod_mod in Hw by lia. rewrite Z.mod_small in Hw; lia.
Qed.

Lemma flat_one w l bs : flat [Tok w l bs] = bs.
Proof. unfold flat. cbn. apply app_nil_r. Qed.

Lemma reads_bits s n v : 1 ≤ n ≤ 32 → fits n v → reads s (bits n) (u n v) v s.
Proof.
  intros Hn Hv. apply reads_on_reader. intros total r rest Hh. unfold u in *. rewrite flat_one in *. cbn [placed].
  rewrite andb_true_r. assert (length (bits_of (Z.to_nat n) v) = Z.to_nat n) as Hlen by apply length_bits_of.
  assert ((n = 32 → (total - Z.of_nat (length (bits_of (Z.to_nat n) v ++ rest))) mod 32 ≠ 0) →
    ∃ r', extract_bits n r = Some (v, r') ∧ holds total r' rest) as Hok.
  { intros Hal. destruct (extract_bits_spec total r (bits_of (Z.to_nat n) v) rest n Hh) as (r' & E & H'); [lia|done|done|].
    exists r'. rewrite value_bits_small in E; [done|]. by rewrite Z2Nat.id by lia. }
  cbn [wide]. destruct (Z.eqb_spec n 32) as [->|]; cbn [negb orb]; [|by apply Hok].
  destruct (Z.eqb_spec ((total - Z.of_nat (length (bits_of (Z.to_nat 32) v ++ rest))) mod 32) 0) as [E|E]; cbn [negb].
  - rewrite length_app in E. eapply extract_32_aligned; [done| |rewrite length_app; lia].
    eapply holds_aligned; [done|rewrite ?length_app; lia..].
  - apply Hok. by intros _.
Qed.

Lemma placed_one c l bs : placed c [Tok false l bs] = negb l.
Proof. cbn. by rewrite !andb_true_r. Qed.

Lemma reads_ue s v : code v → reads s ue (uec v) v s.
Proof.
  intros Hv. apply reads_on_reader. intros total r rest Hh. unfold uec in *. rewrite placed_one. rewrite flat_one in Hh.
  destruct (Z.leb_spec (2 ^ 31 - 1) v); cbn [negb]; [by eapply uev_long|eapply uev_code; [|done]]. unfold code in Hv. lia.
Qed.

Lemma reads_se s v : reads s se (sec v) v s.
Proof.
  apply reads_on_reader. intros total r rest Hh. unfold sec in *. rewrite placed_one. rewrite flat_one in Hh.
  destruct (Z.leb_spec (2 ^ 30) (Z.abs v)); cbn [negb]; [|eapply sev_code; [lia|done]].
  unfold se_bits in Hh. assert (2 ^ 31 - 1 ≤ (if 0 <? v then 2 * v - 1 else -2 * v)) as Hl
    by (destruct (Z.ltb_spec 0 v); lia).
  unfold sev. by rewrite (uev_long _ _ _ _ Hl Hh).
Qed.

Lemma reads_ue1 s v : code (v - 1) → reads s uev_plus_1 (uec (v - 1)) v s.
Proof.
  intros Hv. destruct (Z_lt_dec (v - 1) (2 ^ 31 - 1)) as [Hs|Hl].
  - eapply reads_last; [by apply reads_ue|]. replace (wrap_unsigned 32 (v - 1 + 1)) with v; [apply reads_ret|].
    unfold code in Hv. rewrite Z.sub_add. symmetry. apply wrap_unsigned_small. lia.
  - pose proof (reads_ue s (v - 1) Hv) as Hr. intros total r rest Hh. specialize (Hr total r rest Hh).
    unfold outcome, uec in *. rewrite placed_one in *. rewrite (proj2 (Z.leb_le _ _)) in * by lia. cbn [negb] in *.
    unfold uev_plus_1, mbind, parse_bind. by rewrite Hr.
Qed.

(** An optional part behind its flag. *)
Lemma reads_opt {A B} s (o : option A) (f : A → list token) (p q : hp B) (va : A → B) (vb : B) :
  (∀ a, o = Some a → reads s p (f a) (va a) s) → (o = None → reads s q [] vb s) →
  reads s (x ← bits 1; if_flag x p q) (opt o f) (from_option va vb o) s.
Proof.
  intros Hp Hq. destruct o as [a|]; cbn [opt from_option].
  - eapply reads_bind; [by apply reads_bits|]. by apply Hp.
  - rewrite <- (app_nil_r (u 1 0)). eapply reads_bind; [by apply reads_bits|]. by apply Hq.
Qed.

Lemma reads_opt_then {A B C} s s' (o : option A) (f : A → list token) (p q : hp B) (va : A → B) (vb : B)
    (k : Z → B → hp C) t c :
  (∀ a, o = Some a → reads s p (f a) (va a) s) → (o = None → reads s q [] vb s) →
  reads s (k (flag o) (from_option va vb o)) t c s' →
  reads s (x ← bits 1; y ← if_flag x p q; k x y) (opt o f ++ t) c s'.
Proof.
  intros Hp Hq Hk. destruct o as [a|]; cbn [opt from_option flag] in *.
  - rewrite <- app_assoc. eapply reads_bind; [by apply reads_bits|]. eapply reads_bind; [by apply Hp|done].
  - eapply reads_bind; [by apply reads_bits|]. eapply reads_pure; [by apply Hq|done].
Qed.

(** The same for a part that is skipped. *)
Lemma reads_skip_then {A C} s s' (o : option A) (f : A → list token) (p : hp ()) (k : hp C) t c :
  (∀ a, o = Some a → reads s p (f a) () s) → reads s k t c s' →
  reads s (x ← bits 1; skip_if x p;; k) (opt o f ++ t) c s'.
Proof.
  intros Hp Hk. eapply (reads_opt_then s s' o f p (mret ()) (λ _, ()) () (λ _ _, k)); [done| |done].
  intros _. apply reads_ret.
Qed.

(** ** The parts of the syntax *)
Definition puts (i : nat) (f : Z * Z * Z → Z) (vs : list (Z * Z * Z)) (old : list Z) : list Z :=
  take i old ++ (f <$> vs) ++ drop (i + length vs) old.

Lemma puts_cons i f v vs old : (i < length old)%nat →
  puts (S i) f vs (<[i := f v]> old) = puts i f (v :: vs) old.
Proof.
  intros Hi. unfold puts. rewrite (insert_take_drop old i (f v)) by done.
  replace (S i) with (length (take i old ++ [f v])) at 1 by (rewrite length_app, length_take; cbn; lia).
  change (take i old ++ f v :: drop (S i) old) with (take i old ++ [f v] ++ drop (S i) old).
  rewrite (app_assoc (take i old) [f v]), take_app_length, <- app_assoc. f_equal.
  rewrite fmap_cons. cbn [app]. f_equal. f_equal. cbn [length].
  rewrite drop_app_ge by (rewrite length_app, length_take; cbn; lia).
  rewrite drop_drop. f_equal. rewrite length_app, length_take. cbn. lia.
Qed.

Definition value_tokens (v : Z * Z * Z) : list token := uec (v.1.1 - 1) ++ uec (v.1.2 - 1) ++ u 1 v.2.

Lemma flat_u_nonempty n v ts : 1 ≤ n → flat (u n v ++ ts) ≠ [].
Proof.
  intros Hn. rewrite flat_app. unfold u. rewrite flat_one. destruct (Z.to_nat n) eqn:E; [lia|]. done.
Qed.

Lemma flat_ue_nonempty v ts : flat (uec v ++ ts) ≠ [].
Proof. rewrite flat_app. unfold uec. rewrite flat_one. unfold ue_bits. by destruct (repeat false _). Qed.

Lemma reads_set_at s l i v : 0 ≤ i < Z.of_nat (length l) → reads s (set_at l i v) [] (<[Z.to_nat i := v]> l) s.
Proof.
  intros Hi. unfold set_at. rewrite (proj2 (Z.leb_le _ _)), (proj2 (Z.ltb_lt _ _)) by lia. apply reads_ret.
Qed.

Lemma reads_hrd_values s vs : ∀ i h,
  Forall (λ v : Z * Z * Z, code (v.1.1 - 1) ∧ code (v.1.2 - 1) ∧ fits 1 v.2) vs → (i + length vs ≤ 32)%nat →
  arrays_ok h →
  reads s (hrd_values (length vs) (Z.of_nat i) h) (mjoin (value_tokens <$> vs))
    (Hrd (cpb_cnt h) (bit_rate_scale h) (cpb_size_scale h) (puts i (λ v, v.1.1) vs (bit_rate_value h))
       (puts i (λ v, v.1.2) vs (cpb_size_value h)) (puts i (λ v, v.2) vs (cbr_flag h))
       (initial_cpb_removal_delay_length h) (cpb_removal_delay_length h) (dpb_output_delay_length h)
       (time_offset_length h)) s.
Proof.
  induction vs as [|v vs IH]; intros i h Hvs Hi (A1 & A2 & A3).
  { cbn. unfold puts. cbn. rewrite Nat.add_0_r, !take_drop. destruct h. apply reads_ret. }
  apply Forall_cons in Hvs as [(V1 & V2 & V3) Hvs]. cbn [length] in Hi.
  cbn [length hrd_values]. rewrite fmap_cons. cbn [mjoin list_join]. unfold value_tokens at 1. rewrite <- !app_assoc.
  apply reads_more; [apply flat_ue_nonempty|]. cbn [negb].
  eapply reads_bind; [by apply reads_ue1|]. eapply reads_pure; [apply reads_set_at; lia|].
  eapply reads_bind; [by apply reads_ue1|]. eapply reads_pure; [apply reads_set_at; lia|].
  eapply reads_bind; [by apply reads_bits|]. eapply reads_pure; [apply reads_set_at; lia|].
  rewrite Nat2Z.id. replace (Z.of_nat i + 1) with (Z.of_nat (S i)) by lia.
  rewrite <- !puts_cons by lia. apply (IH (S i)); [done|lia|]. unfold arrays_ok. cbn. by rewrite !length_insert.
Qed.

Lemma reads_hrd s h old : hrd_ok h → arrays_ok old → reads s (hrd_parameters old) (hrd_tokens h) (hrd_value h old) s.
Proof.
  intros (Hn & Hr & Hs & Hvs & Hl) Hold. unfold hrd_parameters, hrd_tokens, hrd_value.
  destruct (hs_scales h) as [rate size], (hs_lengths h) as [[[a b] c] d]. destruct Hl as (L1 & L2 & L3 & L4).
  eapply reads_bind; [apply reads_ue1; unfold code; lia|]. eapply reads_bind; [by apply reads_bits|].
  eapply reads_bind; [by apply reads_bits|]. cbv zeta. unfold MAX_CPB_COUNT. rewrite (proj2 (Z.ltb_ge _ _)) by lia.
  rewrite Nat2Z.id. eapply reads_bind; [apply (reads_hrd_values s (hs_values h) 0); [done|lia|done]|].
  cbn [bit_rate_value cpb_size_value cbr_flag].
  eapply reads_bind; [by apply reads_bits|]. eapply reads_bind; [by apply reads_bits|].
  eapply reads_bind; [by apply reads_bits|]. eapply reads_last; [by apply reads_bits|].
  rewrite !Z.sub_add. unfold puts, put_values. cbn [take app Nat.add]. apply reads_ret.
Qed.

Lemma reads_aspect s a :
  (fits 8 a.1 ∧ match a.2 with Some (x, y) => a.1 = 255 ∧ fits 16 x ∧ fits 16 y | None => a.1 ≠ 255 end) →
  reads s aspect_ratio_info_body (aspect_tokens a) (aspect_value a) s.
Proof.
  destruct a as [idc [[x y]|]]; cbn [fst snd]; unfold aspect_tokens, aspect_value; cbn [fst snd].
  - intros (H8 & -> & Hx & Hy). eapply reads_bind; [by apply reads_bits|]. cbn [Z.eqb Pos.eqb].
    eapply reads_bind; [by apply reads_bits|]. eapply reads_last; [by apply reads_bits|]. apply reads_ret.
  - intros [H8 Hne]. eapply reads_bind; [by apply reads_bits|]. rewrite (proj2 (Z.eqb_neq _ _)) by done.
    destruct (default (0, 0) (aspect_table !! Z.to_nat idc)). apply reads_ret.
Qed.

Lemma reads_timing s (o : option (Z * Z * Z)) v :
  on_opt (λ t : Z * Z * Z, fits 32 t.1.1 ∧ fits 32 t.1.2 ∧ fits 1 t.2) o →
  reads s (timing_info v) (opt o (λ t, u 32 t.1.1 ++ u 32 t.1.2 ++ u 1 t.2))
    (let '(a, b, c) := default (num_units_in_tick v, time_scale v, fixed_frame_rate_flag v) o in (flag o, a, b, c)) s.
Proof.
  destruct o as [[[a b] c]|]; unfold timing_info; cbn [on_opt opt flag default from_option id fst snd].
  - intros (Ha & Hb & Hc). eapply reads_bind; [by apply reads_bits|]. unfold if_flag. cbn [Z.eqb].
    eapply reads_bind; [by apply reads_bits|]. eapply reads_bind; [by apply reads_bits|].
    eapply reads_last; [by apply reads_bits|]. apply reads_ret.
  - intros _. eapply reads_last; [by apply reads_bits|]. apply reads_ret.
Qed.

Lemma reads_hrd_info s o old : on_opt hrd_ok o → arrays_ok old →
  reads s (hrd_info old) (opt o hrd_tokens) (flag o, from_option (λ h, hrd_value h old) old o) s.
Proof.
  intros Ho Hold. unfold hrd_info. destruct o as [h|]; cbn [on_opt opt flag from_option] in *.
  - eapply reads_bind; [by apply reads_bits|]. eapply reads_last; [by apply reads_hrd|]. apply reads_ret.
  - eapply reads_last; [by apply reads_bits|]. eapply reads_last; [apply reads_ret|]. apply reads_ret.
Qed.

Lemma reads_signal s a :
  fits 3 a.1.1 ∧ fits 1 a.1.2 ∧ on_opt (λ c : Z * Z * Z, fits 8 c.1.1 ∧ fits 8 c.1.2 ∧ fits 8 c.2) a.2 →
  reads s video_signal_type (signal_tokens a) () s.
Proof.
  intros (H1 & H2 & Hc). unfold video_signal_type, signal_tokens.
  eapply reads_bind; [by apply reads_bits|]. eapply reads_bind; [by apply reads_bits|].
  destruct a.2 as [[[x y] z]|]; cbn [opt on_opt fst snd] in *.
  - destruct Hc as (Hx & Hy & Hz). eapply reads_bind; [by apply reads_bits|]. unfold skip_if, if_flag. cbn [Z.eqb].
    eapply reads_bind; [by apply reads_bits|]. eapply reads_bind; [by apply reads_bits|].
    eapply reads_last; [by apply reads_bits|]. apply reads_ret.
  - eapply reads_last; [by apply reads_bits|]. apply reads_ret.
Qed.

Lemma reads_restriction s r : fits 1 r.1 ∧ length r.2 = 6%nat ∧ Forall code r.2 →
  reads s bitstream_restriction (u 1 r.1 ++ mjoin (uec <$> r.2)) () s.
Proof.
  intros (H1 & Hl & Hc). destruct r as [x cs]. cbn [fst snd] in *. unfold bitstream_restriction.
  destruct cs as [|c1 [|c2 [|c3 [|c4 [|c5 [|c6 [|]]]]]]]; try done.
  rewrite !Forall_cons in Hc. destruct Hc as (C1 & C2 & C3 & C4 & C5 & C6 & _).
  rewrite !fmap_cons. cbn [mjoin list_join fmap list_fmap].
  eapply reads_bind; [by apply reads_bits|]. do 5 (eapply reads_bind; [by apply reads_ue|]).
  eapply reads_bind; [by apply reads_ue|]. apply reads_ret.
Qed.

Lemma reads_vui s v old : vui_ok v → arrays_ok (nal_hrd_parameters old) → arrays_ok (vcl_hrd_parameters old) →
  reads s (vui_body old) (vui_tokens v) (vui_value v old) s.
Proof.
  intros (Ha & Ho & Hs & Hc & Ht & Hn & Hv & Hl & Hp & Hr) An Av. unfold vui_body, vui_tokens, vui_value.
  eapply (reads_opt_then _ _ _ _ _ _ aspect_value).
  { intros a Ea. rewrite Ea in Ha. by apply reads_aspect. } { intros _. apply reads_ret. }
  apply reads_skip_then.
  { intros a Ea. rewrite Ea in Ho. eapply reads_last; [by apply reads_bits|apply reads_ret]. }
  apply reads_skip_then; [intros a Ea; rewrite Ea in Hs; by apply reads_signal|].
  apply reads_skip_then.
  { intros a Ea. rewrite Ea in Hc. destruct Hc. eapply reads_bind; [by apply reads_ue|].
    eapply reads_last; [by apply reads_ue|apply reads_ret]. }
  eapply reads_bind; [by apply reads_timing|].
  destruct (default _ (vs_timing v)) as [[units scale] fixed]. cbn iota beta.
  eapply reads_bind; [by apply reads_hrd_info|]. eapply reads_bind; [by apply reads_hrd_info|]. cbn iota beta.
  assert (∀ T (a b : T), (if (flag (vs_nal v) =? 0) && (flag (vs_vcl v) =? 0) then a else b) =
    match vs_nal v, vs_vcl v with None, None => a | _, _ => b end) as Hif.
  { intros T a b. by destruct (vs_nal v), (vs_vcl v). }
  eapply (reads_bind _ s _ _ _ _ _ match vs_nal v, vs_vcl v with None, None => low_delay_hrd_flag old | _, _ => vs_low_delay v end).
  { rewrite Hif. destruct (vs_nal v), (vs_vcl v); first [apply reads_ret|by apply reads_bits]. }
  eapply reads_bind; [by apply reads_bits|].
  rewrite <- (app_nil_r (opt (vs_restriction v) _)). apply reads_skip_then; [|apply reads_ret].
  intros a Ea. rewrite Ea in Hr. by apply reads_restriction.
Qed.

Lemma reads_skip_sev s vs : ∀ fuel, (length vs < fuel)%nat →
  reads s (skip_sev fuel (Z.of_nat (length vs))) (mjoin (sec <$> vs)) () s.
Proof.
  induction vs as [|v vs IH]; intros [|fuel] Hf; cbn [length] in *; try lia; [apply reads_ret|]. cbn [skip_sev]. rewrite (proj2 (Z.leb_gt _ _)) by lia.
  rewrite fmap_cons. cbn [mjoin list_join]. eapply reads_bind; [by apply reads_se|].
  replace (Z.of_nat (S (length vs)) - 1) with (Z.of_nat (length vs)) by lia. apply IH. lia.
Qed.

Lemma length_codes (vs : list Z) : (length vs ≤ length (flat (mjoin (sec <$> vs))))%nat.
Proof.
  induction vs as [|v vs IH]; [done|]. rewrite fmap_cons. cbn [mjoin list_join]. rewrite flat_app, length_app.
  unfold sec at 1. rewrite flat_one. unfold se_bits, ue_bits.
  rewrite length_app, length_bits_of. cbn [length]. etransitivity; [apply le_n_S, IH|].
  generalize (Z.to_nat (Z.log2 ((if 0 <? v then 2 * v - 1 else -2 * v) + 1))). intros k. match goal with |- (S ?a <= _ + ?d)%nat => change d with a end. lia.
Qed.

Lemma reads_cycle s vs :
  reads s (n ← parser_left; skip_sev (S n) (Z.of_nat (length vs))) (mjoin (sec <$> vs)) () s.
Proof.
  intros total r rest Hh. pose proof (holds_left _ _ _ Hh) as Hleft. rewrite length_app in Hleft.
  pose proof (length_codes vs) as Hlen.
  exact (reads_skip_sev s vs (S (bits_left r)) ltac:(eapply Nat.le_lt_trans; [exact Hlen|lia]) total r rest Hh).
Qed.

Lemma reads_order s o : order_ok o → reads s order_count_fields (order_tokens o) () s.
Proof.
  unfold order_count_fields, order_tokens. destruct o as [lsb|al a b cycle|type]; cbn [order_ok].
  - intros Hl. eapply reads_bind; [by apply reads_ue|]. eapply reads_last; [by apply reads_ue|apply reads_ret].
  - intros Hal. eapply reads_bind; [by apply reads_ue|]. cbn [Z.eqb Pos.eqb].
    eapply reads_bind; [by apply reads_bits|]. eapply reads_bind; [apply reads_se|].
    eapply reads_bind; [apply reads_se|]. eapply reads_bind; [apply reads_ue; unfold code; lia|]. apply reads_cycle.
  - intros Ht. eapply reads_last; [apply reads_ue; unfold code; lia|].
    rewrite (proj2 (Z.eqb_neq type 0)), (proj2 (Z.eqb_neq type 1)) by lia. apply reads_ret.
Qed.

Lemma reads_high s sp :
  (let '(chroma, plane, luma, depth, bypass) := ss_high sp in
     code chroma ∧ fits 1 plane ∧ code luma ∧ code depth ∧ fits 1 bypass) →
  reads s (if bool_decide (ss_profile sp ∈ high_profiles) then high_profile_fields else mret ()) (high_tokens sp) () s.
Proof.
  unfold high_tokens, is_high. destruct (ss_high sp) as [[[[chroma plane] luma] depth] bypass].
  intros (H1 & H2 & H3 & H4 & H5). case_bool_decide; [|apply reads_ret]. unfold high_profile_fields.
  eapply reads_bind; [by apply reads_ue|]. eapply reads_bind.
  { destruct (chroma =? 3); [|apply reads_ret]. eapply reads_last; [by apply reads_bits|apply reads_ret]. }
  eapply reads_bind; [by apply reads_ue|]. eapply reads_bind; [by apply reads_ue|].
  eapply reads_bind; [by apply reads_bits|]. eapply reads_last; [by apply reads_bits|apply reads_ret].
Qed.

Lemma vui_tokens_nonempty v : flat (vui_tokens v) ≠ [].
Proof. unfold vui_tokens. destruct (vs_aspect v); cbn [opt]; rewrite <- ?app_assoc; apply flat_u_nonempty; lia. Qed.

Lemma reads_parse_vui s v : vui_ok v → arrays_ok (nal_hrd_parameters (vui_param s)) →
  arrays_ok (vcl_hrd_parameters (vui_param s)) →
  reads s (parse_vui false) (vui_tokens v) () (set_vui (vui_value v (vui_param s)) s).
Proof.
  intros Hv An Av. unfold parse_vui. apply reads_left. intros n. eapply reads_pure; [apply reads_ret|].
  apply reads_more; [apply vui_tokens_nonempty|]. cbn [negb]. apply reads_get; [done|].
  eapply reads_last; [by apply reads_vui|]. by apply reads_put_end.
Qed.

(** [parse_sps] on what a writer produced. *)
Lemma reads_sps s sp : sps_ok sp → arrays_ok (nal_hrd_parameters (vui_param s)) →
  arrays_ok (vcl_hrd_parameters (vui_param s)) → reads s parse_sps (sps_tokens sp) () (sps_effect sp s).
Proof.
  intros (H1 & H2 & H3 & H4 & Hhigh & H5 & Hord & H6 & H7 & H8 & H9 & Hmb & Hd & Hcrop & Hvui) An Av.
  unfold parse_sps, sps_tokens, sps_effect.
  eapply reads_bind; [by apply reads_bits|]. apply reads_put; [done|]. set (s1 := set_profile _ s).
  do 2 (eapply reads_bind; [by apply reads_bits|]). eapply reads_bind; [by apply reads_ue|].
  eapply reads_bind; [by apply reads_high|]. eapply reads_bind; [by apply reads_ue|].
  eapply reads_bind; [by apply reads_order|]. eapply reads_bind; [by apply reads_ue|].
  eapply reads_bind; [by apply reads_bits|]. do 2 (eapply reads_bind; [by apply reads_ue|]).
  set (s2 := from_option _ s1 (ss_mbaff sp)).
  assert (vui_param s2 = vui_param s) as E2 by (unfold s2; by destruct (ss_mbaff sp)).
  assert (∀ B (k : hp B) t b s', reads s2 k t b s' →
    reads s1 (frame_mbs_only ← bits 1;
      (if frame_mbs_only =? 0 then m ← bits 1; put_state (set_mbaff m) else mret ());; k)
      (match ss_mbaff sp with Some m => u 1 0 ++ u 1 m | None => u 1 1 end ++ t) b s') as Hmbaff.
  { intros B k t b s' Hk. unfold s2 in Hk. destruct (ss_mbaff sp) as [m|]; cbn [from_option] in Hk.
    - rewrite <- app_assoc. eapply reads_bind; [by apply reads_bits|]. cbn [Z.eqb].
      eapply reads_bind; [|exact Hk]. eapply reads_last; [by apply reads_bits|]. by apply reads_put_end.
    - eapply reads_bind; [by apply reads_bits|]. eapply reads_pure; [apply reads_ret|exact Hk]. }
  apply Hmbaff. clear Hmbaff. eapply reads_bind; [by apply reads_bits|].
  apply reads_skip_then.
  { intros c Ec. rewrite Ec in Hcrop. destruct Hcrop as (C1 & C2 & C3 & C4).
    do 3 (eapply reads_bind; [by apply reads_ue|]). eapply reads_last; [by apply reads_ue|apply reads_ret]. }
  destruct (ss_vui sp) as [v|]; cbn [opt from_option on_opt] in *.
  - eapply reads_bind; [by apply reads_bits|]. unfold skip_if, if_flag. cbn [Z.eqb].
    apply reads_parse_vui; [done|by rewrite E2..].
  - eapply reads_last; [by apply reads_bits|apply reads_ret].
Qed.

(** ** The NAL unit around it *)
Definition zero_tokens (z : nat) : list token := mjoin (repeat (u 8 0) z).

(** [z] zero bytes before the start code 0 0 1. *)
Definition start_tokens (z : nat) : list token :=
  match z with O => u 24 1 | S z => u 24 0 ++ zero_tokens z ++ u 8 1 end.

Lemma reads_start_code_end s fuel c : (0 < fuel)%nat → reads s (find_start_code fuel 1 c) [] (1, c) s.
Proof. intros Hf. destruct fuel; [lia|]. cbn [find_start_code]. apply reads_any_more. intros m. apply reads_ret. Qed.

Lemma reads_find_start_code s z : ∀ fuel c, (S z < fuel)%nat →
  reads s (find_start_code fuel 0 c) (zero_tokens z ++ u 8 1) (1, c + Z.of_nat z + 1) s.
Proof.
  induction z as [|z IH]; intros [|fuel] c Hf; try lia; cbn [find_start_code].
  - apply reads_more; [by rewrite <- (app_nil_r (u 8 1)); apply flat_u_nonempty|]. cbn [Z.eqb negb andb].
    eapply reads_last; [apply reads_bits; [lia|by unfold fits]|]. rewrite Z.add_0_r.
    apply reads_start_code_end. lia.
  - unfold zero_tokens. cbn [repeat mjoin list_join]. rewrite <- app_assoc.
    apply reads_more; [by apply flat_u_nonempty|]. cbn [Z.eqb negb andb].
    eapply reads_bind; [apply reads_bits; [lia|by unfold fits]|].
    replace (c + Z.of_nat (S z) + 1) with (c + 1 + Z.of_nat z + 1) by lia. apply IH. lia.
Qed.

Lemma length_zero_tokens z : length (flat (zero_tokens z)) = (8 * z)%nat.
Proof.
  induction z as [|z IH]; [done|]. change (zero_tokens (S z)) with (u 8 0 ++ zero_tokens z).
  rewrite flat_app, length_app, IH. unfold u. rewrite flat_one, length_bits_of. lia.
Qed.

Lemma reads_find_then {B} s z c (k : Z * Z → hp B) t b s' :
  reads s (k (1, c + Z.of_nat z + 1)) t b s' →
  reads s (n ← parser_left; p ← find_start_code (S n) 0 c; k p) ((zero_tokens z ++ u 8 1) ++ t) b s'.
Proof.
  intros Hk total r rest Hh. pose proof (holds_left _ _ _ Hh) as Hl.
  rewrite !length_app, !flat_app, !length_app, length_zero_tokens in Hl. unfold u in Hl. rewrite flat_one, length_bits_of in Hl.
  exact (reads_bind _ _ _ (find_start_code (S (bits_left r)) 0 c) k _ _ _ _
    (reads_find_start_code s z (S (bits_left r)) c ltac:(lia)) Hk total r rest Hh).
Qed.

Lemma reads_nal_unit_type s z ref kind : fits 2 ref → fits 5 kind →
  reads s get_nal_unit_type (start_tokens z ++ u 1 0 ++ u 2 ref ++ u 5 kind) (kind, Z.of_nat z + 4) s.
Proof.
  intros Hr Hk. unfold get_nal_unit_type.
  assert (∀ c : Z, reads s (_ ← bits 1; _ ← bits 2; kind ← bits 5; mret (kind, c)) (u 1 0 ++ u 2 ref ++ u 5 kind) (kind, c) s)
    as Hheader.
  { intros c. eapply reads_bind; [apply reads_bits; [lia|by unfold fits]|]. eapply reads_bind; [by apply reads_bits|].
    eapply reads_last; [by apply reads_bits|]. apply reads_ret. }
  destruct z as [|z]; cbn [start_tokens]; rewrite <- ?app_assoc.
  - eapply reads_bind; [apply reads_bits; [lia|by unfold fits]|]. apply reads_left. intros n.
    eapply reads_pure; [apply reads_start_code_end; lia|]. apply Hheader.
  - eapply reads_bind; [apply reads_bits; [lia|by unfold fits]|]. rewrite (app_assoc (zero_tokens z)).
    apply reads_find_then. cbn [Z.eqb Pos.eqb negb].
    replace (Z.of_nat (S z) + 4) with (3 + Z.of_nat z + 1 + 1) by lia. apply Hheader.
Qed.

(** A NAL unit: zeros, the start code, the header and the escaped payload. *)
Definition nal_unit (z : nat) (ref kind : Z) (payload : list Z) : list Z :=
  repeat 0 z ++ [0; 0; 1; 32 * ref + kind] ++ escape 0 payload.

Lemma unescape_zeros z l : ∀ n, 0 ≤ n → unescape true n (repeat 0 z ++ l) = repeat 0 z ++ unescape true (n + Z.of_nat z) l.
Proof.
  induction z as [|z IH]; intros n Hn; [by rewrite Z.add_0_r|]. cbn [repeat app unescape]. 
  change (0 =? EMULATION_PREVENTION_THREE_BYTE) with false. cbn [andb Z.eqb]. rewrite IH by lia.
  do 3 f_equal. lia.
Qed.

Lemma unescape_nal z ref kind payload : fits 2 ref → fits 5 kind → kind ≠ 3 → kind ≠ 0 → Forall is_byte payload →
  unescape true 0 (nal_unit z ref kind payload) = repeat 0 z ++ [0; 0; 1; 32 * ref + kind] ++ payload.
Proof.
  intros Hr Hk H3 H0 Hp. unfold nal_unit. rewrite unescape_zeros by lia. f_equal. cbn [app unescape].
  change (0 =? EMULATION_PREVENTION_THREE_BYTE) with false. change (1 =? EMULATION_PREVENTION_THREE_BYTE) with false.
  cbn [andb Z.eqb]. unfold EMULATION_PREVENTION_THREE_BYTE. unfold fits in *.
  rewrite andb_false_r. cbn [andb]. rewrite (proj2 (Z.eqb_neq (32 * ref + kind) 0)) by lia.
  by rewrite unescape_escape by (done || lia).
Qed.

Lemma header_bits ref kind : fits 2 ref → fits 5 kind →
  bits_of 8 (32 * ref + kind) = bits_of 1 0 ++ bits_of 2 ref ++ bits_of 5 kind.
Proof.
  intros Hr Hk. unfold fits in *.
  assert (forallb (λ r, forallb (λ k, bool_decide (bits_of 8 (32 * r + k) = bits_of 1 0 ++ bits_of 2 r ++ bits_of 5 k))
    (Z.of_nat <$> seq 0 32)) (Z.of_nat <$> seq 0 4) = true) as Hall by (vm_compute; reflexivity).
  rewrite forallb_forall in Hall. specialize (Hall ref). rewrite forallb_forall in Hall.
  eapply bool_decide_eq_true_1, Hall; apply list_elem_of_In, list_elem_of_fmap.
  - exists (Z.to_nat ref). rewrite elem_of_seq. lia.
  - exists (Z.to_nat kind). rewrite elem_of_seq. lia.
Qed.

Lemma bits_of_bytes_app a b : bits_of_bytes (a ++ b) = bits_of_bytes a ++ bits_of_bytes b.
Proof. unfold bits_of_bytes. by rewrite fmap_app, join_app. Qed.

Lemma start_tokens_bytes z ref kind : fits 2 ref → fits 5 kind →
  bits_of_bytes (repeat 0 z ++ [0; 0; 1; 32 * ref + kind]) = flat (start_tokens z ++ u 1 0 ++ u 2 ref ++ u 5 kind).
Proof.
  intros Hr Hk. change [0; 0; 1; 32 * ref + kind] with ([0; 0; 1] ++ [32 * ref + kind]).
  rewrite app_assoc, bits_of_bytes_app, flat_app. f_equal.
  - destruct z as [|z]; [done|]. cbn [start_tokens]. rewrite !flat_app.
    assert (repeat 0 (S z) ++ [0; 0; 1] = [0; 0; 0] ++ repeat 0 z ++ [1]) as ->.
    { induction z as [|z IH]; [done|]. cbn [repeat app] in *. by f_equal. }
    rewrite !bits_of_bytes_app. f_equal. f_equal. clear.
    induction z as [|z IH]; [done|]. cbn [repeat]. rewrite bits_of_bytes_cons.
    change (zero_tokens (S z)) with (u 8 0 ++ zero_tokens z). by rewrite flat_app, IH.
  - rewrite !flat_app. unfold u. rewrite !flat_one. rewrite bits_of_bytes_cons. rewrite header_bits by done.
    by rewrite app_nil_r.
Qed.

Definition header_tokens (z : nat) (ref kind : Z) : list token := start_tokens z ++ u 1 0 ++ u 2 ref ++ u 5 kind.

Lemma length_header_tokens z ref kind : fits 2 ref → fits 5 kind →
  Z.of_nat (length (flat (header_tokens z ref kind))) = 8 * (Z.of_nat z + 4).
Proof.
  intros Hr Hk. unfold header_tokens. rewrite <- start_tokens_bytes by done.
  rewrite length_bits_of_bytes, length_app, repeat_length. cbn [length]. lia.
Qed.

Lemma placed_narrow ts : ∀ c, Forall (λ t, wide t = false ∧ long t = false) ts → placed c ts = true.
Proof. induction ts as [|t ts IH]; intros c; [done|]. intros [[Ht Hl] Hts]%Forall_cons. cbn in *. rewrite Ht, Hl. by apply IH. Qed.

Lemma placed_header c z ref kind : placed c (header_tokens z ref kind) = true.
Proof.
  apply placed_narrow. unfold header_tokens, start_tokens. rewrite !Forall_app. split_and!.
  2-4: by repeat constructor.
  destruct z as [|z]; [by repeat constructor|]. rewrite !Forall_app. split_and!; [by repeat constructor| |by repeat constructor].
  induction z as [|z IH]; [by constructor|]. change (zero_tokens (S z)) with (u 8 0 ++ zero_tokens z).
  apply Forall_app. split; [by repeat constructor|done].
Qed.

Lemma nal_unit_bytes z ref kind payload : fits 2 ref → fits 5 kind → Forall is_byte payload →
  Forall is_byte (nal_unit z ref kind payload).
Proof.
  intros Hr Hk Hp. unfold nal_unit, fits in *. apply Forall_app. split.
  { apply Forall_forall. intros x Hx. apply list_elem_of_In, repeat_spec in Hx as ->. by unfold is_byte. }
  repeat (apply Forall_cons; split; [unfold is_byte; lia|]). by apply escape_bytes.
Qed.

(** What reads the header and the tokens reads them from the unit. *)
Lemma reads_unit {A} s (p : hp A) z ref kind ts payload padding a s' :
  fits 2 ref → fits 5 kind → kind ≠ 3 → kind ≠ 0 → Forall is_byte payload →
  bits_of_bytes payload = flat ts ++ padding → reads s p (header_tokens z ref kind ++ ts) a s' →
  if placed (8 * (Z.of_nat z + 4)) ts
  then ∃ r, p (set_reader (new_reader true (nal_unit z ref kind payload)) s) = Some (a, set_reader r s')
  else p (set_reader (new_reader true (nal_unit z ref kind payload)) s) = None.
Proof.
  intros Hr Hk H3 H0 Hp Hbits Hreads.
  pose proof (new_reader_holds true _ (nal_unit_bytes z ref kind payload Hr Hk Hp)) as Hh. cbv zeta in Hh.
  rewrite unescape_nal, app_assoc, bits_of_bytes_app, start_tokens_bytes, Hbits in Hh by done.
  fold (header_tokens z ref kind) in Hh. rewrite app_assoc, <- flat_app in Hh.
  specialize (Hreads _ _ padding Hh). unfold outcome in Hreads.
  rewrite Z.sub_diag, placed_app, placed_header, length_header_tokens, Z.add_0_l in Hreads by done. cbn [andb] in Hreads.
  destruct (placed _ ts); [|done]. destruct Hreads as (r & E & _). by exists r.
Qed.

Lemma sps_tokens_nonempty sp : flat (sps_tokens sp) ≠ [].
Proof. unfold sps_tokens. by apply flat_u_nonempty. Qed.

Lemma sps_effect_panscan sp s : panscan_hdl (sps_effect sp s) = panscan_hdl s.
Proof. unfold sps_effect. by destruct (ss_mbaff sp), (ss_vui sp). Qed.

(** C11: A NAL unit with a sequence parameter set without scaling matrices, of
    any of the three types of the picture order count, written as the standard
    says (zeros, start code, header, the fields in their order with their
    codes, of any size, emulation prevention bytes), is parsed if no 32-bit
    field begins at a word of the reader and no code has more than 30 leading
    zeros: the parser then has the profile, the MBAFF flag and the VUI that
    were written, and the pan-scan lists get their node. If one does, the
    parser shifts by the width of the word or out of int, which is undefined
    behaviour. *)
Theorem sps_roundtrip s h sp z ref payload padding :
  panscan_hdl s = Some h → sps_ok sp →
  arrays_ok (nal_hrd_parameters (vui_param s)) → arrays_ok (vcl_hrd_parameters (vui_param s)) →
  fits 2 ref → Forall is_byte payload → bits_of_bytes payload = flat (sps_tokens sp) ++ padding →
  if placed (8 * (Z.of_nat z + 4)) (sps_tokens sp)
  then ∃ r, parse_nal (nal_unit z ref NALU_TYPE_SPS payload) NALU_TYPE_SPS true s =
         Some ((), set_reader r (set_panscan (Some (get_free h).2) (sps_effect sp s)))
  else parse_nal (nal_unit z ref NALU_TYPE_SPS payload) NALU_TYPE_SPS true s = None.
Proof.
  intros Hpan Hsp An Av Href Hby Hbits.
  assert (fits 5 NALU_TYPE_SPS) as H5 by (by unfold fits).
  unfold parse_nal. rewrite bool_decide_eq_false_2 by (unfold nal_unit; by destruct z).
  change (NALU_TYPE_SPS =? NALU_TYPE_VUI) with false. cbn iota.
  match goal with |- if _ then ∃ r, (_;; _;; ?p) s = _ else _ =>
    eapply (reads_unit s p z ref NALU_TYPE_SPS (sps_tokens sp)); [done..|] end.
  eapply reads_bind; [exact (reads_nal_unit_type s z ref _ Href H5)|]. cbn [negb andb].
  change (NALU_TYPE_SPS =? NALU_TYPE_SPS) with true. cbn [negb andb].
  apply reads_more; [apply sps_tokens_nonempty|]. eapply reads_last; [by apply reads_sps|].
  eapply (reads_pure _ _ _ _ _ _ (get_free h).1); [|apply reads_ret]. intros total r rest Hh. exists r. split; [|done].
  unfold on_panscan. cbn [panscan_hdl set_reader]. rewrite sps_effect_panscan, Hpan. by destruct (get_free h).
Qed.

Lemma bytes_decide l : forallb (λ b, (0 <=? b) && (b <? 256)) l = true → Forall is_byte l.
Proof. intros H. apply Forall_forall. intros b Hb. rewrite forallb_forall in H. apply list_elem_of_In, H in Hb. unfold is_byte. lia. Qed.

Definition demo_sps : sps_syntax :=
  SpsSyntax 100 0 40 0 (1, 0, 0, 0, 0) 4 (OrderCycle 0 (-3) 2 [5; -7; 2]) 2 0 (119, 67) (Some 1) 1 (Some (0, 0, 0, 4))
    (Some (VuiSyntax (Some (255, Some (4, 3))) None (Some (5, 0, Some (1, 1, 1))) None (Some (1001, 60000, 1))
      (Some (HrdSyntax (4, 2) [(1000, 2000, 0); (300, 400, 1)] (24, 24, 23, 24))) None 0 1 (Some (1, [0; 0; 16; 16; 1; 4])))).
Definition demo_sps_bits : list bool := flat (sps_tokens demo_sps).
Definition demo_sps_payload : list Z := to_bytes 200 demo_sps_bits.
Definition demo_parser : h264_stream_parser :=
  set_panscan (Some (PanHandler [] [PanNode (PanScan 0 0 0 [] [] [] [] 0) 0 0 false])) 
    (reset (Parser (Reader 0 0 0 0 true []) 0 no_vui no_period no_timing None no_frame_pack 0)).

(** The same unit with one zero byte more has its timing at a word. *)
Lemma sps_roundtrip_witness :
  let parsed z := parse_nal (nal_unit z 3 NALU_TYPE_SPS demo_sps_payload) NALU_TYPE_SPS true demo_parser in
  (λ o, (λ s, (profile s, mbaff_flag s, get_frame_rate s 0)) <$> (snd <$> o)) (parsed 1%nat) = Some (100, 1, Some 29) ∧
  parsed 0%nat = None.
Proof.
  assert (∀ z, if placed (8 * (Z.of_nat z + 4)) (sps_tokens demo_sps)
    then ∃ r, parse_nal (nal_unit z 3 NALU_TYPE_SPS demo_sps_payload) NALU_TYPE_SPS true demo_parser =
      Some ((), set_reader r (set_panscan (Some (get_free (PanHandler [] [PanNode (PanScan 0 0 0 [] [] [] [] 0) 0 0 false])).2)
        (sps_effect demo_sps demo_parser)))
    else parse_nal (nal_unit z 3 NALU_TYPE_SPS demo_sps_payload) NALU_TYPE_SPS true demo_parser = None) as H.
  { intros z. apply (sps_roundtrip demo_parser (PanHandler [] [PanNode (PanScan 0 0 0 [] [] [] [] 0) 0 0 false]) demo_sps z 3
    demo_sps_payload (drop (length demo_sps_bits) (bits_of_bytes demo_sps_payload))).
  - done.
  - unfold sps_ok, vui_ok, hrd_ok, order_ok, on_opt, fits, code. cbn -[Z.pow]. repeat split; try lia; repeat constructor; cbn; lia.
  - done.
  - done.
  - done.
  - apply bytes_decide. vm_compute. reflexivity.
  - vm_compute. reflexivity. }
  assert (placed (8 * (Z.of_nat 1 + 4)) (sps_tokens demo_sps) = true) as P1 by (vm_compute; reflexivity).
  assert (placed (8 * (Z.of_nat 0 + 4)) (sps_tokens demo_sps) = false) as P0 by (vm_compute; reflexivity).
  pose proof (H 1%nat) as H1. pose proof (H 0%nat) as H0. rewrite P1 in H1. rewrite P0 in H0.
  cbv zeta. split; [|exact H0]. destruct H1 as (r & ->). vm_compute. reflexivity.
Defined.

(** A baseline set whose pictures are output in the order of decoding. *)
Definition plain_sps : sps_syntax :=
  SpsSyntax 66 0 30 0 (0, 0, 0, 0, 0) 0 (OrderOutput 2) 1 0 (10, 8) None 1 None None.
Example plain_sps_is_parsed :
  (λ x, profile x.2) <$> parse_nal (nal_unit 1 3 NALU_TYPE_SPS (to_bytes 100 (flat (sps_tokens plain_sps)))) NALU_TYPE_SPS
    true demo_parser = Some 66.
Proof. vm_compute. reflexivity. Qed.

Lemma iv_drops_sign_witness : fst <$> iv 8 (new_reader true [251]) = Some 123.
Proof.
  apply (iv_drops_sign 8 (new_reader true [251]) 8 (-5) []); [lia|simpl; lia|].
  exact (new_reader_holds true [251] ltac:(repeat constructor; done)).
Defined.
