(* ===== verification/H264Loops.v ===== *)
(** * H.264 parsers: the loops end

    Every loop of [H264Parser] and that of [uev] is a turn that is repeated,
    without any bound ([loop_run]).  The theorem says that each ends after at
    most a turn for each bit that may be left in the reader, or, for the SEI
    messages, a turn for each byte of the unit, and that what it ends in is what
    the function of the model computes, so that a parser is never undefined for
    want of fuel. *)
From S2P Require Import Prelude Doubles H264Bits H264Parser H264State.
Local Open Scope Z_scope.

(** ** Loops

    A turn of a loop is undefined, goes on or leaves the loop; the loop ends
    after at most [n] turns in [r], which is [None] if a turn is undefined. *)
Inductive loop_run {A B} (turn : A → option (A + B)) : nat → A → option B → Prop :=
  | loop_undefined n a : turn a = None → loop_run turn (S n) a None
  | loop_leaves n a b : turn a = Some (inr b) → loop_run turn (S n) a (Some b)
  | loop_goes_on n a a' r : turn a = Some (inl a') → loop_run turn n a' r → loop_run turn (S n) a r.

(** [while (!extract_bits(1) && more_bits());] *)
Definition zeros_turn (s : h264_stream_parser) : option (h264_stream_parser + () * h264_stream_parser) :=
  '(b, s) ← bits 1 s;
  Some (if (b =? 0) && more_bits (reader s) then inl s else inr ((), s)).

Definition start_code_turn (x : Z * Z * h264_stream_parser) :
    option (Z * Z * h264_stream_parser + Z * Z * h264_stream_parser) :=
  let '(value, consumed, s) := x in
  if negb (value =? 1) && more_bits (reader s) then
    '(b, s) ← bits 8 s;
    Some (inl (Z.lor (wrap_unsigned 32 (Z.shiftl value 8)) b, consumed + 1, s))
  else Some (inr (value, consumed, s)).

Definition number_turn (x : Z * Z * h264_stream_parser) :
    option (Z * Z * h264_stream_parser + Z * Z * h264_stream_parser) :=
  let '(sum, taken, s) := x in
  '(value, s) ← bits 8 s;
  let next := (wrap_unsigned 32 (sum + value), taken + 1, s) in
  Some (if value =? 255 then inl next else inr next).

Definition skip_turn (x : Z * h264_stream_parser) :
    option (Z * h264_stream_parser + () * h264_stream_parser) :=
  let '(n, s) := x in
  if n <=? 0 then Some (inr ((), s)) else '(_, s) ← se s; Some (inl (n - 1, s)).

(** The loop of [uev]. *)
Definition zero_bits_turn (x : Z * bit_reader) : option (Z * bit_reader + Z * bit_reader) :=
  let '(n, r) := x in
  '(b, r) ← extract_bits 1 r;
  Some (if (b =? 0) && more_bits r then inl (n + 1, r) else inr (n, r)).

(** ** A turn takes bits *)
Lemma bits_takes n s v s' : bits n s = Some (v, s') → 0 ≤ bits_read (reader s) → 1 ≤ n ≤ 32 →
  0 ≤ bits_read (reader s') ∧ (bits_left (reader s') < bits_left (reader s))%nat.
Proof.
  intros E Hs Hn. apply bind_Some in E as ([x r] & E & [= <- <-]). cbn [reader set_reader].
  by eapply extract_bits_left.
Qed.

Lemma discard_zeros_run fuel : ∀ s, 0 ≤ bits_read (reader s) → (bits_left (reader s) < fuel)%nat →
  loop_run zeros_turn fuel s (discard_zeros fuel s).
Proof.
  induction fuel as [|fuel IH]; intros s Hs Hf; [lia|]. cbn [discard_zeros]. unfold mbind, parse_bind.
  destruct (bits 1 s) as [[b s1]|] eqn:E.
  2:{ apply loop_undefined. unfold zeros_turn. by rewrite E. }
  cbn [option_bind mbind]. apply bits_takes in E as H; [|done|lia]. destruct H as [H1 H2].
  unfold more, get_state. cbn [mbind option_bind].
  destruct ((b =? 0) && more_bits (reader s1)) eqn:Eb.
  - eapply loop_goes_on; [|apply IH; [done|lia]]. unfold zeros_turn. rewrite E. cbn [mbind option_bind]. by rewrite Eb.
  - apply loop_leaves. unfold zeros_turn. rewrite E. cbn [mbind option_bind]. by rewrite Eb.
Qed.

Lemma find_start_code_run fuel : ∀ v c s, 0 ≤ bits_read (reader s) → (bits_left (reader s) < fuel)%nat →
  loop_run start_code_turn fuel (v, c, s) (find_start_code fuel v c s).
Proof.
  induction fuel as [|fuel IH]; intros v c s Hs Hf; [lia|]. cbn [find_start_code]. unfold mbind, parse_bind.
  unfold more, get_state. cbn [option_bind mbind].
  destruct (negb (v =? 1) && more_bits (reader s)) eqn:Eb.
  2:{ apply loop_leaves. unfold start_code_turn. by rewrite Eb. }
  destruct (bits 8 s) as [[b s1]|] eqn:E; cbn [mbind option_bind].
  - apply bits_takes in E as H; [|done|lia]. destruct H as [H1 H2].
    eapply loop_goes_on; [|apply IH; [done|lia]]. unfold start_code_turn. by rewrite Eb, E.
  - apply loop_undefined. unfold start_code_turn. by rewrite Eb, E.
Qed.

Lemma sei_number_run fuel : ∀ x t s, 0 ≤ bits_read (reader s) → (bits_left (reader s) < fuel)%nat →
  loop_run number_turn fuel (x, t, s) (sei_number fuel x t s).
Proof.
  induction fuel as [|fuel IH]; intros x t s Hs Hf; [lia|]. cbn [sei_number]. unfold mbind, parse_bind.
  destruct (bits 8 s) as [[b s1]|] eqn:E.
  2:{ apply loop_undefined. unfold number_turn. by rewrite E. }
  cbn [option_bind mbind]. cbv zeta. apply bits_takes in E as H; [|done|lia]. destruct H as [H1 H2].
  destruct (b =? 255) eqn:Eb.
  - eapply loop_goes_on; [|apply IH; [done|lia]]. unfold number_turn. rewrite E. cbn [mbind option_bind]. by rewrite Eb.
  - apply loop_leaves. unfold number_turn. rewrite E. cbn [mbind option_bind]. by rewrite Eb.
Qed.

Lemma count_zeros_run fuel : ∀ n r, 0 ≤ bits_read r → (bits_left r < fuel)%nat →
  loop_run zero_bits_turn fuel (n, r) (count_zeros fuel n r).
Proof.
  induction fuel as [|fuel IH]; intros n r Hr Hf; [lia|]. cbn [count_zeros].
  destruct (extract_bits 1 r) as [[b r1]|] eqn:E.
  2:{ apply loop_undefined. unfold zero_bits_turn. by rewrite E. }
  cbn [option_bind mbind]. apply extract_bits_left in E as H; [|done|lia]. destruct H as [H1 H2].
  destruct ((b =? 0) && more_bits r1) eqn:Eb.
  - eapply loop_goes_on; [|apply IH; [done|lia]]. unfold zero_bits_turn. rewrite E. cbn [mbind option_bind]. by rewrite Eb.
  - apply loop_leaves. unfold zero_bits_turn. rewrite E. cbn [mbind option_bind]. by rewrite Eb.
Qed.

Lemma count_zeros_takes fuel : ∀ n r v r', count_zeros fuel n r = Some (v, r') → 0 ≤ bits_read r →
  n ≤ v ∧ 0 ≤ bits_read r' ∧ (bits_left r' < bits_left r)%nat.
Proof.
  induction fuel as [|fuel IH]; intros n r v r' E Hr; [done|]. cbn [count_zeros] in E.
  apply bind_Some in E as ([b r1] & E1 & E). apply extract_bits_left in E1 as [H1 H2]; [|done|lia].
  destruct (_ && _); [|injection E as <- <-; lia]. apply IH in E as (? & ? & ?); [|done]. lia.
Qed.

Lemma uev_takes r v r' : uev r = Some (v, r') → 0 ≤ bits_read r → 0 ≤ bits_read r' ∧ (bits_left r' < bits_left r)%nat.
Proof.
  intros E Hr. apply bind_Some in E as ([z r1] & E1 & E). apply count_zeros_takes in E1 as (Hz & H1 & H2); [|done].
  destruct (Z.eqb_spec z 0); [by injection E as _ <-|]. apply bind_Some in E as (h & Hh & E).
  unfold ones in Hh. destruct (Z.ltb_spec z 31); [|done].
  apply bind_Some in E as ([l r2] & E2 & E). injection E as _ <-. apply extract_bits_left in E2 as [? ?]; [lia|done|lia].
Qed.

Lemma skip_sev_run fuel : ∀ n s, 0 ≤ bits_read (reader s) → (bits_left (reader s) < fuel)%nat →
  loop_run skip_turn fuel (n, s) (skip_sev fuel n s).
Proof.
  induction fuel as [|fuel IH]; intros n s Hs Hf; [lia|]. cbn [skip_sev].
  destruct (n <=? 0) eqn:En; [apply loop_leaves; unfold skip_turn; by rewrite En|].
  unfold mbind, parse_bind. destruct (se s) as [[v s1]|] eqn:E; cbn [option_bind mbind].
  2:{ apply loop_undefined. unfold skip_turn. by rewrite En, E. }
  eapply loop_goes_on; [unfold skip_turn; by rewrite En, E|].
  unfold se, on_reader in E. apply bind_Some in E as ([v' r] & E & [= <- <-]).
  apply bind_Some in E as ([c r1] & E & [= _ <-]). apply uev_takes in E as [H1 H2]; [|done].
  apply IH; cbn [reader set_reader]; [done|lia].
Qed.

(** ** The size of a message *)
(** A reader of a unit of [L] bytes: what it has skipped and may still read. *)
Record reader_len (L : Z) (r : bit_reader) : Prop := {
  rl_bits : 0 ≤ bits_read r;
  rl_word : 0 ≤ curr_32_bit r < 2 ^ 32;
  rl_skips : 0 ≤ emulation_code_skip_cntr r;
  rl_bytes : emulation_code_skip_cntr r + Z.of_nat (length (bitstream r)) ≤ L;
  rl_left : bits_read r + 8 * Z.of_nat (length (bitstream r)) ≤ 8 * L
}.

Lemma read_bytes_skips en l : ∀ curr bits zeros skips, 0 ≤ skips →
  let r := read_bytes en l curr bits zeros skips in
  0 ≤ emulation_code_skip_cntr r ∧ emulation_code_skip_cntr r + Z.of_nat (length (bitstream r)) ≤ skips + Z.of_nat (length l).
Proof.
  induction l as [|b l IH]; intros curr bits zeros skips Hs; cbn [read_bytes]; [cbn; lia|].
  destruct (bits <? 32); [|cbn; lia]. cbn [length]. destruct (_ && _ && _).
  - specialize (IH curr bits (if b =? 0 then zeros + 1 else 0) (skips + 1) ltac:(lia)). cbv zeta in *. lia.
  - specialize (IH (Z.lor (wrap_unsigned 32 (Z.shiftl curr 8)) b) (bits + 8) (if b =? 0 then zeros + 1 else 0) skips Hs).
    cbv zeta in *. lia.
Qed.

Lemma shl32_range x n y : shl32 x n = Some y → 0 ≤ y < 2 ^ 32.
Proof. unfold shl32. destruct (_ && _); [|done]. intros [= <-]. by apply wrap_unsigned_range. Qed.

Lemma shr32_range x n y k : shr32 x (32 - n) = Some y → 0 ≤ x < 2 ^ 32 → n ≤ k → 0 ≤ y < 2 ^ k ∧ 1 ≤ n ≤ 32.
Proof.
  unfold shr32. destruct (Z.leb_spec 0 (32 - n)), (Z.ltb_spec (32 - n) 32); try done. intros [= <-] Hx Hk.
  split; [|lia]. rewrite Z.shiftr_div_pow2 by lia. split; [apply Z.div_pos; [lia|apply Z.pow_pos_nonneg; lia]|].
  apply Z.lt_le_trans with (2 ^ n); [|apply Z.pow_le_mono_r; lia].
  apply Z.div_lt_upper_bound; [apply Z.pow_pos_nonneg; lia|]. rewrite <- Z.pow_add_r by lia.
  replace (32 - n + n) with 32 by lia. lia.
Qed.

Lemma lor_range x y k : 0 ≤ k → 0 ≤ x < 2 ^ k → 0 ≤ y < 2 ^ k → 0 ≤ Z.lor x y < 2 ^ k.
Proof.
  intros Hk Hx Hy. split; [by apply Z.lor_nonneg; lia|].
  destruct (Z.eq_dec (Z.lor x y) 0) as [->|]; [lia|]. apply Z.log2_lt_pow2; [pose proof (Z.lor_nonneg x y); lia|].
  rewrite Z.log2_lor by lia. destruct (Z.eq_dec k 0) as [->|]; [change (2 ^ 0) with 1 in *; assert (x = 0) by lia; assert (y = 0) by lia; subst; done|].
  apply Z.max_lub_lt; [destruct (Z.eq_dec x 0) as [->|]; [simpl; lia|apply Z.log2_lt_pow2; lia]|
    destruct (Z.eq_dec y 0) as [->|]; [simpl; lia|apply Z.log2_lt_pow2; lia]].
Qed.

Lemma take_bits_len L v n r x : take_bits v n r = Some x → reader_len L r → n ≤ bits_read r → 0 ≤ n →
  x.1 = v ∧ reader_len L x.2.
Proof.
  unfold take_bits. intros E [H1 H2 H3 H4 H5] Hn H0. apply bind_Some in E as (c & Hc & [= <-]). cbn. split; [done|].
  apply shl32_range in Hc. split; cbn; lia.
Qed.

Lemma extract_len L n r v r' : extract_bits n r = Some (v, r') → reader_len L r →
  reader_len L r' ∧ (n ≤ 32 → 0 ≤ v < 2 ^ n).
Proof.
  intros E Hr. unfold extract_bits in E. destruct (Z.ltb_spec 32 n); [injection E as <- <-; split; [done|lia]|].
  apply bind_Some in E as (v1 & Ev & E). apply (shr32_range _ _ _ n) in Ev as [Hv Hn]; [|apply Hr|lia].
  destruct (Z.ltb_spec (bits_read r) n) as [Hlt|Hge].
  2:{ apply (take_bits_len L) in E as [E1 E2]; [cbn in E1, E2; by subst v|done|lia|lia]. }
  apply bind_Some in E as (r2 & Hr2 & E). pose proof (read_word_left _ _ Hr2) as [Hp Hl].
  assert (reader_len L r2) as Hlen.
  { destruct Hr as [R1 R2 R3 R4 R5]. unfold read_word in Hr2. pose proof (read_bytes_skips (emulation_sc_enabled r) (bitstream r) 0 0
      (zero_cntr r) (emulation_code_skip_cntr r) R3) as Hs. cbv zeta in Hs. set (r3 := read_bytes _ _ _ _ _ _) in *.
    apply bind_Some in Hr2 as (c & Hc & [= <-]). apply shl32_range in Hc. cbn in *. split; cbn; lia. }
  apply bind_Some in E as (m & Em & E). pose proof (rl_bits _ _ Hr) as Hr0.
  apply (shr32_range _ _ _ n) in Em as [Hm Hn2]; [|apply Hlen|lia].
  pose proof (lor_range v1 m n ltac:(lia) Hv Hm) as Hor.
  destruct (Z.ltb_spec (bits_read r2) (n - bits_read r)) as [Hlt2|Hge2].
  - apply bind_Some in E as (v2 & Ev2 & E). apply (take_bits_len L) in E as [E1 E2]; [|done|lia|apply Hlen]. cbn in E1, E2. subst v. split; [done|]. intros _.
    unfold shr32 in Ev2. destruct (_ && _); [|done]. injection Ev2 as <-. rewrite Z.shiftr_div_pow2 by lia.
    assert (0 < 2 ^ (n - bits_read r - bits_read r2)) as Hpos by (apply Z.pow_pos_nonneg; lia).
    split; [apply Z.div_pos; lia|]. apply Z.div_lt_upper_bound; [lia|]. nia.
  - apply (take_bits_len L) in E as [E1 E2]; [cbn in E1, E2; by subst v|done|lia|lia].
Qed.

Lemma reader_len_kept L : reader_kept (reader_len L).
Proof. intros n r v r' E Hr. by eapply extract_len in E as [? _]. Qed.

Lemma sei_number_bound L : ∀ fuel x t s v t' s', sei_number fuel x t s = Some ((v, t'), s') → reader_len L (reader s) →
  0 ≤ x → x + 255 * Z.of_nat fuel < 2 ^ 32 →
  0 ≤ v ≤ x + 255 * Z.of_nat fuel ∧ t < t' ≤ t + Z.of_nat fuel ∧ reader_len L (reader s').
Proof.
  induction fuel as [|fuel IH]; intros x t s v t' s' E Hs Hx Hb; [done|]. cbn [sei_number] in E.
  apply bind_Some in E as ([b s1] & Eb & E). apply bind_Some in Eb as ([b' r] & Eb & [= <- <-]).
  apply (extract_len L) in Eb as [Hr Hv]; [|done]. specialize (Hv ltac:(lia)). cbv zeta in E.
  rewrite wrap_unsigned_small in E by lia.
  destruct (b' =? 255); [|injection E as <- <- <-; cbn [reader set_reader]; split_and!; try lia; done].
  apply IH in E as (? & ? & ?); [|done|lia|lia]. split_and!; try lia; done.
Qed.

(** ** The messages of a unit *)
Lemma new_reader_len L en d : Z.of_nat (length d) ≤ L → reader_len L (new_reader en d).
Proof. intros H. split; cbn; lia. Qed.

(** One message, and where the next one begins. *)
Definition sei_message (unit : list Z) (processed_bytes : Z) : hp Z :=
  init_bitstream (drop (Z.to_nat processed_bytes) unit);;
  n ← parser_left;
  '(payload_type, t1) ← sei_number (S n) 0 0;
  n ← parser_left;
  '(payload_size, t2) ← sei_number (S n) 0 0;
  sei_payload payload_type payload_size;;
  skips ← get_state (λ s, emulation_code_skip_cntr (reader s));
  mret (wrap_unsigned 32 (processed_bytes + t1 + t2 + payload_size + skips)).

Lemma sei_messages_turn fuel unit processed s :
  sei_messages (S fuel) unit processed s =
    if (processed + 2 <? Z.of_nat (length unit)) && more_bits (reader s)
    then '(p, s') ← sei_message unit processed s; sei_messages fuel unit p s' else Some ((), s).
Proof.
  cbn [sei_messages]. unfold sei_message, mbind, parse_bind, more, get_state, parser_left. cbn [mbind option_bind].
  destruct (_ && _); [|done]. unfold init_bitstream, put_state. cbn [mbind option_bind]. unfold get_state. cbn [mbind option_bind].
  destruct (sei_number _ 0 0 _) as [[[k t1] s1]|]; [|done]. cbn [mbind option_bind].
  destruct (sei_number _ 0 0 _) as [[[z t2] s2]|]; [|done]. cbn [mbind option_bind].
  destruct (sei_payload k z s2) as [[x s3]|]; done.
Qed.

Lemma sei_message_next total unit processed s p s' : Z.of_nat (length unit) ≤ 2 ^ 20 →
  sei_message unit processed s = Some (p, s') → parser_ok total s → 0 ≤ processed < Z.of_nat (length unit) →
  processed + 2 ≤ p ∧ parser_ok total s'.
Proof.
  intros HL E [_ S1 S2 S3] Hp. set (L := Z.of_nat (length unit)) in *.
  unfold sei_message, mbind, parse_bind, init_bitstream, put_state, parser_left, get_state in E. cbn [mbind option_bind] in E.
  set (s0 := set_reader _ s) in E.
  assert (reader_len L (reader s0)) as Hs0 by (apply new_reader_len; rewrite length_drop; lia).
  assert (∀ st, reader_len L (reader st) → 255 * Z.of_nat (S (bits_left (reader st))) < 2 ^ 31 + 2 ^ 10) as Hleft.
  { intros st [R1 R2 R3 R4 R5]. unfold bits_left. lia. }
  assert (∀ st, reader_len L (reader st) → Z.of_nat (S (bits_left (reader st))) ≤ 2 ^ 24) as Hturns.
  { intros st [R1 R2 R3 R4 R5]. unfold bits_left. lia. }
  assert (∀ f st x s1, sei_number f 0 0 st = Some (x, s1) → parser_shape (reader_len L) (pan_ok total) st →
    parser_shape (reader_len L) (pan_ok total) s1) as Hkeep.
  { intros f st x s1 Ex Hst. by destruct (sei_number_saves (reader_len L) (pan_ok total) (reader_len_kept L) f 0 0 st x s1 Ex Hst). }
  assert (parser_shape (reader_len L) (pan_ok total) s0) as P0 by (by split).
  apply bind_Some in E as ([[k t1] s1] & E1 & E). pose proof (Hkeep _ _ _ _ E1 P0) as P1.
  apply (sei_number_bound L) in E1 as (Hk & Ht1 & R1); [|done|lia|specialize (Hleft _ Hs0); lia].
  apply bind_Some in E as ([[z t2] s2] & E2 & E). pose proof (Hkeep _ _ _ _ E2 P1) as P2.
  apply (sei_number_bound L) in E2 as (Hz & Ht2 & R2); [|done|lia|specialize (Hleft _ R1); lia].
  apply bind_Some in E as ([x s3] & E3 & E).
  destruct (sei_payload_saves (reader_len L) total (reader_len_kept L) k z s2 x s3 E3 P2) as [P3 _].
  injection E as <- <-. specialize (Hturns _ Hs0) as T0. specialize (Hturns _ R1) as T1. specialize (Hleft _ R1).
  destruct P3 as [R3 Q1 Q2 Q3]. pose proof (rl_skips _ _ R3). pose proof (rl_bytes _ _ R3).
  rewrite wrap_unsigned_small by lia. split; [lia|]. by split.
Qed.

(** The loop over the messages. *)
Definition message_turn (unit : list Z) (x : Z * h264_stream_parser) :
    option (Z * h264_stream_parser + () * h264_stream_parser) :=
  let '(processed, s) := x in
  if (processed + 2 <? Z.of_nat (length unit)) && more_bits (reader s)
  then '(p, s) ← sei_message unit processed s; Some (inl (p, s))
  else Some (inr ((), s)).

Lemma sei_messages_run total unit : Z.of_nat (length unit) ≤ 2 ^ 20 → ∀ fuel processed s,
  parser_ok total s → 0 ≤ processed → Z.of_nat (length unit) ≤ processed + Z.of_nat fuel →
  loop_run (message_turn unit) (S fuel) (processed, s) (sei_messages fuel unit processed s).
Proof.
  intros HL. induction fuel as [|fuel IH]; intros processed s Hs Hp Hf.
  - cbn [sei_messages]. unfold mbind, parse_bind, more, get_state. cbn [mbind option_bind].
    rewrite (proj2 (Z.ltb_ge (processed + 2) (Z.of_nat (length unit)))) by lia. cbn [andb].
    apply loop_leaves. unfold message_turn. by rewrite (proj2 (Z.ltb_ge _ _)) by lia.
  - rewrite sei_messages_turn.
    destruct ((processed + 2 <? Z.of_nat (length unit)) && more_bits (reader s)) eqn:Eb.
    2:{ apply loop_leaves. unfold message_turn. by rewrite Eb. }
    destruct (sei_message unit processed s) as [[p s']|] eqn:E; cbn [mbind option_bind].
    2:{ apply loop_undefined. unfold message_turn. by rewrite Eb, E. }
    eapply loop_goes_on; [unfold message_turn; by rewrite Eb, E|].
    apply andb_true_iff in Eb as [Eb%Z.ltb_lt _].
    apply (sei_message_next total) in E as [Hp' Hs']; [|done|done|lia]. apply IH; [done|lia|lia].
Qed.

(** C38: Every loop of the parsers ends, in what the function of the model
    computes, if the reader has no negative number of bits: each loop on bits
    (that of the Exp-Golomb codes included) after at most one turn more than
    there are bits left; and the loop over the SEI messages of a unit of at
    most a mebibyte, from a well-formed state, after at most one turn more
    than the unit has bytes, where each message moves the position forward by
    at least two bytes, so that it does not wrap around. *)
Theorem parser_loops_end total s unit :
  0 ≤ bits_read (reader s) → parser_ok total s → Z.of_nat (length unit) ≤ 2 ^ 20 →
  let n := S (bits_left (reader s)) in
  loop_run zeros_turn n s (discard_zeros n s) ∧
  (∀ v c, loop_run start_code_turn n (v, c, s) (find_start_code n v c s)) ∧
  (∀ x t, loop_run number_turn n (x, t, s) (sei_number n x t s)) ∧
  (∀ k, loop_run skip_turn n (k, s) (skip_sev n k s)) ∧
  (∀ k, loop_run zero_bits_turn n (k, reader s) (count_zeros n k (reader s))) ∧
  loop_run (message_turn unit) (S (length unit)) (0, s) (sei_messages (length unit) unit 0 s) ∧
  (∀ p p' s', 0 ≤ p < Z.of_nat (length unit) → message_turn unit (p, s) = Some (inl (p', s')) →
     p + 2 ≤ p' ∧ parser_ok total s').
Proof.
  intros Hb Hs HL n. split_and!.
  - apply discard_zeros_run; [done|unfold n; lia].
  - intros v c. apply find_start_code_run; [done|unfold n; lia].
  - intros x t. apply sei_number_run; [done|unfold n; lia].
  - intros k. apply skip_sev_run; [done|unfold n; lia].
  - intros k. apply count_zeros_run; [done|unfold n; lia].
  - eapply sei_messages_run; [done|done|lia|lia].
  - intros p p' s' Hp E. unfold message_turn in E. destruct (_ && _); [|done].
    apply bind_Some in E as ([q s1] & E & [= <- <-]). by apply (sei_message_next total) in E.
Qed.

Lemma parser_loops_end_witness :
  let s := set_reader (new_reader true [0; 0; 1; 6; 5; 255]) start_parser in
  loop_run (message_turn [5; 1; 0; 128]) 5 (0, s) (sei_messages 4 [5; 1; 0; 128] 0 s) ∧
  is_Some (sei_messages 4 [5; 1; 0; 128] 0 s).
Proof.
  split.
  - apply (parser_loops_end 2 (set_reader (new_reader true [0; 0; 1; 6; 5; 255]) start_parser) [5; 1; 0; 128]);
      [simpl; lia| |simpl; lia]. destruct start_parser_ok as [H0 H1 H2 H3]. by split.
  - vm_compute. eauto.
Defined.
