(* ===== verification/NalFrames.v ===== *)
(** * Frame boundaries in NAL units

    Models [RbspParser] and [H264_Utils] of [vidc/vdec/src/h264_utils.cpp] and
    [HEVC_Utils] of [vidc/vdec/src/hevc_utils.cpp]: whether a NAL unit begins a
    new frame.  A buffer is the list of its filled bytes; [Undefined] is a read
    past them, a write past the memory for the payload, a shift that is not
    defined, or the use of a header that was never read.  [boolean] is
    [unsigned char]. *)
From S2P Require Import Prelude FrameParser H264Bits H264Parser.
Local Open Scope Z_scope.

Definition NALU_TYPE_NON_IDR : Z := 1.
Definition NALU_TYPE_IDR : Z := 5.
Definition NALU_TYPE_PPS : Z := 8.
Definition NALU_TYPE_EOSEQ : Z := 10.
Definition NALU_TYPE_EOSTREAM : Z := 11.

(** ** Memory *)
Definition read (buffer : list Z) (pos : Z) : outcome Z :=
  match buffer !! Z.to_nat pos with Some b => Done b | None => Undefined end.

Definition write (mem : list Z) (pos v : Z) : outcome (list Z) :=
  if pos <? Z.of_nat (length mem) then Done (<[Z.to_nat pos := v]> mem) else Undefined.

Definition defined {A} (o : option A) : outcome A := match o with Some a => Done a | None => Undefined end.

(** ** The payload of a NAL unit *)
Record NALU := Nalu { nal_ref_idc : Z; nalu_type : Z; forbidden_zero_bit : Z }.

(** The search for 0 0 1; the position behind it, or [None] at the end. *)
Fixpoint find_prefix (fuel : nat) (buffer : list Z) (buffer_length coef2 coef3 pos : Z) : outcome (option Z) :=
  match fuel with
  | O => NoFuel
  | S fuel =>
      if buffer_length <=? pos then Done None
      else
        b ← read buffer pos;
        if negb (coef2 =? 0) || negb (coef3 =? 0) || negb (b =? 1)
        then find_prefix fuel buffer buffer_length coef3 b (pos + 1)
        else Done (Some (pos + 1))
  end.

Definition start_code_end (buffer : list Z) (buffer_length : Z) : outcome (option Z) :=
  coef2 ← read buffer 0;
  coef3 ← read buffer 1;
  find_prefix (S (length buffer)) buffer buffer_length coef2 coef3 2.

(** The length in front of a unit; [n] bytes of it are left. *)
Fixpoint read_nal_len (n : nat) (buffer : list Z) (pos nal_len : Z) : outcome (Z * Z) :=
  match n with
  | O => Done (nal_len, pos)
  | S n =>
      b ← read buffer pos;
      if 3 <? Z.of_nat n then Undefined
      else read_nal_len n buffer (pos + 1) (Z.lor nal_len (Z.shiftl b (8 * Z.of_nat n)))
  end.

(** Where the header is and the length of the unit, or [None]. *)
Definition locate_nal (buffer : list Z) (buffer_length size_of_nal_length_field : Z) : outcome (option (Z * Z)) :=
  if size_of_nal_length_field =? 0 then
    o ← start_code_end buffer buffer_length;
    Done match o with Some pos => Some (pos, buffer_length) | None => None end
  else
    '(nal_len, pos) ← read_nal_len (Z.to_nat size_of_nal_length_field) buffer 0 0;
    Done (if buffer_length <=? nal_len then None else Some (pos, nal_len)).

(** The loop that takes the emulation prevention bytes out: the value returned,
    the memory and [*rbsp_length]. *)
Fixpoint extract_loop (fuel : nat) (buffer : list Z) (stop : Z) (start_code : bool) (pos zero_count : Z)
    (rbsp : list Z) (rbsp_length : Z) : outcome (Z * list Z * Z) :=
  match fuel with
  | O => NoFuel
  | S fuel =>
      if stop <=? pos then Done (1, rbsp, rbsp_length)
      else
        b ← read buffer pos;
        if (zero_count =? 2) && (b =? 3) then extract_loop fuel buffer stop start_code (pos + 1) 0 rbsp rbsp_length
        else if (zero_count =? 2) && (b <=? 1) && start_code
        then Done (wrap_unsigned 8 (pos - 2), rbsp, wrap_unsigned 32 (rbsp_length - 2))
        else
          let zero_count := if b =? 0 then (if zero_count =? 2 then 0 else zero_count) + 1 else 0 in
          rbsp ← write rbsp rbsp_length b;
          extract_loop fuel buffer stop start_code (pos + 1) zero_count rbsp (rbsp_length + 1)
  end.

Record extracted := Extracted {
  ex_ret : Z;
  ex_nal : option NALU;
  ex_rbsp : list Z;
  ex_length : Z
}.

Definition extract_rbsp (buffer : list Z) (size_of_nal_length_field : Z) (rbsp : list Z) : outcome extracted :=
  let buffer_length := Z.of_nat (length buffer) in
  o ← locate_nal buffer buffer_length size_of_nal_length_field;
  match o with
  | None => Done (Extracted 0 None rbsp 0)
  | Some (pos, nal_len) =>
      let stop := wrap_unsigned 32 (nal_len + size_of_nal_length_field) in
      if stop <? pos + 1 then Done (Extracted 0 None rbsp 0)
      else
        h ← read buffer pos;
        let nal := Nalu (Z.shiftr (Z.land h 0x60) 5) (Z.land h 0x1f) (Z.land h 0x80) in
        if (nalu_type nal =? NALU_TYPE_EOSEQ) || (nalu_type nal =? NALU_TYPE_EOSTREAM)
        then Done (Extracted (wrap_unsigned 8 stop) (Some nal) rbsp 0)
        else
          '(ret, rbsp, len) ←
            extract_loop (S (length buffer)) buffer stop (size_of_nal_length_field =? 0) (pos + 1) 0 rbsp 0;
          Done (Extracted ret (Some nal) rbsp len)
  end.

(** ** The bits of a payload *)
Record RbspParser := Rbsp {
  rp_begin : list Z;
  rp_pos : Z;
  rp_bit : Z;
  rp_cursor : Z;
  advanceNeeded : bool
}.

Definition new_rbsp (begin : list Z) : RbspParser := Rbsp begin (-1) 0 0xFFFFFF true.

(** The second byte read cannot be an emulation prevention byte again: see
    [advance_twice]. *)
Fixpoint advance (fuel : nat) (p : RbspParser) : outcome RbspParser :=
  match fuel with
  | O => NoFuel
  | S fuel =>
      let pos := rp_pos p + 1 in
      b ← read (rp_begin p) pos;
      let cursor := Z.lor (wrap_unsigned 32 (Z.shiftl (rp_cursor p) 8)) b in
      let p := Rbsp (rp_begin p) pos (rp_bit p) cursor false in
      if Z.land cursor 0xFFFFFF =? 3 then advance fuel p else Done p
  end.

Definition next (p : RbspParser) : outcome (Z * RbspParser) :=
  p ← (if advanceNeeded p then advance 2 p else Done p);
  b ← read (rp_begin p) (rp_pos p);
  Done (b, p).

(** [u]; at least one bit is taken in each turn. *)
Fixpoint rbsp_u (fuel : nat) (n i x : Z) (p : RbspParser) : outcome (Z * RbspParser) :=
  if n <=? i then Done (x, p)
  else match fuel with
       | O => NoFuel
       | S fuel =>
           let s := Z.min (8 - rp_bit p) (n - i) in
           '(b, p) ← next p;
           let x := Z.lor (wrap_unsigned 32 (Z.shiftl x s)) (Z.land (Z.shiftr b (8 - rp_bit p - s)) (2 ^ s - 1)) in
           let bit := (rp_bit p + s) mod 8 in
           rbsp_u fuel n (i + s) x (Rbsp (rp_begin p) (rp_pos p) bit (rp_cursor p) (advanceNeeded p || (bit =? 0)))
       end.

Definition u_bits (n : Z) (p : RbspParser) : outcome (Z * RbspParser) := rbsp_u (Z.to_nat n) n 0 0 p.

Fixpoint rbsp_zeros (fuel : nat) (n : Z) (p : RbspParser) : outcome (Z * RbspParser) :=
  match fuel with
  | O => NoFuel
  | S fuel =>
      '(b, p) ← u_bits 1 p;
      if b =? 0 then rbsp_zeros fuel (n + 1) p else Done (n, p)
  end.

Definition rbsp_ue (p : RbspParser) : outcome (Z * RbspParser) :=
  '(leadingZeroBits, p) ← rbsp_zeros (S (8 * length (rp_begin p))) 0 p;
  high ← defined (ones leadingZeroBits);
  '(low, p) ← u_bits leadingZeroBits p;
  Done (wrap_unsigned 32 (high + low), p).

(** ** H.264 *)
(** [m_prv_nalu] and the public [nalu_type] are [None] while they have no
    value. *)
Record H264_Utils := H264Utils {
  m_rbspBytes : list Z;
  m_prv_nalu : option NALU;
  m_forceToStichNextNAL : bool;
  m_au_data : bool;
  last_nalu_type : option Z
}.

Definition no_nalu : NALU := Nalu 0 NALU_TYPE_UNSPECIFIED 0.

Definition new_h264_utils : H264_Utils := H264Utils [] (Some no_nalu) false false None.

Definition initialize_frame_checking_environment (t : H264_Utils) : H264_Utils :=
  H264Utils (m_rbspBytes t) (Some no_nalu) false false (last_nalu_type t).

Definition allocate_rbsp_buffer (inputBufferSize : Z) (t : H264_Utils) : H264_Utils :=
  H264Utils (zeros inputBufferSize) (Some no_nalu) (m_forceToStichNextNAL t) (m_au_data t) (last_nalu_type t).

(** Whether a slice begins a new frame, with the previous header. *)
Definition slice_is_new (first_mb_in_slice : Z) (prv : option NALU) (nal : NALU) : outcome bool :=
  if first_mb_in_slice =? 0 then Done true
  else
    prv ← defined prv;
    Done (negb (nal_ref_idc prv =? nal_ref_idc nal) && (wrap_unsigned 32 (nal_ref_idc nal * nal_ref_idc prv) =? 0)
       || negb (nalu_type prv =? nalu_type nal) && ((nalu_type prv =? NALU_TYPE_IDR) || (nalu_type nal =? NALU_TYPE_IDR))).

(** The value returned and [isNewFrame]. *)
Definition isNewFrame (buffer : list Z) (size_of_nal_length_field : Z) (t : H264_Utils) :
    outcome (bool * bool * H264_Utils) :=
  e ← extract_rbsp buffer size_of_nal_length_field (m_rbspBytes t);
  let rbsp := ex_rbsp e in
  if ex_ret e =? 0
  then Done (false, false, H264Utils rbsp (ex_nal e) (m_forceToStichNextNAL t) (m_au_data t) (last_nalu_type t))
  else
    nal ← defined (ex_nal e);
    let k := nalu_type nal in
    if (k =? NALU_TYPE_IDR) || (k =? NALU_TYPE_NON_IDR) then
      new ← (if m_forceToStichNextNAL t then Done false
             else
               '(first_mb, _) ← rbsp_ue (new_rbsp rbsp);
               slice_is_new (wrap_unsigned 16 first_mb) (m_prv_nalu t) nal);
      Done (true, new, H264Utils rbsp (Some nal) false true (Some k))
    else if (k =? NALU_TYPE_SPS) || (k =? NALU_TYPE_PPS) || (k =? NALU_TYPE_SEI) then
      Done (true, m_au_data t, H264Utils rbsp (Some nal) true false (Some k))
    else Done (true, false, H264Utils rbsp (Some nal) (m_forceToStichNextNAL t) (m_au_data t) (Some k)).

(** ** HEVC *)
Definition NAL_UNIT_RESERVED_23 : Z := 23.
Definition NAL_UNIT_VPS : Z := 32.
Definition NAL_UNIT_SPS : Z := 33.
Definition NAL_UNIT_PPS : Z := 34.
Definition NAL_UNIT_SEI : Z := 39.
Definition NAL_UNIT_INVALID : Z := 64.

Record HEVC_Utils := HevcUtils {
  hevc_forceToStichNextNAL : bool;
  hevc_au_data : bool;
  hevc_nalu_type : Z
}.

Definition hevc_initialize : HEVC_Utils := HevcUtils false false NAL_UNIT_INVALID.

(** [None] in the place of [isNewFrame]: it is not written. *)
Definition hevc_isNewFrame (buffer : list Z) (size_of_nal_length_field : Z) (t : HEVC_Utils) :
    outcome (bool * option bool * HEVC_Utils) :=
  o ← locate_nal buffer (Z.of_nat (length buffer)) size_of_nal_length_field;
  match o with
  | None => Done (false, None, t)
  | Some (pos, nal_len) =>
      if wrap_unsigned 32 (nal_len + size_of_nal_length_field) <? pos + 2 then Done (false, None, t)
      else
        h ← read buffer pos;
        let k := Z.shiftr (Z.land h 0x7E) 1 in
        if (k =? NAL_UNIT_VPS) || (k =? NAL_UNIT_SPS) || (k =? NAL_UNIT_PPS) || (k =? NAL_UNIT_SEI) then
          Done (true, Some (hevc_au_data t), HevcUtils true false k)
        else if k <=? NAL_UNIT_RESERVED_23 then
          new ← (if hevc_forceToStichNextNAL t then Done false
                 else b ← read buffer (pos + 2); Done (negb (Z.land b 0x80 =? 0)));
          Done (true, Some new, HevcUtils false true k)
        else Done (true, Some false, HevcUtils (hevc_forceToStichNextNAL t) (hevc_au_data t) k)
  end.

(** ** Lemmas *)
Lemma read_at (a : list Z) b l pos : pos = Z.of_nat (length a) → read (a ++ b :: l) pos = Done b.
Proof. intros ->. unfold read. by rewrite Nat2Z.id, list_lookup_middle. Qed.

Lemma write_at (a : list Z) b l v pos : pos = Z.of_nat (length a) → write (a ++ b :: l) pos v = Done (a ++ v :: l).
Proof.
  intros ->. unfold write. rewrite (proj2 (Z.ltb_lt _ _)) by (rewrite length_app; simpl; lia).
  rewrite Nat2Z.id. rewrite <- (Nat.add_0_r (length a)) at 1. by rewrite insert_app_r.
Qed.

Lemma find_prefix_zeros z : ∀ fuel a l pos, pos = Z.of_nat (length a) → (z < fuel)%nat →
  find_prefix fuel (a ++ repeat 0 z ++ 1 :: l) (Z.of_nat (length (a ++ repeat 0 z ++ 1 :: l))) 0 0 pos =
    Done (Some (pos + Z.of_nat z + 1)).
Proof.
  induction z as [|z IH]; intros fuel a l pos Hpos Hf; (destruct fuel as [|fuel]; [lia|]); cbn [find_prefix repeat app].
  - rewrite (proj2 (Z.leb_gt _ _)), (read_at a 1 l) by (rewrite ?length_app; simpl; lia || done).
    cbn. by rewrite Z.add_0_r.
  - rewrite (proj2 (Z.leb_gt _ _)), (read_at a 0 (repeat 0 z ++ 1 :: l)) by (rewrite ?length_app; simpl; lia || done).
    cbn [mbind outcome_bind Z.eqb negb orb]. 
    replace (a ++ 0 :: repeat 0 z ++ 1 :: l) with ((a ++ [0]) ++ repeat 0 z ++ 1 :: l) by (by rewrite <- app_assoc).
    rewrite IH by (rewrite ?length_app; simpl; lia). do 2 f_equal. lia.
Qed.

(** The start code of a unit that has zeros in front of it. *)
Lemma start_code_found z l : let buffer := repeat 0 z ++ [0; 0; 1] ++ l in
  start_code_end buffer (Z.of_nat (length buffer)) = Done (Some (Z.of_nat z + 3)).
Proof.
  intros buffer. assert (buffer = [0; 0] ++ repeat 0 z ++ 1 :: l) as Hb.
  { unfold buffer. clear buffer. induction z as [|z IH]; [done|]. cbn [repeat app] in *. by rewrite IH. }
  rewrite Hb. unfold start_code_end. cbn [read app lookup list_lookup Z.to_nat mbind outcome_bind].
  change (read (0 :: 0 :: repeat 0 z ++ 1 :: l) 0) with (Done 0).
  change (read (0 :: 0 :: repeat 0 z ++ 1 :: l) 1) with (Done 0). cbn [mbind outcome_bind].
  change (0 :: 0 :: repeat 0 z ++ 1 :: l) with ([0; 0] ++ repeat 0 z ++ 1 :: l).
  rewrite find_prefix_zeros by (rewrite ?length_app, ?repeat_length; simpl; lia). do 2 f_equal. lia.
Qed.

Lemma escape_length_le zs l : (length l ≤ length (escape zs l))%nat.
Proof.
  revert zs. induction l as [|b l IH]; intros zs; [done|]. cbn [escape length].
  destruct (_ && _); cbn [length]; [specialize (IH (if b =? 0 then 1 else 0))|specialize (IH (if b =? 0 then zs + 1 else 0))]; lia.
Qed.

(** The count of zeros behind a payload. *)
Fixpoint zeros_after (zc : Z) (l : list Z) : Z :=
  match l with
  | [] => zc
  | b :: l => zeros_after (if b =? 0 then (if zc =? 2 then 1 else zc + 1) else 0) l
  end.

Lemma zeros_after_last zc l b : b ≠ 0 → zeros_after zc (l ++ [b]) = 0.
Proof.
  intros Hb. revert zc. induction l as [|x l IH]; intros zc; cbn [app zeros_after]; [by rewrite (proj2 (Z.eqb_neq b 0))|].
  apply IH.
Qed.

(** The escaped payload is copied, whatever comes behind it. *)
Lemma extract_loop_escape l : ∀ zc a out rest t sc pos len fuel,
  0 ≤ zc ≤ 2 → pos = Z.of_nat (length a) → len = Z.of_nat (length out) → (length l ≤ length rest)%nat →
  let buffer := a ++ escape zc l ++ t in
  extract_loop (length (escape zc l) + fuel) buffer (Z.of_nat (length buffer)) sc pos zc (out ++ rest) len =
  extract_loop fuel buffer (Z.of_nat (length buffer)) sc (pos + Z.of_nat (length (escape zc l))) (zeros_after zc l)
    (out ++ l ++ drop (length l) rest) (len + Z.of_nat (length l)).
Proof.
  induction l as [|b l IH]; intros zc a out rest t sc pos len fuel Hzc Hpos Hlen Hl.
  { cbn. by rewrite !Z.add_0_r. }
  destruct rest as [|r rest]; [simpl in Hl; lia|]. cbn [length] in Hl.
  (* one byte is copied *)
  assert (∀ (zc0 : Z) (a : list Z) (pos : Z), pos = Z.of_nat (length a) → (zc0 = 2 → 1 < b ∧ b ≠ 3) → 0 ≤ zc0 ≤ 2 →
    let z' := (if b =? 0 then zc0 + 1 else 0)%Z in
    let E := escape z' l in
    let buffer := a ++ (b :: E) ++ t in
    extract_loop (length (b :: E) + fuel) buffer (Z.of_nat (length buffer)) sc pos zc0 (out ++ r :: rest) len =
    extract_loop fuel buffer (Z.of_nat (length buffer)) sc (pos + Z.of_nat (length (b :: E))) (zeros_after z' l)
      (out ++ (b :: l) ++ drop (length (b :: l)) (r :: rest)) (len + Z.of_nat (length (b :: l)))) as Hcopy.
  { clear Hpos Hzc pos a zc. intros zc0 a pos Hpos H2 Hz0 z' E buffer.
    assert (0 ≤ z' ≤ 2) as Hz'.
    { unfold z'. destruct (Z.eqb_spec b 0); [|lia]. destruct (Z.eq_dec zc0 2) as [e2|]; [destruct (H2 e2)|]; lia. }
    assert (buffer = (a ++ [b]) ++ E ++ t) as Eb by (unfold buffer; by rewrite <- app_assoc).
    cbn [length Nat.add extract_loop].
    rewrite (proj2 (Z.leb_gt _ _)) by (unfold buffer; rewrite length_app; simpl; lia).
    assert (read buffer pos = Done b) as -> by (by apply read_at). cbn [mbind outcome_bind].
    assert ((zc0 =? 2) && (b =? 3) = false) as -> by (destruct (Z.eqb_spec zc0 2) as [e|]; [destruct (H2 e); lia|done]).
    assert ((zc0 =? 2) && (b <=? 1) = false) as -> by (destruct (Z.eqb_spec zc0 2) as [e|]; [destruct (H2 e); lia|done]).
    cbn [andb]. rewrite write_at by done. cbn [mbind outcome_bind].
    assert ((if b =? 0 then (if zc0 =? 2 then 0 else zc0) + 1 else 0) = z') as ->.
    { unfold z'. destruct (Z.eqb_spec b 0); [|done]. destruct (Z.eqb_spec zc0 2) as [e2|]; [|done]. destruct (H2 e2); lia. }
    replace (out ++ b :: rest) with ((out ++ [b]) ++ rest) by (by rewrite <- app_assoc).
    rewrite Eb. unfold E. rewrite IH by (rewrite ?length_app; simpl; lia). f_equal; [lia| |lia].
    cbn [drop app length]. by rewrite <- app_assoc. }
  cbn [escape zeros_after].
  destruct (Z.leb_spec 2 zc) as [H2|H2]; cbn [andb]; [destruct (Z.leb_spec b 3) as [H3|H3]|].
  - assert (zc = 2) as -> by lia. unfold EMULATION_PREVENTION_THREE_BYTE. cbn [Z.eqb Pos.eqb].
    replace (if b =? 0 then 1 else 0) with (if b =? 0 then 0 + 1 else 0) by done.
    specialize (Hcopy 0 (a ++ [3]) (pos + 1) ltac:(rewrite length_app; simpl; lia) ltac:(lia) ltac:(lia)). cbv zeta in Hcopy.
    set (E := escape _ l) in *. set (buffer := a ++ (3 :: b :: E) ++ t) in *.
    replace ((a ++ [3]) ++ (b :: E) ++ t) with buffer in Hcopy by (unfold buffer; by rewrite <- app_assoc).
    cbn [length Nat.add] in *. generalize dependent (S (length E + fuel))%nat. intros m Hcopy. cbn [extract_loop].
    rewrite (proj2 (Z.leb_gt _ _)) by (unfold buffer; rewrite length_app; simpl; lia).
    assert (read buffer pos = Done 3) as -> by (by apply read_at). cbn [mbind outcome_bind Z.eqb Pos.eqb andb].
    rewrite Hcopy. f_equal; lia.
  - assert (zc = 2) as -> by lia. specialize (Hcopy 2 a pos Hpos ltac:(lia) ltac:(lia)). cbv zeta in Hcopy.
    rewrite (proj2 (Z.eqb_neq b 0)) in * by lia. exact Hcopy.
  - specialize (Hcopy zc a pos Hpos ltac:(lia) ltac:(lia)). cbv zeta in Hcopy. rewrite (proj2 (Z.eqb_neq zc 2)) by lia. exact Hcopy.
Qed.

Lemma land_header header : is_byte header →
  Nalu (Z.shiftr (Z.land header 0x60) 5) (Z.land header 0x1f) (Z.land header 0x80) =
  Nalu (header / 32 mod 4) (header mod 32) (Z.land header 128).
Proof.
  intros Hb. f_equal.
  - rewrite Z.shiftr_land. change (Z.shiftr 0x60 5) with (Z.ones 2). by rewrite Z.land_ones, Z.shiftr_div_pow2 by lia.
  - change 0x1f with (Z.ones 5). by rewrite Z.land_ones by lia.
Qed.

(** A unit with [t] behind it. *)
Definition framed (z : nat) (header : Z) (payload t : list Z) : list Z :=
  (repeat 0 z ++ [0; 0; 1] ++ [header]) ++ escape 0 payload ++ t.

Lemma extract_framed z header payload t rbsp :
  is_byte header → header mod 32 ≠ NALU_TYPE_EOSEQ → header mod 32 ≠ NALU_TYPE_EOSTREAM →
  (length payload ≤ length rbsp)%nat →
  let buffer := framed z header payload t in
  Z.of_nat (length buffer) < 2 ^ 32 →
  let nal := Nalu (header / 32 mod 4) (header mod 32) (Z.land header 128) in
  extract_rbsp buffer 0 rbsp =
    '(ret, rbsp, len) ← extract_loop (S (z + 4 + length t)) buffer (Z.of_nat (length buffer)) true
       (Z.of_nat z + 4 + Z.of_nat (length (escape 0 payload))) (zeros_after 0 payload)
       (payload ++ drop (length payload) rbsp) (Z.of_nat (length payload));
    Done (Extracted ret (Some nal) rbsp len).
Proof.
  intros Hb He1 He2 Hlen buffer Hlt nal. unfold extract_rbsp, locate_nal. cbn [Z.eqb].
  pose proof (start_code_found z (header :: escape 0 payload ++ t)) as Hs. cbv zeta in Hs.
  assert (buffer = repeat 0 z ++ [0; 0; 1] ++ header :: escape 0 payload ++ t) as Eb.
  { unfold buffer, framed. by rewrite <- !app_assoc. }
  rewrite <- Eb in Hs. rewrite Hs. cbn [mbind outcome_bind]. rewrite Z.add_0_r, wrap_unsigned_small by lia.
  set (a := repeat 0 z ++ [0; 0; 1] ++ [header]).
  assert (length a = (z + 4)%nat) as Hla by (unfold a; rewrite length_app, repeat_length; simpl; lia).
  assert (length buffer = (z + 4 + (length (escape 0 payload) + length t))%nat) as Hlb.
  { unfold buffer, framed. fold a. rewrite !length_app, Hla. lia. }
  rewrite (proj2 (Z.ltb_ge _ _)) by lia.
  assert (read buffer (Z.of_nat z + 3) = Done header) as ->.
  { rewrite Eb, app_assoc. apply read_at. rewrite length_app, repeat_length. simpl. lia. }
  cbn [mbind outcome_bind]. rewrite land_header by done. fold nal. cbn [nalu_type nal].
  rewrite (proj2 (Z.eqb_neq _ _) He1), (proj2 (Z.eqb_neq _ _) He2). cbn [orb].
  replace (S (length buffer)) with (length (escape 0 payload) + S (z + 4 + length t))%nat by lia.
  replace (Z.of_nat z + 3 + 1) with (Z.of_nat z + 4) by lia.
  pose proof (extract_loop_escape payload 0 a [] rbsp t true (Z.of_nat z + 4) 0 (S (z + 4 + length t))) as Hx.
  cbv zeta in Hx. cbn [app length] in Hx. change (a ++ escape 0 payload ++ t) with buffer in Hx.
  rewrite Hx by (lia || done). done.
Qed.

(** Three zeros. *)
Lemma extract_zero fuel buffer stop sc pos zc mem len : pos < stop → read buffer pos = Done 0 → zc ≠ 2 →
  extract_loop (S fuel) buffer stop sc pos zc mem len =
    (mem ← write mem len 0; extract_loop fuel buffer stop sc (pos + 1) (zc + 1) mem (len + 1)).
Proof.
  intros Hp Hr Hz. cbn [extract_loop]. rewrite (proj2 (Z.leb_gt _ _) Hp), Hr. cbn [mbind outcome_bind].
  by rewrite (proj2 (Z.eqb_neq zc 2) Hz).
Qed.

Lemma extract_stop fuel buffer stop pos mem len : pos < stop → read buffer pos = Done 0 →
  extract_loop (S fuel) buffer stop true pos (0 + 1 + 1) mem len = Done (wrap_unsigned 8 (pos - 2), mem, wrap_unsigned 32 (len - 2)).
Proof. intros Hp Hr. cbn [extract_loop]. by rewrite (proj2 (Z.leb_gt _ _) Hp), Hr. Qed.

Lemma extract_whole z header payload rbsp :
  is_byte header → header mod 32 ≠ NALU_TYPE_EOSEQ → header mod 32 ≠ NALU_TYPE_EOSTREAM →
  (length payload ≤ length rbsp)%nat → Z.of_nat (length (framed z header payload [])) < 2 ^ 32 →
  extract_rbsp (framed z header payload []) 0 rbsp =
    Done (Extracted 1 (Some (Nalu (header / 32 mod 4) (header mod 32) (Z.land header 128)))
            (payload ++ drop (length payload) rbsp) (Z.of_nat (length payload))).
Proof.
  intros Hb He1 He2 Hlen Hlt. rewrite extract_framed by done. cbn [extract_loop].
  rewrite (proj2 (Z.leb_le _ _)); [done|]. unfold framed. rewrite !length_app, repeat_length. simpl. lia.
Qed.

(** A payload that begins with a bit 1 codes the number 0. *)
Lemma first_byte_bits b : 128 ≤ b < 256 →
  (Z.land (Z.lor (wrap_unsigned 32 (Z.shiftl 0xFFFFFF 8)) b) 0xFFFFFF =? 3) = false ∧
  (Z.lor (wrap_unsigned 32 (Z.shiftl 0 1)) (Z.land (Z.shiftr b (8 - 0 - 1)) (2 ^ 1 - 1)) =? 0) = false.
Proof.
  intros Hb.
  assert (forallb (λ b, negb (Z.land (Z.lor (wrap_unsigned 32 (Z.shiftl 0xFFFFFF 8)) b) 0xFFFFFF =? 3) &&
    negb (Z.lor (wrap_unsigned 32 (Z.shiftl 0 1)) (Z.land (Z.shiftr b (8 - 0 - 1)) (2 ^ 1 - 1)) =? 0))
    (Z.of_nat <$> seq 128 128) = true) as Hall by (vm_compute; reflexivity).
  rewrite forallb_forall in Hall. specialize (Hall b). apply andb_true_iff in Hall as [H1 H2].
  - split; [by destruct (_ =? 3)|by destruct (_ =? 0)].
  - apply list_elem_of_In, list_elem_of_fmap. exists (Z.to_nat b). rewrite elem_of_seq. lia.
Qed.

Lemma ue_of_first_slice b mem : 128 ≤ b < 256 → ∃ p, rbsp_ue (new_rbsp (b :: mem)) = Done (0, p).
Proof.
  intros Hb. destruct (first_byte_bits b Hb) as [H1 H2].
  assert (∃ p, u_bits 1 (new_rbsp (b :: mem)) =
    Done (Z.lor (wrap_unsigned 32 (Z.shiftl 0 1)) (Z.land (Z.shiftr b (8 - 0 - 1)) (2 ^ 1 - 1)), p)) as [p Ep].
  { unfold u_bits, new_rbsp. change (Z.to_nat 1) with 1%nat. cbn [rbsp_u]. change (1 <=? 0) with false. cbn iota.
    unfold next. cbn [advanceNeeded advance rp_begin rp_pos rp_cursor rp_bit].
    change (read (b :: mem) (-1 + 1)) with (Done b). cbn [mbind outcome_bind]. rewrite H1. cbn [mbind outcome_bind rp_begin rp_pos].
    change (read (b :: mem) (-1 + 1)) with (Done b). cbn [mbind outcome_bind rp_begin rp_pos rp_bit]. by eexists. }
  unfold rbsp_ue. cbn [new_rbsp rp_begin rbsp_zeros]. fold (new_rbsp (b :: mem)). rewrite Ep. cbn [mbind outcome_bind].
  rewrite H2. cbn. by eexists.
Qed.

(** ** Properties *)
(** From a NAL unit with a start code, zeros in front of it or not, whose
    payload was written with emulation prevention bytes, extract_rbsp takes
    the header and exactly the payload, if the memory is large enough. *)
Theorem extract_rbsp_roundtrip z header payload rbsp :
  is_byte header → header mod 32 ≠ NALU_TYPE_EOSEQ → header mod 32 ≠ NALU_TYPE_EOSTREAM →
  (length payload ≤ length rbsp)%nat → Z.of_nat (length (framed z header payload [])) < 2 ^ 32 →
  extract_rbsp (framed z header payload []) 0 rbsp =
    Done (Extracted 1 (Some (Nalu (header / 32 mod 4) (header mod 32) (Z.land header 128)))
            (payload ++ drop (length payload) rbsp) (Z.of_nat (length payload))).
Proof. apply extract_whole. Qed.

Lemma extract_rbsp_roundtrip_witness :
  extract_rbsp (framed 1 0x65 [0; 0; 1; 0; 0; 3; 128] []) 0 (repeat 7 10) =
    Done (Extracted 1 (Some (Nalu 3 5 0)) [0; 0; 1; 0; 0; 3; 128; 7; 7; 7] 7).
Proof. apply (extract_rbsp_roundtrip 1 0x65 [0; 0; 1; 0; 0; 3; 128] (repeat 7 10)); [done|done|done|simpl; lia|vm_compute; reflexivity]. Defined.

(** What a whole unit does to the search for frames: the first slice of a
    picture begins a new frame, unless a parameter set or SEI came before it,
    which then began it; these begin a new frame if slices came before; units
    of other kinds stay with the frame. *)
Theorem isNewFrame_kinds z header payload t :
  is_byte header → Forall is_byte payload → header mod 32 ≠ NALU_TYPE_EOSEQ → header mod 32 ≠ NALU_TYPE_EOSTREAM →
  (length payload ≤ length (m_rbspBytes t))%nat → Z.of_nat (length (framed z header payload [])) < 2 ^ 32 →
  let kind := header mod 32 in
  let slice := (kind =? NALU_TYPE_IDR) || (kind =? NALU_TYPE_NON_IDR) in
  let parameters := (kind =? NALU_TYPE_SPS) || (kind =? NALU_TYPE_PPS) || (kind =? NALU_TYPE_SEI) in
  (slice = true → ∃ b rest, payload = b :: rest ∧ 128 ≤ b) →
  ∃ rbsp nal, nalu_type nal = kind ∧
    isNewFrame (framed z header payload []) 0 t = Done (true,
      if slice then negb (m_forceToStichNextNAL t) else parameters && m_au_data t,
      H264Utils rbsp (Some nal)
        (if slice then false else parameters || m_forceToStichNextNAL t)
        (slice || negb parameters && m_au_data t) (Some kind)).
Proof.
  intros Hh Hp He1 He2 Hlen Hlt kind slice parameters Hfirst. unfold isNewFrame. rewrite extract_whole by done.
  cbn [mbind outcome_bind ex_ret ex_nal ex_rbsp defined Z.eqb nalu_type]. fold kind. fold slice. fold parameters.
  do 2 eexists. split; [|destruct slice eqn:Es; [|destruct parameters; reflexivity]].
  2:{ destruct (Hfirst eq_refl) as (b & rest & -> & H1). apply Forall_cons in Hp as [Hb _]. unfold is_byte in Hb.
      destruct (m_forceToStichNextNAL t); [reflexivity|]. cbn [app].
      destruct (ue_of_first_slice b (rest ++ drop (length (b :: rest)) (m_rbspBytes t)) ltac:(lia)) as [p ->]. reflexivity. }
  done.
Qed.

Lemma isNewFrame_kinds_witness :
  let t := allocate_rbsp_buffer 20 new_h264_utils in
  ∃ rbsp nal, nalu_type nal = 1 ∧
    isNewFrame (framed 1 0x41 [0x9A; 0; 0; 1] []) 0 t = Done (true, true, H264Utils rbsp (Some nal) false true (Some 1)).
Proof.
  apply (isNewFrame_kinds 1 0x41 [0x9A; 0; 0; 1] (allocate_rbsp_buffer 20 new_h264_utils));
    [done|repeat (apply Forall_cons; split); done|done|done|simpl; lia|vm_compute; reflexivity|].
  intros _. by exists 0x9A, [0; 0; 1].
Defined.

(** Three zero bytes behind a unit end it, and the position of the first of
    them is returned as a boolean of eight bits: at a multiple of 256 the unit
    counts as failed, and isNewFrame does not look at it. *)
Theorem trailing_zeros_fail z header payload b n t :
  is_byte header → header mod 32 ≠ NALU_TYPE_EOSEQ → header mod 32 ≠ NALU_TYPE_EOSTREAM → b ≠ 0 →
  (length payload + 3 ≤ length (m_rbspBytes t))%nat →
  let buffer := framed z header (payload ++ [b]) (repeat 0 (3 + n)) in
  Z.of_nat (length buffer) < 2 ^ 32 →
  (Z.of_nat z + 4 + Z.of_nat (length (escape 0 (payload ++ [b])))) mod 256 = 0 →
  ∃ t', isNewFrame buffer 0 t = Done (false, false, t') ∧ last_nalu_type t' = last_nalu_type t.
Proof.
  intros Hb He1 He2 Hne Hlen buffer Hlt Hm. unfold isNewFrame.
  set (p := payload ++ [b]) in *. assert (length p = (length payload + 1)%nat) as Hp by (unfold p; by rewrite length_app).
  unfold buffer in *. rewrite extract_framed by (done || lia). fold buffer in Hlt |- *.
  set (pos := Z.of_nat z + 4 + Z.of_nat (length (escape 0 p))) in *.
  assert (zeros_after 0 p = 0) as -> by (by apply zeros_after_last).
  assert (∃ mem, ∀ fuel, extract_loop (3 + fuel) buffer (Z.of_nat (length buffer)) true pos 0
    (p ++ drop (length p) (m_rbspBytes t)) (Z.of_nat (length p)) = Done (wrap_unsigned 8 pos, mem, Z.of_nat (length p))) as [mem Hrun].
  { set (a := repeat 0 z ++ [0; 0; 1] ++ [header]).
    assert (buffer = (a ++ escape 0 p) ++ [0; 0; 0] ++ repeat 0 n) as Eb by (unfold buffer, framed; fold a; by rewrite <- app_assoc).
    assert (Z.of_nat (length (a ++ escape 0 p)) = pos) as Hpos.
    { unfold a, pos. rewrite !length_app, repeat_length. simpl. lia. }
    assert (∀ k, 0 ≤ k < 3 → read buffer (pos + k) = Done 0 ∧ pos + k < Z.of_nat (length buffer)) as Hread.
    { intros k Hk. rewrite Eb. split; [|rewrite !length_app in *; simpl; lia]. unfold read.
      rewrite lookup_app_r by lia. replace (Z.to_nat (pos + k) - length (a ++ escape 0 p))%nat with (Z.to_nat k) by lia.
      assert (k = 0 ∨ k = 1 ∨ k = 2) as [->|[-> | ->]] by lia; done. }
    destruct (drop (length p) (m_rbspBytes t)) as [|x [|y mem]] eqn:Ed;
      [apply (f_equal length) in Ed; rewrite length_drop in Ed; simpl in Ed; lia..|].
    exists (p ++ 0 :: 0 :: mem). intros fuel. 
    destruct (Hread 0) as [R0 L0]; [lia|]. destruct (Hread 1) as [R1 L1]; [lia|]. destruct (Hread 2) as [R2 L2]; [lia|].
    rewrite Z.add_0_r in R0, L0. cbn [Nat.add].
    rewrite extract_zero by done. rewrite write_at by done. cbn [mbind outcome_bind].
    rewrite extract_zero by done. replace (p ++ 0 :: y :: mem) with ((p ++ [0]) ++ y :: mem) by (by rewrite <- app_assoc).
    rewrite write_at by (rewrite length_app; simpl; lia). cbn [mbind outcome_bind].
    replace (pos + 1 + 1) with (pos + 2) by lia. rewrite extract_stop by done.
    assert (Z.of_nat (length p) < 2 ^ 32) by (clear -Hlt Eb; rewrite Eb, !length_app in Hlt; pose proof (escape_length_le 0 p); lia).
    assert (wrap_unsigned 32 (Z.of_nat (length p) + 1 + 1 - 2) = Z.of_nat (length p)) as -> by (rewrite wrap_unsigned_small; lia).
    replace (pos + 2 - 2) with pos by lia. by rewrite <- app_assoc. }
  replace (S (z + 4 + length (repeat 0%Z (3 + n))))%nat with (3 + (z + 5 + n))%nat by (rewrite repeat_length; lia).
  rewrite Hrun. cbn [mbind outcome_bind ex_ret]. unfold wrap_unsigned. change (2 ^ 8) with 256. rewrite Hm. by eexists.
Qed.

Lemma trailing_zeros_fail_witness :
  let t := allocate_rbsp_buffer 300 new_h264_utils in
  ∃ t', isNewFrame (framed 1 0x65 (repeat 0x88 250 ++ [1]) (repeat 0 3)) 0 t = Done (false, false, t') ∧
    last_nalu_type t' = last_nalu_type t.
Proof.
  apply (trailing_zeros_fail 1 0x65 (repeat 0x88 250) 1 0 (allocate_rbsp_buffer 300 new_h264_utils));
    [done|done|done|done|vm_compute; lia|vm_compute; reflexivity|vm_compute; reflexivity].
Defined.

(** ** The searches end *)
Lemma read_inside buffer pos b : read buffer pos = Done b → 0 ≤ pos → pos + 1 ≤ Z.of_nat (length buffer).
Proof.
  unfold read. destruct (buffer !! Z.to_nat pos) eqn:E; [|done]. apply lookup_lt_Some in E. lia.
Qed.

Lemma read_ends {A} buffer pos (f : Z → outcome A) : 0 ≤ pos →
  (∀ b, b ∈ buffer → pos + 1 ≤ Z.of_nat (length buffer) → f b ≠ NoFuel) → (b ← read buffer pos; f b) ≠ NoFuel.
Proof.
  intros Hp Hf. destruct (read buffer pos) as [b| |] eqn:E; [|done|unfold read in E; by destruct (buffer !! _)].
  apply Hf; [|by eapply read_inside]. unfold read in E. destruct (buffer !! _) eqn:El; [|done]. injection E as <-.
  by eapply list_elem_of_lookup_2.
Qed.

Lemma bind_ends {A B} (p : outcome A) (f : A → outcome B) :
  p ≠ NoFuel → (∀ a, p = Done a → f a ≠ NoFuel) → (p ≫= f) ≠ NoFuel.
Proof. intros Hp Hf. destruct p; [by apply Hf|done|done]. Qed.

Lemma find_prefix_ends fuel : ∀ buffer n c2 c3 pos, 0 ≤ pos ≤ Z.of_nat (length buffer) →
  Z.of_nat (length buffer) < pos + Z.of_nat fuel → find_prefix fuel buffer n c2 c3 pos ≠ NoFuel.
Proof.
  induction fuel as [|fuel IH]; intros buffer n c2 c3 pos Hp Hf; [lia|]. cbn [find_prefix].
  destruct (n <=? pos); [done|]. apply read_ends; [lia|]. intros b _ Hb. destruct (_ || _); [|done]. apply IH; lia.
Qed.

Lemma read_nal_len_ends n : ∀ buffer pos len, 0 ≤ pos → read_nal_len n buffer pos len ≠ NoFuel.
Proof.
  induction n as [|n IH]; intros buffer pos len Hp; cbn [read_nal_len]; [done|]. apply read_ends; [done|].
  intros b _ _. destruct (_ <? _); [done|]. apply IH. lia.
Qed.

Lemma locate_nal_ends buffer n field : locate_nal buffer n field ≠ NoFuel.
Proof.
  unfold locate_nal. destruct (field =? 0).
  - apply bind_ends; [|done]. unfold start_code_end. apply read_ends; [lia|]. intros c2 _ _.
    apply read_ends; [lia|]. intros c3 _ Hl. apply find_prefix_ends; lia.
  - apply bind_ends; [by apply read_nal_len_ends|]. by intros [len pos].
Qed.

Lemma extract_loop_ends fuel : ∀ buffer stop sc pos zc rbsp len, 0 ≤ pos ≤ Z.of_nat (length buffer) →
  Z.of_nat (length buffer) < pos + Z.of_nat fuel → extract_loop fuel buffer stop sc pos zc rbsp len ≠ NoFuel.
Proof.
  induction fuel as [|fuel IH]; intros buffer stop sc pos zc rbsp len Hp Hf; [lia|]. cbn [extract_loop].
  destruct (stop <=? pos); [done|]. apply read_ends; [lia|]. intros b _ Hb. destruct (_ && _); [apply IH; lia|].
  destruct (_ && _ && _); [done|]. apply bind_ends; [unfold write; by destruct (_ <? _)|]. intros m _. apply IH; lia.
Qed.

Lemma locate_nal_pos buffer n field pos len : locate_nal buffer n field = Done (Some (pos, len)) → 0 ≤ pos.
Proof.
  assert (∀ fuel c2 c3 q, 0 ≤ q → ∀ r, find_prefix fuel buffer n c2 c3 q = Done (Some r) → 0 ≤ r) as Hfind.
  { induction fuel as [|fuel IH]; intros c2 c3 q Hq r E; [done|]. cbn [find_prefix] in E. destruct (n <=? q); [done|].
    destruct (read buffer q) as [b| |]; [|done..]. cbn [mbind outcome_bind] in E. destruct (_ || _); [|injection E as <-; lia].
    eapply IH, E. lia. }
  assert (∀ m q l x, 0 ≤ q → read_nal_len m buffer q l = Done x → 0 ≤ x.2) as Hlen.
  { induction m as [|m IH]; intros q l x Hq E; cbn [read_nal_len] in E; [by injection E as <-|].
    destruct (read buffer q) as [b| |]; [|done..]. cbn [mbind outcome_bind] in E. destruct (_ <? _); [done|].
    eapply IH, E. lia. }
  unfold locate_nal. destruct (field =? 0); intros E.
  - unfold start_code_end in E. destruct (read buffer 0) as [c2| |]; [|done..]. destruct (read buffer 1) as [c3| |]; [|done..].
    cbn [mbind outcome_bind] in E. destruct (find_prefix _ _ _ _ _ _) as [[q|]| |] eqn:Ef; try done.
    injection E as <- _. eapply Hfind, Ef. lia.
  - destruct (read_nal_len _ _ _ _) as [[l q]| |] eqn:Ef; try done. cbn [mbind outcome_bind] in E.
    destruct (_ <=? _); [done|]. injection E as <- _. apply Hlen in Ef; [done|lia].
Qed.

Lemma extract_rbsp_ends buffer field rbsp : extract_rbsp buffer field rbsp ≠ NoFuel.
Proof.
  unfold extract_rbsp. apply bind_ends; [apply locate_nal_ends|]. intros [[pos len]|] E; [|done].
  apply locate_nal_pos in E. cbv zeta. destruct (_ <? _); [done|]. apply read_ends; [done|]. intros h _ Hp.
  destruct (_ || _); [done|]. apply bind_ends; [apply extract_loop_ends; lia|]. by intros [[r m] l].
Qed.

(** The memory that [extract_rbsp] leaves holds bytes, as before. *)
Lemma extract_loop_bytes fuel : ∀ buffer stop sc pos zc rbsp len r mem l, Forall is_byte buffer → Forall is_byte rbsp →
  extract_loop fuel buffer stop sc pos zc rbsp len = Done (r, mem, l) → Forall is_byte mem.
Proof.
  induction fuel as [|fuel IH]; intros buffer stop sc pos zc rbsp len r mem l Hb Hr E; [done|]. cbn [extract_loop] in E.
  destruct (stop <=? pos); [by injection E as _ <- _|].
  unfold read in E. destruct (buffer !! Z.to_nat pos) as [b|] eqn:El; [|done]. cbn [mbind outcome_bind] in E.
  destruct (_ && _); [by eapply IH, E|]. destruct (_ && _ && _); [by injection E as _ <- _|].
  unfold write in E. destruct (_ <? _); [|done]. cbn [mbind outcome_bind] in E. eapply IH, E; [done|].
  apply Forall_insert; [done|]. exact (Forall_lookup_1 _ _ _ _ Hb El).
Qed.

Lemma extract_rbsp_bytes buffer field rbsp e : Forall is_byte buffer → Forall is_byte rbsp →
  extract_rbsp buffer field rbsp = Done e → Forall is_byte (ex_rbsp e).
Proof.
  intros Hb Hr E. unfold extract_rbsp in E. destruct (locate_nal _ _ _) as [[[pos len]|]| |]; try done; cbn [mbind outcome_bind] in E.
  2:{ by injection E as <-. }
  cbv zeta in E. destruct (_ <? _); [by injection E as <-|]. destruct (read buffer pos) as [h| |]; try done.
  cbn [mbind outcome_bind] in E. destruct (_ || _); [by injection E as <-|].
  destruct (extract_loop _ _ _ _ _ _ _ _) as [[[r m] l]| |] eqn:Ex; try done. cbn [mbind outcome_bind] in E.
  injection E as <-. exact (extract_loop_bytes _ _ _ _ _ _ _ _ _ _ _ Hb Hr Ex).
Qed.

(** At most two bytes are read: a byte behind 0 0 3 does not complete 0 0 3. *)
Lemma advance_twice p : Forall is_byte (rp_begin p) → 0 ≤ rp_pos p + 1 → advance 2 p ≠ NoFuel.
Proof.
  intros Hb Hp. cbn [advance rp_begin rp_pos rp_cursor]. apply read_ends; [done|]. intros b _ _.
  set (c := Z.lor _ b). destruct (Z.eqb_spec (Z.land c 0xFFFFFF) 3) as [E|]; [|done].
  apply read_ends; [lia|]. intros b' Hb' _. rewrite Forall_forall in Hb. specialize (Hb b' Hb'). unfold is_byte in Hb.
  assert (Z.land (Z.lor (wrap_unsigned 32 (Z.shiftl c 8)) b') 0xFFFFFF = 3 * 256 + b') as ->.
  { change 0xFFFFFF with (Z.ones 24). rewrite Z.land_ones by lia. unfold wrap_unsigned. rewrite Z.shiftl_mul_pow2 by lia.
    change 0xFFFFFF with (Z.ones 24) in E. rewrite Z.land_ones in E by lia.
    assert (c * 2 ^ 8 mod 2 ^ 32 = (3 + c / 2 ^ 24 * 2 ^ 24) * 2 ^ 8 mod 2 ^ 32) as ->.
    { do 2 f_equal. pose proof (Z.div_mod c (2 ^ 24) ltac:(lia)). lia. }
    replace ((3 + c / 2 ^ 24 * 2 ^ 24) * 2 ^ 8) with (3 * 2 ^ 8 + c / 2 ^ 24 * 2 ^ 32) by lia.
    rewrite Z.mod_add, (Z.mod_small (3 * 2 ^ 8)) by lia. rewrite lor_disjoint by lia. by rewrite Z.mod_small by lia. }
  rewrite (proj2 (Z.eqb_neq _ _)) by lia. done.
Qed.

Lemma advance_step fuel p p' : advance fuel p = Done p' → 0 ≤ rp_pos p + 1 →
  rp_begin p' = rp_begin p ∧ rp_bit p' = rp_bit p ∧ advanceNeeded p' = false ∧ rp_pos p + 1 ≤ rp_pos p'.
Proof.
  revert p. induction fuel as [|fuel IH]; intros p E Hp; [done|]. cbn [advance] in E.
  destruct (read _ _) as [b| |]; [|done..]. cbn [mbind outcome_bind] in E.
  destruct (_ =? _); [|injection E as <-; cbn; split_and!; (done || lia)].
  apply IH in E as (? & ? & ? & ?); cbn in *; [|lia]. split_and!; (done || lia).
Qed.

(** Where the parser stands, in bits. *)
Definition rbsp_at (p : RbspParser) : Z := if advanceNeeded p then 8 * (rp_pos p + 1) else 8 * rp_pos p + rp_bit p.
Record rbsp_ok (p : RbspParser) : Prop := {
  ro_bytes : Forall is_byte (rp_begin p);
  ro_pos : 0 ≤ rp_pos p + 1;
  ro_bit : 0 ≤ rp_bit p < 8;
  ro_first : advanceNeeded p = true → rp_bit p = 0;
  ro_more : advanceNeeded p = false → 0 < rp_bit p ∧ 0 ≤ rp_pos p
}.

Lemma next_step p : rbsp_ok p → next p ≠ NoFuel ∧ ∀ b p', next p = Done (b, p') →
  rp_begin p' = rp_begin p ∧ rp_bit p' = rp_bit p ∧ advanceNeeded p' = false ∧ 0 ≤ rp_pos p' ∧
  rbsp_at p ≤ 8 * rp_pos p' + rp_bit p ∧ rp_pos p' + 1 ≤ Z.of_nat (length (rp_begin p)).
Proof.
  intros [Hby Hpos Hbit Hfirst Hmore].
  assert (∀ p1, (if advanceNeeded p then advance 2 p else Done p) = Done p1 →
    rp_begin p1 = rp_begin p ∧ rp_bit p1 = rp_bit p ∧ advanceNeeded p1 = false ∧ 0 ≤ rp_pos p1 ∧
    rbsp_at p ≤ 8 * rp_pos p1 + rp_bit p) as Hadv.
  { intros p1 E. unfold rbsp_at. destruct (advanceNeeded p) eqn:Ea.
    - apply advance_step in E as (-> & -> & -> & ?); [|done]. specialize (Hfirst eq_refl). split_and!; (done || lia).
    - injection E as <-. destruct (Hmore eq_refl). split_and!; (done || lia). }
  unfold next. split.
  - apply bind_ends; [destruct (advanceNeeded p); [by apply advance_twice|done]|]. intros p1 E1.
    apply Hadv in E1 as (_ & _ & _ & ? & _). by apply read_ends.
  - intros b p' E. destruct (if advanceNeeded p then _ else _) as [p1| |]; try done. cbn [mbind outcome_bind] in E.
    destruct (Hadv p1 eq_refl) as (E1 & E2 & E3 & E4 & E5).
    destruct (read (rp_begin p1) (rp_pos p1)) as [b1| |] eqn:Er; try done. injection E as <- <-.
    apply read_inside in Er; [|done]. rewrite E1 in Er. by split_and!.
Qed.

Lemma rbsp_u_step fuel : ∀ n i x p, rbsp_ok p → n - i ≤ Z.of_nat fuel →
  rbsp_u fuel n i x p ≠ NoFuel ∧ ∀ v p', rbsp_u fuel n i x p = Done (v, p') →
    rbsp_ok p' ∧ rp_begin p' = rp_begin p ∧ rbsp_at p ≤ rbsp_at p' ∧
    (i < n → rbsp_at p < rbsp_at p' ≤ 8 * Z.of_nat (length (rp_begin p))).
Proof.
  induction fuel as [|fuel IH]; intros n i x p Hp Hf; cbn [rbsp_u].
  { rewrite (proj2 (Z.leb_le _ _)) by lia. split; [done|]. intros v p' [= <- <-]. split_and!; (done || lia). }
  destruct (Z.leb_spec n i); [split; [done|]; intros v p' [= <- <-]; split_and!; (done || lia)|].
  destruct (next_step p Hp) as [Hend Hstep]. destruct Hp as [Hby Hpos Hbit Hfirst Hmore].
  set (s := Z.min (8 - rp_bit p) (n - i)). assert (1 ≤ s ≤ 8 - rp_bit p ∧ s ≤ n - i) as Hs by (unfold s; lia).
  destruct (next p) as [[b p1]| |] eqn:En; [|done..]. cbn [mbind outcome_bind].
  destruct (Hstep b p1 eq_refl) as (E1 & E2 & E3 & E4 & E5 & E6). rewrite E2.
  set (q := Rbsp _ _ _ _ _). set (y := Z.lor _ _).
  assert (rbsp_ok q ∧ rbsp_at q = 8 * rp_pos p1 + rp_bit p + s) as [Hq Hat].
  { unfold q. rewrite E3. cbn [orb]. destruct (Z.eq_dec (rp_bit p + s) 8) as [E8|].
    - rewrite E8. change (8 mod 8) with 0. split; [|unfold rbsp_at; cbn; lia].
      split; cbn; [by rewrite E1|lia|lia|done|done].
    - rewrite Z.mod_small by lia. rewrite (proj2 (Z.eqb_neq _ 0)) by lia. split; [|unfold rbsp_at; cbn; lia].
      split; cbn; [by rewrite E1|lia|lia|done|]. intros _. lia. }
  destruct (IH n (i + s) y q Hq ltac:(lia)) as [Hne Hdone]. split; [done|]. intros v p' E.
  destruct (Hdone v p' E) as (Hok & Hbeg & Hle & Hlt). split_and!; [done|by rewrite Hbeg| |].
  - lia.
  - intros _. destruct (Z.lt_ge_cases (i + s) n) as [Hin|Hout]; [specialize (Hlt Hin); cbn in Hlt; rewrite E1 in Hlt; lia|].
    assert (p' = q) as ->; [|lia]. destruct fuel; cbn [rbsp_u] in E; rewrite (proj2 (Z.leb_le _ _)) in E by lia; by injection E as _ <-.
Qed.

Lemma rbsp_zeros_ends fuel : ∀ n p, rbsp_ok p → 8 * Z.of_nat (length (rp_begin p)) < rbsp_at p + Z.of_nat fuel →
  0 ≤ rbsp_at p → rbsp_at p ≤ 8 * Z.of_nat (length (rp_begin p)) →
  rbsp_zeros fuel n p ≠ NoFuel ∧ ∀ v p', rbsp_zeros fuel n p = Done (v, p') → rbsp_ok p'.
Proof.
  induction fuel as [|fuel IH]; intros n p Hp Hf H0 Hle; [lia|]. cbn [rbsp_zeros]. unfold u_bits.
  destruct (rbsp_u_step (Z.to_nat 1) 1 0 0 p Hp ltac:(lia)) as [Hne Hstep].
  destruct (rbsp_u _ 1 0 0 p) as [[b p1]| |]; [|done..]. cbn [mbind outcome_bind].
  destruct (Hstep b p1 eq_refl) as (Hok & Hbeg & _ & Hlt). specialize (Hlt ltac:(lia)).
  destruct (b =? 0); [|split; [done|]; by intros v p' [= _ <-]]. apply IH; [done|rewrite Hbeg; lia|lia|rewrite Hbeg; lia].
Qed.

Lemma rbsp_ue_ends mem : Forall is_byte mem → rbsp_ue (new_rbsp mem) ≠ NoFuel.
Proof.
  intros Hm. unfold rbsp_ue. cbn [new_rbsp rp_begin].
  destruct (rbsp_zeros_ends (S (8 * length mem)) 0 (new_rbsp mem)) as [Hne Hok]; try (unfold rbsp_at; cbn; lia).
  { split; cbn; (done || lia). }
  apply bind_ends; [done|]. intros [z p] E. apply Hok in E. apply bind_ends; [unfold defined; by destruct (ones z)|].
  intros h _. unfold u_bits. destruct (rbsp_u_step (Z.to_nat z) z 0 0 p E ltac:(lia)) as [Hu _].
  apply bind_ends; [done|]. by intros [l p'].
Qed.

(** isNewFrame ends for every buffer: the search for the start code, the
    copy of the payload and the reading of first_mb_in_slice, behind the end
    of the payload if need be, have turns enough. *)
Theorem isNewFrame_ends buffer field t : Forall is_byte buffer → Forall is_byte (m_rbspBytes t) →
  isNewFrame buffer field t ≠ NoFuel.
Proof.
  intros Hb Hm. unfold isNewFrame. apply bind_ends; [apply extract_rbsp_ends|]. intros e Ee.
  apply extract_rbsp_bytes in Ee; [|done..]. cbv zeta. destruct (_ =? 0); [done|].
  apply bind_ends; [by destruct (ex_nal e)|]. intros nal _. destruct (_ || _).
  - apply bind_ends; [|done]. destruct (m_forceToStichNextNAL t); [done|]. apply bind_ends; [by apply rbsp_ue_ends|].
    intros [v p] _. unfold slice_is_new. destruct (_ =? 0); [done|]. by destruct (m_prv_nalu t).
  - by destruct (_ || _ || _).
Qed.

Lemma isNewFrame_ends_witness :
  isNewFrame [0; 0; 1; 0x41; 0; 0; 0x40; 1] 0 (allocate_rbsp_buffer 20 new_h264_utils) ≠ NoFuel.
Proof.
  apply (isNewFrame_ends [0; 0; 1; 0x41; 0; 0; 0x40; 1] 0 (allocate_rbsp_buffer 20 new_h264_utils));
    repeat (apply Forall_cons; split); done.
Defined.
