(* ===== verification/VdecInput.v ===== *)
(** * Input of arbitrary bytes to the video decoder

    Models the part of [omx_vdec] in [vidc/vdec/src/omx_vdec_v4l2.cpp] that
    turns the client's buffers into frames for the driver when
    [arbitrary_bytes] is set: [push_input_buffer] with one function for each
    kind of codec, [empty_this_buffer_proxy_arbitrary], [empty_buffer_done], the
    input half of the flush and what [empty_this_buffer_proxy] does to this
    state.  Buffers have numbers; a header is the source or destination header
    of [FrameParser].  The functions run in a monad that returns early with an
    error, collects the calls that leave the component, and may be undefined.
    [DEBUG_PRINT_LOW] is off, so that the increments of [frame_count] in its
    arguments do not happen; [PROCESS_EXTRADATA_IN_OUTPUT_PORT] is defined, as
    in Android.mk.  The offsets of the scratch buffer and of the destinations
    are 0.  Left out: the MPEG-4 header parser that is shown the first frame,
    the demux descriptors, the rejection of AVC streams by profile, the count
    of pending buffers, and [m_etb_q] and the time stamps of the driver in the
    flush.  [BytesIn] is not an action of the code: it records what a parser
    appended. *)
From S2P Require Import Prelude FrameParser H264Bits H264Parser NalFrames.
Local Open Scope Z_scope.

Inductive omx_error : Set := OMX_ErrorBadParameter | OMX_ErrorStreamCorrupt | OMX_ErrorHardware.

(** What the driver and the checks before it do with a frame:
    [StreamonFails]: the buffer was queued, but the stream did not start. *)
Inductive driver_answer : Set := Accepts | NotValid | QbufFails | StreamonFails.

(** [FrameQueued]: a frame goes to the driver, with the pending bytes of the
    scratch buffer at that moment; [EmptyBufferDone] and [ReturnToClient]: a
    source, or a destination, goes back to the client; [PostEbd]: a destination
    is posted as done; [BytesIn]: bytes came into the scratch buffer or, without
    one, into the destination. *)
Inductive event : Type :=
  | FrameQueued (id : nat) (frame : dest_hdr) (pending : list Z)
  | EmptyBufferDone (id : nat)
  | ReturnToClient (id : nat)
  | PostEbd (id : nat)
  | BytesIn (l : list Z)
  | ReportError.

Definition OMX_FRAMEINFO_EXTRADATA : Z := 0x00010000.
Definition QOMX_VIDEO_BUFFERFLAG_EOSEQ : Z := 0x00200000.
Definition OMX_BUFFERFLAG_CODECCONFIG : Z := 0x80.
Definition OMX_CORE_CONTROL_CMDQ_SIZE : nat := 100.

(** ** State *)
(** The frames found so far. *)
Record au_state := AuState {
  look_ahead_nal : bool;
  nal_count : Z;
  frame_count : Z;
  h264_last_au_ts : Z;
  h264_last_au_flags : Z
}.

(** [mutils] and [h264_parser] are null for other codecs. *)
Record parsers := Parsers {
  m_frame_parser : frame_parse;
  mutils : option H264_Utils;
  m_hevc_utils : HEVC_Utils;
  h264_parser : option h264_stream_parser
}.

Record vc1_state := Vc1State {
  first_frame : bool;
  m_vc1_ap : bool;
  m_vendor_config : option (list Z)
}.

Record input := Input {
  psource_frame : option (nat * source_hdr);
  pdest_frame : option (nat * dest_hdr);
  m_input_pending_q : list (nat * source_hdr);
  m_input_free_q : list (nat * dest_hdr);
  h264_scratch : option dest_hdr;
  pars : parsers;
  au : au_state;
  vc1 : vc1_state;
  input_flush_progress : bool;
  codec_config_flag : bool;
  proxy_calls : nat
}.

Definition set_source o s := Input o (pdest_frame s) (m_input_pending_q s) (m_input_free_q s) (h264_scratch s) (pars s)
  (au s) (vc1 s) (input_flush_progress s) (codec_config_flag s) (proxy_calls s).
Definition set_dest o s := Input (psource_frame s) o (m_input_pending_q s) (m_input_free_q s) (h264_scratch s) (pars s)
  (au s) (vc1 s) (input_flush_progress s) (codec_config_flag s) (proxy_calls s).
Definition set_pending q s := Input (psource_frame s) (pdest_frame s) q (m_input_free_q s) (h264_scratch s) (pars s)
  (au s) (vc1 s) (input_flush_progress s) (codec_config_flag s) (proxy_calls s).
Definition set_free q s := Input (psource_frame s) (pdest_frame s) (m_input_pending_q s) q (h264_scratch s) (pars s)
  (au s) (vc1 s) (input_flush_progress s) (codec_config_flag s) (proxy_calls s).
Definition set_scratch o s := Input (psource_frame s) (pdest_frame s) (m_input_pending_q s) (m_input_free_q s) o (pars s)
  (au s) (vc1 s) (input_flush_progress s) (codec_config_flag s) (proxy_calls s).
Definition set_pars p s := Input (psource_frame s) (pdest_frame s) (m_input_pending_q s) (m_input_free_q s) (h264_scratch s) p
  (au s) (vc1 s) (input_flush_progress s) (codec_config_flag s) (proxy_calls s).
Definition set_au a s := Input (psource_frame s) (pdest_frame s) (m_input_pending_q s) (m_input_free_q s) (h264_scratch s)
  (pars s) a (vc1 s) (input_flush_progress s) (codec_config_flag s) (proxy_calls s).
Definition set_vc1 v s := Input (psource_frame s) (pdest_frame s) (m_input_pending_q s) (m_input_free_q s) (h264_scratch s)
  (pars s) (au s) v (input_flush_progress s) (codec_config_flag s) (proxy_calls s).
Definition set_codec_config b s := Input (psource_frame s) (pdest_frame s) (m_input_pending_q s) (m_input_free_q s)
  (h264_scratch s) (pars s) (au s) (vc1 s) (input_flush_progress s) b (proxy_calls s).
Definition set_flush_progress b s := Input (psource_frame s) (pdest_frame s) (m_input_pending_q s) (m_input_free_q s)
  (h264_scratch s) (pars s) (au s) (vc1 s) b (codec_config_flag s) (proxy_calls s).
Definition next_call s := Input (psource_frame s) (pdest_frame s) (m_input_pending_q s) (m_input_free_q s) (h264_scratch s)
  (pars s) (au s) (vc1 s) (input_flush_progress s) (codec_config_flag s) (S (proxy_calls s)).

Definition set_look_ahead b a := AuState b (nal_count a) (frame_count a) (h264_last_au_ts a) (h264_last_au_flags a).
Definition set_nal_count n a := AuState (look_ahead_nal a) n (frame_count a) (h264_last_au_ts a) (h264_last_au_flags a).
Definition set_frame_count n a := AuState (look_ahead_nal a) (nal_count a) n (h264_last_au_ts a) (h264_last_au_flags a).
Definition set_last_ts t a := AuState (look_ahead_nal a) (nal_count a) (frame_count a) t (h264_last_au_flags a).
Definition set_last_flags f a := AuState (look_ahead_nal a) (nal_count a) (frame_count a) (h264_last_au_ts a) f.
Definition no_au : au_state := AuState false 0 0 LLONG_MAX 0.

Definition set_frame_parser f p := Parsers f (mutils p) (m_hevc_utils p) (h264_parser p).
Definition set_mutils u p := Parsers (m_frame_parser p) u (m_hevc_utils p) (h264_parser p).
Definition set_hevc_utils u p := Parsers (m_frame_parser p) (mutils p) u (h264_parser p).
Definition set_h264_parser h p := Parsers (m_frame_parser p) (mutils p) (m_hevc_utils p) h.

Definition with_bytes (l : list Z) (d : dest_hdr) : dest_hdr := DestHdr l (d_nOffset d) (d_nAllocLen d) (d_nFlags d) (d_nTimeStamp d).
Definition with_flags (f : Z) (d : dest_hdr) : dest_hdr := DestHdr (d_bytes d) (d_nOffset d) (d_nAllocLen d) f (d_nTimeStamp d).
Definition with_ts (t : Z) (d : dest_hdr) : dest_hdr := DestHdr (d_bytes d) (d_nOffset d) (d_nAllocLen d) (d_nFlags d) t.

(** ** Programs *)
Definition M (A : Type) : Type := input → outcome ((omx_error + A) * input * list event).

#[export] Instance M_ret : MRet M := λ A a s, Done (inr a, s, []).
#[export] Instance M_bind : MBind M := λ A B f m s,
  '(r, s, ev) ← m s;
  match r with
  | inl e => Done (inl e, s, ev)
  | inr a => '(r, s, ev') ← f a s; Done (r, s, ev ++ ev')
  end.

Definition fail {A} (e : omx_error) : M A := λ s, Done (inl e, s, []).
Definition get {A} (f : input → A) : M A := λ s, Done (inr (f s), s, []).
Definition modify (f : input → input) : M () := λ s, Done (inr (), f s, []).
Definition emit (e : event) : M () := λ s, Done (inr (), s, [e]).
Definition lift {A} (o : outcome A) : M A := λ s, a ← o; Done (inr a, s, []).
(** A pointer that is read: null is undefined. *)
Definition the {A} (f : input → option A) : M A := λ s, a ← defined (f s); Done (inr a, s, []).
Definition out_of_fuel {A} : M A := λ _, NoFuel.

(** Every error becomes [e]; an error is reported. *)
Definition as_error {A} (e : omx_error) (m : M A) : M A := λ s,
  '(r, s, ev) ← m s; Done (match r with inl _ => inl e | inr a => inr a end, s, ev).
Definition reporting {A} (m : M A) : M A := λ s,
  '(r, s, ev) ← m s; Done (r, s, match r with inl _ => ev ++ [ReportError] | inr _ => ev end).
Definition set_au_field (f : au_state → au_state) : M () := modify (λ s, set_au (f (au s)) s).
Definition change_dest (f : dest_hdr → dest_hdr) : M () := modify (λ s, set_dest (prod_map id f <$> pdest_frame s) s).

(** ** Copies into the destination *)
(** The size that the code compares, on 32 bits. *)
Definition room (d : dest_hdr) : Z := wrap_unsigned 32 (d_nAllocLen d - Z.of_nat (length (d_bytes d))).

(** [memcpy] of the scratch buffer behind the destination's bytes, and then
    [nFilledLen = 0]; [error] when there is no room. *)
Definition copy_scratch (error : omx_error) : M () :=
  '(id, d) ← the pdest_frame;
  sc ← the h264_scratch;
  if Z.of_nat (length (d_bytes sc)) <=? room d then
    if Z.of_nat (length (d_bytes d) + length (d_bytes sc)) <=? d_nAllocLen d then
      modify (λ s, set_scratch (Some (with_bytes [] sc)) (set_dest (Some (id, add_bytes (d_bytes sc) d)) s))
    else lift Undefined
  else fail error.

(** [copy_buffer], which takes the time stamp as well. *)
Definition copy_buffer : M () :=
  sc ← the h264_scratch;
  copy_scratch OMX_ErrorBadParameter;;
  change_dest (λ d, if d_nTimeStamp d =? LLONG_MAX then with_ts (d_nTimeStamp sc) d else d).

(** ** Queues *)
Definition fresh_dest (d : dest_hdr) : dest_hdr := with_ts LLONG_MAX (with_bytes [] d).

Definition pop_free (f : dest_hdr → dest_hdr) : M () := modify (λ s,
  match m_input_free_q s with
  | (id, d) :: q => set_free q (set_dest (Some (id, f d)) s)
  | [] => s
  end).

Definition pop_pending : M () := modify (λ s,
  match m_input_pending_q s with
  | x :: q => set_pending q (set_source (Some x) s)
  | [] => s
  end).

(** [insert_entry] on the queue of free destinations: what is left out when it
    is full is lost. *)
Definition insert_free (x : nat * dest_hdr) : M () := modify (λ s,
  if (length (m_input_free_q s) <? OMX_CORE_CONTROL_CMDQ_SIZE)%nat then set_free (m_input_free_q s ++ [x]) s else s).

(** ** To the driver *)
Section Component.
Context (driver : nat → driver_answer) (codec_type_parse nal_length client_extradata : Z).

Definition is_end (d : dest_hdr) : bool :=
  bool_decide (d_bytes d = []) || negb (Z.land (d_nFlags d) OMX_BUFFERFLAG_EOS =? 0).

Definition drop_flag (flag : Z) (d : dest_hdr) : dest_hdr := with_flags (Z.land (d_nFlags d) (wrap_unsigned 32 (Z.lnot flag))) d.

(** What the end of the stream resets. *)
Definition end_stream (s : input) : input :=
  set_scratch (with_bytes [] <$> h264_scratch s)
    (set_au no_au
      (set_pars (set_mutils (initialize_frame_checking_environment <$> mutils (pars s))
         (set_frame_parser (FrameParser.flush (m_frame_parser (pars s))) (pars s))) s)).

Definition pending_bytes (s : input) : list Z := from_option d_bytes [] (h264_scratch s).

(** [empty_this_buffer_proxy] on the destination, while no flush is under
    way. *)
Definition empty_this_buffer_proxy : M () :=
  '(id, d) ← the pdest_frame;
  n ← get proxy_calls;
  modify next_call;;
  match driver n with
  | NotValid => fail OMX_ErrorBadParameter
  | answer =>
      change_dest (drop_flag QOMX_VIDEO_BUFFERFLAG_EOSEQ);;
      pending ← get pending_bytes;
      (if is_end d then modify end_stream else mret ());;
      match answer with
      | QbufFails => emit (ReturnToClient id);; fail OMX_ErrorHardware
      | _ =>
          emit (FrameQueued id d pending);;
          modify (λ s, if codec_config_flag s && (Z.land (d_nFlags d) OMX_BUFFERFLAG_CODECCONFIG =? 0)
                       then set_codec_config false s else s);;
          match answer with
          | StreamonFails => emit (PostEbd id);; fail OMX_ErrorBadParameter
          | _ => mret ()
          end
      end
  end.

(** The callers turn every error into one; then [pdest_frame = NULL]. *)
Definition push_dest : M () :=
  as_error OMX_ErrorBadParameter empty_this_buffer_proxy;;
  modify (set_dest None).

(** [m_cb.EmptyBufferDone] for the source, and the next one. *)
Definition source_done : M () :=
  '(id, _) ← the psource_frame;
  emit (EmptyBufferDone id);;
  modify (set_source None);;
  pop_pending.

(** ** Codecs with a start code for each frame *)
Definition push_input_sc_codec : M () :=
  '(sid, src) ← the psource_frame;
  '(did, dst) ← the pdest_frame;
  fp ← get (λ s, m_frame_parser (pars s));
  r ← lift (parse_sc_frame src dst fp);
  modify (λ s, set_source (Some (sid, r_source r)) (set_dest (Some (did, r_dest r))
                 (set_pars (set_frame_parser (r_parser r) (pars s)) s)));;
  emit (BytesIn (drop (length (d_bytes dst)) (d_bytes (r_dest r))));;
  if rc r =? -1 then fail OMX_ErrorBadParameter
  else
    let src := r_source r in
    (if default 1 (partialframe r) =? 0 then
       count ← get (λ s, frame_count (au s));
       if count =? 0 then set_au_field (set_frame_count 1)
       else
         change_dest (drop_flag OMX_BUFFERFLAG_EOS);;
         '(did, dst) ← the pdest_frame;
         if bool_decide (d_bytes dst ≠ []) then
           push_dest;;
           set_au_field (λ a, set_frame_count (frame_count a + 1) a);;
           pop_free (with_bytes [])
         else if negb (is_eos src) then insert_free (did, dst);; modify (set_dest None)
         else mret ()
     else
       '(_, dst) ← the pdest_frame;
       if d_nAllocLen dst =? Z.of_nat (length (d_bytes dst)) + d_nOffset dst then fail OMX_ErrorStreamCorrupt
       else mret ());;
    if bool_decide (s_bytes src = []) then
      dest ← get pdest_frame;
      generate_ebd ←
        (if is_eos src then
           match dest with
           | Some _ =>
               change_dest (λ d, with_ts (s_nTimeStamp src) (with_flags (Z.lor (d_nFlags d) (s_nFlags src)) d));;
               push_dest;;
               set_au_field (λ a, set_frame_count (frame_count a + 1) a);;
               mret true
           | None => mret false
           end
         else mret true);
      if (generate_ebd : bool) then source_done else mret ()
    else mret ().

(** ** Codecs with NAL units *)
(** The bytes of the last unit, when it began a new frame. *)
Definition copy_look_ahead (copy : M ()) : M () :=
  sc ← the h264_scratch;
  look ← get (λ s, look_ahead_nal (au s));
  if bool_decide (d_bytes sc ≠ []) && (look : bool) then set_au_field (set_look_ahead false);; copy
  else mret ().

(** The next unit into the scratch buffer; the answer is [partial_frame]. *)
Definition parse_unit : M Z :=
  '(sid, src) ← the psource_frame;
  sc ← the h264_scratch;
  fp ← get (λ s, m_frame_parser (pars s));
  r ← lift (if nal_length =? 0 then parse_sc_frame src sc fp else parse_h264_nallength src sc fp);
  modify (λ s, set_source (Some (sid, r_source r)) (set_scratch (Some (r_dest r))
                 (set_pars (set_frame_parser (r_parser r) (pars s)) s)));;
  emit (BytesIn (drop (length (d_bytes sc)) (d_bytes (r_dest r))));;
  if rc r =? -1 then fail OMX_ErrorBadParameter else mret (default 1 (partialframe r)).

(** The first unit that has no bytes. *)
Definition skip_empty_nal : M () :=
  '(_, src) ← the psource_frame;
  set_au_field (λ a, set_nal_count (nal_count a + 1) a);;
  modify (λ s, set_scratch (with_flags (s_nFlags src) <$> (with_ts (s_nTimeStamp src) <$> h264_scratch s)) s).

Definition h264_is_new_frame : M bool :=
  sc ← the h264_scratch;
  u ← the (λ s, mutils (pars s));
  '(_, new, u) ← lift (isNewFrame (d_bytes sc) 0 u);
  modify (λ s, set_pars (set_mutils (Some u) (pars s)) s);;
  mret new.

(** [mutils->nalu_type] *)
Definition unit_kind : M Z := the (λ s, u ← mutils (pars s); last_nalu_type u).

(** A unit with bytes: its parameter sets, whether it begins a frame, and the
    time stamp of the frame it belongs to. *)
Definition h264_unit : M bool :=
  sc ← the h264_scratch;
  h ← the (λ s, h264_parser (pars s));
  '(_, h) ← lift (defined (parse_nal (d_bytes sc) NALU_TYPE_SPS true h));
  modify (λ s, set_pars (set_h264_parser (Some h) (pars s)) s);;
  new ← h264_is_new_frame;
  set_au_field (λ a, set_nal_count (nal_count a + 1) a);;
  a ← get au;
  '(_, dst) ← the pdest_frame;
  (if VALID_TS (h264_last_au_ts a) && negb (VALID_TS (d_nTimeStamp dst)) then
     change_dest (λ d, with_flags (h264_last_au_flags a) (with_ts (h264_last_au_ts a) d));;
     if negb (Z.land client_extradata OMX_FRAMEINFO_EXTRADATA =? 0) then
       h ← the (λ s, h264_parser (pars s));
       '(_, h) ← lift (defined (update_panscan_data (h264_last_au_ts a) h));
       modify (λ s, set_pars (set_h264_parser (Some h) (pars s)) s)
     else mret ()
   else mret ());;
  kind ← unit_kind;
  (if (kind =? NALU_TYPE_NON_IDR) || (kind =? NALU_TYPE_IDR)
   then set_au_field (λ a, set_last_flags (d_nFlags sc) (set_last_ts (d_nTimeStamp sc) a))
   else set_au_field (set_last_ts LLONG_MAX));;
  mret new.

(** The destination is a frame: to the driver, and a new one. *)
Definition next_dest (d : dest_hdr) : dest_hdr := with_flags 0 (fresh_dest d).
Definition frame_complete : M () :=
  '(_, src) ← the psource_frame;
  sc ← the h264_scratch;
  (if bool_decide (s_bytes src ≠ []) || bool_decide (d_bytes sc ≠ [])
   then change_dest (drop_flag OMX_BUFFERFLAG_EOS) else mret ());;
  push_dest;;
  pop_free next_dest.

Definition scratch_full : M () :=
  sc ← the h264_scratch;
  if d_nAllocLen sc =? Z.of_nat (length (d_bytes sc)) + d_nOffset sc then fail OMX_ErrorStreamCorrupt else mret ().

(** A complete unit, of H.264. *)
Definition h264_nal_done : M () :=
  sc ← the h264_scratch;
  count ← get (λ s, nal_count (au s));
  if (count =? 0) && bool_decide (d_bytes sc = []) then skip_empty_nal
  else
    new ← (if bool_decide (d_bytes sc ≠ []) then h264_unit else mret false);
    if negb (new : bool) then
      copy_scratch OMX_ErrorBadParameter;;
      kind ← unit_kind;
      if kind =? NALU_TYPE_EOSEQ
      then change_dest (λ d, with_flags (Z.lor (d_nFlags d) QOMX_VIDEO_BUFFERFLAG_EOSEQ) d) else mret ()
    else
      set_au_field (set_look_ahead true);;
      '(_, dst) ← the pdest_frame;
      if bool_decide (d_bytes dst = []) then
        set_au_field (set_look_ahead false);;
        copy_scratch OMX_ErrorBadParameter
      else frame_complete.

(** The end of the stream; the answer is [generate_ebd]. *)
Definition h264_end (generate_ebd : bool) : M bool :=
  '(_, src) ← the psource_frame;
  dest ← get pdest_frame;
  match dest with
  | None => mret false
  | Some (_, dst) =>
      sc ← the h264_scratch;
      if negb (Z.of_nat (length (d_bytes sc)) <=? room dst) then fail OMX_ErrorBadParameter
      else
        generate_ebd ←
          (if bool_decide (d_bytes dst = []) then
             copy_scratch OMX_ErrorBadParameter;;
             change_dest (with_ts (d_nTimeStamp sc));;
             mret generate_ebd
           else
             new ← h264_is_new_frame;
             last_ts ← get (λ s, h264_last_au_ts (au s));
             if negb (new : bool) then
               copy_scratch OMX_ErrorBadParameter;;
               (if negb (last_ts =? LLONG_MAX) then change_dest (with_ts last_ts) else mret ());;
               mret generate_ebd
             else
               change_dest (with_ts last_ts);;
               set_au_field (set_last_ts (d_nTimeStamp sc));;
               mret false);
        (if (generate_ebd : bool) then change_dest (with_flags (Z.lor (d_nFlags sc) (s_nFlags src))) else mret ());;
        push_dest;;
        set_au_field (λ a, set_frame_count (frame_count a + 1) a);;
        mret generate_ebd
  end.

Definition push_input_h264 : M () :=
  copy_look_ahead (copy_scratch OMX_ErrorBadParameter);;
  '(_, src) ← the psource_frame;
  '(_, dst) ← the pdest_frame;
  let generate_ebd := negb (bool_decide (s_bytes src = []) && is_eos src && bool_decide (d_bytes dst ≠ [])) in
  partial_frame ← parse_unit;
  (if partial_frame =? 0 then h264_nal_done else scratch_full);;
  '(_, src) ← the psource_frame;
  if bool_decide (s_bytes src = []) then
    generate_ebd ← (if is_eos src then h264_end generate_ebd else mret generate_ebd);
    if (generate_ebd : bool) then source_done else mret ()
  else mret ().

(** HEVC: the same with its own test, and time stamps that go with the copies. *)
Definition hevc_unit : M bool :=
  sc ← the h264_scratch;
  u ← get (λ s, m_hevc_utils (pars s));
  '(_, new, u) ← lift (hevc_isNewFrame (d_bytes sc) 0 u);
  modify (λ s, set_pars (set_hevc_utils u (pars s)) s);;
  set_au_field (λ a, set_nal_count (nal_count a + 1) a);;
  mret (default false new).

Definition hevc_nal_done : M () :=
  sc ← the h264_scratch;
  count ← get (λ s, nal_count (au s));
  if (count =? 0) && bool_decide (d_bytes sc = []) then skip_empty_nal
  else
    new ← (if bool_decide (d_bytes sc ≠ []) then hevc_unit else mret false);
    if negb (new : bool) then copy_buffer
    else
      set_au_field (set_look_ahead true);;
      '(_, dst) ← the pdest_frame;
      if bool_decide (d_bytes dst = []) then
        set_au_field (set_look_ahead false);;
        copy_buffer
      else frame_complete.

Definition hevc_end : M bool :=
  '(_, src) ← the psource_frame;
  dest ← get pdest_frame;
  match dest with
  | None => mret false
  | Some _ =>
      sc ← the h264_scratch;
      copy_buffer;;
      change_dest (λ d, with_flags (Z.lor (d_nFlags sc) (s_nFlags src)) (with_ts (d_nTimeStamp sc) d));;
      push_dest;;
      set_au_field (λ a, set_frame_count (frame_count a + 1) a);;
      mret true
  end.

Definition push_input_hevc : M () :=
  copy_look_ahead copy_buffer;;
  partial_frame ← parse_unit;
  (if partial_frame =? 0 then hevc_nal_done else scratch_full);;
  '(_, src) ← the psource_frame;
  if bool_decide (s_bytes src = []) then
    generate_ebd ← (if is_eos src then hevc_end else mret true);
    if (generate_ebd : bool) then source_done else mret ()
  else mret ().

(** ** VC-1 *)
Definition VC1_SP_MP_START_CODE : Z := 0xC5000000.
Definition VC1_SP_MP_START_CODE_MASK : Z := 0xFF000000.
Definition VC1_AP_SEQ_START_CODE : Z := 0x0F010000.

(** The first four bytes as a number of the machine, little endian. *)
Definition first_word (l : list Z) : outcome Z :=
  match l with
  | a :: b :: c :: d :: _ => Done (a + 256 * b + 65536 * c + 16777216 * d)
  | _ => Undefined
  end.

Definition vc1_first_frame : M () :=
  v ← get vc1;
  modify (set_vc1 (Vc1State true (m_vc1_ap v) (m_vendor_config v)));;
  match m_vendor_config v with
  | None =>
      '(_, src) ← the psource_frame;
      w ← lift (first_word (s_bytes src));
      if Z.land w VC1_SP_MP_START_CODE_MASK =? VC1_SP_MP_START_CODE
      then modify (set_vc1 (Vc1State true false None))
      else if negb (Z.land w VC1_AP_SEQ_START_CODE =? 0) then modify (set_vc1 (Vc1State true true None))
      else fail OMX_ErrorStreamCorrupt
  | Some config =>
      '(_, dst) ← the pdest_frame;
      if dest_len dst <? Z.of_nat (length config) then fail OMX_ErrorBadParameter
      else change_dest (add_bytes config);; emit (BytesIn config)
  end.

Definition push_input_vc1 : M () :=
  v ← get vc1;
  (if first_frame v then mret () else vc1_first_frame);;
  v ← get vc1;
  if m_vc1_ap v then as_error OMX_ErrorBadParameter push_input_sc_codec
  else fail OMX_ErrorBadParameter.

(** ** The loop *)
Definition push_one : M () :=
  if (codec_type_parse =? CODEC_TYPE_MPEG4) || (codec_type_parse =? CODEC_TYPE_H263) ||
     (codec_type_parse =? CODEC_TYPE_MPEG2) then push_input_sc_codec
  else if codec_type_parse =? CODEC_TYPE_H264 then push_input_h264
  else if codec_type_parse =? CODEC_TYPE_HEVC then push_input_hevc
  else if codec_type_parse =? CODEC_TYPE_VC1 then push_input_vc1
  else mret ().

Definition both_frames (s : input) : bool :=
  match pdest_frame s, psource_frame s with Some _, Some _ => true | _, _ => false end.

Fixpoint push_loop (fuel : nat) : M () :=
  both ← get both_frames;
  if (both : bool) then
    match fuel with
    | O => out_of_fuel
    | S fuel => push_one;; push_loop fuel
    end
  else mret ().

(** [push_input_buffer]; an error of a turn is reported and ends it. *)
Definition push_input_buffer (fuel : nat) : M () :=
  dest ← get pdest_frame;
  match dest with None => pop_free fresh_dest | Some _ => mret () end;;
  src ← get psource_frame;
  match src with None => pop_pending | Some _ => mret () end;;
  reporting (push_loop fuel).

(** The callers do not look at its result. *)
Definition try (m : M ()) : M () := λ s, '(_, s, ev) ← m s; Done (inr (), s, ev).

(** ** The entries *)
Definition empty_this_buffer_proxy_arbitrary (fuel : nat) (id : nat) (buffer : source_hdr) : M () :=
  flushing ← get input_flush_progress;
  if (flushing : bool) || bool_decide (s_bytes buffer = []) && negb (is_eos buffer) then emit (EmptyBufferDone id)
  else
    src ← get psource_frame;
    match src with
    | None => modify (set_source (Some (id, buffer)));; try (push_input_buffer fuel)
    | Some _ =>
        q ← get m_input_pending_q;
        if (length q <? OMX_CORE_CONTROL_CMDQ_SIZE)%nat then modify (set_pending (q ++ [(id, buffer)]))
        else fail OMX_ErrorBadParameter
    end;;
    modify (λ s, if codec_config_flag s && (Z.land (s_nFlags buffer) OMX_BUFFERFLAG_CODECCONFIG =? 0)
                 then set_codec_config false s else s).

Definition empty_buffer_done (fuel : nat) (id : nat) (buffer : dest_hdr) : M () :=
  dest ← get pdest_frame;
  flushing ← get input_flush_progress;
  match dest, flushing : bool with
  | None, false => modify (set_dest (Some (id, fresh_dest buffer)));; try (push_input_buffer fuel)
  | _, _ => insert_free (id, with_bytes [] buffer)
  end.

Fixpoint return_pending (n : nat) : M () :=
  match n with
  | O => mret ()
  | S n =>
      q ← get m_input_pending_q;
      match q with
      | (id, _) :: q => modify (set_pending q);; emit (EmptyBufferDone id);; return_pending n
      | [] => mret ()
      end
  end.

(** [execute_input_flush] behind its own queue of messages. *)
Definition execute_input_flush : M () :=
  config ← get codec_config_flag;
  (if (config : bool) then mret ()
   else
     modify (λ s, set_scratch (with_bytes [] <$> h264_scratch s) (set_au no_au s));;
     modify (λ s, set_pars (set_mutils (initialize_frame_checking_environment <$> mutils (pars s)) (pars s)) s);;
     q ← get m_input_pending_q;
     return_pending (length q);;
     src ← get psource_frame;
     match src with
     | Some (id, _) => emit (EmptyBufferDone id);; modify (set_source None)
     | None => mret ()
     end;;
     dest ← get pdest_frame;
     match dest with
     | Some (id, d) => insert_free (id, with_bytes [] d);; modify (set_dest None)
     | None => mret ()
     end;;
     modify (λ s, set_pars (set_frame_parser (FrameParser.flush (m_frame_parser (pars s))) (pars s)) s));;
  modify (set_flush_progress false).
End Component.
