(* ===== verification/VdecInputRules.v ===== *)
(** * Input of arbitrary bytes: rules

    A program of the monad of [VdecInput] is judged by a relation between the
    state before it, the state behind it and its events, which is a preorder;
    so each function needs only its own steps.  [keeps] is the judgement,
    [ends] that no loop runs out of fuel; then what one call of a parser does
    to the buffers. *)
From S2P Require Import Prelude Doubles FrameParser H264Bits H264Parser H264State NalFrames VdecInput.
Local Open Scope Z_scope.

(** ** Judgements *)
Class RunRel (R : input → input → list event → Prop) := {
  run_refl s : R s s [];
  run_trans s1 s2 s3 e1 e2 : R s1 s2 e1 → R s2 s3 e2 → R s1 s3 (e1 ++ e2)
}.

Definition keeps {A} (R : input → input → list event → Prop) (P : input → Prop) (m : M A) (Q : A → input → Prop) : Prop :=
  ∀ s r s' ev, P s → m s = Done (r, s', ev) → R s s' ev ∧ match r with inl _ => True | inr a => Q a s' end.
Abbreviation moves R m := (keeps R (λ _, True) m (λ _ _, True)).

Definition ends {A} (P : input → Prop) (m : M A) : Prop := ∀ s, P s → m s ≠ NoFuel.

Section Rules.
Context (R : input → input → list event → Prop) {HR : RunRel R}.

Lemma keep_ret {A} P (a : A) (Q : A → input → Prop) : (∀ s, P s → Q a s) → keeps R P (mret a) Q.
Proof. intros HQ s r s' ev HP [= <- <- <-]. split; [apply run_refl|by apply HQ]. Qed.

Lemma keep_fail {A} P e (Q : A → input → Prop) : keeps R P (fail e) Q.
Proof. intros s r s' ev HP [= <- <- <-]. split; [apply run_refl|done]. Qed.

Lemma keep_get {A} P (f : input → A) : keeps R P (get f) (λ a s, P s ∧ f s = a).
Proof. intros s r s' ev HP [= <- <- <-]. split; [apply run_refl|done]. Qed.

Lemma keep_the {A} P (f : input → option A) : keeps R P (the f) (λ a s, P s ∧ f s = Some a).
Proof.
  intros s r s' ev HP E. unfold the in E. destruct (f s) as [a|] eqn:Ef; [|done]. injection E as <- <- <-.
  split; [apply run_refl|done].
Qed.

Lemma keep_lift {A} P (o : outcome A) : keeps R P (lift o) (λ a s, P s ∧ o = Done a).
Proof.
  intros s r s' ev HP E. unfold lift in E. destruct o as [a| |]; try done. injection E as <- <- <-.
  split; [apply run_refl|done].
Qed.

Lemma keep_modify P f (Q : () → input → Prop) : (∀ s, P s → R s (f s) [] ∧ Q () (f s)) → keeps R P (modify f) Q.
Proof. intros Hf s r s' ev HP [= <- <- <-]. by apply Hf. Qed.

Lemma keep_emit P e (Q : () → input → Prop) : (∀ s, P s → R s s [e] ∧ Q () s) → keeps R P (emit e) Q.
Proof. intros He s r s' ev HP [= <- <- <-]. by apply He. Qed.

Lemma keep_bind {A B} P (m : M A) (k : A → M B) Q T :
  keeps R P m Q → (∀ a, keeps R (Q a) (k a) T) → keeps R P (m ≫= k) T.
Proof.
  intros Hm Hk s r s' ev HP E. unfold mbind, M_bind in E.
  destruct (m s) as [[[[e|a] s1] e1]| |] eqn:E1; try done; cbn [mbind outcome_bind] in E.
  - injection E as <- <- <-. by destruct (Hm _ _ _ _ HP E1).
  - destruct (Hm _ _ _ _ HP E1) as [M1 HQ]. destruct (k a s1) as [[[r2 s2] e2]| |] eqn:E2; try done.
    injection E as <- <- <-. destruct (Hk a _ _ _ _ HQ E2) as [M2 HT]. split; [by eapply run_trans|done].
Qed.

Lemma keep_weaken {A} (P P' : input → Prop) (m : M A) (Q Q' : A → input → Prop) :
  keeps R P m Q → (∀ s, P' s → P s) → (∀ a s, Q a s → Q' a s) → keeps R P' m Q'.
Proof using Type.
  clear HR. intros Hm HP HQ s r s' ev HP' E. destruct (Hm _ _ _ _ (HP s HP') E) as [HM Hr]. split; [done|].
  destruct r; [done|]. by apply HQ.
Qed.

Lemma keep_as_error {A} P e (m : M A) Q : keeps R P m Q → keeps R P (as_error e m) Q.
Proof using Type.
  clear HR. intros Hm s r s' ev HP E. unfold as_error in E. destruct (m s) as [[[r1 s1] e1]| |] eqn:E1; try done.
  injection E as <- <- <-. destruct (Hm _ _ _ _ HP E1) as [HM HQ]. split; [done|]. by destruct r1.
Qed.

(** For programs that need nothing. *)
Lemma moves_bind {A B} (m : M A) (k : A → M B) : moves R m → (∀ a, moves R (k a)) → moves R (m ≫= k).
Proof. intros Hm Hk. exact (keep_bind _ m k _ _ Hm Hk). Qed.
Lemma moves_ret {A} (a : A) : moves R (mret a).
Proof. by apply keep_ret. Qed.
Lemma moves_fail {A} e : moves R (fail e : M A).
Proof. apply keep_fail. Qed.
Lemma moves_get {A} (f : input → A) : moves R (get f).
Proof. eapply keep_weaken; [apply (keep_get (λ _, True))|done|done]. Qed.
Lemma moves_the {A} (f : input → option A) : moves R (the f).
Proof. eapply keep_weaken; [apply (keep_the (λ _, True))|done|done]. Qed.
Lemma moves_lift {A} (o : outcome A) : moves R (lift o).
Proof. eapply keep_weaken; [apply (keep_lift (λ _, True))|done|done]. Qed.
Lemma moves_modify f : (∀ s, R s (f s) []) → moves R (modify f).
Proof. intros Hf. by apply keep_modify. Qed.
Lemma moves_emit e : (∀ s, R s s [e]) → moves R (emit e).
Proof. intros He. by apply keep_emit. Qed.
Lemma moves_as_error {A} e (m : M A) : moves R m → moves R (as_error e m).
Proof. apply keep_as_error. Qed.
Lemma moves_under {A} P (m : M A) : moves R m → keeps R P m (λ _ _, True).
Proof using Type. clear HR. intros Hm. by eapply keep_weaken. Qed.
End Rules.

Lemma moves_run {A} {R} {m : M A} {s r s' ev} : m s = Done (r, s', ev) → moves R m → R s s' ev.
Proof. intros E Hm. by destruct (Hm s r s' ev I E). Qed.

Section Ends.
Lemma ends_bind {A B} P (m : M A) (k : A → M B) : ends P m → (∀ a s s' ev, P s → m s = Done (inr a, s', ev) → k a s' ≠ NoFuel) →
  ends P (m ≫= k).
Proof.
  intros Hm Hk s HP E. unfold mbind, M_bind in E. destruct (m s) as [[[[e|a] s1] e1]| |] eqn:E1; try done.
  - cbn [mbind outcome_bind] in E. destruct (k a s1) as [[[r2 s2] e2]| |] eqn:E2; try done.
    by apply (Hk a _ _ _ HP E1).
  - by apply (Hm s HP).
Qed.
End Ends.

Abbreviation always m := (ends (λ _, True) m).
Lemma always_bind {A B} (m : M A) (k : A → M B) : always m → (∀ a, always (k a)) → always (m ≫= k).
Proof. intros Hm Hk. apply ends_bind; [done|]. intros. by apply Hk. Qed.
Lemma always_lift {A} (o : outcome A) : o ≠ NoFuel → always (lift o).
Proof. intros Ho s _. unfold lift. by destruct o. Qed.
Lemma always_the {A} (f : input → option A) : always (the f).
Proof. intros s _. unfold the. by destruct (f s). Qed.
Lemma always_as_error {A} e (m : M A) : always m → always (as_error e m).
Proof. intros Hm s _. unfold as_error. specialize (Hm s I). by destruct (m s) as [[[r s'] ev]| |]. Qed.

Create HintDb moves.
#[export] Hint Resolve moves_ret moves_fail moves_get moves_the moves_lift : moves.
#[export] Hint Resolve always_the : moves.

(** The structure of a program down to its primitives; these by hints. *)
Ltac moving := repeat (cbv beta zeta; first
  [ solve [eauto with moves nocore typeclass_instances]
  | match goal with
    | |- keeps _ _ (as_error _ _) _ => apply moves_as_error
    | |- ends _ (as_error _ _) => apply always_as_error
    | |- keeps _ _ (_ ≫= _) _ => apply moves_bind; [exact _| |intros ?]
    | |- ends _ (_ ≫= _) => apply always_bind; [|intros ?]
    | |- keeps _ _ (modify _) _ => apply moves_modify; intros ?; cbv beta; solve [eauto with moves nocore]
    | |- keeps _ _ (emit _) _ => apply moves_emit; intros ?; cbv beta; solve [eauto with moves nocore]
    | |- keeps _ _ (set_au_field _) _ => unfold set_au_field
    | |- keeps _ _ (change_dest _) _ => unfold change_dest
    | |- ends _ (mret _) => intros ? _; discriminate
    | |- ends _ (fail _) => intros ? _; discriminate
    | |- ends _ (get _) => intros ? _; discriminate
    | |- ends _ (modify _) => intros ? _; discriminate
    | |- ends _ (emit _) => intros ? _; discriminate
    | |- ends _ (set_au_field _) => intros ? _; discriminate
    | |- ends _ (change_dest _) => intros ? _; discriminate
    | |- keeps _ _ (match ?x with _ => _ end) _ => destruct x
    | |- ends _ (match ?x with _ => _ end) => destruct x
    end ]).

(** ** A call of a parser *)
Ltac done_eq E := unfold mret, outcome_ret in E; injection E; clear E; intros; subst.

(** The source loses bytes, the destination gets some. *)
Record taken (s s' : source_hdr) (d d' : dest_hdr) (p p' : frame_parse) : Prop := {
  tk_source : ∃ k, s' = skip_source k s;
  tk_bytes : ∃ l, d_bytes d' = d_bytes d ++ l ∧ (code p = Some SC_H264 → Forall is_byte (s_bytes s) → Forall is_byte l);
  tk_code : code p' = code p;
  tk_wf : dest_wf d → dest_wf d'
}.

Lemma taken_refl s d p : taken s s d d p p.
Proof. split; [exists 0%nat; by rewrite skip_source_0|exists []; by rewrite app_nil_r|done|done]. Qed.

Lemma taken_skip k s d p : taken s (skip_source k s) d d p p.
Proof. split; [by exists k|exists []; by rewrite app_nil_r|done|done]. Qed.

Lemma taken_parser s d p p' : code p' = code p → taken s s d d p p'.
Proof. intros Hc. destruct (taken_refl s d p). by split. Qed.

Lemma taken_trans s1 s2 s3 d1 d2 d3 p1 p2 p3 : taken s1 s2 d1 d2 p1 p2 → taken s2 s3 d2 d3 p2 p3 → taken s1 s3 d1 d3 p1 p3.
Proof.
  intros [[j ->] (l1 & H1 & B1) C1 W1] [[k ->] (l2 & H2 & B2) C2 W2]. split.
  - exists (j + k)%nat. apply skip_source_add.
  - exists (l1 ++ l2). rewrite H2, H1, app_assoc. split; [done|]. intros Hc Hs. apply Forall_app_2; [by apply B1|].
    apply B2; [by rewrite C1|]. by apply Forall_drop.
  - by rewrite C2.
  - auto.
Qed.

Lemma taken_put l d d' s p : put_bytes l d = Done d' → (code p = Some SC_H264 → Forall is_byte (s_bytes s) → Forall is_byte l) →
  taken s s d d' p p.
Proof.
  intros E Hl. destruct (taken_refl s d p). split; [done| |done|].
  - exists l. unfold put_bytes in E. destruct (_ <=? _); [|done]. injection E as <-. done.
  - intros Hw. destruct (put_bytes_inv l d Hw) as [H|[H Hw']]; rewrite H in E; [done|]. by injection E as <-.
Qed.

Lemma taken_info s d p : taken s s d (put_info s d) p p.
Proof. split; [exists 0%nat; by rewrite skip_source_0|exists []; by rewrite app_nil_r|done|done]. Qed.

Lemma start_bytes_bytes c : Forall is_byte (start_bytes c).
Proof. by destruct c; repeat constructor. Qed.

Lemma transition_rest c b p p' consumed n : sc_transition c b p = (p', consumed, n) →
  code p' = code p ∧ (parse_state p = A0 → consumed = true) ∧ (found (parse_state p) = false → found (parse_state p') = true → consumed = true) ∧
  (consumed = false → found (parse_state p') = false → state_index (parse_state p') < state_index (parse_state p))%nat ∧
  (state_index (parse_state p') ≤ S (state_index (parse_state p)))%nat.
Proof.
  unfold sc_transition, parse_additional_start_code. intros E.
  destruct (parse_state p) eqn:Eq; destruct c; cbn in E;
    repeat match type of E with context [if ?x then _ else _] => destruct x; cbn in E end;
    injection E as <- <- <-; cbn; rewrite ?Eq; cbn; split_and!; (done || lia).
Qed.

Lemma entry_loop_taken c fuel : ∀ s d p s' d' p', entry_loop c fuel s d p = Done (s', d', p') →
  taken s s' d d' p p' ∧ (found (parse_state p) = false → found (parse_state p') = true → length (s_bytes s') < length (s_bytes s))%nat ∧
  (s_bytes s' = [] ∨ parse_state p' = A0 ∨ found (parse_state p') = true ∨ dest_len d' = 0).
Proof.
  induction fuel as [|fuel IH]; intros s d p s' d' p' E; [done|]. cbn [entry_loop] in E.
  destruct (s_bytes s) as [|b l] eqn:Es.
  { done_eq E. rewrite Es. split_and!; [apply taken_refl|congruence|by left]. }
  destruct (bool_decide_reflect (parse_state p = A0)) as [E0|N0]; cbn [orb] in E.
  { done_eq E. split_and!; [apply taken_refl|congruence|auto]. }
  destruct (found (parse_state p)) eqn:Ef; cbn [orb] in E.
  { done_eq E. split_and!; [apply taken_refl|done|auto]. }
  destruct (Z.eqb_spec (dest_len d) 0); [done_eq E; split_and!; [apply taken_refl|congruence|auto]|].
  destruct (sc_transition c b p) as [[q consumed] m] eqn:Et.
  destruct (put_bytes _ d) as [d1| |] eqn:Ep; try done. cbn [mbind outcome_bind] in E.
  apply transition_rest in Et as (Hc & _ & Hfound & _). apply IH in E as (HT & Hin & Hout). clear IH. split_and!; [| |done].
  - eapply taken_trans; [apply (taken_put _ _ _ s p Ep)|eapply taken_trans; [by apply taken_parser|]].
    { intros _ _. apply Forall_take, start_bytes_bytes. }
    eapply taken_trans; [|exact HT]. destruct consumed; [apply taken_skip|apply taken_refl].
  - intros _ Hf'. destruct (found (parse_state q)) eqn:Efq.
    + rewrite Hfound in HT by done. destruct HT as [[k ->] _ _ _]. cbn [s_bytes skip_source]. rewrite Es, !length_drop. cbn. lia.
    + specialize (Hin eq_refl Hf'). destruct consumed; cbn [s_bytes skip_source] in Hin; rewrite ?length_drop, Es in Hin; cbn [length] in *; lia.
Qed.

Lemma entry_loop_ends c fuel : ∀ s d p, (4 * length (s_bytes s) + state_index (parse_state p) < fuel)%nat →
  entry_loop c fuel s d p ≠ NoFuel.
Proof.
  induction fuel as [|fuel IH]; intros s d p Hf; [lia|]. cbn [entry_loop]. destruct (s_bytes s) as [|b l] eqn:Es; [done|].
  destruct (_ || _); [done|]. destruct (sc_transition c b p) as [[q consumed] m] eqn:Et.
  unfold put_bytes. destruct (_ <=? _); [|done]. cbn [mbind outcome_bind].
  apply transition_rest in Et as (_ & _ & _ & Hdown & Hup). destruct (found (parse_state q)) eqn:Ef.
  - destruct fuel as [|fuel]; [cbn in Hf; lia|]. cbn [entry_loop].
    rewrite Ef, orb_true_r. by destruct (s_bytes (if consumed then _ else _)).
  - apply IH. cbn [length] in Hf. destruct consumed; cbn [s_bytes skip_source]; rewrite ?length_drop, Es; cbn [length]; [lia|]. specialize (Hdown eq_refl eq_refl). lia.
Qed.

Lemma parsing_loop_taken c temp_len fuel : ∀ l n p n' p', parsing_loop c fuel l n temp_len p = Done (n', p') →
  code p' = code p ∧ (n ≤ n')%nat ∧ (parse_state p = A0 → (n < temp_len)%nat → (n < n')%nat).
Proof.
  induction fuel as [|fuel IH]; intros l n p n' p' E; [done|]. cbn [parsing_loop] in E.
  destruct (Nat.leb_spec temp_len n); [done_eq E; split_and!; (done || lia)|].
  destruct (l !! n) as [b|]; [|done]. destruct (sc_transition c b p) as [[q consumed] m] eqn:Et.
  apply transition_rest in Et as (Hc & H0 & _).
  destruct (found (parse_state q)).
  - done_eq E. split_and!; [done|by destruct consumed; lia|]. intros HA _. rewrite H0 by done. lia.
  - apply IH in E as (Hc' & Hn & _). split_and!; [congruence|destruct consumed; lia|]. intros HA _. rewrite H0 in Hn by done. lia.
Qed.

Lemma parsing_loop_ends c temp_len fuel : ∀ l n p, (4 * (temp_len - n) + state_index (parse_state p) < fuel)%nat →
  parsing_loop c fuel l n temp_len p ≠ NoFuel.
Proof.
  induction fuel as [|fuel IH]; intros l n p Hf; [lia|]. cbn [parsing_loop].
  destruct (Nat.leb_spec temp_len n); [done|]. destruct (l !! n) as [b|]; [|done].
  destruct (sc_transition c b p) as [[q consumed] m] eqn:Et. apply transition_rest in Et as (_ & _ & _ & Hdown & Hup).
  destruct (found (parse_state q)) eqn:Ef; [done|]. apply IH. destruct consumed; [lia|]. specialize (Hdown eq_refl eq_refl). lia.
Qed.

(** What is left to do: two turns for each byte, and one for an empty unit. *)
Definition weight (s : source_hdr) (p : frame_parse) : nat :=
  2 * length (s_bytes s) + if bool_decide (state_nal p = NAL_PARSING) then 1 else 0.

Record called (s : source_hdr) (d : dest_hdr) (p : frame_parse) (r : parse_result) : Prop := {
  cl_taken : taken s (r_source r) d (r_dest r) p (r_parser r);
  cl_progress : rc r = -1 ∨ (s_bytes s = [] ∧ r_source r = s ∧ r_parser r = p) ∨
    (weight (r_source r) (r_parser r) < weight s p)%nat ∨ (partialframe r = Some 1 ∧ dest_len (r_dest r) = 0)
}.

Lemma weight_shorter s s' p p' : (length (s_bytes s') < length (s_bytes s))%nat → (weight s' p' < weight s p)%nat.
Proof. unfold weight. intros. repeat case_bool_decide; lia. Qed.

Lemma skipped_shorter k s : s_bytes s ≠ [] → (0 < k)%nat → (length (s_bytes (skip_source k s)) < length (s_bytes s))%nat.
Proof. intros Hs Hk. cbn. rewrite length_drop. destruct (s_bytes s); [done|cbn; lia]. Qed.

Lemma check_skip_code c n p z p' : check_skip_frame_boundary c n p = (z, p') → code p' = code p.
Proof. unfold check_skip_frame_boundary. destruct (has_headers c); by intros [= <- <-]. Qed.

Lemma dest_len_nonneg d : 0 ≤ dest_len d.
Proof. unfold dest_len, wrap_unsigned. apply Z.mod_pos_bound. lia. Qed.

Lemma parsing_machine_taken c s d p r : parsing_machine c s d p = Done r → parse_state p = A0 ∨ s_bytes s = [] ∨ dest_len d = 0 →
  taken s (r_source r) d (r_dest r) p (r_parser r) ∧
  (rc r = -1 ∨ (s_bytes s = [] ∧ r_source r = s ∧ r_parser r = p) ∨
   (length (s_bytes (r_source r)) < length (s_bytes s))%nat ∨ (partialframe r = Some 1 ∧ dest_len (r_dest r) = 0)).
Proof.
  unfold parsing_machine. cbv zeta. intros E Hst.
  pose proof (dest_len_nonneg d) as H0.
  destruct (Nat.eqb_spec (Z.to_nat (Z.min (Z.of_nat (length (s_bytes s))) (dest_len d))) 0) as [E0|N0].
  - done_eq E. split; [apply taken_refl|]. right. cbn.
    destruct (s_bytes s) as [|b l] eqn:Es; [by left|]. right. right. split; [done|]. cbn in E0. lia.
  - destruct Hst as [HA|[Hs|Hd]]; [|rewrite Hs in N0; cbn in N0; lia|lia].
    destruct (parsing_loop _ _ _ _ _ _) as [[n p3]| |] eqn:El; try done. cbn [mbind outcome_bind] in E.
    apply parsing_loop_taken in El as (Hc & _ & Hn). specialize (Hn HA ltac:(lia)).
    destruct (if found _ then _ else _) as [partial p4] eqn:E4.
    assert (code p4 = code p3) as Hc4 by (destruct (found _); [by eapply check_skip_code|by injection E4 as _ <-]).
    destruct (_ <? n)%nat; [done_eq E; split; [|by left]; apply taken_parser; cbn; rewrite Hc4, Hc; done|].
    destruct (if (_ <? n)%nat then _ else _) as [d3| |] eqn:E3; try done. done_eq E. cbn.
    assert (s_bytes s ≠ []) as Hne by (intros Hs; rewrite Hs in N0; cbn in N0; lia). split.
    + apply (taken_trans _ s _ _ d3 _ _ p _); [|eapply taken_trans; [apply (taken_skip n)|apply taken_parser; by rewrite Hc4, Hc]].
      destruct (_ <? n)%nat; [|done_eq E3; apply taken_refl]. apply (taken_put _ _ _ s p E3). intros _ Hb. by apply Forall_take.
    + right. right. left. by apply skipped_shorter.
Qed.

Lemma parse_sc_frame_called s d p r : parse_sc_frame s d p = Done r → called s d p r.
Proof.
  unfold parse_sc_frame. destruct (bool_decide_reflect (s_bytes s = [])) as [Hs|Hne].
  { rewrite orb_true_r. destruct (true && _); intros [= <-]; (split; [apply taken_refl|]; cbn; auto). }
  rewrite orb_false_r. destruct (_ <? _); [intros [= <-]; split; [apply taken_refl|]; cbn; auto|].
  destruct (code p) as [c|] eqn:Ec; [|done]. unfold parse_with. intros E.
  destruct (if found _ then _ else _) as [[d1 p1]| |] eqn:E1; try done. cbn [mbind outcome_bind] in E.
  assert (taken s s d d1 p p1 ∧ found (parse_state p1) = false) as [H1 Hf1].
  { destruct (found (parse_state p)) eqn:Ef; [|done_eq E1; split; [apply taken_refl|done]]. unfold start_new_frame in E1.
    destruct (put_bytes _ _) as [d2| |] eqn:Ep; try done. done_eq E1. split; [|done].
    eapply taken_trans; [apply taken_info|]. eapply taken_trans; [apply (taken_put _ _ _ s p Ep)|].
    - rewrite Ec. intros [= ->] _. apply start_bytes_bytes.
    - apply taken_parser. unfold update_skip_frame. destruct c; try done; by destruct (header_byte _ _). }
  destruct (entry_loop _ _ _ _ _) as [[[s2 d2] p2]| |] eqn:E2; try done. cbn [mbind outcome_bind] in E.
  apply entry_loop_taken in E2 as (H2 & Hin & Hout). specialize (Hin Hf1).
  pose proof (taken_trans _ _ _ _ _ _ _ _ _ H1 H2) as H12.
  destruct (found (parse_state p2)) eqn:Ef2.
  { destruct (check_skip_frame_boundary c 0 p2) as [z p3] eqn:E3. done_eq E. apply check_skip_code in E3. split; cbn [r_source r_dest r_parser].
    - eapply taken_trans; [exact H12|by apply taken_parser].
    - right. right. left. by apply weight_shorter, Hin. }
  pose proof H2 as [[k ->] _ _ _].
  apply parsing_machine_taken in E as [H3 Hp]; [|naive_solver]. split; [eapply taken_trans; [exact H12|done]|].
  destruct Hp as [?|[(Hs & Hs' & Hp)|[Hl|?]]]; [by left| | |by right; right; right].
  - right. right. left. apply weight_shorter. rewrite Hs', Hs. destruct (s_bytes s); [done|cbn; lia].
  - right. right. left. apply weight_shorter. cbn in Hl. rewrite length_drop in Hl. lia.
Qed.

Lemma parse_sc_frame_ends s d p : parse_sc_frame s d p ≠ NoFuel.
Proof.
  unfold parse_sc_frame. destruct (_ || _); [by destruct (_ && _)|]. destruct (code p) as [c|]; [|done].
  unfold parse_with. apply bind_ends.
  { destruct (found _); [|done]. unfold start_new_frame, put_bytes. by destruct (_ <=? _). }
  intros [d1 p1] _. apply bind_ends.
  { apply entry_loop_ends. unfold loop_fuel. destruct (parse_state p1); cbn; lia. }
  intros [[s2 d2] p2] _. destruct (found _); [by destruct (check_skip_frame_boundary _ _ _)|].
  unfold parsing_machine. cbv zeta. destruct (_ =? 0)%nat; [done|]. apply bind_ends.
  { apply parsing_loop_ends. unfold loop_fuel. destruct (parse_state p2); cbn; lia. }
  intros [n p3] _. destruct (if found _ then _ else _) as [z p4]. destruct (_ <? _)%nat; [done|].
  apply bind_ends; [|done]. destruct (_ <? _)%nat; [|done]. unfold put_bytes. by destruct (_ <=? _).
Qed.

Lemma length_loop_taken n : ∀ s d p s' d' p', length_loop n s d p = Done (s', d', p') →
  taken s s' d d' p p' ∧ ((0 < n)%nat → s_bytes s ≠ [] → (length (s_bytes s') < length (s_bytes s))%nat).
Proof.
  induction n as [|n IH]; intros s d p s' d' p' E; cbn [length_loop] in E; [done_eq E; split; [apply taken_refl|lia]|].
  destruct (s_bytes s) as [|b l] eqn:Es; [done_eq E; split; [apply taken_refl|done]|]. cbv zeta in E.
  destruct (_ =? _).
  - destruct (put_bytes _ d) as [d1| |] eqn:Ep; try done. done_eq E. split.
    + eapply taken_trans; [apply (taken_put _ _ _ s p Ep); intros; apply start_bytes_bytes|].
      eapply taken_trans; [apply (taken_skip 1)|by apply taken_parser].
    + intros _ _. cbn [s_bytes skip_source]. rewrite length_drop, Es. cbn. lia.
  - apply IH in E as [HT Hl]. split.
    + eapply taken_trans; [apply (taken_skip 1)|]. eapply taken_trans; [|exact HT]. by apply taken_parser.
    + intros _ _. destruct HT as [[k ->] _ _ _]. cbn [s_bytes skip_source]. rewrite !length_drop, Es. cbn. lia.
Qed.

Lemma copy_nal_taken s d p r : copy_nal s d p = Done r →
  taken s (r_source r) d (r_dest r) p (r_parser r) ∧
  (dest_len d ≠ 0 → s_bytes s ≠ [] → state_nal p = NAL_PARSING → (weight (r_source r) (r_parser r) < weight s p)%nat).
Proof.
  unfold copy_nal. cbv zeta. intros E. pose proof (dest_len_nonneg d) as H0.
  set (t := Z.min _ _) in *. destruct (if _ && _ then _ else _) as [[[s2 d2] p2]| |] eqn:E2; try done.
  cbn [mbind outcome_bind] in E.
  assert (taken s s2 d d2 p p2 ∧ (dest_len d ≠ 0 → s_bytes s ≠ [] → state_nal p = NAL_PARSING → state_nal p2 = NAL_PARSING ∧
    (bytes_tobeparsed p2 = 0 ∨ (length (s_bytes s2) < length (s_bytes s))%nat))) as [HT Hc].
  { destruct (bool_decide_reflect (state_nal p = NAL_PARSING)) as [Hp|]; cbn [andb] in E2.
    2:{ done_eq E2. split; [apply taken_info|done]. }
    destruct (Z.ltb_spec 0 t).
    - destruct (put_bytes _ _) as [d3| |] eqn:Ep; try done. done_eq E2. split.
      + eapply taken_trans; [apply taken_info|]. eapply taken_trans; [apply (taken_put _ _ _ s p Ep); intros; by apply Forall_take|].
        eapply taken_trans; [apply taken_skip|by apply taken_parser].
      + intros _ Hne _. split; [done|]. cbn -[skip_source]. destruct (Z.ltb_spec t (bytes_tobeparsed p)); [|left; lia].
        right. apply skipped_shorter; [done|lia].
    - done_eq E2. split; [apply taken_info|]. intros Hd Hne _. destruct (s_bytes s2); [done|cbn in t; lia]. }
  assert (taken s (r_source r) d (r_dest r) p (r_parser r) ∧ r_source r = s2 ∧ (bytes_tobeparsed p2 = 0 → state_nal p2 = NAL_PARSING →
    state_nal (r_parser r) = NAL_LENGTH_ACC)) as (HT' & Hs & Hl).
  { destruct (Z.eqb_spec (bytes_tobeparsed p2) 0); cbn [andb] in E.
    - destruct (bool_decide_reflect (state_nal p2 = NAL_PARSING)); done_eq E; (split; [|done]); cbn;
        eapply taken_trans; try exact HT; by apply taken_parser.
    - by done_eq E. }
  split; [done|]. intros Hd Hne Hp. destruct (Hc Hd Hne Hp) as [Hp2 [Hb|Hlt]].
  - rewrite Hs. unfold weight. rewrite (bool_decide_false (_ = NAL_PARSING)) by (rewrite Hl by done; done).
    rewrite bool_decide_true by done. destruct HT as [[k ->] _ _ _]. cbn [s_bytes skip_source]. rewrite length_drop. lia.
  - rewrite Hs. by apply weight_shorter.
Qed.

Lemma parse_nallength_called s d p r : parse_h264_nallength s d p = Done r → called s d p r.
Proof.
  unfold parse_h264_nallength. destruct (Z.ltb_spec (dest_len d) 4); cbn [orb].
  { intros [= <-]. split; [apply taken_refl|by left]. }
  destruct (_ =? 0); [intros [= <-]; split; [apply taken_refl|by left]|].
  destruct (bool_decide_reflect (s_bytes s = [])) as [|Hne].
  { destruct (is_eos s); intros [= <-]; (split; [apply taken_refl|]); cbn; auto. }
  cbv zeta. intros E.
  destruct (match state_nal p with NAL_LENGTH_ACC => _ | _ => _ end) as [[[s1 d1] p1]| |] eqn:E1; try done.
  cbn [mbind outcome_bind] in E. apply copy_nal_taken in E as [H2 Hw]. destruct (state_nal p) eqn:Ep.
  - apply length_loop_taken in E1 as [H1 Hl]. split; [by eapply taken_trans|]. right. right. left. apply weight_shorter.
    destruct H2 as [[k ->] _ _ _]. cbn [s_bytes skip_source]. rewrite length_drop.
    assert (0 < length (s_bytes s))%nat by (destruct (s_bytes s); [done|cbn; lia]). specialize (Hl ltac:(lia) Hne). lia.
  - done_eq E1. split; [done|]. right. right. left. apply Hw; (done || lia).
Qed.

Lemma parse_nallength_ends s d p : parse_h264_nallength s d p ≠ NoFuel.
Proof.
  unfold parse_h264_nallength. destruct (_ || _); [done|]. destruct (bool_decide _); [by destruct (is_eos s)|]. cbv zeta.
  apply bind_ends.
  { destruct (state_nal p); [|done]. generalize (Z.to_nat (Z.min (Z.of_nat (length (s_bytes s))) (dest_len d))). intros n.
    revert s d p. induction n as [|n IH]; intros s d p; cbn [length_loop]; [done|]. destruct (s_bytes s); [done|]. cbv zeta.
    destruct (_ =? _); [|by apply IH]. unfold put_bytes. by destruct (_ <=? _). }
  intros [[s1 d1] p1] _. unfold copy_nal. cbv zeta. apply bind_ends.
  { destruct (_ && _); [|done]. unfold put_bytes. by destruct (_ <=? _). }
  intros [[s2 d2] p2] _. by destruct (_ && _).
Qed.
