(* ===== verification/VdecInputProps.v ===== *)
(** * Input of arbitrary bytes: theorems

    What [VdecInput] does with bytes and buffers, by the rules of
    [VdecInputRules].  First what a run moves: the bytes from the held ones to
    frames, the destinations from the component to the driver, the sources
    from the component to the client. *)
From S2P Require Import Prelude Doubles FrameParser H264Bits H264Parser H264State NalFrames VdecInput VdecInputRules.
Local Open Scope Z_scope.

(** ** What a run moves *)
Definition frame_bytes (e : event) : list Z := match e with FrameQueued _ d _ => d_bytes d | _ => [] end.
Definition new_bytes (e : event) : list Z := match e with BytesIn l => l | _ => [] end.
Definition queued_id (e : event) : list nat := match e with FrameQueued id _ _ => [id] | _ => [] end.
Definition done_id (e : event) : list nat := match e with EmptyBufferDone id => [id] | _ => [] end.

Definition out_bytes (ev : list event) : list Z := mjoin (frame_bytes <$> ev).
Definition in_bytes (ev : list event) : list Z := mjoin (new_bytes <$> ev).
Definition queued (ev : list event) : list nat := mjoin (queued_id <$> ev).
Definition returned (ev : list event) : list nat := mjoin (done_id <$> ev).

Definition dest_bytes (s : input) : list Z := from_option (λ p : nat * dest_hdr, d_bytes p.2) [] (pdest_frame s).
(** [nal]: the codec has NAL units, and the scratch buffer is used. *)
Definition held (nal : bool) (s : input) : list Z := dest_bytes s ++ if nal then pending_bytes s else [].

Definition dest_ids (s : input) : list nat := option_list (fst <$> pdest_frame s) ++ (fst <$> m_input_free_q s).
Definition source_ids (s : input) : list nat := option_list (fst <$> psource_frame s) ++ (fst <$> m_input_pending_q s).

(** No frame that ends the stream goes to the driver while a unit is pending. *)
Definition calm (nal : bool) (ev : list event) : Prop :=
  Forall (λ e, match e with FrameQueued _ d p => nal = true → is_end d = true → p = [] | _ => True end) ev.

Record moved (nal : bool) (s s' : input) (ev : list event) : Prop := {
  mv_bytes : calm nal ev → out_bytes ev ++ held nal s' = held nal s ++ in_bytes ev;
  mv_dests : (length (dest_ids s) ≤ 100)%nat → dest_ids s ≡ₚ queued ev ++ dest_ids s';
  mv_sources : source_ids s = returned ev ++ source_ids s'
}.

Lemma moved_refl nal s : moved nal s s [].
Proof. split; [intros _; by rewrite app_nil_r|done|done]. Qed.

Lemma moved_trans nal s1 s2 s3 e1 e2 : moved nal s1 s2 e1 → moved nal s2 s3 e2 → moved nal s1 s3 (e1 ++ e2).
Proof.
  intros [B1 D1 S1] [B2 D2 S2]. split.
  - intros [C1 C2]%Forall_app. specialize (B1 C1). specialize (B2 C2). unfold out_bytes, in_bytes in *.
    rewrite !fmap_app, !join_app, <- app_assoc, B2, (app_assoc _ (held nal s2)), B1. by rewrite <- app_assoc.
  - intros HL. specialize (D1 HL). assert (length (dest_ids s2) ≤ 100)%nat as HL2.
    { apply Permutation_length in D1. rewrite length_app in D1. lia. }
    unfold queued in *. by rewrite D1, (D2 HL2), fmap_app, join_app, app_assoc.
  - unfold returned in *. by rewrite S1, S2, fmap_app, join_app, app_assoc.
Qed.

(** Nothing that counts is changed. *)
Definition quiet (nal : bool) (s s' : input) : Prop :=
  held nal s' = held nal s ∧ dest_ids s' = dest_ids s ∧ source_ids s' = source_ids s.

Lemma quiet_moved nal s s' : quiet nal s s' → moved nal s s' [].
Proof. intros (H1 & H2 & H3). split; rewrite ?H1, ?H2, ?H3; [intros _; by rewrite app_nil_r|done|done]. Qed.

#[export] Instance moved_rel nal : RunRel (moved nal) := {| run_refl := moved_refl nal; run_trans := moved_trans nal |}.

(** An event that is not counted. *)
Lemma moved_event nal s e : frame_bytes e = [] → new_bytes e = [] → queued_id e = [] → done_id e = [] → moved nal s s [e].
Proof.
  intros H1 H2 H3 H4. split.
  - intros _. unfold out_bytes, in_bytes. cbn. by rewrite H1, H2, !app_nil_r.
  - intros _. unfold queued. cbn. by rewrite H3.
  - unfold returned. cbn. by rewrite H4.
Qed.

Lemma quiet_dest nal f s : (∀ d, d_bytes (f d) = d_bytes d) → quiet nal s (set_dest (prod_map id f <$> pdest_frame s) s).
Proof.
  intros Hf. unfold quiet, held, dest_bytes, dest_ids. cbn. destruct (pdest_frame s) as [[id d]|]; [|done]. cbn. by rewrite Hf.
Qed.

Lemma quiet_scratch nal f s : (∀ d, d_bytes (f d) = d_bytes d) → quiet nal s (set_scratch (f <$> h264_scratch s) s).
Proof. intros Hf. unfold quiet, held, pending_bytes, dest_bytes. cbn. destruct (h264_scratch s); cbn; by rewrite ?Hf. Qed.

#[export] Hint Extern 0 (moved _ _ _ []) => solve [apply quiet_moved; done] : moves.
#[export] Hint Extern 1 (moved _ _ (set_dest _ _) []) =>
  solve [apply quiet_moved, quiet_dest; intros ?; repeat case_match; done] : moves.
#[export] Hint Extern 1 (moved _ _ _ [_]) => solve [apply moved_event; done] : moves.

(** ** The steps that move something *)
(** A destination is taken when there is none. *)
Lemma pop_free_moves nal f : (∀ d, d_bytes (f d) = []) →
  keeps (moved nal) (λ s, pdest_frame s = None) (pop_free f) (λ _ _, True).
Proof.
  intros Hf. apply keep_modify. intros s Hs. split; [|done]. apply quiet_moved. unfold quiet, held, dest_bytes, dest_ids.
  rewrite Hs. destruct (m_input_free_q s) as [|[id d] q] eqn:Eq; cbn; rewrite ?Hs, ?Eq; [done|]. cbn. by rewrite Hf.
Qed.

Lemma pop_pending_moves nal : keeps (moved nal) (λ s, psource_frame s = None) pop_pending (λ _ _, True).
Proof.
  apply keep_modify. intros s Hs. split; [|done]. apply quiet_moved. unfold quiet, held, dest_bytes, source_ids.
  rewrite Hs. destruct (m_input_pending_q s) as [|[id d] q] eqn:Eq; cbn; by rewrite ?Hs, ?Eq.
Qed.

(** The source goes back: the event and the pointer together. *)
Lemma return_source_moves nal id src :
  keeps (moved nal) (λ s, psource_frame s = Some (id, src)) (emit (EmptyBufferDone id);; modify (set_source None))
    (λ _ s, psource_frame s = None).
Proof.
  intros s r s' ev Hs E. unfold mbind, M_bind, emit, modify in E. cbn in E. injection E as <- <- <-. split; [|done].
  split; [intros _; by rewrite app_nil_r|done|]. unfold source_ids. by rewrite Hs.
Qed.

Lemma bind_assoc_unit {A} (m n : M ()) (k : M A) s r s' ev :
  (m;; n;; k) s = Done (r, s', ev) → ((m;; n);; k) s = Done (r, s', ev).
Proof.
  unfold mbind, M_bind. destruct (m s) as [[[[e|a] s1] e1]| |]; try done. cbn [mbind outcome_bind].
  destruct (n s1) as [[[[e|b] s2] e2]| |]; try done. cbn [mbind outcome_bind].
  destruct (k s2) as [[[c s3] e3]| |]; try done. cbn [mbind outcome_bind]. by rewrite app_assoc.
Qed.

Lemma source_done_moves nal : moves (moved nal) source_done.
Proof.
  unfold source_done. eapply keep_bind; [exact _|apply (keep_the _ (λ _, True))|]. intros [id src] s r s' ev [_ Hs] E.
  apply bind_assoc_unit in E. revert s r s' ev Hs E. apply (keep_bind _ _ _ _ (λ _ s, psource_frame s = None)).
  - apply return_source_moves.
  - intros u. apply pop_pending_moves.
Qed.

Lemma copy_scratch_moves e : moves (moved true) (copy_scratch e).
Proof.
  unfold copy_scratch. eapply keep_bind; [exact _|apply (keep_the _ (λ _, True))|]. intros [id d].
  eapply keep_bind; [exact _|apply keep_the; exact _|]. intros sc. destruct (_ <=? room d); [|apply (keep_fail _)].
  destruct (_ <=? d_nAllocLen d); [|intros s r s' ev Hs E; discriminate E]. apply keep_modify. intros s [[HT Hd] Hs]. split; [|done].
  apply quiet_moved. unfold quiet, held, dest_bytes, pending_bytes, dest_ids. cbn. rewrite Hd, Hs. cbn. by rewrite app_nil_r.
Qed.

Lemma copy_buffer_moves : moves (moved true) copy_buffer.
Proof. unfold copy_buffer. pose proof copy_scratch_moves. moving. Qed.

#[export] Hint Resolve source_done_moves copy_scratch_moves copy_buffer_moves : moves.

Section Driver.
Context (driver : nat → driver_answer) (Hdriver : ∀ n, driver n = Accepts ∨ driver n = NotValid).
Context (codec nal_length client_extradata : Z).

Lemma end_stream_ids s : dest_ids (end_stream s) = dest_ids s ∧ source_ids (end_stream s) = source_ids s ∧
  pdest_frame (end_stream s) = pdest_frame s ∧ pending_bytes (end_stream s) = [].
Proof. split_and!; try done. unfold pending_bytes, end_stream. cbn. by destruct (h264_scratch s). Qed.

Lemma push_dest_moves nal : keeps (moved nal) (λ _, True) (push_dest driver) (λ _ s, pdest_frame s = None).
Proof.
  intros s r s' ev _ E. unfold push_dest, as_error, empty_this_buffer_proxy, mbind, M_bind, the, get, change_dest, modify, emit in E.
  destruct (pdest_frame s) as [[id d]|] eqn:Ed; [|done]. cbn [defined mbind outcome_bind] in E.
  destruct (Hdriver (proxy_calls s)) as [Hn|Hn]; rewrite Hn in E; cbn [mbind outcome_bind fail] in E.
  2:{ injection E as <- <- <-. split; [by apply quiet_moved|done]. }
  set (s1 := set_dest _ _) in E. assert (held nal s1 = held nal s ∧ dest_ids s1 = dest_ids s ∧ source_ids s1 = source_ids s ∧
    pending_bytes s1 = pending_bytes s) as (H1 & H2 & H3 & H4).
  { unfold s1, held, dest_bytes, dest_ids. cbn. by rewrite Ed. }
  assert (∃ s2, pdest_frame s2 = None ∧ m_input_free_q s2 = m_input_free_q s ∧ source_ids s2 = source_ids s ∧
    pending_bytes s2 = (if is_end d then [] else pending_bytes s) ∧
    (r, s', ev) = (inr (), s2, [FrameQueued id d (pending_bytes s)])) as (s2 & P1 & P2 & P3 & P4 & [= -> -> ->]).
  { destruct (is_end d); cbn in E; injection E as <- E' <-; exists s'; rewrite <- E'; clear E'.
    all: unfold pending_bytes; match goal with |- context [if ?b then _ else _] => destruct b end; cbn.
    all: split_and!; try done; by destruct (h264_scratch s). }
  split; [|done]. split.
  - intros [Hc _]%Forall_cons. unfold out_bytes, in_bytes, held, dest_bytes. cbn. rewrite P1, Ed, P4. cbn.
    rewrite !app_nil_r. f_equal. destruct nal; [|done]. destruct (is_end d); [|done]. by rewrite Hc.
  - intros _. unfold queued, dest_ids. cbn. by rewrite P1, P2, Ed.
  - by rewrite P3.
Qed.

Lemma moves_push_dest nal : moves (moved nal) (push_dest driver).
Proof. eapply keep_weaken; [by apply push_dest_moves|done|done]. Qed.

Lemma push_next_moves nal f : (∀ d, d_bytes (f d) = []) → moves (moved nal) (push_dest driver;; pop_free f).
Proof. intros Hf. eapply keep_bind; [exact _|by apply push_dest_moves|]. intros u. by apply pop_free_moves. Qed.

(** What a call of a parser adds to the buffer. *)
Lemma called_adds src d fp r : called src d fp r →
  d_bytes (r_dest r) = d_bytes d ++ drop (length (d_bytes d)) (d_bytes (r_dest r)).
Proof. intros [[_ (l & -> & _) _ _] _]. by rewrite drop_app_length. Qed.

Lemma parse_unit_moves : moves (moved true) (parse_unit nal_length).
Proof.
  intros s r s' ev _ E. unfold parse_unit, mbind, M_bind, the, get, lift, modify, emit in E.
  destruct (psource_frame s) as [[sid src]|] eqn:Es; [|done]. cbn [defined mbind outcome_bind] in E.
  destruct (h264_scratch s) as [sc|] eqn:Ec; [|done]. cbn [defined mbind outcome_bind] in E.
  destruct (if nal_length =? 0 then _ else _) as [p| |] eqn:Ep; try done. cbn [mbind outcome_bind] in E.
  assert (called src sc (m_frame_parser (pars s)) p) as Ha%called_adds.
  { destruct (nal_length =? 0); [by apply parse_sc_frame_called|by apply parse_nallength_called]. }
  set (l := drop _ _) in *.
  assert (s' = set_source (Some (sid, r_source p)) (set_scratch (Some (r_dest p))
    (set_pars (set_frame_parser (r_parser p) (pars s)) s)) ∧ ev = [BytesIn l]) as [-> ->].
  { by destruct (rc p =? -1); injection E as <- <- <-. }
  split; [|by destruct r]. split.
  - intros _. unfold out_bytes, in_bytes, held, dest_bytes, pending_bytes. cbn. rewrite Ec. cbn.
    by rewrite Ha, app_nil_r, app_assoc.
  - by intros _.
  - unfold source_ids. cbn. by rewrite Es.
Qed.

Lemma skip_empty_moves : moves (moved true) skip_empty_nal.
Proof.
  unfold skip_empty_nal. moving. apply moves_modify. intros st. rewrite <- option_fmap_compose.
  by apply quiet_moved, (quiet_scratch true (λ d, _)).
Qed.

Lemma frame_complete_moves : moves (moved true) (frame_complete driver).
Proof.
  unfold frame_complete. do 2 (apply moves_bind; [exact _|moving|intros []]). apply moves_bind; [exact _|moving|].
  intros u. by apply push_next_moves.
Qed.
Hint Resolve parse_unit_moves skip_empty_moves frame_complete_moves moves_push_dest : moves.

Lemma h264_nal_done_moves : moves (moved true) (h264_nal_done driver client_extradata).
Proof. unfold h264_nal_done, h264_unit, h264_is_new_frame, unit_kind. moving. Qed.

Lemma hevc_nal_done_moves : moves (moved true) (hevc_nal_done driver).
Proof. unfold hevc_nal_done, hevc_unit. moving. Qed.

Lemma h264_end_moves g : moves (moved true) (h264_end driver g).
Proof. unfold h264_end, h264_is_new_frame. moving. Qed.

Lemma hevc_end_moves : moves (moved true) (hevc_end driver).
Proof. unfold hevc_end. moving. Qed.
Hint Resolve h264_nal_done_moves hevc_nal_done_moves h264_end_moves hevc_end_moves : moves.

Lemma push_input_h264_moves : moves (moved true) (push_input_h264 driver nal_length client_extradata).
Proof. unfold push_input_h264, copy_look_ahead, scratch_full. moving. Qed.

Lemma push_input_hevc_moves : moves (moved true) (push_input_hevc driver nal_length).
Proof. unfold push_input_hevc, copy_look_ahead, scratch_full. moving. Qed.

(** Codecs without NAL units do not use the scratch buffer. *)
Lemma sc_parse_moves {A} (k : nat → dest_hdr → parse_result → M A) :
  (∀ did dst r, moves (moved false) (k did dst r)) →
  moves (moved false) (
    '(sid, src) ← the psource_frame;
    '(did, dst) ← the pdest_frame;
    fp ← get (λ s, m_frame_parser (pars s));
    r ← lift (parse_sc_frame src dst fp);
    modify (λ s, set_source (Some (sid, r_source r)) (set_dest (Some (did, r_dest r))
                   (set_pars (set_frame_parser (r_parser r) (pars s)) s)));;
    emit (BytesIn (drop (length (d_bytes dst)) (d_bytes (r_dest r))));;
    k did dst r).
Proof.
  intros Hk s r s' ev _ E. unfold mbind at 1 2 3 4 5 6, M_bind in E. unfold the, get, lift, modify, emit in E.
  destruct (psource_frame s) as [[sid src]|] eqn:Es; [|done]. cbn [defined mbind outcome_bind] in E.
  destruct (pdest_frame s) as [[did dst]|] eqn:Ed; [|done]. cbn [defined mbind outcome_bind] in E.
  destruct (parse_sc_frame _ _ _) as [p| |] eqn:Ep; try done. cbn [mbind outcome_bind] in E.
  apply parse_sc_frame_called, called_adds in Ep. set (l := drop _ _) in *. set (s1 := set_source _ _) in *.
  destruct (k did dst p s1) as [[[r2 s2] e2]| |] eqn:E2; try done. cbn in E. injection E as <- <- <-.
  split; [|by destruct r2]. apply (moved_trans false s s1 s2 [BytesIn l] e2).
  - split.
    + intros _. unfold out_bytes, in_bytes, held, dest_bytes. cbn. by rewrite Ed, Ep, !app_nil_r.
    + intros _. unfold dest_ids. cbn. by rewrite Ed.
    + unfold source_ids. cbn. by rewrite Es.
  - by destruct (Hk _ _ _ _ _ _ _ I E2).
Qed.

(** An empty destination goes to the free ones. *)
Lemma give_back_moves id d : d_bytes d = [] →
  keeps (moved false) (λ s, pdest_frame s = Some (id, d)) (insert_free (id, d);; modify (set_dest None)) (λ _ _, True).
Proof.
  intros Hd s r s' ev Hs E. unfold insert_free, mbind, M_bind, modify in E. cbn in E. injection E as <- <- <-.
  split; [|done]. split.
  - intros _. unfold held, dest_bytes. cbn. rewrite Hs. cbn. by rewrite Hd.
  - unfold dest_ids, queued, OMX_CORE_CONTROL_CMDQ_SIZE. rewrite Hs. intros HL.
    rewrite length_app, length_fmap in HL. cbn in HL.
    destruct (Nat.leb_spec (length (m_input_free_q s)) 99); [|lia]. cbn [m_input_free_q set_free set_dest pdest_frame].
    by rewrite fmap_app, Permutation_app_comm.
  - unfold source_ids. by destruct (_ <=? _)%nat.
Qed.

Lemma push_input_sc_codec_moves : moves (moved false) (push_input_sc_codec driver).
Proof.
  unfold push_input_sc_codec. apply (sc_parse_moves (λ did dst r, _)). intros did dst r.
  destruct (_ =? _); [moving|]. cbv zeta. apply moves_bind; [exact _| |intros u; moving].
  destruct (_ =? 0); [|moving]. apply moves_bind; [exact _|moving|]. intros count. destruct (_ =? 0); [moving|].
  apply moves_bind; [exact _|moving|]. intros u. eapply keep_bind; [exact _|apply (keep_the _ (λ _, True))|]. intros [id d].
  case_bool_decide as Hd.
  - eapply (keep_bind _ _ _ _ (λ _ s, pdest_frame s = None)).
    + eapply keep_weaken; [apply push_dest_moves|done|done].
    + intros a. apply (keep_bind _ _ _ _ (λ _ s, pdest_frame s = None)).
      * apply keep_modify. intros s Hs. by split; [apply quiet_moved|].
      * intros a1. by apply pop_free_moves.
  - destruct (negb _); [|by apply (keep_ret _)]. eapply keep_weaken; [apply give_back_moves|by intros s [_ Hs]|done].
    by destruct (d_bytes d).
Qed.
End Driver.

(** ** The loop, and the entries *)
Lemma moves_try R (m : M ()) : moves R m → moves R (try m).
Proof.
  intros Hm s r s' ev HP E. unfold try in E. destruct (m s) as [[[r1 s1] e1]| |] eqn:E1; try done. injection E as <- <- <-.
  destruct (Hm _ _ _ _ HP E1). by split.
Qed.

Lemma moves_reporting {A} (m : M A) nal : moves (moved nal) m → moves (moved nal) (reporting m).
Proof.
  intros Hm s r s' ev HP E. unfold reporting in E. destruct (m s) as [[[r1 s1] e1]| |] eqn:E1; try done. injection E as <- <- <-.
  destruct (Hm _ _ _ _ HP E1) as [HM Hr]. split; [|done]. destruct r1; [|done].
  eapply moved_trans; [exact HM|by apply moved_event].
Qed.

(** The codecs that [push_one] parses as NAL units. *)
Definition is_nal (codec : Z) : bool := (codec =? CODEC_TYPE_H264) || (codec =? CODEC_TYPE_HEVC).

Section Loop.
Context (driver : nat → driver_answer) (Hdriver : ∀ n, driver n = Accepts ∨ driver n = NotValid).
Context (codec nal_length client_extradata : Z).

Lemma vc1_first_frame_moves : moves (moved false) vc1_first_frame.
Proof.
  unfold vc1_first_frame. apply moves_bind; [exact _|moving|]. intros v. apply moves_bind; [exact _|moving|]. intros u.
  destruct (m_vendor_config v) as [config|]; [|moving].
  eapply keep_bind; [exact _|apply (keep_the _ (λ _, True))|]. intros [did dst]. destruct (_ <? _); [apply (keep_fail _)|].
  intros s r s' ev [_ Hs] E. unfold change_dest, modify, emit, mbind, M_bind in E. cbn in E. injection E as <- <- <-. split; [|done].
  split; [|intros _; unfold dest_ids; cbn; by rewrite Hs|done].
  intros _. unfold out_bytes, in_bytes, held, dest_bytes. cbn. rewrite Hs. cbn. by rewrite !app_nil_r.
Qed.

Lemma push_one_moves : moves (moved (is_nal codec)) (push_one driver codec nal_length client_extradata).
Proof.
  unfold push_one, is_nal. destruct (Z.eqb_spec codec CODEC_TYPE_MPEG4) as [->|]; [by apply push_input_sc_codec_moves|].
  destruct (Z.eqb_spec codec CODEC_TYPE_H263) as [->|]; [by apply push_input_sc_codec_moves|].
  destruct (Z.eqb_spec codec CODEC_TYPE_MPEG2) as [->|]; [by apply push_input_sc_codec_moves|].
  destruct (Z.eqb_spec codec CODEC_TYPE_H264); [by apply push_input_h264_moves|].
  destruct (Z.eqb_spec codec CODEC_TYPE_HEVC); [by apply push_input_hevc_moves|]. cbn [orb].
  destruct (Z.eqb_spec codec CODEC_TYPE_VC1) as [->|]; [|moving]. unfold push_input_vc1.
  pose proof vc1_first_frame_moves. pose proof (push_input_sc_codec_moves driver Hdriver). moving.
Qed.

Lemma push_loop_moves fuel : moves (moved (is_nal codec)) (push_loop driver codec nal_length client_extradata fuel).
Proof.
  induction fuel as [|fuel IH]; cbn [push_loop]; (apply moves_bind; [exact _|moving|]); intros []; try solve [moving].
  - intros s r s' ev _ E. discriminate E.
  - apply moves_bind; [exact _|apply push_one_moves|done].
Qed.

Lemma push_input_buffer_moves fuel :
  moves (moved (is_nal codec)) (push_input_buffer driver codec nal_length client_extradata fuel).
Proof.
  unfold push_input_buffer. eapply keep_bind; [exact _|apply (keep_get _ (λ _, True)); exact _|]. intros dest.
  apply (keep_bind _ _ _ _ (λ _ _, True)).
  { destruct dest; [apply (keep_ret _); done|]. eapply keep_weaken; [by apply pop_free_moves|by intros s [_ ->]|done]. }
  intros u. eapply keep_bind; [exact _|apply (keep_get _ (λ _, True)); exact _|]. intros src.
  apply (keep_bind _ _ _ _ (λ _ _, True)).
  { destruct src; [apply (keep_ret _); done|]. eapply keep_weaken; [apply pop_pending_moves|by intros s [_ ->]|done]. }
  intros u'. apply moves_reporting, push_loop_moves.
Qed.
End Loop.

(** What happens to the component: a source comes from the client, a
    destination comes back from the driver, a flush is ordered or executed. *)
Inductive op : Type :=
  | Submit (id : nat) (buffer : source_hdr)
  | FromDriver (id : nat) (buffer : dest_hdr)
  | FlushOrdered
  | FlushExecuted.

Definition submitted (o : op) : list nat := match o with Submit id _ => [id] | _ => [] end.
Definition from_driver (o : op) : list nat := match o with FromDriver id _ => [id] | _ => [] end.
Definition is_flush (o : op) : bool := match o with FlushOrdered | FlushExecuted => true | _ => false end.

Section Serve.
Context (driver : nat → driver_answer) (codec nal_length client_extradata : Z) (fuel : nat).

Definition run_op (o : op) : M () :=
  match o with
  | Submit id buffer => empty_this_buffer_proxy_arbitrary driver codec nal_length client_extradata fuel id buffer
  | FromDriver id buffer => empty_buffer_done driver codec nal_length client_extradata fuel id buffer
  | FlushOrdered => modify (set_flush_progress true)
  | FlushExecuted => execute_input_flush
  end.

Fixpoint serve (ops : list op) : M () :=
  match ops with
  | [] => mret ()
  | o :: ops => try (run_op o);; serve ops
  end.
End Serve.

(** What an operation does, with the buffers that it brings. *)
Record served (nal flush : bool) (gd gs : list nat) (s s' : input) (ev : list event) : Prop := {
  sv_bytes : flush = false → calm nal ev → out_bytes ev ++ held nal s' = held nal s ++ in_bytes ev;
  sv_dests : (length (dest_ids s ++ gd) ≤ 100)%nat → dest_ids s ++ gd ≡ₚ queued ev ++ dest_ids s';
  sv_sources : (length (source_ids s ++ gs) ≤ 100)%nat → source_ids s ++ gs ≡ₚ returned ev ++ source_ids s'
}.

Lemma moved_served nal flush s s' ev : moved nal s s' ev → served nal flush [] [] s s' ev.
Proof. intros [B D S]. split; [done|by rewrite app_nil_r|]. rewrite app_nil_r, S. done. Qed.

Lemma served_trans nal f1 f2 d1 d2 g1 g2 s1 s2 s3 e1 e2 :
  served nal f1 d1 g1 s1 s2 e1 → served nal f2 d2 g2 s2 s3 e2 →
  served nal (f1 || f2) (d1 ++ d2) (g1 ++ g2) s1 s3 (e1 ++ e2).
Proof.
  intros [B1 D1 S1] [B2 D2 S2]. split; unfold queued, returned, out_bytes, in_bytes in *.
  - intros [F1 F2]%orb_false_iff [C1 C2]%Forall_app. specialize (B1 F1 C1). specialize (B2 F2 C2).
    rewrite !fmap_app, !join_app, <- app_assoc, B2, (app_assoc _ (held nal s2)), B1. by rewrite <- app_assoc.
  - intros HL. rewrite app_assoc in *. rewrite length_app in HL. specialize (D1 ltac:(lia)).
    pose proof (Permutation_length D1) as HP. rewrite !length_app in *. specialize (D2 ltac:(lia)).
    by rewrite D1, <- app_assoc, D2, fmap_app, join_app, app_assoc.
  - intros HL. rewrite app_assoc in *. rewrite length_app in HL. specialize (S1 ltac:(lia)).
    pose proof (Permutation_length S1) as HP. rewrite !length_app in *. specialize (S2 ltac:(lia)).
    by rewrite S1, <- app_assoc, S2, fmap_app, join_app, app_assoc.
Qed.

Lemma served_moved nal f gd gs s s1 s' e1 e2 :
  served nal f gd gs s s1 e1 → moved nal s1 s' e2 → served nal f gd gs s s' (e1 ++ e2).
Proof.
  intros H1 H2%(moved_served nal f). pose proof (served_trans _ _ _ _ _ _ _ _ _ _ _ _ H1 H2) as H.
  by rewrite !app_nil_r, orb_diag in H.
Qed.

Lemma bind_run {A B} (m : M A) (k : A → M B) s r s' ev : (m ≫= k) s = Done (r, s', ev) →
  (∃ e, m s = Done (inl e, s', ev) ∧ r = inl e) ∨
  ∃ a s1 e1 e2, m s = Done (inr a, s1, e1) ∧ k a s1 = Done (r, s', e2) ∧ ev = e1 ++ e2.
Proof.
  unfold mbind, M_bind. destruct (m s) as [[[[e|a] s1] e1]| |]; try done; cbn [mbind outcome_bind].
  - intros [= <- <- <-]. left. by exists e.
  - destruct (k a s1) as [[[r2 s2] e2]| |] eqn:E2; try done. cbn. intros [= <- <- <-]. right. by exists a, s1, e1, e2.
Qed.

(** A free destination that comes back. *)
Lemma insert_free_served nal f id d s : d_bytes d = [] →
  served nal f [id] [] s (if (length (m_input_free_q s) <? OMX_CORE_CONTROL_CMDQ_SIZE)%nat then set_free (m_input_free_q s ++ [(id, d)]) s else s) [].
Proof.
  intros Hd. unfold OMX_CORE_CONTROL_CMDQ_SIZE. split.
  - intros _ _. cbn. rewrite app_nil_r. by destruct (_ <=? _)%nat.
  - unfold dest_ids, queued. rewrite !length_app, length_fmap. intros HL. cbn [length] in HL.
    destruct (Nat.ltb_spec (length (m_input_free_q s)) 100); [|lia]. cbn [m_input_free_q set_free pdest_frame].
    by rewrite fmap_app, <- app_assoc.
  - intros _. unfold source_ids. rewrite app_nil_r. by destruct (_ <? _)%nat.
Qed.

Section Operations.
Context (driver : nat → driver_answer) (Hdriver : ∀ n, driver n = Accepts ∨ driver n = NotValid).
Context (codec nal_length client_extradata : Z) (fuel : nat).

Lemma pushed_moves : moves (moved (is_nal codec)) (try (push_input_buffer driver codec nal_length client_extradata fuel)).
Proof. by apply moves_try, push_input_buffer_moves. Qed.

(** The buffer joins the sources. *)
Lemma submit_served id buffer s r s' ev : run_op driver codec nal_length client_extradata fuel (Submit id buffer) s = Done (r, s', ev) →
  served (is_nal codec) false [] [id] s s' ev.
Proof.
  cbn [run_op]. intros E1.
  unfold empty_this_buffer_proxy_arbitrary in E1. apply bind_run in E1 as [(e & [=] & _)|(fl & s0 & e0 & e & [= <- <- <-] & E1 & ->)].
  cbn [app]. destruct (input_flush_progress s || _).
  { injection E1 as _ <- <-. split; [intros _ _; exact (eq_sym (app_nil_r _))|by rewrite app_nil_r|].
    intros _. cbn. by rewrite Permutation_app_comm. }
  apply bind_run in E1 as [(e0 & [=] & _)|(src & s0 & e0 & e' & [= <- <- <-] & E1 & ->)]. cbn [app].
  apply bind_run in E1 as [(x & E1 & ->)|(u & s2 & e2 & e3 & E1 & E3 & ->)].
  - destruct (psource_frame s) as [[sid src]|] eqn:Es.
    + apply bind_run in E1 as [(e0 & [=] & _)|(q & s0 & e0 & e1 & [= <- <- <-] & E1 & ->)].
      destruct (_ <? _)%nat eqn:El; [done|]. apply Nat.ltb_ge in El. unfold OMX_CORE_CONTROL_CMDQ_SIZE in El.
      injection E1 as _ <- <-. split; [intros _ _; exact (eq_sym (app_nil_r _))|intros _; by rewrite app_nil_r|].
      unfold source_ids. rewrite Es, !length_app, length_fmap. cbn [length]. intros HL. cbn in HL. lia.
    + apply bind_run in E1 as [(e0 & [=] & _)|(u & s0 & e0 & e1 & [= <- <- <-] & E1 & ->)].
      unfold try in E1. by destruct (push_input_buffer _ _ _ _ _ _) as [[[r2 s2] e2]| |].
  - injection E3 as _ <- <-. rewrite app_nil_r.
    assert (served (is_nal codec) false [] [id] s s2 e2) as H2.
    { destruct (psource_frame s) as [[sid src]|] eqn:Es.
      + apply bind_run in E1 as [(e0 & [=] & _)|(q & s0 & e0 & e1 & [= <- <- <-] & E1 & ->)].
        destruct (_ <? _)%nat eqn:El; [|done]. injection E1 as _ <- <-.
        split; [intros _ _; exact (eq_sym (app_nil_r _))|intros _; by rewrite app_nil_r|]. intros _. unfold source_ids. cbn [app].
        cbn [psource_frame set_pending m_input_pending_q]. rewrite fmap_app. cbn. by rewrite app_assoc.
      + apply bind_run in E1 as [(e0 & [=] & _)|(u' & s0 & e0 & e1 & [= <- <- <-] & E1 & ->)]. cbn [app].
        apply (served_moved _ _ _ _ _ (set_source (Some (id, buffer)) s) _ []); [|by eapply pushed_moves].
        split; [intros _ _; exact (eq_sym (app_nil_r _))|intros _; by rewrite app_nil_r|]. intros _. unfold source_ids. rewrite Es. cbn.
        by rewrite Permutation_app_comm. }
    rewrite <- (app_nil_r e2). eapply served_moved; [exact H2|apply quiet_moved].
    by destruct (codec_config_flag s2 && _).
Qed.

Lemma from_driver_served id buffer s r s' ev :
  run_op driver codec nal_length client_extradata fuel (FromDriver id buffer) s = Done (r, s', ev) →
  served (is_nal codec) false [id] [] s s' ev.
Proof.
  cbn [run_op]. unfold empty_buffer_done. intros E.
  apply bind_run in E as [(e & [=] & _)|(dest & s0 & e0 & e & [= <- <- <-] & E & ->)]. cbn [app].
  apply bind_run in E as [(e1 & [=] & _)|(fl & s0 & e0 & e1 & [= <- <- <-] & E & ->)]. cbn [app].
  destruct (pdest_frame s) as [[did dst]|] eqn:Ed; [|destruct (input_flush_progress s)].
  - injection E as _ <- <-. by apply insert_free_served.
  - injection E as _ <- <-. by apply insert_free_served.
  - apply bind_run in E as [(e2 & [=] & _)|(u' & s0 & e0 & e2 & [= <- <- <-] & E & ->)]. cbn [app].
    apply (served_moved _ _ _ _ _ (set_dest (Some (id, fresh_dest buffer)) s) _ []); [|by eapply pushed_moves].
    split; [|intros _; unfold dest_ids; rewrite Ed; cbn; by rewrite Permutation_app_comm|by rewrite app_nil_r].
    intros _ _. unfold held, dest_bytes. rewrite Ed. cbn. by rewrite app_nil_r.
Qed.
End Operations.

(** A flush drops bytes, but no buffer. *)
Definition flushed (s s' : input) (ev : list event) : Prop := served true true [] [] s s' ev.

Lemma flushed_change s f : dest_ids (f s) = dest_ids s → source_ids (f s) = source_ids s → flushed s (f s) [].
Proof. intros Hd Hs. split; [done|by rewrite Hd, app_nil_r|by rewrite Hs, app_nil_r]. Qed.

#[export] Instance flushed_rel : RunRel flushed.
Proof.
  split; [intros s; apply (flushed_change s id); done|]. intros s1 s2 s3 e1 e2.
  exact (served_trans true true true [] [] [] [] s1 s2 s3 e1 e2).
Qed.

#[local] Hint Extern 0 (flushed ?s _ []) => solve [apply (flushed_change s (λ s, _)); done] : moves.

Lemma return_pending_flushed n : moves flushed (return_pending n).
Proof.
  induction n as [|n IH]; cbn [return_pending]; [moving|].
  eapply keep_bind; [exact _|apply (keep_get _ (λ _, True)); exact _|]. intros [|[id src] q]; [apply (keep_ret _); done|].
  intros s r s' ev [_ Eq] E. apply bind_run in E as [(e1 & [=] & _)|(u & s0 & e0 & e1 & [= <- <- <-] & E & ->)]. cbn [app].
  apply bind_run in E as [(e0 & [=] & _)|(u' & s0 & e0 & e2 & [= <- <- <-] & E & ->)]. apply IH in E as [E Hr]; [|done].
  split; [|by destruct r]. apply (run_trans s (set_pending q s) s' [EmptyBufferDone id] e2); [|exact E].
  split; [done|by rewrite app_nil_r|]. intros _. unfold source_ids. rewrite Eq, app_nil_r. cbn. by rewrite Permutation_middle.
Qed.

Lemma flush_source_moves id src :
  keeps flushed (λ s, psource_frame s = Some (id, src)) (emit (EmptyBufferDone id);; modify (set_source None)) (λ _ _, True).
Proof.
  intros s r s' ev Es E. unfold mbind, M_bind, emit, modify in E. cbn in E. injection E as <- <- <-. split; [|done].
  split; [done|by rewrite app_nil_r|]. intros _. unfold source_ids. by rewrite Es, app_nil_r.
Qed.

Lemma flush_dest_moves id d :
  keeps flushed (λ s, pdest_frame s = Some (id, d)) (insert_free (id, with_bytes [] d);; modify (set_dest None)) (λ _ _, True).
Proof.
  intros s r s' ev Ed E. unfold insert_free, mbind, M_bind, modify in E. cbn in E. injection E as <- <- <-. split; [|done].
  split; [done| |intros _; unfold source_ids; rewrite app_nil_r; by destruct (_ <=? _)%nat].
  unfold dest_ids, OMX_CORE_CONTROL_CMDQ_SIZE. rewrite Ed, app_nil_r, length_app, length_fmap. intros HL. cbn in HL.
  destruct (Nat.leb_spec (length (m_input_free_q s)) 99); [|lia]. cbn [m_input_free_q set_free set_dest pdest_frame].
  by rewrite fmap_app, Permutation_app_comm.
Qed.

Lemma execute_flush_moves : moves flushed execute_input_flush.
Proof.
  unfold execute_input_flush. pose proof return_pending_flushed. apply moves_bind; [exact _|moving|]. intros config.
  apply moves_bind; [exact _| |intros u; moving]. destruct config; [moving|].
  do 4 (apply moves_bind; [exact _|moving|intros ?]).
  eapply keep_bind; [exact _|apply (keep_get _ (λ _, True)); exact _|]. intros src.
  apply (keep_bind _ _ _ _ (λ _ _, True)).
  { destruct src as [[id src]|]; [|by apply (keep_ret _)]. eapply keep_weaken; [apply flush_source_moves|by intros s [_ ->]|done]. }
  intros u. eapply keep_bind; [exact _|apply (keep_get _ (λ _, True)); exact _|]. intros dest.
  apply (keep_bind _ _ _ _ (λ _ _, True)); [|intros u'; moving].
  destruct dest as [[id d]|]; [|by apply (keep_ret _)]. eapply keep_weaken; [apply flush_dest_moves|by intros s [_ ->]|done].
Qed.

Lemma served_nal n1 n2 d g s s' ev : served n1 true d g s s' ev → served n2 true d g s s' ev.
Proof. by intros [_ D S]. Qed.

Section Service.
Context (driver : nat → driver_answer) (Hdriver : ∀ n, driver n = Accepts ∨ driver n = NotValid).
Context (codec nal_length client_extradata : Z) (fuel : nat).

Lemma op_served o s r s' ev : run_op driver codec nal_length client_extradata fuel o s = Done (r, s', ev) →
  served (is_nal codec) (is_flush o) (from_driver o) (submitted o) s s' ev.
Proof.
  destruct o as [id b|id b| |]; intros E.
  - by eapply submit_served.
  - by eapply from_driver_served.
  - injection E as <- <- <-. by apply (served_nal true), (flushed_change s (set_flush_progress true)).
  - apply (served_nal true). by apply (execute_flush_moves s r s' ev I E).
Qed.

Lemma serve_served ops : ∀ s r s' ev, serve driver codec nal_length client_extradata fuel ops s = Done (r, s', ev) →
  served (is_nal codec) (existsb is_flush ops) (ops ≫= from_driver) (ops ≫= submitted) s s' ev.
Proof.
  induction ops as [|o ops IH]; intros s r s' ev E; cbn [serve] in E.
  - injection E as <- <- <-. apply moved_served, moved_refl.
  - unfold try at 1 in E. unfold mbind at 1, M_bind in E.
    destruct (run_op _ _ _ _ _ _ s) as [[[r1 s1] e1]| |] eqn:E1; try done. cbn [mbind outcome_bind] in E.
    destruct (serve _ _ _ _ _ _ s1) as [[[r2 s2] e2]| |] eqn:E2; try done. injection E as <- <- <-.
    cbn [existsb]. rewrite !bind_cons. eapply served_trans; [by eapply op_served|by eapply IH].
Qed.
End Service.

(** C9: While the driver takes frames or refuses them, the frames for the
    driver followed by what the component holds are what it held followed by
    what the parsers delivered, byte for byte and in order, through any
    sequence of buffers from the client and from the driver, errors included;
    as long as no frame that ends the stream goes while a unit is pending. *)
Theorem frames_hold_the_stream driver codec nal_length client_extradata fuel ops s r s' ev :
  (∀ n, driver n = Accepts ∨ driver n = NotValid) → existsb is_flush ops = false →
  serve driver codec nal_length client_extradata fuel ops s = Done (r, s', ev) → calm (is_nal codec) ev →
  out_bytes ev ++ held (is_nal codec) s' = held (is_nal codec) s ++ in_bytes ev.
Proof. intros Hd Hf E Hc. exact (sv_bytes _ _ _ _ _ _ _ (serve_served driver Hd _ _ _ _ ops s r s' ev E) Hf Hc). Qed.

(** C12: No buffer is lost or owned twice while the driver takes frames or
    refuses them: the destinations the component had or got back are those it
    queued and those it has, and the sources it had or was given are those it
    returned and those it has, in any order of submissions, returns and
    flushes, of at most a hundred buffers. *)
Theorem buffers_accounted driver codec nal_length client_extradata fuel ops s r s' ev :
  (∀ n, driver n = Accepts ∨ driver n = NotValid) →
  serve driver codec nal_length client_extradata fuel ops s = Done (r, s', ev) →
  (length (dest_ids s ++ (ops ≫= from_driver)) ≤ OMX_CORE_CONTROL_CMDQ_SIZE)%nat →
  (length (source_ids s ++ (ops ≫= submitted)) ≤ OMX_CORE_CONTROL_CMDQ_SIZE)%nat →
  dest_ids s ++ (ops ≫= from_driver) ≡ₚ queued ev ++ dest_ids s' ∧
  source_ids s ++ (ops ≫= submitted) ≡ₚ returned ev ++ source_ids s'.
Proof.
  intros Hd E H1 H2. destruct (serve_served driver Hd _ _ _ _ ops s r s' ev E) as [_ D S]. by split; [apply D|apply S].
Qed.

(** ** Examples *)
Definition empty_buffer (n : Z) : dest_hdr := DestHdr [] 0 n 0 0.

(** Three frame buffers, a scratch buffer, nothing seen yet. *)
Definition h264_start : input :=
  Input None None [] [(1%nat, empty_buffer 100); (2%nat, empty_buffer 100); (3%nat, empty_buffer 100)] (Some (empty_buffer 64))
    (Parsers (fresh SC_H264) (Some (allocate_rbsp_buffer 64 new_h264_utils)) hevc_initialize (Some start_parser))
    no_au (Vc1State false false None) false false 0.
Definition annexb (units : list (list Z)) : list Z := mjoin ((λ u, [0; 0; 0; 1] ++ u) <$> units).
Definition client_buffer (l : list Z) (flags : Z) : source_hdr := SourceHdr l 0 flags 1000.

(** Two slices of one picture, then a picture. *)
Definition slice1 : list Z := [0x65; 0x88; 1; 1].
Definition slice2 : list Z := [0x65; 0x40; 2; 2].
Definition picture2 : list Z := [0x41; 0x9A; 3; 3].

Definition end_of_stream : list op :=
  [Submit 10 (client_buffer (annexb [slice1; slice2; picture2]) OMX_BUFFERFLAG_EOS); FromDriver 1 (empty_buffer 100)].

(** The last frame of a stream can be lost: when the buffer that ends the
    stream ends with the first slice of a picture behind a picture of two
    slices, the picture in front goes to the driver with the flag of the end,
    which clears the scratch buffer with the last picture; when the driver has
    returned that frame, an empty one follows, and the client gets its buffer
    back as consumed. *)
Theorem last_frame_lost :
  ∃ s' ev, serve (λ _, Accepts) CODEC_TYPE_H264 0 0 50 end_of_stream h264_start = Done (inr (), s', ev) ∧
    in_bytes ev = annexb [slice1; slice2; picture2] ∧ out_bytes ev = annexb [slice1; slice2] ∧
    queued ev = [1; 1]%nat ∧ returned ev = [10%nat] ∧ held true s' = [] ∧ psource_frame s' = None ∧ m_input_pending_q s' = [] ∧
    ¬ calm true ev.
Proof.
  eexists _, _. split; [vm_compute; reflexivity|]. split_and!; try reflexivity. intros H.
  do 4 apply Forall_inv_tail in H. apply Forall_inv in H. by specialize (H eq_refl eq_refl).
Qed.

Definition two_buffers : list op :=
  [Submit 10 (client_buffer (annexb [slice1; slice2; picture2]) 0); Submit 11 (client_buffer (annexb [picture2]) 0);
   FromDriver 1 (empty_buffer 100)].

Lemma frames_hold_the_stream_witness :
  ∃ s' ev, serve (λ _, Accepts) CODEC_TYPE_H264 0 0 50 two_buffers h264_start = Done (inr (), s', ev) ∧
    out_bytes ev = annexb [slice1; slice2] ∧ held true s' = annexb [picture2; picture2] ∧
    out_bytes ev ++ held true s' = held true h264_start ++ in_bytes ev.
Proof.
  eexists _, _. split; [vm_compute; reflexivity|]. split_and!; [vm_compute; reflexivity..|].
  refine (frames_hold_the_stream (λ _, Accepts) CODEC_TYPE_H264 0 0 50 two_buffers h264_start (inr ()) _ _ (λ _, or_introl eq_refl) eq_refl _ _).
  - vm_compute; reflexivity.
  - repeat constructor; intros ? H; vm_compute in H; done.
Defined.

Lemma buffers_accounted_witness :
  ∃ s' ev, serve (λ _, Accepts) CODEC_TYPE_H264 0 0 50 (two_buffers ++ [FlushOrdered; FlushExecuted]) h264_start = Done (inr (), s', ev) ∧
    queued ev = [1%nat] ∧ returned ev = [10; 11]%nat ∧
    (dest_ids h264_start ++ [1%nat] ≡ₚ queued ev ++ dest_ids s' ∧ source_ids h264_start ++ [10; 11]%nat ≡ₚ returned ev ++ source_ids s').
Proof.
  eexists _, _. do 3 (split; [vm_compute; reflexivity|]).
  refine (buffers_accounted (λ _, Accepts) CODEC_TYPE_H264 0 0 50 (two_buffers ++ [FlushOrdered; FlushExecuted]) h264_start (inr ()) _ _ (λ _, or_introl eq_refl) _ _ _).
  - vm_compute; reflexivity.
  - apply Nat.leb_le; vm_compute; reflexivity.
  - apply Nat.leb_le; vm_compute; reflexivity.
Defined.
