(* ===== verification/VdecInputLoop.v ===== *)
(** * Input of arbitrary bytes: the loop ends

    Each turn of the loop of [push_input_buffer] parses.  What does not parse
    leaves the sources as they are ([steady]); a call of a parser takes bytes,
    or ends an empty unit, or finds the buffer full, which is an error; and at
    the end of a source comes the next one, or no destination is left.  So
    there are at most [turns] of them. *)
From S2P Require Import Prelude Doubles FrameParser H264Bits H264Parser H264State NalFrames VdecInput VdecInputRules VdecInputProps.
Local Open Scope Z_scope.

(** ** Programs that do not parse *)
Definition in_unit (s : input) : nat := if bool_decide (state_nal (m_frame_parser (pars s)) = NAL_PARSING) then 1 else 0.

(** The buffer that the parser fills, and those that will be: within their
    bounds. *)
Definition sized (nal : bool) (s : input) : Prop :=
  if nal then (∀ d, h264_scratch s = Some d → dest_wf d)
  else (∀ id d, pdest_frame s = Some (id, d) → dest_wf d) ∧ Forall (λ p : nat * dest_hdr, dest_wf p.2) (m_input_free_q s).

Record steady (nal : bool) (s s' : input) (ev : list event) : Prop := {
  st_source : psource_frame s' = psource_frame s;
  st_pending : m_input_pending_q s' = m_input_pending_q s;
  st_unit : (in_unit s' ≤ in_unit s)%nat;
  st_sized : sized nal s → sized nal s'
}.

#[export] Instance steady_rel nal : RunRel (steady nal).
Proof.
  split; [by intros s; split|]. intros s1 s2 s3 e1 e2 [A1 B1 C1 D1] [A2 B2 C2 D2].
  split; [congruence|congruence|lia|auto].
Qed.

Lemma steady_event nal s e : steady nal s s [e].
Proof. by split. Qed.

Lemma wf_empty d : dest_wf d → dest_wf (with_bytes [] d).
Proof. unfold dest_wf, with_bytes. cbn. lia. Qed.

(** The scratch buffer is emptied at most. *)
Lemma steady_scratch s s' ev : psource_frame s' = psource_frame s → m_input_pending_q s' = m_input_pending_q s →
  (in_unit s' ≤ in_unit s)%nat → (h264_scratch s' = h264_scratch s ∨ ∃ f, h264_scratch s' = f <$> h264_scratch s ∧ ∀ d, dest_wf d → dest_wf (f d)) →
  steady true s s' ev.
Proof.
  intros H1 H2 H3 H4. split; [done..|]. cbn. intros Hw d. destruct H4 as [->|(f & -> & Hf)]; [apply Hw|].
  destruct (h264_scratch s) as [d1|] eqn:E; [|done]. intros [= <-]. by apply Hf, Hw.
Qed.

Lemma steady_dest nal f s : (∀ d, dest_wf d → dest_wf (f d)) → steady nal s (set_dest (prod_map id f <$> pdest_frame s) s) [].
Proof.
  intros Hf. split; [done..|]. destruct nal; [done|]. intros [Hd Hq]. split; [|done]. cbn. intros id d.
  destruct (pdest_frame s) as [[id1 d1]|]; [|done]. intros [= <- <-]. by eapply Hf, Hd.
Qed.

Lemma steady_end_stream nal s : steady nal s (end_stream s) [].
Proof.
  assert (in_unit (end_stream s) = 0%nat) as H0 by reflexivity.
  destruct nal; [|split; try done; lia]. apply steady_scratch; [done|done|lia|].
  right. exists (with_bytes []). split; [done|]. apply wf_empty.
Qed.

#[export] Hint Resolve steady_event steady_end_stream : moves.
#[export] Hint Extern 0 (steady _ _ _ []) => solve [split; done] : moves.
#[export] Hint Extern 1 (steady _ _ (set_dest _ _) []) => solve [apply steady_dest; intros ?; repeat case_match; done] : moves.
#[export] Hint Extern 1 (steady _ _ (if ?b then _ else _) []) => solve [destruct b; split; done] : moves.

Lemma pop_free_steady nal f : (∀ d, dest_wf d → dest_wf (f d)) → moves (steady nal) (pop_free f).
Proof.
  intros Hf. apply moves_modify. intros s. destruct (m_input_free_q s) as [|[id d] q] eqn:Eq; [apply (run_refl s)|].
  split; [done..|]. destruct nal; [done|]. cbn. rewrite Eq. intros [_ [Hd Hq]%Forall_cons]. split; [|done].
  intros id1 d1 [= _ <-]. by apply Hf.
Qed.

Lemma give_back_steady id d :
  keeps (steady false) (λ s, pdest_frame s = Some (id, d)) (insert_free (id, d);; modify (set_dest None)) (λ _ _, True).
Proof.
  intros s r s' ev Hs E. unfold insert_free, mbind, M_bind, modify in E. cbn in E. injection E as <- <- <-. split; [|done].
  split; [by destruct (_ <=? _)%nat..|by unfold in_unit; destruct (_ <=? _)%nat|]. intros [Hd Hq]. split; [done|].
  cbn. destruct (_ <=? _)%nat; [|done]. cbn. apply Forall_app. split; [done|]. constructor; [by eapply Hd|done].
Qed.

Lemma copy_scratch_steady e : moves (steady true) (copy_scratch e).
Proof.
  unfold copy_scratch. eapply keep_bind; [exact _|apply (keep_the _ (λ _, True))|]. intros [id d].
  eapply keep_bind; [exact _|apply keep_the; exact _|]. intros sc. destruct (_ <=? room d); [|apply (keep_fail _)].
  destruct (_ <=? d_nAllocLen d); [|intros s r s' ev Hs E; discriminate E]. apply keep_modify. intros s [_ Hs]. split; [|done].
  apply steady_scratch; [done..|]. right. exists (with_bytes []). rewrite Hs. split; [done|]. apply wf_empty.
Qed.

Lemma copy_buffer_steady : moves (steady true) copy_buffer.
Proof. unfold copy_buffer. pose proof copy_scratch_steady. moving. Qed.

#[export] Hint Resolve copy_scratch_steady copy_buffer_steady : moves.

Section Steady.
Context (driver : nat → driver_answer) (client_extradata : Z).

Lemma push_dest_steady nal : keeps (steady nal) (λ _, True) (push_dest driver) (λ _ s, pdest_frame s = None).
Proof.
  unfold push_dest. apply (keep_bind _ _ _ _ (λ _ _, True)).
  - unfold empty_this_buffer_proxy. moving.
  - intros u. apply keep_modify. intros s _. split; [|done]. split; [done..|]. by destruct nal; [|intros [_ ?]].
Qed.

Lemma moves_push_steady nal : moves (steady nal) (push_dest driver).
Proof. eapply keep_weaken; [apply push_dest_steady|done|done]. Qed.

(** After [push_dest] and what changes no destination. *)
Lemma push_count_steady nal {A} (a : A) :
  keeps (steady nal) (λ _, True) (push_dest driver;; set_au_field (λ a, set_frame_count (frame_count a + 1) a);; mret a)
    (λ _ s, pdest_frame s = None).
Proof.
  eapply keep_bind; [exact _|apply push_dest_steady|]. intros u. apply (keep_bind _ _ _ _ (λ _ s, pdest_frame s = None)).
  - apply keep_modify. intros s Hs. by split; [split|].
  - intros u'. by apply (keep_ret _).
Qed.

Lemma skip_empty_steady : moves (steady true) skip_empty_nal.
Proof.
  unfold skip_empty_nal. moving. apply moves_modify. intros st. apply steady_scratch; [done..|]. right.
  rewrite <- option_fmap_compose. by exists (λ d, with_flags (s_nFlags s) (with_ts (s_nTimeStamp s) d)).
Qed.

Lemma next_dest_wf d : dest_wf d → dest_wf (next_dest d).
Proof. apply wf_empty. Qed.

Lemma frame_complete_steady : moves (steady true) (frame_complete driver).
Proof. unfold frame_complete. pose proof (pop_free_steady true next_dest next_dest_wf). pose proof (moves_push_steady true). moving. Qed.
Hint Resolve skip_empty_steady frame_complete_steady : moves.

Lemma h264_nal_done_steady : moves (steady true) (h264_nal_done driver client_extradata).
Proof. unfold h264_nal_done, h264_unit, h264_is_new_frame, unit_kind. moving. Qed.

Lemma hevc_nal_done_steady : moves (steady true) (hevc_nal_done driver).
Proof. unfold hevc_nal_done, hevc_unit. moving. Qed.

(** At the end of the stream no destination is left. *)
Lemma h264_end_steady g : keeps (steady true) (λ _, True) (h264_end driver g) (λ _ s, pdest_frame s = None).
Proof.
  unfold h264_end, h264_is_new_frame. eapply keep_bind; [exact _|apply (keep_the _ (λ _, True))|]. intros [sid src].
  eapply keep_bind; [exact _|apply keep_get; exact _|]. intros [[did dst]|]; [|by apply (keep_ret _); intros s [_ ?]].
  apply (keep_bind _ _ _ _ (λ _ _, True)); [eapply keep_weaken; [moving|done|done]|]. intros sc. destruct (negb _); [apply (keep_fail _)|].
  apply (keep_bind _ _ _ _ (λ _ _, True)); [moving|]. intros g'. apply (keep_bind _ _ _ _ (λ _ _, True)); [moving|]. intros u.
  apply push_count_steady.
Qed.

Lemma hevc_end_steady : keeps (steady true) (λ _, True) (hevc_end driver) (λ _ s, pdest_frame s = None).
Proof.
  unfold hevc_end. eapply keep_bind; [exact _|apply (keep_the _ (λ _, True))|]. intros [sid src].
  eapply keep_bind; [exact _|apply keep_get; exact _|]. intros [[did dst]|]; [|by apply (keep_ret _); intros s [_ ?]].
  apply (keep_bind _ _ _ _ (λ _ _, True)); [eapply keep_weaken; [moving|done|done]|]. intros sc.
  do 2 (apply (keep_bind _ _ _ _ (λ _ _, True)); [moving|]; intros ?). apply push_count_steady.
Qed.
End Steady.

(** ** A turn *)
Definition load (src : source_hdr) : nat := 2 * length (s_bytes src) + 2.
Definition sources (s : input) : list source_hdr := option_list (snd <$> psource_frame s) ++ (snd <$> m_input_pending_q s).
Definition turns (s : input) : nat := in_unit s + sum_list (load <$> sources s).

Lemma steady_turns nal s s' ev : steady nal s s' ev → (turns s' ≤ turns s)%nat.
Proof. intros [H1 H2 H3 _]. unfold turns, sources. rewrite H1, H2. lia. Qed.

Lemma source_done_turns nal s s' ev : source_done s = Done (inr (), s', ev) →
  (turns s' < turns s)%nat ∧ (sized nal s → sized nal s').
Proof.
  unfold source_done. intros E. apply bind_run in E as [(e & _ & [=])|([id src] & s1 & e1 & e2 & E1 & E & _)].
  unfold the in E1. destruct (psource_frame s) as [x|] eqn:Es; [|done]. injection E1 as -> <- _.
  apply bind_run in E as [(e & [=] & _)|(u & s1 & e3 & e4 & [= <- <- _] & E & _)].
  apply bind_run in E as [(e & [=] & _)|(u' & s1 & e5 & e6 & [= <- <- _] & E & _)].
  unfold pop_pending, modify in E. cbn in E. unfold turns, sources. rewrite Es.
  destruct (m_input_pending_q s) as [|[id2 src2] q] eqn:Eq; injection E as <- _; cbn; rewrite ?Eq; cbn; unfold load, in_unit; cbn.
  - split; [lia|]. by destruct nal.
  - split; [lia|]. by destruct nal.
Qed.

(** The end of a turn: a source that is done goes back, unless no destination is left. *)
Lemma finish_turns nal (m : M bool) s s' ev : (g ← m; if (g : bool) then source_done else mret ()) s = Done (inr (), s', ev) →
  keeps (steady nal) (λ s1, s1 = s) m (λ g s1, g = false → pdest_frame s1 = None) → sized nal s →
  sized nal s' ∧ ((turns s' < turns s)%nat ∨ pdest_frame s' = None).
Proof.
  intros E Hm Hw. apply bind_run in E as [(e & _ & [=])|(g & s1 & e1 & e2 & E1 & E & _)].
  destruct (Hm s _ _ _ eq_refl E1) as [Hst Hg]. pose proof (steady_turns _ _ _ _ Hst) as Ht.
  pose proof (st_sized _ _ _ _ Hst Hw) as Hw1. destruct g.
  - destruct (source_done_turns nal s1 s' e2 E) as [Hlt Hw']. split; [auto|left; lia].
  - injection E as <- _. split; [done|right; by apply Hg].
Qed.

(** A call of a parser on the source: less to do, nothing left, or a full buffer. *)
Lemma called_turns src d fp r s s' id : called src d fp r → rc r ≠ -1 → psource_frame s = Some (id, src) → m_frame_parser (pars s) = fp →
  psource_frame s' = Some (id, r_source r) → m_frame_parser (pars s') = r_parser r → m_input_pending_q s' = m_input_pending_q s →
  is_eos (r_source r) = is_eos src ∧
  ((turns s' < turns s)%nat ∨ (s_bytes (r_source r) = [] ∧ (turns s' ≤ turns s)%nat) ∨
   (partialframe r = Some 1 ∧ dest_len (r_dest r) = 0)).
Proof.
  intros [[[k Hk] _ _ _] Hp] Hrc Hs Hf Hs' Hf' Hq. split; [by rewrite Hk|].
  assert (turns s = weight src fp + (2 + sum_list (load <$> (m_input_pending_q s).*2)) ∧
    turns s' = weight (r_source r) (r_parser r) + (2 + sum_list (load <$> (m_input_pending_q s).*2)))%nat as [-> ->].
  { unfold turns, sources, weight, in_unit. rewrite Hs, Hs', Hf, Hf', Hq. cbn. unfold load. lia. }
  destruct Hp as [?|[(Hb & Hr & Hp)|[?|?]]]; [done| |left; lia|by right; right].
  right. left. rewrite Hr, Hp. split; [done|lia].
Qed.

Lemma full_length d : dest_wf d → dest_len d = 0 → d_nAllocLen d = Z.of_nat (length (d_bytes d)) + d_nOffset d.
Proof. intros [H1 H2]%dest_len_wf H. lia. Qed.

Section Turn.
Context (driver : nat → driver_answer) (nal_length client_extradata : Z).

Lemma parse_unit_turns s partial s' ev : parse_unit nal_length s = Done (inr partial, s', ev) → sized true s →
  sized true s' ∧ ∃ id src src', psource_frame s = Some (id, src) ∧ psource_frame s' = Some (id, src') ∧ is_eos src' = is_eos src ∧
  ((turns s' < turns s)%nat ∨ (s_bytes src' = [] ∧ (turns s' ≤ turns s)%nat) ∨
   (partial = 1 ∧ ∃ sc, h264_scratch s' = Some sc ∧ dest_len sc = 0)).
Proof.
  intros E Hw. unfold parse_unit, mbind, M_bind, the, get, lift, modify, emit in E.
  destruct (psource_frame s) as [[sid src]|] eqn:Es; [|done]. cbn [defined mbind outcome_bind] in E.
  destruct (h264_scratch s) as [sc|] eqn:Ec; [|done]. cbn [defined mbind outcome_bind] in E.
  destruct (if nal_length =? 0 then _ else _) as [p| |] eqn:Ep; try done. cbn [mbind outcome_bind] in E.
  assert (called src sc (m_frame_parser (pars s)) p) as Hc.
  { destruct (nal_length =? 0); [by apply parse_sc_frame_called|by apply parse_nallength_called]. }
  destruct (Z.eqb_spec (rc p) (-1)) as [|Hrc]; [done|]. injection E as <- <- _. cbn [sized] in *. split.
  { intros d [= <-]. destruct Hc as [[_ _ _ Hd] _]. by apply Hd, Hw. }
  destruct (called_turns _ _ _ _ s (set_source (Some (sid, r_source p)) (set_scratch (Some (r_dest p))
    (set_pars (set_frame_parser (r_parser p) (pars s)) s))) sid Hc Hrc Es eq_refl eq_refl eq_refl eq_refl) as [He Ht].
  exists sid, src, (r_source p). split_and!; [done..|]. destruct Ht as [?|[?|[Hp Hd]]]; [by left|by right; left|].
  right. right. rewrite Hp. split; [done|]. by exists (r_dest p).
Qed.

Lemma scratch_full_fails s r s' ev sc : h264_scratch s = Some sc → sized true s → dest_len sc = 0 →
  scratch_full s = Done (r, s', ev) → r = inl OMX_ErrorStreamCorrupt.
Proof.
  intros Hs Hw Hd E. unfold scratch_full, mbind, M_bind, the in E. rewrite Hs in E. cbn [defined mbind outcome_bind] in E.
  rewrite (proj2 (Z.eqb_eq _ _)) in E by (apply full_length; [by apply Hw|done]). by injection E as <- _ _.
Qed.

Lemma the_source s p s' ev : the psource_frame s = Done (inr p, s', ev) → s' = s ∧ psource_frame s = Some p.
Proof. unfold the. destruct (psource_frame s); [|done]. by intros [= -> <- _]. Qed.

(** The middle of a turn of the codecs with NAL units, and its end. *)
Lemma nal_turn (done_unit : M ()) (generate_ebd : bool) (at_end : M bool) s s' ev :
  (partial ← parse_unit nal_length;
   (if partial =? 0 then done_unit else scratch_full);;
   '(_, src) ← the psource_frame;
   if bool_decide (s_bytes src = []) then
     generate_ebd ← (if is_eos src then at_end else mret generate_ebd);
     if (generate_ebd : bool) then source_done else mret ()
   else mret ()) s = Done (inr (), s', ev) →
  moves (steady true) done_unit → keeps (steady true) (λ _, True) at_end (λ _ s, pdest_frame s = None) →
  (∀ id src, psource_frame s = Some (id, src) → is_eos src = false → generate_ebd = true) → sized true s →
  sized true s' ∧ ((turns s' < turns s)%nat ∨ pdest_frame s' = None).
Proof.
  intros E Hunit Hend Hg Hw. apply bind_run in E as [(e & _ & [=])|(partial & s1 & e1 & e2 & E1 & E & _)].
  apply parse_unit_turns in E1 as (Hw1 & id & src & src1 & Hs & Hs1 & Heos & Ht); [|done].
  apply bind_run in E as [(e & _ & [=])|(u & s2 & e3 & e4 & E2 & E & _)].
  assert (steady true s1 s2 e3) as Hst.
  { destruct (partial =? 0); [by apply (Hunit s1 (inr u) s2 e3)|]. unfold scratch_full in E2.
    assert (moves (steady true) scratch_full) as Hm by (unfold scratch_full; moving). by apply (Hm s1 (inr u) s2 e3). }
  pose proof (steady_turns _ _ _ _ Hst) as Hle. pose proof (st_sized _ _ _ _ Hst Hw1) as Hw2.
  assert ((turns s1 < turns s)%nat ∨ (s_bytes src1 = [] ∧ (turns s1 ≤ turns s)%nat)) as Ht'.
  { destruct Ht as [?|[?|(-> & sc & Hsc & Hd)]]; [by left|by right|]. cbn in E2. exfalso.
    apply (scratch_full_fails _ _ _ _ sc) in E2; [done|done|done|done]. }
  apply bind_run in E as [(e & _ & [=])|([id2 src2] & s3 & e5 & e6 & E3 & E & _)]. apply the_source in E3 as [-> Hs2].
  rewrite (st_source _ _ _ _ Hst), Hs1 in Hs2. injection Hs2 as <- <-. cbn beta iota in E.
  destruct (bool_decide_reflect (s_bytes src1 = [])) as [|Hne].
  - apply (finish_turns true) in E as [Hw3 Ht3]; [split; [done|]|intros s4 r s5 ev' -> E4|done].
    + destruct Ht3; [left; lia|by right].
    + destruct (is_eos src1) eqn:He.
      * destruct (Hend s2 r s5 ev' I E4) as [? Hq]. split; [done|]. destruct r; [done|]. by intros _.
      * injection E4 as <- <- <-. split; [apply run_refl|]. rewrite (Hg _ _ Hs) by congruence. done.
  - injection E as <- _. split; [done|]. left. destruct Ht' as [?|[? _]]; [lia|done].
Qed.

Lemma look_ahead_steady m : moves (steady true) m → moves (steady true) (copy_look_ahead m).
Proof. intros Hm. unfold copy_look_ahead. moving. Qed.

Lemma push_input_h264_turns s s' ev : push_input_h264 driver nal_length client_extradata s = Done (inr (), s', ev) →
  sized true s → sized true s' ∧ ((turns s' < turns s)%nat ∨ pdest_frame s' = None).
Proof.
  intros E Hw. unfold push_input_h264 in E. apply bind_run in E as [(e & _ & [=])|(u & s1 & e1 & e2 & E1 & E & _)].
  apply (look_ahead_steady _ (copy_scratch_steady _)) in E1 as [Hst _]; [|done].
  pose proof (steady_turns _ _ _ _ Hst). pose proof (st_sized _ _ _ _ Hst Hw) as Hw1.
  apply bind_run in E as [(e & _ & [=])|([id src] & s2 & e3 & e4 & E2 & E & _)]. apply the_source in E2 as [-> Hs].
  apply bind_run in E as [(e & _ & [=])|([did dst] & s3 & e5 & e6 & E3 & E & _)].
  unfold the in E3. destruct (pdest_frame s1) as [x|]; [|done]. injection E3 as -> <- _. cbv zeta in E. cbn beta iota in E.
  apply nal_turn in E as [? Ht]; [split; [done|]; destruct Ht; [left; lia|by right]|apply h264_nal_done_steady|apply h264_end_steady| |done].
  intros id' src' Hs' He. rewrite Hs in Hs'. injection Hs' as _ ->. by rewrite He, andb_false_r.
Qed.

Lemma push_input_hevc_turns s s' ev : push_input_hevc driver nal_length s = Done (inr (), s', ev) →
  sized true s → sized true s' ∧ ((turns s' < turns s)%nat ∨ pdest_frame s' = None).
Proof.
  intros E Hw. unfold push_input_hevc in E. apply bind_run in E as [(e & _ & [=])|(u & s1 & e1 & e2 & E1 & E & _)].
  apply (look_ahead_steady _ copy_buffer_steady) in E1 as [Hst _]; [|done].
  pose proof (steady_turns _ _ _ _ Hst). pose proof (st_sized _ _ _ _ Hst Hw) as Hw1.
  apply nal_turn in E as [? Ht]; [split; [done|]; destruct Ht; [left; lia|by right]|apply hevc_nal_done_steady|apply hevc_end_steady|done|done].
Qed.

(** The same for start codes: the destination is what the parser fills. *)
Lemma push_input_sc_codec_turns s s' ev : push_input_sc_codec driver s = Done (inr (), s', ev) →
  sized false s → sized false s' ∧ ((turns s' < turns s)%nat ∨ pdest_frame s' = None).
Proof.
  intros E [Hd Hq]. unfold push_input_sc_codec in E.
  apply bind_run in E as [(e & _ & [=])|([sid src] & s1 & e1 & e2 & E1 & E & _)]. apply the_source in E1 as [-> Hs].
  apply bind_run in E as [(e & _ & [=])|([did dst] & s1 & e3 & e4 & E1 & E & _)].
  unfold the in E1. destruct (pdest_frame s) as [x|] eqn:Edst; [|done]. injection E1 as -> <- _. cbn beta iota in E.
  apply bind_run in E as [(e & [=] & _)|(fp & s1 & e5 & e6 & [= <- <- _] & E & _)].
  apply bind_run in E as [(e & _ & [=])|(r & s1 & e7 & e8 & E1 & E & _)].
  unfold lift in E1. destruct (parse_sc_frame _ _ _) as [r1| |] eqn:Ep; try done. injection E1 as <- <- _.
  apply parse_sc_frame_called in Ep as Hc.
  apply bind_run in E as [(e & [=] & _)|(u & s1 & e9 & e10 & [= <- Hs1 _] & E & _)].
  apply bind_run in E as [(e & [=] & _)|(u' & s2 & e11 & e12 & [= <- <- _] & E & _)].
  destruct (Z.eqb_spec (rc r1) (-1)) as [|Hrc]; [done|]. cbv zeta in E.
  destruct (called_turns _ _ _ _ s s1 sid Hc Hrc Hs eq_refl) as [He Ht]; [by rewrite <- Hs1..|].
  assert (dest_wf (r_dest r1)) as Hw1 by (destruct Hc as [[_ _ _ Hw] _]; by eapply Hw, Hd).
  assert (sized false s1 ∧ psource_frame s1 = Some (sid, r_source r1) ∧ pdest_frame s1 = Some (did, r_dest r1)) as (Hw & Hps & Hpd).
  { rewrite <- Hs1. split; [|done]. split; [|done]. intros i d [= _ <-]. done. }
  clear Hs1. apply bind_run in E as [(e & _ & [=])|(u & s2 & e13 & e14 & E2 & E & _)].
  assert (steady false s1 s2 e13 ∧ (partialframe r1 = Some 1 → dest_len (r_dest r1) ≠ 0)) as [Hst Hfull].
  { destruct (Z.eqb_spec (default 1 (partialframe r1)) 0) as [Hp|Hp]; (split; [|intros Hp1; first [by rewrite Hp1 in Hp|intros Hl]]).
    - apply (moves_run E2). apply moves_bind; [exact _|moving|]. intros count. destruct (_ =? 0); [moving|].
      apply moves_bind; [exact _|moving|]. intros u1. eapply keep_bind; [exact _|apply (keep_the _ (λ _, True))|]. intros [id d].
      destruct (bool_decide_reflect (d_bytes d ≠ [])) as [Hb|Hb].
      + apply moves_under. pose proof (pop_free_steady false (with_bytes []) wf_empty). pose proof (moves_push_steady driver false). moving.
      + destruct (negb _); [|by apply (keep_ret _)]. eapply keep_weaken; [apply give_back_steady|by intros ? [_ ?]|done].
    - apply (moves_run E2). moving.
    - apply bind_run in E2 as [(e & _ & [=])|([id d] & s3 & e15 & e16 & E3 & E2 & _)]. unfold the in E3. rewrite Hpd in E3.
      injection E3 as <- <- <- _. rewrite (proj2 (Z.eqb_eq _ _)) in E2 by (by apply full_length). done. }
  pose proof (steady_turns _ _ _ _ Hst) as Hle. pose proof (st_sized _ _ _ _ Hst Hw) as Hw2.
  assert ((turns s1 < turns s)%nat ∨ (s_bytes (r_source r1) = [] ∧ (turns s1 ≤ turns s)%nat)) as Ht'.
  { destruct Ht as [?|[?|[Hp Hl]]]; [by left|by right|by destruct (Hfull Hp)]. }
  destruct (bool_decide_reflect (s_bytes (r_source r1) = [])) as [|Hne].
  2:{ injection E as <- _. split; [done|]. left. destruct Ht' as [?|[? _]]; [lia|done]. }
  apply bind_run in E as [(e99 & [=] & _)|(dest & s3 & e17 & e18 & [= Hdest <- _] & E & _)].
  apply (finish_turns false) in E as [Hw3 Ht3]; [split; [done|]; destruct Ht3; [left; lia|by right]| |done].
  destruct (is_eos (r_source r1)); [|by apply (keep_ret _)].
  destruct dest as [x|]; [|by apply (keep_ret _); intros ? -> _].
  apply (keep_bind _ _ _ _ (λ _ _, True)); [apply moves_under; moving|]. intros u1.
  eapply keep_weaken; [apply (push_count_steady driver false true)|done|done].
Qed.

Lemma vc1_first_frame_steady : moves (steady false) vc1_first_frame.
Proof.
  unfold vc1_first_frame. apply moves_bind; [exact _|moving|]. intros v. apply moves_bind; [exact _|moving|]. intros u.
  destruct (m_vendor_config v) as [config|]; [|moving].
  eapply keep_bind; [exact _|apply (keep_the _ (λ _, True))|]. intros [did dst]. destruct (Z.ltb_spec (dest_len dst) (Z.of_nat (length config))); [apply (keep_fail _)|].
  intros s r s' ev [_ Hs] E. unfold change_dest, modify, emit, mbind, M_bind in E. cbn in E. injection E as <- <- <-. split; [|done].
  split; [done..|]. intros [Hd Hq]. split; [|done]. cbn. rewrite Hs. intros id d [= _ <-].
  by apply put_bytes_Done; [eapply Hd|].
Qed.

Lemma push_input_vc1_turns s s' ev : push_input_vc1 driver s = Done (inr (), s', ev) →
  sized false s → sized false s' ∧ ((turns s' < turns s)%nat ∨ pdest_frame s' = None).
Proof.
  intros E Hw. unfold push_input_vc1 in E. apply bind_run in E as [(e & [=] & _)|(v & s1 & e1 & e2 & [= <- <- _] & E & _)].
  apply bind_run in E as [(e & _ & [=])|(u & s1 & e3 & e4 & E1 & E & _)].
  assert (steady false s s1 e3) as Hst.
  { destruct (first_frame (vc1 s)); [injection E1 as _ <- <-; apply run_refl|]. by apply (vc1_first_frame_steady s (inr u)). }
  pose proof (steady_turns _ _ _ _ Hst). pose proof (st_sized _ _ _ _ Hst Hw) as Hw1.
  apply bind_run in E as [(e & [=] & _)|(v' & s2 & e5 & e6 & [= <- <- _] & E & _)].
  destruct (m_vc1_ap (vc1 s1)); [|done]. unfold as_error in E.
  destruct (push_input_sc_codec driver s1) as [[[[x|[]] s2] e7]| |] eqn:E2; try done. injection E as <- _.
  apply push_input_sc_codec_turns in E2 as [? Ht]; [|done]. split; [done|]. destruct Ht; [left; lia|by right].
Qed.
End Turn.

(** The codecs that the loop has a case for. *)
Definition handled (codec : Z) : bool :=
  is_nal codec || (codec =? CODEC_TYPE_MPEG4) || (codec =? CODEC_TYPE_H263) || (codec =? CODEC_TYPE_MPEG2) || (codec =? CODEC_TYPE_VC1).

Lemma push_one_turns driver codec nal_length client_extradata s s' ev :
  push_one driver codec nal_length client_extradata s = Done (inr (), s', ev) → handled codec = true → sized (is_nal codec) s →
  sized (is_nal codec) s' ∧ ((turns s' < turns s)%nat ∨ pdest_frame s' = None).
Proof.
  unfold push_one, handled, is_nal. intros E Hh Hw.
  destruct (Z.eqb_spec codec CODEC_TYPE_MPEG4) as [->|]; [exact (push_input_sc_codec_turns _ _ _ _ E Hw)|].
  destruct (Z.eqb_spec codec CODEC_TYPE_H263) as [->|]; [exact (push_input_sc_codec_turns _ _ _ _ E Hw)|].
  destruct (Z.eqb_spec codec CODEC_TYPE_MPEG2) as [->|]; [exact (push_input_sc_codec_turns _ _ _ _ E Hw)|].
  destruct (Z.eqb_spec codec CODEC_TYPE_H264); [exact (push_input_h264_turns _ _ _ _ _ _ E Hw)|].
  destruct (Z.eqb_spec codec CODEC_TYPE_HEVC); [exact (push_input_hevc_turns _ _ _ _ _ E Hw)|].
  destruct (Z.eqb_spec codec CODEC_TYPE_VC1) as [->|]; [exact (push_input_vc1_turns _ _ _ _ E Hw)|done].
Qed.

(** ** No loop runs out of fuel *)
Lemma read_total buffer pos : read buffer pos ≠ NoFuel.
Proof. unfold read. by repeat case_match. Qed.

Section Always.
Context (driver : nat → driver_answer) (nal_length client_extradata : Z).

Lemma push_dest_always : always (push_dest driver).
Proof. unfold push_dest, empty_this_buffer_proxy. moving. Qed.
Lemma source_done_always : always source_done.
Proof. unfold source_done, pop_pending. moving. Qed.
Lemma copy_scratch_always e : always (copy_scratch e).
Proof. unfold copy_scratch. moving. by apply always_lift. Qed.
Lemma pop_free_always f : always (pop_free f).
Proof. unfold pop_free. moving. Qed.
Hint Resolve push_dest_always source_done_always copy_scratch_always pop_free_always : moves.

Lemma parse_unit_always : always (parse_unit nal_length).
Proof.
  unfold parse_unit. moving. apply always_lift. destruct (_ =? 0); [apply parse_sc_frame_ends|apply parse_nallength_ends].
Qed.
Hint Resolve parse_unit_always : moves.

Lemma push_input_sc_codec_always : always (push_input_sc_codec driver).
Proof. unfold push_input_sc_codec, insert_free. moving. apply always_lift, parse_sc_frame_ends. Qed.

Lemma push_input_vc1_always : always (push_input_vc1 driver).
Proof.
  pose proof push_input_sc_codec_always. unfold push_input_vc1, vc1_first_frame. moving.
  apply always_lift. unfold first_word. by repeat case_match.
Qed.

Lemma hevc_isNewFrame_ends buffer field u : hevc_isNewFrame buffer field u ≠ NoFuel.
Proof.
  unfold hevc_isNewFrame. apply bind_ends; [apply locate_nal_ends|]. intros [[pos len]|] _; [|done]. destruct (_ <? _); [done|].
  apply bind_ends; [apply read_total|]. intros h _. cbv zeta. destruct (_ || _ || _ || _); [done|]. destruct (_ <=? _); [|done].
  apply bind_ends; [|done]. destruct (hevc_forceToStichNextNAL u); [done|]. apply bind_ends; [apply read_total|done].
Qed.

Lemma push_input_hevc_always : always (push_input_hevc driver nal_length).
Proof.
  unfold push_input_hevc, hevc_nal_done, hevc_end, hevc_unit, copy_look_ahead, copy_buffer, skip_empty_nal, frame_complete, scratch_full.
  moving. apply always_lift, hevc_isNewFrame_ends.
Qed.
End Always.

(** For H.264 the pending unit consists of bytes, as first_mb_in_slice is read
    from it. *)
Record bytes_ok (s : input) : Prop := {
  bo_scratch : Forall is_byte (pending_bytes s);
  bo_rbsp : ∀ u, mutils (pars s) = Some u → Forall is_byte (m_rbspBytes u);
  bo_sources : Forall (λ src, Forall is_byte (s_bytes src)) (sources s);
  bo_code : code (m_frame_parser (pars s)) = Some SC_H264
}.

Definition safe {A} (m : M A) : Prop := ends bytes_ok m ∧ moves (λ s s' _, bytes_ok s → bytes_ok s') m.

Lemma safe_bind {A B} (m : M A) (k : A → M B) : safe m → (∀ a, safe (k a)) → safe (m ≫= k).
Proof.
  intros [Em Mm] Hk. split.
  - apply ends_bind; [done|]. intros a s s' ev Hs E. apply Hk. by apply (moves_run E Mm).
  - intros s r s' ev _ E. apply bind_run in E as [(e & E & ->)|(a & s1 & e1 & e2 & E1 & E & ->)].
    + split; [exact (moves_run E Mm)|done].
    + split; [|by destruct r]. intros Hs. apply (moves_run E (proj2 (Hk a))). by apply (moves_run E1 Mm).
Qed.

Lemma safe_as_error {A} e (m : M A) : safe m → safe (as_error e m).
Proof.
  intros [Em Mm]. split.
  - intros s Hs. unfold as_error. specialize (Em s Hs). by destruct (m s) as [[[r s'] ev]| |].
  - by apply moves_as_error.
Qed.

Lemma safe_modify f : (∀ s, bytes_ok s → bytes_ok (f s)) → safe (modify f).
Proof. intros Hf. split; [by intros s _|]. intros s r s' ev _ [= <- <- <-]. by split; [apply Hf|]. Qed.
Lemma safe_same {A} (m : M A) : always m → (∀ s r s' ev, m s = Done (r, s', ev) → s' = s) → safe m.
Proof.
  intros Hm Hs. split; [by intros s _; apply Hm|]. intros s r s' ev _ E. rewrite (Hs _ _ _ _ E). split; [done|by destruct r].
Qed.
Lemma safe_ret {A} (a : A) : safe (mret a).
Proof. apply safe_same; [by intros s _|]. by intros s r s' ev [= _ <- _]. Qed.
Lemma safe_fail {A} e : safe (fail e : M A).
Proof. apply safe_same; [by intros s _|]. by intros s r s' ev [= _ <- _]. Qed.
Lemma safe_get {A} (f : input → A) : safe (get f).
Proof. apply safe_same; [by intros s _|]. by intros s r s' ev [= _ <- _]. Qed.
Lemma safe_emit e : safe (emit e).
Proof. apply safe_same; [by intros s _|]. by intros s r s' ev [= _ <- _]. Qed.
Lemma safe_lift {A} (o : outcome A) : o ≠ NoFuel → safe (lift o).
Proof.
  intros Ho. apply safe_same; [by apply always_lift|]. intros s r s' ev E. unfold lift in E. destruct o; [|done..]. by injection E as _ <- _.
Qed.
Lemma safe_the {A} (f : input → option A) : safe (the f).
Proof. apply safe_same; [apply always_the|]. intros s r s' ev E. unfold the in E. destruct (f s); [|done]. by injection E as _ <- _. Qed.

(** What keeps the pending bytes, the sources, [mutils] and the parser. *)
Lemma bytes_ok_same s s' : bytes_ok s → (pending_bytes s' = pending_bytes s ∨ pending_bytes s' = []) → mutils (pars s') = mutils (pars s) →
  sources s' = sources s → m_frame_parser (pars s') = m_frame_parser (pars s) → bytes_ok s'.
Proof. intros [H1 H2 H3 H4] [Hp|Hp] Hu Hs Hf; split; rewrite ?Hp, ?Hu, ?Hs, ?Hf; done. Qed.

Ltac saving := repeat (cbv beta zeta; first
  [ solve [eauto with safe nocore]
  | match goal with
    | |- safe (_ ≫= _) => apply safe_bind; [|intros ?]
    | |- safe (as_error _ _) => apply safe_as_error
    | |- safe (set_au_field _) => unfold set_au_field
    | |- safe (change_dest _) => unfold change_dest
    | |- safe (lift (defined ?o)) => apply safe_lift; unfold defined; by destruct o
    | |- safe (modify _) => apply safe_modify; intros ? Hs; solve [apply (bytes_ok_same _ _ Hs); try done; first [by left|by right]]
    | |- safe (match ?x with _ => _ end) => destruct x
    end ]).

Create HintDb safe.
#[local] Hint Resolve safe_ret safe_fail safe_get safe_the safe_emit : safe.

Section Safe.
Context (driver : nat → driver_answer) (nal_length client_extradata : Z).

Lemma end_stream_bytes s : bytes_ok s → bytes_ok (end_stream s).
Proof.
  intros [H1 H2 H3 H4]. split; [unfold pending_bytes, end_stream; cbn; by destruct (h264_scratch s)| |done|done].
  intros u. cbn. destruct (mutils (pars s)) as [u1|] eqn:Eu; [|done]. intros [= <-]. by apply (H2 u1).
Qed.

Lemma push_dest_safe : safe (push_dest driver).
Proof.
  unfold push_dest, empty_this_buffer_proxy. saving.
  all: try (apply safe_modify; apply end_stream_bytes).
  all: apply safe_modify; intros s' Hs; destruct (codec_config_flag s' && _); [|done].
  all: apply (bytes_ok_same _ _ Hs); try done; by left.
Qed.

Lemma source_done_safe : safe source_done.
Proof.
  unfold source_done, pop_pending. saving.
  - apply safe_modify. intros s' [H1 H2 H3 H4]. split; [done..| |done]. unfold sources in *. by apply Forall_app in H3 as [_ H3].
  - apply safe_modify. intros s' [H1 H2 H3 H4]. destruct (m_input_pending_q s') as [|x q] eqn:Eq; [by split|]. split; [done..| |done].
    unfold sources in *. rewrite Eq in H3. by apply Forall_app in H3 as [_ H3].
Qed.

Lemma copy_scratch_safe e : safe (copy_scratch e).
Proof. unfold copy_scratch. saving. by apply safe_lift. Qed.

Lemma skip_empty_safe : safe skip_empty_nal.
Proof.
  unfold skip_empty_nal. saving. apply safe_modify. intros s' Hs. apply (bytes_ok_same _ _ Hs); try done.
  left. unfold pending_bytes. cbn. by destruct (h264_scratch s').
Qed.

Lemma pop_free_safe f : safe (pop_free f).
Proof.
  unfold pop_free. apply safe_modify. intros s Hs. destruct (m_input_free_q s) as [|[id d] q]; [done|].
  apply (bytes_ok_same _ _ Hs); try done. by left.
Qed.

Lemma isNewFrame_bytes buffer u r u' : isNewFrame buffer 0 u = Done (r, u') → Forall is_byte buffer →
  Forall is_byte (m_rbspBytes u) → Forall is_byte (m_rbspBytes u').
Proof.
  unfold isNewFrame. intros E Hb Hm. destruct (extract_rbsp _ _ _) as [e| |] eqn:Ee; try done. cbn [mbind outcome_bind] in E.
  apply extract_rbsp_bytes in Ee; [|done..]. cbv zeta in E. destruct (_ =? 0); [by injection E as _ <-|].
  destruct (defined _) as [nal| |]; try done. cbn [mbind outcome_bind] in E. destruct (_ || _).
  - destruct (if m_forceToStichNextNAL u then _ else _) as [new| |]; try done. by injection E as _ <-.
  - destruct (_ || _ || _); by injection E as _ <-.
Qed.

Lemma h264_is_new_frame_safe : safe h264_is_new_frame.
Proof.
  split.
  - intros s Hs. unfold h264_is_new_frame, mbind, M_bind, the, lift. destruct (h264_scratch s) as [sc|] eqn:Ec; [|done].
    cbn [defined mbind outcome_bind]. destruct (mutils (pars s)) as [u|] eqn:Eu; [|done]. cbn [defined mbind outcome_bind].
    destruct Hs as [Hp Hu _ _]. unfold pending_bytes in Hp. rewrite Ec in Hp.
    pose proof (isNewFrame_ends (d_bytes sc) 0 u Hp (Hu u Eu)). by destruct (isNewFrame _ _ _) as [[[? ?] ?]| |].
  - intros s r s' ev _ E. unfold h264_is_new_frame in E. unfold mbind, M_bind, the, lift in E.
    destruct (h264_scratch s) as [sc|] eqn:Ec; [|done]. cbn [defined mbind outcome_bind] in E.
    destruct (mutils (pars s)) as [u|] eqn:Eu; [|done]. cbn [defined mbind outcome_bind] in E.
    destruct (isNewFrame _ _ _) as [[[ok new] u']| |] eqn:En; try done. injection E as <- <- <-. split; [|done].
    intros [H1 H2 H3 H4]. split; [done| |done..]. intros u1 [= <-]. eapply isNewFrame_bytes; [exact En| |by apply H2].
    unfold pending_bytes in H1. by rewrite Ec in H1.
Qed.

Lemma parse_unit_safe : safe (parse_unit nal_length).
Proof.
  split; [intros s _; by apply parse_unit_always|]. intros s r s' ev _ E.
  unfold parse_unit, mbind, M_bind, the, get, lift, modify, emit in E.
  destruct (psource_frame s) as [[sid src]|] eqn:Es; [|done]. cbn [defined mbind outcome_bind] in E.
  destruct (h264_scratch s) as [sc|] eqn:Ec; [|done]. cbn [defined mbind outcome_bind] in E.
  destruct (if nal_length =? 0 then _ else _) as [p| |] eqn:Ep; try done. cbn [mbind outcome_bind] in E.
  assert (called src sc (m_frame_parser (pars s)) p) as [[[k Hk] (l & Hl & Hb) Hc _] _].
  { destruct (nal_length =? 0); [by apply parse_sc_frame_called|by apply parse_nallength_called]. }
  assert (s' = set_source (Some (sid, r_source p)) (set_scratch (Some (r_dest p))
    (set_pars (set_frame_parser (r_parser p) (pars s)) s))) as ->.
  { by destruct (rc p =? -1); injection E as _ <- _. }
  split; [|by destruct r]. intros [H1 H2 H3 H4]. unfold sources in H3. rewrite Es in H3. cbn in H3.
  apply Forall_cons in H3 as [Hsrc H3]. split; [|done| |].
  - unfold pending_bytes in *. rewrite Ec in H1. cbn in *. rewrite Hl. apply Forall_app_2; [done|by apply Hb].
  - unfold sources. cbn. constructor; [rewrite Hk; by apply Forall_drop|done].
  - cbn. congruence.
Qed.
Hint Resolve push_dest_safe source_done_safe copy_scratch_safe skip_empty_safe pop_free_safe h264_is_new_frame_safe parse_unit_safe : safe.

Lemma push_input_h264_safe : safe (push_input_h264 driver nal_length client_extradata).
Proof.
  unfold push_input_h264, copy_look_ahead, h264_nal_done, h264_end, h264_unit, frame_complete, scratch_full, unit_kind. saving.
Qed.
End Safe.

Lemma push_one_ends driver codec nal_length client_extradata s : (codec = CODEC_TYPE_H264 → bytes_ok s) →
  push_one driver codec nal_length client_extradata s ≠ NoFuel ∧
  ∀ s' ev, push_one driver codec nal_length client_extradata s = Done (inr (), s', ev) → codec = CODEC_TYPE_H264 → bytes_ok s'.
Proof.
  intros Hb. unfold push_one. destruct (Z.eqb_spec codec CODEC_TYPE_H264) as [->|Hne].
  - destruct (push_input_h264_safe driver nal_length client_extradata) as [He Hm]. split; [by apply He, Hb|].
    intros s' ev E _. by apply (moves_run E Hm), Hb.
  - split; [|done]. destruct (_ || _ || _); [by apply push_input_sc_codec_always|].
    destruct (_ =? _); [by apply push_input_hevc_always|]. destruct (_ =? _); [by apply push_input_vc1_always|done].
Qed.

Lemma push_loop_ends driver codec nal_length client_extradata fuel : ∀ s, handled codec = true → sized (is_nal codec) s →
  (codec = CODEC_TYPE_H264 → bytes_ok s) → (turns s < fuel)%nat →
  push_loop driver codec nal_length client_extradata fuel s ≠ NoFuel.
Proof.
  induction fuel as [|fuel IH]; intros s Hh Hw Hb Hf; [lia|]. cbn [push_loop]. unfold mbind at 1, M_bind, get at 1.
  cbn [mbind outcome_bind]. destruct (both_frames s) eqn:Eboth; [|done]. unfold mbind, M_bind.
  destruct (push_one_ends driver codec nal_length client_extradata s Hb) as [Hne Hb'].
  destruct (push_one _ _ _ _ s) as [[[[e|[]] s'] ev]| |] eqn:E; [done| |done..]. cbn [mbind outcome_bind].
  destruct (push_one_turns _ _ _ _ _ _ _ E Hh Hw) as [Hw' [Hlt|Hd]].
  - specialize (IH s' Hh Hw' (Hb' s' ev eq_refl) ltac:(lia)). by destruct (push_loop _ _ _ _ fuel s') as [[[? ?] ?]| |].
  - assert (both_frames s' = false) as E' by (unfold both_frames; by rewrite Hd).
    destruct fuel; cbn [push_loop]; unfold mbind, M_bind, get; cbn [mbind outcome_bind]; by rewrite E'.
Qed.

Lemma bind_ends_at {A B} (m : M A) (k : A → M B) s : m s ≠ NoFuel →
  (∀ a s' ev, m s = Done (inr a, s', ev) → k a s' ≠ NoFuel) → (m ≫= k) s ≠ NoFuel.
Proof. intros Hm Hk. apply (ends_bind (λ x, x = s)); [by intros x ->|by intros a x s' ev -> E; eapply Hk|done]. Qed.

(** What comes in front of the loop. *)
Definition ready (nal : bool) (codec : Z) (n : nat) (s : input) : Prop :=
  sized nal s ∧ (codec = CODEC_TYPE_H264 → bytes_ok s) ∧ (turns s ≤ n)%nat.

Lemma pop_free_ready nal codec n s s' r ev : pop_free fresh_dest s = Done (r, s', ev) → ready nal codec n s → ready nal codec n s'.
Proof.
  intros E (Hw & Hb & Hn). pose proof (moves_run E (pop_free_steady nal fresh_dest wf_empty)) as Hst. split_and!.
  - by apply (st_sized _ _ _ _ Hst).
  - intros Hc. by apply (moves_run E (proj2 (pop_free_safe fresh_dest))), Hb.
  - pose proof (steady_turns _ _ _ _ Hst). lia.
Qed.

Lemma pop_pending_ready nal codec n s s' r ev : psource_frame s = None → pop_pending s = Done (r, s', ev) →
  ready nal codec n s → ready nal codec n s'.
Proof.
  intros Hs E. unfold pop_pending, modify in E. injection E as _ <- _. intros (Hw & Hb & Hn).
  destruct (m_input_pending_q s) as [|x q] eqn:Eq; [by split_and!|].
  assert (sources (set_pending q (set_source (Some x) s)) = sources s) as Hsrc by (unfold sources; by rewrite Hs, Eq). split_and!.
  - by destruct nal.
  - intros Hc. apply (bytes_ok_same s); [by apply Hb|by left|done|done|done].
  - unfold turns in *. by rewrite Hsrc.
Qed.

(** C27: The loop of push_input_buffer ends for every codec it has a case for,
    whatever the driver answers: two turns for each byte of the sources and
    two for each source are enough, as every turn takes bytes, ends a unit or
    a source, or fails; no loop inside a turn runs out of fuel either. *)
Theorem push_input_buffer_ends driver codec nal_length client_extradata fuel s :
  handled codec = true → sized (is_nal codec) s → (codec = CODEC_TYPE_H264 → bytes_ok s) → (turns s < fuel)%nat →
  push_input_buffer driver codec nal_length client_extradata fuel s ≠ NoFuel.
Proof.
  intros Hh Hw Hb Hf. assert (ready (is_nal codec) codec (turns s) s) as H0 by done.
  unfold push_input_buffer. apply bind_ends_at; [done|]. intros dest s0 e0 [= <- <- _].
  apply bind_ends_at; [unfold pop_free, modify; by destruct (pdest_frame s)|]. intros u s1 e1 E1.
  assert (ready (is_nal codec) codec (turns s) s1) as H1.
  { destruct (pdest_frame s); [by injection E1 as _ <- _|by eapply pop_free_ready]. }
  apply bind_ends_at; [done|]. intros src s2 e2 [= <- <- _].
  apply bind_ends_at; [unfold pop_pending, modify; by destruct (psource_frame s1)|]. intros u' s2 e3 E2.
  assert (ready (is_nal codec) codec (turns s) s2) as (Hw2 & Hb2 & Hn2).
  { destruct (psource_frame s1) eqn:Es; [by injection E2 as _ <- _|by eapply pop_pending_ready]. }
  pose proof (push_loop_ends driver codec nal_length client_extradata fuel s2 Hh Hw2 Hb2 ltac:(lia)) as Hl.
  unfold reporting. by destruct (push_loop _ _ _ _ fuel s2) as [[[[|] ?] ?]| |].
Qed.

(** With arbitrary bytes the loop has no case for VP8, and none ends it:
    with a source and a destination it turns forever. *)
Theorem vp8_input_never_ends driver nal_length client_extradata fuel s :
  both_frames s = true → push_input_buffer driver CODEC_TYPE_VP8 nal_length client_extradata fuel s = NoFuel.
Proof.
  intros Hs. assert (push_loop driver CODEC_TYPE_VP8 nal_length client_extradata fuel s = NoFuel) as Hl.
  { induction fuel as [|fuel IH]; cbn [push_loop]; unfold mbind, M_bind, get; cbn [mbind outcome_bind]; rewrite Hs; [done|].
    change (push_one driver CODEC_TYPE_VP8 nal_length client_extradata s) with (Done (inr (A := omx_error) (), s, @nil event)).
    cbn [mbind outcome_bind]. by rewrite IH. }
  unfold both_frames in Hs. unfold push_input_buffer, mbind, M_bind, get. cbn [mbind outcome_bind].
  destruct (pdest_frame s) eqn:Ed; [|done]. cbn. destruct (psource_frame s) eqn:Es; [|done]. cbn.
  unfold reporting. by rewrite Hl.
Qed.

(** ** Examples *)
Definition pending_start : input := set_source (Some (10%nat, client_buffer (annexb [slice1; picture2]) OMX_BUFFERFLAG_EOS)) h264_start.

Lemma push_input_buffer_ends_witness :
  turns pending_start = 34%nat ∧
  push_input_buffer (λ _, Accepts) CODEC_TYPE_H264 0 0 35 pending_start ≠ NoFuel.
Proof.
  split; [vm_compute; reflexivity|].
  apply (push_input_buffer_ends (λ _, Accepts) CODEC_TYPE_H264 0 0 35 pending_start); [reflexivity| | |].
  - intros d Hd. injection Hd as <-. unfold dest_wf. cbn. lia.
  - intros _. split; [constructor| | |reflexivity].
    + intros u Hu. injection Hu as <-. unfold is_byte. cbn. repeat (constructor; [lia|]). constructor.
    + unfold sources, is_byte. cbn. repeat constructor; lia.
  - vm_compute. lia.
Defined.

Lemma vp8_input_never_ends_witness :
  push_input_buffer (λ _, Accepts) CODEC_TYPE_VP8 0 0 1000
    (set_dest (Some (1%nat, empty_buffer 100)) pending_start) = NoFuel.
Proof. apply vp8_input_never_ends. vm_compute. reflexivity. Defined.
