(* ===== verification/OrderedMap.v ===== *)
(** * Ordered maps

    A [std::map] is a finite map that is iterated in the order of its keys. *)
From Stdlib Require Import Sorting.Sorted.
From stdpp Require Import sorting.
From S2P Require Import Prelude.

Section ordered.
Context {K A : Type} `{Countable K} (R : relation K) `{!RelDecision R}.

Definition by_key (a b : K * A) : Prop := R a.1 b.1.

#[export] Instance by_key_dec : RelDecision by_key.
Proof. intros a b. unfold by_key. apply _. Defined.

Definition entries (m : gmap K A) : list (K * A) := merge_sort by_key (map_to_list m).

Lemma entries_perm m : entries m ≡ₚ map_to_list m.
Proof. apply merge_sort_Permutation. Qed.

Lemma elem_of_entries m k x : (k, x) ∈ entries m ↔ m !! k = Some x.
Proof. rewrite entries_perm. apply elem_of_map_to_list. Qed.

Lemma entries_NoDup_fst m : NoDup (entries m).*1.
Proof. rewrite entries_perm. apply NoDup_fst_map_to_list. Qed.

Lemma entries_NoDup m : NoDup (entries m).
Proof. eapply NoDup_fmap_1, entries_NoDup_fst. Qed.

Lemma entries_empty : entries ∅ = [].
Proof. unfold entries. by rewrite map_to_list_empty. Qed.

Lemma entries_sorted m `{!Total R} : Sorted by_key (entries m).
Proof.
  apply Sorted_merge_sort. intros a b. unfold by_key. apply (total R).
Qed.

(** The last entry has the greatest key. *)
Lemma entries_last m k x k' `{!Total R} `{!Transitive R} :
  last (entries m) = Some (k, x) → is_Some (m !! k') → R k' k.
Proof.
  intros Hl [x' Hk]. apply elem_of_entries in Hk.
  assert (StronglySorted by_key (entries m)) as Hs.
  { apply Sorted_StronglySorted, entries_sorted; [|done].
    intros a b c. unfold by_key. by transitivity b.1. }
  apply last_Some in Hl as [l Hl]. rewrite Hl in Hs, Hk.
  apply elem_of_app in Hk as [Hk|Hk].
  - apply StronglySorted_app in Hs as (Hs & _). by apply (Hs (k', x') (k, x)); [|left].
  - apply list_elem_of_singleton in Hk as [= -> _]. by destruct (total R k k).
Qed.

Lemma entries_last_None m : last (entries m) = None → m = ∅.
Proof.
  intros Hl. apply last_None in Hl. apply map_to_list_empty_iff.
  apply Permutation_nil. by rewrite <- entries_perm, Hl.
Qed.
End ordered.
