(* ===== verification/LocAdapter.v ===== *)
(** * [LocAdapterBase]: what the adapters of the location stack share

    Models [gps/core/LocAdapterBase.cpp]: the callbacks of the clients, the
    numbers handed out to sessions, and the capabilities that are computed from
    what the engine reported ([gps/core/ContextBase.cpp]).  Pointers are
    addresses; of a callback only whether it is set matters. *)
From S2P Require Import Prelude OrderedMap Doubles.

(** ** Data of [gps/location/LocationDataTypes.h] *)
Inductive LocationError :=
  | LOCATION_ERROR_SUCCESS
  | LOCATION_ERROR_GENERAL_FAILURE
  | LOCATION_ERROR_CALLBACK_MISSING
  | LOCATION_ERROR_INVALID_PARAMETER
  | LOCATION_ERROR_ID_EXISTS
  | LOCATION_ERROR_ID_UNKNOWN
  | LOCATION_ERROR_ALREADY_STARTED
  | LOCATION_ERROR_GEOFENCES_AT_MAX
  | LOCATION_ERROR_NOT_SUPPORTED
  | LOCATION_ERROR_TIMEOUT
  | LOCATION_ERROR_GNSS_DISABLED.

#[export] Instance LocationError_eq_dec : EqDecision LocationError.
Proof. solve_decision. Defined.

Record LocationCallbacks := MkLocationCallbacks {
  capabilitiesCb : bool;
  responseCb : bool;
  collectiveResponseCb : bool;
  trackingCb : bool;
  batchingCb : bool;
  geofenceBreachCb : bool;
  geofenceStatusCb : bool;
  gnssLocationInfoCb : bool;
  gnssNiCb : bool;
  gnssSvCb : bool;
  gnssNmeaCb : bool;
  gnssDataCb : bool;
  gnssMeasurementsCb : bool;
  batchingStatusCb : bool;
  locationSystemInfoCb : bool;
  engineLocationsInfoCb : bool
}.

#[export] Instance LocationCallbacks_eq_dec : EqDecision LocationCallbacks.
Proof. solve_decision. Defined.

Record Location := MkLocation {
  loc_flags : Z;
  loc_timestamp : Z;
  loc_latitude : spec_float;
  loc_longitude : spec_float;
  loc_altitude : spec_float;
  loc_speed : spec_float;
  loc_bearing : spec_float;
  loc_accuracy : spec_float;
  verticalAccuracy : spec_float;
  speedAccuracy : spec_float;
  bearingAccuracy : spec_float;
  conformityIndex : spec_float;
  techMask : Z;
  spoofMask : Z;
  elapsedRealTime : Z;
  elapsedRealTimeUnc : Z
}.

(** Whether the engine may be used ([gps/utils/gps_extended_c.h]). *)
Inductive EngineLockState :=
  | ENGINE_LOCK_STATE_INVALID | ENGINE_LOCK_STATE_ENABLED | ENGINE_LOCK_STATE_DISABLED.

#[export] Instance EngineLockState_eq_dec : EqDecision EngineLockState.
Proof. solve_decision. Defined.

(** ** The engine's capabilities *)

(** The static members of [ContextBase]: a 64-bit mask, 100 bytes, and the
    entries of [gps.conf] that are used. *)
Record engine_caps := EngineCaps {
  sSupportedMsgMask : Z;
  sFeaturesSupported : list Z;
  sGnssMeasurementSupported : bool;
  CAPABILITIES : Z;
  SUPL_MODE : Z
}.

Definition LOC_API_ADAPTER_MESSAGE_DISTANCE_BASE_TRACKING : Z := 2.
Definition LOC_API_ADAPTER_MESSAGE_DISTANCE_BASE_LOCATION_BATCHING : Z := 4.
Definition LOC_API_ADAPTER_MESSAGE_OUTDOOR_TRIP_BATCHING : Z := 6.

Definition LOC_SUPPORTED_FEATURE_DEBUG_NMEA_V02 : Z := 2.
Definition LOC_SUPPORTED_FEATURE_CONSTELLATION_ENABLEMENT_V02 : Z := 5.
Definition LOC_SUPPORTED_FEATURE_AGPM_V02 : Z := 6.
Definition LOC_SUPPORTED_FEATURE_LOCATION_PRIVACY : Z := 9.
Definition LOC_SUPPORTED_FEATURE_MEASUREMENTS_CORRECTION : Z := 11.
Definition LOC_SUPPORTED_FEATURE_ROBUST_LOCATION : Z := 12.
Definition LOC_SUPPORTED_FEATURE_EDGNSS : Z := 13.

Definition MAX_FEATURE_LENGTH : Z := 100.

(** The identifiers the code passes are at most 6, so [1 << msgID] is defined. *)
Definition isMessageSupported (g : engine_caps) (msgID : Z) : bool :=
  if (8 * 8 <? msgID)%Z then false
  else
    let messageChecker := wrap_unsigned 32 (Z.shiftl 1 msgID) in
    (Z.land messageChecker (sSupportedMsgMask g) =? messageChecker)%Z.

Definition isFeatureSupported (g : engine_caps) (featureVal : Z) : bool :=
  let arrayIndex := Z.shiftr featureVal 3 in
  let bitPos := Z.land featureVal 7 in
  if (MAX_FEATURE_LENGTH <=? arrayIndex)%Z then false
  else Z.testbit (nth (Z.to_nat arrayIndex) (sFeaturesSupported g) 0%Z) bitPos.

Definition getCarrierCapabilities (g : engine_caps) : Z :=
  let capabilities := CAPABILITIES g in
  let capabilities :=
    if (Z.land (SUPL_MODE g) 2 =? 2)%Z then capabilities else Z.ldiff capabilities 4 in
  if (Z.land (SUPL_MODE g) 1 =? 1)%Z then capabilities else Z.ldiff capabilities 2.

(** A bit of [LocationCapabilitiesBits], if the condition holds. *)
Definition bit_if (b : bool) (bit : Z) (mask : Z) : Z :=
  if b then Z.lor mask (Z.shiftl 1 bit) else mask.

(** [known]: [mIsEngineCapabilitiesKnown]. *)
Definition getCapabilities (g : engine_caps) (known : bool) : Z :=
  if known then
    let mask := bit_if true 0 0 in
    let mask :=
      let b := isMessageSupported g LOC_API_ADAPTER_MESSAGE_DISTANCE_BASE_LOCATION_BATCHING in
      bit_if b 3 (bit_if b 1 mask) in
    let mask := bit_if (isMessageSupported g LOC_API_ADAPTER_MESSAGE_DISTANCE_BASE_TRACKING) 2 mask in
    let mask := bit_if (isMessageSupported g LOC_API_ADAPTER_MESSAGE_OUTDOOR_TRIP_BATCHING) 9 mask in
    let mask := bit_if true 4 mask in
    let mask := bit_if (sGnssMeasurementSupported g) 5 mask in
    let carrierCapabilities := getCarrierCapabilities g in
    let mask := bit_if (Z.testbit carrierCapabilities 1) 6 mask in
    let mask := bit_if (Z.testbit carrierCapabilities 2) 7 mask in
    let mask := bit_if (isFeatureSupported g LOC_SUPPORTED_FEATURE_DEBUG_NMEA_V02) 8 mask in
    let mask := bit_if (isFeatureSupported g LOC_SUPPORTED_FEATURE_CONSTELLATION_ENABLEMENT_V02) 10 mask in
    let mask := bit_if (isFeatureSupported g LOC_SUPPORTED_FEATURE_AGPM_V02) 11 mask in
    let mask := bit_if (isFeatureSupported g LOC_SUPPORTED_FEATURE_LOCATION_PRIVACY) 12 mask in
    let mask := bit_if (isFeatureSupported g LOC_SUPPORTED_FEATURE_MEASUREMENTS_CORRECTION) 13 mask in
    let mask := bit_if (isFeatureSupported g LOC_SUPPORTED_FEATURE_ROBUST_LOCATION) 14 mask in
    bit_if (isFeatureSupported g LOC_SUPPORTED_FEATURE_EDGNSS) 15 mask
  else 0%Z.

(** ** Session numbers *)

(** The counter is a static variable of 32 bits that starts at 1. *)
Definition generateSessionId (mSessionIdCounter : Z) : Z :=
  let c := wrap_unsigned 32 (mSessionIdCounter + 1) in
  if (c =? 0xFFFFFFFF)%Z then 1%Z else c.

(** The counter after [n] numbers were drawn. *)
Definition drawn (n : nat) (c : Z) : Z := Nat.iter n generateSessionId c.

Definition counter_ok (c : Z) : Prop := (1 ≤ c < 0xFFFFFFFF)%Z.

Lemma generateSessionId_mod c : counter_ok c →
  generateSessionId c = (c `mod` 0xFFFFFFFE + 1)%Z ∧ counter_ok (generateSessionId c).
Proof.
  unfold counter_ok, generateSessionId. intros Hc.
  rewrite wrap_unsigned_small by (change (2 ^ 32)%Z with 4294967296%Z; lia).
  destruct (Z.eqb_spec (c + 1) 0xFFFFFFFF) as [E|E].
  - replace c with 0xFFFFFFFE%Z by lia. split; [reflexivity|lia].
  - rewrite Z.mod_small by lia. lia.
Qed.

Lemma drawn_ok n c : counter_ok c → counter_ok (drawn n c).
Proof.
  intros Hc. induction n as [|n IH]; [done|]. by apply generateSessionId_mod.
Qed.

(** The numbers go round 1 .. 2^32-2. *)
Lemma drawn_mod n c : counter_ok c →
  drawn n c = ((c - 1 + Z.of_nat n) `mod` 0xFFFFFFFE + 1)%Z.
Proof.
  intros Hc. induction n as [|n IH].
  - unfold counter_ok in Hc. cbn. rewrite Z.add_0_r, Z.mod_small; lia.
  - pose proof (drawn_ok n c Hc) as Hn. change (drawn (S n) c) with (generateSessionId (drawn n c)).
    destruct (generateSessionId_mod _ Hn) as [-> _]. rewrite IH. f_equal.
    replace ((c - 1 + Z.of_nat n) `mod` 0xFFFFFFFE + 1)%Z
      with (1 + (c - 1 + Z.of_nat n) `mod` 0xFFFFFFFE)%Z by lia.
    rewrite Z.add_mod_idemp_r by lia. f_equal. lia.
Qed.

Lemma drawn_inj i j c : counter_ok c →
  (Z.of_nat i < 0xFFFFFFFE)%Z → (Z.of_nat j < 0xFFFFFFFE)%Z →
  drawn i c = drawn j c → i = j.
Proof.
  intros Hc Hi Hj. rewrite !drawn_mod by done. intros E.
  assert ((c - 1 + Z.of_nat i) `mod` 0xFFFFFFFE = (c - 1 + Z.of_nat j) `mod` 0xFFFFFFFE)%Z as Em by lia.
  pose proof (Z.div_mod (c - 1 + Z.of_nat i) 0xFFFFFFFE).
  pose proof (Z.div_mod (c - 1 + Z.of_nat j) 0xFFFFFFFE). nia.
Qed.
