(* ===== verification/Geofence.v ===== *)
(** * The geofence adapter

    Models [gps/geofence/GeofenceAdapter.cpp] on top of [LocAdapter].  The
    adapter runs on the thread of its message queue.  A command of a client is
    a message that puts one item per geofence into the call queue of the
    location API; an item asks the engine, and what the engine answers is a
    message again.  The location API is a library that is not part of the
    sources: it holds the response objects it was given and may return any of
    them, with any result.  The arrays of a command are shared by the closures
    of its items and freed by one of them; using them afterwards is undefined
    behaviour ([None]), and so is a second use of a message that was deleted. *)
From stdpp Require Import sorting.
From S2P Require Import Prelude OrderedMap Doubles LocAdapter.

(** ** Data *)
Record GeofenceKey := MkGeofenceKey { key_client : Z; key_id : Z }.

#[export] Instance GeofenceKey_eq_dec : EqDecision GeofenceKey.
Proof. solve_decision. Defined.
#[export] Instance GeofenceKey_countable : Countable GeofenceKey.
Proof.
  refine (inj_countable' (λ k, (key_client k, key_id k)) (λ p, MkGeofenceKey p.1 p.2) _).
  by intros [].
Defined.

(** [operator <], closed under equality. *)
Definition key_le (left right : GeofenceKey) : Prop :=
  (key_id left < key_id right ∨
   key_id left = key_id right ∧ key_client left ≤ key_client right)%Z.

#[export] Instance key_le_dec : RelDecision key_le.
Proof. intros a b. unfold key_le. apply _. Defined.

Record GeofenceOption := MkGeofenceOption {
  breachTypeMask : Z;
  opt_responsiveness : Z;
  opt_dwellTime : Z
}.

Record GeofenceInfo := MkGeofenceInfo {
  info_latitude : spec_float;
  info_longitude : spec_float;
  info_radius : spec_float
}.

Record GeofenceObject := MkGeofenceObject {
  key : GeofenceKey;
  breachMask : Z;
  responsiveness : Z;
  dwellTime : Z;
  latitude : spec_float;
  longitude : spec_float;
  radius : spec_float;
  paused : bool
}.

Inductive GeofenceBreachType :=
  | GEOFENCE_BREACH_ENTER | GEOFENCE_BREACH_EXIT | GEOFENCE_BREACH_DWELL_IN
  | GEOFENCE_BREACH_DWELL_OUT | GEOFENCE_BREACH_UNKNOWN.

(** The five commands; the closures of a command capture the pointers to its
    arrays, here the address [c_arrays] of the four of them. *)
Inductive kind := Add | Remove | Pause | Resume | Modify.

#[export] Instance kind_eq_dec : EqDecision kind.
Proof. solve_decision. Defined.

Record command := Command {
  c_kind : kind;
  mClient : Z;
  mCount : nat;
  c_arrays : Z
}.

#[export] Instance command_eq_dec : EqDecision command.
Proof. solve_decision. Defined.

(** An element that was not written is [None], a null array too. *)
Record arrays := Arrays {
  errs : list (option LocationError);
  mIds : list (option Z);
  mOptions : option (list GeofenceOption);
  mInfos : option (list GeofenceInfo)
}.

(** The response objects the location API holds, by the closure they run. *)
Inductive response :=
  | QueueItem (c : command) (i : nat)
  | Answered (c : command) (i : nat) (hwId : Z)
  | StopAnswered (hwId : Z)
  | RestartAnswered (object : GeofenceObject)
  | PauseAnswered.

(** The messages of the adapter's thread. *)
Inductive locmsg :=
  | MsgAddClient (client : Z) (callbacks : LocationCallbacks)
  | MsgRemoveClient (client : Z) (rmClientCb : bool)
  | MsgRequestCapabilities (client : Z)
  | MsgGeofences (c : command)
  | MsgResponse (r : response) (err : LocationError) (hwId : Z)
  | MsgGeofenceBreach (hwIds : list Z) (location : Location) (breachType : GeofenceBreachType)
      (timestamp : Z)
  | MsgGeofenceStatus (available : bool)
  | MsgSSREvent
  | MsgEngineLockStateEvent (state : EngineLockState).

(** What the engine and the clients see. *)
Inductive request :=
  | AddGeofence (clientId : Z) (options : GeofenceOption) (info : GeofenceInfo)
  | RemoveGeofence (hwId clientId : Z)
  | PauseGeofence (hwId clientId : Z)
  | ResumeGeofence (hwId clientId : Z)
  | ModifyGeofence (hwId clientId : Z) (options : GeofenceOption).

Inductive output :=
  | ToEngine (r : request)
  | UpdateEvtMask (mask : Z)
  | CapabilitiesCb (client mask : Z)
  | CollectiveResponseCb (client : Z) (count : nat) (errs : list (option LocationError))
      (ids : list (option Z))
  | GeofenceBreachCb (client : Z) (ids : list Z) (location : Location)
      (breachType : GeofenceBreachType) (timestamp : Z)
  | GeofenceStatusCb (client : Z) (available : bool)
  | RemoveClientCb (client : Z).

(** The adapter with its message queue, what the location API holds of it
    ([calls], [lock]), and the arrays of its commands.  Messages have
    addresses: a pending one is queued again by its pointer, and the thread
    deletes a message after it ran. *)
Record adapter := Adapter {
  mGeofences : gmap Z GeofenceObject;
  mGeofenceIds : gmap GeofenceKey Z;
  mClientData : gmap Z LocationCallbacks;
  mEvtMask : Z;
  mIsEngineCapabilitiesKnown : bool;
  mPendingMsgs : list (Z * locmsg);
  mPendingGnssEnabledMsgs : list (Z * locmsg);
  queue : list (Z * locmsg);
  deleted : list Z;
  nextMsg : Z;
  calls : list response;
  lock : EngineLockState;
  heap : gmap Z arrays;
  nextArrays : Z;
  mSessionIdCounter : Z;
  out : list output
}.

Definition init_adapter (known : bool) : adapter :=
  Adapter ∅ ∅ ∅ 0 known [] [] [] [] 0 [] ENGINE_LOCK_STATE_ENABLED ∅ 0 1 [].

Definition set_fences (f : gmap Z GeofenceObject) (k : gmap GeofenceKey Z) (s : adapter) : adapter :=
  Adapter f k (mClientData s) (mEvtMask s) (mIsEngineCapabilitiesKnown s) (mPendingMsgs s)
    (mPendingGnssEnabledMsgs s) (queue s) (deleted s) (nextMsg s) (calls s) (lock s) (heap s)
    (nextArrays s) (mSessionIdCounter s) (out s).
Definition set_clients (m : gmap Z LocationCallbacks) (s : adapter) : adapter :=
  Adapter (mGeofences s) (mGeofenceIds s) m (mEvtMask s) (mIsEngineCapabilitiesKnown s)
    (mPendingMsgs s) (mPendingGnssEnabledMsgs s) (queue s) (deleted s) (nextMsg s) (calls s)
    (lock s) (heap s) (nextArrays s) (mSessionIdCounter s) (out s).
Definition set_evt_mask (m : Z) (s : adapter) : adapter :=
  Adapter (mGeofences s) (mGeofenceIds s) (mClientData s) m (mIsEngineCapabilitiesKnown s)
    (mPendingMsgs s) (mPendingGnssEnabledMsgs s) (queue s) (deleted s) (nextMsg s) (calls s)
    (lock s) (heap s) (nextArrays s) (mSessionIdCounter s) (out s).
Definition setEngineCapabilitiesKnown (b : bool) (s : adapter) : adapter :=
  Adapter (mGeofences s) (mGeofenceIds s) (mClientData s) (mEvtMask s) b
    (mPendingMsgs s) (mPendingGnssEnabledMsgs s) (queue s) (deleted s) (nextMsg s) (calls s)
    (lock s) (heap s) (nextArrays s) (mSessionIdCounter s) (out s).
Definition set_pending (p q : list (Z * locmsg)) (s : adapter) : adapter :=
  Adapter (mGeofences s) (mGeofenceIds s) (mClientData s) (mEvtMask s)
    (mIsEngineCapabilitiesKnown s) p q (queue s) (deleted s) (nextMsg s) (calls s)
    (lock s) (heap s) (nextArrays s) (mSessionIdCounter s) (out s).
Definition set_queue (q : list (Z * locmsg)) (d : list Z) (n : Z) (s : adapter) : adapter :=
  Adapter (mGeofences s) (mGeofenceIds s) (mClientData s) (mEvtMask s)
    (mIsEngineCapabilitiesKnown s) (mPendingMsgs s) (mPendingGnssEnabledMsgs s) q d n (calls s)
    (lock s) (heap s) (nextArrays s) (mSessionIdCounter s) (out s).
Definition set_calls (l : list response) (s : adapter) : adapter :=
  Adapter (mGeofences s) (mGeofenceIds s) (mClientData s) (mEvtMask s)
    (mIsEngineCapabilitiesKnown s) (mPendingMsgs s) (mPendingGnssEnabledMsgs s) (queue s)
    (deleted s) (nextMsg s) l (lock s) (heap s) (nextArrays s) (mSessionIdCounter s) (out s).
Definition setEngineLockState (l : EngineLockState) (s : adapter) : adapter :=
  Adapter (mGeofences s) (mGeofenceIds s) (mClientData s) (mEvtMask s)
    (mIsEngineCapabilitiesKnown s) (mPendingMsgs s) (mPendingGnssEnabledMsgs s) (queue s)
    (deleted s) (nextMsg s) (calls s) l (heap s) (nextArrays s) (mSessionIdCounter s) (out s).
Definition set_heap (h : gmap Z arrays) (n : Z) (s : adapter) : adapter :=
  Adapter (mGeofences s) (mGeofenceIds s) (mClientData s) (mEvtMask s)
    (mIsEngineCapabilitiesKnown s) (mPendingMsgs s) (mPendingGnssEnabledMsgs s) (queue s)
    (deleted s) (nextMsg s) (calls s) (lock s) h n (mSessionIdCounter s) (out s).
Definition set_counter (n : Z) (s : adapter) : adapter :=
  Adapter (mGeofences s) (mGeofenceIds s) (mClientData s) (mEvtMask s)
    (mIsEngineCapabilitiesKnown s) (mPendingMsgs s) (mPendingGnssEnabledMsgs s) (queue s)
    (deleted s) (nextMsg s) (calls s) (lock s) (heap s) (nextArrays s) n (out s).
Definition emit (o : list output) (s : adapter) : adapter :=
  Adapter (mGeofences s) (mGeofenceIds s) (mClientData s) (mEvtMask s)
    (mIsEngineCapabilitiesKnown s) (mPendingMsgs s) (mPendingGnssEnabledMsgs s) (queue s)
    (deleted s) (nextMsg s) (calls s) (lock s) (heap s) (nextArrays s) (mSessionIdCounter s)
    (out s ++ o).

(** [sendMsg(new m)]; [resend]: a message object that exists. *)
Definition sendMsg (m : locmsg) (s : adapter) : adapter :=
  set_queue (queue s ++ [(nextMsg s, m)]) (deleted s) (nextMsg s + 1) s.
Definition resend (l : list (Z * locmsg)) (s : adapter) : adapter :=
  set_queue (queue s ++ l) (deleted s) (nextMsg s) s.
(** A call to the location API that passes it a response object. *)
Definition ask (o : list output) (r : response) (s : adapter) : adapter :=
  set_calls (calls s ++ [r]) (emit o s).

(** ** The two maps *)
Definition saveGeofenceItem (client clientId hwId : Z) (options : GeofenceOption)
    (info : GeofenceInfo) (s : adapter) : adapter :=
  let k := MkGeofenceKey client clientId in
  let object := MkGeofenceObject k (breachTypeMask options) (opt_responsiveness options)
    (opt_dwellTime options) (info_latitude info) (info_longitude info) (info_radius info) false in
  set_fences (<[hwId := object]> (mGeofences s)) (<[k := hwId]> (mGeofenceIds s)) s.

Definition getHwIdFromClient (client clientId hwId : Z) (s : adapter) : LocationError * Z :=
  match mGeofenceIds s !! MkGeofenceKey client clientId with
  | Some h => (LOCATION_ERROR_SUCCESS, h)
  | None => (LOCATION_ERROR_ID_UNKNOWN, hwId)
  end.

Definition getGeofenceKeyFromHwId (hwId : Z) (s : adapter) : option GeofenceKey :=
  key <$> mGeofences s !! hwId.

Definition removeGeofenceItem (hwId : Z) (s : adapter) : adapter :=
  match getGeofenceKeyFromHwId hwId s with
  | None => s
  | Some k =>
      match mGeofenceIds s !! k with
      | Some _ => set_fences (delete hwId (mGeofences s)) (delete k (mGeofenceIds s)) s
      | None => s
      end
  end.

Definition with_paused (b : bool) (o : GeofenceObject) : GeofenceObject :=
  MkGeofenceObject (key o) (breachMask o) (responsiveness o) (dwellTime o) (latitude o)
    (longitude o) (radius o) b.
Definition with_options (p : GeofenceOption) (o : GeofenceObject) : GeofenceObject :=
  MkGeofenceObject (key o) (breachTypeMask p) (opt_responsiveness p) (opt_dwellTime p)
    (latitude o) (longitude o) (radius o) (paused o).

Definition alter_item (f : GeofenceObject → GeofenceObject) (hwId : Z) (s : adapter) : adapter :=
  match mGeofences s !! hwId with
  | Some o => set_fences (<[hwId := f o]> (mGeofences s)) (mGeofenceIds s) s
  | None => s
  end.

Definition pauseGeofenceItem : Z → adapter → adapter := alter_item (with_paused true).
Definition resumeGeofenceItem : Z → adapter → adapter := alter_item (with_paused false).
Definition modifyGeofenceItem (hwId : Z) (options : GeofenceOption) : adapter → adapter :=
  alter_item (with_options options) hwId.

(** ** Clients *)
Definition LOC_API_ADAPTER_BIT_GEOFENCE_GEN_ALERT : Z := Z.shiftl 1 14.
Definition LOC_API_ADAPTER_BIT_BATCHED_GENFENCE_BREACH_REPORT : Z := Z.shiftl 1 21.
Definition LOC_API_ADAPTER_BIT_REPORT_GENFENCE_DWELL : Z := Z.shiftl 1 28.

Definition client_mask (mask : Z) (cb : LocationCallbacks) : Z :=
  let mask :=
    if geofenceBreachCb cb then
      Z.lor (Z.lor mask LOC_API_ADAPTER_BIT_BATCHED_GENFENCE_BREACH_REPORT)
        LOC_API_ADAPTER_BIT_REPORT_GENFENCE_DWELL
    else mask in
  if geofenceStatusCb cb then Z.lor mask LOC_API_ADAPTER_BIT_GEOFENCE_GEN_ALERT else mask.

Definition updateClientsEventMask (s : adapter) : adapter :=
  let mask := foldl client_mask 0%Z (entries Z.le (mClientData s)).*2 in
  emit [UpdateEvtMask mask] (set_evt_mask mask s).

Definition saveClient (client : Z) (callbacks : LocationCallbacks) (s : adapter) : adapter :=
  updateClientsEventMask (set_clients (<[client := callbacks]> (mClientData s)) s).

Definition eraseClient (client : Z) (s : adapter) : adapter :=
  updateClientsEventMask (set_clients (delete client (mClientData s)) s).

(** The loop of [stopClientSessions] over the keys. *)
Definition stop_item (client : Z) (s : adapter) (it : GeofenceKey * Z) : adapter :=
  let '(k, hwId) := it in
  if decide (client = key_client k) then
    ask [ToEngine (RemoveGeofence hwId (key_id k))] (StopAnswered hwId)
      (set_fences (mGeofences s) (delete k (mGeofenceIds s)) s)
  else s.

Definition stopClientSessions (client : Z) (s : adapter) : adapter :=
  foldl (stop_item client) s (entries key_le (mGeofenceIds s)).

Definition stop_answered (hwId : Z) (err : LocationError) (s : adapter) : adapter :=
  if decide (err = LOCATION_ERROR_SUCCESS) then
    set_fences (delete hwId (mGeofences s)) (mGeofenceIds s) s
  else s.

Definition broadcastCapabilities (mask : Z) (s : adapter) : adapter :=
  emit (omap (λ d : Z * LocationCallbacks,
    if capabilitiesCb d.2 then Some (CapabilitiesCb d.1 mask) else None)
    (entries Z.le (mClientData s))) s.

(** ** The engine comes up *)
Definition options_of (o : GeofenceObject) : GeofenceOption :=
  MkGeofenceOption (breachMask o) (responsiveness o) (dwellTime o).
Definition info_of (o : GeofenceObject) : GeofenceInfo :=
  MkGeofenceInfo (latitude o) (longitude o) (radius o).

Definition restart_item (s : adapter) (o : GeofenceObject) : adapter :=
  ask [ToEngine (AddGeofence (key_id (key o)) (options_of o) (info_of o))] (RestartAnswered o) s.

Definition restartGeofences (s : adapter) : adapter :=
  if decide (mGeofences s = ∅) then s
  else foldl restart_item (set_fences ∅ ∅ s) (entries Z.le (mGeofences s)).*2.

Definition restart_answered (o : GeofenceObject) (err : LocationError) (hwId : Z) (s : adapter) :
    adapter :=
  if decide (err = LOCATION_ERROR_SUCCESS) then
    let s :=
      if paused o then ask [ToEngine (PauseGeofence hwId (key_id (key o)))] PauseAnswered s else s in
    saveGeofenceItem (key_client (key o)) (key_id (key o)) hwId (options_of o) (info_of o) s
  else s.

Definition handleEngineLockStatus (state : EngineLockState) (s : adapter) : adapter :=
  if decide (state = ENGINE_LOCK_STATE_ENABLED) then
    set_pending (mPendingMsgs s) [] (resend (mPendingGnssEnabledMsgs s) s)
  else s.

(** ** Commands *)
Definition reportResponse (client : Z) (count : nat) (es : list (option LocationError))
    (ids : list (option Z)) (s : adapter) : adapter :=
  match mClientData s !! client with
  | Some cb => if collectiveResponseCb cb then emit [CollectiveResponseCb client count es ids] s else s
  | None => s
  end.

(** [errs[i] = e]; the arrays must be there. *)
Definition write_err (c : command) (i : nat) (e : LocationError) (s : adapter) : option adapter :=
  a ← heap s !! c_arrays c;
  Some (set_heap (<[c_arrays c := Arrays (<[i := Some e]> (errs a)) (mIds a) (mOptions a) (mInfos a)]>
    (heap s)) (nextArrays s) s).

(** The aggregated response on the last item, and the clean-up. *)
Definition report_last (c : command) (i : nat) (s : adapter) : option adapter :=
  if decide (S i = mCount c) then
    a ← heap s !! c_arrays c;
    let s := reportResponse (mClient c) (mCount c) (errs a) (mIds a) s in
    Some (set_heap (delete (c_arrays c) (heap s)) (nextArrays s) s)
  else Some s.

Definition read_id (c : command) (i : nat) (s : adapter) : option Z :=
  a ← heap s !! c_arrays c; mjoin (mIds a !! i).
Definition read_option (c : command) (i : nat) (s : adapter) : option GeofenceOption :=
  a ← heap s !! c_arrays c; mOptions a ≫= (.!! i).
Definition read_info (c : command) (i : nat) (s : adapter) : option GeofenceInfo :=
  a ← heap s !! c_arrays c; mInfos a ≫= (.!! i).

(** The test for null arrays before an item is queued. *)
Definition invalid_parameter (k : kind) (a : arrays) : bool :=
  match k with
  | Add => bool_decide (mOptions a = None) || bool_decide (mInfos a = None)
  | Modify => bool_decide (mOptions a = None)
  | _ => false
  end.

Definition proc_item (c : command) (a : arrays) (s : adapter) (i : nat) : adapter :=
  if invalid_parameter (c_kind c) a then
    default s (write_err c i LOCATION_ERROR_INVALID_PARAMETER s)
  else ask [] (QueueItem c i) s.

(** [MsgAddGeofences::proc] and the other four: [errs] is allocated. *)
Definition proc_geofences (c : command) (s : adapter) : option adapter :=
  a ← heap s !! c_arrays c;
  let a := Arrays (replicate (mCount c) None) (mIds a) (mOptions a) (mInfos a) in
  let s := set_heap (<[c_arrays c := a]> (heap s)) (nextArrays s) s in
  Some (foldl (proc_item c a) s (seq 0 (mCount c))).

(** The request of an item whose hardware id was found. *)
Definition item_request (c : command) (i : nat) (hwId id : Z) (s : adapter) : option request :=
  match c_kind c with
  | Add => o ← read_option c i s; f ← read_info c i s; Some (AddGeofence id o f)
  | Remove => Some (RemoveGeofence hwId id)
  | Pause => Some (PauseGeofence hwId id)
  | Resume => Some (ResumeGeofence hwId id)
  | Modify => o ← read_option c i s; Some (ModifyGeofence hwId id o)
  end.

(** The closure of [addToCallQueue] of the four commands on known geofences. *)
Definition run_known (c : command) (i : nat) (id : Z) (s : adapter) : option adapter :=
  let '(err, hwId) := getHwIdFromClient (mClient c) id 0 s in
  s ← write_err c i err s;
  if decide (err = LOCATION_ERROR_SUCCESS) then
    r ← item_request c i hwId id s;
    Some (ask [ToEngine r] (Answered c i hwId) s)
  else report_last c i s.

Definition run_item (c : command) (i : nat) (s : adapter) : option adapter :=
  id ← read_id c i s;
  if decide (c_kind c = Add) then
    r ← item_request c i 0 id s;
    Some (ask [ToEngine r] (Answered c i 0) s)
  else run_known c i id s.

(** [ENGINE_LOCK_STATE_DISABLED == getEngineLockState() || SUCCESS == err]. *)
Definition done_or_disabled (err : LocationError) (s : adapter) : bool :=
  bool_decide (lock s = ENGINE_LOCK_STATE_DISABLED) || bool_decide (err = LOCATION_ERROR_SUCCESS).

(** The closures of the engine's answers. *)
Definition run_answered (c : command) (i : nat) (hwId : Z) (err : LocationError) (data_hwId : Z)
    (s : adapter) : option adapter :=
  match c_kind c with
  | Add =>
      s ← (if done_or_disabled err s then
             id ← read_id c i s; o ← read_option c i s; f ← read_info c i s;
             Some (saveGeofenceItem (mClient c) id data_hwId o f s)
           else Some s);
      s ← write_err c i err s;
      report_last c i s
  | Remove =>
      let s := if done_or_disabled err s then removeGeofenceItem hwId s else s in
      s ← write_err c i err s;
      report_last c i s
  | Pause =>
      let s := if decide (err = LOCATION_ERROR_SUCCESS) then pauseGeofenceItem hwId s else s in
      s ← write_err c i err s;
      report_last c i s
  | Resume =>
      if decide (err = LOCATION_ERROR_SUCCESS) then
        s ← write_err c i err s;
        report_last c i (resumeGeofenceItem hwId s)
      else Some s
  | Modify =>
      s ← (if done_or_disabled err s then
             s ← write_err c i err s;
             o ← read_option c i s;
             Some (modifyGeofenceItem hwId o s)
           else Some s);
      report_last c i s
  end.

Definition run_response (r : response) (err : LocationError) (hwId : Z) (s : adapter) :
    option adapter :=
  match r with
  | QueueItem c i => run_item c i s
  | Answered c i h => run_answered c i h err hwId s
  | StopAnswered h => Some (stop_answered h err s)
  | RestartAnswered o => Some (restart_answered o err hwId s)
  | PauseAnswered => Some s
  end.

(** ** Reports *)

(** The client ids of the hardware ids that belong to a client. *)
Definition client_ids (client : Z) (hwIds : list Z) (s : adapter) : list Z :=
  omap (λ h, k ← getGeofenceKeyFromHwId h s;
    if decide (key_client k = client) then Some (key_id k) else None) hwIds.

Definition geofenceBreach (hwIds : list Z) (location : Location) (breachType : GeofenceBreachType)
    (timestamp : Z) (s : adapter) : adapter :=
  emit (omap (λ d : Z * LocationCallbacks,
    let clientIds := client_ids d.1 hwIds s in
    if decide (0 < length clientIds) then
      if geofenceBreachCb d.2 then
        Some (GeofenceBreachCb d.1 clientIds location breachType timestamp)
      else None
    else None) (entries Z.le (mClientData s))) s.

Definition geofenceStatus (available : bool) (s : adapter) : adapter :=
  emit (omap (λ d : Z * LocationCallbacks,
    if geofenceStatusCb d.2 then Some (GeofenceStatusCb d.1 available) else None)
    (entries Z.le (mClientData s))) s.

Section adapter.
Context (g : engine_caps).

(** [MsgSSREvent::proc]. *)
Definition proc_ssr (s : adapter) : adapter :=
  let s := setEngineCapabilitiesKnown true s in
  let s := broadcastCapabilities (getCapabilities g (mIsEngineCapabilitiesKnown s)) s in
  if decide (lock s = ENGINE_LOCK_STATE_ENABLED) then
    let s := restartGeofences s in resend (mPendingMsgs s) s
  else s.

Definition proc_request_capabilities (client : Z) (s : adapter) : adapter :=
  if negb (mIsEngineCapabilitiesKnown s) then
    set_queue (queue s) (deleted s) (nextMsg s + 1)
      (set_pending (mPendingMsgs s ++ [(nextMsg s, MsgRequestCapabilities client)])
        (mPendingGnssEnabledMsgs s) s)
  else
    match mClientData s !! client with
    | Some cb =>
        if capabilitiesCb cb then
          emit [CapabilitiesCb client (getCapabilities g (mIsEngineCapabilitiesKnown s))] s
        else s
    | None => s
    end.

Definition proc_msg (m : locmsg) (s : adapter) : option adapter :=
  match m with
  | MsgAddClient client callbacks => Some (saveClient client callbacks s)
  | MsgRemoveClient client rmClientCb =>
      let s := eraseClient client (stopClientSessions client s) in
      Some (if rmClientCb then emit [RemoveClientCb client] s else s)
  | MsgRequestCapabilities client => Some (proc_request_capabilities client s)
  | MsgGeofences c => proc_geofences c s
  | MsgResponse r err hwId => run_response r err hwId s
  | MsgGeofenceBreach hwIds location breachType timestamp =>
      Some (geofenceBreach hwIds location breachType timestamp s)
  | MsgGeofenceStatus available => Some (geofenceStatus available s)
  | MsgSSREvent => Some (proc_ssr s)
  | MsgEngineLockStateEvent state => Some (handleEngineLockStatus state s)
  end.

(** [MTRunnable::run]: a message is taken, run and deleted. *)
Definition thread_run (s : adapter) : option adapter :=
  match queue s with
  | [] => Some s
  | (a, m) :: q =>
      if decide (a ∈ deleted s) then None
      else
        s' ← proc_msg m (set_queue q (deleted s) (nextMsg s) s);
        Some (set_queue (queue s') (a :: deleted s') (nextMsg s') s')
  end.

(** ** Calls from outside *)

(** [COPY_IF_NOT_NULL] reads [count] elements. *)
Definition copy_array {A} (count : nat) (src : list A) : option (list A) :=
  if decide (count ≤ length src) then Some (take count src) else None.

(** The copy of a pointer that may be null. *)
Definition copy_if_not_null {A} (count : nat) (src : option (list A)) : option (option (list A)) :=
  match src with
  | None => Some None
  | Some l => Some <$> copy_array count l
  end.

Definition new_arrays (a : arrays) (s : adapter) : Z * adapter :=
  (nextArrays s, set_heap (<[nextArrays s := a]> (heap s)) (nextArrays s + 1) s).

(** The ids are returned: the address of the array that the command frees. *)
Definition addGeofencesCommand (client : Z) (count : nat) (options : option (list GeofenceOption))
    (infos : option (list GeofenceInfo)) (s : adapter) : option (option Z * adapter) :=
  if decide (count = 0) then Some (None, s)
  else
    let ids := (λ n, Some (drawn (S n) (mSessionIdCounter s))) <$> seq 0 count in
    let s := set_counter (drawn count (mSessionIdCounter s)) s in
    optionsCopy ← copy_if_not_null count options;
    infosCopy ← copy_if_not_null count infos;
    let '(p, s) := new_arrays (Arrays [] ids optionsCopy infosCopy) s in
    Some (Some p, sendMsg (MsgGeofences (Command Add client count p)) s).

(** The other four: the ids are copied, or left unset if the pointer is null. *)
Definition idsCommand (k : kind) (client : Z) (count : nat) (ids : option (list Z))
    (options : option (list GeofenceOption)) (s : adapter) : option adapter :=
  if decide (count = 0) then Some s
  else
    idsCopy ← copy_if_not_null count ids;
    let idsCopy := match idsCopy with Some l => Some <$> l | None => replicate count None end in
    optionsCopy ← copy_if_not_null count options;
    let '(p, s) := new_arrays (Arrays [] idsCopy optionsCopy None) s in
    Some (sendMsg (MsgGeofences (Command k client count p)) s).

Definition removeGeofencesCommand client count ids := idsCommand Remove client count ids None.
Definition pauseGeofencesCommand client count ids := idsCommand Pause client count ids None.
Definition resumeGeofencesCommand client count ids := idsCommand Resume client count ids None.
Definition modifyGeofencesCommand := idsCommand Modify.

Definition geofenceBreachEvent (count : nat) (hwIds : option (list Z)) (location : Location)
    (breachType : GeofenceBreachType) (timestamp : Z) (s : adapter) : option adapter :=
  match hwIds with
  | None => Some s
  | Some l =>
      if decide (count = 0) then Some s
      else
        l ← copy_array count l;
        Some (sendMsg (MsgGeofenceBreach l location breachType timestamp) s)
  end.

(** What happens to the adapter: calls of the clients and of the location
    API, and the turns of its thread.  [ReturnToSender n]: the location API
    answers the [n]-th response object it holds. *)
Inductive event :=
  | AddClient (client : Z) (callbacks : LocationCallbacks)
  | RemoveClient (client : Z) (rmClientCb : bool)
  | RequestCapabilities (client : Z)
  | AddGeofences (client : Z) (count : nat) (options : option (list GeofenceOption))
      (infos : option (list GeofenceInfo))
  | RemoveGeofences (client : Z) (count : nat) (ids : option (list Z))
  | PauseGeofences (client : Z) (count : nat) (ids : option (list Z))
  | ResumeGeofences (client : Z) (count : nat) (ids : option (list Z))
  | ModifyGeofences (client : Z) (count : nat) (ids : option (list Z))
      (options : option (list GeofenceOption))
  | EngineUp
  | EngineLockStatus (state : EngineLockState)
  | BreachEvent (count : nat) (hwIds : option (list Z)) (location : Location)
      (breachType : GeofenceBreachType) (timestamp : Z)
  | StatusEvent (available : bool)
  | ReturnToSender (n : nat) (err : LocationError) (hwId : Z)
  | SetEngineLockState (state : EngineLockState)
  | OtherSession
  | ThreadRun.

Definition step (e : event) (s : adapter) : option adapter :=
  match e with
  | AddClient client callbacks => Some (sendMsg (MsgAddClient client callbacks) s)
  | RemoveClient client rmClientCb => Some (sendMsg (MsgRemoveClient client rmClientCb) s)
  | RequestCapabilities client => Some (sendMsg (MsgRequestCapabilities client) s)
  | AddGeofences client count options infos => snd <$> addGeofencesCommand client count options infos s
  | RemoveGeofences client count ids => removeGeofencesCommand client count ids s
  | PauseGeofences client count ids => pauseGeofencesCommand client count ids s
  | ResumeGeofences client count ids => resumeGeofencesCommand client count ids s
  | ModifyGeofences client count ids options => modifyGeofencesCommand client count ids options s
  | EngineUp => Some (sendMsg MsgSSREvent s)
  | EngineLockStatus state => Some (sendMsg (MsgEngineLockStateEvent state) s)
  | BreachEvent count hwIds location breachType timestamp =>
      geofenceBreachEvent count hwIds location breachType timestamp s
  | StatusEvent available => Some (sendMsg (MsgGeofenceStatus available) s)
  | ReturnToSender n err hwId =>
      match calls s !! n with
      | Some r => Some (sendMsg (MsgResponse r err hwId) (set_calls (delete n (calls s)) s))
      | None => Some s
      end
  | SetEngineLockState state => Some (setEngineLockState state s)
  | OtherSession => Some (set_counter (generateSessionId (mSessionIdCounter s)) s)
  | ThreadRun => thread_run s
  end.

Definition steps (l : list event) (s : adapter) : option adapter :=
  foldl (λ s e, s ≫= step e) (Some s) l.
End adapter.
