(* ===== verification/GeofenceInv.v ===== *)
(** * Geofence adapter: the two maps agree

    The invariant of [Geofence]: what is stored under hardware ids, what is
    found by client keys, and what is still to be answered fit together.  It is
    stated on the maps, the heap and the list of what is pending, so that the
    operations of the adapter are steps of few kinds on them. *)
From stdpp Require Import sorting.
From S2P Require Import Prelude OrderedMap Doubles LocAdapter Geofence.

(** ** What is pending *)
Inductive thing :=
  | TResp (r : response)
  | TCmd (c : command)
  | TRemove (client : Z).

Definition msg_things (m : locmsg) : list thing :=
  match m with
  | MsgGeofences c => [TCmd c]
  | MsgResponse r _ _ => [TResp r]
  | MsgRemoveClient client _ => [TRemove client]
  | _ => []
  end.

Definition things (s : adapter) : list thing :=
  (TResp <$> calls s) ++ ((queue s).*2 ≫= msg_things).

(** The key of the geofence that a pending response would store. *)
Definition pend_key (h : gmap Z arrays) (r : response) : option GeofenceKey :=
  match r with
  | QueueItem c i | Answered c i _ =>
      if decide (c_kind c = Add) then
        a ← h !! c_arrays c; id ← mjoin (mIds a !! i); Some (MkGeofenceKey (mClient c) id)
      else None
  | RestartAnswered o => Some (key o)
  | StopAnswered _ | PauseAnswered => None
  end.

Definition thing_keys (h : gmap Z arrays) (t : thing) : list GeofenceKey :=
  match t with
  | TResp r => option_list (pend_key h r)
  | TCmd c => seq 0 (mCount c) ≫= λ i, option_list (pend_key h (QueueItem c i))
  | TRemove _ => []
  end.

Definition thing_command (t : thing) : option command :=
  match t with
  | TResp (QueueItem c _) | TResp (Answered c _ _) | TCmd c => Some c
  | _ => None
  end.

Definition stored (f : gmap Z GeofenceObject) : list GeofenceKey := (map_to_list (key <$> f)).*2.

Definition live (f : gmap Z GeofenceObject) (h : gmap Z arrays) (ts : list thing) :
    list GeofenceKey := stored f ++ (ts ≫= thing_keys h).

Definition was_removed (tr : list event) (client : Z) : Prop := ∃ b, RemoveClient client b ∈ tr.

(** ** The invariant *)
Record inv (tr : list event) (f : gmap Z GeofenceObject) (k : gmap GeofenceKey Z)
    (ts : list thing) (h : gmap Z arrays) (n cnt : Z) : Prop := Inv {
  inv_back : ∀ kk hw, k !! kk = Some hw → ∃ o, f !! hw = Some o ∧ key o = kk;
  inv_forth : ∀ hw o, f !! hw = Some o →
    k !! key o = Some hw ∨ was_removed tr (key_client (key o));
  inv_nodup : NoDup (live f h ts);
  inv_range : ∀ kk, kk ∈ live f h ts → (1 < key_id kk ≤ cnt)%Z;
  inv_stop : ∀ hw, TResp (StopAnswered hw) ∈ ts → ∀ kk, k !! kk ≠ Some hw;
  inv_addr : ∀ t c, t ∈ ts → thing_command t = Some c → (c_arrays c < n)%Z;
  inv_removed : ∀ client, TRemove client ∈ ts → was_removed tr client
}.

(** ** Keys of what is pending *)
Lemma pend_key_ids h h' r : (∀ p, mIds <$> h !! p = mIds <$> h' !! p) →
  pend_key h r = pend_key h' r.
Proof.
  intros E. destruct r as [c i|c i w|w|o|]; try done; simpl; case_decide; try done;
    pose proof (E (c_arrays c)) as Ec;
    destruct (h !! c_arrays c), (h' !! c_arrays c); simplify_eq/=; by rewrite ?Ec.
Qed.

Lemma bind_ext_in {A B} (f f' : A → list B) (l : list A) :
  (∀ x, x ∈ l → f x = f' x) → l ≫= f = l ≫= f'.
Proof.
  induction l as [|x l IH]; intros E; [done|]. csimpl. rewrite (E x) by constructor.
  rewrite IH; [done|]. intros y Hy. apply E. by constructor.
Qed.

Lemma thing_keys_ids h h' t : (∀ p, mIds <$> h !! p = mIds <$> h' !! p) →
  thing_keys h t = thing_keys h' t.
Proof.
  intros E. destruct t as [r|c|cl]; [|by apply bind_ext_in; intros; f_equal; apply pend_key_ids|done].
  unfold thing_keys. by rewrite (pend_key_ids h h').
Qed.

Lemma thing_keys_new h p a t :
  (∀ c, thing_command t = Some c → c_arrays c ≠ p) →
  thing_keys (<[p := a]> h) t = thing_keys h t.
Proof.
  intros Hc.
  destruct t as [[c i|c i w|w|o|]|c|cl]; try done;
    specialize (Hc c eq_refl); unfold thing_keys; simpl;
    try (apply bind_ext_in; intros j _; simpl); by rewrite lookup_insert_ne by congruence.
Qed.

Lemma pend_key_free h p r :
  pend_key (delete p h) r = None ∨ pend_key (delete p h) r = pend_key h r.
Proof.
  destruct r as [c i|c i w|w|o|]; simpl; auto; case_decide; auto;
    destruct (decide (c_arrays c = p)) as [->|];
    rewrite ?lookup_delete_eq, ?lookup_delete_ne by congruence; auto.
Qed.

Lemma bind_sublist {A B} (f f' : A → list B) (l : list A) :
  (∀ x, f x `sublist_of` f' x) → l ≫= f `sublist_of` l ≫= f'.
Proof. intros Hf. induction l as [|x l IH]; [done|]. csimpl. by apply sublist_app. Qed.

Lemma thing_keys_free h p t : thing_keys (delete p h) t `sublist_of` thing_keys h t.
Proof.
  assert (∀ r, option_list (pend_key (delete p h) r) `sublist_of` option_list (pend_key h r)) as Hr.
  { intros r. destruct (pend_key_free h p r) as [->| ->]; [apply sublist_nil_l|done]. }
  destruct t as [r|c|cl]; [apply Hr|by apply bind_sublist|done].
Qed.

(** ** Stored keys *)
Lemma elem_of_stored f kk : kk ∈ stored f ↔ ∃ hw o, f !! hw = Some o ∧ key o = kk.
Proof.
  unfold stored. rewrite list_elem_of_fmap. split.
  - intros ([hw k'] & -> & Hin). apply elem_of_map_to_list in Hin.
    rewrite lookup_fmap in Hin. apply fmap_Some in Hin as (o & Ho & ->). by exists hw, o.
  - intros (hw & o & Ho & <-). exists (hw, key o). split; [done|].
    apply elem_of_map_to_list. by rewrite lookup_fmap, Ho.
Qed.

Lemma stored_insert f hw o : f !! hw = None → stored (<[hw := o]> f) ≡ₚ key o :: stored f.
Proof.
  intros Hn. unfold stored. rewrite fmap_insert, map_to_list_insert; [done|].
  by rewrite lookup_fmap, Hn.
Qed.

Lemma stored_alter f hw o o' : f !! hw = Some o → key o' = key o →
  stored (<[hw := o']> f) = stored f.
Proof.
  intros Ho Ek. unfold stored. rewrite fmap_insert, insert_id; [done|].
  by rewrite lookup_fmap, Ho, Ek.
Qed.

Lemma stored_delete f hw o : f !! hw = Some o → stored f ≡ₚ key o :: stored (delete hw f).
Proof.
  intros Ho. rewrite <- (insert_delete_id f hw o Ho) at 1.
  apply stored_insert, lookup_delete_eq.
Qed.

Lemma stored_inj f hw hw' o o' : NoDup (stored f) →
  f !! hw = Some o → f !! hw' = Some o' → key o = key o' → hw = hw'.
Proof.
  intros Hnd Ho Ho' E. destruct (decide (hw = hw')) as [|Hne]; [done|exfalso].
  rewrite (stored_delete f hw o Ho) in Hnd. apply NoDup_cons in Hnd as [Hin _].
  apply Hin, elem_of_stored. exists hw', o'. by rewrite lookup_delete_ne by congruence.
Qed.

(** ** Steps of the invariant *)
Lemma submseteq_NoDup {A} (l l' : list A) : l' ⊆+ l → NoDup l → NoDup l'.
Proof.
  intros [k E]%submseteq_Permutation. rewrite E. by intros [? _]%NoDup_app.
Qed.

Section steps.
Context {tr : list event} {f : gmap Z GeofenceObject} {k : gmap GeofenceKey Z}.
Context {ts : list thing} {h : gmap Z arrays} {n cnt : Z}.

(** A step that brings no new key. *)
Lemma inv_from f' k' ts' h' n' cnt' : inv tr f k ts h n cnt →
  live f' h' ts' ⊆+ live f h ts → (cnt ≤ cnt')%Z →
  (∀ kk hw, k' !! kk = Some hw → ∃ o, f' !! hw = Some o ∧ key o = kk) →
  (∀ hw o, f' !! hw = Some o → k' !! key o = Some hw ∨ was_removed tr (key_client (key o))) →
  (∀ hw, TResp (StopAnswered hw) ∈ ts' → ∀ kk, k' !! kk ≠ Some hw) →
  (∀ t c, t ∈ ts' → thing_command t = Some c → (c_arrays c < n')%Z) →
  (∀ client, TRemove client ∈ ts' → was_removed tr client) →
  inv tr f' k' ts' h' n' cnt'.
Proof.
  intros I Hl Hc Hb Hf Hs Ha Hr. split; try done.
  - eapply submseteq_NoDup; [done|apply I].
  - intros kk Hk. pose proof (inv_range _ _ _ _ _ _ _ I kk (elem_of_submseteq _ _ _ Hk Hl)). lia.
Qed.

(** Only what is pending changes, to part of what it was or to things that
    hold the same keys. *)
Lemma inv_things ts' : inv tr f k ts h n cnt →
  ts' ≫= thing_keys h ⊆+ ts ≫= thing_keys h →
  (∀ hw, TResp (StopAnswered hw) ∈ ts' → TResp (StopAnswered hw) ∈ ts) →
  (∀ t c, t ∈ ts' → thing_command t = Some c →
    ∃ t', t' ∈ ts ∧ thing_command t' = Some c) →
  (∀ client, TRemove client ∈ ts' → TRemove client ∈ ts) →
  inv tr f k ts' h n cnt.
Proof.
  intros I Hl Hs Ha Hr. apply (inv_from _ _ _ _ _ _ I); try done.
  - by apply submseteq_skips_l.
  - apply I.
  - apply I.
  - intros hw Hin. by apply (inv_stop _ _ _ _ _ _ _ I), Hs.
  - intros t c Ht Hc. destruct (Ha t c Ht Hc) as (t' & Ht' & Hc').
    by apply (inv_addr _ _ _ _ _ _ _ I t').
  - intros client Hin. by apply (inv_removed _ _ _ _ _ _ _ I), Hr.
Qed.

Lemma inv_sub ts' : inv tr f k ts h n cnt → ts' ⊆+ ts → inv tr f k ts' h n cnt.
Proof.
  intros I Hs. apply (inv_things _ I).
  - by apply bind_submseteq.
  - intros hw Hin. by eapply elem_of_submseteq.
  - intros t c Ht Hc. exists t. split; [by eapply elem_of_submseteq|done].
  - intros cl Hin. by eapply elem_of_submseteq.
Qed.

Lemma inv_trace tr' : inv tr f k ts h n cnt → (∀ e, e ∈ tr → e ∈ tr') →
  inv tr' f k ts h n cnt.
Proof.
  intros I Hin. assert (∀ c, was_removed tr c → was_removed tr' c) as Hw.
  { intros c [b Hb]. exists b. auto. }
  split; try apply I.
  - intros hw o Ho. destruct (inv_forth _ _ _ _ _ _ _ I hw o Ho); auto.
  - intros cl Hc. apply Hw, (inv_removed _ _ _ _ _ _ _ I), Hc.
Qed.

(** A thing without keys, arrays or duties. *)
Lemma inv_idle t : inv tr f k ts h n cnt →
  thing_keys h t = [] → (∀ hw, t ≠ TResp (StopAnswered hw)) →
  thing_command t = None → (∀ c, t ≠ TRemove c) →
  inv tr f k (t :: ts) h n cnt.
Proof.
  intros I Hk Hs Hc Hr. apply (inv_things _ I).
  - csimpl. by rewrite Hk.
  - intros hw Hin. apply elem_of_cons in Hin as [E|Hin]; [by destruct (Hs hw)|done].
  - intros t' c Hin Ec. apply elem_of_cons in Hin as [->|Hin]; [congruence|eauto].
  - intros c Hin. apply elem_of_cons in Hin as [E|Hin]; [by destruct (Hr c)|done].
Qed.

End steps.

Section operations.
Context {tr : list event} {f : gmap Z GeofenceObject} {k : gmap GeofenceKey Z}.
Context {ts : list thing} {h : gmap Z arrays} {n cnt : Z}.

(** The things that stand for the same geofences of a command. *)
Lemma inv_command t ts' : inv tr f k (t :: ts) h n cnt →
  ts' ≫= thing_keys h ⊆+ thing_keys h t →
  (∀ t', t' ∈ ts' → thing_command t' = thing_command t) →
  is_Some (thing_command t) →
  inv tr f k (ts' ++ ts) h n cnt.
Proof.
  intros I Hk Hc [c Ec].
  assert (∀ t', t' ∈ ts' → thing_command t' = Some c) as Hc'.
  { intros t' Ht'. by rewrite (Hc t' Ht'). }
  apply (inv_things _ I).
  - rewrite bind_app. csimpl. by apply submseteq_skips_r.
  - intros hw [Hin|Hin]%elem_of_app; [by apply Hc' in Hin|by right].
  - intros t' c' [Hin|Hin]%elem_of_app E.
    + exists t. split; [constructor|]. by rewrite <- E, (Hc t').
    + exists t'. split; [by constructor|done].
  - intros cl [Hin|Hin]%elem_of_app; [by apply Hc' in Hin|by right].
Qed.

(** ** The heap *)
Lemma inv_heap h' : inv tr f k ts h n cnt →
  (∀ p, mIds <$> h' !! p = mIds <$> h !! p) → inv tr f k ts h' n cnt.
Proof.
  intros I E. assert (ts ≫= thing_keys h' = ts ≫= thing_keys h) as El.
  { apply bind_ext_in. intros t _. by apply thing_keys_ids. }
  split; try apply I; intros; unfold live in *; rewrite El in *; by eapply I.
Qed.

Lemma inv_write p a a' : inv tr f k ts h n cnt → h !! p = Some a → mIds a' = mIds a →
  inv tr f k ts (<[p := a']> h) n cnt.
Proof.
  intros I Ha E. apply inv_heap; [done|]. intros q. destruct (decide (p = q)) as [->|].
  - rewrite lookup_insert_eq, Ha. simpl. by rewrite E.
  - by rewrite lookup_insert_ne.
Qed.

Lemma inv_free p : inv tr f k ts h n cnt → inv tr f k ts (delete p h) n cnt.
Proof.
  intros I. apply (inv_from _ _ _ _ _ _ I); try apply I; [|done].
  apply submseteq_skips_l, sublist_submseteq, bind_sublist. intros t. apply thing_keys_free.
Qed.

(** A new command with its arrays; only a command that adds brings keys, and
    they are above the counter. *)
Lemma inv_new c a cnt' : inv tr f k ts h n cnt → c_arrays c = n → (cnt ≤ cnt')%Z →
  NoDup (thing_keys (<[n := a]> h) (TCmd c)) →
  (∀ kk, kk ∈ thing_keys (<[n := a]> h) (TCmd c) → (1 < key_id kk ≤ cnt' ∧ cnt < key_id kk)%Z) →
  inv tr f k (TCmd c :: ts) (<[n := a]> h) (n + 1) cnt'.
Proof.
  intros I Hn Hc Hnd Hr.
  assert (ts ≫= thing_keys (<[n := a]> h) = ts ≫= thing_keys h) as El.
  { apply bind_ext_in. intros t Ht. apply thing_keys_new. intros c' Hc'.
    pose proof (inv_addr _ _ _ _ _ _ _ I t c' Ht Hc'). lia. }
  assert (live f (<[n := a]> h) (TCmd c :: ts) ≡ₚ thing_keys (<[n := a]> h) (TCmd c) ++ live f h ts) as Hp.
  { unfold live. change ((TCmd c :: ts) ≫= thing_keys (<[n:=a]> h))
      with (thing_keys (<[n:=a]> h) (TCmd c) ++ (ts ≫= thing_keys (<[n:=a]> h))).
    rewrite El. solve_Permutation. }
  split; try apply I.
  - rewrite Hp. apply NoDup_app. split; [done|]. split; [|apply I]. intros kk Hk Hl.
    pose proof (Hr kk Hk). pose proof (inv_range _ _ _ _ _ _ _ I kk Hl). lia.
  - intros kk. rewrite Hp. intros [Hk|Hl]%elem_of_app; [by apply Hr in Hk as [? ?]|].
    pose proof (inv_range _ _ _ _ _ _ _ I kk Hl). lia.
  - intros hw [|Hin]%elem_of_cons; [done|]. by apply I.
  - intros t c' [->|Hin]%elem_of_cons E; [simplify_eq/=; lia|].
    pose proof (inv_addr _ _ _ _ _ _ _ I t c' Hin E). lia.
  - intros cl [|Hin]%elem_of_cons; [done|]. by apply I.
Qed.

Lemma inv_counter cnt' : inv tr f k ts h n cnt → (cnt ≤ cnt')%Z → inv tr f k ts h n cnt'.
Proof. intros I Hc. by apply (inv_from _ _ _ _ _ _ I); try apply I. Qed.

(** ** The maps *)
Lemma inv_save r hw o : inv tr f k (TResp r :: ts) h n cnt →
  pend_key h r = Some (key o) → f !! hw = None → TResp (StopAnswered hw) ∉ ts →
  inv tr (<[hw := o]> f) (<[key o := hw]> k) ts h n cnt.
Proof.
  intros I Hk Hf Hs. pose proof (inv_nodup _ _ _ _ _ _ _ I) as Hnd. unfold live in Hnd.
  assert (live (<[hw := o]> f) h ts ≡ₚ live f h (TResp r :: ts)) as Hp.
  { unfold live. rewrite stored_insert by done. csimpl. rewrite Hk. simpl. solve_Permutation. }
  assert (key o ∉ stored f) as Hn.
  { intros Hin. apply NoDup_app in Hnd as (_ & Hd & _). apply (Hd _ Hin). csimpl.
    rewrite Hk. constructor. }
  apply (inv_from _ _ _ _ _ _ I); [by rewrite Hp|done|..].
  - intros kk hw'. destruct (decide (kk = key o)) as [->|Hne].
    + rewrite lookup_insert_eq. intros [= <-]. exists o. by rewrite lookup_insert_eq.
    + rewrite lookup_insert_ne by congruence. intros Hkk.
      destruct (inv_back _ _ _ _ _ _ _ I kk hw' Hkk) as (o' & Ho' & <-). exists o'.
      by rewrite lookup_insert_ne by congruence.
  - intros hw' o'. destruct (decide (hw = hw')) as [->|].
    + rewrite lookup_insert_eq. intros [= <-]. left. apply lookup_insert_eq.
    + rewrite lookup_insert_ne by done. intros Ho'.
      rewrite lookup_insert_ne by (intros E; apply Hn, elem_of_stored; eauto). by apply I.
  - intros hw' Hin kk. destruct (decide (kk = key o)) as [->|].
    + rewrite lookup_insert_eq. intros [= ->]. done.
    + rewrite lookup_insert_ne by done. apply (inv_stop _ _ _ _ _ _ _ I). by constructor.
  - intros t c Hin. apply I. by constructor.
  - intros cl Hin. apply I. by constructor.
Qed.

Lemma inv_delete hw o : inv tr f k ts h n cnt → f !! hw = Some o →
  inv tr (delete hw f) (delete (key o) k) ts h n cnt.
Proof.
  intros I Ho. pose proof (submseteq_NoDup _ (stored f) (submseteq_inserts_r _ _ _ (reflexivity _)) (inv_nodup _ _ _ _ _ _ _ I)) as Hnd.
  apply (inv_from _ _ _ _ _ _ I); [|done|..|apply I|apply I].
  - unfold live. rewrite (stored_delete f hw o Ho). by apply (submseteq_inserts_l [key o]).
  - intros kk hw' [Hne Hk]%lookup_delete_Some.
    destruct (inv_back _ _ _ _ _ _ _ I kk hw' Hk) as (o' & Ho' & <-). exists o'.
    rewrite lookup_delete_ne; [done|]. intros ->. congruence.
  - intros hw' o' [Hne Ho']%lookup_delete_Some.
    rewrite lookup_delete_ne; [by apply I|].
    intros E. apply Hne. by eapply stored_inj.
  - intros hw' Hin kk [_ Hk]%lookup_delete_Some. by apply (inv_stop _ _ _ _ _ _ _ I hw' Hin kk).
Qed.

Lemma inv_alter hw o o' : inv tr f k ts h n cnt → f !! hw = Some o → key o' = key o →
  inv tr (<[hw := o']> f) k ts h n cnt.
Proof.
  intros I Ho E. apply (inv_from _ _ _ _ _ _ I); [|done|..]; try apply I.
  - unfold live. by rewrite (stored_alter f hw o o').
  - intros kk hw' Hk. destruct (inv_back _ _ _ _ _ _ _ I kk hw' Hk) as (o1 & Ho1 & <-).
    destruct (decide (hw = hw')) as [->|].
    + exists o'. rewrite lookup_insert_eq. split; [done|]. rewrite E. f_equal.
      rewrite Ho in Ho1. by injection Ho1.
    + exists o1. by rewrite lookup_insert_ne.
  - intros hw' o1. destruct (decide (hw = hw')) as [->|].
    + rewrite lookup_insert_eq. intros [= <-]. rewrite E. by apply I.
    + rewrite lookup_insert_ne by done. apply I.
Qed.

Lemma inv_stop_item kk hw : inv tr f k ts h n cnt → k !! kk = Some hw →
  was_removed tr (key_client kk) →
  inv tr f (delete kk k) (TResp (StopAnswered hw) :: ts) h n cnt.
Proof.
  intros I Hk Hw. apply (inv_from _ _ _ _ _ _ I); try done.
  - intros k1 hw' [_ Hk1]%lookup_delete_Some. by apply I.
  - intros hw' o Ho. destruct (decide (kk = key o)) as [->|]; [by right|].
    rewrite lookup_delete_ne by done. by apply I.
  - intros hw' Hin k1 [Hne Hk1]%lookup_delete_Some.
    apply elem_of_cons in Hin as [[= ->]|Hin];
      [|by apply (inv_stop _ _ _ _ _ _ _ I hw' Hin k1)].
    destruct (inv_back _ _ _ _ _ _ _ I _ _ Hk) as (o & Ho & <-).
    destruct (inv_back _ _ _ _ _ _ _ I _ _ Hk1) as (o' & Ho' & <-). congruence.
  - intros t c [->|Hin]%elem_of_cons; [done|by apply I].
  - intros cl [|Hin]%elem_of_cons; [done|by apply I].
Qed.

Lemma inv_stop_answered hw : inv tr f k (TResp (StopAnswered hw) :: ts) h n cnt →
  inv tr (delete hw f) k ts h n cnt.
Proof.
  intros I. apply (inv_from _ _ _ _ _ _ I); [|done|..].
  - unfold live. csimpl. apply submseteq_skips_r. destruct (f !! hw) as [o|] eqn:Ho.
    + rewrite (stored_delete f hw o Ho). by apply (submseteq_inserts_l [key o]).
    + by rewrite delete_id.
  - intros kk hw' Hk. destruct (inv_back _ _ _ _ _ _ _ I kk hw' Hk) as (o & Ho & <-).
    exists o. split; [|done]. rewrite lookup_delete_ne; [done|]. intros ->.
    by apply (inv_stop _ _ _ _ _ _ _ I hw' (list_elem_of_here _ _) (key o)).
  - intros hw' o [_ Ho]%lookup_delete_Some. by apply I.
  - intros hw' Hin. apply (inv_stop _ _ _ _ _ _ _ I). by constructor.
  - intros t c Hin. apply I. by constructor.
  - intros cl Hin. apply I. by constructor.
Qed.

Lemma inv_restart l : inv tr f k ts h n cnt → l ≡ₚ (map_to_list f).*2 →
  inv tr ∅ ∅ ((TResp ∘ RestartAnswered <$> l) ++ ts) h n cnt.
Proof.
  intros I Hl. apply (inv_from _ _ _ _ _ _ I); try done.
  - unfold live, stored. rewrite fmap_empty, map_to_list_empty, bind_app. simpl.
    apply submseteq_skips_r.
    assert (snd <$> map_to_list (key <$> f) ≡ₚ key <$> l) as ->.
    { rewrite map_to_list_fmap, Hl, <- !list_fmap_compose. by apply reflexive_eq, list_fmap_ext. }
    clear.
    induction l as [|o l IH]; [done|]. csimpl. by apply submseteq_skip.
  - intros t c [Hin|Hin]%elem_of_app; [|by apply I].
    apply list_elem_of_fmap in Hin as (? & -> & _). done.
  - intros cl [Hin|Hin]%elem_of_app; [|by apply I].
    by apply list_elem_of_fmap in Hin as (? & ? & _).
Qed.
End operations.
