(* ===== verification/GeofenceProps.v ===== *)
(** * Geofence adapter: what its runs guarantee

    The maps of the adapter agree in every run against an engine that does not
    hand out a hardware id that is still in use. *)
From stdpp Require Import sorting.
From S2P Require Import Prelude OrderedMap Doubles LocAdapter Geofence GeofenceInv.

(** ** The invariant of a state

    [t]: the things the thread has taken from the queue and not yet dealt
    with. *)
Definition agrees (tr : list event) (t : list thing) (s : adapter) : Prop :=
  inv tr (mGeofences s) (mGeofenceIds s) (t ++ things s) (heap s) (nextArrays s)
    (mSessionIdCounter s).

(** Pending messages hold no duty but the request for the capabilities. *)
Definition pending_idle (s : adapter) : Prop :=
  Forall (λ m, ∃ c, m.2 = MsgRequestCapabilities c) (mPendingMsgs s) ∧
  mPendingGnssEnabledMsgs s = [].

Record well (tr : list event) (s : adapter) : Prop := Well {
  well_agrees : agrees tr [] s;
  well_pending : pending_idle s;
  well_counter : counter_ok (mSessionIdCounter s)
}.

(** ** What the engine and the session numbers have to keep to *)

(** A response that stores its geofence. *)
Definition stores (r : response) (err : LocationError) (s : adapter) : bool :=
  match r with
  | Answered c _ _ => bool_decide (c_kind c = Add) && done_or_disabled err s
  | RestartAnswered _ => bool_decide (err = LOCATION_ERROR_SUCCESS)
  | _ => false
  end.

(** The hardware id names no stored geofence and none that is being removed. *)
Definition fresh (hwId : Z) (s : adapter) : Prop :=
  mGeofences s !! hwId = None ∧ TResp (StopAnswered hwId) ∉ things s.

Definition honest (e : event) (s : adapter) : Prop :=
  match e with
  | AddGeofences _ count _ _ => (mSessionIdCounter s + Z.of_nat count < 0xFFFFFFFF)%Z
  | OtherSession => (mSessionIdCounter s + 1 < 0xFFFFFFFF)%Z
  | ThreadRun =>
      match queue s with
      | (_, MsgResponse r err hwId) :: _ => stores r err s = true → fresh hwId s
      | _ => True
      end
  | _ => True
  end.

Inductive reach (g : engine_caps) : list event → adapter → Prop :=
  | reach_init known : reach g [] (init_adapter known)
  | reach_step tr e s s' :
      reach g tr s → honest e s → step g e s = Some s' → reach g (tr ++ [e]) s'.

(** ** Operations keep the invariant *)
Section operations.
Context {tr : list event} {t : list thing}.

Lemma agrees_ask o r s : agrees tr (TResp r :: t) s → agrees tr t (ask o r s).
Proof.
  intros I. refine (inv_sub _ I _). unfold things, ask, set_calls, emit. simpl.
  rewrite fmap_app. csimpl. apply Permutation_submseteq. solve_Permutation.
Qed.

Lemma agrees_drop x s : agrees tr (x :: t) s → agrees tr t s.
Proof. intros I. refine (inv_sub _ I _). by apply submseteq_cons. Qed.

End operations.

Section operations_of_commands.
Context {tr : list event} {t : list thing}.

Lemma agrees_asks (rs : list response) (op : adapter → response → adapter) s :
  (∀ s r, ∃ o, op s r = ask o r s) →
  agrees tr ((TResp <$> rs) ++ t) s → agrees tr t (foldl op s rs).
Proof.
  intros Hop. revert s. induction rs as [|r rs IH]; intros s I; [done|]. simpl.
  apply IH. destruct (Hop s r) as [o ->]. by apply agrees_ask.
Qed.

Lemma agrees_write c i e s s' : agrees tr t s → write_err c i e s = Some s' → agrees tr t s'.
Proof.
  unfold write_err. intros I [a [Ha [= <-]]]%bind_Some. by apply (inv_write (c_arrays c) a).
Qed.

Lemma agrees_report c i s s' : agrees tr t s → report_last c i s = Some s' → agrees tr t s'.
Proof.
  unfold report_last. intros I. case_decide; [|by intros [= <-]].
  intros [a [Ha [= <-]]]%bind_Some. unfold reportResponse.
  destruct (mClientData s !! mClient c) as [cb|]; [|by apply inv_free].
  by destruct (collectiveResponseCb cb); apply inv_free.
Qed.

Lemma agrees_save r client clientId hw options info s : agrees tr (TResp r :: t) s →
  pend_key (heap s) r = Some (MkGeofenceKey client clientId) →
  mGeofences s !! hw = None → TResp (StopAnswered hw) ∉ t ++ things s →
  agrees tr t (saveGeofenceItem client clientId hw options info s).
Proof.
  intros I Hk Hf Hs. exact (inv_save r hw (MkGeofenceObject _ _ _ _ _ _ _ _) I Hk Hf Hs).
Qed.

Lemma agrees_remove hw s : agrees tr t s → agrees tr t (removeGeofenceItem hw s).
Proof.
  intros I. unfold removeGeofenceItem, getGeofenceKeyFromHwId.
  destruct (mGeofences s !! hw) as [o|] eqn:Ho; simpl; [|done].
  destruct (mGeofenceIds s !! key o); [|done]. by apply inv_delete.
Qed.

Lemma agrees_alter f hw s : (∀ o, key (f o) = key o) → agrees tr t s →
  agrees tr t (alter_item f hw s).
Proof.
  intros Hf I. unfold alter_item. destruct (mGeofences s !! hw) as [o|] eqn:Ho; [|done].
  by apply (inv_alter hw o).
Qed.

Lemma agrees_stop_answered hw err s : agrees tr (TResp (StopAnswered hw) :: t) s →
  agrees tr t (stop_answered hw err s).
Proof.
  intros I. unfold stop_answered. case_decide; [|by eapply agrees_drop]. by apply inv_stop_answered.
Qed.

(** A command's item was queued, or asked. *)
Lemma agrees_swap r r' c s : thing_command (TResp r) = Some c → thing_command (TResp r') = Some c →
  pend_key (heap s) r' = pend_key (heap s) r ∨ pend_key (heap s) r' = None →
  agrees tr (TResp r :: t) s → agrees tr (TResp r' :: t) s.
Proof.
  intros Hc Hc' Hk I. apply (inv_command (TResp r) [TResp r']); [done|..].
  - csimpl. rewrite app_nil_r. destruct Hk as [->| ->]; [done|]. apply submseteq_nil_l.
  - intros t' ->%list_elem_of_singleton. by rewrite Hc.
  - by rewrite Hc.
Qed.
End operations_of_commands.

(** ** Items *)
Lemma write_err_ids c i e s s' p : write_err c i e s = Some s' →
  mIds <$> heap s' !! p = mIds <$> heap s !! p.
Proof.
  unfold write_err. intros [a [Ha [= <-]]]%bind_Some. simpl.
  destruct (decide (c_arrays c = p)) as [<-|].
  - by rewrite lookup_insert_eq, Ha.
  - by rewrite lookup_insert_ne.
Qed.

Lemma run_known_agrees tr t c i id s s' : c_kind c ≠ Add →
  agrees tr (TResp (QueueItem c i) :: t) s → run_known c i id s = Some s' → agrees tr t s'.
Proof.
  intros Hk I. unfold run_known. destruct (getHwIdFromClient _ _ _ _) as [err hw].
  intros [s1 [Hw Hr]]%bind_Some. pose proof (agrees_write _ _ _ _ _ I Hw) as I1.
  case_decide.
  - apply bind_Some in Hr as (r & _ & [= <-]). apply agrees_ask.
    eapply agrees_swap; [| | |exact I1]; [done|done|]. right. simpl. by rewrite decide_False.
  - eapply agrees_report; [|done]. by eapply agrees_drop.
Qed.

Lemma run_item_agrees tr t c i s s' : agrees tr (TResp (QueueItem c i) :: t) s →
  run_item c i s = Some s' → agrees tr t s'.
Proof.
  intros I. unfold run_item. intros [id [_ Hr]]%bind_Some. case_decide.
  - apply bind_Some in Hr as (r & _ & [= <-]). apply agrees_ask.
    eapply agrees_swap; [| | |exact I]; [done|done|]. by left.
  - by eapply run_known_agrees.
Qed.

Lemma read_id_key c i h s id : c_kind c = Add → read_id c i s = Some id →
  pend_key (heap s) (Answered c i h) = Some (MkGeofenceKey (mClient c) id).
Proof.
  intros Ek. unfold read_id. intros [a [Ha Hid]]%bind_Some. simpl.
  rewrite decide_True by done. rewrite Ha. simpl. by rewrite Hid.
Qed.

Lemma run_answered_agrees tr t c i hw err data s s' :
  agrees tr (TResp (Answered c i hw) :: t) s →
  (stores (Answered c i hw) err s = true →
    mGeofences s !! data = None ∧ TResp (StopAnswered data) ∉ t ++ things s) →
  run_answered c i hw err data s = Some s' → agrees tr t s'.
Proof.
  intros I Hf. pose proof (agrees_drop _ _ I) as Id. unfold run_answered, stores in *.
  destruct (c_kind c) eqn:Ek.
  - intros (s1 & Hs1 & (s2 & Hw & Hr)%bind_Some)%bind_Some.
    eapply agrees_report; [|done]. eapply agrees_write; [|done].
    destruct (done_or_disabled err s) eqn:Ed; [|by simplify_eq].
    apply bind_Some in Hs1 as (id & Hid & (o & _ & (f & _ & [= <-])%bind_Some)%bind_Some).
    destruct Hf as [Hn Hs]; [by rewrite bool_decide_true|].
    eapply agrees_save; [exact I| |done|done]. by apply read_id_key.
  - intros (s2 & Hw & Hr)%bind_Some. eapply agrees_report; [|done]. eapply agrees_write; [|done].
    destruct (done_or_disabled err s); [by apply agrees_remove|done].
  - intros (s2 & Hw & Hr)%bind_Some. eapply agrees_report; [|done]. eapply agrees_write; [|done].
    case_decide; [by apply agrees_alter|done].
  - destruct (decide (err = LOCATION_ERROR_SUCCESS)); [|intros [= <-]; done]. intros (s2 & Hw & Hr)%bind_Some.
    eapply agrees_report; [|done]. apply agrees_alter; [done|]. by eapply agrees_write.
  - intros (s1 & Hs1 & Hr)%bind_Some. eapply agrees_report; [|done].
    destruct (done_or_disabled err s); [|by simplify_eq].
    apply bind_Some in Hs1 as (s2 & Hw & (o & _ & [= <-])%bind_Some).
    apply agrees_alter; [done|]. by eapply agrees_write.
Qed.

Lemma restart_answered_agrees tr t o err hw s : agrees tr (TResp (RestartAnswered o) :: t) s →
  (err = LOCATION_ERROR_SUCCESS →
    mGeofences s !! hw = None ∧ TResp (StopAnswered hw) ∉ t ++ things s) →
  agrees tr t (restart_answered o err hw s).
Proof.
  intros I Hf. unfold restart_answered. case_decide as E; [|by eapply agrees_drop].
  destruct (Hf E) as [Hn Hs].
  assert (MkGeofenceKey (key_client (key o)) (key_id (key o)) = key o) as Ek by by destruct (key o).
  destruct (paused o); (apply (agrees_save (RestartAnswered o)); [|simpl; by rewrite Ek|done|]);
    try done.
  - apply agrees_ask. by apply (inv_idle (TResp PauseAnswered)) in I.
  - intros Hin. apply Hs. revert Hin. unfold things, ask, set_calls, emit. simpl.
    rewrite fmap_app, !elem_of_app. csimpl. rewrite list_elem_of_singleton. naive_solver.
Qed.

Lemma run_response_agrees tr t r err hw s s' : agrees tr (TResp r :: t) s →
  (stores r err s = true → mGeofences s !! hw = None ∧ TResp (StopAnswered hw) ∉ t ++ things s) →
  run_response r err hw s = Some s' → agrees tr t s'.
Proof.
  intros I Hf. destruct r as [c i|c i h|h|o|]; simpl.
  - by apply run_item_agrees.
  - by apply run_answered_agrees.
  - intros [= <-]. by apply agrees_stop_answered.
  - intros [= <-]. apply restart_answered_agrees; [done|]. intros ->. apply Hf. done.
  - intros [= <-]. by eapply agrees_drop.
Qed.

(** ** Commands *)
Lemma proc_item_ask c a s i : invalid_parameter (c_kind c) a = false →
  proc_item c a s i = ask [] (QueueItem c i) s.
Proof. unfold proc_item. by intros ->. Qed.

Lemma proc_items_invalid tr t c a l s : invalid_parameter (c_kind c) a = true →
  agrees tr t s → agrees tr t (foldl (proc_item c a) s l).
Proof.
  intros Ha. revert s. induction l as [|i l IH]; intros s I; [done|]. simpl. apply IH.
  unfold proc_item. rewrite Ha. destruct (write_err _ _ _ _) eqn:E; [|done].
  by eapply agrees_write.
Qed.

Lemma proc_items_ask c a l s : invalid_parameter (c_kind c) a = false →
  foldl (proc_item c a) s l = foldl (λ s r, ask [] r s) s (QueueItem c <$> l).
Proof.
  intros Ha. revert s. induction l as [|i l IH]; intros s; [done|]. simpl.
  by rewrite proc_item_ask, IH.
Qed.

Lemma proc_geofences_agrees tr t c s s' : agrees tr (TCmd c :: t) s →
  proc_geofences c s = Some s' → agrees tr t s'.
Proof.
  unfold proc_geofences. intros I [a [Ha [= <-]]]%bind_Some.
  set (a' := Arrays _ _ _ _). set (s1 := set_heap _ _ _).
  assert (agrees tr (TCmd c :: t) s1) as I1 by (by apply (inv_write _ a)).
  destruct (invalid_parameter (c_kind c) a') eqn:Ev.
  - apply proc_items_invalid; [done|]. by eapply agrees_drop.
  - rewrite proc_items_ask by done. apply agrees_asks; [intros; by eexists|].
    rewrite <- list_fmap_compose. unfold agrees. rewrite <- app_assoc.
    apply (inv_command (TCmd c) _ I1); [..|done].
    + simpl. rewrite list_bind_fmap || idtac. clear. generalize (seq 0 (mCount c)) as l.
      induction l as [|i l IH]; [done|]. csimpl. by apply submseteq_skips_l.
    + intros t' (i & -> & _)%list_elem_of_fmap. done.
Qed.

(** ** Clients *)
Lemma stop_item_agrees tr t client s kk hw : was_removed tr client →
  mGeofenceIds s !! kk = Some hw → agrees tr t s → agrees tr t (stop_item client s (kk, hw)).
Proof.
  intros Hr Hk I. simpl. case_decide as E; [|done]. apply agrees_ask.
  apply (inv_stop_item kk hw); [done|done|]. by rewrite <- E.
Qed.

Lemma stop_item_lookup client s x kk : kk ≠ x.1 →
  mGeofenceIds (stop_item client s x) !! kk = mGeofenceIds s !! kk.
Proof.
  destruct x as [k hw]. simpl. intros Hne. case_decide; [|done]. simpl.
  by rewrite lookup_delete_ne.
Qed.

Lemma stop_items_agrees tr t client l s : was_removed tr client → NoDup l.*1 →
  (∀ kk hw, (kk, hw) ∈ l → mGeofenceIds s !! kk = Some hw) →
  agrees tr t s → agrees tr t (foldl (stop_item client) s l).
Proof.
  intros Hr. revert s. induction l as [|[kk hw] l IH]; intros s Hnd Hl I; [done|].
  csimpl in *. apply NoDup_cons in Hnd as [Hn Hnd]. apply IH; [done|..].
  - intros k' h' Hin. rewrite <- (Hl k' h') by (by right). apply (stop_item_lookup client s (kk, hw)).
    simpl. intros ->. apply Hn. apply (list_elem_of_fmap_2 fst _ _ Hin).
  - apply stop_item_agrees; [done| |done]. apply Hl. constructor.
Qed.

Lemma stop_sessions_agrees tr t client s : was_removed tr client →
  agrees tr t s → agrees tr t (stopClientSessions client s).
Proof.
  intros Hr. apply stop_items_agrees; [done|apply entries_NoDup_fst|].
  intros kk hw. apply elem_of_entries.
Qed.

Lemma restart_agrees tr t s : agrees tr t s → agrees tr t (restartGeofences s).
Proof.
  intros I. unfold restartGeofences. case_decide; [done|].
  change (foldl restart_item ?s0 ?l) with (foldl restart_item s0 l).
  assert (∀ l s0, foldl restart_item s0 l =
    foldl (λ s r, match r with RestartAnswered o => restart_item s o | _ => ask [] r s end) s0
      (RestartAnswered <$> l)) as ->.
  { clear. induction l as [|o l IH]; intros s0; [done|]. simpl. by rewrite IH. }
  apply agrees_asks; [intros ? []; by eexists|]. rewrite <- list_fmap_compose.
  unfold agrees. rewrite <- app_assoc. apply (inv_restart _ I).
  by rewrite entries_perm.
Qed.

(** ** What only the clients' requests change *)
Record calm (s s' : adapter) : Prop := Calm {
  calm_pending : mPendingMsgs s' = mPendingMsgs s;
  calm_gnss : mPendingGnssEnabledMsgs s' = mPendingGnssEnabledMsgs s;
  calm_counter : mSessionIdCounter s' = mSessionIdCounter s;
  calm_queue : queue s' = queue s;
  calm_deleted : deleted s' = deleted s;
  calm_next : nextMsg s' = nextMsg s
}.

#[export] Instance calm_preorder : PreOrder calm.
Proof. split; [by split|]. intros s1 s2 s3 [] []. split; congruence. Qed.

Lemma calm_foldl {A} (op : adapter → A → adapter) l s :
  (∀ s x, calm s (op s x)) → calm s (foldl op s l).
Proof.
  intros Hop. revert s. induction l as [|x l IH]; intros s; [done|]. simpl.
  etrans; [apply Hop|apply IH].
Qed.

Lemma calm_write c i e s s' : write_err c i e s = Some s' → calm s s'.
Proof. unfold write_err. intros [a [_ [= <-]]]%bind_Some. by split. Qed.

Lemma calm_report c i s s' : report_last c i s = Some s' → calm s s'.
Proof.
  unfold report_last, reportResponse. case_decide; [|by intros [= <-]].
  intros [a [_ [= <-]]]%bind_Some. repeat case_match; by split.
Qed.

Lemma calm_remove hw s : calm s (removeGeofenceItem hw s).
Proof. unfold removeGeofenceItem. repeat case_match; by split. Qed.

Lemma calm_alter f hw s : calm s (alter_item f hw s).
Proof. unfold alter_item. case_match; by split. Qed.

Lemma calm_item c i s s' : run_item c i s = Some s' → calm s s'.
Proof.
  unfold run_item, run_known. intros [id [_ Hr]]%bind_Some. case_decide.
  - apply bind_Some in Hr as (r & _ & [= <-]). by split.
  - destruct (getHwIdFromClient _ _ _ _) as [err hw]. apply bind_Some in Hr as (s1 & Hw & Hr).
    etrans; [by eapply calm_write|]. case_decide; [|by eapply calm_report].
    apply bind_Some in Hr as (r & _ & [= <-]). by split.
Qed.

Lemma calm_answered c i hw err data s s' :
  run_answered c i hw err data s = Some s' → calm s s'.
Proof.
  unfold run_answered. destruct (c_kind c).
  - intros (s1 & Hs1 & (s2 & Hw & Hr)%bind_Some)%bind_Some.
    etrans; [|by eapply calm_report]. etrans; [|by eapply calm_write].
    destruct (done_or_disabled err s); [|by simplify_eq].
    apply bind_Some in Hs1 as (id & _ & (o & _ & (f & _ & [= <-])%bind_Some)%bind_Some). by split.
  - intros (s2 & Hw & Hr)%bind_Some. etrans; [|by eapply calm_report]. etrans; [|by eapply calm_write].
    destruct (done_or_disabled err s); [apply calm_remove|done].
  - intros (s2 & Hw & Hr)%bind_Some. etrans; [|by eapply calm_report]. etrans; [|by eapply calm_write].
    case_decide; [apply calm_alter|done].
  - destruct (decide (err = LOCATION_ERROR_SUCCESS)); [|intros [= <-]; done].
    intros (s2 & Hw & Hr)%bind_Some. etrans; [|by eapply calm_report].
    etrans; [by eapply calm_write|apply calm_alter].
  - intros (s1 & Hs1 & Hr)%bind_Some. etrans; [|by eapply calm_report].
    destruct (done_or_disabled err s); [|by simplify_eq].
    apply bind_Some in Hs1 as (s2 & Hw & (o & _ & [= <-])%bind_Some).
    etrans; [by eapply calm_write|apply calm_alter].
Qed.

Lemma calm_response r err hw s s' : run_response r err hw s = Some s' → calm s s'.
Proof.
  destruct r as [c i|c i h|h|o|]; simpl; [apply calm_item|apply calm_answered|..];
    intros [= <-]; unfold stop_answered, restart_answered; repeat case_match; by split.
Qed.

Lemma calm_geofences c s s' : proc_geofences c s = Some s' → calm s s'.
Proof.
  unfold proc_geofences. intros [a [_ [= <-]]]%bind_Some.
  etrans; [|apply calm_foldl]; [by split|].
  intros s0 i. unfold proc_item. case_match; [|by split].
  destruct (write_err _ _ _ _) eqn:E; [|done]. by eapply calm_write.
Qed.

Lemma calm_stop client s : calm s (stopClientSessions client s).
Proof.
  apply calm_foldl. intros s0 [kk hw]. simpl. case_decide; by split.
Qed.

Lemma calm_restart s : calm s (restartGeofences s).
Proof.
  unfold restartGeofences. case_decide; [done|]. etrans; [|apply calm_foldl]; by split.
Qed.

(** ** Every message *)
Section runs.
Context (g : engine_caps).

Lemma agrees_resend tr t l s : Forall (λ m : Z * locmsg, msg_things m.2 = []) l →
  agrees tr t s → agrees tr t (resend l s).
Proof.
  intros Hl I. refine (inv_sub _ I _). unfold things, resend. simpl.
  rewrite fmap_app, bind_app.
  assert (l.*2 ≫= msg_things = []) as ->.
  { induction Hl as [|m l Hm Hl IH]; [done|]. csimpl. by rewrite Hm. }
  by rewrite app_nil_r.
Qed.

Lemma pending_no_things s : pending_idle s →
  Forall (λ m : Z * locmsg, msg_things m.2 = []) (mPendingMsgs s).
Proof. intros [Hp _]. eapply Forall_impl; [done|]. by intros m [c ->]. Qed.

Lemma proc_msg_agrees tr m s s' : pending_idle s → agrees tr (msg_things m) s →
  (∀ r err hw, m = MsgResponse r err hw → stores r err s = true → fresh hw s) →
  proc_msg g m s = Some s' → agrees tr [] s'.
Proof.
  intros Hp I Hf. destruct m as [cl cb|cl b|cl|c|r err hw|l lo ty ti|av| |st]; simpl.
  - by intros [= <-].
  - intros [= <-]. assert (was_removed tr cl) as Hr by (apply (inv_removed _ _ _ _ _ _ _ I); constructor).
    apply agrees_drop, (stop_sessions_agrees _ _ _ _ Hr) in I. by destruct b.
  - intros [= <-]. unfold proc_request_capabilities. by repeat case_match.
  - by apply proc_geofences_agrees.
  - intros Hr. eapply run_response_agrees; [done| |done]. by apply (Hf r err hw).
  - by intros [= <-].
  - by intros [= <-].
  - intros [= <-]. unfold proc_ssr. case_decide; [|done].
    apply agrees_resend; [|by apply restart_agrees].
    rewrite (calm_pending _ _ (calm_restart _)). by apply pending_no_things.
  - intros [= <-]. unfold handleEngineLockStatus. case_decide; [|done].
    destruct Hp as [_ Hg]. rewrite Hg. by apply agrees_resend.
Qed.

Lemma proc_msg_idle m s s' : pending_idle s → proc_msg g m s = Some s' →
  pending_idle s' ∧ mSessionIdCounter s' = mSessionIdCounter s.
Proof.
  intros Hp Hm.
  assert (∀ s1, calm s s1 → pending_idle s1 ∧ mSessionIdCounter s1 = mSessionIdCounter s) as Hc.
  { intros s1 [E1 E2 E3 _ _ _]. unfold pending_idle. by rewrite E1, E2. }
  destruct m as [cl cb|cl b|cl|c|r err hw|l lo ty ti|av| |st]; simpl in Hm.
  - simplify_eq. apply Hc. by split.
  - simplify_eq. apply Hc. etrans; [apply calm_stop|]. destruct b; by split.
  - simplify_eq. unfold proc_request_capabilities. repeat case_match; try (apply Hc; by split).
    split; [|done]. destruct Hp as [Hp Hg]. split; [|done]. simpl. apply Forall_app. split; [done|].
    constructor; [by exists cl|done].
  - by apply Hc, (calm_geofences c).
  - by apply Hc, (calm_response r err hw).
  - simplify_eq. apply Hc. by split.
  - simplify_eq. apply Hc. by split.
  - simplify_eq. unfold proc_ssr. case_decide; [|by apply Hc].
    match goal with |- context [resend _ (restartGeofences ?s1)] =>
      change (pending_idle (restartGeofences s1) ∧
        mSessionIdCounter (restartGeofences s1) = mSessionIdCounter s);
      apply Hc; etrans; [|apply (calm_restart s1)] end.
    by split.
  - simplify_eq. unfold handleEngineLockStatus. case_decide; [|by apply Hc].
    split; [|done]. by destruct Hp as [Hp _].
Qed.

Lemma thread_run_well tr s s' : well tr s → honest ThreadRun s → thread_run g s = Some s' →
  well tr s'.
Proof.
  intros [I Hp Hc] Hh. unfold thread_run. simpl in Hh.
  destruct (queue s) as [|[a m] q] eqn:Eq; [by intros [= <-]|].
  case_decide; [done|]. intros (s1 & Hm & [= <-])%bind_Some.
  set (s0 := set_queue q (deleted s) (nextMsg s) s) in *.
  assert (agrees tr (msg_things m) s0) as I0.
  { refine (inv_sub _ I _). unfold things. simpl. rewrite Eq. csimpl.
    apply Permutation_submseteq. solve_Permutation. }
  destruct (proc_msg_idle m s0 s1 Hp Hm) as [Hp1 Hc1].
  split; [|done|change (counter_ok (mSessionIdCounter s1)); by rewrite Hc1].
  change (agrees tr [] s1). apply (proc_msg_agrees tr m s0); [done|done| |done].
  intros r err hw -> Hs. destruct (Hh Hs) as [Hn Hno]. split; [done|].
  intros Hin. apply Hno. unfold things in *. rewrite Eq. csimpl.
  apply elem_of_app in Hin as [Hin|Hin]; apply elem_of_app; [by left|]. right. by right.
Qed.

(** ** Calls from outside *)
Lemma agrees_send tr m s : msg_things m = [] → agrees tr [] s → agrees tr [] (sendMsg m s).
Proof. intros Hm I. apply (agrees_resend _ _ [(nextMsg s, m)]) in I; [done|]. by constructor. Qed.

Lemma well_send tr m s : well tr s → msg_things m = [] → well tr (sendMsg m s).
Proof. intros [I Hp Hc] Hm. split; [|done|done]. by apply agrees_send. Qed.

Lemma well_trace tr e s : well tr s → well (tr ++ [e]) s.
Proof.
  intros [I Hp Hc]. split; [|done|done]. apply (inv_trace _ I).
  intros e' He. apply elem_of_app. by left.
Qed.

(** The things of a message that is sent are added. *)
Lemma agrees_sent tr m s : agrees tr (msg_things m) s → agrees tr [] (sendMsg m s).
Proof.
  intros I. refine (inv_sub _ I _). unfold things, sendMsg. simpl.
  rewrite fmap_app, bind_app. csimpl. rewrite app_nil_r.
  apply Permutation_submseteq. solve_Permutation.
Qed.

Lemma drawn_small n c : counter_ok c → (c + Z.of_nat n < 0xFFFFFFFF)%Z →
  drawn n c = (c + Z.of_nat n)%Z.
Proof.
  intros Hc Hn. rewrite drawn_mod by done. unfold counter_ok in Hc. rewrite Z.mod_small; lia.
Qed.

Lemma new_ids_keys h n a client count c0 :
  counter_ok c0 → (c0 + Z.of_nat count < 0xFFFFFFFF)%Z →
  mIds a = (λ n, Some (drawn (S n) c0)) <$> seq 0 count →
  thing_keys (<[n := a]> h) (TCmd (Command Add client count n)) =
  (λ i, MkGeofenceKey client (c0 + Z.of_nat (S i))) <$> seq 0 count.
Proof.
  intros Hc Hn Ha. unfold thing_keys. cbn [mCount].
  rewrite (bind_ext_in _ (λ i, [MkGeofenceKey client (c0 + Z.of_nat (S i))])).
  - generalize (seq 0 count) as l. induction l as [|i l IH]; [done|]. csimpl. by rewrite IH.
  - intros i Hi%elem_of_seq. simpl. rewrite lookup_insert_eq. simpl.
    rewrite Ha, list_lookup_fmap, lookup_seq_lt by lia. simpl.
    rewrite <- (drawn_small (S i)) by (done || lia). done.
Qed.

Lemma well_add tr client count options infos s s' : well tr s →
  honest (AddGeofences client count options infos) s →
  snd <$> addGeofencesCommand client count options infos s = Some s' → well tr s'.
Proof.
  intros [I Hp Hc] Hn. simpl in Hn. unfold addGeofencesCommand.
  case_decide; [by intros [= <-]|]. intros ([p s1] & E & Hs)%fmap_Some. simpl in Hs. subst s1.
  apply bind_Some in E as (oc & _ & (ic & _ & E)%bind_Some). cbn in E. injection E as _ <-.
  assert (drawn count (mSessionIdCounter s) = mSessionIdCounter s + Z.of_nat count)%Z as Ed.
  { by apply drawn_small. }
  split; [|done|simpl; unfold counter_ok in *; lia].
  apply agrees_sent. simpl. unfold agrees. simpl. rewrite Ed.
  refine (inv_new _ _ _ I _ _ _ _); [done|lia|..];
    rewrite (new_ids_keys _ _ _ _ _ (mSessionIdCounter s)) by done.
  - apply NoDup_fmap_2; [|apply NoDup_seq]. intros i j [= E]. lia.
  - intros kk (i & -> & Hi%elem_of_seq)%list_elem_of_fmap. simpl. unfold counter_ok in Hc. lia.
Qed.

Lemma well_ids tr k client count ids options s s' : well tr s → k ≠ Add →
  idsCommand k client count ids options s = Some s' → well tr s'.
Proof.
  intros [I Hp Hc] Hk. unfold idsCommand. case_decide; [by intros [= <-]|].
  intros (ic & _ & (oc & _ & E)%bind_Some)%bind_Some. cbn in E. injection E as <-.
  split; [|done|done]. apply agrees_sent. simpl. unfold agrees. simpl.
  assert (∀ h (n : Z), thing_keys h (TCmd (Command k client count n)) = []) as Hn.
  { intros h n. simpl. generalize (seq 0 count) as l. induction l as [|i l IH]; [done|].
    csimpl. by rewrite decide_False. }
  refine (inv_new _ _ _ I _ _ _ _); [done|lia|..]; rewrite Hn; [constructor|]. by intros kk ?%elem_of_nil.
Qed.

Lemma step_well tr e s s' : well tr s → honest e s → step g e s = Some s' →
  well (tr ++ [e]) s'.
Proof.
  intros W Hh.
  destruct e as [cl cb|cl b|cl|cl n o i|cl n l|cl n l|cl n l|cl n l o| |st|n l lo ty ti|av|n err hw|st| |];
    simpl; try (intros [= <-]; apply well_trace; by apply well_send).
  - intros [= <-]. apply (well_trace _ (RemoveClient cl b)) in W as [I Hp Hc].
    split; [|done|done]. apply agrees_sent. simpl.
    destruct I as [I1 I2 I3 I4 I5 I6 I7]. split; try done.
    + intros w [|Hin]%elem_of_cons; [done|by apply I5].
    + intros t c [->|Hin]%elem_of_cons; [done|by apply I6].
    + intros c [[= ->]|Hin]%elem_of_cons; [|by apply I7]. exists b. apply elem_of_app. right.
      constructor.
  - intros H. eapply well_trace, well_add; eauto.
  - intros H. eapply well_trace, well_ids; [exact W| |exact H]; done.
  - intros H. eapply well_trace, well_ids; [exact W| |exact H]; done.
  - intros H. eapply well_trace, well_ids; [exact W| |exact H]; done.
  - intros H. eapply well_trace, well_ids; [exact W| |exact H]; done.
  - unfold geofenceBreachEvent. destruct l as [l|]; [|intros [= <-]; by apply well_trace].
    case_decide; [intros [= <-]; by apply well_trace|].
    intros (l' & _ & [= <-])%bind_Some. apply well_trace. by apply well_send.
  - apply (well_trace _ (ReturnToSender n err hw)) in W as [I Hp Hc].
    destruct (calls s !! n) as [r|] eqn:Er; intros [= <-]; [|done].
    split; [|done|done]. apply agrees_sent. refine (inv_sub _ I _). unfold things. simpl.
    apply delete_Permutation in Er.
    change ((TResp <$> r :: delete n (calls s)) ++ ((queue s).*2 ≫= msg_things) ⊆+
      (TResp <$> calls s) ++ ((queue s).*2 ≫= msg_things)).
    apply submseteq_skips_r, Permutation_submseteq, fmap_Permutation. by symmetry.
  - intros [= <-]. by apply (well_trace _ (SetEngineLockState st)) in W as [I Hp Hc].
  - intros [= <-]. apply (well_trace _ OtherSession) in W as [I Hp Hc]. simpl in Hh.
    assert (generateSessionId (mSessionIdCounter s) = mSessionIdCounter s + 1)%Z as E.
    { change (generateSessionId ?c) with (drawn 1 c). apply drawn_small; [done|lia]. }
    rewrite E. split; simpl; [|done|unfold counter_ok in *; lia].
    refine (inv_counter _ I _). simpl. lia.
  - intros H. eapply well_trace, thread_run_well; eauto.
Qed.

Lemma reach_well tr s : reach g tr s → well tr s.
Proof.
  induction 1 as [known|tr e s s' Hr IH Hh Hs]; [|by eapply step_well].
  split; [|by split|by split]. split; unfold live, stored; simpl.
  - intros kk hw. by rewrite lookup_empty.
  - intros hw o. by rewrite lookup_empty.
  - rewrite fmap_empty, map_to_list_empty. constructor.
  - rewrite fmap_empty, map_to_list_empty. by intros kk ?%elem_of_nil.
  - by intros hw ?%elem_of_nil.
  - by intros t c ?%elem_of_nil.
  - by intros c ?%elem_of_nil.
Qed.
End runs.

(** ** Runs that can be computed *)
Definition is_stop (hwId : Z) (t : thing) : bool :=
  match t with TResp (StopAnswered h) => bool_decide (h = hwId) | _ => false end.

Definition freshb (hwId : Z) (s : adapter) : bool :=
  bool_decide (is_Some (mGeofences s !! hwId)) || existsb (is_stop hwId) (things s).

Definition honestb (e : event) (s : adapter) : bool :=
  match e with
  | AddGeofences _ count _ _ => (mSessionIdCounter s + Z.of_nat count <? 0xFFFFFFFF)%Z
  | OtherSession => (mSessionIdCounter s + 1 <? 0xFFFFFFFF)%Z
  | ThreadRun =>
      match queue s with
      | (_, MsgResponse r err hwId) :: _ => negb (stores r err s && freshb hwId s)
      | _ => true
      end
  | _ => true
  end.

Lemma honestb_honest e s : honestb e s = true → honest e s.
Proof.
  destruct e; try done; simpl; [lia|lia|].
  destruct (queue s) as [|[a []] q]; try done.
  intros [Hs|Hf]%negb_true_iff%andb_false_iff Hst; [congruence|].
  unfold freshb in Hf. apply orb_false_iff in Hf as [Hn Hs]. split.
  - apply bool_decide_eq_false in Hn. by apply eq_None_not_Some.
  - intros Hin. apply not_true_iff_false in Hs. apply Hs, existsb_exists.
    exists (TResp (StopAnswered hwId)). split; [by apply list_elem_of_In|].
    simpl. by apply bool_decide_eq_true.
Qed.

Fixpoint honest_run (g : engine_caps) (l : list event) (s : adapter) : option adapter :=
  match l with
  | [] => Some s
  | e :: l => if honestb e s then s' ← step g e s; honest_run g l s' else None
  end.

Lemma reach_run g tr l s s' : reach g tr s → honest_run g l s = Some s' → reach g (tr ++ l) s'.
Proof.
  revert tr s. induction l as [|e l IH]; intros tr s Hr; simpl.
  - intros [= <-]. by rewrite app_nil_r.
  - destruct (honestb e s) eqn:Eh; [|done]. intros (s1 & Hs & Hl)%bind_Some.
    rewrite cons_middle, app_assoc. apply (IH _ s1); [|done].
    eapply reach_step; [done|by apply honestb_honest|done].
Qed.

(** ** The maps agree *)

(** C7: In every run in which the engine does not give a new geofence a
    hardware id that is still in use, the two maps of the adapter fit
    together: the hardware id found for a client's key is that of a stored
    geofence with that key; a stored geofence is found by its key unless its
    client was removed; and no two hardware ids store the same key. *)
Theorem geofence_maps_agree g tr s : reach g tr s →
  (∀ kk hw, mGeofenceIds s !! kk = Some hw → ∃ o, mGeofences s !! hw = Some o ∧ key o = kk) ∧
  (∀ hw o, mGeofences s !! hw = Some o →
    mGeofenceIds s !! key o = Some hw ∨ was_removed tr (key_client (key o))) ∧
  (∀ hw hw' o o', mGeofences s !! hw = Some o → mGeofences s !! hw' = Some o' →
    key o = key o' → hw = hw').
Proof.
  intros Hr. destruct (reach_well g tr s Hr) as [I _ _].
  split; [apply I|]. split; [apply I|]. intros hw hw' o o'.
  apply stored_inj, (submseteq_NoDup _ _ (submseteq_inserts_r _ _ _ (reflexivity _)) (inv_nodup _ _ _ _ _ _ _ I)).
Qed.

(** Two geofences are added, one is paused, its client goes away and the engine
    does not remove it, and the engine restarts. *)
Definition example_caps : engine_caps := EngineCaps 0 [] false 0 0.
Definition all_cbs : LocationCallbacks :=
  MkLocationCallbacks true true true true true true true true true true true true true true true true.
Definition example_option : GeofenceOption := MkGeofenceOption 3 1000 0.
Definition example_info : GeofenceInfo := MkGeofenceInfo (double 48) (double 11) (double 100).

Definition add_run (client : Z) (hwId : Z) : list event :=
  [AddGeofences client 1 (Some [example_option]) (Some [example_info]); ThreadRun;
   ReturnToSender 0 LOCATION_ERROR_SUCCESS 0; ThreadRun;
   ReturnToSender 0 LOCATION_ERROR_SUCCESS hwId; ThreadRun].

Definition example_run : list event :=
  [AddClient 16 all_cbs; AddClient 32 all_cbs; ThreadRun; ThreadRun] ++
  add_run 16 7 ++ add_run 32 8 ++
  [PauseGeofences 32 1 (Some [3%Z]); ThreadRun;
   ReturnToSender 0 LOCATION_ERROR_SUCCESS 0; ThreadRun;
   ReturnToSender 0 LOCATION_ERROR_SUCCESS 0; ThreadRun;
   RemoveClient 16 true; ThreadRun;
   ReturnToSender 0 LOCATION_ERROR_GENERAL_FAILURE 0; ThreadRun;
   EngineUp; ThreadRun;
   ReturnToSender 0 LOCATION_ERROR_SUCCESS 8; ThreadRun].

Definition example_state : adapter :=
  default (init_adapter true) (honest_run example_caps example_run (init_adapter true)).

Lemma geofence_maps_agree_witness :
  mGeofenceIds example_state !! MkGeofenceKey 16 2 = Some 8%Z ∧
  ∃ o, mGeofences example_state !! 8%Z = Some o ∧ key o = MkGeofenceKey 16 2.
Proof.
  split; [vm_compute; reflexivity|].
  apply (geofence_maps_agree example_caps example_run example_state).
  - apply (reach_run _ [] example_run (init_adapter true)); [constructor|].
    vm_compute. reflexivity.
  - vm_compute. reflexivity.
Defined.

(** ** Breaches

    The ids under which a client knows those of some hardware ids that are its
    own, in their order. *)
Inductive owned (fences : gmap Z GeofenceObject) (client : Z) : list Z → list Z → Prop :=
  | owned_none : owned fences client [] []
  | owned_mine hw hws o id ids : fences !! hw = Some o → key o = MkGeofenceKey client id →
      owned fences client hws ids → owned fences client (hw :: hws) (id :: ids)
  | owned_other hw hws ids : (∀ o, fences !! hw = Some o → key_client (key o) ≠ client) →
      owned fences client hws ids → owned fences client (hw :: hws) ids.

Lemma owned_client_ids client hwIds ids s :
  owned (mGeofences s) client hwIds ids ↔ client_ids client hwIds s = ids.
Proof.
  unfold client_ids. split.
  - induction 1 as [|hw hws o id ids Ho Ek _ IH|hw hws ids Hn _ IH]; [done|..]; cbn [omap list_omap];
      unfold getGeofenceKeyFromHwId at 1.
    + rewrite Ho. simpl. rewrite Ek. simpl. rewrite decide_True by done. by f_equal.
    + destruct (mGeofences s !! hw) as [o|]; simpl; [|done]. by rewrite decide_False by by apply Hn.
  - intros <-. induction hwIds as [|hw hws IH]; [constructor|]. cbn [omap list_omap].
    unfold getGeofenceKeyFromHwId at 1. destruct (mGeofences s !! hw) as [o|] eqn:Ho; simpl.
    + destruct (decide (key_client (key o) = client)) as [E|E].
      * eapply owned_mine; [done| |done]. destruct (key o). simpl in *. by subst.
      * apply owned_other; [|done]. intros o'. rewrite Ho. by intros [= <-].
    + apply owned_other; [|done]. intros o'. by rewrite Ho.
Qed.

(** C29: A breach report for a list of hardware ids goes, once each, to
    exactly the clients that own one of them and have a breach callback, with
    the ids of exactly their own geofences, one for each that the report
    names, in the order of the report; each of these geofences is found by its
    key unless its client was removed before. *)
Theorem breach_reports_to_owner g tr s hwIds location breachType timestamp : reach g tr s →
  ∃ l, out (geofenceBreach hwIds location breachType timestamp s) = out s ++ l ∧ NoDup l ∧
  (∀ x, x ∈ l ↔ ∃ client cb ids, mClientData s !! client = Some cb ∧ geofenceBreachCb cb = true ∧
    owned (mGeofences s) client hwIds ids ∧ ids ≠ [] ∧
    x = GeofenceBreachCb client ids location breachType timestamp) ∧
  (∀ hw o, hw ∈ hwIds → mGeofences s !! hw = Some o →
    mGeofenceIds s !! key o = Some hw ∨ was_removed tr (key_client (key o))).
Proof.
  intros Hr. destruct (reach_well g tr s Hr) as [I _ _]. eexists. split; [done|].
  set (f := λ d : Z * LocationCallbacks, _). repeat split.
  - pose proof (entries_NoDup_fst Z.le (mClientData s)) as Hnd. revert Hnd.
    generalize (entries Z.le (mClientData s)) as l. induction l as [|[cl cb] l IH]; [constructor|].
    csimpl. intros [Hn Hnd]%NoDup_cons. destruct (f (cl, cb)) as [x|] eqn:Ex; [|by apply IH].
    apply NoDup_cons. split; [|by apply IH]. intros ([cl' cb'] & Hin & Ex')%list_elem_of_omap.
    apply Hn. unfold f in Ex, Ex'. simpl in *. repeat case_match; simplify_eq.
    by apply (list_elem_of_fmap_2 fst) in Hin.
  - intros ([cl cb] & Hin & Ex)%list_elem_of_omap. apply elem_of_entries in Hin.
    exists cl, cb, (client_ids cl hwIds s). unfold f in Ex. simpl in Ex. case_decide as Hl; [|done].
    destruct (geofenceBreachCb cb); simplify_eq. repeat split; try done; [by apply owned_client_ids|].
    intros E. rewrite E in Hl. simpl in Hl. lia.
  - intros (cl & cb & ids & Hcb & Hb & Ho%owned_client_ids & Hne & ->). apply list_elem_of_omap. exists (cl, cb).
    split; [by apply elem_of_entries|]. unfold f. simpl. rewrite Ho, decide_True, Hb; [done|].
    destruct ids; [done|]. simpl. lia.
  - intros hw o _ Ho. destruct (inv_forth _ _ _ _ _ _ _ I hw o Ho) as [|Hw]; [by left|by right].
Qed.

Definition example_location : Location :=
  MkLocation 1 0 (double 48) (double 11) (double 0) (double 0) (double 0) (double 0)
    (double 0) (double 0) (double 0) (double 0) 0 0 0 0.

(** Two clients with a geofence each. *)
Definition two_owners_run : list event :=
  [AddClient 16 all_cbs; AddClient 32 all_cbs; ThreadRun; ThreadRun] ++ add_run 16 7 ++ add_run 32 8.

Definition two_owners : adapter :=
  default (init_adapter true) (honest_run example_caps two_owners_run (init_adapter true)).

Lemma breach_reports_to_owner_witness :
  ∃ l, out (geofenceBreach [8; 9; 7; 8]%Z example_location GEOFENCE_BREACH_ENTER 5 two_owners) =
    out two_owners ++ l ∧ NoDup l ∧
    GeofenceBreachCb 32 [3; 3]%Z example_location GEOFENCE_BREACH_ENTER 5 ∈ l.
Proof.
  destruct (breach_reports_to_owner example_caps two_owners_run two_owners [8; 9; 7; 8]%Z
    example_location GEOFENCE_BREACH_ENTER 5) as (l & H1 & Hd & H2 & _).
  - apply (reach_run _ [] two_owners_run (init_adapter true)); [constructor|].
    vm_compute. reflexivity.
  - exists l. split; [exact H1|]. split; [exact Hd|]. apply H2. exists 32%Z, all_cbs, [3; 3]%Z.
    clear H1 Hd H2. split; [vm_compute; reflexivity|]. split; [reflexivity|].
    split; [apply owned_client_ids; vm_compute; reflexivity|]. split; [discriminate|reflexivity].
Defined.
