(* ===== verification/GeofenceSafe.v ===== *)
(** * Geofence adapter: the arrays of a command

    The items of a command share its arrays and the item of the last index
    frees them.  When the items of a command are dealt with one after the other,
    no closure uses freed arrays and every collective response is complete;
    when they are not, it does. *)
From stdpp Require Import sorting.
From S2P Require Import Prelude OrderedMap Doubles LocAdapter Geofence GeofenceInv GeofenceProps.

(** ** Slots

    A pending thing owns the elements of the arrays that it will write. *)
Definition thing_slots (t : thing) : list (Z * nat) :=
  match t with
  | TResp (QueueItem c i) | TResp (Answered c i _) => [(c_arrays c, i)]
  | TCmd c => (λ i, (c_arrays c, i)) <$> seq 0 (mCount c)
  | _ => []
  end.

Definition thing_index (t : thing) : option (command * nat) :=
  match t with
  | TResp (QueueItem c i) | TResp (Answered c i _) => Some (c, i)
  | _ => None
  end.

(** The arrays of a command as its caller has to pass them. *)
Record arrays_ok (c : command) (a : arrays) : Prop := ArraysOk {
  ok_ids : length (mIds a) = mCount c;
  ok_set : Forall is_Some (mIds a);
  ok_options : ∀ l, mOptions a = Some l → length l = mCount c;
  ok_infos : ∀ l, mInfos a = Some l → length l = mCount c
}.

(** [owned]: an element of [errs] that is not written has an owner. *)
Record running (ts : list thing) (c : command) (a : arrays) : Prop := Running {
  run_valid : invalid_parameter (c_kind c) a = false;
  run_errs : length (errs a) = mCount c;
  run_owned : ∀ j, errs a !! j = Some None → (c_arrays c, j) ∈ ts ≫= thing_slots
}.

Record safe (ts : list thing) (h : gmap Z arrays) (n : Z) : Prop := Safe {
  safe_arrays : ∀ t c, t ∈ ts → thing_command t = Some c →
    ∃ a, h !! c_arrays c = Some a ∧ arrays_ok c a;
  safe_running : ∀ t c i a, t ∈ ts → thing_index t = Some (c, i) → h !! c_arrays c = Some a →
    i < mCount c ∧ running ts c a;
  safe_known : ∀ c i hw a, TResp (Answered c i hw) ∈ ts → c_kind c ≠ Add →
    h !! c_arrays c = Some a → errs a !! i ≠ Some None;
  safe_slots : NoDup (ts ≫= thing_slots);
  safe_owner : ∀ t t' c c', t ∈ ts → t' ∈ ts → thing_command t = Some c →
    thing_command t' = Some c' → c_arrays c = c_arrays c' → c = c';
  safe_addr : ∀ t c, t ∈ ts → thing_command t = Some c → (c_arrays c < n)%Z;
  safe_count : ∀ t c, t ∈ ts → thing_command t = Some c → mCount c ≠ 0
}.

Lemma thing_index_command t c i : thing_index t = Some (c, i) → thing_command t = Some c.
Proof. destruct t as [[]| |]; naive_solver. Qed.

Lemma thing_index_slots t c i : thing_index t = Some (c, i) → thing_slots t = [(c_arrays c, i)].
Proof. destruct t as [[]| |]; naive_solver. Qed.

Lemma thing_command_none t : thing_command t = None → thing_slots t = [] ∧ thing_index t = None.
Proof. destruct t as [[]| |]; naive_solver. Qed.

Lemma thing_command_cases t c : thing_command t = Some c →
  t = TCmd c ∨ ∃ j, thing_index t = Some (c, j).
Proof. destruct t as [[]| |]; naive_solver. Qed.

(** A thing of a command owns a slot at its address. *)
Lemma thing_slot t c : thing_command t = Some c → mCount c ≠ 0 →
  ∃ i, (c_arrays c, i) ∈ thing_slots t.
Proof.
  intros Hc Hn. destruct t as [[c' i|c' i w|w|o|]|c'|]; simplify_eq/=.
  - exists i. by apply list_elem_of_singleton.
  - exists i. by apply list_elem_of_singleton.
  - exists 0. apply list_elem_of_fmap. exists 0. split; [done|]. apply elem_of_seq. lia.
Qed.

Lemma slots_elem (ts : list thing) t x : t ∈ ts → x ∈ thing_slots t → x ∈ ts ≫= thing_slots.
Proof. intros Ht Hx. apply list_elem_of_bind. exists t. done. Qed.

Lemma running_slots ts ts' c a : (∀ x, x ∈ ts ≫= thing_slots → x ∈ ts' ≫= thing_slots) →
  running ts c a → running ts' c a.
Proof. intros Hs [? ? Ho]. split; auto. Qed.

(** ** Steps that change nothing of a command *)
Lemma safe_transfer ts ts' h n : safe ts h n →
  (∀ t c, thing_command t = Some c → t ∈ ts' → t ∈ ts) →
  ts' ≫= thing_slots ≡ₚ ts ≫= thing_slots → safe ts' h n.
Proof.
  intros [H1 H2 H3 H4 H5 H6 H7] Hin Hp. split.
  - intros t c Ht Hc. apply (H1 t); [by eapply Hin|done].
  - intros t c i a Ht Hi Ha. destruct (H2 t c i a) as [? Hr]; [|done|done|].
    { eapply Hin; [by eapply thing_index_command|done]. }
    split; [done|]. eapply running_slots; [|done]. intros x. by rewrite Hp.
  - intros c i hw a Ht. apply (H3 c i hw). by eapply Hin.
  - by rewrite Hp.
  - intros t t' c c' Ht Ht' Hc Hc'. eapply (H5 t t'); try done; by eapply Hin.
  - intros t c Ht Hc. apply (H6 t); [by eapply Hin|done].
  - intros t c Ht Hc. apply (H7 t); [by eapply Hin|done].
Qed.

Lemma safe_perm ts ts' h n : ts ≡ₚ ts' → safe ts h n → safe ts' h n.
Proof.
  intros Hp S. apply (safe_transfer ts); [done| |by rewrite Hp].
  intros t c _. by apply (elem_of_Permutation_proper t) in Hp as ->.
Qed.

Lemma safe_idle t ts h n : thing_command t = None → safe (t :: ts) h n ↔ safe ts h n.
Proof.
  intros Hc. destruct (thing_command_none t Hc) as [Hs _].
  split; intros S; eapply safe_transfer; try exact S; csimpl; rewrite ?Hs; try done.
  - intros t' c _ Ht. by right.
  - intros t' c Ht [->|Hin]%elem_of_cons; [congruence|done].
Qed.

(** ** Steps of an item *)

(** [e] is written by the owner of the element. *)
Lemma safe_write t ts h n c i a e : safe (t :: ts) h n → thing_index t = Some (c, i) →
  h !! c_arrays c = Some a →
  safe (t :: ts) (<[c_arrays c := Arrays (<[i := Some e]> (errs a)) (mIds a) (mOptions a) (mInfos a)]> h) n.
Proof.
  intros S Hi Ha. set (a' := Arrays _ _ _ _).
  assert (∀ t' c', t' ∈ t :: ts → thing_command t' = Some c' → c_arrays c' = c_arrays c → c' = c) as Hc.
  { intros t' c' Ht' Hc' E. eapply (safe_owner _ _ _ S t' t); [done|constructor|done| |done].
    by eapply thing_index_command. }
  pose proof S as [H1 H2 H3 H4 H5 H6 H7]. split; [..|done|done|done|done].
  - intros t' c' Ht' Hc'. destruct (decide (c_arrays c' = c_arrays c)) as [E|E].
    + pose proof (Hc t' c' Ht' Hc' E); subst c'. exists a'. rewrite lookup_insert_eq. split; [done|].
      destruct (H1 t' c Ht' Hc') as (a1 & Ha1 & [? ? ? ?]). simplify_eq. by split.
    + rewrite lookup_insert_ne by done. by apply (H1 t').
  - intros t' c' j a1 Ht' Hj. pose proof (thing_index_command _ _ _ Hj) as Hc'.
    destruct (decide (c_arrays c' = c_arrays c)) as [E|E].
    + pose proof (Hc t' c' Ht' Hc' E); subst c'. rewrite lookup_insert_eq. intros [= <-].
      destruct (H2 t' c j a Ht' Hj Ha) as [Hlt [Hv He Ho]]. split; [done|]. split; [done|..]; simpl.
      * by rewrite length_insert.
      * intros k Hk. apply list_lookup_insert_Some in Hk as [(_ & ? & _)|[_ Hk]]; [done|]. by apply Ho.
    + rewrite lookup_insert_ne by done. by apply (H2 t').
  - intros c' j hw a1 Ht' Hk.
    destruct (decide (c_arrays c' = c_arrays c)) as [E|E].
    + pose proof (Hc _ c' Ht' eq_refl E); subst c'. rewrite lookup_insert_eq. intros [= <-] Hn.
      apply list_lookup_insert_Some in Hn as [(_ & ? & _)|[_ Hn]]; [done|]. by eapply (H3 c j hw a).
    + rewrite lookup_insert_ne by done. by apply (H3 c' j hw).
Qed.

(** An item that was queued is asked. *)
Lemma safe_swap c i hw ts h n a : safe (TResp (QueueItem c i) :: ts) h n →
  h !! c_arrays c = Some a → (c_kind c ≠ Add → errs a !! i ≠ Some None) →
  safe (TResp (Answered c i hw) :: ts) h n.
Proof.
  intros [H1 H2 H3 H4 H5 H6 H7] Ha Hs. set (t := TResp (QueueItem c i)).
  assert (∀ t' c', t' ∈ TResp (Answered c i hw) :: ts → thing_command t' = Some c' →
    ∃ t'', t'' ∈ t :: ts ∧ thing_command t'' = Some c') as Hc.
  { intros t' c' [->|Hin]%elem_of_cons E; [exists t|exists t']; split; try done; by constructor. }
  assert (∀ t' x, t' ∈ TResp (Answered c i hw) :: ts → thing_index t' = Some x →
    ∃ t'', t'' ∈ t :: ts ∧ thing_index t'' = Some x) as Hx.
  { intros t' c' [->|Hin]%elem_of_cons E; [exists t|exists t']; split; try done; by constructor. }
  split; [..|done| | |].
  - intros t' c' Ht' E. destruct (Hc t' c' Ht' E) as (t'' & ? & ?). by apply (H1 t'').
  - intros t' c' j a' Ht' E. destruct (Hx t' _ Ht' E) as (t'' & ? & ?).
    intros Ha'. destruct (H2 t'' c' j a') as [? Hr]; [done..|]. split; [done|].
    by apply (running_slots (t :: ts)).
  - intros c' j hw' a' [[= -> -> ->]|Hin]%elem_of_cons Hk Ha'.
    + simplify_eq. by apply Hs.
    + apply (H3 c' j hw'); [by right|done|done].
  - intros t1 t2 c1 c2 Ht1 Ht2 E1 E2. destruct (Hc t1 c1 Ht1 E1) as (t1' & ? & ?).
    destruct (Hc t2 c2 Ht2 E2) as (t2' & ? & ?). by apply (H5 t1' t2').
  - intros t' c' Ht' E. destruct (Hc t' c' Ht' E) as (t'' & ? & ?). by apply (H6 t'').
  - intros t' c' Ht' E. destruct (Hc t' c' Ht' E) as (t'' & ? & ?). by apply (H7 t'').
Qed.

(** An item is dealt with; its element was written. *)
Lemma safe_done t ts h n c i a : safe (t :: ts) h n → thing_index t = Some (c, i) →
  h !! c_arrays c = Some a → errs a !! i ≠ Some None → safe ts h n.
Proof.
  intros S Hi Ha Hn. pose proof (thing_index_slots _ _ _ Hi) as Hs.
  pose proof S as [H1 H2 H3 H4 H5 H6 H7]. split.
  - intros t' c' Ht'. apply H1. by right.
  - intros t' c' j a' Ht' Hj Ha'. destruct (H2 t' c' j a') as [? [Hv He Ho]]; [by right|done|done|].
    split; [done|]. split; [done|done|]. intros k Hk. specialize (Ho k Hk). csimpl in Ho.
    rewrite Hs in Ho. apply elem_of_cons in Ho as [[= E ->]|Ho]; [|done].
    rewrite E in Ha'. simplify_eq.
  - intros c' j hw a' Ht'. apply (H3 c' j hw). by right.
  - csimpl in H4. rewrite Hs in H4. by apply NoDup_cons in H4 as [_ ?].
  - intros t1 t2 c1 c2 Ht1 Ht2. apply H5; by right.
  - intros t' c' Ht'. apply H6. by right.
  - intros t' c' Ht'. apply (H7 t'). by right.
Qed.

(** The last item frees the arrays that no other thing uses. *)
Lemma safe_free ts h n p : safe ts h n → (∀ t c, t ∈ ts → thing_command t = Some c → c_arrays c ≠ p) →
  safe ts (delete p h) n.
Proof.
  intros [H1 H2 H3 H4 H5 H6 H7] Hp. split; try done.
  - intros t c Ht Hc. rewrite lookup_delete_ne; [by apply (H1 t)|]. intros E.
    by apply (Hp t c Ht Hc).
  - intros t c i a Ht Hi [_ Ha]%lookup_delete_Some. by apply (H2 t).
  - intros c i hw a Ht Hk [_ Ha]%lookup_delete_Some. by apply (H3 c i hw).
Qed.

(** ** Commands *)
Lemma cmd_slots ts c x : x ∈ (TCmd c :: ts) ≫= thing_slots ↔
  (x.1 = c_arrays c ∧ x.2 < mCount c) ∨ x ∈ ts ≫= thing_slots.
Proof.
  csimpl. rewrite elem_of_app, list_elem_of_fmap. apply or_iff_compat_r. split.
  - intros (i & -> & Hi%elem_of_seq). simpl. lia.
  - destruct x as [p i]. simpl. intros [-> Hi]. exists i. split; [done|]. apply elem_of_seq. lia.
Qed.

Lemma safe_slot_addr ts h n x : safe ts h n → x ∈ ts ≫= thing_slots →
  ∃ t c, t ∈ ts ∧ thing_command t = Some c ∧ c_arrays c = x.1.
Proof.
  intros S (t & Hx & Ht)%list_elem_of_bind. destruct (thing_command t) as [c|] eqn:Ec.
  - exists t, c. split; [done|]. split; [done|].
    destruct t as [[c' i|c' i w|w|o|]|c'|]; simplify_eq/=.
    + by apply list_elem_of_singleton in Hx as ->.
    + by apply list_elem_of_singleton in Hx as ->.
    + by apply list_elem_of_fmap in Hx as (i & -> & _).
  - destruct (thing_command_none t Ec) as [E _]. rewrite E in Hx. by apply elem_of_nil in Hx.
Qed.

Lemma cmd_slots_NoDup c : NoDup (thing_slots (TCmd c)).
Proof. apply NoDup_fmap_2; [by intros i j [=]|apply NoDup_seq]. Qed.

Lemma safe_new ts h n c a : safe ts h n → c_arrays c = n → arrays_ok c a → mCount c ≠ 0 →
  safe (TCmd c :: ts) (<[n := a]> h) (n + 1).
Proof.
  intros S Hn Ha Hc. pose proof S as [H1 H2 H3 H4 H5 H6 H7].
  assert (∀ t' c', t' ∈ ts → thing_command t' = Some c' → c_arrays c' ≠ n) as Hne.
  { intros t' c' Ht' Hc' E. pose proof (H6 t' c' Ht' Hc'). lia. }
  split.
  - intros t' c' [->|Ht']%elem_of_cons Hc'.
    + simplify_eq/=. exists a. by rewrite lookup_insert_eq.
    + rewrite lookup_insert_ne by (by apply not_eq_sym, (Hne t')). by apply (H1 t').
  - intros t' c' j a' [->|Ht']%elem_of_cons Hj; [done|]. pose proof (thing_index_command _ _ _ Hj).
    rewrite lookup_insert_ne by (by apply not_eq_sym, (Hne t')). intros Ha'.
    destruct (H2 t' c' j a' Ht' Hj Ha') as [? Hr]. split; [done|].
    eapply running_slots; [|done]. intros x Hx. apply cmd_slots. by right.
  - intros c' j hw a' [|Ht']%elem_of_cons Hk; [done|].
    rewrite lookup_insert_ne by (by apply not_eq_sym, (Hne _ c' Ht')). by apply (H3 c' j hw).
  - csimpl. apply NoDup_app. split; [apply cmd_slots_NoDup|]. split; [|done].
    intros x (i & -> & _)%list_elem_of_fmap Hx.
    destruct (safe_slot_addr _ _ _ _ S Hx) as (t' & c' & Ht' & Hc' & E). simpl in E.
    apply (Hne t' c' Ht' Hc'). congruence.
  - intros t1 t2 c1 c2 [->|Ht1]%elem_of_cons [->|Ht2]%elem_of_cons E1 E2 E; simplify_eq/=; try done.
    + by destruct (Hne t2 c2 Ht2 E2).
    + by destruct (Hne t1 c1 Ht1 E1).
    + by apply (H5 t1 t2).
  - intros t' c' [->|Ht']%elem_of_cons Hc'; [simplify_eq/=; lia|]. pose proof (H6 t' c' Ht' Hc'). lia.
  - intros t' c' [->|Ht']%elem_of_cons Hc'; [by simplify_eq/=|]. by apply (H7 t').
Qed.

(** No other thing has the address of a command that was not started. *)
Lemma safe_alone ts h n c : safe (TCmd c :: ts) h n →
  ∀ t' c', t' ∈ ts → thing_command t' = Some c' → c_arrays c' ≠ c_arrays c.
Proof.
  intros S t' c' Ht' Hc' E. pose proof S as [_ _ _ H4 H5 _ H7].
  assert (c' = c) as -> by (apply (H5 t' (TCmd c)); [by right|constructor|done|done|done]).
  destruct (thing_slot t' c Hc') as [i Hi]; [by apply (H7 t'); [right|]|].
  csimpl in H4. apply NoDup_app in H4 as (_ & Hd & _).
  apply (Hd (c_arrays c, i)); [|by eapply slots_elem].
  apply list_elem_of_fmap. exists i. split; [done|]. apply elem_of_seq.
  destruct t' as [[c1 j|c1 j w|w|o|]|c1|]; simplify_eq/=.
  - apply list_elem_of_singleton in Hi as [= ->]. destruct S as [H1 H2 _ _ _ _ _].
    destruct (H1 _ _ (list_elem_of_here _ _) eq_refl) as (a & Ha & _).
    destruct (H2 (TResp (QueueItem c j)) c j a); [by right|done|done|lia].
  - apply list_elem_of_singleton in Hi as [= ->]. destruct S as [H1 H2 _ _ _ _ _].
    destruct (H1 _ _ (list_elem_of_here _ _) eq_refl) as (a & Ha & _).
    destruct (H2 (TResp (Answered c j w)) c j a); [by right|done|done|lia].
  - apply list_elem_of_fmap in Hi as (j & [= ->] & Hj%elem_of_seq). lia.
Qed.

(** The arrays of a command that was not started may change. *)
Lemma safe_drop_cmd ts h n c a : safe (TCmd c :: ts) h n → safe ts (<[c_arrays c := a]> h) n.
Proof.
  intros S. pose proof (safe_alone _ _ _ _ S) as Hne. pose proof S as [H1 H2 H3 H4 H5 H6 H7]. split.
  - intros t' c' Ht' Hc'. rewrite lookup_insert_ne by (by apply not_eq_sym, (Hne t')).
    apply (H1 t'); [by right|done].
  - intros t' c' j a' Ht' Hj. pose proof (thing_index_command _ _ _ Hj) as Hc'.
    rewrite lookup_insert_ne by (by apply not_eq_sym, (Hne t')). intros Ha'.
    destruct (H2 t' c' j a') as [? [Hv He Ho]]; [by right|done|done|]. split; [done|].
    split; [done|done|]. intros k Hk. apply Ho, cmd_slots in Hk as [[E _]|Hk]; [|done].
    by destruct (Hne t' c' Ht' Hc').
  - intros c' j hw a' Ht' Hk. rewrite lookup_insert_ne by (by apply not_eq_sym, (Hne _ c' Ht')).
    apply (H3 c' j hw); [by right|done].
  - csimpl in H4. by apply NoDup_app in H4 as (_ & _ & ?).
  - intros t1 t2 c1 c2 Ht1 Ht2. apply H5; by right.
  - intros t' c' Ht'. apply H6. by right.
  - intros t' c' Ht'. apply (H7 t'). by right.
Qed.

Lemma item_slots c l : (TResp ∘ QueueItem c <$> l) ≫= thing_slots = (λ i, (c_arrays c, i)) <$> l.
Proof. induction l as [|i l IH]; [done|]. csimpl. by rewrite IH. Qed.

Lemma safe_start ts h n c a : safe (TCmd c :: ts) h n → h !! c_arrays c = Some a →
  invalid_parameter (c_kind c) a = false →
  safe ((TResp ∘ QueueItem c <$> seq 0 (mCount c)) ++ ts)
    (<[c_arrays c := Arrays (replicate (mCount c) None) (mIds a) (mOptions a) (mInfos a)]> h) n.
Proof.
  intros S Ha Hv. set (a' := Arrays _ _ _ _). set (items := TResp ∘ QueueItem c <$> _).
  pose proof (safe_alone _ _ _ _ S) as Hne. pose proof (safe_drop_cmd _ _ _ _ a' S) as S'.
  assert (∀ t', t' ∈ items → ∃ i, t' = TResp (QueueItem c i) ∧ i < mCount c) as Hit.
  { intros t' (i & -> & Hi%elem_of_seq)%list_elem_of_fmap. exists i. split; [done|lia]. }
  assert ((items ++ ts) ≫= thing_slots = (TCmd c :: ts) ≫= thing_slots) as Es.
  { rewrite bind_app. unfold items. by rewrite item_slots. }
  pose proof S as [H1 _ _ H4 _ H6 H7]. pose proof S' as [H1' H2' H3' _ H5' H6' H7'].
  split; [..|by rewrite Es| | |].
  - intros t' c' [Hin|Hin]%elem_of_app Hc'; [|by apply (H1' t')].
    destruct (Hit t' Hin) as (i & -> & Hi). simplify_eq/=. exists a'. rewrite lookup_insert_eq.
    split; [done|]. destruct (H1 _ _ (list_elem_of_here _ _) eq_refl) as (a1 & Ha1 & [? ? ? ?]).
    simplify_eq. by split.
  - intros t' c' i a1 [Hin|Hin]%elem_of_app Hi Ha1.
    + destruct (Hit t' Hin) as (j & -> & Hj). simplify_eq/=. split; [done|].
      rewrite lookup_insert_eq in Ha1. injection Ha1 as <-. split; [done|apply length_replicate|].
      intros k [_ Hk]%lookup_replicate. rewrite Es. apply cmd_slots. by left.
    + destruct (H2' t' c' i a1 Hin Hi Ha1) as [? Hr]. split; [done|].
      eapply running_slots; [|done]. intros x Hx. rewrite Es. apply cmd_slots. by right.
  - intros c' i hw a1 [Hin|Hin]%elem_of_app; [by destruct (Hit _ Hin) as (j & ? & _)|by apply (H3' c' i hw)].
  - intros t1 t2 c1 c2 [Ht1|Ht1]%elem_of_app [Ht2|Ht2]%elem_of_app E1 E2 E;
      try (destruct (Hit _ Ht1) as (i1 & -> & _)); try (destruct (Hit _ Ht2) as (i2 & -> & _));
      simplify_eq/=; try done.
    + by destruct (Hne t2 c2 Ht2 E2).
    + by destruct (Hne t1 c1 Ht1 E1).
    + by apply (H5' t1 t2).
  - intros t' c' [Hin|Hin]%elem_of_app Hc'; [|by apply (H6' t')].
    destruct (Hit t' Hin) as (i & -> & _). simplify_eq/=. apply (H6 (TCmd c')); [constructor|done].
  - intros t' c' [Hin|Hin]%elem_of_app Hc'; [|by apply (H7' t')].
    destruct (Hit t' Hin) as (i & -> & _). simplify_eq/=. apply (H7 (TCmd c')); [constructor|done].
Qed.

(** ** States *)

(** A collective response that says something about every id. *)
Definition complete (o : output) : Prop :=
  match o with
  | CollectiveResponseCb _ count es ids =>
      length es = count ∧ Forall is_Some es ∧ length ids = count ∧ Forall is_Some ids
  | _ => True
  end.

Record tidy (t : list thing) (s : adapter) : Prop := Tidy {
  tidy_safe : safe (t ++ things s) (heap s) (nextArrays s);
  tidy_out : Forall complete (out s)
}.

Lemma tidy_ask t o r s : tidy (TResp r :: t) s → Forall complete o → tidy t (ask o r s).
Proof.
  intros [S O] Ho. split; [|by apply Forall_app].
  eapply safe_perm; [|exact S]. unfold things, ask, set_calls, emit. simpl.
  rewrite fmap_app. csimpl. solve_Permutation.
Qed.

Lemma tidy_emit t o s : tidy t s → Forall complete o → tidy t (emit o s).
Proof. intros [S O] Ho. split; [done|]. by apply Forall_app. Qed.

Lemma tidy_idle t x s : thing_command x = None → tidy (x :: t) s ↔ tidy t s.
Proof. intros Hx. split; intros [S O]; (split; [|done]); by apply (safe_idle x). Qed.

Lemma tidy_report client n es ids t s : tidy t s →
  complete (CollectiveResponseCb client n es ids) → tidy t (reportResponse client n es ids s).
Proof.
  intros T Hc. unfold reportResponse. repeat case_match; try done. apply tidy_emit; [done|].
  by constructor.
Qed.

Section item.
Context {t : list thing} {s : adapter} {r : response} {c : command} {i : nat}.
Context (T : tidy (TResp r :: t) s) (Hi : thing_index (TResp r) = Some (c, i)).

Lemma item_arrays : ∃ a, heap s !! c_arrays c = Some a ∧ arrays_ok c a ∧ i < mCount c ∧
  running ((TResp r :: t) ++ things s) c a.
Proof.
  destruct T as [S _]. destruct (safe_arrays _ _ _ S (TResp r) c) as (a & Ha & Hok);
    [constructor|by eapply thing_index_command|].
  destruct (safe_running _ _ _ S (TResp r) c i a) as [Hlt Hr]; [constructor|done|done|].
  by exists a.
Qed.

Lemma item_read_id : is_Some (read_id c i s).
Proof.
  destruct item_arrays as (a & Ha & [Hl Hs _ _] & Hlt & _). unfold read_id. rewrite Ha. simpl.
  destruct (lookup_lt_is_Some_2 (mIds a) i) as [x Hx]; [lia|]. rewrite Hx. simpl.
  by apply (Forall_lookup_1 _ _ _ _ Hs Hx).
Qed.

Lemma item_read_option : c_kind c = Add ∨ c_kind c = Modify → is_Some (read_option c i s).
Proof.
  destruct item_arrays as (a & Ha & [_ _ Ho _] & Hlt & [Hv _ _]). unfold read_option.
  rewrite Ha. simpl. destruct (mOptions a) as [l|] eqn:El.
  - intros _. simpl. apply lookup_lt_is_Some_2. rewrite (Ho l) by done. done.
  - intros [E|E]; rewrite E in Hv; simpl in Hv; rewrite El in Hv; by rewrite bool_decide_true in Hv.
Qed.

Lemma item_read_info : c_kind c = Add → is_Some (read_info c i s).
Proof.
  destruct item_arrays as (a & Ha & [_ _ _ Hf] & Hlt & [Hv _ _]). unfold read_info.
  rewrite Ha. simpl. destruct (mInfos a) as [l|] eqn:El.
  - intros _. simpl. apply lookup_lt_is_Some_2. rewrite (Hf l) by done. done.
  - intros E. rewrite E in Hv. simpl in Hv. rewrite El in Hv.
    by rewrite (bool_decide_true (None = None)), orb_true_r in Hv.
Qed.

Lemma item_has_request hw id : is_Some (item_request c i hw id s).
Proof.
  unfold item_request. destruct (c_kind c) eqn:Ek; try by eexists.
  - destruct item_read_option as [o ->]; [by left|]. destruct item_read_info as [f ->]; [done|].
    by eexists.
  - destruct item_read_option as [o ->]; [by right|]. by eexists.
Qed.

(** The element of an item has been written. *)
Definition written : Prop := ∃ a e, heap s !! c_arrays c = Some a ∧ errs a !! i = Some (Some e).
End item.

Arguments written : clear implicits.

Lemma item_write t s r c i e : tidy (TResp r :: t) s → thing_index (TResp r) = Some (c, i) →
  ∃ s', write_err c i e s = Some s' ∧ tidy (TResp r :: t) s' ∧ written s' c i ∧ things s' = things s.
Proof.
  intros T Hi. destruct (item_arrays T Hi) as (a & Ha & [Hl _ _ _] & Hlt & [_ He _]).
  unfold write_err. rewrite Ha. simpl. eexists. split; [done|]. split; [|split; [|done]].
  - destruct T as [S O]. split; [|done]. by apply (safe_write (TResp r) (t ++ things s) _ _ c i a e).
  - eexists _, e. simpl. rewrite lookup_insert_eq. split; [done|]. simpl.
    apply list_lookup_insert_eq. lia.
Qed.

Lemma item_swap t s c i hw : tidy (TResp (QueueItem c i) :: t) s → written s c i ∨ c_kind c = Add →
  tidy (TResp (Answered c i hw) :: t) s.
Proof.
  intros T Hw. destruct (item_arrays T eq_refl) as (a & Ha & _). destruct T as [S O].
  split; [|done]. apply (safe_swap c i hw (t ++ things s) _ _ a S Ha).
  intros Hk. destruct Hw as [(a' & e & Ha' & He)|]; [|done]. simplify_eq. by rewrite He.
Qed.

Lemma item_done t s r c i : tidy (TResp r :: t) s → thing_index (TResp r) = Some (c, i) →
  written s c i → tidy t s.
Proof.
  intros [S O] Hi (a & e & Ha & He). split; [|done].
  apply (safe_done (TResp r) (t ++ things s) _ _ c i a); [done..|]. by rewrite He.
Qed.

(** The items of a command before which a response is handled. *)
Definition in_turn (r : response) (ts : list thing) : Prop :=
  ∀ c i, thing_index (TResp r) = Some (c, i) →
  ∀ t' c' j, t' ∈ ts → thing_index t' = Some (c', j) → c_arrays c' = c_arrays c → i < j.

Lemma report_complete t s r c i a : tidy (TResp r :: t) s → thing_index (TResp r) = Some (c, i) →
  in_turn r (t ++ things s) → written s c i → S i = mCount c → heap s !! c_arrays c = Some a →
  complete (CollectiveResponseCb (mClient c) (mCount c) (errs a) (mIds a)) ∧
  ∀ t' c', t' ∈ t ++ things s → thing_command t' = Some c' → c_arrays c' ≠ c_arrays c.
Proof.
  intros T Hi Hturn (a1 & e & Ha1 & He) Hlast Ha. rewrite Ha in Ha1. injection Ha1 as <-.
  destruct (item_arrays T Hi) as (a1 & Ha1 & [Hl Hs _ _] & Hlt & [_ Hle Ho]).
  rewrite Ha in Ha1. injection Ha1 as <-.
  destruct T as [S _]. pose proof (thing_index_command _ _ _ Hi) as Hc.
  assert (∀ t' c', t' ∈ t ++ things s → thing_command t' = Some c' → c_arrays c' ≠ c_arrays c) as Hne.
  { intros t' c' Ht' Hc' E.
    assert (c' = c) as -> by (apply (safe_owner _ _ _ S t' (TResp r)); [by right|constructor|done|done|done]).
    destruct (thing_command_cases t' c Hc') as [->|[j Hj]].
    - pose proof (safe_slots _ _ _ S) as Hnd.
      change (NoDup (thing_slots (TResp r) ++ ((t ++ things s) ≫= thing_slots))) in Hnd.
      rewrite (thing_index_slots _ _ _ Hi) in Hnd. apply NoDup_cons in Hnd as [Hn _].
      apply Hn, (slots_elem _ _ _ Ht'), list_elem_of_fmap. exists i. split; [done|].
      apply elem_of_seq. lia.
    - pose proof (Hturn c i Hi t' c j Ht' Hj eq_refl).
      destruct (safe_running _ _ _ S t' c j a); [by right|done|done|lia]. }
  split; [|done]. split; [done|]. split; [|done].
  apply Forall_lookup. intros k [e'|] Hk; [done|exfalso].
  specialize (Ho k Hk).
  change ((c_arrays c, k) ∈ thing_slots (TResp r) ++ ((t ++ things s) ≫= thing_slots)) in Ho.
  apply elem_of_app in Ho as [Ho|Ho].
  - rewrite (thing_index_slots (TResp r) c i Hi) in Ho.
    apply list_elem_of_singleton in Ho as [= ->]. congruence.
  - destruct (safe_slot_addr (t ++ things s) (heap s) (nextArrays s) (c_arrays c, k)) as
      (t' & c' & Ht' & Hc' & E); [|done|by destruct (Hne t' c')].
    apply (safe_done (TResp r) _ _ _ c i a); [done|done|done|]. by rewrite He.
Qed.

Lemma item_report t s r c i : tidy (TResp r :: t) s → thing_index (TResp r) = Some (c, i) →
  in_turn r (t ++ things s) → written s c i →
  ∃ s', report_last c i s = Some s' ∧ tidy t s'.
Proof.
  intros T Hi Hturn Hw. pose proof (item_done _ _ _ _ _ T Hi Hw) as Td. unfold report_last.
  case_decide as Hlast; [|by eexists]. destruct (item_arrays T Hi) as (a & Ha & _).
  rewrite Ha. simpl. eexists. split; [done|].
  destruct (report_complete _ _ _ _ _ a T Hi Hturn Hw Hlast Ha) as [Hcomp Hne].
  apply (tidy_report (mClient c) (mCount c) (errs a) (mIds a)) in Td; [|done].
  revert Td. unfold reportResponse.
  destruct (mClientData s !! mClient c) as [cb|]; [destruct (collectiveResponseCb cb)|];
    intros [S O]; (split; [|done]); by apply safe_free.
Qed.

(** ** Closures do not fail *)
Lemma run_known_tidy t s c i id : c_kind c ≠ Add → tidy (TResp (QueueItem c i) :: t) s →
  in_turn (QueueItem c i) (t ++ things s) →
  ∃ s', run_known c i id s = Some s' ∧ tidy t s'.
Proof.
  intros Hk T Hturn. unfold run_known. destruct (getHwIdFromClient _ _ _ _) as [err hw].
  destruct (item_write _ _ _ c i err T eq_refl) as (s1 & -> & T1 & Hw & Et). simpl.
  case_decide.
  - destruct (item_has_request T1 eq_refl hw id) as [q ->]. simpl. eexists. split; [done|].
    apply tidy_ask; [|by constructor]. apply (item_swap _ _ _ _ hw T1). by left.
  - apply (item_report _ _ _ _ _ T1 eq_refl); [|done]. by rewrite Et.
Qed.

Lemma run_item_tidy t s c i : tidy (TResp (QueueItem c i) :: t) s →
  in_turn (QueueItem c i) (t ++ things s) →
  ∃ s', run_item c i s = Some s' ∧ tidy t s'.
Proof.
  intros T Hturn. unfold run_item. destruct (item_read_id T eq_refl) as [id ->]. simpl.
  case_decide; [|by apply run_known_tidy].
  destruct (item_has_request T eq_refl 0 id) as [q ->]. simpl. eexists. split; [done|].
  apply tidy_ask; [|by constructor]. apply (item_swap _ _ _ _ 0 T). by right.
Qed.

Lemma answered_written t s c i hw : tidy (TResp (Answered c i hw) :: t) s → c_kind c ≠ Add →
  written s c i.
Proof.
  intros T Hk. destruct (item_arrays T eq_refl) as (a & Ha & [Hl _ _ _] & Hlt & [_ He _]).
  destruct T as [S _].
  pose proof (safe_known _ _ _ S c i hw a (list_elem_of_here _ _) Hk Ha) as Hn.
  destruct (lookup_lt_is_Some_2 (errs a) i) as [[e|] Hx]; [lia| |done]. by exists a, e.
Qed.

(** Storing in the maps touches neither the heap nor what is pending. *)
Record map_step (s s' : adapter) : Prop := MapStep {
  ms_things : things s' = things s;
  ms_heap : heap s' = heap s;
  ms_next : nextArrays s' = nextArrays s;
  ms_out : out s' = out s
}.

Lemma map_step_tidy t s s' : map_step s s' → tidy t s → tidy t s'.
Proof. intros [E1 E2 E3 E4] [S O]. split; by rewrite ?E1, ?E2, ?E3, ?E4. Qed.

Lemma map_step_written s s' c i : map_step s s' → written s c i → written s' c i.
Proof. intros [E1 E2 E3 E4]. unfold written. by rewrite E2. Qed.

Lemma map_step_remove hw s : map_step s (removeGeofenceItem hw s).
Proof. unfold removeGeofenceItem. repeat case_match; by split. Qed.

Lemma map_step_alter f hw s : map_step s (alter_item f hw s).
Proof. unfold alter_item. case_match; by split. Qed.

Lemma write_report_tidy t s s1 r c i e : tidy (TResp r :: t) s → thing_index (TResp r) = Some (c, i) →
  in_turn r (t ++ things s) → map_step s s1 →
  ∃ s', (s2 ← write_err c i e s1; report_last c i s2) = Some s' ∧ tidy t s'.
Proof.
  intros T Hi Hturn M. pose proof (map_step_tidy _ _ _ M T) as T1.
  destruct (item_write _ _ _ c i e T1 Hi) as (s2 & -> & T2 & Hw & Et). simpl.
  apply (item_report _ _ _ _ _ T2 Hi); [|done]. by rewrite Et, (ms_things _ _ M).
Qed.

Lemma run_answered_tidy t s c i hw err data : tidy (TResp (Answered c i hw) :: t) s →
  in_turn (Answered c i hw) (t ++ things s) →
  ∃ s', run_answered c i hw err data s = Some s' ∧ tidy t s'.
Proof.
  intros T Hturn. pose proof (answered_written _ _ _ _ _ T) as Hw. unfold run_answered.
  destruct (c_kind c) eqn:Ek.
  - destruct (done_or_disabled err s); simpl; [|by apply (write_report_tidy _ s s _ c i err T eq_refl)].
    destruct (item_read_id T eq_refl) as [id ->]. simpl.
    destruct (item_read_option T eq_refl) as [o ->]; [by left|]. simpl.
    destruct (item_read_info T eq_refl) as [f ->]; [done|]. simpl.
    by apply (write_report_tidy _ s _ _ c i err T eq_refl).
  - apply (write_report_tidy _ s _ _ c i err T eq_refl); [done|].
    destruct (done_or_disabled err s); [apply map_step_remove|done].
  - apply (write_report_tidy _ s _ _ c i err T eq_refl); [done|].
    destruct (decide (err = LOCATION_ERROR_SUCCESS)); [apply map_step_alter|done].
  - destruct (decide (err = LOCATION_ERROR_SUCCESS)).
    + destruct (item_write _ _ _ c i err T eq_refl) as (s1 & -> & T1 & Hw1 & Et). simpl.
      pose proof (map_step_alter (with_paused false) hw s1) as M.
      apply (item_report _ _ _ _ _ (map_step_tidy _ _ _ M T1) eq_refl).
      * by rewrite (ms_things _ _ M), Et.
      * by apply (map_step_written _ _ _ _ M).
    + eexists. split; [done|]. by apply (item_done _ _ _ c i T eq_refl), Hw.
  - destruct (done_or_disabled err s); simpl.
    + destruct (item_write _ _ _ c i err T eq_refl) as (s1 & -> & T1 & Hw1 & Et). simpl.
      destruct (item_read_option T1 eq_refl) as [o ->]; [by right|]. simpl.
      pose proof (map_step_alter (with_options o) hw s1) as M.
      apply (item_report _ _ _ _ _ (map_step_tidy _ _ _ M T1) eq_refl).
      * by rewrite (ms_things _ _ M), Et.
      * by apply (map_step_written _ _ _ _ M).
    + by apply (item_report _ _ _ _ _ T eq_refl Hturn), Hw.
Qed.

Lemma run_response_tidy t s r err hw : tidy (TResp r :: t) s → in_turn r (t ++ things s) →
  ∃ s', run_response r err hw s = Some s' ∧ tidy t s'.
Proof.
  intros T Hturn. destruct r as [c i|c i h|h|o|]; simpl.
  - by apply run_item_tidy.
  - by apply run_answered_tidy.
  - eexists. split; [done|]. apply tidy_idle in T; [|done].
    apply (map_step_tidy _ s); [|done]. unfold stop_answered. by case_decide.
  - eexists. split; [done|]. apply tidy_idle in T; [|done]. unfold restart_answered.
    case_decide; [|done]. destruct (paused o); [|by apply (map_step_tidy _ s)].
    match goal with |- tidy _ (saveGeofenceItem _ _ _ _ _ ?s1) => apply (map_step_tidy _ s1) end; [done|].
    apply tidy_ask; [by apply tidy_idle|by constructor].
  - eexists. split; [done|]. by apply tidy_idle in T.
Qed.

(** ** Messages *)
Lemma tidy_asks (rs : list response) (op : adapter → response → adapter) t s :
  (∀ s r, r ∈ rs → ∃ o, op s r = ask o r s ∧ Forall complete o) →
  tidy ((TResp <$> rs) ++ t) s → tidy t (foldl op s rs).
Proof.
  revert s. induction rs as [|r rs IH]; intros s Hop T; [done|]. simpl.
  apply IH; [intros; apply Hop; by right|].
  destruct (Hop s r) as (o & -> & Ho); [constructor|]. by apply tidy_ask.
Qed.

Lemma proc_items_rejected c a l s s0 : invalid_parameter (c_kind c) a = true →
  (∃ a', heap s = <[c_arrays c := a']> (heap s0)) → things s = things s0 →
  nextArrays s = nextArrays s0 → out s = out s0 →
  let s' := foldl (proc_item c a) s l in
  (∃ a', heap s' = <[c_arrays c := a']> (heap s0)) ∧ things s' = things s0 ∧
  nextArrays s' = nextArrays s0 ∧ out s' = out s0.
Proof.
  intros Hv. revert s. induction l as [|i l IH]; intros s [a' Ha] Ht Hn Ho; simpl.
  - split; [by exists a'|done].
  - unfold proc_item at 2 4 6 8. rewrite Hv. unfold write_err. rewrite Ha, lookup_insert_eq. simpl.
    apply IH; try done. simpl. eexists. rewrite insert_insert_eq. done.
Qed.

Lemma proc_geofences_tidy t s c : tidy (TCmd c :: t) s →
  ∃ s', proc_geofences c s = Some s' ∧ tidy t s'.
Proof.
  intros [S O]. unfold proc_geofences.
  destruct (safe_arrays _ _ _ S (TCmd c) c) as (a & Ha & _); [constructor|done|].
  rewrite Ha. simpl. eexists. split; [done|].
  set (a' := Arrays _ _ _ _). set (s1 := set_heap _ _ _).
  destruct (invalid_parameter (c_kind c) a') eqn:Hv.
  - destruct (proc_items_rejected c a' (seq 0 (mCount c)) s1 s) as ([a2 E1] & E2 & E3 & E4);
      [done|by exists a'|done..|].
    split; [|by rewrite E4]. rewrite E1, E2, E3. by apply (safe_drop_cmd (t ++ things s)).
  - rewrite proc_items_ask by done. apply tidy_asks.
    { intros s2 r _. exists []. split; [done|constructor]. }
    rewrite <- list_fmap_compose. split; [|done]. rewrite <- (assoc_L (++)).
    apply (safe_start (t ++ things s)); [done|done|].
    by destruct (c_kind c).
Qed.

Lemma stop_sessions_tidy t s client : tidy t s → tidy t (stopClientSessions client s).
Proof.
  unfold stopClientSessions. generalize (entries key_le (mGeofenceIds s)) as l. intros l. revert s.
  induction l as [|[kk hw] l IH]; intros s T; [done|]. simpl. apply IH. case_decide; [|done].
  apply tidy_ask; [|by constructor]. apply tidy_idle; [done|]. by destruct T.
Qed.

Lemma restart_tidy t s : tidy t s → tidy t (restartGeofences s).
Proof.
  unfold restartGeofences. case_decide; [done|]. intros [S O].
  assert (tidy t (set_fences ∅ ∅ s)) as T by done. revert T.
  generalize (set_fences ∅ ∅ s). generalize ((entries Z.le (mGeofences s)).*2).
  clear. intros l. induction l as [|o l IH]; intros s0 T; [done|]. simpl. apply IH.
  apply tidy_ask; [|by constructor]. by apply tidy_idle.
Qed.

Lemma complete_omap {A} (f : A → option output) (l : list A) :
  (∀ x o, f x = Some o → complete o) → Forall complete (omap f l).
Proof.
  intros Hf. apply Forall_forall. intros o (x & _ & Hx)%list_elem_of_omap. by eapply Hf.
Qed.

Lemma tidy_resend t l s : Forall (λ m : Z * locmsg, msg_things m.2 = []) l →
  tidy t s → tidy t (resend l s).
Proof.
  intros Hl [S O]. split; [|done].
  assert (things (resend l s) = things s) as E; [|by rewrite E].
  unfold things, resend. simpl. rewrite fmap_app, bind_app.
  assert (l.*2 ≫= msg_things = []) as ->; [|by rewrite app_nil_r].
  clear S O. induction Hl as [|m l Hm Hl IH]; [done|]. csimpl. by rewrite Hm.
Qed.

Lemma tidy_events t s : tidy t s → tidy t (updateClientsEventMask s).
Proof. intros [S O]. split; [done|]. apply Forall_app. split; [done|]. by constructor. Qed.

Section messages.
Context (g : engine_caps).

Lemma proc_msg_tidy m s : pending_idle s → tidy (msg_things m) s →
  (∀ r err hw, m = MsgResponse r err hw → in_turn r (things s)) →
  ∃ s', proc_msg g m s = Some s' ∧ tidy [] s'.
Proof.
  intros Hp T Hf. destruct m as [cl cb|cl b|cl|c|r err hw|l lo ty ti|av| |st]; simpl in *.
  - eexists. split; [done|]. by apply tidy_events, (map_step_tidy _ s).
  - eexists. split; [done|]. apply tidy_idle, (stop_sessions_tidy _ _ cl) in T; [|done].
    assert (tidy [] (eraseClient cl (stopClientSessions cl s))) as T1.
    { by apply tidy_events, (map_step_tidy _ (stopClientSessions cl s)). }
    destruct b; [|done]. apply tidy_emit; [done|by constructor].
  - eexists. split; [done|]. unfold proc_request_capabilities.
    repeat case_match; try done; [by apply (map_step_tidy _ s)|].
    apply tidy_emit; [done|]. by constructor.
  - by apply proc_geofences_tidy.
  - apply run_response_tidy; [done|]. by apply (Hf r err hw).
  - eexists. split; [done|]. apply tidy_emit; [done|]. apply complete_omap. intros [cl cb] o. simpl.
    intros Ho. repeat case_match; by simplify_eq.
  - eexists. split; [done|]. apply tidy_emit; [done|]. apply complete_omap. intros [cl cb] o. simpl.
    intros Ho. repeat case_match; by simplify_eq.
  - eexists. split; [done|]. unfold proc_ssr.
    assert (tidy [] (broadcastCapabilities (getCapabilities g true) (setEngineCapabilitiesKnown true s))) as T1.
    { apply tidy_emit; [by apply (map_step_tidy _ s)|]. apply complete_omap. intros [cl cb] o. simpl.
      intros Ho. case_match; by simplify_eq. }
    case_decide; [|done]. apply tidy_resend; [|by apply restart_tidy].
    rewrite (calm_pending _ _ (calm_restart _)). by apply pending_no_things.
  - eexists. split; [done|]. unfold handleEngineLockStatus. case_decide; [|done].
    destruct Hp as [_ Hg]. rewrite Hg. destruct (tidy_resend [] [] s) as [S O]; [done|done|]. done.
Qed.
End messages.

(** ** Message objects *)
Record posted (s : adapter) : Prop := Posted {
  post_nodup : NoDup (queue s).*1;
  post_live : ∀ a, a ∈ (queue s).*1 → a ∉ deleted s;
  post_queue : ∀ a, a ∈ (queue s).*1 → (a < nextMsg s)%Z;
  post_deleted : ∀ a, a ∈ deleted s → (a < nextMsg s)%Z;
  post_pending : ∀ a, a ∈ (mPendingMsgs s).*1 → (a < nextMsg s)%Z;
  post_once : NoDup (mPendingMsgs s).*1
}.

(** The engine comes up: no pending message has been queued before. *)
Definition first_resend (s : adapter) : Prop :=
  lock s = ENGINE_LOCK_STATE_ENABLED →
  ∀ a, a ∈ (mPendingMsgs s).*1 → (a ∉ deleted s) ∧ (a ∉ (queue s).*1).

(** [a]: the message that runs. *)
Record posted_running (a : Z) (s : adapter) : Prop := PostedRunning {
  pr_posted : posted s;
  pr_away : a ∉ (queue s).*1;
  pr_next : (a < nextMsg s)%Z
}.

Lemma posted_calm a s s' : calm s s' → posted_running a s → posted_running a s'.
Proof.
  intros [E1 _ _ E2 E3 E4] [[? ? ? ? ? ?] ? ?].
  split; [split|..]; rewrite ?E1, ?E2, ?E3, ?E4; done.
Qed.

Lemma posted_resend a l s : posted_running a s → NoDup l.*1 →
  (∀ x, x ∈ l.*1 → (x ∉ deleted s) ∧ (x ∉ (queue s).*1) ∧ x ≠ a ∧ (x < nextMsg s)%Z) →
  posted_running a (resend l s).
Proof.
  intros [[? ? ? ? ? ?] ? ?] Hnd Hl. split; [split|..]; simpl; rewrite ?fmap_app; try done.
  - apply NoDup_app. split; [done|]. split; [|done]. intros x Hx Hx'. by destruct (Hl x Hx') as (_ & ? & _).
  - intros x [Hx|Hx]%elem_of_app; [auto|]. by apply Hl.
  - intros x [Hx|Hx]%elem_of_app; [auto|]. by apply Hl.
  - intros [Hx|Hx]%elem_of_app; [done|]. by destruct (Hl a Hx) as (_ & _ & ? & _).
Qed.

Lemma posted_send m s : posted s → posted (sendMsg m s).
Proof.
  intros [H1 H2 H3 H4 H5 H6]. split; simpl; rewrite ?fmap_app; csimpl; try done.
  - apply NoDup_app. split; [done|]. split; [|apply NoDup_singleton].
    intros x Hx%H3 ->%list_elem_of_singleton. lia.
  - intros x [Hx|Hx]%elem_of_app; [auto|]. apply list_elem_of_singleton in Hx as ->.
    intros Hx%H4. lia.
  - intros x [Hx|Hx]%elem_of_app; [apply H3 in Hx; lia|]. apply list_elem_of_singleton in Hx. lia.
  - intros x Hx%H4. lia.
  - intros x Hx%H5. lia.
Qed.

Section posting.
Context (g : engine_caps).

Lemma proc_msg_posted m a s s' : posted_running a s → pending_idle s →
  (m = MsgSSREvent → lock s = ENGINE_LOCK_STATE_ENABLED → ∀ x, x ∈ (mPendingMsgs s).*1 →
    (x ∉ deleted s) ∧ (x ∉ (queue s).*1) ∧ x ≠ a) →
  proc_msg g m s = Some s' → posted_running a s'.
Proof.
  intros P Hp Hf Hm.
  destruct m as [cl cb|cl b|cl|c|r err hw|l lo ty ti|av| |st]; simpl in Hm.
  - simplify_eq. eapply posted_calm; [|done]. by split.
  - simplify_eq. eapply posted_calm; [|done]. etrans; [apply calm_stop|]. destruct b; by split.
  - simplify_eq. unfold proc_request_capabilities.
    repeat case_match; try (eapply posted_calm; [|done]; by split).
    destruct P as [[H1 H2 H3 H4 H5 H6] Ha Hn]. split; [split|..]; simpl; try done.
    + intros x Hx%H3. lia.
    + intros x Hx%H4. lia.
    + rewrite fmap_app. intros x [Hx%H5| ->%list_elem_of_singleton]%elem_of_app; simpl; lia.
    + rewrite fmap_app. apply NoDup_app. split; [done|]. split; [|apply NoDup_singleton].
      intros x Hx%H5 E%list_elem_of_singleton. simpl in E. lia.
    + lia.
  - eapply posted_calm; [|done]. by eapply calm_geofences.
  - eapply posted_calm; [|done]. by eapply calm_response.
  - simplify_eq. eapply posted_calm; [|done]. by split.
  - simplify_eq. eapply posted_calm; [|done]. by split.
  - simplify_eq. specialize (Hf eq_refl). unfold proc_ssr.
    case_decide as El; [|by apply (posted_calm _ s)].
    match goal with |- context [restartGeofences ?s1] =>
      assert (calm s (restartGeofences s1)) as Hc by (etrans; [|apply calm_restart]; by split);
      pose proof (posted_calm _ _ _ Hc P) as P1; revert P1 Hc; generalize (restartGeofences s1) end.
    intros s1 P1 [E1 _ _ E2 E3 E4]. rewrite E1. destruct P as [[H1 H2 H3 H4 H5 H6] ? Hn].
    apply posted_resend; [done|done|]. intros x Hx. rewrite E2, E3, E4.
    destruct (Hf El x Hx) as (? & ? & ?). auto.
  - simplify_eq. unfold handleEngineLockStatus. case_decide; [|done].
    destruct Hp as [_ Hg]. rewrite Hg. apply (posted_resend a []) in P; [|constructor|].
    + by destruct P as [[? ? ? ? ? ?] ? ?].
    + by intros x ?%elem_of_nil.
Qed.

(** ** Orderly runs *)

(** Arrays that are long enough, and set where the code reads them. *)
Definition long {A} (count : nat) (l : option (list A)) : Prop :=
  ∀ x, l = Some x → count ≤ length x.
Definition given {A} (count : nat) (l : option (list A)) : Prop :=
  ∃ x, l = Some x ∧ count ≤ length x.

(** The callers pass what they declare; the items of a command are dealt with
    one after the other; the engine comes up once after a request waited for
    it. *)
Definition orderly (e : event) (s : adapter) : Prop :=
  match e with
  | AddGeofences _ count options infos => long count options ∧ long count infos
  | RemoveGeofences _ count ids | PauseGeofences _ count ids | ResumeGeofences _ count ids =>
      given count ids
  | ModifyGeofences _ count ids options => given count ids ∧ long count options
  | BreachEvent count hwIds _ _ _ => long count hwIds
  | ThreadRun =>
      match queue s with
      | (_, MsgResponse r _ _) :: q => in_turn r (things (set_queue q (deleted s) (nextMsg s) s))
      | (_, MsgSSREvent) :: _ => first_resend s
      | _ => True
      end
  | _ => True
  end.

Inductive orderly_reach : adapter → Prop :=
  | orderly_init known : orderly_reach (init_adapter known)
  | orderly_step e s s' :
      orderly_reach s → orderly e s → step g e s = Some s' → orderly_reach s'.

Record fit (s : adapter) : Prop := Fit {
  fit_tidy : tidy [] s;
  fit_posted : posted s;
  fit_pending : pending_idle s
}.

Lemma fit_thread s : fit s → orderly ThreadRun s → ∃ s', thread_run g s = Some s' ∧ fit s'.
Proof.
  intros [T P Hp] Ho. unfold thread_run. simpl in Ho. destruct (queue s) as [|[a m] q] eqn:Eq.
  { eexists. split; [done|]. by split. }
  destruct P as [H1 H2 H3 H4 H5 H6]. rewrite Eq in *. csimpl in *. apply NoDup_cons in H1 as [Hq H1].
  rewrite decide_False by (apply H2; constructor).
  set (s0 := set_queue q (deleted s) (nextMsg s) s) in *.
  assert (posted_running a s0) as P0.
  { split; [split|..]; simpl; try done.
    - intros x Hx. apply H2. by right.
    - intros x Hx. apply H3. by right.
    - apply H3. constructor. }
  destruct (proc_msg_tidy g m s0) as (s1 & Hm & T1); [done|..].
  { destruct T as [S O]. split; [|done]. eapply safe_perm; [|exact S].
    unfold things. simpl. rewrite Eq. csimpl. solve_Permutation. }
  { intros r err hw ->. done. }
  rewrite Hm. simpl. eexists. split; [done|].
  destruct (proc_msg_idle g m s0 s1 Hp Hm) as [Hp1 _].
  destruct (proc_msg_posted m a s0 s1 P0 Hp) as [[G1 G2 G3 G4 G5 G6] Ga Gn]; [|done|].
  { intros -> El x Hx. destruct (Ho El x Hx) as [? Hx']. rewrite Eq in Hx'. csimpl in Hx'.
    apply not_elem_of_cons in Hx' as [? ?]. done. }
  split; [by destruct T1| |done]. split; simpl; try done.
  - intros x Hx. apply not_elem_of_cons. split; [by intros ->|auto].
  - intros x [->|Hx]%elem_of_cons; auto.
Qed.
Lemma tidy_sent m s : tidy (msg_things m) s → tidy [] (sendMsg m s).
Proof.
  intros [S O]. split; [|done]. eapply safe_perm; [|exact S]. unfold things, sendMsg. simpl.
  rewrite fmap_app, bind_app. csimpl. rewrite app_nil_r. solve_Permutation.
Qed.

Lemma fit_send m s : msg_things m = [] → fit s → fit (sendMsg m s).
Proof.
  intros Hm [T P Hp]. split; [|by apply posted_send|done]. apply tidy_sent. by rewrite Hm.
Qed.

Lemma fit_command c a s : fit s → c_arrays c = nextArrays s → arrays_ok c a → mCount c ≠ 0 →
  fit (sendMsg (MsgGeofences c) (set_heap (<[nextArrays s := a]> (heap s)) (nextArrays s + 1) s)).
Proof.
  intros [[S O] P Hp] Hc Ha Hn. split; [|by apply posted_send; destruct P|done].
  apply tidy_sent. split; [|done]. by apply safe_new.
Qed.

Lemma copy_long {A} count (l : option (list A)) : long count l →
  ∃ l', copy_if_not_null count l = Some l' ∧ ∀ x, l' = Some x → length x = count.
Proof.
  intros Hl. destruct l as [l|]; simpl; [|by exists None].
  specialize (Hl l eq_refl). unfold copy_array. rewrite decide_True by done. simpl.
  eexists. split; [done|]. intros x [= <-]. rewrite length_take. lia.
Qed.

Lemma copy_given {A} count (l : option (list A)) : given count l →
  ∃ x, copy_if_not_null count l = Some (Some x) ∧ length x = count.
Proof.
  intros (x & -> & Hx). simpl. unfold copy_array. rewrite decide_True by done. simpl.
  eexists. split; [done|]. rewrite length_take. lia.
Qed.

Lemma fit_add client count options infos s : fit s → long count options → long count infos →
  ∃ s', snd <$> addGeofencesCommand client count options infos s = Some s' ∧ fit s'.
Proof.
  intros F Ho Hi. unfold addGeofencesCommand. case_decide; [by eexists|].
  destruct (copy_long _ _ Ho) as (o & -> & Lo). destruct (copy_long _ _ Hi) as (i & -> & Li).
  simpl. eexists. split; [done|].
  assert (fit (set_counter (drawn count (mSessionIdCounter s)) s)) as F1.
  { destruct F as [[S O] [? ? ? ? ? ?] Hp]. by split. }
  apply (fit_command (Command Add client count (nextArrays s)) _ _ F1); [done| |done].
  split; simpl; [by rewrite length_fmap, length_seq| |done|done].
  apply Forall_forall. intros x (k & -> & _)%list_elem_of_fmap. by eexists.
Qed.

Lemma fit_ids k client count ids options s : fit s → given count ids → long count options →
  ∃ s', idsCommand k client count ids options s = Some s' ∧ fit s'.
Proof.
  intros F Hi Ho. unfold idsCommand. case_decide; [by eexists|].
  destruct (copy_given _ _ Hi) as (i & -> & Li). destruct (copy_long _ _ Ho) as (o & E & Lo).
  simpl. rewrite E. simpl. eexists. split; [done|].
  apply (fit_command (Command k client count (nextArrays s)) _ _ F); [done| |done].
  split; simpl; [by rewrite length_fmap| |done|done].
  apply Forall_forall. intros x (j & -> & _)%list_elem_of_fmap. by eexists.
Qed.

Lemma fit_step e s : fit s → orderly e s → ∃ s', step g e s = Some s' ∧ fit s'.
Proof.
  intros F Ho.
  destruct e as [cl cb|cl b|cl|cl n o i|cl n l|cl n l|cl n l|cl n l o| |st|n l lo ty ti|av|n err hw|st| |];
    simpl in *; try (eexists; split; [done|]; by apply fit_send).
  - eexists. split; [done|]. destruct F as [T P Hp]. split; [|by apply posted_send|done].
    apply tidy_sent. by apply tidy_idle.
  - destruct Ho. by apply fit_add.
  - by apply fit_ids.
  - by apply fit_ids.
  - by apply fit_ids.
  - destruct Ho. by apply fit_ids.
  - unfold geofenceBreachEvent. destruct l as [l|]; [|by eexists]. case_decide; [by eexists|].
    unfold copy_array. rewrite decide_True by by apply Ho. simpl. eexists. split; [done|].
    by apply fit_send.
  - destruct (calls s !! n) as [r|] eqn:Er; [|by eexists]. eexists. split; [done|].
    destruct F as [[S O] P Hp]. split; [|by apply posted_send; destruct P|done].
    apply tidy_sent. split; [|done]. eapply safe_perm; [|exact S]. unfold things. simpl.
    apply delete_Permutation in Er.
    change ((TResp <$> calls s) ++ ((queue s).*2 ≫= msg_things) ≡ₚ
      (TResp <$> r :: delete n (calls s)) ++ ((queue s).*2 ≫= msg_things)).
    by apply Permutation_app_tail, fmap_Permutation.
  - eexists. split; [done|]. destruct F as [[S O] [? ? ? ? ? ?] Hp]. by split.
  - eexists. split; [done|]. destruct F as [[S O] [? ? ? ? ? ?] Hp]. by split.
  - by apply fit_thread.
Qed.

Lemma fit_init known : fit (init_adapter known).
Proof.
  split; [split; [|constructor]|split|by split]; simpl; try (by constructor);
    try (by intros a ?%elem_of_nil); split; try (by intros t c ?%elem_of_nil);
    try (by intros t c i a ?%elem_of_nil); try (by constructor).
Qed.

Lemma orderly_fit s : orderly_reach s → fit s.
Proof.
  induction 1 as [known|e s s' Hr IH Ho Hs]; [apply fit_init|].
  destruct (fit_step e s IH Ho) as (s1 & E & F). congruence.
Qed.
End posting.

(** C6: In an orderly run (callers pass what they declare, the items of each
    command are dealt with one after the other, in any interleaving with
    everything else, and no waiting request is queued twice) every step of the
    adapter is defined: no closure uses arrays that were freed and no message
    runs after it was deleted; and every collective response reports one set
    error for each of the ids of the command. *)
Theorem orderly_runs_are_safe g s : orderly_reach g s →
  (∀ e, orderly e s → is_Some (step g e s)) ∧ Forall complete (out s).
Proof.
  intros Hr. pose proof (orderly_fit g s Hr) as F. split.
  - intros e Ho. destruct (fit_step g e s F Ho) as (s' & -> & _). by eexists.
  - apply F.
Qed.

(** ** Runs that can be computed *)
Definition in_turnb (r : response) (ts : list thing) : bool :=
  match thing_index (TResp r) with
  | Some (c, i) => forallb (λ t, match thing_index t with
      | Some (c', j) => negb (bool_decide (c_arrays c' = c_arrays c)) || bool_decide (i < j)
      | None => true end) ts
  | None => true
  end.

Lemma in_turnb_in_turn r ts : in_turnb r ts = true → in_turn r ts.
Proof.
  unfold in_turnb, in_turn. intros Hb c i Hi t' c' j Ht' Hj E. rewrite Hi in Hb.
  rewrite forallb_forall in Hb. apply list_elem_of_In, Hb in Ht'. rewrite Hj in Ht'.
  rewrite (bool_decide_true (c_arrays c' = _)) in Ht' by done. by apply bool_decide_eq_true in Ht'.
Qed.

Definition longb {A} (count : nat) (l : option (list A)) : bool :=
  match l with Some x => bool_decide (count ≤ length x) | None => true end.
Definition givenb {A} (count : nat) (l : option (list A)) : bool :=
  match l with Some x => bool_decide (count ≤ length x) | None => false end.

Lemma longb_long {A} count (l : option (list A)) : longb count l = true → long count l.
Proof. destruct l; [|done]. simpl. intros ?%bool_decide_eq_true x [= <-]. done. Qed.
Lemma givenb_given {A} count (l : option (list A)) : givenb count l = true → given count l.
Proof. destruct l as [l|]; [|done]. simpl. intros ?%bool_decide_eq_true. by exists l. Qed.

Definition orderlyb (e : event) (s : adapter) : bool :=
  match e with
  | AddGeofences _ count options infos => longb count options && longb count infos
  | RemoveGeofences _ count ids | PauseGeofences _ count ids | ResumeGeofences _ count ids =>
      givenb count ids
  | ModifyGeofences _ count ids options => givenb count ids && longb count options
  | BreachEvent count hwIds _ _ _ => longb count hwIds
  | ThreadRun =>
      match queue s with
      | (_, MsgResponse r _ _) :: q => in_turnb r (things (set_queue q (deleted s) (nextMsg s) s))
      | (_, MsgSSREvent) :: _ =>
          forallb (λ a, negb (bool_decide (a ∈ deleted s)) && negb (bool_decide (a ∈ (queue s).*1)))
            (mPendingMsgs s).*1
      | _ => true
      end
  | _ => true
  end.

Lemma orderlyb_orderly e s : orderlyb e s = true → orderly e s.
Proof.
  destruct e; simpl; rewrite ?andb_true_iff; try done.
  - intros [? ?]. split; by apply longb_long.
  - apply givenb_given.
  - apply givenb_given.
  - apply givenb_given.
  - intros [? ?]. split; [by apply givenb_given|by apply longb_long].
  - apply longb_long.
  - destruct (queue s) as [|[a []] q] eqn:Eq; try done; [apply in_turnb_in_turn|].
    rewrite forallb_forall. intros Hb _ x Hx. rewrite Eq. apply list_elem_of_In, Hb in Hx.
    by rewrite andb_true_iff, !negb_true_iff, !bool_decide_eq_false in Hx.
Qed.

Fixpoint orderly_run (g : engine_caps) (l : list event) (s : adapter) : option adapter :=
  match l with
  | [] => Some s
  | e :: l => if orderlyb e s then s' ← step g e s; orderly_run g l s' else None
  end.

Lemma orderly_reach_run g l s s' : orderly_reach g s → orderly_run g l s = Some s' →
  orderly_reach g s'.
Proof.
  revert s. induction l as [|e l IH]; intros s Hr; simpl; [by intros [= <-]|].
  destruct (orderlyb e s) eqn:Eo; [|done]. intros (s1 & Hs & Hl)%bind_Some.
  apply (IH s1); [|done]. eapply orderly_step; [done|by apply orderlyb_orderly|done].
Qed.

(** Two geofences are added by one command, paused by another whose second id
    is unknown, and both commands are answered. *)
Definition orderly_example : list event :=
  let answer := [ReturnToSender 0 LOCATION_ERROR_SUCCESS 5; ThreadRun] in
  [AddClient 16 all_cbs; ThreadRun;
   AddGeofences 16 2 (Some [example_option; example_option]) (Some [example_info; example_info]);
   ThreadRun] ++ answer ++
  [ReturnToSender 1 LOCATION_ERROR_SUCCESS 5; ThreadRun] ++ answer ++
  [ReturnToSender 0 LOCATION_ERROR_GEOFENCES_AT_MAX 0; ThreadRun;
   PauseGeofences 16 2 (Some [2%Z; 9%Z]); ThreadRun] ++ answer ++
  [ReturnToSender 1 LOCATION_ERROR_TIMEOUT 0; ThreadRun] ++ answer.

Definition orderly_state : adapter :=
  default (init_adapter true) (orderly_run example_caps orderly_example (init_adapter true)).

Lemma orderly_runs_are_safe_witness :
  Forall complete (out orderly_state) ∧
  CollectiveResponseCb 16 2 [Some LOCATION_ERROR_TIMEOUT; Some LOCATION_ERROR_ID_UNKNOWN]
    [Some 2%Z; Some 9%Z] ∈ out orderly_state.
Proof.
  split.
  - apply (orderly_runs_are_safe example_caps orderly_state).
    apply (orderly_reach_run example_caps orderly_example (init_adapter true)); [constructor|].
    vm_compute. reflexivity.
  - vm_compute. repeat constructor.
Defined.
