(* ===== verification/GeofenceFaults.v ===== *)
(** * Geofence adapter: runs that go wrong

    What the orderly runs of [GeofenceSafe] leave out: commands whose arrays are
    freed while an answer is under way, commands that are never answered, and
    waiting requests that are queued a second time after they were deleted. *)
From stdpp Require Import sorting.
From S2P Require Import Prelude OrderedMap Doubles LocAdapter Geofence GeofenceInv GeofenceProps GeofenceSafe.

Lemma steps_none g l : foldl (λ s e, s ≫= step g e) None l = None.
Proof. by induction l. Qed.

Lemma steps_cons g e l s : steps g (e :: l) s = s' ← step g e s; steps g l s'.
Proof. unfold steps. simpl. destruct (step g e s); [done|apply steps_none]. Qed.

(** The location API answers the first response object it holds. *)
Definition answer (err : LocationError) (hwId : Z) : list event := [ReturnToSender 0 err hwId; ThreadRun].

(** An answer whose arrays are gone. *)
Lemma answered_gone c i hw err data s : heap s !! c_arrays c = None →
  c_kind c = Remove ∨ c_kind c = Pause → run_answered c i hw err data s = None.
Proof.
  intros Hh Hk. assert (∀ s', map_step s s' → write_err c i err s' = None) as Hw.
  { intros s' M. unfold write_err. by rewrite (ms_heap _ _ M), Hh. }
  unfold run_answered. destruct Hk as [-> | ->]; rewrite Hw; try done.
  - destruct (done_or_disabled err s); [apply map_step_remove|done].
  - case_decide; [apply map_step_alter|done].
Qed.

(** A state in which the thread has nothing to do. *)
Record idle (s : adapter) : Prop := Idle {
  idle_queue : queue s = [];
  idle_deleted : ∀ a, a ∈ deleted s → (a < nextMsg s)%Z
}.

(** The message that runs next is taken, and afterwards deleted. *)
Definition taking (s : adapter) : adapter := set_queue [] (deleted s) (nextMsg s + 1) s.
Definition deleting (a : Z) (s : adapter) : adapter :=
  set_queue (queue s) (a :: deleted s) (nextMsg s) s.

Lemma send_and_run g m s : idle s →
  thread_run g (sendMsg m s) = s' ← proc_msg g m (taking s); Some (deleting (nextMsg s) s').
Proof.
  intros [Hq Hd]. unfold thread_run, sendMsg, taking. simpl. rewrite Hq. simpl.
  rewrite decide_False by (intros ?%Hd; lia). done.
Qed.

Lemma idle_deleting s s' : idle s → calm (taking s) s' → idle (deleting (nextMsg s) s').
Proof.
  intros [Hq Hd] [_ _ _ E1 E2 E3]. simpl in *. split; simpl; rewrite ?E1, ?E2, ?E3; [done|].
  intros x [->|Hx%Hd]%elem_of_cons; lia.
Qed.

(** One answer, run to its end. *)
Lemma answer_steps g err hw r l s rest : idle s → calls s = r :: l →
  steps g (answer err hw ++ rest) s =
  s' ← run_response r err hw (taking (set_calls l s)); steps g rest (deleting (nextMsg s) s').
Proof.
  intros Hi Hc. unfold answer. simpl. rewrite !steps_cons. simpl. rewrite Hc. simpl.
  rewrite steps_cons. simpl. rewrite send_and_run; [|by destruct Hi].
  simpl. by destruct (run_response _ _ _ _).
Qed.

(** A command puts its items into the call queue. *)
Lemma asks_calls (rs : list response) s :
  let s' := foldl (λ s r, ask [] r s) s rs in
  calls s' = calls s ++ rs ∧ heap s' = heap s ∧ mGeofenceIds s' = mGeofenceIds s.
Proof.
  revert s. induction rs as [|r rs IH]; intros s; simpl; [by rewrite app_nil_r|].
  destruct (IH (ask [] r s)) as (-> & -> & ->). simpl. by rewrite <- app_assoc.
Qed.

Lemma proc_geofences_items c a s : heap s !! c_arrays c = Some a →
  invalid_parameter (c_kind c) a = false →
  ∃ s', proc_geofences c s = Some s' ∧ calls s' = calls s ++ (QueueItem c <$> seq 0 (mCount c)) ∧
    heap s' !! c_arrays c =
      Some (Arrays (replicate (mCount c) None) (mIds a) (mOptions a) (mInfos a)) ∧
    mGeofenceIds s' = mGeofenceIds s.
Proof.
  intros Ha Hv. unfold proc_geofences. rewrite Ha. simpl.
  rewrite proc_items_ask by (by destruct (c_kind c)). eexists. split; [done|].
  edestruct asks_calls as (-> & -> & ->). simpl. by rewrite lookup_insert_eq.
Qed.

(** ** Two removals *)
Section removal.
Context (c : command) (id bad hw : Z) (s : adapter).
Context (Hk : c_kind c = Remove) (Hn : mCount c = 2).

Definition removal_arrays (es : list (option LocationError)) : arrays :=
  Arrays es [Some id; Some bad] None None.

Lemma removal_known es : heap s !! c_arrays c = Some (removal_arrays es) →
  mGeofenceIds s !! MkGeofenceKey (mClient c) id = Some hw →
  ∃ s', run_item c 0 s = Some s' ∧ calls s' = calls s ++ [Answered c 0 hw] ∧
    (∃ es', heap s' !! c_arrays c = Some (removal_arrays es')) ∧ mGeofenceIds s' = mGeofenceIds s.
Proof.
  intros Hh Hid. unfold run_item, read_id. rewrite Hh. simpl. rewrite Hk. simpl.
  unfold run_known, getHwIdFromClient, write_err, item_request. rewrite Hid, Hh. simpl. rewrite Hk.
  simpl. eexists. repeat split. eexists. simpl. by rewrite lookup_insert_eq.
Qed.

Lemma removal_unknown es : heap s !! c_arrays c = Some (removal_arrays es) →
  mGeofenceIds s !! MkGeofenceKey (mClient c) bad = None →
  ∃ s', run_item c 1 s = Some s' ∧ calls s' = calls s ∧ heap s' !! c_arrays c = None.
Proof.
  intros Hh Hbad. unfold run_item, read_id. rewrite Hh. simpl. rewrite Hk. simpl.
  unfold run_known, getHwIdFromClient, write_err, report_last. rewrite Hbad, Hh. simpl. rewrite Hn.
  simpl. rewrite lookup_insert_eq. simpl. eexists. split; [done|]. simpl.
  unfold reportResponse. repeat case_match; (split; [done|]); apply lookup_delete_eq.
Qed.
End removal.

Lemma removal_started g client id bad s rest : idle s →
  let c := Command Remove client 2 (nextArrays s) in
  ∃ s1, steps g ([RemoveGeofences client 2 (Some [id; bad]); ThreadRun] ++ rest) s = steps g rest s1 ∧
    idle s1 ∧ heap s1 !! c_arrays c = Some (removal_arrays id bad [None; None]) ∧
    calls s1 = calls s ++ [QueueItem c 0; QueueItem c 1] ∧ mGeofenceIds s1 = mGeofenceIds s.
Proof.
  intros Hi c. cbn [app]. rewrite !steps_cons. simpl. unfold removeGeofencesCommand, idsCommand. simpl.
  rewrite steps_cons. simpl. set (s0 := set_heap _ _ s).
  assert (idle s0) as H0 by (by destruct Hi). rewrite (send_and_run g _ s0 H0). simpl.
  destruct (proc_geofences_items c (removal_arrays id bad []) (taking s0)) as (s1 & E & Hc & Hh & Hm);
    [simpl; apply lookup_insert_eq|done|].
  unfold c in E. rewrite E. simpl. eexists. split; [done|]. split; [|by split].
  apply (idle_deleting s0 s1 H0). by apply calm_geofences in E.
Qed.

(** C39: A location API that answers its response objects in the order in
    which it got them is not enough: a client that removes two geofences, of
    which the second does not exist, makes the adapter report and free the
    arrays of the command before the engine's answer about the first, and that
    answer is written into the freed array. *)
Theorem fifo_answers_use_freed_arrays g client id bad hw err data s :
  queue s = [] → calls s = [] → (∀ a, a ∈ deleted s → (a < nextMsg s)%Z) →
  mGeofenceIds s !! MkGeofenceKey client id = Some hw →
  mGeofenceIds s !! MkGeofenceKey client bad = None →
  steps g ([RemoveGeofences client 2 (Some [id; bad]); ThreadRun] ++
    answer LOCATION_ERROR_SUCCESS 0 ++ answer LOCATION_ERROR_SUCCESS 0 ++ answer err data) s = None.
Proof.
  intros Hq Hcalls Hdel Hid Hbad. set (c := Command Remove client 2 (nextArrays s)).
  destruct (removal_started g client id bad s (answer LOCATION_ERROR_SUCCESS 0 ++
    answer LOCATION_ERROR_SUCCESS 0 ++ answer err data)) as (s1 & -> & H1 & Hh1 & Hc1 & Hm1); [by split|].
  fold c in Hh1, Hc1. rewrite <- Hm1 in Hid, Hbad. rewrite Hcalls in Hc1. clear Hm1.
  rewrite (answer_steps _ _ _ _ _ _ _ H1 Hc1).
  destruct (removal_known c id bad hw (taking (set_calls [QueueItem c 1] s1)) eq_refl _ Hh1 Hid)
    as (s2 & E2 & Hc2 & [es Hh2] & Hm2). simpl run_response. rewrite E2. cbn [mbind option_bind].
  assert (idle (deleting (nextMsg s1) s2)) as H2.
  { apply idle_deleting; [done|]. apply calm_item in E2. by destruct E2. }
  rewrite (answer_steps _ _ _ _ _ _ _ H2 Hc2).
  destruct (removal_unknown c id bad (taking (set_calls [Answered c 0 hw] (deleting (nextMsg s1) s2)))
    eq_refl eq_refl es) as (s3 & E3 & Hc3 & Hh3); [done|simpl; by rewrite Hm2|].
  simpl run_response. rewrite E3. cbn [mbind option_bind].
  assert (idle (deleting (nextMsg (deleting (nextMsg s1) s2)) s3)) as H3.
  { apply idle_deleting; [done|]. apply calm_item in E3. by destruct E3. }
  rewrite <- (app_nil_r (answer err data)), (answer_steps _ _ _ _ _ _ _ H3 Hc3).
  simpl run_response. rewrite answered_gone; [done|done|by left].
Qed.

Lemma fifo_answers_use_freed_arrays_witness :
  mGeofenceIds orderly_state !! MkGeofenceKey 16 2 = Some 5%Z ∧
  steps example_caps ([RemoveGeofences 16 2 (Some [2%Z; 9%Z]); ThreadRun] ++
    answer LOCATION_ERROR_SUCCESS 0 ++ answer LOCATION_ERROR_SUCCESS 0 ++
    answer LOCATION_ERROR_SUCCESS 0) orderly_state = None.
Proof.
  split; [vm_compute; reflexivity|].
  apply (fifo_answers_use_freed_arrays example_caps 16 2 9 5 LOCATION_ERROR_SUCCESS 0 orderly_state).
  - vm_compute. reflexivity.
  - vm_compute. reflexivity.
  - intros a Ha. apply (post_deleted orderly_state); [|exact Ha].
    apply (fit_posted orderly_state), (orderly_fit example_caps).
    apply (orderly_reach_run example_caps orderly_example (init_adapter true)); [constructor|].
    vm_compute. reflexivity.
  - vm_compute. reflexivity.
  - vm_compute. reflexivity.
Defined.

(** A request for the capabilities that waits for the engine is queued again
    each time the engine comes up, although the thread has deleted it. *)
Example waiting_request_runs_twice :
  steps example_caps [RequestCapabilities 16; ThreadRun; EngineUp; ThreadRun; ThreadRun;
    EngineUp; ThreadRun; ThreadRun] (init_adapter false) = None.
Proof. vm_compute. reflexivity. Qed.

(** A resume that the engine refuses is not reported: the client hears nothing
    and the arrays stay. *)
Example refused_resume_is_not_reported :
  let s := steps example_caps ([ResumeGeofences 16 1 (Some [2%Z]); ThreadRun] ++
    answer LOCATION_ERROR_SUCCESS 0 ++ answer LOCATION_ERROR_TIMEOUT 0) orderly_state in
  out <$> s = Some (out orderly_state ++ [ToEngine (ResumeGeofence 5 2)]) ∧
  (λ s, size (heap s)) <$> s = Some (S (size (heap orderly_state))).
Proof. split; vm_compute; reflexivity. Qed.

(** A modification that the engine refuses is reported as a success. *)
Example refused_modification_is_reported_as_success :
  let s := steps example_caps ([ModifyGeofences 16 1 (Some [2%Z]) (Some [example_option]); ThreadRun] ++
    answer LOCATION_ERROR_SUCCESS 0 ++ answer LOCATION_ERROR_TIMEOUT 0) orderly_state in
  out <$> s = Some (out orderly_state ++ [ToEngine (ModifyGeofence 5 2 example_option);
    CollectiveResponseCb 16 1 [Some LOCATION_ERROR_SUCCESS] [Some 2%Z]]).
Proof. vm_compute. reflexivity. Qed.

(** Null options are never answered, and the client of a geofence that is added
    while it is removed keeps the geofence. *)
Example null_options_are_not_answered :
  let s := steps example_caps [AddGeofences 16 1 None None; ThreadRun] orderly_state in
  out <$> s = Some (out orderly_state) ∧ calls <$> s = Some [].
Proof. split; vm_compute; reflexivity. Qed.

Example removed_client_gets_a_geofence :
  let s := steps example_caps ([AddGeofences 16 1 (Some [example_option]) (Some [example_info]);
    ThreadRun] ++ answer LOCATION_ERROR_SUCCESS 0 ++
    [RemoveClient 16 true; ThreadRun; ReturnToSender 1 LOCATION_ERROR_SUCCESS 0; ThreadRun] ++
    answer LOCATION_ERROR_SUCCESS 6) orderly_state in
  (λ s, mGeofenceIds s !! MkGeofenceKey 16 4) <$> s = Some (Some 6%Z) ∧
  (λ s, mClientData s !! 16%Z) <$> s = Some None.
Proof. split; vm_compute; reflexivity. Qed.
