(* ===== verification/Batching.v ===== *)
(** * The batching adapter

    Models [gps/batching/BatchingAdapter.cpp] and [.h] on top of [LocAdapter].
    The adapter runs on the thread of its message queue; what the location API
    answers is a message again.  The location API is a library that is not part
    of the sources: it holds the response objects it was given and may return
    any of them, with any result.  A session of one of the two plain modes is a
    session of the engine.  The trips share one batch of the engine, which is
    restarted so that it ends where the first of them does.

    Two references of the code can be to an element that is not there: to one
    that was just erased, and to the end of the map.  What such a read gives is
    a parameter; [None] is undefined behaviour. *)
From S2P Require Import Prelude OrderedMap LocAdapter.

Local Open Scope Z_scope.

(** ** Data *)
Record LocationSessionKey := MkSessionKey { key_client : Z; key_id : Z }.

#[export] Instance LocationSessionKey_eq_dec : EqDecision LocationSessionKey.
Proof. solve_decision. Defined.
#[export] Instance LocationSessionKey_countable : Countable LocationSessionKey.
Proof.
  refine (inj_countable' (λ k, (key_client k, key_id k)) (λ p, MkSessionKey p.1 p.2) _).
  by intros [].
Defined.

(** [operator <], closed under equality. *)
Definition session_key_le (left right : LocationSessionKey) : Prop :=
  key_id left < key_id right ∨ key_id left = key_id right ∧ key_client left ≤ key_client right.

#[export] Instance session_key_le_dec : RelDecision session_key_le.
Proof. intros a b. unfold session_key_le. apply _. Defined.

(** The mode is a number: a client may send one that is none of the three. *)
Definition BATCHING_MODE_ROUTINE : Z := 0.
Definition BATCHING_MODE_TRIP : Z := 1.
Definition BATCHING_MODE_NO_AUTO_REPORT : Z := 2.

Definition BATCHING_STATUS_TRIP_COMPLETED : Z := 0.

Record BatchingOptions := MkBatchingOptions {
  opt_size : Z;
  minInterval : Z;
  minDistance : Z;
  opt_mode : Z;
  locReqEngTypeMask : Z;
  batchingMode : Z
}.

#[export] Instance BatchingOptions_eq_dec : EqDecision BatchingOptions.
Proof. solve_decision. Defined.

Definition sizeof_BatchingOptions : Z := 24.
(** The two constructors. *)
Definition default_options : BatchingOptions := MkBatchingOptions 0 0 0 0 0 BATCHING_MODE_ROUTINE.
Definition options_of_mode (m : Z) : BatchingOptions :=
  MkBatchingOptions sizeof_BatchingOptions 0 0 0 0 m.

Record TripSessionStatus := MkTripSessionStatus {
  accumulatedDistanceOngoingBatch : Z;
  accumulatedDistanceThisTrip : Z;
  accumulatedDistanceOnTripRestart : Z;
  tripDistance : Z;
  tripTBFInterval : Z
}.

#[export] Instance TripSessionStatus_eq_dec : EqDecision TripSessionStatus.
Proof. solve_decision. Defined.

(** The members about trips. *)
Record trip_state := Trips {
  mTripSessions : gmap Z TripSessionStatus;
  mOngoingTripDistance : Z;
  mOngoingTripTBFInterval : Z;
  mTripWithOngoingTBFDropped : bool;
  mTripWithOngoingTripDistanceDropped : bool
}.

(** The members read from the configuration file. *)
Record config := Config {
  mBatchingTimeout : Z;
  mBatchingAccuracy : Z;
  mBatchSize : Z;
  mTripBatchSize : Z
}.

(** The response objects the location API holds, by the closure they run;
    [Reported]: one that only reports to the client, [Ignored]: an empty one. *)
Inductive response :=
  | StartAnswered (client id : Z) (options : BatchingOptions) (pendingMsg : bool)
  | StopAnswered (client id : Z) (flpOptions : BatchingOptions) (restartNeeded : bool)
      (batchOptions : BatchingOptions)
  | Reported (client id : Z)
  | StartTripAnswered (client id : Z) (options : BatchingOptions)
  | NewTripQueried (client id : Z) (options : BatchingOptions)
  | StopTripAnswered (client id : Z) (restartNeeded : bool) (batchOptions : BatchingOptions)
  | RestartQueried (queryAccumulatedDistance : bool) (minRemainingDistance minTBFInterval : Z)
      (accDist : Z)
  | RestartAnswered (accumulatedDistance ongoingTripDistance ongoingTripInterval : Z)
  | TripsRestarted
  | Ignored.

(** The messages of the adapter's thread.  [accumulatedDistance] of an answer
    is what a query returns with it. *)
Inductive locmsg :=
  | MsgAddClient (client : Z) (callbacks : LocationCallbacks)
  | MsgRemoveClient (client : Z) (rmClientCb : bool)
  | MsgRequestCapabilities (client : Z)
  | MsgReadConfig
  | MsgSetConfig
  | MsgEngineLockStateEvent (state : EngineLockState)
  | MsgSSREvent
  | MsgStartBatching (client id : Z) (options : BatchingOptions)
  | MsgUpdateBatching (client id : Z) (options : BatchingOptions)
  | MsgStopBatching (client id : Z)
  | MsgGetBatchedLocations (client id count : Z)
  | MsgReportLocations (locations : list Location) (mode : Z)
  | MsgReportCompletedTrips (accumulatedDistance : Z)
  | MsgReportBatchStatus (status : Z)
  | MsgResponse (r : response) (err : LocationError) (accumulatedDistance : Z).

(** What the engine and the clients see. *)
Inductive request :=
  | SetBatchSize (size : Z)
  | SetTripBatchSize (size : Z)
  | StartBatching (id : Z) (options : BatchingOptions) (accuracy timeout : Z)
  | StopBatching (id : Z)
  | GetBatchedLocations (count : Z)
  | GetBatchedTripLocations (count accumulatedDistance : Z)
  | StartOutdoorTripBatching (distance interval timeout : Z)
  | ReStartOutdoorTripBatching (distance interval timeout : Z)
  | StopOutdoorTripBatching (deallocBatchBuffer : bool)
  | QueryAccumulatedTripDistance.

Inductive output :=
  | ToEngine (r : request)
  | UpdateEvtMask (mask : Z)
  | CapabilitiesCb (client mask : Z)
  | ResponseCb (client : Z) (err : LocationError) (id : Z)
  | BatchingCb (client : Z) (locations : list Location) (options : BatchingOptions)
  | BatchingStatusCb (client status : Z) (completedTrips : list Z)
  | RemoveClientCb (client : Z).

(** The adapter with its message queue, and what the location API holds of it
    ([calls], [lock]). *)
Record adapter := Adapter {
  mBatchingSessions : gmap LocationSessionKey BatchingOptions;
  trip : trip_state;
  conf : config;
  mClientData : gmap Z LocationCallbacks;
  mEvtMask : Z;
  mIsEngineCapabilitiesKnown : bool;
  mPendingMsgs : list locmsg;
  mPendingGnssEnabledMsgs : list locmsg;
  queue : list locmsg;
  calls : list response;
  lock : EngineLockState;
  mSessionIdCounter : Z;
  out : list output
}.

(** The constructor; the two messages are sent by it. *)
Definition init_adapter (known : bool) : adapter :=
  Adapter ∅ (Trips ∅ 0 0 false false) (Config 0 1 0 0) ∅ 0 known [] []
    [MsgReadConfig; MsgSetConfig] [] ENGINE_LOCK_STATE_ENABLED 1 [].

Definition set_sessions (m : gmap LocationSessionKey BatchingOptions) (s : adapter) : adapter :=
  Adapter m (trip s) (conf s) (mClientData s) (mEvtMask s) (mIsEngineCapabilitiesKnown s)
    (mPendingMsgs s) (mPendingGnssEnabledMsgs s) (queue s) (calls s) (lock s)
    (mSessionIdCounter s) (out s).
Definition set_trip (t : trip_state) (s : adapter) : adapter :=
  Adapter (mBatchingSessions s) t (conf s) (mClientData s) (mEvtMask s)
    (mIsEngineCapabilitiesKnown s) (mPendingMsgs s) (mPendingGnssEnabledMsgs s) (queue s) (calls s)
    (lock s) (mSessionIdCounter s) (out s).
Definition set_config (c : config) (s : adapter) : adapter :=
  Adapter (mBatchingSessions s) (trip s) c (mClientData s) (mEvtMask s)
    (mIsEngineCapabilitiesKnown s) (mPendingMsgs s) (mPendingGnssEnabledMsgs s) (queue s) (calls s)
    (lock s) (mSessionIdCounter s) (out s).
Definition set_clients (m : gmap Z LocationCallbacks) (s : adapter) : adapter :=
  Adapter (mBatchingSessions s) (trip s) (conf s) m (mEvtMask s)
    (mIsEngineCapabilitiesKnown s) (mPendingMsgs s) (mPendingGnssEnabledMsgs s) (queue s) (calls s)
    (lock s) (mSessionIdCounter s) (out s).
Definition set_evt_mask (m : Z) (s : adapter) : adapter :=
  Adapter (mBatchingSessions s) (trip s) (conf s) (mClientData s) m
    (mIsEngineCapabilitiesKnown s) (mPendingMsgs s) (mPendingGnssEnabledMsgs s) (queue s) (calls s)
    (lock s) (mSessionIdCounter s) (out s).
Definition setEngineCapabilitiesKnown (b : bool) (s : adapter) : adapter :=
  Adapter (mBatchingSessions s) (trip s) (conf s) (mClientData s) (mEvtMask s) b
    (mPendingMsgs s) (mPendingGnssEnabledMsgs s) (queue s) (calls s) (lock s)
    (mSessionIdCounter s) (out s).
Definition set_pending (p q : list locmsg) (s : adapter) : adapter :=
  Adapter (mBatchingSessions s) (trip s) (conf s) (mClientData s) (mEvtMask s)
    (mIsEngineCapabilitiesKnown s) p q (queue s) (calls s) (lock s) (mSessionIdCounter s) (out s).
Definition set_queue (q : list locmsg) (s : adapter) : adapter :=
  Adapter (mBatchingSessions s) (trip s) (conf s) (mClientData s) (mEvtMask s)
    (mIsEngineCapabilitiesKnown s) (mPendingMsgs s) (mPendingGnssEnabledMsgs s) q (calls s)
    (lock s) (mSessionIdCounter s) (out s).
Definition set_calls (l : list response) (s : adapter) : adapter :=
  Adapter (mBatchingSessions s) (trip s) (conf s) (mClientData s) (mEvtMask s)
    (mIsEngineCapabilitiesKnown s) (mPendingMsgs s) (mPendingGnssEnabledMsgs s) (queue s) l
    (lock s) (mSessionIdCounter s) (out s).
Definition setEngineLockState (l : EngineLockState) (s : adapter) : adapter :=
  Adapter (mBatchingSessions s) (trip s) (conf s) (mClientData s) (mEvtMask s)
    (mIsEngineCapabilitiesKnown s) (mPendingMsgs s) (mPendingGnssEnabledMsgs s) (queue s) (calls s)
    l (mSessionIdCounter s) (out s).
Definition set_counter (n : Z) (s : adapter) : adapter :=
  Adapter (mBatchingSessions s) (trip s) (conf s) (mClientData s) (mEvtMask s)
    (mIsEngineCapabilitiesKnown s) (mPendingMsgs s) (mPendingGnssEnabledMsgs s) (queue s) (calls s)
    (lock s) n (out s).
Definition emit (o : list output) (s : adapter) : adapter :=
  Adapter (mBatchingSessions s) (trip s) (conf s) (mClientData s) (mEvtMask s)
    (mIsEngineCapabilitiesKnown s) (mPendingMsgs s) (mPendingGnssEnabledMsgs s) (queue s) (calls s)
    (lock s) (mSessionIdCounter s) (out s ++ o).

Definition set_ongoing (distance interval : Z) (t : trip_state) : trip_state :=
  Trips (mTripSessions t) distance interval (mTripWithOngoingTBFDropped t)
    (mTripWithOngoingTripDistanceDropped t).
Definition set_trip_sessions (m : gmap Z TripSessionStatus) (t : trip_state) : trip_state :=
  Trips m (mOngoingTripDistance t) (mOngoingTripTBFInterval t) (mTripWithOngoingTBFDropped t)
    (mTripWithOngoingTripDistanceDropped t).
(** The members of the adapter. *)
Definition set_trips (m : gmap Z TripSessionStatus) (s : adapter) : adapter :=
  set_trip (set_trip_sessions m (trip s)) s.
Definition trips (s : adapter) : gmap Z TripSessionStatus := mTripSessions (trip s).

(** [sendMsg(new m)]; the messages of a list change hands. *)
Definition sendMsg (m : locmsg) (s : adapter) : adapter := set_queue (queue s ++ [m]) s.
Definition sendMsgs (l : list locmsg) (s : adapter) : adapter := set_queue (queue s ++ l) s.
(** A call to the location API, one with a response object. *)
Definition tell (r : request) (s : adapter) : adapter := emit [ToEngine r] s.
Definition ask (q : request) (r : response) (s : adapter) : adapter :=
  set_calls (calls s ++ [r]) (tell q s).

(** Arithmetic of [uint32_t]. *)
Definition add32 (a b : Z) : Z := wrap_unsigned 32 (a + b).
Definition sub32 (a b : Z) : Z := wrap_unsigned 32 (a - b).

(** ** The event mask *)
Definition LOC_API_ADAPTER_BIT_BATCH_FULL : Z := Z.shiftl 1 19.
Definition LOC_API_ADAPTER_BIT_BATCH_STATUS : Z := Z.shiftl 1 31.

Inductive loc_registration_mask_status :=
  | LOC_REGISTRATION_MASK_ENABLED | LOC_REGISTRATION_MASK_DISABLED | LOC_REGISTRATION_MASK_SET.

Definition updateEvtMask (event : Z) (status : loc_registration_mask_status) (s : adapter) : adapter :=
  let m :=
    match status with
    | LOC_REGISTRATION_MASK_ENABLED => Z.lor (mEvtMask s) event
    | LOC_REGISTRATION_MASK_DISABLED => Z.ldiff (mEvtMask s) event
    | LOC_REGISTRATION_MASK_SET => event
    end in
  emit [UpdateEvtMask m] (set_evt_mask m s).

Definition register_full : adapter → adapter :=
  updateEvtMask LOC_API_ADAPTER_BIT_BATCH_FULL LOC_REGISTRATION_MASK_ENABLED.
Definition unregister_full : adapter → adapter :=
  updateEvtMask LOC_API_ADAPTER_BIT_BATCH_FULL LOC_REGISTRATION_MASK_DISABLED.

Definition auto_report (o : BatchingOptions) : bool :=
  negb (batchingMode o =? BATCHING_MODE_NO_AUTO_REPORT).

(** Fewer than 2^32 sessions fit into the memory. *)
Definition autoReportBatchingSessionsCount (s : adapter) : nat :=
  (length (filter (λ e : LocationSessionKey * BatchingOptions, auto_report e.2)
     (entries session_key_le (mBatchingSessions s))) + size (trips s))%nat.

Definition updateClientsEventMask (s : adapter) : adapter :=
  let mask :=
    foldl (λ mask (e : Z * LocationCallbacks),
      if batchingCb e.2 then Z.lor mask LOC_API_ADAPTER_BIT_BATCH_STATUS else mask)
      0 (entries Z.le (mClientData s)) in
  let mask :=
    if decide (0 < autoReportBatchingSessionsCount s)%nat then Z.lor mask LOC_API_ADAPTER_BIT_BATCH_FULL
    else mask in
  updateEvtMask mask LOC_REGISTRATION_MASK_SET s.

(** ** Clients *)
Definition saveClient (client : Z) (callbacks : LocationCallbacks) (s : adapter) : adapter :=
  updateClientsEventMask (set_clients (<[client := callbacks]> (mClientData s)) s).

Definition eraseClient (client : Z) (s : adapter) : adapter :=
  updateClientsEventMask (set_clients (delete client (mClientData s)) s).

Definition broadcastCapabilities (mask : Z) (s : adapter) : adapter :=
  emit (omap (λ d : Z * LocationCallbacks,
    if capabilitiesCb d.2 then Some (CapabilitiesCb d.1 mask) else None)
    (entries Z.le (mClientData s))) s.

Definition reportResponse (client : Z) (err : LocationError) (id : Z) (s : adapter) : adapter :=
  match mClientData s !! client with
  | Some cb => if responseCb cb then emit [ResponseCb client err id] s else s
  | None => s
  end.

Definition hasBatchingCallback (client : Z) (s : adapter) : bool :=
  match mClientData s !! client with Some cb => batchingCb cb | None => false end.

(** ** Sessions *)
Definition isBatchingSession (client id : Z) (s : adapter) : bool :=
  bool_decide (is_Some (mBatchingSessions s !! MkSessionKey client id)).
Definition isTripSession (id : Z) (s : adapter) : bool := bool_decide (is_Some (trips s !! id)).
Definition saveBatchingSession (client id : Z) (o : BatchingOptions) (s : adapter) : adapter :=
  set_sessions (<[MkSessionKey client id := o]> (mBatchingSessions s)) s.
Definition eraseBatchingSession (client id : Z) (s : adapter) : adapter :=
  set_sessions (delete (MkSessionKey client id) (mBatchingSessions s)) s.

Definition lock_enabled (s : adapter) : bool := bool_decide (lock s = ENGINE_LOCK_STATE_ENABLED).
Definition success (err : LocationError) : bool := bool_decide (err = LOCATION_ERROR_SUCCESS).

Definition startBatching (client id : Z) (o : BatchingOptions) (pendingMsg : bool) (s : adapter) :
    adapter :=
  let s :=
    if auto_report o && (autoReportBatchingSessionsCount s =? 0)%nat then register_full s else s in
  let s := saveBatchingSession client id o s in
  ask (StartBatching id o (mBatchingAccuracy (conf s)) (mBatchingTimeout (conf s)))
    (StartAnswered client id o pendingMsg) s.

Definition start_answered (client id : Z) (o : BatchingOptions) (pendingMsg : bool)
    (err : LocationError) (s : adapter) : adapter :=
  let s := if lock_enabled s && negb (success err) then eraseBatchingSession client id s else s in
  let s :=
    if negb (success err) && auto_report o && (autoReportBatchingSessionsCount s =? 0)%nat
    then unregister_full s else s in
  let s :=
    if bool_decide (err = LOCATION_ERROR_GNSS_DISABLED) && pendingMsg then
      set_pending (mPendingMsgs s) (mPendingGnssEnabledMsgs s ++ [MsgStartBatching client id o]) s
    else s in
  reportResponse client err id s.

Definition stopBatching (client id : Z) (restartNeeded : bool) (batchOptions : BatchingOptions)
    (s : adapter) : adapter :=
  match mBatchingSessions s !! MkSessionKey client id with
  | Some flpOptions =>
      ask (StopBatching id) (StopAnswered client id flpOptions restartNeeded batchOptions)
        (eraseBatchingSession client id s)
  | None => s
  end.

(** ** Trips *)

(** The restart loops: the least distance that is left of a trip, and the
    least interval; 0: none was seen. *)
Definition scan_trip (best : Z * Z) (st : TripSessionStatus) : Z * Z :=
  let remaining := sub32 (tripDistance st) (accumulatedDistanceThisTrip st) in
  (if (best.1 =? 0) || (best.1 >? remaining) then remaining else best.1,
   if (best.2 =? 0) || (best.2 >? tripTBFInterval st) then tripTBFInterval st else best.2).

Definition scan_trips (m : gmap Z TripSessionStatus) : Z * Z :=
  foldl scan_trip (0, 0) (entries Z.le m).*2.

Definition with_this_trip (d : Z) (st : TripSessionStatus) : TripSessionStatus :=
  MkTripSessionStatus (accumulatedDistanceOngoingBatch st) d (accumulatedDistanceOnTripRestart st)
    (tripDistance st) (tripTBFInterval st).
Definition with_batch_start (ongoing restart : Z) (st : TripSessionStatus) : TripSessionStatus :=
  MkTripSessionStatus ongoing (accumulatedDistanceThisTrip st) restart
    (tripDistance st) (tripTBFInterval st).

(** [accumulatedDistanceThisTrip] when the batch is [accumulatedDistance] long. *)
Definition this_trip (accumulatedDistance : Z) (st : TripSessionStatus) : Z :=
  add32 (accumulatedDistanceOnTripRestart st)
    (sub32 accumulatedDistance (accumulatedDistanceOngoingBatch st)).

Definition new_trip (ongoing : Z) (o : BatchingOptions) : TripSessionStatus :=
  MkTripSessionStatus ongoing 0 0 (minDistance o) (minInterval o).

Definition startTripBatchingMultiplex (client id : Z) (o : BatchingOptions) (s : adapter) : adapter :=
  if decide (size (trips s) = 0%nat) then
    let s := if (autoReportBatchingSessionsCount s =? 0)%nat then register_full s else s in
    let s := saveBatchingSession client id o s in
    let s := set_trips (<[id := new_trip 0 o]> (trips s)) s in
    ask (StartOutdoorTripBatching (minDistance o) (minInterval o) (mBatchingTimeout (conf s)))
      (StartTripAnswered client id o) s
  else ask QueryAccumulatedTripDistance (NewTripQueried client id o) s.

Definition start_trip_answered (client id : Z) (o : BatchingOptions) (err : LocationError)
    (s : adapter) : adapter :=
  let s :=
    if bool_decide (lock s = ENGINE_LOCK_STATE_DISABLED) || success err then
      set_trip (set_ongoing (minDistance o) (minInterval o) (trip s)) s
    else
      let s := eraseBatchingSession client id s in
      let s := set_trips (delete id (trips s)) s in
      if (autoReportBatchingSessionsCount s =? 0)%nat then unregister_full s else s in
  reportResponse client err id s.

(** The reset before the restart for a new trip. *)
Definition reset_for_new (st : TripSessionStatus) : TripSessionStatus :=
  with_batch_start 0 (accumulatedDistanceThisTrip st) st.

Definition new_trip_queried (client id : Z) (o : BatchingOptions) (err : LocationError)
    (accumulatedDistance : Z) (s : adapter) : adapter :=
  let '(ongoingTripInterval, needsRestart) :=
    if mOngoingTripTBFInterval (trip s) >? minInterval o then (minInterval o, true)
    else (mOngoingTripTBFInterval (trip s), false) in
  let ongoingTripDistance := mOngoingTripDistance (trip s) in
  let '(ongoingTripDistance, needsRestart, s) :=
    if success err then
      let remaining := sub32 ongoingTripDistance accumulatedDistance in
      let '(d, b) :=
        if minDistance o <? remaining then (minDistance o, true)
        else if needsRestart then (remaining, true)
        else (ongoingTripDistance, false) in
      (d, b, set_trips (<[id := new_trip accumulatedDistance o]> (trips s)) s)
    else if minDistance o <? ongoingTripDistance then (minDistance o, true, s)
    else (ongoingTripDistance, needsRestart, s) in
  if needsRestart : bool then
    let s := set_trip (set_ongoing ongoingTripDistance ongoingTripInterval (trip s)) s in
    let s := set_trips (reset_for_new <$> trips s) s in
    ask (ReStartOutdoorTripBatching ongoingTripDistance ongoingTripInterval (mBatchingTimeout (conf s)))
      (Reported client id) s
  else reportResponse client LOCATION_ERROR_SUCCESS id s.

Definition restartTripBatching (queryAccumulatedDistance : bool) (accDist : Z) (s : adapter) : adapter :=
  if decide (size (trips s) = 0%nat) then
    let s := ask (StopOutdoorTripBatching true) Ignored s in
    let s := set_trip (set_ongoing 0 0 (trip s)) s in
    if (autoReportBatchingSessionsCount s =? 0)%nat then unregister_full s else s
  else
    let '(minRemainingDistance, minTBFInterval) := scan_trips (trips s) in
    ask QueryAccumulatedTripDistance
      (RestartQueried queryAccumulatedDistance minRemainingDistance minTBFInterval accDist) s.

(** Distance and interval of the batch, and whether it must be restarted. *)
Definition next_batch (minRemainingDistance minTBFInterval accumulatedDistance : Z) (t : trip_state) :
    Z * Z * bool :=
  let left := sub32 (mOngoingTripDistance t) accumulatedDistance in
  let '(distance, needsRestart) :=
    if negb (mTripWithOngoingTripDistanceDropped t) && negb (left =? 0) then
      if minRemainingDistance <? left then (minRemainingDistance, true)
      else (mOngoingTripDistance t, false)
    else if negb (minRemainingDistance =? 0) then (minRemainingDistance, true)
    else (mOngoingTripDistance t, false) in
  if (minTBFInterval <? mOngoingTripTBFInterval t) ||
     negb (minTBFInterval =? mOngoingTripTBFInterval t) && mTripWithOngoingTBFDropped t
  then (distance, minTBFInterval, true)
  else (distance, mOngoingTripTBFInterval t, needsRestart).

Definition restart_queried (queryAccumulatedDistance : bool)
    (minRemainingDistance minTBFInterval accDist data : Z) (s : adapter) : adapter :=
  let accumulatedDistance := if queryAccumulatedDistance then data else accDist in
  let '(distance, interval, needsRestart) :=
    next_batch minRemainingDistance minTBFInterval accumulatedDistance (trip s) in
  if needsRestart : bool then
    ask (ReStartOutdoorTripBatching distance interval (mBatchingTimeout (conf s)))
      (RestartAnswered accumulatedDistance distance interval) s
  else s.

(** The loop after a restart: the batch begins anew where it was
    [accumulatedDistance] long. *)
Definition reset_at (accumulatedDistance : Z) (st : TripSessionStatus) : TripSessionStatus :=
  let d := this_trip accumulatedDistance st in
  with_batch_start 0 d (with_this_trip d st).

Definition restart_answered (accumulatedDistance distance interval : Z) (err : LocationError)
    (s : adapter) : adapter :=
  if success err then
    set_trip (set_ongoing distance interval
      (set_trip_sessions (reset_at accumulatedDistance <$> trips s) (trip s))) s
  else s.

(** The members that say that the trip which set the batch's limits is gone. *)
Definition note_dropped (st : TripSessionStatus) (t : trip_state) : trip_state :=
  Trips (mTripSessions t) (mOngoingTripDistance t) (mOngoingTripTBFInterval t)
    ((tripTBFInterval st =? mOngoingTripTBFInterval t) || mTripWithOngoingTBFDropped t)
    ((tripDistance st =? mOngoingTripDistance t) || mTripWithOngoingTripDistanceDropped t).

(** ** The engine comes up *)
Definition restart_session (s : adapter) (e : LocationSessionKey * BatchingOptions) : adapter :=
  if batchingMode e.2 =? BATCHING_MODE_TRIP then s
  else
    ask (StartBatching (key_id e.1) e.2 (mBatchingAccuracy (conf s)) (mBatchingTimeout (conf s)))
      Ignored s.

(** The loop over the trips resets a copy of each of them. *)
Definition restartSessions (s : adapter) : adapter :=
  let s := if decide (0 < autoReportBatchingSessionsCount s)%nat then register_full s else s in
  let s := foldl restart_session s (entries session_key_le (mBatchingSessions s)) in
  if decide (0 < size (trips s))%nat then
    let '(distance, interval) := scan_trips (trips s) in
    let s := set_trip (set_ongoing distance interval (trip s)) s in
    ask (StartOutdoorTripBatching distance interval (mBatchingTimeout (conf s))) TripsRestarted s
  else s.

Definition trips_restarted (err : LocationError) (s : adapter) : adapter :=
  if success err then s else set_trip (set_ongoing 0 0 (trip s)) s.

Definition handleEngineLockStatus (state : EngineLockState) (s : adapter) : adapter :=
  if decide (state = ENGINE_LOCK_STATE_ENABLED) then
    set_pending (mPendingMsgs s) [] (sendMsgs (mPendingGnssEnabledMsgs s) s)
  else s.

Definition setConfig (s : adapter) : adapter :=
  tell (SetTripBatchSize (mTripBatchSize (conf s))) (tell (SetBatchSize (mBatchSize (conf s))) s).

(** ** Reports *)
Definition reportLocations (locations : list Location) (mode : Z) (s : adapter) : adapter :=
  emit (omap (λ d : Z * LocationCallbacks,
    if batchingCb d.2 then Some (BatchingCb d.1 locations (options_of_mode mode)) else None)
    (entries Z.le (mClientData s))) s.

Definition reportBatchStatusChange (status : Z) (completedTrips : list Z) (s : adapter) : adapter :=
  emit (omap (λ d : Z * LocationCallbacks,
    if batchingStatusCb d.2 then Some (BatchingStatusCb d.1 status completedTrips) else None)
    (entries Z.le (mClientData s))) s.

Definition restart_as (client id : Z) (batchOptions : BatchingOptions) (s : adapter) : adapter :=
  if (batchingMode batchOptions =? BATCHING_MODE_ROUTINE) ||
     (batchingMode batchOptions =? BATCHING_MODE_NO_AUTO_REPORT)
  then startBatching client id batchOptions false s
  else if batchingMode batchOptions =? BATCHING_MODE_TRIP
  then startTripBatchingMultiplex client id batchOptions s
  else s.

Definition stop_answered (client id : Z) (flpOptions : BatchingOptions) (restartNeeded : bool)
    (batchOptions : BatchingOptions) (err : LocationError) (s : adapter) : adapter :=
  let s :=
    if lock_enabled s && negb (success err) then saveBatchingSession client id batchOptions s
    else
      let s :=
        if (autoReportBatchingSessionsCount s =? 0)%nat && auto_report flpOptions
        then unregister_full s else s in
      if restartNeeded then restart_as client id batchOptions s else s in
  reportResponse client err id s.

Section adapter.
Context (g : engine_caps).
(** What the configuration file says. *)
Context (flp_conf : config).
(** What a reference to an erased element reads, given what was there, and one
    to the end of the map. *)
Context (erased : TripSessionStatus → option TripSessionStatus) (at_end : option TripSessionStatus).

Definition stopTripBatchingMultiplexCommon (err : LocationError) (client id : Z)
    (restartNeeded : bool) (batchOptions : BatchingOptions) (s : adapter) : option adapter :=
  st ← match trips s !! id with Some st => Some st | None => at_end end;
  let s := set_trip (note_dropped st (trip s)) s in
  let s := set_trips (delete id (trips s)) s in
  let s :=
    if decide (size (trips s) = 0%nat) then set_trip (set_ongoing 0 0 (trip s)) s
    else restartTripBatching true 0 s in
  let s :=
    if restartNeeded then restart_as client id batchOptions (eraseBatchingSession client id s) else s in
  Some (reportResponse client err id s).

Definition stopTripBatchingMultiplex (client id : Z) (restartNeeded : bool)
    (batchOptions : BatchingOptions) (s : adapter) : option adapter :=
  if decide (size (trips s) = 1%nat) then
    Some (ask (StopOutdoorTripBatching true) (StopTripAnswered client id restartNeeded batchOptions) s)
  else stopTripBatchingMultiplexCommon LOCATION_ERROR_SUCCESS client id restartNeeded batchOptions s.

Definition stop_trip_answered (client id : Z) (restartNeeded : bool) (batchOptions : BatchingOptions)
    (err : LocationError) (s : adapter) : option adapter :=
  let s :=
    if success err && (autoReportBatchingSessionsCount s =? 1)%nat then unregister_full s else s in
  stopTripBatchingMultiplexCommon err client id restartNeeded batchOptions s.

(** The loop of [stopClientSessions] over the sessions it collected. *)
Definition stop_session (s : adapter) (e : LocationSessionKey * BatchingOptions) : option adapter :=
  if negb (batchingMode e.2 =? BATCHING_MODE_TRIP) then
    Some (stopBatching (key_client e.1) (key_id e.1) false default_options s)
  else stopTripBatchingMultiplex (key_client e.1) (key_id e.1) false default_options s.

Definition stopClientSessions (client : Z) (s : adapter) : option adapter :=
  foldl (λ s e, s ≫= λ s, stop_session s e) (Some s)
    (filter (λ e, client = key_client e.1) (entries session_key_le (mBatchingSessions s))).

(** The loop of [reportCompletedTripsEvent]. *)
Definition complete_trip (accumulatedDistance : Z) (acc : list Z * trip_state)
    (e : Z * TripSessionStatus) : option (list Z * trip_state) :=
  let '(completed, t) := acc in
  let st := with_this_trip (this_trip accumulatedDistance e.2) e.2 in
  if tripDistance st <=? accumulatedDistanceThisTrip st then
    let t := set_trip_sessions (delete e.1 (mTripSessions t)) t in
    st ← erased st;
    Some (completed ++ [e.1], note_dropped st t)
  else Some (completed, set_trip_sessions (<[e.1 := st]> (mTripSessions t)) t).

Definition complete_trips (accumulatedDistance : Z) (t : trip_state) : option (list Z * trip_state) :=
  foldl (λ acc e, acc ≫= λ acc, complete_trip accumulatedDistance acc e) (Some ([], t))
    (entries Z.le (mTripSessions t)).

Definition proc_completed (accumulatedDistance : Z) (s : adapter) : option adapter :=
  '(completed, t) ← complete_trips accumulatedDistance (trip s);
  let s := set_trip t s in
  if decide (0 < length completed)%nat then
    Some (restartTripBatching false accumulatedDistance
      (reportBatchStatusChange BATCHING_STATUS_TRIP_COMPLETED completed s))
  else Some s.

Definition run_response (r : response) (err : LocationError) (accumulatedDistance : Z) (s : adapter) :
    option adapter :=
  match r with
  | StartAnswered client id o pendingMsg => Some (start_answered client id o pendingMsg err s)
  | StopAnswered client id flpOptions restartNeeded batchOptions =>
      Some (stop_answered client id flpOptions restartNeeded batchOptions err s)
  | Reported client id => Some (reportResponse client err id s)
  | StartTripAnswered client id o => Some (start_trip_answered client id o err s)
  | NewTripQueried client id o => Some (new_trip_queried client id o err accumulatedDistance s)
  | StopTripAnswered client id restartNeeded batchOptions =>
      stop_trip_answered client id restartNeeded batchOptions err s
  | RestartQueried q d i accDist => Some (restart_queried q d i accDist accumulatedDistance s)
  | RestartAnswered a d i => Some (restart_answered a d i err s)
  | TripsRestarted => Some (trips_restarted err s)
  | Ignored => Some s
  end.

(** ** Messages *)

(** A command waits until the capabilities are known. *)
Definition or_pending (m : locmsg) (proc : adapter → option adapter) (s : adapter) : option adapter :=
  if negb (mIsEngineCapabilitiesKnown s) then
    Some (set_pending (mPendingMsgs s ++ [m]) (mPendingGnssEnabledMsgs s) s)
  else proc s.

Definition proc_start (client id : Z) (o : BatchingOptions) (s : adapter) : adapter :=
  let err :=
    if negb (hasBatchingCallback client s) then LOCATION_ERROR_CALLBACK_MISSING
    else if 0 =? opt_size o then LOCATION_ERROR_INVALID_PARAMETER
    else if negb (isMessageSupported g LOC_API_ADAPTER_MESSAGE_DISTANCE_BASE_LOCATION_BATCHING)
    then LOCATION_ERROR_NOT_SUPPORTED else LOCATION_ERROR_SUCCESS in
  if success err then
    if (batchingMode o =? BATCHING_MODE_ROUTINE) || (batchingMode o =? BATCHING_MODE_NO_AUTO_REPORT)
    then startBatching client id o true s
    else if batchingMode o =? BATCHING_MODE_TRIP then startTripBatchingMultiplex client id o s
    else reportResponse client LOCATION_ERROR_INVALID_PARAMETER id s
  else s.

Definition proc_update (client id : Z) (o : BatchingOptions) (s : adapter) : option adapter :=
  let err :=
    if negb (isBatchingSession client id s) then LOCATION_ERROR_ID_UNKNOWN
    else if (0 =? opt_size o) || (batchingMode o >? BATCHING_MODE_NO_AUTO_REPORT)
    then LOCATION_ERROR_INVALID_PARAMETER else LOCATION_ERROR_SUCCESS in
  if success err then
    if negb (isTripSession id s) then Some (stopBatching client id true o s)
    else stopTripBatchingMultiplex client id true o s
  else Some s.

Definition proc_stop (client id : Z) (s : adapter) : option adapter :=
  if isBatchingSession client id s then
    if isTripSession id s then stopTripBatchingMultiplex client id false default_options s
    else Some (stopBatching client id false default_options s)
  else Some s.

Definition proc_get (client id count : Z) (s : adapter) : adapter :=
  let err :=
    if negb (hasBatchingCallback client s) then LOCATION_ERROR_CALLBACK_MISSING
    else if negb (isBatchingSession client id s) then LOCATION_ERROR_ID_UNKNOWN
    else LOCATION_ERROR_SUCCESS in
  if success err then
    if isTripSession id s then ask (GetBatchedTripLocations count 0) (Reported client id) s
    else ask (GetBatchedLocations count) (Reported client id) s
  else reportResponse client err id s.

Definition proc_request_capabilities (client : Z) (s : adapter) : adapter :=
  match mClientData s !! client with
  | Some cb =>
      if capabilitiesCb cb then
        emit [CapabilitiesCb client (getCapabilities g (mIsEngineCapabilitiesKnown s))] s
      else s
  | None => s
  end.

Definition proc_ssr (s : adapter) : adapter :=
  let s := setEngineCapabilitiesKnown true s in
  let s := broadcastCapabilities (getCapabilities g (mIsEngineCapabilitiesKnown s)) s in
  let s := setConfig s in
  if lock_enabled s then
    let s := restartSessions s in
    set_pending [] (mPendingGnssEnabledMsgs s) (sendMsgs (mPendingMsgs s) s)
  else s.

Definition proc_remove (client : Z) (rmClientCb : bool) (s : adapter) : option adapter :=
  s ← stopClientSessions client s;
  let s := eraseClient client s in
  Some (if rmClientCb then emit [RemoveClientCb client] s else s).

Definition proc_msg (m : locmsg) (s : adapter) : option adapter :=
  match m with
  | MsgAddClient client callbacks => Some (saveClient client callbacks s)
  | MsgRemoveClient client rmClientCb => proc_remove client rmClientCb s
  | MsgRequestCapabilities client => or_pending m (Some ∘ proc_request_capabilities client) s
  | MsgReadConfig => Some (set_config flp_conf s)
  | MsgSetConfig => Some (setConfig s)
  | MsgEngineLockStateEvent state => Some (handleEngineLockStatus state s)
  | MsgSSREvent => Some (proc_ssr s)
  | MsgStartBatching client id o => or_pending m (Some ∘ proc_start client id o) s
  | MsgUpdateBatching client id o => or_pending m (proc_update client id o) s
  | MsgStopBatching client id => or_pending m (proc_stop client id) s
  | MsgGetBatchedLocations client id count => or_pending m (Some ∘ proc_get client id count) s
  | MsgReportLocations locations mode => Some (reportLocations locations mode s)
  | MsgReportCompletedTrips d => proc_completed d s
  | MsgReportBatchStatus status => Some (reportBatchStatusChange status [] s)
  | MsgResponse r err d => run_response r err d s
  end.

Definition thread_run (s : adapter) : option adapter :=
  match queue s with
  | [] => Some s
  | m :: q => proc_msg m (set_queue q s)
  end.

(** ** Calls from outside *)
Definition startBatchingCommand (client : Z) (o : BatchingOptions) (s : adapter) : Z * adapter :=
  let id := generateSessionId (mSessionIdCounter s) in
  (id, sendMsg (MsgStartBatching client id o) (set_counter id s)).

(** What happens to the adapter: calls of the clients and of the location
    API, and the turns of its thread.  [ReturnToSender n]: the location API
    answers the [n]-th response object it holds. *)
Inductive event :=
  | AddClient (client : Z) (callbacks : LocationCallbacks)
  | RemoveClient (client : Z) (rmClientCb : bool)
  | RequestCapabilities (client : Z)
  | StartBatchingCommand (client : Z) (o : BatchingOptions)
  | UpdateBatchingOptionsCommand (client id : Z) (o : BatchingOptions)
  | StopBatchingCommand (client id : Z)
  | GetBatchedLocationsCommand (client id count : Z)
  | EngineUp
  | EngineLockStatus (state : EngineLockState)
  | LocationsEvent (locations : list Location) (mode : Z)
  | CompletedTripsEvent (accumulatedDistance : Z)
  | BatchStatusEvent (status : Z)
  | ReturnToSender (n : nat) (err : LocationError) (accumulatedDistance : Z)
  | SetEngineLockState (state : EngineLockState)
  | OtherSession
  | ThreadRun.

Definition step (e : event) (s : adapter) : option adapter :=
  match e with
  | AddClient client callbacks => Some (sendMsg (MsgAddClient client callbacks) s)
  | RemoveClient client rmClientCb => Some (sendMsg (MsgRemoveClient client rmClientCb) s)
  | RequestCapabilities client => Some (sendMsg (MsgRequestCapabilities client) s)
  | StartBatchingCommand client o => Some (snd (startBatchingCommand client o s))
  | UpdateBatchingOptionsCommand client id o => Some (sendMsg (MsgUpdateBatching client id o) s)
  | StopBatchingCommand client id => Some (sendMsg (MsgStopBatching client id) s)
  | GetBatchedLocationsCommand client id count =>
      Some (sendMsg (MsgGetBatchedLocations client id count) s)
  | EngineUp => Some (sendMsg MsgSSREvent s)
  | EngineLockStatus state => Some (sendMsg (MsgEngineLockStateEvent state) s)
  | LocationsEvent locations mode => Some (sendMsg (MsgReportLocations locations mode) s)
  | CompletedTripsEvent d => Some (sendMsg (MsgReportCompletedTrips d) s)
  | BatchStatusEvent status => Some (sendMsg (MsgReportBatchStatus status) s)
  | ReturnToSender n err d =>
      match calls s !! n with
      | Some r => Some (sendMsg (MsgResponse r err d) (set_calls (delete n (calls s)) s))
      | None => Some s
      end
  | SetEngineLockState state => Some (setEngineLockState state s)
  | OtherSession => Some (set_counter (generateSessionId (mSessionIdCounter s)) s)
  | ThreadRun => thread_run s
  end.

Definition steps (l : list event) (s : adapter) : option adapter :=
  foldl (λ s e, s ≫= step e) (Some s) l.
End adapter.
