(* ===== verification/BatchingProps.v ===== *)
(** * The batching adapter: what holds

    Who is registered for the event of a full batch; the trips against an
    odometer; the batch ends where the nearest trip does; and what becomes
    of sessions whose stop fails and of trips that are over. *)
From Stdlib Require Import Sorting.Sorted.
From stdpp Require Import sorting.
From S2P Require Import Prelude OrderedMap LocAdapter Batching.

Local Open Scope Z_scope.

(** ** The sessions that want the event *)
Definition wanted (s : adapter) : Prop := (0 < autoReportBatchingSessionsCount s)%nat.
Definition full_registered (s : adapter) : Prop := Z.testbit (mEvtMask s) 19 = true.

#[export] Instance wanted_dec s : Decision (wanted s).
Proof. unfold wanted. apply _. Defined.

Lemma not_wanted s : (autoReportBatchingSessionsCount s =? 0)%nat = true ↔ ¬ wanted s.
Proof. unfold wanted. rewrite Nat.eqb_eq. lia. Qed.

Lemma wanted_iff s :
  wanted s ↔ (∃ k o, mBatchingSessions s !! k = Some o ∧ auto_report o = true) ∨ trips s ≠ ∅.
Proof.
  unfold wanted, autoReportBatchingSessionsCount.
  destruct (decide (trips s = ∅)) as [He|Hne].
  - rewrite He, map_size_empty, Nat.add_0_r. split.
    + intros Hl. left. destruct (filter _ _) as [|[k o] l] eqn:E; [simpl in Hl; lia|].
      assert ((k, o) ∈ (k, o) :: l) as Hin by left. rewrite <- E in Hin.
      apply list_elem_of_filter in Hin as [Ha Hin]. simpl in Ha. apply elem_of_entries in Hin.
      exists k, o. split; [done|]. by destruct (auto_report o).
    + intros [(k & o & Hk & Ha)|]; [|done].
      assert ((k, o) ∈ filter (λ e : LocationSessionKey * BatchingOptions, auto_report e.2)
        (entries session_key_le (mBatchingSessions s))) as Hin.
      { apply list_elem_of_filter. split; [simpl; by rewrite Ha|]. by apply elem_of_entries. }
      destruct (filter _ _); [by apply not_elem_of_nil in Hin|simpl; lia].
  - split; [by right|]. intros _.
    assert (size (trips s) ≠ 0%nat) by (by rewrite map_size_empty_iff). lia.
Qed.

(** What a step may do to the registration: the states before and after. *)
Definition keeps (s s' : adapter) : Prop :=
  (wanted s → full_registered s) → wanted s' → full_registered s'.

Lemma keeps_refl s : keeps s s.
Proof. by intros H. Qed.

Lemma keeps_trans s1 s2 s3 : keeps s1 s2 → keeps s2 s3 → keeps s1 s3.
Proof. unfold keeps. tauto. Qed.

(** Fewer sessions, the same mask. *)
Lemma keeps_fewer s s' : mEvtMask s' = mEvtMask s → (wanted s' → wanted s) → keeps s s'.
Proof. unfold keeps, full_registered. intros -> Hw Hk H. auto. Qed.

Lemma keeps_same s s' : mEvtMask s' = mEvtMask s → mBatchingSessions s' = mBatchingSessions s →
  trips s' = trips s → keeps s s'.
Proof. intros He Hb Ht. apply keeps_fewer; [done|]. by rewrite !wanted_iff, Hb, Ht. Qed.

Lemma registered_after_register s : full_registered (register_full s).
Proof.
  change (Z.testbit (Z.lor (mEvtMask s) LOC_API_ADAPTER_BIT_BATCH_FULL) 19 = true).
  rewrite Z.lor_spec. apply orb_true_r.
Qed.

Lemma keeps_unregister s : ¬ wanted s → keeps s (unregister_full s).
Proof. intros Hn _ Hw. exfalso. apply Hn. by rewrite wanted_iff in *. Qed.

Lemma keeps_if_unregister (b : bool) s :
  keeps s (if b && (autoReportBatchingSessionsCount s =? 0)%nat then unregister_full s else s).
Proof.
  destruct b, (_ =? 0)%nat eqn:E; simpl; try apply keeps_refl.
  apply keeps_unregister. by apply not_wanted.
Qed.

Lemma keeps_reportResponse c e i s : keeps s (reportResponse c e i s).
Proof. unfold reportResponse. repeat case_match; by apply keeps_same. Qed.

Lemma keeps_updateClientsEventMask s : keeps s (updateClientsEventMask s).
Proof.
  intros _ Hw. assert (wanted s) as Hs by (by rewrite wanted_iff in *).
  unfold updateClientsEventMask. rewrite decide_True by done.
  unfold full_registered, updateEvtMask, emit, set_evt_mask. cbn [mEvtMask].
  rewrite Z.lor_spec. apply orb_true_r.
Qed.

Lemma keeps_erase c i s : keeps s (eraseBatchingSession c i s).
Proof.
  apply keeps_fewer; [done|]. rewrite !wanted_iff. simpl. intros [(k & o & Hk & Ha)|]; [|by right].
  left. apply lookup_delete_Some in Hk as [_ Hk]. eauto.
Qed.

Lemma keeps_delete_trip i s : keeps s (set_trips (delete i (trips s)) s).
Proof.
  apply keeps_fewer; [done|]. rewrite !wanted_iff. simpl. intros [|Ht]; [by left|]. right.
  intros E. apply Ht. unfold trips in *. simpl. by rewrite E, delete_empty.
Qed.

(** Registered first if nobody wanted the event: then one more session may. *)
Lemma keeps_register (b : bool) s s' :
  let s1 := if b && (autoReportBatchingSessionsCount s =? 0)%nat then register_full s else s in
  mEvtMask s' = mEvtMask s1 → (b = false → wanted s' → wanted s) → keeps s s'.
Proof.
  simpl. intros He Hb Hk Hw. unfold full_registered. rewrite He.
  destruct b; simpl; [|by apply Hk, Hb].
  destruct (_ =? 0)%nat eqn:E; [apply registered_after_register|].
  apply Hk. apply Nat.eqb_neq in E. unfold wanted. lia.
Qed.

Lemma keeps_startBatching c i o p s : keeps s (startBatching c i o p s).
Proof.
  unfold startBatching. eapply (keeps_register (auto_report o)); [done|].
  intros Ha. rewrite Ha. simpl. rewrite !wanted_iff. simpl.
  intros [(k & o' & Hk & Ha')|]; [|by right]. left.
  rewrite lookup_insert_Some in Hk. destruct Hk as [[<- <-]|[_ Hk]]; [congruence|eauto].
Qed.

Lemma keeps_startTrip c i o s : keeps s (startTripBatchingMultiplex c i o s).
Proof.
  unfold startTripBatchingMultiplex. destruct (decide _) as [Hz|Hz]; [|by apply keeps_same].
  by eapply (keeps_register true).
Qed.

Lemma keeps_stopBatching c i r o s : keeps s (stopBatching c i r o s).
Proof.
  unfold stopBatching. case_match; [|apply keeps_refl].
  eapply keeps_trans; [apply (keeps_erase c i)|]. by apply keeps_same.
Qed.

Lemma keeps_restart_as c i o s : keeps s (restart_as c i o s).
Proof.
  unfold restart_as. repeat case_match; auto using keeps_startBatching, keeps_startTrip, keeps_refl.
Qed.

Lemma keeps_restartTripBatching q d s : keeps s (restartTripBatching q d s).
Proof.
  unfold restartTripBatching. destruct (decide _).
  - eapply keeps_trans; [|apply (keeps_if_unregister true)]. by apply keeps_same.
  - case_match. by apply keeps_same.
Qed.

Create HintDb keeps.
#[local] Hint Resolve keeps_refl keeps_reportResponse keeps_updateClientsEventMask keeps_erase
  keeps_delete_trip keeps_startBatching keeps_startTrip keeps_stopBatching keeps_restart_as
  keeps_restartTripBatching : keeps.
#[local] Hint Extern 1 (keeps _ _) => by apply keeps_same : keeps.

(** The states between two operations. *)
Ltac keeps_via := eapply keeps_trans; [|solve [eauto with keeps]].

Lemma keeps_start_answered c i o p e s : keeps s (start_answered c i o p e s).
Proof.
  unfold start_answered. keeps_via. eapply keeps_trans; [|case_match; by apply keeps_same].
  eapply keeps_trans; [|apply keeps_if_unregister]. case_match; eauto with keeps.
Qed.

Lemma keeps_start_trip_answered c i o e s : keeps s (start_trip_answered c i o e s).
Proof.
  unfold start_trip_answered. keeps_via. case_match; [by apply keeps_same|].
  eapply keeps_trans; [|apply (keeps_if_unregister true)].
  eapply keeps_trans; [apply (keeps_erase c i)|]. apply keeps_delete_trip.
Qed.

(** A session comes back under other options when its stop fails. *)
Lemma keeps_stop_answered c i f r o e s : lock_enabled s && negb (success e) = false →
  keeps s (stop_answered c i f r o e s).
Proof.
  intros He. unfold stop_answered. rewrite He. keeps_via.
  rewrite andb_comm. eapply keeps_trans; [apply (keeps_if_unregister (auto_report f))|].
  destruct r; eauto with keeps.
Qed.

(** A trip may be added to others without asking for the event. *)
Lemma keeps_new_trip_queried c i o e d s : success e = true → trips s ≠ ∅ →
  keeps s (new_trip_queried c i o e d s).
Proof.
  intros He Ht. apply keeps_fewer; [|intros _; apply wanted_iff; by right].
  unfold new_trip_queried, reportResponse. rewrite He. by repeat case_match; simplify_eq/=.
Qed.

Lemma keeps_new_trip_failed c i o e d s : success e = false → keeps s (new_trip_queried c i o e d s).
Proof.
  intros He. apply keeps_fewer; unfold new_trip_queried, reportResponse; rewrite He.
  - by repeat case_match; simplify_eq/=.
  - rewrite !wanted_iff. unfold trips. repeat case_match; simplify_eq/=; try done.
    all: intros [|Hf]; [by left|right; intros E; apply Hf; unfold trips; simpl].
    all: by rewrite E, fmap_empty.
Qed.

Lemma keeps_restart_queried q d i a x s : keeps s (restart_queried q d i a x s).
Proof. unfold restart_queried. repeat case_match; by apply keeps_same. Qed.

Lemma keeps_restart_answered a d i e s : keeps s (restart_answered a d i e s).
Proof.
  unfold restart_answered. case_match; [|apply keeps_refl]. apply keeps_fewer; [done|].
  rewrite !wanted_iff. intros [|Hf]; [by left|right]. intros E. apply Hf.
  unfold trips in *. simpl. by rewrite E, fmap_empty.
Qed.

Lemma keeps_restartSessions s : keeps s (restartSessions s).
Proof.
  intros _ Hw. assert (∀ l s, mEvtMask (foldl restart_session s l) = mEvtMask s ∧
    mBatchingSessions (foldl restart_session s l) = mBatchingSessions s ∧
    trips (foldl restart_session s l) = trips s) as Hl.
  { induction l as [|e l IH]; intros s0; [done|]. simpl. destruct (IH (restart_session s0 e)) as (-> & -> & ->).
    unfold restart_session. by case_match. }
  unfold restartSessions in *. set (b := if decide (wanted s) then register_full s else s).
  change (if decide (0 < _)%nat then _ else s) with b in *.
  destruct (Hl (entries session_key_le (mBatchingSessions b)) b) as (He & Hb & Ht).
  set (s1 := foldl restart_session b _) in *.
  assert (wanted b → full_registered b) as Hk.
  { subst b. destruct (decide (wanted s)); [intros; apply registered_after_register|done]. }
  assert (keeps b s1) as Hk1 by (by apply keeps_same).
  specialize (Hk1 Hk). destruct (decide (0 < size (trips s1))%nat); [|auto].
  destruct (scan_trips _). unfold full_registered in *. simpl. apply Hk1.
  rewrite wanted_iff in *. exact Hw.
Qed.

Lemma keeps_proc_ssr g s : keeps s (proc_ssr g s).
Proof.
  unfold proc_ssr. set (s1 := setConfig _). assert (keeps s s1) as H1 by (by apply keeps_same).
  clearbody s1. destruct (lock_enabled s1); [|done].
  eapply keeps_trans; [exact H1|]. eapply keeps_trans; [apply keeps_restartSessions|].
  by apply keeps_same.
Qed.
#[local] Hint Resolve keeps_start_answered keeps_start_trip_answered keeps_restart_queried
  keeps_restart_answered keeps_proc_ssr : keeps.

(** ** Trips that end *)

(** Once the trip is out of the map. *)
Lemma keeps_dropped (r : bool) c i o s :
  keeps s
   (let s := if decide (size (trips s) = 0%nat) then set_trip (set_ongoing 0 0 (trip s)) s
             else restartTripBatching true 0 s in
    if r then restart_as c i o (eraseBatchingSession c i s) else s).
Proof.
  simpl. destruct r.
  - keeps_via. keeps_via. case_match; [by apply keeps_same|eauto with keeps].
  - case_match; [by apply keeps_same|eauto with keeps].
Qed.

(** The same for operations that may be undefined. *)
Definition keeps_opt (s : adapter) (r : option adapter) : Prop := ∀ s', r = Some s' → keeps s s'.

Lemma keeps_Some s s' : keeps s s' → keeps_opt s (Some s').
Proof. by intros H ? [= <-]. Qed.

Lemma foldl_bind_None {A B} (f : A → B → option A) l : foldl (λ s x, s ≫= λ s, f s x) None l = None.
Proof. by induction l. Qed.

Lemma keeps_fold {B} (f : adapter → B → option adapter) l s :
  (∀ s x, keeps_opt s (f s x)) → keeps_opt s (foldl (λ s x, s ≫= λ s, f s x) (Some s) l).
Proof.
  intros Hf. revert s. induction l as [|x l IH]; intros s s'; simpl.
  - intros [= <-]. apply keeps_refl.
  - destruct (f s x) as [s1|] eqn:E.
    + intros H. eapply keeps_trans; [by apply (Hf s x)|by apply IH].
    + by rewrite foldl_bind_None.
Qed.

Lemma keeps_stopTripCommon e c i r o s :
  keeps_opt s (stopTripBatchingMultiplexCommon None e c i r o s).
Proof.
  unfold stopTripBatchingMultiplexCommon. intros s'. destruct (trips s !! i) as [st|]; [|done].
  intros [= <-]. keeps_via. eapply keeps_trans; [|apply keeps_dropped].
  eapply keeps_trans; [|apply keeps_delete_trip]. by apply keeps_same.
Qed.

(** The only one that wants the event is the trip that is stopped. *)
Lemma keeps_stop_trip_answered c i r o e s : keeps_opt s (stop_trip_answered None c i r o e s).
Proof.
  unfold stop_trip_answered. destruct (_ && _) eqn:E; [|apply keeps_stopTripCommon].
  apply andb_true_iff in E as [_ E]. apply Nat.eqb_eq in E.
  unfold stopTripBatchingMultiplexCommon. intros s'.
  destruct (trips _ !! i) as [st|] eqn:Ht; [|done]. intros [= <-].
  keeps_via. eapply keeps_trans; [|apply keeps_dropped].
  intros _ Hw. exfalso. revert Hw. unfold wanted, autoReportBatchingSessionsCount in *.
  unfold trips in *. simpl in *. assert (is_Some (mTripSessions (trip s) !! i)) as Hi by eauto.
  rewrite (map_size_delete_Some _ _ Hi). apply map_size_ne_0_lookup_2 in Hi. lia.
Qed.

Lemma keeps_stopTrip c i r o s : keeps_opt s (stopTripBatchingMultiplex None c i r o s).
Proof.
  unfold stopTripBatchingMultiplex. case_match; [|apply keeps_stopTripCommon].
  apply keeps_Some. by apply keeps_same.
Qed.

Lemma keeps_stopClientSessions c s : keeps_opt s (stopClientSessions None c s).
Proof.
  apply keeps_fold. intros s0 [k o]. unfold stop_session. case_match; [|apply keeps_stopTrip].
  apply keeps_Some. eauto with keeps.
Qed.

Lemma complete_trips_none er a t r : mTripSessions t = ∅ → complete_trips er a t = Some r → r = ([], t).
Proof. unfold complete_trips. intros ->. rewrite entries_empty. by intros [= <-]. Qed.

Lemma keeps_proc_completed er a s : keeps_opt s (proc_completed er a s).
Proof.
  unfold proc_completed. intros s'. destruct (complete_trips _ _ _) as [[l t]|] eqn:E; [|done].
  simpl. intros Hs. eapply (keeps_trans _ (set_trip t s)).
  - apply keeps_fewer; [done|]. rewrite !wanted_iff. unfold trips. simpl.
    intros [|Hf]; [by left|right]. intros He. apply Hf.
    apply complete_trips_none in E; [|done]. by simplify_eq.
  - case_match; simplify_eq; [|eauto with keeps]. keeps_via. by apply keeps_same.
Qed.

Lemma keeps_or_pending m f s : keeps_opt s (f s) → keeps_opt s (or_pending m f s).
Proof. unfold or_pending. case_match; [|done]. intros _. apply keeps_Some. by apply keeps_same. Qed.

Lemma keeps_proc_start g c i o s : keeps s (proc_start g c i o s).
Proof. unfold proc_start. repeat case_match; eauto with keeps. Qed.

Lemma keeps_proc_get c i n s : keeps s (proc_get c i n s).
Proof. unfold proc_get. repeat case_match; eauto with keeps. Qed.

(** The two answers after which the registration may be missing: a stop that
    the engine refuses, and the distance for a new trip when the others are
    over. *)
Definition loses_registration (m : locmsg) (s : adapter) : bool :=
  match m with
  | MsgResponse (StopAnswered _ _ _ _ _) err _ => lock_enabled s && negb (success err)
  | MsgResponse (NewTripQueried _ _ _) err _ => success err && bool_decide (trips s = ∅)
  | _ => false
  end.

Lemma keeps_run_response r e d s : loses_registration (MsgResponse r e d) s = false →
  keeps_opt s (run_response None r e d s).
Proof.
  destruct r; simpl; intros Hl; try (apply keeps_Some; by eauto with keeps).
  - apply keeps_Some. by apply keeps_stop_answered.
  - apply keeps_Some. destruct (success e) eqn:He; [|by apply keeps_new_trip_failed].
    apply bool_decide_eq_false in Hl. by apply keeps_new_trip_queried.
  - apply keeps_stop_trip_answered.
  - apply keeps_Some. unfold trips_restarted. case_match; by apply keeps_same.
Qed.

Lemma keeps_proc_msg g cf er m s : loses_registration m s = false →
  keeps_opt s (proc_msg g cf er None m s).
Proof.
  intros Hl. destruct m; simpl; try (apply keeps_Some; by eauto with keeps).
  - apply keeps_Some. unfold saveClient. keeps_via. by apply keeps_same.
  - unfold proc_remove. intros s'. destruct (stopClientSessions _ _ _) as [s1|] eqn:E; [|done].
    simpl. intros [= <-]. apply keeps_stopClientSessions in E. eapply keeps_trans; [exact E|].
    eapply (keeps_trans _ (eraseClient client s1)); [|case_match; by apply keeps_same].
    unfold eraseClient. keeps_via. by apply keeps_same.
  - apply keeps_or_pending, keeps_Some. unfold proc_request_capabilities. simpl.
    repeat case_match; by apply keeps_same.
  - apply keeps_Some. unfold handleEngineLockStatus. case_match; by apply keeps_same.
  - apply keeps_or_pending, keeps_Some, keeps_proc_start.
  - apply keeps_or_pending. unfold proc_update. repeat case_match; try apply keeps_stopTrip; apply keeps_Some; eauto with keeps.
  - apply keeps_or_pending. unfold proc_stop. repeat case_match; try apply keeps_stopTrip; apply keeps_Some; eauto with keeps.
  - apply keeps_or_pending, keeps_Some, keeps_proc_get.
  - apply keeps_proc_completed.
  - by apply keeps_run_response.
Qed.

(** ** Runs *)
Definition may_lose (e : event) (s : adapter) : bool :=
  match e, queue s with
  | ThreadRun, m :: q => loses_registration m (set_queue q s)
  | _, _ => false
  end.

Section runs.
Context (g : engine_caps) (cf : config).

(** No step of the run is one of the two. *)
Fixpoint spared er at_end (l : list event) (s : adapter) : bool :=
  match l with
  | [] => true
  | e :: l =>
      negb (may_lose e s) &&
      match step g cf er at_end e s with Some s' => spared er at_end l s' | None => true end
  end.

Lemma batching_steps_cons er ae e l s :
  steps g cf er ae (e :: l) s = step g cf er ae e s ≫= steps g cf er ae l.
Proof.
  unfold steps. simpl. by destruct (step g cf er ae e s); simpl; [|rewrite foldl_bind_None].
Qed.

Lemma steps_inv er ae (P : adapter → Prop) l s s' :
  (∀ e s s', may_lose e s = false → step g cf er ae e s = Some s' → P s → P s') →
  steps g cf er ae l s = Some s' → spared er ae l s = true → P s → P s'.
Proof.
  intros Hstep. revert s. induction l as [|e l IH]; intros s.
  - by intros [= <-].
  - rewrite batching_steps_cons. simpl. destruct (step g cf er ae e s) as [s1|] eqn:E; simpl; [|done].
    intros Hl [Hm Hs]%andb_true_iff HP. apply (IH s1); [done|done|].
    eapply Hstep; [|exact E|exact HP]. by apply negb_true_iff.
Qed.

Lemma keeps_step er e s s' : may_lose e s = false → step g cf er None e s = Some s' → keeps s s'.
Proof.
  intros Hm. destruct e; simpl; try (intros [= <-]; by apply keeps_same).
  - case_match; intros [= <-]; by apply keeps_same.
  - unfold thread_run, may_lose in *. case_match; [intros [= <-]; apply keeps_refl|].
    intros Hp. eapply keeps_trans; [|by eapply keeps_proc_msg]. by apply keeps_same.
Qed.

(** C21: In a run from the adapter's constructor in which no reference to the
    end of a map is read, the adapter is registered for the event of a full
    batch whenever it has a session that reports by itself or a trip, except
    after the engine refused to stop a session, and after the distance for a
    new trip arrived when all other trips were over. *)
Theorem full_batch_is_registered er known l s :
  steps g cf er None l (init_adapter known) = Some s →
  spared er None l (init_adapter known) = true →
  (0 < autoReportBatchingSessionsCount s)%nat → Z.testbit (mEvtMask s) 19 = true.
Proof.
  intros Hs Hl. apply (steps_inv er None (λ s, wanted s → full_registered s)) with (3 := Hl) (2 := Hs).
  - intros e s1 s2 Hm He Hk. by apply (keeps_step er e s1 s2).
  - intros Hw. by apply wanted_iff in Hw as [(k & o & Hk & _)|].
Qed.
End runs.

(** *** Runs of a client *)
Definition some_caps : engine_caps := EngineCaps (Z.shiftl 1 4) [] false 0 0.
Definition some_conf : config := Config 1000 1 20 30.
Definition some_callbacks : LocationCallbacks :=
  MkLocationCallbacks false true false false true false false false false false false false false
    true false false.
Definition some_options (m d i : Z) : BatchingOptions := MkBatchingOptions 24 i d 0 0 m.

(** The constructor's messages, and the client. *)
Definition prologue : list event := [ThreadRun; ThreadRun; AddClient 7 some_callbacks; ThreadRun].
(** A command and its turn; the [n]-th response object and its turn. *)
Definition now (e : event) : list event := [e; ThreadRun].
Definition answer (n : nat) (err : LocationError) (d : Z) : list event :=
  [ReturnToSender n err d; ThreadRun].
Abbreviation ok := LOCATION_ERROR_SUCCESS.

Definition run_client (l : list event) : option adapter :=
  steps some_caps some_conf (λ _, None) None (prologue ++ l) (init_adapter true).

Definition start_and_add_trip : list event :=
  now (StartBatchingCommand 7 (some_options BATCHING_MODE_ROUTINE 0 1000)) ++ answer 0 ok 0 ++
  now (StartBatchingCommand 7 (some_options BATCHING_MODE_TRIP 500 1000)) ++ answer 0 ok 0 ++
  now (StopBatchingCommand 7 2) ++ answer 0 ok 0.

Lemma full_batch_is_registered_witness : ∃ s,
  steps some_caps some_conf (λ _, None) None (prologue ++ start_and_add_trip) (init_adapter true) = Some s ∧
  size (trips s) = 1%nat ∧ Z.testbit (mEvtMask s) 19 = true.
Proof.
  eexists. split; [vm_compute; reflexivity|]. split; [reflexivity|].
  apply (full_batch_is_registered some_caps some_conf (λ _, None) true (prologue ++ start_and_add_trip));
    vm_compute; try reflexivity. lia.
Defined.

(** A session that did not report by itself does after its stop was refused,
    and is not registered. *)
Example refused_stop_is_not_registered :
  (λ s, (autoReportBatchingSessionsCount s, Z.testbit (mEvtMask s) 19)) <$>
  run_client (now (StartBatchingCommand 7 (some_options BATCHING_MODE_NO_AUTO_REPORT 0 1000)) ++
    answer 0 ok 0 ++ now (StopBatchingCommand 7 2) ++ answer 0 LOCATION_ERROR_TIMEOUT 0)
  = Some (1%nat, false).
Proof. vm_compute. reflexivity. Qed.

(** The second trip begins when the first one has become a session without
    reports of its own, and the third one arrives when there is none. *)
Example late_trip_is_not_registered :
  (λ s, (autoReportBatchingSessionsCount s, Z.testbit (mEvtMask s) 19)) <$>
  steps some_caps some_conf Some None (prologue ++
    now (StartBatchingCommand 7 (some_options BATCHING_MODE_TRIP 500 1000)) ++ answer 0 ok 0 ++
    now (StartBatchingCommand 7 (some_options BATCHING_MODE_TRIP 800 1000)) ++ answer 0 ok 0 ++
    now (StartBatchingCommand 7 (some_options BATCHING_MODE_TRIP 900 1000)) ++
    now (UpdateBatchingOptionsCommand 7 2 (some_options BATCHING_MODE_NO_AUTO_REPORT 0 1000)) ++
    now (CompletedTripsEvent 800) ++ answer 0 ok 0) (init_adapter true)
  = Some (1%nat, false).
Proof. vm_compute. reflexivity. Qed.

(** ** The loop over the trips *)

(** What a report makes of the trips: the ones that are over leave, the others
    know how far they are. *)
Definition over (acc : Z) (st : TripSessionStatus) : bool := tripDistance st <=? this_trip acc st.

(** The numbers of the entries that satisfy a test, in their order. *)
Definition ids_where {A} (f : A → bool) (m : gmap Z A) : list Z :=
  (filter (λ e : Z * A, f e.2) (entries Z.le m)).*1.

Section loop.
Context (er : TripSessionStatus → option TripSessionStatus) (acc : Z).
Hypothesis Her : ∀ st, is_Some (er st).

Abbreviation loop l c t := (foldl (λ a e, a ≫= λ a, complete_trip er acc a e) (Some (c, t)) l).

Lemma complete_trips_loop l c t : NoDup l.*1 → (∀ k x, (k, x) ∈ l → mTripSessions t !! k = Some x) →
  ∃ t', loop l c t = Some (c ++ (filter (λ e : Z * TripSessionStatus, over acc e.2) l).*1, t') ∧
    (∀ k, k ∉ l.*1 → mTripSessions t' !! k = mTripSessions t !! k) ∧
    (∀ k x, (k, x) ∈ l → mTripSessions t' !! k =
      if over acc x then None else Some (with_this_trip (this_trip acc x) x)) ∧
    mOngoingTripDistance t' = mOngoingTripDistance t ∧
    mOngoingTripTBFInterval t' = mOngoingTripTBFInterval t.
Proof.
  revert c t. induction l as [|[k x] l IH]; intros c t Hn Hl.
  - exists t. rewrite app_nil_r. split; [done|]. split; [done|]. split; [|done].
    intros ?? Hk. by apply not_elem_of_nil in Hk.
  - simpl in Hn. apply NoDup_cons in Hn as [Hk Hn].
    assert (∃ t1, complete_trip er acc (c, t) (k, x) =
        Some (c ++ (filter (λ e : Z * TripSessionStatus, over acc e.2) [(k, x)]).*1, t1) ∧
      mTripSessions t1 = (if over acc x then delete k (mTripSessions t)
        else <[k := with_this_trip (this_trip acc x) x]> (mTripSessions t)) ∧
      mOngoingTripDistance t1 = mOngoingTripDistance t ∧
      mOngoingTripTBFInterval t1 = mOngoingTripTBFInterval t) as (t1 & E & Hm & Hd & Hi).
    { unfold complete_trip. simpl. change (tripDistance x <=? this_trip acc x) with (over acc x).
      destruct (Her (with_this_trip (this_trip acc x) x)) as [y Hy]. cbn [filter list_filter].
      case_decide as Hd; cbn [snd fst] in Hd; destruct (over acc x); try done.
      - rewrite Hy. simpl. eauto.
      - rewrite app_nil_r. eauto. }
    destruct (IH (c ++ (filter (λ e : Z * TripSessionStatus, over acc e.2) [(k, x)]).*1) t1) as (t' & E' & Hno & Hyes & Hd' & Hi').
    { done. }
    { intros k' x' Hin. rewrite Hm. assert (k ≠ k') as Hne.
      { intros <-. apply Hk. apply list_elem_of_fmap. by exists (k, x'). }
      specialize (Hl k' x' (list_elem_of_further _ _ _ Hin)).
      case_match; by rewrite ?lookup_delete_ne, ?lookup_insert_ne by done. }
    exists t'. cbn [foldl].
    assert ((Some (c, t) ≫= λ a, complete_trip er acc a (k, x)) =
      Some (c ++ (filter (λ e : Z * TripSessionStatus, over acc e.2) [(k, x)]).*1, t1)) as -> by exact E.
    rewrite E'. rewrite <- app_assoc, <- fmap_app.
    change ((k, x) :: l) with ([(k, x)] ++ l). rewrite filter_app.
    split; [done|]. split; [|split; [|by rewrite Hd', Hi']].
    + intros k' Hk'. simpl in Hk'. apply not_elem_of_cons in Hk' as [Hne Hk']. rewrite Hno by done.
      rewrite Hm. case_match; by rewrite ?lookup_delete_ne, ?lookup_insert_ne by done.
    + intros k' x' [[= -> ->]|Hin]%elem_of_cons; [|by apply Hyes].
      rewrite Hno by done. rewrite Hm. case_match; by rewrite ?lookup_delete_eq, ?lookup_insert_eq.
Qed.

(** The whole loop. *)
Lemma complete_trips_spec t : ∃ t',
  complete_trips er acc t = Some (ids_where (over acc) (mTripSessions t), t') ∧
  (∀ k, mTripSessions t' !! k =
    st ← mTripSessions t !! k; if over acc st then None else Some (with_this_trip (this_trip acc st) st)) ∧
  mOngoingTripDistance t' = mOngoingTripDistance t ∧
  mOngoingTripTBFInterval t' = mOngoingTripTBFInterval t.
Proof.
  destruct (complete_trips_loop (entries Z.le (mTripSessions t)) [] t) as (t' & E & Hno & Hyes & Hd).
  - apply entries_NoDup_fst.
  - intros k x. apply elem_of_entries.
  - exists t'. split; [exact E|]. split; [|done]. intros k.
    destruct (mTripSessions t !! k) as [x|] eqn:Hx; simpl.
    + apply Hyes. by apply elem_of_entries.
    + rewrite Hno; [done|]. intros [[k' x] [-> Hin]]%list_elem_of_fmap.
      apply elem_of_entries in Hin. simpl in Hx. congruence.
Qed.
End loop.

(** ** The trips and the odometer *)

Lemma elem_of_ids_where {A} (f : A → bool) (m : gmap Z A) k :
  k ∈ ids_where f m ↔ ∃ x, m !! k = Some x ∧ f x = true.
Proof.
  unfold ids_where. rewrite list_elem_of_fmap. split.
  - intros [[k' x] [-> [Hf Hin]%list_elem_of_filter]]. simpl in *. apply elem_of_entries in Hin.
    exists x. split; [done|]. by destruct (f x).
  - intros (x & Hx & Hf). exists (k, x). split; [done|]. apply list_elem_of_filter.
    split; [simpl; by rewrite Hf|]. by apply elem_of_entries.
Qed.

Lemma ids_where_NoDup {A} (f : A → bool) (m : gmap Z A) : NoDup (ids_where f m).
Proof. apply NoDup_fmap_filter, entries_NoDup_fst. Qed.

Lemma ids_where_sorted {A} (f : A → bool) (m : gmap Z A) : StronglySorted Z.le (ids_where f m).
Proof.
  unfold ids_where. assert (StronglySorted (by_key Z.le) (entries Z.le m)) as Hs.
  { apply Sorted_StronglySorted, entries_sorted; [|apply _].
    intros a b c. unfold by_key. lia. }
  induction Hs as [|e l Hl IH Hf]; [constructor|]. rewrite filter_cons. case_decide; [|done].
  simpl. constructor; [done|]. apply Forall_forall. intros k [e' [-> He']]%list_elem_of_fmap.
  apply list_elem_of_filter in He' as [_ He'].
  by eapply (proj1 (Forall_forall _ _) Hf e').
Qed.

Lemma ids_where_ext {A B} (f : A → bool) (h : B → bool) (m : gmap Z A) (m' : gmap Z B) :
  (∀ k, (∃ x, m !! k = Some x ∧ f x = true) ↔ (∃ y, m' !! k = Some y ∧ h y = true)) →
  ids_where f m = ids_where h m'.
Proof.
  intros He. apply (StronglySorted_unique Z.le); try apply ids_where_sorted.
  apply NoDup_Permutation; try apply ids_where_NoDup. intros k. by rewrite !elem_of_ids_where.
Qed.

(** The engine travels, and counts from the start of the batch it was last told
    of; [batch_distance] and [batch_interval] are that batch's. *)
Record engine := Engine {
  here : Z; batch_start : Z; batch_distance : Z; batch_interval : Z
}.

Definition hears (e : engine) (o : output) : engine :=
  match o with
  | ToEngine (StartOutdoorTripBatching d i _) | ToEngine (ReStartOutdoorTripBatching d i _) =>
      Engine (here e) (here e) d i
  | _ => e
  end.
Definition batch_length (e : engine) : Z := here e - batch_start e.

(** What happens on the way: the engine travels, it reports how long its batch
    is, a client starts a trip. *)
Inductive leg :=
  | Travel (d : Z)
  | Report
  | TripStarts (client id : Z) (o : BatchingOptions).

(** What is seen of a leg: the trips of which [c] was told that they are over;
    the engine when a trip starts, and whether its batch was restarted. *)
Inductive sight :=
  | Completed (l : list Z)
  | Started (e : engine) (restarted : bool).

Section ride.
Context (g : engine_caps) (cf : config).
Context (er : TripSessionStatus → option TripSessionStatus) (at_end : option TripSessionStatus).
Context (c : Z).

Definition quiet (s : adapter) : adapter :=
  Adapter (mBatchingSessions s) (trip s) (conf s) (mClientData s) (mEvtMask s)
    (mIsEngineCapabilitiesKnown s) (mPendingMsgs s) (mPendingGnssEnabledMsgs s) (queue s) (calls s)
    (lock s) (mSessionIdCounter s) [].

(** A message of the adapter's thread, with what goes out. *)
Definition turn (m : locmsg) (w : engine * adapter) : option (list output * (engine * adapter)) :=
  s ← proc_msg g cf er at_end m (quiet w.2);
  Some (out s, (foldl hears w.1 (out s), s)).

(** The engine answers where it stands, with success. *)
Definition answered (w : engine * adapter) : option (list output * (engine * adapter)) :=
  match calls w.2 with
  | [] => Some ([], w)
  | r :: l => turn (MsgResponse r LOCATION_ERROR_SUCCESS (batch_length w.1)) (w.1, set_calls l w.2)
  end.

(** A message and its dialogue with the engine: a query, then a restart. *)
Definition dialogue (m : locmsg) (w : engine * adapter) : option (list output * (engine * adapter)) :=
  '(o1, w) ← turn m w; '(o2, w) ← answered w; '(o3, w) ← answered w;
  Some (o1 ++ o2 ++ o3, w).

Definition told (o : output) : option (list Z) :=
  match o with
  | BatchingStatusCb client status l =>
      if (client =? c) && (status =? BATCHING_STATUS_TRIP_COMPLETED) then Some l else None
  | _ => None
  end.
Definition restart_of (o : output) : bool :=
  match o with ToEngine (ReStartOutdoorTripBatching _ _ _) => true | _ => false end.

(** The adapter and the engine on the way. *)
Fixpoint ride (ls : list leg) (e : engine) (s : adapter) : option (list sight) :=
  match ls with
  | [] => Some []
  | Travel d :: ls => ride ls (Engine (here e + d) (batch_start e) (batch_distance e) (batch_interval e)) s
  | Report :: ls =>
      '(o, (e', s)) ← dialogue (MsgReportCompletedTrips (batch_length e)) (e, s);
      cons (Completed (concat (omap told o))) <$> ride ls e' s
  | TripStarts client id opt :: ls =>
      '(o, (e', s)) ← dialogue (MsgStartBatching client id opt) (e, s);
      cons (Started e (existsb restart_of o)) <$> ride ls e' s
  end.
End ride.

(** The reference: a trip is a length, the place where it began and the place
    where it was last measured. *)
Record on_way := OnWay { way : Z; from : Z; measured : Z }.
Definition there (place : Z) (x : on_way) : bool := way x <=? place - from x.
Definition measure (place : Z) (x : on_way) : on_way := OnWay (way x) (from x) place.
(** A batch that is restarted for a new trip loses what the others travelled
    since they were measured. *)
Definition lose (place : Z) (x : on_way) : on_way :=
  OnWay (way x) (from x + (place - measured x)) place.
(** A trip needs another batch than the engine's: it is over before the batch
    is, or wants a shorter interval. *)
Definition needs_batch (e : engine) (o : BatchingOptions) : bool :=
  (minDistance o <? (batch_distance e - batch_length e) `mod` 2 ^ 32) || (minInterval o <? batch_interval e).

Fixpoint odometer (ls : list leg) (seen : list sight) (place : Z) (m : gmap Z on_way) : Prop :=
  match ls, seen with
  | [], [] => True
  | Travel d :: ls, _ => odometer ls seen (place + d) m
  | Report :: ls, Completed l :: seen =>
      l = ids_where (there place) m ∧
      odometer ls seen place (measure place <$> filter (λ x : Z * on_way, there place x.2 = false) m)
  | TripStarts _ id o :: ls, Started e restarted :: seen =>
      restarted = negb (bool_decide (m = ∅)) && needs_batch e o ∧
      odometer ls seen place (<[id := OnWay (minDistance o) place place]>
        (if restarted then lose place <$> m else m))
  | _, _ => False
  end.

(** The engine moves forward, less than 2^32 metres in all; the trips are
    started by clients that may start them. *)
Fixpoint leg_ok (clients : gmap Z LocationCallbacks) (place : Z) (ls : list leg) : Prop :=
  0 ≤ place < 2 ^ 32 ∧
  match ls with
  | [] => True
  | Travel d :: ls => 0 ≤ d ∧ leg_ok clients (place + d) ls
  | Report :: ls => leg_ok clients place ls
  | TripStarts client id o :: ls =>
      (∃ cb, clients !! client = Some cb ∧ batchingCb cb = true) ∧
      opt_size o ≠ 0 ∧ batchingMode o = BATCHING_MODE_TRIP ∧ leg_ok clients place ls
  end.

(** How the adapter knows the places. *)
Definition same_trip (e : engine) (st : TripSessionStatus) (x : on_way) : Prop :=
  tripDistance st = way x ∧ accumulatedDistanceThisTrip st = measured x - from x ∧
  ∃ n, accumulatedDistanceOnTripRestart st - accumulatedDistanceOngoingBatch st =
       batch_start e - from x + n * 2 ^ 32.

(** The distance of a trip, modulo 2^32. *)
Lemma this_trip_mod a st :
  this_trip a st =
  (accumulatedDistanceOnTripRestart st - accumulatedDistanceOngoingBatch st + a) `mod` 2 ^ 32.
Proof.
  unfold this_trip, add32, sub32, wrap_unsigned. rewrite Zplus_mod_idemp_r. f_equal. lia.
Qed.

Definition place_ok (e : engine) (x : on_way) : Prop := 0 ≤ from x ≤ measured x ∧ measured x ≤ here e.

Lemma this_trip_place e st x : same_trip e st x → place_ok e x → here e < 2 ^ 32 →
  this_trip (batch_length e) st = here e - from x.
Proof.
  intros (_ & _ & n & E) Hx Hh. rewrite this_trip_mod, E. unfold batch_length.
  replace (batch_start e - from x + n * 2 ^ 32 + (here e - batch_start e))
    with (here e - from x + n * 2 ^ 32) by lia.
  rewrite Z_mod_plus_full. apply Z.mod_small. destruct Hx. lia.
Qed.

Lemma same_trip_over e st x : same_trip e st x → place_ok e x → here e < 2 ^ 32 →
  over (batch_length e) st = there (here e) x.
Proof.
  intros Hs Hx Hh. unfold over, there. rewrite (this_trip_place e st x) by done.
  by destruct Hs as [-> _].
Qed.

Lemma same_trip_measured e st x : same_trip e st x → place_ok e x → here e < 2 ^ 32 →
  same_trip e (with_this_trip (this_trip (batch_length e) st) st) (measure (here e) x).
Proof.
  intros Hs Hx Hh. unfold same_trip. simpl. rewrite (this_trip_place e st x) by done.
  by destruct Hs as (? & _ & ?).
Qed.

(** The batch begins anew here. *)
Definition restarted_at (d i : Z) (e : engine) : engine := Engine (here e) (here e) d i.

Lemma same_trip_reset e st x d i : same_trip e st x → place_ok e x → here e < 2 ^ 32 →
  measured x = here e → same_trip (restarted_at d i e) (reset_at (batch_length e) st) x.
Proof.
  intros Hs Hx Hh Hm. pose proof (this_trip_place _ _ _ Hs Hx Hh) as E.
  destruct Hs as (Hl & _ & _). unfold same_trip, reset_at. simpl. rewrite E. split_and!; [done|lia|].
  exists 0. lia.
Qed.

Lemma same_trip_lost e st x d i : same_trip e st x →
  same_trip (restarted_at d i e) (reset_for_new st) (lose (here e) x).
Proof.
  intros (Hl & Ht & _). unfold same_trip, reset_for_new. simpl. rewrite Ht. split_and!; [done|lia|].
  exists 0. lia.
Qed.

Definition same_trips (e : engine) (m : gmap Z TripSessionStatus) (m' : gmap Z on_way) : Prop :=
  ∀ k, option_Forall2 (same_trip e) (m !! k) (m' !! k).
Definition places_ok (e : engine) (m : gmap Z on_way) : Prop := map_Forall (λ _, place_ok e) m.

Lemma same_trips_over e m m' k : same_trips e m m' → places_ok e m' → here e < 2 ^ 32 →
  (∃ st, m !! k = Some st ∧ over (batch_length e) st = true) ↔
  (∃ x, m' !! k = Some x ∧ there (here e) x = true).
Proof.
  intros Hm Hp Hh. specialize (Hm k). specialize (Hp k).
  destruct (m !! k) as [st|], (m' !! k) as [x|]; inversion Hm as [? ? Hs|]; subst; [|naive_solver].
  pose proof (same_trip_over e st x Hs (Hp x eq_refl) Hh) as E.
  split; intros (? & [= <-] & ?); eexists; (split; [done|congruence]).
Qed.

Lemma same_trips_empty e m m' : same_trips e m m' → m = ∅ ↔ m' = ∅.
Proof.
  intros Hm. split; intros ->; apply map_empty; intros k; specialize (Hm k);
    rewrite lookup_empty in Hm; by inversion Hm.
Qed.

Lemma same_trips_map e e' (f : TripSessionStatus → TripSessionStatus) (h : on_way → on_way) m m' :
  same_trips e m m' →
  (∀ k st x, m' !! k = Some x → same_trip e st x → same_trip e' (f st) (h x)) →
  same_trips e' (f <$> m) (h <$> m').
Proof.
  intros Hm Hf k. rewrite !lookup_fmap. specialize (Hm k).
  destruct (m !! k), (m' !! k) as [x|] eqn:E; inversion Hm; subst; simpl; constructor. eauto.
Qed.

Lemma same_trips_insert e m m' id o : same_trips e m m' →
  same_trips e (<[id := new_trip (batch_length e) o]> m)
    (<[id := OnWay (minDistance o) (here e) (here e)]> m').
Proof.
  intros Hm k. destruct (decide (id = k)) as [<-|Hne].
  - rewrite !lookup_insert_eq. constructor. unfold same_trip, batch_length. simpl. split_and!; [done|lia|].
    exists 0. lia.
  - by rewrite !lookup_insert_ne.
Qed.

Section track.
Context (g : engine_caps) (cf : config) (er : TripSessionStatus → option TripSessionStatus).
Context (at_end : option TripSessionStatus) (c : Z) (clients : gmap Z LocationCallbacks).
Hypothesis Her : ∀ st, is_Some (er st).
Hypothesis Hsup : isMessageSupported g LOC_API_ADAPTER_MESSAGE_DISTANCE_BASE_LOCATION_BATCHING = true.

Abbreviation answered := (answered g cf er at_end).
Abbreviation dialogue := (dialogue g cf er at_end).
Abbreviation turn := (turn g cf er at_end).
Abbreviation ride := (ride g cf er at_end c).

(** The adapter between two legs. *)
Record at_rest (s : adapter) : Prop := {
  rest_calls : calls s = [];
  rest_known : mIsEngineCapabilitiesKnown s = true;
  rest_clients : mClientData s = clients
}.

Record on_track (e : engine) (s : adapter) (m : gmap Z on_way) : Prop := {
  track_rest : at_rest s;
  track_batch : m ≠ ∅ → mOngoingTripDistance (trip s) = batch_distance e ∧
                        mOngoingTripTBFInterval (trip s) = batch_interval e;
  track_trips : same_trips e (trips s) m;
  track_places : places_ok e m
}.

(** The client is told once. *)
Lemma told_once l cb : clients !! c = Some cb → batchingStatusCb cb = true →
  omap (told c) (omap (λ d : Z * LocationCallbacks,
    if batchingStatusCb d.2 then Some (BatchingStatusCb d.1 BATCHING_STATUS_TRIP_COMPLETED l) else None)
    (entries Z.le clients)) = [l].
Proof.
  intros Hc Hcb. pose proof (entries_NoDup_fst Z.le clients) as Hn.
  apply (elem_of_entries Z.le) in Hc. revert Hn Hc. generalize (entries Z.le clients) as L. clear -Hcb.
  assert (∀ L : list (Z * LocationCallbacks), c ∉ L.*1 → omap (told c) (omap (λ d : Z * LocationCallbacks,
    if batchingStatusCb d.2 then Some (BatchingStatusCb d.1 BATCHING_STATUS_TRIP_COMPLETED l) else None) L) = [])
    as Hno.
  { induction L as [|[k b] L IH]; [done|]. simpl. intros [Hne HL]%not_elem_of_cons.
    destruct (batchingStatusCb b); simpl; [|by apply IH].
    rewrite (proj2 (Z.eqb_neq k c)) by done. by apply IH. }
  induction L as [|[k b] L IH]; simpl; [by intros _ ?%not_elem_of_nil|].
  intros [Hk Hn]%NoDup_cons [[= <- <-]|Hin]%elem_of_cons.
  - rewrite Hcb. simpl. rewrite Z.eqb_refl. simpl. by rewrite Hno.
  - assert (k ≠ c) as Hne by (intros ->; apply Hk, list_elem_of_fmap; by exists (c, cb)).
    destruct (batchingStatusCb b); simpl; [|by apply IH].
    rewrite (proj2 (Z.eqb_neq k c)) by done. by apply IH.
Qed.

Lemma answered_rest e s : calls s = [] → answered (e, s) = Some ([], (e, s)).
Proof. intros E. unfold BatchingProps.answered. simpl. by rewrite E. Qed.

Lemma dialogue_Some m w o1 w1 o2 w2 o3 w3 :
  turn m w = Some (o1, w1) → answered w1 = Some (o2, w2) → answered w2 = Some (o3, w3) →
  dialogue m w = Some (o1 ++ o2 ++ o3, w3).
Proof.
  intros E1 E2 E3. unfold BatchingProps.dialogue. rewrite E1. cbn [mbind option_bind]. rewrite E2.
  cbn [mbind option_bind]. by rewrite E3.
Qed.

(** The dialogue after a report that ended trips. *)
Lemma restart_dialogue e s m rem i q :
  calls s = [RestartQueried q rem i (batch_length e)] →
  mIsEngineCapabilitiesKnown s = true → mClientData s = clients → here e < 2 ^ 32 →
  (m ≠ ∅ → mOngoingTripDistance (trip s) = batch_distance e ∧
           mOngoingTripTBFInterval (trip s) = batch_interval e) →
  same_trips e (trips s) m → places_ok e m → map_Forall (λ _ x, measured x = here e) m →
  ∃ o2 o3 e' s1 e1 s', answered (e, s) = Some (o2, (e1, s1)) ∧ answered (e1, s1) = Some (o3, (e', s')) ∧
    omap (told c) o2 = [] ∧ omap (told c) o3 = [] ∧ here e' = here e ∧ on_track e' s' m.
Proof.
  intros Hcalls Hk Hcl Hh Hb Ht Hp Hm. unfold BatchingProps.answered at 1, BatchingProps.turn. cbn [snd fst].
  rewrite Hcalls. cbn [proc_msg run_response mbind option_bind].
  unfold restart_queried. cbn [trip quiet set_calls].
  replace (if q then batch_length e else batch_length e) with (batch_length e) by (by destruct q).
  destruct (next_batch _ _ _ _) as [[d j] [|]].
  - eexists _, _, _, _, _, _. split; [reflexivity|]. split.
    { unfold BatchingProps.answered, BatchingProps.turn. cbn. reflexivity. }
    split; [done|]. split; [done|]. split; [done|].
    split; [by split|done| |].
    + change (same_trips (restarted_at d j e) (reset_at (batch_length e) <$> trips s) m).
      rewrite <- (map_fmap_id m). apply (same_trips_map e); [done|]. intros k st x Hx Hs. cbn.
      apply (same_trip_reset e _ _ d j Hs); [by apply (Hp k)|done|by apply (Hm k)].
    + done.
  - eexists _, _, _, _, _, _. split; [reflexivity|]. split; [by apply answered_rest|].
    split; [done|]. split; [done|]. split; [done|]. by split.
Qed.
(** What a report makes of the trips. *)
Definition measured_at (e : engine) (m : gmap Z on_way) : gmap Z on_way :=
  measure (here e) <$> filter (λ x : Z * on_way, there (here e) x.2 = false) m.

Lemma measured_at_lookup e m k x : measured_at e m !! k = Some x →
  ∃ y, m !! k = Some y ∧ x = measure (here e) y.
Proof.
  unfold measured_at. rewrite lookup_fmap. intros (y & [Hy _]%map_lookup_filter_Some & ->)%fmap_Some. eauto.
Qed.

Lemma same_trips_measured e t' T m : same_trips e T m → places_ok e m → here e < 2 ^ 32 →
  (∀ k, mTripSessions t' !! k =
    st ← T !! k; if over (batch_length e) st then None else Some (with_this_trip (this_trip (batch_length e) st) st)) →
  same_trips e (mTripSessions t') (measured_at e m).
Proof.
  intros Hm Hp Hh Ht k. unfold measured_at. rewrite Ht, lookup_fmap, map_lookup_filter.
  specialize (Hm k). specialize (Hp k). destruct (T !! k) as [st|], (m !! k) as [x|];
    inversion Hm as [? ? Hs|]; subst; simpl; [|constructor].
  specialize (Hp x eq_refl). rewrite (same_trip_over e st x Hs Hp) by lia.
  destruct (there (here e) x); simpl; constructor. by apply same_trip_measured.
Qed.

(** The report of completed trips reaches the client, not the engine. *)
Lemma told_report e s l cb : clients !! c = Some cb → batchingStatusCb cb = true →
  mClientData s = clients → out s = [] →
  let s0 := reportBatchStatusChange BATCHING_STATUS_TRIP_COMPLETED l s in
  concat (omap (told c) (out s0)) = l ∧ foldl hears e (out s0) = e.
Proof.
  intros Hc Hcb Hcl Ho s0. unfold s0, reportBatchStatusChange. cbn [out emit]. rewrite Ho, Hcl. split.
  - cbn [app]. rewrite (told_once l cb) by done. simpl. by rewrite app_nil_r.
  - simpl. induction (entries Z.le clients) as [|[k b] L IH]; [done|]. simpl. by destruct (batchingStatusCb b).
Qed.

(** The answer to the last request of a batch is ignored. *)
Lemma ignored_leg e s : calls s = [Ignored] → mIsEngineCapabilitiesKnown s = true →
  mClientData s = clients → trips s = ∅ →
  ∃ s', answered (e, s) = Some ([], (e, s')) ∧ on_track e s' ∅.
Proof.
  intros Hc Hk Hcl Ht. unfold BatchingProps.answered, BatchingProps.turn. cbn [snd fst]. rewrite Hc.
  eexists. split; [reflexivity|]. split; [by split|done| |by apply map_Forall_empty].
  intros k. change (option_Forall2 (same_trip e) (trips s !! k) ((∅ : gmap Z on_way) !! k)).
  rewrite Ht, !lookup_empty. constructor.
Qed.

Lemma report_leg e s m cb :
  clients !! c = Some cb → batchingStatusCb cb = true → on_track e s m → here e < 2 ^ 32 →
  ∃ o e' s', dialogue (MsgReportCompletedTrips (batch_length e)) (e, s) = Some (o, (e', s')) ∧
    concat (omap (told c) o) = ids_where (there (here e)) m ∧ here e' = here e ∧
    on_track e' s' (measured_at e m).
Proof.
  intros Hc Hcb [[Hcalls Hk Hcl] Hb Ht Hp] Hh.
  destruct (complete_trips_spec er (batch_length e) Her (trip s)) as (t' & E & Ht' & HD & HI).
  pose proof (same_trips_measured e t' (trips s) m Ht Hp Hh Ht') as Hm1.
  rewrite (ids_where_ext _ (there (here e)) _ m) in E by (intros k; by apply same_trips_over).
  assert (places_ok e (measured_at e m)) as Hp1.
  { intros k x (y & Hy & ->)%measured_at_lookup. specialize (Hp k y Hy). unfold place_ok in *. simpl. lia. }
  assert (measured_at e m ≠ ∅ → mOngoingTripDistance t' = batch_distance e ∧
    mOngoingTripTBFInterval t' = batch_interval e) as Hb1.
  { intros Hne. rewrite HD, HI. apply Hb. intros ->. apply Hne. unfold measured_at.
    by rewrite map_filter_empty, fmap_empty. }
  assert (∀ s1, proc_completed er (batch_length e) (quiet s) = Some s1 →
    turn (MsgReportCompletedTrips (batch_length e)) (e, s) = Some (out s1, (foldl hears e (out s1), s1))) as Hturn.
  { intros s1 E1. unfold BatchingProps.turn. cbn [snd fst proc_msg]. by rewrite E1. }
  unfold proc_completed in Hturn. change (trip (quiet s)) with (trip s) in Hturn. rewrite E in Hturn.
  cbn [mbind option_bind] in Hturn.
  destruct (decide (0 < length (ids_where (there (here e)) m))%nat) as [Hpos|Hpos].
  2: { assert (ids_where (there (here e)) m = []) as -> by (destruct (ids_where _ _); [done|simpl in Hpos; lia]).
    do 3 eexists. split.
    { eapply dialogue_Some; [by apply Hturn|by apply answered_rest..]. }
    split; [done|]. split; [done|]. by split. }
  set (l := ids_where _ _) in *.
  set (s0 := reportBatchStatusChange BATCHING_STATUS_TRIP_COMPLETED l (set_trip t' (quiet s))) in *.
  destruct (told_report e (set_trip t' (quiet s)) l cb Hc Hcb Hcl eq_refl) as [Hl He0]. fold s0 in Hl, He0.
  assert (trips s0 = mTripSessions t') as Hs0 by done.
  unfold restartTripBatching in Hturn. rewrite Hs0 in Hturn.
  destruct (decide (size (mTripSessions t') = 0%nat)) as [Hz|Hz].
  - (* no trip is left *)
    assert (measured_at e m = ∅) as Hm0.
    { apply (same_trips_empty _ _ _ Hm1). by apply map_size_empty_iff. }
    specialize (Hturn _ eq_refl). cbv zeta in Hturn. set (s1 := if (_ =? 0)%nat then _ else _) in Hturn.
    assert (∃ tl, out s1 = out s0 ++ tl ∧
      omap (told c) tl = [] ∧ foldl hears e tl = e ∧ calls s1 = [Ignored] ∧
      mIsEngineCapabilitiesKnown s1 = true ∧ mClientData s1 = clients ∧ trips s1 = ∅)
      as (tl & Ho1 & Htl & Hetl & Hc1 & Hk1 & Hcl1 & Ht1).
    { assert (mTripSessions t' = ∅) as Ht0 by (by apply map_size_empty_iff).
      assert (calls s0 ++ [Ignored] = [Ignored]) as Hc0.
      { change (calls s0) with (calls s). by rewrite Hcalls. }
      unfold s1. case_match; [eexists [_; _]|eexists [_]]; (split; [cbn; by rewrite <- ?app_assoc|]);
        (split; [done|]); (split; [done|]); by split_and!. }
    destruct (ignored_leg e s1 Hc1 Hk1 Hcl1 Ht1) as (s' & H2 & Htr).
    rewrite Ho1, foldl_app, He0, Hetl, <- Ho1 in Hturn.
    do 3 eexists. split.
    { eapply dialogue_Some; [exact Hturn|exact H2|apply answered_rest, Htr]. }
    cbn [app]. rewrite app_nil_r, Ho1, omap_app, Htl, app_nil_r, Hm0. by split_and!.
  - destruct (scan_trips _) as [rem i]. specialize (Hturn _ eq_refl).
    set (s1 := ask _ _ s0) in Hturn.
    assert (out s1 = out s0 ++ [ToEngine QueryAccumulatedTripDistance]) as Ho1 by done.
    rewrite Ho1, foldl_app, He0 in Hturn. simpl in Hturn.
    assert (calls s1 = [RestartQueried false rem i (batch_length e)]) as Hc1.
    { unfold s1. cbn. change (calls s0) with (calls s). by rewrite Hcalls. }
    destruct (restart_dialogue e s1 (measured_at e m) rem i false Hc1 Hk Hcl Hh Hb1 Hm1 Hp1)
      as (o2 & o3 & e' & s2 & e1 & s' & H2 & H3 & Ho2 & Ho3 & Hh' & Htrack).
    { by intros k x (y & _ & ->)%measured_at_lookup. }
    do 3 eexists. split; [by eapply dialogue_Some|].
    rewrite !omap_app, Ho2, Ho3, !app_nil_r. by split_and!.
Qed.
Lemma reportResponse_cases client err id s :
  reportResponse client err id s = s ∨ reportResponse client err id s = emit [ResponseCb client err id] s.
Proof. unfold reportResponse. repeat case_match; auto. Qed.

Lemma start_turn e s client id o cb : clients !! client = Some cb → batchingCb cb = true →
  opt_size o ≠ 0 → batchingMode o = BATCHING_MODE_TRIP → at_rest s →
  let s1 := startTripBatchingMultiplex client id o (quiet s) in
  turn (MsgStartBatching client id o) (e, s) = Some (out s1, (foldl hears e (out s1), s1)).
Proof.
  intros Hc Hcb Hsz Hmode [_ Hk Hcl]. unfold BatchingProps.turn. cbn [snd fst proc_msg].
  unfold or_pending. cbn [quiet mIsEngineCapabilitiesKnown]. rewrite Hk. simpl. unfold proc_start.
  unfold hasBatchingCallback. cbn [quiet mClientData]. rewrite Hcl, Hc, Hcb. cbn [negb].
  rewrite (proj2 (Z.eqb_neq 0 _)) by done. rewrite Hsup. cbn. by rewrite Hmode.
Qed.

Lemma on_track_emit e s m l : on_track e s m → on_track e (emit l s) m.
Proof. by intros [[] ? ? ?]. Qed.

(** The first trip starts a batch. *)
Lemma first_trip_leg e s client id o : at_rest s → trips s = ∅ → 0 ≤ here e →
  let s1 := startTripBatchingMultiplex client id o (quiet s) in
  ∃ o2 e' s', answered (foldl hears e (out s1), s1) = Some (o2, (e', s')) ∧ calls s' = [] ∧
    existsb restart_of (out s1 ++ o2) = false ∧ here e' = here e ∧
    on_track e' s' {[id := OnWay (minDistance o) (here e) (here e)]}.
Proof.
  intros [Hcalls Hk Hcl] Ht Hh. unfold startTripBatchingMultiplex. change (trips (quiet s)) with (trips s).
  rewrite Ht, map_size_empty. cbn [decide]. destruct (decide (0 = 0)%nat) as [_|]; [|done].
  set (s0 := if (autoReportBatchingSessionsCount _ =? 0)%nat then _ else _).
  assert (calls s0 = [] ∧ mIsEngineCapabilitiesKnown s0 = true ∧ mClientData s0 = clients ∧ trips s0 = ∅ ∧
    existsb restart_of (out s0) = false ∧ foldl hears e (out s0) = e) as (Hc0 & Hk0 & Hcl0 & Ht0 & Ho0 & He0).
  { unfold s0. by case_match. }
  set (s1 := ask _ _ _).
  assert (out s1 = out s0 ++ [ToEngine (StartOutdoorTripBatching (minDistance o) (minInterval o) (mBatchingTimeout (conf s0)))] ∧
    calls s1 = [StartTripAnswered client id o] ∧ mIsEngineCapabilitiesKnown s1 = true ∧ mClientData s1 = clients ∧
    trips s1 = {[id := new_trip 0 o]}) as (Ho1 & Hc1 & Hk1 & Hcl1 & Ht1).
  { assert (trips s1 = <[id := new_trip 0 o]> (trips s0)) as -> by done. rewrite Ht0.
    assert (calls s1 = calls s0 ++ [StartTripAnswered client id o]) as -> by done. rewrite Hc0. by split_and!. }
  cbv zeta. rewrite Ho1, foldl_app, He0. clearbody s1. simpl.
  unfold BatchingProps.answered, BatchingProps.turn. cbn [snd fst]. rewrite Hc1. cbn [proc_msg run_response mbind option_bind].
  unfold start_trip_answered. rewrite orb_true_r. set (s2 := set_trip _ _).
  assert (on_track (restarted_at (minDistance o) (minInterval o) e) s2
    {[id := OnWay (minDistance o) (here e) (here e)]}) as Htr.
  { split; [by split|done| |].
    - change (trips s2) with (trips s1). rewrite Ht1, <- !insert_empty.
      replace 0 with (batch_length (restarted_at (minDistance o) (minInterval o) e)) by (unfold batch_length; simpl; lia).
      apply (same_trips_insert (restarted_at _ _ e)). intros k. rewrite !lookup_empty. constructor.
    - apply map_Forall_singleton. unfold place_ok. simpl. lia. }
  destruct (reportResponse_cases client LOCATION_ERROR_SUCCESS id s2) as [->| ->]; do 3 eexists;
    (split; [reflexivity|]); (split; [done|]); rewrite !existsb_app, Ho0; (split; [done|]); (split; [done|]).
  - exact Htr.
  - by apply (on_track_emit (restarted_at _ _ e)).
Qed.
(** What starting one more trip makes of the places. *)
Definition joined (e : engine) (id : Z) (o : BatchingOptions) (m : gmap Z on_way) : gmap Z on_way :=
  <[id := OnWay (minDistance o) (here e) (here e)]>
    (if needs_batch e o then lose (here e) <$> m else m).

Lemma places_joined e id o m : 0 ≤ here e → places_ok e m → places_ok e (joined e id o m).
Proof.
  intros Hh Hp. unfold joined. apply map_Forall_insert_2; [unfold place_ok; simpl; lia|].
  destruct (needs_batch e o); [|done].
  intros k x. rewrite lookup_fmap. intros (y & Hy & ->)%fmap_Some. specialize (Hp k y Hy).
  unfold place_ok in *. simpl. lia.
Qed.

Lemma new_trip_queried_spec e s client id o :
  mOngoingTripDistance (trip s) = batch_distance e → mOngoingTripTBFInterval (trip s) = batch_interval e →
  let s0 := set_trips (<[id := new_trip (batch_length e) o]> (trips s)) s in
  let queried := new_trip_queried client id o LOCATION_ERROR_SUCCESS (batch_length e) s in
  if needs_batch e o then ∃ d i,
    queried = ask (ReStartOutdoorTripBatching d i (mBatchingTimeout (conf s))) (Reported client id)
      (set_trips (reset_for_new <$> trips s0) (set_trip (set_ongoing d i (trip s0)) s0))
  else queried = reportResponse client LOCATION_ERROR_SUCCESS id s0.
Proof.
  intros HD HI. cbv zeta. unfold new_trip_queried. rewrite HD, HI, Z.gtb_ltb.
  change (success LOCATION_ERROR_SUCCESS) with true. cbv iota.
  unfold needs_batch. change ((batch_distance e - batch_length e) `mod` 2 ^ 32)
    with (sub32 (batch_distance e) (batch_length e)).
  destruct (minDistance o <? _), (minInterval o <? _); cbn [orb]; eauto.
Qed.

(** A response to the client changes nothing else. *)
Lemma responded e s m client err id : on_track e s m →
  on_track e (reportResponse client err id s) m ∧
  (out s = [] → existsb restart_of (out (reportResponse client err id s)) = false ∧
                foldl hears e (out (reportResponse client err id s)) = e).
Proof.
  intros Ht. destruct (reportResponse_cases client err id s) as [->| ->]; [by split; [|intros ->]|].
  split; [by apply on_track_emit|]. intros E. cbn [out emit]. by rewrite E.
Qed.

Lemma reported_leg e s m client id : calls s = [Reported client id] → on_track e (set_calls [] s) m →
  ∃ o s', answered (e, s) = Some (o, (e, s')) ∧ existsb restart_of o = false ∧ on_track e s' m.
Proof.
  intros Hc Ht. unfold BatchingProps.answered, BatchingProps.turn. cbn [snd fst]. rewrite Hc.
  cbn [proc_msg run_response mbind option_bind].
  assert (on_track e (quiet (set_calls [] s)) m) as Hq by (by destruct Ht as [[] ? ? ?]).
  destruct (responded e _ m client LOCATION_ERROR_SUCCESS id Hq) as [Hr Ho].
  destruct (Ho eq_refl) as [Ho1 Ho2]. rewrite Ho2. by do 2 eexists.
Qed.

Lemma new_trip_leg e s m client id o : on_track e (set_calls [] s) m → m ≠ ∅ → 0 ≤ here e →
  calls s = [NewTripQueried client id o] → ∃ o2 e1 s1 o3 e' s',
    answered (e, s) = Some (o2, (e1, s1)) ∧ answered (e1, s1) = Some (o3, (e', s')) ∧
    existsb restart_of (o2 ++ o3) = needs_batch e o ∧ here e' = here e ∧ on_track e' s' (joined e id o m).
Proof.
  intros [[_ Hk Hcl] Hb Ht Hp] Hm Hh Hcalls. destruct (Hb Hm) as [HD HI].
  pose proof (places_joined e id o m Hh Hp) as Hp'.
  pose proof (new_trip_queried_spec e (quiet (set_calls [] s)) client id o HD HI) as Hq.
  unfold BatchingProps.answered at 1, BatchingProps.turn. cbn [snd fst]. rewrite Hcalls.
  cbn [proc_msg run_response mbind option_bind]. cbv zeta in Hq.
  destruct (needs_batch e o) eqn:Hn.
  - destruct Hq as (d & i & ->). do 3 eexists.
    set (s1 := ask _ _ _).
    assert (on_track (restarted_at d i e) (set_calls [] s1) (joined e id o m)) as Htr.
    { split; [by split|done| |exact Hp'].
      change (same_trips (restarted_at d i e) (reset_for_new <$> <[id := new_trip (batch_length e) o]> (trips s))
        (joined e id o m)).
      unfold joined. rewrite Hn.
      replace (OnWay (minDistance o) (here e) (here e)) with (lose (here e) (OnWay (minDistance o) (here e) (here e)))
        by (unfold lose; simpl; f_equal; lia).
      rewrite <- fmap_insert.
      apply (same_trips_map e); [by apply same_trips_insert|]. intros k st x _. apply same_trip_lost. }
    destruct (reported_leg _ s1 _ client id eq_refl Htr) as (o3 & s' & H3 & Ho3 & Htr').
    do 3 eexists. split; [reflexivity|]. split; [exact H3|]. by rewrite existsb_app, Ho3.
  - rewrite Hq. set (s0 := set_trips _ _).
    assert (on_track e s0 (joined e id o m)) as Htr.
    { split; [by split|done| |exact Hp']. unfold joined. rewrite Hn. by apply same_trips_insert. }
    destruct (responded e s0 _ client LOCATION_ERROR_SUCCESS id Htr) as [Hr Ho].
    destruct (Ho eq_refl) as [Ho1 Ho2]. do 6 eexists. split; [reflexivity|]. rewrite Ho2.
    split; [apply answered_rest, Hr|]. by rewrite app_nil_r.
Qed.

Lemma start_leg e s m client id o cb : clients !! client = Some cb → batchingCb cb = true →
  opt_size o ≠ 0 → batchingMode o = BATCHING_MODE_TRIP → on_track e s m → 0 ≤ here e →
  let b := negb (bool_decide (m = ∅)) && needs_batch e o in
  ∃ os e' s', dialogue (MsgStartBatching client id o) (e, s) = Some (os, (e', s')) ∧
    existsb restart_of os = b ∧ here e' = here e ∧
    on_track e' s' (<[id := OnWay (minDistance o) (here e) (here e)]> (if b then lose (here e) <$> m else m)).
Proof.
  intros Hc Hcb Hsz Hmode Htr Hh. pose proof Htr as [Hrest _ Ht _].
  pose proof (start_turn e s client id o cb Hc Hcb Hsz Hmode Hrest) as Hturn. cbv zeta in Hturn |- *.
  destruct (decide (m = ∅)) as [->|Hm].
  - destruct (first_trip_leg e s client id o Hrest) as (o2 & e' & s' & H2 & Hc2 & Ho & He & Htr');
      [by apply (same_trips_empty _ _ _ Ht)|done|].
    rewrite bool_decide_true by done. do 3 eexists. split.
    { eapply dialogue_Some; [exact Hturn|exact H2|by apply answered_rest]. }
    rewrite app_nil_r. by split_and!.
  - rewrite bool_decide_false by done. cbn [negb andb].
    assert (trips s ≠ ∅) as Hne by (intros E; by apply Hm, (same_trips_empty _ _ _ Ht)).
    unfold startTripBatchingMultiplex in Hturn. change (trips (quiet s)) with (trips s) in Hturn.
    destruct (decide (size (trips s) = 0%nat)) as [E%map_size_empty_iff|_]; [done|].
    set (s1 := ask _ _ _) in Hturn.
    assert (calls s1 = [NewTripQueried client id o]) as Hc1.
    { assert (calls s1 = calls s ++ [NewTripQueried client id o]) as -> by done. by rewrite (rest_calls _ Hrest). }
    destruct (new_trip_leg e s1 m client id o) as (o2 & e1 & s2 & o3 & e' & s' & H2 & H3 & Ho & He & Htr');
      [by destruct Htr as [[] ? ? ?]|done|done|done|].
    do 3 eexists. split; [by eapply dialogue_Some|]. rewrite existsb_app. by rewrite Ho.
Qed.

(** A leg after a leg. *)
Lemma ride_odometer ls e s m cb : clients !! c = Some cb → batchingStatusCb cb = true →
  leg_ok clients (here e) ls → on_track e s m →
  ∃ seen, ride ls e s = Some seen ∧ odometer ls seen (here e) m.
Proof.
  intros Hc Hcb. revert e s m. induction ls as [|l ls IH]; intros e s m [Hh Hl] Htr; [by exists []|].
  destruct l as [d| |client id o]; simpl in *.
  - apply (IH (Engine (here e + d) _ _ _)); [tauto|]. destruct Htr as [? ? Ht Hp]. split; [done|done|exact Ht|].
    intros k x Hx. specialize (Hp k x Hx). unfold place_ok in *. simpl. lia.
  - destruct (report_leg e s m cb Hc Hcb Htr) as (o & e' & s' & -> & Ho & He & Htr'); [lia|].
    destruct (IH e' s' _ ltac:(by rewrite He) Htr') as (seen & Hs & Hod). cbn [mbind option_bind]. rewrite Hs.
    eexists. split; [reflexivity|]. rewrite He in Hod. by rewrite Ho.
  - destruct Hl as ((cb' & Hcl & Hcb') & Hsz & Hmode & Hl).
    destruct (start_leg e s m client id o cb' Hcl Hcb' Hsz Hmode Htr) as (os & e' & s' & -> & Ho & He & Htr'); [lia|].
    destruct (IH e' s' _ ltac:(by rewrite He) Htr') as (seen & Hs & Hod). cbn [mbind option_bind]. rewrite Hs.
    eexists. split; [reflexivity|]. rewrite He in Hod. by rewrite Ho.
Qed.
End track.

(** C22: However the engine travels, up to 2^32 metres, and whenever it
    reports and trips start: the trips of which a client is told that they are
    over are, report by report, those whose length is not more than the
    distance since the trip began, in the order of their numbers, for any
    restarts of the batch when trips ended; and the batch is restarted for a
    new trip exactly if that is over before the batch is or wants a shorter
    interval, which loses what the other trips travelled since they were last
    measured. This is so if the engine answers each query and restart with
    success where it stood when the message arrived, and if the read of the
    element that reportCompletedTripsEvent just erased does not fault. *)
Theorem trips_follow_odometer g cf er at_end c cb e s ls :
  (∀ st, is_Some (er st)) →
  isMessageSupported g LOC_API_ADAPTER_MESSAGE_DISTANCE_BASE_LOCATION_BATCHING = true →
  mClientData s !! c = Some cb → batchingStatusCb cb = true → leg_ok (mClientData s) (here e) ls →
  calls s = [] → mIsEngineCapabilitiesKnown s = true → trips s = ∅ →
  ∃ seen, ride g cf er at_end c ls e s = Some seen ∧ odometer ls seen (here e) ∅.
Proof.
  intros Her Hsup Hc Hcb Hls Hcalls Hk Ht.
  apply (ride_odometer g cf er at_end c (mClientData s) Her Hsup ls e s ∅ cb Hc Hcb Hls).
  split; [by split|done| |by apply map_Forall_empty]. intros k. rewrite Ht, !lookup_empty. constructor.
Qed.

(** The first trip is over at its length.  The second is told of 300 metres when
    the third takes the batch, but had travelled 400: it is over 100 too late. *)
Definition some_legs : list leg :=
  [TripStarts 7 2 (some_options BATCHING_MODE_TRIP 500 1000); Travel 200;
   TripStarts 7 3 (some_options BATCHING_MODE_TRIP 700 1000); Travel 300; Report; Travel 100;
   TripStarts 7 4 (some_options BATCHING_MODE_TRIP 5000 500); Travel 399; Report; Travel 1; Report].
Definition some_adapter : adapter := default (init_adapter true) (run_client []).
Definition some_engine : engine := Engine 0 0 0 0.

Definition completed (x : sight) : option (list Z) := match x with Completed l => Some l | _ => None end.

Lemma trips_follow_odometer_witness : ∃ seen,
  ride some_caps some_conf Some None 7 some_legs some_engine some_adapter = Some seen ∧
  odometer some_legs seen 0 ∅ ∧ omap completed seen = [[2]; []; [3]].
Proof.
  destruct (trips_follow_odometer some_caps some_conf Some None 7 some_callbacks some_engine some_adapter some_legs)
    as (seen & Hr & Ho); [by intros|vm_compute; reflexivity|vm_compute; reflexivity|reflexivity| | | | |].
  - simpl. repeat split; try (vm_compute; congruence); eexists; split; vm_compute; reflexivity.
  - vm_compute; reflexivity.
  - vm_compute; reflexivity.
  - vm_compute; reflexivity.
  - exists seen. split; [exact Hr|]. split; [exact Ho|]. clear Ho. vm_compute in Hr. by injection Hr as <-.
Defined.

(** A trip that needs another batch takes from the others what they travelled
    since the last report: the trip of 1000 metres is not over after 900 and
    600 metres. *)
Definition new_trip_restarts : list event :=
  now (StartBatchingCommand 7 (some_options BATCHING_MODE_TRIP 1000 1000)) ++ answer 0 ok 0 ++
  now (StartBatchingCommand 7 (some_options BATCHING_MODE_TRIP 5000 500)) ++ answer 0 ok 900 ++
  answer 0 ok 0 ++ now (CompletedTripsEvent 600).

Example new_trip_loses_distance :
  (λ s, (accumulatedDistanceThisTrip <$> trips s !! 2, last (out s))) <$> run_client new_trip_restarts
  = Some (Some 600, Some (ResponseCb 7 ok 3)).
Proof. vm_compute. reflexivity. Qed.

(** A trip that joined when the batch was 500 metres long is reported as
    completed 100 metres after the engine came up again. *)
Example restart_of_engine_completes_trip :
  (λ s, (mOngoingTripDistance (trip s), omap (λ o, match o with BatchingStatusCb _ _ l => Some l | _ => None end) (out s))) <$>
  steps some_caps some_conf Some None (prologue ++
    now (StartBatchingCommand 7 (some_options BATCHING_MODE_TRIP 5000 1000)) ++ answer 0 ok 0 ++
    now (StartBatchingCommand 7 (some_options BATCHING_MODE_TRIP 9000 1000)) ++ answer 0 ok 500 ++
    now EngineUp ++ answer 0 ok 0 ++ now (CompletedTripsEvent 100)) (init_adapter true)
  = Some (5000, [[3]]).
Proof. vm_compute. reflexivity. Qed.

(** ** Where the next batch ends *)
Definition least_of (f : TripSessionStatus → Z) (m : gmap Z TripSessionStatus) (x : Z) : Prop :=
  (∃ k st, m !! k = Some st ∧ x = f st) ∧ ∀ k st, m !! k = Some st → x ≤ f st.

Definition remaining (st : TripSessionStatus) : Z := tripDistance st - accumulatedDistanceThisTrip st.

(** A trip that is not over, as a report leaves it. *)
Definition under_way (st : TripSessionStatus) : Prop :=
  0 ≤ accumulatedDistanceThisTrip st < tripDistance st ∧ tripDistance st < 2 ^ 32 ∧ 0 < tripTBFInterval st.

(** One component of the scan: 0 is no value yet. *)
Definition scan_least (x y : Z) : Z := if (x =? 0) || (x >? y) then y else x.

Lemma scan_least_fold l x : 0 ≤ x → Forall (λ y, 0 < y) l → l ≠ [] ∨ x ≠ 0 →
  let z := foldl scan_least x l in
  0 < z ∧ (z ∈ l ∨ z = x ∧ x ≠ 0) ∧ (x ≠ 0 → z ≤ x) ∧ ∀ y, y ∈ l → z ≤ y.
Proof.
  intros Hx Hl. revert x Hx. induction Hl as [|y l Hy Hl IH]; intros x Hx Hne; simpl.
  - destruct Hne as [|Hne]; [done|]. repeat split; [lia|by right|lia|]. by intros y Hin%not_elem_of_nil.
  - assert (0 < scan_least x y ∧ (scan_least x y = y ∨ scan_least x y = x ∧ x ≠ 0) ∧
      scan_least x y ≤ y ∧ (x ≠ 0 → scan_least x y ≤ x)) as (Hp & He & Hly & Hlx).
    { unfold scan_least. destruct (Z.eqb_spec x 0); simpl; [repeat split; auto; lia|].
      destruct (Z.gtb_spec x y); repeat split; auto; lia. }
    destruct (IH (scan_least x y)) as (H0 & Hin & Hle & Hall); [lia|right; lia|].
    split; [done|]. split; [|split; [intros; specialize (Hle ltac:(lia)); lia|]].
    + destruct Hin as [Hin|[-> _]]; [left; by right|]. destruct He as [->|[-> ?]]; [left; by left|by right].
    + intros y' [->|Hin']%elem_of_cons; [specialize (Hle ltac:(lia)); lia|by apply Hall].
Qed.

Lemma scan_trips_fst_snd l b : foldl scan_trip b l =
  (foldl scan_least b.1 ((λ st, sub32 (tripDistance st) (accumulatedDistanceThisTrip st)) <$> l),
   foldl scan_least b.2 (tripTBFInterval <$> l)).
Proof.
  revert b. induction l as [|st l IH]; intros b; simpl; [by destruct b|]. by rewrite IH.
Qed.

Lemma scan_least_of (f h : TripSessionStatus → Z) m : m ≠ ∅ →
  (∀ k st, m !! k = Some st → h st = f st ∧ 0 < f st) →
  least_of f m (foldl scan_least 0 (h <$> (entries Z.le m).*2)).
Proof.
  intros Hne Hf.
  assert (∀ y, y ∈ h <$> (entries Z.le m).*2 ↔ ∃ k st, m !! k = Some st ∧ y = f st) as Hin.
  { intros y. rewrite list_elem_of_fmap. split.
    - intros (st & -> & [[k st'] [-> Hk]]%list_elem_of_fmap). apply elem_of_entries in Hk.
      exists k, st'. split; [done|]. by eapply Hf.
    - intros (k & st & Hk & ->). exists st. split; [symmetry; by eapply Hf|].
      apply list_elem_of_fmap. exists (k, st). split; [done|]. by apply elem_of_entries. }
  destruct (scan_least_fold (h <$> (entries Z.le m).*2) 0) as (Hp & Hz & _ & Hall); [done| | |].
  - apply Forall_forall. intros y (k & st & Hk & ->)%Hin. by eapply Hf.
  - left. intros E. apply Hne, map_empty. intros k. apply eq_None_ne_Some. intros st Hk.
    assert (f st ∈ h <$> (entries Z.le m).*2) as Hb by (apply Hin; eauto). rewrite E in Hb.
    by apply not_elem_of_nil in Hb.
  - split.
    + destruct Hz as [Hz|[_ ?]]; [by apply Hin|done].
    + intros k st Hk. apply Hall, Hin. eauto.
Qed.

Lemma scan_trips_least m : m ≠ ∅ → (∀ k st, m !! k = Some st → under_way st) →
  least_of remaining m (scan_trips m).1 ∧ least_of tripTBFInterval m (scan_trips m).2.
Proof.
  intros Hne Hu. unfold scan_trips. rewrite scan_trips_fst_snd. simpl. split.
  - apply scan_least_of; [done|]. intros k st Hk. destruct (Hu k st Hk) as (? & ? & ?).
    unfold sub32, remaining. rewrite wrap_unsigned_small; lia.
  - apply scan_least_of; [done|]. intros k st Hk. by destruct (Hu k st Hk) as (? & ? & ?).
Qed.

(** When a trip that set the end of the batch is over and others are under
    way, the adapter asks for the state of the batch, and whatever the answer
    is, for a new batch that ends where the nearest of the trips does, with the
    least interval of the trips, or the present one if that is less. *)
Theorem next_batch_ends_at_nearest_trip acc s :
  trips s ≠ ∅ → (∀ k st, trips s !! k = Some st → under_way st) →
  mTripWithOngoingTripDistanceDropped (trip s) = true →
  ∃ d i, restartTripBatching false acc s = ask QueryAccumulatedTripDistance (RestartQueried false d i acc) s ∧
    least_of remaining (trips s) d ∧ least_of tripTBFInterval (trips s) i ∧
    ∀ data s', trip s' = trip s → ∃ i',
      restart_queried false d i acc data s' =
        ask (ReStartOutdoorTripBatching d i' (mBatchingTimeout (conf s'))) (RestartAnswered acc d i') s' ∧
      (i' = i ∨ i' = mOngoingTripTBFInterval (trip s) ∧ i' < i).
Proof.
  intros Hne Hu Hd. destruct (scan_trips_least (trips s) Hne Hu) as [Hl1 Hl2].
  exists (scan_trips (trips s)).1, (scan_trips (trips s)).2. split.
  { unfold restartTripBatching. rewrite decide_False by (by rewrite map_size_empty_iff).
    by destruct (scan_trips (trips s)). }
  split; [done|]. split; [done|]. intros data s' Hs. unfold restart_queried, next_batch. rewrite Hs, Hd.
  destruct Hl1 as [(k & st & Hk & E) _]. destruct (Hu k st Hk) as (? & ? & ?).
  assert ((scan_trips (trips s)).1 ≠ 0) as Hz by (unfold remaining in E; lia).
  apply Z.eqb_neq in Hz. simpl. rewrite Hz. simpl.
  destruct (Z.ltb_spec (scan_trips (trips s)).2 (mOngoingTripTBFInterval (trip s))); simpl; [eauto|].
  destruct (Z.eqb_spec (scan_trips (trips s)).2 (mOngoingTripTBFInterval (trip s))) as [E2|]; simpl.
  - rewrite <- E2. eauto.
  - destruct (mTripWithOngoingTBFDropped _); [eauto|]. eexists. split; [done|]. right. split; [done|lia].
Qed.

Definition two_trips : trip_state :=
  Trips {[ 3 := MkTripSessionStatus 0 500 0 800 2000; 4 := MkTripSessionStatus 0 500 0 3000 1000 ]}
    500 1000 false true.

Lemma next_batch_ends_at_nearest_trip_witness : ∃ d i,
  restartTripBatching false 500 (set_trip two_trips (init_adapter true)) =
    ask QueryAccumulatedTripDistance (RestartQueried false d i 500) (set_trip two_trips (init_adapter true)) ∧
  d = 300 ∧ i = 1000.
Proof.
  destruct (next_batch_ends_at_nearest_trip 500 (set_trip two_trips (init_adapter true)))
    as (d & i & E & _); [by intros H| |reflexivity|].
  - intros k st. unfold trips, two_trips. simpl.
    intros [[<- <-]|[_ [<- <-]%lookup_singleton_Some]]%lookup_insert_Some; repeat split; simpl; lia.
  - exists d, i. split; [exact E|]. vm_compute in E. by injection E.
Defined.

(** If the trip that set the interval is stopped, the old distance is asked
    for again: the batch of 1000 metres begins anew after 400, though the trip
    that is left ends after another 600. *)
Example stopped_trip_keeps_old_distance :
  (λ s, (last (out s), remaining <$> trips s !! 3)) <$>
  run_client (now (StartBatchingCommand 7 (some_options BATCHING_MODE_TRIP 2000 500)) ++ answer 0 ok 0 ++
    now (StartBatchingCommand 7 (some_options BATCHING_MODE_TRIP 1000 1000)) ++ answer 0 ok 0 ++
    answer 0 ok 0 ++ now (StopBatchingCommand 7 2) ++ answer 0 ok 400 ++ answer 0 ok 0)
  = Some (Some (ToEngine (ReStartOutdoorTripBatching 1000 1000 1000)), Some 600).
Proof. vm_compute. reflexivity. Qed.

(** ** Sessions that are over, and those that are not *)

(** What the loop of [restartSessions] does to the rest of the state. *)
Lemma restart_loop l s : let s' := foldl restart_session s l in
  conf s' = conf s ∧ trip s' = trip s ∧ mBatchingSessions s' = mBatchingSessions s ∧
  (∀ x, x ∈ out s → x ∈ out s') ∧
  ∀ e, e ∈ l → batchingMode e.2 ≠ BATCHING_MODE_TRIP →
    ToEngine (StartBatching (key_id e.1) e.2 (mBatchingAccuracy (conf s)) (mBatchingTimeout (conf s))) ∈ out s'.
Proof.
  revert s. induction l as [|e l IH]; intros s; simpl.
  - repeat split; auto. by intros e Hin%not_elem_of_nil.
  - destruct (IH (restart_session s e)) as (Hc & Ht & Hb & Ho & Ha).
    assert (conf (restart_session s e) = conf s ∧ trip (restart_session s e) = trip s ∧
      mBatchingSessions (restart_session s e) = mBatchingSessions s) as (Hc0 & Ht0 & Hb0)
      by (unfold restart_session; by case_match).
    rewrite Hc, Ht, Hb. rewrite Hc0 in Ha. split; [done|]. split; [done|]. split; [done|]. split.
    + intros x Hx. apply Ho. unfold restart_session. case_match; [done|]. simpl.
      apply elem_of_app. by left.
    + intros e' [->|Hin]%elem_of_cons Hm; [|by apply Ha]. apply Ho. unfold restart_session.
      apply Z.eqb_neq in Hm. rewrite Hm. simpl. apply elem_of_app. right. by left.
Qed.

(** Each plain session is started again. *)
Lemma restartSessions_starts client id o s :
  mBatchingSessions s !! MkSessionKey client id = Some o → batchingMode o ≠ BATCHING_MODE_TRIP →
  ToEngine (StartBatching id o (mBatchingAccuracy (conf s)) (mBatchingTimeout (conf s))) ∈ out (restartSessions s).
Proof.
  intros Ho Hm. unfold restartSessions.
  set (b := if decide (0 < autoReportBatchingSessionsCount s)%nat then register_full s else s).
  assert (conf b = conf s ∧ mBatchingSessions b = mBatchingSessions s) as [Hc Hb] by (subst b; by case_decide).
  destruct (restart_loop (entries session_key_le (mBatchingSessions b)) b) as (_ & _ & _ & _ & Ha).
  rewrite <- Hc. rewrite <- Hb in Ho.
  specialize (Ha (MkSessionKey client id, o) ltac:(by apply elem_of_entries) Hm). simpl in Ha.
  case_decide; [|done]. destruct (scan_trips _). simpl. apply elem_of_app. by left.
Qed.

Section over.
Context (g : engine_caps) (cf : config) (er : TripSessionStatus → option TripSessionStatus).

(** A session whose stop the engine refuses is kept, but with the options
    of no session: with these it is started again when the engine comes up. *)
Theorem refused_stop_forgets_options ae client id o err s :
  mBatchingSessions s !! MkSessionKey client id = Some o → isTripSession id s = false →
  mIsEngineCapabilitiesKnown s = true → lock s = ENGINE_LOCK_STATE_ENABLED → success err = false →
  let s1 := ask (StopBatching id) (StopAnswered client id o false default_options)
    (eraseBatchingSession client id s) in
  let s2 := stop_answered client id o false default_options err s1 in
  proc_msg g cf er ae (MsgStopBatching client id) s = Some s1 ∧
  mBatchingSessions s2 = <[MkSessionKey client id := default_options]> (mBatchingSessions s) ∧
  ToEngine (StartBatching id default_options (mBatchingAccuracy (conf s)) (mBatchingTimeout (conf s)))
    ∈ out (restartSessions s2).
Proof.
  intros Ho Ht Hk Hl He s1 s2. split; [|split].
  - simpl. unfold or_pending, proc_stop, isBatchingSession, stopBatching. by rewrite Hk, Ho, Ht.
  - unfold s2, stop_answered, lock_enabled. simpl. rewrite Hl, He. simpl.
    unfold reportResponse. repeat case_match; simpl; by rewrite insert_delete_eq.
  - assert (mBatchingSessions s2 !! MkSessionKey client id = Some default_options ∧ conf s2 = conf s) as [H2 Hc].
    { unfold s2, stop_answered, lock_enabled, reportResponse. simpl. rewrite Hl, He. simpl.
      repeat case_match; simpl; by rewrite lookup_insert_eq. }
    rewrite <- Hc. by eapply restartSessions_starts.
Qed.

(** Without trips, the loop over a client's sessions ends at the first of mode
    trip: its entry in the map of trips is looked for in vain. *)
Lemma stop_session_without_trips l s : trips s = ∅ →
  (∃ e, e ∈ l ∧ batchingMode e.2 = BATCHING_MODE_TRIP) →
  foldl (λ s e, s ≫= λ s, stop_session None s e) (Some s) l = None.
Proof.
  revert s. induction l as [|e l IH]; intros s Ht (e' & Hin & He'); [by apply not_elem_of_nil in Hin|].
  assert (∀ s0, foldl (λ s e, s ≫= λ s, stop_session None s e) s0 (e :: l) =
    foldl (λ s e, s ≫= λ s, stop_session None s e) (s0 ≫= λ s, stop_session None s e) l) as -> by done.
  simpl. unfold stop_session at 2. destruct (Z.eqb_spec (batchingMode e.2) BATCHING_MODE_TRIP) as [E|E]; simpl.
  - unfold stopTripBatchingMultiplex, stopTripBatchingMultiplexCommon.
    rewrite Ht, map_size_empty, decide_False, lookup_empty by done. simpl. apply foldl_bind_None.
  - apply IH.
    + unfold stopBatching. by case_match.
    + apply elem_of_cons in Hin as [->|Hin]; [done|eauto].
Qed.

(** C40: A trip that is over stays among the batching sessions, whether it was
    stopped or completed as the last one; then the removal of its client reads
    the end of the map of trips. *)
Theorem finished_trip_faults_removal client id o b s :
  mBatchingSessions s !! MkSessionKey client id = Some o → batchingMode o = BATCHING_MODE_TRIP →
  (∀ s', dom (trips s) = {[id]} →
    stop_trip_answered None client id false default_options LOCATION_ERROR_SUCCESS s = Some s' →
    mBatchingSessions s' = mBatchingSessions s ∧ proc_msg g cf er None (MsgRemoveClient client b) s' = None) ∧
  (∀ s' acc, (∀ k st, trips s !! k = Some st → over acc st = true) → (∀ st, is_Some (er st)) →
    proc_msg g cf er None (MsgReportCompletedTrips acc) s = Some s' →
    mBatchingSessions s' = mBatchingSessions s ∧ proc_msg g cf er None (MsgRemoveClient client b) s' = None).
Proof.
  intros Ho Hm. assert (∀ s', mBatchingSessions s' = mBatchingSessions s → trips s' = ∅ →
    mBatchingSessions s' = mBatchingSessions s ∧ proc_msg g cf er None (MsgRemoveClient client b) s' = None) as Hr.
  { intros s' Hb Ht. split; [done|]. simpl. unfold proc_remove, stopClientSessions.
    rewrite stop_session_without_trips; [done|done|]. exists (MkSessionKey client id, o).
    split; [|done]. apply list_elem_of_filter. split; [done|]. rewrite Hb. by apply elem_of_entries. }
  split.
  - intros s' Hd Hs.
    assert (∃ st, trips s !! id = Some st) as [st Hst] by (apply elem_of_dom; set_solver).
    assert (delete id (trips s) = ∅) as He.
    { apply dom_empty_iff_L. rewrite dom_delete_L, Hd. set_solver. }
    unfold stop_trip_answered, stopTripBatchingMultiplexCommon in Hs. unfold trips in *.
    apply Hr; destruct (_ && _) in Hs; simpl in Hs; rewrite Hst in Hs; simpl in Hs;
      rewrite He, map_size_empty in Hs; simpl in Hs; unfold reportResponse in Hs;
      repeat case_match; simplify_eq; done.
  - intros s' acc Hov Her. simpl. unfold proc_completed.
    destruct (complete_trips_spec er acc Her (trip s)) as (t' & -> & Ht' & _). simpl.
    assert (mTripSessions t' = ∅) as He.
    { apply map_empty. intros k. rewrite Ht'. destruct (mTripSessions (trip s) !! k) eqn:E; simpl; [|done].
      by rewrite (Hov k _ E). }
    intros Hs. apply Hr; case_decide; simplify_eq; try done;
      unfold restartTripBatching, trips; simpl; rewrite He, map_size_empty; simpl; by case_match.
Qed.
(** A start, an update or a stop that the adapter refuses changes nothing
    and is not answered; a query that it refuses is. *)
Theorem refusals_are_silent ae client id o cb s :
  mIsEngineCapabilitiesKnown s = true →
  (hasBatchingCallback client s = false ∨ opt_size o = 0 ∨
     isMessageSupported g LOC_API_ADAPTER_MESSAGE_DISTANCE_BASE_LOCATION_BATCHING = false →
   proc_msg g cf er ae (MsgStartBatching client id o) s = Some s) ∧
  (isBatchingSession client id s = false ∨ opt_size o = 0 ∨ BATCHING_MODE_NO_AUTO_REPORT < batchingMode o →
   proc_msg g cf er ae (MsgUpdateBatching client id o) s = Some s) ∧
  (isBatchingSession client id s = false → proc_msg g cf er ae (MsgStopBatching client id) s = Some s) ∧
  (∀ count, isBatchingSession client id s = false → mClientData s !! client = Some cb →
   batchingCb cb = true → responseCb cb = true →
   proc_msg g cf er ae (MsgGetBatchedLocations client id count) s =
     Some (emit [ResponseCb client LOCATION_ERROR_ID_UNKNOWN id] s)).
Proof.
  intros Hk. simpl. unfold or_pending. rewrite Hk. simpl. split; [|split; [|split]].
  - intros Hr. unfold proc_start.
    destruct (Z.eqb_spec 0 (opt_size o)), (hasBatchingCallback client s); simpl; try done.
    destruct Hr as [?|[?|Hr]]; [done|congruence|]. by rewrite Hr.
  - intros Hr. unfold proc_update.
    destruct (Z.eqb_spec 0 (opt_size o)), (Z.gtb_spec (batchingMode o) BATCHING_MODE_NO_AUTO_REPORT),
      (isBatchingSession client id s); simpl; try done.
    destruct Hr as [?|[?|Hr]]; [done|congruence|lia].
  - intros Hr. unfold proc_stop. by rewrite Hr.
  - intros count Hr Hc Hb Hresp. unfold proc_get, hasBatchingCallback, reportResponse.
    by rewrite Hc, Hb, Hr, Hresp.
Qed.
End over.

(** *** The same at runs of a client *)
Definition stopped_refused : adapter :=
  default (init_adapter true) (run_client
    (now (StartBatchingCommand 7 (some_options BATCHING_MODE_NO_AUTO_REPORT 10 1000)) ++ answer 0 ok 0)).

Lemma refused_stop_forgets_options_witness : ∃ s2,
  mBatchingSessions s2 = {[ MkSessionKey 7 2 := default_options ]} ∧
  ToEngine (StartBatching 2 default_options 1 1000) ∈ out (restartSessions s2).
Proof.
  destruct (refused_stop_forgets_options some_caps some_conf Some None 7 2
    (some_options BATCHING_MODE_NO_AUTO_REPORT 10 1000) LOCATION_ERROR_TIMEOUT stopped_refused)
    as (_ & Hb & Ho); [vm_compute; reflexivity..|].
  eexists. split; [etransitivity; [exact Hb|vm_compute; reflexivity]|exact Ho].
Defined.

Definition trip_runs : adapter :=
  default (init_adapter true) (run_client
    (now (StartBatchingCommand 7 (some_options BATCHING_MODE_TRIP 500 1000)) ++ answer 0 ok 0)).

Lemma finished_trip_faults_removal_witness : ∃ s',
  stop_trip_answered None 7 2 false default_options ok trip_runs = Some s' ∧
  proc_msg some_caps some_conf Some None (MsgRemoveClient 7 true) s' = None.
Proof.
  destruct (finished_trip_faults_removal some_caps some_conf Some 7 2
    (some_options BATCHING_MODE_TRIP 500 1000) true trip_runs) as [Hs _]; [vm_compute; reflexivity..|].
  eexists. split; [vm_compute; reflexivity|]. apply Hs; vm_compute; reflexivity.
Defined.

Lemma refusals_are_silent_witness :
  proc_msg some_caps some_conf Some None (MsgStartBatching 7 9 default_options) trip_runs = Some trip_runs.
Proof.
  destruct (refusals_are_silent some_caps some_conf Some None 7 9 default_options some_callbacks trip_runs)
    as [Hs _]; [vm_compute; reflexivity|].
  apply Hs. right. left. reflexivity.
Defined.

(** Without reading erased elements, no report of a completed trip gets through. *)
Example completed_trip_is_read_after_erase :
  run_client (now (StartBatchingCommand 7 (some_options BATCHING_MODE_TRIP 500 1000)) ++ answer 0 ok 0 ++
    now (CompletedTripsEvent 500)) = None.
Proof. vm_compute. reflexivity. Qed.

(** The engine still sends its event: the only trip was stopped. *)
Example stopped_trip_stays_registered :
  (λ s, (size (trips s), autoReportBatchingSessionsCount s, Z.testbit (mEvtMask s) 19)) <$>
  run_client (now (StartBatchingCommand 7 (some_options BATCHING_MODE_TRIP 500 1000)) ++ answer 0 ok 0 ++
    now (StopBatchingCommand 7 2) ++ answer 0 ok 0)
  = Some (0%nat, 1%nat, true).
Proof. vm_compute. reflexivity. Qed.

(** The second trip of a client is no batching session: it cannot be stopped. *)
Example second_trip_cannot_be_stopped :
  (λ s, (bool_decide (is_Some (trips s !! 3)), isBatchingSession 7 3 s, calls s)) <$>
  run_client (now (StartBatchingCommand 7 (some_options BATCHING_MODE_TRIP 500 1000)) ++ answer 0 ok 0 ++
    now (StartBatchingCommand 7 (some_options BATCHING_MODE_TRIP 800 1000)) ++ answer 0 ok 0 ++
    now (StopBatchingCommand 7 3))
  = Some (true, false, []).
Proof. vm_compute. reflexivity. Qed.

(** The query for a new trip fails: there is no trip, and the client is told of
    a success. *)
Example failed_query_is_a_success :
  (λ s, (bool_decide (is_Some (trips s !! 3)), last (out s))) <$>
  run_client (now (StartBatchingCommand 7 (some_options BATCHING_MODE_TRIP 500 1000)) ++ answer 0 ok 0 ++
    now (StartBatchingCommand 7 (some_options BATCHING_MODE_TRIP 800 1000)) ++ answer 0 LOCATION_ERROR_TIMEOUT 0)
  = Some (false, Some (ResponseCb 7 ok 3)).
Proof. vm_compute. reflexivity. Qed.

(** A start that came before the engine was up, while it was locked, is not
    even tried when the lock is lifted. *)
Example pending_start_waits_for_another_engine_up :
  (λ s, (length (mPendingMsgs s), length (queue s), calls s)) <$>
  steps some_caps some_conf Some None (prologue ++
    now (StartBatchingCommand 7 (some_options BATCHING_MODE_ROUTINE 0 1000)) ++
    [SetEngineLockState ENGINE_LOCK_STATE_DISABLED] ++ now EngineUp ++
    [SetEngineLockState ENGINE_LOCK_STATE_ENABLED] ++ now (EngineLockStatus ENGINE_LOCK_STATE_ENABLED))
    (init_adapter false)
  = Some (1%nat, 0%nat, []).
Proof. vm_compute. reflexivity. Qed.
