(* ===== verification/LocClients.v ===== *)
(** * The location API: clients and their adapters

    Models [gps/location/LocationAPI.cpp]: the table of the clients of the
    process, the three adapter libraries that are loaded when a client first
    needs them, and the destruction of a client, which waits until every
    adapter has forgotten it.  The libraries are found by the dynamic linker;
    whether that succeeds is a parameter.  References and objects are
    addresses; of the [std::function] that a client passes to [destroy] its
    identity matters, [None] is an empty one. *)
From S2P Require Import Prelude LocAdapter.

(** ** Data *)
Inductive adapter_lib := Gnss | Batching | Geofencing.

#[export] Instance adapter_lib_eq_dec : EqDecision adapter_lib.
Proof. solve_decision. Defined.

(** The position of [LOCATION_ADAPTER_.._TYPE_BIT]. *)
Definition lib_bit (l : adapter_lib) : Z :=
  match l with Gnss => 0 | Batching => 1 | Geofencing => 2 end%Z.
Definition LOCATION_ADAPTER_TYPE_BIT (l : adapter_lib) : Z := Z.shiftl 1 (lib_bit l).

(** The functions of the three interfaces that take a client; references are
    addresses. *)
Inductive client_call :=
  | StartTracking (options : Z)
  | StopTracking (id : Z)
  | UpdateTrackingOptions (id options : Z)
  | StartBatching (options : Z)
  | StopBatching (id : Z)
  | UpdateBatchingOptions (id options : Z)
  | GetBatchedLocations (id : Z) (count : nat)
  | CallAddGeofences (count : nat) (options info : Z)
  | CallRemoveGeofences (count : nat) (ids : Z)
  | CallModifyGeofences (count : nat) (ids options : Z)
  | CallPauseGeofences (count : nat) (ids : Z)
  | CallResumeGeofences (count : nat) (ids : Z)
  | CallGnssNiResponse (id response : Z).

(** The functions of the GNSS interface that the control object calls. *)
Inductive control_call :=
  | Enable (techType : Z)
  | Disable (id : Z)
  | GnssUpdateConfig (config : Z)
  | GnssGetConfig (mask : Z)
  | GnssDeleteAidingData (data : Z)
  | GnssUpdateSvConfig (constellationEnablementConfig blacklistSvConfig : Z)
  | GnssUpdateSecondaryBandConfig (secondaryBandConfig : Z)
  | SetConstrainedTunc (enable : bool) (tuncThreshold energyBudget : Z)
  | SetPositionAssistedClockEstimator (enable : bool)
  | ConfigLeverArm (configInfo : Z)
  | ConfigRobustLocation (enable enableForE911 : bool)
  | ConfigMinGpsWeek (minGpsWeek : Z)
  | ConfigDeadReckoningEngineParams (dreConfig : Z)
  | ConfigEngineRunState (engType engState : Z).

Inductive effect :=
  | CreateOSFramework
  | DestroyOSFramework
  | Initialize (l : adapter_lib)
  | IfAddClient (l : adapter_lib) (client : Z) (callbacks : LocationCallbacks)
  | IfRequestCapabilities (l : adapter_lib) (client : Z)
  | IfRemoveClient (l : adapter_lib) (client : Z)
  | IfCall (client : Z) (c : client_call)
  | IfSetControlCallbacks
  | IfControl (c : control_call)
  | DestroyComplete (cb : Z).

Record destroy_data := DestroyData {
  waitAdapterMask : Z;
  destroyCompleteCb : option Z
}.

(** [gData] and the other statics, the objects that were not deleted, and the
    calls of [removeClient] that the adapters have not completed. *)
Record api := Api {
  clientData : gmap Z LocationCallbacks;
  destroyClientData : gmap Z destroy_data;
  controlAPI : bool;
  loaded : adapter_lib → bool;
  loadFailed : adapter_lib → bool;
  gOSFrameworkRefCount : Z;
  live : gset Z;
  removing : list (adapter_lib * Z);
  effects : list effect
}.

Definition init_api : api := Api ∅ ∅ false (λ _, false) (λ _, false) 0 ∅ [] [].

Definition emits (e : list effect) (s : api) : api :=
  Api (clientData s) (destroyClientData s) (controlAPI s) (loaded s) (loadFailed s)
    (gOSFrameworkRefCount s) (live s) (removing s) (effects s ++ e).
Definition set_tables (c : gmap Z LocationCallbacks) (d : gmap Z destroy_data) (s : api) : api :=
  Api c d (controlAPI s) (loaded s) (loadFailed s) (gOSFrameworkRefCount s) (live s) (removing s)
    (effects s).
Definition set_control (b : bool) (s : api) : api :=
  Api (clientData s) (destroyClientData s) b (loaded s) (loadFailed s) (gOSFrameworkRefCount s)
    (live s) (removing s) (effects s).
Definition set_libs (i f : adapter_lib → bool) (s : api) : api :=
  Api (clientData s) (destroyClientData s) (controlAPI s) i f (gOSFrameworkRefCount s) (live s)
    (removing s) (effects s).
Definition set_refs (n : Z) (s : api) : api :=
  Api (clientData s) (destroyClientData s) (controlAPI s) (loaded s) (loadFailed s) n (live s)
    (removing s) (effects s).
Definition set_live (l : gset Z) (s : api) : api :=
  Api (clientData s) (destroyClientData s) (controlAPI s) (loaded s) (loadFailed s)
    (gOSFrameworkRefCount s) l (removing s) (effects s).
Definition set_removing (r : list (adapter_lib * Z)) (s : api) : api :=
  Api (clientData s) (destroyClientData s) (controlAPI s) (loaded s) (loadFailed s)
    (gOSFrameworkRefCount s) (live s) r (effects s).

Definition set_lib (l : adapter_lib) (b : bool) (f : adapter_lib → bool) : adapter_lib → bool :=
  λ l', if decide (l' = l) then b else f l'.

(** ** Which adapters a client needs *)
Definition isGnssClient (cb : LocationCallbacks) : bool :=
  gnssNiCb cb || trackingCb cb || gnssLocationInfoCb cb || engineLocationsInfoCb cb ||
  gnssSvCb cb || gnssNmeaCb cb || gnssDataCb cb || gnssMeasurementsCb cb || locationSystemInfoCb cb.

Definition isBatchingClient (cb : LocationCallbacks) : bool := batchingCb cb.

Definition isGeofenceClient (cb : LocationCallbacks) : bool :=
  geofenceBreachCb cb || geofenceStatusCb cb.

Definition needs (cb : LocationCallbacks) (l : adapter_lib) : bool :=
  match l with
  | Gnss => isGnssClient cb
  | Batching => isBatchingClient cb
  | Geofencing => isGeofenceClient cb
  end.

Definition mandatory_missing (cb : LocationCallbacks) : bool :=
  negb (capabilitiesCb cb) || negb (responseCb cb) || negb (collectiveResponseCb cb).

Section api.
(** [loadLocationInterface]: whether the library and its entry are found. *)
Context (found : adapter_lib → bool).

(** The interface of a library is loaded at its first use and not tried again
    after a failure. *)
Definition load_interface (l : adapter_lib) (s : api) : api :=
  if negb (loaded s l) && negb (loadFailed s l) then
    if found l then emits [Initialize l] (set_libs (set_lib l true (loaded s)) (loadFailed s) s)
    else set_libs (loaded s) (set_lib l true (loadFailed s)) s
  else s.

(** One of the three blocks of [createInstance]; the flag is
    [requestedCapabilities]. *)
Definition join (p : Z) (cb : LocationCallbacks) (x : bool * api) (l : adapter_lib) : bool * api :=
  let '(requestedCapabilities, s) := x in
  if needs cb l then
    let s := load_interface l s in
    if loaded s l then
      let s := emits [IfAddClient l p cb] s in
      if negb requestedCapabilities then (true, emits [IfRequestCapabilities l p] s)
      else (requestedCapabilities, s)
    else (requestedCapabilities, s)
  else (requestedCapabilities, s).

(** [p]: the address of the new object. *)
Definition createInstance (p : Z) (cb : LocationCallbacks) (s : api) : option Z * api :=
  if mandatory_missing cb then (None, s)
  else
    let s := set_live ({[p]} ∪ live s) s in
    let s := set_refs (wrap_unsigned 32 (gOSFrameworkRefCount s + 1)) s in
    let s := if decide (gOSFrameworkRefCount s = 1%Z) then emits [CreateOSFramework] s else s in
    let '(_, s) := foldl (join p cb) (false, s) [Gnss; Batching; Geofencing] in
    (Some p, set_tables (<[p := cb]> (clientData s)) (destroyClientData s) s).

(** One of the blocks of [updateCallbacks]. *)
Definition rejoin (this : Z) (cb : LocationCallbacks) (s : api) (l : adapter_lib) : api :=
  if needs cb l then
    let s := load_interface l s in
    if loaded s l then emits [IfAddClient l this cb] s else s
  else s.

Definition updateCallbacks (this : Z) (cb : LocationCallbacks) (s : api) : api :=
  if mandatory_missing cb then s
  else
    let s := foldl (rejoin this cb) s [Gnss; Batching; Geofencing] in
    set_tables (<[this := cb]> (clientData s)) (destroyClientData s) s.

(** ** Destruction *)

(** A call of a [std::function]: an empty one throws. *)
Definition call_function (cb : option Z) (s : api) : option api :=
  f ← cb; Some (emits [DestroyComplete f] s).

(** [delete this]: the object must not have been deleted. *)
Definition delete_this (this : Z) (s : api) : option api :=
  if decide (this ∈ live s) then Some (set_live (live s ∖ {[this]}) s) else None.

(** [if (!destroyCompleteCb) (destroyCompleteCb)();] and [delete this]. *)
Definition invoke_and_delete (this : Z) (cb : option Z) (s : api) : option api :=
  s ← (if negb (bool_decide (is_Some cb)) then call_function cb s else Some s);
  delete_this this s.

Definition onRemoveClientCompleteCb (this : Z) (adapterType : adapter_lib) (s : api) : option api :=
  match destroyClientData s !! this with
  | None => Some s
  | Some d =>
      let mask := Z.ldiff (waitAdapterMask d) (LOCATION_ADAPTER_TYPE_BIT adapterType) in
      if decide (mask = 0%Z) then
        invoke_and_delete this (destroyCompleteCb d)
          (set_tables (clientData s) (delete this (destroyClientData s)) s)
      else
        Some (set_tables (clientData s)
          (<[this := DestroyData mask (destroyCompleteCb d)]> (destroyClientData s)) s)
  end.

Definition mask_of (f : adapter_lib → bool) : Z :=
  let mask := (if f Gnss then LOCATION_ADAPTER_TYPE_BIT Gnss else 0)%Z in
  let mask := Z.lor mask (if f Batching then LOCATION_ADAPTER_TYPE_BIT Batching else 0) in
  Z.lor mask (if f Geofencing then LOCATION_ADAPTER_TYPE_BIT Geofencing else 0).

Definition wait_mask (s : api) : Z := mask_of (loaded s).

(** [removeClient] of a loaded library, with the callback that completes it. *)
Definition remove_from (this : Z) (s : api) (l : adapter_lib) : api :=
  if loaded s l then emits [IfRemoveClient l this] (set_removing (removing s ++ [(l, this)]) s)
  else s.

Definition destroy (this : Z) (cb : option Z) (s : api) : option api :=
  let '(invokeDestroyCb, s) :=
    match clientData s !! this with
    | Some _ =>
        let needToWait := loaded s Gnss || loaded s Batching || loaded s Geofencing in
        let s :=
          if bool_decide (is_Some cb) && needToWait then
            set_tables (clientData s)
              (<[this := DestroyData (wait_mask s) cb]> (destroyClientData s)) s
          else s in
        let s := foldl (remove_from this) s [Gnss; Batching; Geofencing] in
        (negb needToWait, set_tables (delete this (clientData s)) (destroyClientData s) s)
    | None => (false, s)
    end in
  let s := if decide (gOSFrameworkRefCount s = 1%Z) then emits [DestroyOSFramework] s else s in
  let s := set_refs (wrap_unsigned 32 (gOSFrameworkRefCount s - 1)) s in
  if (invokeDestroyCb : bool) then invoke_and_delete this cb s else Some s.

(** ** Calls that are passed on *)

(** [ret]: what the interface returns. *)
Definition pass (l : adapter_lib) (this : Z) (c : client_call) (ret none : Z) (s : api) : Z * api :=
  if loaded s l then (ret, emits [IfCall this c] s) else (none, s).

(** The calls about tracking ask whether the client is known. *)
Definition pass_known (this : Z) (c : client_call) (ret : Z) (s : api) : Z * api :=
  match clientData s !! this with
  | Some _ => pass Gnss this c ret 0 s
  | None => (0%Z, s)
  end.

Definition startTracking this options ret := pass_known this (StartTracking options) ret.
Definition stopTracking this id s := snd (pass_known this (StopTracking id) 0 s).
Definition updateTrackingOptions this id options s :=
  snd (pass_known this (UpdateTrackingOptions id options) 0 s).
Definition startBatching this options ret := pass Batching this (StartBatching options) ret 0.
Definition stopBatching this id s := snd (pass Batching this (StopBatching id) 0 0 s).
Definition updateBatchingOptions this id options s :=
  snd (pass Batching this (UpdateBatchingOptions id options) 0 0 s).
Definition getBatchedLocations this id count s :=
  snd (pass Batching this (GetBatchedLocations id count) 0 0 s).
Definition addGeofences this count options info ret :=
  pass Geofencing this (CallAddGeofences count options info) ret 0.
Definition removeGeofences this count ids s :=
  snd (pass Geofencing this (CallRemoveGeofences count ids) 0 0 s).
Definition modifyGeofences this count ids options s :=
  snd (pass Geofencing this (CallModifyGeofences count ids options) 0 0 s).
Definition pauseGeofences this count ids s :=
  snd (pass Geofencing this (CallPauseGeofences count ids) 0 0 s).
Definition resumeGeofences this count ids s :=
  snd (pass Geofencing this (CallResumeGeofences count ids) 0 0 s).
Definition gnssNiResponse this id response s :=
  snd (pass Gnss this (CallGnssNiResponse id response) 0 0 s).

(** ** The control object *)
Definition createControl (has_responseCb : bool) (s : api) : bool * api :=
  if has_responseCb && negb (controlAPI s) then
    let s := load_interface Gnss s in
    if loaded s Gnss then (true, emits [IfSetControlCallbacks] (set_control true s))
    else (false, s)
  else (false, s).

Definition destroyControl (s : api) : api := set_control false s.

Definition control (c : control_call) (ret : Z) (s : api) : Z * api :=
  if loaded s Gnss then (ret, emits [IfControl c] s) else (0%Z, s).

Definition enable techType := control (Enable techType).
Definition disable id s := snd (control (Disable id) 0 s).
Definition gnssUpdateConfig config := control (GnssUpdateConfig config).
Definition gnssGetConfig mask := control (GnssGetConfig mask).
Definition gnssDeleteAidingData data := control (GnssDeleteAidingData data).
Definition configConstellations enablement blacklist :=
  control (GnssUpdateSvConfig enablement blacklist).
Definition configConstellationSecondaryBand config := control (GnssUpdateSecondaryBandConfig config).
Definition configConstrainedTimeUncertainty en tuncThreshold energyBudget :=
  control (SetConstrainedTunc en tuncThreshold energyBudget).
Definition configPositionAssistedClockEstimator en := control (SetPositionAssistedClockEstimator en).
Definition configLeverArm configInfo := control (ConfigLeverArm configInfo).
Definition configRobustLocation en enableForE911 := control (ConfigRobustLocation en enableForE911).
Definition configMinGpsWeek minGpsWeek := control (ConfigMinGpsWeek minGpsWeek).
Definition configDeadReckoningEngineParams dreConfig :=
  control (ConfigDeadReckoningEngineParams dreConfig).
Definition configEngineRunState engType engState := control (ConfigEngineRunState engType engState).

(** ** Steps

    [Complete n]: the adapter library completes the [n]-th of the calls of
    [removeClient] that wait. *)
Inductive op :=
  | Create (p : Z) (cb : LocationCallbacks)
  | Update (this : Z) (cb : LocationCallbacks)
  | Destroy (this : Z) (cb : option Z)
  | Complete (n : nat)
  | ClientCall (l : adapter_lib) (this : Z) (c : client_call)
  | CreateControl (has_responseCb : bool)
  | DestroyControl
  | ControlCall (c : control_call).

Definition api_step (o : op) (s : api) : option api :=
  match o with
  | Create p cb => Some (createInstance p cb s).2
  | Update this cb => Some (updateCallbacks this cb s)
  | Destroy this cb => destroy this cb s
  | Complete n =>
      match removing s !! n with
      | Some (l, client) => onRemoveClientCompleteCb client l (set_removing (delete n (removing s)) s)
      | None => Some s
      end
  | ClientCall l this c => Some (pass l this c 0 0 s).2
  | CreateControl b => Some (createControl b s).2
  | DestroyControl => Some (destroyControl s)
  | ControlCall c => Some (control c 0 s).2
  end.
End api.

(** ** Masks *)
Lemma mask_ldiff f l : Z.ldiff (mask_of f) (LOCATION_ADAPTER_TYPE_BIT l) = mask_of (set_lib l false f).
Proof.
  unfold mask_of, set_lib.
  destruct l; simpl; destruct (f Gnss), (f Batching), (f Geofencing); reflexivity.
Qed.

Lemma mask_of_ext f f' : (∀ l, f l = f' l) → mask_of f = mask_of f'.
Proof. intros E. unfold mask_of. by rewrite !E. Qed.

Lemma mask_zero f : mask_of f = 0%Z ↔ ∀ l, f l = false.
Proof.
  unfold mask_of. split.
  - intros E l. destruct l; destruct (f Gnss), (f Batching), (f Geofencing); done.
  - intros E. by rewrite !E.
Qed.

Lemma mask_nonzero f : mask_of f ≠ 0%Z → ∃ l, f l = true.
Proof.
  intros Hn. destruct (f Gnss) eqn:?; [by exists Gnss|].
  destruct (f Batching) eqn:?; [by exists Batching|].
  destruct (f Geofencing) eqn:?; [by exists Geofencing|].
  destruct Hn. apply mask_zero. by intros [].
Qed.

(** The adapters that have not forgotten a client. *)
Definition waits (r : list (adapter_lib * Z)) (client : Z) : adapter_lib → bool :=
  λ l, bool_decide ((l, client) ∈ r).

(** ** The framework of the operating system *)
Definition framework_delta (e : effect) : Z :=
  match e with CreateOSFramework => 1 | DestroyOSFramework => -1 | _ => 0 end%Z.
Definition frameworks (l : list effect) : Z := foldr (λ e n, framework_delta e + n)%Z 0%Z l.

Lemma frameworks_app l l' : frameworks (l ++ l') = (frameworks l + frameworks l')%Z.
Proof.
  induction l as [|e l IH]; [done|]. simpl. rewrite IH. lia.
Qed.

(** ** The invariant *)
Record held (s : api) : Prop := Held {
  held_clients : ∀ c, is_Some (clientData s !! c) → c ∈ live s;
  held_waiting : ∀ c d, destroyClientData s !! c = Some d →
    c ∈ live s ∧ is_Some (destroyCompleteCb d) ∧
    waitAdapterMask d = mask_of (waits (removing s) c) ∧ waitAdapterMask d ≠ 0%Z ∧
    clientData s !! c = None;
  held_removing : ∀ l c, (l, c) ∈ removing s → c ∈ live s ∧ clientData s !! c = None;
  held_once : NoDup (removing s);
  held_refs : gOSFrameworkRefCount s = Z.of_nat (size (clientData s));
  held_small : (gOSFrameworkRefCount s < 2 ^ 32)%Z;
  held_framework : frameworks (effects s) = (if decide (gOSFrameworkRefCount s = 0%Z) then 0 else 1)%Z
}.

(** A client that was destroyed, that nobody is going to delete. *)
Definition leaked (c : Z) (s : api) : Prop :=
  c ∈ live s ∧ clientData s !! c = None ∧ destroyClientData s !! c = None.

(** What a client and the allocator have to keep to: a new object has an
    address of its own, an object is used until it is destroyed, and an empty
    callback is passed only if there is an adapter to wait for. *)
Definition polite (o : op) (s : api) : Prop :=
  match o with
  | Create p cb => (p ∉ live s) ∧ (gOSFrameworkRefCount s + 1 < 2 ^ 32)%Z
  | Update this _ => is_Some (clientData s !! this)
  | Destroy this cb => is_Some (clientData s !! this) ∧
      (is_Some cb ∨ loaded s Gnss || loaded s Batching || loaded s Geofencing = true)
  | _ => True
  end.

(** Steps that only load libraries and call them. *)
Record quiet (s s' : api) : Prop := Quiet {
  quiet_clients : clientData s' = clientData s;
  quiet_waiting : destroyClientData s' = destroyClientData s;
  quiet_refs : gOSFrameworkRefCount s' = gOSFrameworkRefCount s;
  quiet_live : live s' = live s;
  quiet_removing : removing s' = removing s;
  quiet_framework : frameworks (effects s') = frameworks (effects s)
}.

#[export] Instance quiet_preorder : PreOrder quiet.
Proof. split; [by split|]. intros s1 s2 s3 [] []. split; congruence. Qed.

Lemma quiet_held s s' : quiet s s' → held s → held s'.
Proof.
  intros [E1 E2 E3 E4 E5 E6] [H1 H2 H3 H4 H5 H6 H7].
  split; rewrite ?E1, ?E2, ?E3, ?E4, ?E5, ?E6; done.
Qed.

Lemma quiet_leaked s s' c : quiet s s' → leaked c s → leaked c s'.
Proof. intros [E1 E2 _ E4 _ _] (? & ? & ?). unfold leaked. by rewrite E1, E2, E4. Qed.

Lemma quiet_emits e s : frameworks e = 0%Z → quiet s (emits e s).
Proof. intros E. split; try done. simpl. rewrite frameworks_app, E. lia. Qed.

Lemma quiet_load found l s : quiet s (load_interface found l s).
Proof.
  unfold load_interface. repeat case_match; try done.
  etrans; [|by apply quiet_emits]. by split.
Qed.

Lemma quiet_join found p cb x l : quiet x.2 (join found p cb x l).2.
Proof.
  destruct x as [b s]. unfold join. destruct (needs cb l); [|done].
  pose proof (quiet_load found l s) as Q. revert Q. generalize (load_interface found l s).
  intros s1 Q. destruct (loaded s1 l); [|done].
  destruct b; simpl; (etrans; [exact Q|]); [by apply quiet_emits|].
  etrans; by apply quiet_emits.
Qed.

Lemma quiet_joins found p cb ls x : quiet x.2 (foldl (join found p cb) x ls).2.
Proof.
  revert x. induction ls as [|l ls IH]; intros x; [done|]. simpl.
  etrans; [apply quiet_join|apply IH].
Qed.

Lemma quiet_rejoins found p cb ls s : quiet s (foldl (rejoin found p cb) s ls).
Proof.
  revert s. induction ls as [|l ls IH]; intros s; [done|]. simpl. etrans; [|apply IH].
  unfold rejoin. destruct (needs cb l); [|done].
  pose proof (quiet_load found l s) as Q. revert Q. generalize (load_interface found l s).
  intros s1 Q. destruct (loaded s1 l); [|done]. etrans; [exact Q|by apply quiet_emits].
Qed.

(** ** Steps keep the invariant *)
Lemma held_update found this cb s : held s → is_Some (clientData s !! this) →
  held (updateCallbacks found this cb s).
Proof.
  intros H [cb0 Hc]. unfold updateCallbacks. destruct (mandatory_missing cb); [done|].
  pose proof (quiet_rejoins found this cb [Gnss; Batching; Geofencing] s) as Q.
  revert Q. generalize (foldl (rejoin found this cb) s [Gnss; Batching; Geofencing]). intros s1 Q.
  rewrite <- (quiet_clients _ _ Q) in Hc. apply (quiet_held _ _ Q) in H as [H1 H2 H3 H4 H5 H6 H7].
  split; simpl; try done.
  - intros c. rewrite lookup_insert_is_Some. intros [<-|[_ Hi]]; apply H1; eauto.
  - intros c d Hd. destruct (H2 c d Hd) as (? & ? & ? & ? & Hn). repeat split; try done.
    rewrite lookup_insert_ne; [done|]. intros ->. congruence.
  - intros l c Hl. destruct (H3 l c Hl) as [? Hn]. split; [done|].
    rewrite lookup_insert_ne; [done|]. intros ->. congruence.
  - rewrite (map_size_insert_Some this cb (clientData s1)) by eauto. done.
Qed.

(** A client that is counted, with its new object. *)
Lemma held_new p cb s s1 s2 : held s → p ∉ live s → (gOSFrameworkRefCount s + 1 < 2 ^ 32)%Z →
  s1 = set_refs (gOSFrameworkRefCount s + 1) (set_live ({[p]} ∪ live s) s) →
  quiet (if decide (gOSFrameworkRefCount s1 = 1%Z) then emits [CreateOSFramework] s1 else s1) s2 →
  held (set_tables (<[p := cb]> (clientData s2)) (destroyClientData s2) s2).
Proof.
  intros [H1 H2 H3 H4 H5 H6 H7] Hp Hs -> Q.
  assert (clientData s !! p = None) as Hn.
  { apply eq_None_not_Some. intros Hi. by apply Hp, H1. }
  assert (clientData s2 = clientData s ∧ destroyClientData s2 = destroyClientData s ∧
    live s2 = {[p]} ∪ live s ∧ removing s2 = removing s ∧
    gOSFrameworkRefCount s2 = (gOSFrameworkRefCount s + 1)%Z ∧ frameworks (effects s2) = 1%Z)
    as (E1 & E2 & E3 & E4 & E5 & E6).
  { revert Q. simpl. destruct (decide (gOSFrameworkRefCount s + 1 = 1)%Z) as [Ed|Ed]; intros [-> -> -> -> -> ->]; simpl; repeat split.
    - rewrite frameworks_app, H7. simpl. rewrite decide_True by lia. lia.
    - rewrite H7, decide_False; [done|]. lia. }
  split; simpl; rewrite ?E1, ?E2, ?E3, ?E4, ?E5, ?E6.
  - intros c. rewrite lookup_insert_is_Some. intros [<-|[_ Hi]]; [set_solver|]. apply H1 in Hi. set_solver.
  - intros c d Hd. destruct (H2 c d Hd) as (? & ? & ? & ? & ?). repeat split; try done; [set_solver|].
    rewrite lookup_insert_ne; [done|]. intros ->. done.
  - intros l c Hl. destruct (H3 l c Hl) as [? ?]. split; [set_solver|].
    rewrite lookup_insert_ne; [done|]. intros ->. done.
  - done.
  - rewrite map_size_insert_None by done. lia.
  - done.
  - rewrite decide_False; [done|]. lia.
Qed.

Lemma held_create found p cb s : held s → p ∉ live s → (gOSFrameworkRefCount s + 1 < 2 ^ 32)%Z →
  held (createInstance found p cb s).2.
Proof.
  intros H Hp Hs. unfold createInstance. destruct (mandatory_missing cb); [done|].
  change (gOSFrameworkRefCount (set_live ({[p]} ∪ live s) s)) with (gOSFrameworkRefCount s).
  assert (0 ≤ gOSFrameworkRefCount s)%Z by (rewrite (held_refs s H); lia).
  rewrite wrap_unsigned_small by lia.
  match goal with |- context [foldl _ (false, ?s0)] =>
    pose proof (quiet_joins found p cb [Gnss; Batching; Geofencing] (false, s0)) as Q end.
  revert Q. destruct (foldl _ _ _) as [b s2]. simpl. intros Q.
  by eapply (held_new p cb s _ s2).
Qed.

Lemma leaked_create found p cb s c : p ∉ live s → leaked c s → leaked c (createInstance found p cb s).2.
Proof.
  intros Hp Hl. unfold createInstance. destruct (mandatory_missing cb); [done|].
  match goal with |- context [foldl _ (false, ?s0)] =>
    pose proof (quiet_joins found p cb [Gnss; Batching; Geofencing] (false, s0)) as Q;
    assert (leaked c s0) as H0 end.
  { destruct Hl as (? & ? & ?). case_decide; (split; [simpl; set_solver|done]). }
  revert Q. destruct (foldl _ _ _) as [b s2]. simpl. intros Q.
  apply (quiet_leaked _ _ _ Q) in H0 as (H1 & H2 & H3). split; [done|]. simpl. split; [|done].
  rewrite lookup_insert_ne; [done|]. intros ->. by destruct Hl.
Qed.

Lemma leaked_update found this cb s c : is_Some (clientData s !! this) → leaked c s →
  leaked c (updateCallbacks found this cb s).
Proof.
  intros [d Hd] Hl. unfold updateCallbacks. destruct (mandatory_missing cb); [done|].
  pose proof (quiet_rejoins found this cb [Gnss; Batching; Geofencing] s) as Q.
  pose proof (quiet_leaked _ _ _ Q Hl) as (H1 & H2 & H3). split; [done|]. simpl. split; [|done].
  rewrite lookup_insert_ne; [done|]. intros ->. destruct Hl as (_ & ? & _). congruence.
Qed.

(** ** Completion *)
Lemma waits_delete n r l c l' : NoDup r → r !! n = Some (l, c) →
  waits (delete n r) c l' = set_lib l false (waits r c) l'.
Proof.
  intros Hnd Hn. pose proof (delete_Permutation r n (l, c) Hn) as Hp.
  rewrite Hp in Hnd. apply NoDup_cons in Hnd as [Hnin _]. unfold waits, set_lib.
  case_decide as E; [subst l'; by apply bool_decide_eq_false|].
  apply bool_decide_ext. rewrite Hp at 2. rewrite elem_of_cons. naive_solver.
Qed.

Lemma waits_other n r l c c' : r !! n = Some (l, c) → c' ≠ c →
  ∀ l', waits (delete n r) c' l' = waits r c' l'.
Proof.
  intros Hn Hne l'. pose proof (delete_Permutation r n (l, c) Hn) as Hp. unfold waits.
  apply bool_decide_ext. rewrite Hp at 2. rewrite elem_of_cons. naive_solver.
Qed.

Lemma held_complete n l c s : held s → removing s !! n = Some (l, c) →
  ∃ s', onRemoveClientCompleteCb c l (set_removing (delete n (removing s)) s) = Some s' ∧ held s' ∧
    (is_Some (destroyClientData s !! c) → c ∈ live s' ↔ ∃ l', (l', c) ∈ removing s').
Proof.
  intros [H1 H2 H3 H4 H5 H6 H7] Hn.
  assert (∀ x, x ∈ delete n (removing s) → x ∈ removing s) as Hsub.
  { intros x Hx. rewrite (delete_Permutation _ _ _ Hn). by right. }
  assert (NoDup (delete n (removing s))) as Hnd.
  { rewrite (delete_Permutation _ _ _ Hn) in H4. by apply NoDup_cons in H4 as [_ ?]. }
  unfold onRemoveClientCompleteCb. simpl.
  destruct (destroyClientData s !! c) as [d|] eqn:Hd.
  - destruct (H2 c d Hd) as (Hl & Hcb & Hm & Hz & Hcl).
    rewrite Hm, mask_ldiff, <- (mask_of_ext (waits (delete n (removing s)) c)) by
      (intros l'; by apply waits_delete).
    destruct (decide (mask_of (waits (delete n (removing s)) c) = 0%Z)) as [Ez|Ez].
    + unfold invoke_and_delete. rewrite bool_decide_true by done. simpl. unfold delete_this. simpl.
      rewrite decide_True by done. eexists. split; [done|].
      assert (∀ l', (l', c) ∉ delete n (removing s)) as Hno.
      { intros l' Hin. pose proof (proj1 (mask_zero _) Ez l') as E.
        by apply bool_decide_eq_false in E. }
      split; [split; simpl; try done|].
      * intros c' Hc'. assert (c' ≠ c) by (intros ->; destruct Hc'; congruence).
        apply H1 in Hc'. set_solver.
      * intros c' d' [Hne Hd']%lookup_delete_Some. destruct (H2 c' d' Hd') as (? & ? & Hm' & ? & ?).
        repeat split; try done; [set_solver|]. rewrite Hm'. apply mask_of_ext. intros l'.
        symmetry. by apply (waits_other n _ l c).
      * intros l' c' Hin. assert (c' ≠ c) by (intros ->; by destruct (Hno l')).
        destruct (H3 l' c' (Hsub _ Hin)). split; [set_solver|done].
      * intros _. simpl. split; [set_solver|]. intros [l' Hin]. by destruct (Hno l').
    + eexists. split; [done|]. split; [split; simpl; try done|].
      * intros c' d'. destruct (decide (c' = c)) as [->|Hne].
        { rewrite lookup_insert_eq. intros [= <-]. simpl. done. }
        rewrite lookup_insert_ne by done. intros Hd'.
        destruct (H2 c' d' Hd') as (? & ? & Hm' & ? & ?).
        repeat split; try done. rewrite Hm'. apply mask_of_ext. intros l'.
        symmetry. by apply (waits_other n _ l c).
      * intros l' c' Hin. apply (H3 l'), Hsub, Hin.
      * intros _. simpl. split; [|done]. intros _.
        apply mask_nonzero in Ez as [l' Hl']. by exists l'; apply bool_decide_eq_true in Hl'.
  - eexists. split; [done|]. split; [split; simpl; try done|by intros []].
    + intros c' d' Hd'. destruct (H2 c' d' Hd') as (? & ? & Hm' & ? & ?). repeat split; try done.
      rewrite Hm'. apply mask_of_ext. intros l'. symmetry. apply (waits_other n _ l c); [done|].
      intros ->. congruence.
    + intros l' c' Hin. apply (H3 l'), Hsub, Hin.
Qed.

Lemma leaked_complete this l s s' c : onRemoveClientCompleteCb this l s = Some s' →
  leaked c s → leaked c s'.
Proof.
  unfold onRemoveClientCompleteCb. destruct (destroyClientData s !! this) as [d|] eqn:Hd; [|by intros [= <-]].
  intros Hs (H1 & H2 & H3). assert (c ≠ this) as Hne by congruence.
  destruct (decide _) as [_|_]; [|injection Hs as <-; split; [done|split; [done|by simpl; rewrite lookup_insert_ne]]].
  unfold invoke_and_delete, delete_this in Hs. destruct (negb _).
  - destruct (destroyCompleteCb d); [|done]. simpl in Hs. case_decide; [|done]. injection Hs as <-.
    split; [simpl; set_solver|split; [done|by simpl; rewrite lookup_delete_ne]].
  - simpl in Hs. case_decide; [|done]. injection Hs as <-.
    split; [simpl; set_solver|split; [done|by simpl; rewrite lookup_delete_ne]].
Qed.

(** ** Destruction *)

(** The calls of [removeClient] that [destroy] makes. *)
Definition removals (this : Z) (f : adapter_lib → bool) : list (adapter_lib * Z) :=
  [Gnss; Batching; Geofencing] ≫= λ l, if f l then [(l, this)] else [].

Lemma elem_of_removals l c this f : (l, c) ∈ removals this f ↔ c = this ∧ f l = true.
Proof.
  unfold removals. rewrite list_elem_of_bind. split.
  - intros (l' & Hin & _). case_match; [|by apply not_elem_of_nil in Hin].
    apply list_elem_of_singleton in Hin as [= -> ->]. done.
  - intros [-> Hf]. exists l. rewrite Hf. split; [by left|]. destruct l; repeat constructor.
Qed.

Lemma removals_nodup this f : NoDup (removals this f).
Proof.
  unfold removals. simpl. destruct (f Gnss), (f Batching), (f Geofencing); simpl;
    repeat first [apply NoDup_nil_2 | apply NoDup_cons_2; [set_solver|]].
Qed.

Lemma remove_from_all this s :
  foldl (remove_from this) s [Gnss; Batching; Geofencing] =
  emits ((λ x, IfRemoveClient x.1 x.2) <$> removals this (loaded s))
    (set_removing (removing s ++ removals this (loaded s)) s).
Proof.
  destruct s as [c d k f lf n v r e]. unfold removals, remove_from, emits, set_removing. simpl.
  destruct (f Gnss) eqn:E1; simpl; destruct (f Batching) eqn:E2; simpl;
    destruct (f Geofencing) eqn:E3; simpl; rewrite ?app_nil_r, <- ?app_assoc; done.
Qed.

Lemma frameworks_removals r :
  frameworks ((λ x : adapter_lib * Z, IfRemoveClient x.1 x.2) <$> r) = 0%Z.
Proof. induction r as [|x r IH]; [done|exact IH]. Qed.

(** Once the calls of [destroy] are appended, exactly the loaded adapters
    have to forget the client. *)
Lemma waits_removals r this f c l : (∀ l, (l, this) ∉ r) →
  waits (r ++ removals this f) c l = if decide (c = this) then f l else waits r c l.
Proof.
  intros Hno. unfold waits. case_decide as E; [subst c|].
  - apply eq_true_iff_eq. rewrite bool_decide_eq_true, elem_of_app, elem_of_removals. naive_solver.
  - apply bool_decide_ext. rewrite elem_of_app, elem_of_removals. naive_solver.
Qed.

Definition any_loaded (s : api) : bool := loaded s Gnss || loaded s Batching || loaded s Geofencing.

Lemma any_loaded_spec s : any_loaded s = true ↔ ∃ l, loaded s l = true.
Proof.
  unfold any_loaded. rewrite !orb_true_iff. split; [naive_solver|]. intros [[] ?]; auto.
Qed.

Lemma held_not_removing s this : held s → is_Some (clientData s !! this) →
  ∀ l, (l, this) ∉ removing s.
Proof. intros H [d Hd] l Hin. destruct (held_removing s H l this Hin). congruence. Qed.

(** The tables after the client's entry was moved. *)
Lemma held_retired this cb s s' : held s → is_Some (clientData s !! this) →
  clientData s' = delete this (clientData s) →
  destroyClientData s' =
    (if bool_decide (is_Some cb) && any_loaded s
     then <[this := DestroyData (wait_mask s) cb]> (destroyClientData s) else destroyClientData s) →
  gOSFrameworkRefCount s' = (gOSFrameworkRefCount s - 1)%Z → live s' = live s →
  removing s' = removing s ++ removals this (loaded s) →
  frameworks (effects s') =
    (frameworks (effects s) - if decide (gOSFrameworkRefCount s = 1%Z) then 1 else 0)%Z →
  held s'.
Proof.
  intros H Hc E1 E2 E3 E4 E5 E6. pose proof (held_not_removing s this H Hc) as Hno.
  destruct H as [H1 H2 H3 H4 H5 H6 H7].
  split; rewrite ?E1, ?E3, ?E4, ?E5, ?E6.
  - intros c [? [_ Hi]%lookup_delete_Some]. apply H1. eauto.
  - assert (∀ c d, destroyClientData s !! c = Some d → c ≠ this) as Hne.
    { intros c d Hd ->. destruct Hc as [? Hc], (H2 _ _ Hd) as (_ & _ & _ & _ & ?). congruence. }
    assert (∀ c d, destroyClientData s !! c = Some d → c ∈ live s ∧ is_Some (destroyCompleteCb d) ∧
      waitAdapterMask d = mask_of (waits (removing s ++ removals this (loaded s)) c) ∧
      waitAdapterMask d ≠ 0%Z ∧ delete this (clientData s) !! c = None) as Hold.
    { intros c d Hd. pose proof (Hne c d Hd). destruct (H2 c d Hd) as (? & ? & Hm & ? & ?).
      repeat split; try done; [|by apply lookup_delete_None; right].
      rewrite Hm. apply mask_of_ext. intros l. by rewrite waits_removals, decide_False. }
    intros c d. rewrite E2. destruct (_ && _) eqn:Eb; [|by apply Hold].
    apply andb_true_iff in Eb as [Hcb%bool_decide_eq_true (l & Hl)%any_loaded_spec].
    destruct (decide (c = this)) as [->|Hn]; [|rewrite lookup_insert_ne by done; by apply Hold].
    rewrite lookup_insert_eq. intros [= <-]. simpl. unfold wait_mask.
    repeat split; [by apply H1|done| | |by rewrite lookup_delete_eq].
    + apply mask_of_ext. intros l'. by rewrite waits_removals, decide_True.
    + intros E. pose proof (proj1 (mask_zero _) E l). congruence.
  - intros l c. rewrite elem_of_app, elem_of_removals. intros [Hin|[-> _]].
    + destruct (H3 l c Hin). split; [done|]. by apply lookup_delete_None; right.
    + split; [by apply H1|apply lookup_delete_eq].
  - apply NoDup_app. repeat split; [done| |apply removals_nodup].
    intros [l c] Hin [-> _]%elem_of_removals. by destruct (Hno l).
  - rewrite map_size_delete_Some by done. destruct Hc as [? Hc].
    pose proof (map_size_ne_0_lookup_2 (clientData s) this (mk_is_Some _ _ Hc)). lia.
  - lia.
  - rewrite H7. assert (0 < gOSFrameworkRefCount s)%Z.
    { pose proof (map_size_ne_0_lookup_2 (clientData s) this Hc). lia. }
    repeat case_decide; lia.
Qed.

(** The address of a deleted client is nowhere any more. *)
Lemma held_deleted this s : held s → clientData s !! this = None →
  destroyClientData s !! this = None → (∀ l, (l, this) ∉ removing s) →
  held (set_live (live s ∖ {[this]}) s).
Proof.
  intros [H1 H2 H3 H4 H5 H6 H7] Hc Hd Hr. split; simpl; try done.
  - intros c Hi. assert (c ≠ this) by (intros ->; destruct Hi; congruence).
    apply H1 in Hi. set_solver.
  - intros c d Hi. assert (c ≠ this) by congruence. destruct (H2 c d Hi) as (? & ? & ? & ? & ?).
    repeat split; try done. set_solver.
  - intros l c Hin. assert (c ≠ this) by (intros ->; by destruct (Hr l)).
    destruct (H3 l c Hin). split; [set_solver|done].
Qed.

Lemma held_destroy this cb s : held s → is_Some (clientData s !! this) →
  (is_Some cb ∨ any_loaded s = true) →
  ∃ s', destroy this cb s = Some s' ∧ held s' ∧
    (this ∈ live s' ↔ any_loaded s = true) ∧ clientData s' !! this = None ∧
    frameworks (effects s') =
      (frameworks (effects s) - if decide (gOSFrameworkRefCount s = 1%Z) then 1 else 0)%Z ∧
    (any_loaded s = true → is_Some (destroyClientData s' !! this) ↔ is_Some cb) ∧
    (∀ c, leaked c s → leaked c s').
Proof.
  intros H Hc Hcb. pose proof (held_retired this cb s) as R. specialize (λ s', R s' H Hc).
  assert (this ∈ live s) as Hl by by apply held_clients.
  assert (destroyClientData s !! this = None) as Hd.
  { apply eq_None_not_Some. intros [d Hd]. destruct Hc, (held_waiting s H this d Hd) as (?&?&?&?&?).
    congruence. }
  assert (0 < gOSFrameworkRefCount s)%Z as Hp.
  { pose proof (map_size_ne_0_lookup_2 _ _ Hc). rewrite (held_refs s H). lia. }
  pose proof (held_small s H) as Hs. destruct Hc as [cb0 Hc].
  unfold destroy. rewrite Hc. fold (any_loaded s). cbv zeta.
  set (s1 := if bool_decide (is_Some cb) && any_loaded s then _ else s).
  rewrite remove_from_all. set (s2 := set_tables _ _ _).
  assert (∃ s3, s3 = (if decide (gOSFrameworkRefCount s2 = 1%Z) then emits [DestroyOSFramework] s2 else s2))
    as [s3 E3] by eauto. rewrite <- E3.
  assert (gOSFrameworkRefCount s2 = gOSFrameworkRefCount s) as E2 by (unfold s2, s1; by destruct (_ && _)).
  rewrite E2 in E3.
  assert (gOSFrameworkRefCount s3 = gOSFrameworkRefCount s) as E4 by (rewrite E3; by case_decide).
  rewrite E4, wrap_unsigned_small by lia.
  set (s4 := set_refs _ s3).
  assert (loaded s1 = loaded s ∧ removing s1 = removing s ∧ live s1 = live s ∧
    clientData s1 = clientData s ∧ effects s1 = effects s) as (F1 & F2 & F3 & F4 & F5)
    by (unfold s1; by destruct (_ && _)).
  assert (held s4 ∧ live s4 = live s ∧ clientData s4 = delete this (clientData s) ∧
    removing s4 = removing s ++ removals this (loaded s) ∧
    destroyClientData s4 = destroyClientData s1 ∧
    frameworks (effects s4) =
      (frameworks (effects s) - if decide (gOSFrameworkRefCount s = 1%Z) then 1 else 0)%Z)
    as (K1 & K2 & K3 & K4 & K5 & K6).
  { assert (live s4 = live s) by (unfold s4; rewrite E3; case_decide; simpl; by rewrite F3).
    assert (clientData s4 = delete this (clientData s))
      by (unfold s4; rewrite E3; case_decide; simpl; by rewrite F4).
    assert (removing s4 = removing s ++ removals this (loaded s))
      by (unfold s4; rewrite E3; case_decide; simpl; by rewrite F1, F2).
    assert (destroyClientData s4 = destroyClientData s1) as E5
      by (unfold s4; rewrite E3; by case_decide).
    assert (frameworks (effects s4) =
      (frameworks (effects s) - if decide (gOSFrameworkRefCount s = 1%Z) then 1 else 0)%Z).
    { unfold s4. rewrite E3. case_decide; simpl;
        rewrite !frameworks_app, frameworks_removals, F5; simpl; lia. }
    split; [apply R; try done; rewrite E5; unfold s1; by destruct (_ && _)|].
    by repeat split. }
  assert (∀ c, leaked c s → c ≠ this ∧ leaked c s4) as K7.
  { intros c (L1 & L2 & L3). assert (c ≠ this) as Hne by congruence. split; [done|]. unfold leaked.
    rewrite K2, K3, K5, lookup_delete_ne by done. split_and!; [done|done|].
    unfold s1. destruct (_ && _); [|done]. simpl. by rewrite lookup_insert_ne. }
  clearbody s4. unfold s1 in K5. destruct (any_loaded s) eqn:En; simpl.
  - exists s4. rewrite K2, K3, lookup_delete_eq. split_and!; [done..| |by apply K7].
    intros _. rewrite K5, andb_true_r. destruct cb as [f|]; simpl.
    + rewrite lookup_insert_eq. split; by eexists.
    + rewrite Hd. split; by intros [].
  - destruct Hcb as [Hcb|?]; [|done]. unfold invoke_and_delete. rewrite bool_decide_true by done.
    simpl. unfold delete_this. rewrite K2, decide_True by done. eexists. split; [done|].
    rewrite <- K2. split; [apply held_deleted; try done|].
    + by rewrite K3, lookup_delete_eq.
    + rewrite K5, andb_false_r. done.
    + intros l. rewrite K4, elem_of_app, elem_of_removals. intros [Hin|[_ Hlo]].
      * by apply (held_not_removing s this H (mk_is_Some _ _ Hc) l).
      * assert (any_loaded s = true) by (apply any_loaded_spec; eauto). congruence.
    + simpl. rewrite K3, lookup_delete_eq. split_and!; [set_solver|done|done|done|].
      intros c Hlc. destruct (K7 c Hlc) as [Hne (? & ? & ?)]. split; [simpl; set_solver|done].
Qed.

(** ** Runs *)
Definition api_run (found : adapter_lib → bool) (l : list op) (s : api) : option api :=
  foldl (λ x o, s ← x; api_step found o s) (Some s) l.

Inductive api_reach (found : adapter_lib → bool) : api → Prop :=
  | api_reach_init : api_reach found init_api
  | api_reach_step o s s' : api_reach found s → polite o s → api_step found o s = Some s' →
      api_reach found s'.

Lemma quiet_pass l this c ret none s : quiet s (pass l this c ret none s).2.
Proof. unfold pass. case_match; [by apply quiet_emits|done]. Qed.

Lemma quiet_control c ret s : quiet s (control c ret s).2.
Proof. unfold control. case_match; [by apply quiet_emits|done]. Qed.

Lemma quiet_createControl found b s : quiet s (createControl found b s).2.
Proof.
  unfold createControl. case_match; [|done].
  pose proof (quiet_load found Gnss s) as Q. revert Q. generalize (load_interface found Gnss s).
  intros s1 Q. case_match; [|done]. simpl. etrans; [exact Q|].
  etrans; [|by apply quiet_emits]. by split.
Qed.

Lemma held_step found o s : held s → polite o s →
  ∃ s', api_step found o s = Some s' ∧ held s'.
Proof.
  intros H Hp. destruct o as [p cb|this cb|this cb|n|l this c|b| |c]; simpl in Hp |- *.
  - eexists. split; [done|]. by apply held_create; destruct Hp.
  - eexists. split; [done|]. by apply held_update.
  - destruct Hp as [Hc Hcb].
    destruct (held_destroy this cb s H Hc Hcb) as (s' & ? & ? & _). eauto.
  - destruct (removing s !! n) as [[l c]|] eqn:Hn; [|eauto].
    destruct (held_complete n l c s H Hn) as (s' & ? & ? & _). eauto.
  - eexists. split; [done|]. eapply quiet_held; [apply quiet_pass|done].
  - eexists. split; [done|]. eapply quiet_held; [apply quiet_createControl|done].
  - eexists. split; [done|]. eapply quiet_held; [|exact H]. by split.
  - eexists. split; [done|]. eapply quiet_held; [apply quiet_control|done].
Qed.

Lemma held_init : held init_api.
Proof.
  split; simpl; try done; try set_solver; [by intros c []|apply NoDup_nil_2].
Qed.

Lemma held_reach found s : api_reach found s → held s.
Proof.
  induction 1 as [|o s s' _ IH Hp Hs]; [apply held_init|].
  destruct (held_step found o s IH Hp) as (s'' & Hs' & ?). congruence.
Qed.

(** ** The callback of [destroy] *)

(** Steps that do not report the destruction of a client. *)
Definition unreported (cb : Z) (s s' : api) : Prop :=
  DestroyComplete cb ∈ effects s' → DestroyComplete cb ∈ effects s.

Lemma unreported_emits cb e s s' : unreported cb s s' → DestroyComplete cb ∉ e →
  unreported cb s (emits e s').
Proof. unfold unreported. simpl. intros H Hn. rewrite elem_of_app. naive_solver. Qed.

#[export] Instance unreported_preorder cb : PreOrder (unreported cb).
Proof. split; [by intros ??|]. intros s1 s2 s3. unfold unreported. auto. Qed.

(** The goals about single steps. *)
Ltac unreported_simple :=
  simpl; first [assumption | by intros ? | apply unreported_emits; [unreported_simple|set_solver]].

Lemma unreported_load found cb l s : unreported cb s (load_interface found l s).
Proof.
  unfold load_interface. repeat case_match; unreported_simple.
Qed.

Lemma unreported_join found cb p c x l : unreported cb x.2 (join found p c x l).2.
Proof.
  destruct x as [b s]. unfold join. destruct (needs c l); [|done].
  pose proof (unreported_load found cb l s) as U. revert U. generalize (load_interface found l s).
  intros s1 U. repeat case_match; unreported_simple.
Qed.

Lemma unreported_joins found cb p c ls x : unreported cb x.2 (foldl (join found p c) x ls).2.
Proof.
  revert x. induction ls as [|l ls IH]; intros x; [done|]. simpl.
  etrans; [apply unreported_join|apply IH].
Qed.

Lemma unreported_rejoins found cb p c ls s : unreported cb s (foldl (rejoin found p c) s ls).
Proof.
  revert s. induction ls as [|l ls IH]; intros s; [done|]. simpl. etrans; [|apply IH].
  unfold rejoin. destruct (needs c l); [|done].
  pose proof (unreported_load found cb l s) as U. revert U. generalize (load_interface found l s).
  intros s1 U. case_match; unreported_simple.
Qed.

Lemma unreported_create found cb p c s : unreported cb s (createInstance found p c s).2.
Proof.
  unfold createInstance. case_match; [unreported_simple|]. cbv zeta.
  match goal with |- context [foldl _ (false, ?s0)] =>
    pose proof (unreported_joins found cb p c [Gnss; Batching; Geofencing] (false, s0)) as U;
    assert (unreported cb s s0) as U0
  end.
  { case_decide; unreported_simple. }
  revert U. destruct (foldl _ _ _) as [b s2]. simpl. intros U. etrans; [exact U0|exact U].
Qed.

Lemma unreported_finish cb this f s s' : invoke_and_delete this f s = Some s' → unreported cb s s'.
Proof.
  unfold invoke_and_delete, call_function, delete_this. destruct f; simpl; [|done].
  case_decide; [|done]. intros [= <-]; unreported_simple.
Qed.

Lemma unreported_destroy cb this f s s' : destroy this f s = Some s' → unreported cb s s'.
Proof.
  unfold destroy. destruct (clientData s !! this).
  - cbv zeta. rewrite remove_from_all. set (s1 := set_tables (delete _ _) _ _).
    assert (unreported cb s s1) as U.
    { unfold s1. unfold unreported. simpl. rewrite elem_of_app.
      intros [Hin|Hin]; [by destruct (_ && _)|].
      apply list_elem_of_fmap in Hin as (x & [=] & _). }
    clearbody s1. intros Hs. assert (unreported cb s1
      (if decide (gOSFrameworkRefCount s1 = 1%Z) then emits [DestroyOSFramework] s1 else s1)) as U1.
    { case_decide; unreported_simple. }
    revert Hs U1. generalize (if decide (gOSFrameworkRefCount s1 = 1%Z)
      then emits [DestroyOSFramework] s1 else s1). intros s2 Hs U1.
    etrans; [exact U|]. etrans; [exact U1|]. case_match; [|simplify_eq; unreported_simple].
    by apply (unreported_finish cb) in Hs.
  - cbv zeta. intros [= <-]. unfold unreported. case_decide; simpl; [|done]. set_solver.
Qed.

Lemma unreported_step found cb o s s' : api_step found o s = Some s' → unreported cb s s'.
Proof.
  destruct o as [p c|this c|this f|n|l this c|b| |c]; simpl.
  - intros [= <-]. apply unreported_create.
  - intros [= <-]. unfold updateCallbacks. case_match; [unreported_simple|]. apply unreported_rejoins.
  - apply unreported_destroy.
  - destruct (removing s !! n) as [[l c]|]; [|intros [= <-]; unreported_simple].
    unfold onRemoveClientCompleteCb. simpl. case_match; [|intros [= <-]; unreported_simple].
    case_decide; [|intros [= <-]; unreported_simple]. intros Hs. by apply (unreported_finish cb) in Hs.
  - intros [= <-]. unfold pass. case_match; unreported_simple.
  - intros [= <-]. unfold createControl. case_match; [|unreported_simple].
    pose proof (unreported_load found cb Gnss s) as U. repeat case_match; unreported_simple.
  - intros [= <-]; unreported_simple.
  - intros [= <-]. unfold control. case_match; unreported_simple.
Qed.

(** ** Properties *)

Lemma leaked_step found o s s' c : held s → polite o s → api_step found o s = Some s' →
  leaked c s → leaked c s'.
Proof.
  intros H Hp Hs Hl. destruct o as [p cb|this cb|this cb|n|l this k|b| |k]; simpl in Hp, Hs.
  - injection Hs as <-. apply leaked_create; [by destruct Hp|done].
  - injection Hs as <-. by apply leaked_update.
  - destruct Hp as [Hc Hcb]. destruct (held_destroy this cb s H Hc Hcb) as (s1 & Hs1 & _ & _ & _ & _ & _ & Hk).
    rewrite Hs1 in Hs. injection Hs as <-. by apply Hk.
  - destruct (removing s !! n) as [[l c']|]; [|by injection Hs as <-]. by eapply leaked_complete.
  - injection Hs as <-. by eapply quiet_leaked; [apply quiet_pass|].
  - injection Hs as <-. by eapply quiet_leaked; [apply quiet_createControl|].
  - by injection Hs as <-.
  - injection Hs as <-. by eapply quiet_leaked; [apply quiet_control|].
Qed.

(** C28: Whatever clients that keep to the rules of the interface do, and in
    whatever order the adapters complete the removal of clients: no step
    fails, every known client and every client that an adapter will still
    report about is an object that was not deleted, the clients are counted
    exactly, so that the framework of the operating system exists exactly
    while there are clients. A destroyed client is deleted at once if no
    adapter is loaded; otherwise one that was destroyed with a callback is
    deleted when the last adapter has forgotten it and not before, and one
    that was destroyed with an empty callback is never deleted. The rules:
    there are fewer than 2^32 clients, a new object has an address of its own,
    a client is used until it is destroyed, and an empty callback is passed to
    destroy only if an adapter is loaded. *)
Theorem clients_live_until_forgotten found s o : api_reach found s → polite o s →
  ∃ s', api_step found o s = Some s' ∧
    (∀ c, is_Some (clientData s' !! c) → c ∈ live s') ∧
    (∀ l c, (l, c) ∈ removing s' → c ∈ live s' ∧ clientData s' !! c = None) ∧
    gOSFrameworkRefCount s' = Z.of_nat (size (clientData s')) ∧
    frameworks (effects s') = (if decide (size (clientData s') = 0%nat) then 0 else 1)%Z ∧
    (∀ c, leaked c s → leaked c s') ∧
    match o with
    | Destroy this cb => (this ∈ live s' ↔ ∃ l, loaded s l = true) ∧
        ((∃ l, loaded s l = true) → leaked this s' ↔ cb = None)
    | Complete n => ∀ l c, removing s !! n = Some (l, c) → ¬ leaked c s →
        (c ∈ live s' ↔ ∃ l', (l', c) ∈ removing s')
    | _ => True
    end.
Proof.
  intros Hr Hp. pose proof (held_reach found s Hr) as H.
  destruct (held_step found o s H Hp) as (s' & Hs & H'). exists s'. split; [done|].
  split; [apply (held_clients s' H')|]. split; [apply (held_removing s' H')|].
  split; [apply (held_refs s' H')|]. split.
  { rewrite (held_framework s' H'), (held_refs s' H'). repeat case_decide; lia. }
  split; [intros c; by eapply leaked_step|].
  destruct o as [| |this cb|n| | | |]; try done.
  - destruct Hp as [Hc Hcb]. destruct (held_destroy this cb s H Hc Hcb) as (s'' & Hs' & _ & Hl & Hn & _ & Hd & _).
    simpl in Hs. rewrite Hs' in Hs. injection Hs as <-. rewrite <- any_loaded_spec. split; [done|].
    intros Hany. specialize (Hd Hany). unfold leaked. rewrite Hl, Hn, (eq_None_not_Some (destroyClientData s'' !! this)), Hd.
    destruct cb as [f|]; [|split; [done|]; intros _; split_and!; [done|done|by intros []]].
    split; [|done]. intros (_ & _ & []). by eexists.
  - intros l c Hn Hd. destruct (held_complete n l c s H Hn) as (s'' & Hs' & _ & Hl).
    simpl in Hs. rewrite Hn, Hs' in Hs. injection Hs as <-. apply Hl.
    destruct (held_removing s H l c (list_elem_of_lookup_2 _ _ _ Hn)) as [? ?].
    destruct (destroyClientData s !! c) eqn:E; [by eexists|]. by destruct Hd.
Qed.

Lemma run_unreported found cb ops s s' : api_run found ops s = Some s' → unreported cb s s'.
Proof.
  revert s. induction ops as [|o ops IH]; intros s; unfold api_run; simpl.
  - intros [= <-]. done.
  - destruct (api_step found o s) as [s1|] eqn:Hs; simpl.
    + intros Hr. etrans; [by eapply unreported_step|]. by apply IH.
    + intros Hr. exfalso. revert Hr. clear. induction ops as [|o ops IH]; [done|exact IH].
Qed.

(** The client that waits for the end of destroy is never told: in no run
    is the function that was passed called, and an empty one is called, which
    fails, when no adapter is loaded. *)
Theorem destroy_callback_is_not_called found ops s : api_run found ops init_api = Some s →
  (∀ cb, DestroyComplete cb ∉ effects s) ∧
  (∀ this, is_Some (clientData s !! this) → (∀ l, loaded s l = false) →
    api_step found (Destroy this None) s = None).
Proof.
  intros Hr. split.
  - intros cb Hin. apply (run_unreported found cb) in Hr. by apply not_elem_of_nil in Hr.
  - intros this [c Hc] Hl. simpl. unfold destroy. rewrite Hc, !Hl. done.
Qed.

(** ** A client of two adapters *)
Definition tracking_and_geofences : LocationCallbacks :=
  MkLocationCallbacks true true true true false true false false false false false false false false
    false false.

(** The client is created and destroyed, and the geofence adapter is the first
    to forget it. *)
Definition two_adapters : list op :=
  [Create 1 tracking_and_geofences; Destroy 1 (Some 7%Z); Complete 1].
Definition two_adapters_left : api := default init_api (api_run (λ _, true) two_adapters init_api).

Lemma clients_live_until_forgotten_witness :
  (api_reach (λ _, true) two_adapters_left ∧ polite (Complete 0) two_adapters_left ∧
    is_Some (destroyClientData two_adapters_left !! 1%Z) ∧ 1%Z ∈ live two_adapters_left) ∧
  ∃ s', api_step (λ _, true) (Complete 0) two_adapters_left = Some s' ∧ 1%Z ∉ live s'.
Proof.
  assert (api_reach (λ _, true) two_adapters_left) as R.
  { apply (api_reach_step _ (Complete 1)
      (default init_api (api_run (λ _, true) (take 2 two_adapters) init_api)));
      [|exact I|by vm_compute].
    apply (api_reach_step _ (Destroy 1 (Some 7%Z))
      (default init_api (api_run (λ _, true) (take 1 two_adapters) init_api)));
      [|split; [by vm_compute; eexists|by left; eexists]|by vm_compute].
    apply (api_reach_step _ (Create 1 tracking_and_geofences) init_api);
      [constructor|split; [set_solver|done]|by vm_compute]. }
  split; [split; [exact R|split; [exact I|split; [by vm_compute; eexists|]]]|].
  { apply (bool_decide_unpack _). by vm_compute. }
  destruct (clients_live_until_forgotten (λ _, true) two_adapters_left (Complete 0) R I)
    as (s' & Hs & _ & _ & _ & _ & _ & Hl).
  exists s'. split; [exact Hs|]. intros Hin.
  apply (Hl Gnss 1%Z) in Hin as [l Hin]; [|by vm_compute|intros (_ & _ & E); vm_compute in E; discriminate].
  injection Hs as <-. by apply not_elem_of_nil in Hin.
Defined.

Lemma destroy_callback_is_not_called_witness :
  ∃ s, api_run (λ _, true) (two_adapters ++ [Complete 0]) init_api = Some s ∧
    live s = ∅ ∧ DestroyComplete 7%Z ∉ effects s.
Proof.
  eexists. split; [by vm_compute|]. split; [by vm_compute|].
  apply (destroy_callback_is_not_called (λ _, true) (two_adapters ++ [Complete 0])). by vm_compute.
Defined.
