(* ===== verification/LocApiClient.v ===== *)
(** * The client side of the location API

    Models [gps/location/LocationAPIClientBase.cpp] and its header: the client
    object of the GNSS, batching and geofence interfaces, which hands out the
    calls of the framework to the location API ([LocClients]), keeps what it is
    waiting for in queues of requests, and gives the answers to the callbacks;
    and the client that controls the engine.  The framework has ids of its own,
    a [BiDict] relates them to the sessions of the API.  What the API returns
    is given with the call; its callbacks are operations.  Numbers are
    [uint32_t], none is computed with. *)
From S2P Require Import Prelude OrderedMap LocAdapter.

Local Open Scope Z_scope.

(** ** [BiDict] *)
Record BiDict (T : Type) := MkBiDict {
  mForwardMap : gmap Z Z;
  mBackwardMap : gmap Z Z;
  mExtMap : gmap Z T
}.
Arguments MkBiDict {T}.
Arguments mForwardMap {T}.
Arguments mBackwardMap {T}.
Arguments mExtMap {T}.

Section bidict.
Context {T : Type} (zero : T).

Definition new_BiDict : BiDict T := MkBiDict ∅ ∅ ∅.

Definition clear (d : BiDict T) : BiDict T := new_BiDict.

Definition hasId (id : Z) (d : BiDict T) : bool := bool_decide (is_Some (mForwardMap d !! id)).
Definition hasSession (session : Z) (d : BiDict T) : bool := bool_decide (is_Some (mBackwardMap d !! session)).

Definition set (id session : Z) (x : T) (d : BiDict T) : BiDict T :=
  MkBiDict (<[id := session]> (mForwardMap d)) (<[session := id]> (mBackwardMap d)) (<[session := x]> (mExtMap d)).

(** [operator\[\]] of a map makes an entry of 0 where there is none. *)
Definition rmById (id : Z) (d : BiDict T) : BiDict T :=
  let session := default 0 (mForwardMap d !! id) in
  MkBiDict (delete id (mForwardMap d)) (delete session (mBackwardMap d)) (delete session (mExtMap d)).

Definition rmBySession (session : Z) (d : BiDict T) : BiDict T :=
  let id := default 0 (mBackwardMap d !! session) in
  MkBiDict (delete id (mForwardMap d)) (delete session (mBackwardMap d)) (delete session (mExtMap d)).

Definition getId (session : Z) (d : BiDict T) : Z := default 0 (mBackwardMap d !! session).
Definition getSession (id : Z) (d : BiDict T) : Z := default 0 (mForwardMap d !! id).

Definition getExtBySession (session : Z) (d : BiDict T) : T := default zero (mExtMap d !! session).

Definition getExtById (id : Z) (d : BiDict T) : T * BiDict T :=
  match mForwardMap d !! id with
  | None => (zero, MkBiDict (<[id := 0]> (mForwardMap d)) (mBackwardMap d) (mExtMap d))
  | Some session => (if 0 <? session then getExtBySession session d else zero, d)
  end.

Definition getAllSessions (d : BiDict T) : list Z := (entries Z.le (mBackwardMap d)).*1.
End bidict.

(** ** [RequestQueue] *)
Record RequestQueue (R : Type) := Queue { mSession : Z; mSessionArrayPtr : Z; mQueue : list R }.
Arguments Queue {R}.
Arguments mSession {R}.
Arguments mSessionArrayPtr {R}.
Arguments mQueue {R}.

Section queue.
Context {R : Type}.

Definition setSession (session : Z) (q : RequestQueue R) : RequestQueue R :=
  Queue session (mSessionArrayPtr q) (mQueue q).
Definition reset (session : Z) (q : RequestQueue R) : RequestQueue R := Queue session (mSessionArrayPtr q) [].
Definition reset_array (ptr : Z) (q : RequestQueue R) : RequestQueue R := Queue 0 ptr [].
Definition push (r : R) (q : RequestQueue R) : RequestQueue R :=
  Queue (mSession q) (mSessionArrayPtr q) (mQueue q ++ [r]).
Definition pop (q : RequestQueue R) : option R * RequestQueue R :=
  (head (mQueue q), Queue (mSession q) (mSessionArrayPtr q) (tail (mQueue q))).
End queue.

(** ** Data *)
Definition SESSION_MODE_NONE : Z := 0.
Definition SESSION_MODE_ON_FULL : Z := 1.
Definition SESSION_MODE_ON_FIX : Z := 2.
Definition SESSION_MODE_ON_TRIP_COMPLETED : Z := 3.

Definition GEOFENCE_SESSION_ID : Z := 0xFFFFFFFF.

Inductive BatchingMode := BATCHING_MODE_ROUTINE | BATCHING_MODE_TRIP | BATCHING_MODE_NO_AUTO_REPORT.

Record TrackingOptions := Tracking_options {
  minInterval : Z;
  minDistance : Z;
  mode : Z;
  locReqEngTypeMask : Z;
  powerMode : Z;
  tbm : Z
}.

Record BatchingOptions := Batching_options {
  b_minInterval : Z;
  b_minDistance : Z;
  b_mode : Z;
  b_locReqEngTypeMask : Z;
  batchingMode : BatchingMode
}.

Record SessionEntity := Entity {
  e_id : Z;
  trackingSession : Z;
  batchingSession : Z;
  sessionMode : Z
}.

Definition no_entity : SessionEntity := Entity 0 0 0 0.

(** A geofence: its options with the mask of breaches, and the rest. *)
Record GeofenceOption := Geofence_option { breachTypeMask : Z; responsiveness : Z; dwellTime : Z }.

Inductive request :=
  | StartTrackingRequest
  | StopTrackingRequest
  | UpdateTrackingOptionsRequest
  | StartBatchingRequest
  | StopBatchingRequest
  | UpdateBatchingOptionsRequest
  | GetBatchedLocationsRequest
  | AddGeofencesRequest
  | RemoveGeofencesRequest (removed : BiDict Z)
  | ModifyGeofencesRequest
  | PauseGeofencesRequest
  | ResumeGeofencesRequest
  | GnssNiResponseRequest.

(** ** Outputs: the calls of the location API, and of the client's callbacks *)
Inductive api_call :=
  | ApiSetCallbacks
  | ApiDestroy
  | ApiStartTracking (o : TrackingOptions) (session : Z)
  | ApiStopTracking (session : Z)
  | ApiUpdateTrackingOptions (session : Z) (o : TrackingOptions)
  | ApiStartBatching (o : BatchingOptions) (session : Z)
  | ApiStopBatching (session : Z)
  | ApiUpdateBatchingOptions (session : Z) (o : BatchingOptions)
  | ApiGetBatchedLocations (session count : Z)
  | ApiAddGeofences (l : list (GeofenceOption * Z))
  | ApiRemoveGeofences (sessions : list Z)
  | ApiModifyGeofences (sessions : list Z) (options : list GeofenceOption)
  | ApiPauseGeofences (sessions : list Z)
  | ApiResumeGeofences (sessions : list Z)
  | ApiGnssNiResponse (id response : Z).

Inductive callback :=
  | OnStartTracking (error : LocationError)
  | OnStopTracking (error : LocationError)
  | OnUpdateTrackingOptions (error : LocationError)
  | OnStartBatching (error : LocationError)
  | OnStopBatching (error : LocationError)
  | OnUpdateBatchingOptions (error : LocationError)
  | OnGetBatchedLocations (error : LocationError)
  | OnGnssNiResponse (error : LocationError)
  | OnAddGeofences (l : list (LocationError * Z))
  | OnRemoveGeofences (l : list (LocationError * Z))
  | OnModifyGeofences (l : list (LocationError * Z))
  | OnPauseGeofences (l : list (LocationError * Z))
  | OnResumeGeofences (l : list (LocationError * Z))
  | OnGeofenceBreach (type : Z) (ids : list Z)
  | OnBatchingStatus (status : Z) (completed : list Z).

Inductive output := Api (a : api_call) | Told (b : callback).

(** ** [LocationAPIClientBase] *)
Record client := Client {
  mLocationAPI : bool;
  mGeofenceBreachCallback : bool;
  mBatchingStatusCallback : bool;
  q_tracking : RequestQueue request;
  q_session : RequestQueue request;
  q_geofence : RequestQueue request;
  q_ni : RequestQueue request;
  mGeofenceBiDict : BiDict Z;
  mSessionBiDict : BiDict SessionEntity;
  mBatchSize : Z;
  mTracking : bool
}.

Definition new_RequestQueue : RequestQueue request := Queue 0 0 [].

Definition new_client : client :=
  Client false false false new_RequestQueue new_RequestQueue new_RequestQueue new_RequestQueue new_BiDict new_BiDict (-1) false.

Definition set_callbacks (api breach status : bool) (c : client) : client :=
  Client api breach status (q_tracking c) (q_session c) (q_geofence c) (q_ni c) (mGeofenceBiDict c)
    (mSessionBiDict c) (mBatchSize c) (mTracking c).
Definition set_q_tracking (q : RequestQueue request) (t : bool) (c : client) : client :=
  Client (mLocationAPI c) (mGeofenceBreachCallback c) (mBatchingStatusCallback c) q (q_session c)
    (q_geofence c) (q_ni c) (mGeofenceBiDict c) (mSessionBiDict c) (mBatchSize c) t.
Definition set_q_session (q : RequestQueue request) (d : BiDict SessionEntity) (c : client) : client :=
  Client (mLocationAPI c) (mGeofenceBreachCallback c) (mBatchingStatusCallback c) (q_tracking c) q
    (q_geofence c) (q_ni c) (mGeofenceBiDict c) d (mBatchSize c) (mTracking c).
Definition set_q_geofence (q : RequestQueue request) (d : BiDict Z) (c : client) : client :=
  Client (mLocationAPI c) (mGeofenceBreachCallback c) (mBatchingStatusCallback c) (q_tracking c)
    (q_session c) q (q_ni c) d (mSessionBiDict c) (mBatchSize c) (mTracking c).
Definition set_q_ni (q : RequestQueue request) (c : client) : client :=
  Client (mLocationAPI c) (mGeofenceBreachCallback c) (mBatchingStatusCallback c) (q_tracking c)
    (q_session c) (q_geofence c) q (mGeofenceBiDict c) (mSessionBiDict c) (mBatchSize c) (mTracking c).
Definition set_mBatchSize (n : Z) (c : client) : client :=
  Client (mLocationAPI c) (mGeofenceBreachCallback c) (mBatchingStatusCallback c) (q_tracking c)
    (q_session c) (q_geofence c) (q_ni c) (mGeofenceBiDict c) (mSessionBiDict c) n (mTracking c).

(** Which callbacks the client has; [created]: whether the API gives an
    instance. *)
Definition locAPISetCallbacks (breach status created : bool) (c : client) : list output * client :=
  let breach := breach || mGeofenceBreachCallback c in
  let status := status || mBatchingStatusCallback c in
  ([Api ApiSetCallbacks], set_callbacks (mLocationAPI c || created) breach status c).

Definition destroy (c : client) : list output * client :=
  let c' := Client false false (mBatchingStatusCallback c) (reset 0 (q_tracking c)) (reset 0 (q_session c))
    (reset 0 (q_geofence c)) (reset 0 (q_ni c)) (mGeofenceBiDict c) (mSessionBiDict c) (mBatchSize c)
    (mTracking c) in
  (if mLocationAPI c then [Api ApiDestroy] else [], c').

(** *** Tracking *)
Definition result : Type := LocationError * list output * client.

Definition locAPIStartTracking (o : TrackingOptions) (session : Z) (c : client) : result :=
  if mLocationAPI c then
    if mTracking c then (LOCATION_ERROR_SUCCESS, [], c)
    else
      (LOCATION_ERROR_SUCCESS, [Api (ApiStartTracking o session)],
        set_q_tracking (push StartTrackingRequest (reset session (q_tracking c))) true c)
  else (LOCATION_ERROR_GENERAL_FAILURE, [], c).

Definition locAPIStopTracking (c : client) : list output * client :=
  let session := mSession (q_tracking c) in
  if mLocationAPI c && (0 <? session) then
    ([Api (ApiStopTracking session)], set_q_tracking (push StopTrackingRequest (q_tracking c)) false c)
  else ([], c).

Definition locAPIUpdateTrackingOptions (o : TrackingOptions) (c : client) : list output * client :=
  let session := mSession (q_tracking c) in
  if mLocationAPI c && (0 <? session) then
    ([Api (ApiUpdateTrackingOptions session o)],
      set_q_tracking (push UpdateTrackingOptionsRequest (q_tracking c)) (mTracking c) c)
  else ([], c).

(** *** Sessions *)

(** [conf]: the number in the file of configuration. *)
Definition locAPIGetBatchSize (conf : option Z) (c : client) : Z * client :=
  if mBatchSize c =? -1 then
    let n := default (-1) conf in
    let n := if n <? 0 then 0 else n in
    (n, set_mBatchSize n c)
  else (mBatchSize c, c).

Definition batching_mode (sessionMode : Z) : BatchingMode :=
  if sessionMode =? SESSION_MODE_ON_FULL then BATCHING_MODE_ROUTINE
  else if sessionMode =? SESSION_MODE_ON_TRIP_COMPLETED then BATCHING_MODE_TRIP
  else BATCHING_MODE_NO_AUTO_REPORT.

Definition batch_options (sessionMode : Z) (o : TrackingOptions) : BatchingOptions :=
  Batching_options (minInterval o) (minDistance o) (mode o) 0 (batching_mode sessionMode).

Definition locAPIStartSession (id sessionMode : Z) (o : TrackingOptions) (session : Z) (c : client) : result :=
  if mLocationAPI c then
    if hasId id (mSessionBiDict c) then (LOCATION_ERROR_ALREADY_STARTED, [], c)
    else
      let '(out, q, entity) :=
        if sessionMode =? SESSION_MODE_ON_FIX then
          (ApiStartTracking o session, push StartTrackingRequest (q_session c), Entity id session 0 sessionMode)
        else
          (ApiStartBatching (batch_options sessionMode o) session,
            push StartBatchingRequest (setSession session (q_session c)), Entity id 0 session sessionMode) in
      (LOCATION_ERROR_SUCCESS, [Api out], set_q_session q (set id session entity (mSessionBiDict c)) c)
  else (LOCATION_ERROR_GENERAL_FAILURE, [], c).

Definition locAPIStopSession (id : Z) (c : client) : result :=
  if mLocationAPI c then
    if hasId id (mSessionBiDict c) then
      let '(e, d) := getExtById no_entity id (mSessionBiDict c) in
      if sessionMode e =? SESSION_MODE_ON_FIX then
        (LOCATION_ERROR_SUCCESS, [Api (ApiStopTracking (trackingSession e))],
          set_q_session (push StopTrackingRequest (q_session c)) d c)
      else
        (LOCATION_ERROR_SUCCESS, [Api (ApiStopBatching (batchingSession e))],
          set_q_session (push StopBatchingRequest (q_session c)) d c)
    else (LOCATION_ERROR_ID_UNKNOWN, [], c)
  else (LOCATION_ERROR_GENERAL_FAILURE, [], c).

(** The calls, the queue, and the two sessions of the entity. *)
Definition update_calls (e : SessionEntity) (sessionMode' : Z) (o : TrackingOptions) (session : Z)
    (q : RequestQueue request) : list output * RequestQueue request * (Z * Z) :=
  if sessionMode' =? SESSION_MODE_ON_FIX then
    let q := push UpdateTrackingOptionsRequest q in
    if sessionMode e =? SESSION_MODE_ON_FIX then
      ([Api (ApiUpdateTrackingOptions (trackingSession e) o)], q, (trackingSession e, batchingSession e))
    else
      ([Api (ApiStopBatching (batchingSession e)); Api (ApiStartTracking o session)], setSession 0 q, (session, 0))
  else
    let q := push UpdateBatchingOptionsRequest q in
    if sessionMode e =? SESSION_MODE_ON_FIX then
      ([Api (ApiStopTracking (trackingSession e)); Api (ApiStartBatching (batch_options sessionMode' o) session)],
        setSession session q, (0, session))
    else
      ([Api (ApiUpdateBatchingOptions (batchingSession e) (Batching_options 0 0 0 0 (batching_mode sessionMode')))],
        q, (trackingSession e, batchingSession e)).

Definition locAPIUpdateSessionOptions (id sessionMode' : Z) (o : TrackingOptions) (session : Z) (c : client) :
    result :=
  if mLocationAPI c then
    if hasId id (mSessionBiDict c) then
      let '(e, d) := getExtById no_entity id (mSessionBiDict c) in
      let '(out, q, (trackingSession', batchingSession')) := update_calls e sessionMode' o session (q_session c) in
      let session' := if sessionMode' =? SESSION_MODE_ON_FIX then trackingSession' else batchingSession' in
      let e' := Entity (e_id e) trackingSession' batchingSession' sessionMode' in
      (LOCATION_ERROR_SUCCESS, out, set_q_session q (set id session' e' (rmById id d)) c)
    else (LOCATION_ERROR_ID_UNKNOWN, [], c)
  else (LOCATION_ERROR_GENERAL_FAILURE, [], c).

Definition locAPIGetBatchedLocations (id count : Z) (c : client) : result :=
  if mLocationAPI c then
    if hasId id (mSessionBiDict c) then
      let '(e, d) := getExtById no_entity id (mSessionBiDict c) in
      if sessionMode e =? SESSION_MODE_ON_FIX then
        (LOCATION_ERROR_NOT_SUPPORTED, [], set_q_session (q_session c) d c)
      else
        (LOCATION_ERROR_SUCCESS, [Api (ApiGetBatchedLocations (batchingSession e) count)],
          set_q_session (push GetBatchedLocationsRequest (q_session c)) d c)
    else (LOCATION_ERROR_ID_UNKNOWN, [], c)
  else (LOCATION_ERROR_GENERAL_FAILURE, [], c).

(** *** Geofences

    [oom]: whether an allocation fails. *)
Fixpoint set_all (l : list (Z * GeofenceOption)) (sessions : list Z) (d : BiDict Z) : BiDict Z :=
  match l, sessions with
  | (id, o) :: l, s :: sessions => set_all l sessions (set id s (breachTypeMask o) d)
  | _, _ => d
  end.

(** [fences]: the id, the options and the data of each; [sessions]: what the API
    returns, one for each fence, if it returns any. *)
Definition locAPIAddGeofences (fences : list (Z * GeofenceOption * Z)) (sessions : option (list Z)) (c : client) :
    result :=
  if mLocationAPI c then
    let q := q_geofence c in
    let q := if mSession q =? GEOFENCE_SESSION_ID then q else reset GEOFENCE_SESSION_ID q in
    let call := [Api (ApiAddGeofences ((λ f : Z * GeofenceOption * Z, (f.1.2, f.2)) <$> fences))] in
    match sessions with
    | Some ss =>
        (LOCATION_ERROR_SUCCESS, call,
          set_q_geofence (push AddGeofencesRequest q) (set_all fences.*1 ss (mGeofenceBiDict c)) c)
    | None => (LOCATION_ERROR_GENERAL_FAILURE, call, set_q_geofence q (mGeofenceBiDict c) c)
    end
  else (LOCATION_ERROR_GENERAL_FAILURE, [], c).

(** The loop of the removal: the sessions, the dictionary and what was removed. *)
Fixpoint remove_loop (ids : list Z) (d removed : BiDict Z) : list Z * BiDict Z * BiDict Z :=
  match ids with
  | [] => ([], d, removed)
  | id :: ids =>
      let session := getSession id d in
      if 0 <? session then
        let type := getExtBySession 0 session d in
        let '(sessions, d, removed) := remove_loop ids (rmBySession session d) (set id session type removed) in
        (session :: sessions, d, removed)
      else remove_loop ids d removed
  end.

Definition geofence_ready (oom : bool) (c : client) : bool :=
  mLocationAPI c && negb oom && (mSession (q_geofence c) =? GEOFENCE_SESSION_ID).

Definition locAPIRemoveGeofences (oom : bool) (ids : list Z) (c : client) : list output * client :=
  if geofence_ready oom c then
    let '(sessions, d, removed) := remove_loop ids (mGeofenceBiDict c) new_BiDict in
    match sessions with
    | [] => ([], set_q_geofence (q_geofence c) d c)
    | _ => ([Api (ApiRemoveGeofences sessions)],
        set_q_geofence (push (RemoveGeofencesRequest removed) (q_geofence c)) d c)
    end
  else ([], c).

(** The loops of the other calls: an id is looked up, and its mask is set if one
    is given. *)
Fixpoint lookup_loop (l : list (Z * option Z)) (d : BiDict Z) : list Z * BiDict Z :=
  match l with
  | [] => ([], d)
  | (id, mask) :: l =>
      let session := getSession id d in
      if 0 <? session then
        let '(sessions, d) := lookup_loop l (match mask with Some m => set id session m d | None => d end) in
        (session :: sessions, d)
      else lookup_loop l d
  end.

Definition on_geofences (oom : bool) (l : list (Z * option Z)) (r : request) (call : list Z → api_call)
    (c : client) : list output * client :=
  if geofence_ready oom c then
    let '(sessions, d) := lookup_loop l (mGeofenceBiDict c) in
    match sessions with
    | [] => ([], set_q_geofence (q_geofence c) d c)
    | _ => ([Api (call sessions)], set_q_geofence (push r (q_geofence c)) d c)
    end
  else ([], c).

(** The options go on as they came, the sessions without those of unknown ids. *)
Definition locAPIModifyGeofences (oom : bool) (l : list (Z * GeofenceOption)) (c : client) : list output * client :=
  on_geofences oom ((λ x : Z * GeofenceOption, (x.1, Some (breachTypeMask x.2))) <$> l) ModifyGeofencesRequest
    (λ sessions, ApiModifyGeofences sessions l.*2) c.

Definition locAPIPauseGeofences (oom : bool) (ids : list Z) (c : client) : list output * client :=
  on_geofences oom ((λ id, (id, None)) <$> ids) PauseGeofencesRequest ApiPauseGeofences c.

Definition locAPIResumeGeofences (oom : bool) (l : list (Z * option Z)) (c : client) : list output * client :=
  on_geofences oom l ResumeGeofencesRequest ApiResumeGeofences c.

Definition locAPIRemoveAllGeofences (oom : bool) (c : client) : list output * client :=
  match getAllSessions (mGeofenceBiDict c) with
  | [] => ([], c)
  | sessionsVec => locAPIRemoveGeofences oom sessionsVec c
  end.

Definition locAPIGnssNiResponse (id response : Z) (c : client) : list output * client :=
  if mLocationAPI c then
    ([Api (ApiGnssNiResponse id response)], set_q_ni (push GnssNiResponseRequest (reset id (q_ni c))) c)
  else ([], c).

(** *** What the API reports *)
Definition GEOFENCE_BREACH_ENTER : Z := 0.
Definition GEOFENCE_BREACH_EXIT : Z := 1.
Definition GEOFENCE_BREACH_ENTER_BIT : Z := 1.
Definition GEOFENCE_BREACH_EXIT_BIT : Z := 2.

Definition reported (type mask : Z) : bool :=
  (type =? GEOFENCE_BREACH_ENTER) && negb (Z.land mask GEOFENCE_BREACH_ENTER_BIT =? 0) ||
  (type =? GEOFENCE_BREACH_EXIT) && negb (Z.land mask GEOFENCE_BREACH_EXIT_BIT =? 0).

Definition beforeGeofenceBreachCb (oom : bool) (type : Z) (sessions : list Z) (c : client) : list output :=
  if oom || negb (mGeofenceBreachCallback c) then []
  else
    let d := mGeofenceBiDict c in
    [Told (OnGeofenceBreach type
      ((λ s, getId s d) <$> List.filter (λ s, reported type (getExtBySession 0 s d)) sessions))].

Definition BATCHING_STATUS_TRIP_COMPLETED : Z := 0.

Fixpoint complete_trips (trips : list Z) (d : BiDict SessionEntity) : list Z * BiDict SessionEntity :=
  match trips with
  | [] => ([], d)
  | s :: trips =>
      if hasSession s d then
        let e := getExtBySession no_entity s d in
        if sessionMode e =? SESSION_MODE_ON_TRIP_COMPLETED then
          let '(ids, d) := complete_trips trips (rmBySession s d) in (e_id e :: ids, d)
        else complete_trips trips d
      else complete_trips trips d
  end.

Definition beforeBatchingStatusCb (status : Z) (trips : list Z) (c : client) : list output * client :=
  let '(ids, d) :=
    if status =? BATCHING_STATUS_TRIP_COMPLETED then complete_trips trips (mSessionBiDict c)
    else ([], mSessionBiDict c) in
  ([Told (OnBatchingStatus status ids)], set_q_session (q_session c) d c).

Definition removeSession (session : Z) (c : client) : client :=
  if hasSession session (mSessionBiDict c) then
    set_q_session (q_session c) (rmBySession session (mSessionBiDict c)) c
  else c.

Definition unless (b : bool) (f : client → client) (c : client) : client := if b then c else f c.

(** [request->onResponse]. *)
Definition onResponse (r : request) (error : LocationError) (id : Z) (c : client) : list output * client :=
  let ok := bool_decide (error = LOCATION_ERROR_SUCCESS) in
  match r with
  | StartTrackingRequest => ([Told (OnStartTracking error)], unless ok (removeSession id) c)
  | StopTrackingRequest => ([Told (OnStopTracking error)], unless (negb ok) (removeSession id) c)
  | UpdateTrackingOptionsRequest => ([Told (OnUpdateTrackingOptions error)], c)
  | StartBatchingRequest => ([Told (OnStartBatching error)], unless ok (removeSession id) c)
  | StopBatchingRequest => ([Told (OnStopBatching error)], unless (negb ok) (removeSession id) c)
  | UpdateBatchingOptionsRequest => ([Told (OnUpdateBatchingOptions error)], c)
  | GetBatchedLocationsRequest => ([Told (OnGetBatchedLocations error)], c)
  | GnssNiResponseRequest => ([Told (OnGnssNiResponse error)], c)
  | _ => ([], c)
  end.

(** [request->onCollectiveResponse]. *)
Definition onCollectiveResponse (r : request) (l : list (LocationError * Z)) (c : client) : list output :=
  let own (d : BiDict Z) := (λ x : LocationError * Z, (x.1, getId x.2 d)) <$> l in
  match r with
  | AddGeofencesRequest => [Told (OnAddGeofences (own (mGeofenceBiDict c)))]
  | RemoveGeofencesRequest removed => [Told (OnRemoveGeofences (own removed))]
  | ModifyGeofencesRequest => [Told (OnModifyGeofences (own (mGeofenceBiDict c)))]
  | PauseGeofencesRequest => [Told (OnPauseGeofences (own (mGeofenceBiDict c)))]
  | ResumeGeofencesRequest => [Told (OnResumeGeofences (own (mGeofenceBiDict c)))]
  | _ => []
  end.

Definition getRequestBySession (session : Z) (c : client) : option request * client :=
  let '(r, c) :=
    if mSession (q_tracking c) =? session then
      let '(r, q) := pop (q_tracking c) in (r, set_q_tracking q (mTracking c) c)
    else if mSession (q_ni c) =? session then
      let '(r, q) := pop (q_ni c) in (r, set_q_ni q c)
    else (None, c) in
  match r with
  | Some _ => (r, c)
  | None =>
      if hasSession session (mSessionBiDict c) then
        let '(r, q) := pop (q_session c) in (r, set_q_session q (mSessionBiDict c) c)
      else (None, c)
  end.

Definition onResponseCb (error : LocationError) (id : Z) (c : client) : list output * client :=
  let '(r, c) := getRequestBySession id c in
  match r with Some r => onResponse r error id c | None => ([], c) end.

Definition onCollectiveResponseCb (l : list (LocationError * Z)) (c : client) : list output * client :=
  if mSession (q_geofence c) =? GEOFENCE_SESSION_ID then
    let '(r, q) := pop (q_geofence c) in
    let c := set_q_geofence q (mGeofenceBiDict c) c in
    (match r with Some r => onCollectiveResponse r l c | None => [] end, c)
  else ([], c).

(** ** [LocationAPIControlClient] *)
Record AssistanceServer := Server { as_type : Z; hostName : option String.string; as_port : Z }.
Record SvIdSource := SvId { sv_size : Z; constellation : Z; svId : Z }.
Record RobustLocation := Robust { validMask : Z; rl_enabled : bool; enabledForE911 : bool; major : Z; minor : Z }.
Record SvTypeConfig := SvTypes { st_size : Z; enabledSvTypesMask : Z; blacklistedSvTypesMask : Z }.

#[export] Instance SvIdSource_eq_dec : EqDecision SvIdSource.
Proof. solve_decision. Defined.
#[export] Instance SvTypeConfig_eq_dec : EqDecision SvTypeConfig.
Proof. solve_decision. Defined.
#[export] Instance RobustLocation_eq_dec : EqDecision RobustLocation.
Proof. solve_decision. Defined.
#[export] Instance AssistanceServer_eq_dec : EqDecision AssistanceServer.
Proof. solve_decision. Defined.

Record GnssConfig := Config {
  gc_size : Z;
  flags : Z;
  gpsLock : Z;
  suplVersion : Z;
  assistanceServer : AssistanceServer;
  lppProfileMask : Z;
  lppeControlPlaneMask : Z;
  lppeUserPlaneMask : Z;
  aGlonassPositionProtocolMask : Z;
  emergencyPdnForEmergencySupl : Z;
  suplEmergencyServices : Z;
  suplModeMask : Z;
  blacklistedSvIds : list SvIdSource;
  emergencyExtensionSeconds : Z;
  robustLocationConfig : RobustLocation;
  minGpsWeek : Z;
  minSvElevation : Z;
  secondaryBandConfig : SvTypeConfig
}.

(** After [memset] to 0. *)
Definition zero_config : GnssConfig :=
  Config 0 0 0 0 (Server 0 None 0) 0 0 0 0 0 0 0 [] 0 (Robust 0 false false 0 0) 0 0 (SvTypes 0 0 0).

Definition GnssConfig_equals (a b : GnssConfig) : bool :=
  (flags a =? flags b) && (gpsLock a =? gpsLock b) && (suplVersion a =? suplVersion b) &&
  bool_decide (assistanceServer a = assistanceServer b) && (lppProfileMask a =? lppProfileMask b) &&
  (lppeControlPlaneMask a =? lppeControlPlaneMask b) && (lppeUserPlaneMask a =? lppeUserPlaneMask b) &&
  (aGlonassPositionProtocolMask a =? aGlonassPositionProtocolMask b) &&
  (emergencyPdnForEmergencySupl a =? emergencyPdnForEmergencySupl b) &&
  (suplEmergencyServices a =? suplEmergencyServices b) && (suplModeMask a =? suplModeMask b) &&
  bool_decide (blacklistedSvIds a = blacklistedSvIds b) &&
  (emergencyExtensionSeconds a =? emergencyExtensionSeconds b) &&
  bool_decide (robustLocationConfig a = robustLocationConfig b) && (minGpsWeek a =? minGpsWeek b) &&
  (minSvElevation a =? minSvElevation b) && bool_decide (secondaryBandConfig a = secondaryBandConfig b).

Inductive ctrl_request :=
  | GnssDeleteAidingDataRequest
  | EnableRequest
  | DisableRequest
  | GnssUpdateConfigRequest
  | GnssGetConfigRequest.

Inductive ctrl_output :=
  | CtrlDeleteAidingData (data : Z)
  | CtrlEnable (techType : Z)
  | CtrlDisable (session : Z)
  | CtrlUpdateConfig (config : GnssConfig)
  | CtrlGetConfig (mask : Z)
  | OnGnssDeleteAidingData (error : LocationError)
  | OnEnable (error : LocationError)
  | OnDisable (error : LocationError)
  | OnGnssUpdateConfig (l : list (LocationError * Z))
  | OnGnssGetConfig (l : list (LocationError * Z)).

Record ctrl_client := Ctrl {
  mLocationControlAPI : bool;
  q_delete : RequestQueue ctrl_request;
  q_control : RequestQueue ctrl_request;
  q_update : RequestQueue ctrl_request;
  q_get : RequestQueue ctrl_request;
  mEnabled : bool;
  mConfig : GnssConfig
}.

Definition new_ctrl_client (created : bool) : ctrl_client :=
  Ctrl created (Queue 0 0 []) (Queue 0 0 []) (Queue 0 0 []) (Queue 0 0 []) false zero_config.

Definition set_q_delete (q : RequestQueue ctrl_request) (c : ctrl_client) : ctrl_client :=
  Ctrl (mLocationControlAPI c) q (q_control c) (q_update c) (q_get c) (mEnabled c) (mConfig c).
Definition set_q_control (q : RequestQueue ctrl_request) (enabled : bool) (c : ctrl_client) : ctrl_client :=
  Ctrl (mLocationControlAPI c) (q_delete c) q (q_update c) (q_get c) enabled (mConfig c).
Definition set_q_update (q : RequestQueue ctrl_request) (config : GnssConfig) (c : ctrl_client) : ctrl_client :=
  Ctrl (mLocationControlAPI c) (q_delete c) (q_control c) q (q_get c) (mEnabled c) config.
Definition set_q_get (q : RequestQueue ctrl_request) (c : ctrl_client) : ctrl_client :=
  Ctrl (mLocationControlAPI c) (q_delete c) (q_control c) (q_update c) q (mEnabled c) (mConfig c).

Definition ctrl_result : Type := LocationError * list ctrl_output * ctrl_client.

Definition locAPIGnssDeleteAidingData (data session : Z) (c : ctrl_client) : ctrl_result :=
  if mLocationControlAPI c then
    (LOCATION_ERROR_SUCCESS, [CtrlDeleteAidingData data],
      set_q_delete (push GnssDeleteAidingDataRequest (reset session (q_delete c))) c)
  else (LOCATION_ERROR_GENERAL_FAILURE, [], c).

Definition locAPIEnable (techType session : Z) (c : ctrl_client) : ctrl_result :=
  if mEnabled c then (LOCATION_ERROR_SUCCESS, [], c)
  else if mLocationControlAPI c then
    (LOCATION_ERROR_SUCCESS, [CtrlEnable techType],
      set_q_control (push EnableRequest (reset session (q_control c))) true c)
  else (LOCATION_ERROR_GENERAL_FAILURE, [], c).

Definition locAPIDisable (c : ctrl_client) : list ctrl_output * ctrl_client :=
  let session := mSession (q_control c) in
  if mEnabled c && mLocationControlAPI c && (0 <? session) then
    ([CtrlDisable session], set_q_control (push DisableRequest (q_control c)) false c)
  else ([], c).

(** [ids]: the array that the API returns, 0 for none.  Its pointer is stored
    only if one was stored before. *)
Definition wait_for (r : ctrl_request) (ids : Z) (q : RequestQueue ctrl_request) : RequestQueue ctrl_request :=
  push r (if mSessionArrayPtr q =? 0 then q else reset_array ids q).

Definition locAPIGnssUpdateConfig (config : GnssConfig) (ids : Z) (c : ctrl_client) : ctrl_result :=
  if mLocationControlAPI c then
    if GnssConfig_equals (mConfig c) config then (LOCATION_ERROR_SUCCESS, [], c)
    else if ids =? 0 then
      (LOCATION_ERROR_GENERAL_FAILURE, [CtrlUpdateConfig config], set_q_update (q_update c) config c)
    else
      (LOCATION_ERROR_SUCCESS, [CtrlUpdateConfig config],
        set_q_update (wait_for GnssUpdateConfigRequest ids (q_update c)) config c)
  else (LOCATION_ERROR_GENERAL_FAILURE, [], c).

Definition locAPIGnssGetConfig (mask ids : Z) (c : ctrl_client) : ctrl_result :=
  if mLocationControlAPI c then
    if ids =? 0 then (LOCATION_ERROR_GENERAL_FAILURE, [CtrlGetConfig mask], c)
    else
      (LOCATION_ERROR_SUCCESS, [CtrlGetConfig mask], set_q_get (wait_for GnssGetConfigRequest ids (q_get c)) c)
  else (LOCATION_ERROR_GENERAL_FAILURE, [], c).

Definition ctrl_getRequestBySession (session : Z) (c : ctrl_client) : option ctrl_request * ctrl_client :=
  if mSession (q_delete c) =? session then let '(r, q) := pop (q_delete c) in (r, set_q_delete q c)
  else if mSession (q_control c) =? session then
    let '(r, q) := pop (q_control c) in (r, set_q_control q (mEnabled c) c)
  else (None, c).

Definition getRequestBySessionArrayPtr (ptr : Z) (c : ctrl_client) : option ctrl_request * ctrl_client :=
  if mSessionArrayPtr (q_update c) =? ptr then
    let '(r, q) := pop (q_update c) in (r, set_q_update q (mConfig c) c)
  else if mSessionArrayPtr (q_get c) =? ptr then let '(r, q) := pop (q_get c) in (r, set_q_get q c)
  else (None, c).

Definition onCtrlResponseCb (error : LocationError) (id : Z) (c : ctrl_client) : list ctrl_output * ctrl_client :=
  let '(r, c) := ctrl_getRequestBySession id c in
  (match r with
   | Some GnssDeleteAidingDataRequest => [OnGnssDeleteAidingData error]
   | Some EnableRequest => [OnEnable error]
   | Some DisableRequest => [OnDisable error]
   | _ => []
   end, c).

(** [ids]: the pointer to the sessions of the answers [l]. *)
Definition onCtrlCollectiveResponseCb (ids : Z) (l : list (LocationError * Z)) (c : ctrl_client) :
    list ctrl_output * ctrl_client :=
  let '(r, c) := getRequestBySessionArrayPtr ids c in
  (match r with
   | Some GnssUpdateConfigRequest => [OnGnssUpdateConfig l]
   | Some GnssGetConfigRequest => [OnGnssGetConfig l]
   | _ => []
   end, c).

Definition destroy_ctrl (c : ctrl_client) : ctrl_client :=
  Ctrl false (reset 0 (q_delete c)) (reset 0 (q_control c)) (reset 0 (q_update c)) (reset 0 (q_get c))
    (mEnabled c) (mConfig c).
