(* ===== verification/LocApiProps.v ===== *)
(** * The client side of the location API: what holds

    The dictionary of ids and sessions; which callback gets an answer, in the
    runs in which the framework waits for the answers that decide about a
    session; the fences as a table of the framework's ids; and the answers that
    are lost or given to the wrong callback. *)
From S2P Require Import Prelude OrderedMap LocAdapter LocApiClient.

Local Open Scope Z_scope.

(** ** The dictionary *)
Section agrees.
Context {T : Type}.

(** The two directions say the same, and exactly the sessions have data. *)
Record agrees (d : BiDict T) : Prop := Agrees {
  ag_inv : ∀ i s, mForwardMap d !! i = Some s ↔ mBackwardMap d !! s = Some i;
  ag_ext : ∀ s, is_Some (mExtMap d !! s) ↔ is_Some (mBackwardMap d !! s)
}.

Lemma agrees_new : agrees (@new_BiDict T).
Proof. split; intros; simpl; rewrite !lookup_empty; [done|]. split; by intros [? ?]. Qed.

(** A new pair, or new data for one that is there. *)
Lemma agrees_set i s x (d : BiDict T) : agrees d →
  (mForwardMap d !! i = None ∧ mBackwardMap d !! s = None) ∨ mForwardMap d !! i = Some s →
  agrees (set i s x d).
Proof.
  intros [Hi He] Hc. split; simpl.
  - intros i' s'. rewrite !lookup_insert_Some. pose proof (Hi i' s'). pose proof (Hi i s').
    pose proof (Hi i' s). naive_solver congruence.
  - intros s'. destruct (decide (s = s')) as [<-|Hne].
    + rewrite !lookup_insert_eq. naive_solver.
    + rewrite !lookup_insert_ne by done. apply He.
Qed.

Lemma agrees_delete i s (d : BiDict T) : agrees d → mForwardMap d !! i = Some s →
  agrees (MkBiDict (delete i (mForwardMap d)) (delete s (mBackwardMap d)) (delete s (mExtMap d))).
Proof.
  intros [Hi He] Hs. split; simpl.
  - intros i' s'. rewrite !lookup_delete_Some. pose proof (Hi i' s'). pose proof (Hi i s').
    pose proof (Hi i' s). naive_solver congruence.
  - intros s'. destruct (decide (s = s')) as [<-|Hne].
    + rewrite !lookup_delete_eq. done.
    + rewrite !lookup_delete_ne by done. apply He.
Qed.

Lemma agrees_rmById i s (d : BiDict T) : agrees d → mForwardMap d !! i = Some s → agrees (rmById i d).
Proof. intros Hd Hs. unfold rmById. rewrite Hs. by apply agrees_delete. Qed.

Lemma agrees_rmBySession i s (d : BiDict T) : agrees d → mForwardMap d !! i = Some s → agrees (rmBySession s d).
Proof.
  intros Hd Hs. unfold rmBySession. rewrite (proj1 (ag_inv d Hd i s) Hs). by apply agrees_delete.
Qed.

Lemma hasSession_true s (d : BiDict T) : agrees d →
  hasSession s d = true ↔ ∃ i, mForwardMap d !! i = Some s ∧ mBackwardMap d !! s = Some i.
Proof.
  intros Hd. unfold hasSession. rewrite bool_decide_eq_true. split.
  - intros [i Hi]. exists i. split; [by apply (ag_inv d Hd)|done].
  - intros (i & _ & Hi). by eexists.
Qed.
End agrees.

(** ** Answers to single calls

    The API answers every call that is not collective once, with the session of
    the call.  [a_told]: the request whose callback should hear of it, none for
    a call that the client makes on its own account, or whose answer it does not
    wait for any more. *)
Inductive source := FromTracking | FromSession | FromNi.

Record ask := Ask { a_source : source; a_session : Z; a_told : option request }.

#[export] Instance source_eq_dec : EqDecision source.
Proof. solve_decision. Defined.

Record world := World { w_client : client; w_asks : list ask }.

Inductive op :=
  | StartTracking (o : TrackingOptions) (session : Z)
  | StopTracking
  | UpdateTracking (o : TrackingOptions)
  | StartSession (id mode : Z) (o : TrackingOptions) (session : Z)
  | StopSession (id : Z)
  | UpdateSession (id mode : Z) (o : TrackingOptions) (session : Z)
  | GetBatched (id count : Z)
  | NiResponse (id response : Z)
  | TripsCompleted (trips : list Z)
  | Answer (n : nat) (error : LocationError).

(** What the call is, in itself. *)
Definition natural (a : api_call) : option (Z * request) :=
  match a with
  | ApiStartTracking _ s => Some (s, StartTrackingRequest)
  | ApiStopTracking s => Some (s, StopTrackingRequest)
  | ApiUpdateTrackingOptions s _ => Some (s, UpdateTrackingOptionsRequest)
  | ApiStartBatching _ s => Some (s, StartBatchingRequest)
  | ApiStopBatching s => Some (s, StopBatchingRequest)
  | ApiUpdateBatchingOptions s _ => Some (s, UpdateBatchingOptionsRequest)
  | ApiGetBatchedLocations s _ => Some (s, GetBatchedLocationsRequest)
  | ApiGnssNiResponse s _ => Some (s, GnssNiResponseRequest)
  | _ => None
  end.

Definition calls_of (out : list output) : list (Z * request) :=
  omap (λ o, match o with Api a => natural a | Told _ => None end) out.

Definition source_of (o : op) : source :=
  match o with
  | StartTracking _ _ | StopTracking | UpdateTracking _ => FromTracking
  | NiResponse _ _ => FromNi
  | _ => FromSession
  end.

(** The calls of an operation: of two, which an update makes to change between
    tracking and batching, the second is that of the framework. *)
Definition asks_of (o : op) (out : list output) : list ask :=
  match o, calls_of out with
  | UpdateSession _ mode _ _, [(s, _)] =>
      [Ask FromSession s (Some (if mode =? SESSION_MODE_ON_FIX then UpdateTrackingOptionsRequest
         else UpdateBatchingOptionsRequest))]
  | UpdateSession _ mode _ _, [(s, _); (s', _)] =>
      [Ask FromSession s None;
       Ask FromSession s' (Some (if mode =? SESSION_MODE_ON_FIX then UpdateTrackingOptionsRequest
         else UpdateBatchingOptionsRequest))]
  | _, l => (λ x : Z * request, Ask (source_of o) x.1 (Some x.2)) <$> l
  end.

(** A new tracking session, or another response to the network, ends the wait
    for the answers of the one before. *)
Definition supersede (o : op) (new : list ask) (l : list ask) : list ask :=
  match o, new with
  | StartTracking _ _, _ :: _ =>
      (λ a, if decide (a_source a = FromTracking) then Ask FromTracking (a_session a) None else a) <$> l
  | NiResponse _ _, _ :: _ =>
      (λ a, if decide (a_source a = FromNi) then Ask FromNi (a_session a) None else a) <$> l
  | _, _ => l
  end.

Definition act (o : op) (w : world) : list output * client :=
  let c := w_client w in
  match o with
  | StartTracking o s => let '(_, out, c) := locAPIStartTracking o s c in (out, c)
  | StopTracking => locAPIStopTracking c
  | UpdateTracking o => locAPIUpdateTrackingOptions o c
  | StartSession id m o s => let '(_, out, c) := locAPIStartSession id m o s c in (out, c)
  | StopSession id => let '(_, out, c) := locAPIStopSession id c in (out, c)
  | UpdateSession id m o s => let '(_, out, c) := locAPIUpdateSessionOptions id m o s c in (out, c)
  | GetBatched id n => let '(_, out, c) := locAPIGetBatchedLocations id n c in (out, c)
  | NiResponse id r => locAPIGnssNiResponse id r c
  | TripsCompleted l => beforeBatchingStatusCb BATCHING_STATUS_TRIP_COMPLETED l c
  | Answer n e => match w_asks w !! n with Some a => onResponseCb e (a_session a) c | None => ([], c) end
  end.

(** The API may answer any call that it did not answer. *)
Definition step (o : op) (w : world) : list output * world :=
  let '(out, c) := act o w in
  let rest := match o with Answer n _ => delete n (w_asks w) | _ => w_asks w end in
  let new := asks_of o out in
  (out, World c (supersede o new rest ++ new)).

(** *** Orderly operations *)
Definition sessions_of (w : world) : BiDict SessionEntity := mSessionBiDict (w_client w).

(** A number that is in use nowhere. *)
Definition fresh (s : Z) (w : world) : Prop :=
  0 < s ∧ s ≠ mSession (q_tracking (w_client w)) ∧ s ≠ mSession (q_ni (w_client w)) ∧
  mBackwardMap (sessions_of w) !! s = None ∧ ∀ a, a ∈ w_asks w → a_session a ≠ s.

(** A request whose answer may end the session. *)
Definition decides (r : option request) : bool :=
  match r with
  | Some (StartTrackingRequest | StopTrackingRequest | StartBatchingRequest | StopBatchingRequest) => true
  | _ => false
  end.

Definition settled (id : Z) (w : world) : Prop :=
  ∀ s a, mForwardMap (sessions_of w) !! id = Some s → a ∈ w_asks w → a_session a = s → decides (a_told a) = false.

Definition idle (s : Z) (w : world) : Prop := ∀ a, a ∈ w_asks w → a_session a ≠ s.

(** The call that is answered is the first of those that are still waited for
    of the tracking session, of all sessions, or of the responses to the
    network: answers to calls of different kinds, and those that nobody waits
    for, come in any order. *)
Definition in_turn (n : nat) (l : list ask) : Prop :=
  ∃ a, l !! n = Some a ∧
    (is_Some (a_told a) → ∀ m b, (m < n)%nat → l !! m = Some b → is_Some (a_told b) → a_source b ≠ a_source a).

(** The framework waits for the answer to a start or a stop of a session before
    it does anything else with it, and for all answers before it changes between
    tracking and batching; a trip is completed only while no answer about it is
    waited for; numbers are not used twice; and answers come in their turn. *)
Definition orderly (o : op) (w : world) : Prop :=
  match o with
  | StartTracking _ s | StartSession _ _ _ s => fresh s w
  | NiResponse id _ => fresh id w
  | StopSession id | GetBatched id _ => settled id w
  | UpdateSession id mode _ s =>
      fresh s w ∧ settled id w ∧
      ∀ s0 e, mForwardMap (sessions_of w) !! id = Some s0 → mExtMap (sessions_of w) !! s0 = Some e →
        (mode =? SESSION_MODE_ON_FIX) ≠ (sessionMode e =? SESSION_MODE_ON_FIX) → idle s0 w
  | TripsCompleted l => ∀ s, s ∈ l → idle s w
  | StopTracking | UpdateTracking _ => True
  | Answer n _ => in_turn n (w_asks w)
  end.

Inductive reachable (w0 : world) : world → Prop :=
  | reach_start : reachable w0 w0
  | reach_step o w : reachable w0 w → orderly o w → reachable w0 (step o w).2.

(** *** The invariant *)
Definition told_from (src : source) (l : list ask) : list request :=
  omap (λ a, if decide (a_source a = src) then a_told a else None) l.

(** A session is not asked anything after what may end it. *)
Definition ends (a : ask) : bool := bool_decide (a_source a = FromSession) && decides (a_told a).

Fixpoint sequenced (l : list ask) : Prop :=
  match l with
  | [] => True
  | a :: l => (ends a = true → ∀ b, b ∈ l → a_session b ≠ a_session a) ∧ sequenced l
  end.

Definition entity_fits (s : Z) (e : SessionEntity) : Prop :=
  (if sessionMode e =? SESSION_MODE_ON_FIX then trackingSession e else batchingSession e) = s ∧ 0 < s.

(** Where the answer of a call goes. *)
Definition placed (c : client) (a : ask) : Prop :=
  match a_told a, a_source a with
  | Some _, FromTracking => a_session a = mSession (q_tracking c) ∧ 0 < a_session a
  | Some _, FromNi => a_session a = mSession (q_ni c) ∧ 0 < a_session a
  | Some _, FromSession => is_Some (mBackwardMap (mSessionBiDict c) !! a_session a)
  | None, _ =>
      mBackwardMap (mSessionBiDict c) !! a_session a = None ∧
      a_session a ≠ mSession (q_tracking c) ∧ a_session a ≠ mSession (q_ni c)
  end.

Record world_ok (w : world) : Prop := WorldOk {
  ok_dict : agrees (sessions_of w);
  ok_fits : ∀ s e, mExtMap (sessions_of w) !! s = Some e → entity_fits s e;
  ok_apart : ∀ s, is_Some (mBackwardMap (sessions_of w) !! s) →
    s ≠ mSession (q_tracking (w_client w)) ∧ s ≠ mSession (q_ni (w_client w));
  ok_other : 0 < mSession (q_tracking (w_client w)) →
    mSession (q_tracking (w_client w)) ≠ mSession (q_ni (w_client w));
  ok_placed : Forall (placed (w_client w)) (w_asks w);
  ok_seq : sequenced (w_asks w);
  ok_tracking : mQueue (q_tracking (w_client w)) = told_from FromTracking (w_asks w);
  ok_session : mQueue (q_session (w_client w)) = told_from FromSession (w_asks w);
  ok_ni : mQueue (q_ni (w_client w)) = told_from FromNi (w_asks w)
}.

Lemma told_from_app src l l' : told_from src (l ++ l') = told_from src l ++ told_from src l'.
Proof. apply omap_app. Qed.

Lemma told_from_other src l : Forall (λ a, a_source a ≠ src) l → told_from src l = [].
Proof.
  unfold told_from. induction 1 as [|a l Ha _ IH]; [done|]. simpl. by rewrite decide_False.
Qed.

Lemma sequenced_app l l' : sequenced l → sequenced l' →
  (∀ a b, a ∈ l → ends a = true → b ∈ l' → a_session b ≠ a_session a) → sequenced (l ++ l').
Proof.
  intros Hl Hl' H. induction l as [|a l IH]; [done|]. destruct Hl as [Ha Hl]. split.
  - intros He b [Hb|Hb]%elem_of_app; [by apply Ha|]. apply H; [left|done|done].
  - apply IH; [done|]. intros a' b Ha'. apply H. by right.
Qed.

Lemma in_dict (w : world) s : world_ok w → hasSession s (sessions_of w) = true →
  s ≠ mSession (q_tracking (w_client w)) ∧ s ≠ mSession (q_ni (w_client w)).
Proof. intros Hw Hs. apply (ok_apart w Hw). by apply bool_decide_eq_true in Hs. Qed.

(** The entry of an id that is known. *)
Lemma known (w : world) id : world_ok w → hasId id (sessions_of w) = true → ∃ s e,
  mForwardMap (sessions_of w) !! id = Some s ∧ mBackwardMap (sessions_of w) !! s = Some id ∧
  mExtMap (sessions_of w) !! s = Some e ∧ entity_fits s e ∧
  getExtById no_entity id (sessions_of w) = (e, sessions_of w).
Proof.
  intros Hw Hid%bool_decide_eq_true. destruct Hid as [s Hs]. pose proof (ok_dict w Hw) as Hd.
  pose proof (proj1 (ag_inv _ Hd _ _) Hs) as Hb.
  destruct (proj2 (ag_ext _ Hd s)) as [e He]; [by eexists|]. pose proof (ok_fits w Hw s e He) as Hf.
  exists s, e. split; [done|]. split; [done|]. split; [done|]. split; [done|].
  unfold getExtById, getExtBySession. rewrite Hs, He. destruct Hf as [_ Hf].
  by rewrite (proj2 (Z.ltb_lt 0 s) Hf).
Qed.

Lemma placed_session q d c l : Forall (placed c) l →
  (∀ a, a ∈ l → is_Some (mBackwardMap d !! a_session a) ↔ is_Some (mBackwardMap (mSessionBiDict c) !! a_session a)) →
  Forall (placed (set_q_session q d c)) l.
Proof.
  rewrite !Forall_forall. intros Hl Hd a Ha. specialize (Hl a Ha). specialize (Hd a Ha). revert Hl.
  unfold placed. simpl. destruct (a_told a), (a_source a); try done; rewrite <- ?eq_None_not_Some in *.
  all: rewrite ?eq_None_not_Some; tauto.
Qed.

(** An operation on sessions adds its calls and its requests. *)
Lemma session_step_ok w q d new : world_ok w → let c' := set_q_session q d (w_client w) in
  agrees d → (∀ s e, mExtMap d !! s = Some e → entity_fits s e) →
  (∀ s, is_Some (mBackwardMap d !! s) →
    s ≠ mSession (q_tracking (w_client w)) ∧ s ≠ mSession (q_ni (w_client w))) →
  (∀ a, a ∈ w_asks w →
    is_Some (mBackwardMap d !! a_session a) ↔ is_Some (mBackwardMap (sessions_of w) !! a_session a)) →
  Forall (placed c') new → sequenced new →
  (∀ a b, a ∈ w_asks w → ends a = true → b ∈ new → a_session b ≠ a_session a) →
  Forall (λ a, a_source a = FromSession) new →
  mQueue q = mQueue (q_session (w_client w)) ++ told_from FromSession new →
  world_ok (World c' (w_asks w ++ new)).
Proof.
  intros [O1 O2 O3 O4 O5 O6 O7 O8 O9] c' Hd Hf Hap Hsame Hp Hs Hns Hsrc Hq.
  assert (∀ src, src ≠ FromSession → told_from src new = []) as Hother.
  { intros src Hne. apply told_from_other. apply (Forall_impl _ _ _ Hsrc). intros a E. congruence. }
  split; simpl; try done.
  - apply Forall_app. split; [by apply placed_session|done].
  - by apply sequenced_app.
  - by rewrite told_from_app, (Hother FromTracking), app_nil_r.
  - by rewrite told_from_app, Hq, O8.
  - by rewrite told_from_app, (Hother FromNi), app_nil_r.
Qed.

(** *** Each operation keeps the invariant *)
Lemma supersede_session o new l : source_of o = FromSession → supersede o new l = l.
Proof. by destruct o. Qed.

(** A request about a session that is there. *)
Lemma ask_known_ok w s r id : world_ok w → mForwardMap (sessions_of w) !! id = Some s → settled id w →
  world_ok (World (set_q_session (push r (q_session (w_client w))) (sessions_of w) (w_client w))
    (w_asks w ++ [Ask FromSession s (Some r)])).
Proof.
  intros Hw Hs Hset. pose proof (ok_dict w Hw) as Hd. pose proof (proj1 (ag_inv _ Hd _ _) Hs) as Hb.
  apply session_step_ok; try done.
  - apply (ok_fits w Hw).
  - apply (ok_apart w Hw).
  - constructor; [|constructor]. unfold placed. simpl. by eexists.
  - by split; [intros _ b ?%not_elem_of_nil|].
  - intros a b Ha He ->%list_elem_of_singleton E. simpl in E. unfold ends in He.
    apply andb_true_iff in He as [_ He]. rewrite (Hset s a Hs Ha) in He; [done|congruence].
  - by constructor.
Qed.

Lemma start_session_ok w id m o s : world_ok w → orderly (StartSession id m o s) w →
  world_ok (step (StartSession id m o s) w).2.
Proof.
  intros Hw (Hs0 & Hst & Hsn & Hsb & Hsa). unfold step, act, locAPIStartSession.
  destruct (mLocationAPI (w_client w)); [|simpl; rewrite app_nil_r; by destruct w].
  fold (sessions_of w). destruct (hasId id (sessions_of w)) eqn:Hid; [simpl; rewrite app_nil_r; by destruct w|].
  assert (mForwardMap (sessions_of w) !! id = None) as Hid'.
  { apply bool_decide_eq_false in Hid. by apply eq_None_not_Some. }
  assert (∀ r q e, entity_fits s e → mQueue q = mQueue (q_session (w_client w)) →
    world_ok (World (set_q_session (push r q) (set id s e (sessions_of w)) (w_client w))
      (w_asks w ++ [Ask FromSession s (Some r)]))) as Hok.
  { intros r q e He Hq. apply session_step_ok; try done.
    - apply agrees_set; [apply (ok_dict w Hw)|by left].
    - intros s' e'. simpl. rewrite lookup_insert_Some.
      intros [[<- <-]|[_ H]]; [done|by apply (ok_fits w Hw)].
    - intros s'. simpl. destruct (decide (s = s')) as [<-|Hne]; [done|]. rewrite lookup_insert_ne by done.
      apply (ok_apart w Hw).
    - intros a Ha. simpl. rewrite lookup_insert_ne; [done|]. intros ->. by apply (Hsa a Ha).
    - constructor; [|constructor]. unfold placed. simpl. rewrite lookup_insert_eq. by eexists.
    - by split; [intros _ b ?%not_elem_of_nil|].
    - intros a b Ha _ ->%list_elem_of_singleton E. by apply (Hsa a Ha).
    - by constructor.
    - simpl. by rewrite Hq. }
  destruct (m =? SESSION_MODE_ON_FIX) eqn:Em; apply Hok; try done; unfold entity_fits; simpl; by rewrite Em.
Qed.

Lemma stop_session_ok w id : world_ok w → orderly (StopSession id) w → world_ok (step (StopSession id) w).2.
Proof.
  intros Hw Hset. unfold step, act, locAPIStopSession.
  destruct (mLocationAPI (w_client w)); [|simpl; rewrite app_nil_r; by destruct w].
  fold (sessions_of w). destruct (hasId id (sessions_of w)) eqn:Hid; [|simpl; rewrite app_nil_r; by destruct w].
  destruct (known w id Hw Hid) as (s & e & Hs & _ & _ & Hf & ->). unfold entity_fits in Hf.
  destruct (sessionMode e =? SESSION_MODE_ON_FIX); destruct Hf as [-> _]; by apply (ask_known_ok w s _ id).
Qed.

Lemma get_batched_ok w id n : world_ok w → orderly (GetBatched id n) w → world_ok (step (GetBatched id n) w).2.
Proof.
  intros Hw Hset. unfold step, act, locAPIGetBatchedLocations.
  destruct (mLocationAPI (w_client w)); [|simpl; rewrite app_nil_r; by destruct w].
  fold (sessions_of w). destruct (hasId id (sessions_of w)) eqn:Hid; [|simpl; rewrite app_nil_r; by destruct w].
  destruct (known w id Hw Hid) as (s & e & Hs & _ & _ & Hf & ->). unfold entity_fits in Hf.
  destruct (sessionMode e =? SESSION_MODE_ON_FIX).
  - simpl. rewrite app_nil_r. destruct w as [[]]. done.
  - destruct Hf as [-> _]; by apply (ask_known_ok w s _ id).
Qed.

(** The entry of an id is replaced. *)
Section replaced.
Context (w : world) (Hw : world_ok w) (id s s' : Z) (e' : SessionEntity).
Context (Hs : mForwardMap (sessions_of w) !! id = Some s).
Context (Hs' : s' = s ∨ mBackwardMap (sessions_of w) !! s' = None) (He' : entity_fits s' e').
Context (Hap : s' ≠ mSession (q_tracking (w_client w)) ∧ s' ≠ mSession (q_ni (w_client w))).

Definition replaced : BiDict SessionEntity := set id s' e' (rmById id (sessions_of w)).

Lemma replaced_bwd x : mBackwardMap replaced !! x =
  if decide (x = s') then Some id else if decide (x = s) then None else mBackwardMap (sessions_of w) !! x.
Proof.
  unfold replaced, rmById. rewrite Hs. simpl. destruct (decide (x = s')) as [->|H1]; [by rewrite lookup_insert_eq|].
  rewrite lookup_insert_ne by done. destruct (decide (x = s)) as [->|H2]; [by rewrite lookup_delete_eq|].
  by rewrite lookup_delete_ne.
Qed.

Lemma replaced_agrees : agrees replaced.
Proof.
  pose proof (ok_dict w Hw) as Hd. apply agrees_set; [by apply (agrees_rmById _ s)|]. left. unfold rmById. rewrite Hs.
  simpl. rewrite lookup_delete_eq. split; [done|]. apply lookup_delete_None. naive_solver.
Qed.

Lemma replaced_fits x e : mExtMap replaced !! x = Some e → entity_fits x e.
Proof.
  unfold replaced, rmById. simpl. rewrite lookup_insert_Some, lookup_delete_Some.
  intros [[<- <-]|(_ & _ & He)]; [done|by apply (ok_fits w Hw)].
Qed.

Lemma replaced_apart x : is_Some (mBackwardMap replaced !! x) →
  x ≠ mSession (q_tracking (w_client w)) ∧ x ≠ mSession (q_ni (w_client w)).
Proof.
  rewrite replaced_bwd. destruct (decide (x = s')) as [->|]; [done|]. case_decide; [by intros [? ?]|].
  apply (ok_apart w Hw).
Qed.
End replaced.

Lemma update_same_ok w id s e' r q : world_ok w → mForwardMap (sessions_of w) !! id = Some s → settled id w →
  entity_fits s e' → mQueue q = mQueue (q_session (w_client w)) →
  world_ok (World (set_q_session (push r q) (replaced w id s e') (w_client w))
    (w_asks w ++ [Ask FromSession s (Some r)])).
Proof.
  intros Hw Hs Hset He' Hq. pose proof (proj1 (ag_inv _ (ok_dict w Hw) _ _) Hs) as Hb.
  assert (s ≠ mSession (q_tracking (w_client w)) ∧ s ≠ mSession (q_ni (w_client w))) as Hap.
  { apply (ok_apart w Hw). by eexists. }
  apply session_step_ok; try done.
  - apply (replaced_agrees w Hw id s s); try done; by left.
  - by apply replaced_fits.
  - by apply (replaced_apart w Hw id s s).
  - intros a Ha. rewrite (replaced_bwd w id s s) by done.
    destruct (decide (a_session a = s)) as [->|]; [|done]. rewrite Hb. split; by eexists.
  - constructor; [|constructor]. unfold placed. cbn [a_told a_source a_session].
    cbn [set_q_session mSessionBiDict]. rewrite (replaced_bwd w id s s) by done.
    destruct (decide (s = s)); [by eexists|done].
  - by split; [intros _ b ?%not_elem_of_nil|].
  - intros a b Ha He ->%list_elem_of_singleton E. simpl in E. unfold ends in He.
    apply andb_true_iff in He as [_ He]. rewrite (Hset s a Hs Ha) in He; [done|congruence].
  - by constructor.
  - simpl. by rewrite Hq.
Qed.

Lemma update_other_ok w id s s' e' r q : world_ok w → mForwardMap (sessions_of w) !! id = Some s →
  fresh s' w → idle s w → entity_fits s' e' → mQueue q = mQueue (q_session (w_client w)) ++ [r] →
  world_ok (World (set_q_session q (replaced w id s' e') (w_client w))
    (w_asks w ++ [Ask FromSession s None; Ask FromSession s' (Some r)])).
Proof.
  intros Hw Hs (H0 & Ht & Hn & Hb & Ha) Hidle He' Hq.
  pose proof (proj1 (ag_inv _ (ok_dict w Hw) _ _) Hs) as Hbs.
  assert (s ≠ s') as Hne by congruence.
  destruct (ok_apart w Hw s) as [Hst Hsn]; [by eexists|].
  apply session_step_ok; try done.
  - apply (replaced_agrees w Hw id s s'); try done; by right.
  - by apply replaced_fits.
  - by apply (replaced_apart w Hw id s s').
  - intros a Hin. rewrite (replaced_bwd w id s s') by done.
    rewrite decide_False by (by apply Ha). by rewrite decide_False by (by apply Hidle).
  - constructor; [|constructor; [|constructor]]; unfold placed; cbn [a_told a_source a_session set_q_session mSessionBiDict q_tracking q_ni];
      rewrite (replaced_bwd w id s s') by done.
    + rewrite decide_False, decide_True by done. done.
    + rewrite decide_True by done. by eexists.
  - split; [done|]. by split; [intros _ b ?%not_elem_of_nil|].
  - intros a b Hin _ Hb2 E. rewrite !elem_of_cons, elem_of_nil in Hb2. destruct Hb2 as [->|[->|[]]].
    + by apply (Hidle a Hin).
    + by apply (Ha a Hin).
  - by repeat constructor.
Qed.

Lemma update_session_ok w id m o s : world_ok w → orderly (UpdateSession id m o s) w →
  world_ok (step (UpdateSession id m o s) w).2.
Proof.
  intros Hw (Hf & Hset & Hidle). unfold step, act, locAPIUpdateSessionOptions.
  destruct (mLocationAPI (w_client w)); [|simpl; rewrite app_nil_r; by destruct w].
  fold (sessions_of w). destruct (hasId id (sessions_of w)) eqn:Hid; [|simpl; rewrite app_nil_r; by destruct w].
  destruct (known w id Hw Hid) as (s0 & e & Hs & _ & Hext & Hfit & ->).
  specialize (Hidle s0 e Hs Hext). unfold entity_fits in Hfit. unfold update_calls.
  destruct (m =? SESSION_MODE_ON_FIX) eqn:Em, (sessionMode e =? SESSION_MODE_ON_FIX) eqn:Ee;
    destruct Hfit as [E0 Hpos]; cbv beta iota zeta; rewrite ?E0;
    unfold asks_of; cbn [calls_of omap list_omap natural]; cbv beta iota; rewrite ?Em; cbn [supersede].
  - apply (update_same_ok w id s0); try done. by split; [cbn; rewrite Em|].
  - apply (update_other_ok w id s0); try done; [by apply Hidle|]. split; [cbn; by rewrite Em|apply Hf].
  - apply (update_other_ok w id s0); try done; [by apply Hidle|]. split; [cbn; by rewrite Em|apply Hf].
  - apply (update_same_ok w id s0); try done. by split; [cbn; rewrite Em|].
Qed.

(** What superseding leaves. *)
Definition superseded (src : source) (l : list ask) : list ask :=
  (λ a, if decide (a_source a = src) then Ask src (a_session a) None else a) <$> l.

Lemma told_from_cons src a l : told_from src (a :: l) =
  match (if decide (a_source a = src) then a_told a else None) with
  | Some r => r :: told_from src l
  | None => told_from src l
  end.
Proof. done. Qed.

Lemma superseded_cons src a l : superseded src (a :: l) =
  (if decide (a_source a = src) then Ask src (a_session a) None else a) :: superseded src l.
Proof. done. Qed.

Lemma told_from_superseded src src' l :
  told_from src' (superseded src l) = if decide (src = src') then [] else told_from src' l.
Proof.
  induction l as [|a l IH]; [by destruct (decide (src = src'))|].
  rewrite superseded_cons, !told_from_cons, IH. destruct (decide (a_source a = src)) as [E|E]; cbn [a_source a_told].
  - rewrite E. by destruct (decide (src = src')).
  - destruct (decide (src = src')) as [->|Hne]; [by rewrite decide_False|done].
Qed.

Lemma elem_of_superseded src l a : a ∈ superseded src l → ∃ a0, a0 ∈ l ∧ a_session a = a_session a0 ∧
  (a = a0 ∧ a_source a0 ≠ src ∨ a = Ask src (a_session a0) None ∧ a_source a0 = src).
Proof.
  intros (a0 & -> & Ha)%list_elem_of_fmap. exists a0. case_decide; auto.
Qed.

Lemma sequenced_superseded src l : src ≠ FromSession → sequenced l → sequenced (superseded src l).
Proof.
  intros Hsrc. induction l as [|a l IH]; [done|]. intros [Ha Hl]. rewrite superseded_cons. split; [|by apply IH].
  intros He b (b0 & Hb0 & Hb & _)%elem_of_superseded. rewrite Hb.
  case_decide; [by unfold ends in He; simpl in He; rewrite bool_decide_false in He|by apply Ha].
Qed.

Lemma sequenced_snoc l a : sequenced l → a_source a ≠ FromSession →
  (∀ b, b ∈ l → ends b = true → a_session a ≠ a_session b) → sequenced (l ++ [a]).
Proof.
  intros Hl Ha Hb. apply sequenced_app; [done| |].
  - by split; [intros _ b ?%not_elem_of_nil|].
  - intros b c Hin He ->%list_elem_of_singleton. by apply Hb.
Qed.

(** What superseding makes of the place of a call: the queue of [src] has
    another number. *)
Lemma placed_superseded c c' src l : Forall (placed c) l → src ≠ FromSession → mSessionBiDict c' = mSessionBiDict c →
  (∀ a, a ∈ l → a_session a ≠ mSession (q_tracking c') ∨ src = FromNi) →
  (∀ a, a ∈ l → a_session a ≠ mSession (q_ni c') ∨ src = FromTracking) →
  (src = FromNi → mSession (q_tracking c') = mSession (q_tracking c)) →
  (src = FromTracking → mSession (q_ni c') = mSession (q_ni c)) →
  (∀ a, a ∈ l → a_source a = src → is_Some (a_told a) →
     mBackwardMap (mSessionBiDict c) !! a_session a = None ∧
     a_session a ≠ mSession (q_tracking c') ∧ a_session a ≠ mSession (q_ni c')) →
  Forall (placed c') (superseded src l).
Proof.
  intros Hl Hsrc Hd Ht Hn Ekt Ekn Hold. apply Forall_forall.
  intros a (a0 & Ha0 & _ & Ha)%elem_of_superseded. rewrite Forall_forall in Hl. specialize (Hl a0 Ha0).
  specialize (Ht a0 Ha0). specialize (Hn a0 Ha0). specialize (Hold a0 Ha0). revert Hl. unfold placed.
  destruct Ha as [[-> Hne]|[-> He]]; cbn [a_told a_source a_session]; rewrite Hd.
  - destruct (a_told a0), (a_source a0), src; try done; intuition congruence.
  - rewrite He. destruct (a_told a0) eqn:Er; [intros _; by apply Hold|]. destruct src; intuition congruence.
Qed.

Lemma start_tracking_ok w o s : world_ok w → orderly (StartTracking o s) w → world_ok (step (StartTracking o s) w).2.
Proof.
  intros Hw (Hs0 & Hst & Hsn & Hsb & Hsa). unfold step, act, locAPIStartTracking.
  destruct (mLocationAPI (w_client w)); [|simpl; rewrite app_nil_r; by destruct w].
  destruct (mTracking (w_client w)); [simpl; rewrite app_nil_r; by destruct w|].
  destruct Hw as [O1 O2 O3 O4 O5 O6 O7 O8 O9]. cbn [asks_of calls_of omap list_omap natural fmap list_fmap supersede].
  fold (superseded FromTracking (w_asks w)).
  split; cbn [snd w_client w_asks sessions_of set_q_tracking q_tracking q_session q_ni mSessionBiDict push reset
    mSession mQueue]; try done.
  - intros x Hx. destruct (O3 x Hx) as [_ Hx2]. split; [|done]. intros ->. unfold sessions_of in Hsb.
    rewrite Hsb in Hx. by destruct Hx.
  - apply Forall_app. split.
    + apply (placed_superseded (w_client w)); try done; simpl; auto.
      * intros a Ha Hsrc [r Hr]. rewrite Forall_forall in O5. specialize (O5 a Ha). unfold placed in O5.
        rewrite Hr, Hsrc in O5. destruct O5 as [E Hpos]. split; [|split; [by apply Hsa|rewrite E; apply O4; lia]].
        apply eq_None_not_Some. intros Hx. apply (proj1 (O3 _ Hx) E).
    + constructor; [|constructor]. unfold placed. simpl. done.
  - apply sequenced_snoc; [by apply sequenced_superseded|done|].
    intros b (b0 & Hb0 & -> & _)%elem_of_superseded _ E. by apply (Hsa b0 Hb0).
  - by rewrite told_from_app, told_from_superseded.
  - by rewrite told_from_app, told_from_superseded, app_nil_r.
  - by rewrite told_from_app, told_from_superseded, app_nil_r.
Qed.

Lemma ni_response_ok w id r : world_ok w → orderly (NiResponse id r) w → world_ok (step (NiResponse id r) w).2.
Proof.
  intros Hw (Hs0 & Hst & Hsn & Hsb & Hsa). unfold step, act, locAPIGnssNiResponse.
  destruct (mLocationAPI (w_client w)); [|simpl; rewrite app_nil_r; by destruct w].
  destruct Hw as [O1 O2 O3 O4 O5 O6 O7 O8 O9]. cbn [asks_of calls_of omap list_omap natural fmap list_fmap supersede].
  fold (superseded FromNi (w_asks w)).
  split; cbn [snd w_client w_asks sessions_of set_q_ni q_tracking q_session q_ni mSessionBiDict push reset
    mSession mQueue]; try done.
  - intros x Hx. destruct (O3 x Hx) as [Hx2 _]. split; [done|]. intros ->. unfold sessions_of in Hsb.
    rewrite Hsb in Hx. by destruct Hx.
  - apply Forall_app. split.
    + apply (placed_superseded (w_client w)); try done; simpl; auto.
      * intros a Ha Hsrc [r' Hr]. rewrite Forall_forall in O5. specialize (O5 a Ha). unfold placed in O5.
        rewrite Hr, Hsrc in O5. destruct O5 as [E Hpos]. split; [|split; [|by apply Hsa]].
        -- apply eq_None_not_Some. intros Hx. apply (proj2 (O3 _ Hx) E).
        -- intros E2. rewrite E in E2. apply O4; [rewrite <- E2, <- E; done|done].
    + constructor; [|constructor]. unfold placed. simpl. done.
  - apply sequenced_snoc; [by apply sequenced_superseded|done|].
    intros b (b0 & Hb0 & -> & _)%elem_of_superseded _ E. by apply (Hsa b0 Hb0).
  - by rewrite told_from_app, told_from_superseded, app_nil_r.
  - by rewrite told_from_app, told_from_superseded, app_nil_r.
  - by rewrite told_from_app, told_from_superseded.
Qed.

(** A stop or an update of the tracking session. *)
Lemma on_tracking_ok w r t : world_ok w → 0 < mSession (q_tracking (w_client w)) →
  world_ok (World (set_q_tracking (push r (q_tracking (w_client w))) t (w_client w))
    (w_asks w ++ [Ask FromTracking (mSession (q_tracking (w_client w))) (Some r)])).
Proof.
  intros [O1 O2 O3 O4 O5 O6 O7 O8 O9] Hpos.
  split; cbn [w_client w_asks sessions_of set_q_tracking q_tracking q_session q_ni mSessionBiDict push
    mSession mQueue]; try done.
  - apply Forall_app. split; [by apply O5|]. constructor; [|constructor]. by unfold placed.
  - apply sequenced_snoc; [done|done|]. intros b Hb He E. unfold ends in He.
    apply andb_true_iff in He as [Hsrc%bool_decide_eq_true Hdec].
    rewrite Forall_forall in O5. specialize (O5 b Hb). unfold placed in O5. rewrite Hsrc in O5.
    destruct (a_told b); [|done]. by destruct (O3 _ O5).
  - by rewrite told_from_app, O7.
  - by rewrite told_from_app, app_nil_r.
  - by rewrite told_from_app, app_nil_r.
Qed.

Lemma on_tracking_steps_ok w o : world_ok w → o = StopTracking ∨ (∃ p, o = UpdateTracking p) → world_ok (step o w).2.
Proof.
  intros Hw [->|[p ->]]; unfold step, act, locAPIStopTracking, locAPIUpdateTrackingOptions.
  all: destruct (mLocationAPI (w_client w)); [|simpl; rewrite app_nil_r; by destruct w].
  all: destruct (0 <? mSession (q_tracking (w_client w))) eqn:E; [|simpl; rewrite app_nil_r; by destruct w].
  all: apply Z.ltb_lt in E; by apply on_tracking_ok.
Qed.

(** *** Sessions that end *)

(** The dictionary loses sessions of which nothing is waited for. *)
Lemma shrink_ok w d : world_ok w → agrees d →
  (∀ s e, mExtMap d !! s = Some e → mExtMap (sessions_of w) !! s = Some e) →
  (∀ s, is_Some (mBackwardMap d !! s) → is_Some (mBackwardMap (sessions_of w) !! s)) →
  (∀ s, is_Some (mBackwardMap (sessions_of w) !! s) → mBackwardMap d !! s = None → idle s w) →
  world_ok (World (set_q_session (q_session (w_client w)) d (w_client w)) (w_asks w)).
Proof.
  intros Hw Hd He Hb Hidle. rewrite <- (app_nil_r (w_asks w)). apply session_step_ok; try done.
  - intros s e H. by apply (ok_fits w Hw), He.
  - intros s H. by apply (ok_apart w Hw), Hb.
  - intros a Ha. split; [by apply Hb|]. intros H. destruct (mBackwardMap d !! a_session a) eqn:E; [by eexists|].
    by destruct (Hidle _ H E a Ha).
  - by intros a b _ _ ?%not_elem_of_nil.
  - by rewrite app_nil_r.
Qed.

Lemma rm_smaller {T} i s (d : BiDict T) : agrees d → mBackwardMap d !! s = Some i → agrees (rmBySession s d) ∧
  (∀ x e, mExtMap (rmBySession s d) !! x = Some e → mExtMap d !! x = Some e) ∧
  (∀ x, mBackwardMap (rmBySession s d) !! x = if decide (x = s) then None else mBackwardMap d !! x).
Proof.
  intros Hd Hs. split; [by apply (agrees_rmBySession i), (ag_inv d Hd)|]. split.
  - intros x e. simpl. rewrite lookup_delete_Some. tauto.
  - intros x. simpl. case_decide; [subst; apply lookup_delete_eq|by apply lookup_delete_ne].
Qed.

Lemma remove_call_ok w s : world_ok w → (∀ a, a ∈ w_asks w → a_source a = FromSession → is_Some (a_told a) → a_session a ≠ s) →
  world_ok (World (removeSession s (w_client w)) (w_asks w)).
Proof.
  intros Hw Hno. unfold removeSession. fold (sessions_of w).
  destruct (hasSession s (sessions_of w)) eqn:Hs; [|by destruct w].
  destruct (in_dict w s Hw Hs) as [Ht Hn]. apply bool_decide_eq_true in Hs as [i Hi].
  destruct (rm_smaller i s _ (ok_dict w Hw) Hi) as (Hd & He & Hb).
  apply shrink_ok; [done|done|done| |].
  - intros x. rewrite Hb. case_decide; [by intros [? ?]|done].
  - intros x Hx. rewrite Hb. case_decide as E; [|intros E2; rewrite E2 in Hx; by destruct Hx]. intros _ a Ha Ea.
    pose proof (proj1 (Forall_forall _ _) (ok_placed w Hw) a Ha) as Hp. unfold placed in Hp. fold (sessions_of w) in Hp.
    rewrite Ea, E in Hp. destruct (a_told a) eqn:Er; [|destruct Hp; congruence].
    destruct (a_source a) eqn:Es; [naive_solver| |naive_solver]. apply (Hno a Ha Es); [by rewrite Er|congruence].
Qed.

Lemma complete_trips_smaller l : ∀ d : BiDict SessionEntity, agrees d → agrees (complete_trips l d).2 ∧
  (∀ x e, mExtMap (complete_trips l d).2 !! x = Some e → mExtMap d !! x = Some e) ∧
  (∀ x, is_Some (mBackwardMap (complete_trips l d).2 !! x) → is_Some (mBackwardMap d !! x)) ∧
  (∀ x, x ∉ l → mBackwardMap (complete_trips l d).2 !! x = mBackwardMap d !! x).
Proof.
  induction l as [|s l IH]; intros d Hd; [done|]. cbn [complete_trips].
  assert (∀ x, ¬ (x ∈ s :: l) → ¬ (x ∈ l) ∧ x ≠ s) as Hnot by (intros x; rewrite elem_of_cons; tauto).
  destruct (hasSession s d) eqn:Hs; [|destruct (IH d Hd) as (? & ? & ? & H4); split_and!; try done;
    intros x [Hx _]%Hnot; by apply H4].
  destruct (sessionMode _ =? _); [|destruct (IH d Hd) as (? & ? & ? & H4); split_and!; try done;
    intros x [Hx _]%Hnot; by apply H4].
  apply bool_decide_eq_true in Hs as [i Hi]. destruct (rm_smaller i s d Hd Hi) as (Hd' & He & Hb).
  destruct (IH _ Hd') as (H1 & H2 & H3 & H4). destruct (complete_trips l (rmBySession s d)) as [ids d']. simpl in *.
  split; [done|]. split; [intros x e Hx; by apply He, H2|]. split.
  - intros x Hx%H3. rewrite Hb in Hx. case_decide; [by destruct Hx|done].
  - intros x [Hx Hxs]%Hnot. rewrite H4 by done. rewrite Hb. by rewrite decide_False.
Qed.

Lemma trips_ok w l : world_ok w → orderly (TripsCompleted l) w → world_ok (step (TripsCompleted l) w).2.
Proof.
  intros Hw Hidle. unfold step, act, beforeBatchingStatusCb. rewrite Z.eqb_refl. fold (sessions_of w).
  destruct (complete_trips_smaller l (sessions_of w) (ok_dict w Hw)) as (H1 & H2 & H3 & H4).
  destruct (complete_trips l (sessions_of w)) as [ids d]. simpl in *. rewrite app_nil_r.
  apply shrink_ok; [done|done|done|done|]. intros s Hs Hn. destruct (decide (s ∈ l)) as [Hin|Hin]; [by apply Hidle|].
  rewrite H4 in Hn by done. rewrite Hn in Hs. by destruct Hs.
Qed.

(** *** Answers *)
Definition callback_of (r : request) (e : LocationError) : list output :=
  match r with
  | StartTrackingRequest => [Told (OnStartTracking e)]
  | StopTrackingRequest => [Told (OnStopTracking e)]
  | UpdateTrackingOptionsRequest => [Told (OnUpdateTrackingOptions e)]
  | StartBatchingRequest => [Told (OnStartBatching e)]
  | StopBatchingRequest => [Told (OnStopBatching e)]
  | UpdateBatchingOptionsRequest => [Told (OnUpdateBatchingOptions e)]
  | GetBatchedLocationsRequest => [Told (OnGetBatchedLocations e)]
  | GnssNiResponseRequest => [Told (OnGnssNiResponse e)]
  | _ => []
  end.

Definition expected (a : ask) (e : LocationError) : list output :=
  match a_told a with Some r => callback_of r e | None => [] end.

Lemma onResponse_cases r e s c : onResponse r e s c = (callback_of r e, c) ∨
  (decides (Some r) = true ∧ onResponse r e s c = (callback_of r e, removeSession s c)).
Proof. destruct r; simpl; try (by left); destruct (bool_decide _); simpl; auto. Qed.

Lemma removeSession_absent s c : hasSession s (mSessionBiDict c) = false → removeSession s c = c.
Proof. unfold removeSession. by intros ->. Qed.

Lemma onResponse_absent r e s c : hasSession s (mSessionBiDict c) = false → onResponse r e s c = (callback_of r e, c).
Proof.
  intros Hs. destruct (onResponse_cases r e s c) as [E|[_ E]]; [done|]. by rewrite E, removeSession_absent.
Qed.

Lemma absent_none (w : world) s : mBackwardMap (sessions_of w) !! s = None → hasSession s (sessions_of w) = false.
Proof. intros E. apply bool_decide_eq_false. by apply eq_None_not_Some. Qed.

(** A number of a queue is not in the dictionary. *)
Lemma absent_queue w s : world_ok w → s = mSession (q_tracking (w_client w)) ∨ s = mSession (q_ni (w_client w)) →
  hasSession s (sessions_of w) = false.
Proof.
  intros Hw Hs. apply not_true_iff_false. intros Hh. pose proof (in_dict w s Hw Hh). naive_solver.
Qed.

Lemma sequenced_drop l1 a l2 : sequenced (l1 ++ a :: l2) → sequenced (l1 ++ l2).
Proof.
  induction l1 as [|b l1 IH]; [by intros [_ H]|]. intros [Hb Hl]. split; [|by apply IH].
  intros He c Hc. apply Hb; [done|]. set_solver.
Qed.

Lemma sequenced_behind l1 a l2 : sequenced (l1 ++ a :: l2) → ends a = true → ∀ b, b ∈ l2 → a_session b ≠ a_session a.
Proof. induction l1 as [|b l1 IH]; [by intros [H _]|]. intros [_ Hl]. by apply IH. Qed.

(** What remains when a call is answered, the queue of its source taken care of. *)
Lemma rest_ok c c' l1 a l2 : world_ok (World c (l1 ++ a :: l2)) → mSessionBiDict c' = mSessionBiDict c →
  mSession (q_tracking c') = mSession (q_tracking c) → mSession (q_ni c') = mSession (q_ni c) →
  mQueue (q_tracking c') = told_from FromTracking (l1 ++ l2) →
  mQueue (q_session c') = told_from FromSession (l1 ++ l2) →
  mQueue (q_ni c') = told_from FromNi (l1 ++ l2) → world_ok (World c' (l1 ++ l2)).
Proof.
  intros [O1 O2 O3 O4 O5 O6 _ _ _] Hd Ht Hn H1 H2 H3. unfold sessions_of in *. cbn [w_client w_asks] in *.
  apply sequenced_drop in O6. apply Forall_app in O5 as [O5 [_ O5']%Forall_cons].
  split; unfold sessions_of; cbn [w_client w_asks]; rewrite ?Hd, ?Ht, ?Hn; try done.
  apply (Forall_impl (placed c)); [by apply Forall_app|]. intros b. unfold placed. by rewrite Hd, Ht, Hn.
Qed.

(** The queue of a source when one of its calls is answered in its turn, and
    that of another. *)
Lemma told_from_turn src l1 a l2 r : a_told a = Some r → a_source a = src →
  (∀ b, b ∈ l1 → is_Some (a_told b) → a_source b ≠ src) →
  told_from src (l1 ++ a :: l2) = r :: told_from src (l1 ++ l2).
Proof.
  intros Hr Hs Hb. rewrite !told_from_app, told_from_cons, decide_True, Hr by done.
  assert (told_from src l1 = []) as ->; [|done].
  induction l1 as [|b l1 IH]; [done|]. rewrite told_from_cons. rewrite IH by (intros; apply Hb; [by right|done]).
  destruct (decide (a_source b = src)) as [E|]; [|done]. destruct (a_told b) eqn:Eb; [|done].
  exfalso. apply (Hb b); [by left|by rewrite Eb|done].
Qed.

Lemma told_from_skip src l1 a l2 : a_told a = None ∨ a_source a ≠ src →
  told_from src (l1 ++ a :: l2) = told_from src (l1 ++ l2).
Proof.
  intros Ha. rewrite !told_from_app, told_from_cons. f_equal. case_decide; [|done].
  by destruct Ha as [->|].
Qed.

Lemma answer_told c l1 a l2 e : world_ok (World c (l1 ++ a :: l2)) →
  (is_Some (a_told a) → ∀ b, b ∈ l1 → is_Some (a_told b) → a_source b ≠ a_source a) →
  ∃ c', onResponseCb e (a_session a) c = (expected a e, c') ∧ world_ok (World c' (l1 ++ l2)).
Proof.
  intros Hw Hturn. pose proof (ok_placed _ Hw) as Hp. apply Forall_app in Hp as [_ [Hp _]%Forall_cons].
  pose proof (ok_tracking _ Hw) as Ht. pose proof (ok_session _ Hw) as Hs. pose proof (ok_ni _ Hw) as Hn.
  cbn [w_client w_asks] in *.
  unfold placed in Hp. unfold expected, onResponseCb, getRequestBySession. revert Hp Ht Hs Hn.
  destruct (a_told a) as [r|] eqn:Er; [specialize (Hturn (mk_is_Some _ _ eq_refl)); destruct (a_source a) eqn:Es|].
  - intros [E Hpos] Ht Hs Hn. rewrite (told_from_turn _ _ _ _ r) in Ht by done.
    rewrite told_from_skip in Hs, Hn by (right; congruence). rewrite <- E, Z.eqb_refl. unfold pop. rewrite Ht.
    cbn [head tail]. cbv beta iota zeta. rewrite onResponse_absent; [|apply (absent_queue _ _ Hw); by left].
    eexists. split; [done|]. by apply (rest_ok c _ l1 a l2).
  - intros Hb Ht Hs Hn. rewrite (told_from_turn _ _ _ _ r) in Hs by done.
    rewrite told_from_skip in Ht, Hn by (right; congruence).
    destruct (ok_apart _ Hw _ Hb) as [Hnt Hnn]. cbn in Hnt, Hnn.
    rewrite (proj2 (Z.eqb_neq _ _) (not_eq_sym Hnt)), (proj2 (Z.eqb_neq _ _) (not_eq_sym Hnn)).
    unfold hasSession at 1. rewrite bool_decide_true by done. unfold pop. rewrite Hs. cbn [head tail]. cbv beta iota zeta.
    set (c1 := set_q_session _ _ c).
    assert (world_ok (World c1 (l1 ++ l2))) as Hw1 by by apply (rest_ok c _ l1 a l2).
    destruct (onResponse_cases r e (a_session a) c1) as [E|[Hdec E]]; rewrite E; [by exists c1|].
    eexists. split; [done|]. apply (remove_call_ok (World c1 (l1 ++ l2))); [done|]. intros b Hb2 Hsrc Htold.
    apply elem_of_app in Hb2 as [Hb2|Hb2]; [by destruct (Hturn b Hb2 Htold)|].
    apply (sequenced_behind l1 a l2 (ok_seq _ Hw)); [|done]. unfold ends. by rewrite Es, Er, Hdec.
  - intros [E Hpos] Ht Hs Hn. rewrite (told_from_turn _ _ _ _ r) in Hn by done.
    rewrite told_from_skip in Ht, Hs by (right; congruence).
    assert (mSession (q_tracking c) ≠ a_session a) as Hnt.
    { intros E2. pose proof (ok_other _ Hw) as Ho. cbn in Ho. rewrite E2 in Ho. by apply Ho. }
    rewrite (proj2 (Z.eqb_neq _ _) Hnt), <- E, Z.eqb_refl. unfold pop. rewrite Hn. cbn [head tail]. cbv beta iota zeta.
    rewrite onResponse_absent; [|apply (absent_queue _ _ Hw); by right].
    eexists. split; [done|]. by apply (rest_ok c _ l1 a l2).
  - intros (Hb & Hnt & Hnn) Ht Hs Hn. rewrite told_from_skip in Ht, Hs, Hn by by left.
    rewrite (proj2 (Z.eqb_neq _ _) (not_eq_sym Hnt)), (proj2 (Z.eqb_neq _ _) (not_eq_sym Hnn)).
    pose proof (absent_none (World c (l1 ++ a :: l2)) _ Hb) as Habs. unfold sessions_of in Habs. cbn [w_client] in Habs.
    rewrite Habs. exists c. split; [done|]. by apply (rest_ok c _ l1 a l2).
Qed.

(** The step of an answer in its turn. *)
Lemma answer_step w n a e : world_ok w → w_asks w !! n = Some a → in_turn n (w_asks w) →
  (step (Answer n e) w).1 = expected a e ∧ w_asks (step (Answer n e) w).2 = delete n (w_asks w) ∧
  world_ok (step (Answer n e) w).2.
Proof.
  destruct w as [c asks]. cbn [w_asks]. intros Hw Ha (a' & Ha' & Hturn). rewrite Ha in Ha'. injection Ha' as <-.
  unfold step, act. cbn [w_asks w_client]. rewrite Ha, delete_take_drop.
  pose proof (take_drop_middle _ _ _ Ha) as E. rewrite <- E in Hw.
  destruct (answer_told c _ a _ e Hw) as (c' & -> & Hok).
  { intros Ht b Hb Htb. apply list_elem_of_lookup in Hb as [m Hb].
    apply lookup_take_Some in Hb as [Hb Hm]. by apply (Hturn Ht m b). }
  assert (calls_of (expected a e) = []) as Hc by (unfold expected; by destruct (a_told a) as [[]|]).
  unfold asks_of. rewrite Hc. simpl. by rewrite app_nil_r.
Qed.

Lemma step_ok w o : world_ok w → orderly o w → world_ok (step o w).2.
Proof.
  intros Hw Ho. destruct o.
  - by apply start_tracking_ok.
  - apply on_tracking_steps_ok; [done|by left].
  - apply on_tracking_steps_ok; [done|right; by eexists].
  - by apply start_session_ok.
  - by apply stop_session_ok.
  - by apply update_session_ok.
  - by apply get_batched_ok.
  - by apply ni_response_ok.
  - by apply trips_ok.
  - destruct Ho as (a & Ha & Ht). by apply (answer_step w n a error Hw Ha); exists a.
Qed.

Definition start (breach status : bool) : world := World (locAPISetCallbacks breach status true new_client).2 [].

Lemma reachable_ok breach status w : reachable (start breach status) w → world_ok w.
Proof.
  induction 1 as [|o w _ IH Ho]; [|by apply step_ok].
  split; unfold sessions_of; simpl; try done.
  - apply agrees_new.
  - intros s. rewrite lookup_empty. by intros [? ?].
Qed.

(** C19: Suppose that the framework waits for the answer to a start or a stop
    of a session before it does anything else with it, and for all its answers
    before it changes between tracking and batching; that a trip is completed
    only while no answer about it is waited for; that the numbers the API
    hands out are not in use; and that the answers about the sessions of the
    client come in the order of its calls, as do those about the tracking
    session and those to responses to the network, each kind for itself
    (answers about sessions that cross are swapped, see the findings). Then
    every answer goes to the callback of the call that it answers, however the
    kinds are mixed: nothing is told for a call that the client makes on its
    own account or whose session was replaced, and these answers come at any
    time; and the ids and the sessions stay a bijection. *)
Theorem answers_reach_their_calls breach status w n a e :
  reachable (start breach status) w → w_asks w !! n = Some a → in_turn n (w_asks w) →
  (step (Answer n e) w).1 = expected a e ∧ w_asks (step (Answer n e) w).2 = delete n (w_asks w) ∧
  agrees (sessions_of (step (Answer n e) w).2).
Proof.
  intros Hw%reachable_ok Ha Ht. destruct (answer_step w n a e Hw Ha Ht) as (H1 & H2 & H3).
  split; [done|]. split; [done|]. apply (ok_dict _ H3).
Qed.

(** ** Fences: a table of the framework's ids *)

(** The session and the mask of each id, and the collective answers that are
    waited for; of a removal, the ids of the sessions. *)
Inductive wait := WAdd | WRemove (removed : gmap Z Z) | WModify | WPause | WResume.

Record table := Table { t_fences : gmap Z (Z * Z); t_waits : list wait }.

Inductive gop :=
  | GAdd (fences : list (Z * GeofenceOption * Z)) (sessions : option (list Z))
  | GRemove (ids : list Z)
  | GModify (l : list (Z * GeofenceOption))
  | GPause (ids : list Z)
  | GResume (l : list (Z * option Z))
  | GBreach (type : Z) (sessions : list Z)
  | GAnswer (l : list (LocationError * Z))
  | GNoMemory (o : gop).

(** [GNoMemory]: the same while [malloc] fails, in the calls that use it. *)
Definition gact (o : gop) (c : client) : list output * client :=
  match o with
  | GNoMemory (GRemove ids) => locAPIRemoveGeofences true ids c
  | GNoMemory (GModify l) => locAPIModifyGeofences true l c
  | GNoMemory (GPause ids) => locAPIPauseGeofences true ids c
  | GNoMemory (GResume l) => locAPIResumeGeofences true l c
  | GNoMemory (GBreach type ss) => (beforeGeofenceBreachCb true type ss c, c)
  | GNoMemory _ => ([], c)
  | GAdd fences ss => let '(_, out, c) := locAPIAddGeofences fences ss c in (out, c)
  | GRemove ids => locAPIRemoveGeofences false ids c
  | GModify l => locAPIModifyGeofences false l c
  | GPause ids => locAPIPauseGeofences false ids c
  | GResume l => locAPIResumeGeofences false l c
  | GBreach type ss => (beforeGeofenceBreachCb false type ss c, c)
  | GAnswer l => onCollectiveResponseCb l c
  end.

Fixpoint add_fences (l : list (Z * GeofenceOption)) (ss : list Z) (m : gmap Z (Z * Z)) : gmap Z (Z * Z) :=
  match l, ss with
  | (i, o) :: l, s :: ss => add_fences l ss (<[i := (s, breachTypeMask o)]> m)
  | _, _ => m
  end.

(** The fences of some ids: taken out, or with new masks. *)
Fixpoint take_fences (ids : list Z) (m : gmap Z (Z * Z)) : list (Z * Z) * gmap Z (Z * Z) :=
  match ids with
  | [] => ([], m)
  | i :: ids =>
      match m !! i with
      | Some (s, _) => let '(l, m) := take_fences ids (delete i m) in ((s, i) :: l, m)
      | None => take_fences ids m
      end
  end.

Fixpoint touch_fences (l : list (Z * option Z)) (m : gmap Z (Z * Z)) : list Z * gmap Z (Z * Z) :=
  match l with
  | [] => ([], m)
  | (i, mask) :: l =>
      match m !! i with
      | Some (s, k) => let '(ss, m) := touch_fences l (<[i := (s, default k mask)]> m) in (s :: ss, m)
      | None => touch_fences l m
      end
  end.

Definition owner (s : Z) (m : gmap Z (Z * Z)) : option (Z * Z) :=
  (λ x : Z * (Z * Z), (x.1, x.2.2)) <$> List.find (λ x : Z * (Z * Z), x.2.1 =? s) (map_to_list m).

Definition when {A} (l : list A) (b : api_call) (w : wait) (ws : list wait) : list output * list wait :=
  match l with [] => ([], ws) | _ => ([Api b], ws ++ [w]) end.

Definition answer_of (w : wait) (m : gmap Z (Z * Z)) (l : list (LocationError * Z)) : callback :=
  let own := (λ x : LocationError * Z, (x.1, default 0 (fst <$> owner x.2 m))) <$> l in
  match w with
  | WAdd => OnAddGeofences own
  | WRemove removed => OnRemoveGeofences ((λ x : LocationError * Z, (x.1, default 0 (removed !! x.2))) <$> l)
  | WModify => OnModifyGeofences own
  | WPause => OnPauseGeofences own
  | WResume => OnResumeGeofences own
  end.

(** A breach of type 0 is one of entering, told if bit 0 of the mask is set, one
    of type 1 of leaving, told if bit 1 is. *)
Definition wanted (type mask : Z) : bool :=
  bool_decide (type = 0) && Z.testbit mask 0 || bool_decide (type = 1) && Z.testbit mask 1.

(** [breach]: whether the framework wants to hear of breaches. *)
Definition gspec (breach : bool) (o : gop) (t : table) : list output * table :=
  let m := t_fences t in
  match o with
  | GAdd fences ss =>
      ([Api (ApiAddGeofences ((λ f : Z * GeofenceOption * Z, (f.1.2, f.2)) <$> fences))],
        match ss with Some ss => Table (add_fences fences.*1 ss m) (t_waits t ++ [WAdd]) | None => t end)
  | GRemove ids =>
      let '(l, m) := take_fences ids m in
      let '(out, ws) := when l (ApiRemoveGeofences l.*1) (WRemove (list_to_map l)) (t_waits t) in (out, Table m ws)
  | GModify l =>
      let '(ss, m) := touch_fences ((λ x : Z * GeofenceOption, (x.1, Some (breachTypeMask x.2))) <$> l) m in
      let '(out, ws) := when ss (ApiModifyGeofences ss l.*2) WModify (t_waits t) in (out, Table m ws)
  | GPause ids =>
      let '(ss, m) := touch_fences ((λ id, (id, None)) <$> ids) m in
      let '(out, ws) := when ss (ApiPauseGeofences ss) WPause (t_waits t) in (out, Table m ws)
  | GResume l =>
      let '(ss, m) := touch_fences l m in
      let '(out, ws) := when ss (ApiResumeGeofences ss) WResume (t_waits t) in (out, Table m ws)
  | GBreach type ss =>
      (if breach then [Told (OnGeofenceBreach type
         (omap (λ s, x ← owner s m; if wanted type (x : Z * Z).2 then Some x.1 else None) ss))] else [], t)
  | GAnswer l =>
      match t_waits t with
      | [] => ([], t)
      | w :: ws => ([Told (answer_of w m l)], Table m ws)
      end
  | GNoMemory _ => ([], t)
  end.

(** Ids and sessions are new when fences are added, one session for each. *)
Definition gorderly (o : gop) (t : table) : Prop :=
  match o with
  | GAdd fences (Some ss) =>
      length ss = length fences ∧ NoDup fences.*1.*1 ∧ NoDup ss ∧
      (∀ f, f ∈ fences → t_fences t !! f.1.1 = None) ∧
      ∀ s, s ∈ ss → 0 < s ∧ ∀ i k, t_fences t !! i ≠ Some (s, k)
  | _ => True
  end.

(** *** The dictionary represents the table *)
Record represents (d : BiDict Z) (m : gmap Z (Z * Z)) : Prop := Represents {
  rp_agrees : agrees d;
  rp_fwd : ∀ i s, mForwardMap d !! i = Some s ↔ ∃ k, m !! i = Some (s, k);
  rp_ext : ∀ i s k, m !! i = Some (s, k) → mExtMap d !! s = Some k ∧ 0 < s
}.

Lemma represents_none d m i : represents d m → m !! i = None ↔ mForwardMap d !! i = None.
Proof.
  intros Hr. rewrite !eq_None_not_Some. split; intros Hn [x Hx]; apply Hn.
  - apply (rp_fwd d m Hr) in Hx as [k Hk]. by eexists.
  - destruct x as [s k]. exists s. apply (rp_fwd d m Hr). by eexists.
Qed.

(** A session has one id. *)
Lemma represents_inj d m i j s k l : represents d m → m !! i = Some (s, k) → m !! j = Some (s, l) → i = j.
Proof.
  intros Hr Hi Hj. assert (mForwardMap d !! i = Some s) as Fi by (apply (rp_fwd d m Hr); by eexists).
  assert (mForwardMap d !! j = Some s) as Fj by (apply (rp_fwd d m Hr); by eexists).
  apply (ag_inv d (rp_agrees d m Hr)) in Fi, Fj. congruence.
Qed.

Lemma represents_set d m i s k : represents d m → 0 < s →
  (m !! i = None ∧ (∀ j l, m !! j ≠ Some (s, l))) ∨ (∃ l, m !! i = Some (s, l)) →
  represents (set i s k d) (<[i := (s, k)]> m).
Proof.
  intros Hr Hs Hc. pose proof (rp_fwd d m Hr) as Hf. split.
  - apply agrees_set; [apply Hr|]. destruct Hc as [[Hi Hj]|[l Hl]].
    + left. split; [by apply (represents_none d m)|]. apply eq_None_not_Some. intros [j Hb].
      apply (ag_inv d (rp_agrees d m Hr)), Hf in Hb as [l Hl]. by apply (Hj j l).
    + right. apply Hf. by eexists.
  - intros j s'. simpl. rewrite lookup_insert_Some, Hf. destruct (decide (i = j)) as [<-|Hne].
    + rewrite lookup_insert_eq. naive_solver.
    + rewrite lookup_insert_ne by done. naive_solver.
  - intros j s' k'. simpl. rewrite !lookup_insert_Some. intros [[<- [= <- <-]]|[Hne Hj]]; [auto|].
    destruct (rp_ext d m Hr j s' k' Hj) as [He Hpos]. split; [|done]. right. split; [|done]. intros <-.
    destruct Hc as [[_ Hn]|[l Hl]]; [by apply (Hn j k')|]. apply Hne. by apply (represents_inj d m i j s l k').
Qed.

Lemma represents_delete d m i s k : represents d m → m !! i = Some (s, k) →
  represents (rmBySession s d) (delete i m).
Proof.
  intros Hr Hi. pose proof (rp_fwd d m Hr) as Hf. pose proof (rp_agrees d m Hr) as Hd.
  assert (mForwardMap d !! i = Some s) as Fi by (apply Hf; by eexists).
  pose proof (proj1 (ag_inv d Hd i s) Fi) as Bi.
  split; [by apply (agrees_rmBySession i)| |]; unfold rmBySession; rewrite Bi; simpl.
  - intros j s'. rewrite lookup_delete_Some, Hf. destruct (decide (i = j)) as [<-|Hne].
    + rewrite lookup_delete_eq. naive_solver.
    + rewrite lookup_delete_ne by done. naive_solver.
  - intros j s' k'. rewrite lookup_delete_Some. intros [Hne Hj].
    destruct (rp_ext d m Hr j s' k' Hj) as [He Hpos]. split; [|done]. rewrite lookup_delete_ne; [done|].
    intros <-. apply Hne. by apply (represents_inj d m i j s k k').
Qed.

Lemma getSession_table d m i : represents d m →
  getSession i d = match m !! i with Some (s, _) => s | None => 0 end.
Proof.
  intros Hr. unfold getSession. destruct (m !! i) as [[s k]|] eqn:E.
  - by rewrite (proj2 (rp_fwd d m Hr i s)); [|eexists].
  - by rewrite (proj1 (represents_none d m i Hr) E).
Qed.

Lemma owner_some d m s i k : represents d m → m !! i = Some (s, k) → owner s m = Some (i, k).
Proof.
  intros Hr Hi. unfold owner. destruct (List.find _ _) as [[j [s' l]]|] eqn:E.
  - apply List.find_some in E as [Hin Es]. simpl in Es. apply Z.eqb_eq in Es as ->.
    apply list_elem_of_In, elem_of_map_to_list in Hin. simpl.
    assert (i = j) as <- by by apply (represents_inj d m i j s k l). rewrite Hi in Hin. by injection Hin as ->.
  - pose proof (List.find_none _ _ E (i, (s, k))) as Hn. rewrite <- list_elem_of_In, elem_of_map_to_list in Hn.
    specialize (Hn Hi). simpl in Hn. by rewrite Z.eqb_refl in Hn.
Qed.

Lemma owner_none d m s : represents d m → mBackwardMap d !! s = None → owner s m = None.
Proof.
  intros Hr Hb. unfold owner. destruct (List.find _ _) as [[j [s' l]]|] eqn:E; [|done].
  apply List.find_some in E as [Hin Es]. simpl in Es. apply Z.eqb_eq in Es as ->.
  apply list_elem_of_In, elem_of_map_to_list in Hin.
  assert (mForwardMap d !! j = Some s) as Fj by (apply (rp_fwd d m Hr); by eexists).
  apply (ag_inv d (rp_agrees d m Hr)) in Fj. congruence.
Qed.

(** What is looked up by session. *)
Lemma by_session d m s : represents d m →
  match owner s m with
  | Some (i, k) => mBackwardMap d !! s = Some i ∧ mExtMap d !! s = Some k
  | None => mBackwardMap d !! s = None ∧ mExtMap d !! s = None
  end.
Proof.
  intros Hr. destruct (mBackwardMap d !! s) as [i|] eqn:Hb.
  - pose proof (proj2 (ag_inv d (rp_agrees d m Hr) i s) Hb) as Hi. apply (rp_fwd d m Hr) in Hi as [k Hk].
    rewrite (owner_some d m s i k Hr Hk). split; [done|]. by apply (rp_ext d m Hr i).
  - rewrite (owner_none d m s Hr Hb). split; [done|]. apply eq_None_not_Some. intros Hx.
    apply (ag_ext d (rp_agrees d m Hr)) in Hx. rewrite Hb in Hx. by destruct Hx.
Qed.

Lemma getId_table d m s : represents d m → getId s d = default 0 (fst <$> owner s m).
Proof.
  intros Hr. pose proof (by_session d m s Hr) as H. unfold getId. destruct (owner s m) as [[i k]|]; destruct H as [-> _]; done.
Qed.

(** *** Each operation *)
Lemma set_all_represents l : ∀ ss d m, represents d m → length ss = length l → NoDup l.*1 → NoDup ss →
  (∀ x, x ∈ l → m !! x.1 = None) → (∀ s, s ∈ ss → 0 < s ∧ ∀ i k, m !! i ≠ Some (s, k)) →
  represents (set_all l ss d) (add_fences l ss m).
Proof.
  induction l as [|[i o] l IH]; intros [|s ss] d m Hr Hlen Hi Hss Hm Hs; try done.
  cbn [set_all add_fences]. apply NoDup_cons in Hi as [Hi Hil]. apply NoDup_cons in Hss as [Hns Hss].
  destruct (Hs s) as [Hpos Hfree]; [left|]. pose proof (Hm (i, o) ltac:(left)) as Hno. simpl in Hno.
  apply IH; try done; [|by injection Hlen| |].
  - apply represents_set; [done|done|]. by left.
  - intros x Hx. rewrite lookup_insert_ne; [apply Hm; by right|]. intros ->. apply Hi.
    by apply (list_elem_of_fmap_2 fst l x).
  - intros s' Hs'. destruct (Hs s') as [Hp' Hf']; [by right|]. split; [done|]. intros j k.
    rewrite lookup_insert_Some. intros [[_ [= -> _]]|[_ Hj]]; [done|by apply (Hf' j k)].
Qed.

Lemma remove_loop_table ids : ∀ d m acc, represents d m → ∃ d' removed,
  remove_loop ids d acc = ((take_fences ids m).1.*1, d', removed) ∧ represents d' (take_fences ids m).2 ∧
  (∀ s i, (s, i) ∈ (take_fences ids m).1 → ∃ k, m !! i = Some (s, k)) ∧
  (∀ s, mBackwardMap removed !! s = match (list_to_map (take_fences ids m).1 : gmap Z Z) !! s with
    | Some i => Some i | None => mBackwardMap acc !! s end).
Proof.
  induction ids as [|i ids IH]; intros d m acc Hr.
  { exists d, acc. simpl. split; [done|]. split; [done|]. split; [by intros s i ?%not_elem_of_nil|].
    intros s. by rewrite lookup_empty. }
  cbn [remove_loop take_fences]. rewrite (getSession_table d m i Hr). destruct (m !! i) as [[s k]|] eqn:Hi.
  - destruct (rp_ext d m Hr i s k Hi) as [_ Hpos]. rewrite (proj2 (Z.ltb_lt 0 s) Hpos).
    destruct (IH _ _ (set i s (getExtBySession 0 s d) acc) (represents_delete d m i s k Hr Hi))
      as (d' & removed & E & Hr' & Hin & Hb).
    destruct (take_fences ids (delete i m)) as [l m']. cbn [fst snd] in *. rewrite E.
    exists d', removed. split; [done|]. split; [done|]. split.
    + intros s' i' [[= -> ->]|Hx]%elem_of_cons; [by exists k|]. destruct (Hin s' i' Hx) as [k' Hk'].
      apply lookup_delete_Some in Hk' as [_ Hk']. by exists k'.
    + intros s'. rewrite Hb. simpl. destruct (decide (s = s')) as [<-|Hne].
      * rewrite !lookup_insert_eq. destruct (list_to_map l !! s) as [i'|] eqn:El; [|done].
        apply elem_of_list_to_map_2, Hin in El as [k' Hk']. apply lookup_delete_Some in Hk' as [Hne Hk'].
        by rewrite (represents_inj d m i i' s k k') in Hne.
      * by rewrite !lookup_insert_ne.
  - rewrite Z.ltb_irrefl. by apply IH.
Qed.

Lemma lookup_loop_table l : ∀ d m, represents d m → ∃ d',
  lookup_loop l d = ((touch_fences l m).1, d') ∧ represents d' (touch_fences l m).2.
Proof.
  induction l as [|[i mask] l IH]; intros d m Hr; [by exists d|].
  cbn [lookup_loop touch_fences]. rewrite (getSession_table d m i Hr). destruct (m !! i) as [[s k]|] eqn:Hi.
  - destruct (rp_ext d m Hr i s k Hi) as [_ Hpos]. rewrite (proj2 (Z.ltb_lt 0 s) Hpos).
    assert (represents (match mask with Some x => set i s x d | None => d end) (<[i := (s, default k mask)]> m)) as Hr'.
    { destruct mask as [x|]; simpl; [|by rewrite insert_id]. apply represents_set; [done|done|right]. by exists k. }
    destruct (IH _ _ Hr') as (d' & E & H'). rewrite E. exists d'. by destruct (touch_fences l _).
  - rewrite Z.ltb_irrefl. by apply IH.
Qed.

Lemma touch_fences_empty l : touch_fences l ∅ = ([], ∅).
Proof. induction l as [|[i mask] l IH]; [done|]. simpl. by rewrite lookup_empty. Qed.

Lemma take_fences_empty ids : take_fences ids ∅ = ([], ∅).
Proof. induction ids as [|i ids IH]; [done|]. simpl. by rewrite lookup_empty. Qed.

Inductive waits_for : request → wait → Prop :=
  | waits_add : waits_for AddGeofencesRequest WAdd
  | waits_remove removed ps : (∀ s, mBackwardMap removed !! s = ps !! s) →
      waits_for (RemoveGeofencesRequest removed) (WRemove ps)
  | waits_modify : waits_for ModifyGeofencesRequest WModify
  | waits_pause : waits_for PauseGeofencesRequest WPause
  | waits_resume : waits_for ResumeGeofencesRequest WResume.

(** A client with an instance of the API, and the table. *)
Record gsim (breach : bool) (c : client) (t : table) : Prop := Gsim {
  gs_api : mLocationAPI c = true;
  gs_breach : mGeofenceBreachCallback c = breach;
  gs_dict : represents (mGeofenceBiDict c) (t_fences t);
  gs_waits : Forall2 waits_for (mQueue (q_geofence c)) (t_waits t);
  gs_ready : mSession (q_geofence c) = GEOFENCE_SESSION_ID ∨ t = Table ∅ []
}.

Lemma ready_or_empty breach c t : gsim breach c t →
  (mSession (q_geofence c) =? GEOFENCE_SESSION_ID) = true ∨
  (mSession (q_geofence c) =? GEOFENCE_SESSION_ID) = false ∧ t = Table ∅ [].
Proof.
  intros [_ _ _ _ [->| ->]]; [by left|]. destruct (_ =? _); auto.
Qed.

Lemma on_geofences_sim breach c t l r call w : gsim breach c t → waits_for r w →
  ∃ c', on_geofences false l r call c = ((when (touch_fences l (t_fences t)).1 (call (touch_fences l (t_fences t)).1) w
      (t_waits t)).1, c') ∧
    gsim breach c' (Table (touch_fences l (t_fences t)).2
      (when (touch_fences l (t_fences t)).1 (call (touch_fences l (t_fences t)).1) w (t_waits t)).2).
Proof.
  intros Hs Hw. destruct (ready_or_empty breach c t Hs) as [E|[E ->]].
  - destruct Hs as [H1 H2 H3 H4 _]. unfold on_geofences, geofence_ready. rewrite H1, E. cbn [andb negb].
    destruct (lookup_loop_table l _ _ H3) as (d & -> & Hd). apply Z.eqb_eq in E.
    destruct (touch_fences l (t_fences t)) as [[|s ss] m]; cbn [fst snd when] in *;
      (eexists; split; [done|]; split; [done|done|done| |by left]); [done|].
    simpl. apply Forall2_app; [done|]. by constructor.
  - unfold on_geofences, geofence_ready. rewrite E, andb_false_r. simpl. rewrite touch_fences_empty. by exists c.
Qed.

Lemma remove_sim breach c t ids : gsim breach c t →
  ∃ c', locAPIRemoveGeofences false ids c = ((gspec breach (GRemove ids) t).1, c') ∧
    gsim breach c' (gspec breach (GRemove ids) t).2.
Proof.
  intros Hs. destruct (ready_or_empty breach c t Hs) as [E|[E ->]].
  - destruct Hs as [H1 H2 H3 H4 _]. unfold locAPIRemoveGeofences, geofence_ready, gspec. rewrite H1, E. cbn [andb negb].
    destruct (remove_loop_table ids _ _ new_BiDict H3) as (d & removed & -> & Hd & _ & Hb). apply Z.eqb_eq in E.
    destruct (take_fences ids (t_fences t)) as [[|[s i] l] m]; cbn [fst snd when fmap list_fmap] in *;
      (eexists; split; [done|]; split; [done|done|done| |by left]); [done|].
    simpl. apply Forall2_app; [done|]. constructor; [|done]. constructor. intros s'. rewrite Hb.
    change (<[s:=i]> (list_to_map l)) with (list_to_map ((s, i) :: l) : gmap Z Z).
    destruct (list_to_map _ !! s'); [done|]. apply lookup_empty.
  - unfold locAPIRemoveGeofences, geofence_ready, gspec. rewrite E, andb_false_r. simpl. rewrite take_fences_empty. by exists c.
Qed.

Lemma add_sim breach c t fences ss : gsim breach c t → gorderly (GAdd fences ss) t →
  ∃ c', gact (GAdd fences ss) c = ((gspec breach (GAdd fences ss) t).1, c') ∧
    gsim breach c' (gspec breach (GAdd fences ss) t).2.
Proof.
  intros Hs Ho. unfold gact, locAPIAddGeofences. rewrite (gs_api _ _ _ Hs).
  set (q := if mSession (q_geofence c) =? GEOFENCE_SESSION_ID then _ else _).
  assert (mSession q = GEOFENCE_SESSION_ID ∧ Forall2 waits_for (mQueue q) (t_waits t)) as [Hq Hqw].
  { unfold q. destruct (ready_or_empty breach c t Hs) as [E|[E ->]]; rewrite E; [|done].
    apply Z.eqb_eq in E. split; [done|]. apply Hs. }
  destruct Hs as [H1 H2 H3 H4 _]. destruct ss as [ss|]; (eexists; split; [done|]; split; [done|done| | |by left]); try done.
  - destruct Ho as (Hlen & Hi & Hss & Hf & Hfree). simpl. apply set_all_represents; try done.
    + by rewrite length_fmap.
    + intros x (f & -> & Hx)%list_elem_of_fmap. by apply Hf.
  - simpl. apply Forall2_app; [done|]. by repeat constructor.
Qed.

Lemma land_bit m k : 0 ≤ k → (Z.land m (2 ^ k) =? 0) = negb (Z.testbit m k).
Proof.
  intros Hk. destruct (Z.eqb_spec (Z.land m (2 ^ k)) 0) as [E|E].
  - apply (f_equal (λ z, Z.testbit z k)) in E. rewrite Z.land_spec, Z.pow2_bits_true, Z.bits_0 in E by done.
    rewrite andb_true_r in E. by rewrite E.
  - destruct (Z.testbit m k) eqn:Hb; [done|]. destruct E. apply Z.bits_inj'. intros n Hn.
    rewrite Z.land_spec, Z.pow2_bits_eqb, Z.bits_0 by done.
    destruct (Z.eqb_spec k n) as [<-|]; [by rewrite Hb|apply andb_false_r].
Qed.

Lemma reported_wanted type mask : reported type mask = wanted type mask.
Proof.
  unfold reported, wanted, GEOFENCE_BREACH_ENTER_BIT, GEOFENCE_BREACH_EXIT_BIT.
  pose proof (land_bit mask 0 ltac:(done)) as H0. pose proof (land_bit mask 1 ltac:(done)) as H1.
  change (2 ^ 0) with 1 in H0. change (2 ^ 1) with 2 in H1. rewrite H0, H1, !negb_involutive.
  unfold GEOFENCE_BREACH_ENTER, GEOFENCE_BREACH_EXIT.
  destruct (Z.eqb_spec type 0) as [E0|E0]; destruct (Z.eqb_spec type 1) as [E1|E1];
    repeat case_bool_decide; done.
Qed.

Lemma breach_ids d m type ss : represents d m →
  (λ s, getId s d) <$> List.filter (λ s, reported type (getExtBySession 0 s d)) ss =
  omap (λ s, x ← owner s m; if wanted type (x : Z * Z).2 then Some x.1 else None) ss.
Proof.
  intros Hr. induction ss as [|s ss IH]; [done|]. cbn [List.filter omap list_omap].
  pose proof (by_session _ _ s Hr) as H. unfold getExtBySession at 1.
  destruct (owner s m) as [[i k]|]; destruct H as [Hbwd Hext]; rewrite Hext; simpl.
  - rewrite <- reported_wanted. destruct (reported type k); [|done]. rewrite fmap_cons, IH. unfold getId. by rewrite Hbwd.
  - assert (reported type 0 = false) as -> by (unfold reported; by rewrite !andb_false_r). done.
Qed.

Lemma breach_sim breach c t type ss : gsim breach c t →
  beforeGeofenceBreachCb false type ss c = (gspec breach (GBreach type ss) t).1.
Proof.
  intros [_ Hb Hr _ _]. unfold beforeGeofenceBreachCb, gspec. rewrite Hb. cbn [orb].
  destruct breach; [|done]. cbn [fst]. f_equal. f_equal. f_equal. by apply breach_ids.
Qed.

Lemma answer_sim breach c t l : gsim breach c t →
  ∃ c', onCollectiveResponseCb l c = ((gspec breach (GAnswer l) t).1, c') ∧ gsim breach c' (gspec breach (GAnswer l) t).2.
Proof.
  intros Hs. destruct (ready_or_empty breach c t Hs) as [E|[E ->]].
  - destruct Hs as [H1 H2 H3 H4 _]. unfold onCollectiveResponseCb, gspec. rewrite E. apply Z.eqb_eq in E.
    unfold pop. remember (mQueue (q_geofence c)) as rs eqn:Er. remember (t_waits t) as ws0 eqn:Ew.
    destruct H4 as [|r w rs ws Hrw Hws].
    + eexists. split; [done|]. split; [done|done|done| |by left]. simpl. rewrite <- Ew. constructor.
    + cbn [head tail]. set (c' := set_q_geofence _ _ c). exists c'. split; [|by split; [..|left]]. cbn [fst]. f_equal.
      assert (∀ x, getId x (mGeofenceBiDict c) = default 0 (fst <$> owner x (t_fences t))) as Hid.
      { intros x. by apply getId_table. }
      destruct Hrw as [|removed ps Hps| | |]; simpl; f_equal; f_equal; f_equal;
        apply list_fmap_ext; intros i x _; rewrite ?Hid; try done. unfold getId. by rewrite Hps.
  - unfold onCollectiveResponseCb. rewrite E. by exists c.
Qed.

(** A call on fences that are only looked up. *)
Definition touched (l : list (Z * option Z)) (call : list Z → api_call) (w : wait) (t : table) : list output * table :=
  let '(ss, m) := touch_fences l (t_fences t) in
  let '(out, ws) := when ss (call ss) w (t_waits t) in (out, Table m ws).

Lemma touched_sim breach c t l r call w x : gsim breach c t → waits_for r w → x = touched l call w t →
  ∃ c', on_geofences false l r call c = (x.1, c') ∧ gsim breach c' x.2.
Proof.
  intros Hs Hw ->. destruct (on_geofences_sim breach c t l r call w Hs Hw) as (c' & E & H'). rewrite E. exists c'.
  unfold touched. destruct (touch_fences _ _) as [ss m]. by destruct (when _ _ _ _).
Qed.

Lemma gact_sim breach c t o : gsim breach c t → gorderly o t →
  ∃ c', gact o c = ((gspec breach o t).1, c') ∧ gsim breach c' (gspec breach o t).2.
Proof.
  intros Hs Ho. destruct o as [fences ss|ids|l|ids|l|type ss|l|o].
  - by apply add_sim.
  - by apply remove_sim.
  - by apply (touched_sim breach c t _ _ _ _ _ Hs waits_modify).
  - by apply (touched_sim breach c t _ _ _ _ _ Hs waits_pause).
  - by apply (touched_sim breach c t _ _ _ _ _ Hs waits_resume).
  - exists c. unfold gact. by rewrite (breach_sim breach c t).
  - by apply answer_sim.
  - exists c. split; [|done]. destruct o; try done; unfold gact, locAPIRemoveGeofences, locAPIModifyGeofences,
      locAPIPauseGeofences, locAPIResumeGeofences, on_geofences, geofence_ready; by rewrite andb_false_r.
Qed.

(** *** Runs *)
Definition with_api (breach status : bool) : client := (locAPISetCallbacks breach status true new_client).2.

Fixpoint grun (l : list gop) (c : client) : list output * client :=
  match l with
  | [] => ([], c)
  | o :: l => let '(out, c) := gact o c in let '(out', c) := grun l c in (out ++ out', c)
  end.

Fixpoint gspec_run (breach : bool) (l : list gop) (t : table) : list output * table :=
  match l with
  | [] => ([], t)
  | o :: l => let '(out, t) := gspec breach o t in let '(out', t) := gspec_run breach l t in (out ++ out', t)
  end.

Fixpoint gorderly_all (breach : bool) (l : list gop) (t : table) : Prop :=
  match l with [] => True | o :: l => gorderly o t ∧ gorderly_all breach l (gspec breach o t).2 end.

Lemma grun_sim breach l : ∀ c t, gsim breach c t → gorderly_all breach l t →
  ∃ c', grun l c = ((gspec_run breach l t).1, c') ∧ gsim breach c' (gspec_run breach l t).2.
Proof.
  induction l as [|o l IH]; intros c t Hs Ho; [by exists c|]. destruct Ho as [Ho Hl]. cbn [grun gspec_run].
  destruct (gact_sim breach c t o Hs Ho) as (c1 & -> & H1). destruct (gspec breach o t) as [out t1]. cbn [fst snd] in *.
  destruct (IH c1 t1 H1 Hl) as (c2 & -> & H2). destruct (gspec_run breach l t1) as [out' t2]. by exists c2.
Qed.

Lemma represents_empty : represents new_BiDict ∅.
Proof.
  split; [apply agrees_new| |]; simpl.
  - intros i s. rewrite !lookup_empty. split; [done|]. by intros [k ?].
  - intros i s k. by rewrite lookup_empty.
Qed.

Lemma with_api_gsim breach status : gsim breach (with_api breach status) (Table ∅ []).
Proof. split; [done|by destruct breach|apply represents_empty|constructor|by right]. Qed.

(** C20: The calls on fences behave as a table from the framework's ids to
    sessions and masks does, if ids and sessions are new when fences are added
    and the collective answers come in the order of the calls. The API is
    called for exactly the fences that are known, and for none if no id is; a
    modification passes on all options, those of unknown ids too. A breach is
    told to a client with a callback, with the framework's ids of the known
    fences whose mask has the bit of the type of the breach. A collective
    answer goes to the callback of its call with the framework's ids, of a
    removal those of the removed fences, and with 0 for a fence that was
    removed meanwhile. A call or a breach during which malloc fails does
    nothing. *)
Theorem geofences_refine_table breach status l : gorderly_all breach l (Table ∅ []) →
  (grun l (with_api breach status)).1 = (gspec_run breach l (Table ∅ [])).1.
Proof.
  intros Hl. by destruct (grun_sim breach l _ _ (with_api_gsim breach status) Hl) as (c & -> & _).
Qed.

Lemma take_fences_none ids m : (∀ i, i ∈ ids → m !! i = None) → take_fences ids m = ([], m).
Proof.
  induction ids as [|i ids IH]; intros Hn; [done|]. simpl. rewrite Hn by left. apply IH. intros j Hj. apply Hn. by right.
Qed.

Lemma getAllSessions_table d m s : represents d m → s ∈ getAllSessions d → ∃ i k, m !! i = Some (s, k).
Proof.
  intros Hr ([s' i] & -> & Hin)%list_elem_of_fmap. apply elem_of_entries in Hin. exists i. simpl.
  by apply (rp_fwd d m Hr), (ag_inv d (rp_agrees d m Hr)).
Qed.

(** The removal of all fences passes the sessions on as if they were the
    framework's ids: unless an id happens to be the number of a session that
    is in use, nothing is removed and the API is not called. *)
Theorem remove_all_removes_none breach status l : gorderly_all breach l (Table ∅ []) →
  let m := t_fences (gspec_run breach l (Table ∅ [])).2 in
  (∀ i j s k, is_Some (m !! i) → m !! j = Some (s, k) → i ≠ s) →
  let c := (grun l (with_api breach status)).2 in
  ∃ c', locAPIRemoveAllGeofences false c = ([], c') ∧ represents (mGeofenceBiDict c') m.
Proof.
  intros Hl m Hm. destruct (grun_sim breach l _ _ (with_api_gsim breach status) Hl) as (c & -> & Hs).
  cbv zeta. cbn [snd]. pose proof (gs_dict _ _ _ Hs) as Hr. fold m in Hr. unfold locAPIRemoveAllGeofences.
  assert (∀ i, i ∈ getAllSessions (mGeofenceBiDict c) → m !! i = None) as Hn.
  { intros i Hi. destruct (getAllSessions_table _ _ _ Hr Hi) as (j & k & Hj). apply eq_None_not_Some. intros Hi2.
    by apply (Hm i j i k). }
  destruct (getAllSessions (mGeofenceBiDict c)) as [|s ss] eqn:E; [by exists c|]. rewrite <- E in *.
  destruct (remove_sim breach c _ (getAllSessions (mGeofenceBiDict c)) Hs) as (c' & Ec & Hs').
  unfold gspec in Ec, Hs'. fold m in Ec, Hs'. rewrite (take_fences_none _ _ Hn) in Ec, Hs'. cbn [when fst snd] in *.
  exists c'. split; [done|]. apply Hs'.
Qed.

(** ** The control client *)
Inductive cop :=
  | CDelete (data session : Z)
  | CEnable (techType session : Z)
  | CDisable
  | CUpdate (config : GnssConfig) (ids : Z)
  | CGet (mask ids : Z)
  | CAnswer (error : LocationError) (id : Z)
  | CAnswers (ids : Z) (l : list (LocationError * Z)).

Definition cact (o : cop) (c : ctrl_client) : list ctrl_output * ctrl_client :=
  match o with
  | CDelete data s => let '(_, out, c) := locAPIGnssDeleteAidingData data s c in (out, c)
  | CEnable t s => let '(_, out, c) := locAPIEnable t s c in (out, c)
  | CDisable => locAPIDisable c
  | CUpdate config ids => let '(_, out, c) := locAPIGnssUpdateConfig config ids c in (out, c)
  | CGet mask ids => let '(_, out, c) := locAPIGnssGetConfig mask ids c in (out, c)
  | CAnswer e id => onCtrlResponseCb e id c
  | CAnswers ids l => onCtrlCollectiveResponseCb ids l c
  end.

Definition crun (l : list cop) (c : ctrl_client) : ctrl_client := foldl (λ c o, (cact o c).2) c l.

Definition no_pointers (c : ctrl_client) : Prop :=
  mSessionArrayPtr (q_update c) = 0 ∧ mSessionArrayPtr (q_get c) = 0.

Lemma cact_no_pointers o c : no_pointers c → no_pointers (cact o c).2.
Proof.
  intros [Hu Hg]. destruct o; cbn [cact]; unfold locAPIGnssDeleteAidingData, locAPIEnable, locAPIDisable,
    locAPIGnssUpdateConfig, locAPIGnssGetConfig, onCtrlResponseCb, ctrl_getRequestBySession,
    onCtrlCollectiveResponseCb, getRequestBySessionArrayPtr, wait_for, pop; rewrite ?Hu, ?Hg;
    repeat case_match; simplify_eq; by split.
Qed.

(** The pointer that a collective answer is matched with is stored only
    if one was stored before, which never happens: whatever was done, the
    answer to an update or a reading of the configuration reaches no callback.
    *)
Theorem config_answers_are_lost created l ids answers : ids ≠ 0 →
  let c := crun l (new_ctrl_client created) in onCtrlCollectiveResponseCb ids answers c = ([], c).
Proof.
  intros Hids. cbv zeta. assert (no_pointers (crun l (new_ctrl_client created))) as [Hu Hg].
  { assert (no_pointers (new_ctrl_client created)) as H by done. revert H. generalize (new_ctrl_client created).
    induction l as [|o l IH]; intros c Hc; [done|]. by apply IH, cact_no_pointers. }
  unfold onCtrlCollectiveResponseCb, getRequestBySessionArrayPtr. rewrite Hu, Hg.
  by rewrite (proj2 (Z.eqb_neq 0 ids)) by done.
Qed.

(** ** At concrete inputs *)
Definition every_second : TrackingOptions := Tracking_options 1000 0 0 0 0 0.
Definition fence (mask : Z) : GeofenceOption := Geofence_option mask 0 0.

Definition run_ops (l : list op) (w : world) : world := foldl (λ w o, (step o w).2) w l.

(** Two sessions and a tracking session wait for their answers. *)
Definition three_starts : list op :=
  [StartSession 1 SESSION_MODE_ON_FULL every_second 10; StartTracking every_second 11;
   StartSession 2 SESSION_MODE_ON_FIX every_second 12].

(** The answer about the tracking session comes before that about the first
    session. *)
Lemma answers_reach_their_calls_witness :
  let w := run_ops three_starts (start false true) in
  (step (Answer 1 LOCATION_ERROR_SUCCESS) w).1 = [Told (OnStartTracking LOCATION_ERROR_SUCCESS)].
Proof.
  assert (∀ w o, reachable (start false true) w → orderly o w → reachable (start false true) (step o w).2) as Hstep
    by (intros; by apply reach_step).
  assert (reachable (start false true) (run_ops three_starts (start false true))) as Hr.
  { unfold run_ops, three_starts. cbn [foldl].
    assert (∀ s w, 0 < s → s ≠ mSession (q_tracking (w_client w)) → s ≠ mSession (q_ni (w_client w)) →
      mBackwardMap (sessions_of w) !! s = None → Forall (λ a, a_session a ≠ s) (w_asks w) → fresh s w) as Hfresh.
    { intros s w H1 H2 H3 H4 H5. rewrite Forall_forall in H5. done. }
    repeat (apply Hstep; [|by apply Hfresh; repeat constructor]).
    apply reach_start. }
  intros w. refine (proj1 (answers_reach_their_calls false true w 1
    (Ask FromTracking 11 (Some StartTrackingRequest)) LOCATION_ERROR_SUCCESS Hr eq_refl _)).
  exists (Ask FromTracking 11 (Some StartTrackingRequest)). split; [reflexivity|].
  intros _ [|m] b Hm; [|lia]. intros [= <-] _. discriminate.
Defined.

(** An update that changes to tracking before the start of the batching is
    answered: the answer to the start is dropped, and the answer to the update
    is told as that of the start. *)
Example early_update_is_answered_wrongly :
  let w := run_ops [StartSession 1 SESSION_MODE_ON_FULL every_second 10;
    UpdateSession 1 SESSION_MODE_ON_FIX every_second 11; Answer 0 LOCATION_ERROR_SUCCESS;
    Answer 0 LOCATION_ERROR_SUCCESS] (start false true) in
  (step (Answer 0 LOCATION_ERROR_SUCCESS) w).1 = [Told (OnStartBatching LOCATION_ERROR_SUCCESS)] ∧
  (head (w_asks w)) = Some (Ask FromSession 11 (Some UpdateTrackingOptionsRequest)).
Proof. vm_compute. done. Qed.

(** Tracking and batching are answered by different adapters: if their answers
    cross, the failure of the tracking is told as one of the batching. *)
Example crossed_answers_are_swapped :
  let c := w_client (run_ops [StartSession 1 SESSION_MODE_ON_FULL every_second 10;
    StartSession 2 SESSION_MODE_ON_FIX every_second 12] (start false true)) in
  (onResponseCb LOCATION_ERROR_GENERAL_FAILURE 12 c).1 = [Told (OnStartBatching LOCATION_ERROR_GENERAL_FAILURE)].
Proof. vm_compute. done. Qed.

(** A trip that is completed while the answer to its stop is waited for takes
    its session away: the answer is dropped, and the next one about a session is
    told as that of the stop. *)
Example completed_trip_shifts_answers :
  let w := run_ops [StartSession 1 SESSION_MODE_ON_TRIP_COMPLETED every_second 10; Answer 0 LOCATION_ERROR_SUCCESS;
    StopSession 1; TripsCompleted [10]; Answer 0 LOCATION_ERROR_SUCCESS;
    StartSession 2 SESSION_MODE_ON_FULL every_second 11] (start false true) in
  (step (Answer 0 LOCATION_ERROR_SUCCESS) w).1 = [Told (OnStopBatching LOCATION_ERROR_SUCCESS)].
Proof. vm_compute. done. Qed.

(** Two sessions that the API could not start have the number 0; then the ids
    and the sessions are no bijection any more. *)
Example failed_starts_share_a_session :
  let d := sessions_of (run_ops [StartSession 1 SESSION_MODE_ON_FULL every_second 0;
    StartSession 2 SESSION_MODE_ON_FULL every_second 0] (start false true)) in
  LocApiClient.getSession 1 d = 0 ∧ hasId 1 d = true ∧ getId 0 d = 2.
Proof. vm_compute. done. Qed.

(** The update of a batching session loses its interval. *)
Example update_of_batching_loses_interval :
  (act (UpdateSession 1 SESSION_MODE_ON_TRIP_COMPLETED every_second 0)
    (run_ops [StartSession 1 SESSION_MODE_ON_FULL every_second 10; Answer 0 LOCATION_ERROR_SUCCESS] (start false true))).1 =
  [Api (ApiUpdateBatchingOptions 10 (Batching_options 0 0 0 0 BATCHING_MODE_TRIP))].
Proof. vm_compute. done. Qed.

Definition two_fences : list gop :=
  [GAdd [(5, fence 1, 0); (6, fence 3, 0)] (Some [21; 22]);
   GAnswer [(LOCATION_ERROR_SUCCESS, 21); (LOCATION_ERROR_SUCCESS, 22)]].

Lemma two_fences_orderly : gorderly_all true two_fences (Table ∅ []).
Proof.
  split; [|done]. split; [done|]. split; [apply (bool_decide_unpack _); vm_compute; exact I|].
  split; [apply (bool_decide_unpack _); vm_compute; exact I|]. split; [intros f _; apply lookup_empty|].
  intros s Hs. rewrite !elem_of_cons, elem_of_nil in Hs. split; [lia|]. intros i k. cbn [t_fences]. by rewrite lookup_empty.
Qed.

Lemma geofences_refine_table_witness :
  let l := two_fences ++ [GBreach 1 [21; 22; 23]; GRemove [6; 7]; GBreach 1 [21; 22]] in
  (grun l (with_api true false)).1 = (gspec_run true l (Table ∅ [])).1.
Proof.
  intros l. apply (geofences_refine_table true false l). unfold l.
  assert (∀ l l' t, gorderly_all true l t → gorderly_all true l' (gspec_run true l t).2 → gorderly_all true (l ++ l') t) as Happ.
  { clear. induction l as [|o l IH]; intros l' t; [done|]. intros [Ho Hl] Hl'. split; [done|]. apply IH; [done|].
    revert Hl'. cbn [gspec_run]. destruct (gspec true o t) as [out t1]. cbn [snd]. by destruct (gspec_run true l t1). }
  apply Happ; [apply two_fences_orderly|done].
Defined.

Example breach_is_told_by_id :
  (gspec_run true (two_fences ++ [GBreach 1 [21; 22; 23]; GRemove [6; 7]]) (Table ∅ [])).1 =
  [Api (ApiAddGeofences [(fence 1, 0); (fence 3, 0)]);
   Told (OnAddGeofences [(LOCATION_ERROR_SUCCESS, 5); (LOCATION_ERROR_SUCCESS, 6)]);
   Told (OnGeofenceBreach 1 [6]); Api (ApiRemoveGeofences [22])].
Proof. vm_compute. done. Qed.

Lemma remove_all_removes_none_witness :
  ∃ c', locAPIRemoveAllGeofences false (grun two_fences (with_api true false)).2 = ([], c') ∧
    represents (mGeofenceBiDict c') (t_fences (gspec_run true two_fences (Table ∅ [])).2).
Proof.
  apply (remove_all_removes_none true false two_fences); [apply two_fences_orderly|].
  intros i j s k [x Hi] Hj. apply elem_of_map_to_list in Hi, Hj. revert Hi Hj.
  let t := eval vm_compute in (map_to_list (t_fences (gspec_run true two_fences (Table ∅ [])).2)) in
  replace (map_to_list (t_fences (gspec_run true two_fences (Table ∅ [])).2)) with t by (vm_compute; reflexivity).
  intros Hi Hj E. rewrite !elem_of_cons, elem_of_nil in Hi. rewrite !elem_of_cons, elem_of_nil in Hj.
  destruct Hi as [[= ? _]|[[= ? _]|[]]], Hj as [[= _ ? _]|[[= _ ? _]|[]]]; congruence.
Defined.

(** The options of an id that is not known are applied to the next one that is. *)
Example modify_shifts_options :
  (gact (GModify [(4, fence 2); (5, fence 1)]) (grun two_fences (with_api true false)).2).1 =
  [Api (ApiModifyGeofences [21] [fence 2; fence 1])].
Proof. vm_compute. done. Qed.

(** A fence that is removed before its addition is answered has the id 0 in the
    answer. *)
Example answer_after_removal_has_no_id :
  (grun [GAdd [(5, fence 1, 0)] (Some [21]); GRemove [5]; GAnswer [(LOCATION_ERROR_SUCCESS, 21)]] (with_api true false)).1 =
  [Api (ApiAddGeofences [(fence 1, 0)]); Api (ApiRemoveGeofences [21]); Told (OnAddGeofences [(LOCATION_ERROR_SUCCESS, 0)])].
Proof. vm_compute. done. Qed.

Lemma config_answers_are_lost_witness :
  let c := crun [CUpdate (Config 0 1 0 0 (Server 0 None 0) 0 0 0 0 0 0 0 [] 0 (Robust 0 false false 0 0) 0 0 (SvTypes 0 0 0)) 77]
    (new_ctrl_client true) in
  mQueue (q_update c) = [GnssUpdateConfigRequest] ∧
  onCtrlCollectiveResponseCb 88 [(LOCATION_ERROR_SUCCESS, 3)] c = ([], c).
Proof. split; [done|]. apply (config_answers_are_lost true); done. Defined.

(** A configuration that could not be sent counts as sent the next time. *)
Example failed_config_is_remembered config : GnssConfig_equals zero_config config = false → GnssConfig_equals config config = true →
  let '(e, out, c) := locAPIGnssUpdateConfig config 0 (new_ctrl_client true) in
  e = LOCATION_ERROR_GENERAL_FAILURE ∧ locAPIGnssUpdateConfig config 5 c = (LOCATION_ERROR_SUCCESS, [], c).
Proof. intros H1 H2. unfold locAPIGnssUpdateConfig. cbn. rewrite H1. cbn. by rewrite H2. Qed.
