(* ===== verification/Interaction.v ===== *)
(** * Power HAL: interaction boosts

    Models [power-libperfmgr/aidl/InteractionHandler.cpp]: the boost that a
    touch starts and that a thread of the handler ends when the display has
    become idle.  Callers and the thread interleave; a step is what one of them
    does under the lock, or one wait of the thread.  What the system answers in
    a wait is given. *)
From S2P Require Import Prelude.

(** ** Data *)
Inductive InteractionState :=
  | INTERACTION_STATE_UNINITIALIZED
  | INTERACTION_STATE_IDLE
  | INTERACTION_STATE_INTERACTION
  | INTERACTION_STATE_WAITING.

#[export] Instance InteractionState_eq_dec : EqDecision InteractionState.
Proof. solve_decision. Defined.

Record timespec := Timespec { tv_sec : Z; tv_nsec : Z }.

(** Calls of the hint manager for the hint INTERACTION. *)
Inductive hint :=
  | PerfLock
  | PerfRel
  | DoHintFor (ms : Z).

(** Where the thread is: not started, before the lock of the loop, in
    [WaitForIdle], before the lock of [Release], returned. *)
Inductive position := Absent | LoopTop | InWait | WaitOver | Returned.

#[export] Instance position_eq_dec : EqDecision position.
Proof. solve_decision. Defined.

(** [mEventFd] is the counter of the event descriptor, [joining] an [Exit]
    that waits for the thread; the time is unset until the first boost. *)
Record handler := Handler {
  mState : InteractionState;
  mEventFd : Z;
  mDurationMs : Z;
  mLastTimespec : option timespec;
  thread : position;
  joining : bool;
  hints : list hint
}.

Definition new_handler : handler :=
  Handler INTERACTION_STATE_UNINITIALIZED 0 0 None Absent false [].

Definition set_state (st : InteractionState) (s : handler) : handler :=
  Handler st (mEventFd s) (mDurationMs s) (mLastTimespec s) (thread s) (joining s) (hints s).
Definition set_event (n : Z) (s : handler) : handler :=
  Handler (mState s) n (mDurationMs s) (mLastTimespec s) (thread s) (joining s) (hints s).
Definition set_last (ms : Z) (t : timespec) (s : handler) : handler :=
  Handler (mState s) (mEventFd s) ms (Some t) (thread s) (joining s) (hints s).
Definition set_thread (p : position) (s : handler) : handler :=
  Handler (mState s) (mEventFd s) (mDurationMs s) (mLastTimespec s) p (joining s) (hints s).
Definition set_joining (b : bool) (s : handler) : handler :=
  Handler (mState s) (mEventFd s) (mDurationMs s) (mLastTimespec s) (thread s) b (hints s).
Definition give_hint (h : hint) (s : handler) : handler :=
  Handler (mState s) (mEventFd s) (mDurationMs s) (mLastTimespec s) (thread s) (joining s)
    (hints s ++ [h]).

(** A step may have to wait, or be undefined. *)
Inductive outcome := Blocked | Undefined | Next (s : handler).

(** ** Waiting for the display *)

(** Answers of the system to one [WaitForIdle]; [None] for a [pread] that
    fails. *)
Record wait_answers := WaitAnswers {
  poll_event : Z;
  pread_data : option (list Z);
  poll_both : Z;
  event_ready : bool;
  idle_ready : bool
}.

Inductive wait_end :=
  | WaitAborted | WaitPollError | WaitUnexpectedEof | WaitAlreadyIdle
  | WaitError | WaitTimedOut | WaitIdleAborted | WaitIdleDetected | WaitNoEvent.

(** [strncmp] of the bytes that were read; the bytes behind them are unset. *)
Fixpoint starts_with (p data : list Z) : option bool :=
  match p, data with
  | [], _ => Some true
  | c :: p, x :: data => if (x =? c)%Z then starts_with p data else Some false
  | _ :: _, [] => None
  end.

Definition idle_text : list Z := [105; 100; 108; 101]%Z.

Definition WaitForIdle (a : wait_answers) : option wait_end :=
  if (0 <? poll_event a)%Z then Some WaitAborted
  else if (poll_event a <? 0)%Z then Some WaitPollError
  else
    match pread_data a with
    | Some [] => Some WaitUnexpectedEof
    | d =>
        idle ← starts_with idle_text (default [] d);
        Some (if (idle : bool) then WaitAlreadyIdle
              else if (poll_both a <? 0)%Z then WaitError
              else if (poll_both a =? 0)%Z then WaitTimedOut
              else if event_ready a then WaitIdleAborted
              else if idle_ready a then WaitIdleDetected
              else WaitNoEvent)
    end.

(** ** Operations *)
Definition MSINSEC : Z := 1000.
Definition NSINMS : Z := 1000000.

Definition CalcTimespecDiffMs (start finish : timespec) : Z :=
  let diff_in_ms := wrap_unsigned 64 ((tv_sec finish - tv_sec start) * MSINSEC) in
  wrap_unsigned 64 (diff_in_ms + (tv_nsec finish - tv_nsec start) ÷ NSINMS).

Definition AbortWaitLocked (s : handler) : handler := set_event (mEventFd s + 1) s.

Definition Release (s : handler) : handler :=
  if decide (mState s = INTERACTION_STATE_WAITING) then
    set_state INTERACTION_STATE_IDLE (give_hint PerfRel s)
  else set_event 0 s.

(** [opened]: a path of the idle state could be opened; [event_created]. *)
Definition Init (opened event_created : bool) (s : handler) : outcome :=
  if decide (mState s ≠ INTERACTION_STATE_UNINITIALIZED) then Next s
  else if negb opened then Next s
  else if negb event_created then Next s
  else
    (* a thread object that was not joined may not be replaced *)
    if decide (thread s = Absent) then
      Next (set_thread LoopTop (set_state INTERACTION_STATE_IDLE (set_event 0 s)))
    else Undefined.

(** [Exit] up to the wait for the thread, and behind it. *)
Definition Exit (s : handler) : handler :=
  if decide (mState s = INTERACTION_STATE_UNINITIALIZED) then s
  else set_joining true (set_state INTERACTION_STATE_UNINITIALIZED (AbortWaitLocked s)).

Definition join (s : handler) : outcome :=
  if joining s && bool_decide (thread s = Returned) then Next (set_joining false (set_thread Absent s))
  else Blocked.

(** [Routine]: one turn up to the next wait or lock. *)
Definition Routine (a : wait_answers) (s : handler) : outcome :=
  match thread s with
  | Absent | Returned => Blocked
  | LoopTop =>
      match mState s with
      | INTERACTION_STATE_IDLE => Blocked
      | INTERACTION_STATE_UNINITIALIZED => Next (set_thread Returned s)
      | _ => Next (set_thread InWait (set_state INTERACTION_STATE_WAITING s))
      end
  | InWait =>
      match WaitForIdle a with
      | Some _ => Next (set_thread WaitOver s)
      | None => Undefined
      end
  | WaitOver => Next (set_thread LoopTop (Release s))
  end.

Section handler.
(** The properties [vendor.powerhal.disp.idle_support] and
    [vendor.powerhal.interaction.*], unsigned 32-bit integers. *)
Context (kDisplayIdleSupport : bool) (kMinDurationMs kMaxDurationMs kDurationOffsetMs : Z).

(** The sum and the comparisons are unsigned, the result is an [int]. *)
Definition final_duration (duration : Z) : Z :=
  let inputDuration := wrap_signed 32 (wrap_unsigned 32 (duration + kDurationOffsetMs)) in
  if (kMaxDurationMs <? wrap_unsigned 32 inputDuration)%Z then wrap_signed 32 kMaxDurationMs
  else if (kMinDurationMs <? wrap_unsigned 32 inputDuration)%Z then inputDuration
  else wrap_signed 32 kMinDurationMs.

(** The end of [Acquire], with the boost it starts or prolongs. *)
Definition boost (finalDuration : Z) (now : timespec) (s : handler) : handler :=
  let s := set_last finalDuration now s in
  let s :=
    match mState s with
    | INTERACTION_STATE_WAITING => AbortWaitLocked s
    | INTERACTION_STATE_IDLE => give_hint PerfLock s
    | _ => s
    end in
  set_state INTERACTION_STATE_INTERACTION s.

(** Whether the last boost lasts as long as the new one would; it reads the
    time of the last boost. *)
Definition covered (finalDuration : Z) (now : timespec) (s : handler) : option bool :=
  if bool_decide (mState s ≠ INTERACTION_STATE_IDLE) && (finalDuration <=? mDurationMs s)%Z then
    last ← mLastTimespec s;
    Some (CalcTimespecDiffMs last now <=? wrap_unsigned 64 (mDurationMs s - finalDuration))%Z
  else Some false.

Definition Acquire (duration : Z) (now : timespec) (s : handler) : option handler :=
  let finalDuration := final_duration duration in
  if negb kDisplayIdleSupport || bool_decide (mState s = INTERACTION_STATE_UNINITIALIZED) then
    Some (give_hint (DoHintFor finalDuration) s)
  else
    c ← covered finalDuration now s;
    Some (if (c : bool) then s else boost finalDuration now s).

(** ** Steps *)
Inductive op :=
  | OInit (opened event_created : bool)
  | OAcquire (duration : Z) (now : timespec)
  | OExit
  | OJoin
  | OThread (a : wait_answers).

Definition step (o : op) (s : handler) : outcome :=
  match o with
  | OInit opened event_created => Init opened event_created s
  | OAcquire duration now =>
      match Acquire duration now s with Some s => Next s | None => Undefined end
  | OExit => Next (Exit s)
  | OJoin => join s
  | OThread a => Routine a s
  end.

(** The thread alone; where it has to wait it stays. *)
Fixpoint thread_turns (l : list wait_answers) (s : handler) : option handler :=
  match l with
  | [] => Some s
  | a :: l =>
      match Routine a s with
      | Next s => thread_turns l s
      | Blocked => thread_turns l s
      | Undefined => None
      end
  end.
End handler.

(** ** What the hint manager sees *)

(** The boost without a time limit is taken and released in turn. *)
Definition held_after (h : hint) (held : option bool) : option bool :=
  b ← held;
  match h, b with
  | PerfLock, false => Some true
  | PerfRel, true => Some false
  | DoHintFor _, _ => Some b
  | _, _ => None
  end.
Definition perf_held (l : list hint) : option bool := foldl (λ b h, held_after h b) (Some false) l.

Lemma perf_held_snoc l h : perf_held (l ++ [h]) = held_after h (perf_held l).
Proof. unfold perf_held. by rewrite foldl_app. Qed.

Definition boosting (st : InteractionState) : bool :=
  match st with
  | INTERACTION_STATE_INTERACTION | INTERACTION_STATE_WAITING => true
  | _ => false
  end.

Definition busy (p : position) : bool := match p with InWait | WaitOver => true | _ => false end.

(** ** The invariant; [exited]: [Exit] was called *)
Record inv (exited : bool) (s : handler) : Prop := Inv {
  inv_event : (0 ≤ mEventFd s)%Z;
  inv_thread : match mState s with
    | INTERACTION_STATE_UNINITIALIZED =>
        (exited = false → thread s = Absent ∧ joining s = false ∧ mEventFd s = 0%Z) ∧
        (joining s = false → thread s = Absent)
    | INTERACTION_STATE_IDLE =>
        exited = false ∧ joining s = false ∧ thread s = LoopTop ∧ mEventFd s = 0%Z
    | INTERACTION_STATE_INTERACTION =>
        exited = false ∧ joining s = false ∧ (thread s = LoopTop ∧ mEventFd s = 0%Z ∨ busy (thread s) = true)
    | INTERACTION_STATE_WAITING =>
        exited = false ∧ joining s = false ∧ busy (thread s) = true ∧ mEventFd s = 0%Z
    end;
  inv_time : boosting (mState s) = true → is_Some (mLastTimespec s);
  inv_held : is_Some (perf_held (hints s));
  inv_held_exact : exited = false → perf_held (hints s) = Some (boosting (mState s))
}.

(** If the step is made. *)
Definition fine (o : outcome) (P : handler → Prop) : Prop :=
  match o with Blocked | Undefined => True | Next s => P s end.

Lemma boost_inv_new : inv false new_handler.
Proof. by split. Qed.

Lemma held_release s : perf_held (hints s) = Some true → perf_held (hints s ++ [PerfRel]) = Some false.
Proof. intros E. by rewrite perf_held_snoc, E. Qed.

Lemma inv_Init opened created s : inv false s → fine (Init opened created s) (inv false).
Proof.
  intros I. unfold Init. case_decide as E; [done|].
  destruct opened, created; simpl; try done. destruct I as [I1 I2 I3 I4 I5].
  rewrite E in I2, I5. destruct I2 as [I2 _]. destruct (I2 eq_refl) as (-> & Hj & _). simpl.
  by split; simpl; auto.
Qed.

Lemma inv_Exit ex s : inv ex s → inv true (Exit s).
Proof.
  intros [I1 I2 I3 I4 I5]. unfold Exit. case_decide as E.
  - rewrite E in I2. split; rewrite ?E; simpl; auto; try done. split; [done|apply I2].
  - split; simpl; auto; try lia; try done.
Qed.

Lemma inv_join ex s : inv ex s → fine (join s) (inv ex).
Proof.
  intros [I1 I2 I3 I4 I5]. unfold join. destruct (joining s) eqn:Ej; [|done]. simpl.
  case_bool_decide; [|done]. simpl. destruct (mState s) eqn:Es; try (by destruct I2 as (? & ? & ?)).
  destruct I2 as [I2 _]. split; simpl; rewrite ?Es; auto.
  split; [|done]. intros He. destruct (I2 He) as (? & ? & ?). congruence.
Qed.

Lemma inv_Release ex s : inv ex s → thread s = WaitOver → inv ex (set_thread LoopTop (Release s)).
Proof.
  intros [I1 I2 I3 I4 I5] Et. unfold Release. case_decide as Es.
  - rewrite Es in *. destruct I2 as (-> & Hj & _ & He). pose proof (I5 eq_refl) as Hh.
    split; simpl; auto; [|intros _]; rewrite (held_release s Hh); done.
  - split; simpl; auto; [lia|]. destruct (mState s) eqn:E; try done.
    + destruct I2 as [I2 I2']. split.
      * intros He. destruct (I2 He) as (? & ? & ?). congruence.
      * intros Hj. rewrite (I2' Hj) in Et. done.
    + destruct I2 as (? & ? & ? & ?). congruence.
    + destruct I2 as (-> & ? & _). auto.
Qed.

Lemma inv_Routine ex a s : inv ex s → fine (Routine a s) (inv ex).
Proof.
  intros I. unfold Routine. destruct (thread s) eqn:Et; try done.
  - destruct I as [I1 I2 I3 I4 I5]. destruct (mState s) eqn:Es; simpl; try done.
    + split; simpl; rewrite ?Es; auto. destruct I2 as [I2 I2']. split.
      * intros He. destruct (I2 He) as (? & ? & ?). congruence.
      * intros Hj. rewrite (I2' Hj) in Et. done.
    + destruct I2 as (-> & Hj & [[_ He]|Hb]); [|by rewrite Et in Hb].
      split; simpl; auto.
    + destruct I2 as (_ & _ & Hb & _). by rewrite Et in Hb.
  - destruct (WaitForIdle a); [|done]. simpl.
    destruct I as [I1 I2 I3 I4 I5]. split; simpl; auto.
    rewrite Et in I2. destruct (mState s); simpl in *; naive_solver.
  - simpl. by apply inv_Release.
Qed.

Section runs.
Context (kDisplayIdleSupport : bool) (kMinDurationMs kMaxDurationMs kDurationOffsetMs : Z).
Abbreviation acquire := (Acquire kDisplayIdleSupport kMinDurationMs kMaxDurationMs kDurationOffsetMs).
Abbreviation final := (final_duration kMinDurationMs kMaxDurationMs kDurationOffsetMs).
Abbreviation next := (step kDisplayIdleSupport kMinDurationMs kMaxDurationMs kDurationOffsetMs).

Lemma inv_hint_for ex ms s : inv ex s → inv ex (give_hint (DoHintFor ms) s).
Proof.
  intros [I1 I2 I3 I4 I5]. split; simpl; auto.
  - rewrite perf_held_snoc. destruct I4 as [b ->]. by eexists.
  - intros He. by rewrite perf_held_snoc, (I5 He).
Qed.

Lemma inv_boost ex ms now s : inv ex s → mState s ≠ INTERACTION_STATE_UNINITIALIZED →
  inv ex (boost ms now s).
Proof.
  intros [I1 I2 I3 I4 I5] Hs. unfold boost. simpl.
  destruct (mState s) eqn:Es; try done; simpl; split; simpl; auto; try lia.
  - destruct I2 as (? & ? & ? & ?). auto.
  - by destruct I2 as (-> & _); rewrite perf_held_snoc, (I5 eq_refl); eexists.
  - intros He. by rewrite perf_held_snoc, (I5 He).
  - destruct I2 as (? & ? & ? & ?). auto.
Qed.

Lemma covered_defined ex ms now s : inv ex s → mState s ≠ INTERACTION_STATE_UNINITIALIZED →
  is_Some (covered ms now s).
Proof.
  intros I Hs. unfold covered. destruct (bool_decide _ && _) eqn:E; [|by eexists].
  apply andb_true_iff in E as [E%bool_decide_eq_true _].
  destruct (inv_time _ _ I) as [t ->]; [by destruct (mState s)|by eexists].
Qed.

Lemma inv_Acquire ex duration now s : inv ex s → ∃ s', acquire duration now s = Some s' ∧ inv ex s'.
Proof.
  intros I. unfold Acquire.
  destruct (negb _ || _) eqn:E; [eexists; split; [done|by apply inv_hint_for]|].
  apply orb_false_iff in E as [_ E%bool_decide_eq_false].
  destruct (covered_defined ex (final duration) now s I E) as [c Hc].
  rewrite Hc. simpl.
  eexists. split; [done|]. destruct c; [done|by apply inv_boost].
Qed.

(** The handler is set up before [Exit] and not again behind it. *)
Definition orderly (exited : bool) (o : op) : Prop :=
  match o with OInit _ _ => exited = false | _ => True end.
Definition exits (o : op) : bool := match o with OExit => true | _ => false end.

Inductive reach : bool → handler → Prop :=
  | reach_new : reach false new_handler
  | reach_step ex o s s' : reach ex s → orderly ex o → next o s = Next s' →
      reach (ex || exits o) s'.

Lemma boost_inv_step ex o s : inv ex s → orderly ex o → fine (next o s) (inv (ex || exits o)).
Proof.
  intros I Ho. destruct o as [opened created|duration now| | |a]; simpl in *;
    rewrite ?orb_false_r, ?orb_true_r.
  - subst. by apply inv_Init.
  - destruct (inv_Acquire ex duration now s I) as (s' & -> & ?). done.
  - by eapply inv_Exit.
  - by apply inv_join.
  - by apply inv_Routine.
Qed.

Lemma boost_inv_reach ex s : reach ex s → inv ex s.
Proof.
  induction 1 as [|ex o s s' _ IH Ho Hs]; [apply boost_inv_new|].
  pose proof (boost_inv_step ex o s IH Ho) as F. by rewrite Hs in F.
Qed.

(** The text of the idle state is compared although it was not read: [pread]
    failed, or gave less than the four characters, all as in [idle]. *)
Definition compares_unset (a : wait_answers) : Prop :=
  poll_event a = 0%Z ∧
  match pread_data a with
  | None => True
  | Some d => d ≠ [] ∧ ∃ rest, rest ≠ [] ∧ d ++ rest = [105; 100; 108; 101]%Z
  end.

Lemma starts_with_none p d : starts_with p d = None ↔ ∃ rest, rest ≠ [] ∧ d ++ rest = p.
Proof.
  revert d. induction p as [|c p IH]; intros d.
  - simpl. split; [done|]. intros (rest & Hne & E). by apply app_nil in E as [_ ->].
  - destruct d as [|x d]; simpl; [split; [by exists (c :: p)|done]|].
    destruct (Z.eqb_spec x c) as [->|Hne].
    + rewrite IH. split; intros (rest & Hne & E); exists rest; (split; [done|]); congruence.
    + split; [done|]. intros (rest & _ & E). congruence.
Qed.

Lemma WaitForIdle_none a : WaitForIdle a = None ↔ compares_unset a.
Proof.
  unfold WaitForIdle, compares_unset.
  destruct (Z.ltb_spec 0 (poll_event a)); [split; [done|lia]|].
  destruct (Z.ltb_spec (poll_event a) 0); [split; [done|lia]|].
  assert (poll_event a = 0%Z) as E by lia.
  destruct (pread_data a) as [[|x d]|]; [naive_solver| |done].
  assert (∀ o (f : bool → wait_end), (b ← o; Some (f b)) = None ↔ o = None) as Hb by (by intros []).
  cbn [default from_option id]. rewrite Hb, starts_with_none. naive_solver.
Qed.

(** C25: However callers and the thread of the interaction handler interleave,
    as long as Init is not called after Exit: the boost is never taken twice
    nor released twice, and until Exit it is held exactly while the handler is
    in the state INTERACTION or WAITING; a wait that begins is not cut short
    by an old request; and a step is undefined exactly if the thread compares
    a text of the idle state that was not read (pread failed, or gave only the
    beginning of idle), or if Init is called behind an Exit whose thread was
    not joined yet. *)
Theorem boost_held_exactly ex s o : reach ex s →
  (∃ b, perf_held (hints s) = Some b ∧ (ex = false → b = boosting (mState s))) ∧
  (mState s = INTERACTION_STATE_WAITING → mEventFd s = 0%Z) ∧
  (next o s = Undefined ↔
     (∃ a, o = OThread a ∧ thread s = InWait ∧ compares_unset a) ∨
     (ex = true ∧ o = OInit true true ∧ mState s = INTERACTION_STATE_UNINITIALIZED ∧ thread s ≠ Absent)).
Proof.
  intros Hr. pose proof (boost_inv_reach ex s Hr) as I. split_and!.
  - destruct (inv_held _ _ I) as [b Hb]. exists b. split; [done|]. intros He.
    pose proof (inv_held_exact _ _ I He). congruence.
  - intros Es. pose proof (inv_thread _ _ I) as I2. rewrite Es in I2. apply I2.
  - destruct o as [opened created|duration now| | |a]; cbn [step].
    + unfold Init. destruct (decide (mState s ≠ _)) as [Es|Es%dec_stable]; [naive_solver|].
      destruct opened, created; cbn [negb]; try naive_solver.
      destruct (decide (thread s = Absent)) as [Et|Et]; [naive_solver|].
      split; [|done]. intros _. right. destruct ex; [done|].
      pose proof (inv_thread _ _ I) as I2. rewrite Es in I2. destruct I2 as [I2 _]. by destruct (I2 eq_refl).
    + destruct (inv_Acquire ex duration now s I) as (s' & -> & _). naive_solver.
    + naive_solver.
    + unfold join. destruct (_ && _); naive_solver.
    + unfold Routine.
      destruct (thread s) eqn:Et; try naive_solver.
      * destruct (mState s); naive_solver.
      * destruct (WaitForIdle a) eqn:Ew; [|apply WaitForIdle_none in Ew; naive_solver].
        split; [done|]. intros [(a' & [= <-] & _ & Hc%WaitForIdle_none)|H]; [congruence|naive_solver].
Qed.

(** Once no caller asks for a boost any more, five turns of the thread of
    the interaction handler, whatever the system answers in its waits, release
    the boost that is held, once, and leave the handler idle. *)
Theorem boost_ends s answers : reach false s → boosting (mState s) = true →
  length answers = 5 → Forall (λ a, is_Some (WaitForIdle a)) answers →
  ∃ s', thread_turns answers s = Some s' ∧ mState s' = INTERACTION_STATE_IDLE ∧
    hints s' = hints s ++ [PerfRel] ∧ thread s' = LoopTop.
Proof.
  intros Hr Hb Hl Ha. destruct (boost_inv_reach false s Hr) as [_ I _ _ _].
  destruct answers as [|a1 [|a2 [|a3 [|a4 [|a5 [|]]]]]]; simplify_eq/=.
  apply Forall_cons in Ha as [[e1 H1] Ha]. apply Forall_cons in Ha as [[e2 H2] Ha].
  apply Forall_cons in Ha as [[e3 H3] Ha]. apply Forall_cons in Ha as [[e4 H4] _].
  destruct s as [st ev du la th jo hi]. simpl in *. unfold Routine, Release.
  destruct st, th; simpl in *; try done; try (by destruct I as (_ & _ & ? & _)); try naive_solver;
    repeat (rewrite ?H1, ?H2, ?H3, ?H4; simpl); eexists; done.
Qed.

(** ** How long a boost lasts *)
Definition ns (t : timespec) : Z := (tv_sec t * 1000000000 + tv_nsec t)%Z.
Definition normal (t : timespec) : Prop := (0 ≤ tv_nsec t < 1000000000)%Z.

Lemma diff_ms t t' : normal t → normal t' → (0 ≤ ns t' - ns t < 2 ^ 63)%Z →
  (0 ≤ CalcTimespecDiffMs t t' ∧ ns t' - ns t < (CalcTimespecDiffMs t t' + 1) * NSINMS)%Z.
Proof.
  destruct t as [a b], t' as [c d]. unfold normal, ns, CalcTimespecDiffMs, MSINSEC, NSINMS. simpl.
  intros Hb Hd Ht. change (2 ^ 63)%Z with 9223372036854775808%Z in Ht.
  assert (0 ≤ c - a < 9223372038)%Z as Hs by lia.
  rewrite (wrap_unsigned_small 64 ((c - a) * 1000))
    by (change (2 ^ 64)%Z with 18446744073709551616%Z; lia).
  pose proof (Z.quot_rem' (d - b) 1000000) as E.
  assert (- 1000000 < Z.rem (d - b) 1000000 < 1000000)%Z.
  { pose proof (Z.rem_bound_abs (d - b) 1000000 ltac:(done)) as Hr. revert Hr.
    generalize (Z.rem (d - b) 1000000). lia. }
  assert (0 ≤ d - b → 0 ≤ Z.rem (d - b) 1000000)%Z by (intros; apply Z.rem_nonneg; lia).
  assert (d - b ≤ 0 → Z.rem (d - b) 1000000 ≤ 0)%Z by (intros; apply Z.rem_nonpos; lia).
  revert E. generalize ((d - b) ÷ 1000000)%Z as q. generalize dependent (Z.rem (d - b) 1000000).
  intros r H1 H2 H3 q E.
  assert (0 ≤ (c - a) * 1000 + q < 18446744073709551616)%Z.
  { destruct (Z.le_gt_cases 0 (d - b)); [specialize (H2 ltac:(lia))|specialize (H3 ltac:(lia))]; lia. }
  rewrite wrap_unsigned_small by (change (2 ^ 64)%Z with 18446744073709551616%Z; lia).
  split; [lia|]. destruct (Z.le_gt_cases 0 (d - b)); lia.
Qed.

Lemma unsigned_signed z : (0 ≤ z < 2 ^ 32)%Z → wrap_unsigned 32 (wrap_signed 32 z) = z.
Proof.
  intros Hz. unfold wrap_unsigned, wrap_signed. rewrite Zminus_mod_idemp_l.
  rewrite <- Z.mod_small with (a := z) (b := (2 ^ 32)%Z) at 2 by done.
  change (2 ^ (32 - 1))%Z with (2 ^ 31)%Z. f_equal. lia.
Qed.

Lemma final_clamped duration :
  (0 ≤ kMinDurationMs ≤ kMaxDurationMs)%Z → (kMaxDurationMs < 2 ^ 31)%Z →
  (0 ≤ kDurationOffsetMs < 2 ^ 31)%Z → (- kDurationOffsetMs ≤ duration < 2 ^ 31)%Z →
  final duration = Z.max kMinDurationMs (Z.min kMaxDurationMs (duration + kDurationOffsetMs)).
Proof.
  intros Hm Hx Ho Hd. unfold final_duration.
  assert (0 ≤ duration + kDurationOffsetMs < 2 ^ 32)%Z as Hs by lia.
  rewrite (wrap_unsigned_small 32 (duration + _)), unsigned_signed by done.
  assert (∀ z, 0 ≤ z < 2 ^ 31 → wrap_signed 32 z = z)%Z as Hw.
  { intros z Hz. apply wrap_signed_small; lia. }
  rewrite (Hw kMaxDurationMs), (Hw kMinDurationMs) by lia.
  destruct (Z.ltb_spec kMaxDurationMs (duration + kDurationOffsetMs)); [lia|].
  rewrite Hw by lia. destruct (Z.ltb_spec kMinDurationMs (duration + kDurationOffsetMs)); lia.
Qed.

(** A negative duration that the offset does not make up for is taken for a
    very large one. *)
Lemma final_negative duration :
  (0 ≤ kMinDurationMs ≤ kMaxDurationMs)%Z → (kMaxDurationMs < 2 ^ 31)%Z →
  (0 ≤ kDurationOffsetMs < 2 ^ 31)%Z → (- 2 ^ 31 ≤ duration < - kDurationOffsetMs)%Z →
  final duration = kMaxDurationMs.
Proof.
  intros Hm Hx Ho Hd. unfold final_duration.
  replace (wrap_unsigned 32 (duration + kDurationOffsetMs))
    with (duration + kDurationOffsetMs + 2 ^ 32)%Z.
  - rewrite unsigned_signed by lia.
    destruct (Z.ltb_spec kMaxDurationMs (duration + kDurationOffsetMs + 2 ^ 32)); [|lia].
    apply wrap_signed_small; lia.
  - unfold wrap_unsigned. rewrite <- (Z_mod_plus_full _ 1), Z.mod_small by lia. lia.
Qed.

Lemma covered_lasts f now s last : mLastTimespec s = Some last →
  normal last → normal now → (0 ≤ ns now - ns last < 2 ^ 63)%Z →
  covered f now s = Some true →
  (ns now + f * NSINMS < ns last + (mDurationMs s + 1) * NSINMS)%Z.
Proof.
  intros Hl Hn Hn' Ht. unfold covered. destruct (bool_decide _ && _) eqn:E; [|done].
  apply andb_true_iff in E as [_ E%Z.leb_le]. rewrite Hl. simpl. intros [= Hc%Z.leb_le].
  destruct (diff_ms last now Hn Hn' Ht) as [_ Hd].
  assert (wrap_unsigned 64 (mDurationMs s - f) ≤ mDurationMs s - f)%Z.
  { unfold wrap_unsigned. apply Z.mod_le; lia. }
  unfold NSINMS in *. lia.
Qed.

(** A boost of a caller is on when the call returns, of the length that was
    asked for plus the offset, within the limits; and whether it was started
    now or an earlier one goes on, what is stored of it lasts until the end
    of the new one, up to the resolution of a millisecond. *)
Theorem acquire_boosts ex s duration now : reach ex s → kDisplayIdleSupport = true →
  mState s ≠ INTERACTION_STATE_UNINITIALIZED →
  (0 ≤ kMinDurationMs ≤ kMaxDurationMs)%Z → (kMaxDurationMs < 2 ^ 31)%Z →
  (0 ≤ kDurationOffsetMs < 2 ^ 31)%Z → (- kDurationOffsetMs ≤ duration < 2 ^ 31)%Z →
  normal now →
  (∀ last, mLastTimespec s = Some last → normal last ∧ (0 ≤ ns now - ns last < 2 ^ 63)%Z) →
  let f := Z.max kMinDurationMs (Z.min kMaxDurationMs (duration + kDurationOffsetMs)) in
  ∃ s' last, acquire duration now s = Some s' ∧ boosting (mState s') = true ∧
    mLastTimespec s' = Some last ∧
    (ns now + f * NSINMS < ns last + (mDurationMs s' + 1) * NSINMS)%Z.
Proof.
  intros Hr -> Hs Hm Hx Ho Hd Hn Hc f. pose proof (boost_inv_reach ex s Hr) as I.
  assert (final duration = f) as Ef by by apply final_clamped.
  destruct (covered_defined ex f now s I Hs) as [c Hcov].
  unfold Acquire. rewrite bool_decide_false by done. simpl. rewrite Ef, Hcov. simpl.
  destruct c.
  - assert (boosting (mState s) = true) as Hb.
    { destruct (mState s) eqn:Es; try done. exfalso. revert Hcov. unfold covered. by rewrite Es. }
    destruct (inv_time _ _ I Hb) as [last Hl]. destruct (Hc last Hl) as [Hnl Ht].
    exists s, last. repeat split; try done. by apply (covered_lasts f now s last).
  - exists (boost f now s), now. split; [done|]. unfold boost. simpl.
    repeat split; destruct (mState s); simpl; unfold NSINMS; try done; lia.
Qed.

(** ** Runs before [Exit] *)
Fixpoint steps (l : list op) (s : handler) : option handler :=
  match l with
  | [] => Some s
  | o :: l => match next o s with Next s => steps l s | _ => None end
  end.

Lemma boost_reach_steps l s s' : reach false s → Forall (λ o, orderly false o ∧ exits o = false) l →
  steps l s = Some s' → reach false s'.
Proof.
  revert s. induction l as [|o l IH]; intros s Hr Hl; simpl; [by intros [= <-]|].
  apply Forall_cons in Hl as [[Ho He] Hl]. destruct (next o s) as [| |s1] eqn:Hs; try done.
  apply IH; [|done]. replace false with (false || exits o) by (by rewrite He).
  by eapply reach_step.
Qed.
End runs.

(** ** A run: two touches, of which the second comes during the wait *)
Definition timed_out : wait_answers := WaitAnswers 0 (Some [98; 117; 115; 121]%Z) 0 false false.
Definition aborted : wait_answers := WaitAnswers 1 None 0 true false.
Definition two_touches : list op :=
  [OInit true true; OAcquire 0 (Timespec 10 0); OThread timed_out; OAcquire 4000 (Timespec 11 0)].
Definition touched : handler := default new_handler (steps true 1400 5650 650 two_touches new_handler).

Lemma touched_reach : reach true 1400 5650 650 false touched.
Proof.
  apply (boost_reach_steps true 1400 5650 650 two_touches new_handler); [constructor| |done].
  by repeat constructor.
Qed.

(** The boost is held, and a failed [pread] in the wait would be compared. *)
Lemma boost_held_exactly_witness :
  reach true 1400 5650 650 false touched ∧ perf_held (hints touched) = Some true ∧
  step true 1400 5650 650 (OThread aborted) touched ≠ Undefined.
Proof.
  split; [apply touched_reach|]. split; [done|].
  destruct (boost_held_exactly true 1400 5650 650 false touched (OThread aborted) touched_reach) as (_ & _ & H).
  intros E. apply H in E as [(a & [= <-] & _ & [Hp _])|[E _]]; discriminate.
Defined.

Lemma boost_ends_witness :
  boosting (mState touched) = true ∧
  ∃ s', thread_turns [aborted; timed_out; timed_out; timed_out; timed_out] touched = Some s' ∧
    hints s' = [PerfLock; PerfRel].
Proof.
  split; [done|].
  destruct (boost_ends true 1400 5650 650 touched [aborted; timed_out; timed_out; timed_out; timed_out]
    touched_reach) as (s' & Hs & _ & Hh & _);
    [done|done|by repeat constructor; eexists|].
  exists s'. by rewrite Hh.
Defined.

Lemma acquire_boosts_witness :
  ∃ s' last, Acquire true 1400 5650 650 700 (Timespec 12 500000000) touched = Some s' ∧
    boosting (mState s') = true ∧ mLastTimespec s' = Some last ∧
    (ns (Timespec 12 500000000) + 1400 * NSINMS < ns last + (mDurationMs s' + 1) * NSINMS)%Z.
Proof.
  apply (acquire_boosts true 1400 5650 650 false touched 700 (Timespec 12 500000000) touched_reach);
    try done; try lia.
  intros last [= <-]. done.
Defined.

(** A caller that cancels with a negative duration gets the longest boost, and
    [Exit] leaves a boost on. *)
Example negative_duration_is_longest :
  hints <$> Acquire false 1400 5650 650 (-1000) (Timespec 1 0) new_handler = Some [DoHintFor 5650].
Proof. reflexivity. Qed.

Example exit_keeps_boost :
  hints <$> steps true 1400 5650 650 (two_touches ++ [OExit; OThread aborted; OThread aborted;
    OThread aborted; OJoin]) new_handler = Some [PerfLock].
Proof. reflexivity. Qed.

(** A [pread] that fails leaves the buffer unset, which is compared. *)
Example failed_read_is_compared :
  step true 1400 5650 650 (OThread (WaitAnswers 0 None 0 false false))
    (set_thread InWait touched) = Undefined.
Proof. reflexivity. Qed.
