(* ===== verification/PowerChannels.v ===== *)
(** * Power HAL: channels of the hint sessions

    Models [power-libperfmgr/aidl]: [SessionChannel.cpp], [ChannelGroup.cpp]
    and [ChannelManager.cpp].  Every application that asks for one gets a
    channel, a message queue in shared memory; sixteen channels share a flag
    and a thread that reads their queues and passes the messages on to the
    sessions.  The queues are libfmq's: whether one is valid and what is read
    of it are given.  A session is called with the operations of
    [HintSession]. *)
From S2P Require Import Prelude OrderedMap SessionRecords HintSession.
Local Open Scope Z_scope.

Definition kMaxChannels : nat := 16.
Definition kWriteBits : Z := 0x0000ffff.
Definition kReadBits : Z := 0xffff0000.

(** ** Keys

    Two [int32_t] in a union with an [int64_t]. *)
Definition pack (lo hi : Z) : Z := wrap_unsigned 32 lo + 2 ^ 32 * hi.
Definition unpack_lo (v : Z) : Z := wrap_signed 32 v.
Definition unpack_hi (v : Z) : Z := Z.shiftr v 32.

(** ** Channels *)
Record channel := Channel {
  mTgid : Z;
  mUid : Z;
  mId : Z;
  mReadMask : Z;
  mWriteMask : Z;
  isValid : bool
}.

(** [valid]: the queue could be created. *)
Definition new_channel (tgid uid id : Z) (offset : nat) (valid : bool) : channel :=
  Channel tgid uid id (wrap_unsigned 32 (Z.shiftl 1 (Z.of_nat offset + 16)))
    (wrap_unsigned 32 (Z.shiftl 1 (Z.of_nat offset))) valid.

(** ** Groups *)
Record group := Group { mLiveChannels : Z; mChannels : list (option channel) }.

Definition new_group : group := Group 0 (replicate kMaxChannels None).

Definition getChannelCount (g : group) : Z := mLiveChannels g.

(** The index of the array must be in range. *)
Definition removeChannel (slot : Z) (g : group) : option (bool * group) :=
  if decide (0 ≤ slot) then
    c ← mChannels g !! Z.to_nat slot;
    Some (match c with
          | Some _ => (true, Group (mLiveChannels g - 1) (<[Z.to_nat slot := None]> (mChannels g)))
          | None => (false, g)
          end)
  else None.

Fixpoint first_free (l : list (option channel)) : nat :=
  match l with
  | None :: _ => 0%nat
  | Some _ :: l => S (first_free l)
  | [] => 0%nat
  end.

(** A group that is full is fatal. *)
Definition createChannel (mGroupId tgid uid : Z) (valid : bool) (g : group) : option (channel * group) :=
  let slot := first_free (mChannels g) in
  if decide (slot = kMaxChannels) then None
  else
    let c := new_channel tgid uid (pack mGroupId (Z.of_nat slot)) slot valid in
    Some (c, Group (mLiveChannels g + 1) (<[slot := Some c]> (mChannels g))).

(** So is a channel that does not exist. *)
Definition getChannel (slot : Z) (g : group) : option channel :=
  if decide (0 ≤ slot) then mjoin (mChannels g !! Z.to_nat slot) else None.

(** ** The manager *)
Record manager := Manager { mChannelGroups : gmap Z group; mChannelMap : gmap Z Z }.

Definition new_manager : manager := Manager ∅ ∅.

Definition closeChannel (tgid uid : Z) (m : manager) : option (bool * manager) :=
  match mChannelMap m !! pack tgid uid with
  | None => Some (false, m)
  | Some value =>
      match mChannelGroups m !! unpack_lo value with
      | None => Some (false, m)
      | Some g =>
          r ← removeChannel (unpack_hi value) g;
          let '(removed, g) := r in
          if negb removed then
            Some (false, Manager (<[unpack_lo value := g]> (mChannelGroups m)) (mChannelMap m))
          else
            let groups :=
              if decide (getChannelCount g = 0) then delete (unpack_lo value) (mChannelGroups m)
              else <[unpack_lo value := g]> (mChannelGroups m) in
            Some (true, Manager groups (delete (pack tgid uid) (mChannelMap m)))
      end
  end.

(** The group for a new channel: the first that is not full, or a new one. *)
Definition has_room (x : Z * group) : bool := getChannelCount x.2 <? Z.of_nat kMaxChannels.

Definition pick_group (m : manager) : option (Z * group) :=
  match List.find has_room (entries Z.le (mChannelGroups m)) with
  | Some x => Some x
  | None =>
      match last (entries Z.le (mChannelGroups m)) with
      | None => Some (0, new_group)
      | Some (id, _) => id' ← int32 (id + 1); Some (id', new_group)
      end
  end.

Definition getOrCreateChannel (tgid uid : Z) (valid : bool) (m : manager) : option (channel * manager) :=
  match mChannelMap m !! pack tgid uid with
  | Some value =>
      g ← mChannelGroups m !! unpack_lo value;
      c ← getChannel (unpack_hi value) g;
      Some (c, m)
  | None =>
      x ← pick_group m;
      let '(groupId, g) := x in
      r ← createChannel groupId tgid uid valid g;
      let '(c, g) := r in
      Some (c, Manager (<[groupId := g]> (mChannelGroups m)) (<[pack tgid uid := mId c]> (mChannelMap m)))
  end.

(** The flag is that of the group, the queue that of the channel. *)
Record channel_config := ChannelConfig {
  eventFlagDescriptor : Z;
  channelDescriptor : Z;
  readFlagBitmask : Z;
  writeFlagBitmask : Z
}.

Definition getChannelConfig (tgid uid : Z) (valid : bool) (m : manager) :
    option (option channel_config * manager) :=
  r ← getOrCreateChannel tgid uid valid m;
  let '(c, m) := r in
  if negb (isValid c) then Some (None, m)
  else
    _ ← mChannelGroups m !! unpack_lo (mId c);
    Some (Some (ChannelConfig (unpack_lo (mId c)) (mId c) (mReadMask c) (mWriteMask c)), m).

Definition getGroupCount (m : manager) : Z := Z.of_nat (size (mChannelGroups m)).

Definition totalChannelCount (m : manager) : Z :=
  foldl (λ out x, out + getChannelCount x.2) 0 (entries Z.le (mChannelGroups m)).

(** [Power::getSessionChannel] and [Power::closeSessionChannel]. *)
Inductive channel_op :=
  | GetSessionChannel (tgid uid : Z) (valid : bool)
  | CloseSessionChannel (tgid uid : Z).

Definition channel_step (o : channel_op) (m : manager) : option manager :=
  match o with
  | GetSessionChannel tgid uid valid => snd <$> getChannelConfig tgid uid valid m
  | CloseSessionChannel tgid uid => snd <$> closeChannel tgid uid m
  end.

Definition channel_steps (l : list channel_op) (m : manager) : option manager :=
  foldl (λ m o, m ≫= channel_step o) (Some m) l.

(** ** The thread of a group *)

(** [ChannelMessage]: a message for a session. *)
Inductive message_data :=
  | MHint (h : SessionHint)
  | MTargetDuration (t : Z)
  | MWorkDuration (durationNanos cpuDurationNanos gpuDurationNanos : Z)
  | MMode (modeInt : SessionMode) (enabled : bool)
  | MOther.

Record message := Message { sessionID : Z; m_timeStampNanos : Z; data : message_data }.

Definition work_duration (m : message) : option reported :=
  match data m with
  | MWorkDuration d c g => Some (Reported (Work (m_timeStampNanos m) d) c g)
  | _ => None
  end.

(** The inner loop: the work durations of one session at the front, and the
    rest. *)
Fixpoint take_durations (sid : Z) (ms : list message) : list reported * list message :=
  match ms with
  | [] => ([], [])
  | m :: rest =>
      match work_duration m with
      | Some d =>
          if decide (sessionID m = sid) then
            let '(ds, after) := take_durations sid rest in (d :: ds, after)
          else ([], ms)
      | None => ([], ms)
      end
  end.

Section thread.
(** [getSession(id)]: whether there is a session with the identifier. *)
Context (known : Z → bool).

(** The loop over the messages that were read; both loops increment the index,
    so the outer one steps over the message at which the inner one ends. *)
Fixpoint dispatch (fuel : nat) (ms : list message) : list (Z * session_op) :=
  match fuel, ms with
  | O, _ | _, [] => []
  | S fuel, m :: rest =>
      if known (sessionID m) then
        match data m with
        | MHint h => (sessionID m, SHint h) :: dispatch fuel rest
        | MTargetDuration t => (sessionID m, STarget t) :: dispatch fuel rest
        | MMode mode enabled => (sessionID m, SMode mode enabled) :: dispatch fuel rest
        | MWorkDuration _ _ _ =>
            let '(ds, after) := take_durations (sessionID m) ms in
            (sessionID m, SReport ds) :: dispatch fuel (tail after)
        | MOther => dispatch fuel rest
        end
      else dispatch fuel rest
  end.

Inductive turn_output :=
  | WakeReader (mask : Z)
  | Deliver (sid : Z) (o : session_op).

(** What the queue of a slot answers: how much there is, and the messages, or
    that the read failed. *)
Context (availableToRead : nat → Z) (queue_read : nat → option (list message)).

Record turn_state := TurnState { blocklist : gset Z; outputs : list turn_output }.

Definition serve (chans : list (option channel)) (s : turn_state) (slot : nat) : turn_state :=
  match mjoin (chans !! slot) with
  | None => s
  | Some c =>
      if negb (isValid c) then s
      else if decide (mUid c ∈ blocklist s) then s
      else if availableToRead slot <=? 0 then s
      else
        match queue_read slot with
        | None => TurnState ({[mUid c]} ∪ blocklist s) (outputs s)
        | Some ms => TurnState (blocklist s) (outputs s ++ WakeReader (mReadMask c) ::
            ((λ x : Z * session_op, Deliver x.1 x.2) <$> dispatch (length ms) ms))
        end
  end.

(** [std::countr_zero] of 32 bits. *)
Definition countr_zero (flag : Z) : nat :=
  default 32%nat (List.find (λ i, Z.testbit flag (Z.of_nat i)) (seq 0 32)).

Fixpoint channel_loop (fuel : nat) (chans : list (option channel)) (flagState : Z) (s : turn_state) :
    option turn_state :=
  let channelNum := countr_zero flagState in
  if decide (channelNum < kMaxChannels)%nat then
    match fuel with
    | O => None
    | S fuel =>
        let flagState := Z.land flagState (flagState - 1) in
        channel_loop fuel chans flagState (serve chans s channelNum)
    end
  else Some s.

(** One turn of [runChannelGroup], with what [wait] returned. *)
Definition group_turn (g : group) (flagState : Z) (s : turn_state) : option turn_state :=
  channel_loop 17 (mChannels g) flagState s.
End thread.

(** ** Keys *)
Definition int32_ok (z : Z) : Prop := - 2 ^ 31 ≤ z < 2 ^ 31.

Lemma unpack_lo_pack a b : int32_ok a → unpack_lo (pack a b) = a.
Proof.
  intros Ha. unfold unpack_lo, pack, wrap_unsigned.
  transitivity (wrap_signed 32 a); [|apply wrap_signed_small; [lia|exact Ha]].
  unfold wrap_signed. f_equal.
  rewrite <- (Z_mod_plus_full (a + _) b), (Z.add_comm (a mod _ + _)), <- !Z.add_assoc.
  rewrite (Z.add_comm (2 ^ (32 - 1))), <- Z.add_assoc, Zplus_mod_idemp_l. f_equal. lia.
Qed.

Lemma unpack_hi_pack a b : unpack_hi (pack a b) = b.
Proof.
  unfold unpack_hi, pack. pose proof (wrap_unsigned_range 32 a ltac:(lia)).
  rewrite Z.shiftr_div_pow2 by lia. rewrite Z.mul_comm, Z.div_add by lia.
  rewrite Z.div_small by lia. lia.
Qed.

Lemma pack_inj a b a' b' : int32_ok a → int32_ok a' → pack a b = pack a' b' → a = a' ∧ b = b'.
Proof.
  intros Ha Ha' E. split.
  - by rewrite <- (unpack_lo_pack a b Ha), E, unpack_lo_pack.
  - by rewrite <- (unpack_hi_pack a b), E, unpack_hi_pack.
Qed.

(** ** Slots *)
Fixpoint live (l : list (option channel)) : nat :=
  match l with
  | [] => 0
  | Some _ :: l => S (live l)
  | None :: l => live l
  end.

Lemma live_length l : (live l ≤ length l)%nat.
Proof. induction l as [|[c|] l IH]; simpl; lia. Qed.

Lemma live_occupied l i c : l !! i = Some (Some c) → live l = S (live (<[i:=None]> l)).
Proof.
  revert i. induction l as [|x l IH]; intros [|i] Hi; simplify_eq/=; [done|].
  destruct x; simpl; rewrite (IH i); done.
Qed.

Lemma live_free l i c : l !! i = Some None → live (<[i:=Some c]> l) = S (live l).
Proof.
  revert i. induction l as [|x l IH]; intros [|i] Hi; simplify_eq/=; [done|].
  destruct x; simpl; rewrite (IH i); done.
Qed.

Lemma first_free_lookup l : (live l < length l)%nat → l !! first_free l = Some None.
Proof.
  induction l as [|[c|] l IH]; simpl; intros Hl; [lia| |done]. apply IH. lia.
Qed.

(** ** The invariant, after [n] operations *)
Definition holds (m : manager) (gid : Z) (slot : nat) (c : channel) : Prop :=
  ∃ g, mChannelGroups m !! gid = Some g ∧ mChannels g !! slot = Some (Some c).

Definition total (m : manager) : Z :=
  map_fold (λ _ g n, getChannelCount g + n) 0 (mChannelGroups m).

Definition group_ok (g : group) : Prop :=
  length (mChannels g) = kMaxChannels ∧ getChannelCount g = Z.of_nat (live (mChannels g)).

Record channels_ok (n : nat) (m : manager) : Prop := ChannelsOk {
  ok_map : ∀ k v, mChannelMap m !! k = Some v → ∃ gid slot c,
    holds m gid slot c ∧ k = pack (mTgid c) (mUid c) ∧ v = pack gid (Z.of_nat slot);
  ok_slot : ∀ gid slot c, holds m gid slot c →
    mChannelMap m !! pack (mTgid c) (mUid c) = Some (pack gid (Z.of_nat slot)) ∧
    c = new_channel (mTgid c) (mUid c) (pack gid (Z.of_nat slot)) slot (isValid c) ∧
    int32_ok (mTgid c);
  ok_group : ∀ gid g, mChannelGroups m !! gid = Some g →
    0 ≤ gid < Z.of_nat n ∧ group_ok g ∧ 0 < getChannelCount g;
  ok_total : total m = Z.of_nat (size (mChannelMap m))
}.

Lemma ok_new : channels_ok 0 new_manager.
Proof. split; simpl; try set_solver. by intros gid slot c (? & ? & _). Qed.

Lemma total_insert gid g m k : mChannelGroups m !! gid = None →
  total (Manager (<[gid:=g]> (mChannelGroups m)) k) = getChannelCount g + total m.
Proof.
  intros Hn. unfold total. simpl. rewrite map_fold_insert_L; [done|intros; lia|done].
Qed.

Lemma total_delete gid g m k : mChannelGroups m !! gid = Some g →
  total m = getChannelCount g + total (Manager (delete gid (mChannelGroups m)) k).
Proof.
  intros Hg. unfold total. simpl. rewrite (map_fold_delete_L _ _ gid g); [done|intros; lia|done].
Qed.

Lemma total_update gid g g' m k : mChannelGroups m !! gid = Some g →
  total (Manager (<[gid:=g']> (mChannelGroups m)) k) = total m - getChannelCount g + getChannelCount g'.
Proof.
  intros Hg. rewrite (total_delete gid g m ∅ Hg).
  rewrite (total_delete gid g' (Manager (<[gid:=g']> (mChannelGroups m)) k) ∅) by apply lookup_insert_eq.
  simpl. rewrite delete_insert_eq. lia.
Qed.

Lemma foldl_sum {A} (h : A → Z) l a :
  foldl (λ out x, out + h x) a l = a + foldr (λ x n, h x + n) 0 l.
Proof. revert a. induction l as [|x l IH]; intros a; simpl; [|rewrite IH]; lia. Qed.

Lemma sum_perm {A} (h : A → Z) l l' : l ≡ₚ l' →
  foldr (λ x n, h x + n) 0 l = foldr (λ x n, h x + n) 0 l'.
Proof. induction 1; simpl; lia. Qed.

Lemma total_counts m : totalChannelCount m = total m.
Proof.
  unfold totalChannelCount, total. rewrite map_fold_foldr.
  rewrite (foldl_sum (λ x : Z * group, getChannelCount x.2)), Z.add_0_l.
  rewrite (sum_perm _ _ _ (entries_perm Z.le (mChannelGroups m))).
  generalize (map_to_list (mChannelGroups m)). by induction l as [|[] l IH]; simpl; [|rewrite IH].
Qed.

Lemma holds_functional m gid slot c c' : holds m gid slot c → holds m gid slot c' → c = c'.
Proof. intros (g & Hg & Hc) (g' & Hg' & Hc'). congruence. Qed.

Lemma holds_int32 n m gid slot c : channels_ok n m → Z.of_nat n ≤ 2 ^ 31 →
  holds m gid slot c → int32_ok gid.
Proof. intros O Hn (g & Hg & _). destruct (ok_group _ _ O gid g Hg) as [? _]. unfold int32_ok. lia. Qed.

Lemma lookup_none_live l : live l = 0%nat → ∀ i c, l !! i ≠ Some (Some c).
Proof. intros Hl i c Hi. rewrite (live_occupied l i c Hi) in Hl. done. Qed.

(** *** Closing *)

(** A group without the channel of a slot; an empty one is erased. *)
Definition without (m : manager) (gid : Z) (slot : nat) (g : group) : gmap Z group :=
  let g' := Group (mLiveChannels g - 1) (<[slot := None]> (mChannels g)) in
  if decide (getChannelCount g' = 0) then delete gid (mChannelGroups m)
  else <[gid := g']> (mChannelGroups m).

Lemma closeChannel_holds n m tgid uid gid slot c g : channels_ok n m → Z.of_nat n ≤ 2 ^ 31 →
  mChannelGroups m !! gid = Some g → mChannels g !! slot = Some (Some c) →
  mChannelMap m !! pack tgid uid = Some (pack gid (Z.of_nat slot)) →
  closeChannel tgid uid m =
    Some (true, Manager (without m gid slot g) (delete (pack tgid uid) (mChannelMap m))).
Proof.
  intros O Hn Hg Hc Hm. assert (int32_ok gid) as Hi by (eapply holds_int32; [done..|by exists g]).
  unfold closeChannel. rewrite Hm, (unpack_lo_pack gid _ Hi), Hg, unpack_hi_pack.
  unfold removeChannel. rewrite decide_True by lia. rewrite Nat2Z.id, Hc. done.
Qed.

Lemma holds_without m k gid slot g c gid' slot' c' :
  mChannelGroups m !! gid = Some g → mChannels g !! slot = Some (Some c) → group_ok g →
  holds (Manager (without m gid slot g) k) gid' slot' c' ↔
  holds m gid' slot' c' ∧ (gid', slot') ≠ (gid, slot).
Proof.
  intros Hg Hc [Hl Hn]. pose proof (live_occupied _ _ _ Hc) as Hlive.
  assert (slot < length (mChannels g))%nat as Hs by by apply lookup_lt_Some in Hc.
  unfold holds, without, getChannelCount in *. simpl. case_decide as Ez; simpl.
  - assert (live (<[slot:=None]> (mChannels g)) = 0%nat) as Hz by lia. split.
    + intros (g' & [Hne Hg']%lookup_delete_Some & Hc'). split; [by exists g'|congruence].
    + intros ((g' & Hg' & Hc') & Hne). destruct (decide (gid' = gid)) as [->|Hd].
      * simplify_eq. exfalso. apply (lookup_none_live _ Hz slot' c').
        rewrite list_lookup_insert_ne; [done|congruence].
      * exists g'. by rewrite lookup_delete_ne.
  - split.
    + intros (g' & Hg' & Hc'). apply lookup_insert_Some in Hg' as [[<- <-]|[Hne Hg']].
      * simpl in Hc'. apply list_lookup_insert_Some in Hc' as [(_ & ? & _)|[Hd Hc']]; [done|].
        split; [by exists g|congruence].
      * split; [by exists g'|congruence].
    + intros ((g' & Hg' & Hc') & Hne). destruct (decide (gid' = gid)) as [->|Hd].
      * simplify_eq. eexists. rewrite lookup_insert_eq. split; [done|]. simpl.
        rewrite list_lookup_insert_ne; [done|congruence].
      * exists g'. by rewrite lookup_insert_ne.
Qed.

Lemma ok_closed n m tgid uid gid slot c g : channels_ok n m → Z.of_nat n ≤ 2 ^ 31 →
  mChannelGroups m !! gid = Some g → mChannels g !! slot = Some (Some c) →
  pack tgid uid = pack (mTgid c) (mUid c) →
  mChannelMap m !! pack tgid uid = Some (pack gid (Z.of_nat slot)) →
  channels_ok n (Manager (without m gid slot g) (delete (pack tgid uid) (mChannelMap m))).
Proof.
  intros O Hn Hg Hc Hk Hm. pose proof (ok_group _ _ O gid g Hg) as (Hgid & Hok & Hpos).
  assert (holds m gid slot c) as Hh by by exists g.
  pose proof (live_occupied _ _ _ Hc) as Hlive.
  assert (slot < length (mChannels g))%nat as Hs by by apply lookup_lt_Some in Hc.
  destruct Hok as [Hl Hcount]. split.
  - intros k v Hk0. simpl in Hk0. apply lookup_delete_Some in Hk0 as [Hne Hk'].
    destruct (ok_map _ _ O k v Hk') as (gid' & slot' & c' & Hh' & -> & ->).
    exists gid', slot', c'. split; [|done]. apply (holds_without _ _ _ _ _ c); try done.
    split; [done|]. intros [= -> ->]. apply Hne. by rewrite Hk, (holds_functional _ _ _ _ _ Hh Hh').
  - intros gid' slot' c' Hh'. apply (holds_without _ _ _ _ _ c) in Hh' as [Hh' Hne]; try done.
    destruct (ok_slot _ _ O gid' slot' c' Hh') as (Hm' & Hc' & Hi). split; [|done].
    simpl. rewrite lookup_delete_ne; [done|]. intros E. apply Hne. rewrite E, Hm' in Hm.
    injection Hm as E'. apply pack_inj in E' as [-> ?%Nat2Z.inj]; [by subst|by eapply holds_int32..].
  - intros gid' g' Hg'. simpl in Hg'. unfold without in Hg'. revert Hg'.
    case_decide as Ez; intros Hg'.
    + apply lookup_delete_Some in Hg' as [_ Hg']. by apply (ok_group _ _ O).
    + apply lookup_insert_Some in Hg' as [[<- <-]|[_ Hg']]; [|by apply (ok_group _ _ O)].
      unfold getChannelCount, group_ok in *. simpl in *. split; [done|].
      rewrite length_insert. unfold getChannelCount. simpl. repeat split; lia.
  - simpl. rewrite map_size_delete_Some by done.
    pose proof (map_size_ne_0_lookup_2 _ _ (mk_is_Some _ _ Hm)).
    pose proof (ok_total _ _ O) as Ht. unfold without. case_decide as Ez.
    + pose proof (total_delete gid g m (delete (pack tgid uid) (mChannelMap m)) Hg).
      unfold getChannelCount in *. simpl in *. lia.
    + rewrite (total_update gid g) by done. unfold getChannelCount. simpl. lia.
Qed.

(** *** Creating *)
#[export] Instance Zle_total : Total Z.le.
Proof. intros x y. lia. Qed.
#[export] Instance Zle_transitive : Transitive Z.le.
Proof. intros x y z. lia. Qed.

Lemma new_group_ok : group_ok new_group.
Proof. done. Qed.

Lemma pick_group_ok n m : channels_ok n m → Z.of_nat n < 2 ^ 31 →
  ∃ gid g, pick_group m = Some (gid, g) ∧ 0 ≤ gid < Z.of_nat (S n) ∧ group_ok g ∧
    getChannelCount g < 16 ∧
    (mChannelGroups m !! gid = Some g ∨ mChannelGroups m !! gid = None ∧ g = new_group).
Proof.
  intros O Hn. unfold pick_group.
  destruct (List.find has_room (entries Z.le (mChannelGroups m))) as [[gid g]|] eqn:Hf.
  - apply List.find_some in Hf as [Hin Hr%Z.ltb_lt]. apply list_elem_of_In, elem_of_entries in Hin.
    destruct (ok_group _ _ O gid g Hin) as (? & ? & _). exists gid, g.
    repeat split; try done; try lia; [apply H0..|by left].
  - destruct (last (entries Z.le (mChannelGroups m))) as [[id g]|] eqn:Hl.
    + assert (is_Some (mChannelGroups m !! id)) as [g0 Hg0].
      { exists g. apply (elem_of_entries Z.le). apply last_Some in Hl as [l ->]. set_solver. }
      destruct (ok_group _ _ O id g0 Hg0) as (Hid & _).
      unfold int32. rewrite (proj2 (andb_true_iff _ _)) by (split; [apply Z.leb_le|apply Z.ltb_lt]; lia).
      exists (id + 1), new_group. simpl. repeat split; try done; try lia. right. split; [|done].
      apply eq_None_not_Some. intros Hs. pose proof (entries_last Z.le _ _ _ _ Hl Hs). lia.
    + apply entries_last_None in Hl. exists 0, new_group. rewrite Hl.
      repeat split; try done; try lia. by right.
Qed.

Definition with_channel (c : channel) (slot : nat) (g : group) : group :=
  Group (mLiveChannels g + 1) (<[slot := Some c]> (mChannels g)).

Lemma holds_with_channel m k gid slot g c gid' slot' c' :
  (mChannelGroups m !! gid = Some g ∨ mChannelGroups m !! gid = None ∧ g = new_group) →
  mChannels g !! slot = Some None →
  holds (Manager (<[gid := with_channel c slot g]> (mChannelGroups m)) k) gid' slot' c' ↔
  holds m gid' slot' c' ∨ (gid', slot', c') = (gid, slot, c).
Proof.
  intros Hg Hs. assert (slot < length (mChannels g))%nat by by apply lookup_lt_Some in Hs.
  assert (∀ s x, mChannels new_group !! s = Some x → x = None) as Hnew.
  { intros s x Hx. by apply lookup_replicate in Hx as [-> _]. }
  unfold holds. simpl. split.
  - intros (g' & Hg' & Hc'). apply lookup_insert_Some in Hg' as [[<- <-]|[Hne Hg']]; [|by left; exists g'].
    simpl in Hc'. apply list_lookup_insert_Some in Hc' as [(-> & [= ->] & _)|[Hd Hc']]; [by right|].
    destruct Hg as [Hg|[_ ->]]; [by left; exists g|by apply Hnew in Hc'].
  - intros [(g' & Hg' & Hc')|[= -> -> ->]].
    + destruct (decide (gid' = gid)) as [->|Hd]; [|exists g'; by rewrite lookup_insert_ne].
      destruct Hg as [Hg|[Hg _]]; [|congruence]. simplify_eq. eexists.
      rewrite lookup_insert_eq. split; [done|]. simpl. rewrite list_lookup_insert_ne; congruence.
    + eexists. rewrite lookup_insert_eq. split; [done|]. simpl. by rewrite list_lookup_insert_eq.
Qed.

Lemma ok_created n m tgid uid valid : channels_ok n m → Z.of_nat n < 2 ^ 31 → int32_ok tgid →
  mChannelMap m !! pack tgid uid = None →
  ∃ gid slot m', getOrCreateChannel tgid uid valid m =
      Some (new_channel tgid uid (pack gid (Z.of_nat slot)) slot valid, m') ∧
    channels_ok (S n) m' ∧ int32_ok gid ∧
    (∀ gid' slot' c', holds m' gid' slot' c' ↔ holds m gid' slot' c' ∨
      (gid', slot', c') = (gid, slot, new_channel tgid uid (pack gid (Z.of_nat slot)) slot valid)) ∧
    mChannelMap m' = <[pack tgid uid := pack gid (Z.of_nat slot)]> (mChannelMap m).
Proof.
  intros O Hn Ht Hm. destruct (pick_group_ok n m O Hn) as (gid & g & Hp & Hgid & Hok & Hroom & Hg).
  destruct Hok as [Hl Hcount]. unfold kMaxChannels in Hl.
  assert (mChannels g !! first_free (mChannels g) = Some None) as Hs by (apply first_free_lookup; lia).
  assert (first_free (mChannels g) < 16)%nat as Hlt by (apply lookup_lt_Some in Hs; lia).
  set (slot := first_free (mChannels g)) in *.
  set (c := new_channel tgid uid (pack gid (Z.of_nat slot)) slot valid).
  exists gid, slot. eexists. split.
  { unfold getOrCreateChannel. rewrite Hm, Hp. simpl. unfold createChannel.
    fold slot. rewrite decide_False by (unfold kMaxChannels; lia). done. }
  fold c. change (Group (mLiveChannels g + 1) (<[slot:=Some c]> (mChannels g))) with (with_channel c slot g).
  pose proof (holds_with_channel m (<[pack tgid uid:=mId c]> (mChannelMap m)) gid slot g c) as Hh.
  specialize (λ gid' slot' c', Hh gid' slot' c' Hg Hs).
  assert (int32_ok gid) as Hi by (unfold int32_ok; lia).
  split; [|split; [done|split; [exact Hh|done]]]. split.
  - intros k v Hk. simpl in Hk. apply lookup_insert_Some in Hk as [[<- <-]|[Hne Hk]].
    + exists gid, slot, c. split; [|done]. apply Hh. by right.
    + destruct (ok_map _ _ O k v Hk) as (gid' & slot' & c' & Hh' & ? & ?).
      exists gid', slot', c'. split; [|done]. apply Hh. by left.
  - intros gid' slot' c' Hh'. apply Hh in Hh' as [Hh'|[= -> -> ->]].
    + destruct (ok_slot _ _ O gid' slot' c' Hh') as (Hm' & ? & ?). split; [|done]. simpl.
      rewrite lookup_insert_ne; [done|congruence].
    + simpl. by rewrite lookup_insert_eq.
  - intros gid' g' Hg'. simpl in Hg'. apply lookup_insert_Some in Hg' as [[<- <-]|[Hne Hg']].
    + split; [done|]. unfold group_ok, getChannelCount, with_channel. simpl.
      rewrite length_insert, (live_free _ _ c Hs). unfold getChannelCount in Hcount.
      repeat split; try done; lia.
    + destruct (ok_group _ _ O gid' g' Hg') as (? & ? & ?). split; [lia|done].
  - simpl. rewrite map_size_insert_None by done. pose proof (ok_total _ _ O) as Htot.
    destruct Hg as [Hg|[Hg ->]].
    + rewrite (total_update gid g) by done. unfold getChannelCount, with_channel. simpl. lia.
    + rewrite total_insert by done. unfold getChannelCount. simpl. lia.
Qed.

Lemma ok_weaken n n' m : (n ≤ n')%nat → channels_ok n m → channels_ok n' m.
Proof.
  intros Hn [O1 O2 O3 O4]. split; try done. intros gid g Hg.
  destruct (O3 gid g Hg) as (? & ? & ?). split; [lia|done].
Qed.

(** *** Steps *)
Definition op_int32 (o : channel_op) : Prop :=
  match o with GetSessionChannel tgid uid _ | CloseSessionChannel tgid uid => int32_ok tgid ∧ int32_ok uid end.

(** What [getChannelConfig] answers for a channel. *)
Definition config_of (c : channel) : option channel_config :=
  if isValid c then Some (ChannelConfig (unpack_lo (mId c)) (mId c) (mReadMask c) (mWriteMask c))
  else None.

Lemma config_of_held n m gid slot c k : channels_ok n m → Z.of_nat n ≤ 2 ^ 31 → holds m gid slot c →
  (if negb (isValid c) then Some (None, k)
   else _ ← mChannelGroups m !! unpack_lo (mId c);
     Some (Some (ChannelConfig (unpack_lo (mId c)) (mId c) (mReadMask c) (mWriteMask c)), k)) =
  Some (config_of c, k : manager).
Proof.
  intros O Hn Hh. unfold config_of. destruct (isValid c) eqn:Ev; [|done]. simpl.
  destruct (ok_slot _ _ O _ _ _ Hh) as (_ & Hc & _).
  assert (mId c = pack gid (Z.of_nat slot)) as -> by by rewrite Hc.
  rewrite unpack_lo_pack by by eapply holds_int32.
  destruct Hh as (g & -> & _). done.
Qed.

Lemma config_existing n m gid slot c valid : channels_ok n m → Z.of_nat n ≤ 2 ^ 31 →
  holds m gid slot c → getChannelConfig (mTgid c) (mUid c) valid m = Some (config_of c, m).
Proof.
  intros O Hn Hh. destruct (ok_slot _ _ O _ _ _ Hh) as (Hm & _ & _).
  assert (getOrCreateChannel (mTgid c) (mUid c) valid m = Some (c, m)) as E.
  { unfold getOrCreateChannel. rewrite Hm, unpack_lo_pack by by eapply holds_int32.
    destruct Hh as (g & -> & Hc). cbn [mbind option_bind]. rewrite unpack_hi_pack. unfold getChannel.
    rewrite decide_True by lia. by rewrite Nat2Z.id, Hc. }
  unfold getChannelConfig. rewrite E. cbn [mbind option_bind]. by eapply config_of_held.
Qed.

(** What an operation does to the channels of other applications. *)
Definition keeps (m m' : manager) (k : Z) : Prop :=
  ∀ gid slot c, holds m gid slot c → pack (mTgid c) (mUid c) = k → holds m' gid slot c.

Definition closes (o : channel_op) (k : Z) : Prop :=
  match o with CloseSessionChannel tgid uid => pack tgid uid = k | _ => False end.

Lemma ok_get n m tgid uid valid : channels_ok n m → Z.of_nat n < 2 ^ 31 → int32_ok tgid →
  ∃ gid slot c m', getChannelConfig tgid uid valid m = Some (config_of c, m') ∧
    channels_ok (S n) m' ∧ holds m' gid slot c ∧ mTgid c = tgid ∧ mUid c = uid ∧
    ∀ k, keeps m m' k.
Proof.
  intros O Hn Ht. destruct (mChannelMap m !! pack tgid uid) as [v|] eqn:Hm.
  - destruct (ok_map _ _ O _ _ Hm) as (gid & slot & c & Hh & Hk & _).
    destruct (ok_slot _ _ O _ _ _ Hh) as (_ & _ & Hi). apply pack_inj in Hk as [-> ->]; [|done..].
    exists gid, slot, c, m. split; [eapply config_existing; [done|lia|done]|].
    split; [eapply ok_weaken; [|done]; lia|]. split; [done|]. split; [done|]. split; [done|]. by intros k ????.
  - destruct (ok_created n m tgid uid valid O Hn Ht Hm) as (gid & slot & m' & E & O' & Hi & Hh & _).
    set (c := new_channel tgid uid (pack gid (Z.of_nat slot)) slot valid) in *.
    exists gid, slot, c, m'. assert (holds m' gid slot c) as Hc by (apply Hh; by right).
    split; [unfold getChannelConfig; rewrite E; cbn [mbind option_bind];
      apply (config_of_held (S n) m' gid slot c m'); [done|lia|done]|].
    split; [done|]. split; [done|]. split; [done|]. split; [done|].
    intros k gid' slot' c' Hh' _. apply Hh. by left.
Qed.

Lemma ok_close n m tgid uid : channels_ok n m → Z.of_nat n ≤ 2 ^ 31 →
  ∃ b m', closeChannel tgid uid m = Some (b, m') ∧ channels_ok n m' ∧
    ∀ k, k ≠ pack tgid uid → keeps m m' k.
Proof.
  intros O Hn. destruct (mChannelMap m !! pack tgid uid) as [v|] eqn:Hm.
  - destruct (ok_map _ _ O _ _ Hm) as (gid & slot & c & Hh & Hk & ->). destruct Hh as (g & Hg & Hc).
    rewrite (closeChannel_holds n m tgid uid gid slot c g) by done. eexists _, _. split; [done|].
    split; [by eapply ok_closed|]. intros k Hne gid' slot' c' Hh' Hk'.
    apply (holds_without _ _ _ _ _ c); try done; [by apply (ok_group _ _ O gid g)|].
    split; [done|]. intros [= -> ->]. apply Hne. rewrite <- Hk', Hk.
    rewrite (holds_functional m gid slot c' c); [done|done|by exists g].
  - exists false, m. unfold closeChannel. rewrite Hm. split; [done|]. split; [done|]. by intros k _ ????.
Qed.

Lemma ok_step n o m : channels_ok n m → Z.of_nat n < 2 ^ 31 → op_int32 o →
  ∃ m', channel_step o m = Some m' ∧ channels_ok (S n) m' ∧ ∀ k, ¬ closes o k → keeps m m' k.
Proof.
  intros O Hn Ho. destruct o as [tgid uid valid|tgid uid]; simpl in *; destruct Ho as [Ht _].
  - destruct (ok_get n m tgid uid valid O Hn Ht) as (gid & slot & c & m' & -> & ? & _ & _ & _ & Hk).
    exists m'. simpl. auto.
  - destruct (ok_close n m tgid uid O ltac:(lia)) as (b & m' & -> & O' & Hk).
    exists m'. split; [done|]. split; [eapply ok_weaken; [|done]; lia|]. intros k Hc. apply Hk. auto.
Qed.

Lemma channel_steps_cons o l m :
  channel_steps (o :: l) m = m' ← channel_step o m; channel_steps l m'.
Proof.
  unfold channel_steps. simpl. destruct (channel_step o m); [done|]. simpl.
  induction l as [|o' l IH]; [done|exact IH].
Qed.

Lemma ok_steps l n m : channels_ok n m → Z.of_nat (n + length l) ≤ 2 ^ 31 → Forall op_int32 l →
  ∃ m', channel_steps l m = Some m' ∧ channels_ok (n + length l) m' ∧
    ∀ k, Forall (λ o, ¬ closes o k) l → keeps m m' k.
Proof.
  revert n m. induction l as [|o l IH]; intros n m O Hn Hl.
  - exists m. rewrite Nat.add_0_r. split; [done|]. split; [done|]. by intros k _ ????.
  - apply Forall_cons in Hl as [Ho Hl]. simpl in Hn. rewrite channel_steps_cons.
    destruct (ok_step n o m O ltac:(lia) Ho) as (m1 & -> & O1 & K1). simpl.
    destruct (IH (S n) m1 O1 ltac:(lia) Hl) as (m2 & -> & O2 & K2). exists m2. split; [done|].
    replace (n + S (length l))%nat with (S n + length l)%nat by lia. split; [done|].
    intros k [Hok Hlk]%Forall_cons gid slot c Hh Hk. by apply (K2 k Hlk); [apply (K1 k)|].
Qed.

(** ** Properties *)

(** C26: After any sequence of requests and closes, up to [2^31] of them,
    nothing was fatal; the map finds for an application exactly the group and
    the slot that hold its channel; a channel has the write and the read bit
    of its slot; the number of channels is that of the applications, and no
    group is empty. *)
Theorem channels_consistent l : Forall op_int32 l → Z.of_nat (length l) ≤ 2 ^ 31 →
  ∃ m, channel_steps l new_manager = Some m ∧
    (∀ tgid uid gid slot, int32_ok tgid → int32_ok gid →
      mChannelMap m !! pack tgid uid = Some (pack gid (Z.of_nat slot)) ↔
      ∃ c, holds m gid slot c ∧ mTgid c = tgid ∧ mUid c = uid) ∧
    (∀ gid slot c, holds m gid slot c → (slot < 16)%nat ∧
      mWriteMask c = 2 ^ Z.of_nat slot ∧ mReadMask c = 2 ^ (Z.of_nat slot + 16)) ∧
    totalChannelCount m = Z.of_nat (size (mChannelMap m)) ∧
    (∀ gid g, mChannelGroups m !! gid = Some g → 0 < getChannelCount g ≤ 16).
Proof.
  intros Hl Hn. destruct (ok_steps l 0 new_manager ok_new Hn Hl) as (m & -> & O & _).
  exists m. split; [done|]. simpl in O.
  assert (∀ gid slot c, holds m gid slot c → (slot < 16)%nat) as Hslot.
  { intros gid slot c (g & Hg & Hc). destruct (ok_group _ _ O gid g Hg) as (_ & [Hlen _] & _).
    apply lookup_lt_Some in Hc. unfold kMaxChannels in Hlen. lia. }
  split; [|split; [|split]].
  - intros tgid uid gid slot Ht Hg. split.
    + intros Hm. destruct (ok_map _ _ O _ _ Hm) as (gid' & slot' & c & Hh & Hk & Hv).
      destruct (ok_slot _ _ O _ _ _ Hh) as (_ & _ & Hi).
      apply pack_inj in Hk as [-> ->]; [|done..].
      apply pack_inj in Hv as [-> ->%Nat2Z.inj]; [|done|by eapply holds_int32]. by exists c.
    + intros (c & Hh & <- & <-). by apply (ok_slot _ _ O).
  - intros gid slot c Hh. pose proof (Hslot _ _ _ Hh) as Hs. split; [done|].
    destruct (ok_slot _ _ O _ _ _ Hh) as (_ & -> & _). simpl.
    rewrite !Z.shiftl_1_l. split; apply wrap_unsigned_small.
    + split; [apply Z.pow_nonneg; lia|apply Z.pow_lt_mono_r; lia].
    + split; [apply Z.pow_nonneg; lia|apply Z.pow_lt_mono_r; lia].
  - rewrite total_counts. apply O.
  - intros gid g Hg. destruct (ok_group _ _ O gid g Hg) as (_ & [Hlen Hc] & ?). split; [done|].
    pose proof (live_length (mChannels g)). unfold kMaxChannels in Hlen. lia.
Qed.

(** An application that asks for a channel gets the same one again, whatever
    others request and close, until it closes it. *)
Theorem channel_is_kept l l' tgid uid valid valid' m :
  Forall op_int32 l → Forall op_int32 l' → int32_ok tgid →
  Z.of_nat (length l + length l') < 2 ^ 31 → Forall (λ o, ¬ closes o (pack tgid uid)) l' →
  channel_steps l new_manager = Some m →
  ∃ r m1 m2, getChannelConfig tgid uid valid m = Some (r, m1) ∧
    channel_steps l' m1 = Some m2 ∧ getChannelConfig tgid uid valid' m2 = Some (r, m2).
Proof.
  intros Hl Hl' Ht Hn Hno Hm.
  destruct (ok_steps l 0 new_manager ok_new ltac:(lia) Hl) as (m0 & E & O & _). simplify_eq.
  simpl in O. destruct (ok_get _ m tgid uid valid O ltac:(lia) Ht)
    as (gid & slot & c & m1 & -> & O1 & Hh & <- & <- & _).
  destruct (ok_steps l' _ m1 O1 ltac:(lia) Hl') as (m2 & E2 & O2 & K).
  exists (config_of c), m1, m2. split; [done|]. split; [done|].
  eapply config_existing; [exact O2|lia|]. by apply (K _ Hno).
Qed.

(** ** The thread of a group: which messages arrive *)
Section delivery.
Context (known : Z → bool).

(** A message as a call of its session, a work duration alone. *)
Definition as_call (m : message) : option (Z * session_op) :=
  if known (sessionID m) then
    match data m with
    | MHint h => Some (sessionID m, SHint h)
    | MTargetDuration t => Some (sessionID m, STarget t)
    | MMode mode enabled => Some (sessionID m, SMode mode enabled)
    | MWorkDuration d c g =>
        Some (sessionID m, SReport [Reported (Work (m_timeStampNanos m) d) c g])
    | MOther => None
    end
  else None.

(** A report of several durations, taken apart. *)
Definition singly (x : Z * session_op) : list (Z * session_op) :=
  match x.2 with
  | SReport ds => (λ d, (x.1, SReport [d])) <$> ds
  | _ => [x]
  end.

(** The messages without those behind the work durations of a session;
    [prev]: the session whose work durations were just before. *)
Fixpoint kept (prev : option Z) (ms : list message) : list message :=
  match ms with
  | [] => []
  | m :: rest =>
      let work := bool_decide (is_Some (work_duration m)) in
      match prev with
      | Some sid =>
          if work && bool_decide (sessionID m = sid) then m :: kept prev rest else kept None rest
      | None =>
          m :: kept (if work && known (sessionID m) then Some (sessionID m) else None) rest
      end
  end.

Lemma as_call_work m d : work_duration m = Some d → known (sessionID m) = true →
  as_call m = Some (sessionID m, SReport [d]).
Proof. unfold work_duration, as_call. intros Hw ->. destruct (data m); by simplify_eq. Qed.

Lemma kept_run sid ms ds after : known sid = true → take_durations sid ms = (ds, after) →
  omap as_call (kept (Some sid) ms) =
    ((λ d, (sid, SReport [d])) <$> ds) ++ omap as_call (kept None (tail after)) ∧
  (length after ≤ length ms)%nat.
Proof.
  intros Hk. revert ds after. induction ms as [|m ms IH]; intros ds after; simpl.
  { by intros [= <- <-]. }
  destruct (work_duration m) as [d|] eqn:Hw; simpl.
  - destruct (decide (sessionID m = sid)) as [Hs|Hs].
    + destruct (take_durations sid ms) as [ds' after'] eqn:Ht. intros [= <- <-].
      destruct (IH ds' after' eq_refl) as [E Hl]. rewrite bool_decide_true by done. csimpl.
      rewrite (as_call_work m d Hw) by (by rewrite Hs). rewrite Hs, E. split; [done|lia].
    + intros [= <- <-]. rewrite bool_decide_false by done. simpl. split; [done|lia].
  - intros [= <- <-]. simpl. split; [done|lia].
Qed.

(** C37: What the thread of a group passes on, in order and singly, is exactly
    what it read, less the messages for sessions that do not exist, those it
    does not know, and the message right behind each run of work durations of
    a session, whatever it is and whomever it is for. *)
Theorem dispatch_loses_behind_reports ms :
  dispatch known (length ms) ms ≫= singly = omap as_call (kept None ms).
Proof.
  enough (∀ fuel ms, (length ms ≤ fuel)%nat →
    dispatch known fuel ms ≫= singly = omap as_call (kept None ms)) as G by by apply G.
  clear ms. induction fuel as [|fuel IH]; intros [|[sid ts dat] ms] Hl; simpl in Hl; try done; [lia|].
  destruct (known sid) eqn:Hk.
  - destruct dat as [h|t|d c g|mode enabled|]; csimpl; unfold as_call at 1; simpl; rewrite Hk; csimpl;
      rewrite ?(IH ms) by lia; try done.
    rewrite decide_True by done.
    destruct (take_durations sid ms) as [ds after] eqn:Ht.
    destruct (kept_run _ _ _ _ Hk Ht) as [E Hla]. csimpl. rewrite E.
    rewrite IH by (destruct after; simpl in *; lia). done.
  - csimpl. unfold as_call at 1. simpl. rewrite Hk, andb_false_r. apply IH. lia.
Qed.
End delivery.

(** ** The loop over the flagged channels *)
Lemma find_seq_Some f k n c : List.find f (seq k n) = Some c →
  f c = true ∧ (k ≤ c < k + n)%nat ∧ ∀ i, (k ≤ i < c)%nat → f i = false.
Proof.
  revert k. induction n as [|n IH]; intros k; simpl; [done|].
  destruct (f k) eqn:Hf.
  - intros [= <-]. split; [done|]. split; [lia|]. intros i ?. lia.
  - intros Hc. destruct (IH (S k) Hc) as (? & ? & Hlow). split; [done|]. split; [lia|].
    intros i Hi. destruct (decide (i = k)) as [->|]; [done|]. apply Hlow. lia.
Qed.

Lemma countr_zero_spec flag : let c := countr_zero flag in
  (c < 32)%nat → Z.testbit flag (Z.of_nat c) = true.
Proof.
  unfold countr_zero. destruct (List.find _ _) as [c|] eqn:Hf; simpl; [|lia].
  intros _. by apply find_seq_Some in Hf as [? _].
Qed.

Lemma countr_zero_low flag i : (i < countr_zero flag)%nat → (i < 32)%nat →
  Z.testbit flag (Z.of_nat i) = false.
Proof.
  unfold countr_zero. destruct (List.find _ _) as [c|] eqn:Hf; simpl; intros Hi H32.
  - apply find_seq_Some in Hf as (_ & _ & Hlow). apply Hlow. lia.
  - apply (List.find_none _ _ Hf i), in_seq. lia.
Qed.

(** [flag & (flag - 1)] clears the lowest bit. *)
Lemma clear_lowest flag c i : Z.testbit flag (Z.of_nat c) = true →
  (∀ j, (j < c)%nat → Z.testbit flag (Z.of_nat j) = false) →
  Z.testbit (Z.land flag (flag - 1)) (Z.of_nat i) =
    Z.testbit flag (Z.of_nat i) && bool_decide (i ≠ c).
Proof.
  intros Hc Hlow. rewrite Z.land_spec. set (n := Z.of_nat c) in *.
  assert (0 ≤ n) as Hn by lia. pose proof (Z.pow_pos_nonneg 2 n ltac:(lia) Hn) as Hp.
  assert (2 ^ (n + 1) = 2 * 2 ^ n) as Hp1 by (rewrite Z.pow_add_r; lia).
  assert (flag `mod` 2 ^ (n + 1) = 2 ^ n) as Hm.
  { apply Z.bits_inj'. intros j Hj. rewrite Z.pow2_bits_eqb by done.
    destruct (Z.lt_ge_cases j (n + 1)) as [Hl|Hl].
    - rewrite Z.mod_pow2_bits_low by done. destruct (Z.eqb_spec n j) as [<-|Hne]; [done|].
      rewrite <- (Z2Nat.id j) by done. apply Hlow. lia.
    - rewrite Z.mod_pow2_bits_high by lia. symmetry. apply Z.eqb_neq. lia. }
  pose proof (Z.div_mod flag (2 ^ (n + 1)) ltac:(lia)) as Hd. rewrite Hm in Hd.
  destruct (decide (i = c)) as [->|Hne].
  - rewrite bool_decide_false by congruence. rewrite andb_false_r. fold n. apply andb_false_iff. right.
    rewrite <- (Z.mod_pow2_bits_low (flag - 1) (n + 1)) by lia.
    replace ((flag - 1) `mod` 2 ^ (n + 1)) with (Z.ones n); [by apply Z.ones_spec_high; lia|].
    rewrite Z.ones_equiv. apply (Z.mod_unique _ _ (flag `div` 2 ^ (n + 1))); lia.
  - rewrite bool_decide_true, andb_true_r by done.
    destruct (decide (i < c)%nat) as [Hi|Hi]; [by rewrite Hlow|].
    destruct (Z.testbit flag (Z.of_nat i)) eqn:Hb; [|done]. simpl.
    replace (Z.of_nat i) with (Z.of_nat i - (n + 1) + (n + 1)) in Hb |- * by lia.
    rewrite <- Z.div_pow2_bits in Hb |- * by lia.
    replace ((flag - 1) `div` 2 ^ (n + 1)) with (flag `div` 2 ^ (n + 1)); [done|].
    apply (Z.div_unique _ _ _ (2 ^ n - 1)); lia.
Qed.

Section loop.
Context (known : Z → bool) (availableToRead : nat → Z) (queue_read : nat → option (list message)).
Context (chans : list (option channel)).

Definition flagged (flag : Z) (k n : nat) : list nat :=
  base.filter (λ i, Z.testbit flag (Z.of_nat i) = true) (seq k n).

Lemma flagged_none flag k n : (∀ i, (k ≤ i < k + n)%nat → Z.testbit flag (Z.of_nat i) = false) →
  flagged flag k n = [].
Proof.
  unfold flagged. revert k. induction n as [|n IH]; intros k Hf; simpl; [done|].
  rewrite filter_cons_False by (rewrite Hf; [done|lia]). apply IH. intros i Hi. apply Hf. lia.
Qed.

Lemma flagged_ext flag flag' k n :
  (∀ i, (k ≤ i < k + n)%nat → Z.testbit flag (Z.of_nat i) = Z.testbit flag' (Z.of_nat i)) →
  flagged flag k n = flagged flag' k n.
Proof.
  unfold flagged. revert k. induction n as [|n IH]; intros k Hf; simpl; [done|].
  rewrite !filter_cons, (Hf k) by lia. case_decide; [f_equal|]; apply IH; intros i Hi; apply Hf; lia.
Qed.

Lemma channel_loop_serves fuel k flag s : (k ≤ 16)%nat → (16 - k < fuel)%nat →
  (∀ i, (i < k)%nat → Z.testbit flag (Z.of_nat i) = false) →
  channel_loop known availableToRead queue_read fuel chans flag s =
    Some (foldl (serve known availableToRead queue_read chans) s (flagged flag k (16 - k))).
Proof.
  revert k flag s. induction fuel as [|fuel IH]; intros k flag s Hk Hf Hlow; [lia|].
  cbn [channel_loop]. unfold kMaxChannels. pose proof (countr_zero_spec flag) as Hc.
  pose proof (countr_zero_low flag) as Hlo. simpl in Hc.
  case_decide as Hlt.
  - set (c := countr_zero flag) in *. specialize (Hc ltac:(lia)).
    assert (k ≤ c)%nat as Hkc.
    { destruct (decide (c < k)%nat) as [Hck|]; [|lia]. rewrite (Hlow c Hck) in Hc. done. }
    assert (∀ i, Z.testbit (Z.land flag (flag - 1)) (Z.of_nat i) =
      Z.testbit flag (Z.of_nat i) && bool_decide (i ≠ c)) as Hcl.
    { intros i. apply clear_lowest; [done|]. intros j Hj. apply Hlo; lia. }
    rewrite (IH (S c)); [|lia..|].
    2:{ intros i Hi. rewrite Hcl. destruct (decide (i = c)) as [->|].
        - by rewrite bool_decide_false, andb_false_r by congruence.
        - by rewrite Hlo by lia. }
    f_equal. replace (16 - k)%nat with ((c - k) + S (16 - S c))%nat by lia. unfold flagged at 2.
    rewrite seq_app, filter_app. fold (flagged flag k (c - k)). rewrite (flagged_none flag k (c - k))
      by (intros i Hi; apply Hlo; lia).
    replace (k + (c - k))%nat with c by lia. simpl. rewrite filter_cons_True by done. simpl.
    f_equal. apply (flagged_ext (Z.land flag (flag - 1)) flag). intros i Hi. rewrite Hcl.
    rewrite bool_decide_true, andb_true_r by lia. done.
  - rewrite flagged_none; [done|]. intros i Hi. apply Hlo; lia.
Qed.

End loop.

(** The loop over the bits of the flag ends, and serves every flagged
    channel of the sixteen exactly once, from the lowest slot up. *)
Theorem turn_serves_flagged known availableToRead queue_read g flag s :
  group_turn known availableToRead queue_read g flag s =
    Some (foldl (serve known availableToRead queue_read (mChannels g)) s (flagged flag 0 16)).
Proof. apply (channel_loop_serves known availableToRead queue_read (mChannels g) 17 0); intros; lia. Qed.

(** ** Two applications *)
Definition two_apps : list channel_op :=
  [GetSessionChannel 100 10001 true; GetSessionChannel 200 10002 true; CloseSessionChannel 100 10001].

Lemma channels_consistent_witness :
  ∃ m, channel_steps two_apps new_manager = Some m ∧ totalChannelCount m = 1 ∧
    mChannelMap m !! pack 200 10002 = Some (pack 0 1).
Proof.
  destruct (channels_consistent two_apps) as (m & Hm & _ & _ & Ht & _);
    [repeat constructor; vm_compute; congruence|vm_compute; congruence|].
  exists m. split; [exact Hm|]. rewrite Ht. vm_compute in Hm. injection Hm as <-.
  split; vm_compute; reflexivity.
Defined.

Lemma channel_is_kept_witness :
  ∃ r m1 m2, getChannelConfig 300 10003 true new_manager = Some (Some r, m1) ∧
    channel_steps two_apps m1 = Some m2 ∧ getChannelConfig 300 10003 false m2 = Some (Some r, m2).
Proof.
  destruct (channel_is_kept [] two_apps 300 10003 true false new_manager)
    as (r & m1 & m2 & H1 & H2 & H3);
    [constructor|repeat constructor; vm_compute; congruence|split; vm_compute; congruence
    |vm_compute; congruence|repeat constructor; vm_compute; congruence|reflexivity|].
  destruct r as [r|]; [exists r, m1, m2; exact (conj H1 (conj H2 H3))|].
  exfalso. vm_compute in H1. congruence.
Defined.

(** A hint behind two frames is lost, for whichever session it is. *)
Example hint_behind_frames_is_lost :
  dispatch (λ _, true) 3 [Message 1 10 (MWorkDuration 5 5 0); Message 1 20 (MWorkDuration 6 6 0);
    Message 2 30 (MHint H_CPU_LOAD_UP)] =
  [(1, SReport [Reported (Work 10 5) 5 0; Reported (Work 20 6) 6 0])].
Proof. reflexivity. Qed.
