(* ===== verification/PowerService.v ===== *)
(** * Power HAL: the service

    Models [power-libperfmgr/aidl/Power.cpp], [PowerExt.cpp],
    [PowerModeExtension.cpp] and [SupportManager.cpp]: what the calls of the
    framework ask of the hint manager, of the interaction handler
    ([Interaction]) and of the channels ([PowerChannels]), and what is reported
    as supported.  The hint manager (libperfmgr) is given by its answers; the
    names and the numbers of the enumerators are those of the AIDL interface. *)
From stdpp Require Import strings.
From S2P Require Import Prelude Interaction PowerChannels.

(** ** Enumerations, in the order of the tables of [SupportManager.cpp] *)
Inductive Mode :=
  | DOUBLE_TAP_TO_WAKE | LOW_POWER | SUSTAINED_PERFORMANCE | FIXED_PERFORMANCE | VR | LAUNCH
  | EXPENSIVE_RENDERING | INTERACTIVE | DEVICE_IDLE | DISPLAY_INACTIVE
  | AUDIO_STREAMING_LOW_LATENCY | CAMERA_STREAMING_SECURE | CAMERA_STREAMING_LOW
  | CAMERA_STREAMING_MID | CAMERA_STREAMING_HIGH | MODE_GAME | GAME_LOADING | DISPLAY_CHANGE
  | AUTOMOTIVE_PROJECTION.

Inductive Boost :=
  | INTERACTION | DISPLAY_UPDATE_IMMINENT | ML_ACC | AUDIO_LAUNCH | CAMERA_LAUNCH | CAMERA_SHOT.

#[export] Instance Mode_eq_dec : EqDecision Mode.
Proof. solve_decision. Defined.
#[export] Instance Boost_eq_dec : EqDecision Boost.
Proof. solve_decision. Defined.

Definition all_modes : list Mode :=
  [DOUBLE_TAP_TO_WAKE; LOW_POWER; SUSTAINED_PERFORMANCE; FIXED_PERFORMANCE; VR; LAUNCH;
   EXPENSIVE_RENDERING; INTERACTIVE; DEVICE_IDLE; DISPLAY_INACTIVE; AUDIO_STREAMING_LOW_LATENCY;
   CAMERA_STREAMING_SECURE; CAMERA_STREAMING_LOW; CAMERA_STREAMING_MID; CAMERA_STREAMING_HIGH;
   MODE_GAME; GAME_LOADING; DISPLAY_CHANGE; AUTOMOTIVE_PROJECTION].
Definition all_boosts : list Boost :=
  [INTERACTION; DISPLAY_UPDATE_IMMINENT; ML_ACC; AUDIO_LAUNCH; CAMERA_LAUNCH; CAMERA_SHOT].

Definition kModeEarliestVersionMap (m : Mode) : Z :=
  match m with
  | MODE_GAME | GAME_LOADING => 3
  | DISPLAY_CHANGE | AUTOMOTIVE_PROJECTION => 5
  | _ => 1
  end.
Definition kBoostEarliestVersionMap (b : Boost) : Z := 1.

Inductive SessionHint :=
  | CPU_LOAD_UP | CPU_LOAD_DOWN | CPU_LOAD_RESET | CPU_LOAD_RESUME | HINT_POWER_EFFICIENCY
  | GPU_LOAD_UP | GPU_LOAD_DOWN | GPU_LOAD_RESET | CPU_LOAD_SPIKE | GPU_LOAD_SPIKE.
Inductive SessionMode := MODE_POWER_EFFICIENCY | GRAPHICS_PIPELINE | AUTO_CPU | AUTO_GPU.
Inductive SessionTag := OTHER | SURFACEFLINGER | HWUI | TAG_GAME | APP | SYSUI.

#[export] Instance SessionHint_eq_dec : EqDecision SessionHint.
Proof. solve_decision. Defined.
#[export] Instance SessionMode_eq_dec : EqDecision SessionMode.
Proof. solve_decision. Defined.
#[export] Instance SessionTag_eq_dec : EqDecision SessionTag.
Proof. solve_decision. Defined.

Definition all_session_hints : list SessionHint :=
  [CPU_LOAD_UP; CPU_LOAD_DOWN; CPU_LOAD_RESET; CPU_LOAD_RESUME; HINT_POWER_EFFICIENCY; GPU_LOAD_UP;
   GPU_LOAD_DOWN; GPU_LOAD_RESET; CPU_LOAD_SPIKE; GPU_LOAD_SPIKE].
Definition all_session_modes : list SessionMode :=
  [MODE_POWER_EFFICIENCY; GRAPHICS_PIPELINE; AUTO_CPU; AUTO_GPU].
Definition all_session_tags : list SessionTag := [OTHER; SURFACEFLINGER; HWUI; TAG_GAME; APP; SYSUI].

Definition kSessionHintEarliestVersionMap (h : SessionHint) : Z :=
  match h with
  | GPU_LOAD_UP | GPU_LOAD_DOWN | GPU_LOAD_RESET => 5
  | CPU_LOAD_SPIKE | GPU_LOAD_SPIKE => 6
  | _ => 4
  end.
Definition kSessionModeEarliestVersionMap (m : SessionMode) : Z :=
  match m with MODE_POWER_EFFICIENCY => 5 | _ => 6 end.
Definition kSessionTagEarliestVersionMap (t : SessionTag) : Z :=
  match t with SYSUI => 6 | _ => 5 end.

(** What the hint manager and the session manager are asked to do. *)
Inductive perf_call :=
  | DoHint (name : string) (ms : option Z)
  | EndHint (name : string)
  | UpdateHintMode (name : string) (enabled : bool)
  | WriteTapToWake (enabled : bool).

(** The state of the service, with the calls it made. *)
Record power := Power {
  mSustainedPerfModeOn : bool;
  mInteractionHandler : handler;
  channels : manager;
  p_calls : list perf_call
}.

Definition set_sustained (s : power) : power :=
  Power true (mInteractionHandler s) (channels s) (p_calls s).
Definition ask (c : list perf_call) (s : power) : power :=
  Power (mSustainedPerfModeOn s) (mInteractionHandler s) (channels s) (p_calls s ++ c).
Definition with_handler (h : handler) (s : power) : power :=
  Power (mSustainedPerfModeOn s) h (channels s) (p_calls s).
Definition with_channels (m : manager) (s : power) : power :=
  Power (mSustainedPerfModeOn s) (mInteractionHandler s) m (p_calls s).

(** The hint manager's answers about its configuration. *)
Record hint_config := HintConfig {
  IsAdpfSupported : bool;
  IsHintSupported : string → bool;
  IsAdpfProfileSupported : string → bool;
  mReportingRateLimitNs : Z
}.

(** ** The default mode extension *)
Definition isDeviceSpecificModeSupported (type : Mode) : option bool := None.
Definition setDeviceSpecificMode (type : Mode) (enabled : bool) : bool := false.

(** ** Bit sets in an [int64_t] *)

(** [std::bitset<64>]: an assignment to one bit. *)
Definition assign_bit (b : bool) (n : nat) (bits : Z) : Z :=
  if b then Z.lor bits (Z.shiftl 1 (Z.of_nat n)) else Z.ldiff bits (Z.shiftl 1 (Z.of_nat n)).

(** [(supportInt >> n) % 2], converted to [bool]. *)
Definition supportFromBitset (supportInt : Z) (n : nat) : bool :=
  negb (Z.rem (Z.shiftr supportInt (Z.of_nat n)) 2 =? 0)%Z.

Section service.
Context (mode_name : Mode → string) (boost_name : Boost → string).
Context (mode_bit : Mode → nat) (boost_bit : Boost → nat).
Context (hint_bit : SessionHint → nat) (session_mode_bit : SessionMode → nat)
  (tag_bit : SessionTag → nat).
(** [IPower::version], and the configuration. *)
Context (version : Z) (g : hint_config).
(** The properties of the interaction handler. *)
Context (kDisplayIdleSupport : bool) (kMinDurationMs kMaxDurationMs kDurationOffsetMs : Z).

(** ** Support *)
Definition hint_or_profile (name : string) : bool :=
  let supported := IsHintSupported g name in
  if negb supported && IsAdpfProfileSupported g name then true else supported.

Definition modeSupported (type : Mode) : bool :=
  if (version <? kModeEarliestVersionMap type)%Z then false
  else if decide (type = DOUBLE_TAP_TO_WAKE) then true
  else if decide (type = LOW_POWER) then true
  else hint_or_profile (mode_name type).

Definition boostSupported (type : Boost) : bool :=
  if (version <? kBoostEarliestVersionMap type)%Z then false else hint_or_profile (boost_name type).

Definition set_bits {E} (bit : E → nat) (supported : E → bool) (all : list E) : Z :=
  foldl (λ bits e, assign_bit (supported e) (bit e) bits) 0%Z all.

Definition sessionHintSupported (type : SessionHint) : bool :=
  if (version <? kSessionHintEarliestVersionMap type)%Z then false
  else match type with HINT_POWER_EFFICIENCY => false | _ => true end.
Definition sessionModeSupported (type : SessionMode) : bool :=
  if (version <? kSessionModeEarliestVersionMap type)%Z then false
  else match type with MODE_POWER_EFFICIENCY | GRAPHICS_PIPELINE => false | _ => true end.
Definition sessionTagSupported (type : SessionTag) : bool :=
  negb (version <? kSessionTagEarliestVersionMap type)%Z.

(** [to_ullong] and the conversion to [int64_t]. *)
Definition bits_of {E} (bit : E → nat) (supported : E → bool) (all : list E) : Z :=
  wrap_signed 64 (set_bits bit supported all).

Record support_info := SupportInfo {
  usesSessions : bool;
  modes : Z;
  boosts : Z;
  sessionHints : Z;
  sessionModes : Z;
  sessionTags : Z
}.

Definition makeSupportInfo : support_info :=
  let modes := bits_of mode_bit modeSupported all_modes in
  let boosts := bits_of boost_bit boostSupported all_boosts in
  if negb (IsAdpfSupported g) then SupportInfo false modes boosts 0 0 0
  else
    SupportInfo true modes boosts (bits_of hint_bit sessionHintSupported all_session_hints)
      (bits_of session_mode_bit sessionModeSupported all_session_modes)
      (bits_of tag_bit sessionTagSupported all_session_tags).

Definition isModeSupported (type : Mode) : bool :=
  match isDeviceSpecificModeSupported type with
  | Some b => b
  | None => supportFromBitset (modes makeSupportInfo) (mode_bit type)
  end.

Definition isBoostSupported (type : Boost) : bool :=
  supportFromBitset (boosts makeSupportInfo) (boost_bit type).

(** ** Modes and boosts *)

(** [Power::Power]: the three properties. *)
Definition new_power (opened event_created : bool) (state audio rendering : string) : option power :=
  match Init opened event_created new_handler with
  | Next h =>
      let s := Power false h new_manager [] in
      let s :=
        if String.eqb state "SUSTAINED_PERFORMANCE" then
          set_sustained (ask [DoHint "SUSTAINED_PERFORMANCE" None] s)
        else s in
      let s :=
        if String.eqb audio "AUDIO_STREAMING_LOW_LATENCY" then ask [DoHint audio None] s else s in
      Some (if String.eqb rendering "EXPENSIVE_RENDERING"
            then ask [DoHint "EXPENSIVE_RENDERING" None] s else s)
  | _ => None
  end.

Definition do_or_end (name : string) (enabled : bool) (s : power) : power :=
  ask [if enabled then DoHint name None else EndHint name] s.

Definition setMode (type : Mode) (enabled : bool) (s : power) : power :=
  let s := if IsAdpfSupported g then ask [UpdateHintMode (mode_name type) enabled] s else s in
  if setDeviceSpecificMode type enabled then s
  else
    match type with
    | SUSTAINED_PERFORMANCE =>
        set_sustained (if enabled then ask [DoHint "SUSTAINED_PERFORMANCE" None] s else s)
    | DOUBLE_TAP_TO_WAKE => ask [WriteTapToWake enabled] s
    | LAUNCH => if mSustainedPerfModeOn s then s else do_or_end (mode_name type) enabled s
    | _ => do_or_end (mode_name type) enabled s
    end.

(** A duration that is zero is the hint's own, a negative one ends it. *)
Definition boost_hint (name : string) (durationMs : Z) (s : power) : power :=
  if (0 <? durationMs)%Z then ask [DoHint name (Some durationMs)] s
  else if (durationMs =? 0)%Z then ask [DoHint name None] s
  else ask [EndHint name] s.

Definition setBoost (type : Boost) (durationMs : Z) (now : timespec) (s : power) : option power :=
  match type with
  | INTERACTION =>
      if mSustainedPerfModeOn s then Some s
      else
        h ← Acquire kDisplayIdleSupport kMinDurationMs kMaxDurationMs kDurationOffsetMs durationMs now
          (mInteractionHandler s);
        Some (with_handler h s)
  | _ => Some (if mSustainedPerfModeOn s then s else boost_hint (boost_name type) durationMs s)
  end.

(** [PowerExt]: the same for modes and boosts by name. *)
Definition ext_setMode (mode : string) (enabled : bool) (s : power) : power :=
  let s := do_or_end mode enabled s in
  if IsAdpfSupported g then ask [UpdateHintMode mode enabled] s else s.
Definition ext_setBoost (boost : string) (durationMs : Z) : power → power :=
  boost_hint boost durationMs.
Definition ext_isModeSupported (mode : string) : bool := hint_or_profile mode.
Definition ext_isBoostSupported (boost : string) : bool := hint_or_profile boost.

(** ** Sessions and channels *)
Inductive binder_status :=
  | OK
  | EX_UNSUPPORTED_OPERATION
  | EX_ILLEGAL_ARGUMENT
  | Status_EX_ILLEGAL_STATE.

Definition getHintSessionPreferredRate : Z * binder_status :=
  let outNanoseconds := if IsAdpfSupported g then mReportingRateLimitNs g else 0%Z in
  (outNanoseconds, if (outNanoseconds <=? 0)%Z then EX_UNSUPPORTED_OPERATION else OK).

(** Whether a session is made for the threads. *)
Definition createHintSessionWithConfig (threadIds : list Z) : bool * binder_status :=
  if negb (IsAdpfSupported g) then (false, EX_UNSUPPORTED_OPERATION)
  else if decide (length threadIds = 0) then (false, EX_ILLEGAL_ARGUMENT)
  else (true, OK).

Definition getSessionChannel (tgid uid : Z) (valid : bool) (s : power) :
    option (option channel_config * binder_status * power) :=
  r ← getChannelConfig tgid uid valid (channels s);
  let '(config, m) := r in
  Some (config, match config with Some _ => OK | None => Status_EX_ILLEGAL_STATE end,
    with_channels m s).

Definition closeSessionChannel (tgid uid : Z) (s : power) : option (binder_status * power) :=
  r ← closeChannel tgid uid (channels s);
  Some (OK, with_channels r.2 s).

(** ** Calls of the framework *)
Inductive service_op :=
  | CallSetMode (type : Mode) (enabled : bool)
  | CallSetBoost (type : Boost) (durationMs : Z) (now : timespec)
  | CallExtSetMode (mode : string) (enabled : bool)
  | CallExtSetBoost (boost : string) (durationMs : Z)
  | CallGetSessionChannel (tgid uid : Z) (valid : bool)
  | CallCloseSessionChannel (tgid uid : Z).

Definition service_step (o : service_op) (s : power) : option power :=
  match o with
  | CallSetMode type enabled => Some (setMode type enabled s)
  | CallSetBoost type durationMs now => setBoost type durationMs now s
  | CallExtSetMode mode enabled => Some (ext_setMode mode enabled s)
  | CallExtSetBoost boost durationMs => Some (ext_setBoost boost durationMs s)
  | CallGetSessionChannel tgid uid valid => snd <$> getSessionChannel tgid uid valid s
  | CallCloseSessionChannel tgid uid => snd <$> closeSessionChannel tgid uid s
  end.

Definition service_steps (l : list service_op) (s : power) : option power :=
  foldl (λ s o, s ≫= service_step o) (Some s) l.
End service.

(** ** Bits *)
Lemma supportFromBitset_testbit v n : supportFromBitset v n = Z.testbit v (Z.of_nat n).
Proof.
  unfold supportFromBitset. rewrite <- (Z.add_0_l (Z.of_nat n)), <- Z.shiftr_spec, Z.bit0_odd by lia.
  rewrite Z.add_0_l. generalize (Z.shiftr v (Z.of_nat n)). intros z.
  rewrite <- Z.negb_even. f_equal. destruct (Z.even z) eqn:E.
  - apply Z.even_spec in E as [k ->]. rewrite Z.mul_comm, Z.rem_mul by done. done.
  - apply Z.eqb_neq. intros Er. apply Z.rem_divide in Er as [k ->]; [|done].
    rewrite Z.even_mul, orb_true_r in E. done.
Qed.

Lemma testbit_wrap_signed w z n : (0 ≤ n < w)%Z → Z.testbit (wrap_signed w z) n = Z.testbit z n.
Proof.
  intros Hn. rewrite <- (Z.mod_pow2_bits_low (wrap_signed w z) w n), <- (Z.mod_pow2_bits_low z w n) by lia.
  f_equal. unfold wrap_signed. rewrite Zminus_mod_idemp_l. f_equal. lia.
Qed.

Lemma testbit_assign b n bits m :
  Z.testbit (assign_bit b n bits) (Z.of_nat m) =
    if decide (m = n) then b else Z.testbit bits (Z.of_nat m).
Proof.
  unfold assign_bit. rewrite Z.shiftl_1_l.
  destruct b; rewrite ?Z.lor_spec, ?Z.ldiff_spec, Z.pow2_bits_eqb by lia;
    (destruct (decide (m = n)) as [->|Hne];
      [rewrite Z.eqb_refl|rewrite (proj2 (Z.eqb_neq _ _)) by lia]);
    by rewrite ?orb_true_r, ?orb_false_r, ?andb_false_r, ?andb_true_r.
Qed.

Lemma testbit_set_bits {E} (bit : E → nat) supported all e : Inj (=) (=) bit →
  NoDup all → e ∈ all → Z.testbit (set_bits bit supported all) (Z.of_nat (bit e)) = supported e.
Proof.
  intros Hi Hnd He. unfold set_bits. generalize 0%Z as z. induction all as [|x l IH]; intros z.
  { by apply not_elem_of_nil in He. }
  apply NoDup_cons in Hnd as [Hx Hnd]. apply elem_of_cons in He as [->|He]; [|by apply IH].
  simpl. clear IH Hnd. cut (Z.testbit (assign_bit (supported x) (bit x) z) (Z.of_nat (bit x)) = supported x).
  - generalize (assign_bit (supported x) (bit x) z). induction l as [|y l IH]; intros z' Hz; [done|].
    apply not_elem_of_cons in Hx as [Hxy Hx]. simpl. apply IH; [done|].
    rewrite testbit_assign, decide_False; [done|]. intros Hb. by apply Hxy, Hi.
  - by rewrite testbit_assign, decide_True.
Qed.

Lemma bits_of_exact {E} (bit : E → nat) supported all e : Inj (=) (=) bit → (bit e < 64)%nat →
  NoDup all → e ∈ all → supportFromBitset (bits_of bit supported all) (bit e) = supported e.
Proof.
  intros Hi Hb Hnd He. unfold bits_of.
  rewrite supportFromBitset_testbit, testbit_wrap_signed by lia. by apply testbit_set_bits.
Qed.

Lemma all_modes_nodup : NoDup all_modes.
Proof. by apply (bool_decide_unpack _). Qed.
Lemma all_boosts_nodup : NoDup all_boosts.
Proof. by apply (bool_decide_unpack _). Qed.
Lemma elem_of_all_modes m : m ∈ all_modes.
Proof. apply (bool_decide_unpack _). by destruct m. Qed.
Lemma elem_of_all_boosts b : b ∈ all_boosts.
Proof. apply (bool_decide_unpack _). by destruct b. Qed.

(** ** Properties *)
Section props.
Context (mode_name : Mode → string) (boost_name : Boost → string).
Context (mode_bit : Mode → nat) (boost_bit : Boost → nat).
Context (hint_bit : SessionHint → nat) (session_mode_bit : SessionMode → nat)
  (tag_bit : SessionTag → nat).
Context (version : Z) (g : hint_config).
Context (kDisplayIdleSupport : bool) (kMinDurationMs kMaxDurationMs kDurationOffsetMs : Z).

(** The service answers that a mode or a boost is supported exactly if its
    version is reached and it is in the configuration, or handled by the service
    itself; the bits of the enumerators are distinct and below 64. *)
Theorem support_is_exact m b : Inj (=) (=) mode_bit → Inj (=) (=) boost_bit →
  (∀ m, mode_bit m < 64) → (∀ b, boost_bit b < 64) →
  isModeSupported mode_name boost_name mode_bit boost_bit hint_bit session_mode_bit tag_bit version g m =
    modeSupported mode_name version g m ∧
  isBoostSupported mode_name boost_name mode_bit boost_bit hint_bit session_mode_bit tag_bit version g b =
    boostSupported boost_name version g b.
Proof.
  intros Hm Hb Hm64 Hb64. unfold isModeSupported, isBoostSupported, makeSupportInfo. simpl.
  split; destruct (IsAdpfSupported g); simpl; apply bits_of_exact;
    auto using all_modes_nodup, all_boosts_nodup, elem_of_all_modes, elem_of_all_boosts.
Qed.

Abbreviation next := (service_step mode_name boost_name g kDisplayIdleSupport kMinDurationMs
  kMaxDurationMs kDurationOffsetMs).
Abbreviation run := (service_steps mode_name boost_name g kDisplayIdleSupport kMinDurationMs
  kMaxDurationMs kDurationOffsetMs).

Lemma sustained_step o s s' : next o s = Some s' →
  mSustainedPerfModeOn s = true → mSustainedPerfModeOn s' = true.
Proof.
  destruct o as [type enabled|type ms now|mode enabled|boost ms|tgid uid v|tgid uid]; simpl.
  - intros [= <-] Hs. unfold setMode. destruct (IsAdpfSupported g), type, enabled; simpl; rewrite ?Hs; done.
  - unfold setBoost. destruct type; intros Hr Hs; rewrite Hs in Hr; by simplify_eq.
  - intros [= <-] Hs. unfold ext_setMode. by destruct (IsAdpfSupported g).
  - intros [= <-] Hs. unfold ext_setBoost, boost_hint. by repeat case_match.
  - unfold getSessionChannel. destruct (getChannelConfig _ _ _ _) as [[c m]|]; [|done].
    intros [= <-] Hs. done.
  - unfold closeSessionChannel. destruct (closeChannel _ _ _) as [[c m]|]; [|done].
    intros [= <-] Hs. done.
Qed.

Lemma sustained_steps l s s' : run l s = Some s' →
  mSustainedPerfModeOn s = true → mSustainedPerfModeOn s' = true.
Proof.
  unfold service_steps. revert s. induction l as [|o l IH]; intros s; simpl; [by intros [= <-]|].
  destruct (next o s) as [s1|] eqn:Hs.
  - intros Hr Ht. apply (IH s1 Hr). by eapply sustained_step.
  - intros Hr. exfalso. clear -Hr. induction l as [|o' l IH]; [done|auto].
Qed.

(** The sustained performance mode is never left: after it was set once, be it
    to off, no boost of the framework has an effect again. *)
Theorem sustained_is_never_left enabled l s s' type durationMs now :
  run (CallSetMode SUSTAINED_PERFORMANCE enabled :: l) s = Some s' →
  next (CallSetBoost type durationMs now) s' = Some s'.
Proof.
  intros Hr. assert (mSustainedPerfModeOn s' = true) as Ht.
  { by apply (sustained_steps l (setMode mode_name g SUSTAINED_PERFORMANCE enabled s) s'). }
  simpl. unfold setBoost. by destruct type; rewrite Ht.
Qed.
End props.

(** Turning the mode off ends no hint, and the next touch is not boosted. *)
Example sustained_off_stops_boosts :
  let g := HintConfig false (λ _, true) (λ _, false) 0 in
  let name := λ _ : Mode, EmptyString in
  let s := default (Power false new_handler new_manager [])
    (new_power true true EmptyString EmptyString EmptyString) in
  let s' := setMode name g SUSTAINED_PERFORMANCE false s in
  p_calls s' = [] ∧ setBoost (λ _, EmptyString) true 1400 5650 650 INTERACTION 0 (Timespec 1 0) s' = Some s' ∧
  (hints ∘ mInteractionHandler) <$>
    setBoost (λ _, EmptyString) true 1400 5650 650 INTERACTION 0 (Timespec 1 0) s = Some [PerfLock].
Proof. repeat split. Qed.
