(* ===== verification/CropMapper.v ===== *)
(** * Camera HAL3: the crop region mapper

    Models [camera/QCamera2/HAL3/QCamera3CropRegionMapper.cpp]: rectangles and
    points are mapped between the active array of the sensor and its output,
    which may be smaller.  Sizes and rectangles are [int32_t], whose overflow
    is undefined ([None]); points are [uint32_t] and wrap around. *)
From S2P Require Import Prelude.
Local Open Scope Z_scope.

(** ** Data *)
Record mapper := Mapper {
  mSensorW : Z;
  mSensorH : Z;
  mActiveArrayW : Z;
  mActiveArrayH : Z
}.

Definition new_mapper : mapper := Mapper 0 0 0 0.

Record rect := Rect { left : Z; top : Z; width : Z; height : Z }.

(** Arithmetic of [int32_t]. *)
Definition int32 (z : Z) : option Z := if (- 2 ^ 31 <=? z) && (z <? 2 ^ 31) then Some z else None.

(** ** Operations *)
Definition update (active_array_w active_array_h sensor_w sensor_h : Z) (m : mapper) : mapper :=
  if (active_array_w =? 0) || (active_array_h =? 0) || (sensor_w =? 0) || (sensor_h =? 0) then m
  else if (active_array_w <? sensor_w) || (active_array_h <? sensor_h) then m
  else
    Mapper (wrap_signed 32 sensor_w) (wrap_signed 32 sensor_h) (wrap_signed 32 active_array_w)
      (wrap_signed 32 active_array_h).

Definition uninitialized (m : mapper) : bool :=
  (mSensorW m =? 0) || (mSensorH m =? 0) || (mActiveArrayW m =? 0) || (mActiveArrayH m =? 0).

Definition boundToSize (r : rect) (bound_w bound_h : Z) : option rect :=
  let l := if left r <? 0 then 0 else left r in
  let t := if top r <? 0 then 0 else top r in
  right ← int32 (l + width r);
  w ← (if bound_w <? right then int32 (bound_w - l) else Some (width r));
  bottom ← int32 (t + height r);
  h ← (if bound_h <? bottom then int32 (bound_h - t) else Some (height r));
  Some (Rect l t w h).

(** [x * to / from] in [int32_t]; the quotient of the least number by -1
    overflows too. *)
Definition scale (x to from : Z) : option Z := p ← int32 (x * to); int32 (p ÷ from).

Definition map_rect (to_w from_w to_h from_h : Z) (r : rect) : option rect :=
  l ← scale (left r) to_w from_w;
  t ← scale (top r) to_h from_h;
  w ← scale (width r) to_w from_w;
  h ← scale (height r) to_h from_h;
  boundToSize (Rect l t w h) to_w to_h.

Definition toActiveArray (m : mapper) (r : rect) : option rect :=
  if uninitialized m then Some r
  else map_rect (mActiveArrayW m) (mSensorW m) (mActiveArrayH m) (mSensorH m) r.

Definition toSensor (m : mapper) (r : rect) : option rect :=
  if uninitialized m then Some r
  else map_rect (mSensorW m) (mActiveArrayW m) (mSensorH m) (mActiveArrayH m) r.

(** The sizes are converted to [uint32_t] in the products and quotients. *)
Definition scale_point (x to from : Z) : Z :=
  wrap_unsigned 32 (x * wrap_unsigned 32 to) `div` wrap_unsigned 32 from.

Definition map_point (to_w from_w to_h from_h : Z) (p : Z * Z) : Z * Z :=
  if (wrap_unsigned 32 from_w <? p.1) || (wrap_unsigned 32 from_h <? p.2) then p
  else (scale_point p.1 to_w from_w, scale_point p.2 to_h from_h).

Definition toActiveArray_point (m : mapper) (p : Z * Z) : Z * Z :=
  if uninitialized m then p
  else map_point (mActiveArrayW m) (mSensorW m) (mActiveArrayH m) (mSensorH m) p.

Definition toSensor_point (m : mapper) (p : Z * Z) : Z * Z :=
  if uninitialized m then p
  else map_point (mSensorW m) (mActiveArrayW m) (mSensorH m) (mActiveArrayH m) p.

(** ** Rectangles within bounds *)
Definition inside (r : rect) (w h : Z) : Prop :=
  0 ≤ left r ∧ 0 ≤ top r ∧ 0 ≤ width r ∧ 0 ≤ height r ∧ left r + width r ≤ w ∧ top r + height r ≤ h.

(** Sizes that [update] accepts and whose products are [int32_t]. *)
Definition sized (m : mapper) : Prop :=
  0 < mSensorW m ≤ mActiveArrayW m ∧ 0 < mSensorH m ≤ mActiveArrayH m ∧
  mSensorW m * mActiveArrayW m < 2 ^ 31 ∧ mSensorH m * mActiveArrayH m < 2 ^ 31.

Lemma int32_Some z : - 2 ^ 31 ≤ z < 2 ^ 31 → int32 z = Some z.
Proof.
  intros Hz. unfold int32. rewrite (proj2 (Z.leb_le _ _)) by lia. by rewrite (proj2 (Z.ltb_lt _ _)) by lia.
Qed.

Lemma sized_initialized m : sized m → uninitialized m = false.
Proof.
  intros (? & ? & ? & ?). unfold uninitialized. rewrite !orb_false_iff, !Z.eqb_neq. lia.
Qed.

Lemma update_sized aw ah sw sh m : 0 < sw ≤ aw → 0 < sh ≤ ah → sw * aw < 2 ^ 31 → sh * ah < 2 ^ 31 →
  update aw ah sw sh m = Mapper sw sh aw ah ∧ sized (Mapper sw sh aw ah).
Proof.
  intros Hw Hh Haw Hah. split; [|by unfold sized]. unfold update.
  rewrite !(proj2 (Z.eqb_neq _ _)) by lia. rewrite !(proj2 (Z.ltb_ge _ _)) by lia. simpl.
  rewrite !wrap_signed_small; try done; change (2 ^ (32 - 1)) with (2 ^ 31); nia.
Qed.

Lemma scale_in x to from : 0 ≤ x ≤ from → 0 < from → 0 < to → from * to < 2 ^ 31 →
  scale x to from = Some (x * to / from) ∧ 0 ≤ x * to / from ≤ to.
Proof.
  intros Hx Hf Ht Hm. assert (0 ≤ x * to ≤ from * to) as Hp by nia.
  assert (0 ≤ x * to / from ≤ to) as Hq.
  { split; [apply Z.div_pos; lia|]. apply Z.div_le_upper_bound; lia. }
  split; [|done]. unfold scale. rewrite int32_Some by lia. simpl.
  rewrite Z.quot_div_nonneg by lia. apply int32_Some. nia.
Qed.

Lemma boundToSize_inside r w h : inside r w h → w < 2 ^ 31 → h < 2 ^ 31 → boundToSize r w h = Some r.
Proof.
  destruct r as [l t rw rh]. unfold inside, boundToSize. simpl. intros (? & ? & ? & ? & ? & ?) ? ?.
  rewrite !(proj2 (Z.ltb_ge _ 0)) by done.
  rewrite !int32_Some by lia. simpl.
  by rewrite !(proj2 (Z.ltb_ge _ _)) by lia.
Qed.

Lemma div_add_le a b c : 0 < c → a / c + b / c ≤ (a + b) / c.
Proof.
  intros Hc. apply Z.div_le_lower_bound; [done|].
  pose proof (Z.mul_div_le a c Hc). pose proof (Z.mul_div_le b c Hc). lia.
Qed.

Definition scaled (to_w from_w to_h from_h : Z) (r : rect) : rect :=
  Rect (left r * to_w / from_w) (top r * to_h / from_h) (width r * to_w / from_w)
    (height r * to_h / from_h).

Lemma map_rect_inside tw fw th fh r :
  0 < fw → 0 < tw → 0 < fh → 0 < th → fw * tw < 2 ^ 31 → fh * th < 2 ^ 31 → inside r fw fh →
  map_rect tw fw th fh r = Some (scaled tw fw th fh r) ∧ inside (scaled tw fw th fh r) tw th.
Proof.
  intros Hfw Htw Hfh Hth Hmw Hmh (Hl & Ht & Hw & Hh & Hlw & Hth').
  destruct (scale_in (left r) tw fw) as [E1 ?]; [lia..|].
  destruct (scale_in (top r) th fh) as [E2 ?]; [lia..|].
  destruct (scale_in (width r) tw fw) as [E3 ?]; [lia..|].
  destruct (scale_in (height r) th fh) as [E4 ?]; [lia..|].
  assert (inside (scaled tw fw th fh r) tw th) as Hin.
  { unfold inside, scaled. simpl. repeat split; try lia.
    - etrans; [apply div_add_le; lia|]. rewrite <- Z.mul_add_distr_r.
      apply Z.div_le_upper_bound; [lia|]. apply Z.mul_le_mono_nonneg_r; lia.
    - etrans; [apply div_add_le; lia|]. rewrite <- Z.mul_add_distr_r.
      apply Z.div_le_upper_bound; [lia|]. apply Z.mul_le_mono_nonneg_r; lia. }
  split; [|done]. unfold map_rect. rewrite E1, E2, E3, E4. simpl.
  apply boundToSize_inside; [exact Hin|nia..].
Qed.

(** Mapping to the larger size and back. *)
Lemma scale_back x s a : 0 < s ≤ a → 0 ≤ x →
  x - 1 ≤ x * a / s * s / a ≤ x ∧ ((s | a) → x * a / s * s / a = x).
Proof.
  intros Hs Hx. pose proof (Z.mul_div_le (x * a) s ltac:(lia)) as Hlo.
  pose proof (Z.mul_succ_div_gt (x * a) s ltac:(lia)) as Hhi.
  set (q := x * a / s) in *. split; [split|].
  - apply Z.div_le_lower_bound; lia.
  - apply Z.div_le_upper_bound; lia.
  - intros [k ->]. unfold q. rewrite Z.mul_assoc, Z.div_mul by lia.
    rewrite <- Z.mul_assoc. apply Z.div_mul. lia.
Qed.

(** ** Properties *)

(** The parts of a pixel are dropped: [q] is [x * to / from], rounded down. *)
Definition rounds_down (x to from q : Z) : Prop := q * from ≤ x * to < (q + 1) * from.

Lemma div_rounds_down x to from : 0 < from → rounds_down x to from (x * to / from).
Proof.
  intros Hf. unfold rounds_down. pose proof (Z.mul_div_le (x * to) from Hf).
  pose proof (Z.mul_succ_div_gt (x * to) from Hf). lia.
Qed.

(** The output as a whole overflows, if the products do not fit. *)
Lemma whole_output_overflows m : 0 < mSensorW m → 0 < mSensorH m → 0 < mActiveArrayW m → 0 < mActiveArrayH m →
  2 ^ 31 ≤ mSensorW m * mActiveArrayW m →
  toActiveArray m (Rect 0 0 (mSensorW m) (mSensorH m)) = None.
Proof.
  intros ? ? ? ? Hm. unfold toActiveArray, uninitialized. rewrite !(proj2 (Z.eqb_neq _ _)) by lia.
  unfold map_rect. cbn [left top width height orb].
  assert (∀ to from, scale 0 to from = Some 0) as E0 by done.
  assert (scale (mSensorW m) (mActiveArrayW m) (mSensorW m) = None) as E1.
  { unfold scale. assert (int32 (mSensorW m * mActiveArrayW m) = None) as ->; [|done].
    unfold int32. rewrite (proj2 (Z.ltb_ge _ _)) by lia. by rewrite andb_false_r. }
  rewrite !E0, E1. done.
Qed.

(** C36: If neither size of the sensor's output is larger than the active
    array's and the products of the two widths and of the two heights are less
    than 2^31: a rectangle within the output is mapped into the active array,
    and any rectangle within the active array into the output, without
    overflow and without being cut, the latter with each number scaled and
    rounded down; from the output to the array and back, each number loses at
    most one, and nothing if the sizes divide. *)
Theorem crop_maps_within_and_back m : sized m →
  (∀ r, inside r (mSensorW m) (mSensorH m) →
   ∃ r' r'', toActiveArray m r = Some r' ∧ inside r' (mActiveArrayW m) (mActiveArrayH m) ∧
     toSensor m r' = Some r'' ∧ inside r'' (mSensorW m) (mSensorH m) ∧
     (left r - 1 ≤ left r'' ≤ left r ∧ top r - 1 ≤ top r'' ≤ top r ∧
      width r - 1 ≤ width r'' ≤ width r ∧ height r - 1 ≤ height r'' ≤ height r) ∧
     ((mSensorW m | mActiveArrayW m) → (mSensorH m | mActiveArrayH m) → r'' = r)) ∧
  (∀ r, inside r (mActiveArrayW m) (mActiveArrayH m) →
   ∃ r', toSensor m r = Some r' ∧ inside r' (mSensorW m) (mSensorH m) ∧
     rounds_down (left r) (mSensorW m) (mActiveArrayW m) (left r') ∧
     rounds_down (top r) (mSensorH m) (mActiveArrayH m) (top r') ∧
     rounds_down (width r) (mSensorW m) (mActiveArrayW m) (width r') ∧
     rounds_down (height r) (mSensorH m) (mActiveArrayH m) (height r')).
Proof.
  intros Hs. pose proof (sized_initialized m Hs) as Hu. destruct Hs as (Hw & Hh & Hmw & Hmh).
  assert (∀ r, inside r (mActiveArrayW m) (mActiveArrayH m) →
    toSensor m r = Some (scaled (mSensorW m) (mActiveArrayW m) (mSensorH m) (mActiveArrayH m) r) ∧
    inside (scaled (mSensorW m) (mActiveArrayW m) (mSensorH m) (mActiveArrayH m) r) (mSensorW m) (mSensorH m))
    as Hback.
  { intros r Hr. unfold toSensor. rewrite Hu. apply map_rect_inside; [lia..|done]. }
  split; intros r Hr.
  - destruct (map_rect_inside (mActiveArrayW m) (mSensorW m) (mActiveArrayH m) (mSensorH m) r)
      as [E1 H1]; [lia..|done|].
    destruct (Hback _ H1) as [E2 H2]. destruct Hr as (Hl & Ht & Hrw & Hrh & _).
    destruct (scale_back (left r) _ _ Hw Hl) as [B1 D1]. destruct (scale_back (top r) _ _ Hh Ht) as [B2 D2].
    destruct (scale_back (width r) _ _ Hw Hrw) as [B3 D3].
    destruct (scale_back (height r) _ _ Hh Hrh) as [B4 D4].
    eexists _, _. unfold toActiveArray. rewrite Hu. split; [exact E1|]. split; [exact H1|].
    split; [exact E2|]. split; [exact H2|].
    split; [done|]. intros Dw Dh. unfold scaled. simpl. rewrite D1, D2, D3, D4 by done. by destruct r.
  - destruct (Hback r Hr) as [E H]. eexists. split; [exact E|]. split; [exact H|].
    split_and!; apply div_rounds_down; lia.
Qed.

Lemma crop_maps_within_and_back_witness :
  let m := update 4208 3120 2104 1560 new_mapper in
  sized m ∧ ∃ r', toActiveArray m (Rect 100 50 1000 700) = Some r' ∧
    toSensor m r' = Some (Rect 100 50 1000 700).
Proof.
  assert (sized (update 4208 3120 2104 1560 new_mapper)) as Hs by (vm_compute; repeat split; congruence).
  split; [exact Hs|].
  destruct (crop_maps_within_and_back _ Hs) as [H _].
  destruct (H (Rect 100 50 1000 700)) as (r' & r'' & H1 & _ & H2 & _ & _ & Hd).
  - vm_compute. repeat split; congruence.
  - exists r'. split; [exact H1|]. rewrite H2. f_equal. apply Hd; by exists 2.
Defined.

(** A rectangle that begins outside is not cut: it gets a negative width, or
    keeps its width as its left edge is moved. *)
Example outside_gets_negative_width : boundToSize (Rect 200 0 50 50) 100 100 = Some (Rect 200 0 (-100) 50).
Proof. reflexivity. Qed.
Example left_of_zero_is_moved : boundToSize (Rect (-30) 0 50 50) 100 100 = Some (Rect 0 0 50 50).
Proof. reflexivity. Qed.
