(* ===== verification/Lights.v ===== *)
(** * The lights HAL

    [light/*.cpp]: the colours and their scaling ([Utils.cpp]), the devices
    behind files of the kernel ([BacklightDevice], [LedDevice],
    [RgbLedDevice], [Devices]), and the service [Lights]: the notification LED
    is shared by three lights and blinked by a thread of its own, which reads
    the settings under the lock and writes the files outside of it.  A function
    that writes files is a program [io]; a thread is its remaining program, so
    that threads interleave at every single write. *)
From stdpp Require Import strings.
From S2P Require Import Prelude.

Local Open Scope Z_scope.

(** ** Colours *)
Record rgb := Rgb { red : Z; green : Z; blue : Z }.

#[export] Instance rgb_eq_dec : EqDecision rgb.
Proof. solve_decision. Defined.

Definition black : rgb := Rgb 0 0 0.

Definition scaled_by (a c : Z) : Z :=
  if bool_decide (0 < a < 255) then wrap_unsigned 8 ((c * a) `div` 255) else c.

Definition rgb_of (color : Z) : rgb :=
  let a := Z.land (Z.shiftr color 24) 255 in
  Rgb (scaled_by a (Z.land (Z.shiftr color 16) 255))
    (scaled_by a (Z.land (Z.shiftr color 8) 255)) (scaled_by a (Z.land color 255)).

Definition isLit (c : rgb) : bool := negb (red c =? 0) || negb (green c =? 0) || negb (blue c =? 0).

Definition kRw : Z := 77.
Definition kGw : Z := 150.
Definition kBw : Z := 29.

Definition toBrightness (c : rgb) : Z :=
  wrap_unsigned 8 (Z.shiftr (kRw * red c + kGw * green c + kBw * blue c) 8).

Definition scaleBrightness (brightness maxBrightness : Z) : Z :=
  wrap_unsigned 32 (brightness * maxBrightness) `div` 255.

(** ** Files

    A path is its directory, the name of the device and the name of the node.
    A write that is answered with success may be lost when the stream is
    closed, behind the test. *)
Record path := Path { dir : string; dev : string; node : string }.

#[export] Instance path_eq_dec : EqDecision path.
Proof. solve_decision. Defined.
#[export] Instance path_countable : Countable path.
Proof.
  apply (inj_countable' (λ p, (dir p, dev p, node p)) (λ x, Path x.1.1 x.1.2 x.2)). by intros [].
Defined.

Inductive value := Num (n : Z) | OnOff (on off : Z).

Abbreviation files := (gmap path value).

Inductive io (A : Type) :=
  | Done (a : A)
  | WriteToFile (p : path) (v : value) (k : bool → io A).
Arguments Done {_} _.
Arguments WriteToFile {_} _ _ _.

Fixpoint io_bind {A B} (f : A → io B) (p : io A) : io B :=
  match p with
  | Done a => f a
  | WriteToFile q v k => WriteToFile q v (λ ok, io_bind f (k ok))
  end.

#[export] Instance io_mret : MRet io := λ A, Done.
#[export] Instance io_mbind : MBind io := λ A B, io_bind.

Definition writeToFile (p : path) (v : value) : io bool := WriteToFile p v Done.

Inductive write_result := Stored | LostOnClose | NotOpened.

Definition answer (r : write_result) : bool := match r with NotOpened => false | _ => true end.

Definition stored (r : write_result) (p : path) (v : value) (f : files) : files :=
  match r with Stored => <[p := v]> f | _ => f end.

(** What a number that is read finds: a file that cannot be opened or that is
    empty leaves the variable, another text sets it to 0, a number that is too
    large to the greatest one. *)
Inductive content := Missing | Empty | NotANumber | Digits (n : Z).

Definition readFromFile (c : content) (old : Z) : Z :=
  match c with
  | Missing | Empty => old
  | NotANumber => 0
  | Digits n => Z.min n (2 ^ 32 - 1)
  end.

(** The files at the start of the service. *)
Record boot := Boot { good : path → bool; number : path → content }.

(** ** Devices *)
Definition kDefaultMaxBrightness : Z := 255.
Definition kBrightnessNode : string := "brightness".
Definition kMaxBrightnessNode : string := "max_brightness".
Definition kOnOffMsNode : string := "on_off_ms".
Definition kBacklightBasePath : string := "/sys/class/backlight/".
Definition kBaseLedsPath : string := "/sys/class/leds/".

Record backlight := Backlight { bl_name : string; bl_max : Z }.

Definition bl_path (d : backlight) : string → path := Path kBacklightBasePath (bl_name d).

Definition new_backlight (b : boot) (name : string) : backlight :=
  Backlight name (readFromFile (number b (Path kBacklightBasePath name kMaxBrightnessNode))
    kDefaultMaxBrightness).

Definition bl_exists (b : boot) (d : backlight) : bool := good b (bl_path d kBrightnessNode).

Definition bl_setBrightness (d : backlight) (v : Z) : io bool :=
  writeToFile (bl_path d kBrightnessNode) (Num (scaleBrightness v (bl_max d))).

Inductive LightMode := STATIC | BREATH.

Record BlinkConfig := Blink { bc_onMs : Z; bc_offMs : Z }.

Definition no_blink : BlinkConfig := Blink 0 0.

Definition valid (b : BlinkConfig) : bool := (0 <? bc_onMs b) && (0 <? bc_offMs b).

Record led := Led { led_name : string; led_max : Z; mBreathNode : string; mHasOnOffMs : bool }.

Definition led_path (d : led) : string → path := Path kBaseLedsPath (led_name d).

Definition kBreathCandidates : list string := ["breath"; "blink"]%string.

Definition new_led (b : boot) (name : string) : led :=
  let at_node := Path kBaseLedsPath name in
  Led name (readFromFile (number b (at_node kMaxBrightnessNode)) kDefaultMaxBrightness)
    (default ""%string (snd <$> list_find (λ n, good b (at_node n)) kBreathCandidates))
    (good b (at_node kOnOffMsNode)).

Definition led_exists (b : boot) (d : led) : bool := good b (led_path d kBrightnessNode).

Definition led_supportsBreath (d : led) : bool := bool_decide (mBreathNode d ≠ ""%string).

Definition write_breath (d : led) (n : Z) : io bool := writeToFile (led_path d (mBreathNode d)) (Num n).

Definition setRawBrightness (d : led) (v : Z) : io bool :=
  writeToFile (led_path d kBrightnessNode) (Num (scaleBrightness v (led_max d))).

Definition setBreathEnabled (d : led) (enabled : bool) : io bool :=
  if led_supportsBreath d then write_breath d (if enabled then 1 else 0) else mret true.

Definition setBreathTiming (d : led) (blink : BlinkConfig) : io bool :=
  if mHasOnOffMs d && valid blink then
    writeToFile (led_path d kOnOffMsNode) (OnOff (bc_onMs blink) (bc_offMs blink))
  else mret true.

Definition led_setBrightness (d : led) (v : Z) (mode : LightMode) (blink : BlinkConfig) : io bool :=
  _ ← (if led_supportsBreath d then write_breath d 0 else mret true);
  ok ← setRawBrightness d v;
  if negb ok then mret false
  else match mode with
  | STATIC => mret true
  | BREATH =>
      if negb (led_supportsBreath d) then mret true
      else
        _ ← setBreathTiming d blink;
        write_breath d (if 0 <? v then 1 else 0)
  end.

Record rgb_led := RgbLed {
  mR : led; mG : led; mB : led;
  mHasR : bool; mHasG : bool; mHasB : bool
}.

Definition new_rgb_led (b : boot) (r g bl : led) : rgb_led :=
  RgbLed r g bl (led_exists b r) (led_exists b g) (led_exists b bl).

Definition rgb_exists (d : rgb_led) : bool := mHasR d || mHasG d || mHasB d.

Definition rgb_supportsBreath (d : rgb_led) : bool :=
  negb (mHasR d && negb (led_supportsBreath (mR d))) &&
  negb (mHasG d && negb (led_supportsBreath (mG d))) &&
  negb (mHasB d && negb (led_supportsBreath (mB d))).

(** [if (has) ok &= p] *)
Definition on_channel (has : bool) (p : io bool) (ok : bool) : io bool :=
  if has then b ← p; mret (ok && b) else mret ok.

Definition rgb_setBrightness (d : rgb_led) (c : rgb) : io bool :=
  ok ← on_channel (mHasR d) (setBreathEnabled (mR d) false) true;
  ok ← on_channel (mHasG d) (setBreathEnabled (mG d) false) ok;
  ok ← on_channel (mHasB d) (setBreathEnabled (mB d) false) ok;
  ok ← on_channel (mHasR d) (setRawBrightness (mR d) (red c)) ok;
  ok ← on_channel (mHasG d) (setRawBrightness (mG d) (green c)) ok;
  on_channel (mHasB d) (setRawBrightness (mB d) (blue c)) ok.

Record devices := Devices {
  mBacklights : list backlight;
  mBacklightLeds : list led;
  mRgbNotifications : list rgb_led
}.

Definition kBacklightCandidates : list string := ["backlight"; "panel0-backlight"]%string.
Definition kBacklightLedCandidates : list string := ["lcd-backlight"]%string.

Definition new_devices (b : boot) : devices :=
  let rgbDev := new_rgb_led b (new_led b "red") (new_led b "green") (new_led b "blue") in
  Devices (base.filter (λ d, bl_exists b d) (new_backlight b <$> kBacklightCandidates))
    (base.filter (λ d, led_exists b d) (new_led b <$> kBacklightLedCandidates))
    (if rgb_exists rgbDev then [rgbDev] else []).

Definition hasBacklightDevices (d : devices) : bool :=
  bool_decide (mBacklights d ≠ []) || bool_decide (mBacklightLeds d ≠ []).

Definition hasNotificationDevices (d : devices) : bool := bool_decide (mRgbNotifications d ≠ []).

(** A loop over devices whose results are dropped. *)
Fixpoint for_each {A} (f : A → io bool) (l : list A) : io () :=
  match l with [] => mret () | x :: l => _ ← f x; for_each f l end.

Definition setBacklightColor (d : devices) (color : rgb) : io () :=
  let br := toBrightness color in
  _ ← for_each (λ x, bl_setBrightness x br) (mBacklights d);
  for_each (λ x, led_setBrightness x br STATIC no_blink) (mBacklightLeds d).

Definition setNotificationColor (d : devices) (color : rgb) : io () :=
  for_each (λ x, rgb_setBrightness x color) (mRgbNotifications d).

(** ** The service *)
Inductive FlashMode := FLASH_NONE | FLASH_TIMED | FLASH_HARDWARE.

#[export] Instance FlashMode_eq_dec : EqDecision FlashMode.
Proof. solve_decision. Defined.

Record HwLightState := LightState {
  color : Z; flashMode : FlashMode; flashOnMs : Z; flashOffMs : Z
}.

Definition no_light : HwLightState := LightState 0 FLASH_NONE 0 0.

(** [OtherType]: every other identifier. *)
Inductive LightType := BACKLIGHT | BATTERY | NOTIFICATIONS | ATTENTION | OtherType (id : Z).

Definition kDebounceMs : Z := 50.

(** What [mMutex] guards. *)
Record lights := Lights {
  mLastApplyMs : Z;
  mLastBattery : HwLightState;
  mLastNotification : HwLightState;
  mLastAttention : HwLightState;
  mBlinkEnabled : bool;
  mBlinkOnMs : Z;
  mBlinkOffMs : Z;
  mBlinkColor : rgb
}.

Definition new_lights : lights := Lights 0 no_light no_light no_light false 0 0 black.

Definition with_apply (t : Z) (s : lights) : lights :=
  Lights t (mLastBattery s) (mLastNotification s) (mLastAttention s) (mBlinkEnabled s)
    (mBlinkOnMs s) (mBlinkOffMs s) (mBlinkColor s).
Definition with_blink (e : bool) (on off : Z) (c : rgb) (s : lights) : lights :=
  Lights (mLastApplyMs s) (mLastBattery s) (mLastNotification s) (mLastAttention s) e on off c.

Definition getLights (d : devices) : list LightType :=
  (if hasBacklightDevices d then [BACKLIGHT] else []) ++
  (if hasNotificationDevices d then [BATTERY; NOTIFICATIONS; ATTENTION] else []).

Definition coloured (s : HwLightState) : bool := negb (Z.land (color s) 0xffffff =? 0).

Definition allOff (s : lights) : bool :=
  negb (coloured (mLastBattery s)) && negb (coloured (mLastNotification s)) &&
  negb (coloured (mLastAttention s)).

Definition chosen (s : lights) : HwLightState :=
  if coloured (mLastNotification s) then mLastNotification s
  else if coloured (mLastAttention s) then mLastAttention s
  else if coloured (mLastBattery s) then mLastBattery s
  else no_light.

Definition wantBlink (c : HwLightState) : bool :=
  bool_decide (flashMode c = FLASH_TIMED ∨ flashMode c = FLASH_HARDWARE) && coloured c.

Definition blink_ms (c : HwLightState) (ms : Z) : Z :=
  if wantBlink c && (ms <? 50) then 1000 else ms.

Definition too_soon (now : Z) (s : lights) : bool :=
  negb (allOff s) && (now - mLastApplyMs s <? kDebounceMs).

Definition rgb_of_state (c : HwLightState) : rgb := rgb_of (wrap_unsigned 32 (color c)).

Definition updateCompositeLedLocked (d : devices) (now : Z) (s : lights) : lights * io () :=
  if too_soon now s then (s, mret ())
  else
    let s := with_apply now s in
    let c := chosen s in
    let s := with_blink (wantBlink c) (blink_ms c (flashOnMs c)) (blink_ms c (flashOffMs c))
      (rgb_of_state c) s in
    (s, if mBlinkEnabled s then mret () else setNotificationColor d (rgb_of_state c)).

Definition store_state (type : LightType) (state : HwLightState) (s : lights) : option lights :=
  match type with
  | BATTERY => Some (Lights (mLastApplyMs s) state (mLastNotification s) (mLastAttention s)
      (mBlinkEnabled s) (mBlinkOnMs s) (mBlinkOffMs s) (mBlinkColor s))
  | NOTIFICATIONS => Some (Lights (mLastApplyMs s) (mLastBattery s) state (mLastAttention s)
      (mBlinkEnabled s) (mBlinkOnMs s) (mBlinkOffMs s) (mBlinkColor s))
  | ATTENTION => Some (Lights (mLastApplyMs s) (mLastBattery s) (mLastNotification s) state
      (mBlinkEnabled s) (mBlinkOnMs s) (mBlinkOffMs s) (mBlinkColor s))
  | BACKLIGHT | OtherType _ => None
  end.

Inductive status := StatusOk | Unsupported.

(** The status of a call, what it writes, and the settings after it.  The
    backlight is set without the lock, the LED with it. *)
Definition setLightState (d : devices) (type : LightType) (state : HwLightState) (now : Z)
    (s : lights) : status * lights * io () :=
  match type with
  | BACKLIGHT => (StatusOk, s, setBacklightColor d (rgb_of_state state))
  | _ =>
      match store_state type state s with
      | None => (Unsupported, s, mret ())
      | Some s => let '(s, p) := updateCompositeLedLocked d now s in (StatusOk, s, p)
      end
  end.

Definition takes_lock (type : LightType) : bool := match type with BACKLIGHT => false | _ => true end.

(** ** The thread that blinks

    It is at the top of its loop, has writes to do before it sleeps, sleeps
    (and flips the phase behind it, or not), or has returned. *)
Inductive blinker_at :=
  | AtTop
  | Writing (ms : Z) (p : io ())
  | Sleeping (ms : Z) (flip : bool)
  | Returned.

Record blinker := Blinker { phaseOn : bool; lastOn : Z; lastOff : Z; lastColor : rgb; pos : blinker_at }.

Definition new_blinker : blinker := Blinker false 0 0 black AtTop.

Definition moved (p : blinker_at) (w : blinker) : blinker :=
  Blinker (phaseOn w) (lastOn w) (lastOff w) (lastColor w) p.

Definition writing (ms : Z) (p : io ()) : blinker_at :=
  match p with Done _ => Sleeping ms true | _ => Writing ms p end.

(** One turn of the loop up to the writes, which begins with the read under the
    lock. *)
Definition blink_turn (d : devices) (s : lights) (w : blinker) : blinker :=
  if negb (mBlinkEnabled s) then
    Blinker false (lastOn w) (lastOff w) (lastColor w) (Sleeping 50 false)
  else
    let changed := negb (mBlinkOnMs s =? lastOn w) || negb (mBlinkOffMs s =? lastOff w) ||
      bool_decide (mBlinkColor s ≠ lastColor w) in
    let w := if changed then Blinker true (mBlinkOnMs s) (mBlinkOffMs s) (mBlinkColor s) (pos w) else w in
    if phaseOn w then moved (writing (mBlinkOnMs s) (setNotificationColor d (mBlinkColor s))) w
    else moved (writing (mBlinkOffMs s) (setNotificationColor d black)) w.

Definition wake (w : blinker) : option blinker :=
  match pos w with
  | Sleeping _ flip =>
      Some (Blinker (if flip then negb (phaseOn w) else phaseOn w) (lastOn w) (lastOff w)
        (lastColor w) AtTop)
  | _ => None
  end.

(** ** The process: one binder thread and the blinking thread *)
Record process := Process {
  settings : lights;
  contents : files;
  running : bool;
  caller : option (bool * io ());   (* holds the lock?, the writes left *)
  thread : blinker
}.

Definition new_process (f : files) : process := Process new_lights f true None new_blinker.

Definition with_thread (w : blinker) (x : process) : process :=
  Process (settings x) (contents x) (running x) (caller x) w.

Definition unfinished (locked : bool) (p : io ()) : option (bool * io ()) :=
  match p with Done _ => None | _ => Some (locked, p) end.

Definition write_one (r : write_result) (p : io ()) (f : files) : option (io () * files) :=
  match p with
  | Done _ => None
  | WriteToFile q v k => Some (k (answer r), stored r q v f)
  end.

Inductive op :=
  | SetLightState (type : LightType) (state : HwLightState) (now : Z)
  | CallerWrites (r : write_result)
  | ThreadReads
  | ThreadWrites (r : write_result)
  | ThreadWakes
  | Destroy.

Definition locked (x : process) : bool := match caller x with Some (true, _) => true | _ => false end.

(** [None]: the step is not possible now. *)
Definition step (d : devices) (o : op) (x : process) : option process :=
  match o with
  | SetLightState type state now =>
      match caller x with
      | Some _ => None
      | None =>
          let '(_, s, p) := setLightState d type state now (settings x) in
          Some (Process s (contents x) (running x) (unfinished (takes_lock type) p) (thread x))
      end
  | CallerWrites r =>
      '(l, p) ← caller x;
      '(p, f) ← write_one r p (contents x);
      Some (Process (settings x) f (running x) (unfinished l p) (thread x))
  | ThreadReads =>
      match pos (thread x) with
      | AtTop =>
          if negb (running x) then Some (with_thread (moved Returned (thread x)) x)
          else if locked x then None
          else Some (with_thread (blink_turn d (settings x) (thread x)) x)
      | _ => None
      end
  | ThreadWrites r =>
      match pos (thread x) with
      | Writing ms p =>
          '(p, f) ← write_one r p (contents x);
          Some (Process (settings x) f (running x) (caller x) (moved (writing ms p) (thread x)))
      | _ => None
      end
  | ThreadWakes => w ← wake (thread x); Some (with_thread w x)
  | Destroy =>
      match caller x with
      | Some _ => None
      | None => Some (Process (settings x) (contents x) false None (thread x))
      end
  end.

Fixpoint steps (d : devices) (l : list op) (x : process) : option process :=
  match l with [] => Some x | o :: l => x ← step d o x; steps d l x end.

(** ** Ranges *)
Lemma land_byte z : 0 ≤ Z.land z 255 ≤ 255.
Proof.
  change 255 with (Z.ones 8). rewrite Z.land_ones by done.
  pose proof (Z.mod_pos_bound z (2 ^ 8)). change (2 ^ 8) with 256 in *. change (Z.ones 8) with 255. lia.
Qed.

Lemma scaled_by_range a c : 0 ≤ c ≤ 255 → 0 ≤ scaled_by a c ≤ c.
Proof.
  intros Hc. unfold scaled_by. case_bool_decide as Ha; [|lia].
  assert (0 ≤ (c * a) `div` 255 ≤ c) as Hq.
  { split; [apply Z.div_pos; lia|]. apply Z.div_le_upper_bound; nia. }
  rewrite wrap_unsigned_small; [done|]. change (2 ^ 8) with 256. lia.
Qed.

Lemma toBrightness_range c : 0 ≤ red c ≤ 255 → 0 ≤ green c ≤ 255 → 0 ≤ blue c ≤ 255 →
  toBrightness c = (77 * red c + 150 * green c + 29 * blue c) `div` 256 ∧ 0 ≤ toBrightness c ≤ 255.
Proof.
  intros Hr Hg Hb. unfold toBrightness, kRw, kGw, kBw. rewrite Z.shiftr_div_pow2 by done.
  change (2 ^ 8) with 256 in *.
  assert (0 ≤ (77 * red c + 150 * green c + 29 * blue c) `div` 256 ≤ 255) as Hq.
  { split; [apply Z.div_pos; lia|]. apply Z.div_le_upper_bound; lia. }
  rewrite wrap_unsigned_small; [done|]. change (2 ^ 8) with 256. lia.
Qed.

Lemma scaleBrightness_range b m : 0 ≤ b ≤ 255 → 0 ≤ m ≤ 16843009 →
  scaleBrightness b m = (b * m) `div` 255 ∧ 0 ≤ scaleBrightness b m ≤ m.
Proof.
  intros Hb Hm. unfold scaleBrightness.
  rewrite wrap_unsigned_small by (split; [|change (2 ^ 32) with 4294967296]; nia).
  split; [done|]. split; [apply Z.div_pos; nia|]. apply Z.div_le_upper_bound; nia.
Qed.

(** The components of a colour are bytes, no brighter than they were asked for;
    the brightness is a byte; and what is written to a node is between 0 and
    the node's maximum, as long as 255 times that fits in 32 bits. *)
Theorem brightness_in_range argb m : 0 ≤ m ≤ 16843009 →
  let c := rgb_of argb in
  0 ≤ red c ≤ Z.land (Z.shiftr argb 16) 255 ∧ 0 ≤ green c ≤ Z.land (Z.shiftr argb 8) 255 ∧
  0 ≤ blue c ≤ Z.land argb 255 ∧ 0 ≤ toBrightness c ≤ 255 ∧
  0 ≤ scaleBrightness (toBrightness c) m ≤ m ∧ scaleBrightness 255 m = m ∧ scaleBrightness 0 m = 0.
Proof.
  intros Hm c.
  pose proof (scaled_by_range (Z.land (Z.shiftr argb 24) 255) _ (land_byte (Z.shiftr argb 16))).
  pose proof (scaled_by_range (Z.land (Z.shiftr argb 24) 255) _ (land_byte (Z.shiftr argb 8))).
  pose proof (scaled_by_range (Z.land (Z.shiftr argb 24) 255) _ (land_byte argb)).
  pose proof (land_byte (Z.shiftr argb 16)). pose proof (land_byte (Z.shiftr argb 8)).
  pose proof (land_byte argb).
  destruct (toBrightness_range c) as [_ Hb]; [unfold c; simpl; lia..|].
  destruct (scaleBrightness_range (toBrightness c) m Hb Hm) as [_ Hs].
  destruct (scaleBrightness_range 255 m ltac:(lia) Hm) as [-> _].
  destruct (scaleBrightness_range 0 m ltac:(lia) Hm) as [-> _].
  rewrite (Z.mul_comm 255), Z.div_mul, Z.mul_0_l by lia. unfold c in *. simpl. tauto.
Qed.

(** ** What a program writes when every write succeeds *)
Fixpoint finish {A} (p : io A) (f : files) : files :=
  match p with Done _ => f | WriteToFile q v k => finish (k true) (<[q := v]> f) end.

Fixpoint result {A} (p : io A) : A :=
  match p with Done a => a | WriteToFile _ _ k => result (k true) end.

Lemma finish_bind {A B} (p : io A) (g : A → io B) f :
  finish (p ≫= g) f = finish (g (result p)) (finish p f).
Proof. revert f. induction p as [a|q v k IH]; intros f; [done|]. apply (IH true). Qed.

(** Whatever the writes answer, the program writes no path of [Q]. *)
Fixpoint keeps (Q : path → Prop) {A} (p : io A) : Prop :=
  match p with Done _ => True | WriteToFile q v k => ¬ Q q ∧ ∀ b, keeps Q (k b) end.

Lemma io_keeps_bind Q {A B} (p : io A) (g : A → io B) :
  keeps Q p → (∀ a, keeps Q (g a)) → keeps Q (p ≫= g).
Proof.
  intros Hp Hg. induction p as [a|q v k IH]; [by apply Hg|].
  destruct Hp as [Hq Hk]. split; [done|]. intros b. by apply (IH b).
Qed.

Lemma keeps_for_each Q {A} (g : A → io bool) l :
  Forall (λ x, keeps Q (g x)) l → keeps Q (for_each g l).
Proof. induction 1; [done|]. by apply io_keeps_bind. Qed.

Section led.
Context (b : boot).

Definition rgb_device : rgb_led := new_rgb_led b (new_led b "red") (new_led b "green") (new_led b "blue").
Abbreviation d := (new_devices b).

(** The nodes of the LED that show its colour. *)
Definition led_node (q : path) : Prop :=
  dir q = kBaseLedsPath ∧ dev q ∈ ["red"; "green"; "blue"]%string.

Definition channel_shows (has : bool) (x : led) (v : Z) (f : files) : Prop :=
  has = true → f !! led_path x kBrightnessNode = Some (Num (scaleBrightness v (led_max x))).

Definition shows (f : files) (c : rgb) : Prop :=
  channel_shows (mHasR rgb_device) (mR rgb_device) (red c) f ∧
  channel_shows (mHasG rgb_device) (mG rgb_device) (green c) f ∧
  channel_shows (mHasB rgb_device) (mB rgb_device) (blue c) f.

Lemma breath_node_not_brightness name : mBreathNode (new_led b name) ≠ kBrightnessNode.
Proof.
  simpl. by repeat destruct (decide _).
Qed.

(** A channel is set, and the others keep what they show. *)
Lemma finish_channel has x v ok f q :
  finish (on_channel has (setRawBrightness x v) ok) f !! q =
    if decide (has = true ∧ q = led_path x kBrightnessNode)
    then Some (Num (scaleBrightness v (led_max x))) else f !! q.
Proof.
  destruct has; simpl.
  - destruct (decide (q = led_path x kBrightnessNode)) as [->|Hq].
    + rewrite decide_True by done. apply lookup_insert_eq.
    + rewrite decide_False by naive_solver. by apply lookup_insert_ne.
  - done.
Qed.

Lemma finish_breath has name ok f n :
  finish (on_channel has (setBreathEnabled (new_led b name) false) ok) f
    !! Path kBaseLedsPath n kBrightnessNode = f !! Path kBaseLedsPath n kBrightnessNode.
Proof.
  destruct has; [|done]. unfold on_channel, setBreathEnabled.
  destruct (led_supportsBreath _); simpl; [|done]. apply lookup_insert_ne.
  intros [= _ Hn]. by apply (breath_node_not_brightness name).
Qed.

Lemma setNotificationColor_shows c f : shows (finish (setNotificationColor d c) f) c.
Proof.
  unfold setNotificationColor, d, new_devices. fold rgb_device. simpl.
  destruct (rgb_exists rgb_device) eqn:He; simpl.
  - unfold rgb_setBrightness. rewrite !finish_bind. simpl.
    repeat split; intros Hh; rewrite !finish_channel; simpl in *;
      repeat (first [rewrite decide_True by done|rewrite decide_False by (by intros [_ [= ]])]); done.
  - apply orb_false_iff in He as [[Hr Hg]%orb_false_iff Hb].
    repeat split; intros Hh; congruence.
Qed.

Lemma setBacklightColor_keeps c : keeps led_node (setBacklightColor d c).
Proof.
  apply io_keeps_bind; [|intros _]; apply keeps_for_each.
  - apply Forall_forall. intros x Hx. split; [|done]. by intros [Hd _].
  - apply Forall_forall. intros x Hx. simpl in Hx.
    apply list_elem_of_filter in Hx as [_ ->%list_elem_of_singleton].
    assert (∀ n, ¬ led_node (Path kBaseLedsPath "lcd-backlight" n)) as Hn.
    { intros n [_ Hn]. simpl in Hn. repeat (apply elem_of_cons in Hn as [Hn|Hn]; [done|]).
      by apply not_elem_of_nil in Hn. }
    unfold led_setBrightness. apply io_keeps_bind; [|intros _; apply io_keeps_bind].
    + destruct (led_supportsBreath _); [|done]. split; [apply Hn|done].
    + split; [apply Hn|done].
    + by intros [|].
Qed.

Lemma shows_insert q v f c : ¬ led_node q → shows f c → shows (<[q := v]> f) c.
Proof.
  intros Hq (Hr & Hg & Hb). unfold shows, channel_shows.
  repeat split; intros Hh; rewrite lookup_insert_ne; auto; intros ->; apply Hq;
    (split; [done|]; simpl; repeat constructor).
Qed.

Lemma shows_stored r q v f c : ¬ led_node q → shows f c → shows (stored r q v f) c.
Proof. destruct r; [apply shows_insert|done..]. Qed.

(** ** What the LED shows

    A run is orderly if no call that sets the LED comes between the moment at
    which the thread has read its settings and the end of its writes, and if
    what is written under the lock arrives. *)
Definition orderly (o : op) (x : process) : Prop :=
  match o with
  | SetLightState type _ _ =>
      takes_lock type = true → match pos (thread x) with Writing _ _ => False | _ => True end
  | CallerWrites r => locked x = true → r = Stored
  | _ => True
  end.

(** The state that the last call chose that set the LED and was not dropped. *)
Definition next_chosen (o : op) (x : process) (c : HwLightState) : HwLightState :=
  match o with
  | SetLightState type state now =>
      match store_state type state (settings x) with
      | Some s => if too_soon now s then c else chosen s
      | None => c
      end
  | _ => c
  end.

Inductive reach : HwLightState → process → Prop :=
  | reach_new f : shows f black → reach no_light (new_process f)
  | reach_step c x o x' :
      reach c x → orderly o x → step d o x = Some x' → reach (next_chosen o x c) x'.

Record inv (c : HwLightState) (x : process) : Prop := Inv {
  i_enabled : mBlinkEnabled (settings x) = wantBlink c;
  i_color : mBlinkColor (settings x) = rgb_of_state c;
  i_caller : match caller x with
    | Some (true, p) => wantBlink c = false ∧ shows (finish p (contents x)) (rgb_of_state c)
    | Some (false, p) => keeps led_node p
    | None => True
    end;
  i_thread : match pos (thread x) with Writing _ _ => wantBlink c = true | _ => True end;
  i_shows : locked x = false → wantBlink c = false → shows (contents x) (rgb_of_state c)
}.

Lemma rgb_of_state_no_light : rgb_of_state no_light = black.
Proof. done. Qed.

Lemma led_inv_new f : shows f black → inv no_light (new_process f).
Proof. by split. Qed.

Lemma unfinished_cases l p :
  (∃ a, p = Done a ∧ unfinished l p = None) ∨ unfinished l p = Some (l, p).
Proof. destruct p as [a|q v k]; [left; by exists a|by right]. Qed.

(** The end of a call that has the lock: its writes are left, or it is over. *)
Lemma inv_locked c s f r w p :
  mBlinkEnabled s = wantBlink c → mBlinkColor s = rgb_of_state c →
  match pos w with Writing _ _ => wantBlink c = true | _ => True end →
  (wantBlink c = false → shows (finish p f) (rgb_of_state c)) →
  (wantBlink c = true → ∃ a, p = Done a) →
  inv c (Process s f r (unfinished true p) w).
Proof.
  intros He Hc Hw Hs Hd. destruct (unfinished_cases true p) as [(a & -> & E)|E]; rewrite E.
  - by split.
  - split; try done; simpl. destruct (wantBlink c) eqn:Hb; [|by auto].
    destruct Hd as [a ->]; done.
Qed.

(** What [updateCompositeLedLocked] leaves, from settings that fit. *)
Lemma inv_composite c s s' f r w now p :
  mBlinkEnabled s = wantBlink c → mBlinkColor s = rgb_of_state c →
  match pos w with Writing _ _ => False | _ => True end →
  (wantBlink c = false → shows f (rgb_of_state c)) →
  updateCompositeLedLocked d now s = (s', p) →
  inv (if too_soon now s then c else chosen s) (Process s' f r (unfinished true p) w).
Proof.
  intros He Hc Hw Hs. unfold updateCompositeLedLocked.
  assert (∀ c', match pos w with Writing _ _ => wantBlink c' = true | _ => True end) as Hw'.
  { intros c'. by destruct (pos w). }
  destruct (too_soon now s); intros [= <- <-]; [apply inv_locked; [done|done|apply Hw'|done|by eexists]|].
  change (chosen (with_apply now s)) with (chosen s). apply inv_locked; [done|done|apply Hw'|..]; simpl; intros ->.
  - apply setNotificationColor_shows.
  - by eexists.
Qed.

Lemma store_state_keeps type state s s' : store_state type state s = Some s' →
  mBlinkEnabled s' = mBlinkEnabled s ∧ mBlinkColor s' = mBlinkColor s.
Proof. destruct type; intros [= <-]; done. Qed.

Lemma inv_call c x type state now x' : inv c x →
  orderly (SetLightState type state now) x → step d (SetLightState type state now) x = Some x' →
  inv (next_chosen (SetLightState type state now) x c) x'.
Proof.
  intros [He Hc _ Ht Hs] Ho. simpl in Ho |- *. destruct (caller x) as [|] eqn:Hca; [done|].
  assert (locked x = false) as Hl by (unfold locked; by rewrite Hca).
  destruct (takes_lock type) eqn:Htl.
  - assert (setLightState d type state now (settings x) =
      match store_state type state (settings x) with
      | None => (Unsupported, settings x, mret ())
      | Some s => let '(s, p) := updateCompositeLedLocked d now s in (StatusOk, s, p)
      end) as -> by by destruct type.
    destruct (store_state type state (settings x)) as [s|] eqn:Hst.
    + apply store_state_keeps in Hst as [He' Hc'].
      destruct (updateCompositeLedLocked d now s) as [s' p] eqn:Hu. intros [= <-].
      apply (inv_composite c s s' _ _ _ now p); [congruence|congruence|by apply Ho|by auto|done].
    + intros [= <-]. split; try done; by auto.
  - destruct type; try done. intros [= <-].
    destruct (unfinished_cases false (setBacklightColor d (rgb_of_state state))) as [(a & _ & E)|E];
      simpl in E; rewrite E; split; try done; [by auto|apply setBacklightColor_keeps|by auto].
Qed.

Lemma inv_caller_writes c x r x' : inv c x →
  orderly (CallerWrites r) x → step d (CallerWrites r) x = Some x' → inv c x'.
Proof.
  intros [He Hc Hca Ht Hs] Ho. simpl in Ho |- *. unfold locked in Ho, Hs.
  destruct (caller x) as [[[|] [a|q v k]]|]; try done; intros [= <-].
  - rewrite (Ho eq_refl). destruct Hca as [Hb Hf]. apply inv_locked; try done. congruence.
  - destruct Hca as [Hq Hk].
    destruct (unfinished_cases false (k (answer r))) as [(a & _ & E)|E]; simpl; rewrite E;
      split; try done; try (by intros _ Hb; apply shows_stored, Hs). apply Hk.
Qed.

Lemma inv_thread_reads c x x' : inv c x → step d ThreadReads x = Some x' → inv c x'.
Proof.
  intros [He Hc Hca Ht Hs]. simpl. destruct (pos (thread x)); try done.
  destruct (running x); simpl; [|by intros [= <-]].
  destruct (locked x) eqn:Hl; [done|]. intros [= <-]. split; try done.
  - simpl. unfold blink_turn. rewrite He. destruct (wantBlink c); simpl; [|done].
    by destruct (pos (if phaseOn _ then _ else _)).
  - intros _. by apply Hs.
Qed.

Lemma led_inv_step c x o x' : inv c x → orderly o x → step d o x = Some x' →
  inv (next_chosen o x c) x'.
Proof.
  intros I Ho. destruct o as [type state now|r| |r| |].
  - by apply inv_call.
  - by apply inv_caller_writes.
  - by apply inv_thread_reads.
  - destruct I as [He Hc Hca Ht Hs]. simpl.
    destruct (pos (thread x)) as [|ms [a|q v k]| |]; try done. intros [= <-]. simpl in *.
    split; try done; simpl.
    + destruct (caller x) as [[[|] p]|]; [|done..]. destruct Hca. congruence.
    + by destruct (k (answer r)).
    + intros _. congruence.
  - destruct I as [He Hc Hca Ht Hs]. simpl. unfold wake.
    destruct (pos (thread x)); try done. by intros [= <-].
  - destruct I as [He Hc Hca Ht Hs]. simpl. destruct (caller x) eqn:E; [done|]. intros [= <-].
    split; try done. intros _. apply Hs. unfold locked. by rewrite E.
Qed.

Lemma led_inv_reach c x : reach c x → inv c x.
Proof. induction 1; [by apply led_inv_new|by eapply led_inv_step]. Qed.

Lemma led_shows c x : reach c x → locked x = false → wantBlink c = false →
  shows (contents x) (rgb_of_state c).
Proof. intros Hr. by destruct (led_inv_reach c x Hr). Qed.

(** ** What the calls ask the LED for

    Written without the functions of the service: the three lights as they
    were asked for, when a change was last applied, and the state that was
    applied then. *)
Record panel := Panel {
  asked_battery : HwLightState;
  asked_notification : HwLightState;
  asked_attention : HwLightState;
  applied_at : Z;
  applied : HwLightState
}.

Definition dark_state : HwLightState := LightState 0 FLASH_NONE 0 0.
Definition new_panel : panel := Panel dark_state dark_state dark_state 0 dark_state.

(** The colour without its alpha is not black. *)
Definition lit (s : HwLightState) : bool := bool_decide (color s `mod` 2 ^ 24 ≠ 0).

Definition first_lit (l : list HwLightState) : HwLightState :=
  default dark_state (head (base.filter lit l)).

Definition ask (type : LightType) (s : HwLightState) (p : panel) : panel :=
  match type with
  | BATTERY => Panel s (asked_notification p) (asked_attention p) (applied_at p) (applied p)
  | NOTIFICATIONS => Panel (asked_battery p) s (asked_attention p) (applied_at p) (applied p)
  | ATTENTION => Panel (asked_battery p) (asked_notification p) s (applied_at p) (applied p)
  | BACKLIGHT | OtherType _ => p
  end.

(** The lights of the LED, in the order of their priority. *)
Definition by_priority (p : panel) : list HwLightState :=
  [asked_notification p; asked_attention p; asked_battery p].

(** A change is applied if every light is dark or the one before was applied
    50 ms ago or more. *)
Definition panel_step (o : op) (p : panel) : panel :=
  match o with
  | SetLightState ((BATTERY | NOTIFICATIONS | ATTENTION) as type) state now =>
      let p := ask type state p in
      if decide (Forall (λ s, lit s = false) (by_priority p) ∨ 50 ≤ now - applied_at p) then
        Panel (asked_battery p) (asked_notification p) (asked_attention p) now (first_lit (by_priority p))
      else p
  | _ => p
  end.

(** A byte of the colour, dimmed by the alpha unless that is 0 or 255. *)
Definition component (shift : Z) (argb : Z) : Z :=
  let a := (argb `div` 2 ^ 24) `mod` 256 in
  let c := (argb `div` 2 ^ shift) `mod` 256 in
  if decide (a = 0 ∨ a = 255) then c else (c * a) `div` 255.

Definition greatest (name : string) : Z :=
  match number b (Path "/sys/class/leds/" name "max_brightness") with
  | Missing | Empty => 255
  | NotANumber => 0
  | Digits n => Z.min n (2 ^ 32 - 1)
  end.

(** The nodes that the LED has hold the components of the colour, of 255 parts
    of their greatest value (the product is one of 32 bits). *)
Definition led_has (f : files) (argb : Z) : Prop :=
  ∀ name shift, (name, shift) ∈ [("red", 16); ("green", 8); ("blue", 0)]%string →
    good b (Path "/sys/class/leds/" name "brightness") = true →
    f !! Path "/sys/class/leds/" name "brightness" =
      Some (Num (((component shift argb * greatest name) `mod` 2 ^ 32) `div` 255)).

Inductive panel_reach : panel → process → Prop :=
  | panel_new f : led_has f 0 → panel_reach new_panel (new_process f)
  | panel_more p x o x' :
      panel_reach p x → orderly o x → step d o x = Some x' → panel_reach (panel_step o p) x'.

Lemma lit_coloured s : lit s = coloured s.
Proof.
  unfold lit, coloured. change 0xffffff with (Z.ones 24). rewrite Z.land_ones by done.
  case_bool_decide; destruct (Z.eqb_spec (color s `mod` 2 ^ 24) 0); done.
Qed.

Lemma byte_of_wrapped argb k : 0 ≤ k ≤ 24 →
  Z.land (Z.shiftr (wrap_unsigned 32 argb) k) 255 = (argb `div` 2 ^ k) `mod` 256.
Proof.
  intros Hk. change 255 with (Z.ones 8). rewrite Z.land_ones, Z.shiftr_div_pow2 by lia.
  change 256 with (2 ^ 8). unfold wrap_unsigned. apply Z.bits_inj'. intros n Hn.
  rewrite !Z.testbit_mod_pow2, !Z.div_pow2_bits, Z.testbit_mod_pow2 by lia.
  destruct (Z.ltb_spec n 8); [|done]. destruct (Z.ltb_spec (n + k) 32); [done|lia].
Qed.

Lemma scaled_by_component argb k : 0 ≤ k ≤ 24 →
  scaled_by ((argb `div` 2 ^ 24) `mod` 256) ((argb `div` 2 ^ k) `mod` 256) = component k argb.
Proof.
  intros Hk. unfold scaled_by, component.
  pose proof (Z.mod_pos_bound (argb `div` 2 ^ 24) 256 ltac:(lia)) as Ha.
  pose proof (Z.mod_pos_bound (argb `div` 2 ^ k) 256 ltac:(lia)) as Hc.
  revert Ha Hc. generalize ((argb `div` 2 ^ 24) `mod` 256) as a. generalize ((argb `div` 2 ^ k) `mod` 256) as c.
  intros c a Ha Hc. case_bool_decide; case_decide; try lia.
  apply wrap_unsigned_small. change (2 ^ 8) with 256.
  split; [apply Z.div_pos; lia|]. apply Z.div_lt_upper_bound; nia.
Qed.

Lemma rgb_of_components argb :
  rgb_of (wrap_unsigned 32 argb) = Rgb (component 16 argb) (component 8 argb) (component 0 argb).
Proof.
  unfold rgb_of. rewrite !byte_of_wrapped by lia. rewrite <- !scaled_by_component by lia. f_equal.
  rewrite <- (byte_of_wrapped argb 0) by lia. by rewrite Z.shiftr_0_r.
Qed.

Lemma shows_led_has f argb : shows f (rgb_of (wrap_unsigned 32 argb)) ↔ led_has f argb.
Proof.
  rewrite rgb_of_components. split.
  - intros (Hr & Hg & Hb) name shift Hin Hgood.
    repeat (apply elem_of_cons in Hin as [[= -> ->]|Hin]); [by apply Hr|by apply Hg|by apply Hb|].
    by apply not_elem_of_nil in Hin.
  - intros H. repeat split; intros Hgood; apply (H _ _); [|exact Hgood| |exact Hgood| |exact Hgood];
      set_solver.
Qed.

(** The panel is what the settings hold. *)
Record panel_of (p : panel) (s : lights) : Prop := PanelOf {
  po_battery : mLastBattery s = asked_battery p;
  po_notification : mLastNotification s = asked_notification p;
  po_attention : mLastAttention s = asked_attention p;
  po_applied : mLastApplyMs s = applied_at p
}.

Lemma panel_of_too_soon p s now : panel_of p s →
  too_soon now s = negb (bool_decide (Forall (λ s, lit s = false) (by_priority p) ∨ 50 ≤ now - applied_at p)).
Proof.
  intros [E1 E2 E3 E4]. unfold too_soon, allOff, by_priority, kDebounceMs.
  rewrite E1, E2, E3, E4, <- !lit_coloured.
  match goal with |- _ = negb (bool_decide ?P) => destruct (bool_decide_reflect P) as [[Hd|Hd]|Hd] end.
  - rewrite !Forall_cons in Hd. destruct Hd as (-> & -> & -> & _). done.
  - rewrite (proj2 (Z.ltb_ge _ _)) by done. apply andb_false_r.
  - rewrite (proj2 (Z.ltb_lt _ _)) by (destruct (decide (50 ≤ now - applied_at p)); [tauto|lia]).
    rewrite andb_true_r. assert (¬ Forall (λ s, lit s = false) [asked_notification p; asked_attention p; asked_battery p])
      as Hn by tauto.
    destruct (lit (asked_battery p)) eqn:L1, (lit (asked_notification p)) eqn:L2,
      (lit (asked_attention p)) eqn:L3; try done. destruct Hn. by repeat (constructor; [done|]).
Qed.

Lemma panel_of_chosen p s : panel_of p s → chosen s = first_lit (by_priority p).
Proof.
  intros [E1 E2 E3 _]. unfold chosen, first_lit, by_priority.
  rewrite E1, E2, E3, <- !lit_coloured.
  destruct (lit (asked_notification p)) eqn:L1; [by rewrite filter_cons_True by (rewrite L1; exact I)|].
  rewrite filter_cons_False by (rewrite L1; exact id).
  destruct (lit (asked_attention p)) eqn:L2; [by rewrite filter_cons_True by (rewrite L2; exact I)|].
  rewrite filter_cons_False by (rewrite L2; exact id).
  destruct (lit (asked_battery p)) eqn:L3; [by rewrite filter_cons_True by (rewrite L3; exact I)|].
  by rewrite filter_cons_False by (rewrite L3; exact id).
Qed.

Lemma stored_panel type state p s s' : panel_of p s → store_state type state s = Some s' →
  panel_of (ask type state p) s'.
Proof. intros [E1 E2 E3 E4]. by destruct type; intros [= <-]. Qed.

Lemma panel_of_call p x type state now x' : panel_of p (settings x) →
  step d (SetLightState type state now) x = Some x' →
  panel_of (panel_step (SetLightState type state now) p) (settings x') ∧
  applied (panel_step (SetLightState type state now) p) =
    next_chosen (SetLightState type state now) x (applied p).
Proof.
  intros Hp. cbn [step]. destruct (caller x); [done|].
  destruct type; cbn [setLightState];
    try (by intros [= <-]);
    destruct (store_state _ state (settings x)) as [s|] eqn:Hst; try done;
    pose proof (stored_panel _ _ _ _ _ Hp Hst) as Hp'; cbn [next_chosen panel_step]; rewrite Hst;
    unfold updateCompositeLedLocked; rewrite (panel_of_too_soon _ _ now Hp');
    (destruct (decide _) as [Hd|Hd]; [rewrite bool_decide_true by done|rewrite bool_decide_false by done]);
    cbn [negb]; intros [= <-]; (split; [|by try rewrite (panel_of_chosen _ _ Hp')]); destruct Hp'; by split.
Qed.

Lemma panel_of_step p x o x' : panel_of p (settings x) → step d o x = Some x' →
  panel_of (panel_step o p) (settings x') ∧ applied (panel_step o p) = next_chosen o x (applied p).
Proof.
  intros Hp. destruct o as [type state now|r| |r| |]; [by apply panel_of_call|..]; cbn; intros Hs.
  - destruct (caller x) as [[l [|]]|]; try done. by injection Hs as <-.
  - destruct (pos (thread x)); try done. destruct (running x); simpl in Hs; [|by injection Hs as <-].
    destruct (locked x); [done|]. by injection Hs as <-.
  - destruct (pos (thread x)) as [|ms [|]| |]; try done. by injection Hs as <-.
  - destruct (wake (thread x)); [|done]. by injection Hs as <-.
  - destruct (caller x); [done|]. by injection Hs as <-.
Qed.

Lemma panel_reach_reach p x : panel_reach p x → reach (applied p) x ∧ panel_of p (settings x).
Proof.
  induction 1 as [f Hf|p x o x' _ [IH Hp] Ho Hs].
  - split; [|done]. apply (reach_new f), (shows_led_has f 0), Hf.
  - destruct (panel_of_step p x o x' Hp Hs) as [Hp' ->]. split; [|done]. by eapply reach_step.
Qed.

(** C18: The battery, notifications and attention lights share one LED. In an
    orderly run (no call that sets the LED comes while the blinking thread is
    between reading its settings and the end of its writes, and what a call
    writes to the LED arrives), whenever no such call is under way, every
    channel of the LED that exists holds the component of the colour of the
    light that was last applied, scaled to the greatest value of its node, if
    that light does not blink. A call applies the first of the notification,
    the call for attention and the battery that is lit, or darkness, if all
    three are dark or at least 50 ms have passed since a call applied one;
    other calls leave the LED alone. *)
Theorem led_shows_chosen p x : panel_reach p x → locked x = false →
  flashMode (applied p) = FLASH_NONE ∨ lit (applied p) = false →
  led_has (contents x) (color (applied p)).
Proof.
  intros [Hr _]%panel_reach_reach Hl Hb. apply shows_led_has, (led_shows (applied p)); [done..|].
  unfold wantBlink. rewrite <- lit_coloured. destruct Hb as [->| ->]; [done|apply andb_false_r].
Qed.

Fixpoint orderly_run (l : list op) (x : process) : Prop :=
  match l with
  | [] => True
  | o :: l => orderly o x ∧ match step d o x with Some x => orderly_run l x | None => True end
  end.

Fixpoint chosen_after (l : list op) (x : process) (c : HwLightState) : HwLightState :=
  match l with
  | [] => c
  | o :: l => match step d o x with Some x' => chosen_after l x' (next_chosen o x c) | None => c end
  end.

Lemma led_reach_steps l c x x' : reach c x → orderly_run l x → steps d l x = Some x' →
  reach (chosen_after l x c) x'.
Proof.
  revert c x. induction l as [|o l IH]; intros c x Hr; [by intros _ [= <-]|].
  simpl. destruct (step d o x) as [x1|] eqn:E; simpl; [|done]. intros [Ho Hl].
  apply IH; [by eapply reach_step|done].
Qed.

(** ** Changes that are never shown *)
Definition leaves_led (o : op) : Prop :=
  match o with SetLightState type _ _ => takes_lock type = false | _ => True end.

(** The LED does not blink, and nobody is about to write it. *)
Record still (x : process) : Prop := Still {
  still_enabled : mBlinkEnabled (settings x) = false;
  still_caller : match caller x with
    | Some (true, _) => False
    | Some (false, p) => keeps led_node p
    | None => True
    end;
  still_thread : match pos (thread x) with Writing _ _ => False | _ => True end
}.

Lemma still_step x o x' : still x → leaves_led o → step d o x = Some x' →
  still x' ∧ settings x' = settings x ∧ ∀ c, shows (contents x) c → shows (contents x') c.
Proof.
  intros [He Hc Ht] Ho. destruct o as [type state now|r| |r| |]; simpl in *.
  - destruct (caller x) eqn:E; [done|]. destruct type; try done. intros [= <-].
    split; [|done]. destruct (unfinished_cases false (setBacklightColor d (rgb_of_state state)))
      as [(a & _ & E')|E']; rewrite E'; split; try done. apply setBacklightColor_keeps.
  - destruct (caller x) as [[[|] [a|q v k]]|]; try done; intros [= <-]. destruct Hc as [Hq Hk].
    split; [|split; [done|intros c; by apply shows_stored]].
    destruct (unfinished_cases false (k (answer r))) as [(a & _ & E)|E]; simpl; rewrite E; split; try done.
    apply Hk.
  - destruct (pos (thread x)) eqn:E; try done. destruct (running x); simpl; [|by intros [= <-]].
    destruct (locked x); [done|]. intros [= <-]. split; [|done]. split; try done. simpl.
    unfold blink_turn. by rewrite He.
  - by destruct (pos (thread x)).
  - unfold wake. destruct (pos (thread x)); try done. by intros [= <-].
  - destruct (caller x); [done|]. by intros [= <-].
Qed.

Lemma still_steps l x x' : still x → Forall leaves_led l → steps d l x = Some x' →
  settings x' = settings x ∧ ∀ c, shows (contents x) c → shows (contents x') c.
Proof.
  intros Hx Hl. revert x Hx. induction Hl as [|o l Ho _ IH]; intros x Hx; [by intros [= <-]|].
  simpl. destruct (step d o x) as [x1|] eqn:E; simpl; [|done]. intros Hs.
  destruct (still_step x o x1 Hx Ho E) as (Hx1 & Hs1 & Hc1).
  destruct (IH x1 Hx1 Hs) as [Hs2 Hc2]. split; [congruence|auto].
Qed.

Lemma still_reach c x : reach c x → caller x = None → wantBlink c = false → still x.
Proof.
  intros Hr Hc Hb. destruct (led_inv_reach c x Hr) as [He _ _ Ht _]. split; [congruence|by rewrite Hc|].
  destruct (pos (thread x)); try done. congruence.
Qed.

(** A change of a light less than 50 ms after the one before is stored but
    not shown, and nothing makes up for it: whatever the threads and calls for
    the backlight do afterwards, the LED keeps the colour it had. *)
Theorem late_change_is_never_shown c x type state now s l x' :
  reach c x → caller x = None → wantBlink c = false →
  store_state type state (settings x) = Some s → too_soon now s = true → Forall leaves_led l →
  steps d (SetLightState type state now :: l) x = Some x' →
  settings x' = s ∧ shows (contents x') (rgb_of_state c).
Proof.
  intros Hr Hc Hb Hst Hsoon Hl Hs. destruct (still_reach c x Hr Hc Hb) as [He _ Ht].
  assert (shows (contents x) (rgb_of_state c)) as Hsh.
  { apply (led_shows c x); try done. unfold locked. by rewrite Hc. }
  destruct (store_state_keeps _ _ _ _ Hst) as [He' _].
  assert (steps d l (Process s (contents x) (running x) None (thread x)) = Some x') as Hs'.
  { rewrite <- Hs. cbn [steps step]. rewrite Hc. unfold setLightState.
    destruct type; try done; rewrite Hst; unfold updateCompositeLedLocked; by rewrite Hsoon. }
  apply still_steps in Hs' as [-> Hf]; [by auto| |done]. split; [simpl; congruence|done..].
Qed.

(** ** The LED blinks *)
Lemma steps_app l l' x : steps d (l ++ l') x = y ← steps d l x; steps d l' y.
Proof. revert x. induction l as [|o l IH]; intros x; [done|]. simpl. destruct (step d o x); [apply IH|done]. Qed.

Lemma thread_writes_all ms p x : pos (thread x) = writing ms p →
  ∃ k, steps d (replicate k (ThreadWrites Stored)) x =
    Some (Process (settings x) (finish p (contents x)) (running x) (caller x)
      (moved (Sleeping ms true) (thread x))).
Proof.
  revert x. induction p as [a|q v k IH]; intros [s f r c [ph on off co po]]; simpl; intros ->.
  - by exists 0%nat.
  - destruct (IH true (Process s (<[q := v]> f) r c (moved (writing ms (k true))
      (Blinker ph on off co AtTop))) eq_refl) as [n Hn].
    exists (S n). exact Hn.
Qed.

(** The phase that the next turn of the thread shows. *)
Definition next_phase (x : process) : bool :=
  bool_decide (mBlinkOnMs (settings x) ≠ lastOn (thread x)) ||
  bool_decide (mBlinkOffMs (settings x) ≠ lastOff (thread x)) ||
  bool_decide (mBlinkColor (settings x) ≠ lastColor (thread x)) || phaseOn (thread x).

Lemma negb_eqb_decide (a c : Z) : negb (a =? c) = bool_decide (a ≠ c).
Proof. by destruct (Z.eqb_spec a c), (bool_decide_reflect (a ≠ c)). Qed.

Lemma blink_one_turn x : pos (thread x) = AtTop → running x = true → locked x = false →
  mBlinkEnabled (settings x) = true →
  ∃ k x', steps d (ThreadReads :: replicate k (ThreadWrites Stored) ++ [ThreadWakes]) x = Some x' ∧
    shows (contents x') (if next_phase x then mBlinkColor (settings x) else black) ∧
    settings x' = settings x ∧ running x' = true ∧ locked x' = false ∧ pos (thread x') = AtTop ∧
    next_phase x' = negb (next_phase x).
Proof.
  intros Hp Hr Hl He.
  set (ph := next_phase x). set (s := settings x).
  assert (blink_turn d s (thread x) =
    Blinker ph (mBlinkOnMs s) (mBlinkOffMs s) (mBlinkColor s)
      (writing (if ph then mBlinkOnMs s else mBlinkOffMs s)
        (setNotificationColor d (if ph then mBlinkColor s else black)))) as Ht.
  { unfold blink_turn. fold s in He. rewrite He. simpl. rewrite !negb_eqb_decide.
    unfold ph, next_phase. fold s. destruct (thread x) as [po on off co at_]. simpl in *.
    destruct (bool_decide_reflect (mBlinkOnMs s ≠ on)) as [|Hon]; [done|].
    destruct (bool_decide_reflect (mBlinkOffMs s ≠ off)) as [|Hoff]; [done|].
    destruct (bool_decide_reflect (mBlinkColor s ≠ co)) as [|Hco]; [done|].
    apply dec_stable in Hon, Hoff, Hco. subst. by destruct po. }
  set (p := setNotificationColor d (if ph then mBlinkColor s else black)) in *.
  destruct (thread_writes_all (if ph then mBlinkOnMs s else mBlinkOffMs s) p
    (with_thread (blink_turn d s (thread x)) x)) as [k Hk]; [by rewrite Ht|].
  exists k. cbn [steps step]. rewrite Hp, Hr, Hl. cbn [negb mbind option_bind]. fold s.
  revert Hk. generalize (replicate k (ThreadWrites Stored)) as l. intros l Hk.
  rewrite steps_app, Hk. simpl. rewrite Ht. eexists. split; [reflexivity|]. simpl. fold s.
  repeat split; try done.
  - apply setNotificationColor_shows.
  - apply setNotificationColor_shows.
  - apply setNotificationColor_shows.
  - unfold next_phase. simpl. by rewrite !bool_decide_false by naive_solver.
Qed.

Definition of_thread (o : op) : Prop :=
  match o with ThreadReads | ThreadWrites _ | ThreadWakes => True | _ => False end.

(** While nobody calls, a LED that is to blink is lit and dark in turn: the
    thread can run turn after turn, and after each the LED shows the colour or
    nothing, the opposite of what it showed before. *)
Theorem blinks_in_turn n x : pos (thread x) = AtTop → running x = true → locked x = false →
  mBlinkEnabled (settings x) = true →
  ∃ l x', Forall of_thread l ∧ steps d l x = Some x' ∧ pos (thread x') = AtTop ∧
    shows (contents x') (if xorb (Nat.odd n) (next_phase x) then mBlinkColor (settings x) else black).
Proof.
  revert x. induction n as [|n IH]; intros x Hp Hr Hl He;
    destruct (blink_one_turn x Hp Hr Hl He) as (k & x1 & H1 & Hs1 & E1 & Hr1 & Hl1 & Hp1 & Hn1);
    assert (Forall of_thread (ThreadReads :: replicate k (ThreadWrites Stored) ++ [ThreadWakes])) as Hf
      by (constructor; [done|]; apply Forall_app; split; [|by repeat constructor];
          apply Forall_replicate; done).
  - by exists (ThreadReads :: replicate k (ThreadWrites Stored) ++ [ThreadWakes]), x1.
  - destruct (IH x1 Hp1 Hr1 Hl1 ltac:(congruence)) as (l & x2 & Hf2 & H2 & Hp2 & Hs2).
    eexists _, x2. split; [|split; [|split; [done|]]].
    + apply Forall_app; split; [exact Hf|exact Hf2].
    + by rewrite steps_app, H1.
    + rewrite Nat.odd_succ, <- Nat.negb_odd. rewrite Hn1, E1 in Hs2.
      by destruct (Nat.odd n), (next_phase x).
Qed.
End led.

(** ** A LED without nodes for breathing *)
Definition plain_boot : boot :=
  Boot (λ p, bool_decide (node p = kBrightnessNode) && bool_decide (dir p = kBaseLedsPath) &&
    bool_decide (dev p ∈ ["red"; "green"; "blue"]%string)) (λ _, Digits 255).

Definition dark : files :=
  list_to_map ((λ n, (Path kBaseLedsPath n kBrightnessNode, Num 0)) <$> ["red"; "green"; "blue"]%string).

Definition plain (argb : Z) : HwLightState := LightState argb FLASH_NONE 0 0.
Definition flashing (argb : Z) : HwLightState := LightState argb FLASH_TIMED 500 500.

(** The thread has read that it shall blink in blue when the notification is
    taken back; the LED is dark, then the thread writes. *)
Definition taken_back : list op :=
  [SetLightState NOTIFICATIONS (flashing 0xff0000ff) 1000; ThreadReads;
   SetLightState NOTIFICATIONS (plain 0) 2000; CallerWrites Stored; CallerWrites Stored; CallerWrites Stored;
   ThreadWrites Stored; ThreadWrites Stored; ThreadWrites Stored].

(** The thread of the lights HAL writes the LED outside of the lock with
    settings that it read before: a notification that is taken back in between
    leaves the LED lit, with all lights off, and nothing but another call
    turns it off. *)
Theorem stale_blink_stays_lit :
  ∃ x, steps (new_devices plain_boot) taken_back (new_process dark) = Some x ∧
    allOff (settings x) = true ∧ caller x = None ∧
    ∀ l x', Forall leaves_led l → steps (new_devices plain_boot) l x = Some x' →
      settings x' = settings x ∧ shows plain_boot (contents x') (Rgb 0 0 255).
Proof.
  eexists. split; [vm_compute; reflexivity|]. split; [reflexivity|]. split; [reflexivity|].
  intros l x' Hl Hs. apply (still_steps plain_boot) in Hs as [-> Hc]; [|by split|done].
  split; [done|]. apply Hc. by repeat split.
Qed.

Lemma dark_shows_black : shows plain_boot dark black.
Proof. by repeat split. Qed.

(** The battery is charging: red. *)
Definition charge : list op :=
  [SetLightState BATTERY (plain 0xffff0000) 1000; CallerWrites Stored; CallerWrites Stored;
   CallerWrites Stored].

Definition charging : process :=
  default (new_process dark) (steps (new_devices plain_boot) charge (new_process dark)).

Lemma reach_charging : reach plain_boot (plain 0xffff0000) charging.
Proof.
  apply (led_reach_steps plain_boot charge no_light (new_process dark)).
  - apply reach_new, dark_shows_black.
  - by repeat split.
  - reflexivity.
Qed.

Definition charging_panel : panel := Panel (plain 0xffff0000) dark_state dark_state 1000 (plain 0xffff0000).

Lemma panel_reach_steps (b : boot) l p x x' : panel_reach b p x → orderly_run b l x →
  steps (new_devices b) l x = Some x' → panel_reach b (fold_left (λ p o, panel_step o p) l p) x'.
Proof.
  revert p x. induction l as [|o l IH]; intros p x Hr; [by intros _ [= <-]|].
  simpl. destruct (step _ o x) as [x1|] eqn:E; simpl; [|done]. intros [Ho Hl].
  apply IH; [by eapply panel_more|done].
Qed.

Lemma panel_reach_charging : panel_reach plain_boot charging_panel charging.
Proof.
  apply (panel_reach_steps plain_boot charge new_panel (new_process dark)).
  - apply panel_new, (shows_led_has plain_boot dark 0), dark_shows_black.
  - by repeat split.
  - reflexivity.
Qed.

(** The LED is red, and a call for attention 20 ms later leaves it so. *)
Lemma led_shows_chosen_witness :
  panel_reach plain_boot charging_panel charging ∧
  contents charging !! Path "/sys/class/leds/" "red" "brightness" = Some (Num 255) ∧
  contents charging !! Path "/sys/class/leds/" "green" "brightness" = Some (Num 0).
Proof.
  split; [exact panel_reach_charging|].
  assert (led_has plain_boot (contents charging) 0xffff0000) as H.
  { apply (led_shows_chosen plain_boot charging_panel charging);
      [exact panel_reach_charging|reflexivity|left; reflexivity]. }
  split; [apply (H "red"%string 16)|apply (H "green"%string 8)]; try reflexivity;
    apply (bool_decide_unpack _); vm_compute; exact I.
Defined.

(** A call for attention 20 ms later, in green. *)
Lemma late_change_is_never_shown_witness :
  ∃ x', steps (new_devices plain_boot)
      [SetLightState ATTENTION (plain 0xff00ff00) 1020; ThreadReads; ThreadWakes; ThreadReads] charging =
      Some x' ∧
    chosen (settings x') = plain 0xff00ff00 ∧ shows plain_boot (contents x') (Rgb 255 0 0).
Proof.
  destruct (steps (new_devices plain_boot)
      [SetLightState ATTENTION (plain 0xff00ff00) 1020; ThreadReads; ThreadWakes; ThreadReads] charging)
    as [x'|] eqn:E; [|vm_compute in E; congruence].
  exists x'. split; [reflexivity|].
  destruct (late_change_is_never_shown plain_boot (plain 0xffff0000) charging ATTENTION (plain 0xff00ff00)
    1020 (default new_lights (store_state ATTENTION (plain 0xff00ff00) (settings charging)))
    [ThreadReads; ThreadWakes; ThreadReads] x') as [Hs Hf];
    [exact reach_charging|reflexivity|reflexivity|reflexivity|reflexivity|by repeat constructor|exact E|].
  split; [rewrite Hs; reflexivity|exact Hf].
Defined.

(** The state of a process that blinks and whose thread is at the top. *)
Definition blinking : process :=
  default (new_process dark) (steps (new_devices plain_boot)
    [SetLightState NOTIFICATIONS (flashing 0xff0000ff) 1000] (new_process dark)).

Lemma blinks_in_turn_witness :
  ∃ l x', Forall of_thread l ∧ steps (new_devices plain_boot) l blinking = Some x' ∧
    shows plain_boot (contents x') black.
Proof.
  destruct (blinks_in_turn plain_boot 1 blinking) as (l & x' & Hl & Hs & _ & Hf);
    [reflexivity|reflexivity|reflexivity|reflexivity|].
  exists l, x'. exact (conj Hl (conj Hs Hf)).
Defined.

(** A value that is set without alpha is written as it is; half an alpha halves
    it; a maximum above 16843009 overflows. *)
Example half_bright : rgb_of 0x80ff8000 = Rgb 128 64 0 ∧ rgb_of 0x00ff8000 = Rgb 255 128 0.
Proof. split; reflexivity. Qed.
Example scale_overflows : scaleBrightness 255 16843010 = 0.
Proof. reflexivity. Qed.

(** A colour that the alpha scales to nothing is chosen all the same, before a
    light that could be seen. *)
Example invisible_notification_hides_battery :
  chosen (Lights 0 (plain 0xffff0000) (plain 0x01010101) no_light false 0 0 black) = plain 0x01010101 ∧
  rgb_of_state (plain 0x01010101) = black.
Proof. split; reflexivity. Qed.
