(* ===== verification/ThermalTables.v ===== *)
(** * Thermal HAL: the tables

    [thermal/thermalConfig.cpp]: the sensors of each system on a chip, as the
    source lists them.  An entry has the kind, the names of the sensors (one for
    each core for the kind CPU), the label, the thresholds at which throttling
    and shutdown are reported, whether the values rise or fall towards them, and
    the severity of the first threshold. *)
From stdpp Require Import strings.
From S2P Require Import Prelude.

(** The enumerators of the interface, in its order. *)
Inductive TemperatureType :=
  | T_UNKNOWN | T_CPU | T_GPU | T_BATTERY | T_SKIN | T_USB_PORT | T_POWER_AMPLIFIER
  | T_BCL_VOLTAGE | T_BCL_CURRENT | T_BCL_PERCENTAGE | T_NPU | T_OTHER.

#[export] Instance TemperatureType_eq_dec : EqDecision TemperatureType.
Proof. solve_decision. Defined.

Inductive ThrottlingSeverity :=
  | S_NONE | S_LIGHT | S_MODERATE | S_SEVERE | S_CRITICAL | S_EMERGENCY | S_SHUTDOWN.

#[export] Instance ThrottlingSeverity_eq_dec : EqDecision ThrottlingSeverity.
Proof. solve_decision. Defined.

Record target_therm_cfg := Cfg {
  cfg_type : TemperatureType;
  sensor_list : list string;
  label : string;
  throt_thresh : Z;
  shutdwn_thresh : Z;
  positive_thresh_ramp : bool;
  cfg_severity : ThrottlingSeverity
}.

#[export] Instance target_therm_cfg_eq_dec : EqDecision target_therm_cfg.
Proof. solve_decision. Defined.

Definition cpu_sensors_439 : list string :=
  ["apc1-cpu0-usr"; "apc1-cpu1-usr"; "apc1-cpu2-usr"; "apc1-cpu3-usr"; "cpuss0-usr";
   "cpuss0-usr"; "cpuss0-usr"; "cpuss0-usr"]%string.

Definition sensor_cfg_sdm632 : list target_therm_cfg :=
  [Cfg T_CPU cpu_sensors_439 "" 95000 115000 true S_SEVERE;
   Cfg T_GPU ["gpu0-usr"] "GPU" 95000 115000 true S_SEVERE;
   Cfg T_SKIN ["xo-therm-adc"] "skin" 40000 95000 true S_SEVERE;
   Cfg T_BCL_VOLTAGE ["pmi-vbat-lvl0"] "vbat" 3200 3000 false S_SEVERE;
   Cfg T_BCL_CURRENT ["pmi-ibat-lvl0"] "ibat" 4200 4400 true S_SEVERE;
   Cfg T_BCL_PERCENTAGE ["soc"] "soc" 10 2 false S_SEVERE]%string.

Definition sensor_cfg_439 : list target_therm_cfg :=
  [Cfg T_CPU cpu_sensors_439 "" 95000 115000 true S_SEVERE;
   Cfg T_GPU ["gpu-usr"] "GPU" 95000 115000 true S_SEVERE;
   Cfg T_SKIN ["quiet-therm-adc"] "skin" 40000 95000 true S_SEVERE;
   Cfg T_BCL_VOLTAGE ["vbat_adc"] "vbat" 3200 3000 false S_SEVERE;
   Cfg T_BCL_CURRENT ["ibat-high"] "ibat" 4200 4400 true S_SEVERE;
   Cfg T_BCL_PERCENTAGE ["soc"] "soc" 10 2 false S_SEVERE]%string.

Definition cpu_sensors_8953 : list string :=
  ["apc1-cpu0-usr"; "apc1-cpu1-usr"; "apc1-cpu2-usr"; "apc1-cpu3-usr"; "apc0-cpu0-usr";
   "apc0-cpu1-usr"; "apc0-cpu2-usr"; "apc0-cpu3-usr"]%string.

Definition sensor_cfg_sdm625 : list target_therm_cfg :=
  [Cfg T_CPU cpu_sensors_8953 "" 95000 115000 true S_SEVERE;
   Cfg T_GPU ["gpu0-usr"] "gpu0" 95000 115000 true S_SEVERE;
   Cfg T_GPU ["gpu1-usr"] "gpu1" 95000 115000 true S_SEVERE;
   Cfg T_SKIN ["xo-therm-adc"] "skin" 55000 95000 true S_SEVERE]%string.

Definition cpu_sensors_sdm710 : list string :=
  ["cpu0-silver-usr"; "cpu1-silver-usr"; "cpu2-silver-usr"; "cpu3-silver-usr";
   "cpu4-silver-usr"; "cpu5-silver-usr"; "cpu0-gold-usr"; "cpu1-gold-usr"]%string.

Definition sensor_cfg_sdm710 : list target_therm_cfg :=
  [Cfg T_CPU cpu_sensors_sdm710 "" 95000 115000 true S_SEVERE;
   Cfg T_GPU ["gpu0-usr"] "gpu0" 95000 115000 true S_SEVERE;
   Cfg T_GPU ["gpu1-usr"] "gpu1" 95000 115000 true S_SEVERE;
   Cfg T_SKIN ["xo-therm-adc"] "skin" 55000 95000 true S_SEVERE;
   Cfg T_BCL_PERCENTAGE ["soc"] "soc" 10 2 false S_SEVERE]%string.

Definition cpu_sensors_sdm845 : list string :=
  ["cpu0-silver-usr"; "cpu1-silver-usr"; "cpu2-silver-usr"; "cpu3-silver-usr";
   "cpu0-gold-usr"; "cpu1-gold-usr"; "cpu2-gold-usr"; "cpu3-gold-usr"]%string.

Definition sensor_cfg_sdm845 : list target_therm_cfg :=
  [Cfg T_CPU cpu_sensors_sdm845 "" 95000 115000 true S_SEVERE;
   Cfg T_GPU ["gpu0-usr"] "gpu0" 95000 115000 true S_SEVERE;
   Cfg T_GPU ["gpu1-usr"] "gpu1" 95000 115000 true S_SEVERE;
   Cfg T_SKIN ["xo-therm-adc"] "skin" 55000 95000 true S_SEVERE;
   Cfg T_BCL_PERCENTAGE ["soc"] "soc" 10 2 false S_SEVERE]%string.

Definition cpu_sensors_bengal : list string :=
  ["cpuss-0"; "cpuss-1"; "cpuss-2"; "cpuss-2"; "cpu-1-0"; "cpu-1-1"; "cpu-1-2";
   "cpu-1-3"]%string.

Definition sensor_cfg_bengal : list target_therm_cfg :=
  [Cfg T_CPU cpu_sensors_bengal "" 95000 115000 true S_SEVERE;
   Cfg T_GPU ["gpu"] "GPU" 95000 115000 true S_SEVERE;
   Cfg T_SKIN ["xo-therm"] "skin" 40000 95000 true S_SEVERE;
   Cfg T_BCL_CURRENT ["pmi632-ibat-lvl0"] "ibat" 4000 4200 true S_SEVERE;
   Cfg T_BCL_PERCENTAGE ["socd"] "socd" 90 99 false S_SEVERE]%string.

Definition cpu_sensors_talos : list string :=
  ["cpuss-2"; "cpuss-2"; "cpuss-1"; "cpuss-1"; "cpuss-0"; "cpuss-0"; "cpu-1-0";
   "cpu-1-2"]%string.

Definition sensor_cfg_talos_common : list target_therm_cfg :=
  [Cfg T_CPU cpu_sensors_talos "" 95000 115000 true S_SEVERE;
   Cfg T_GPU ["gpu"] "gpu" 95000 115000 true S_SEVERE]%string.

Definition sensor_cfg_sa6155_common : list target_therm_cfg :=
  [Cfg T_CPU cpu_sensors_talos "" 105000 118000 true S_SEVERE;
   Cfg T_GPU ["gpu"] "gpu" 105000 118000 true S_SEVERE]%string.

Definition cpu_sensors_khaje : list string :=
  ["cpuss-2"; "cpuss-2"; "cpuss-2"; "cpuss-2"; "cpu-1-0"; "cpu-1-1"; "cpu-1-2";
   "cpu-1-3"]%string.

Definition sensor_cfg_khaje : list target_therm_cfg :=
  [Cfg T_CPU cpu_sensors_khaje "" 95000 115000 true S_SEVERE;
   Cfg T_GPU ["gpu"] "GPU" 95000 115000 true S_SEVERE;
   Cfg T_SKIN ["xo-therm"] "skin" 40000 95000 true S_SEVERE;
   Cfg T_BCL_VOLTAGE ["vbat"] "vbat" 3000 2800 false S_SEVERE;
   Cfg T_BCL_CURRENT ["pm7250b-ibat-lvl0"] "ibat" 5500 6000 true S_SEVERE;
   Cfg T_BCL_PERCENTAGE ["socd"] "socd" 90 99 true S_SEVERE]%string.

Definition cpu_sensors_trinket : list string :=
  ["cpuss-0"; "cpuss-0"; "cpuss-0"; "cpuss-0"; "cpu-1-0"; "cpu-1-1"; "cpu-1-2";
   "cpu-1-3"]%string.

Definition sensor_cfg_trinket : list target_therm_cfg :=
  [Cfg T_CPU cpu_sensors_trinket "" 95000 115000 true S_SEVERE;
   Cfg T_GPU ["gpu"] "GPU" 95000 115000 true S_SEVERE;
   Cfg T_SKIN ["xo-therm"] "skin" 40000 95000 true S_SEVERE;
   Cfg T_BCL_VOLTAGE ["vbat"] "vbat" 3000 2800 false S_SEVERE;
   Cfg T_BCL_CURRENT ["pmi632-ibat-lvl0"] "ibat" 4000 4200 true S_SEVERE;
   Cfg T_BCL_PERCENTAGE ["socd"] "socd" 90 99 true S_SEVERE]%string.

Definition sensor_cfg_sdm660 : list target_therm_cfg :=
  [Cfg T_CPU cpu_sensors_trinket "" 95000 115000 true S_SEVERE;
   Cfg T_GPU ["gpu-usr"] "GPU" 95000 115000 true S_SEVERE;
   Cfg T_SKIN ["xo-therm-adc"] "skin" 40000 95000 true S_SEVERE;
   Cfg T_BCL_PERCENTAGE ["soc"] "soc" 10 2 false S_SEVERE]%string.

Definition cpu_sensors_lito : list string :=
  ["cpu-0-0-usr"; "cpu-0-1-usr"; "cpu-0-2-usr"; "cpu-0-3-usr"; "cpu-0-4-usr";
   "cpu-0-5-usr"; "cpu-1-0-usr"; "cpu-1-2-usr"]%string.

Definition sensor_cfg_lito : list target_therm_cfg :=
  [Cfg T_CPU cpu_sensors_lito "" 95000 115000 true S_SEVERE;
   Cfg T_GPU ["gpuss-0-usr"] "GPU" 95000 115000 true S_SEVERE;
   Cfg T_SKIN ["xo-therm-usr"] "skin" 55000 95000 true S_SEVERE;
   Cfg T_BCL_CURRENT ["pm7250b-ibat-lvl0"] "ibat" 4500 5000 true S_SEVERE;
   Cfg T_BCL_VOLTAGE ["pm7250b-vbat-lvl0"] "vbat" 3200 3000 false S_SEVERE;
   Cfg T_BCL_PERCENTAGE ["soc"] "soc" 10 2 false S_SEVERE]%string.

Definition sensor_cfg_sdmmagpie : list target_therm_cfg :=
  [Cfg T_CPU cpu_sensors_lito "" 95000 115000 true S_SEVERE;
   Cfg T_GPU ["gpuss-0-usr"] "GPU" 95000 115000 true S_SEVERE;
   Cfg T_SKIN ["xo-therm-adc"] "skin" 40000 95000 true S_SEVERE;
   Cfg T_BCL_VOLTAGE ["pm6150-vbat-lvl0"] "vbat" 3000 2800 false S_SEVERE;
   Cfg T_BCL_CURRENT ["pm6150-ibat-lvl0"] "ibat" 5500 6000 true S_SEVERE;
   Cfg T_BCL_PERCENTAGE ["soc"] "soc" 10 2 false S_SEVERE]%string.

Definition cpu_sensors_holi : list string :=
  ["cpu-0-0"; "cpu-0-1"; "cpu-0-2"; "cpu-0-3"; "cpu-0-4"; "cpu-0-5"; "cpu-1-0";
   "cpu-1-2"]%string.

Definition sensor_cfg_holi : list target_therm_cfg :=
  [Cfg T_CPU cpu_sensors_holi "" 95000 115000 true S_SEVERE;
   Cfg T_GPU ["gpuss-0"] "gpu0" 95000 115000 true S_SEVERE;
   Cfg T_GPU ["gpuss-1"] "gpu1" 95000 115000 true S_SEVERE;
   Cfg T_SKIN ["quiet-therm"] "skin" 40000 95000 true S_SEVERE;
   Cfg T_BCL_CURRENT ["pm7250b-ibat-lvl0"] "ibat" 5500 6000 true S_SEVERE]%string.

Definition cpu_sensors_msmnile : list string :=
  ["cpu-0-0"; "cpu-0-1"; "cpu-0-2"; "cpu-0-3"; "cpu-1-0"; "cpu-1-1"; "cpu-1-2";
   "cpu-1-3"]%string.

Definition sensor_cfg_msmnile_common : list target_therm_cfg :=
  [Cfg T_CPU cpu_sensors_msmnile "" 95000 115000 true S_SEVERE;
   Cfg T_GPU ["gpuss-0"] "gpu0" 95000 115000 true S_SEVERE;
   Cfg T_GPU ["gpuss-1"] "gpu1" 95000 115000 true S_SEVERE]%string.

Definition sensor_cfg_sa8155_common : list target_therm_cfg :=
  [Cfg T_CPU cpu_sensors_msmnile "" 105000 118000 true S_SEVERE;
   Cfg T_GPU ["gpuss-0"] "gpu0" 105000 118000 true S_SEVERE;
   Cfg T_GPU ["gpuss-1"] "gpu1" 105000 118000 true S_SEVERE]%string.

Definition sensor_cfg_sa8195_common : list target_therm_cfg :=
  [Cfg T_CPU cpu_sensors_msmnile "" 105000 118000 true S_SEVERE;
   Cfg T_GPU ["gpuss-0"] "gpu0" 105000 118000 true S_SEVERE;
   Cfg T_GPU ["gpuss-1"] "gpu1" 105000 118000 true S_SEVERE;
   Cfg T_GPU ["gpuss-2"] "gpu2" 105000 118000 true S_SEVERE;
   Cfg T_GPU ["gpuss-3"] "gpu3" 105000 118000 true S_SEVERE]%string.

Definition cpu_sensors_kona : list string :=
  ["cpu-0-0"; "cpu-0-1"; "cpu-0-2"; "cpu-0-3"; "cpu-1-0"; "cpu-1-1"; "cpu-1-2";
   "cpu-1-3"]%string.

Definition kona_common : list target_therm_cfg :=
  [Cfg T_CPU cpu_sensors_kona "" 95000 115000 true S_SEVERE;
   Cfg T_GPU ["gpuss-0"] "GPU0" 95000 115000 true S_SEVERE;
   Cfg T_GPU ["gpuss-1"] "GPU1" 95000 115000 true S_SEVERE;
   Cfg T_SKIN ["skin-msm-therm"] "skin" 40000 95000 true S_SEVERE]%string.

Definition kona_specific : list target_therm_cfg :=
  [Cfg T_BCL_CURRENT ["pm8150b-ibat-lvl0"] "ibat" 4500 5000 true S_SEVERE;
   Cfg T_BCL_VOLTAGE ["vbat"] "vbat" 3200 3000 false S_SEVERE;
   Cfg T_BCL_PERCENTAGE ["socd"] "socd" 90 99 false S_SEVERE;
   Cfg T_NPU ["npu"] "npu" 95000 115000 true S_SEVERE]%string.

Definition cpu_sensors_lahaina : list string :=
  ["cpu-0-0-usr"; "cpu-0-1-usr"; "cpu-0-2-usr"; "cpu-0-3-usr"; "cpu-1-0-usr";
   "cpu-1-2-usr"; "cpu-1-4-usr"; "cpu-1-6-usr"]%string.

Definition lahaina_common : list target_therm_cfg :=
  [Cfg T_CPU cpu_sensors_lahaina "" 95000 115000 true S_SEVERE;
   Cfg T_GPU ["gpuss-0-usr"] "GPU0" 95000 115000 true S_SEVERE;
   Cfg T_GPU ["gpuss-1-usr"] "GPU1" 95000 115000 true S_SEVERE;
   Cfg T_BCL_CURRENT ["pm8350b-ibat-lvl0"] "ibat" 6000 7500 true S_SEVERE;
   Cfg T_NPU ["nspss-0-usr"] "nsp0" 95000 115000 true S_SEVERE;
   Cfg T_NPU ["nspss-1-usr"] "nsp1" 95000 115000 true S_SEVERE;
   Cfg T_NPU ["nspss-2-usr"] "nsp2" 95000 115000 true S_SEVERE]%string.

Definition lahaina_specific : list target_therm_cfg :=
  [Cfg T_SKIN ["xo-therm-usr"] "skin" 55000 95000 true S_SEVERE]%string.

Definition shima_specific : list target_therm_cfg :=
  [Cfg T_SKIN ["quiet-therm-usr"] "skin" 40000 95000 true S_SEVERE]%string.

Definition sensor_cfg_yupik : list target_therm_cfg :=
  [Cfg T_CPU cpu_sensors_lahaina "" 95000 115000 true S_SEVERE;
   Cfg T_GPU ["gpuss-0-usr"] "GPU0" 95000 115000 true S_SEVERE;
   Cfg T_GPU ["gpuss-1-usr"] "GPU1" 95000 115000 true S_SEVERE;
   Cfg T_NPU ["nspss-0-usr"] "nsp0" 95000 115000 true S_SEVERE;
   Cfg T_NPU ["nspss-1-usr"] "nsp1" 95000 115000 true S_SEVERE;
   Cfg T_SKIN ["quiet-therm-usr"] "skin" 55000 95000 true S_SEVERE]%string.

Definition cpu_sensors_waipio : list string :=
  ["cpu-0-0"; "cpu-0-1"; "cpu-0-2"; "cpu-0-3"; "cpu-1-0"; "cpu-1-2"; "cpu-1-4";
   "cpu-1-6"]%string.

Definition waipio_common : list target_therm_cfg :=
  [Cfg T_CPU cpu_sensors_waipio "" 95000 115000 true S_SEVERE;
   Cfg T_GPU ["gpuss-0"] "GPU0" 95000 115000 true S_SEVERE;
   Cfg T_GPU ["gpuss-1"] "GPU1" 95000 115000 true S_SEVERE;
   Cfg T_NPU ["nspss-0"] "nsp0" 95000 115000 true S_SEVERE;
   Cfg T_NPU ["nspss-1"] "nsp1" 95000 115000 true S_SEVERE;
   Cfg T_NPU ["nspss-2"] "nsp2" 95000 115000 true S_SEVERE]%string.

Definition diwali_common : list target_therm_cfg :=
  [Cfg T_CPU cpu_sensors_waipio "" 95000 115000 true S_LIGHT;
   Cfg T_GPU ["gpuss-0"] "GPU0" 95000 115000 true S_LIGHT;
   Cfg T_GPU ["gpuss-1"] "GPU1" 95000 115000 true S_LIGHT;
   Cfg T_NPU ["nspss-0"] "nsp0" 95000 115000 true S_LIGHT;
   Cfg T_NPU ["nspss-1"] "nsp1" 95000 115000 true S_LIGHT;
   Cfg T_NPU ["nspss-2"] "nsp2" 95000 115000 true S_LIGHT]%string.

Definition waipio_specific : list target_therm_cfg :=
  [Cfg T_BCL_CURRENT ["pm8350b-ibat-lvl0"] "ibat" 6000 7500 true S_SEVERE;
   Cfg T_SKIN ["xo-therm"] "skin" 55000 95000 true S_SEVERE]%string.

Definition cpu_sensors_kalama : list string :=
  ["cpu-0-0"; "cpu-0-1"; "cpu-0-2"; "cpu-1-0"; "cpu-1-2"; "cpu-1-4"; "cpu-1-6";
   "cpu-1-8"]%string.

Definition kalama_common : list target_therm_cfg :=
  [Cfg T_CPU cpu_sensors_kalama "" 95000 115000 true S_SEVERE;
   Cfg T_GPU ["gpuss-0"] "GPU0" 95000 115000 true S_SEVERE;
   Cfg T_GPU ["gpuss-1"] "GPU1" 95000 115000 true S_SEVERE;
   Cfg T_GPU ["gpuss-2"] "GPU2" 95000 115000 true S_SEVERE;
   Cfg T_GPU ["gpuss-3"] "GPU3" 95000 115000 true S_SEVERE;
   Cfg T_GPU ["gpuss-4"] "GPU4" 95000 115000 true S_SEVERE;
   Cfg T_GPU ["gpuss-5"] "GPU5" 95000 115000 true S_SEVERE;
   Cfg T_GPU ["gpuss-6"] "GPU6" 95000 115000 true S_SEVERE;
   Cfg T_GPU ["gpuss-7"] "GPU7" 95000 115000 true S_SEVERE;
   Cfg T_NPU ["nspss-0"] "nsp0" 100000 115000 true S_SEVERE;
   Cfg T_NPU ["nspss-1"] "nsp1" 100000 115000 true S_SEVERE;
   Cfg T_NPU ["nspss-2"] "nsp2" 100000 115000 true S_SEVERE;
   Cfg T_NPU ["nspss-3"] "nsp3" 100000 115000 true S_SEVERE]%string.

Definition kalama_specific : list target_therm_cfg :=
  [Cfg T_BCL_CURRENT ["pm8550b-ibat-lvl0"] "ibat" 9000 10000 true S_SEVERE;
   Cfg T_SKIN ["skin-msm-therm"] "skin" 46500 95000 true S_SEVERE]%string.

Definition cpu_sensors_crow : list string :=
  ["cpu-0-0"; "cpu-0-1"; "cpu-0-2"; "cpu-0-3"; "cpu-1-0"; "cpu-1-2"; "cpu-1-4";
   "cpu-1-6"]%string.

Definition crow_common : list target_therm_cfg :=
  [Cfg T_CPU cpu_sensors_crow "" 95000 115000 true S_SEVERE;
   Cfg T_GPU ["gpuss-0"] "GPU0" 102000 115000 true S_SEVERE;
   Cfg T_GPU ["gpuss-1"] "GPU1" 102000 115000 true S_SEVERE;
   Cfg T_NPU ["nspss-0"] "nsp0" 100000 115000 true S_SEVERE;
   Cfg T_NPU ["nspss-1"] "nsp1" 100000 115000 true S_SEVERE;
   Cfg T_NPU ["nspss-2"] "nsp2" 100000 115000 true S_SEVERE]%string.

Definition crow_specific : list target_therm_cfg :=
  [Cfg T_SKIN ["sys-therm-3"] "skin" 60000 95000 true S_SEVERE]%string.

Definition diwali_specific : list target_therm_cfg :=
  [Cfg T_BCL_CURRENT ["pm7250b-ibat-lvl0"] "ibat" 9000 9500 true S_SEVERE;
   Cfg T_SKIN ["quiet-therm"] "skin" 46000 95000 true S_LIGHT]%string.

Definition cpu_sensors_neo : list string :=
  ["cpu-0-0"; "cpu-0-1"; "cpu-0-2"; "cpu-0-3"]%string.

Definition neo_common : list target_therm_cfg :=
  [Cfg T_CPU cpu_sensors_neo "" 95000 115000 true S_SEVERE;
   Cfg T_GPU ["gpuss-0"] "GPU0" 95000 115000 true S_SEVERE;
   Cfg T_GPU ["gpuss-1"] "GPU1" 95000 115000 true S_SEVERE;
   Cfg T_NPU ["nspss-0"] "nsp0" 95000 115000 true S_SEVERE;
   Cfg T_NPU ["nspss-1"] "nsp1" 95000 115000 true S_SEVERE;
   Cfg T_NPU ["nspss-2"] "nsp2" 95000 115000 true S_SEVERE]%string.

Definition cpu_sensors_parrot : list string :=
  ["cpu-0-0"; "cpu-0-1"; "cpu-0-2"; "cpu-0-3"; "cpu-1-0"; "cpu-1-2"; "cpu-1-4";
   "cpu-1-6"]%string.

Definition parrot_common : list target_therm_cfg :=
  [Cfg T_CPU cpu_sensors_parrot "" 95000 115000 true S_SEVERE;
   Cfg T_GPU ["gpuss-0"] "GPU0" 95000 115000 true S_SEVERE;
   Cfg T_GPU ["gpuss-1"] "GPU1" 95000 115000 true S_SEVERE;
   Cfg T_NPU ["nspss-0"] "nsp0" 95000 115000 true S_SEVERE;
   Cfg T_NPU ["nspss-1"] "nsp1" 95000 115000 true S_SEVERE]%string.

Definition parrot_specific : list target_therm_cfg :=
  [Cfg T_BCL_CURRENT ["pm7250b-ibat-lvl0"] "ibat" 6000 7500 true S_SEVERE;
   Cfg T_SKIN ["xo-therm"] "skin" 55000 95000 true S_SEVERE]%string.

Definition cpu_sensors_lemansAU : list string :=
  ["cpu-0-0-0"; "cpu-0-1-0"; "cpu-0-2-0"; "cpu-0-3-0"; "cpu-1-0-0"; "cpu-1-1-0";
   "cpu-1-2-0"; "cpu-1-3-0"]%string.

Definition lemansAU_common : list target_therm_cfg :=
  [Cfg T_CPU cpu_sensors_lemansAU "" 105000 118000 true S_SEVERE;
   Cfg T_GPU ["gpuss-0"] "GPU0" 105000 118000 true S_SEVERE;
   Cfg T_GPU ["gpuss-1"] "GPU1" 105000 118000 true S_SEVERE;
   Cfg T_GPU ["gpuss-2"] "GPU2" 105000 118000 true S_SEVERE;
   Cfg T_NPU ["nsp-0-0-0"] "nsp0" 105000 118000 true S_SEVERE;
   Cfg T_NPU ["nsp-1-0-0"] "nsp1" 105000 118000 true S_SEVERE]%string.

Definition bat_conf : target_therm_cfg :=
  (Cfg T_BATTERY ["battery"] "battery" 80000 90000 true S_SEVERE)%string.

Definition bcl_conf : list target_therm_cfg :=
  [Cfg T_BCL_VOLTAGE ["vbat"] "vbat" 3200 3000 false S_SEVERE;
   Cfg T_BCL_PERCENTAGE ["socd"] "socd" 90 99 true S_SEVERE]%string.

Definition cpu_sensors_pineapple : list string :=
  ["cpu-0-0-0"; "cpu-0-1-0"; "cpu-2-0-0"; "cpu-2-1-0"; "cpu-2-2-0"; "cpu-1-0-0";
   "cpu-1-1-0"; "cpu-1-2-0"]%string.

Definition pineapple_common : list target_therm_cfg :=
  [Cfg T_CPU cpu_sensors_pineapple "" 95000 115000 true S_SEVERE;
   Cfg T_GPU ["gpuss-0"] "GPU0" 95000 115000 true S_SEVERE;
   Cfg T_GPU ["gpuss-1"] "GPU1" 95000 115000 true S_SEVERE;
   Cfg T_GPU ["gpuss-2"] "GPU2" 95000 115000 true S_SEVERE;
   Cfg T_GPU ["gpuss-3"] "GPU3" 95000 115000 true S_SEVERE;
   Cfg T_GPU ["gpuss-4"] "GPU4" 95000 115000 true S_SEVERE;
   Cfg T_GPU ["gpuss-5"] "GPU5" 95000 115000 true S_SEVERE;
   Cfg T_GPU ["gpuss-6"] "GPU6" 95000 115000 true S_SEVERE;
   Cfg T_GPU ["gpuss-7"] "GPU7" 95000 115000 true S_SEVERE;
   Cfg T_NPU ["nsphvx-0"] "nsp0" 100000 115000 true S_SEVERE;
   Cfg T_NPU ["nsphvx-1"] "nsp1" 100000 115000 true S_SEVERE;
   Cfg T_NPU ["nsphmx-0"] "nsp2" 100000 115000 true S_SEVERE;
   Cfg T_NPU ["nsphmx-1"] "nsp3" 100000 115000 true S_SEVERE;
   Cfg T_NPU ["nsphmx-2"] "nsp4" 100000 115000 true S_SEVERE;
   Cfg T_NPU ["nsphmx-3"] "nsp5" 100000 115000 true S_SEVERE]%string.

Definition pineapple_specific : list target_therm_cfg :=
  [Cfg T_BCL_CURRENT ["pm8550b-ibat-lvl0"] "ibat" 9000 10000 true S_SEVERE;
   Cfg T_SKIN ["skin-msm-therm"] "skin" 46500 95000 true S_SEVERE]%string.

Definition cpu_sensors_cliffs : list string :=
  ["cpu-0-0-0"; "cpu-0-1-0"; "cpu-0-2-0"; "cpu-1-0-0"; "cpu-1-1-0"; "cpu-1-2-0";
   "cpu-1-3-0"; "cpu-2-0-0"]%string.

Definition cliffs_common : list target_therm_cfg :=
  [Cfg T_CPU cpu_sensors_cliffs "" 95000 115000 true S_SEVERE;
   Cfg T_GPU ["gpuss-0"] "GPU0" 95000 115000 true S_SEVERE;
   Cfg T_GPU ["gpuss-1"] "GPU1" 95000 115000 true S_SEVERE;
   Cfg T_GPU ["gpuss-2"] "GPU2" 95000 115000 true S_SEVERE;
   Cfg T_GPU ["gpuss-3"] "GPU3" 95000 115000 true S_SEVERE;
   Cfg T_NPU ["nsphvx-0"] "nsp0" 100000 115000 true S_SEVERE;
   Cfg T_NPU ["nsphvx-1"] "nsp1" 100000 115000 true S_SEVERE;
   Cfg T_NPU ["nsphmx-0"] "nsp2" 100000 115000 true S_SEVERE;
   Cfg T_NPU ["nsphmx-1"] "nsp3" 100000 115000 true S_SEVERE]%string.

Definition cliffs_specific : list target_therm_cfg :=
  [Cfg T_SKIN ["sys-therm-4"] "skin" 60000 95000 true S_SEVERE]%string.

Definition cpu_sensors_monaco : list string :=
  ["cpuss-0"; "cpuss-0"; "cpuss-0"; "cpuss-0"; "cpuss-1"; "cpuss-1"; "cpuss-1";
   "cpuss-1"]%string.

Definition sensor_cfg_monaco : list target_therm_cfg :=
  [Cfg T_CPU cpu_sensors_monaco "" 95000 115000 true S_SEVERE;
   Cfg T_GPU ["gpu"] "gpu" 95000 115000 true S_SEVERE;
   Cfg T_SKIN ["pa-therm0"] "skin" 40000 95000 true S_SEVERE;
   Cfg T_BCL_CURRENT ["pm5100-ibat-lvl0"] "ibat" 1100 1500 true S_SEVERE]%string.

Definition cpu_sensors_pitti : list string :=
  ["cpu-0-0"; "cpu-0-1"; "cpu-0-2"; "cpu-0-3"; "cpu-0-4"; "cpu-0-5"; "cpu-1-0";
   "cpu-2-0"]%string.

Definition sensor_cfg_pitti : list target_therm_cfg :=
  [Cfg T_CPU cpu_sensors_pitti "" 95000 115000 true S_SEVERE;
   Cfg T_GPU ["gpuss"] "gpu" 95000 115000 true S_SEVERE]%string.

Definition pitti_specific : list target_therm_cfg :=
  [Cfg T_SKIN ["sys-therm-3"] "skin" 40000 95000 true S_SEVERE]%string.

Definition cpu_sensors_niobe : list string :=
  ["cpu-0-0-0"; "cpu-0-1-0"; "cpu-1-0-0"; "cpu-1-1-0"; "cpu-1-2-0"; "cpu-1-2-1";
   "cpu-1-3-0"; "cpu-1-3-1"]%string.

Definition niobe_common : list target_therm_cfg :=
  [Cfg T_CPU cpu_sensors_niobe "" 95000 115000 true S_SEVERE;
   Cfg T_GPU ["gpuss-0"] "GPU0" 95000 115000 true S_SEVERE;
   Cfg T_GPU ["gpuss-1"] "GPU1" 95000 115000 true S_SEVERE;
   Cfg T_GPU ["gpuss-2"] "GPU2" 95000 115000 true S_SEVERE;
   Cfg T_GPU ["gpuss-3"] "GPU3" 95000 115000 true S_SEVERE;
   Cfg T_GPU ["gpuss-4"] "GPU4" 95000 115000 true S_SEVERE;
   Cfg T_GPU ["gpuss-5"] "GPU5" 95000 115000 true S_SEVERE;
   Cfg T_GPU ["gpuss-6"] "GPU6" 95000 115000 true S_SEVERE;
   Cfg T_GPU ["gpuss-7"] "GPU7" 95000 115000 true S_SEVERE;
   Cfg T_NPU ["nsphvx-0"] "nsp0" 95000 115000 true S_SEVERE;
   Cfg T_NPU ["nsphvx-1"] "nsp1" 95000 115000 true S_SEVERE;
   Cfg T_NPU ["nsphmx-0"] "nsp2" 95000 115000 true S_SEVERE;
   Cfg T_NPU ["nsphmx-1"] "nsp3" 95000 115000 true S_SEVERE]%string.

Definition niobe_specific : list target_therm_cfg :=
  [Cfg T_BCL_CURRENT ["pm8550b-ibat-lvl0"] "ibat" 7000 7500 true S_SEVERE;
   Cfg T_SKIN ["sys-therm-0"] "skin" 60000 95000 true S_SEVERE]%string.

Definition cpu_sensors_volcano : list string :=
  ["cpu-0-0-0"; "cpu-0-1-0"; "cpu-0-2-0"; "cpu-1-0-0"; "cpu-1-1-0"; "cpu-1-2-0";
   "cpu-1-3-0"; "cpu-1-3-1"]%string.

Definition volcano_common : list target_therm_cfg :=
  [Cfg T_CPU cpu_sensors_volcano "" 95000 115000 true S_SEVERE;
   Cfg T_GPU ["gpuss-0"] "GPU0" 95000 115000 true S_SEVERE;
   Cfg T_GPU ["gpuss-1"] "GPU1" 95000 115000 true S_SEVERE;
   Cfg T_NPU ["nsphvx-0"] "nsp0" 95000 115000 true S_SEVERE;
   Cfg T_NPU ["nsphmx-0"] "nsp2" 95000 115000 true S_SEVERE;
   Cfg T_NPU ["nsphmx-1"] "nsp3" 95000 115000 true S_SEVERE]%string.

Definition volcano_specific : list target_therm_cfg :=
  [Cfg T_SKIN ["sys-therm-0"] "skin" 60000 95000 true S_SEVERE]%string.

Definition cpu_sensors_anorak : list string :=
  ["cpu-0-0-0"; "cpu-0-0-1"; "cpu-0-1-0"; "cpu-0-1-1"; "cpu-1-0-0"; "cpu-1-0-1";
   "cpu-1-1-0"; "cpu-1-1-1"; "cpu-1-2-0"; "cpu-1-2-1"; "cpu-1-3-0"; "cpu-1-3-1"]%string.

Definition anorak_common : list target_therm_cfg :=
  [Cfg T_CPU cpu_sensors_anorak "" 95000 115000 true S_SEVERE;
   Cfg T_NPU ["nspss-0"] "nsp0" 95000 115000 true S_SEVERE;
   Cfg T_NPU ["nspss-1"] "nsp1" 95000 115000 true S_SEVERE;
   Cfg T_NPU ["nspss-2"] "nsp2" 95000 115000 true S_SEVERE;
   Cfg T_GPU ["gpuss-0"] "GPU0" 95000 115000 true S_SEVERE;
   Cfg T_GPU ["gpuss-1"] "GPU1" 95000 115000 true S_SEVERE;
   Cfg T_GPU ["gpuss-2"] "GPU2" 95000 115000 true S_SEVERE;
   Cfg T_GPU ["gpuss-3"] "GPU3" 95000 115000 true S_SEVERE;
   Cfg T_GPU ["gpuss-4"] "GPU4" 95000 115000 true S_SEVERE;
   Cfg T_GPU ["gpuss-5"] "GPU5" 95000 115000 true S_SEVERE;
   Cfg T_GPU ["gpuss-6"] "GPU6" 95000 115000 true S_SEVERE;
   Cfg T_GPU ["gpuss-7"] "GPU7" 95000 115000 true S_SEVERE]%string.

Definition anorak_specific : list target_therm_cfg :=
  [Cfg T_BCL_CURRENT ["pm8550b-ibat-lvl0"] "ibat" 9000 10000 true S_SEVERE;
   Cfg T_SKIN ["sys-therm-0"] "skin" 55000 95000 true S_SEVERE]%string.

Definition cpu_sensors_ravelin : list string :=
  ["cpu-0-0"; "cpu-0-1"; "cpu-0-2"; "cpu-0-3"; "cpu-0-4"; "cpu-0-5"; "cpu-1-0";
   "cpu-1-2"]%string.

Definition ravelin_common : list target_therm_cfg :=
  [Cfg T_CPU cpu_sensors_ravelin "" 95000 115000 true S_SEVERE;
   Cfg T_GPU ["gpuss"] "GPU" 95000 115000 true S_SEVERE;
   Cfg T_SKIN ["sys-therm-1"] "skin" 55000 95000 true S_SEVERE]%string.

Definition ravelin_specific_qrd : list target_therm_cfg :=
  [Cfg T_BCL_CURRENT ["pmi632-ibat-lvl0"] "ibat" 6000 7500 true S_SEVERE]%string.

Definition ravelin_specific_idp : list target_therm_cfg :=
  [Cfg T_BCL_CURRENT ["pm7250b-ibat-lvl0"] "ibat" 6000 7500 true S_SEVERE]%string.

Definition msm_soc_map : list (Z * list target_therm_cfg) :=
  [(353, sensor_cfg_439); (354, sensor_cfg_439); (363, sensor_cfg_439);
   (364, sensor_cfg_439); (416, sensor_cfg_439); (437, sensor_cfg_439);
   (293, sensor_cfg_sdm625); (349, sensor_cfg_sdm632); (336, sensor_cfg_sdm710);
   (360, sensor_cfg_sdm710); (393, sensor_cfg_sdm710); (321, sensor_cfg_sdm845);
   (341, sensor_cfg_sdm845); (355, sensor_cfg_talos_common);
   (377, sensor_cfg_sa6155_common); (380, sensor_cfg_sa6155_common);
   (384, sensor_cfg_sa6155_common); (417, sensor_cfg_bengal); (420, sensor_cfg_bengal);
   (444, sensor_cfg_bengal); (445, sensor_cfg_bengal); (469, sensor_cfg_bengal);
   (470, sensor_cfg_bengal); (518, sensor_cfg_khaje); (561, sensor_cfg_khaje);
   (562, sensor_cfg_khaje); (584, sensor_cfg_khaje); (585, sensor_cfg_khaje);
   (586, sensor_cfg_khaje); (394, sensor_cfg_trinket); (467, sensor_cfg_trinket);
   (468, sensor_cfg_trinket); (317, sensor_cfg_sdm660); (318, sensor_cfg_sdm660);
   (345, sensor_cfg_sdm660); (385, sensor_cfg_sdm660); (400, sensor_cfg_lito);
   (440, sensor_cfg_lito); (407, sensor_cfg_lito); (365, sensor_cfg_sdmmagpie);
   (366, sensor_cfg_sdmmagpie); (434, sensor_cfg_lito); (435, sensor_cfg_lito);
   (459, sensor_cfg_lito); (476, sensor_cfg_lito); (339, sensor_cfg_msmnile_common);
   (361, sensor_cfg_msmnile_common); (362, sensor_cfg_sa8155_common);
   (367, sensor_cfg_sa8155_common); (405, sensor_cfg_sa8195_common); (356, kona_common);
   (481, kona_common); (548, kona_common); (415, lahaina_common); (439, lahaina_common);
   (456, lahaina_common); (501, lahaina_common); (502, lahaina_common);
   (450, lahaina_common); (454, sensor_cfg_holi); (507, sensor_cfg_holi);
   (578, sensor_cfg_holi); (475, sensor_cfg_yupik); (515, sensor_cfg_yupik);
   (576, sensor_cfg_yupik); (575, sensor_cfg_yupik); (567, sensor_cfg_yupik);
   (563, sensor_cfg_yupik); (553, sensor_cfg_yupik); (546, sensor_cfg_yupik);
   (499, sensor_cfg_yupik); (498, sensor_cfg_yupik); (497, sensor_cfg_yupik);
   (488, sensor_cfg_yupik); (487, sensor_cfg_yupik); (457, waipio_common);
   (482, waipio_common); (552, waipio_common); (506, diwali_common); (547, diwali_common);
   (564, diwali_common); (530, waipio_common); (531, waipio_common); (540, waipio_common);
   (519, kalama_common); (536, kalama_common); (600, kalama_common); (601, kalama_common);
   (603, kalama_common); (604, kalama_common); (557, pineapple_common);
   (577, pineapple_common); (632, cliffs_common); (614, cliffs_common);
   (486, sensor_cfg_monaco); (517, sensor_cfg_monaco); (623, sensor_cfg_pitti);
   (629, niobe_common); (652, niobe_common); (636, volcano_common); (640, volcano_common);
   (657, volcano_common); (658, volcano_common); (549, anorak_common);
   (649, anorak_common); (525, neo_common); (554, neo_common); (537, parrot_common);
   (583, parrot_common); (613, parrot_common); (631, parrot_common); (568, ravelin_common);
   (581, ravelin_common); (582, ravelin_common); (591, waipio_common); (608, crow_common);
   (644, crow_common); (532, lemansAU_common)]%Z.

Definition msm_soc_specific : list (Z * list target_therm_cfg) :=
  [(356, kona_specific); (481, kona_specific); (548, kona_specific);
   (415, lahaina_specific); (439, lahaina_specific); (456, lahaina_specific);
   (501, lahaina_specific); (502, lahaina_specific); (450, shima_specific);
   (457, waipio_specific); (482, waipio_specific); (552, waipio_specific);
   (506, diwali_specific); (547, diwali_specific); (564, diwali_specific);
   (530, waipio_specific); (531, waipio_specific); (540, waipio_specific);
   (519, kalama_specific); (536, kalama_specific); (600, kalama_specific);
   (601, kalama_specific); (603, kalama_specific); (604, kalama_specific);
   (557, pineapple_specific); (577, pineapple_specific); (632, cliffs_specific);
   (614, cliffs_specific); (623, pitti_specific); (629, niobe_specific);
   (652, niobe_specific); (636, volcano_specific); (640, volcano_specific);
   (657, volcano_specific); (658, volcano_specific); (549, anorak_specific);
   (649, anorak_specific); (537, parrot_specific); (583, parrot_specific);
   (613, parrot_specific); (631, parrot_specific); (591, waipio_specific);
   (608, crow_specific); (644, crow_specific)]%Z.

Definition battery_bcl_cfg_disable_map : list (Z * bool) :=
  [(377, true); (380, true); (384, true); (362, true); (367, true); (405, true)]%Z.

Definition msm_platform_specific : list (Z * (string * list target_therm_cfg)) :=
  [(568, ("QRD"%string, ravelin_specific_qrd)); (568, ("IDP"%string, ravelin_specific_idp))]%Z.
