(* ===== verification/Thermal.v ===== *)
(** * Thermal HAL

    [thermal/thermalConfig.cpp] (the choice of the tables of [ThermalTables]),
    [thermalCommon.cpp] (reading the files of the kernel, the sensors with their
    thresholds, the severity, the trips), [thermalUtilsNetlink.cpp] and
    [thermalUtils.cpp] (the map of sensors, which differ in its key and in the
    events of the kernel) and [thermal.cpp] (the callbacks of the clients).
    Calls are atomic: those that change a sensor of the map hold its lock, and
    the others are taken to be so.  What a file holds is an answer; what the
    code writes or calls is an output.  The clients are numbers, equal as the
    binder objects of remote clients are. *)
From S2P Require Import Prelude CStr Doubles ThermalTables.

Local Open Scope Z_scope.
Local Open Scope list_scope.

(** ** [float] *)
Definition f32 (z : Z) : spec_float := binary_normalize 24 128 z 0 false.
Definition fadd : spec_float → spec_float → spec_float := SFadd 24 128.
Definition fsub : spec_float → spec_float → spec_float := SFsub 24 128.
Definition fmul : spec_float → spec_float → spec_float := SFmul 24 128.
Definition fdiv : spec_float → spec_float → spec_float := SFdiv 24 128.

Definition UNKNOWN_TEMPERATURE : spec_float := S754_nan.

Definition isnan (x : spec_float) : bool := match x with S754_nan => true | _ => false end.

(** ** Files *)
Definition RETRY_CT : nat := 3.
Definition MAX_LENGTH : nat := 50.
Definition DEFAULT_HYSTERESIS : Z := 5000.

(** A file cannot be opened, [fgets] reads nothing from it, or it has a text. *)
Inductive file_answer := OpenFailed (errno : Z) | NothingRead (ferror : Z) | Text (s : string).

Definition newline : ascii := "010".

(** [fgets] into [n + 1] bytes. *)
Fixpoint fgets (n : nat) (s : string) : string :=
  match n, s with
  | S n, String c s => String c (if Ascii.eqb c newline then "" else fgets n s)
  | _, _ => ""
  end.

Fixpoint without_newlines (s : string) : string :=
  match s with
  | EmptyString => ""
  | String c s => if Ascii.eqb c newline then without_newlines s else String c (without_newlines s)
  end.

(** The returned number, and the text. *)
Definition readLineFromFile (a : file_answer) : Z * string :=
  match a with
  | OpenFailed errno => (errno, "")
  | NothingRead ferror => (ferror, "")
  | Text s => let buf := fgets (MAX_LENGTH - 1) s in (Z.of_nat (String.length buf), without_newlines buf)
  end.

(** [std::stoi(s, nullptr, 0)]; [None] is an exception. *)
Definition stoi (s : string) : option Z :=
  let '(v, rest) := strtol 64 0 s in
  if String.eqb rest s then None
  else if (- 2 ^ 31 <=? v) && (v <? 2 ^ 31) then Some v else None.

(** ** The configuration *)
Fixpoint find_key {A} (k : Z) (l : list (Z * A)) : option A :=
  match l with [] => None | (k', x) :: l => if k =? k' then Some x else find_key k l end.

Definition add_target_config (socID : Z) (hwPlatform : string) (conf : list target_therm_cfg) :
    list target_therm_cfg :=
  conf ++ default [] (find_key socID msm_soc_specific) ++
  match base.filter (λ x, x.1 = socID ∧ x.2.1 = hwPlatform) msm_platform_specific with
  | x :: _ => x.2.2
  | [] => []
  end.

(** The loop that reads the number of the chip and the platform; [soc n] and
    [hw n] are the files at the [n]th turn.  [None]: the number cannot be read. *)
Fixpoint read_soc (fuel ct : nat) (soc hw : nat → file_answer) : option (Z * string) :=
  match fuel with
  | O => Some (0, "")
  | S fuel =>
      let again (id : Z) (platform : string) (read_ok : bool) :=
        if negb (ct =? 0)%nat && negb read_ok && (S ct <? RETRY_CT)%nat then read_soc fuel (S ct) soc hw
        else Some (id, platform) in
      let '(ret, soc_val) := readLineFromFile (soc ct) in
      if ret <=? 0 then None
      else
        let '(ret, platform) := readLineFromFile (hw ct) in
        if ret <=? 0 then again 0 platform false
        else match stoi soc_val with
        | Some id => again id platform true
        | None => again 0 platform false
        end
  end.

Definition has_percentage (l : list target_therm_cfg) : bool :=
  existsb (λ c, bool_decide (cfg_type c = T_BCL_PERCENTAGE)) l.

(** The configuration for a chip and a platform, and the one that is read. *)
Definition config_of (soc_id : Z) (platform : string) : list target_therm_cfg :=
  if soc_id <=? 0 then []
  else match find_key soc_id msm_soc_map with
  | None => []
  | Some conf =>
      let l := add_target_config soc_id platform conf in
      if default false (find_key soc_id battery_bcl_cfg_disable_map) then l
      else l ++ [bat_conf] ++ (if has_percentage l then [] else bcl_conf)
  end.

Definition fetchConfig (soc hw : nat → file_answer) : list target_therm_cfg :=
  match read_soc RETRY_CT 0 soc hw with
  | None => []
  | Some (id, platform) => config_of id platform
  end.

(** ** Sensors *)
Definition severity_nat (s : ThrottlingSeverity) : nat :=
  match s with
  | S_NONE => 0 | S_LIGHT => 1 | S_MODERATE => 2 | S_SEVERE => 3 | S_CRITICAL => 4
  | S_EMERGENCY => 5 | S_SHUTDOWN => 6
  end.

Definition severities : list ThrottlingSeverity :=
  [S_NONE; S_LIGHT; S_MODERATE; S_SEVERE; S_CRITICAL; S_EMERGENCY; S_SHUTDOWN].

Record Temperature := Temp {
  t_type : TemperatureType;
  t_name : string;
  t_value : spec_float;
  throttlingStatus : ThrottlingSeverity
}.

Record TemperatureThreshold := Thresholds {
  th_type : TemperatureType;
  th_name : string;
  hotThrottlingThresholds : list spec_float;
  coldThrottlingThresholds : list spec_float
}.

Record therm_sensor := Sensor {
  tzn : Z;
  mulFactor : Z;
  positiveThresh : bool;
  sensor_name : string;
  lastThrottleStatus : ThrottlingSeverity;
  s_t : Temperature;
  thresh : TemperatureThreshold;
  s_severity : ThrottlingSeverity
}.

Definition with_value (v : spec_float) (s : therm_sensor) : therm_sensor :=
  Sensor (tzn s) (mulFactor s) (positiveThresh s) (sensor_name s) (lastThrottleStatus s)
    (Temp (t_type (s_t s)) (t_name (s_t s)) v (throttlingStatus (s_t s))) (thresh s) (s_severity s).
Definition with_status (st : ThrottlingSeverity) (s : therm_sensor) : therm_sensor :=
  Sensor (tzn s) (mulFactor s) (positiveThresh s) (sensor_name s) (throttlingStatus (s_t s))
    (Temp (t_type (s_t s)) (t_name (s_t s)) (t_value (s_t s)) st) (thresh s) (s_severity s).

(** The zones of [/sys/class/thermal] in the order of the directory, each with
    its number and its file [type]; [None] if the directory cannot be read. *)
Definition zones : Type := option (list (Z * file_answer)).

Definition zone_matches (name : string) (z : Z * file_answer) : bool :=
  let '(ret, buf) := readLineFromFile z.2 in (0 <? ret) && String.prefix name buf.

Definition get_tzn (zs : zones) (name : string) : Z :=
  match zs with
  | None => -1
  | Some l => match base.filter (λ z, zone_matches name z) l with z :: _ => z.1 | [] => -1 end
  end.

Definition no_thresholds : list spec_float := replicate 7 UNKNOWN_TEMPERATURE.

Definition set_thresholds (used : bool) (sev : ThrottlingSeverity) (throt shutdwn mul : Z) : list spec_float :=
  let l := if negb (throt =? 0) && used then <[severity_nat sev := fdiv (f32 throt) (f32 mul)]> no_thresholds
    else no_thresholds in
  if negb (shutdwn =? 0) && used then <[severity_nat S_SHUTDOWN := fdiv (f32 shutdwn) (f32 mul)]> l else l.

Definition new_sensor (c : target_therm_cfg) (sens_idx : nat) (name : string) (zone : Z) : therm_sensor :=
  let label := if bool_decide (cfg_type c = T_CPU) then ("CPU" ++ fmt_d (Z.of_nat sens_idx))%string else label c in
  let mul := if bool_decide (cfg_type c = T_BCL_PERCENTAGE) then 1 else 1000 in
  Sensor zone mul (positive_thresh_ramp c) name S_NONE (Temp (cfg_type c) label (f32 0) S_NONE)
    (Thresholds (cfg_type c) label
      (set_thresholds (positive_thresh_ramp c) (cfg_severity c) (throt_thresh c) (shutdwn_thresh c) mul)
      (set_thresholds (negb (positive_thresh_ramp c)) (cfg_severity c) (throt_thresh c) (shutdwn_thresh c) mul))
    (cfg_severity c).

(** [None]: the list of the configuration has no such element.  The returned
    number, and the sensors with the new one. *)
Definition initialize_sensor (zs : zones) (c : target_therm_cfg) (sens_idx : nat) (sens : list therm_sensor) :
    option (Z * list therm_sensor) :=
  name ← sensor_list c !! sens_idx;
  let zone := get_tzn zs name in
  if zone <? 0 then Some (-1, sens) else Some (0, sens ++ [new_sensor c sens_idx name zone]).

Fixpoint initializeCpuSensor (zs : zones) (c : target_therm_cfg) (cpus : list nat) (sens : list therm_sensor) :
    option (Z * list therm_sensor) :=
  match cpus with
  | [] => Some (0, sens)
  | cpu :: cpus =>
      '(ret, sens) ← initialize_sensor zs c cpu sens;
      if ret <? 0 then Some (-1, sens) else initializeCpuSensor zs c cpus sens
  end.

Fixpoint init_zones (zs : zones) (ncpus : nat) (l : list target_therm_cfg) (sens : list therm_sensor) :
    option (Z * list therm_sensor) :=
  match l with
  | [] => Some (Z.of_nat (length sens), sens)
  | c :: l =>
      '(ret, sens) ← (if bool_decide (cfg_type c = T_CPU) then initializeCpuSensor zs c (seq 0 ncpus) sens
        else initialize_sensor zs c 0 sens);
      if ret <? 0 then Some (-1, sens) else init_zones zs ncpus l sens
  end.

Definition initThermalZones (zs : zones) (ncpus : nat) (l : list target_therm_cfg) (sens : list therm_sensor) :
    option (Z * list therm_sensor) :=
  match l with [] => Some (-1, sens) | _ => init_zones zs ncpus l sens end.

(** ** The severity *)

(** Whether the value has reached the threshold at [idx], less [slack] if given. *)
Definition reached (s : therm_sensor) (slack : option Z) (idx : nat) : option bool :=
  let temp := t_value (s_t s) in
  if positiveThresh s then
    t ← hotThrottlingThresholds (thresh s) !! idx;
    let t' := match slack with Some h => fsub t (f32 h) | None => t end in
    Some (negb (isnan t) && SFleb t' temp)
  else
    t ← coldThrottlingThresholds (thresh s) !! idx;
    let t' := match slack with Some h => fadd t (f32 h) | None => t end in
    Some (negb (isnan t) && SFleb temp t').

Definition slack_at (s : therm_sensor) (idx : nat) : option Z :=
  if (idx =? severity_nat (throttlingStatus (s_t s)))%nat then Some (DEFAULT_HYSTERESIS ÷ mulFactor s) else None.

(** The loop from the severity [n - 1] down; the severity, or NONE. *)
Fixpoint scan_severity (s : therm_sensor) (n : nat) : option ThrottlingSeverity :=
  match n with
  | O => Some S_NONE
  | S idx =>
      r ← reached s (slack_at s idx) idx;
      if (r : bool) then severities !! idx else scan_severity s idx
  end.

Definition estimateSeverity (s : therm_sensor) : option (Z * therm_sensor) :=
  sev ← scan_severity s 7;
  if decide (sev = throttlingStatus (s_t s)) then Some (-1, s)
  else Some (Z.of_nat (severity_nat sev), with_status sev s).

(** ** Reading the temperature *)
Fixpoint read_loop (fuel ct : nat) (attempt : nat → file_answer) (s : therm_sensor) : Z * therm_sensor :=
  match fuel with
  | O => (-1, s)
  | S fuel =>
      let '(ret, buf) := readLineFromFile (attempt ct) in
      if ret <=? 0 then (-1, s)
      else match stoi buf with
      | Some v => (ret, with_value (fdiv (f32 v) (f32 (mulFactor s))) s)
      | None => if (S ct <? RETRY_CT)%nat then read_loop fuel (S ct) attempt s else (ret, s)
      end
  end.

Definition read_temperature (attempt : nat → file_answer) (s : therm_sensor) : Z * therm_sensor :=
  read_loop RETRY_CT 0 attempt s.

(** ** Trips

    The file of the trip and that of its hysteresis.  [NAN] is converted to [int]
    in each call that comes that far, which is undefined in C++ ([None]);
    [nan_int] is what the compiler and the processor make of it. *)
Inductive write := Trip (zone : Z) (value : Z) | Hysteresis (zone : Z) (value : Z).

Definition int_of (z : Z) : option Z := if (- 2 ^ 31 <=? z) && (z <? 2 ^ 31) then Some z else None.

(** The first threshold above the severity that the sensor has. *)
Fixpoint next_threshold (n : nat) (l : list spec_float) (idx : nat) (status : nat) : option (option spec_float) :=
  match n with
  | O => Some None
  | S n =>
      t ← l !! idx;
      if isnan t || (idx <=? status)%nat then next_threshold n l (S idx) status else Some (Some t)
  end.

Definition USER_SPACE_POLICY : string := "user_space".

(** [policy]: the answer of the file that is read without netlink. *)
Definition policy_ok (netlink : bool) (policy : file_answer) : bool :=
  netlink ||
  let '(ret, buf) := readLineFromFile policy in (0 <? ret) && String.eqb buf USER_SPACE_POLICY.

Definition initThreshold (nan_int : option Z) (netlink : bool) (policy : file_answer) (s : therm_sensor) :
    option (list write) :=
  if negb (positiveThresh s) || negb (policy_ok netlink policy) then Some []
  else
    let hot := hotThrottlingThresholds (thresh s) in
    let status := severity_nat (throttlingStatus (s_t s)) in
    next_trip ← nan_int;   (* UNKNOWN_TEMPERATURE *)
    t ← next_threshold 7 hot 0 status;
    next_trip ← (match t with
      | None => Some next_trip
      | Some x => cast_signed 32 (fmul x (f32 (mulFactor s)))
      end);
    (* isnan of an int: never *)
    if decide (throttlingStatus (s_t s) = S_NONE) then Some [Trip (tzn s) next_trip]
    else
      x ← hot !! status;
      curr_trip ← cast_signed 32 (fmul x (f32 (mulFactor s)));
      diff ← int_of (next_trip - curr_trip);
      hyst_temp ← int_of (diff + DEFAULT_HYSTERESIS);
      Some [Trip (tzn s) next_trip; Hysteresis (tzn s) hyst_temp].

(** ** Cooling devices *)
Inductive cdevType := C_CPU | C_GPU | C_MODEM | C_NPU | C_BATTERY | C_FAN.

#[export] Instance cdevType_eq_dec : EqDecision cdevType.
Proof. solve_decision. Defined.

Record therm_cdev := Cdev { cdevn : Z; c_name : string; c_type : cdevType; c_value : Z }.

Definition cdev_map : list (string * cdevType) :=
  [("thermal-cpufreq-0", C_CPU); ("thermal-cpufreq-1", C_CPU); ("thermal-cpufreq-2", C_CPU);
   ("thermal-cpufreq-3", C_CPU); ("thermal-cpufreq-4", C_CPU); ("thermal-cpufreq-5", C_CPU);
   ("thermal-cpufreq-6", C_CPU); ("thermal-cpufreq-7", C_CPU); ("cpufreq-cpu0", C_CPU);
   ("cpufreq-cpu1", C_CPU); ("cpufreq-cpu2", C_CPU); ("cpufreq-cpu3", C_CPU); ("cpufreq-cpu4", C_CPU);
   ("cpufreq-cpu5", C_CPU); ("cpufreq-cpu6", C_CPU); ("cpufreq-cpu7", C_CPU);
   ("thermal-cluster-4-7", C_CPU); ("thermal-cluster-3-7", C_CPU); ("cpu-isolate0", C_CPU);
   ("cpu-isolate1", C_CPU); ("cpu-isolate2", C_CPU); ("cpu-isolate3", C_CPU); ("cpu-isolate4", C_CPU);
   ("cpu-isolate5", C_CPU); ("cpu-isolate6", C_CPU); ("cpu-isolate7", C_CPU); ("thermal-pause-1", C_CPU);
   ("thermal-pause-2", C_CPU); ("thermal-pause-4", C_CPU); ("thermal-pause-8", C_CPU);
   ("thermal-pause-10", C_CPU); ("thermal-pause-20", C_CPU); ("thermal-pause-40", C_CPU);
   ("thermal-pause-80", C_CPU); ("thermal-devfreq-0", C_GPU); ("devfreq-3d00000.qcom,kgsl-3d0", C_GPU);
   ("gpu", C_GPU); ("modem_tj", C_MODEM); ("modem_lte_dsc", C_MODEM); ("modem_nr_dsc", C_MODEM);
   ("modem_nr_scg_dsc", C_MODEM); ("cdsp", C_NPU); ("cdsp_hw", C_NPU); ("battery", C_BATTERY);
   ("fan-max31760", C_FAN)].

Definition cdev_type (name : string) : option cdevType :=
  snd <$> head (base.filter (λ x, x.1 = name) cdev_map).

Fixpoint cdev_loop (fuel ct : nat) (attempt : nat → file_answer) (c : therm_cdev) : Z * therm_cdev :=
  match fuel with
  | O => (c_value c, c)
  | S fuel =>
      let '(ret, buf) := readLineFromFile (attempt ct) in
      if ret <=? 0 then (-1, c)
      else match stoi buf with
      | Some v => (v, Cdev (cdevn c) (c_name c) (c_type c) v)
      | None => if (S ct <? RETRY_CT)%nat then cdev_loop fuel (S ct) attempt c else (c_value c, c)
      end
  end.

Definition read_cdev_state (attempt : nat → file_answer) (c : therm_cdev) : Z * therm_cdev :=
  cdev_loop RETRY_CT 0 attempt c.

(** [devices]: the cooling devices of the directory, each with its number and
    its file [type]; [state]: the file of the state of a device.  The list that
    is kept and its length. *)
Definition initCdev (devices : zones) (state : Z → nat → file_answer) : list therm_cdev :=
  omap (λ d : Z * file_answer,
    let buf := (readLineFromFile d.2).2 in
    t ← cdev_type buf; Some (read_cdev_state (state d.1) (Cdev d.1 buf t 0)).2) (default [] devices).

(** The loop over the devices of a type; an error ends it without a result. *)
Fixpoint readCdevStates (type : option cdevType) (state : Z → nat → file_answer) (l : list therm_cdev) :
    option (list therm_cdev) :=
  match l with
  | [] => Some []
  | c :: l =>
      if bool_decide (type = None ∨ type = Some (c_type c)) then
        let '(ret, c) := read_cdev_state (state (cdevn c)) c in
        if ret <? 0 then None else r ← readCdevStates type state l; Some (c :: r)
      else readCdevStates type state l
  end.

(** ** The map of sensors

    The key of a sensor is its zone with netlink and its name without.  The map
    is iterated in an order of its own, [order]. *)
Section utils.
Context {K : Type} `{Countable K} (key : therm_sensor → K).
Context (order : gmap K therm_sensor → list (K * therm_sensor)).
Context (nan_int : option Z) (netlink : bool) (policy : Z → file_answer).

Record utils := Utils {
  is_sensor_init : bool;
  is_cdev_init : bool;
  thermalConfig : gmap K therm_sensor;
  cdevList : list therm_cdev;
  cmn_sens : list therm_sensor   (* the list of ThermalCommon *)
}.

Definition with_sensor (k : K) (s : therm_sensor) (u : utils) : utils :=
  Utils (is_sensor_init u) (is_cdev_init u) (<[k := s]> (thermalConfig u)) (cdevList u) (cmn_sens u).

(** What leaves the component: a change that is told to the clients, with the
    key of the sensor, and a write. *)
Inductive output := Changed (k : K) (t : Temperature) | Wrote (w : write).

Definition trips (s : therm_sensor) : option (list output) :=
  option_map (map Wrote) (initThreshold nan_int netlink (policy (tzn s)) s).

(** The sensor that is stored keeps the value and the status of its creation;
    the trips are those of the copy that was read. *)
Fixpoint store_sensors (reads : Z → nat → file_answer) (l : list therm_sensor) (u : utils) :
    option (utils * list output) :=
  match l with
  | [] => Some (u, [])
  | s :: l =>
      let u := with_sensor (key s) s u in
      let '(_, s) := read_temperature (reads (tzn s)) s in
      '(_, s) ← estimateSeverity s;
      w ← trips s;
      '(u, out) ← store_sensors reads l u;
      Some (u, w ++ out)
  end.

Definition init_sensors (zs : zones) (ncpus : nat) (reads : Z → nat → file_answer)
    (cfg : list target_therm_cfg) (u : utils) : option (utils * list output) :=
  '(ret, sens) ← initThermalZones zs ncpus cfg (cmn_sens u);
  if 0 <? ret then
    store_sensors reads sens (Utils true (is_cdev_init u) (thermalConfig u) (cdevList u) sens)
  else Some (Utils (is_sensor_init u) (is_cdev_init u) (thermalConfig u) (cdevList u) sens, []).

Definition new_utils (zs : zones) (ncpus : nat) (reads : Z → nat → file_answer) (devices : zones)
    (states : Z → nat → file_answer) (cfg : list target_therm_cfg) : option (utils * list output) :=
  '(u, out) ← init_sensors zs ncpus reads cfg (Utils false false ∅ [] []);
  let cdevs := initCdev devices states in
  Some (match cdevs with
    | [] => u
    | _ => Utils (is_sensor_init u) true (thermalConfig u) cdevs (cmn_sens u)
    end, out).

Definition Notify (k : K) (s : therm_sensor) : option (therm_sensor * list output) :=
  '(severity, s) ← estimateSeverity s;
  if decide (severity = -1) then Some (s, [])
  else w ← trips s; Some (s, Changed k (s_t s) :: w).

Definition notify_stored (k : K) (s : therm_sensor) (u : utils) : option (utils * list output) :=
  '(s, out) ← Notify k s; Some (with_sensor k s u, out).

(** [ThermalUtils::sampleParse], and [ueventParse] without netlink. *)
Definition sampleParse (k : K) (temp : Z) (u : utils) : option (utils * list output) :=
  match thermalConfig u !! k with
  | None => Some (u, [])
  | Some s => notify_stored k (with_value (fdiv (f32 temp) (f32 (mulFactor s))) s) u
  end.

Definition eventParse (k : K) (trip : Z) (u : utils) : option (utils * list output) :=
  if negb (trip =? 1) then Some (u, [])
  else match thermalConfig u !! k with
  | None => Some (u, [])
  | Some s => notify_stored k s u
  end.

Definition monitored (name : string) (cfg : list target_therm_cfg) : bool :=
  existsb (λ c, existsb (String.eqb name) (sensor_list c)) cfg.

Definition eventCreateParse (zs : zones) (ncpus : nat) (reads : Z → nat → file_answer)
    (cfg : list target_therm_cfg) (name : string) (u : utils) : option (utils * list output) :=
  if is_sensor_init u then Some (u, [])
  else if negb (monitored name cfg) then Some (u, [])
  else init_sensors zs ncpus reads cfg u.

(** The sensors of a type, or all; the temperatures, or [None] if one cannot be
    read, which leaves what was done for the ones before. *)
Fixpoint read_all (type : option TemperatureType) (reads : Z → nat → file_answer)
    (l : list (K * therm_sensor)) (u : utils) : option (utils * list output * option (list Temperature)) :=
  match l with
  | [] => Some (u, [], Some [])
  | (k, s) :: l =>
      if bool_decide (type = None ∨ type = Some (t_type (s_t s))) then
        let '(ret, s) := read_temperature (reads (tzn s)) s in
        if ret <? 0 then Some (with_sensor k s u, [], None)
        else
          '(s, out) ← Notify k s;
          '(u, out', temps) ← read_all type reads l (with_sensor k s u);
          Some (u, out ++ out', option_map (cons (s_t s)) temps)
      else read_all type reads l u
  end.

Definition readTemperatures (type : option TemperatureType) (reads : Z → nat → file_answer) (u : utils) :
    option (utils * list output * option (list Temperature)) :=
  read_all type reads (order (thermalConfig u)) u.

Definition readTemperatureThreshold (type : option TemperatureType) (u : utils) : list TemperatureThreshold :=
  (λ x : K * therm_sensor, thresh x.2) <$>
    base.filter (λ x : K * therm_sensor, type = None ∨ type = Some (t_type (s_t x.2))) (order (thermalConfig u)).

(** ** The service *)
Record thermal := Thermal { cb : list (Z * TemperatureType); t_utils : utils }.

Inductive status := StatusOk | IllegalArgument.

Definition dummy_temp_1_0 : Temperature := Temp T_SKIN "test sensor" (f32 30) S_NONE.

Definition registered (client : Z) (l : list (Z * TemperatureType)) : bool :=
  existsb (λ c, c.1 =? client) l.

Definition registerThermalChangedCallbackWithType (client : option Z) (type : TemperatureType) (t : thermal) :
    status * thermal :=
  match client with
  | None => (IllegalArgument, t)
  | Some c =>
      if bool_decide (type = T_BCL_VOLTAGE ∨ type = T_BCL_CURRENT) then (IllegalArgument, t)
      else if registered c (cb t) then (IllegalArgument, t)
      else (StatusOk, Thermal (cb t ++ [(c, type)]) (t_utils t))
  end.

Definition registerThermalChangedCallback (client : option Z) (t : thermal) : status * thermal :=
  match client with
  | None => (IllegalArgument, t)
  | Some c =>
      if registered c (cb t) then (IllegalArgument, t)
      else (StatusOk, Thermal (cb t ++ [(c, T_UNKNOWN)]) (t_utils t))
  end.

Fixpoint erase_client (client : Z) (l : list (Z * TemperatureType)) : list (Z * TemperatureType) :=
  match l with [] => [] | x :: l => if x.1 =? client then l else x :: erase_client client l end.

Definition unregisterThermalChangedCallback (client : option Z) (t : thermal) : status * thermal :=
  match client with
  | None => (IllegalArgument, t)
  | Some c =>
      if registered c (cb t) then (StatusOk, Thermal (erase_client c (cb t)) (t_utils t))
      else (IllegalArgument, t)
  end.

(** The loop over the callbacks; [alive]: which clients take the call.  Those
    that do not are removed.  The list, and the clients that were called. *)
Fixpoint sendThrottlingChangeCB (alive : Z → bool) (type : TemperatureType) (l : list (Z * TemperatureType)) :
    list (Z * TemperatureType) * list Z :=
  match l with
  | [] => ([], [])
  | (c, ty) :: l =>
      let '(l', called) := sendThrottlingChangeCB alive type l in
      if bool_decide (ty = type ∨ ty = T_UNKNOWN) then
        (if alive c then (c, ty) :: l' else l', c :: called)
      else ((c, ty) :: l', called)
  end.

Definition getTemperatures (reads : Z → nat → file_answer) (u : utils) :
    option (utils * list output * list Temperature) :=
  if negb (is_sensor_init u) then Some (u, [], [dummy_temp_1_0])
  else '(u, out, r) ← readTemperatures None reads u; Some (u, out, default [] r).

Definition getTemperaturesWithType (type : TemperatureType) (reads : Z → nat → file_answer) (u : utils) :
    option (utils * list output * option (list Temperature)) :=
  if negb (is_sensor_init u) then Some (u, [], None)
  else '(u, out, r) ← readTemperatures (Some type) reads u; Some (u, out, Some (default [] r)).

Definition getTemperatureThresholds (type : option TemperatureType) (u : utils) :
    option (list TemperatureThreshold) :=
  if is_sensor_init u then Some (readTemperatureThreshold type u) else None.

Definition getCoolingDevices (type : option cdevType) (state : Z → nat → file_answer) (u : utils) :
    option (list therm_cdev) :=
  if is_cdev_init u then Some (default [] (readCdevStates type state (cdevList u))) else None.
End utils.
