(* ===== verification/ThermalProps.v ===== *)
(** * Thermal HAL: what holds

    The severity as a function of the thresholds and of the severity before;
    the runs of the component: nothing is undefined for the tables, every change
    is told once; the trips that are written; and what the percentage of the
    battery never does. *)
From S2P Require Import Prelude CStr Doubles ThermalTables Thermal.

Local Open Scope Z_scope.
Local Open Scope list_scope.

(** ** The severity *)

(** Whether a value has reached a threshold; [held]: the severity of the threshold
    is in force, which is then kept until the value has left it by the
    hysteresis. *)
Definition hit (pos held : bool) (mul : Z) (t temp : spec_float) : bool :=
  let h := f32 (5000 ÷ mul) in
  negb (isnan t) &&
  if pos then SFleb (if held then fsub t h else t) temp else SFleb temp (if held then fadd t h else t).

Definition threshold (c : target_therm_cfg) (shutdown : bool) (mul : Z) : spec_float :=
  fdiv (f32 (if shutdown then shutdwn_thresh c else throt_thresh c)) (f32 mul).

Definition mul_of (c : target_therm_cfg) : Z :=
  if bool_decide (cfg_type c = T_BCL_PERCENTAGE) then 1 else 1000.

(** The severity that a sensor of an entry should have. *)
Definition severity_for (c : target_therm_cfg) (before : ThrottlingSeverity) (temp : spec_float) :
    ThrottlingSeverity :=
  let hits shutdown sev :=
    hit (positive_thresh_ramp c) (bool_decide (before = sev)) (mul_of c) (threshold c shutdown (mul_of c)) temp in
  if hits true S_SHUTDOWN then S_SHUTDOWN
  else if hits false (cfg_severity c) then cfg_severity c else S_NONE.

(** A sensor of an entry, whatever its value and severity. *)
Definition sensor_of (c : target_therm_cfg) (s : therm_sensor) : Prop :=
  mulFactor s = mul_of c ∧ positiveThresh s = positive_thresh_ramp c ∧
  hotThrottlingThresholds (thresh s) =
    set_thresholds (positive_thresh_ramp c) (cfg_severity c) (throt_thresh c) (shutdwn_thresh c) (mul_of c) ∧
  coldThrottlingThresholds (thresh s) =
    set_thresholds (negb (positive_thresh_ramp c)) (cfg_severity c) (throt_thresh c) (shutdwn_thresh c) (mul_of c).

(** An entry with both thresholds, of which the first is not that of shutdown. *)
Definition entry_ok (c : target_therm_cfg) : bool :=
  bool_decide (cfg_severity c ≠ S_NONE) && bool_decide (cfg_severity c ≠ S_SHUTDOWN) &&
  negb (throt_thresh c =? 0) && negb (shutdwn_thresh c =? 0).

Lemma sensor_of_new c i name zone : sensor_of c (new_sensor c i name zone).
Proof. unfold sensor_of, mul_of. simpl. by case_bool_decide. Qed.

Lemma sensor_of_value c s v : sensor_of c s → sensor_of c (with_value v s).
Proof. done. Qed.

Lemma sensor_of_status c s st : sensor_of c s → sensor_of c (with_status st s).
Proof. done. Qed.

Lemma severity_nat_inj a b : severity_nat a = severity_nat b → a = b.
Proof. by destruct a, b. Qed.

Lemma slack_at_sev s sev : slack_at s (severity_nat sev) =
  if bool_decide (throttlingStatus (s_t s) = sev) then Some (DEFAULT_HYSTERESIS ÷ mulFactor s) else None.
Proof.
  unfold slack_at. destruct (Nat.eqb_spec (severity_nat sev) (severity_nat (throttlingStatus (s_t s)))) as [E|E].
  - apply severity_nat_inj in E. case_bool_decide; [done|congruence].
  - case_bool_decide; [congruence|done].
Qed.

Lemma set_thresholds_ok c mul : entry_ok c = true →
  set_thresholds true (cfg_severity c) (throt_thresh c) (shutdwn_thresh c) mul =
    <[6%nat := threshold c true mul]> (<[severity_nat (cfg_severity c) := threshold c false mul]> no_thresholds) ∧
  set_thresholds false (cfg_severity c) (throt_thresh c) (shutdwn_thresh c) mul = no_thresholds.
Proof.
  unfold entry_ok, set_thresholds. rewrite !andb_true_iff. intros [[_ ->] ->]. done.
Qed.

(** The threshold of a severity. *)
Definition threshold_at (c : target_therm_cfg) (sev : ThrottlingSeverity) : spec_float :=
  if bool_decide (sev = S_SHUTDOWN) then threshold c true (mul_of c)
  else if bool_decide (sev = cfg_severity c) then threshold c false (mul_of c) else UNKNOWN_TEMPERATURE.

Lemma thresholds_lookup c mul sev : mul = mul_of c →
  (<[6%nat := threshold c true mul]> (<[severity_nat (cfg_severity c) := threshold c false mul]> no_thresholds))
    !! severity_nat sev = Some (threshold_at c sev).
Proof. intros ->. unfold threshold_at. by destruct sev, (cfg_severity c). Qed.

Lemma reached_at c s sev : entry_ok c = true → sensor_of c s →
  reached s (slack_at s (severity_nat sev)) (severity_nat sev) =
    Some (hit (positive_thresh_ramp c) (bool_decide (throttlingStatus (s_t s) = sev)) (mul_of c)
      (threshold_at c sev) (t_value (s_t s))).
Proof.
  intros Hc (Hm & Hp & Hh & Hcold). unfold reached, hit. rewrite slack_at_sev, Hm, Hp, Hh, Hcold.
  destruct (set_thresholds_ok c (mul_of c) Hc) as [E1 _].
  destruct (positive_thresh_ramp c); simpl negb; rewrite E1, thresholds_lookup by done; simpl;
    by case_bool_decide.
Qed.

Lemma hit_nan pos held mul temp : hit pos held mul UNKNOWN_TEMPERATURE temp = false.
Proof. done. Qed.

(** Comparisons of enumerators that are given. *)
Ltac decide_severities :=
  repeat match goal with
  | |- context [bool_decide (?a = ?b)] =>
      is_constructor a; is_constructor b;
      let v := eval vm_compute in (bool_decide (a = b)) in change (bool_decide (a = b)) with v
  end; cbv iota.

Lemma scan_severity_for c s : entry_ok c = true → sensor_of c s →
  scan_severity s 7 = Some (severity_for c (throttlingStatus (s_t s)) (t_value (s_t s))).
Proof.
  intros Hc Hs. pose proof (λ sev, reached_at c s sev Hc Hs) as R.
  pose proof (R S_SHUTDOWN) as R6. pose proof (R S_EMERGENCY) as R5. pose proof (R S_CRITICAL) as R4.
  pose proof (R S_SEVERE) as R3. pose proof (R S_MODERATE) as R2. pose proof (R S_LIGHT) as R1.
  pose proof (R S_NONE) as R0. clear R. cbn [severity_nat] in *.
  cbn [scan_severity]. rewrite R6, R5, R4, R3, R2, R1, R0. unfold severity_for, threshold_at.
  assert (cfg_severity c ≠ S_NONE ∧ cfg_severity c ≠ S_SHUTDOWN) as [Hn Hsd].
  { unfold entry_ok in Hc. rewrite !andb_true_iff, !bool_decide_eq_true in Hc. tauto. }
  destruct (cfg_severity c); try done;
    decide_severities; rewrite ?hit_nan; cbn [mbind option_bind]; cbv zeta; repeat (match goal with |- context [hit ?p ?h ?m ?t ?x] => destruct (hit p h m t x) end; try done).
Qed.

Lemma estimateSeverity_for c s : entry_ok c = true → sensor_of c s →
  let sev := severity_for c (throttlingStatus (s_t s)) (t_value (s_t s)) in
  estimateSeverity s = Some (if decide (sev = throttlingStatus (s_t s)) then (-1, s)
    else (Z.of_nat (severity_nat sev), with_status sev s)).
Proof.
  intros Hc Hs. simpl. unfold estimateSeverity. rewrite (scan_severity_for c s Hc Hs). simpl.
  by destruct (decide _).
Qed.

(** ** The entries of the tables *)
Definition table_entries : list target_therm_cfg :=
  concat (snd <$> msm_soc_map) ++ concat (snd <$> msm_soc_specific) ++
  concat (snd ∘ snd <$> msm_platform_specific) ++ [bat_conf] ++ bcl_conf.

Lemma find_key_elem {A} k (l : list (Z * A)) x : find_key k l = Some x → (k, x) ∈ l.
Proof.
  induction l as [|[k' y] l IH]; [done|]. simpl. destruct (Z.eqb_spec k k') as [->|].
  - intros [= ->]. left.
  - intros Hx. right. auto.
Qed.

Lemma elem_of_concat {A} (x : A) ll l : x ∈ l → l ∈ ll → x ∈ concat ll.
Proof. intros Hx Hl. apply list_elem_of_In, in_concat. exists l. by rewrite <- !list_elem_of_In. Qed.

Lemma config_in_tables id platform c : c ∈ config_of id platform → c ∈ table_entries.
Proof.
  unfold config_of. destruct (id <=? 0); [by intros ?%not_elem_of_nil|].
  destruct (find_key id msm_soc_map) as [conf|] eqn:E; [|by intros ?%not_elem_of_nil].
  apply find_key_elem in E.
  assert (∀ c, c ∈ add_target_config id platform conf → c ∈ table_entries) as Hadd.
  { clear c. intros c. unfold add_target_config, table_entries. rewrite !elem_of_app. intros [Hc|[Hc|Hc]].
    - left. apply (elem_of_concat c _ conf); [done|]. by apply (list_elem_of_fmap_2 snd _ (id, conf)).
    - right; left. destruct (find_key id msm_soc_specific) as [l|] eqn:E2; [|by apply not_elem_of_nil in Hc].
      apply find_key_elem in E2. apply (elem_of_concat c _ l); [done|].
      by apply (list_elem_of_fmap_2 snd _ (id, l)).
    - right; right; left. destruct (base.filter _ _) as [|x l] eqn:E3; [by apply not_elem_of_nil in Hc|].
      apply (elem_of_concat c _ x.2.2); [done|]. apply (list_elem_of_fmap_2 (snd ∘ snd) _ x).
      assert (x ∈ x :: l) as Hx by left. rewrite <- E3 in Hx. by apply list_elem_of_filter in Hx as [_ Hx]. }
  destruct (default false _); [apply Hadd|]. rewrite !elem_of_app. intros [Hc|[Hc|Hc]].
  - by apply Hadd.
  - unfold table_entries. rewrite !elem_of_app. auto.
  - unfold table_entries. rewrite !elem_of_app. destruct (has_percentage _); [by apply not_elem_of_nil in Hc|auto].
Qed.

Lemma table_check (f : target_therm_cfg → bool) c : forallb f table_entries = true → c ∈ table_entries → f c = true.
Proof. intros Hf Hc. rewrite forallb_forall in Hf. by apply Hf, list_elem_of_In. Qed.

Lemma entries_ok c : c ∈ table_entries → entry_ok c = true.
Proof. apply table_check. vm_compute. reflexivity. Qed.

(** A threshold, back in the unit of the file. *)
Definition back (c : target_therm_cfg) (shutdown : bool) : option Z :=
  cast_signed 32 (fmul (threshold c shutdown (mul_of c)) (f32 (mul_of c))).

Definition exact (c : target_therm_cfg) : bool :=
  bool_decide (back c false = Some (throt_thresh c)) && bool_decide (back c true = Some (shutdwn_thresh c)) &&
  (0 <=? throt_thresh c) && (throt_thresh c <=? 10 ^ 6) && (0 <=? shutdwn_thresh c) && (shutdwn_thresh c <=? 10 ^ 6).

Lemma entries_exact c : c ∈ table_entries → back c false = Some (throt_thresh c) ∧
  back c true = Some (shutdwn_thresh c) ∧ 0 ≤ throt_thresh c ≤ 10 ^ 6 ∧ 0 ≤ shutdwn_thresh c ≤ 10 ^ 6.
Proof.
  intros Hc. assert (exact c = true) as He by (revert Hc; apply table_check; vm_compute; reflexivity).
  unfold exact in He. rewrite !andb_true_iff, !bool_decide_eq_true, !Z.leb_le in He. tauto.
Qed.

Lemma back_not_nan c b z : back c b = Some z → isnan (threshold c b (mul_of c)) = false.
Proof. unfold back. by destruct (threshold c b (mul_of c)). Qed.

(** ** The trips *)
Lemma int_of_small z : - 2 ^ 31 ≤ z < 2 ^ 31 → int_of z = Some z.
Proof. intros Hz. unfold int_of. rewrite (proj2 (Z.leb_le _ _)), (proj2 (Z.ltb_lt _ _)) by lia. done. Qed.

(** The trips that are written for a sensor of the tables with rising values.
    Without a severity the file gets the first threshold of the table; with that
    of the entry it gets that of shutdown, and the hysteresis brings the kernel's
    trip down to the first one less 5000; at shutdown it gets the number [n]
    that [NAN] is converted to, and the difference may overflow. *)
Definition trips_for (c : target_therm_cfg) (n zone : Z) (status : ThrottlingSeverity) : option (list write) :=
  if bool_decide (status = S_NONE) then Some [Trip zone (throt_thresh c)]
  else if bool_decide (status = S_SHUTDOWN) then
    let d := n - shutdwn_thresh c in
    if bool_decide (- 2 ^ 31 ≤ d < 2 ^ 31 ∧ - 2 ^ 31 ≤ d + 5000 < 2 ^ 31)
    then Some [Trip zone n; Hysteresis zone (d + 5000)] else None
  else Some [Trip zone (shutdwn_thresh c); Hysteresis zone (shutdwn_thresh c - throt_thresh c + 5000)].

Definition severity_of_entry (c : target_therm_cfg) (s : therm_sensor) : Prop :=
  throttlingStatus (s_t s) ∈ [S_NONE; cfg_severity c; S_SHUTDOWN].

Lemma next_threshold_for c status : c ∈ table_entries → status ∈ [S_NONE; cfg_severity c; S_SHUTDOWN] →
  next_threshold 7 (<[6%nat := threshold c true (mul_of c)]>
    (<[severity_nat (cfg_severity c) := threshold c false (mul_of c)]> no_thresholds)) 0 (severity_nat status) =
  Some (if bool_decide (status = S_NONE) then Some (threshold c false (mul_of c))
    else if bool_decide (status = S_SHUTDOWN) then None else Some (threshold c true (mul_of c))).
Proof.
  intros Hc Hst. destruct (entries_exact c Hc) as (B1 & B2 & _). apply back_not_nan in B1, B2.
  pose proof (entries_ok c Hc) as He. unfold entry_ok in He.
  rewrite !andb_true_iff, !bool_decide_eq_true in He. destruct He as [[[He1 He2] _] _].
  rewrite !elem_of_cons, elem_of_nil in Hst.
  destruct Hst as [->|[->|[->|[]]]]; destruct (cfg_severity c); try done; simpl; rewrite ?B1, ?B2; done.
Qed.

Lemma int_of_decide z : int_of z = if bool_decide (- 2 ^ 31 ≤ z < 2 ^ 31) then Some z else None.
Proof.
  unfold int_of. case_bool_decide as Hz.
  - by rewrite (proj2 (Z.leb_le _ _)), (proj2 (Z.ltb_lt _ _)) by lia.
  - destruct (Z.leb_spec (- 2 ^ 31) z), (Z.ltb_spec z (2 ^ 31)); try done. lia.
Qed.

(** [int_of] twice, as for the hysteresis. *)
Lemma hysteresis_of {A} d (f : Z → A) :
  (x ← int_of d; h ← int_of (x + DEFAULT_HYSTERESIS); Some (f h)) =
  if bool_decide (- 2 ^ 31 ≤ d < 2 ^ 31 ∧ - 2 ^ 31 ≤ d + 5000 < 2 ^ 31) then Some (f (d + 5000)) else None.
Proof.
  unfold DEFAULT_HYSTERESIS. rewrite int_of_decide. destruct (bool_decide_reflect (- 2 ^ 31 ≤ d < 2 ^ 31)) as [H1|H1];
    cbn [mbind option_bind]; [|by rewrite bool_decide_false by tauto].
  rewrite int_of_decide. destruct (bool_decide_reflect (- 2 ^ 31 ≤ d + 5000 < 2 ^ 31)) as [H2|H2]; cbn [mbind option_bind].
  - by rewrite bool_decide_true.
  - by rewrite bool_decide_false by tauto.
Qed.

Lemma initThreshold_for c nan_int netlink policy s : c ∈ table_entries → sensor_of c s →
  severity_of_entry c s →
  initThreshold nan_int netlink policy s =
    if positive_thresh_ramp c && policy_ok netlink policy
    then n ← nan_int; trips_for c n (tzn s) (throttlingStatus (s_t s)) else Some [].
Proof.
  intros Hc (Hm & Hp & Hh & _) Hst. unfold initThreshold. rewrite Hp.
  destruct (positive_thresh_ramp c) eqn:Hpos; [|done]. destruct (policy_ok netlink policy); [|done].
  cbn [negb orb andb]. rewrite Hh, Hm. pose proof (entries_ok c Hc) as He.
  destruct (set_thresholds_ok c (mul_of c) He) as [-> _].
  destruct nan_int as [n|]; [cbn [mbind option_bind]|done].
  rewrite (next_threshold_for c _ Hc Hst). cbn [mbind option_bind].
  destruct (entries_exact c Hc) as (B1 & B2 & R1 & R2). unfold back in B1, B2.
  unfold trips_for, severity_of_entry in *.
  assert (cfg_severity c ≠ S_NONE ∧ cfg_severity c ≠ S_SHUTDOWN) as [Hn Hsd].
  { unfold entry_ok in He. rewrite !andb_true_iff, !bool_decide_eq_true in He. tauto. }
  rewrite !elem_of_cons, elem_of_nil in Hst. destruct Hst as [E|[E|[E|[]]]]; rewrite E.
  - rewrite bool_decide_true, B1 by done. simpl. done.
  - rewrite !bool_decide_false, B2 by done. cbn [mbind option_bind]. rewrite decide_False by done.
    rewrite (thresholds_lookup c _ _ eq_refl). unfold threshold_at.
    rewrite bool_decide_false, bool_decide_true by done. cbn [mbind option_bind]. rewrite B1.
    cbn [mbind option_bind]. rewrite int_of_small by lia. cbn [mbind option_bind].
    unfold DEFAULT_HYSTERESIS. by rewrite int_of_small by lia.
  - cbn [mbind option_bind]. rewrite !(thresholds_lookup c _ S_SHUTDOWN eq_refl). unfold threshold_at.
    decide_severities. cbn [mbind option_bind]. rewrite decide_False, B2 by done.
    cbn [mbind option_bind]. apply (hysteresis_of _ (λ h, [Trip (tzn s) n; Hysteresis (tzn s) h])).
Qed.

(** A number that is not next to the ends of [int]. *)
Lemma trips_defined c n zone status : c ∈ table_entries → - 2 ^ 31 + 10 ^ 6 ≤ n ≤ 2 ^ 31 - 5001 →
  ∃ l, trips_for c n zone status = Some l.
Proof.
  intros Hc Hn. destruct (entries_exact c Hc) as (_ & _ & _ & R). unfold trips_for.
  case_bool_decide; [by eexists|]. case_bool_decide; [|by eexists].
  rewrite bool_decide_true by lia. by eexists.
Qed.

(** C24: For every sensor of the tables, of rising and of falling values, the
    new severity is that of shutdown if its threshold is reached, else that of
    the entry if its threshold is, else none, where the threshold of the
    severity in force counts as reached until the value has left it by the
    hysteresis; the answer is -1 exactly if nothing changes, and else the new
    severity, with the old one kept as the last. The trips that are then
    written are none for falling values or without the policy; else the
    conversion of NAN to int comes first, which C++ leaves undefined: if it
    gives a number, the first threshold of the table is written without a
    severity, that of shutdown with the severity of the entry, with a
    hysteresis down to the first threshold less 5000, and at shutdown that
    number, if the difference for its hysteresis does not overflow (else the
    call is undefined). *)
Theorem severity_meets_reference c s nan_int netlink policy : c ∈ table_entries → sensor_of c s →
  severity_of_entry c s →
  let before := throttlingStatus (s_t s) in
  let sev := severity_for c before (t_value (s_t s)) in
  ∃ r s', estimateSeverity s = Some (r, s') ∧
    throttlingStatus (s_t s') = sev ∧ t_value (s_t s') = t_value (s_t s) ∧ sensor_of c s' ∧
    severity_of_entry c s' ∧ (r = -1 ↔ sev = before) ∧
    (sev ≠ before → r = Z.of_nat (severity_nat sev) ∧ lastThrottleStatus s' = before) ∧
    initThreshold nan_int netlink policy s' =
      if positive_thresh_ramp c && policy_ok netlink policy then n ← nan_int; trips_for c n (tzn s) sev else Some [].
Proof.
  intros Hc Hs Hst before sev. pose proof (estimateSeverity_for c s (entries_ok c Hc) Hs) as He.
  cbv zeta in He. fold before sev in He.
  assert (sev ∈ [S_NONE; cfg_severity c; S_SHUTDOWN]) as Hsev.
  { unfold sev, severity_for. repeat case_match; rewrite !elem_of_cons; auto. }
  destruct (decide (sev = before)) as [E|E]; rewrite He.
  - exists (-1), s. rewrite (initThreshold_for c _ _ _ s Hc Hs Hst). fold before. rewrite E. naive_solver.
  - exists (Z.of_nat (severity_nat sev)), (with_status sev s).
    assert (severity_of_entry c (with_status sev s)) as Hst' by done.
    rewrite (initThreshold_for c nan_int netlink policy (with_status sev s) Hc Hs Hst').
    split; [done|]. split; [done|]. split; [done|]. split; [exact Hs|]. split; [done|].
    split; [split; [lia|done]|]. by split.
Qed.

(** ** The percentage of the battery *)

(** The value of a percentage is not divided, but its hysteresis is 5000 all
    the same. *)
Definition percent (v : Z) : spec_float := fdiv (f32 v) (f32 1).

Definition always_held (c : target_therm_cfg) : bool :=
  forallb (λ v, hit (positive_thresh_ramp c) true (mul_of c) (threshold c false (mul_of c)) (percent (Z.of_nat v)) &&
    hit (positive_thresh_ramp c) true (mul_of c) (threshold c true (mul_of c)) (percent (Z.of_nat v))) (seq 0 101).

Lemma always_held_at c v : always_held c = true → 0 ≤ v ≤ 100 →
  hit (positive_thresh_ramp c) true (mul_of c) (threshold c false (mul_of c)) (percent v) = true ∧
  hit (positive_thresh_ramp c) true (mul_of c) (threshold c true (mul_of c)) (percent v) = true.
Proof.
  intros Hh Hv. rewrite <- andb_true_iff. pose proof (proj1 (forallb_forall _ _) Hh (Z.to_nat v)) as Hf.
  cbv beta in Hf. rewrite Z2Nat.id in Hf by lia. apply Hf, in_seq. lia.
Qed.

Definition percentage_held (c : target_therm_cfg) : bool :=
  if bool_decide (cfg_type c = T_BCL_PERCENTAGE) then always_held c else true.

Lemma percentages_held c : c ∈ table_entries → cfg_type c = T_BCL_PERCENTAGE → always_held c = true.
Proof.
  intros Hc Ht. assert (percentage_held c = true) as H0.
  { revert Hc. apply table_check. vm_compute. reflexivity. }
  revert H0. unfold percentage_held. generalize (always_held c). intros b.
  by rewrite bool_decide_true by exact Ht.
Qed.

(** A sequence of values of the sensor. *)
Fixpoint samples (vs : list Z) (s : therm_sensor) : option therm_sensor :=
  match vs with
  | [] => Some s
  | v :: vs =>
      '(_, s) ← estimateSeverity (with_value (fdiv (f32 v) (f32 (mulFactor s))) s); samples vs s
  end.

(** Once the percentage of the battery has been reported as throttling,
    it is never taken back, whatever the percentage becomes, a full battery
    included. *)
Theorem percentage_never_recovers id platform c s vs : c ∈ config_of id platform →
  cfg_type c = T_BCL_PERCENTAGE → sensor_of c s →
  throttlingStatus (s_t s) ∈ [cfg_severity c; S_SHUTDOWN] → Forall (λ v, 0 ≤ v ≤ 100) vs →
  ∃ s', samples vs s = Some s' ∧ throttlingStatus (s_t s') ∈ [cfg_severity c; S_SHUTDOWN].
Proof.
  intros Hc%config_in_tables Ht Hs Hst Hvs. pose proof (percentages_held c Hc Ht) as Hheld.
  revert s Hs Hst. induction Hvs as [|v vs Hv _ IH]; intros s Hs Hst; [by exists s|].
  cbn [samples]. set (s1 := with_value _ s).
  assert (sensor_of c s1) as Hs1 by done.
  rewrite (estimateSeverity_for c s1 (entries_ok c Hc) Hs1). cbv zeta.
  assert (t_value (s_t s1) = percent v) as Hval.
  { unfold s1, percent. simpl. destruct Hs as [-> _]. unfold mul_of. by rewrite bool_decide_true. }
  set (sev := severity_for c _ _).
  assert (sev ∈ [cfg_severity c; S_SHUTDOWN]) as Hsev.
  { unfold sev, severity_for. rewrite Hval.
    destruct (always_held_at c v Hheld Hv) as [H1 H2].
    rewrite !elem_of_cons, elem_of_nil in *. change (throttlingStatus (s_t s1)) with (throttlingStatus (s_t s)).
    destruct Hst as [->|[->|[]]].
    - rewrite (bool_decide_true (cfg_severity c = cfg_severity c)), H1 by done. case_match; auto.
    - rewrite (bool_decide_true (S_SHUTDOWN = S_SHUTDOWN)), H2 by done. auto. }
  destruct (decide _) as [E|E]; cbn [mbind option_bind]; apply IH; try done.
Qed.

(** ** Runs *)
Section runs.
Context {K : Type} `{Countable K} (key : therm_sensor → K).
Context (order : gmap K therm_sensor → list (K * therm_sensor)).
Context (Horder : ∀ m, order m ≡ₚ map_to_list m).
Context (nan : Z) (Hnan : - 2 ^ 31 + 10 ^ 6 ≤ nan ≤ 2 ^ 31 - 5001) (netlink : bool) (policy : Z → file_answer).
Context (id : Z) (platform : string).
Abbreviation cfg := (config_of id platform).
Context (ncpus : nat) (Hcpus : Forall (λ c, cfg_type c = T_CPU → (ncpus ≤ length (sensor_list c))%nat) cfg).

Abbreviation state := (@utils K _ _).

(** The kernel's events and the calls that read the sensors. *)
Inductive event :=
  | Sample (k : K) (temp : Z)
  | TripCrossed (k : K) (trip : Z)
  | Appears (zs : zones) (reads : Z → nat → file_answer) (name : string)
  | Reads (type : option TemperatureType) (reads : Z → nat → file_answer).

Definition handle (e : event) (u : state) : option (state * list (@output K)) :=
  match e with
  | Sample k temp => sampleParse (Some nan) netlink policy k temp u
  | TripCrossed k trip => eventParse (Some nan) netlink policy k trip u
  | Appears zs reads name => eventCreateParse key (Some nan) netlink policy zs ncpus reads cfg name u
  | Reads type reads => '(u, out, _) ← readTemperatures order (Some nan) netlink policy type reads u; Some (u, out)
  end.

Fixpoint handle_all (l : list event) (u : state) : option (state * list (@output K)) :=
  match l with
  | [] => Some (u, [])
  | e :: l => '(u, out) ← handle e u; '(u, out') ← handle_all l u; Some (u, out ++ out')
  end.

(** What the clients are told of a sensor. *)
Definition told_by (k : K) (o : @output K) : option ThrottlingSeverity :=
  match o with Changed k' t => if decide (k' = k) then Some (throttlingStatus t) else None | _ => None end.

Definition told (k : K) (out : list (@output K)) : list ThrottlingSeverity := omap (told_by k) out.

(** Each is another than the one before; and the last. *)
Fixpoint differs (before : ThrottlingSeverity) (l : list ThrottlingSeverity) : Prop :=
  match l with [] => True | x :: l => x ≠ before ∧ differs x l end.

Definition ends (before : ThrottlingSeverity) (l : list ThrottlingSeverity) : ThrottlingSeverity :=
  foldl (λ _ x, x) before l.

Lemma differs_app a l l' : differs a (l ++ l') ↔ differs a l ∧ differs (ends a l) l'.
Proof. revert a. induction l as [|x l IH]; intros a; [naive_solver|]. simpl. rewrite IH. naive_solver. Qed.

Lemma ends_app a l l' : ends a (l ++ l') = ends (ends a l) l'.
Proof. apply foldl_app. Qed.

Lemma told_app k l l' : told k (l ++ l') = told k l ++ told k l'.
Proof. apply omap_app. Qed.

Lemma told_wrote k (w : list write) : told k (map Wrote w) = [].
Proof. by induction w. Qed.

Lemma told_changed k k' t (w : list write) :
  told k' (Changed k t :: map Wrote w) = if decide (k = k') then [throttlingStatus t] else [].
Proof.
  change (Changed k t :: map Wrote w) with ([Changed k t] ++ map Wrote w).
  rewrite told_app, told_wrote, app_nil_r. unfold told. simpl. by destruct (decide (k = k')).
Qed.

(** The severity that is stored for a key. *)
Definition stored (u : state) (k : K) : ThrottlingSeverity :=
  from_option (λ s, throttlingStatus (s_t s)) S_NONE (thermalConfig u !! k).

Definition fits (s : therm_sensor) : Prop :=
  ∃ c, c ∈ table_entries ∧ sensor_of c s ∧ severity_of_entry c s.

Record utils_ok (u : state) : Prop := UtilsOk {
  ok_sensors : ∀ k s, thermalConfig u !! k = Some s → fits s;
  ok_cmn : Forall (λ s, fits s ∧ throttlingStatus (s_t s) = S_NONE) (cmn_sens u);
  ok_init : is_sensor_init u = false → thermalConfig u = ∅
}.

(** What an operation does: it keeps the invariant, and tells of each sensor the
    changes that lead from the severity that was stored to the one that is. *)
Definition tells (u u' : state) (out : list (@output K)) : Prop :=
  utils_ok u' ∧ ∀ k, differs (stored u k) (told k out) ∧ ends (stored u k) (told k out) = stored u' k.

Lemma tells_refl u : utils_ok u → tells u u [].
Proof. done. Qed.

Lemma tells_trans u u' u'' out out' : tells u u' out → tells u' u'' out' → tells u u'' (out ++ out').
Proof.
  intros [_ H1] [Hu H2]. split; [done|]. intros k. destruct (H1 k) as [D1 E1], (H2 k) as [D2 E2].
  rewrite told_app, differs_app, ends_app, E1. auto.
Qed.

Lemma fits_value s v : fits s → fits (with_value v s).
Proof. done. Qed.

Lemma fits_read attempt s : fits s → fits (read_temperature attempt s).2 ∧
  throttlingStatus (s_t (read_temperature attempt s).2) = throttlingStatus (s_t s).
Proof.
  intros Hs. unfold read_temperature. generalize 0%nat as ct. induction RETRY_CT as [|n IH]; intros ct; [done|].
  cbn [read_loop]. destruct (readLineFromFile (attempt ct)) as [ret buf]. destruct (ret <=? 0); [done|].
  destruct (stoi buf); [done|]. by destruct (_ <? _)%nat; [|done].
Qed.

Lemma sensor_trips c pol zone status : c ∈ table_entries → ∃ l,
  (if positive_thresh_ramp c && policy_ok netlink pol then n ← Some nan; trips_for c n zone status else Some []) = Some l.
Proof.
  intros Hc. destruct (_ && _); [|by eexists]. cbn [mbind option_bind]. by apply trips_defined.
Qed.

(** One sensor is looked at and stored. *)
Lemma notify_tells k s u : utils_ok u → is_sensor_init u = true → fits s →
  stored u k = throttlingStatus (s_t s) →
  ∃ s' out, Notify (Some nan) netlink policy k s = Some (s', out) ∧ tells u (with_sensor k s' u) out.
Proof.
  intros [H1 H2 H3] Hi (c & Hc & Hs & Hst) Hk. unfold Notify, trips.
  destruct (severity_meets_reference c s (Some nan) netlink (policy (tzn s)) Hc Hs Hst)
    as (r & s' & -> & Hsev & _ & Hs' & Hst' & Hr & _ & _).
  cbn [mbind option_bind].
  assert (utils_ok (with_sensor k s' u)) as Hok.
  { split; [|done|simpl; congruence]. intros k' x. simpl. rewrite lookup_insert_Some.
    intros [[_ <-]|[_ Hx]]; [by exists c|by apply (H1 k')]. }
  assert (∀ k', k' ≠ k → stored (with_sensor k s' u) k' = stored u k') as Hother.
  { intros k' Hne. unfold stored. simpl. by rewrite lookup_insert_ne. }
  assert (stored (with_sensor k s' u) k = throttlingStatus (s_t s')) as Hthis.
  { unfold stored. simpl. by rewrite lookup_insert_eq. }
  destruct (decide (r = -1)) as [Er|Er].
  - exists s', []. split; [done|]. split; [done|]. intros k'. split; [done|]. simpl.
    destruct (decide (k' = k)) as [->|Hne]; [|by rewrite Hother]. rewrite Hthis, Hk, Hsev. symmetry. by apply Hr.
  - rewrite (initThreshold_for c _ _ _ s' Hc Hs' Hst').
    destruct (sensor_trips c (policy (tzn s')) (tzn s') (throttlingStatus (s_t s')) Hc) as [w ->].
    eexists s', _. split; [reflexivity|]. split; [done|]. intros k'. rewrite told_changed.
    destruct (decide (k = k')) as [<-|Hne].
    + rewrite Hthis, Hk. simpl. split; [|done]. split; [|done]. intros E. apply Er, Hr. congruence.
    + split; [done|]. by rewrite Hother.
Qed.

Lemma notify_stored_tells k s u : utils_ok u → is_sensor_init u = true → fits s →
  stored u k = throttlingStatus (s_t s) →
  ∃ u' out, notify_stored (Some nan) netlink policy k s u = Some (u', out) ∧ tells u u' out.
Proof.
  intros Hu Hi Hs Hk. destruct (notify_tells k s u Hu Hi Hs Hk) as (s' & out & E & Ht).
  unfold notify_stored. rewrite E. by eexists _, out.
Qed.

Lemma lookup_init u k s : utils_ok u → thermalConfig u !! k = Some s →
  fits s ∧ is_sensor_init u = true ∧ stored u k = throttlingStatus (s_t s).
Proof.
  intros [H1 _ H3] Hk. split; [by apply (H1 k)|]. split; [|unfold stored; by rewrite Hk].
  destruct (is_sensor_init u); [done|]. rewrite H3 in Hk by done. by rewrite lookup_empty in Hk.
Qed.

(** The sensors are stored when none was. *)
Lemma store_sensors_tells reads l u : Forall (λ s, fits s ∧ throttlingStatus (s_t s) = S_NONE) l →
  utils_ok u → is_sensor_init u = true → (∀ k, stored u k = S_NONE) →
  ∃ u' out, store_sensors key (Some nan) netlink policy reads l u = Some (u', out) ∧
    utils_ok u' ∧ (∀ k, stored u' k = S_NONE) ∧ (∀ k, told k out = []).
Proof.
  revert u. induction l as [|s l IH]; intros u Hl Hu Hi Hn; [by exists u, []|].
  apply Forall_cons in Hl as [[Hs Hst] Hl]. cbn [store_sensors].
  assert (utils_ok (with_sensor (key s) s u)) as Hu'.
  { destruct Hu as [H1 H2 H3]. split; [|done|simpl; congruence]. intros k x. simpl.
    rewrite lookup_insert_Some. intros [[_ <-]|[_ Hx]]; [done|by apply (H1 k)]. }
  assert (∀ k, stored (with_sensor (key s) s u) k = S_NONE) as Hn'.
  { intros k. unfold stored. simpl. destruct (decide (key s = k)) as [<-|Hne].
    - by rewrite lookup_insert_eq.
    - rewrite lookup_insert_ne by done. apply Hn. }
  destruct (fits_read (reads (tzn s)) s Hs) as [Hf _].
  destruct (read_temperature (reads (tzn s)) s) as [ret s1]. simpl in Hf.
  destruct Hf as (c & Hc & Hs1 & Hst1).
  destruct (severity_meets_reference c s1 (Some nan) netlink (policy (tzn s)) Hc Hs1 Hst1)
    as (r & s2 & -> & _ & _ & Hs2 & Hst2 & _).
  cbn [mbind option_bind]. unfold trips.
  rewrite (initThreshold_for c _ _ _ s2 Hc Hs2 Hst2).
  destruct (sensor_trips c (policy (tzn s2)) (tzn s2) (throttlingStatus (s_t s2)) Hc) as [w ->].
  cbn [option_map mbind option_bind].
  destruct (IH _ Hl Hu' Hi Hn') as (u' & out & -> & Hu'' & Hn'' & Ht). cbn [mbind option_bind].
  eexists u', _. split; [reflexivity|]. split; [done|]. split; [done|]. intros k.
  rewrite told_app, Ht, app_nil_r. apply told_wrote.
Qed.

(** ** Creating the sensors *)
Lemma new_sensor_fits c i name zone : c ∈ table_entries → fits (new_sensor c i name zone) ∧
  throttlingStatus (s_t (new_sensor c i name zone)) = S_NONE.
Proof.
  intros Hc. split; [|done]. exists c. split; [done|]. split; [apply sensor_of_new|]. left.
Qed.

Abbreviation fresh := (Forall (λ s, fits s ∧ throttlingStatus (s_t s) = S_NONE)).

Lemma initialize_sensor_fresh zs c i sens : c ∈ table_entries → (i < length (sensor_list c))%nat → fresh sens →
  ∃ r sens', initialize_sensor zs c i sens = Some (r, sens') ∧ fresh sens'.
Proof.
  intros Hc Hi Hs. unfold initialize_sensor.
  destruct (lookup_lt_is_Some_2 (sensor_list c) i Hi) as [name ->]. cbn [mbind option_bind].
  destruct (_ <? 0); [by eexists _, _|]. eexists _, _. split; [done|]. apply Forall_app. split; [done|].
  constructor; [by apply new_sensor_fits|constructor].
Qed.

Lemma initializeCpuSensor_fresh zs c cpus sens : c ∈ table_entries →
  Forall (λ i, (i < length (sensor_list c))%nat) cpus → fresh sens →
  ∃ r sens', initializeCpuSensor zs c cpus sens = Some (r, sens') ∧ fresh sens'.
Proof.
  intros Hc Hi. revert sens. induction Hi as [|i cpus Hi _ IH]; intros sens Hs; [by eexists _, _|].
  cbn [initializeCpuSensor]. destruct (initialize_sensor_fresh zs c i sens Hc Hi Hs) as (r & s' & -> & Hs').
  cbn [mbind option_bind]. destruct (r <? 0); [by eexists _, _|]. by apply IH.
Qed.

Definition listed (c : target_therm_cfg) : bool := bool_decide (sensor_list c ≠ []).

Lemma init_zones_fresh zs l sens : Forall (λ c, c ∈ table_entries) l →
  Forall (λ c, cfg_type c = T_CPU → (ncpus ≤ length (sensor_list c))%nat) l → fresh sens →
  ∃ r sens', init_zones zs ncpus l sens = Some (r, sens') ∧ fresh sens'.
Proof.
  intros Hl. revert sens. induction Hl as [|c l Hc _ IH]; intros sens Hn Hs; [by eexists _, _|].
  apply Forall_cons in Hn as [Hn Hns]. cbn [init_zones].
  assert (∃ r sens', (if bool_decide (cfg_type c = T_CPU) then initializeCpuSensor zs c (seq 0 ncpus) sens
    else initialize_sensor zs c 0 sens) = Some (r, sens') ∧ fresh sens') as (r & s' & -> & Hs').
  { case_bool_decide as Ht.
    - apply initializeCpuSensor_fresh; [done| |done]. apply Forall_forall. intros i Hi.
      apply elem_of_seq in Hi. specialize (Hn Ht). lia.
    - apply initialize_sensor_fresh; [done| |done].
      assert (listed c = true) as Hli by (revert Hc; apply table_check; vm_compute; reflexivity).
      apply bool_decide_eq_true in Hli. destruct (sensor_list c); [done|simpl; lia]. }
  cbn [mbind option_bind]. destruct (r <? 0); [by eexists _, _|]. by apply IH.
Qed.

Lemma init_sensors_tells zs reads u : utils_ok u → is_sensor_init u = false →
  ∃ u' out, init_sensors key (Some nan) netlink policy zs ncpus reads cfg u = Some (u', out) ∧ tells u u' out.
Proof.
  intros Hu Hi. pose proof (ok_init u Hu Hi) as He.
  assert (∀ k, stored u k = S_NONE) as Hn by (intros k; unfold stored; by rewrite He, lookup_empty).
  unfold init_sensors, initThermalZones.
  assert (∃ r sens', match cfg with [] => Some (-1, cmn_sens u) | _ => init_zones zs ncpus cfg (cmn_sens u) end =
    Some (r, sens') ∧ fresh sens') as (r & sens' & -> & Hs').
  { assert (∃ r sens', init_zones zs ncpus cfg (cmn_sens u) = Some (r, sens') ∧ fresh sens') as Hz.
    { apply init_zones_fresh; [|done|apply Hu]. apply Forall_forall. intros c. apply config_in_tables. }
    destruct cfg; [|done]. eexists _, _. split; [done|apply Hu]. }
  cbn [mbind option_bind]. destruct (0 <? r).
  - set (u0 := Utils true _ _ _ _).
    assert (utils_ok u0) as Hu0 by (split; [apply Hu|done|done]).
    destruct (store_sensors_tells reads sens' u0 Hs' Hu0 eq_refl Hn) as (u' & out & -> & Hu' & Hn' & Ht).
    exists u', out. split; [done|]. split; [done|]. intros k. by rewrite Ht, Hn, Hn'.
  - eexists _, []. split; [done|]. split; [|done]. split; [apply Hu|done|done].
Qed.

Lemma read_all_tells type reads l u : NoDup l.*1 → utils_ok u →
  (∀ k s, (k, s) ∈ l → thermalConfig u !! k = Some s) →
  ∃ u' out r, read_all (Some nan) netlink policy type reads l u = Some (u', out, r) ∧ tells u u' out.
Proof.
  revert u. induction l as [|[k s] l IH]; intros u Hnd Hu Hl; [by exists u, [], (Some [])|].
  apply NoDup_cons in Hnd as [Hk Hnd]. cbn [read_all].
  destruct (lookup_init u k s Hu (Hl k s ltac:(left))) as (Hs & Hi & Hst).
  assert (∀ s', ∀ k' x, (k', x) ∈ l → thermalConfig (with_sensor k s' u) !! k' = Some x) as Hl'.
  { intros s' k' x Hx. simpl. rewrite lookup_insert_ne; [apply Hl; by right|]. intros <-.
    apply Hk. by apply (list_elem_of_fmap_2 fst _ (k, x)). }
  case_bool_decide; [|apply IH; [done|done|]; intros k' x Hx; apply Hl; by right].
  destruct (fits_read (reads (tzn s)) s Hs) as [Hf Hfst].
  destruct (read_temperature (reads (tzn s)) s) as [ret s1]. simpl in Hf, Hfst.
  destruct (ret <? 0).
  - eexists _, [], None. split; [done|]. destruct Hu as [H1 H2 H3]. split.
    + split; [|done|simpl; congruence]. intros k' x. simpl.
      rewrite lookup_insert_Some. intros [[_ <-]|[_ Hx]]; [done|by apply (H1 k')].
    + intros k'. split; [done|]. simpl. unfold stored. simpl. destruct (decide (k = k')) as [<-|Hne].
      * rewrite lookup_insert_eq. simpl. rewrite Hfst. exact Hst.
      * by rewrite lookup_insert_ne.
  - destruct (notify_tells k s1 u Hu Hi Hf ltac:(congruence)) as (s2 & out & -> & Ht).
    cbn [mbind option_bind].
    destruct (IH (with_sensor k s2 u) Hnd (proj1 Ht) (Hl' s2)) as (u' & out' & r & -> & Ht').
    cbn [mbind option_bind]. eexists _, _, _. split; [done|]. by apply (tells_trans _ (with_sensor k s2 u)).
Qed.

Lemma handle_tells e u : utils_ok u → ∃ u' out, handle e u = Some (u', out) ∧ tells u u' out.
Proof.
  intros Hu. destruct e as [k temp|k trip|zs reads name|type reads]; cbn [handle].
  - unfold sampleParse. destruct (thermalConfig u !! k) as [s|] eqn:Hk; [|by exists u, []].
    destruct (lookup_init u k s Hu Hk) as (Hs & Hi & Hst). by apply notify_stored_tells.
  - unfold eventParse. destruct (negb _); [by exists u, []|].
    destruct (thermalConfig u !! k) as [s|] eqn:Hk; [|by exists u, []].
    destruct (lookup_init u k s Hu Hk) as (Hs & Hi & Hst). by apply notify_stored_tells.
  - unfold eventCreateParse. destruct (is_sensor_init u) eqn:Hi; [by exists u, []|].
    destruct (negb _); [by exists u, []|]. by apply init_sensors_tells.
  - unfold readTemperatures. destruct (read_all_tells type reads (order (thermalConfig u)) u) as (u' & out & r & E & Ht);
      [rewrite Horder; apply NoDup_fst_map_to_list|done| |].
    { intros k s. rewrite Horder. apply elem_of_map_to_list. }
    rewrite E. by eexists _, _.
Qed.

Lemma handle_all_tells l u : utils_ok u → ∃ u' out, handle_all l u = Some (u', out) ∧ tells u u' out.
Proof.
  revert u. induction l as [|e l IH]; intros u Hu; [by exists u, []|]. cbn [handle_all].
  destruct (handle_tells e u Hu) as (u1 & out1 & -> & H1). cbn [mbind option_bind].
  destruct (IH u1 (proj1 H1)) as (u2 & out2 & -> & H2). cbn [mbind option_bind].
  eexists _, _. split; [done|]. by apply (tells_trans _ u1).
Qed.

(** C23: With the tables of any chip and at least as many names as cores in
    its list of them, and if the conversion of NAN to int that every call of
    initThreshold makes, which C++ leaves undefined, gives a number that is
    not within 10^6 of the ends of int (as on ARM, where it gives 0): whatever
    the files hold and the kernel reports, every operation is defined, from
    the creation on; of each sensor the clients are told every change of its
    severity once, beginning with none, each time another than the one before;
    and the last they were told is the severity that is stored. *)
Theorem changes_are_told zs reads devices states l :
  ∃ u0 out0 u out, new_utils key (Some nan) netlink policy zs ncpus reads devices states cfg = Some (u0, out0) ∧
    handle_all l u0 = Some (u, out) ∧
    ∀ k, differs S_NONE (told k (out0 ++ out)) ∧ ends S_NONE (told k (out0 ++ out)) = stored u k.
Proof.
  assert (utils_ok (Utils (K := K) false false ∅ [] [])) as Hu.
  { split; [|done|done]. intros k s. simpl. by rewrite lookup_empty. }
  destruct (init_sensors_tells zs reads _ Hu eq_refl) as (u1 & out1 & E1 & H1).
  set (u0 := match initCdev devices states with
    | [] => u1 | c => Utils (is_sensor_init u1) true (thermalConfig u1) c (cmn_sens u1) end).
  assert (tells (Utils false false ∅ [] []) u0 out1) as H0.
  { destruct H1 as [[O1 O2 O3] H1]. unfold u0. by destruct (initCdev devices states). }
  destruct (handle_all_tells l u0 (proj1 H0)) as (u & out & E2 & H2).
  exists u0, out1, u, out. split; [|split; [done|]].
  - unfold new_utils. rewrite E1. cbn [mbind option_bind]. unfold u0. by destruct (initCdev devices states).
  - destruct (tells_trans _ _ _ _ _ H0 H2) as [_ H3]. exact H3.
Qed.
End runs.

(** ** The clients *)
Section clients.
Context {K : Type} `{Countable K}.
Abbreviation service := (@thermal K _ _).

(** The calls of the clients, and a change that is told to them. *)
Inductive client_call :=
  | Register (client : option Z)
  | RegisterWithType (client : option Z) (type : TemperatureType)
  | Unregister (client : option Z)
  | Tell (alive : Z → bool) (type : TemperatureType).

Definition client_step (c : client_call) (t : service) : service :=
  match c with
  | Register client => (registerThermalChangedCallback client t).2
  | RegisterWithType client type => (registerThermalChangedCallbackWithType client type t).2
  | Unregister client => (unregisterThermalChangedCallback client t).2
  | Tell alive type => Thermal (sendThrottlingChangeCB alive type (cb t)).1 (t_utils t)
  end.

Lemma registered_false c l : registered c l = false → c ∉ l.*1.
Proof.
  unfold registered. intros Hr (x & -> & Hx)%list_elem_of_fmap.
  apply not_true_iff_false in Hr. apply Hr, existsb_exists. exists x. rewrite Z.eqb_refl.
  by rewrite <- list_elem_of_In.
Qed.

Lemma registered_fresh c ty l : NoDup l.*1 → registered c l = false → NoDup (l ++ [(c, ty)]).*1.
Proof.
  intros Hl Hc%registered_false. rewrite fmap_app. apply NoDup_app. split; [done|].
  split; [by intros x Hx ->%list_elem_of_singleton|apply NoDup_singleton].
Qed.

Lemma erase_client_sublist c l : sublist (erase_client c l) l.
Proof.
  induction l as [|x l IH]; [done|]. simpl. destruct (_ =? _); [by apply sublist_cons|by apply sublist_skip].
Qed.

Lemma send_sublist alive type l : sublist (sendThrottlingChangeCB alive type l).1 l.
Proof.
  induction l as [|[c ty] l IH]; [done|]. simpl. destruct (sendThrottlingChangeCB alive type l) as [l' called].
  case_bool_decide; [|by apply sublist_skip]. destruct (alive c); [by apply sublist_skip|by apply sublist_cons].
Qed.

Lemma sublist_fst_nodup (l k : list (Z * TemperatureType)) : sublist l k → NoDup k.*1 → NoDup l.*1.
Proof. intros Hs Hk. apply (sublist_NoDup _ _ Hk). by apply fmap_sublist. Qed.

Lemma client_step_nodup c t : NoDup (cb t).*1 → NoDup (cb (client_step c t)).*1.
Proof.
  intros Ht. destruct c as [[c|]|[c|] ty|[c|]|alive ty];
    cbn [client_step registerThermalChangedCallback registerThermalChangedCallbackWithType
      unregisterThermalChangedCallback]; try done.
  - destruct (registered c (cb t)) eqn:E; [done|by apply registered_fresh].
  - destruct (bool_decide _); [done|]. destruct (registered c (cb t)) eqn:E; [done|by apply registered_fresh].
  - destruct (registered c (cb t)); [|done]. simpl. eapply sublist_fst_nodup, Ht. apply erase_client_sublist.
  - eapply sublist_fst_nodup, Ht. apply send_sublist.
Qed.

Definition concerns (type : TemperatureType) (c : Z * TemperatureType) : bool :=
  bool_decide (c.2 = type ∨ c.2 = T_UNKNOWN).

Lemma send_spec alive type l : sendThrottlingChangeCB alive type l =
  (List.filter (λ c, negb (concerns type c) || alive c.1) l, (List.filter (concerns type) l).*1).
Proof.
  induction l as [|[c ty] l IH]; [done|]. simpl. rewrite IH.
  change (bool_decide (ty = type ∨ ty = T_UNKNOWN)) with (concerns type (c, ty)).
  destruct (concerns type (c, ty)); [by destruct (alive c)|done].
Qed.

Lemma filter_sublist {A} (f : A → bool) (l : list A) : sublist (List.filter f l) l.
Proof. induction l as [|x l IH]; [done|]. simpl. destruct (f x); [by apply sublist_skip|by apply sublist_cons]. Qed.

(** Whatever the calls, no client is in the list twice; a change calls, once
    each and in the order of registration, exactly the clients of its type and
    those of all types; and of these exactly the dead leave the list. *)
Theorem clients_called_once u calls alive type :
  let t := foldl (λ t c, client_step c t) (Thermal [] u) calls in
  let '(l, called) := sendThrottlingChangeCB alive type (cb t) in
  NoDup called ∧ called = (List.filter (concerns type) (cb t)).*1 ∧
  l = List.filter (λ c, negb (concerns type c) || alive c.1) (cb t).
Proof.
  cbv zeta. set (t0 := Thermal [] u). assert (NoDup (cb t0).*1) as Ht by apply NoDup_nil_2.
  revert Ht. generalize t0. induction calls as [|c calls IH]; intros t Ht.
  - simpl. rewrite send_spec. split; [|done]. eapply sublist_fst_nodup, Ht.
    apply filter_sublist.
  - apply IH. by apply client_step_nodup.
Qed.
End clients.

(** ** At concrete inputs *)
Definition skin_625 : target_therm_cfg := Cfg T_SKIN ["xo-therm-adc"]%string "skin" 55000 95000 true S_SEVERE.
Definition socd_entry : target_therm_cfg := Cfg T_BCL_PERCENTAGE ["socd"]%string "socd" 90 99 true S_SEVERE.

Lemma in_tables_by (c : target_therm_cfg) id platform :
  existsb (λ c', bool_decide (c' = c)) (config_of id platform) = true → c ∈ config_of id platform.
Proof. rewrite existsb_exists. intros (c' & Hc & ->%bool_decide_eq_true). by apply list_elem_of_In. Qed.

(** At 52 degrees a skin of 55 that was severe is severe; at 49 it is not. *)
Lemma severity_meets_reference_witness :
  let s v := with_value (f32 v) (with_status S_SEVERE (new_sensor skin_625 0 "xo-therm-adc" 7)) in
  (∃ r s', estimateSeverity (s 52) = Some (r, s') ∧ r = -1) ∧
  (∃ r s', estimateSeverity (s 49) = Some (r, s') ∧ r = 0 ∧
    initThreshold (Some 0) true (Text "") s' = Some [Trip 7 55000]).
Proof.
  assert (skin_625 ∈ table_entries) as Hc.
  { apply (config_in_tables 293 ""), in_tables_by. vm_compute. reflexivity. }
  assert (∀ v, severity_of_entry skin_625 (with_value (f32 v) (with_status S_SEVERE (new_sensor skin_625 0 "xo-therm-adc" 7))))
    as Hst by (intros v; right; left).
  intros s. split.
  - destruct (severity_meets_reference skin_625 (s 52) (Some 0) true (Text "") Hc (sensor_of_new _ _ _ _) (Hst 52))
      as (r & s' & E & _ & _ & _ & _ & Hr & _). exists r, s'. split; [exact E|]. apply Hr. vm_compute. reflexivity.
  - destruct (severity_meets_reference skin_625 (s 49) (Some 0) true (Text "") Hc (sensor_of_new _ _ _ _) (Hst 49))
      as (r & s' & E & _ & _ & _ & _ & _ & Hr & Ht). exists r, s'. split; [exact E|]. split.
    + apply Hr. vm_compute. discriminate.
    + rewrite Ht. vm_compute. reflexivity.
Defined.

Lemma percentage_never_recovers_witness : ∃ s',
  samples [95; 10; 0] (with_status S_SEVERE (new_sensor socd_entry 0 "socd" 4)) = Some s' ∧
  throttlingStatus (s_t s') ∈ [S_SEVERE; S_SHUTDOWN].
Proof.
  apply (percentage_never_recovers 293 "" socd_entry); [|done|apply sensor_of_new|left|].
  - apply in_tables_by. vm_compute. reflexivity.
  - repeat constructor; lia.
Defined.

Lemma cpus_by id platform ncpus :
  forallb (λ c, if bool_decide (cfg_type c = T_CPU) then (ncpus <=? length (sensor_list c))%nat else true)
    (config_of id platform) = true →
  Forall (λ c, cfg_type c = T_CPU → (ncpus ≤ length (sensor_list c))%nat) (config_of id platform).
Proof.
  rewrite forallb_forall. intros Hf. apply Forall_forall. intros c Hc Ht.
  specialize (Hf c (proj1 (list_elem_of_In _ _) Hc)). rewrite bool_decide_true in Hf by done. by apply Nat.leb_le.
Qed.

(** A run: the zones are there, the skin becomes hot and then cold, and each
    change is told once. *)
Definition zones_of (l : list target_therm_cfg) : zones :=
  Some (zip (map Z.of_nat (seq 0 100)) (Text <$> concat (sensor_list <$> l))).

Definition run_625 (l : list event) : option (list (@output Z)) :=
  '(u, _) ← new_utils tzn (Some 0) true (λ _, Text "") (zones_of (config_of 293 "")) 8 (λ _ _, Text "30000") None
    (λ _ _, Text "0") (config_of 293 "");
  snd <$> handle_all tzn map_to_list 0 true (λ _, Text "") 293 "" 8 l u.

Example skin_hot_and_cold :
  told 10 <$> run_625 [Sample 10 56000; Sample 10 52000; Sample 10 49000; Sample 10 96000] =
    Some [S_SEVERE; S_NONE; S_SHUTDOWN].
Proof. vm_compute. reflexivity. Qed.

(** Two tables list the percentage as one that falls: a battery at half is then
    told to shut down. *)
Example percentage_listed_as_falling :
  let c := Cfg T_BCL_PERCENTAGE ["socd"]%string "socd" 90 99 false S_SEVERE in
  existsb (λ c', bool_decide (c' = c)) (config_of 417 "") = true ∧
  (fst <$> estimateSeverity (with_value (percent 50) (new_sensor c 0 "socd" 4))) = Some 6.
Proof. vm_compute. done. Qed.

(** A file that cannot be opened counts as read: the value stays as it was, and
    no error is given. *)
Example missing_file_counts_as_read s : read_temperature (λ _, OpenFailed 2) s = (2, s).
Proof. reflexivity. Qed.

(** At the highest severity a trip is written that is no temperature. *)
Example shutdown_writes_a_trip : initThreshold (Some 0) true (Text "")
  (with_status S_SHUTDOWN (new_sensor skin_625 0 "xo-therm-adc" 7)) = Some [Trip 7 0; Hysteresis 7 (-90000)].
Proof. vm_compute. reflexivity. Qed.

(** Where the conversion gives the least number, the hysteresis overflows. *)
Example shutdown_overflows : initThreshold (Some (- 2 ^ 31)) true (Text "")
  (with_status S_SHUTDOWN (new_sensor skin_625 0 "xo-therm-adc" 7)) = None.
Proof. vm_compute. reflexivity. Qed.

(** The sensor that is stored first is not the copy that was read. *)
Example first_reading_is_not_stored :
  let u := new_utils tzn (Some 0) true (λ _, Text "") (zones_of (config_of 293 "")) 8 (λ _ _, Text "96000") None
    (λ _ _, Text "0") (config_of 293 "") in
  ((λ u : utils * list output, stored u.1 10) <$> u) = Some S_NONE.
Proof. vm_compute. reflexivity. Qed.

(** A name of a sensor that another begins with finds the other's zone. *)
Example prefix_finds_another_zone : get_tzn (Some [(3, Text "gpu-step"); (4, Text "gpu")]) "gpu" = 3.
Proof. reflexivity. Qed.

Lemma changes_are_told_witness : ∃ u0 out0 u out,
  new_utils tzn (Some 0) true (λ _, Text "") (zones_of (config_of 293 "")) 8 (λ _ _, Text "30000") None (λ _ _, Text "0")
    (config_of 293 "") =
    Some (u0, out0) ∧
  handle_all tzn map_to_list 0 true (λ _, Text "") 293 "" 8
    [Sample 10 56000; Appears None (λ _ _, Text "") "xo-therm-adc"; Sample 10 49000] u0 = Some (u, out) ∧
  ∀ k, differs S_NONE (told k (out0 ++ out)) ∧ ends S_NONE (told k (out0 ++ out)) = stored u k.
Proof.
  apply (changes_are_told tzn map_to_list); [done|lia|]. apply cpus_by. vm_compute. reflexivity.
Defined.
